(* ===== verification/_CoqProject ===== *)
-Q . S2P
Prelude.v
GoLib.v
GoStrings.v
Trace.v
GoValue.v
GoJson.v
ContextModel.v
ContextCompiler.v
OrchModel.v
GraphSearch.v
Validate.v
Definitions.v
PredicateSpec.v
GraphSpec.v
ProjectionData.v
Projection.v
Repair.v
RepairSpec.v
Transition.v
ContextSpec.v
Structural.v
Samples.v
ContextProps.v
ContextCompilerProps.v
DefinitionsProps.v
StartSpec.v
RouteSpec.v
FinishSpec.v
ReducerInv.v
Scheduler.v
Events.v
ProviderOutcome.v
ProviderOutcomeProps.v
Repository.v
Outbox.v
EventChain.v
Machine.v
RepositoryInv.v
RepositoryOps.v
RepositoryProps.v
OutboxProps.v
Replay.v
ReducerProps.v
StructuralProps.v
SchedulerProps.v
Executor.v
ExecutorSpec.v
ExecutorProps.v
Worker.v
WorkerProps.v
Lifecycle.v
LifecycleProps.v
Workflow.v
Journal.v
Effects.v
ToolLoop.v
JournalSpec.v
JournalOps.v
JournalAlone.v
JournalProps.v
EffectProps.v
ToolLoopProps.v
JournalSamples.v
Pipeline.v
PipelineProps.v
Migration.v
MigrationProps.v
LegacyGraph.v
LegacyProps.v
PipelineSamples.v
EventBus.v
EventBusSpec.v
EventBusProps.v
EventBusLive.v
EventBusSamples.v
Harness.v
HarnessStore.v
HarnessSpec.v
HarnessProps.v
Findings.v
