(* ===== verification/Prelude.v ===== *)
(** * ADRO: a verification of the control plane

    ADRO is a control plane that runs a requirement as a frozen workflow graph:
    agents, squads, gates, merges, repair controllers and humans are the nodes,
    edges carry conditions, traversal limits and join policies, and every attempt
    at a node is leased, fenced, recorded in a hash-chained event log and stored
    next to a projection of the plan's state.  Beside it run an execution journal
    for tool calls, the harness store of agent sessions, the older seven-stage
    pipeline with its migration to graphs, and a local event bus.  This library models
    that core, from the definitions a user publishes down to the files it is stored in,
    and proves what makes it correct.

    ** How the parts interact

    A definition (agent, squad, graph) is validated and frozen into a plan
    (model.go, validate.go).  [NewProjection] starts the plan's state;
    [readyNodesAt] says which nodes may run (scheduler.go); [StartAttempt] and
    [FinishAttempt] are the only functions that change a projection
    (transition.go).  Structural nodes are decided by adapters (structural.go),
    provider nodes by a run whose context is an immutable envelope
    (context/manifest.go, harness/store.go).  The executor (executor.go) wraps
    every reducer call in an event (events.go) and commits event and projection
    to the repository together (repository.go); the outbox of the same repository
    carries delivery intents, which a dispatcher drains (outbox_worker.go).  A
    worker (worker.go) polls the provider's runs and turns what they report into
    completions.  After a crash the log is replayed by the reducer itself.

    Inside a run, tool calls and external effects go through the runtime kernel
    (runtime/kernel.go): an append-only journal file, shared by processes under a
    file lock, from which the state of every execution is rebuilt; runtime/loop.go
    drives one call through it.  The conversation of a run is a session of the
    harness store (harness/store.go): hash-chained turns, checkpoints, archives of
    compacted windows, memories, leases and an outbox, kept in a snapshot with a
    crash journal and in an append-only transcript; the context of the next run is
    compiled from it by the same compiler.  A requirement that still uses the seven-stage
    pipeline (domain/pipeline.go, pipeline/engine.go) is migrated to a frozen plan
    (compat/pipeline_stage.go), and what the pipeline decides is recorded against
    that plan (api/legacy_graph.go).  What happens is announced on the event bus
    (events/events.go), whose history is again a chain in a file several processes
    share.

    ** Files and sources (paths under src/internal unless they say otherwise)

    - Prelude: results, errors, sentinels, list and map lemmas, tactics.
    - GoLib, GoStrings, GoValue: the Go library the sources use: wrapping [int64],
      time, byte strings, map iteration in any order ([MapRange]), stable sorting,
      [any] values, IEEE-754 numbers.
    - OrchModel, Definitions: orchestration/model.go.
    - GraphSearch, Validate: orchestration/validate.go and the two path helpers of
      structural.go and transition.go.
    - ProjectionData, Projection, Repair, Transition: orchestration/transition.go
      ([PlanProjection], its [Validate], [StartAttempt], [FinishAttempt], [route],
      the repair plans) and [cloneProjection] of executor.go.
    - Scheduler: orchestration/scheduler.go (readiness, retry, cancel, timeout,
      takeover).
    - Structural: orchestration/structural.go.
    - ContextModel, ContextCompiler, Trace: context/manifest.go (manifests; the
      budgeted compiler, its summarizer and rendering), the envelopes of
      harness/store.go with [WithRequiredBlock], telemetry/trace.go.
    - Events: orchestration/events.go.
    - Repository, Outbox: orchestration/repository.go and outbox_worker.go.
    - Executor: orchestration/executor.go over that store ([FinishAttempt],
      [AdvanceStructural], [dispatchReady] with nested squad plans) and
      [Scheduler.Tick] of scheduler.go.
    - ProviderOutcome, Worker: orchestration/worker.go (the classification of a
      provider's run; [Reconcile], lost bindings, [Run]).
    - Lifecycle: src/runtime/lifecycle/manager.go.
    - Workflow: domain/domain.go (statuses) and workflow/workflow.go (gates).
    - Journal, Effects, ToolLoop: runtime/kernel.go (the journal file, its
      executions and steps; tool calls and external effects) and runtime/loop.go.
    - Pipeline, Migration, LegacyGraph: domain/pipeline.go with the workflow part
      of domain/workflow_chat.go and pipeline/engine.go; compat/pipeline_stage.go;
      api/legacy_graph.go.
    - Harness, HarnessStore: harness/store.go: a session and the functions on it
      (validation, checkpoints, compaction, turns); the store with its files,
      [New], every operation, the integrity probes and the context adapter.
    - EventBus: events/events.go (envelopes, the snapshot file, publishing,
      replay by cursor, subscriptions).
    - PredicateSpec, GraphSpec, RepairSpec, StartSpec, RouteSpec, FinishSpec,
      ContextSpec, EventChain, Machine, ReducerInv, RepositoryInv, RepositoryOps,
      Replay, ExecutorSpec, JournalSpec, JournalOps, JournalAlone, EventBusSpec and
      HarnessSpec hold specifications and the lemmas of their component; the files
      named [...Props], and EventBusLive, hold its properties; Samples,
      JournalSamples, PipelineSamples and EventBusSamples the concrete inputs and
      the witnesses that need them; these, HarnessProps and Findings the behaviours
      the sources do not intend.

    ** What the theorems show

    Each theorem's comment states every condition it needs; where the program does
    something else without the condition, the comment names the example that shows it.

    - Graphs: [ValidateGraph] decides a well-formedness predicate stated field by
      field without the validators ([node_ok], [edge_ok], [links_ok], [pred_wf] and
      the reachability conditions of [GraphWF]); every cycle of an accepted graph
      crosses a bounded edge, the path search is exact, predicates are total.
    - Reducer: in every projection reachable by starts, completions, takeovers,
      bindings and retries of trimmed node ids, a node has at most one running
      attempt, the counter and the logged decisions of a bounded edge stay within its
      limit, ended attempts never change, repair plans follow their lifecycle, the node
      checks of [Validate] pass; completions of running attempts are fenced, and
      completions are idempotent but for the waiting event; a refused start changes
      nothing and a failed completion restores what it must; success needs a passed
      exit attempt and verified repairs.
    - Scheduling: readiness is deterministic whatever the map order, joins are
      satisfied when a node runs, backoff doubles up to a day.
    - Adapters: decisions carry evidence, gates fail closed, merges follow their
      policy, a planned repair is one the reducer accepts.
    - Events: a new event extends the chain, the last hash binds the history (up
      to an explicit hash collision), replaying a log of recorded operations rebuilds
      exactly the projection.
    - Repository: operations are atomic, history is append-only, and the tables stay
      valid whatever I/O faults occur; the snapshot file loads again as long as plans
      and events come back from JSON with the digests they were stored with
      ([readable]); outbox leases are exclusive and the dispatcher drains the outbox.
    - Executor and worker: after a completion or a dispatch pass the stored log is a
      valid chain that replays to exactly the stored projection ([consistent] is the
      relation the steps preserve), for providers that name the runs they start and
      completions whose fields JSON carries; the same of a worker pass that observes
      no finished run.  A bounded worker returns within its ticks and an unbounded one
      strands nothing.
    - Provider runs: the result marker is read back as printed, every completion
      derived from a run carries evidence, and which outcomes pass is exact.
    - Definitions and contexts: what validated agents, squads, plans, manifests
      and envelopes guarantee; a compiled context keeps every mandatory block and
      whole tool transactions, within its budget, and exists exactly when the
      mandatory part fits.
    - Lifecycle and workflow: components start in dependency order and a running
      component has running dependencies; requirement gates fail closed.
    - Runtime kernel: whatever other processes append between two operations, the
      journal only grows, stays a valid chain, and an operation that reports
      success is in it (a rely/guarantee argument, in which the re-read of the file
      just written does not fail); while one process holds the
      journal its operations refine plain operations on the list of events: batches
      are atomic and fenced, a takeover fences every earlier token, an
      effect moves only along its lifecycle and is never executed twice; the tool
      loop runs the callback of a call at most once, retries included.
    - Harness store: a property of sessions that every change of a session keeps
      ([closed]) holds in memory, in the snapshot and in the journal after any
      operations, faults and restarts of one process ([holds_steps]).  By it every
      session always
      passes the validation of a restart (summaries being rated within [0,1]), turns
      and effects acknowledged with their journal removed are permanent, a
      recorded tool call is found again, and leases are exclusive; a process that was
      overtaken writes nothing; a compiled context keeps the objective.
    - Pipeline: an applied result keeps a run well formed and moves its counters
      exactly when it should, evidence is never replaced, repair rounds are bounded and
      delivery can finish; every valid run migrates to a graph [ValidateGraph]
      accepts, in which the result of a stage matches exactly the edge to the stage
      the engine chose.
    - Event bus: the shared history is append-only and a publication that was
      acknowledged stays in it; reading by cursor returns each event once and in
      order; a subscriber is told of the events it lost by the next publication that
      finds room in its buffer.

    ** Conventions, bounds and fuel

    A Go function that returns an error is a function to [result]; one that
    assigns through a pointer returns the state it leaves behind next to its
    result, on the error paths too.  [int64] sums wrap ([add64]).  The wall clock,
    random ids and I/O outcomes are arguments.  [crypto/sha256], [encoding/json]
    and the order of map iteration are class parameters (Samples instantiates
    each), so no theorem depends on a particular digest or encoding; where
    injectivity would matter the statement exhibits the collision instead.  The
    repository's snapshot is encoded and read back: a value of type [any] and a raw
    payload come back as the codec's functions ([JsonClone]) make them, without any
    law, every other field as it was.  Replay assumes of encoding/json that it reads
    back the typed fields of a payload, and [any] fields without Go integers and typed
    slices.
    Graph searches, Kahn's loop and the squad traversal recurse on fuel, computed
    from the graph; the lemmas next to each show the fuel is never exhausted.  The
    backoff, dispatch and drain loops are structural.  [Run] consumes one entry of
    a list of iterations per tick, and [Reconcile] a nesting depth; its theorem is
    about plans without nested plans, for which depth one is enough.  A provider is
    the record of what its calls answer, which depends on the moment of the call
    ([World]).  A write to the snapshot file
    succeeds, fails before the rename or fails after it ([fault]); an append to the
    journal may also stop inside a line.  The journal's and the bus's other
    processes are a relation between the file before and after an operation, of
    which only what their own operations guarantee is assumed; the files of the
    journal, the bus and the harness store hold their decoded content.  The harness
    theorems are about one process and its restarts; their bound [fits] (a session
    below a terabyte of text) keeps float arithmetic on word counts exact.  Unicode
    case tables and the white space [MarshalIndent] puts into raw JSON are
    parameters of the harness model, and strings are valid UTF-8; elsewhere
    [EqualFold] and [ToLower] fold ASCII letters only, so texts with other letters
    that differ in case compare as different.  A lifecycle component counts as stopped
    once its Stop was called, whatever Stop returned, as in the manager's own list.

    ** Not modelled, and why

    HTTP handlers (internal/api) and the command line are adapters over the
    operations above; the SQL repository restates the in-memory one over
    database/sql, whose transactions are outside the sources; providers and
    workspace bundles mostly perform process, file and network I/O.  Goroutine
    interleavings inside one repository or store are excluded by its mutex, which
    the model reflects by one step per operation.  Tracing spans are
    dropped: nothing reads them back.  The executor is modelled over the store the
    API gives it, which implements every optional interface, so [appendWithTail]
    is left out; so is the word count of a model-aware tokenizer, which classifies
    Unicode letters. *)
From stdpp Require Import base strings gmap list pretty sorting fin_maps.
From Stdlib Require Import ZArith Lia Ascii.

#[export] Set Default Goal Selector "!".

(** ** Results

    A Go function that returns [(T, error)] is modelled as a function to
    [result T]; one that returns only [error] as a function to [result unit].
    An error is a sentinel variable of the source, a formatted error (format
    string and rendered arguments kept apart, so no formatting is invented) or
    a [%w] wrapping of another error. *)

Inductive sentinel :=
  | ErrStaleAttempt | ErrInvalidTransition | ErrAmbiguousTransition
  | ErrLoopExhausted | ErrLeaseLost | ErrIdempotencyConflict
  | ErrEvidenceRequired | ErrDeadlineExceeded | ErrBudgetExceeded
  | ErrRetryBackoff
  | ErrNotFound | ErrOutboxConflict | ErrOverflow
  (** A sentinel variable of another package. *)
  | Sentinel (pkg name : string).

#[global] Instance sentinel_eq_dec : EqDecision sentinel.
Proof. solve_decision. Defined.

Inductive error :=
  | ESentinel (s : sentinel)
  | Errorf (format : string) (args : list string)
  | Wrapf (format : string) (args : list string) (cause : error)
  (** A run-time panic: not an error value, but an outcome a call can have. *)
  | EPanic (reason : string).

(** [errors.Is(e, s)]. *)
Fixpoint errors_is (s : sentinel) (e : error) : bool :=
  match e with
  | ESentinel s' => bool_decide (s = s')
  | Errorf _ _ | EPanic _ => false
  | Wrapf _ _ c => errors_is s c
  end.

Inductive result (A : Type) :=
  | Ok (a : A)
  | Err (e : error).
Arguments Ok {A} a.
Arguments Err {A} e.

Definition rbind {A B} (r : result A) (f : A → result B) : result B :=
  match r with Ok a => f a | Err e => Err e end.

(** [if b { return e }]. *)
Definition reject (b : bool) (e : error) : result unit :=
  if b then Err e else Ok tt.

(** [if err := f(); err != nil { return fmt.Errorf("...: %w", err) }]. *)
Definition wrap_err {A} (format : string) (args : list string) (r : result A) : result A :=
  match r with Ok a => Ok a | Err e => Err (Wrapf format args e) end.

(** [for i, x := range xs { if err := f(i, x); err != nil { return err } }]. *)
Fixpoint check_each_from {A} (i : nat) (f : nat → A → result unit) (xs : list A) : result unit :=
  match xs with
  | [] => Ok tt
  | x :: xs' => rbind (f i x) (λ _, check_each_from (S i) f xs')
  end.

Abbreviation check_each f xs := (check_each_from 0 f xs).

(** A loop that also carries an accumulator ([seen] maps, counters). *)
Fixpoint fold_each_from {A S} (i : nat) (f : S → nat → A → result S) (s : S) (xs : list A) : result S :=
  match xs with
  | [] => Ok s
  | x :: xs' => rbind (f s i x) (λ s', fold_each_from (Datatypes.S i) f s' xs')
  end.

Lemma fold_each_app {A B} (f : B → nat → A → result B) xs ys i s :
  fold_each_from i f s (xs ++ ys) =
  rbind (fold_each_from i f s xs) (λ s', fold_each_from (i + length xs) f s' ys).
Proof.
  revert i s. induction xs as [|x xs IH]; intros i s; simpl; [by rewrite Nat.add_0_r|].
  destruct (f s i x) as [s'|e]; simpl; [|done]. rewrite IH. simpl. by rewrite Nat.add_succ_r.
Qed.

Declare Scope go_scope.
Delimit Scope go_scope with go.
Notation "'let*' x ':=' e 'in' k" := (rbind e (λ x, k))
  (at level 10, x pattern, e at level 100, k at level 200) : go_scope.
Notation "e ';;;' k" := (rbind e (λ _, k)) (at level 199, right associativity) : go_scope.
(** Go's [==] and [!=] on comparable values. *)
Notation "x ≟ y" := (bool_decide (x = y)) (at level 70, no associativity) : go_scope.
Notation "x ≠? y" := (negb (bool_decide (x = y))) (at level 70, no associativity) : go_scope.
#[global] Open Scope go_scope.

Lemma rbind_Ok {A B} (f : A → result B) r b :
  rbind r f = Ok b ↔ ∃ a, r = Ok a ∧ f a = Ok b.
Proof. destruct r; simpl; naive_solver. Qed.

Lemma reject_Ok b e u : reject b e = Ok u ↔ b = false.
Proof. destruct b, u; simpl; naive_solver. Qed.

Lemma reject_Err b e e' : reject b e = Err e' ↔ b = true ∧ e' = e.
Proof. destruct b; simpl; naive_solver. Qed.

Lemma wrap_err_Ok {A} f args (r : result A) a : wrap_err f args r = Ok a ↔ r = Ok a.
Proof. destruct r; simpl; naive_solver. Qed.

Lemma check_each_Ok {A} (f : nat → A → result unit) xs i :
  check_each_from i f xs = Ok tt ↔ ∀ k x, xs !! k = Some x → f (i + k)%nat x = Ok tt.
Proof.
  revert i. induction xs as [|x xs IH]; intros i; simpl; [naive_solver|].
  rewrite rbind_Ok. split.
  - intros ([] & H0 & H) [|k] y; simpl.
    + intros [= <-]. by rewrite Nat.add_0_r.
    + intros Hk. rewrite Nat.add_succ_r. by apply (proj1 (IH _) H).
  - intros H. exists tt. split; [rewrite <- (Nat.add_0_r i); by apply (H 0)|].
    apply IH. intros k y Hk. rewrite Nat.add_succ_l, <- Nat.add_succ_r. by apply (H (S k)).
Qed.

Lemma rbind_reject_Ok {B} b e (r : result B) x :
  (reject b e ;;; r) = Ok x ↔ b = false ∧ r = Ok x.
Proof. destruct b; simpl; naive_solver. Qed.

Lemma reject_tt b e : reject b e = Ok tt ↔ b = false.
Proof. apply reject_Ok. Qed.

Lemma rbind_unit_Ok {B} (r : result unit) (k : result B) x :
  (r ;;; k) = Ok x ↔ r = Ok tt ∧ k = Ok x.
Proof. rewrite rbind_Ok. split; [intros ([] & ? & ?)|intros []; exists tt]; done. Qed.

Lemma rbind_any_Ok {A B} (r : result A) (k : result B) x :
  (r ;;; k) = Ok x ↔ (∃ a, r = Ok a) ∧ k = Ok x.
Proof. rewrite rbind_Ok. naive_solver. Qed.

(** A loop of guards accepts when no element is rejected, whatever the messages. *)
Lemma check_each_reject {A} (b : A → bool) (e : nat → A → error) xs i :
  check_each_from i (λ k x, reject (b x) (e k x)) xs = Ok tt ↔ Forall (λ x, b x = false) xs.
Proof.
  revert i. induction xs as [|x xs IH]; intros i; simpl; [naive_solver|].
  rewrite rbind_reject_Ok, IH, Forall_cons. done.
Qed.

(** An accumulating loop that succeeds maintains any invariant its body does. *)
Lemma fold_each_inv {A S} (f : S → nat → A → result S) (P : S → list A → Prop) xs :
  (∀ s i x done s', P s done → f s i x = Ok s' → P s' (done ++ [x])) →
  ∀ i s pre s', P s pre → fold_each_from i f s xs = Ok s' → P s' (pre ++ xs).
Proof.
  intros Hstep. induction xs as [|x xs IH]; intros i s pre s' HP; simpl.
  - intros [= <-]. by rewrite app_nil_r.
  - rewrite rbind_Ok. intros (s1 & H1 & H2).
    rewrite cons_middle, app_assoc. eapply IH; [|done]. eauto.
Qed.

(** In a list whose keys are distinct, the key determines the element. *)
Lemma NoDup_fmap_inj {A B} (f : A → B) l x y : NoDup (f <$> l) → x ∈ l → y ∈ l → f x = f y → x = y.
Proof.
  intros Hnd Hx Hy E. apply list_elem_of_lookup in Hx as [i Hi], Hy as [j Hj].
  assert (i = j) as ->; [|congruence]. eapply NoDup_lookup; [exact Hnd| |]; rewrite list_lookup_fmap; [by rewrite Hi|rewrite Hj; cbn; by rewrite E].
Qed.

(** Turns a hypothesis that a chain of guards succeeded into its conditions. *)
Ltac res_inv H :=
  repeat match type of H with
  | rbind _ _ = Ok _ =>
      let a := fresh "a" in let H1 := fresh H in
      apply rbind_Ok in H; destruct H as (a & H1 & H);
      try (apply reject_Ok in H1)
  end.
