(* ===== verification/GoLib.v ===== *)
(** * GoLib: the Go runtime and standard library the sources rely on

    Machine integers, [time.Time] and [time.Duration], byte strings with
    [strings.TrimSpace], [strings.Contains], [strings.EqualFold] and
    [strings.ToLower], map iteration in an unspecified order and stable sorting.
    Strings are byte strings ([ascii] is one byte), as in Go.  Case folding is
    written for ASCII letters; other bytes compare exactly. *)
From stdpp Require Import base strings gmap list pretty sorting fin_maps.
From Stdlib Require Import ZArith Lia Ascii.
From S2P Require Import Prelude.

(** ** Fixed-width integers: [int] and [int64] are 64-bit two's complement *)

Definition two63 : Z := 9223372036854775808.
Definition two64 : Z := 18446744073709551616.
Definition wrap64 (z : Z) : Z := ((z + two63) mod two64 - two63)%Z.
Definition int64_range (z : Z) : Prop := (- two63 ≤ z < two63)%Z.
Definition add64 (a b : Z) : Z := wrap64 (a + b).

Lemma wrap64_id z : int64_range z → wrap64 z = z.
Proof.
  unfold int64_range, wrap64, two63, two64. intros ?.
  rewrite Z.mod_small; lia.
Qed.

Lemma wrap64_range z : int64_range (wrap64 z).
Proof.
  unfold int64_range, wrap64, two63, two64.
  pose proof (Z.mod_pos_bound (z + 9223372036854775808) 18446744073709551616). lia.
Qed.

(** ** Time

    [time.Time] as nanoseconds since the zero time, so that [IsZero] is [= 0];
    [*time.Time] is an [option]; [time.Duration] is an [int64] of nanoseconds.
    [Sub] saturates as the standard library documents. *)

Abbreviation Time := Z (only parsing).
Abbreviation Duration := Z (only parsing).
Definition IsZero (t : Time) : bool := (t =? 0)%Z.
Definition Before (t u : Time) : bool := (t <? u)%Z.
Definition After (t u : Time) : bool := (u <? t)%Z.
Definition Sub (t u : Time) : Duration := Z.max (- two63) (Z.min (two63 - 1) (t - u)).
Definition Hour : Duration := 3600000000000.
Definition Minute : Duration := 60000000000.
(** [if now.IsZero() { now = time.Now().UTC() }]: [wall] is the wall clock. *)
Definition orNow (wall now : Time) : Time := if IsZero now then wall else now.

(** ** Strings *)

Definition byte (a : ascii) : N := N_of_ascii a.

Definition ascii_space (a : ascii) : bool :=
  let b := byte a in ((9 <=? b) && (b <=? 13) || (b =? 32))%N.

(** The multi-byte UTF-8 encodings of the runes [unicode.IsSpace] accepts. *)
Definition space2 (a b : ascii) : bool :=
  ((byte a =? 194) && ((byte b =? 133) || (byte b =? 160)))%N.
Definition space3 (a b c : ascii) : bool :=
  (((byte a =? 225) && (byte b =? 154) && (byte c =? 128))
   || ((byte a =? 226) && (byte b =? 128) &&
        (((128 <=? byte c) && (byte c <=? 138)) || (byte c =? 168) || (byte c =? 169) || (byte c =? 175)))
   || ((byte a =? 226) && (byte b =? 129) && (byte c =? 159))
   || ((byte a =? 227) && (byte b =? 128) && (byte c =? 128)))%N.

(** Drop leading spaces; [rev] says that the bytes come last byte first. *)
Fixpoint drop_space (rev : bool) (s : list ascii) {struct s} : list ascii :=
  match s with
  | [] => []
  | a :: s1 =>
      if ascii_space a then drop_space rev s1
      else match s1 with
      | [] => s
      | b :: s2 =>
          if (if rev then space2 b a else space2 a b) then drop_space rev s2
          else match s2 with
          | [] => s
          | c :: s3 =>
              if (if rev then space3 c b a else space3 a b c) then drop_space rev s3 else s
          end
      end
  end.

(** [strings.TrimSpace]. *)
Definition TrimSpace (s : string) : string :=
  String.string_of_list_ascii
    (reverse (drop_space true (reverse (drop_space false (String.list_ascii_of_string s))))).

(** [strings.TrimSpace(s) == ""]. *)
Definition blank (s : string) : bool := TrimSpace s ≟ "".

Fixpoint HasPrefix (s p : string) : bool :=
  match p, s with
  | EmptyString, _ => true
  | String a p', String b s' => bool_decide (a = b) && HasPrefix s' p'
  | String _ _, EmptyString => false
  end.

(** [strings.Contains(s, needle)]. *)
Fixpoint Contains (s needle : string) : bool :=
  HasPrefix s needle ||
  match s with EmptyString => false | String _ s' => Contains s' needle end.

(** [strings.ToLower] and [strings.EqualFold] on ASCII letters: bytes above 127
    are kept as they are, so the Unicode case pairs of Go are not folded. *)
Definition lower (a : ascii) : ascii :=
  let b := byte a in
  if ((65 <=? b) && (b <=? 90))%N then ascii_of_N (b + 32) else a.
Fixpoint ToLower (s : string) : string :=
  match s with EmptyString => "" | String a s' => String (lower a) (ToLower s') end.
Definition EqualFold (s t : string) : bool := ToLower s ≟ ToLower t.

Definition itoa (n : nat) : string := pretty n.

(** ** Map iteration

    [for k, v := range m] visits the entries of [m] in an order the language
    leaves unspecified.  The order is a parameter: every theorem that does not
    fix an instance holds for each of them. *)
Class MapRange := {
  range : ∀ {A : Type}, gmap string A → list (string * A);
  range_perm : ∀ {A : Type} (m : gmap string A), range m ≡ₚ map_to_list m
}.

Definition range_values `{MapRange} {A} (m : gmap string A) : list A := (range m).*2.
Definition range_keys `{MapRange} {A} (m : gmap string A) : list string := (range m).*1.

Section ranges.
Context `{MapRange}.
Lemma elem_of_range {A} (m : gmap string A) k v : (k, v) ∈ range m ↔ m !! k = Some v.
  Proof. by rewrite range_perm, elem_of_map_to_list. Qed.
Lemma elem_of_range_values {A} (m : gmap string A) v :
    v ∈ range_values m ↔ ∃ k, m !! k = Some v.
  Proof.
    unfold range_values. rewrite list_elem_of_fmap. setoid_rewrite <- elem_of_range. split.
    - intros ([k w] & -> & ?). eauto.
    - intros (k & ?). by exists (k, v).
  Qed.
Lemma elem_of_range_keys {A} (m : gmap string A) k :
    k ∈ range_keys m ↔ is_Some (m !! k).
  Proof.
    unfold range_keys, is_Some. rewrite list_elem_of_fmap. setoid_rewrite <- elem_of_range. split.
    - intros ([k' w] & -> & ?). eauto.
    - intros (v & ?). by exists (k, v).
  Qed.
Lemma NoDup_range_keys {A} (m : gmap string A) : NoDup (range_keys m).
  Proof. unfold range_keys. rewrite range_perm. apply NoDup_fst_map_to_list. Qed.
Lemma range_empty {A} : range (∅ : gmap string A) = [].
  Proof. apply Permutation_nil_r. by rewrite range_perm, map_to_list_empty. Qed.
Lemma range_insert {A} (m : gmap string A) k v :
    m !! k = None → range (<[k:=v]> m) ≡ₚ (k, v) :: range m.
  Proof. intros. rewrite !range_perm. by apply map_to_list_insert. Qed.
End ranges.

(** One order that exists: the one of [map_to_list]. *)
Definition canonical_range : MapRange :=
  {| range := λ A m, map_to_list m; range_perm := λ A m, reflexivity _ |}.
(** Another: its reverse. *)
Definition reversed_range : MapRange :=
  {| range := λ A m, reverse (map_to_list m);
     range_perm := λ A m, reverse_Permutation (map_to_list m) |}.

(** ** Sorting: [sort.SliceStable], [sort.Strings] *)

Section sort.
Context {A : Type} (le : relation A) `{!RelDecision le}.
Fixpoint sort_insert (x : A) (l : list A) : list A :=
    match l with
    | [] => [x]
    | y :: l' => if decide (le x y) then x :: l else y :: sort_insert x l'
    end.
Definition stable_sort (l : list A) : list A := foldr sort_insert [] l.

Lemma sort_insert_perm x l : sort_insert x l ≡ₚ x :: l.
  Proof.
    induction l as [|y l IH]; simpl; [done|]. case_decide; [done|].
    rewrite IH. constructor.
  Qed.
Lemma stable_sort_perm l : stable_sort l ≡ₚ l.
  Proof. induction l as [|x l IH]; simpl; [done|]. by rewrite sort_insert_perm, IH. Qed.
Lemma elem_of_stable_sort x l : x ∈ stable_sort l ↔ x ∈ l.
  Proof. by rewrite stable_sort_perm. Qed.
Lemma sort_insert_sorted `{!Total le, !Transitive le} x l :
    StronglySorted le l → StronglySorted le (sort_insert x l).
  Proof.
    induction 1 as [|y l Hl IH Hy]; simpl; [repeat constructor|].
    case_decide as Hxy.
    - constructor; [by constructor|]. constructor; [done|].
      eapply Forall_impl; [done|]. intros z ?. by transitivity y.
    - constructor; [done|]. rewrite sort_insert_perm. constructor; [|done].
      by destruct (total le x y).
  Qed.
Lemma stable_sort_sorted `{!Total le, !Transitive le} l : StronglySorted le (stable_sort l).
  Proof. induction l; simpl; [constructor|]. by apply sort_insert_sorted. Qed.
End sort.

Definition sort_strings : list string → list string := stable_sort String.le.

(** [contains(xs, v)] (internal/orchestration/transition.go). *)
Fixpoint contains (xs : list string) (v : string) : bool :=
  match xs with [] => false | x :: xs' => (x ≟ v) || contains xs' v end.

Lemma contains_spec xs v : contains xs v = true ↔ v ∈ xs.
Proof.
  induction xs as [|x xs IH]; simpl; [set_solver|].
  rewrite orb_true_iff, IH, bool_decide_eq_true. set_solver.
Qed.

#[global] Arguments contains : simpl never.

(** [appendUnique(values, additions...)]: drop empty strings and repetitions. *)
Fixpoint append_unique_from (seen : list string) (l : list string) : list string :=
  match l with
  | [] => []
  | v :: l' => if (v ≟ "") || contains seen v then append_unique_from seen l'
               else v :: append_unique_from (v :: seen) l'
  end.
Definition appendUnique (values additions : list string) : list string :=
  append_unique_from [] (values ++ additions).

Lemma append_unique_from_spec seen l x :
  x ∈ append_unique_from seen l ↔ x ∈ l ∧ x ≠ "" ∧ x ∉ seen.
Proof.
  revert seen. induction l as [|v l IH]; intros seen; simpl; [set_solver|].
  destruct ((v ≟ "") || contains seen v) eqn:E.
  - rewrite IH. apply orb_true_iff in E. rewrite bool_decide_eq_true, contains_spec in E.
    set_solver.
  - apply orb_false_iff in E as [E1 E2]. apply bool_decide_eq_false in E1.
    assert (v ∉ seen) by (rewrite <- contains_spec; by rewrite E2).
    rewrite elem_of_cons, IH. destruct (decide (x = v)) as [->|]; set_solver.
Qed.

Lemma append_unique_from_NoDup seen l : NoDup (append_unique_from seen l).
Proof.
  revert seen. induction l as [|v l IH]; intros seen; simpl; [constructor|].
  destruct ((v ≟ "") || contains seen v) eqn:E; [done|]. constructor; [|done].
  rewrite append_unique_from_spec. set_solver.
Qed.

Lemma appendUnique_spec values additions x :
  x ∈ appendUnique values additions ↔ (x ∈ values ∨ x ∈ additions) ∧ x ≠ "".
Proof. unfold appendUnique. rewrite append_unique_from_spec. set_solver. Qed.

Lemma appendUnique_NoDup values additions : NoDup (appendUnique values additions).
Proof. apply append_unique_from_NoDup. Qed.

(** ** Trimming

    Only white space is dropped: an ASCII byte that is not a space survives, so a
    string that has one is not blank. *)
Lemma space2_high a b : space2 a b = true → (128 ≤ byte a ∧ 128 ≤ byte b)%N.
Proof. unfold space2. rewrite andb_true_iff, orb_true_iff, !N.eqb_eq. lia. Qed.
Lemma space3_high a b c : space3 a b c = true → (128 ≤ byte a ∧ 128 ≤ byte b ∧ 128 ≤ byte c)%N.
Proof.
  unfold space3. rewrite !orb_true_iff, !andb_true_iff, !orb_true_iff, !andb_true_iff, !N.eqb_eq, !N.leb_le. lia.
Qed.
Lemma space2_rev_high (rev : bool) a b :
  (if rev then space2 b a else space2 a b) = true → (128 ≤ byte a ∧ 128 ≤ byte b)%N.
Proof. destruct rev; intros E; apply space2_high in E; lia. Qed.
Lemma space3_rev_high (rev : bool) a b c :
  (if rev then space3 c b a else space3 a b c) = true → (128 ≤ byte a ∧ 128 ≤ byte b ∧ 128 ≤ byte c)%N.
Proof. destruct rev; intros E; apply space3_high in E; lia. Qed.

Lemma drop_space_keeps rev c l :
  c ∈ l → ascii_space c = false → (byte c < 128)%N → c ∈ drop_space rev l.
Proof.
  intros Hc Hs Hb. remember (length l) as k eqn:Hk. assert (length l ≤ k) as Hle by lia. clear Hk.
  revert l Hc Hle. induction k as [|k IH]; intros l Hc Hle.
  { destruct l; [by apply elem_of_nil in Hc|simpl in Hle; lia]. }
  destruct l as [|a [|b [|d l]]]; [done| | |]; simpl in *.
  - apply list_elem_of_singleton in Hc as ->. rewrite Hs. left.
  - destruct (ascii_space a) eqn:Ea.
    { apply elem_of_cons in Hc as [->|Hc]; [congruence|]. apply (IH [b] Hc). simpl. lia. }
    destruct (if rev then space2 b a else space2 a b) eqn:E2; [|done].
    apply space2_rev_high in E2. apply elem_of_cons in Hc as [->|Hc]; [lia|].
    apply list_elem_of_singleton in Hc as ->. lia.
  - destruct (ascii_space a) eqn:Ea.
    { apply elem_of_cons in Hc as [->|Hc]; [congruence|]. apply (IH (b :: d :: l) Hc). simpl. lia. }
    destruct (if rev then space2 b a else space2 a b) eqn:E2.
    { apply elem_of_cons in Hc as [->|Hc]; [apply space2_rev_high in E2; lia|].
      apply elem_of_cons in Hc as [->|Hc]; [apply space2_rev_high in E2; lia|].
      apply (IH (d :: l) Hc). simpl. lia. }
    destruct (if rev then space3 d b a else space3 a b d) eqn:E3; [|done].
    apply elem_of_cons in Hc as [->|Hc]; [apply space3_rev_high in E3; lia|].
    apply elem_of_cons in Hc as [->|Hc]; [apply space3_rev_high in E3; lia|].
    apply elem_of_cons in Hc as [->|Hc]; [apply space3_rev_high in E3; lia|].
    apply IH; [done|lia].
Qed.

Lemma not_blank c s :
  c ∈ String.list_ascii_of_string s → ascii_space c = false → (byte c < 128)%N → blank s = false.
Proof.
  intros Hc Hs Hb. unfold blank, TrimSpace. apply bool_decide_eq_false.
  set (l := drop_space true _). assert (c ∈ l) as Hl.
  { apply drop_space_keeps; [|done..]. apply elem_of_reverse. by apply drop_space_keeps. }
  intros E. apply elem_of_reverse in Hl. destruct (reverse l); [by apply elem_of_nil in Hl|done].
Qed.

Lemma list_ascii_app s t :
  String.list_ascii_of_string (s +:+ t) = String.list_ascii_of_string s ++ String.list_ascii_of_string t.
Proof. induction s as [|a s IH]; [done|]. simpl. by f_equal. Qed.

(** Induction along the bytes [drop_space] consumes: one, two or three at a time. *)
Lemma drop_space_ind (rev : bool) (P : list ascii → Prop) :
  (∀ l, drop_space rev l = l → P l) →
  (∀ a l, ascii_space a = true → P l → P (a :: l)) →
  (∀ a b l, ascii_space a = false → (if rev then space2 b a else space2 a b) = true → P l → P (a :: b :: l)) →
  (∀ a b c l, ascii_space a = false → (if rev then space2 b a else space2 a b) = false →
     (if rev then space3 c b a else space3 a b c) = true → P l → P (a :: b :: c :: l)) →
  ∀ l, P l.
Proof.
  intros H0 H1 H2 H3 l. remember (length l) as k eqn:Hk. assert (length l ≤ k) as Hle by lia. clear Hk.
  revert l Hle. induction k as [|k IH]; intros l Hle; [destruct l; [by apply H0|simpl in Hle; lia]|].
  destruct l as [|a l]; [by apply H0|]. destruct (ascii_space a) eqn:Ea.
  { apply H1; [done|]. apply IH. simpl in Hle. lia. }
  destruct l as [|b l]; [apply H0; simpl; by rewrite Ea|].
  destruct (if rev then space2 b a else space2 a b) eqn:E2.
  { apply H2; [done..|]. apply IH. simpl in Hle. lia. }
  destruct l as [|c l]; [apply H0; cbn; by rewrite Ea, E2|].
  destruct (if rev then space3 c b a else space3 a b c) eqn:E3.
  { apply H3; [done..|]. apply IH. simpl in Hle. lia. }
  apply H0. cbn. by rewrite Ea, E2, E3.
Qed.

Lemma drop_space_idem rev l : drop_space rev (drop_space rev l) = drop_space rev l.
Proof.
  induction l as [l E|a l Ea IH|a b l Ea E2 IH|a b c l Ea E2 E3 IH] using (drop_space_ind rev).
  - by rewrite !E.
  - cbn. by rewrite Ea.
  - cbn. by rewrite Ea, E2.
  - cbn. by rewrite Ea, E2, E3.
Qed.

Lemma drop_space_suffix rev l : drop_space rev l `suffix_of` l.
Proof.
  induction l as [l E|a l Ea IH|a b l Ea E2 IH|a b c l Ea E2 E3 IH] using (drop_space_ind rev).
  - by rewrite E.
  - cbn. rewrite Ea. by apply suffix_cons_r.
  - cbn. rewrite Ea, E2. by do 2 apply suffix_cons_r.
  - cbn. rewrite Ea, E2, E3. by do 3 apply suffix_cons_r.
Qed.

(** A list that starts with no space keeps doing so when cut at its end. *)
Lemma drop_space_prefix rev l l' : drop_space rev l = l → l' `prefix_of` l → drop_space rev l' = l'.
Proof.
  assert (∀ x, length (drop_space rev x) ≤ length x) as Hlen
    by (intros x; apply suffix_length, drop_space_suffix).
  intros E [k ->]. destruct l' as [|a l']; [done|]. cbn [app drop_space] in *.
  destruct (ascii_space a); [pose proof (Hlen (l' ++ k)) as Hl; rewrite E in Hl; simpl in Hl; lia|].
  destruct l' as [|b l']; [done|]. cbn [app] in *.
  destruct (if rev then space2 b a else space2 a b);
    [pose proof (Hlen (l' ++ k)) as Hl; rewrite E in Hl; simpl in Hl; lia|].
  destruct l' as [|c l']; [done|]. cbn [app] in *.
  destruct (if rev then space3 c b a else space3 a b c); [|done].
  pose proof (Hlen (l' ++ k)) as Hl. rewrite E in Hl. simpl in Hl. lia.
Qed.

Lemma TrimSpace_idem s : TrimSpace (TrimSpace s) = TrimSpace s.
Proof.
  unfold TrimSpace. rewrite String.list_ascii_of_string_of_list_ascii. f_equal.
  set (x := drop_space false (String.list_ascii_of_string s)). set (y := drop_space true (reverse x)).
  rewrite (drop_space_prefix false x (reverse y)).
  - rewrite reverse_involutive. unfold y. by rewrite drop_space_idem.
  - apply drop_space_idem.
  - destruct (drop_space_suffix true (reverse x)) as [k Hk]. fold y in Hk. exists (reverse k).
    rewrite <- reverse_app, <- Hk. by rewrite reverse_involutive.
Qed.

(** A trimmed string that is not empty is not blank. *)
Lemma TrimSpace_not_blank s : TrimSpace s ≠ "" → blank (TrimSpace s) = false.
Proof. intros Hs. unfold blank. rewrite TrimSpace_idem. by apply bool_decide_eq_false. Qed.
