(* ===== verification/GoStrings.v ===== *)
(** * GoStrings: the string functions of Go's library the definitions use

    [strings.Split], [strings.Cut]-like splitting, [ContainsAny], [ReplaceAll],
    hex decoding, UTF-8 decoding ([range] over a string, [len([]rune(s))]),
    [path.Clean] and the two identifier patterns of
    internal/orchestration/model.go.  Strings are byte strings. *)
From stdpp Require Import base strings list numbers.
From Stdlib Require Import ZArith Ascii Lia.
From S2P Require Import Prelude GoLib.

(** ** Splitting *)

(** [strings.Split(s, sep)] for a one-byte separator. *)
Fixpoint Split (sep : ascii) (s : string) : list string :=
  match s with
  | EmptyString => [""]
  | String a s' =>
      if decide (a = sep) then "" :: Split sep s'
      else match Split sep s' with
           | w :: ws => String a w :: ws
           | [] => [String a ""]
           end
  end.

(** [strings.SplitN(s, sep, 2)]: at the first separator, [None] without one. *)
Fixpoint Cut (sep : ascii) (s : string) : option (string * string) :=
  match s with
  | EmptyString => None
  | String a s' =>
      if decide (a = sep) then Some ("", s')
      else match Cut sep s' with
           | Some (x, y) => Some (String a x, y)
           | None => None
           end
  end.

Definition chars (s : string) : list ascii := String.list_ascii_of_string s.
Definition ContainsAny (s cs : string) : bool := existsb (λ a, existsb (λ c, bool_decide (a = c)) (chars cs)) (chars s).

(** [strings.TrimPrefix]. *)
Fixpoint skip (n : nat) (s : string) : string :=
  match n, s with S n', String _ s' => skip n' s' | _, _ => s end.
Definition TrimPrefix (s p : string) : string := if HasPrefix s p then skip (String.length p) s else s.

(** [strings.ReplaceAll(s, old, new)] for a non-empty [old]; [k] counts the
    bytes of a match still to be skipped. *)
Fixpoint replace_from (k : nat) (old new s : string) : string :=
  match s with
  | EmptyString => ""
  | String a s' =>
      match k with
      | S k' => replace_from k' old new s'
      | O => if HasPrefix s old then new +:+ replace_from (pred (String.length old)) old new s'
             else String a (replace_from 0 old new s')
      end
  end.
Definition ReplaceAll (s old new : string) : string := replace_from 0 old new s.

(** [strings.Join]. *)
Fixpoint Join (sep : string) (l : list string) : string :=
  match l with [] => "" | [w] => w | w :: l' => w +:+ sep +:+ Join sep l' end.

(** Strings no byte of which satisfies [f]. *)
Definition free_of (f : ascii → bool) (s : string) : Prop := Forall (λ a, f a = false) (chars s).
Definition is_char (c a : ascii) : bool := bool_decide (a = c).

Lemma length_chars s : length (chars s) = String.length s.
Proof. unfold chars. induction s; simpl; auto. Qed.
Lemma chars_app s t : chars (s +:+ t) = chars s ++ chars t.
Proof. apply list_ascii_app. Qed.

Lemma Split_free sep s : free_of (is_char sep) s → Split sep s = [s].
Proof.
  unfold free_of, is_char, chars. induction s as [|a s IH]; [done|]. cbn [String.list_ascii_of_string].
  intros Hf. apply Forall_cons_1 in Hf as [Ha Hf]. apply bool_decide_eq_false in Ha. cbn [Split].
  rewrite decide_False by done. by rewrite IH.
Qed.

Lemma Split_app sep s t : free_of (is_char sep) s → Split sep (s +:+ String sep t) = s :: Split sep t.
Proof.
  unfold free_of, is_char, chars. induction s as [|a s IH]; cbn [String.list_ascii_of_string].
  - intros _. change ("" +:+ String sep t) with (String sep t). cbn [Split]. by rewrite decide_True by done.
  - intros Hf. apply Forall_cons_1 in Hf as [Ha Hf]. apply bool_decide_eq_false in Ha.
    change (String a s +:+ String sep t) with (String a (s +:+ String sep t)). cbn [Split].
    rewrite decide_False by done. by rewrite IH.
Qed.

(** ** Hexadecimal *)

Definition is_hex (a : ascii) : bool :=
  let b := byte a in
  (((48 <=? b) && (b <=? 57)) || ((97 <=? b) && (b <=? 102)) || ((65 <=? b) && (b <=? 70)))%N.

(** [hex.DecodeString(s)] without an error. *)
Definition hex_decodes (s : string) : bool := Nat.even (String.length s) && forallb is_hex (chars s).

(** ** UTF-8

    The first rune of a byte sequence and the number of bytes it takes; an
    ill-formed sequence yields the replacement rune for one byte. *)
Definition cont (lo hi : N) (a : ascii) : bool := ((lo <=? byte a) && (byte a <=? hi))%N.
Definition low6 (a : ascii) : N := N.land (byte a) 63.
Definition RuneError : N := 65533.

Definition decode_rune (a : ascii) (rest : list ascii) : N * nat :=
  let b := byte a in
  if (b <? 128)%N then (b, 1) else
  let two := match rest with
             | c :: _ => if cont 128 191 c then Some (N.lor (N.shiftl (N.land b 31) 6) (low6 c)) else None
             | _ => None end in
  let three lo hi := match rest with
             | c :: d :: _ => if cont lo hi c && cont 128 191 d
                 then Some (N.lor (N.shiftl (N.land b 15) 12) (N.lor (N.shiftl (low6 c) 6) (low6 d))) else None
             | _ => None end in
  let four lo hi := match rest with
             | c :: d :: e :: _ => if cont lo hi c && cont 128 191 d && cont 128 191 e
                 then Some (N.lor (N.shiftl (N.land b 7) 18)
                       (N.lor (N.shiftl (low6 c) 12) (N.lor (N.shiftl (low6 d) 6) (low6 e)))) else None
             | _ => None end in
  let pick r n := match r with Some x => (x, n) | None => (RuneError, 1) end in
  if ((194 <=? b) && (b <=? 223))%N then pick two 2
  else if (b =? 224)%N then pick (three 160 191)%N 3
  else if (b =? 237)%N then pick (three 128 159)%N 3
  else if ((225 <=? b) && (b <=? 239))%N then pick (three 128 191)%N 3
  else if (b =? 240)%N then pick (four 144 191)%N 4
  else if ((241 <=? b) && (b <=? 243))%N then pick (four 128 191)%N 4
  else if (b =? 244)%N then pick (four 128 143)%N 4
  else (RuneError, 1).

(** [for i, r := range s]: byte offsets and runes; [k] counts the bytes of the
    current rune still to be skipped. *)
Fixpoint runes_from (i k : nat) (s : list ascii) : list (nat * N) :=
  match s with
  | [] => []
  | a :: s' =>
      match k with
      | S k' => runes_from (S i) k' s'
      | O => let '(r, n) := decode_rune a s' in (i, r) :: runes_from (S i) (pred n) s'
      end
  end.
Definition runes (s : string) : list (nat * N) := runes_from 0 0 (chars s).
(** [len([]rune(s))]. *)
Definition rune_count (s : string) : nat := length (runes s).

Example rune_count_mixed :
  runes (String "a" (String (ascii_of_N 195) (String (ascii_of_N 169) (String (ascii_of_N 255) "b"))))
  = [(0, 97%N); (1, 233%N); (3, RuneError); (4, 98%N)].
Proof. reflexivity. Qed.

(** ** [path.Clean]

    The elements of the path: empty ones and "." are dropped, ".." removes the
    element before it, or stays when there is none to remove and the path is
    not rooted.  [out] holds the kept elements, last first. *)
Fixpoint clean_elems (rooted : bool) (out elems : list string) : list string :=
  match elems with
  | [] => reverse out
  | e :: elems' =>
      if (e ≟ "") || (e ≟ ".") then clean_elems rooted out elems'
      else if e ≟ ".." then
        match out with
        | x :: out' => if x ≟ ".." then clean_elems rooted (".." :: out) elems'
                       else clean_elems rooted out' elems'
        | [] => clean_elems rooted (if rooted then [] else [".."]) elems'
        end
      else clean_elems rooted (e :: out) elems'
  end.
Definition Clean (p : string) : string :=
  let rooted := HasPrefix p "/" in
  let body := Join "/" (clean_elems rooted [] (Split "/" p)) in
  if rooted then "/" +:+ body else if body ≟ "" then "." else body.

Example Clean_samples :
  map Clean [""; "a//b/./c"; "../x"; "a/../../b"; "/../a/"; "./"] = ["."; "a/b/c"; "../x"; "../b"; "/a"; "."].
Proof. reflexivity. Qed.

(** ** Identifier patterns

    [environmentNamePattern] and [runtimeConfigKeyPattern] (without flags, [$]
    matches only at the end of the text). *)
Definition is_alpha (a : ascii) : bool :=
  let b := byte a in (((65 <=? b) && (b <=? 90)) || ((97 <=? b) && (b <=? 122)) || (b =? 95))%N.
Definition is_word (a : ascii) : bool := is_alpha a || ((48 <=? byte a) && (byte a <=? 57))%N.
Definition pattern (first rest : ascii → bool) (s : string) : bool :=
  match chars s with [] => false | a :: l => first a && forallb rest l end.
Definition environmentNamePattern (s : string) : bool := pattern is_alpha is_word s.
Definition runtimeConfigKeyPattern (s : string) : bool :=
  pattern is_alpha (λ a, is_word a || (byte a =? 46)%N || (byte a =? 45)%N) s.

(** Printable ASCII bytes, which [TrimSpace] keeps at either end. *)
Definition printable (a : ascii) : bool := ((33 <=? byte a) && (byte a <=? 126))%N.

Lemma drop_space_printable rev a l : printable a = true → drop_space rev (a :: l) = a :: l.
Proof.
  unfold printable. intros Ha. apply andb_true_iff in Ha as [H1 H2]. apply N.leb_le in H1, H2.
  assert (ascii_space a = false) as Hs.
  { unfold ascii_space. destruct (N.eqb_spec (byte a) 32); [lia|].
    repeat match goal with |- context [(?x <=? ?y)%N] => destruct (N.leb_spec x y); try lia end; done. }
  cbn [drop_space]. rewrite Hs. destruct l as [|b l]; [done|].
  destruct (if rev then space2 b a else space2 a b) eqn:E2.
  { pose proof (space2_rev_high rev a b E2). lia. }
  destruct l as [|c l]; [done|].
  destruct (if rev then space3 c b a else space3 a b c) eqn:E3; [|done].
  pose proof (space3_rev_high rev a b c E3). lia.
Qed.

Lemma TrimSpace_printable a b s :
  printable a = true → printable b = true → TrimSpace (String a (s +:+ String b "")) = String a (s +:+ String b "").
Proof.
  intros Ha Hb. unfold TrimSpace. cbn [String.list_ascii_of_string]. rewrite drop_space_printable by done.
  change (a :: String.list_ascii_of_string (s +:+ String b "")) with (chars (String a "" +:+ (s +:+ String b ""))).
  rewrite !chars_app, !reverse_app. change (reverse (chars (String b ""))) with [b].
  cbn [app]. rewrite drop_space_printable by done. rewrite reverse_cons, reverse_app, !reverse_involutive.
  rewrite <- (String.string_of_list_ascii_of_string (String a (s +:+ String b ""))). f_equal.
  cbn [String.list_ascii_of_string]. fold chars. rewrite <- app_assoc. simpl.
  by rewrite list_ascii_app.
Qed.

(** ** Concatenation *)

Lemma append_cons c (a b : string) : String c a +:+ b = String c (a +:+ b).
Proof. done. Qed.
Lemma append_assoc_str (a b c : string) : (a +:+ b) +:+ c = a +:+ (b +:+ c).
Proof. induction a as [|x a IH]; [done|]. rewrite !append_cons. by rewrite IH. Qed.
Lemma append_nil_str (a : string) : a +:+ "" = a.
Proof. induction a as [|x a IH]; [done|]. rewrite append_cons. by rewrite IH. Qed.
Lemma append_ne (a b : string) : b ≠ "" → a ≠ a +:+ b.
Proof. intros Hb E. apply Hb. induction a as [|c a IH]; [done|]. rewrite append_cons in E. injection E as E. by apply IH. Qed.

(** The separator [\x00]. *)
Definition nul : string := String (ascii_of_nat 0) "".

(** ** Runes with their bytes

    [[]rune(s)], [string(runes)], [strings.FieldsFunc], [strings.Fields],
    [strings.Index], and the case functions on text that is not ASCII, whose
    Unicode tables are parameters. *)

Fixpoint rune_bytes_from (k : nat) (cur : N * list ascii) (s : list ascii) : list (N * list ascii) :=
  match s with
  | [] => [cur]
  | a :: s' =>
      match k with
      | S k' => rune_bytes_from k' (fst cur, snd cur ++ [a]) s'
      | O => let '(r, n) := decode_rune a s' in cur :: rune_bytes_from (pred n) (r, [a]) s'
      end
  end.
(** Every rune of the string with the bytes it was read from. *)
Definition rune_bytes (s : string) : list (N * list ascii) := tail (rune_bytes_from 0 (0%N, []) (chars s)).

(** [utf8.EncodeRune]. *)
Definition encode_rune (r : N) : list ascii :=
  let byte_of (n : N) := ascii_of_N n in
  let low (n : N) := byte_of (N.lor 128 (N.land n 63)) in
  let three (r : N) := [byte_of (N.lor 224 (N.shiftr r 12)); low (N.shiftr r 6); low r] in
  if (r <? 128)%N then [byte_of r]
  else if (r <? 2048)%N then [byte_of (N.lor 192 (N.shiftr r 6)); low r]
  else if ((1114111 <? r) || ((55296 <=? r) && (r <=? 57343)))%N then three RuneError
  else if (r <? 65536)%N then three r
  else [byte_of (N.lor 240 (N.shiftr r 18)); low (N.shiftr r 12); low (N.shiftr r 6); low r].
(** [string(rs)]. *)
Definition string_of_runes (rs : list N) : string := String.string_of_list_ascii (mjoin (encode_rune <$> rs)).
(** [[]rune(s)]. *)
Definition rune_list (s : string) : list N := snd <$> runes s.

(** [strings.FieldsFunc]: the maximal runs of runes outside [sep]. *)
Fixpoint fields_from (sep : N → bool) (cur : list ascii) (s : list (N * list ascii)) : list string :=
  let flush := match cur with [] => [] | _ => [String.string_of_list_ascii cur] end in
  match s with
  | [] => flush
  | (r, bs) :: s' => if sep r then flush ++ fields_from sep [] s' else fields_from sep (cur ++ bs) s'
  end.
Definition FieldsFunc (s : string) (sep : N → bool) : list string := fields_from sep [] (rune_bytes s).

(** [unicode.IsSpace]. *)
Definition IsSpace (r : N) : bool :=
  (((9 <=? r) && (r <=? 13)) || (r =? 32) || (r =? 133) || (r =? 160) || (r =? 5760)
   || ((8192 <=? r) && (r <=? 8202)) || (r =? 8232) || (r =? 8233) || (r =? 8239) || (r =? 8287) || (r =? 12288))%N.
Definition Fields (s : string) : list string := FieldsFunc s IsSpace.

(** [strings.Index]. *)
Fixpoint Index (s needle : string) : option nat :=
  if HasPrefix s needle then Some 0
  else match s with EmptyString => None | String _ s' => S <$> Index s' needle end.

(** [unicode.ToLower] and the orbits of [unicode.SimpleFold] beyond ASCII. *)
Class UnicodeCase := { rune_lower : N → N; same_fold : N → N → bool }.

Section unicode.
Context `{!UnicodeCase}.

Definition is_ascii (s : string) : bool := forallb (λ a, (byte a <? 128)%N) (chars s).
Definition lower_rune (r : N) : N :=
  if (r <? 128)%N then (if ((65 <=? r) && (r <=? 90))%N then (r + 32)%N else r) else rune_lower r.
(** [strings.ToLower], whatever the string holds. *)
Definition ToLowerText (s : string) : string :=
  if is_ascii s then ToLower s else string_of_runes (lower_rune <$> rune_list s).

Definition fold_eq (r t : N) : bool :=
  (r ≟ t)
  || let lo := N.min r t in let hi := N.max r t in
     if (hi <? 128)%N then ((65 <=? lo) && (lo <=? 90) && (hi =? lo + 32))%N else same_fold lo hi.
Fixpoint all_fold (rs ts : list N) : bool :=
  match rs, ts with
  | [], [] => true
  | r :: rs', t :: ts' => fold_eq r t && all_fold rs' ts'
  | _, _ => false
  end.
(** [strings.EqualFold]. *)
Definition EqualFoldText (s t : string) : bool := all_fold (rune_list s) (rune_list t).
End unicode.

Example Fields_mixed : Fields " ab  c " = ["ab"; "c"].
Proof. reflexivity. Qed.
Example string_of_runes_bad : string_of_runes (rune_list (String (ascii_of_N 255) "b"))
  = String (ascii_of_N 239) (String (ascii_of_N 191) (String (ascii_of_N 189) "b")).
Proof. reflexivity. Qed.
