(* ===== verification/Trace.v ===== *)
(** * Trace: W3C trace context carried by events

    Models internal/telemetry/trace.go: [SpanContext.Valid], [TraceParent],
    [ParseTraceParent] and [Carrier].  Event chains are validated with
    [ParseTraceParent], so what [Carrier] writes must parse again. *)
From stdpp Require Import base strings list.
From Stdlib Require Import ZArith Ascii Lia.
From S2P Require Import Prelude GoLib GoStrings.

Record SpanContext := {
  sc_TraceID : string; sc_SpanID : string; sc_TraceFlags : string; sc_TraceState : string; sc_Remote : bool }.

Definition zero_SpanContext : SpanContext :=
  {| sc_TraceID := ""; sc_SpanID := ""; sc_TraceFlags := ""; sc_TraceState := ""; sc_Remote := false |}.

Definition validHex (value : string) (length : nat) : bool :=
  if negb (String.length value =? length) || (value ≠? ToLower value) then false else hex_decodes value.

Definition validHexID (value : string) (length : nat) : bool :=
  if negb (validHex value length) then false else existsb (λ '(_, r), negb (r =? 48)%N) (runes value).

Definition validFlags (value : string) : bool := validHex value 2.

Definition comma : ascii := ",".
Definition equals : ascii := "=".
Definition dash : ascii := "-".
Definition CR : ascii := ascii_of_nat 13.
Definition LF : ascii := ascii_of_nat 10.
Definition TAB : ascii := ascii_of_nat 9.

Definition validMember (member : string) : bool :=
  match Cut equals (TrimSpace member) with
  | None => false
  | Some (k, v) =>
      negb ((k ≟ "") || (v ≟ "") || (256 <? String.length k) || (256 <? String.length v))
      && negb (ContainsAny (k +:+ v) (String " " (String comma (String TAB ""))))
  end.

Definition validTraceState (value : string) : bool :=
  if value ≟ "" then true
  else if (512 <? String.length value) || ContainsAny value (String CR (String LF "")) then false
  else let members := Split comma value in
       if 32 <? length members then false else forallb validMember members.

Definition Span_Valid (s : SpanContext) : bool :=
  validHexID (sc_TraceID s) 32 && validHexID (sc_SpanID s) 16 && validFlags (sc_TraceFlags s)
  && validTraceState (sc_TraceState s).

Definition TraceParent (s : SpanContext) : string :=
  if negb (Span_Valid s) then ""
  else "00-" +:+ sc_TraceID s +:+ "-" +:+ sc_SpanID s +:+ "-" +:+ ToLower (sc_TraceFlags s).

Definition ParseTraceParent (value state : string) : result SpanContext :=
  let value := TrimSpace value in
  match Split dash value with
  | [v; t; i; f] =>
      reject (negb ((String.length v =? 2) && (String.length t =? 32) && (String.length i =? 16)
                    && (String.length f =? 2)))
        (Errorf "traceparent must contain version, trace-id, parent-id and flags" []) ;;;
      let version := ToLower v in
      reject ((version ≟ "ff") || negb (validHex version 2)) (Errorf "traceparent version is invalid" []) ;;;
      reject ((version ≟ "00") && negb (String.length value =? 55))
        (Errorf "traceparent version 00 has an invalid length" []) ;;;
      let span := {| sc_TraceID := ToLower t; sc_SpanID := ToLower i; sc_TraceFlags := ToLower f;
                     sc_TraceState := TrimSpace state; sc_Remote := true |} in
      reject (negb (Span_Valid span))
        (Errorf "traceparent contains an invalid or all-zero identifier" []) ;;;
      Ok span
  | _ => Err (Errorf "traceparent must contain version, trace-id, parent-id and flags" [])
  end.

(** [FromContext] and [Carrier]: the span a context carries, if any. *)
Definition FromContext (ctx : option SpanContext) : SpanContext * bool :=
  match ctx with
  | None => (zero_SpanContext, false)
  | Some span => (span, Span_Valid span)
  end.
Definition Carrier (ctx : option SpanContext) : string * string :=
  let '(span, ok) := FromContext ctx in
  if negb ok then ("", "") else (TraceParent span, sc_TraceState span).

(** ** Round trip *)

Lemma validHex_spec s n :
  validHex s n = true ↔ String.length s = n ∧ ToLower s = s ∧ hex_decodes s = true.
Proof.
  unfold validHex. destruct (Nat.eqb_spec (String.length s) n); cbn [negb orb]; [|split; [done|naive_solver]].
  case_bool_decide; cbn [negb]; naive_solver.
Qed.

Lemma hex_free s : hex_decodes s = true → free_of (is_char dash) s.
Proof.
  unfold hex_decodes, free_of. rewrite andb_true_iff, forallb_forall. intros [_ Hh].
  apply Forall_forall. intros a Ha. apply bool_decide_eq_false. intros ->.
  apply list_elem_of_In, Hh in Ha. discriminate Ha.
Qed.

Lemma hex_printable s a : hex_decodes s = true → a ∈ chars s → printable a = true.
Proof.
  unfold hex_decodes. rewrite andb_true_iff, forallb_forall. intros [_ Hh] Ha.
  apply list_elem_of_In, Hh in Ha. revert Ha. unfold is_hex, printable.
  rewrite !orb_true_iff, !andb_true_iff, !N.leb_le. lia.
Qed.

Lemma validHexID_hex s n : validHexID s n = true → validHex s n = true.
Proof. unfold validHexID. by destruct (validHex s n). Qed.

Lemma string_snoc s n : String.length s = S n → ∃ t b, s = t +:+ String b "".
Proof.
  revert n. induction s as [|a s IH]; [done|]. intros n Hn. destruct s as [|b s].
  - by exists "", a.
  - destruct (IH (String.length s) eq_refl) as (t & c & ->). by exists (String a t), c.
Qed.

Lemma string_app_assoc (s t u : string) : (s +:+ t) +:+ u = s +:+ (t +:+ u).
Proof. induction s as [|a s IH]; [done|]. change (String a ((s +:+ t) +:+ u) = String a (s +:+ (t +:+ u))). by f_equal. Qed.

Lemma string_length_app (s t : string) : String.length (s +:+ t) = String.length s + String.length t.
Proof. induction s as [|a s IH]; [done|]. change (S (String.length (s +:+ t)) = S (String.length s + String.length t)). by f_equal. Qed.

(** A trace parent ends in a printable flag digit, so trimming keeps it. *)
Lemma TrimSpace_TraceParent t f : validFlags f = true → TrimSpace ("00-" +:+ t +:+ f) = "00-" +:+ t +:+ f.
Proof.
  intros Hf. apply validHex_spec in Hf as (Hl & _ & Hh). destruct (string_snoc f 1 Hl) as (u & b & ->).
  assert (printable b = true) as Hb.
  { apply (hex_printable _ b Hh). rewrite chars_app. apply elem_of_app. right. left. }
  rewrite <- (string_app_assoc t u).
  change ("00-" +:+ (t +:+ u) +:+ String b "") with (String "0" (("0-" +:+ (t +:+ u)) +:+ String b "")).
  by apply TrimSpace_printable.
Qed.

Lemma ParseTraceParent_TraceParent s :
  Span_Valid s = true → TrimSpace (sc_TraceState s) = sc_TraceState s →
  ParseTraceParent (TraceParent s) (sc_TraceState s) =
  Ok {| sc_TraceID := sc_TraceID s; sc_SpanID := sc_SpanID s; sc_TraceFlags := sc_TraceFlags s;
        sc_TraceState := sc_TraceState s; sc_Remote := true |}.
Proof.
  intros Hv Hst. unfold TraceParent. rewrite Hv. cbn [negb].
  pose proof Hv as Hv'. unfold Span_Valid in Hv'. rewrite !andb_true_iff in Hv'.
  destruct Hv' as (((Ht & Hi) & Hf) & _). pose proof Hf as Hfl.
  apply validHexID_hex, validHex_spec in Ht as (T1 & T2 & T3).
  apply validHexID_hex, validHex_spec in Hi as (I1 & I2 & I3).
  apply validHex_spec in Hf as (F1 & F2 & F3). rewrite F2.
  unfold ParseTraceParent.
  rewrite <- (string_app_assoc (sc_SpanID s)), <- (string_app_assoc "-"), <- (string_app_assoc (sc_TraceID s)).
  rewrite TrimSpace_TraceParent by done. rewrite !string_app_assoc.
  change ("00-" +:+ sc_TraceID s +:+ "-" +:+ sc_SpanID s +:+ "-" +:+ sc_TraceFlags s)
    with ("00" +:+ String dash (sc_TraceID s +:+ String dash (sc_SpanID s +:+ String dash (sc_TraceFlags s)))).
  rewrite Split_app by (repeat constructor). rewrite Split_app by by apply hex_free.
  rewrite Split_app by by apply hex_free. rewrite Split_free by by apply hex_free.
  cbv zeta. rewrite T1, I1, F1, T2, I2, F2, Hst. cbn [String.length Nat.eqb andb negb reject rbind].
  assert (String.length ("00" +:+ String dash (sc_TraceID s +:+ String dash (sc_SpanID s +:+ String dash (sc_TraceFlags s)))) = 55) as ->.
  { rewrite string_length_app. cbn [String.length]. rewrite string_length_app. cbn [String.length].
    rewrite string_length_app. cbn [String.length]. rewrite T1, I1, F1. done. }
  cbn [ToLower Nat.eqb]. change (reject _ _) with (reject false (Errorf "traceparent version is invalid" [])) at 1.
  cbn [reject rbind]. rewrite andb_false_r. cbn [reject rbind].
  assert (Span_Valid {| sc_TraceID := sc_TraceID s; sc_SpanID := sc_SpanID s; sc_TraceFlags := sc_TraceFlags s;
        sc_TraceState := sc_TraceState s; sc_Remote := true |} = true) as -> by done.
  done.
Qed.

(** What [Carrier] writes parses again: the span of a context survives being
    recorded in an event. *)
Lemma Carrier_parses ctx tp ts :
  Carrier ctx = (tp, ts) → TrimSpace ts = ts →
  (tp = "" ∧ ts = "") ∨ ∃ span, ParseTraceParent tp ts = Ok span.
Proof.
  unfold Carrier, FromContext. destruct ctx as [s|]; [|by intros [= <- <-]; left].
  destruct (Span_Valid s) eqn:Hv; cbn [negb]; [|by intros [= <- <-]; left].
  intros [= <- <-] Hst. right. eexists. by apply ParseTraceParent_TraceParent.
Qed.
