(* ===== verification/GoValue.v ===== *)
(** * GoValue: values of type [any] and IEEE-754 numbers

    The predicate and usage code inspects JSON-like [any] values by their dynamic
    type.  [value] has one constructor per dynamic type those type switches
    distinguish; a struct or a typed slice that is only ever stored and compared
    is [VTyped] with its Go type's name.  A [float64] is a [spec_float] of the
    Standard Library (precision 53, exponent 1024): arithmetic on it is the pure
    IEEE-754 reference, with no primitive floats. *)
From stdpp Require Import base strings gmap list.
From Stdlib Require Import ZArith Lia SpecFloat.
From S2P Require Import Prelude GoLib.

Inductive int_kind :=
  | KInt | KInt8 | KInt16 | KInt32 | KInt64
  | KUint | KUint8 | KUint16 | KUint32 | KUint64.
#[global] Instance int_kind_eq_dec : EqDecision int_kind.
Proof. solve_decision. Defined.

Inductive value :=
  | VNil
  | VBool (b : bool)
  | VInt (k : int_kind) (n : Z)
  | VFloat64 (f : spec_float)
  | VFloat32 (f : spec_float)
  | VString (s : string)
  | VStrings (l : list string)
  | VAnys (l : list value)
  | VObject (o : list (string * value))
  | VTyped (go_type : string) (v : value).

(** ** Conversions *)

(** [float64(n)] of an integer: round to nearest even. *)
Definition float64_of_Z (n : Z) : spec_float := binary_normalize 53 1024 n 0 false.

(** [float64(f)] of a [float32]: exact. *)
Definition float64_of_float32 (f : spec_float) : spec_float :=
  match f with
  | S754_finite s m e => binary_normalize 53 1024 (if s then Z.neg m else Z.pos m) e s
  | _ => f
  end.

(** [int64(f)]: truncation toward zero; the language leaves an out-of-range
    conversion to the implementation, and amd64 yields [math.MinInt64]. *)
Definition trunc_float (f : spec_float) : option Z :=
  match f with
  | S754_zero _ => Some 0%Z
  | S754_finite s m e =>
      let mag := if (0 <=? e)%Z then (Z.pos m * 2 ^ e)%Z else (Z.pos m / 2 ^ (- e))%Z in
      Some (if s then (- mag)%Z else mag)
  | _ => None
  end.
Definition int64_of_float (f : spec_float) : Z :=
  match trunc_float f with
  | Some z => if ((- two63 <=? z) && (z <? two63))%Z then z else (- two63)%Z
  | None => (- two63)%Z
  end.

(** [number(v)] (validate.go). *)
Definition number (v : value) : option spec_float :=
  match v with
  | VInt KInt n | VInt KInt64 n => Some (float64_of_Z n)
  | VFloat64 f => Some f
  | VFloat32 f => Some (float64_of_float32 f)
  | _ => None
  end.

(** ** [reflect.DeepEqual] on [any] values *)

Fixpoint assoc (k : string) (o : list (string * value)) : option value :=
  match o with
  | [] => None
  | (k', v) :: o' => if decide (k = k') then Some v else assoc k o'
  end.

Fixpoint DeepEqual (v w : value) {struct v} : bool :=
  match v, w with
  | VNil, VNil => true
  | VBool a, VBool b => bool_decide (a = b)
  | VInt k n, VInt k' n' => bool_decide (k = k') && (n =? n')%Z
  | VFloat64 f, VFloat64 g | VFloat32 f, VFloat32 g => SFeqb f g
  | VString s, VString t => bool_decide (s = t)
  | VStrings l, VStrings l' => bool_decide (l = l')
  | VAnys l, VAnys l' =>
      (fix go (l l' : list value) : bool :=
         match l, l' with
         | [], [] => true
         | x :: l1, y :: l1' => DeepEqual x y && go l1 l1'
         | _, _ => false
         end) l l'
  | VObject o, VObject o' =>
      bool_decide (length o = length o') &&
      (fix go (o : list (string * value)) : bool :=
         match o with
         | [] => true
         | (k, x) :: o1 =>
             match assoc k o' with Some y => DeepEqual x y | None => false end && go o1
         end) o
  | VTyped t x, VTyped t' y => bool_decide (t = t') && DeepEqual x y
  | _, _ => false
  end.

(** ** Usage counters read from provider results (transition.go, [usageInt64]) *)

Definition usable_float (f : spec_float) : option Z :=
  if SFleb (S754_zero false) f && SFleb f (float64_of_Z (two63 - 1))
     && SFeqb f (float64_of_Z (int64_of_float f))
  then Some (int64_of_float f) else None.

Definition usage_value (v : option value) : Z :=
  match v with
  | Some (VInt (KInt | KInt8 | KInt16 | KInt32 | KInt64) n) => n
  | Some (VInt (KUint | KUint64) n) => if (n <=? two63 - 1)%Z then n else 0%Z
  | Some (VFloat64 f) => default 0%Z (usable_float f)
  | Some (VFloat32 f) => default 0%Z (usable_float (float64_of_float32 f))
  | _ => 0%Z
  end.

Definition usageInt64 (fields : gmap string value) (key : string) : Z :=
  let value := usage_value (fields !! key) in
  if (value <? 0)%Z then 0%Z else value.

(** [usageInt]: the clamp to [int] is vacuous where [int] has 64 bits. *)
Definition usageInt (fields : gmap string value) (key : string) : Z :=
  let value := usageInt64 fields key in
  if (value >? two63 - 1)%Z then (two63 - 1)%Z else value.

(** A value of the model is a Go value: integers are in the range of their kind. *)
Definition kind_range (k : int_kind) (n : Z) : Prop :=
  match k with
  | KInt | KInt64 => int64_range n
  | KInt8 => (-128 ≤ n < 128)%Z
  | KInt16 => (-32768 ≤ n < 32768)%Z
  | KInt32 => (-2147483648 ≤ n < 2147483648)%Z
  | KUint | KUint64 => (0 ≤ n < two64)%Z
  | KUint8 => (0 ≤ n < 256)%Z
  | KUint16 => (0 ≤ n < 65536)%Z
  | KUint32 => (0 ≤ n < 4294967296)%Z
  end.
Definition go_value (v : value) : Prop :=
  match v with VInt k n => kind_range k n | _ => True end.

Lemma int64_of_float_range f : int64_range (int64_of_float f).
Proof.
  unfold int64_of_float. destruct (trunc_float f) as [z|].
  - destruct ((- two63 <=? z) && (z <? two63))%Z eqn:E; unfold int64_range, two63 in *; lia.
  - unfold int64_range, two63. lia.
Qed.

Lemma usable_float_range f : int64_range (default 0%Z (usable_float f)).
Proof.
  unfold usable_float. destruct (_ && _); simpl.
  - apply int64_of_float_range.
  - unfold int64_range, two63. lia.
Qed.

(** Telemetry that is negative, fractional, of another type or absent reads as
    zero; every counter read is a non-negative [int64]. *)
Lemma usageInt64_range fields key :
  (∀ v, fields !! key = Some v → go_value v) →
  (0 ≤ usageInt64 fields key ∧ int64_range (usageInt64 fields key))%Z.
Proof.
  intros Hgo. unfold usageInt64.
  assert (int64_range (usage_value (fields !! key))) as Hr.
  { unfold usage_value. destruct (fields !! key) as [v|] eqn:E; [|unfold int64_range, two63; lia].
    specialize (Hgo v eq_refl).
    destruct v as [| |k n|f|f| | | | |]; try (unfold int64_range, two63; lia).
    - unfold go_value, kind_range, int64_range, two63, two64 in *.
      destruct k; try lia; destruct (n <=? _)%Z eqn:?; lia.
    - apply usable_float_range.
    - apply usable_float_range. }
  unfold int64_range, two63 in *. destruct (_ <? 0)%Z eqn:E; lia.
Qed.

Lemma usageInt_range fields key :
  (∀ v, fields !! key = Some v → go_value v) →
  (0 ≤ usageInt fields key ∧ int64_range (usageInt fields key))%Z.
Proof.
  intros Hgo. pose proof (usageInt64_range fields key Hgo) as [? ?].
  unfold usageInt. unfold int64_range, two63 in *. destruct (_ >? _)%Z eqn:E; lia.
Qed.

(** ** Quotients of counts *)

Lemma digits2_bounds p : (2 ^ (Zpos (digits2_pos p) - 1) ≤ Zpos p < 2 ^ Zpos (digits2_pos p))%Z.
Proof.
  induction p as [p IH|p IH|]; cbn [digits2_pos]; [| |by cbn].
  all: rewrite Pos2Z.inj_succ; replace (Z.succ (Zpos (digits2_pos p)) - 1)%Z with (Z.succ (Zpos (digits2_pos p) - 1))%Z by lia;
    rewrite !Z.pow_succ_r by lia; lia.
Qed.

Lemma digits2_unique p d : (2 ^ (d - 1) ≤ Zpos p < 2 ^ d)%Z → (0 < d)%Z → Zpos (digits2_pos p) = d.
Proof.
  intros [H1 H2] Hd. pose proof (digits2_bounds p) as [H3 H4].
  destruct (Z.lt_trichotomy (Zpos (digits2_pos p)) d) as [H|[H|H]]; [|done|]; exfalso.
  - assert (2 ^ Zpos (digits2_pos p) ≤ 2 ^ (d - 1))%Z by (apply Z.pow_le_mono_r; lia). lia.
  - assert (2 ^ d ≤ 2 ^ (Zpos (digits2_pos p) - 1))%Z by (apply Z.pow_le_mono_r; lia). lia.
Qed.

Lemma shift_pos_mul p k : Zpos (Pos.iter xO p k) = (Zpos p * 2 ^ Zpos k)%Z.
Proof.
  induction k as [|k IH] using Pos.peano_ind; [cbn; lia|].
  rewrite Pos.iter_succ, Pos2Z.inj_succ, Z.pow_succ_r by lia. change (Zpos (Pos.iter xO p k)~0) with (2 * Zpos (Pos.iter xO p k))%Z. lia.
Qed.

Definition mant (m : positive) : Prop := (2 ^ 52 ≤ Zpos m < 2 ^ 53)%Z.

Lemma digits_mant m : mant m → Zpos (digits2_pos m) = 53%Z.
Proof. intros H. apply digits2_unique; [exact H|lia]. Qed.

(** Rounding a mantissa that is already in range changes nothing. *)
Lemma round_exact m e : mant m → (-1074 ≤ e ≤ 971)%Z →
  binary_round_aux 53 1024 false (Zpos m) e loc_Exact = S754_finite false m e.
Proof.
  intros Hm He. unfold binary_round_aux, shr_fexp, Zdigits2. rewrite (digits_mant m Hm).
  assert (Hf : (fexp 53 1024 (53 + e) - e = 0)%Z) by (unfold fexp, emin; lia).
  rewrite Hf. cbn [shr shr_record_of_loc shr_m loc_of_shr_record round_nearest_even]. rewrite (digits_mant m Hm), Hf.
  cbn [shr shr_record_of_loc shr_m]. by rewrite (proj2 (Z.leb_le _ _)) by lia.
Qed.

Lemma float_of_count n : (0 < n < 2 ^ 53)%Z →
  ∃ m e, float64_of_Z n = S754_finite false m e ∧ mant m ∧ (-52 ≤ e ≤ 0)%Z ∧ (n * 2 ^ (- e) = Zpos m)%Z.
Proof.
  intros Hn. destruct n as [|p|p]; [lia| |lia]. unfold float64_of_Z, binary_normalize, binary_round.
  pose proof (digits2_bounds p) as [H1 H2]. set (d := digits2_pos p) in *.
  assert (Hd : (1 ≤ Zpos d ≤ 53)%Z).
  { split; [lia|]. destruct (Z.le_gt_cases (Zpos d) 53) as [|H]; [done|].
    assert (2 ^ 53 ≤ 2 ^ (Zpos d - 1))%Z by (apply Z.pow_le_mono_r; lia). lia. }
  assert (Hf : fexp 53 1024 (Zpos d + 0) = (Zpos d - 53)%Z) by (unfold fexp, emin; lia). rewrite Hf.
  unfold shl_align. rewrite Z.sub_0_r.
  assert (Hm : ∀ m, (Zpos m = Zpos p * 2 ^ (53 - Zpos d))%Z → mant m).
  { intros m E. unfold mant. rewrite E. replace (2 ^ 52)%Z with (2 ^ (Zpos d - 1) * 2 ^ (53 - Zpos d))%Z
      by (rewrite <- Z.pow_add_r by lia; f_equal; lia).
    replace (2 ^ 53)%Z with (2 ^ Zpos d * 2 ^ (53 - Zpos d))%Z by (rewrite <- Z.pow_add_r by lia; f_equal; lia).
    assert (0 < 2 ^ (53 - Zpos d))%Z by (apply Z.pow_pos_nonneg; lia). nia. }
  destruct (Zpos d - 53)%Z as [|k|k] eqn:Ek; [|lia|].
  - exists p, 0%Z. assert (Hp : mant p). { apply Hm. replace (53 - Zpos d)%Z with 0%Z by lia. lia. }
    rewrite round_exact by (done || lia). repeat split; try lia; try apply Hp.
  - exists (Pos.iter xO p k), (Zneg k). assert (Hp : mant (Pos.iter xO p k)).
    { apply Hm. rewrite shift_pos_mul. do 2 f_equal. lia. }
    rewrite round_exact by (done || lia). repeat split; try lia; try apply Hp. rewrite shift_pos_mul. f_equal.
Qed.

Definition float_one : spec_float := float64_of_Z 1.
Definition unit_float (f : spec_float) : bool := SFleb (S754_zero false) f && SFleb f float_one.

Lemma unit_finite m e : mant m → (e ≤ -53)%Z ∨ (e = -52 ∧ Zpos m = 2 ^ 52)%Z → unit_float (S754_finite false m e) = true.
Proof.
  intros Hm He. unfold unit_float, SFleb, float_one. cbn [SFcompare]. change (float64_of_Z 1) with (S754_finite false 4503599627370496 (-52)).
  cbn [SFcompare]. destruct He as [He|[-> Hm']].
  - by rewrite (proj2 (Z.compare_lt_iff _ _)) by lia.
  - assert (m = 4503599627370496%positive) as -> by (apply Pos2Z.inj; rewrite Hm'; reflexivity). done.
Qed.

(** Rounding once the mantissa has 53 bits. *)
Lemma round_tail r e : (2 ^ 52 ≤ r ≤ 2 ^ 53)%Z → (-1074 ≤ e ≤ -53)%Z →
  unit_float (let '(mrs, e'') := shr_fexp 53 1024 r e loc_Exact in
    match shr_m mrs with
    | Z0 => S754_zero false
    | Zpos m => if Z.leb e'' (1024 - 53) then S754_finite false m e'' else S754_infinity false
    | _ => S754_nan
    end) = true.
Proof.
  intros Hr He. destruct (Z.eq_dec r (2 ^ 53)) as [->|Hne].
  - unfold shr_fexp. change (Zdigits2 (2 ^ 53)) with 54%Z.
    assert (fexp 53 1024 (54 + e) - e = 1)%Z as -> by (unfold fexp, emin; lia).
    cbn [shr iter_pos]. change (shr_1 (shr_record_of_loc (2 ^ 53) loc_Exact)) with {| shr_m := 2 ^ 52; shr_r := false; shr_s := false |}.
    cbn [shr_m]. change (2 ^ 52)%Z with (Zpos 4503599627370496). rewrite (proj2 (Z.leb_le _ _)) by lia.
    apply unit_finite; [by split|]. destruct (Z.eq_dec e (-53)) as [->|]; [right|left]; [by split|lia].
  - destruct r as [|p|p]; [lia| |lia]. assert (Hm : mant p) by (split; lia). unfold shr_fexp, Zdigits2. rewrite (digits_mant p Hm).
    assert (fexp 53 1024 (53 + e) - e = 0)%Z as -> by (unfold fexp, emin; lia).
    cbn [shr shr_record_of_loc shr_m]. rewrite (proj2 (Z.leb_le _ _)) by lia. apply unit_finite; [done|left; lia].
Qed.

Lemma round_nearest_range m l : (m ≤ round_nearest_even m l ≤ m + 1)%Z.
Proof. destruct l as [|[]]; cbn; try destruct (Z.even m); lia. Qed.

Lemma shr_1_half q l : (2 ≤ q)%Z → shr_m (shr_1 (shr_record_of_loc q l)) = (q / 2)%Z.
Proof.
  intros Hq. destruct q as [|p|p]; [lia| |lia]. assert (Zpos p / 2 = Z.div2 (Zpos p))%Z as -> by (symmetry; apply Z.div2_div).
  destruct l as [|[]], p as [p|p|]; try done; lia.
Qed.

Lemma round_unit q e l :
  (2 ^ 52 ≤ q < 2 ^ 54)%Z → (-1074 ≤ e)%Z → (e ≤ -54 ∨ e = -53 ∧ q < 2 ^ 53 ∨ e = -53 ∧ q = 2 ^ 53 ∧ l = loc_Exact)%Z →
  unit_float (binary_round_aux 53 1024 false q e l) = true.
Proof.
  intros Hq He Hc. unfold binary_round_aux. destruct (Z_lt_le_dec q (2 ^ 53)) as [Hlt|Hge].
  - destruct q as [|p|p]; [lia| |lia]. assert (Hm : mant p) by (split; lia).
    unfold shr_fexp at 1. unfold Zdigits2. rewrite (digits_mant p Hm).
    assert (fexp 53 1024 (53 + e) - e = 0)%Z as -> by (unfold fexp, emin; lia). cbn [shr].
    assert (shr_m (shr_record_of_loc (Zpos p) l) = Zpos p) as -> by (by destruct l as [|[]]).
    pose proof (round_nearest_range (Zpos p) (loc_of_shr_record (shr_record_of_loc (Zpos p) l))) as Hr.
    apply round_tail; lia.
  - destruct Hc as [Hc|[[_ Hc]|(-> & -> & ->)]]; [|lia|by vm_compute].
    assert (Hd : Zdigits2 q = 54%Z). { destruct q as [|p|p]; [lia| |lia]. apply digits2_unique; lia. }
    unfold shr_fexp at 1. rewrite Hd.
    assert (fexp 53 1024 (54 + e) - e = 1)%Z as -> by (unfold fexp, emin; lia). cbn [shr iter_pos].
    set (mrs := shr_1 _). assert (Hh : shr_m mrs = (q / 2)%Z) by (apply shr_1_half; lia).
    pose proof (round_nearest_range (shr_m mrs) (loc_of_shr_record mrs)) as Hr. rewrite Hh in Hr |- *.
    assert (2 ^ 52 ≤ q / 2)%Z by (apply Z.div_le_lower_bound; lia).
    assert (q / 2 < 2 ^ 53)%Z by (apply Z.div_lt_upper_bound; lia).
    apply round_tail; lia.
Qed.

Lemma quotient_unit a b : (0 ≤ a ≤ b)%Z → (0 < b < 2 ^ 53)%Z →
  unit_float (SFdiv 53 1024 (float64_of_Z a) (float64_of_Z b)) = true.
Proof.
  intros Ha Hb. destruct (float_of_count b Hb) as (m2 & e2 & -> & M2 & E2 & V2).
  destruct (Z.eq_dec a 0) as [->|Hn]; [done|]. destruct (float_of_count a ltac:(lia)) as (m1 & e1 & -> & M1 & E1 & V1).
  unfold mant in *. cbn [SFdiv xorb]. unfold SFdiv_core_binary, Zdigits2. rewrite (digits_mant m1 M1), (digits_mant m2 M2).
  assert (Hle : (e1 ≤ e2)%Z).
  { destruct (Z.le_gt_cases e1 e2) as [|Hgt]; [done|exfalso].
    assert (2 * 2 ^ (- e1) ≤ 2 ^ (- e2))%Z. { rewrite <- Z.pow_succ_r by lia. apply Z.pow_le_mono_r; lia. }
    assert (0 < 2 ^ (- e1))%Z by (apply Z.pow_pos_nonneg; lia). nia. }
  assert (Z.min (fexp 53 1024 (53 + e1 - (53 + e2))) (e1 - e2) = e1 - e2 - 53)%Z as -> by (unfold fexp, emin; lia).
  replace (e1 - e2 - (e1 - e2 - 53))%Z with 53%Z by lia. cbn beta iota zeta. rewrite Z.shiftl_mul_pow2 by lia.
  pose proof (Z.div_eucl_eq (Zpos m1 * 2 ^ 53) (Zpos m2) ltac:(lia)) as Heq.
  pose proof (Z.mod_pos_bound (Zpos m1 * 2 ^ 53) (Zpos m2) ltac:(lia)) as Hmod. unfold Z.modulo in Hmod.
  destruct (Z.div_eucl (Zpos m1 * 2 ^ 53) (Zpos m2)) as [q r]. 
  assert (Hq : (2 ^ 52 ≤ q < 2 ^ 54)%Z) by nia.
  apply round_unit; [done|lia|]. destruct (Z.eq_dec e1 e2) as [->|]; [right|left; lia].
  rewrite Z.sub_diag. assert (Hm : (Zpos m1 ≤ Zpos m2)%Z).
  { rewrite <- V1, <- V2. apply Z.mul_le_mono_nonneg_r; [|lia]. apply Z.pow_nonneg. lia. }
  destruct (Z.eq_dec (Zpos m1) (Zpos m2)) as [Em|Em]; [right|left; nia].
  rewrite Em in Heq. assert (Hz : (Zpos m2 * (2 ^ 53 - q) = r)%Z) by lia.
  assert (q = 2 ^ 53)%Z as ->.
  { clear -Hz Hmod. set (k := (2 ^ 53 - q)%Z) in *. assert (k = 0)%Z; [|lia].
    destruct (Z.lt_trichotomy k 0) as [H|[H|H]]; [nia|done|nia]. }
  rewrite Z.sub_diag, Z.mul_0_r in Hz. subst r. repeat split. unfold new_location, new_location_even, new_location_odd. by destruct (Z.even _).
Qed.
