(* ===== verification/GoJson.v ===== *)
(** * GoJson: digests and the JSON codec

    [crypto/sha256] with hex encoding and [encoding/json] are parameters: a class
    per entry point, at a Go type where the entry point is generic. *)
From stdpp Require Import base strings.
From S2P Require Import Prelude GoLib.

(** [hex.EncodeToString(sha256.Sum256(data))]; a digest is never blank. *)
Class Sha256 := {
  sha256_hex : string → string;
  sha256_nonblank : ∀ s, blank (sha256_hex s) = false
}.
(** [json.Marshal] at a Go type; [None] when it returns an error. *)
Class JsonMarshal (T : Type) := json_marshal : T → option string.
(** The digest of an encoding whose error is ignored ([b, _ := json.Marshal(v)]). *)
Definition json_sha256 `{Sha256, JsonMarshal T} (v : T) : string :=
  sha256_hex (default "" (json_marshal v)).
(** [json.Compact]: [None] when the input is not valid JSON. *)
Class JsonCompact := json_compact : string → option string.
(** [json.Unmarshal] at a Go type. *)
Class JsonUnmarshal (T : Type) := json_unmarshal : string → result T.
(** [json.Unmarshal] into a fresh struct whose error the caller may ignore: what
    the struct holds afterwards, and whether the call returned an error. *)
Class JsonInto (T : Type) := json_into : string → T * bool.
