(* ===== verification/ContextModel.v ===== *)
(** * ContextModel: the immutable context manifest and envelope

    Models internal/context/manifest.go (the [Manifest] contract: blocks, typed
    prompt segments, digests and their validation) and the part of
    internal/harness/store.go that wraps it for a dispatch ([ContextManifest],
    [ContextEnvelope]).  [harness.ContextBlock] and [contextcontract.Block], and
    the two manifest types, have the same fields, so one record stands for each
    pair and [toContextBlocks] is the identity; the JSON encoders of the two
    manifest types differ and are different parameters.

    [crypto/sha256] and [json.Marshal] are the parameters of GoJson. *)
From stdpp Require Import base strings gmap list pretty sorting.
From Stdlib Require Import ZArith Lia SpecFloat.
From S2P Require Import Prelude GoLib GoValue GoJson.

Record Block := {
  b_ID : string; b_Kind : string; b_Source : string; b_Content : string;
  b_Hash : string; b_Policy : string; b_Trust : string; b_SelectionReason : string;
  b_TokenEstimate : Z; b_Mandatory : bool; b_Metadata : gmap string string }.

Record PromptSegment := {
  ps_ID : string; ps_Kind : string; ps_Version : Z; ps_Hash : string; ps_Trust : string;
  ps_Mandatory : bool; ps_TokenBudget : Z; ps_Sensitivity : string; ps_Source : string;
  ps_Content : string }.

Record PromptManifest := {
  pm_Version : string; pm_Segments : list PromptSegment; pm_Digest : string }.

Record CompressionRecord := {
  cr_SourceBlockIDs : list string; cr_Algorithm : string; cr_Version : string;
  cr_SourceHash : string; cr_SummaryHash : string; cr_TargetTokens : Z;
  cr_RetainedFacts : list string; cr_DroppedFacts : list string;
  cr_QualityScore : spec_float; cr_FallbackReason : string; cr_DroppedReason : string;
  cr_OverflowReason : string; cr_ReplayKey : string }.

Record Manifest := {
  m_SessionID : string; m_Version : Z; m_SemanticSnapshotVersion : Z;
  m_TokenBudget : Z; m_TokenEstimate : Z; m_Blocks : list Block;
  m_RequiredBlockIDs : list string; m_OmittedRequiredIDs : list string;
  m_CompilerVersion : string; m_TokenizerID : string;
  m_CompressionRecords : list CompressionRecord; m_PromptManifest : PromptManifest;
  m_Digest : string; m_PromptManifestHash : string; m_ParentDigest : string;
  m_CreatedAt : Time }.

(** [harness.ContextManifest]: same data, its own JSON encoder. *)
Record HarnessManifest := Harness { unharness : Manifest }.

Record ContextEnvelope := {
  ce_Manifest : Manifest; ce_SelectionDigest : string; ce_ReplayKey : string }.

Definition pm_with_Digest d p :=
  {| pm_Version := pm_Version p; pm_Segments := pm_Segments p; pm_Digest := d |}.

(** The manifest with the fields the digests leave out overwritten. *)
Definition m_with digest hash records prompt created (m : Manifest) : Manifest :=
  {| m_SessionID := m_SessionID m; m_Version := m_Version m;
     m_SemanticSnapshotVersion := m_SemanticSnapshotVersion m;
     m_TokenBudget := m_TokenBudget m; m_TokenEstimate := m_TokenEstimate m;
     m_Blocks := m_Blocks m; m_RequiredBlockIDs := m_RequiredBlockIDs m;
     m_OmittedRequiredIDs := m_OmittedRequiredIDs m;
     m_CompilerVersion := m_CompilerVersion m; m_TokenizerID := m_TokenizerID m;
     m_CompressionRecords := records; m_PromptManifest := prompt;
     m_Digest := digest; m_PromptManifestHash := hash; m_ParentDigest := m_ParentDigest m;
     m_CreatedAt := created |}.

Definition PromptManifestVersion := "prompt-manifest-v1".
Definition CompilerVersion := "adro-context-v2".
Definition TokenizerID := "rune4-v1".

Definition promptSegmentRanks (kind : string) : option Z :=
  if decide (kind = "system_policy") then Some 10%Z
  else if decide (kind = "workspace_policy") then Some 20%Z
  else if decide (kind = "agent_role") then Some 30%Z
  else if decide (kind = "plan_node_contract") then Some 40%Z
  else if decide (kind = "latest_objective") then Some 50%Z
  else if decide (kind = "acceptance_criteria") then Some 60%Z
  else if decide (kind = "context_memory") then Some 70%Z
  else if decide (kind = "tool_schema") then Some 80%Z
  else if decide (kind = "evidence") then Some 90%Z
  else if decide (kind = "output_contract") then Some 100%Z
  else None.

Definition promptKindForBlock (b : Block) : string :=
  if b_Mandatory b && EqualFold (TrimSpace (b_Source b)) "system" then "system_policy"
  else if b_Mandatory b && Contains (ToLower (b_SelectionReason b)) "objective" then "latest_objective"
  else
    let k := ToLower (TrimSpace (b_Kind b)) in
    if contains ["system"; "policy"] k then "system_policy"
    else if contains ["tool"; "tool_call"; "tool_result"; "transaction"; "tool_schema"] k then "tool_schema"
    else if contains ["code"; "json"; "artifact"; "evidence"] k then "evidence"
    else if contains ["turn"] k then "context_memory"
    else if contains ["archive"; "memory"; "summary"] k then "context_memory"
    else "plan_node_contract".

(** The kind a block's segment carries: metadata [prompt_kind], else derived. *)
Definition blockPromptKind (b : Block) : string :=
  let kind := TrimSpace (default "" (b_Metadata b !! "prompt_kind")) in
  if kind ≟ "" then promptKindForBlock b else kind.

Section context.
Context `{!Sha256, !JsonMarshal PromptManifest, !JsonMarshal Manifest,
            !JsonMarshal (string * PromptManifest)}.
Context `{!JsonMarshal HarnessManifest, !JsonMarshal (string * list (string * string * string)),
            !JsonMarshal (string * list Block)}.

Definition HashBlock (b : Block) : string := sha256_hex (b_Content b).

Definition promptManifestDigest (p : PromptManifest) : string :=
    json_sha256 (pm_with_Digest "" p).

Definition manifestDigest (m : Manifest) : string :=
    json_sha256 (m_with "" "" [] (pm_with_Digest "" (m_PromptManifest m)) 0%Z m).

Definition promptManifestHash (m : Manifest) : string :=
    json_sha256 (m_Digest m, m_PromptManifest m).

  (** *** [PromptManifest.Validate] *)

Definition segment_incomplete (s : PromptSegment) : bool :=
    (ps_Version s <? 1)%Z || (ps_ID s ≟ "") || (ps_Hash s ≟ "") || (ps_Trust s ≟ "")
    || (ps_Source s ≟ "") || (ps_TokenBudget s <? 1)%Z || blank (ps_Content s).

  (** One turn of the loop: the last rank and the segment IDs seen so far. *)
Definition check_segment (st : Z * list string) (_ : nat) (s : PromptSegment)
      : result (Z * list string) :=
    match promptSegmentRanks (ps_Kind s) with
    | None => Err (Errorf "invalid prompt segment %s" [ps_ID s])
    | Some rank =>
        reject (segment_incomplete s) (Errorf "invalid prompt segment %s" [ps_ID s]) ;;;
        reject (rank <? st.1)%Z (Errorf "prompt manifest segment order is not canonical" []) ;;;
        reject (contains st.2 (ps_ID s)) (Errorf "duplicate prompt segment %s" [ps_ID s]) ;;;
        Ok (rank, ps_ID s :: st.2)
    end.

Definition PromptManifest_Validate (p : PromptManifest) : result unit :=
    reject ((pm_Version p ≠? PromptManifestVersion) || (pm_Digest p ≟ ""))
      (Errorf "invalid prompt manifest metadata" []) ;;;
    fold_each_from 0 check_segment ((-1)%Z, []) (pm_Segments p) ;;;
    reject (promptManifestDigest p ≠? pm_Digest p) (Errorf "prompt manifest digest mismatch" []).

  (** *** [BuildPromptManifest] *)

Definition buildSegment (b : Block) : result PromptSegment :=
    let kind := blockPromptKind b in
    reject (bool_decide (promptSegmentRanks kind = None))
      (Errorf "prompt segment %s has unsupported kind %q" [b_ID b; kind]) ;;;
    reject ((b_ID b ≟ "") || (b_Source b ≟ "") || (b_Hash b ≟ "") || (b_Policy b ≟ "")
            || (b_Trust b ≟ "") || (b_SelectionReason b ≟ "") || (b_TokenEstimate b <? 1)%Z
            || blank (b_Content b))
      (Errorf "prompt segment %s has incomplete lineage" [b_ID b]) ;;;
    Ok {| ps_ID := b_ID b; ps_Kind := kind; ps_Version := 1; ps_Hash := b_Hash b;
          ps_Trust := b_Trust b; ps_Mandatory := b_Mandatory b;
          ps_TokenBudget := b_TokenEstimate b;
          ps_Sensitivity := TrimSpace (default "" (b_Metadata b !! "sensitivity"));
          ps_Source := b_Source b; ps_Content := b_Content b |}.

Fixpoint buildSegments (bs : list Block) : result (list PromptSegment) :=
    match bs with
    | [] => Ok []
    | b :: bs' =>
        let* s := buildSegment b in
        let* ss := buildSegments bs' in
        Ok (s :: ss)
    end.

  (** The order of the stable sort: rank, then ID.  A kind without a rank has
      the map's zero value. *)
Definition segment_rank (s : PromptSegment) : Z := default 0%Z (promptSegmentRanks (ps_Kind s)).
Definition segment_le (s t : PromptSegment) : Prop :=
    (segment_rank s < segment_rank t)%Z
    ∨ segment_rank s = segment_rank t ∧ String.le (ps_ID s) (ps_ID t).
#[global] Instance segment_le_dec : RelDecision segment_le.
  Proof. intros s t. unfold segment_le. apply _. Defined.

Definition BuildPromptManifest (bs : list Block) : result PromptManifest :=
    let* segments := buildSegments bs in
    let p := {| pm_Version := PromptManifestVersion;
                pm_Segments := stable_sort segment_le segments; pm_Digest := "" |} in
    Ok (pm_with_Digest (promptManifestDigest p) p).

  (** *** [validatePromptManifestBindings] *)

Definition binding_mismatch (s : PromptSegment) (b : Block) : bool :=
    (ps_Hash s ≠? b_Hash b) || (ps_Source s ≠? b_Source b) || (ps_Content s ≠? b_Content b)
    || (ps_Mandatory s ≠? b_Mandatory b) || (ps_TokenBudget s ≠? b_TokenEstimate b).

  (** [blocks[block.ID] = block] for each block, later blocks overwriting. *)
Definition blocks_by_id (bs : list Block) : gmap string Block :=
    foldl (λ acc b, <[b_ID b := b]> acc) ∅ bs.

Definition check_binding (blocks : gmap string Block) (_ : nat) (s : PromptSegment) : result unit :=
    match blocks !! ps_ID s with
    | None => Err (Errorf "prompt manifest references unknown block %s" [ps_ID s])
    | Some b =>
        reject (binding_mismatch s b)
          (Errorf "prompt manifest binding mismatch for block %s" [ps_ID s]) ;;;
        reject (ps_Kind s ≠? blockPromptKind b)
          (Errorf "prompt manifest kind mismatch for block %s" [ps_ID s])
    end.

Definition validatePromptManifestBindings (m : Manifest) : result unit :=
    reject (length (pm_Segments (m_PromptManifest m)) ≠? length (m_Blocks m))
      (Errorf "prompt manifest block coverage mismatch: segments=%d blocks=%d"
         [itoa (length (pm_Segments (m_PromptManifest m))); itoa (length (m_Blocks m))]) ;;;
    check_each (check_binding (blocks_by_id (m_Blocks m))) (pm_Segments (m_PromptManifest m)).

  (** *** [Manifest.Validate] *)

Record block_acc := { ba_seen : list string; ba_required : list string; ba_total : Z }.

Definition check_block (st : block_acc) (_ : nat) (b : Block) : result block_acc :=
    reject (b_ID b ≟ "") (Errorf "context block id is required" []) ;;;
    reject (contains (ba_seen st) (b_ID b)) (Errorf "duplicate context block %s" [b_ID b]) ;;;
    reject (b_Hash b ≠? HashBlock b) (Errorf "block %s hash mismatch" [b_ID b]) ;;;
    Ok {| ba_seen := b_ID b :: ba_seen st;
          ba_required := if b_Mandatory b then b_ID b :: ba_required st else ba_required st;
          ba_total := add64 (ba_total st) (b_TokenEstimate b) |}.

Definition check_required (required : list string) (seen : list string) (_ : nat) (id : string)
      : result (list string) :=
    reject (contains seen id) (Errorf "duplicate required context block %s" [id]) ;;;
    reject (negb (contains required id)) (Errorf "required context block %s is missing" [id]) ;;;
    Ok (id :: seen).

Definition Manifest_Validate (m : Manifest) : result unit :=
    reject ((m_SessionID m ≟ "") || (m_Digest m ≟ "") || (m_Version m <? 1)%Z
            || (m_SemanticSnapshotVersion m <? 1)%Z || (m_TokenBudget m <? 1)%Z
            || (m_TokenEstimate m <? 0)%Z || (m_TokenBudget m <? m_TokenEstimate m)%Z)
      (Errorf "invalid context manifest" []) ;;;
    reject ((m_CompilerVersion m ≟ "") || (m_TokenizerID m ≟ ""))
      (Errorf "context compiler metadata is required" []) ;;;
    reject (m_TokenizerID m ≟ "model-aware-v1:")
      (Errorf "model-aware tokenizer id is incomplete" []) ;;;
    wrap_err "prompt manifest: %w" [] (PromptManifest_Validate (m_PromptManifest m)) ;;;
    validatePromptManifestBindings m ;;;
    reject (negb (bool_decide (m_OmittedRequiredIDs m = [])))
      (Errorf "context manifest omits required blocks" []) ;;;
    let* acc := fold_each_from 0 check_block {| ba_seen := []; ba_required := []; ba_total := 0 |}
                  (m_Blocks m) in
    reject (ba_total acc ≠? m_TokenEstimate m)
      (Errorf "context token estimate mismatch: got %d want %d"
         [pretty (m_TokenEstimate m); pretty (ba_total acc)]) ;;;
    let* seen := fold_each_from 0 (check_required (ba_required acc)) [] (m_RequiredBlockIDs m) in
    reject (length seen ≠? length (ba_required acc))
      (Errorf "required context block set is incomplete" []) ;;;
    reject (manifestDigest m ≠? m_Digest m) (Errorf "context manifest digest mismatch" []) ;;;
    reject ((m_PromptManifestHash m ≟ "") || (m_PromptManifestHash m ≠? promptManifestHash m))
      (Errorf "context prompt manifest hash mismatch" []).

  (** *** [newManifest] *)

Definition block_id_le (a b : Block) : Prop := String.le (b_ID a) (b_ID b).
#[global] Instance block_id_le_dec : RelDecision block_id_le.
  Proof. intros a b. unfold block_id_le. apply _. Defined.

Definition b_with_Hash h b :=
    {| b_ID := b_ID b; b_Kind := b_Kind b; b_Source := b_Source b; b_Content := b_Content b;
       b_Hash := h; b_Policy := b_Policy b; b_Trust := b_Trust b;
       b_SelectionReason := b_SelectionReason b; b_TokenEstimate := b_TokenEstimate b;
       b_Mandatory := b_Mandatory b; b_Metadata := b_Metadata b |}.

Definition fillHash (b : Block) : Block :=
    if b_Hash b ≟ "" then b_with_Hash (HashBlock b) b else b.

Definition block_unlined (b : Block) : bool :=
    (b_ID b ≟ "") || (b_Source b ≟ "") || (b_Policy b ≟ "") || (b_Trust b ≟ "")
    || (b_SelectionReason b ≟ "") || (b_TokenEstimate b <? 1)%Z.

  (** The loop over the sorted copy: blocks with their hashes, required IDs, total. *)
Definition prepare_block (st : list Block * list string * Z) (_ : nat) (b : Block)
      : result (list Block * list string * Z) :=
    reject (block_unlined b) (Errorf "block %s is missing lineage metadata" [b_ID b]) ;;;
    let '(bs, required, total) := st in
    Ok (bs ++ [fillHash b], if b_Mandatory b then required ++ [b_ID b] else required,
        add64 total (b_TokenEstimate b)).

Definition newManifest (now : Time) (session : string) (version budget : Z)
      (blocks : list Block) (tokenizerID : string) : result Manifest :=
    reject (blank session || (version <? 1)%Z || (budget <? 1)%Z)
      (Errorf "session, positive version and token budget are required" []) ;;;
    reject (blank tokenizerID) (Errorf "tokenizer id is required" []) ;;;
    let* (cp, required, total) :=
      fold_each_from 0 prepare_block ([], [], 0%Z) (stable_sort block_id_le blocks) in
    reject (budget <? total)%Z (ESentinel ErrOverflow) ;;;
    let* prompt := BuildPromptManifest cp in
    let m := {| m_SessionID := session; m_Version := version;
                m_SemanticSnapshotVersion := version; m_TokenBudget := budget;
                m_TokenEstimate := total; m_Blocks := cp; m_RequiredBlockIDs := required;
                m_OmittedRequiredIDs := []; m_CompilerVersion := CompilerVersion;
                m_TokenizerID := tokenizerID; m_CompressionRecords := [];
                m_PromptManifest := prompt; m_Digest := ""; m_PromptManifestHash := "";
                m_ParentDigest := ""; m_CreatedAt := now |} in
    let m := m_with (manifestDigest m) "" [] prompt now m in
    Ok (m_with (m_Digest m) (promptManifestHash m) [] prompt now m).
  (** *** internal/harness/store.go *)

Definition compression_incomplete (r : CompressionRecord) : bool :=
    blank (cr_Algorithm r) || blank (cr_Version r) || blank (cr_SourceHash r)
    || blank (cr_SummaryHash r) || SFltb (cr_QualityScore r) (S754_zero false)
    || SFltb (float64_of_Z 1) (cr_QualityScore r) || blank (cr_ReplayKey r).

Definition legacy_block_incomplete (b : Block) : bool :=
    blank (b_ID b) || blank (b_Source b) || blank (b_Hash b) || blank (b_Policy b)
    || blank (b_Trust b) || blank (b_SelectionReason b) || (b_TokenEstimate b <=? 0)%Z.

Definition check_legacy_block (total : Z) (_ : nat) (b : Block) : result Z :=
    reject (legacy_block_incomplete b) (Errorf "context block is missing lineage metadata" []) ;;;
    reject (b_Hash b ≠? sha256_hex (b_Content b)) (Errorf "context block %s hash mismatch" [b_ID b]) ;;;
    Ok (add64 total (b_TokenEstimate b)).

  (** [promptManifestHash] of the harness: over the rendered blocks. *)
Definition harnessPromptHash (m : Manifest) : string :=
    json_sha256 (m_Digest m, (λ b, (b_ID b, b_Hash b, b_Content b)) <$> m_Blocks m).

Definition compiled_metadata (m : Manifest) : bool :=
    (m_CompilerVersion m ≠? "") || (m_TokenizerID m ≠? "")
    || negb (bool_decide (m_RequiredBlockIDs m = []))
    || negb (bool_decide (m_OmittedRequiredIDs m = [])).

  (** [ContextManifest.Validate]: compiled manifests are checked by the context
      package, block lineage without compiler metadata here, and a placeholder
      without blocks is accepted. *)
Definition ContextManifest_Validate (m : Manifest) : result unit :=
    reject (blank (m_SessionID m) || blank (m_Digest m) || (m_Version m <? 1)%Z
            || (m_TokenBudget m <=? 0)%Z || (m_TokenEstimate m <? 0)%Z
            || (m_TokenBudget m <? m_TokenEstimate m)%Z)
      (Errorf "invalid context manifest" []) ;;;
    if compiled_metadata m then Manifest_Validate m
    else if bool_decide (m_Blocks m = []) then Ok tt
    else
      check_each (λ i r, reject (compression_incomplete r)
                    (Errorf "context compression record %d is incomplete" [itoa i]))
        (m_CompressionRecords m) ;;;
      let* total := fold_each_from 0 check_legacy_block 0%Z (m_Blocks m) in
      reject (total ≠? m_TokenEstimate m)
        (Errorf "context token estimate mismatch: got %d want %d"
           [pretty (m_TokenEstimate m); pretty total]) ;;;
      match json_marshal (Harness (m_with "" "" (m_CompressionRecords m) (m_PromptManifest m) 0%Z m)) with
      | None => Err (Errorf "json" [])
      | Some data =>
          reject (m_Digest m ≠? sha256_hex data) (Errorf "context manifest digest mismatch" []) ;;;
          reject ((m_PromptManifestHash m ≠? "") && (m_PromptManifestHash m ≠? harnessPromptHash m))
            (Errorf "context prompt manifest hash mismatch" [])
      end.

  (** [digest(data)] of the harness. *)
Definition harnessDigest (data : string) : string := "sha256:" +:+ sha256_hex data.

  (** [ContextManifest.Envelope]. *)
Definition ContextManifest_Envelope (m : Manifest) : result ContextEnvelope :=
    ContextManifest_Validate m ;;;
    match json_marshal (m_Digest m, m_Blocks m) with
    | None => Err (Errorf "json" [])
    | Some data =>
        let selection := harnessDigest data in
        Ok {| ce_Manifest := m; ce_SelectionDigest := selection;
              ce_ReplayKey := m_SessionID m +:+ ":" +:+ pretty (m_Version m) +:+ ":" +:+ selection |}
    end.

  (** [ContextEnvelope.Validate]. *)
Definition ContextEnvelope_Validate (e : ContextEnvelope) : result unit :=
    ContextManifest_Validate (ce_Manifest e) ;;;
    let* derived := ContextManifest_Envelope (ce_Manifest e) in
    reject (blank (ce_SelectionDigest e) || (ce_SelectionDigest e ≠? ce_SelectionDigest derived))
      (Errorf "context selection digest mismatch" []) ;;;
    reject (blank (ce_ReplayKey e) || (ce_ReplayKey e ≠? ce_ReplayKey derived))
      (Errorf "context replay key mismatch" []).
End context.
