(* ===== verification/ContextCompiler.v ===== *)
(** * ContextCompiler: fitting context blocks into a token budget

    Models the compiler of internal/context/manifest.go: the token estimate, the
    extractive summarizer, the atomic groups, [compileWithSummarizer], [Rehash]
    and the textual rendering; and the users of it in internal/harness/store.go
    ([WithRequiredBlock], [Render], [LatestObjective]).

    [sort.Slice] is not stable: it is a parameter that yields some sorted
    permutation.  The wall clock is an argument. *)
From stdpp Require Import base strings gmap list pretty sorting.
From Stdlib Require Import ZArith Lia SpecFloat Ascii.
From S2P Require Import Prelude GoLib GoStrings GoValue GoJson ContextModel.

(** [sort.Slice]: sorted, in no particular order among equal elements. *)
Class SliceSort := {
  slice_sort : ∀ {A : Type} (le : relation A) `{!RelDecision le}, list A → list A;
  slice_sort_perm : ∀ {A : Type} (le : relation A) `{!RelDecision le} (l : list A), slice_sort le l ≡ₚ l;
  slice_sort_sorted : ∀ {A : Type} (le : relation A) `{!RelDecision le, !Total le, !Transitive le} (l : list A),
    StronglySorted le (slice_sort le l) }.

(** ** Tokens *)

Record Tokenizer := { tk_ID : string; tk_Estimate : string → Z }.

Definition tokenEstimate (content : string) : Z :=
  let runes := rune_count (TrimSpace content) in
  if (runes =? 0)%nat then 0%Z else ((Z.of_nat runes + 3) / 4)%Z.
Definition EstimateTokens (content : string) : Z := tokenEstimate content.
Definition Rune4Tokenizer : Tokenizer := {| tk_ID := TokenizerID; tk_Estimate := tokenEstimate |}.

(** ** The extractive summarizer *)

Definition nl : ascii := ascii_of_nat 10.
Definition cr : ascii := ascii_of_nat 13.
Definition line_break : string := String nl "".

(** [strings.NewReplacer(". ", ".\n", "! ", "!\n", "? ", "?\n", "; ", ";\n")]. *)
Definition ends_sentence (a : ascii) : bool := contains ["."; "!"; "?"; ";"] (String a "").
Fixpoint break_sentences (s : string) : string :=
  match s with
  | String a (String b s' as t) =>
      if ends_sentence a && (String b "" ≟ " ") then String a (String nl (break_sentences s'))
      else String a (break_sentences t)
  | _ => s
  end.

(** Trimmed, non-empty parts, each once. *)
Definition semanticFacts (content : string) : list string :=
  let content := ReplaceAll content (String cr line_break) line_break in
  append_unique_from [] (TrimSpace <$> Split nl (break_sentences content)).

Record summaryFact := { sf_ID : string; sf_Text : string; sf_Weight : Z; sf_Position : nat }.
Record SummaryRequest := {
  sq_Blocks : list Block; sq_TargetTokens : Z; sq_TokenizerID : string; sq_Estimate : string → Z }.
Record SummaryResult := {
  sr_Content : string; sr_RetainedFacts : list string; sr_DroppedFacts : list string; sr_QualityScore : spec_float }.

(** A summarizer; of its errors the compiler keeps the message. *)
Definition Summarizer := SummaryRequest → SummaryResult + string.

Definition summary_keywords : list string :=
  ["must"; "required"; "requirement"; "constraint"; "decision"; "invariant"; "failure"; "failed"; "error"; "bug";
   "security"; "acceptance"].
Definition fact_weight (mandatory : bool) (text : string) : Z :=
  let lower := ToLower text in
  (1 + 3 * Z.of_nat (length (filter (λ k, Contains lower k = true) summary_keywords))
   + (if mandatory then 8 else 0))%Z.

(** Heavier facts first, later ones first among equals. *)
Definition fact_le (a b : summaryFact) : Prop :=
  (sf_Weight b < sf_Weight a)%Z ∨ sf_Weight a = sf_Weight b ∧ sf_Position b ≤ sf_Position a.
#[global] Instance fact_le_dec : RelDecision fact_le.
Proof. intros a b. unfold fact_le. apply _. Defined.
Definition position_le (a b : summaryFact) : Prop := sf_Position a ≤ sf_Position b.
#[global] Instance position_le_dec : RelDecision position_le.
Proof. intros a b. unfold position_le. apply _. Defined.

(** The greedy choice under the target. *)
Definition take_fact (estimate : string → Z) (target : Z) (st : list summaryFact * Z) (f : summaryFact)
    : list summaryFact * Z :=
  let '(selected, used) := st in
  let cost := estimate (sf_Text f +:+ line_break) in
  if ((cost <? 1) || (target <? add64 used cost))%Z then st else (selected ++ [f], add64 used cost).

Definition total_weight (fs : list summaryFact) : Z := foldr (λ f s, sf_Weight f + s)%Z 0%Z fs.

Section compiler.
Context `{!Sha256, !JsonMarshal PromptManifest, !JsonMarshal Manifest,
            !JsonMarshal (string * PromptManifest)}.
Context `{!JsonMarshal HarnessManifest, !JsonMarshal (string * list (string * string * string)),
            !JsonMarshal (string * list Block)}.
Context `{!JsonMarshal (list (string * string)), !MapRange, !SliceSort}.

Definition factDigest (blockID fact : string) : string :=
  "fact:" +:+ sha256_hex (blockID +:+ String (ascii_of_nat 0) "" +:+ fact).

Definition summary_facts (blocks : list Block) : list summaryFact :=
  imap (λ i (bt : Block * string),
    {| sf_ID := factDigest (b_ID bt.1) bt.2; sf_Text := bt.2; sf_Weight := fact_weight (b_Mandatory bt.1) bt.2;
       sf_Position := i |})
    (mjoin ((λ b, pair b <$> semanticFacts (b_Content b)) <$> blocks)).

(** [ExtractiveSummarizer.Summarize]. *)
Definition Summarize : Summarizer := λ request,
  if (sq_TargetTokens request <? 1)%Z then inr "summary target token budget is required" else
  let facts := summary_facts (sq_Blocks request) in
  if bool_decide (facts = []) then inr "no semantic facts available" else
  let chosen := (foldl (take_fact (sq_Estimate request) (sq_TargetTokens request)) ([], 0%Z)
                   (stable_sort fact_le facts)).1 in
  if bool_decide (chosen = []) then inr "context token budget exceeded" else
  let selected := stable_sort position_le chosen in
  let retained := sf_ID <$> selected in
  inl {| sr_Content := Join line_break (sf_Text <$> selected);
         sr_RetainedFacts := retained;
         sr_DroppedFacts := sf_ID <$> filter (λ f, contains retained (sf_ID f) = false) facts;
         sr_QualityScore := SFdiv 53 1024 (float64_of_Z (total_weight selected)) (float64_of_Z (total_weight facts)) |}.

(** ** Atomic blocks and their groups *)

Definition metadata (b : Block) (key : string) : string := TrimSpace (default "" (b_Metadata b !! key)).

Definition blockIsAtomic (b : Block) : bool :=
  EqualFold (metadata b "atomic") "true"
  || contains ["code"; "json"; "tool"; "tool_call"; "tool_result"; "transaction"] (ToLower (TrimSpace (b_Kind b)))
  || (metadata b "tool_call_id" ≠? "").

Definition atomicGroupKey (b : Block) : string :=
  if negb (blockIsAtomic b) then ""
  else let callID := metadata b "tool_call_id" in
       if callID ≠? "" then "tool:" +:+ callID else "block:" +:+ b_ID b.

Record atomicBlockGroup := { ag_key : string; ag_blocks : list Block; ag_tokens : Z }.

Definition group_add (m : gmap string atomicBlockGroup) (b : Block) : gmap string atomicBlockGroup :=
  let key := atomicGroupKey b in
  let group := default {| ag_key := key; ag_blocks := []; ag_tokens := 0 |} (m !! key) in
  <[key := {| ag_key := ag_key group; ag_blocks := ag_blocks group ++ [b];
              ag_tokens := add64 (ag_tokens group) (b_TokenEstimate b) |}]> m.
Definition group_sorted (g : atomicBlockGroup) : atomicBlockGroup :=
  {| ag_key := ag_key g; ag_blocks := stable_sort block_id_le (ag_blocks g); ag_tokens := ag_tokens g |}.
Definition group_le (a b : atomicBlockGroup) : Prop := String.le (ag_key a) (ag_key b).
#[global] Instance group_le_dec : RelDecision group_le.
Proof. intros a b. unfold group_le. apply _. Defined.

Definition atomicBlockGroups (blocks : list Block) : list atomicBlockGroup :=
  stable_sort group_le (group_sorted <$> range_values (foldl group_add ∅ blocks)).

(** ** [compileWithSummarizer] *)

Definition blockIDs (blocks : list Block) : list string := sort_strings (b_ID <$> blocks).

Definition item_le (a b : string * string) : Prop := String.le a.1 b.1.
#[global] Instance item_le_dec : RelDecision item_le.
Proof. intros a b. unfold item_le. apply _. Defined.

Definition blockSetHash (blocks : list Block) : string :=
  json_sha256 (stable_sort item_le ((λ b, (b_ID b, b_Hash (fillHash b))) <$> blocks)).

Definition b_mandatory (b : Block) : Block :=
  {| b_ID := b_ID b; b_Kind := b_Kind b; b_Source := b_Source b; b_Content := b_Content b;
     b_Hash := b_Hash b; b_Policy := b_Policy b; b_Trust := b_Trust b;
     b_SelectionReason := b_SelectionReason b; b_TokenEstimate := b_TokenEstimate b;
     b_Mandatory := true; b_Metadata := b_Metadata b |}.

(** The groups with a mandatory member, and the promotion of their blocks. *)
Definition mandatoryTransactions (blocks : list Block) : list string :=
  atomicGroupKey <$> filter (λ b, atomicGroupKey b ≠ "" ∧ b_Mandatory b = true) blocks.
Definition promote (keys : list string) (b : Block) : Block :=
  if (atomicGroupKey b ≠? "") && contains keys (atomicGroupKey b) then b_mandatory b else b.

Definition tokens (t : Z) (bs : list Block) : Z := foldl (λ t b, add64 t (b_TokenEstimate b)) t bs.

(** What the selection loops carry: chosen blocks, their total, retained ids. *)
Record selection := { sl_selected : list Block; sl_total : Z; sl_retained : list string }.

Definition take_group (budget : Z) (st : selection) (g : atomicBlockGroup) : selection :=
  if (budget <? add64 (sl_total st) (ag_tokens g))%Z then st
  else {| sl_selected := sl_selected st ++ ag_blocks g; sl_total := add64 (sl_total st) (ag_tokens g);
          sl_retained := sl_retained st ++ (b_ID <$> ag_blocks g) |}.
Definition take_block (budget : Z) (st : selection) (b : Block) : selection :=
  if (budget <? add64 (sl_total st) (b_TokenEstimate b))%Z then st
  else {| sl_selected := sl_selected st ++ [b]; sl_total := add64 (sl_total st) (b_TokenEstimate b);
          sl_retained := sl_retained st ++ [b_ID b] |}.

(** The literal [0.60] as a float64. *)
Definition quality_threshold : spec_float := S754_finite false 5404319552844595 (-53).

(** The summary block; [sourceHash[:16]] is in range, a digest has 64 digits. *)
Definition summary_block (sourceHash : string) (tokenizer : Tokenizer) (content : string) : Block :=
  let b := {| b_ID := "summary:" +:+ String.substring 0 16 sourceHash; b_Kind := "summary";
     b_Source := "compression:" +:+ sourceHash; b_Content := TrimSpace content; b_Hash := ""; b_Policy := "summarize";
     b_Trust := "derived"; b_SelectionReason := "semantic_compaction"; b_TokenEstimate := tk_Estimate tokenizer content;
     b_Mandatory := false;
     b_Metadata := list_to_map [("source_hash", sourceHash); ("algorithm", "semantic-extractive"); ("version", "v1");
                                ("tokenizer_id", tk_ID tokenizer)] |} in
  b_with_Hash (HashBlock b) b.

(** The attempt to summarise the non-atomic optional blocks: the block with its
    summary, or the reason there is none. *)
Definition try_summary (summarizer : Summarizer) (tokenizer : Tokenizer) (sourceHash : string) (remaining : Z)
    (semantic : list Block) : (Block * SummaryResult) + string :=
  if (0 <? remaining)%Z && negb (bool_decide (semantic = [])) then
    match summarizer {| sq_Blocks := semantic; sq_TargetTokens := remaining; sq_TokenizerID := tk_ID tokenizer;
                        sq_Estimate := tk_Estimate tokenizer |} with
    | inr message => inr ("summarizer_failed: " +:+ message)
    | inl summary =>
        if negb (blank (sr_Content summary)) && SFleb quality_threshold (sr_QualityScore summary) then
          let b := summary_block sourceHash tokenizer (sr_Content summary) in
          if ((0 <? b_TokenEstimate b) && (b_TokenEstimate b <=? remaining))%Z then inl (b, summary)
          else inr "summary_exceeds_budget"
        else inr "summary_quality_below_threshold"
    end
  else inr "".

Definition no_record : CompressionRecord :=
  {| cr_SourceBlockIDs := []; cr_Algorithm := ""; cr_Version := ""; cr_SourceHash := ""; cr_SummaryHash := "";
     cr_TargetTokens := 0; cr_RetainedFacts := []; cr_DroppedFacts := []; cr_QualityScore := S754_zero false;
     cr_FallbackReason := ""; cr_DroppedReason := ""; cr_OverflowReason := ""; cr_ReplayKey := "" |}.
Definition overflow_record (blocks : list Block) (budget : Z) : CompressionRecord :=
  {| cr_SourceBlockIDs := blockIDs blocks; cr_Algorithm := "preserve-mandatory"; cr_Version := "v1";
     cr_SourceHash := blockSetHash blocks; cr_SummaryHash := ""; cr_TargetTokens := budget; cr_RetainedFacts := [];
     cr_DroppedFacts := []; cr_QualityScore := S754_zero false; cr_FallbackReason := ""; cr_DroppedReason := "";
     cr_OverflowReason := "mandatory_blocks_exceed_budget"; cr_ReplayKey := "" |}.
(** [record.TargetTokens, record.OverflowReason, record.ReplayKey = ...]. *)
Definition cr_close (target : Z) (overflow replayKey : string) (r : CompressionRecord) : CompressionRecord :=
  {| cr_SourceBlockIDs := cr_SourceBlockIDs r; cr_Algorithm := cr_Algorithm r; cr_Version := cr_Version r;
     cr_SourceHash := cr_SourceHash r; cr_SummaryHash := cr_SummaryHash r; cr_TargetTokens := target;
     cr_RetainedFacts := cr_RetainedFacts r; cr_DroppedFacts := cr_DroppedFacts r;
     cr_QualityScore := cr_QualityScore r; cr_FallbackReason := cr_FallbackReason r;
     cr_DroppedReason := cr_DroppedReason r; cr_OverflowReason := overflow; cr_ReplayKey := replayKey |}.

(** Mandatory blocks, optional atomic blocks and optional prose. *)
Definition mandatory_part (blocks : list Block) : list Block :=
  filter (λ b, b_Mandatory b = true) (promote (mandatoryTransactions blocks) <$> blocks).
Definition optional_part (blocks : list Block) : list Block :=
  filter (λ b, b_Mandatory b = false) (promote (mandatoryTransactions blocks) <$> blocks).
Definition optional_sorted (blocks : list Block) : list Block := slice_sort block_id_le (optional_part blocks).
Definition atomic_optional (blocks : list Block) : list Block :=
  slice_sort block_id_le (filter (λ b, blockIsAtomic b = true) (optional_part blocks)).
Definition semantic_optional (blocks : list Block) : list Block :=
  slice_sort block_id_le (filter (λ b, blockIsAtomic b = false) (optional_part blocks)).

(** The blocks the compiler keeps and the record of how, for a mandatory part
    within the budget.  ([droppedBlocks] of the code is only ever written.) *)
Definition select_blocks (summarizer : Summarizer) (tokenizer : Tokenizer) (budget : Z) (blocks : list Block)
    : selection * CompressionRecord :=
  let sourceHash := blockSetHash blocks in
  let optional := optional_sorted blocks in
  let st := foldl (take_group budget)
      {| sl_selected := mandatory_part blocks; sl_total := tokens 0 (mandatory_part blocks); sl_retained := [] |}
      (atomicBlockGroups (atomic_optional blocks)) in
  let semantic := semantic_optional blocks in
  let '(st, r) :=
    match try_summary summarizer tokenizer sourceHash (add64 budget (- sl_total st)) semantic with
    | inl (b, summary) =>
        ({| sl_selected := sl_selected st ++ [b]; sl_total := add64 (sl_total st) (b_TokenEstimate b);
            sl_retained := sl_retained st |},
         {| cr_SourceBlockIDs := blockIDs blocks; cr_Algorithm := "semantic-extractive"; cr_Version := "v1";
            cr_SourceHash := sourceHash; cr_SummaryHash := b_Hash b; cr_TargetTokens := 0;
            cr_RetainedFacts := sr_RetainedFacts summary; cr_DroppedFacts := sr_DroppedFacts summary;
            cr_QualityScore := sr_QualityScore summary; cr_FallbackReason := ""; cr_DroppedReason := "";
            cr_OverflowReason := ""; cr_ReplayKey := "" |})
    | inr reason =>
        let st := foldl (take_block budget) st semantic in
        (st,
         {| cr_SourceBlockIDs := blockIDs blocks; cr_Algorithm := "deterministic-selection"; cr_Version := "v2";
            cr_SourceHash := sourceHash; cr_SummaryHash := ""; cr_TargetTokens := 0; cr_RetainedFacts := [];
            cr_DroppedFacts := [];
            cr_QualityScore :=
              if bool_decide (optional = []) then S754_zero false
              else SFdiv 53 1024 (float64_of_Z (Z.of_nat (length (remove_dups (sl_retained st)))))
                     (float64_of_Z (Z.of_nat (length optional)));
            cr_FallbackReason := reason; cr_DroppedReason := ""; cr_OverflowReason := ""; cr_ReplayKey := "" |})
    end in
  let kept b := contains (sl_retained st) (b_ID b) in
  (st,
   {| cr_SourceBlockIDs := cr_SourceBlockIDs r; cr_Algorithm := cr_Algorithm r; cr_Version := cr_Version r;
      cr_SourceHash := cr_SourceHash r; cr_SummaryHash := cr_SummaryHash r; cr_TargetTokens := cr_TargetTokens r;
      cr_RetainedFacts := cr_RetainedFacts r ++ ((λ b, "block:" +:+ b_ID b) <$> filter (λ b, kept b = true) optional);
      cr_DroppedFacts := cr_DroppedFacts r ++ ((λ b, "block:" +:+ b_ID b) <$> filter (λ b, kept b = false) optional);
      cr_QualityScore := cr_QualityScore r; cr_FallbackReason := cr_FallbackReason r;
      cr_DroppedReason := cr_DroppedReason r; cr_OverflowReason := cr_OverflowReason r;
      cr_ReplayKey := cr_ReplayKey r |}).

(** [m.CompressionRecords = records], with the digests computed again. *)
Definition m_rehashed (records : list CompressionRecord) (prompt : PromptManifest) (m : Manifest) : Manifest :=
  let m := m_with (m_Digest m) (m_PromptManifestHash m) records prompt (m_CreatedAt m) m in
  let m := m_with (manifestDigest m) "" records prompt (m_CreatedAt m) m in
  m_with (m_Digest m) (promptManifestHash m) records prompt (m_CreatedAt m) m.

Definition compileWithSummarizer (now : Time) (session : string) (version budget : Z) (blocks : list Block)
    (summarizer : Summarizer) (tokenizer : Tokenizer) : CompressionRecord * result Manifest :=
  match newManifest now session version budget blocks (tk_ID tokenizer) with
  | Ok m => (no_record, Ok m)
  | Err e =>
      if negb (errors_is ErrOverflow e) then (no_record, Err e)
      else if (budget <? tokens 0 (mandatory_part blocks))%Z then
        (overflow_record blocks budget, Err (ESentinel ErrOverflow))
      else
      let '(st, r) := select_blocks summarizer tokenizer budget blocks in
      match newManifest now session version budget (sl_selected st) (tk_ID tokenizer) with
      | Err e => (cr_close (cr_TargetTokens r) "compression_failed" (cr_ReplayKey r) r, Err e)
      | Ok m =>
          let r := cr_close (sl_total st) (cr_OverflowReason r) (m_Digest m) r in
          (r, Ok (m_rehashed [r] (m_PromptManifest m) m))
      end
  end.

Definition CompileWithSummarizer now session version budget blocks summarizer :=
  compileWithSummarizer now session version budget blocks summarizer Rune4Tokenizer.
Definition Compile now session version budget blocks :=
  CompileWithSummarizer now session version budget blocks Summarize.

Definition b_with_TokenEstimate (t : Z) (b : Block) : Block :=
  {| b_ID := b_ID b; b_Kind := b_Kind b; b_Source := b_Source b; b_Content := b_Content b;
     b_Hash := b_Hash b; b_Policy := b_Policy b; b_Trust := b_Trust b;
     b_SelectionReason := b_SelectionReason b; b_TokenEstimate := t;
     b_Mandatory := b_Mandatory b; b_Metadata := b_Metadata b |}.
Definition CompileWithTokenizerAndSummarizer (now : Time) (session : string) (version budget : Z) (blocks : list Block)
    (tokenizer : option Tokenizer) (summarizer : Summarizer) : CompressionRecord * result Manifest :=
  match tokenizer with
  | None => (no_record, Err (Errorf "tokenizer is required" []))
  | Some tk =>
      if blank (tk_ID tk) then (no_record, Err (Errorf "tokenizer is required" []))
      else compileWithSummarizer now session version budget
             ((λ b, b_with_TokenEstimate (tk_Estimate tk (b_Content b)) b) <$> blocks) summarizer tk
  end.

Definition CompileWithTokenizer now session version budget blocks tokenizer :=
  CompileWithTokenizerAndSummarizer now session version budget blocks tokenizer Summarize.

Definition NewManifest now session version budget blocks := newManifest now session version budget blocks TokenizerID.
Definition NewManifestWithTokenizer (now : Time) (session : string) (version budget : Z) (blocks : list Block)
    (tokenizer : option Tokenizer) : result Manifest :=
  match tokenizer with
  | None => Err (Errorf "tokenizer is required" [])
  | Some tk =>
      if blank (tk_ID tk) then Err (Errorf "tokenizer is required" [])
      else newManifest now session version budget
             ((λ b, b_with_TokenEstimate (tk_Estimate tk (b_Content b)) b) <$> blocks) (tk_ID tk)
  end.

(** [Manifest.ValidateWithTokenizer], [Manifest.Envelope] and
    [Envelope.ValidateWithTokenizer]. *)
Definition ValidateWithTokenizer (m : Manifest) (tokenizer : option Tokenizer) : result unit :=
  Manifest_Validate m ;;;
  match tokenizer with
  | None => Err (Errorf "tokenizer is required" [])
  | Some tk =>
      reject (blank (tk_ID tk)) (Errorf "tokenizer is required" []) ;;;
      reject (m_TokenizerID m ≠? tk_ID tk) (Errorf "tokenizer mismatch: manifest=%s provider=%s" [m_TokenizerID m; tk_ID tk])
  end.
Definition Manifest_Envelope (m : Manifest) : result ContextEnvelope :=
  Manifest_Validate m ;;;
  let sel := json_sha256 (m_Digest m, m_Blocks m) in
  Ok {| ce_Manifest := m; ce_SelectionDigest := sel;
        ce_ReplayKey := m_SessionID m +:+ ":" +:+ pretty (m_Version m) +:+ ":" +:+ sel |}.
Definition Envelope_ValidateWithTokenizer (e : ContextEnvelope) (tokenizer : option Tokenizer) : result unit :=
  ValidateWithTokenizer (ce_Manifest e) tokenizer ;;;
  let* derived := Manifest_Envelope (ce_Manifest e) in
  reject ((ce_SelectionDigest e ≠? ce_SelectionDigest derived) || (ce_ReplayKey e ≠? ce_ReplayKey derived))
    (Errorf "context envelope selection mismatch" []).

(** [Manifest.Rehash]. *)
Definition Rehash (m : Manifest) : result Manifest :=
  let* prompt := BuildPromptManifest (m_Blocks m) in
  let m := m_rehashed (m_CompressionRecords m) prompt m in
  Manifest_Validate m ;;; Ok m.

(** ** Rendering *)

(** [fmt] verb %t. *)
Definition show_bool (b : bool) : string := if b then "true" else "false".
Fixpoint ends_with_newline (s : string) : bool :=
  match s with "" => false | String a "" => bool_decide (a = nl) | String _ s' => ends_with_newline s' end.

Definition render_segment (s : PromptSegment) : string :=
  if blank (ps_Content s) then "" else
  "[ADRO_PROMPT_SEGMENT kind=" +:+ ps_Kind s +:+ " id=" +:+ ps_ID s +:+ " version=" +:+ pretty (ps_Version s)
  +:+ " hash=" +:+ ps_Hash s +:+ " trust=" +:+ ps_Trust s +:+ " mandatory=" +:+ show_bool (ps_Mandatory s)
  +:+ " source=" +:+ ps_Source s +:+ "]" +:+ line_break
  +:+ ps_Content s +:+ (if ends_with_newline (ps_Content s) then "" else line_break)
  +:+ "[/ADRO_PROMPT_SEGMENT]" +:+ line_break.

Definition RenderPromptManifest (p : PromptManifest) : result string :=
  PromptManifest_Validate p ;;;
  Ok (TrimSpace (foldr (λ s acc, render_segment s +:+ acc) "" (pm_Segments p))).
Definition RenderManifest (m : Manifest) : result string :=
  Manifest_Validate m ;;; RenderPromptManifest (m_PromptManifest m).

(** ** internal/harness/store.go *)

Definition ContextManifest_Render (m : Manifest) : result string :=
  ContextManifest_Validate m ;;; RenderManifest m.
Definition ContextEnvelope_Render (e : ContextEnvelope) : result string :=
  ContextEnvelope_Validate e ;;; ContextManifest_Render (ce_Manifest e).

Definition LatestObjective (e : ContextEnvelope) : result string :=
  ContextEnvelope_Validate e ;;;
  match list_find (λ s, ps_Kind s = "latest_objective") (pm_Segments (m_PromptManifest (ce_Manifest e))) with
  | None => Ok ""
  | Some (_, s) => Ok (TrimSpace (TrimPrefix (TrimSpace (ps_Content s)) "user:"))
  end.

(** The block [WithRequiredBlock] adds. *)
Definition required_block (b : Block) : Block :=
  let b := b_mandatory b in
  let b := if (b_TokenEstimate b <? 1)%Z then b_with_TokenEstimate (EstimateTokens (b_Content b)) b else b in
  fillHash b.

Definition WithRequiredBlock (now : Time) (e : ContextEnvelope) (b : Block) : result ContextEnvelope :=
  let m := ce_Manifest e in
  if (m_CompilerVersion m ≟ "") && bool_decide (m_Blocks m = []) then Ok e else
  ContextEnvelope_Validate e ;;;
  reject (blank (b_ID b) || blank (b_Source b)) (Errorf "required context block id and source are required" []) ;;;
  let b := required_block b in
  match list_find (λ x, b_ID x = b_ID b) (m_Blocks m) with
  | Some (_, x) =>
      if (b_Hash x ≟ b_Hash b) && (b_Content x ≟ b_Content b) && b_Mandatory x then Ok e
      else Err (Errorf "required context block %s conflicts with existing block" [b_ID b])
  | None =>
      let '(r, compiled) := CompileWithSummarizer now (m_SessionID m) (m_Version m) (m_TokenBudget m)
                              (m_Blocks m ++ [b]) Summarize in
      let* compiled := compiled in
      let records := m_CompressionRecords m ++ (if cr_Algorithm r ≠? "" then [r] else []) in
      let compiled := m_with (m_Digest compiled) (m_PromptManifestHash compiled) records (m_PromptManifest compiled)
                        (m_CreatedAt compiled) compiled in
      let* compiled := if bool_decide (records = []) then Ok compiled else Rehash compiled in
      ContextManifest_Envelope compiled
  end.
End compiler.
