(* ===== verification/OrchModel.v ===== *)
(** * OrchModel: the data model of internal/orchestration/model.go

    Definitions, graphs, plans, attempts and repair contracts, one record per
    struct (field names carry the struct's initials).  A string-typed enum is an
    inductive type with the source's constants and one constructor for any other
    string, so that the validators' rejection of unknown values can be stated.
    Pointers are options; Go maps are [gmap]s, a nil map being the empty one. *)
From stdpp Require Import base strings gmap list.
From Stdlib Require Import ZArith.
From S2P Require Import Prelude GoLib GoValue GoJson ContextModel.

Inductive AgentStatus := AgentDraft | AgentActive | AgentDisabled | AgentArchived | AgentStatusOther (s : string).
Inductive SquadStatus := SquadDraft | SquadPublished | SquadDisabled | SquadArchived | SquadStatusOther (s : string).
Inductive NodeKind := NodeAgent | NodeSquad | NodeGate | NodeHuman | NodeMerge | NodeRepair | NodeKindOther (s : string).
(** [JoinUnset] is the empty string. *)
Inductive JoinPolicy := JoinUnset | JoinAll | JoinQuorum | JoinFirstSuccess | JoinPolicyOther (s : string).
(** [RepairNone] is the empty string: the attempt takes part in no repair. *)
Inductive RepairLifecycle :=
  | RepairNone | RepairPlanned | RepairDispatched | RepairPatched | RepairVerifying
  | RepairVerified | RepairFailed | RepairExhausted | RepairOther (s : string).
Inductive EdgeEvent := EdgeSuccess | EdgeFailure | EdgeTimeout | EdgeApproval | EdgeBug | EdgeCancel | EdgeEventOther (s : string).
Inductive PlanStatus := PlanDraft | PlanValidating | PlanReady | PlanWaiting | PlanRunning | PlanTerminal | PlanStatusOther (s : string).
Inductive AttemptStatus :=
  | AttemptPending | AttemptReady | AttemptRunning | AttemptWaiting | AttemptPassed
  | AttemptFailed | AttemptCancelled | AttemptTimedOut | AttemptStatusOther (s : string).

#[global] Instance AgentStatus_eq_dec : EqDecision AgentStatus. Proof. solve_decision. Defined.
#[global] Instance SquadStatus_eq_dec : EqDecision SquadStatus. Proof. solve_decision. Defined.
#[global] Instance NodeKind_eq_dec : EqDecision NodeKind. Proof. solve_decision. Defined.
#[global] Instance JoinPolicy_eq_dec : EqDecision JoinPolicy. Proof. solve_decision. Defined.
#[global] Instance RepairLifecycle_eq_dec : EqDecision RepairLifecycle. Proof. solve_decision. Defined.
#[global] Instance EdgeEvent_eq_dec : EqDecision EdgeEvent. Proof. solve_decision. Defined.
#[global] Instance PlanStatus_eq_dec : EqDecision PlanStatus. Proof. solve_decision. Defined.
#[global] Instance AttemptStatus_eq_dec : EqDecision AttemptStatus. Proof. solve_decision. Defined.

(** [string(state)]. *)
Definition RepairLifecycle_string (s : RepairLifecycle) : string :=
  match s with
  | RepairNone => "" | RepairPlanned => "planned" | RepairDispatched => "dispatched"
  | RepairPatched => "patched" | RepairVerifying => "verifying" | RepairVerified => "verified"
  | RepairFailed => "failed" | RepairExhausted => "exhausted" | RepairOther s => s
  end.

Record CapabilityRef := { cap_Name : string; cap_Version : string }.
Record SchemaRef := { sr_ID : string; sr_Version : Z }.
Record Budget := { bg_Tokens : Z; bg_ToolCalls : Z; bg_CostCents : Z; bg_Duration : Duration; bg_Concurrent : Z }.
#[global] Instance Budget_eq_dec : EqDecision Budget. Proof. solve_decision. Defined.
Definition zero_Budget : Budget :=
  {| bg_Tokens := 0; bg_ToolCalls := 0; bg_CostCents := 0; bg_Duration := 0; bg_Concurrent := 0 |}.
Record ToolPolicy := { tp_Allowed : list string; tp_Denied : list string; tp_Network : bool; tp_SecretScopes : list string }.
Record MemoryPolicy := { mp_ReadScopes : list string; mp_WriteScopes : list string; mp_RequireEvidence : bool }.
Record EnvironmentReference := { er_Name : string; er_SecretRef : string }.
Record ExecutorBinding := {
  eb_ProviderID : string; eb_RuntimeID : string; eb_Model : string; eb_ThinkingLevel : string;
  eb_ServiceTier : string; eb_CustomArgs : list string; eb_RuntimeConfig : gmap string string;
  eb_Environment : list EnvironmentReference; eb_ProviderVersion : string; eb_BinaryDigest : string;
  eb_RequiredCaps : list string; eb_ConfigVersion : string }.
Record ConversationStarter := { cs_Label : string; cs_Prompt : string }.
Record DisabledRuntimeSkill := {
  drs_RuntimeID : string; drs_Provider : string; drs_Root : string; drs_Key : string;
  drs_Name : string; drs_Plugin : string }.
Record AgentAccessPolicy := { ap_Mode : string; ap_MemberIDs : list string }.
Record VersionedRef := { vr_ID : string; vr_Revision : Z; vr_Version : Z }.
Record CapabilityConstraint := { cc_Name : string; cc_Required : bool }.

Record ContextPolicy := { cp_Required : list string; cp_Optional : list string; cp_MaxTokens : Z }.
Record RetryPolicy := { rt_MaxAttempts : Z; rt_Backoff : Duration; rt_RetryOn : list string }.

Inductive Predicate :=
  MkPredicate (p_Kind p_Field p_Op : string) (p_Value : value) (p_Children : list Predicate).
Definition p_Kind (p : Predicate) := let '(MkPredicate k _ _ _ _) := p in k.
Definition p_Field (p : Predicate) := let '(MkPredicate _ f _ _ _) := p in f.
Definition p_Op (p : Predicate) := let '(MkPredicate _ _ o _ _) := p in o.
Definition p_Value (p : Predicate) := let '(MkPredicate _ _ _ v _) := p in v.
Definition p_Children (p : Predicate) := let '(MkPredicate _ _ _ _ c) := p in c.
Definition zero_Predicate : Predicate := MkPredicate "" "" "" VNil [].

Record GatePolicy := { gp_Predicate : Predicate; gp_RequiredEvidence : list string; gp_FailureCode : string }.
Record MergePolicy := { mg_ConflictPolicy : string; mg_KeyFields : list string; mg_RequireEvidence : bool }.
Record RepairPolicy := {
  rpol_TargetNodeID : string; rpol_Scope : list string; rpol_VerificationNodeIDs : list string;
  rpol_MaxRounds : Z; rpol_Budget : Budget }.

Record RepairPlan := {
  rp_ID : string; rp_PlanID : string; rp_RepairNodeID : string; rp_RepairAttemptID : string;
  rp_RepairAttemptIDs : list string; rp_TargetNodeID : string; rp_VerificationNodeIDs : list string;
  rp_SourceAttemptIDs : list string; rp_Scope : list string; rp_MaxRounds : Z; rp_Round : Z;
  rp_State : RepairLifecycle; rp_StateHistory : list RepairLifecycle; rp_TargetAttemptID : string;
  rp_VerificationAttempts : gmap string string; rp_VerifiedNodes : gmap string bool;
  rp_PatchArtifactIDs : list string; rp_VerificationArtifactIDs : list string;
  rp_LastReasonCode : string }.

Record WorkflowNode := {
  wn_ID : string; wn_Kind : NodeKind; wn_AgentRef : option VersionedRef; wn_SquadRef : option VersionedRef;
  wn_InputContract : SchemaRef; wn_OutputContract : SchemaRef; wn_ContextPolicy : ContextPolicy;
  wn_ToolPolicy : ToolPolicy; wn_RetryPolicy : RetryPolicy; wn_Timeout : Duration; wn_Budget : Budget;
  wn_JoinPolicy : JoinPolicy; wn_JoinQuorum : Z; wn_JoinFailurePolicy : string;
  wn_GatePolicy : GatePolicy; wn_MergePolicy : MergePolicy; wn_RepairPolicy : RepairPolicy }.

Record WorkflowEdge := {
  we_ID : string; we_From : string; we_To : string; we_On : EdgeEvent; we_Predicate : Predicate;
  we_Priority : Z; we_MaxTraversals : Z; we_RequiredEvidence : list string; we_LoopGroup : string;
  we_FanOut : bool }.

Record WorkflowGraph := {
  g_ID : string; g_Version : Z; g_EntryNodeIDs : list string; g_ExitNodeIDs : list string;
  g_Nodes : list WorkflowNode; g_Edges : list WorkflowEdge; g_ValidationDigest : string }.

(** The zero value of [WorkflowNode] ([var node WorkflowNode]). *)
Definition zero_WorkflowNode : WorkflowNode := {|
  wn_ID := ""; wn_Kind := NodeKindOther ""; wn_AgentRef := None; wn_SquadRef := None;
  wn_InputContract := {| sr_ID := ""; sr_Version := 0 |};
  wn_OutputContract := {| sr_ID := ""; sr_Version := 0 |};
  wn_ContextPolicy := {| cp_Required := []; cp_Optional := []; cp_MaxTokens := 0 |};
  wn_ToolPolicy := {| tp_Allowed := []; tp_Denied := []; tp_Network := false; tp_SecretScopes := [] |};
  wn_RetryPolicy := {| rt_MaxAttempts := 0; rt_Backoff := 0; rt_RetryOn := [] |};
  wn_Timeout := 0; wn_Budget := zero_Budget; wn_JoinPolicy := JoinUnset; wn_JoinQuorum := 0;
  wn_JoinFailurePolicy := "";
  wn_GatePolicy := {| gp_Predicate := zero_Predicate; gp_RequiredEvidence := []; gp_FailureCode := "" |};
  wn_MergePolicy := {| mg_ConflictPolicy := ""; mg_KeyFields := []; mg_RequireEvidence := false |};
  wn_RepairPolicy := {| rpol_TargetNodeID := ""; rpol_Scope := []; rpol_VerificationNodeIDs := [];
                        rpol_MaxRounds := 0; rpol_Budget := zero_Budget |} |}.

Record AgentDefinition := {
  ad_ID : string; ad_WorkspaceID : string; ad_Revision : Z; ad_Name : string; ad_OwnerID : string;
  ad_Description : string; ad_AvatarURL : string; ad_Role : string; ad_Instructions : string;
  ad_ConversationStarters : list ConversationStarter; ad_AccessPolicy : AgentAccessPolicy;
  ad_SkillIDs : list string; ad_DisabledRuntimeSkills : list DisabledRuntimeSkill;
  ad_MCPServerIDs : list string; ad_Capabilities : list CapabilityRef; ad_ToolPolicy : ToolPolicy;
  ad_MemoryPolicy : MemoryPolicy; ad_ExecutorBinding : ExecutorBinding; ad_ConcurrencyBudget : Budget;
  ad_InputSchema : SchemaRef; ad_OutputSchema : SchemaRef; ad_Graph : WorkflowGraph;
  ad_Status : AgentStatus; ad_CreatedBy : string; ad_CreatedAt : Time; ad_UpdatedAt : Time }.

Record SquadMember := {
  sm_ID : string; sm_AgentID : string; sm_SquadID : string; sm_Role : string; sm_Leader : bool;
  sm_InputSchema : SchemaRef; sm_OutputSchema : SchemaRef;
  sm_CapabilityConstraints : list CapabilityConstraint; sm_MaxAttempts : Z; sm_Budget : Budget;
  sm_Optional : bool }.
Record SquadPolicy := {
  sp_MaxNestingDepth : Z; sp_Budget : Budget; sp_ToolPolicy : ToolPolicy; sp_HumanExitRequired : bool }.
Record SquadDefinition := {
  sd_ID : string; sd_WorkspaceID : string; sd_Name : string; sd_Description : string; sd_Revision : Z;
  sd_PublishedVersion : Z; sd_Members : list SquadMember; sd_Graph : WorkflowGraph;
  sd_Policy : SquadPolicy; sd_Status : SquadStatus }.

Record PolicySnapshot := { pol_Digest : string; pol_ToolPolicy : ToolPolicy; pol_Budget : Budget; pol_CapturedAt : Time }.
Record ContextRef := { cref_SessionID : string; cref_ManifestDigest : string; cref_ReplayKey : string }.

Record RequirementExecutionPlan := {
  pl_ID : string; pl_RequirementID : string; pl_WorkspaceID : string; pl_GraphSnapshot : WorkflowGraph;
  pl_SelectedRef : VersionedRef; pl_PolicySnapshot : PolicySnapshot; pl_ContextRoot : ContextRef;
  pl_PlanHash : string; pl_Status : PlanStatus; pl_Revision : Z; pl_IdempotencyKey : string;
  pl_Deadline : Time; pl_CreatedAt : Time; pl_ParentPlanID : string; pl_ParentAttemptID : string }.

Record Lease := { ls_Key : string; ls_Owner : string; ls_FencingToken : Z; ls_ExpiresAt : Time }.
Record StructuredResult := {
  res_Outcome : string; res_ReasonCode : string; res_Fields : gmap string value; res_Summary : string;
  res_EvidenceIDs : list string }.
Record FailureReason := { fr_Code : string; fr_Message : string; fr_Retryable : bool }.

Record NodeAttempt := {
  na_ID : string; na_PlanID : string; na_NodeID : string; na_AttemptNo : Z; na_RunID : string;
  na_SessionID : string; na_WorkDir : string; na_Lease : Lease; na_IdempotencyKey : string;
  na_InputManifest : ContextEnvelope; na_OutputArtifacts : list string; na_Result : StructuredResult;
  na_RepairState : RepairLifecycle; na_RepairPlanID : string; na_Status : AttemptStatus;
  na_FailureReason : option FailureReason; na_ParentAttemptID : string; na_RetryOf : string;
  na_ChildPlanID : string; na_StartedAt : option Time; na_FinishedAt : option Time }.

Record FeedbackDecision := {
  fd_ID : string; fd_PlanID : string; fd_SourceAttempt : string; fd_SourceNode : string;
  fd_TargetNode : string; fd_EdgeID : string; fd_StructuredResult : StructuredResult;
  fd_EvidenceIDs : list string; fd_Reason : string; fd_LoopCount : Z; fd_IdempotencyKey : string }.

Definition zero_Result : StructuredResult :=
  {| res_Outcome := ""; res_ReasonCode := ""; res_Fields := ∅; res_Summary := ""; res_EvidenceIDs := [] |}.
