(* ===== verification/GraphSearch.v ===== *)
(** * GraphSearch: the graph traversals of internal/orchestration

    Breadth-first search with a worklist ([pathExists], [hasHumanExit] and the
    two reachability passes of [ValidateGraph]), the variant that marks on
    enqueue ([repairPathExists]), and the three-colour depth-first search that
    looks for a cycle of unbounded edges.  Recursion is by fuel; each traversal
    comes with the fuel that is always enough and with its exact meaning. *)
From stdpp Require Import base strings gmap list relations.
From Stdlib Require Import ZArith Lia.
From S2P Require Import Prelude GoLib.

(** An edge list; [succs es x] is [outgoing[x]] in insertion order. *)
Definition succs (es : list (string * string)) (x : string) : list string :=
  (filter (λ e, e.1 = x) es).*2.
Definition arc (es : list (string * string)) (x y : string) : Prop := (x, y) ∈ es.

Lemma elem_of_succs es x y : y ∈ succs es x ↔ arc es x y.
Proof.
  unfold succs, arc. rewrite list_elem_of_fmap. split.
  - intros ([a b] & -> & H). apply list_elem_of_filter in H as [Ha ?]. simpl in *. by subst.
  - intros H. exists (x, y). split; [done|]. by apply list_elem_of_filter.
Qed.

(** ** Worklist search that marks when it takes a node off the queue *)

Fixpoint bfs (fuel : nat) (es : list (string * string)) (stop : string → bool)
    (seen : gset string) (queue : list string) : option (bool * gset string) :=
  match fuel with
  | 0 => None
  | S fuel' =>
      match queue with
      | [] => Some (false, seen)
      | id :: q =>
          if stop id then Some (true, seen)
          else if decide (id ∈ seen) then bfs fuel' es stop seen q
          else bfs fuel' es stop ({[id]} ∪ seen) (q ++ succs es id)
      end
  end.

Definition bfs_measure (es : list (string * string)) (seen : gset string) (queue : list string) : nat :=
  length queue + length (filter (λ e, e.1 ∉ seen) es).
Definition bfs_fuel (es : list (string * string)) (queue : list string) : nat :=
  S (length queue + length es).

Lemma filter_source_split es id (seen : gset string) :
  id ∉ seen →
  length (succs es id) + length (filter (λ e, e.1 ∉ {[id]} ∪ seen) es)
  = length (filter (λ e, e.1 ∉ seen) es).
Proof.
  intros Hid. unfold succs. rewrite length_fmap.
  induction es as [|[a b] es IH]; [done|]. rewrite !filter_cons. simpl.
  repeat case_decide; simpl; subst; set_solver by lia.
Qed.

Lemma bfs_total es stop fuel seen queue :
  bfs_measure es seen queue < fuel → is_Some (bfs fuel es stop seen queue).
Proof.
  revert seen queue. induction fuel as [|fuel IH]; intros seen queue; [lia|].
  unfold bfs_measure. destruct queue as [|id q]; simpl; [eauto|]. intros Hm.
  destruct (stop id); [eauto|]. case_decide as Hid.
  - apply IH. unfold bfs_measure. lia.
  - apply IH. unfold bfs_measure. rewrite length_app.
    pose proof (filter_source_split es id seen Hid). lia.
Qed.

Lemma bfs_fuel_enough es stop queue : is_Some (bfs (bfs_fuel es queue) es stop ∅ queue).
Proof.
  apply bfs_total. unfold bfs_measure, bfs_fuel.
  apply Nat.lt_succ_r, Nat.add_le_mono_l, length_filter.
Qed.

Definition reach (es : list (string * string)) : relation string := rtc (arc es).
Definition reach_from (es : list (string * string)) (starts : list string) (y : string) : Prop :=
  ∃ x, x ∈ starts ∧ reach es x y.

(** The worklist invariant: visited nodes do not stop the search, and their
    successors are visited or queued. *)
Definition bfs_inv es (stop : string → bool) (seen : gset string) (queue : list string) : Prop :=
  ∀ x, x ∈ seen → stop x = false ∧ ∀ y, arc es x y → y ∈ seen ∨ y ∈ queue.

Lemma bfs_correct es stop fuel starts seen queue found seen' :
  bfs_inv es stop seen queue →
  (∀ x, x ∈ seen ∨ x ∈ queue → reach_from es starts x) →
  (∀ x, x ∈ starts → x ∈ seen ∨ x ∈ queue) →
  bfs fuel es stop seen queue = Some (found, seen') →
  if found then ∃ x, reach_from es starts x ∧ stop x = true
  else ∀ x, (x ∈ seen' ↔ reach_from es starts x) ∧ (x ∈ seen' → stop x = false).
Proof.
  revert seen queue. induction fuel as [|fuel IH]; intros seen queue Hinv Hreach Hst; simpl; [done|].
  destruct queue as [|id q].
  - intros [= <- <-] x. split; [|intros Hx; by apply Hinv]. split; [intros Hx; apply Hreach; by left|].
    intros (s & Hs & Hr). destruct (Hst s Hs) as [Hseen|Hnil]; [|by apply elem_of_nil in Hnil].
    clear Hs. induction Hr as [s|s y z Hsy Hyz IHr]; [done|]. apply IHr.
    destruct (Hinv s Hseen) as [_ H]. destruct (H y Hsy) as [|Hnil]; [done|by apply elem_of_nil in Hnil].
  - destruct (stop id) eqn:Estop.
    { intros [= <- <-]. exists id. split; [apply Hreach; right; left|done]. }
    case_decide as Hid; intros Hb; eapply IH in Hb; try done.
    + intros x Hx. destruct (Hinv x Hx) as [? H]. split; [done|].
      intros y Hy. destruct (H y Hy) as [|[->|]%elem_of_cons]; auto.
    + intros x Hx. apply Hreach. rewrite elem_of_cons. naive_solver.
    + intros x Hx. destruct (Hst x Hx) as [|[->|]%elem_of_cons]; auto.
    + intros x [->%elem_of_singleton|Hx]%elem_of_union.
      * split; [done|]. intros y Hy. right. apply elem_of_app. right. by apply elem_of_succs.
      * destruct (Hinv x Hx) as [? H]. split; [done|]. intros y Hy.
        rewrite elem_of_union, elem_of_singleton, elem_of_app.
        destruct (H y Hy) as [|[->|]%elem_of_cons]; auto.
    + intros x Hx.
      assert (x ∈ seen ∨ x = id ∨ x ∈ q ∨ arc es id x) as Hc.
      { rewrite elem_of_union, elem_of_app, elem_of_singleton, elem_of_succs in Hx. naive_solver. }
      assert (reach_from es starts id) as (s & Hs & Hr) by (apply Hreach; right; left).
      destruct Hc as [?|[->|[?|?]]].
      * apply Hreach. by left.
      * by exists s.
      * apply Hreach. right. apply elem_of_cons. by right.
      * exists s. split; [done|]. by eapply rtc_r.
    + intros x Hx. rewrite elem_of_union, elem_of_singleton, elem_of_app.
      destruct (Hst x Hx) as [|[->|]%elem_of_cons]; auto.
Qed.

(** The set of nodes a search that never stops visits is the reachable set. *)
Definition reachable_set (es : list (string * string)) (starts : list string) : gset string :=
  match bfs (bfs_fuel es starts) es (λ _, false) ∅ starts with
  | Some (_, seen) => seen
  | None => ∅
  end.

Lemma bfs_start_inv es stop : ∀ queue, bfs_inv es stop ∅ queue.
Proof. intros queue x Hx. set_solver. Qed.

Lemma bfs_never_stops es fuel seen queue found seen' :
  bfs fuel es (λ _, false) seen queue = Some (found, seen') → found = false.
Proof.
  revert seen queue. induction fuel as [|fuel IH]; intros seen queue; simpl; [done|].
  destruct queue as [|id q]; [naive_solver|]. case_decide; apply IH.
Qed.

Lemma elem_of_reachable_set es starts x : x ∈ reachable_set es starts ↔ reach_from es starts x.
Proof.
  unfold reachable_set.
  destruct (bfs_fuel_enough es (λ _, false) starts) as [[found seen] E]. rewrite E.
  pose proof (bfs_never_stops _ _ _ _ _ _ E) as ->.
  eapply bfs_correct with (starts := starts) in E; [apply E|apply bfs_start_inv| |set_solver].
  intros y [?|?]; [set_solver|]. exists y. split; [done|constructor].
Qed.

(** Whether a search from [start] meets a node that satisfies [stop]. *)
Definition search (es : list (string * string)) (stop : string → bool) (start : string) : bool :=
  match bfs (bfs_fuel es [start]) es stop ∅ [start] with
  | Some (found, _) => found
  | None => false
  end.

Lemma search_spec es stop start :
  search es stop start = true ↔ ∃ x, reach es start x ∧ stop x = true.
Proof.
  unfold search. destruct (bfs_fuel_enough es stop [start]) as [[found seen] E]. rewrite E.
  eapply bfs_correct with (starts := [start]) in E; [|apply bfs_start_inv| |set_solver].
  - destruct found; (split; [|]); try done.
    + intros _. destruct E as (x & (s & Hs & ?) & ?). apply list_elem_of_singleton in Hs as ->. eauto.
    + intros (x & Hr & Hx). destruct (E x) as [H1 H2].
      rewrite H2 in Hx; [done|]. apply H1. exists start. split; [by apply list_elem_of_singleton|done].
  - intros y [?|Hy]; [set_solver|]. apply list_elem_of_singleton in Hy as ->.
    exists start. split; [by apply list_elem_of_singleton|constructor].
Qed.

(** ** Search that marks when it enqueues ([repairPathExists]) *)

(** The inner loop over the edges of one dequeued node: [None] once an edge
    leads to [target], else the marked set and the extended queue. *)
Fixpoint scan_edges (target current : string) (es : list (string * string))
    (seen : gset string) (queue : list string) : option (gset string * list string) :=
  match es with
  | [] => Some (seen, queue)
  | (f, t) :: es' =>
      if decide (f = current) then
        if decide (t = target) then None
        else if decide (t ∈ seen) then scan_edges target current es' seen queue
        else scan_edges target current es' ({[t]} ∪ seen) (queue ++ [t])
      else scan_edges target current es' seen queue
  end.

Fixpoint mark_search (fuel : nat) (es : list (string * string)) (target : string)
    (seen : gset string) (queue : list string) : option bool :=
  match fuel with
  | 0 => None
  | S fuel' =>
      match queue with
      | [] => Some false
      | current :: q =>
          match scan_edges target current es seen q with
          | None => Some true
          | Some (seen', q') => mark_search fuel' es target seen' q'
          end
      end
  end.

Definition mark_measure es (seen : gset string) (queue : list string) : nat :=
  length queue + length (filter (λ e : string * string, e.2 ∉ seen) es).

Lemma filter_target_mark (es : list (string * string)) t (seen : gset string) :
  length (filter (λ e, e.2 ∉ {[t]} ∪ seen) es) ≤ length (filter (λ e, e.2 ∉ seen) es).
Proof.
  induction es as [|[a b] es IH]; [done|]. rewrite !filter_cons. simpl.
  repeat case_decide; simpl; set_solver by lia.
Qed.

Lemma filter_target_mark_lt (es : list (string * string)) f t (seen : gset string) :
  (f, t) ∈ es → t ∉ seen →
  length (filter (λ e, e.2 ∉ {[t]} ∪ seen) es) < length (filter (λ e, e.2 ∉ seen) es).
Proof.
  intros Hin Ht. induction es as [|[a b] es IH]; [by apply elem_of_nil in Hin|].
  rewrite !filter_cons. simpl. pose proof (filter_target_mark es t seen).
  apply elem_of_cons in Hin as [[= <- <-]|Hin].
  - rewrite decide_False, decide_True by set_solver. simpl. lia.
  - specialize (IH Hin). repeat case_decide; simpl; set_solver by lia.
Qed.

Lemma scan_edges_measure all target current es seen queue seen' queue' :
  (∀ e, e ∈ es → e ∈ all) →
  scan_edges target current es seen queue = Some (seen', queue') →
  mark_measure all seen' queue' ≤ mark_measure all seen queue.
Proof.
  revert seen queue. induction es as [|[f t] es IH]; intros seen queue Hall; simpl.
  { intros [= <- <-]. done. }
  assert (∀ e, e ∈ es → e ∈ all) as Hall' by (intros; apply Hall, elem_of_cons; by right).
  destruct (decide (f = current)) as [->|]; [|by apply IH].
  destruct (decide (t = target)); [done|]. destruct (decide (t ∈ seen)) as [|Ht]; [by apply IH|].
  intros H%IH; [|done]. etrans; [exact H|]. unfold mark_measure. rewrite length_app. simpl.
  assert ((current, t) ∈ all) as Hct by (apply Hall, elem_of_cons; by left).
  pose proof (filter_target_mark_lt all current t seen Hct Ht). lia.
Qed.

Lemma mark_search_total es target fuel seen queue :
  mark_measure es seen queue < fuel → is_Some (mark_search fuel es target seen queue).
Proof.
  revert seen queue. induction fuel as [|fuel IH]; intros seen queue; [lia|]. simpl.
  destruct queue as [|c q]; [eauto|]. intros Hm.
  destruct (scan_edges target c es seen q) as [[seen' q']|] eqn:E; [|eauto].
  apply IH. apply (scan_edges_measure es) in E; [|done].
  unfold mark_measure in *. simpl in *. lia.
Qed.

Lemma arc_cons f t es x y : arc ((f, t) :: es) x y ↔ (x = f ∧ y = t) ∨ arc es x y.
Proof. unfold arc. rewrite elem_of_cons. naive_solver. Qed.
Lemma arc_nil x y : ¬ arc [] x y.
Proof. apply not_elem_of_nil. Qed.

(** What one scan does: it stops exactly at an arc to the target, and otherwise
    marks exactly the successors. *)
Lemma scan_edges_spec target current es seen queue :
  match scan_edges target current es seen queue with
  | None => arc es current target
  | Some (seen', queue') =>
      (¬ arc es current target)
      ∧ (∀ x, x ∈ seen' ↔ x ∈ seen ∨ arc es current x)
      ∧ (∀ x, x ∈ queue' ↔ x ∈ queue ∨ (x ∉ seen ∧ arc es current x))
  end.
Proof.
  revert seen queue. induction es as [|[f t] es IH]; intros seen queue; simpl.
  { split_and!; [apply arc_nil| |]; intros x; pose proof (arc_nil current x); naive_solver. }
  destruct (decide (f = current)) as [->|Hne].
  - destruct (decide (t = target)) as [->|Hnt]; [apply arc_cons; by left|].
    destruct (decide (t ∈ seen)) as [Ht|Ht].
    + specialize (IH seen queue). destruct (scan_edges _ _ _ _ _) as [[s' q']|]; [|apply arc_cons; by right].
      destruct IH as (H1 & H2 & H3). setoid_rewrite arc_cons. split_and!; [naive_solver| |].
      * intros x. rewrite H2. naive_solver.
      * intros x. rewrite H3. naive_solver.
    + specialize (IH ({[t]} ∪ seen) (queue ++ [t])).
      destruct (scan_edges _ _ _ _ _) as [[s' q']|]; [|apply arc_cons; by right].
      destruct IH as (H1 & H2 & H3). setoid_rewrite arc_cons. split_and!; [naive_solver| |].
      * intros x. rewrite H2, elem_of_union, elem_of_singleton. naive_solver.
      * intros x. rewrite H3, elem_of_app, list_elem_of_singleton, elem_of_union, elem_of_singleton.
        destruct (decide (x = t)); naive_solver.
  - specialize (IH seen queue). destruct (scan_edges _ _ _ _ _) as [[s' q']|]; [|apply arc_cons; by right].
    destruct IH as (H1 & H2 & H3). setoid_rewrite arc_cons. split_and!; [naive_solver| |].
    + intros x. rewrite H2. naive_solver.
    + intros x. rewrite H3. naive_solver.
Qed.

(** Marked nodes that left the queue have all their successors marked, and none
    of them has an arc to the target. *)
Definition mark_inv es target (seen : gset string) (queue : list string) : Prop :=
  ∀ x, x ∈ seen → x ∈ queue ∨ (¬ arc es x target ∧ ∀ y, arc es x y → y ∈ seen).

Lemma mark_search_correct es target fuel start seen queue found :
  mark_inv es target seen queue → start ∈ seen →
  (∀ x, x ∈ seen ∨ x ∈ queue → reach es start x) →
  mark_search fuel es target seen queue = Some found →
  found = true ↔ tc (arc es) start target.
Proof.
  revert seen queue. induction fuel as [|fuel IH]; intros seen queue Hinv Hstart Hreach; simpl; [done|].
  destruct queue as [|c q].
  - intros [= <-]. split; [done|]. intros Htc. exfalso.
    assert (∀ a b, tc (arc es) a b → b = target → a ∈ seen → False) as Hno; [|by eapply Hno].
    clear Htc. intros a b Hab. induction Hab as [a b Hab|a b c Hab Hbc IHt]; intros -> Ha;
      (destruct (Hinv a Ha) as [Hnil|[H1 H2]]; [by apply elem_of_nil in Hnil|]); [done|].
    apply IHt; [done|]. by apply H2.
  - pose proof (scan_edges_spec target c es seen q) as Hs.
    assert (reach es start c) as Hc by (apply Hreach; right; left).
    destruct (scan_edges target c es seen q) as [[seen' q']|] eqn:E.
    + destruct Hs as (Hno & Hseen & Hq). apply IH.
      * intros x [Hx|Hx]%Hseen.
        -- rewrite Hq. destruct (Hinv x Hx) as [[->|]%elem_of_cons|[H1 H2]]; [|auto|].
           ++ right. split; [done|]. intros y Hy. apply Hseen. by right.
           ++ right. split; [done|]. intros y Hy. apply Hseen. left. by apply H2.
        -- rewrite Hq. destruct (decide (x ∈ seen)) as [Hxs|]; [|auto].
           destruct (Hinv x Hxs) as [[->|]%elem_of_cons|[H1 H2]]; [|auto|].
           ++ right. split; [done|]. intros y Hy. apply Hseen. by right.
           ++ right. split; [done|]. intros y Hy. apply Hseen. left. by apply H2.
      * apply Hseen. by left.
      * intros x Hx. rewrite Hseen, Hq in Hx.
        assert (x ∈ seen ∨ x ∈ q ∨ arc es c x) as [?|[?|?]] by naive_solver.
        -- apply Hreach. by left.
        -- apply Hreach. right. apply elem_of_cons. by right.
        -- by eapply rtc_r.
    + intros [= <-]. split; [|done]. intros _. eapply tc_rtc_l; [done|]. by apply tc_once.
Qed.

Definition mark_fuel (es : list (string * string)) : nat := S (S (length es)).

(** From [from], is there a non-empty path to [target]? *)
Definition path_search es from target : bool :=
  match mark_search (mark_fuel es) es target {[from]} [from] with Some b => b | None => false end.

Lemma path_search_spec es from target :
  path_search es from target = true ↔ tc (arc es) from target.
Proof.
  unfold path_search.
  assert (is_Some (mark_search (mark_fuel es) es target {[from]} [from])) as [b E].
  { apply mark_search_total. unfold mark_measure, mark_fuel. simpl.
    apply le_n_S, le_n_S. apply length_filter. }
  rewrite E. eapply mark_search_correct in E; [exact E| |set_solver|].
  - intros x Hx%elem_of_singleton. left. apply list_elem_of_singleton. done.
  - intros x [Hx%elem_of_singleton|Hx%list_elem_of_singleton]; subst; constructor.
Qed.

(** ** Three-colour depth-first search *)

Inductive colour := White | Gray | Black.
#[global] Instance colour_eq_dec : EqDecision colour. Proof. solve_decision. Defined.

(** The [uint8] colours 0, 1 and 2; an absent key reads as 0. *)
Definition colour_of (c : gmap string colour) (x : string) : colour := default White (c !! x).

(** The outcome of [visit]: the new colours, the edge that closes a cycle, or
    no fuel left. *)
Inductive dfs_result :=
  | DfsOk (c : gmap string colour)
  | DfsCycle (edge : string)
  | DfsFuel.

(** [(id, (from, to))]: an edge with its identifier. *)
Abbreviation named_edges := (list (string * (string * string))).
Definition arcs_of (es : named_edges) : list (string * string) := es.*2.
Definition out_edges (es : named_edges) (x : string) : named_edges := filter (λ e, e.2.1 = x) es.

(** The loop over the edges of one node, given the recursive call. *)
Fixpoint dfs_edges (visit : gmap string colour → string → dfs_result)
    (c : gmap string colour) (out : named_edges) : dfs_result :=
  match out with
  | [] => DfsOk c
  | (eid, (_, to)) :: out' =>
      match colour_of c to with
      | Gray => DfsCycle eid
      | White =>
          match visit c to with
          | DfsOk c' => dfs_edges visit c' out'
          | r => r
          end
      | Black => dfs_edges visit c out'
      end
  end.

Fixpoint dfs_visit (fuel : nat) (es : named_edges) (c : gmap string colour) (id : string) : dfs_result :=
  match fuel with
  | 0 => DfsFuel
  | S fuel' =>
      match dfs_edges (dfs_visit fuel' es) (<[id := Gray]> c) (out_edges es id) with
      | DfsOk c' => DfsOk (<[id := Black]> c')
      | r => r
      end
  end.

(** [for _, node := range g.Nodes { if color[node.ID] == 0 { visit(node.ID) } }]. *)
Fixpoint dfs_all (fuel : nat) (es : named_edges) (c : gmap string colour) (ids : list string) : dfs_result :=
  match ids with
  | [] => DfsOk c
  | id :: ids' =>
      match colour_of c id with
      | White =>
          match dfs_visit fuel es c id with
          | DfsOk c' => dfs_all fuel es c' ids'
          | r => r
          end
      | _ => dfs_all fuel es c ids'
      end
  end.

Section dfs.
Context (es : named_edges).
Abbreviation R := (arc (arcs_of es)).

Lemma elem_of_out_edges e x : e ∈ out_edges es x → e.2.1 = x ∧ R x e.2.2.
  Proof.
    unfold out_edges. intros [Hx He]%list_elem_of_filter. split; [done|].
    unfold arc, arcs_of. apply list_elem_of_fmap. exists e. split; [|done].
    destruct e as [? [? ?]]. simpl in *. by subst.
  Qed.

Lemma out_edges_complete x y : R x y → ∃ eid, (eid, (x, y)) ∈ out_edges es x.
  Proof.
    unfold arc, arcs_of. rewrite list_elem_of_fmap. intros ([eid [a b]] & [= <- <-] & He).
    exists eid. by apply list_elem_of_filter.
  Qed.

Lemma colour_of_insert c id k x :
    colour_of (<[id := k]> c) x = if decide (id = x) then k else colour_of c x.
  Proof. unfold colour_of. rewrite lookup_insert. by case_decide. Qed.

  (** No infinite path of edges starts at [x]. *)
Abbreviation grounded := (Acc (flip R)).

  (** What a finished call guarantees: nothing turns back to white, gray nodes
      are the same, black nodes stay black and are grounded. *)
Record dfs_step (c c' : gmap string colour) : Prop := {
    step_gray : ∀ x, colour_of c' x = Gray ↔ colour_of c x = Gray;
    step_black : ∀ x, colour_of c x = Black → colour_of c' x = Black }.
Definition black_grounded (c : gmap string colour) : Prop :=
    ∀ x, colour_of c x = Black → grounded x.

#[local] Instance dfs_step_refl : Reflexive dfs_step.
  Proof. by split. Qed.
#[local] Instance dfs_step_trans : Transitive dfs_step.
  Proof. intros c1 c2 c3 [H1 H2] [H3 H4]. split; [intros; rewrite H3; auto|auto]. Qed.

  (** The contract of [visit] the loop over edges relies on. *)
Definition visit_ok (visit : gmap string colour → string → dfs_result) : Prop :=
    ∀ c id c', black_grounded c → colour_of c id = White → visit c id = DfsOk c' →
    dfs_step c c' ∧ black_grounded c' ∧ colour_of c' id = Black.

Lemma dfs_edges_ok visit out c c' :
    visit_ok visit → black_grounded c → dfs_edges visit c out = DfsOk c' →
    dfs_step c c' ∧ black_grounded c' ∧ ∀ e, e ∈ out → colour_of c' e.2.2 = Black.
  Proof.
    intros Hv. revert c. induction out as [|[eid [f t]] out IH]; intros c Hbg; simpl.
    { intros [= <-]. split_and!; [done|done|intros ? []%elem_of_nil]. }
    destruct (colour_of c t) eqn:Ec; [|done|].
    - destruct (visit c t) as [c1| |] eqn:E1; [|done|done].
      destruct (Hv _ _ _ Hbg Ec E1) as (Hs1 & Hbg1 & Ht). intros (Hs2 & Hbg2 & He)%IH; [|done].
      split_and!; [by etrans|done|]. intros e [->|]%elem_of_cons; [|by apply He].
      by apply Hs2.
    - intros (Hs2 & Hbg2 & He)%IH; [|done]. split_and!; [done|done|].
      intros e [->|]%elem_of_cons; [|by apply He]. by apply Hs2.
  Qed.

Lemma dfs_visit_ok fuel : visit_ok (dfs_visit fuel es).
  Proof.
    induction fuel as [|fuel IH]; intros c id c' Hbg Hw; simpl; [done|].
    destruct (dfs_edges _ _ _) as [c1| |] eqn:E; [|done|done]. intros [= <-].
    apply dfs_edges_ok in E as ([Hg Hb] & Hbg1 & He); [|done|].
    2: { intros x. rewrite colour_of_insert. case_decide; [done|]. apply Hbg. }
    split_and!.
    - split.
      + intros x. rewrite colour_of_insert. case_decide as Hx.
        { subst x. by rewrite Hw. }
        rewrite Hg, colour_of_insert. by rewrite decide_False.
      + intros x Hx. rewrite colour_of_insert. case_decide as Heq; [done|]. apply Hb.
        rewrite colour_of_insert. by rewrite decide_False.
    - intros x. rewrite colour_of_insert. case_decide as Heq; [intros _; subst x|apply Hbg1].
      constructor. intros y Hy. apply Hbg1. apply out_edges_complete in Hy as [eid Hin].
      by apply (He _ Hin).
    - rewrite colour_of_insert. by rewrite decide_True.
  Qed.

Lemma dfs_all_ok fuel ids c c' :
    black_grounded c → (∀ x, colour_of c x ≠ Gray) → dfs_all fuel es c ids = DfsOk c' →
    ∀ x, x ∈ ids → grounded x.
  Proof.
    intros Hbg Hng H.
    assert (black_grounded c' ∧ (∀ x, colour_of c x = Black → colour_of c' x = Black)
            ∧ ∀ x, x ∈ ids → colour_of c' x = Black) as (Hbg' & _ & Hids).
    { revert c Hbg Hng H. induction ids as [|id ids IH]; intros c Hbg Hng; simpl.
      { intros [= <-]. split_and!; [done|done|intros ? []%elem_of_nil]. }
      destruct (colour_of c id) eqn:Ec.
      - destruct (dfs_visit fuel es c id) as [c1| |] eqn:E1; [|done|done].
        destruct (dfs_visit_ok _ _ _ _ Hbg Ec E1) as ([Hg Hb] & Hbg1 & Hid).
        intros (? & Hb2 & ?)%IH; [|done|]. 2: { intros x. rewrite Hg. apply Hng. }
        split_and!; [done|auto|]. intros x [->|]%elem_of_cons; auto.
      - by destruct (Hng id).
      - intros (? & ? & ?)%IH; [|done|done]. split_and!; [done|done|].
        intros x [->|]%elem_of_cons; auto. }
    intros x Hx. apply Hbg'. by apply Hids.
  Qed.

  (** *** An edge reported as closing a cycle does close one *)

Definition visit_cyc (visit : gmap string colour → string → dfs_result) : Prop :=
    ∀ c id eid, black_grounded c → colour_of c id = White →
      (∀ x, colour_of c x = Gray → reach (arcs_of es) x id) →
      visit c id = DfsCycle eid → ∃ f t, (eid, (f, t)) ∈ es ∧ reach (arcs_of es) t f.

Lemma dfs_edges_cyc visit out c id eid :
    visit_cyc visit → visit_ok visit → black_grounded c →
    (∀ e, e ∈ out → e ∈ out_edges es id) →
    (∀ x, colour_of c x = Gray → reach (arcs_of es) x id) →
    dfs_edges visit c out = DfsCycle eid →
    ∃ f t, (eid, (f, t)) ∈ es ∧ reach (arcs_of es) t f.
  Proof.
    intros Hcyc Hok. revert c. induction out as [|[e [f t]] out IH]; intros c Hbg Hsub Hg; simpl; [done|].
    assert (f = id ∧ R id t ∧ (e, (f, t)) ∈ es) as (-> & Hft & Hin).
    { assert ((e, (f, t)) ∈ out_edges es id) as Ho by (apply Hsub; left).
      pose proof (elem_of_out_edges _ _ Ho) as [<- ?]. apply list_elem_of_filter in Ho as [? ?]. auto. }
    assert (∀ e0, e0 ∈ out → e0 ∈ out_edges es id) as Hsub' by (intros; apply Hsub; by right).
    destruct (colour_of c t) eqn:Ec.
    - destruct (visit c t) as [c1| |] eqn:E1; [|intros [= ->]|done].
      + destruct (Hok _ _ _ Hbg Ec E1) as ([Hgr _] & Hbg1 & _).
        apply IH; [done|done|]. intros x. rewrite Hgr. apply Hg.
      + eapply Hcyc in E1; [done|done|done|]. intros x Hx. eapply rtc_r; [by apply Hg|done].
    - intros [= <-]. exists id, t. split; [done|by apply Hg].
    - by apply IH.
  Qed.

Lemma dfs_visit_cyc fuel : visit_cyc (dfs_visit fuel es).
  Proof.
    induction fuel as [|fuel IH]; intros c id eid Hbg Hw Hg; simpl; [done|].
    destruct (dfs_edges _ _ _) as [c1| |] eqn:E; [done| |done]. intros [= ->].
    eapply dfs_edges_cyc in E; [done|done|apply dfs_visit_ok| |done|].
    - intros x. rewrite colour_of_insert. case_decide; [done|]. apply Hbg.
    - intros x. rewrite colour_of_insert. case_decide as Hx; [subst; constructor|]. apply Hg.
  Qed.

Lemma dfs_all_cyc fuel ids c eid :
    black_grounded c → (∀ x, colour_of c x ≠ Gray) → dfs_all fuel es c ids = DfsCycle eid →
    ∃ f t, (eid, (f, t)) ∈ es ∧ reach (arcs_of es) t f.
  Proof.
    revert c. induction ids as [|id ids IH]; intros c Hbg Hng; simpl; [done|].
    destruct (colour_of c id) eqn:Ec; [|by apply IH|by apply IH].
    destruct (dfs_visit fuel es c id) as [c1| |] eqn:E1; [| |done].
    - destruct (dfs_visit_ok _ _ _ _ Hbg Ec E1) as ([Hg Hb] & Hbg1 & Hid).
      apply IH; [done|]. intros x. rewrite Hg. apply Hng.
    - intros [= ->]. eapply dfs_visit_cyc; [exact Hbg|exact Ec| |exact E1].
      intros x Hx. by destruct (Hng x).
  Qed.

  (** *** Fuel: the depth of the recursion is bounded by the white nodes *)

Definition white_in (univ : list string) (c : gmap string colour) : nat :=
    length (filter (λ x, colour_of c x = White) univ).
  (** Nothing becomes white again. *)
Definition whiter (c c' : gmap string colour) : Prop :=
    ∀ x, colour_of c' x = White → colour_of c x = White.

Lemma white_in_mono univ c c' : whiter c c' → white_in univ c' ≤ white_in univ c.
  Proof.
    intros Hw. unfold white_in. induction univ as [|x univ IH]; [done|].
    rewrite !filter_cons. destruct (decide (colour_of c' x = White)) as [Hx|].
    - rewrite decide_True by auto. simpl. lia.
    - case_decide; simpl; lia.
  Qed.

Lemma white_in_gray univ c id :
    id ∈ univ → colour_of c id = White → white_in univ (<[id := Gray]> c) < white_in univ c.
  Proof.
    intros Hin Hw.
    assert (whiter c (<[id := Gray]> c)) as Hm.
    { intros x. rewrite colour_of_insert. by case_decide. }
    induction univ as [|x univ IH]; [by apply elem_of_nil in Hin|].
    pose proof (white_in_mono univ _ _ Hm) as Hle. unfold white_in in *. rewrite !filter_cons.
    destruct (decide (x = id)) as [->|Hne].
    - rewrite (decide_True (P := colour_of c id = White)) by done.
      rewrite decide_False; [simpl; lia|]. rewrite colour_of_insert. by rewrite decide_True.
    - apply elem_of_cons in Hin as [->|Hin]; [done|]. specialize (IH Hin).
      rewrite colour_of_insert, (decide_False (P := id = x)) by congruence. case_decide; simpl; lia.
  Qed.

  (** [visit] neither runs out of fuel nor whitens, on nodes of [univ]. *)
Definition visit_fuelled univ fuel (visit : gmap string colour → string → dfs_result) : Prop :=
    ∀ c id, id ∈ univ → colour_of c id = White → white_in univ c ≤ fuel →
    visit c id ≠ DfsFuel ∧ ∀ c', visit c id = DfsOk c' → whiter c c'.

Lemma dfs_edges_fuel univ fuel visit out c :
    visit_fuelled univ fuel visit → (∀ e, e ∈ out → e.2.2 ∈ univ) → white_in univ c ≤ fuel →
    dfs_edges visit c out ≠ DfsFuel ∧ ∀ c', dfs_edges visit c out = DfsOk c' → whiter c c'.
  Proof.
    intros Hv. revert c. induction out as [|[e [f t]] out IH]; intros c Hu Hc; simpl.
    { split; [done|]. intros c' [= <-] x. done. }
    assert (∀ e0, e0 ∈ out → e0.2.2 ∈ univ) as Hu' by (intros; apply Hu; by right).
    destruct (colour_of c t) eqn:Et; [|done|by apply IH].
    destruct (Hv c t) as [Hnf Hwh]; [by apply (Hu (e, (f, t))); left|done|done|].
    destruct (visit c t) as [c1| |] eqn:E1; [|done|done].
    specialize (Hwh _ eq_refl). destruct (IH c1) as [H1 H2]; [done| |].
    { pose proof (white_in_mono univ _ _ Hwh). lia. }
    split; [done|]. intros c' Hc' x Hx. apply Hwh. by eapply H2.
  Qed.

Lemma dfs_visit_fuel univ fuel :
    (∀ x y, R x y → y ∈ univ) → visit_fuelled univ fuel (dfs_visit fuel es).
  Proof.
    intros Hu. induction fuel as [|fuel IH]; intros c id Hid Hw Hc; simpl.
    { pose proof (white_in_gray univ c id Hid Hw). lia. }
    pose proof (white_in_gray univ c id Hid Hw) as Hlt.
    destruct (dfs_edges_fuel univ fuel (dfs_visit fuel es) (out_edges es id) (<[id := Gray]> c)) as [H1 H2];
      [done| |lia|].
    { intros e He. apply elem_of_out_edges in He as [_ He]. by eapply Hu. }
    destruct (dfs_edges _ _ _) as [c1| |]; [|done|done]. split; [done|].
    intros c' [= <-] x. specialize (H2 _ eq_refl x). rewrite colour_of_insert in *.
    repeat case_decide; naive_solver.
  Qed.

Lemma dfs_all_fuel univ fuel ids c :
    (∀ x y, R x y → y ∈ univ) → (∀ x, x ∈ ids → x ∈ univ) → white_in univ c ≤ fuel →
    dfs_all fuel es c ids ≠ DfsFuel.
  Proof.
    intros Hu. revert c. induction ids as [|id ids IH]; intros c Hids Hc; simpl; [done|].
    assert (∀ x, x ∈ ids → x ∈ univ) as Hids' by (intros; apply Hids; by right).
    destruct (colour_of c id) eqn:Ec; [|by apply IH|by apply IH].
    destruct (dfs_visit_fuel univ fuel Hu c id) as [H1 H2]; [apply Hids; left|done|done|].
    destruct (dfs_visit fuel es c id) as [c1| |] eqn:E1; [|done|done].
    apply IH; [done|]. specialize (H2 _ eq_refl). pose proof (white_in_mono univ _ _ H2). lia.
  Qed.
End dfs.

(** The whole search from no colours: it always decides, and it accepts exactly
    the edge lists without a cycle. *)
Definition find_cycle (es : named_edges) (ids : list string) : dfs_result :=
  dfs_all (length ids + length es) es ∅ ids.

Lemma grounded_no_cycle (R : relation string) x : Acc (flip R) x → ¬ tc R x x.
Proof.
  induction 1 as [x _ IH]. intros H.
  inversion H as [? ? Hxx|? y ? Hxy Hyx]; subst.
  - by apply (IH x).
  - apply (IH y); [done|]. by eapply tc_r.
Qed.

Lemma find_cycle_decides es ids :
  (∀ x y, arc (arcs_of es) x y → y ∈ ids) → find_cycle es ids ≠ DfsFuel.
Proof.
  intros Hu. apply (dfs_all_fuel es ids); [done|done|]. unfold white_in.
  etrans; [apply length_filter|lia].
Qed.

Lemma find_cycle_ok es ids c :
  (∀ x y, arc (arcs_of es) x y → x ∈ ids) →
  find_cycle es ids = DfsOk c → ∀ x, ¬ tc (arc (arcs_of es)) x x.
Proof.
  intros Hids Hok x Hc. eapply grounded_no_cycle; [|exact Hc].
  apply (dfs_all_ok es (length ids + length es) ids ∅ c); [by intros ?|by intros ?|exact Hok|].
  inversion Hc as [? ? Hxy|? ? ? Hxy _]; subst; exact (Hids _ _ Hxy).
Qed.

Lemma find_cycle_bad es ids eid :
  find_cycle es ids = DfsCycle eid → ∃ f t, (eid, (f, t)) ∈ es ∧ reach (arcs_of es) t f.
Proof. apply dfs_all_cyc; by intros ?. Qed.
