(* ===== verification/Validate.v ===== *)
(** * Validate: graph and predicate validation (internal/orchestration/validate.go)

    The predicate language (a bounded data AST) with its validator and
    evaluator, [ValidateGraph] loop by loop, and the two repair-path helpers it
    calls ([resolveRepairTarget] of structural.go, [repairPathExists] of
    transition.go). *)
From stdpp Require Import base strings gmap list pretty relations.
From Stdlib Require Import ZArith Lia SpecFloat.
From S2P Require Import Prelude GoLib GoValue GoJson ContextModel OrchModel GraphSearch.

Definition maxWorkflowNodes : nat := 1000.
Definition maxWorkflowEdges : nat := 5000.

(** ** Predicates *)

Fixpoint ValidatePredicate (p : Predicate) (depth : nat) (path : string) {struct p} : result unit :=
  let '(MkPredicate kind field op v children) := p in
  reject (8 <? depth)%nat (Errorf "%s.depth_exceeded" [path]) ;;;
  if blank kind then Ok tt
  else if contains ["field_eq"; "number_cmp"; "contains"; "exists"] kind then
    reject (blank field) (Errorf "%s.field.required" [path]) ;;;
    reject ((kind ≟ "contains") && match v with VString _ => false | _ => true end)
      (Errorf "%s.value.string_required" [path]) ;;;
    reject ((kind ≟ "number_cmp") && negb (contains ["eq"; "ne"; "lt"; "lte"; "gt"; "gte"] op))
      (Errorf "%s.op.invalid" [path]) ;;;
    reject ((kind ≟ "number_cmp") && match number v with Some _ => false | None => true end)
      (Errorf "%s.value.number_required" [path])
  else if contains ["all"; "any"; "not"] kind then
    reject (bool_decide (children = [])) (Errorf "%s.children.required" [path]) ;;;
    reject ((kind ≟ "not") && (length children ≠? 1))
      (Errorf "%s.children.one_required" [path]) ;;;
    reject (32 <? length children)%nat (Errorf "%s.children.too_many" [path]) ;;;
    (fix go (i : nat) (cs : list Predicate) : result unit :=
       match cs with
       | [] => Ok tt
       | c :: cs' =>
           ValidatePredicate c (S depth) (path +:+ ".children[" +:+ itoa i +:+ "]") ;;; go (S i) cs'
       end) 0 children
  else Err (Errorf "%s.kind.invalid" [path]).

Definition compareNumbers (op : string) (a b : spec_float) : bool :=
  if op ≟ "eq" then SFeqb a b
  else if op ≟ "ne" then negb (SFeqb a b)
  else if op ≟ "lt" then SFltb a b
  else if op ≟ "lte" then SFleb a b
  else if op ≟ "gt" then SFltb b a
  else if op ≟ "gte" then SFleb b a
  else false.

(** [p.Children[0]] panics when there is no child. *)
Fixpoint evalPredicate (p : Predicate) (f : gmap string value) {struct p} : result bool :=
  let '(MkPredicate kind field op pv children) := p in
  if kind ≟ "all" then
    (fix go (cs : list Predicate) : result bool :=
       match cs with
       | [] => Ok true
       | c :: cs' => let* b := evalPredicate c f in if b then go cs' else Ok false
       end) children
  else if kind ≟ "any" then
    (fix go (cs : list Predicate) : result bool :=
       match cs with
       | [] => Ok false
       | c :: cs' => let* b := evalPredicate c f in if b then Ok true else go cs'
       end) children
  else if kind ≟ "not" then
    match children with
    | [] => Err (EPanic "index out of range")
    | c :: _ => let* b := evalPredicate c f in Ok (negb b)
    end
  else if kind ≟ "exists" then Ok (bool_decide (is_Some (f !! field)))
  else
    match f !! field with
    | None => Ok false
    | Some v =>
        if kind ≟ "contains" then
          match v, pv with
          | VString sv, VString needle => Ok (Contains sv needle)
          | _, _ => Ok false
          end
        else if kind ≟ "field_eq" then Ok (DeepEqual v pv)
        else if kind ≟ "number_cmp" then
          match number v, number pv with
          | Some a, Some b => Ok (compareNumbers op a b)
          | _, _ => Ok false
          end
        else Ok false
    end.

Definition EvaluatePredicate (p : Predicate) (fields : gmap string value) : result bool :=
  ValidatePredicate p 0 "predicate" ;;;
  if blank (p_Kind p) then Ok true else evalPredicate p fields.

(** ** Repair paths *)

(** The arcs [repairPathExists] follows for an event. *)
Definition repair_arcs (g : WorkflowGraph) (on : EdgeEvent) : list (string * string) :=
  (λ e, (we_From e, we_To e)) <$>
    filter (λ e, we_On e = on ∧ ¬ (we_MaxTraversals e = 0%Z ∧ we_LoopGroup e ≠ "")) (g_Edges g).

Definition repairPathExists (g : WorkflowGraph) (from to : string) (on : EdgeEvent) : bool :=
  if from ≟ to then true else path_search (repair_arcs g on) from to.

(** The distinct targets of the success edges that leave [node]. *)
Definition success_targets (g : WorkflowGraph) (node : WorkflowNode) : list string :=
  remove_dups (we_To <$> filter (λ e, we_From e = wn_ID node ∧ we_To e ≠ wn_ID node ∧ we_On e = EdgeSuccess)
                          (g_Edges g)).

Definition resolveRepairTarget (g : WorkflowGraph) (node : WorkflowNode) : string :=
  let explicit := TrimSpace (rpol_TargetNodeID (wn_RepairPolicy node)) in
  if explicit ≠? "" then explicit
  else match success_targets g node with
       | [target] => target
       | _ => ""
       end.

(** ** [ValidateGraph], first loop: nodes *)

(** An indexed node error: [graph.nodes[%d].<what>]. *)
Definition node_err (i : nat) (what : string) : error :=
  Errorf ("graph.nodes[%d]." +:+ what) [itoa i].

Definition known_kind (k : NodeKind) : bool :=
  match k with NodeKindOther _ => false | _ => true end.

Definition validateNodeRefs (i : nat) (n : WorkflowNode) : result unit :=
  reject ((wn_Kind n ≟ NodeAgent) && negb (bool_decide (is_Some (wn_AgentRef n))))
    (node_err i "agent_ref.required") ;;;
  reject ((wn_Kind n ≟ NodeSquad) && negb (bool_decide (is_Some (wn_SquadRef n))))
    (node_err i "squad_ref.required") ;;;
  reject (negb (known_kind (wn_Kind n))) (node_err i "kind.invalid") ;;;
  reject (match wn_AgentRef n with Some r => blank (vr_ID r) | None => false end)
    (node_err i "agent_ref.id.required") ;;;
  reject (match wn_AgentRef n with Some r => (vr_Revision r <? 1)%Z | None => false end)
    (node_err i "agent_ref.revision.required") ;;;
  reject (match wn_SquadRef n with Some r => blank (vr_ID r) | None => false end)
    (node_err i "squad_ref.id.required") ;;;
  reject (match wn_SquadRef n with
          | Some r => (vr_Revision r <? 1)%Z && (vr_Version r <? 1)%Z | None => false end)
    (node_err i "squad_ref.revision.required").

Definition negative_limits (n : WorkflowNode) : bool :=
  ((wn_Timeout n <? 0) || (cp_MaxTokens (wn_ContextPolicy n) <? 0) || (bg_Tokens (wn_Budget n) <? 0)
   || (bg_ToolCalls (wn_Budget n) <? 0) || (bg_CostCents (wn_Budget n) <? 0)
   || (bg_Concurrent (wn_Budget n) <? 0) || (bg_Duration (wn_Budget n) <? 0)
   || (rt_MaxAttempts (wn_RetryPolicy n) <? 0) || (rt_Backoff (wn_RetryPolicy n) <? 0))%Z.

Definition validateNodeLimits (i : nat) (n : WorkflowNode) : result unit :=
  reject (negative_limits n) (node_err i "budget_or_retry.invalid") ;;;
  reject (match wn_JoinPolicy n with JoinPolicyOther _ => true | _ => false end)
    (node_err i "join_policy.invalid") ;;;
  reject (wn_JoinQuorum n <? 0)%Z (node_err i "join_quorum.invalid") ;;;
  reject (negb (contains [""; "wait"; "short_circuit"] (wn_JoinFailurePolicy n)))
    (node_err i "join_failure_policy.invalid").

(** [validateBudget] (model.go). *)
Definition validateBudget (b : Budget) (label : string) : result unit :=
  reject ((bg_Tokens b <? 0) || (bg_ToolCalls b <? 0) || (bg_CostCents b <? 0)
          || (bg_Duration b <? 0) || (bg_Concurrent b <? 0))%Z
    (Errorf "%s cannot contain negative values" [label]).

Definition validateNodePolicies (i : nat) (n : WorkflowNode) : result unit :=
  let gate := wn_GatePolicy n in
  let merge := wn_MergePolicy n in
  let repair := wn_RepairPolicy n in
  ValidatePredicate (gp_Predicate gate) 0 ("graph.nodes[" +:+ itoa i +:+ "].gate_policy.predicate") ;;;
  reject ((wn_Kind n ≠? NodeGate) &&
          (negb (blank (p_Kind (gp_Predicate gate))) || negb (bool_decide (gp_RequiredEvidence gate = []))
           || negb (blank (gp_FailureCode gate))))
    (node_err i "gate_policy.kind_mismatch") ;;;
  check_each (λ k ev, reject (blank ev)
      (Errorf "graph.nodes[%d].gate_policy.required_evidence[%d].required" [itoa i; itoa k]))
    (gp_RequiredEvidence gate) ;;;
  reject ((wn_Kind n ≠? NodeMerge) &&
          (negb (blank (mg_ConflictPolicy merge)) || negb (bool_decide (mg_KeyFields merge = []))
           || mg_RequireEvidence merge))
    (node_err i "merge_policy.kind_mismatch") ;;;
  reject (negb (contains [""; "collect"; "prefer_priority"; "fail"] (mg_ConflictPolicy merge)))
    (node_err i "merge_policy.conflict_policy.invalid") ;;;
  check_each (λ k key, reject (blank key)
      (Errorf "graph.nodes[%d].merge_policy.key_fields[%d].required" [itoa i; itoa k]))
    (mg_KeyFields merge) ;;;
  reject ((wn_Kind n ≠? NodeRepair) &&
          (negb (blank (rpol_TargetNodeID repair)) || negb (bool_decide (rpol_Scope repair = []))
           || negb (bool_decide (rpol_VerificationNodeIDs repair = []))
           || (rpol_MaxRounds repair ≠? 0%Z) || (rpol_Budget repair ≠? zero_Budget)))
    (node_err i "repair_policy.kind_mismatch") ;;;
  reject (rpol_MaxRounds repair <? 0)%Z (node_err i "repair_policy.max_rounds.invalid") ;;;
  (if wn_Kind n ≟ NodeRepair then
     reject (rpol_TargetNodeID repair ≟ wn_ID n) (node_err i "repair_policy.target_node_id.self_reference") ;;;
     reject (bool_decide (rpol_VerificationNodeIDs repair = []))
       (node_err i "repair_policy.verification_node_ids.required") ;;;
     reject (rpol_MaxRounds repair ≟ 0%Z) (node_err i "repair_policy.max_rounds.required")
   else Ok tt) ;;;
  validateBudget (rpol_Budget repair) ("graph.nodes[" +:+ itoa i +:+ "].repair_policy.budget") ;;;
  check_each (λ k sc, reject (blank sc)
      (Errorf "graph.nodes[%d].repair_policy.scope[%d].required" [itoa i; itoa k]))
    (rpol_Scope repair).

Abbreviation node_map := (gmap string WorkflowNode).

Definition validateNode (nodes : node_map) (i : nat) (n : WorkflowNode) : result node_map :=
  reject (blank (wn_ID n)) (node_err i "id.required") ;;;
  reject (bool_decide (is_Some (nodes !! wn_ID n))) (node_err i "id.duplicate") ;;;
  validateNodeRefs i n ;;;
  validateNodeLimits i n ;;;
  validateNodePolicies i n ;;;
  Ok (<[wn_ID n := n]> nodes).

(** Entry and exit lists. *)
Definition checkEndpoint (nodes : node_map) (label : string) (seen : list string) (i : nat) (id : string)
    : result (list string) :=
  reject (negb (bool_decide (is_Some (nodes !! id)))) (Errorf ("graph." +:+ label +:+ "[%d].unknown") [itoa i]) ;;;
  reject (contains seen id) (Errorf ("graph." +:+ label +:+ "[%d].duplicate") [itoa i]) ;;;
  Ok (id :: seen).

Definition validateEndpoints (nodes : node_map) (label : string) (ids : list string) : result (list string) :=
  fold_each_from 0 (checkEndpoint nodes label) [] ids.

(** ** Second loop: edges *)

Definition edge_err (i : nat) (what : string) : error :=
  Errorf ("graph.edges[%d]." +:+ what) [itoa i].

(** The schema contract between the two ends of an edge. *)
Definition validateEdgeContract (i : nat) (from to : WorkflowNode) : result unit :=
  let out := wn_OutputContract from in
  let inp := wn_InputContract to in
  if (sr_ID out ≠? "") || (sr_ID inp ≠? "") then
    reject ((sr_ID out ≟ "") || (sr_ID inp ≟ "")) (edge_err i "schema_contract.missing") ;;;
    reject (sr_ID out ≠? sr_ID inp) (edge_err i "schema_contract.disconnected") ;;;
    reject ((0 <? sr_Version out)%Z && (0 <? sr_Version inp)%Z && (sr_Version out ≠? sr_Version inp))
      (edge_err i "schema_contract.version_mismatch")
  else Ok tt.

Definition validateEdge (nodes : node_map) (seen : list string) (i : nat) (e : WorkflowEdge)
    : result (list string) :=
  reject (blank (we_ID e)) (edge_err i "id.required") ;;;
  reject (contains seen (we_ID e)) (edge_err i "id.duplicate") ;;;
  match nodes !! we_From e, nodes !! we_To e with
  | None, _ => Err (edge_err i "from.unknown")
  | Some _, None => Err (edge_err i "to.unknown")
  | Some fromNode, Some toNode =>
      reject ((we_From e ≟ we_To e) && (we_MaxTraversals e <? 1)%Z) (edge_err i "max_traversals.required") ;;;
      reject (match we_On e with EdgeEventOther _ => true | _ => false end) (edge_err i "on.invalid") ;;;
      reject (we_MaxTraversals e <? 0)%Z (edge_err i "max_traversals.invalid") ;;;
      check_each (λ k ev, reject (blank ev)
          (Errorf "graph.edges[%d].required_evidence[%d].required" [itoa i; itoa k]))
        (we_RequiredEvidence e) ;;;
      reject ((we_LoopGroup e ≠? "") && (we_MaxTraversals e <? 1)%Z)
        (edge_err i "loop_group.max_traversals.required") ;;;
      reject (we_FanOut e && (we_Priority e <? 0)%Z) (edge_err i "fan_out.priority.invalid") ;;;
      ValidatePredicate (we_Predicate e) 0 ("graph.edges[" +:+ itoa i +:+ "].predicate") ;;;
      validateEdgeContract i fromNode toNode ;;;
      Ok (we_ID e :: seen)
  end.

(** ** Third loop: joins and repairs *)

Definition arcs (g : WorkflowGraph) : list (string * string) :=
  (λ e, (we_From e, we_To e)) <$> g_Edges g.
(** [incoming[id]]: the sources of the edges into [id]. *)
Definition back_arcs (g : WorkflowGraph) : list (string * string) :=
  (λ e, (we_To e, we_From e)) <$> g_Edges g.

Definition validateNodeLinks (g : WorkflowGraph) (nodes : node_map) (i : nat) (n : WorkflowNode) : result unit :=
  let repair := wn_RepairPolicy n in
  reject ((wn_JoinPolicy n ≟ JoinQuorum) && (0 <? wn_JoinQuorum n)%Z
          && (Z.of_nat (length (succs (back_arcs g) (wn_ID n))) <? wn_JoinQuorum n)%Z)
    (node_err i "join_quorum.exceeds_incoming") ;;;
  reject ((rpol_TargetNodeID repair ≠? "") && negb (bool_decide (is_Some (nodes !! rpol_TargetNodeID repair))))
    (node_err i "repair_policy.target_node_id.unknown") ;;;
  check_each (λ k id, reject (negb (bool_decide (is_Some (nodes !! id))))
      (Errorf "graph.nodes[%d].repair_policy.verification_node_ids[%d].unknown" [itoa i; itoa k]))
    (rpol_VerificationNodeIDs repair) ;;;
  if wn_Kind n ≟ NodeRepair then
    let target := resolveRepairTarget g n in
    reject (target ≟ "") (node_err i "repair_policy.target_node_id.required_or_uniquely_derivable") ;;;
    reject (negb (repairPathExists g (wn_ID n) target EdgeSuccess))
      (node_err i "repair_policy.target_node_id.unreachable") ;;;
    check_each (λ k id, reject (negb (repairPathExists g target id EdgeSuccess))
        (Errorf "graph.nodes[%d].repair_policy.verification_node_ids[%d].unreachable" [itoa i; itoa k]))
      (rpol_VerificationNodeIDs repair)
  else Ok tt.

(** ** Searches *)

Definition pathExists (outgoing : list (string * string)) (start target : string) : bool :=
  search outgoing (λ id, id ≟ target) start.

Definition hasHumanExit (nodes : node_map) (outgoing : list (string * string)) (start : string) : bool :=
  search outgoing (λ id, match nodes !! id with Some n => wn_Kind n ≟ NodeHuman | None => false end) start.

(** An edge on a loop with a loop group needs a human exit. *)
Definition loop_without_human (g : WorkflowGraph) (nodes : node_map) (e : WorkflowEdge) : bool :=
  (0 <? we_MaxTraversals e)%Z && (we_LoopGroup e ≠? "")
  && pathExists (arcs g) (we_To e) (we_From e) && negb (hasHumanExit nodes (arcs g) (we_From e)).

Definition unbounded_edges (g : WorkflowGraph) : named_edges :=
  (λ e, (we_ID e, (we_From e, we_To e))) <$> filter (λ e, (we_MaxTraversals e < 1)%Z) (g_Edges g).

Section validate.
Context `{!MapRange}.

  (** [for id := range nodes { if !set[id] { return ... } }]: which missing node
      is named depends on the iteration order. *)
Definition require_all (what : string) (set : gset string) (nodes : node_map) : result unit :=
    check_each (λ _ id, reject (negb (bool_decide (id ∈ set))) (Errorf ("graph.nodes.%s." +:+ what) [id]))
      (range_keys nodes).

Definition validateAcyclic (g : WorkflowGraph) (nodes : node_map) : result unit :=
    check_each (λ _ e, reject (loop_without_human g nodes e)
        (Errorf "graph.edges.%s.loop_group.human_exit.required" [we_ID e])) (g_Edges g) ;;;
    match find_cycle (unbounded_edges g) (wn_ID <$> g_Nodes g) with
    | DfsOk _ => Ok tt
    | DfsCycle eid => Err (Errorf "graph.edges.%s.max_traversals.required" [eid])
    | DfsFuel => Err (EPanic "visit")
    end.

Definition ValidateGraph (g : WorkflowGraph) : result unit :=
    reject (blank (g_ID g)) (Errorf "graph.id.required" []) ;;;
    reject (bool_decide (g_Nodes g = [])) (Errorf "graph.nodes.empty" []) ;;;
    reject (maxWorkflowNodes <? length (g_Nodes g))%nat
      (Errorf "graph.nodes.too_many: maximum is %d" [itoa maxWorkflowNodes]) ;;;
    reject (maxWorkflowEdges <? length (g_Edges g))%nat
      (Errorf "graph.edges.too_many: maximum is %d" [itoa maxWorkflowEdges]) ;;;
    reject (g_Version g <? 1)%Z (Errorf "graph.version.required" []) ;;;
    let* nodes := fold_each_from 0 validateNode ∅ (g_Nodes g) in
    reject (bool_decide (g_EntryNodeIDs g = []) || bool_decide (g_ExitNodeIDs g = []))
      (Errorf "graph.entry_exit.required" []) ;;;
    validateEndpoints nodes "entry_node_ids" (g_EntryNodeIDs g) ;;;
    validateEndpoints nodes "exit_node_ids" (g_ExitNodeIDs g) ;;;
    fold_each_from 0 (validateEdge nodes) [] (g_Edges g) ;;;
    check_each (validateNodeLinks g nodes) (g_Nodes g) ;;;
    require_all "unreachable" (reachable_set (arcs g) (g_EntryNodeIDs g)) nodes ;;;
    require_all "no_exit_path" (reachable_set (back_arcs g) (g_ExitNodeIDs g)) nodes ;;;
    validateAcyclic g nodes.
End validate.
