(* ===== verification/Definitions.v ===== *)
(** * Definitions: agents, squads and frozen plans

    Models the validation of internal/orchestration/model.go:
    [AgentDefinition.Validate], [CanInvoke], [SquadMember.Validate],
    [SquadDefinition.Validate], [ValidateDraft], [policyOverlap],
    [WorkflowGraph.CanonicalHash] and [RequirementExecutionPlan.Freeze]. *)
From stdpp Require Import base strings gmap list pretty.
From Stdlib Require Import ZArith Lia Ascii.
From S2P Require Import Prelude GoLib GoStrings GoValue GoJson ContextModel OrchModel GraphSearch Validate.

(** A loop that rejects empty and repeated values of [f], trimmed. *)
Definition check_distinct (empty : nat → error) (repeated : string → error) (seen : list string) (i : nat) (v : string)
    : result (list string) :=
  let v := TrimSpace v in
  reject (v ≟ "") (empty i) ;;;
  reject (contains seen v) (repeated v) ;;;
  Ok (v :: seen).

Definition policyOverlap (policy : ToolPolicy) : string :=
  let denied := filter (λ x, x ≠ "") (TrimSpace <$> tp_Denied policy) in
  default "" (List.find (contains denied) (TrimSpace <$> tp_Allowed policy)).

(** ** [AgentDefinition.Validate] *)

Definition check_starter (seen : list string) (i : nat) (s : ConversationStarter) : result (list string) :=
  let label := TrimSpace (cs_Label s) in
  let prompt := TrimSpace (cs_Prompt s) in
  reject ((label ≟ "") || (prompt ≟ ""))
    (Errorf "agent conversation_starters[%d] requires label and prompt" [itoa i]) ;;;
  reject ((80 <? rune_count label) || (4000 <? rune_count prompt))
    (Errorf "agent conversation_starters[%d] exceeds its size limit" [itoa i]) ;;;
  let key := ToLower label in
  reject (contains seen key) (Errorf "agent conversation starter label %q is duplicated" [label]) ;;;
  Ok (key :: seen).

Definition validateAgentIdentity (a : AgentDefinition) : result unit :=
  reject (blank (ad_ID a) || blank (ad_WorkspaceID a) || blank (ad_Name a))
    (Errorf "agent id, workspace_id and name are required" []) ;;;
  reject (ad_Revision a <? 1)%Z (Errorf "agent revision must be positive" []) ;;;
  reject (255 <? rune_count (ad_Description a)) (Errorf "agent description cannot exceed 255 characters" []) ;;;
  reject (3 <? length (ad_ConversationStarters a))
    (Errorf "agent cannot have more than three conversation starters" []) ;;;
  fold_each_from 0 check_starter [] (ad_ConversationStarters a) ;;; Ok tt.

Definition access_mode (a : AgentDefinition) : string := ToLower (TrimSpace (ap_Mode (ad_AccessPolicy a))).

Definition validateAgentAccess (a : AgentDefinition) : result unit :=
  let members := ap_MemberIDs (ad_AccessPolicy a) in
  (if contains [""; "private"; "workspace"] (access_mode a) then
     reject (negb (bool_decide (members = []))) (Errorf "agent member access requires access_policy.mode members" [])
   else if access_mode a ≟ "members" then
     reject (bool_decide (members = [])) (Errorf "agent members access requires at least one member_id" [])
   else Err (Errorf "agent access policy mode %q is invalid" [access_mode a])) ;;;
  fold_each_from 0 (check_distinct (λ i, Errorf "agent access_policy.member_ids[%d] is empty" [itoa i])
    (λ v, Errorf "agent access policy member_id %q is duplicated" [v])) [] members ;;;
  Ok tt.

(** The two lists are visited in the order of a two-entry map. *)
Definition check_ids (field : string) (values : list string) : result unit :=
  fold_each_from 0 (check_distinct (λ i, Errorf "agent %s[%d] is empty" [field; itoa i])
    (λ v, Errorf "agent %s value %q is duplicated" [field; v])) [] values ;;; Ok tt.

Definition two_backslashes : string := String "\" (String "\" "").
Definition skill_identity (s : DisabledRuntimeSkill) : string :=
  Join (String (ascii_of_nat 0) "") [TrimSpace (drs_RuntimeID s); TrimSpace (drs_Provider s); TrimSpace (drs_Root s);
    TrimSpace (drs_Key s); TrimSpace (drs_Plugin s)].

Definition skill_key_invalid (key : string) : bool :=
  let cleaned := Clean (ReplaceAll key two_backslashes "/") in
  (key ≟ "") || HasPrefix key "/" || (cleaned ≟ ".") || (cleaned ≟ "..") || HasPrefix cleaned "../"
  || (cleaned ≠? key).

Definition check_skill (seen : list string) (i : nat) (s : DisabledRuntimeSkill) : result (list string) :=
  let root := TrimSpace (drs_Root s) in
  let key := TrimSpace (drs_Key s) in
  reject (blank (drs_RuntimeID s) || blank (drs_Provider s))
    (Errorf "agent disabled_runtime_skills[%d] requires runtime_id and provider" [itoa i]) ;;;
  reject (negb (contains ["provider"; "universal"; "plugin"] root))
    (Errorf "agent disabled_runtime_skills[%d].root is invalid" [itoa i]) ;;;
  reject (skill_key_invalid key) (Errorf "agent disabled_runtime_skills[%d].key is invalid" [itoa i]) ;;;
  reject (negb (Bool.eqb (root ≟ "plugin") (negb (blank (drs_Plugin s)))))
    (Errorf "agent disabled_runtime_skills[%d].plugin does not match its root" [itoa i]) ;;;
  reject (contains seen (skill_identity s)) (Errorf "agent disabled runtime Skill %q is duplicated" [key]) ;;;
  Ok (skill_identity s :: seen).

Definition known_agent_status (s : AgentStatus) : bool :=
  match s with AgentDraft | AgentActive | AgentDisabled | AgentArchived => true | AgentStatusOther _ => false end.
Definition AgentStatus_string (s : AgentStatus) : string :=
  match s with
  | AgentDraft => "draft" | AgentActive => "active" | AgentDisabled => "disabled" | AgentArchived => "archived"
  | AgentStatusOther s => s
  end.

Definition thinking_levels : list string :=
  ["none"; "minimal"; "low"; "medium"; "high"; "xhigh"; "max"; "off"; "on"].

Definition validateAgentBinding (a : AgentDefinition) : result unit :=
  let b := ad_ExecutorBinding a in
  let level := TrimSpace (eb_ThinkingLevel b) in
  let tier := TrimSpace (eb_ServiceTier b) in
  reject (bool_decide (ad_Status a = AgentActive)
          && (blank (eb_ProviderID b) || blank (sr_ID (ad_InputSchema a)) || blank (sr_ID (ad_OutputSchema a))))
    (Errorf "active agent requires executor binding and schemas" []) ;;;
  check_each (λ i c, reject (blank (cap_Name c)) (Errorf "agent capabilities[%d].name is required" [itoa i]))
    (ad_Capabilities a) ;;;
  check_each (λ i c, reject (blank c) (Errorf "agent executor required_caps[%d] is empty" [itoa i]))
    (eb_RequiredCaps b) ;;;
  reject ((level ≠? "") && negb (contains thinking_levels level))
    (Errorf "agent executor thinking_level %q is invalid" [level]) ;;;
  reject ((tier ≠? "") && (tier ≠? "priority") && (tier ≠? "flex"))
    (Errorf "agent executor service_tier %q is invalid" [tier]) ;;;
  check_each (λ i arg, reject (blank arg) (Errorf "agent executor custom_args[%d] is empty" [itoa i]))
    (eb_CustomArgs b).

Definition secret_fragments : list string := ["secret"; "token"; "password"; "credential"; "api_key"; "apikey"].
Definition unsafe_value_bytes : string :=
  String (ascii_of_nat 13) (String (ascii_of_nat 10) (String (ascii_of_nat 0) "")).

Definition check_config (_ : nat) (kv : string * string) : result unit :=
  let '(key, value) := kv in
  reject (negb (runtimeConfigKeyPattern key)) (Errorf "agent runtime_config key %q is invalid" [key]) ;;;
  reject (existsb (Contains (ToLower key)) secret_fragments)
    (Errorf "agent runtime_config key %q must use environment secret references" [key]) ;;;
  reject ((1024 <? String.length value) || ContainsAny value unsafe_value_bytes)
    (Errorf "agent runtime_config value for %q is invalid" [key]).

Definition check_environment (seen : list string) (i : nat) (r : EnvironmentReference) : result (list string) :=
  let name := TrimSpace (er_Name r) in
  let secretRef := TrimSpace (er_SecretRef r) in
  reject (negb (environmentNamePattern name)) (Errorf "agent environment[%d].name is invalid" [itoa i]) ;;;
  reject (negb (HasPrefix secretRef "env:") || negb (environmentNamePattern (TrimPrefix secretRef "env:")))
    (Errorf "agent environment[%d].secret_ref is invalid" [itoa i]) ;;;
  reject (contains seen name) (Errorf "agent environment name %q is duplicated" [name]) ;;;
  Ok (name :: seen).

Section definitions.
Context `{!MapRange}.

Definition validateAgentRuntime (a : AgentDefinition) : result unit :=
  let b := ad_ExecutorBinding a in
  (if bool_decide (g_Nodes (ad_Graph a) = []) then Ok tt
   else wrap_err "agent graph: %w" [] (ValidateGraph (ad_Graph a))) ;;;
  reject (32 <? size (eb_RuntimeConfig b))
    (Errorf "agent runtime_config cannot contain more than 32 entries" []) ;;;
  check_each check_config (range (eb_RuntimeConfig b)) ;;;
  reject (64 <? length (eb_Environment b)) (Errorf "agent environment cannot contain more than 64 references" []) ;;;
  fold_each_from 0 check_environment [] (eb_Environment b) ;;; Ok tt.

Definition AgentDefinition_Validate (a : AgentDefinition) : result unit :=
  validateAgentIdentity a ;;;
  validateAgentAccess a ;;;
  check_each (λ _ '(field, values), check_ids field values)
    (range ({["skill_ids" := ad_SkillIDs a; "mcp_server_ids" := ad_MCPServerIDs a]} : gmap string (list string))) ;;;
  reject (256 <? length (ad_DisabledRuntimeSkills a))
    (Errorf "agent cannot disable more than 256 runtime Skills" []) ;;;
  fold_each_from 0 check_skill [] (ad_DisabledRuntimeSkills a) ;;;
  reject (negb (known_agent_status (ad_Status a)))
    (Errorf "agent status %q is invalid" [AgentStatus_string (ad_Status a)]) ;;;
  validateBudget (ad_ConcurrencyBudget a) "agent concurrency budget" ;;;
  reject ((sr_Version (ad_InputSchema a) <? 0) || (sr_Version (ad_OutputSchema a) <? 0))%Z
    (Errorf "agent schema versions cannot be negative" []) ;;;
  reject (policyOverlap (ad_ToolPolicy a) ≠? "")
    (Errorf "agent tool policy allows and denies %q" [policyOverlap (ad_ToolPolicy a)]) ;;;
  validateAgentBinding a ;;;
  validateAgentRuntime a.

Definition CanInvoke (a : AgentDefinition) (memberID : string) : bool :=
  let memberID := TrimSpace memberID in
  let ownerID := TrimSpace (ad_OwnerID a) in
  let ownerID := if ownerID ≟ "" then TrimSpace (ad_CreatedBy a) else ownerID in
  if (ownerID ≟ "") && blank (ap_Mode (ad_AccessPolicy a)) then true
  else if (memberID ≠? "") && (memberID ≟ ownerID) then true
  else if access_mode a ≟ "workspace" then memberID ≠? ""
  else if access_mode a ≟ "members" then
    existsb (λ allowed, (memberID ≠? "") && (memberID ≟ TrimSpace allowed)) (ap_MemberIDs (ad_AccessPolicy a))
  else false.

(** ** Squads *)

Definition SquadMember_Validate (m : SquadMember) : result unit :=
  reject (blank (sm_ID m) || (blank (sm_AgentID m) && blank (sm_SquadID m)) || blank (sm_Role m))
    (Errorf "squad member id, exactly one agent_id/squad_id, and role are required" []) ;;;
  reject ((sm_AgentID m ≠? "") && (sm_SquadID m ≠? ""))
    (Errorf "squad member cannot reference agent and squad together" []) ;;;
  reject (sm_MaxAttempts m <? 0)%Z (Errorf "max_attempts cannot be negative" []) ;;;
  validateBudget (sm_Budget m) "squad member budget" ;;;
  reject ((sr_Version (sm_InputSchema m) <? 0) || (sr_Version (sm_OutputSchema m) <? 0))%Z
    (Errorf "squad member schema versions cannot be negative" []) ;;;
  reject (sm_Leader m && (sm_AgentID m ≟ "")) (Errorf "squad leader must reference an agent" []).

(** The loop carries the ids seen and the number of leaders. *)
Definition check_member (st : list string * nat) (i : nat) (m : SquadMember) : result (list string * nat) :=
  let '(seen, leaders) := st in
  wrap_err "members[%d]: %w" [itoa i] (SquadMember_Validate m) ;;;
  reject (contains seen (sm_ID m)) (Errorf "members[%d].id.duplicate" [itoa i]) ;;;
  Ok (sm_ID m :: seen, if sm_Leader m then S leaders else leaders).

Definition validateSquadPolicy (p : SquadPolicy) : result unit :=
  reject ((sp_MaxNestingDepth p <? 0) || (8 <? sp_MaxNestingDepth p))%Z
    (Errorf "squad max_nesting_depth must be between 0 and 8" []) ;;;
  validateBudget (sp_Budget p) "squad policy budget" ;;;
  reject (policyOverlap (sp_ToolPolicy p) ≠? "")
    (Errorf "squad tool policy allows and denies %q" [policyOverlap (sp_ToolPolicy p)]).

Definition SquadDefinition_Validate (s : SquadDefinition) : result unit :=
  reject (blank (sd_ID s) || blank (sd_WorkspaceID s) || blank (sd_Name s))
    (Errorf "squad id, workspace_id and name are required" []) ;;;
  let* st := fold_each_from 0 check_member ([], 0) (sd_Members s) in
  reject (bool_decide (sd_Status s = SquadPublished) && negb (st.2 =? 1))
    (Errorf "published squad requires exactly one leader" []) ;;;
  validateSquadPolicy (sd_Policy s) ;;;
  ValidateGraph (sd_Graph s).

Definition SquadStatus_string (s : SquadStatus) : string :=
  match s with
  | SquadDraft => "draft" | SquadPublished => "published" | SquadDisabled => "disabled" | SquadArchived => "archived"
  | SquadStatusOther s => s
  end.

Definition SquadDefinition_ValidateDraft (s : SquadDefinition) : result unit :=
  reject (blank (sd_ID s) || blank (sd_WorkspaceID s) || blank (sd_Name s))
    (Errorf "squad id, workspace_id and name are required" []) ;;;
  reject (sd_Revision s <? 1)%Z (Errorf "squad revision must be positive" []) ;;;
  reject (negb (bool_decide (sd_Status s = SquadDraft)))
    (Errorf "draft validation requires draft status, got %q" [SquadStatus_string (sd_Status s)]) ;;;
  validateSquadPolicy (sd_Policy s).

(** ** Freezing a plan *)

Context `{!Sha256, !JsonMarshal WorkflowGraph, !JsonMarshal RequirementExecutionPlan}.

(** [sha256] of an encoding whose error is returned. *)
Definition marshal_sha256 {T} `{!JsonMarshal T} (v : T) : result string :=
  match json_marshal v with
  | None => Err (Errorf "json.Marshal" [])
  | Some b => Ok (sha256_hex b)
  end.

Definition CanonicalHash (g : WorkflowGraph) : result string := marshal_sha256 g.

Definition pl_with (hash : string) (status : PlanStatus) (revision : Z) (created : Time)
    (p : RequirementExecutionPlan) : RequirementExecutionPlan :=
  {| pl_ID := pl_ID p; pl_RequirementID := pl_RequirementID p; pl_WorkspaceID := pl_WorkspaceID p;
     pl_GraphSnapshot := pl_GraphSnapshot p; pl_SelectedRef := pl_SelectedRef p;
     pl_PolicySnapshot := pl_PolicySnapshot p; pl_ContextRoot := pl_ContextRoot p; pl_PlanHash := hash;
     pl_Status := status; pl_Revision := revision; pl_IdempotencyKey := pl_IdempotencyKey p;
     pl_Deadline := pl_Deadline p; pl_CreatedAt := created; pl_ParentPlanID := pl_ParentPlanID p;
     pl_ParentAttemptID := pl_ParentAttemptID p |}.

Definition canonicalPlanHash (p : RequirementExecutionPlan) : result string :=
  marshal_sha256 (pl_with "" (PlanStatusOther "") 0 0 p).

(** On an error the plan is returned as it was given. *)
Definition Freeze (p : RequirementExecutionPlan) : RequirementExecutionPlan * result unit :=
  let checked :=
    reject (blank (pl_ID p) || blank (pl_RequirementID p) || blank (pl_WorkspaceID p))
      (Errorf "plan id, requirement_id and workspace_id are required" []) ;;;
    reject (negb (Bool.eqb (blank (pl_ParentPlanID p)) (blank (pl_ParentAttemptID p))))
      (Errorf "parent_plan_id and parent_attempt_id must be provided together" []) ;;;
    ValidateGraph (pl_GraphSnapshot p) ;;;
    reject (negb (IsZero (pl_Deadline p)) && negb (IsZero (pl_CreatedAt p))
            && negb (After (pl_Deadline p) (pl_CreatedAt p)))
      (Errorf "plan deadline must be after created_at" []) ;;;
    reject (negb (bool_decide (pl_Status p = PlanDraft)) && negb (bool_decide (pl_Status p = PlanValidating)))
      (Errorf "execution plan is immutable" []) ;;;
    canonicalPlanHash p in
  match checked with
  | Err e => (p, Err e)
  | Ok h => (pl_with h PlanReady 1 (pl_CreatedAt p) p, Ok tt)
  end.
End definitions.
