(* ===== verification/PredicateSpec.v ===== *)
(** * PredicateSpec: the predicate language is bounded and total

    What [ValidatePredicate] accepts: a bound on depth and fan-out, independence
    of the diagnostic path, and that evaluating an accepted predicate never
    panics and always yields a boolean. *)
From stdpp Require Import base strings gmap list pretty.
From Stdlib Require Import ZArith Lia SpecFloat.
From S2P Require Import Prelude GoLib GoValue GoJson ContextModel OrchModel GraphSearch Validate.

(** Induction on a predicate with the hypothesis for each child. *)
Lemma Predicate_nested_ind (P : Predicate → Prop) :
  (∀ k f o v cs, Forall P cs → P (MkPredicate k f o v cs)) → ∀ p, P p.
Proof.
  intros H. fix IH 1. intros [k f o v cs]. apply H.
  induction cs as [|c cs IHcs]; constructor; auto.
Qed.

(** The loop over children of the validator. *)
Definition validate_children (depth : nat) (path : string) (i : nat) (cs : list Predicate) : result unit :=
  check_each_from i
    (λ i c, ValidatePredicate c (S depth) (path +:+ ".children[" +:+ itoa i +:+ "]")) cs.

Lemma validate_children_fix depth path i cs :
  (fix go (i : nat) (cs : list Predicate) : result unit :=
     match cs with
     | [] => Ok tt
     | c :: cs' =>
         ValidatePredicate c (S depth) (path +:+ ".children[" +:+ itoa i +:+ "]") ;;; go (S i) cs'
     end) i cs = validate_children depth path i cs.
Proof.
  revert i. induction cs as [|c cs IH]; intros i; [done|].
  unfold validate_children in *. simpl. destruct (ValidatePredicate _ _ _) as [[]|]; simpl; [apply IH|done].
Qed.

Definition leaf_kinds := ["field_eq"; "number_cmp"; "contains"; "exists"].
Definition node_kinds := ["all"; "any"; "not"].

(** The conditions on a leaf, without the diagnostics. *)
Definition leaf_ok (kind field op : string) (v : value) : bool :=
  negb (blank field)
  && negb ((kind ≟ "contains") && match v with VString _ => false | _ => true end)
  && negb ((kind ≟ "number_cmp") && negb (contains ["eq"; "ne"; "lt"; "lte"; "gt"; "gte"] op))
  && negb ((kind ≟ "number_cmp") && match number v with Some _ => false | None => true end).

(** Acceptance as a predicate on the data alone. *)
Fixpoint pred_ok (p : Predicate) (depth : nat) : bool :=
  let '(MkPredicate kind field op v children) := p in
  (depth <=? 8)%nat &&
  (blank kind ||
   (if contains leaf_kinds kind then leaf_ok kind field op v
    else contains node_kinds kind
         && negb (bool_decide (children = []))
         && negb ((kind ≟ "not") && (length children ≠? 1))
         && (length children <=? 32)%nat
         && forallb (λ c, pred_ok c (S depth)) children)).

Lemma validate_children_iff depth path i cs :
  Forall (λ c, ∀ d path, ValidatePredicate c d path = Ok tt ↔ pred_ok c d = true) cs →
  validate_children depth path i cs = Ok tt ↔ forallb (λ c, pred_ok c (S depth)) cs = true.
Proof.
  intros H. revert i. induction H as [|c cs Hc Hcs IH]; intros i; [done|].
  unfold validate_children in *. simpl. rewrite rbind_Ok, andb_true_iff, <- (IH (S i)). split.
  - intros ([] & H1 & H2). split; [by eapply Hc|done].
  - intros [H1 H2]. exists tt. split; [by apply Hc|done].
Qed.

Lemma ValidatePredicate_iff p depth path :
  ValidatePredicate p depth path = Ok tt ↔ pred_ok p depth = true.
Proof.
  revert depth path. induction p as [kind field op v cs IH] using Predicate_nested_ind; intros depth path.
  simpl. rewrite validate_children_fix, rbind_reject_Ok, andb_true_iff, Nat.leb_le, Nat.ltb_ge.
  apply and_iff_compat_l. destruct (blank kind); simpl; [done|].
  unfold leaf_kinds, node_kinds, leaf_ok.
  destruct (contains ["field_eq"; "number_cmp"; "contains"; "exists"] kind).
  - rewrite !rbind_reject_Ok, reject_tt, !andb_true_iff, !negb_true_iff. tauto.
  - destruct (contains ["all"; "any"; "not"] kind); simpl; [|naive_solver].
    rewrite !rbind_reject_Ok, validate_children_iff by done.
    rewrite !andb_true_iff, !negb_true_iff, Nat.leb_le, Nat.ltb_ge. tauto.
Qed.

(** *** Consequences *)

(** The operators nested in a predicate: the evaluator's recursion depth. *)
Fixpoint operator_depth (p : Predicate) : nat :=
  let '(MkPredicate kind _ _ _ cs) := p in
  if contains node_kinds kind then S (list_max (operator_depth <$> cs)) else 0.

(** The diagnostic path has no influence on acceptance. *)
Lemma ValidatePredicate_path p depth path path' :
  ValidatePredicate p depth path = Ok tt ↔ ValidatePredicate p depth path' = Ok tt.
Proof. by rewrite !ValidatePredicate_iff. Qed.

Lemma node_kind_cases kind :
  contains node_kinds kind = true → kind = "all" ∨ kind = "any" ∨ kind = "not".
Proof. rewrite contains_spec. unfold node_kinds. set_solver. Qed.

(** What a predicate may be, at nesting level [d]: nothing at all, a test of a
    named field, or an operator over at most 32 predicates one level deeper; no
    more than nine levels. *)
Inductive pred_wf (d : nat) : Predicate → Prop :=
  | wf_always kind field op v cs :
      d ≤ 8 → blank kind = true → pred_wf d (MkPredicate kind field op v cs)
  | wf_test kind field op v cs :
      d ≤ 8 → kind ∈ ["field_eq"; "exists"] → blank field = false → pred_wf d (MkPredicate kind field op v cs)
  | wf_contains field op needle cs :
      d ≤ 8 → blank field = false → pred_wf d (MkPredicate "contains" field op (VString needle) cs)
  | wf_number field op v x cs :
      d ≤ 8 → blank field = false → op ∈ ["eq"; "ne"; "lt"; "lte"; "gt"; "gte"] → number v = Some x →
      pred_wf d (MkPredicate "number_cmp" field op v cs)
  | wf_junction kind field op v cs :
      d ≤ 8 → kind ∈ ["all"; "any"] → 1 ≤ length cs ≤ 32 → (∀ c, c ∈ cs → pred_wf (S d) c) →
      pred_wf d (MkPredicate kind field op v cs)
  | wf_negation field op v c :
      d ≤ 8 → pred_wf (S d) c → pred_wf d (MkPredicate "not" field op v [c]).

Lemma leaf_ok_wf kind field op v cs d :
  d ≤ 8 → contains leaf_kinds kind = true →
  leaf_ok kind field op v = true ↔ pred_wf d (MkPredicate kind field op v cs).
Proof.
  intros Hd Hk. unfold leaf_ok. rewrite !andb_true_iff, !negb_true_iff. split.
  - intros (((Hf & Hc) & Ho) & Hn). apply contains_spec in Hk. unfold leaf_kinds in Hk.
    rewrite !elem_of_cons in Hk. destruct Hk as [->|[->|[->|[->|Hk]]]].
    + apply wf_test; [done|set_solver|done].
    + simpl in Ho, Hn. apply negb_false_iff, contains_spec in Ho.
      destruct (number v) eqn:En; [|done]. by eapply wf_number.
    + simpl in Hc. destruct v; try done. by apply wf_contains.
    + apply wf_test; [done|set_solver|done].
    + by apply elem_of_nil in Hk.
  - inversion 1 as [? ? ? ? ? _ Hb|? ? ? ? ? _ Hin Hf|? ? ? ? _ Hf|? ? ? ? ? _ Hf Ho Hn|? ? ? ? ? _ Hin|]; subst.
    + exfalso. apply contains_spec in Hk. unfold leaf_kinds in Hk. rewrite !elem_of_cons in Hk.
      destruct Hk as [->|[->|[->|[->|Hk]]]]; try done. by apply elem_of_nil in Hk.
    + rewrite Hf. rewrite !elem_of_cons in Hin. destruct Hin as [->|[->|Hin]]; [done..|by apply elem_of_nil in Hin].
    + by rewrite Hf.
    + rewrite Hf, Hn. apply contains_spec in Ho. by rewrite Ho.
    + exfalso. rewrite !elem_of_cons in Hin. destruct Hin as [->|[->|Hin]]; [done..|by apply elem_of_nil in Hin].
    + done.
Qed.

Lemma pred_ok_wf p d : pred_ok p d = true ↔ pred_wf d p.
Proof.
  revert d. induction p as [kind field op v cs IH] using Predicate_nested_ind; intros d. rewrite Forall_forall in IH.
  simpl. rewrite andb_true_iff, Nat.leb_le. split.
  - intros [Hd Hok]. destruct (blank kind) eqn:Eb; [by apply wf_always|]. simpl in Hok.
    destruct (contains leaf_kinds kind) eqn:El; [by apply leaf_ok_wf|].
    rewrite !andb_true_iff, !negb_true_iff, Nat.leb_le, bool_decide_eq_false, forallb_forall in Hok.
    destruct Hok as ((((Hk & Hne) & Hnot) & Hlen) & Hcs).
    assert (∀ c, c ∈ cs → pred_wf (S d) c) as Hwf.
    { intros c Hc. apply IH; [done|]. by apply Hcs, list_elem_of_In. }
    destruct (node_kind_cases _ Hk) as [->|[->| ->]].
    1,2: apply wf_junction; [done|set_solver| |done]; destruct cs; [done|simpl in *; lia].
    simpl in Hnot. apply negb_false_iff, bool_decide_eq_true in Hnot.
    destruct cs as [|c [|]]; try done. apply wf_negation; [done|]. apply Hwf. left.
  - intros Hwf. assert (d ≤ 8) as Hd by (by inversion Hwf). split; [done|].
    destruct (blank kind) eqn:Eb; [done|]. simpl. destruct (contains leaf_kinds kind) eqn:El.
    { by eapply leaf_ok_wf. }
    inversion Hwf as [? ? ? ? ? _ Hb|? ? ? ? ? _ Hin Hf| | |? ? ? ? ? _ Hin Hlen Hcs|? ? ? c _ Hc]; subst; try done.
    + congruence.
    + rewrite !elem_of_cons in Hin. destruct Hin as [->|[->|Hin]]; [done..|by apply elem_of_nil in Hin].
    + rewrite !andb_true_iff, !negb_true_iff, Nat.leb_le, bool_decide_eq_false, forallb_forall.
      split_and!; [|by intros ->; simpl in Hlen; lia| |lia|].
      * rewrite !elem_of_cons in Hin. destruct Hin as [->|[->|Hin]]; [done..|by apply elem_of_nil in Hin].
      * rewrite !elem_of_cons in Hin. destruct Hin as [->|[->|Hin]]; [done..|by apply elem_of_nil in Hin].
      * intros c Hc%list_elem_of_In. by apply IH, Hcs.
    + simpl. rewrite andb_true_r. apply IH; [left|done].
Qed.

(** An accepted operator has between one and 32 accepted children, exactly one
    under [not]. *)
Lemma pred_ok_operator kind field op v cs depth :
  contains node_kinds kind = true → pred_ok (MkPredicate kind field op v cs) depth = true →
  depth ≤ 8 ∧ 1 ≤ length cs ≤ 32 ∧ (kind = "not" → length cs = 1) ∧
  Forall (λ c, pred_ok c (S depth) = true) cs.
Proof.
  intros Hk. simpl. rewrite andb_true_iff, Nat.leb_le. intros [Hd Hok].
  assert (blank kind = false ∧ contains leaf_kinds kind = false) as [Hb Hl]
    by (destruct (node_kind_cases _ Hk) as [->|[->| ->]]; done).
  rewrite Hb, Hl, Hk in Hok. simpl in Hok.
  rewrite !andb_true_iff, !negb_true_iff, Nat.leb_le, bool_decide_eq_false in Hok.
  destruct Hok as [[[Hne Hnot] Hlen] Hcs]. split_and!; [done| |done| |].
  - destruct cs; [done|]. simpl. lia.
  - intros ->. rewrite bool_decide_true in Hnot by done. simpl in Hnot.
    by apply negb_false_iff, bool_decide_eq_true in Hnot.
  - apply Forall_forall. intros c Hc%list_elem_of_In. by eapply forallb_forall in Hcs.
Qed.

Lemma operator_depth_bound p depth : pred_ok p depth = true → depth + operator_depth p ≤ 9.
Proof.
  revert depth. induction p as [kind field op v cs IH] using Predicate_nested_ind; intros depth Hok.
  destruct (contains node_kinds kind) eqn:Hk.
  - destruct (pred_ok_operator _ _ _ _ _ _ Hk Hok) as (Hd & _ & _ & Hcs).
    simpl. rewrite Hk. cut (list_max (operator_depth <$> cs) ≤ 8 - depth); [lia|].
    apply list_max_le, List.Forall_forall. intros n Hn%list_elem_of_In.
    apply list_elem_of_fmap in Hn as (c & -> & Hc). rewrite Forall_forall in IH, Hcs.
    specialize (IH c Hc (S depth) (Hcs c Hc)). lia.
  - simpl in *. rewrite Hk. apply andb_true_iff in Hok as [Hd%Nat.leb_le _]. lia.
Qed.

(** The evaluator's answer is a boolean: no error and no panic. *)
Definition evaluates (r : result bool) : Prop := ∃ b, r = Ok b.

Lemma eval_all_loop f cs :
  Forall (λ c, evaluates (evalPredicate c f)) cs →
  evaluates ((fix go (cs : list Predicate) : result bool :=
       match cs with
       | [] => Ok true
       | c :: cs' => let* b := evalPredicate c f in if b then go cs' else Ok false
       end) cs).
Proof.
  induction 1 as [|c cs [b Hb] _ [b' IH]]; [by exists true|]. rewrite Hb. simpl.
  destruct b; [by exists b'|by exists false].
Qed.

Lemma eval_any_loop f cs :
  Forall (λ c, evaluates (evalPredicate c f)) cs →
  evaluates ((fix go (cs : list Predicate) : result bool :=
       match cs with
       | [] => Ok false
       | c :: cs' => let* b := evalPredicate c f in if b then Ok true else go cs'
       end) cs).
Proof.
  induction 1 as [|c cs [b Hb] _ [b' IH]]; [by exists false|]. rewrite Hb. simpl.
  destruct b; [by exists true|by exists b'].
Qed.

Lemma evalPredicate_total p depth f :
  pred_ok p depth = true → evaluates (evalPredicate p f).
Proof.
  revert depth. induction p as [kind field op v cs IH] using Predicate_nested_ind; intros depth Hok.
  assert (contains node_kinds kind = true →
          Forall (λ c, evaluates (evalPredicate c f)) cs ∧ (kind = "not" → length cs = 1)) as Hcs.
  { intros Hk. destruct (pred_ok_operator _ _ _ _ _ _ Hk Hok) as (_ & _ & Hnot & Hcs).
    split; [|done]. rewrite Forall_forall in *. eauto. }
  simpl. destruct (bool_decide (kind = "all")) eqn:Eall.
  { apply bool_decide_eq_true in Eall as ->. by apply eval_all_loop, Hcs. }
  destruct (bool_decide (kind = "any")) eqn:Eany.
  { apply bool_decide_eq_true in Eany as ->. by apply eval_any_loop, Hcs. }
  destruct (bool_decide (kind = "not")) eqn:Enot.
  { apply bool_decide_eq_true in Enot as ->. destruct Hcs as [Hcs Hlen]; [done|].
    specialize (Hlen eq_refl). destruct cs as [|c [|]]; [done| |done].
    apply Forall_singleton in Hcs as [b ->]. by exists (negb b). }
  unfold evaluates. repeat case_match; eauto.
Qed.

Lemma EvaluatePredicate_Ok_iff p f :
  evaluates (EvaluatePredicate p f) ↔ pred_ok p 0 = true.
Proof.
  unfold EvaluatePredicate. rewrite <- (ValidatePredicate_iff p 0 "predicate"). split.
  - intros [b H]. apply rbind_Ok in H as ([] & H & _). done.
  - intros H. rewrite H. simpl. case_match; [by exists true|].
    apply (evalPredicate_total p 0). by rewrite <- (ValidatePredicate_iff p 0 "predicate").
Qed.
