(* ===== verification/GraphSpec.v ===== *)
(** * GraphSpec: what [ValidateGraph] accepts

    A declarative specification of a well-formed workflow graph and the proof
    that [ValidateGraph] decides it, for every map iteration order; then the two
    consequences the scheduler relies on: every node lies between an entry and
    an exit, and every cycle crosses an edge with a traversal limit. *)
From stdpp Require Import base strings gmap list pretty relations.
From Stdlib Require Import ZArith Lia SpecFloat.
From S2P Require Import Prelude GoLib GoValue GoJson ContextModel OrchModel GraphSearch Validate PredicateSpec.

(** ** The specification *)

(** A pinned definition: an identifier and, for an agent, a revision of at
    least one; a squad may be pinned by its version instead. *)
Definition agent_ref_ok (r : VersionedRef) : Prop := blank (vr_ID r) = false ∧ (1 ≤ vr_Revision r)%Z.
Definition squad_ref_ok (r : VersionedRef) : Prop :=
  blank (vr_ID r) = false ∧ (1 ≤ vr_Revision r ∨ 1 ≤ vr_Version r)%Z.

Definition budget_ok (b : Budget) : Prop :=
  Forall (λ z, 0 ≤ z)%Z [bg_Tokens b; bg_ToolCalls b; bg_CostCents b; bg_Duration b; bg_Concurrent b].

(** The policy of a node kind is empty on nodes of every other kind. *)
Definition gate_unset (gp : GatePolicy) : Prop :=
  blank (p_Kind (gp_Predicate gp)) = true ∧ gp_RequiredEvidence gp = [] ∧ blank (gp_FailureCode gp) = true.
Definition merge_unset (mp : MergePolicy) : Prop :=
  blank (mg_ConflictPolicy mp) = true ∧ mg_KeyFields mp = [] ∧ mg_RequireEvidence mp = false.
Definition repair_unset (rp : RepairPolicy) : Prop :=
  blank (rpol_TargetNodeID rp) = true ∧ rpol_Scope rp = [] ∧ rpol_VerificationNodeIDs rp = []
  ∧ rpol_MaxRounds rp = 0%Z ∧ rpol_Budget rp = zero_Budget.

(** What a node must satisfy on its own. *)
Record node_ok (n : WorkflowNode) : Prop := {
  nk_id : blank (wn_ID n) = false;
  nk_kind : wn_Kind n ∈ [NodeAgent; NodeSquad; NodeGate; NodeHuman; NodeMerge; NodeRepair];
  nk_agent_ref : wn_Kind n = NodeAgent → wn_AgentRef n ≠ None;
  nk_squad_ref : wn_Kind n = NodeSquad → wn_SquadRef n ≠ None;
  nk_agent_pinned : ∀ r, wn_AgentRef n = Some r → agent_ref_ok r;
  nk_squad_pinned : ∀ r, wn_SquadRef n = Some r → squad_ref_ok r;
  nk_budget : budget_ok (wn_Budget n);
  nk_limits : Forall (λ z, 0 ≤ z)%Z
    [wn_Timeout n; cp_MaxTokens (wn_ContextPolicy n); rt_MaxAttempts (wn_RetryPolicy n); rt_Backoff (wn_RetryPolicy n);
     wn_JoinQuorum n];
  nk_join : wn_JoinPolicy n ∈ [JoinUnset; JoinAll; JoinQuorum; JoinFirstSuccess];
  nk_join_failure : wn_JoinFailurePolicy n ∈ [""; "wait"; "short_circuit"];
  nk_gate_predicate : pred_wf 0 (gp_Predicate (wn_GatePolicy n));
  nk_gate_only : wn_Kind n = NodeGate ∨ gate_unset (wn_GatePolicy n);
  nk_gate_evidence : Forall (λ ev, blank ev = false) (gp_RequiredEvidence (wn_GatePolicy n));
  nk_merge_only : wn_Kind n = NodeMerge ∨ merge_unset (wn_MergePolicy n);
  nk_merge_policy : mg_ConflictPolicy (wn_MergePolicy n) ∈ [""; "collect"; "prefer_priority"; "fail"];
  nk_merge_keys : Forall (λ k, blank k = false) (mg_KeyFields (wn_MergePolicy n));
  nk_repair_only : wn_Kind n = NodeRepair ∨ repair_unset (wn_RepairPolicy n);
  nk_repair : wn_Kind n = NodeRepair →
    rpol_TargetNodeID (wn_RepairPolicy n) ≠ wn_ID n ∧ rpol_VerificationNodeIDs (wn_RepairPolicy n) ≠ []
    ∧ (1 ≤ rpol_MaxRounds (wn_RepairPolicy n))%Z;
  nk_repair_budget : budget_ok (rpol_Budget (wn_RepairPolicy n));
  nk_repair_scope : Forall (λ sc, blank sc = false) (rpol_Scope (wn_RepairPolicy n)) }.

Definition node_table (g : WorkflowGraph) : node_map :=
  foldl (λ m n, <[wn_ID n := n]> m) ∅ (g_Nodes g).

(** The two ends of an edge agree on the artefact handed over: neither names a
    schema, or both name the same one, at the same version where both pin one. *)
Definition contract_ok (out inp : SchemaRef) : Prop :=
  (sr_ID out = "" ∧ sr_ID inp = "") ∨
  (sr_ID out ≠ "" ∧ sr_ID out = sr_ID inp ∧
   ((0 < sr_Version out)%Z → (0 < sr_Version inp)%Z → sr_Version out = sr_Version inp)).

(** What an edge must satisfy, given the nodes it may join. *)
Record edge_ok (nodes : node_map) (e : WorkflowEdge) : Prop := {
  ek_id : blank (we_ID e) = false;
  ek_ends : ∃ f t, nodes !! we_From e = Some f ∧ nodes !! we_To e = Some t
              ∧ contract_ok (wn_OutputContract f) (wn_InputContract t);
  ek_event : we_On e ∈ [EdgeSuccess; EdgeFailure; EdgeTimeout; EdgeApproval; EdgeBug; EdgeCancel];
  ek_limit : (0 ≤ we_MaxTraversals e)%Z;
  ek_bounded : we_From e = we_To e ∨ we_LoopGroup e ≠ "" → (1 ≤ we_MaxTraversals e)%Z;
  ek_evidence : Forall (λ ev, blank ev = false) (we_RequiredEvidence e);
  ek_fan_out : we_FanOut e = true → (0 ≤ we_Priority e)%Z;
  ek_predicate : pred_wf 0 (we_Predicate e) }.

(** The node a repair hands over to: the one its policy names or, when it names
    none, the only other node its success edges lead to. *)
Definition repair_target (g : WorkflowGraph) (n : WorkflowNode) (t : string) : Prop :=
  let named := TrimSpace (rpol_TargetNodeID (wn_RepairPolicy n)) in
  let leads e := e ∈ g_Edges g ∧ we_From e = wn_ID n ∧ we_To e ≠ wn_ID n ∧ we_On e = EdgeSuccess in
  t ≠ "" ∧ (named = t ∨ (named = "" ∧ (∃ e, leads e ∧ we_To e = t) ∧ ∀ e, leads e → we_To e = t)).

(** A path of success edges a repair may use: none of them is a member of a
    loop group without a traversal limit. *)
Definition repair_path (g : WorkflowGraph) : relation string :=
  rtc (λ x y, ∃ e, e ∈ g_Edges g ∧ we_From e = x ∧ we_To e = y ∧ we_On e = EdgeSuccess
                   ∧ (we_LoopGroup e = "" ∨ we_MaxTraversals e ≠ 0%Z)).

(** What a node must satisfy with respect to the rest of the graph. *)
Record links_ok (g : WorkflowGraph) (n : WorkflowNode) : Prop := {
  lk_quorum : wn_JoinPolicy n = JoinQuorum → (0 < wn_JoinQuorum n)%Z →
    (wn_JoinQuorum n ≤ Z.of_nat (length (filter (λ e, we_To e = wn_ID n) (g_Edges g))))%Z;
  lk_target_known : rpol_TargetNodeID (wn_RepairPolicy n) ≠ "" →
    rpol_TargetNodeID (wn_RepairPolicy n) ∈ wn_ID <$> g_Nodes g;
  lk_checks_known : ∀ v, v ∈ rpol_VerificationNodeIDs (wn_RepairPolicy n) → v ∈ wn_ID <$> g_Nodes g;
  lk_repair : wn_Kind n = NodeRepair → ∃ t, repair_target g n t ∧ repair_path g (wn_ID n) t
    ∧ ∀ v, v ∈ rpol_VerificationNodeIDs (wn_RepairPolicy n) → repair_path g t v }.

Definition cyclic_loop_has_human (g : WorkflowGraph) (e : WorkflowEdge) : Prop :=
  (0 < we_MaxTraversals e)%Z → we_LoopGroup e ≠ "" → reach (arcs g) (we_To e) (we_From e) →
  ∃ h n, reach (arcs g) (we_From e) h ∧ node_table g !! h = Some n ∧ wn_Kind n = NodeHuman.

(** Edges without a traversal limit form no cycle. *)
Definition unbounded_acyclic (g : WorkflowGraph) : Prop :=
  ∀ x, ¬ tc (arc (arcs_of (unbounded_edges g))) x x.

Record GraphWF (g : WorkflowGraph) : Prop := {
  wf_id : blank (g_ID g) = false;
  wf_size : 1 ≤ length (g_Nodes g) ≤ maxWorkflowNodes ∧ length (g_Edges g) ≤ maxWorkflowEdges;
  wf_version : (1 ≤ g_Version g)%Z;
  wf_nodes : Forall node_ok (g_Nodes g);
  wf_node_ids : NoDup (wn_ID <$> g_Nodes g);
  wf_ends : g_EntryNodeIDs g ≠ [] ∧ g_ExitNodeIDs g ≠ [];
  wf_entries : NoDup (g_EntryNodeIDs g) ∧ ∀ id, id ∈ g_EntryNodeIDs g → id ∈ wn_ID <$> g_Nodes g;
  wf_exits : NoDup (g_ExitNodeIDs g) ∧ ∀ id, id ∈ g_ExitNodeIDs g → id ∈ wn_ID <$> g_Nodes g;
  wf_edges : Forall (edge_ok (node_table g)) (g_Edges g);
  wf_edge_ids : NoDup (we_ID <$> g_Edges g);
  wf_links : Forall (links_ok g) (g_Nodes g);
  wf_reachable : ∀ n, n ∈ g_Nodes g → reach_from (arcs g) (g_EntryNodeIDs g) (wn_ID n);
  wf_exit_path : ∀ n, n ∈ g_Nodes g → ∃ x, x ∈ g_ExitNodeIDs g ∧ reach (arcs g) (wn_ID n) x;
  wf_loops : Forall (cyclic_loop_has_human g) (g_Edges g);
  wf_acyclic : unbounded_acyclic g }.

(** ** The validators of one node and of one edge are exact *)

Lemma not_other_kind k :
  known_kind k = true ↔ k ∈ [NodeAgent; NodeSquad; NodeGate; NodeHuman; NodeMerge; NodeRepair].
Proof. destruct k; simpl; set_solver. Qed.

Lemma validateBudget_iff b label : validateBudget b label = Ok tt ↔ budget_ok b.
Proof.
  unfold validateBudget, budget_ok. rewrite reject_tt, !orb_false_iff, !Z.ltb_ge, !Forall_cons. split; [|tauto].
  intros ((((? & ?) & ?) & ?) & ?). split_and!; try done.
Qed.

Lemma validateNodeRefs_iff i n :
  validateNodeRefs i n = Ok tt ↔
  wn_Kind n ∈ [NodeAgent; NodeSquad; NodeGate; NodeHuman; NodeMerge; NodeRepair]
  ∧ (wn_Kind n = NodeAgent → wn_AgentRef n ≠ None) ∧ (wn_Kind n = NodeSquad → wn_SquadRef n ≠ None)
  ∧ (∀ r, wn_AgentRef n = Some r → agent_ref_ok r) ∧ (∀ r, wn_SquadRef n = Some r → squad_ref_ok r).
Proof.
  unfold validateNodeRefs, agent_ref_ok, squad_ref_ok.
  rewrite !rbind_reject_Ok, reject_tt, !andb_false_iff, !bool_decide_eq_false, !negb_false_iff, !bool_decide_eq_true,
    not_other_kind, <- !not_eq_None_Some.
  destruct (wn_AgentRef n) as [a|], (wn_SquadRef n) as [q|]; rewrite ?andb_false_iff, ?Z.ltb_ge; split;
    naive_solver.
Qed.

Lemma validateNodeLimits_iff i n :
  validateNodeLimits i n = Ok tt ↔
  budget_ok (wn_Budget n)
  ∧ Forall (λ z, 0 ≤ z)%Z
      [wn_Timeout n; cp_MaxTokens (wn_ContextPolicy n); rt_MaxAttempts (wn_RetryPolicy n);
       rt_Backoff (wn_RetryPolicy n); wn_JoinQuorum n]
  ∧ wn_JoinPolicy n ∈ [JoinUnset; JoinAll; JoinQuorum; JoinFirstSuccess]
  ∧ wn_JoinFailurePolicy n ∈ [""; "wait"; "short_circuit"].
Proof.
  unfold validateNodeLimits, negative_limits, budget_ok.
  rewrite !rbind_reject_Ok, reject_tt, !orb_false_iff, !Z.ltb_ge, negb_false_iff, contains_spec, !Forall_cons.
  assert (∀ k, match k with JoinPolicyOther _ => true | _ => false end = false
               ↔ k ∈ [JoinUnset; JoinAll; JoinQuorum; JoinFirstSuccess]) as ->.
  { intros []; simpl; set_solver. }
  pose proof (Forall_nil_2 (λ z, 0 ≤ z)%Z). tauto.
Qed.

Lemma gate_only_iff n :
  (wn_Kind n ≠? NodeGate) && (negb (blank (p_Kind (gp_Predicate (wn_GatePolicy n))))
     || negb (bool_decide (gp_RequiredEvidence (wn_GatePolicy n) = []))
     || negb (blank (gp_FailureCode (wn_GatePolicy n)))) = false
  ↔ wn_Kind n = NodeGate ∨ gate_unset (wn_GatePolicy n).
Proof.
  unfold gate_unset. rewrite andb_false_iff, !orb_false_iff, !negb_false_iff, !bool_decide_eq_true. tauto.
Qed.

Lemma merge_only_iff n :
  (wn_Kind n ≠? NodeMerge) && (negb (blank (mg_ConflictPolicy (wn_MergePolicy n)))
     || negb (bool_decide (mg_KeyFields (wn_MergePolicy n) = []))
     || mg_RequireEvidence (wn_MergePolicy n)) = false
  ↔ wn_Kind n = NodeMerge ∨ merge_unset (wn_MergePolicy n).
Proof.
  unfold merge_unset. rewrite andb_false_iff, !orb_false_iff, !negb_false_iff, !bool_decide_eq_true. tauto.
Qed.

Lemma repair_only_iff n :
  (wn_Kind n ≠? NodeRepair) && (negb (blank (rpol_TargetNodeID (wn_RepairPolicy n)))
     || negb (bool_decide (rpol_Scope (wn_RepairPolicy n) = []))
     || negb (bool_decide (rpol_VerificationNodeIDs (wn_RepairPolicy n) = []))
     || (rpol_MaxRounds (wn_RepairPolicy n) ≠? 0%Z) || (rpol_Budget (wn_RepairPolicy n) ≠? zero_Budget)) = false
  ↔ wn_Kind n = NodeRepair ∨ repair_unset (wn_RepairPolicy n).
Proof.
  unfold repair_unset. rewrite andb_false_iff, !orb_false_iff, !negb_false_iff, !bool_decide_eq_true. tauto.
Qed.

Lemma repair_rounds_iff (n : WorkflowNode) (rp : RepairPolicy) (e1 e2 e3 : error) :
  wn_Kind n = NodeRepair ∨ repair_unset rp →
  (rpol_MaxRounds rp <? 0)%Z = false
  ∧ (if wn_Kind n ≟ NodeRepair then
       reject (rpol_TargetNodeID rp ≟ wn_ID n) e1 ;;;
       reject (bool_decide (rpol_VerificationNodeIDs rp = [])) e2 ;;;
       reject (rpol_MaxRounds rp ≟ 0%Z) e3
     else Ok tt) = Ok tt
  ↔ (wn_Kind n = NodeRepair →
     rpol_TargetNodeID rp ≠ wn_ID n ∧ rpol_VerificationNodeIDs rp ≠ [] ∧ (1 ≤ rpol_MaxRounds rp)%Z).
Proof.
  intros Hkind. rewrite Z.ltb_ge. case_bool_decide as Hk.
  - rewrite !rbind_reject_Ok, reject_tt, !bool_decide_eq_false. split.
    + intros (? & ? & ? & ?) _. split_and!; [done|done|lia].
    + intros H. destruct (H Hk) as (? & ? & ?). split_and!; [lia|done|done|lia].
  - destruct Hkind as [?|(_ & _ & _ & -> & _)]; [done|]. naive_solver.
Qed.

Lemma validateNodePolicies_iff i n :
  validateNodePolicies i n = Ok tt ↔
  pred_wf 0 (gp_Predicate (wn_GatePolicy n))
  ∧ (wn_Kind n = NodeGate ∨ gate_unset (wn_GatePolicy n))
  ∧ Forall (λ ev, blank ev = false) (gp_RequiredEvidence (wn_GatePolicy n))
  ∧ (wn_Kind n = NodeMerge ∨ merge_unset (wn_MergePolicy n))
  ∧ mg_ConflictPolicy (wn_MergePolicy n) ∈ [""; "collect"; "prefer_priority"; "fail"]
  ∧ Forall (λ k, blank k = false) (mg_KeyFields (wn_MergePolicy n))
  ∧ (wn_Kind n = NodeRepair ∨ repair_unset (wn_RepairPolicy n))
  ∧ (wn_Kind n = NodeRepair →
     rpol_TargetNodeID (wn_RepairPolicy n) ≠ wn_ID n ∧ rpol_VerificationNodeIDs (wn_RepairPolicy n) ≠ []
     ∧ (1 ≤ rpol_MaxRounds (wn_RepairPolicy n))%Z)
  ∧ budget_ok (rpol_Budget (wn_RepairPolicy n))
  ∧ Forall (λ sc, blank sc = false) (rpol_Scope (wn_RepairPolicy n)).
Proof.
  unfold validateNodePolicies. cbn zeta.
  rewrite !rbind_unit_Ok, !check_each_reject, !reject_tt, ValidatePredicate_iff, pred_ok_wf, validateBudget_iff,
    gate_only_iff, merge_only_iff, repair_only_iff, negb_false_iff, contains_spec.
  split.
  - intros (H1 & H2 & H3 & H4 & H5 & H6 & H7 & H8 & H9 & H10 & H11). split_and!; try done.
    by eapply (repair_rounds_iff n (wn_RepairPolicy n)).
  - intros (H1 & H2 & H3 & H4 & H5 & H6 & H7 & H8 & H9 & H10).
    pose proof (λ e1 e2 e3, proj2 (repair_rounds_iff n (wn_RepairPolicy n) e1 e2 e3 H7) H8) as Hr.
    split_and!; try done; [exact (proj1 (Hr (node_err i "") (node_err i "") (node_err i "")))|exact (proj2 (Hr _ _ _))].
Qed.

(** The three checks of one node, together, are [node_ok]. *)
Lemma node_checks_iff i n :
  blank (wn_ID n) = false ∧ validateNodeRefs i n = Ok tt ∧ validateNodeLimits i n = Ok tt
  ∧ validateNodePolicies i n = Ok tt ↔ node_ok n.
Proof.
  rewrite validateNodeRefs_iff, validateNodeLimits_iff, validateNodePolicies_iff. split.
  - intros (H & (? & ? & ? & ? & ?) & (? & ? & ? & ?) & (? & ? & ? & ? & ? & ? & ? & ? & ? & ?)). by split.
  - intros []. by split_and!.
Qed.

Lemma validateEdgeContract_iff i f t :
  validateEdgeContract i f t = Ok tt ↔ contract_ok (wn_OutputContract f) (wn_InputContract t).
Proof.
  unfold validateEdgeContract, contract_ok.
  destruct (wn_OutputContract f) as [o ov], (wn_InputContract t) as [p pv]. cbn [sr_ID sr_Version].
  destruct (decide (o = "")) as [->|Ho], (decide (p = "")) as [->|Hp];
    rewrite ?(bool_decide_true ("" = "")), ?(bool_decide_false (o = "")), ?(bool_decide_false (p = "")) by done;
    simpl; [naive_solver..|].
  rewrite !rbind_reject_Ok, reject_tt, negb_false_iff, bool_decide_eq_true, !andb_false_iff, !Z.ltb_ge,
    negb_false_iff, bool_decide_eq_true. split.
  - intros (Heq & H). right. split_and!; [done|done|]. intros ? ?. destruct H as [[?|?]|?]; [lia|lia|done].
  - intros [[? ?]|(_ & Heq & H)]; [done|]. split; [done|].
    destruct (Z.ltb_spec 0 ov), (Z.ltb_spec 0 pv); [right; by apply H|left; by right|by left; left|by left; left].
Qed.

Lemma edge_checks_iff nodes i e (A : Type) (r : result A) x :
  (blank (we_ID e) = false ∧
   match nodes !! we_From e, nodes !! we_To e with
   | None, _ => Err (edge_err i "from.unknown")
   | Some _, None => Err (edge_err i "to.unknown")
   | Some fromNode, Some toNode =>
       reject ((we_From e ≟ we_To e) && (we_MaxTraversals e <? 1)%Z) (edge_err i "max_traversals.required") ;;;
       reject (match we_On e with EdgeEventOther _ => true | _ => false end) (edge_err i "on.invalid") ;;;
       reject (we_MaxTraversals e <? 0)%Z (edge_err i "max_traversals.invalid") ;;;
       check_each (λ k ev, reject (blank ev)
           (Errorf "graph.edges[%d].required_evidence[%d].required" [itoa i; itoa k]))
         (we_RequiredEvidence e) ;;;
       reject ((we_LoopGroup e ≠? "") && (we_MaxTraversals e <? 1)%Z)
         (edge_err i "loop_group.max_traversals.required") ;;;
       reject (we_FanOut e && (we_Priority e <? 0)%Z) (edge_err i "fan_out.priority.invalid") ;;;
       ValidatePredicate (we_Predicate e) 0 ("graph.edges[" +:+ itoa i +:+ "].predicate") ;;;
       validateEdgeContract i fromNode toNode ;;;
       r
   end = Ok x) ↔ edge_ok nodes e ∧ r = Ok x.
Proof.
  assert (∀ k, match k with EdgeEventOther _ => true | _ => false end = false
               ↔ k ∈ [EdgeSuccess; EdgeFailure; EdgeTimeout; EdgeApproval; EdgeBug; EdgeCancel]) as Hev.
  { intros []; simpl; set_solver. }
  destruct (nodes !! we_From e) as [f|] eqn:Ef; [destruct (nodes !! we_To e) as [t|] eqn:Et|].
  2,3: split; [intros [_ H]; done|intros [[_ (? & ? & ? & ? & _)] _]; congruence].
  rewrite !rbind_unit_Ok, !check_each_reject, !reject_tt, ValidatePredicate_iff, pred_ok_wf, validateEdgeContract_iff, Hev.
  rewrite !andb_false_iff, !Z.ltb_ge, negb_false_iff, bool_decide_eq_false, bool_decide_eq_true. split.
  - intros (? & Hs & ? & ? & ? & Hl & Hfan & ? & ? & ?). split; [|done]. split; try done.
    + by exists f, t.
    + intros [?|?]; [destruct Hs|destruct Hl]; done.
    + intros Hfo. destruct Hfan; [congruence|done].
  - intros [[? (f' & t' & Hf & Ht & ?) ? ? Hb ? Hfo ?] ?].
    simplify_eq/=.
    split_and!; try done.
    + destruct (decide (we_From e = we_To e)); [right; by apply Hb; left|by left].
    + destruct (decide (we_LoopGroup e = "")); [by left|right; by apply Hb; right].
    + destruct (we_FanOut e); [right; by apply Hfo|by left].
Qed.

(** ** The loops *)

Lemma validateNode_Ok nodes i n nodes' :
  validateNode nodes i n = Ok nodes' ↔
  node_ok n ∧ nodes !! wn_ID n = None ∧ nodes' = <[wn_ID n := n]> nodes.
Proof.
  unfold validateNode. rewrite !rbind_reject_Ok, !rbind_unit_Ok, <- (node_checks_iff i n),
    bool_decide_eq_false, <- eq_None_not_Some. naive_solver.
Qed.

Definition insert_nodes (m : node_map) (ns : list WorkflowNode) : node_map :=
  foldl (λ m n, <[wn_ID n := n]> m) m ns.

Lemma insert_nodes_dom m ns id :
  is_Some (insert_nodes m ns !! id) ↔ is_Some (m !! id) ∨ id ∈ wn_ID <$> ns.
Proof.
  revert m. induction ns as [|n ns IH]; intros m; simpl; [set_solver|].
  rewrite IH, lookup_insert_is_Some, elem_of_cons. destruct (decide (wn_ID n = id)); naive_solver.
Qed.

Lemma validateNodes_Ok ns i m m' :
  fold_each_from i validateNode m ns = Ok m' ↔
  Forall node_ok ns ∧ NoDup (wn_ID <$> ns) ∧ (∀ n, n ∈ ns → m !! wn_ID n = None) ∧ m' = insert_nodes m ns.
Proof.
  revert i m. induction ns as [|n ns IH]; intros i m; simpl.
  { split; [intros [= <-]|naive_solver]. split_and!; [constructor|constructor|set_solver|done]. }
  rewrite rbind_Ok. setoid_rewrite validateNode_Ok. setoid_rewrite IH.
  rewrite Forall_cons, NoDup_cons. split.
  - intros (m1 & (Hn & Hnew & ->) & Hall & Hnd & Hfresh & ->). split_and!; try done.
    + intros (n' & Heq & Hn')%list_elem_of_fmap. specialize (Hfresh n' Hn').
      rewrite Heq, lookup_insert_eq in Hfresh. done.
    + intros x [->|Hx]%elem_of_cons; [done|]. specialize (Hfresh x Hx).
      rewrite lookup_insert in Hfresh. by case_decide.
  - intros ([Hn Hall] & [Hni Hnd] & Hfresh & ->). exists (<[wn_ID n := n]> m).
    split_and!; try done; [apply Hfresh; left|].
    intros x Hx. rewrite lookup_insert_ne; [apply Hfresh; by right|].
    intros Heq. apply Hni. rewrite Heq. by apply list_elem_of_fmap_2.
Qed.

Lemma checkEndpoint_Ok nodes label seen i id s :
  checkEndpoint nodes label seen i id = Ok s ↔ is_Some (nodes !! id) ∧ id ∉ seen ∧ s = id :: seen.
Proof.
  unfold checkEndpoint. rewrite !rbind_reject_Ok, negb_false_iff, bool_decide_eq_true.
  rewrite <- (not_true_iff_false (contains seen id)), contains_spec. naive_solver.
Qed.

Lemma checkEndpoints_Ok nodes label ids seen i r :
  fold_each_from i (checkEndpoint nodes label) seen ids = Ok r ↔
  (∀ id, id ∈ ids → is_Some (nodes !! id) ∧ id ∉ seen) ∧ NoDup ids ∧ r = reverse ids ++ seen.
Proof.
  revert i seen. induction ids as [|id ids IH]; intros i seen; simpl.
  { split; [intros [= <-]|naive_solver]. split_and!; [set_solver|constructor|done]. }
  rewrite rbind_Ok. setoid_rewrite checkEndpoint_Ok. setoid_rewrite IH.
  rewrite NoDup_cons, reverse_cons, <- app_assoc. simpl. split.
  - intros (s & (Hk & Hni & ->) & Hall & Hnd & ->). split_and!; [| |done|done].
    + intros x [->|Hx]%elem_of_cons; [done|]. destruct (Hall x Hx) as [? Hns]. split; [done|].
      intros ?. apply Hns. by right.
    + intros Hid. destruct (Hall id Hid) as [_ []]. left.
  - intros (Hall & [Hni Hnd] & ->). exists (id :: seen).
    split_and!; [by apply Hall; left|by apply Hall; left|done| |done|done].
    intros x Hx. destruct (Hall x) as [? ?]; [by right|]. split; [done|].
    intros [->|?]%elem_of_cons; done.
Qed.

Lemma validateEndpoints_Ok nodes label ids r :
  validateEndpoints nodes label ids = Ok r ↔
  (∀ id, id ∈ ids → is_Some (nodes !! id)) ∧ NoDup ids ∧ r = reverse ids.
Proof.
  unfold validateEndpoints. rewrite checkEndpoints_Ok, app_nil_r.
  split; intros (H & ? & ?); (split_and!; [|done|done]); intros id Hid.
  - by apply H.
  - split; [by apply H|apply not_elem_of_nil].
Qed.

Lemma validateEdge_Ok nodes seen i e seen' :
  validateEdge nodes seen i e = Ok seen' ↔
  edge_ok nodes e ∧ we_ID e ∉ seen ∧ seen' = we_ID e :: seen.
Proof.
  unfold validateEdge. rewrite !rbind_reject_Ok.
  rewrite <- (not_true_iff_false (contains seen (we_ID e))), contains_spec.
  pose proof (edge_checks_iff nodes i e _ (Ok (we_ID e :: seen)) seen') as H.
  assert (Ok (we_ID e :: seen) = Ok seen' ↔ seen' = we_ID e :: seen) as He by naive_solver. tauto.
Qed.

Lemma validateEdges_Ok nodes es i seen r :
  fold_each_from i (validateEdge nodes) seen es = Ok r ↔
  Forall (edge_ok nodes) es ∧ NoDup (we_ID <$> es) ∧ (∀ e, e ∈ es → we_ID e ∉ seen)
  ∧ r = reverse (we_ID <$> es) ++ seen.
Proof.
  revert i seen. induction es as [|e es IH]; intros i seen; simpl.
  { split; [intros [= <-]|naive_solver]. split_and!; [constructor|constructor|set_solver|done]. }
  rewrite rbind_Ok. setoid_rewrite validateEdge_Ok. setoid_rewrite IH.
  rewrite Forall_cons, NoDup_cons, reverse_cons, <- app_assoc. simpl. split.
  - intros (s & (He & Hni & ->) & Hall & Hnd & Hf & ->). split_and!; try done.
    + intros (e' & Heq & He')%list_elem_of_fmap. apply (Hf e' He'). rewrite Heq. left.
    + intros x [->|Hx]%elem_of_cons; [done|]. intros ?. apply (Hf x Hx). by right.
  - intros ([He Hall] & [Hni Hnd] & Hf & ->). exists (we_ID e :: seen).
    split_and!; try done; [by apply Hf; left|].
    intros x Hx [Heq|?]%elem_of_cons; [|by apply (Hf x); [right|]].
    apply Hni. rewrite <- Heq. by apply list_elem_of_fmap_2.
Qed.

Lemma node_table_dom g id : is_Some (node_table g !! id) ↔ id ∈ wn_ID <$> g_Nodes g.
Proof.
  unfold node_table. fold (insert_nodes ∅ (g_Nodes g)). rewrite insert_nodes_dom, lookup_empty.
  split; [intros [[? ?]|?]; done|auto].
Qed.

(** ** Joins and repairs *)

Lemma incoming_count g id :
  length (succs (back_arcs g) id) = length (filter (λ e, we_To e = id) (g_Edges g)).
Proof.
  unfold succs, back_arcs. rewrite length_fmap. induction (g_Edges g) as [|e es IH]; [done|].
  rewrite fmap_cons, !filter_cons. simpl. repeat case_decide; simpl; congruence.
Qed.

Lemma repair_arc g x y :
  arc (repair_arcs g EdgeSuccess) x y ↔
  ∃ e, e ∈ g_Edges g ∧ we_From e = x ∧ we_To e = y ∧ we_On e = EdgeSuccess
       ∧ (we_LoopGroup e = "" ∨ we_MaxTraversals e ≠ 0%Z).
Proof.
  unfold arc, repair_arcs. rewrite list_elem_of_fmap. split.
  - intros (e & [= -> ->] & [[Hon Hl] He]%list_elem_of_filter). exists e. split_and!; try done.
    destruct (decide (we_LoopGroup e = "")); [by left|right]. naive_solver.
  - intros (e & He & <- & <- & Hon & Hl). exists e. split; [done|]. apply list_elem_of_filter.
    split; [|done]. split; [done|]. intros [? ?]. destruct Hl; done.
Qed.

Lemma repairPathExists_iff g x y : repairPathExists g x y EdgeSuccess = true ↔ repair_path g x y.
Proof.
  assert (rtc (arc (repair_arcs g EdgeSuccess)) x y ↔ repair_path g x y) as <-.
  { unfold repair_path. split; intros H; (eapply rtc_subrel; [|exact H]); intros a b; apply repair_arc. }
  unfold repairPathExists. case_bool_decide as Heq.
  - subst. split; [constructor|done].
  - rewrite path_search_spec. split; [apply tc_rtc|]. intros [->|?]%rtc_tc; done.
Qed.

Lemma remove_dups_singleton (l : list string) t : remove_dups l = [t] ↔ t ∈ l ∧ ∀ x, x ∈ l → x = t.
Proof.
  split.
  - intros H. split; [|intros x]; rewrite <- elem_of_remove_dups, H; set_solver.
  - intros [Hin Hall]. pose proof (NoDup_remove_dups l) as Hnd.
    assert (∀ x, x ∈ remove_dups l → x = t) as Hall' by (intros x; rewrite elem_of_remove_dups; auto).
    assert (t ∈ remove_dups l) as Hin' by by apply elem_of_remove_dups.
    destruct (remove_dups l) as [|a [|b r]]; [by apply elem_of_nil in Hin'| |].
    + f_equal. apply Hall'. left.
    + exfalso. apply NoDup_cons in Hnd as [Hni _]. apply Hni.
      rewrite (Hall' a) by left. rewrite (Hall' b) by (right; left). left.
Qed.

Lemma resolveRepairTarget_iff g n t :
  t ≠ "" ∧ resolveRepairTarget g n = t ↔ repair_target g n t.
Proof.
  unfold repair_target. cbn zeta.
  enough (t ≠ "" → (resolveRepairTarget g n = t ↔ _)) as H by (split; intros [Ht Hr]; (split; [exact Ht|]); apply (H Ht), Hr).
  unfold resolveRepairTarget. cbn zeta. intros Ht.
  destruct (decide (TrimSpace (rpol_TargetNodeID (wn_RepairPolicy n)) = "")) as [He|Hne].
  2: { rewrite (bool_decide_false (TrimSpace _ = "")) by done. simpl. naive_solver. }
  rewrite He, bool_decide_true by done. simpl.
  assert ((match success_targets g n with [target] => target | _ => "" end) = t ↔ success_targets g n = [t]) as ->.
  { destruct (success_targets g n) as [|a [|]]; naive_solver. }
  unfold success_targets. rewrite remove_dups_singleton, list_elem_of_fmap.
  setoid_rewrite list_elem_of_filter. setoid_rewrite list_elem_of_fmap. setoid_rewrite list_elem_of_filter.
  split.
  - intros [(e & -> & (? & ? & ?) & ?) Hall]. right. split_and!; [done|by exists e|].
    intros e' (? & ? & ? & ?). apply Hall. by exists e'.
  - intros [<-|(_ & (e & (? & ? & ? & ?) & <-) & Hall)]; [done|]. split; [by exists e|].
    intros x (e' & -> & (? & ? & ?) & ?). by apply Hall.
Qed.

Lemma validateNodeLinks_iff g i n : validateNodeLinks g (node_table g) i n = Ok tt ↔ links_ok g n.
Proof.
  unfold validateNodeLinks. cbn zeta.
  rewrite !rbind_unit_Ok, !check_each_reject, !reject_tt, !andb_false_iff, !Z.ltb_ge, incoming_count.
  rewrite bool_decide_eq_false, !negb_false_iff, !bool_decide_eq_true, node_table_dom.
  setoid_rewrite negb_false_iff. setoid_rewrite bool_decide_eq_true. setoid_rewrite node_table_dom.
  rewrite Forall_forall. split.
  - intros (Hq & Ht & Hv & Hr). split.
    + intros ? ?. destruct Hq as [[?|?]|?]; [done|lia|done].
    + intros ?. destruct Ht; done.
    + done.
    + intros Hk. rewrite (bool_decide_true _ Hk) in Hr. rewrite !rbind_reject_Ok, check_each_reject, Forall_forall in Hr.
      rewrite bool_decide_eq_false, negb_false_iff, repairPathExists_iff in Hr. destruct Hr as (Hne & Hp & Hall).
      exists (resolveRepairTarget g n). split; [by apply resolveRepairTarget_iff|]. split; [done|].
      intros v Hin. apply repairPathExists_iff. specialize (Hall v Hin). by apply negb_false_iff in Hall.
  - intros [Hq Ht Hv Hr]. split_and!.
    + destruct (decide (wn_JoinPolicy n = JoinQuorum)); [|by left; left].
      destruct (Z.ltb_spec 0 (wn_JoinQuorum n)); [right; by apply Hq|by left; right].
    + destruct (decide (rpol_TargetNodeID (wn_RepairPolicy n) = "")); [by left|right; by apply Ht].
    + done.
    + case_bool_decide as Hk; [|done]. destruct (Hr Hk) as (t & [Hne Heq]%resolveRepairTarget_iff & Hp & Hall).
      rewrite !rbind_reject_Ok, check_each_reject, Forall_forall, bool_decide_eq_false, negb_false_iff,
        repairPathExists_iff, Heq. split_and!; [done|done|].
      intros v Hin. rewrite negb_false_iff, repairPathExists_iff. by apply Hall.
Qed.

Lemma validateLinks_Ok g ns i :
  check_each_from i (validateNodeLinks g (node_table g)) ns = Ok tt ↔ Forall (links_ok g) ns.
Proof.
  revert i. induction ns as [|n ns IH]; intros i; simpl; [naive_solver|].
  by rewrite rbind_unit_Ok, IH, validateNodeLinks_iff, Forall_cons.
Qed.

Lemma arc_back g x y : arc (back_arcs g) y x ↔ arc (arcs g) x y.
Proof.
  unfold arc, arcs, back_arcs. rewrite !list_elem_of_fmap.
  split; intros (e & [= -> ->] & He); by exists e.
Qed.

Lemma reach_back g x y : reach (back_arcs g) y x ↔ reach (arcs g) x y.
Proof.
  unfold reach. split; intros H.
  - induction H as [|a b c Hab _ IH]; [constructor|]. eapply rtc_r; [exact IH|]. by apply arc_back.
  - induction H as [|a b c Hab _ IH]; [constructor|]. eapply rtc_r; [exact IH|]. by apply arc_back.
Qed.

(** ** The decision procedure is exact *)

Section decide.
Context `{!MapRange}.

Lemma require_all_Ok what set nodes :
    require_all what set nodes = Ok tt ↔ ∀ id, is_Some (nodes !! id) → id ∈ set.
  Proof.
    unfold require_all. rewrite check_each_reject, Forall_forall.
    setoid_rewrite elem_of_range_keys. setoid_rewrite negb_false_iff.
    by setoid_rewrite bool_decide_eq_true.
  Qed.

Lemma loop_without_human_spec g e :
    loop_without_human g (node_table g) e = false ↔ cyclic_loop_has_human g e.
  Proof.
    unfold loop_without_human, cyclic_loop_has_human, pathExists, hasHumanExit.
    destruct (search (arcs g) (λ id, id ≟ we_From e) (we_To e)) eqn:Es.
    2: { rewrite andb_false_r. split; [intros _ _ _ Hr|done]. exfalso.
         apply not_true_iff_false in Es. apply Es, search_spec. exists (we_From e).
         by rewrite bool_decide_eq_true. }
    assert (reach (arcs g) (we_To e) (we_From e)) as Hr.
    { apply search_spec in Es as (x & Hx & ->%bool_decide_eq_true). done. }
    rewrite andb_true_r, andb_false_iff, andb_false_iff, !negb_false_iff, Z.ltb_ge, bool_decide_eq_true,
      search_spec. split.
    - intros [[?|?]|(x & Hx & Hk)] H1 H2 _; [lia|done|]. destruct (node_table g !! x) as [n|] eqn:En; [|done].
      apply bool_decide_eq_true in Hk. eauto.
    - intros Hh. destruct (decide (0 < we_MaxTraversals e)%Z); [|left; left; lia].
      destruct (decide (we_LoopGroup e = "")); [by left; right|]. right.
      destruct Hh as (h & nd & Hh & Hn & Hk); [done|done|done|]. exists h. rewrite Hn.
      by rewrite bool_decide_eq_true.
  Qed.

Lemma unbounded_arc g x y :
    arc (arcs_of (unbounded_edges g)) x y → ∃ e, e ∈ g_Edges g ∧ we_From e = x ∧ we_To e = y.
  Proof.
    unfold arc, arcs_of, unbounded_edges. rewrite <- list_fmap_compose, list_elem_of_fmap.
    intros (e & [= -> ->] & [_ He]%list_elem_of_filter). eauto.
  Qed.

Lemma edge_ok_ends nodes e :
    edge_ok nodes e → is_Some (nodes !! we_From e) ∧ is_Some (nodes !! we_To e).
  Proof. intros He. destruct (ek_ends _ _ He) as (f & t & -> & -> & _). eauto. Qed.

Lemma find_cycle_iff g :
    Forall (edge_ok (node_table g)) (g_Edges g) →
    (∃ c, find_cycle (unbounded_edges g) (wn_ID <$> g_Nodes g) = DfsOk c) ↔ unbounded_acyclic g.
  Proof.
    intros He. rewrite Forall_forall in He.
    assert (∀ x y, arc (arcs_of (unbounded_edges g)) x y →
              x ∈ wn_ID <$> g_Nodes g ∧ y ∈ wn_ID <$> g_Nodes g) as Hin.
    { intros x y (e & Hine & <- & <-)%unbounded_arc. rewrite <- !node_table_dom.
      by apply edge_ok_ends, He. }
    split.
    - intros [c Hc]. refine (find_cycle_ok _ _ _ _ Hc). intros x y Hxy. by apply (Hin x y).
    - intros Hac. destruct (find_cycle _ _) as [c|eid|] eqn:E; [eauto| |].
      + apply find_cycle_bad in E as (f & t & Hft & Hr). exfalso. apply (Hac f).
        eapply tc_rtc_r; [|exact Hr]. apply tc_once. unfold arc, arcs_of.
        apply list_elem_of_fmap. by exists (eid, (f, t)).
      + exfalso. refine (find_cycle_decides _ _ _ E). intros x y Hxy. by apply (Hin x y).
  Qed.

Lemma validateAcyclic_Ok g :
    Forall (edge_ok (node_table g)) (g_Edges g) →
    validateAcyclic g (node_table g) = Ok tt ↔
    Forall (cyclic_loop_has_human g) (g_Edges g) ∧ unbounded_acyclic g.
  Proof.
    intros He. unfold validateAcyclic. rewrite rbind_unit_Ok, check_each_reject, <- find_cycle_iff by done.
    setoid_rewrite loop_without_human_spec. apply and_iff_compat_l.
    destruct (find_cycle _ _); naive_solver.
  Qed.

Lemma node_table_elem g id : is_Some (node_table g !! id) ↔ ∃ n, n ∈ g_Nodes g ∧ wn_ID n = id.
  Proof. rewrite node_table_dom, list_elem_of_fmap. naive_solver. Qed.

  (** The checks after the node table is built, without their diagnostics. *)
Lemma ValidateGraph_tail g :
    (reject (bool_decide (g_EntryNodeIDs g = []) || bool_decide (g_ExitNodeIDs g = []))
       (Errorf "graph.entry_exit.required" []) ;;;
     validateEndpoints (node_table g) "entry_node_ids" (g_EntryNodeIDs g) ;;;
     validateEndpoints (node_table g) "exit_node_ids" (g_ExitNodeIDs g) ;;;
     fold_each_from 0 (validateEdge (node_table g)) [] (g_Edges g) ;;;
     check_each (validateNodeLinks g (node_table g)) (g_Nodes g) ;;;
     require_all "unreachable" (reachable_set (arcs g) (g_EntryNodeIDs g)) (node_table g) ;;;
     require_all "no_exit_path" (reachable_set (back_arcs g) (g_ExitNodeIDs g)) (node_table g) ;;;
     validateAcyclic g (node_table g)) = Ok tt ↔
    (g_EntryNodeIDs g ≠ [] ∧ g_ExitNodeIDs g ≠ [])
    ∧ (NoDup (g_EntryNodeIDs g) ∧ ∀ id, id ∈ g_EntryNodeIDs g → id ∈ wn_ID <$> g_Nodes g)
    ∧ (NoDup (g_ExitNodeIDs g) ∧ ∀ id, id ∈ g_ExitNodeIDs g → id ∈ wn_ID <$> g_Nodes g)
    ∧ (Forall (edge_ok (node_table g)) (g_Edges g) ∧ NoDup (we_ID <$> g_Edges g))
    ∧ Forall (links_ok g) (g_Nodes g)
    ∧ (∀ n, n ∈ g_Nodes g → reach_from (arcs g) (g_EntryNodeIDs g) (wn_ID n))
    ∧ (∀ n, n ∈ g_Nodes g → ∃ x, x ∈ g_ExitNodeIDs g ∧ reach (arcs g) (wn_ID n) x)
    ∧ validateAcyclic g (node_table g) = Ok tt.
  Proof.
    rewrite rbind_reject_Ok, !rbind_any_Ok.
    rewrite orb_false_iff, !bool_decide_eq_false. setoid_rewrite validateEndpoints_Ok.
    setoid_rewrite validateEdges_Ok.
    assert (∀ P, (∃ a : unit, P a) ↔ P tt) as Hu by (intros P; split; [intros [[] ?]; done|eauto]).
    rewrite !Hu, validateLinks_Ok, !require_all_Ok.
    setoid_rewrite elem_of_reachable_set. setoid_rewrite node_table_dom.
    assert (∀ P : string → Prop, (∀ id, id ∈ wn_ID <$> g_Nodes g → P id) ↔ ∀ n, n ∈ g_Nodes g → P (wn_ID n)) as Hn.
    { intros P. split; [intros HP n Hn; by apply HP, list_elem_of_fmap_2|].
      intros HP id (n & -> & Hid)%list_elem_of_fmap. by apply HP. }
    rewrite !Hn. unfold reach_from at 2. setoid_rewrite reach_back. split.
    - intros ([He1 He2] & (r1 & H1 & H1' & _) & (r2 & H2 & H2' & _) & (r3 & H3 & H3' & _) & H4 & H5 & H6 & H7).
      by split_and!.
    - intros ([He1 He2] & [H1' H1] & [H2' H2] & [H3 H3'] & H4 & H5 & H6 & H7).
      split_and!; try done; eexists; split_and!; try done.
      intros; apply not_elem_of_nil.
  Qed.

  (** [ValidateGraph] accepts exactly the well-formed graphs. *)
Lemma ValidateGraph_decides g : ValidateGraph g = Ok tt ↔ GraphWF g.
  Proof.
    unfold ValidateGraph. rewrite !rbind_reject_Ok, rbind_Ok. setoid_rewrite validateNodes_Ok.
    rewrite bool_decide_eq_false, !Nat.ltb_ge, Z.ltb_ge. split.
    - intros (Hid & Hne & Hl1 & Hl2 & Hv & m & (Hn & Hnd & _ & ->) & Htail).
      apply ValidateGraph_tail in Htail as (He & H1 & H2 & [H3 H3'] & H4 & H5 & H6 & H7).
      apply validateAcyclic_Ok in H7 as [H7 H8]; [|done].
      split; try done. destruct (g_Nodes g); [done|]. simpl in *. lia.
    - intros [Hid [[Hl0 Hl1] Hl2] Hv Hn Hnd He H1 H2 H3 H3' H4 H5 H6 H7 H8].
      split_and!; try done.
      { intros Hnil. rewrite Hnil in Hl0. simpl in Hl0. lia. }
      exists (node_table g). split_and!; [done|done| |done|].
      + intros n _. apply lookup_empty.
      + apply ValidateGraph_tail. destruct He, H1, H2. split_and!; try done. by apply validateAcyclic_Ok.
  Qed.
End decide.

(** * The properties of graph and predicate validation

    The claims about validate.go, each with the concrete graph that witnesses
    it: an agent with a bounded repair loop back to itself and a human exit. *)

(** ** Paths as sequences of edges *)

Inductive edge_path (g : WorkflowGraph) : string → list WorkflowEdge → string → Prop :=
  | edge_path_nil x : edge_path g x [] x
  | edge_path_cons e es y :
      e ∈ g_Edges g → edge_path g (we_To e) es y → edge_path g (we_From e) (e :: es) y.

Lemma reach_edge_path g x y : reach (arcs g) x y → ∃ es, edge_path g x es y.
Proof.
  induction 1 as [x|x y z Hxy _ [es IH]]; [exists []; constructor|].
  unfold arc, arcs in Hxy. apply list_elem_of_fmap in Hxy as (e & [= -> ->] & He).
  exists (e :: es). by constructor.
Qed.

(** A path of edges without a limit is a path of the arcs the cycle search sees. *)
Lemma edge_path_unbounded g x es y :
  edge_path g x es y → Forall (λ e, we_MaxTraversals e < 1)%Z es →
  rtc (arc (arcs_of (unbounded_edges g))) x y ∧ (es ≠ [] → tc (arc (arcs_of (unbounded_edges g))) x y).
Proof.
  induction 1 as [x|e es y He _ IH]; intros Hall; [split; [constructor|done]|].
  apply Forall_cons in Hall as [Hlt Hall]. destruct (IH Hall) as [Hr _].
  assert (arc (arcs_of (unbounded_edges g)) (we_From e) (we_To e)) as Ha.
  { unfold arc, arcs_of, unbounded_edges. rewrite <- list_fmap_compose, list_elem_of_fmap.
    exists e. split; [done|]. by apply list_elem_of_filter. }
  split; [by eapply rtc_l|]. intros _. eapply tc_rtc_r; [by apply tc_once|done].
Qed.

(** ** A concrete graph *)

Definition sample_node (id : string) (kind : NodeKind) : WorkflowNode := {|
  wn_ID := id; wn_Kind := kind;
  wn_AgentRef := if kind ≟ NodeAgent then Some {| vr_ID := "agent"; vr_Revision := 1; vr_Version := 0 |} else None;
  wn_SquadRef := None; wn_InputContract := {| sr_ID := ""; sr_Version := 0 |};
  wn_OutputContract := {| sr_ID := ""; sr_Version := 0 |};
  wn_ContextPolicy := {| cp_Required := []; cp_Optional := []; cp_MaxTokens := 0 |};
  wn_ToolPolicy := {| tp_Allowed := []; tp_Denied := []; tp_Network := false; tp_SecretScopes := [] |};
  wn_RetryPolicy := {| rt_MaxAttempts := 3; rt_Backoff := Minute; rt_RetryOn := [] |};
  wn_Timeout := 0; wn_Budget := zero_Budget; wn_JoinPolicy := JoinUnset; wn_JoinQuorum := 0;
  wn_JoinFailurePolicy := "";
  wn_GatePolicy := {| gp_Predicate := zero_Predicate; gp_RequiredEvidence := []; gp_FailureCode := "" |};
  wn_MergePolicy := {| mg_ConflictPolicy := ""; mg_KeyFields := []; mg_RequireEvidence := false |};
  wn_RepairPolicy := {| rpol_TargetNodeID := ""; rpol_Scope := []; rpol_VerificationNodeIDs := [];
                        rpol_MaxRounds := 0; rpol_Budget := zero_Budget |} |}.

Definition sample_edge (id from to : string) (on : EdgeEvent) (limit : Z) : WorkflowEdge := {|
  we_ID := id; we_From := from; we_To := to; we_On := on; we_Predicate := zero_Predicate;
  we_Priority := 0; we_MaxTraversals := limit; we_RequiredEvidence := [];
  we_LoopGroup := if (0 <? limit)%Z then "loop" else ""; we_FanOut := false |}.

(** build -> qa -> approve (human), with a bounded bug edge qa -> build. *)
Definition sample_graph : WorkflowGraph := {|
  g_ID := "graph"; g_Version := 1; g_EntryNodeIDs := ["build"]; g_ExitNodeIDs := ["approve"];
  g_Nodes := [sample_node "build" NodeAgent; sample_node "qa" NodeAgent; sample_node "approve" NodeHuman];
  g_Edges := [sample_edge "e1" "build" "qa" EdgeSuccess 0; sample_edge "e2" "qa" "approve" EdgeSuccess 0;
              sample_edge "e3" "qa" "build" EdgeBug 2];
  g_ValidationDigest := "" |}.

Lemma sample_graph_valid : @ValidateGraph canonical_range sample_graph = Ok tt.
Proof. vm_compute. reflexivity. Qed.

(** The same graph with the feedback edge left unbounded is refused, and the
    diagnostic names the edge that closes the cycle. *)
Definition unbounded_graph : WorkflowGraph := {|
  g_ID := "graph"; g_Version := 1; g_EntryNodeIDs := ["build"]; g_ExitNodeIDs := ["approve"];
  g_Nodes := g_Nodes sample_graph;
  g_Edges := [sample_edge "e1" "build" "qa" EdgeSuccess 0; sample_edge "e2" "qa" "approve" EdgeSuccess 0;
              sample_edge "e3" "qa" "build" EdgeBug 0];
  g_ValidationDigest := "" |}.

Example unbounded_loop_refused :
  @ValidateGraph canonical_range unbounded_graph = Err (Errorf "graph.edges.%s.max_traversals.required" ["e3"]).
Proof. vm_compute. reflexivity. Qed.

(** ** Claims *)

(** C4: [ValidateGraph] accepts a graph exactly when it is well formed, where
    well-formedness ([GraphWF]) is stated field by field, without the
    validators: sizes and version within limits; every node of a known kind,
    with pinned references, non-negative limits, known join and merge policies,
    a policy of another kind left empty, and a repair with rounds, verification
    nodes and another target ([node_ok]); every edge between known nodes with a
    known event, a bounded limit where it loops, well-formed predicate and
    matching schemas ([edge_ok], [pred_wf], [contract_ok]); quorums within the
    incoming edges and repair targets reachable ([links_ok]); unique identifiers,
    every node reachable from an entry and leading to an exit, every loop group
    with a human exit, and no cycle of edges without a traversal limit.  The
    three fuelled searches never run out of fuel. *)
Theorem ValidateGraph_exact `{!MapRange} g : ValidateGraph g = Ok tt ↔ GraphWF g.
Proof. apply ValidateGraph_decides. Qed.

Lemma ValidateGraph_exact_witness : GraphWF sample_graph ∧ ¬ GraphWF unbounded_graph.
Proof.
  split.
  - apply (@ValidateGraph_exact canonical_range sample_graph). exact sample_graph_valid.
  - intros H. apply (@ValidateGraph_exact canonical_range unbounded_graph) in H.
    rewrite unbounded_loop_refused in H. discriminate.
Defined.

(** In an accepted graph every cycle, taken as the sequence of edges along
    it, crosses at least one edge with a traversal limit. *)
Theorem ValidateGraph_cycles_bounded `{!MapRange} g x e es :
  ValidateGraph g = Ok tt → edge_path g x (e :: es) x →
  ∃ b, b ∈ e :: es ∧ (1 ≤ we_MaxTraversals b)%Z.
Proof.
  intros Hok%ValidateGraph_decides Hp.
  destruct (decide (Exists (λ b, 1 ≤ we_MaxTraversals b)%Z (e :: es))) as [Hex|Hno].
  { by apply Exists_exists in Hex. }
  exfalso. apply (wf_acyclic g Hok x), (edge_path_unbounded g x (e :: es) x Hp); [|done].
  apply Forall_forall. intros b Hb. apply Z.lt_nge. intros Hge. apply Hno, Exists_exists. eauto.
Qed.

Definition sample_cycle_e1 := sample_edge "e1" "build" "qa" EdgeSuccess 0.
Definition sample_cycle_e3 := sample_edge "e3" "qa" "build" EdgeBug 2.
Lemma sample_cycle : edge_path sample_graph "build" [sample_cycle_e1; sample_cycle_e3] "build".
Proof.
  apply (edge_path_cons sample_graph sample_cycle_e1); [by left|].
  apply (edge_path_cons sample_graph sample_cycle_e3); [do 2 right; by left|]. constructor.
Qed.

Lemma ValidateGraph_cycles_bounded_witness :
  ∃ b, b ∈ [sample_cycle_e1; sample_cycle_e3] ∧ (1 ≤ we_MaxTraversals b)%Z.
Proof.
  apply (@ValidateGraph_cycles_bounded canonical_range sample_graph "build" sample_cycle_e1 [sample_cycle_e3]).
  - exact sample_graph_valid.
  - exact sample_cycle.
Defined.

(** Whether a graph is accepted does not depend on the order in which Go
    iterates over its node map (only which of several offending nodes the
    diagnostic names can). *)
Theorem ValidateGraph_order_independent (r1 r2 : MapRange) g :
  @ValidateGraph r1 g = Ok tt ↔ @ValidateGraph r2 g = Ok tt.
Proof. by rewrite !ValidateGraph_decides. Qed.

(** [repairPathExists] answers true exactly when the target is the source
    itself or can be reached along edges of the given event that are not
    loop-group edges without a traversal limit. *)
Theorem repairPathExists_exact g from to on :
  repairPathExists g from to on = true ↔ rtc (arc (repair_arcs g on)) from to.
Proof.
  unfold repairPathExists. case_bool_decide as Heq.
  - subst. split; [constructor|done].
  - rewrite path_search_spec. split; [apply tc_rtc|].
    intros [->|?]%rtc_tc; done.
Qed.

(** [EvaluatePredicate] yields a boolean, and in particular never panics on
    a missing child, exactly for the predicates the validator accepts, whatever
    the fields; and it never recurses through more than nine operators. *)
Theorem EvaluatePredicate_total p fields :
  ((∃ b, EvaluatePredicate p fields = Ok b) ↔ ValidatePredicate p 0 "predicate" = Ok tt)
  ∧ (ValidatePredicate p 0 "predicate" = Ok tt → operator_depth p ≤ 9).
Proof.
  rewrite ValidatePredicate_iff. split; [apply EvaluatePredicate_Ok_iff|].
  intros H%operator_depth_bound. lia.
Qed.
