(* ===== verification/ProjectionData.v ===== *)
(** * ProjectionData: the state of a plan's execution

    [NodeProjection], [PlanProjection] and [TransitionInput] of
    internal/orchestration/transition.go, with one setter per field the code
    assigns.  The model's projections have allocated maps: [NewProjection]
    builds them and every repository hands out a [cloneProjection], which
    allocates them again. *)
From stdpp Require Import base strings gmap list.
From Stdlib Require Import ZArith Lia.
From S2P Require Import Prelude GoLib GoValue GoJson ContextModel OrchModel.

Record NodeProjection := {
  np_NodeID : string; np_Status : AttemptStatus; np_CurrentAttempt : string; np_AttemptNo : Z;
  np_RetryAt : option Time; np_RetryCount : Z; np_ReadyEdgeIDs : list string }.

Definition np_set_Status v (r : NodeProjection) : NodeProjection :=
  {| np_NodeID := np_NodeID r; np_Status := v; np_CurrentAttempt := np_CurrentAttempt r;
     np_AttemptNo := np_AttemptNo r; np_RetryAt := np_RetryAt r; np_RetryCount := np_RetryCount
     r; np_ReadyEdgeIDs := np_ReadyEdgeIDs r |}.
Definition np_set_CurrentAttempt v (r : NodeProjection) : NodeProjection :=
  {| np_NodeID := np_NodeID r; np_Status := np_Status r; np_CurrentAttempt := v; np_AttemptNo :=
     np_AttemptNo r; np_RetryAt := np_RetryAt r; np_RetryCount := np_RetryCount r;
     np_ReadyEdgeIDs := np_ReadyEdgeIDs r |}.
Definition np_set_AttemptNo v (r : NodeProjection) : NodeProjection :=
  {| np_NodeID := np_NodeID r; np_Status := np_Status r; np_CurrentAttempt := np_CurrentAttempt
     r; np_AttemptNo := v; np_RetryAt := np_RetryAt r; np_RetryCount := np_RetryCount r;
     np_ReadyEdgeIDs := np_ReadyEdgeIDs r |}.
Definition np_set_RetryAt v (r : NodeProjection) : NodeProjection :=
  {| np_NodeID := np_NodeID r; np_Status := np_Status r; np_CurrentAttempt := np_CurrentAttempt
     r; np_AttemptNo := np_AttemptNo r; np_RetryAt := v; np_RetryCount := np_RetryCount r;
     np_ReadyEdgeIDs := np_ReadyEdgeIDs r |}.
Definition np_set_RetryCount v (r : NodeProjection) : NodeProjection :=
  {| np_NodeID := np_NodeID r; np_Status := np_Status r; np_CurrentAttempt := np_CurrentAttempt
     r; np_AttemptNo := np_AttemptNo r; np_RetryAt := np_RetryAt r; np_RetryCount := v;
     np_ReadyEdgeIDs := np_ReadyEdgeIDs r |}.
Definition np_set_ReadyEdgeIDs v (r : NodeProjection) : NodeProjection :=
  {| np_NodeID := np_NodeID r; np_Status := np_Status r; np_CurrentAttempt := np_CurrentAttempt
     r; np_AttemptNo := np_AttemptNo r; np_RetryAt := np_RetryAt r; np_RetryCount :=
     np_RetryCount r; np_ReadyEdgeIDs := v |}.

Record PlanProjection := {
  pp_PlanID : string; pp_Revision : Z; pp_Status : PlanStatus; pp_TerminalOutcome : string;
  pp_Nodes : gmap string NodeProjection; pp_Attempts : gmap string NodeAttempt; pp_Traversals :
  gmap string Z; pp_Decisions : list FeedbackDecision; pp_RepairPlans : gmap string RepairPlan;
  pp_Idempotency : gmap string string; pp_TokenUsage : Z; pp_ToolCalls : Z; pp_CostCents : Z }.

Definition pp_set_Status v (r : PlanProjection) : PlanProjection :=
  {| pp_PlanID := pp_PlanID r; pp_Revision := pp_Revision r; pp_Status := v; pp_TerminalOutcome
     := pp_TerminalOutcome r; pp_Nodes := pp_Nodes r; pp_Attempts := pp_Attempts r;
     pp_Traversals := pp_Traversals r; pp_Decisions := pp_Decisions r; pp_RepairPlans :=
     pp_RepairPlans r; pp_Idempotency := pp_Idempotency r; pp_TokenUsage := pp_TokenUsage r;
     pp_ToolCalls := pp_ToolCalls r; pp_CostCents := pp_CostCents r |}.
Definition pp_set_TerminalOutcome v (r : PlanProjection) : PlanProjection :=
  {| pp_PlanID := pp_PlanID r; pp_Revision := pp_Revision r; pp_Status := pp_Status r;
     pp_TerminalOutcome := v; pp_Nodes := pp_Nodes r; pp_Attempts := pp_Attempts r;
     pp_Traversals := pp_Traversals r; pp_Decisions := pp_Decisions r; pp_RepairPlans :=
     pp_RepairPlans r; pp_Idempotency := pp_Idempotency r; pp_TokenUsage := pp_TokenUsage r;
     pp_ToolCalls := pp_ToolCalls r; pp_CostCents := pp_CostCents r |}.
Definition pp_set_Nodes v (r : PlanProjection) : PlanProjection :=
  {| pp_PlanID := pp_PlanID r; pp_Revision := pp_Revision r; pp_Status := pp_Status r;
     pp_TerminalOutcome := pp_TerminalOutcome r; pp_Nodes := v; pp_Attempts := pp_Attempts r;
     pp_Traversals := pp_Traversals r; pp_Decisions := pp_Decisions r; pp_RepairPlans :=
     pp_RepairPlans r; pp_Idempotency := pp_Idempotency r; pp_TokenUsage := pp_TokenUsage r;
     pp_ToolCalls := pp_ToolCalls r; pp_CostCents := pp_CostCents r |}.
Definition pp_set_Attempts v (r : PlanProjection) : PlanProjection :=
  {| pp_PlanID := pp_PlanID r; pp_Revision := pp_Revision r; pp_Status := pp_Status r;
     pp_TerminalOutcome := pp_TerminalOutcome r; pp_Nodes := pp_Nodes r; pp_Attempts := v;
     pp_Traversals := pp_Traversals r; pp_Decisions := pp_Decisions r; pp_RepairPlans :=
     pp_RepairPlans r; pp_Idempotency := pp_Idempotency r; pp_TokenUsage := pp_TokenUsage r;
     pp_ToolCalls := pp_ToolCalls r; pp_CostCents := pp_CostCents r |}.
Definition pp_set_Traversals v (r : PlanProjection) : PlanProjection :=
  {| pp_PlanID := pp_PlanID r; pp_Revision := pp_Revision r; pp_Status := pp_Status r;
     pp_TerminalOutcome := pp_TerminalOutcome r; pp_Nodes := pp_Nodes r; pp_Attempts :=
     pp_Attempts r; pp_Traversals := v; pp_Decisions := pp_Decisions r; pp_RepairPlans :=
     pp_RepairPlans r; pp_Idempotency := pp_Idempotency r; pp_TokenUsage := pp_TokenUsage r;
     pp_ToolCalls := pp_ToolCalls r; pp_CostCents := pp_CostCents r |}.
Definition pp_set_Decisions v (r : PlanProjection) : PlanProjection :=
  {| pp_PlanID := pp_PlanID r; pp_Revision := pp_Revision r; pp_Status := pp_Status r;
     pp_TerminalOutcome := pp_TerminalOutcome r; pp_Nodes := pp_Nodes r; pp_Attempts :=
     pp_Attempts r; pp_Traversals := pp_Traversals r; pp_Decisions := v; pp_RepairPlans :=
     pp_RepairPlans r; pp_Idempotency := pp_Idempotency r; pp_TokenUsage := pp_TokenUsage r;
     pp_ToolCalls := pp_ToolCalls r; pp_CostCents := pp_CostCents r |}.
Definition pp_set_RepairPlans v (r : PlanProjection) : PlanProjection :=
  {| pp_PlanID := pp_PlanID r; pp_Revision := pp_Revision r; pp_Status := pp_Status r;
     pp_TerminalOutcome := pp_TerminalOutcome r; pp_Nodes := pp_Nodes r; pp_Attempts :=
     pp_Attempts r; pp_Traversals := pp_Traversals r; pp_Decisions := pp_Decisions r;
     pp_RepairPlans := v; pp_Idempotency := pp_Idempotency r; pp_TokenUsage := pp_TokenUsage r;
     pp_ToolCalls := pp_ToolCalls r; pp_CostCents := pp_CostCents r |}.
Definition pp_set_Idempotency v (r : PlanProjection) : PlanProjection :=
  {| pp_PlanID := pp_PlanID r; pp_Revision := pp_Revision r; pp_Status := pp_Status r;
     pp_TerminalOutcome := pp_TerminalOutcome r; pp_Nodes := pp_Nodes r; pp_Attempts :=
     pp_Attempts r; pp_Traversals := pp_Traversals r; pp_Decisions := pp_Decisions r;
     pp_RepairPlans := pp_RepairPlans r; pp_Idempotency := v; pp_TokenUsage := pp_TokenUsage r;
     pp_ToolCalls := pp_ToolCalls r; pp_CostCents := pp_CostCents r |}.
Definition pp_set_TokenUsage v (r : PlanProjection) : PlanProjection :=
  {| pp_PlanID := pp_PlanID r; pp_Revision := pp_Revision r; pp_Status := pp_Status r;
     pp_TerminalOutcome := pp_TerminalOutcome r; pp_Nodes := pp_Nodes r; pp_Attempts :=
     pp_Attempts r; pp_Traversals := pp_Traversals r; pp_Decisions := pp_Decisions r;
     pp_RepairPlans := pp_RepairPlans r; pp_Idempotency := pp_Idempotency r; pp_TokenUsage := v;
     pp_ToolCalls := pp_ToolCalls r; pp_CostCents := pp_CostCents r |}.
Definition pp_set_ToolCalls v (r : PlanProjection) : PlanProjection :=
  {| pp_PlanID := pp_PlanID r; pp_Revision := pp_Revision r; pp_Status := pp_Status r;
     pp_TerminalOutcome := pp_TerminalOutcome r; pp_Nodes := pp_Nodes r; pp_Attempts :=
     pp_Attempts r; pp_Traversals := pp_Traversals r; pp_Decisions := pp_Decisions r;
     pp_RepairPlans := pp_RepairPlans r; pp_Idempotency := pp_Idempotency r; pp_TokenUsage :=
     pp_TokenUsage r; pp_ToolCalls := v; pp_CostCents := pp_CostCents r |}.
Definition pp_set_CostCents v (r : PlanProjection) : PlanProjection :=
  {| pp_PlanID := pp_PlanID r; pp_Revision := pp_Revision r; pp_Status := pp_Status r;
     pp_TerminalOutcome := pp_TerminalOutcome r; pp_Nodes := pp_Nodes r; pp_Attempts :=
     pp_Attempts r; pp_Traversals := pp_Traversals r; pp_Decisions := pp_Decisions r;
     pp_RepairPlans := pp_RepairPlans r; pp_Idempotency := pp_Idempotency r; pp_TokenUsage :=
     pp_TokenUsage r; pp_ToolCalls := pp_ToolCalls r; pp_CostCents := v |}.

Definition na_set_Lease v (r : NodeAttempt) : NodeAttempt :=
  {| na_ID := na_ID r; na_PlanID := na_PlanID r; na_NodeID := na_NodeID r; na_AttemptNo :=
     na_AttemptNo r; na_RunID := na_RunID r; na_SessionID := na_SessionID r; na_WorkDir :=
     na_WorkDir r; na_Lease := v; na_IdempotencyKey := na_IdempotencyKey r; na_InputManifest :=
     na_InputManifest r; na_OutputArtifacts := na_OutputArtifacts r; na_Result := na_Result r;
     na_RepairState := na_RepairState r; na_RepairPlanID := na_RepairPlanID r; na_Status :=
     na_Status r; na_FailureReason := na_FailureReason r; na_ParentAttemptID :=
     na_ParentAttemptID r; na_RetryOf := na_RetryOf r; na_ChildPlanID := na_ChildPlanID r;
     na_StartedAt := na_StartedAt r; na_FinishedAt := na_FinishedAt r |}.
Definition na_set_OutputArtifacts v (r : NodeAttempt) : NodeAttempt :=
  {| na_ID := na_ID r; na_PlanID := na_PlanID r; na_NodeID := na_NodeID r; na_AttemptNo :=
     na_AttemptNo r; na_RunID := na_RunID r; na_SessionID := na_SessionID r; na_WorkDir :=
     na_WorkDir r; na_Lease := na_Lease r; na_IdempotencyKey := na_IdempotencyKey r;
     na_InputManifest := na_InputManifest r; na_OutputArtifacts := v; na_Result := na_Result r;
     na_RepairState := na_RepairState r; na_RepairPlanID := na_RepairPlanID r; na_Status :=
     na_Status r; na_FailureReason := na_FailureReason r; na_ParentAttemptID :=
     na_ParentAttemptID r; na_RetryOf := na_RetryOf r; na_ChildPlanID := na_ChildPlanID r;
     na_StartedAt := na_StartedAt r; na_FinishedAt := na_FinishedAt r |}.
Definition na_set_Result v (r : NodeAttempt) : NodeAttempt :=
  {| na_ID := na_ID r; na_PlanID := na_PlanID r; na_NodeID := na_NodeID r; na_AttemptNo :=
     na_AttemptNo r; na_RunID := na_RunID r; na_SessionID := na_SessionID r; na_WorkDir :=
     na_WorkDir r; na_Lease := na_Lease r; na_IdempotencyKey := na_IdempotencyKey r;
     na_InputManifest := na_InputManifest r; na_OutputArtifacts := na_OutputArtifacts r;
     na_Result := v; na_RepairState := na_RepairState r; na_RepairPlanID := na_RepairPlanID r;
     na_Status := na_Status r; na_FailureReason := na_FailureReason r; na_ParentAttemptID :=
     na_ParentAttemptID r; na_RetryOf := na_RetryOf r; na_ChildPlanID := na_ChildPlanID r;
     na_StartedAt := na_StartedAt r; na_FinishedAt := na_FinishedAt r |}.
Definition na_set_RepairState v (r : NodeAttempt) : NodeAttempt :=
  {| na_ID := na_ID r; na_PlanID := na_PlanID r; na_NodeID := na_NodeID r; na_AttemptNo :=
     na_AttemptNo r; na_RunID := na_RunID r; na_SessionID := na_SessionID r; na_WorkDir :=
     na_WorkDir r; na_Lease := na_Lease r; na_IdempotencyKey := na_IdempotencyKey r;
     na_InputManifest := na_InputManifest r; na_OutputArtifacts := na_OutputArtifacts r;
     na_Result := na_Result r; na_RepairState := v; na_RepairPlanID := na_RepairPlanID r;
     na_Status := na_Status r; na_FailureReason := na_FailureReason r; na_ParentAttemptID :=
     na_ParentAttemptID r; na_RetryOf := na_RetryOf r; na_ChildPlanID := na_ChildPlanID r;
     na_StartedAt := na_StartedAt r; na_FinishedAt := na_FinishedAt r |}.
Definition na_set_RepairPlanID v (r : NodeAttempt) : NodeAttempt :=
  {| na_ID := na_ID r; na_PlanID := na_PlanID r; na_NodeID := na_NodeID r; na_AttemptNo :=
     na_AttemptNo r; na_RunID := na_RunID r; na_SessionID := na_SessionID r; na_WorkDir :=
     na_WorkDir r; na_Lease := na_Lease r; na_IdempotencyKey := na_IdempotencyKey r;
     na_InputManifest := na_InputManifest r; na_OutputArtifacts := na_OutputArtifacts r;
     na_Result := na_Result r; na_RepairState := na_RepairState r; na_RepairPlanID := v;
     na_Status := na_Status r; na_FailureReason := na_FailureReason r; na_ParentAttemptID :=
     na_ParentAttemptID r; na_RetryOf := na_RetryOf r; na_ChildPlanID := na_ChildPlanID r;
     na_StartedAt := na_StartedAt r; na_FinishedAt := na_FinishedAt r |}.
Definition na_set_Status v (r : NodeAttempt) : NodeAttempt :=
  {| na_ID := na_ID r; na_PlanID := na_PlanID r; na_NodeID := na_NodeID r; na_AttemptNo :=
     na_AttemptNo r; na_RunID := na_RunID r; na_SessionID := na_SessionID r; na_WorkDir :=
     na_WorkDir r; na_Lease := na_Lease r; na_IdempotencyKey := na_IdempotencyKey r;
     na_InputManifest := na_InputManifest r; na_OutputArtifacts := na_OutputArtifacts r;
     na_Result := na_Result r; na_RepairState := na_RepairState r; na_RepairPlanID :=
     na_RepairPlanID r; na_Status := v; na_FailureReason := na_FailureReason r;
     na_ParentAttemptID := na_ParentAttemptID r; na_RetryOf := na_RetryOf r; na_ChildPlanID :=
     na_ChildPlanID r; na_StartedAt := na_StartedAt r; na_FinishedAt := na_FinishedAt r |}.
Definition na_set_FailureReason v (r : NodeAttempt) : NodeAttempt :=
  {| na_ID := na_ID r; na_PlanID := na_PlanID r; na_NodeID := na_NodeID r; na_AttemptNo :=
     na_AttemptNo r; na_RunID := na_RunID r; na_SessionID := na_SessionID r; na_WorkDir :=
     na_WorkDir r; na_Lease := na_Lease r; na_IdempotencyKey := na_IdempotencyKey r;
     na_InputManifest := na_InputManifest r; na_OutputArtifacts := na_OutputArtifacts r;
     na_Result := na_Result r; na_RepairState := na_RepairState r; na_RepairPlanID :=
     na_RepairPlanID r; na_Status := na_Status r; na_FailureReason := v; na_ParentAttemptID :=
     na_ParentAttemptID r; na_RetryOf := na_RetryOf r; na_ChildPlanID := na_ChildPlanID r;
     na_StartedAt := na_StartedAt r; na_FinishedAt := na_FinishedAt r |}.
Definition na_set_FinishedAt v (r : NodeAttempt) : NodeAttempt :=
  {| na_ID := na_ID r; na_PlanID := na_PlanID r; na_NodeID := na_NodeID r; na_AttemptNo :=
     na_AttemptNo r; na_RunID := na_RunID r; na_SessionID := na_SessionID r; na_WorkDir :=
     na_WorkDir r; na_Lease := na_Lease r; na_IdempotencyKey := na_IdempotencyKey r;
     na_InputManifest := na_InputManifest r; na_OutputArtifacts := na_OutputArtifacts r;
     na_Result := na_Result r; na_RepairState := na_RepairState r; na_RepairPlanID :=
     na_RepairPlanID r; na_Status := na_Status r; na_FailureReason := na_FailureReason r;
     na_ParentAttemptID := na_ParentAttemptID r; na_RetryOf := na_RetryOf r; na_ChildPlanID :=
     na_ChildPlanID r; na_StartedAt := na_StartedAt r; na_FinishedAt := v |}.

Definition rp_set_ID v (r : RepairPlan) : RepairPlan :=
  {| rp_ID := v; rp_PlanID := rp_PlanID r; rp_RepairNodeID := rp_RepairNodeID r;
     rp_RepairAttemptID := rp_RepairAttemptID r; rp_RepairAttemptIDs := rp_RepairAttemptIDs r;
     rp_TargetNodeID := rp_TargetNodeID r; rp_VerificationNodeIDs := rp_VerificationNodeIDs r;
     rp_SourceAttemptIDs := rp_SourceAttemptIDs r; rp_Scope := rp_Scope r; rp_MaxRounds :=
     rp_MaxRounds r; rp_Round := rp_Round r; rp_State := rp_State r; rp_StateHistory :=
     rp_StateHistory r; rp_TargetAttemptID := rp_TargetAttemptID r; rp_VerificationAttempts :=
     rp_VerificationAttempts r; rp_VerifiedNodes := rp_VerifiedNodes r; rp_PatchArtifactIDs :=
     rp_PatchArtifactIDs r; rp_VerificationArtifactIDs := rp_VerificationArtifactIDs r;
     rp_LastReasonCode := rp_LastReasonCode r |}.
Definition rp_set_RepairAttemptIDs v (r : RepairPlan) : RepairPlan :=
  {| rp_ID := rp_ID r; rp_PlanID := rp_PlanID r; rp_RepairNodeID := rp_RepairNodeID r;
     rp_RepairAttemptID := rp_RepairAttemptID r; rp_RepairAttemptIDs := v; rp_TargetNodeID :=
     rp_TargetNodeID r; rp_VerificationNodeIDs := rp_VerificationNodeIDs r; rp_SourceAttemptIDs
     := rp_SourceAttemptIDs r; rp_Scope := rp_Scope r; rp_MaxRounds := rp_MaxRounds r; rp_Round
     := rp_Round r; rp_State := rp_State r; rp_StateHistory := rp_StateHistory r;
     rp_TargetAttemptID := rp_TargetAttemptID r; rp_VerificationAttempts :=
     rp_VerificationAttempts r; rp_VerifiedNodes := rp_VerifiedNodes r; rp_PatchArtifactIDs :=
     rp_PatchArtifactIDs r; rp_VerificationArtifactIDs := rp_VerificationArtifactIDs r;
     rp_LastReasonCode := rp_LastReasonCode r |}.
Definition rp_set_Round v (r : RepairPlan) : RepairPlan :=
  {| rp_ID := rp_ID r; rp_PlanID := rp_PlanID r; rp_RepairNodeID := rp_RepairNodeID r;
     rp_RepairAttemptID := rp_RepairAttemptID r; rp_RepairAttemptIDs := rp_RepairAttemptIDs r;
     rp_TargetNodeID := rp_TargetNodeID r; rp_VerificationNodeIDs := rp_VerificationNodeIDs r;
     rp_SourceAttemptIDs := rp_SourceAttemptIDs r; rp_Scope := rp_Scope r; rp_MaxRounds :=
     rp_MaxRounds r; rp_Round := v; rp_State := rp_State r; rp_StateHistory := rp_StateHistory
     r; rp_TargetAttemptID := rp_TargetAttemptID r; rp_VerificationAttempts :=
     rp_VerificationAttempts r; rp_VerifiedNodes := rp_VerifiedNodes r; rp_PatchArtifactIDs :=
     rp_PatchArtifactIDs r; rp_VerificationArtifactIDs := rp_VerificationArtifactIDs r;
     rp_LastReasonCode := rp_LastReasonCode r |}.
Definition rp_set_State v (r : RepairPlan) : RepairPlan :=
  {| rp_ID := rp_ID r; rp_PlanID := rp_PlanID r; rp_RepairNodeID := rp_RepairNodeID r;
     rp_RepairAttemptID := rp_RepairAttemptID r; rp_RepairAttemptIDs := rp_RepairAttemptIDs r;
     rp_TargetNodeID := rp_TargetNodeID r; rp_VerificationNodeIDs := rp_VerificationNodeIDs r;
     rp_SourceAttemptIDs := rp_SourceAttemptIDs r; rp_Scope := rp_Scope r; rp_MaxRounds :=
     rp_MaxRounds r; rp_Round := rp_Round r; rp_State := v; rp_StateHistory := rp_StateHistory
     r; rp_TargetAttemptID := rp_TargetAttemptID r; rp_VerificationAttempts :=
     rp_VerificationAttempts r; rp_VerifiedNodes := rp_VerifiedNodes r; rp_PatchArtifactIDs :=
     rp_PatchArtifactIDs r; rp_VerificationArtifactIDs := rp_VerificationArtifactIDs r;
     rp_LastReasonCode := rp_LastReasonCode r |}.
Definition rp_set_StateHistory v (r : RepairPlan) : RepairPlan :=
  {| rp_ID := rp_ID r; rp_PlanID := rp_PlanID r; rp_RepairNodeID := rp_RepairNodeID r;
     rp_RepairAttemptID := rp_RepairAttemptID r; rp_RepairAttemptIDs := rp_RepairAttemptIDs r;
     rp_TargetNodeID := rp_TargetNodeID r; rp_VerificationNodeIDs := rp_VerificationNodeIDs r;
     rp_SourceAttemptIDs := rp_SourceAttemptIDs r; rp_Scope := rp_Scope r; rp_MaxRounds :=
     rp_MaxRounds r; rp_Round := rp_Round r; rp_State := rp_State r; rp_StateHistory := v;
     rp_TargetAttemptID := rp_TargetAttemptID r; rp_VerificationAttempts :=
     rp_VerificationAttempts r; rp_VerifiedNodes := rp_VerifiedNodes r; rp_PatchArtifactIDs :=
     rp_PatchArtifactIDs r; rp_VerificationArtifactIDs := rp_VerificationArtifactIDs r;
     rp_LastReasonCode := rp_LastReasonCode r |}.
Definition rp_set_TargetAttemptID v (r : RepairPlan) : RepairPlan :=
  {| rp_ID := rp_ID r; rp_PlanID := rp_PlanID r; rp_RepairNodeID := rp_RepairNodeID r;
     rp_RepairAttemptID := rp_RepairAttemptID r; rp_RepairAttemptIDs := rp_RepairAttemptIDs r;
     rp_TargetNodeID := rp_TargetNodeID r; rp_VerificationNodeIDs := rp_VerificationNodeIDs r;
     rp_SourceAttemptIDs := rp_SourceAttemptIDs r; rp_Scope := rp_Scope r; rp_MaxRounds :=
     rp_MaxRounds r; rp_Round := rp_Round r; rp_State := rp_State r; rp_StateHistory :=
     rp_StateHistory r; rp_TargetAttemptID := v; rp_VerificationAttempts :=
     rp_VerificationAttempts r; rp_VerifiedNodes := rp_VerifiedNodes r; rp_PatchArtifactIDs :=
     rp_PatchArtifactIDs r; rp_VerificationArtifactIDs := rp_VerificationArtifactIDs r;
     rp_LastReasonCode := rp_LastReasonCode r |}.
Definition rp_set_VerificationAttempts v (r : RepairPlan) : RepairPlan :=
  {| rp_ID := rp_ID r; rp_PlanID := rp_PlanID r; rp_RepairNodeID := rp_RepairNodeID r;
     rp_RepairAttemptID := rp_RepairAttemptID r; rp_RepairAttemptIDs := rp_RepairAttemptIDs r;
     rp_TargetNodeID := rp_TargetNodeID r; rp_VerificationNodeIDs := rp_VerificationNodeIDs r;
     rp_SourceAttemptIDs := rp_SourceAttemptIDs r; rp_Scope := rp_Scope r; rp_MaxRounds :=
     rp_MaxRounds r; rp_Round := rp_Round r; rp_State := rp_State r; rp_StateHistory :=
     rp_StateHistory r; rp_TargetAttemptID := rp_TargetAttemptID r; rp_VerificationAttempts :=
     v; rp_VerifiedNodes := rp_VerifiedNodes r; rp_PatchArtifactIDs := rp_PatchArtifactIDs r;
     rp_VerificationArtifactIDs := rp_VerificationArtifactIDs r; rp_LastReasonCode :=
     rp_LastReasonCode r |}.
Definition rp_set_VerifiedNodes v (r : RepairPlan) : RepairPlan :=
  {| rp_ID := rp_ID r; rp_PlanID := rp_PlanID r; rp_RepairNodeID := rp_RepairNodeID r;
     rp_RepairAttemptID := rp_RepairAttemptID r; rp_RepairAttemptIDs := rp_RepairAttemptIDs r;
     rp_TargetNodeID := rp_TargetNodeID r; rp_VerificationNodeIDs := rp_VerificationNodeIDs r;
     rp_SourceAttemptIDs := rp_SourceAttemptIDs r; rp_Scope := rp_Scope r; rp_MaxRounds :=
     rp_MaxRounds r; rp_Round := rp_Round r; rp_State := rp_State r; rp_StateHistory :=
     rp_StateHistory r; rp_TargetAttemptID := rp_TargetAttemptID r; rp_VerificationAttempts :=
     rp_VerificationAttempts r; rp_VerifiedNodes := v; rp_PatchArtifactIDs :=
     rp_PatchArtifactIDs r; rp_VerificationArtifactIDs := rp_VerificationArtifactIDs r;
     rp_LastReasonCode := rp_LastReasonCode r |}.
Definition rp_set_PatchArtifactIDs v (r : RepairPlan) : RepairPlan :=
  {| rp_ID := rp_ID r; rp_PlanID := rp_PlanID r; rp_RepairNodeID := rp_RepairNodeID r;
     rp_RepairAttemptID := rp_RepairAttemptID r; rp_RepairAttemptIDs := rp_RepairAttemptIDs r;
     rp_TargetNodeID := rp_TargetNodeID r; rp_VerificationNodeIDs := rp_VerificationNodeIDs r;
     rp_SourceAttemptIDs := rp_SourceAttemptIDs r; rp_Scope := rp_Scope r; rp_MaxRounds :=
     rp_MaxRounds r; rp_Round := rp_Round r; rp_State := rp_State r; rp_StateHistory :=
     rp_StateHistory r; rp_TargetAttemptID := rp_TargetAttemptID r; rp_VerificationAttempts :=
     rp_VerificationAttempts r; rp_VerifiedNodes := rp_VerifiedNodes r; rp_PatchArtifactIDs :=
     v; rp_VerificationArtifactIDs := rp_VerificationArtifactIDs r; rp_LastReasonCode :=
     rp_LastReasonCode r |}.
Definition rp_set_VerificationArtifactIDs v (r : RepairPlan) : RepairPlan :=
  {| rp_ID := rp_ID r; rp_PlanID := rp_PlanID r; rp_RepairNodeID := rp_RepairNodeID r;
     rp_RepairAttemptID := rp_RepairAttemptID r; rp_RepairAttemptIDs := rp_RepairAttemptIDs r;
     rp_TargetNodeID := rp_TargetNodeID r; rp_VerificationNodeIDs := rp_VerificationNodeIDs r;
     rp_SourceAttemptIDs := rp_SourceAttemptIDs r; rp_Scope := rp_Scope r; rp_MaxRounds :=
     rp_MaxRounds r; rp_Round := rp_Round r; rp_State := rp_State r; rp_StateHistory :=
     rp_StateHistory r; rp_TargetAttemptID := rp_TargetAttemptID r; rp_VerificationAttempts :=
     rp_VerificationAttempts r; rp_VerifiedNodes := rp_VerifiedNodes r; rp_PatchArtifactIDs :=
     rp_PatchArtifactIDs r; rp_VerificationArtifactIDs := v; rp_LastReasonCode :=
     rp_LastReasonCode r |}.
Definition rp_set_LastReasonCode v (r : RepairPlan) : RepairPlan :=
  {| rp_ID := rp_ID r; rp_PlanID := rp_PlanID r; rp_RepairNodeID := rp_RepairNodeID r;
     rp_RepairAttemptID := rp_RepairAttemptID r; rp_RepairAttemptIDs := rp_RepairAttemptIDs r;
     rp_TargetNodeID := rp_TargetNodeID r; rp_VerificationNodeIDs := rp_VerificationNodeIDs r;
     rp_SourceAttemptIDs := rp_SourceAttemptIDs r; rp_Scope := rp_Scope r; rp_MaxRounds :=
     rp_MaxRounds r; rp_Round := rp_Round r; rp_State := rp_State r; rp_StateHistory :=
     rp_StateHistory r; rp_TargetAttemptID := rp_TargetAttemptID r; rp_VerificationAttempts :=
     rp_VerificationAttempts r; rp_VerifiedNodes := rp_VerifiedNodes r; rp_PatchArtifactIDs :=
     rp_PatchArtifactIDs r; rp_VerificationArtifactIDs := rp_VerificationArtifactIDs r;
     rp_LastReasonCode := v |}.

Record TransitionInput := {
  ti_PlanRevision : Z; ti_AttemptID : string; ti_LeaseToken : Z; ti_Event : string;
  ti_Result : StructuredResult; ti_Failure : option FailureReason; ti_OutputArtifacts : list string;
  ti_IdempotencyKey : string; ti_PayloadHash : string; ti_Now : Time }.

Definition ti_set_Now v (r : TransitionInput) : TransitionInput :=
  {| ti_PlanRevision := ti_PlanRevision r; ti_AttemptID := ti_AttemptID r;
     ti_LeaseToken := ti_LeaseToken r; ti_Event := ti_Event r; ti_Result := ti_Result r;
     ti_Failure := ti_Failure r; ti_OutputArtifacts := ti_OutputArtifacts r;
     ti_IdempotencyKey := ti_IdempotencyKey r; ti_PayloadHash := ti_PayloadHash r; ti_Now := v |}.

(** The zero values a missing map entry reads as. *)
Definition zero_NodeProjection : NodeProjection :=
  {| np_NodeID := ""; np_Status := AttemptStatusOther ""; np_CurrentAttempt := ""; np_AttemptNo := 0;
     np_RetryAt := None; np_RetryCount := 0; np_ReadyEdgeIDs := [] |}.
Definition node_at (p : PlanProjection) (id : string) : NodeProjection :=
  default zero_NodeProjection (pp_Nodes p !! id).
Definition traversals_at (p : PlanProjection) (id : string) : Z :=
  default 0%Z (pp_Traversals p !! id).

(** Assignments to one entry of a map. *)
Definition put_node (id : string) (n : NodeProjection) (p : PlanProjection) : PlanProjection :=
  pp_set_Nodes (<[id := n]> (pp_Nodes p)) p.
Definition put_attempt (id : string) (a : NodeAttempt) (p : PlanProjection) : PlanProjection :=
  pp_set_Attempts (<[id := a]> (pp_Attempts p)) p.
Definition put_repair (id : string) (r : RepairPlan) (p : PlanProjection) : PlanProjection :=
  pp_set_RepairPlans (<[id := r]> (pp_RepairPlans p)) p.
Definition put_key (k h : string) (p : PlanProjection) : PlanProjection :=
  pp_set_Idempotency (<[k := h]> (pp_Idempotency p)) p.

(** [string(status)]. *)
Definition AttemptStatus_string (s : AttemptStatus) : string :=
  match s with
  | AttemptPending => "pending" | AttemptReady => "ready" | AttemptRunning => "running"
  | AttemptWaiting => "waiting" | AttemptPassed => "passed" | AttemptFailed => "failed"
  | AttemptCancelled => "cancelled" | AttemptTimedOut => "timed_out" | AttemptStatusOther s => s
  end.
Definition PlanStatus_string (s : PlanStatus) : string :=
  match s with
  | PlanDraft => "draft" | PlanValidating => "validating" | PlanReady => "ready"
  | PlanWaiting => "waiting" | PlanRunning => "running" | PlanTerminal => "terminal"
  | PlanStatusOther s => s
  end.

(** * The invariant that ties nodes to attempts

    [live_inv] relates the node map and the attempt map of a projection: a node
    is running exactly when its current attempt is, and a running attempt is its
    node's current one.  The lemmas say which map updates keep it; they are the
    proof interface of the reducer's invariant proofs. *)

Abbreviation node_states := (gmap string NodeProjection).
Abbreviation attempt_log := (gmap string NodeAttempt).

(** ** Reopening

    What routing may do to a node: nothing, or make a node that is not running
    ready or pending again, keeping its identity and lineage. *)
Definition reopened (n n' : NodeProjection) : Prop :=
  n' = n ∨
  (np_Status n ≠ AttemptRunning ∧ (np_Status n' = AttemptReady ∨ np_Status n' = AttemptPending) ∧
   np_NodeID n' = np_NodeID n ∧ np_CurrentAttempt n' = np_CurrentAttempt n ∧ np_AttemptNo n' = np_AttemptNo n).

Definition nodes_reopened (N N' : node_states) : Prop :=
  ∀ id, option_Forall2 reopened (N !! id) (N' !! id).

#[global] Instance reopened_preorder : PreOrder reopened.
Proof.
  split; [by left|]. intros n1 n2 n3 [->|(H1 & H2 & H3 & H4 & H5)]; [done|].
  intros [->|(H6 & H7 & H8 & H9 & H10)]; right; split_and!; congruence || done.
Qed.

#[global] Instance nodes_reopened_preorder : PreOrder nodes_reopened.
Proof.
  split.
  - intros N id. destruct (N !! id); constructor. done.
  - intros N1 N2 N3 H12 H23 id. specialize (H12 id). specialize (H23 id).
    destruct H12 as [n1 n2 H12|]; inversion H23; subst; constructor. by etrans.
Qed.

Lemma nodes_reopened_insert N id n n' :
  N !! id = Some n → reopened n n' → nodes_reopened N (<[id := n']> N).
Proof.
  intros Hn Hr k. destruct (decide (k = id)) as [->|Hne].
  - rewrite lookup_insert_eq, Hn. by constructor.
  - rewrite lookup_insert_ne by done. destruct (N !! k); by constructor.
Qed.

Lemma nodes_reopened_lookup N N' id n :
  nodes_reopened N N' → N !! id = Some n → ∃ n', N' !! id = Some n' ∧ reopened n n'.
Proof. intros Hr Hn. specialize (Hr id). rewrite Hn in Hr. inversion Hr; subst; eauto. Qed.

Lemma nodes_reopened_lookup_back N N' id n' :
  nodes_reopened N N' → N' !! id = Some n' → ∃ n, N !! id = Some n ∧ reopened n n'.
Proof. intros Hr Hn. specialize (Hr id). rewrite Hn in Hr. inversion Hr; subst; eauto. Qed.

Lemma nodes_reopened_is_Some N N' id : nodes_reopened N N' → is_Some (N' !! id) ↔ is_Some (N !! id).
Proof. intros Hr. specialize (Hr id). inversion Hr; split; intros []; eauto; done. Qed.

Lemma reopened_running n n' :
  reopened n n' → np_Status n' = AttemptRunning ↔ np_Status n = AttemptRunning ∧ n' = n.
Proof. intros [->|(H1 & H2 & _)]; [naive_solver|]. split; [destruct H2; congruence|naive_solver]. Qed.

Lemma reopened_fields n n' :
  reopened n n' → np_NodeID n' = np_NodeID n ∧ np_CurrentAttempt n' = np_CurrentAttempt n.
Proof. intros [->|(_ & _ & ? & ? & _)]; done. Qed.

Lemma nodes_reopened_stopped N N' id n :
  nodes_reopened N N' → N !! id = Some n → np_Status n ≠ AttemptRunning →
  ∃ n', N' !! id = Some n' ∧ np_Status n' ≠ AttemptRunning.
Proof.
  intros Hr Hn Hs. destruct (nodes_reopened_lookup _ _ _ _ Hr Hn) as (n' & Hn' & Hre).
  exists n'. split; [done|]. rewrite (reopened_running _ _ Hre). by intros [? _].
Qed.

(** ** The invariant *)

(** The timestamps a status requires, as [PlanProjection.Validate] checks them. *)
Definition times_ok (a : NodeAttempt) : Prop :=
  match na_Status a with
  | AttemptRunning => na_StartedAt a ≠ None
  | AttemptWaiting => na_FinishedAt a = None
  | AttemptPassed | AttemptFailed | AttemptCancelled | AttemptTimedOut => na_FinishedAt a ≠ None
  | _ => False
  end.

Record attempt_wf (pid : string) (N : node_states) (id : string) (a : NodeAttempt) : Prop := {
  aw_id : na_ID a = id;
  aw_named : id ≠ "";
  aw_plan : na_PlanID a = pid;
  aw_node : is_Some (N !! na_NodeID a);
  aw_times : times_ok a;
  aw_running : na_Status a = AttemptRunning →
    ∃ n, N !! na_NodeID a = Some n ∧ np_Status n = AttemptRunning ∧ np_CurrentAttempt n = id }.

Record node_wf (A : attempt_log) (id : string) (n : NodeProjection) : Prop := {
  nw_id : np_NodeID n = id;
  nw_status : ∀ s, np_Status n ≠ AttemptStatusOther s;
  nw_current : np_CurrentAttempt n ≠ "" → ∃ a, A !! np_CurrentAttempt n = Some a ∧ na_NodeID a = id;
  nw_running : np_Status n = AttemptRunning →
    ∃ a, A !! np_CurrentAttempt n = Some a ∧ na_NodeID a = id ∧ na_Status a = AttemptRunning;
  nw_waiting : np_Status n = AttemptWaiting →
    ∃ a, A !! np_CurrentAttempt n = Some a ∧ na_NodeID a = id ∧ na_Status a = AttemptWaiting }.

Record live_inv (pid : string) (N : node_states) (A : attempt_log) : Prop := {
  li_attempts : map_Forall (attempt_wf pid N) A;
  li_nodes : map_Forall (node_wf A) N }.

(** A node has at most one running attempt. *)
Lemma live_inv_exclusive pid N A i j a b :
  live_inv pid N A → A !! i = Some a → A !! j = Some b → na_NodeID a = na_NodeID b →
  na_Status a = AttemptRunning → na_Status b = AttemptRunning → i = j.
Proof.
  intros [HA _] Hi Hj Hab Ha Hb.
  destruct (aw_running _ _ _ _ (HA _ _ Hi) Ha) as (n & Hn & _ & <-).
  destruct (aw_running _ _ _ _ (HA _ _ Hj) Hb) as (n' & Hn' & _ & <-).
  rewrite Hab in Hn. congruence.
Qed.

Lemma attempt_wf_reopen pid N N' id a :
  nodes_reopened N N' → attempt_wf pid N id a → attempt_wf pid N' id a.
Proof.
  intros Hr [? ? ? Hnode ? Hrun]. split; try done.
  - by apply (nodes_reopened_is_Some N N').
  - intros Ha. destruct (Hrun Ha) as (n & Hn & Hs & Hc).
    destruct (nodes_reopened_lookup _ _ _ _ Hr Hn) as (n' & Hn' & [->|[Hns _]]); [eauto|done].
Qed.

Lemma live_inv_reopen pid N N' A :
  nodes_reopened N N' → live_inv pid N A → live_inv pid N' A.
Proof.
  intros Hr [HA HN]. split.
  - intros id a Ha. eapply attempt_wf_reopen; [done|]. by apply HA.
  - intros id n' Hn'. destruct (nodes_reopened_lookup_back _ _ _ _ Hr Hn') as (n & Hn & Hnn).
    pose proof (HN _ _ Hn) as Hw. destruct Hnn as [->|(Hs & Hs' & Hid & Hc & _)]; [done|].
    destruct Hw as [Hi _ Hcur _ _]. split.
    + congruence.
    + intros s. destruct Hs'; congruence.
    + rewrite Hc. done.
    + intros E. destruct Hs'; congruence.
    + intros E. destruct Hs'; congruence.
Qed.

(** The update of a start or of a completion: attempt [aid] of node [k] is
    written and becomes the node's current attempt, with the same status. *)
Lemma live_inv_set pid N A aid k a n :
  live_inv pid N A →
  na_ID a = aid → aid ≠ "" → na_PlanID a = pid → na_NodeID a = k → times_ok a →
  np_NodeID n = k → np_CurrentAttempt n = aid → np_Status n = na_Status a →
  (∀ b, A !! aid = Some b → na_NodeID b = k) →
  (∀ j b, A !! j = Some b → na_NodeID b = k → na_Status b = AttemptRunning → j = aid) →
  live_inv pid (<[k := n]> N) (<[aid := a]> A).
Proof.
  intros [HA HN] Hid Hne Hpid Hk Ht Hnk Hcur Hst Hown Hexcl. split.
  - apply map_Forall_lookup_2. intros j b. destruct (decide (j = aid)) as [->|Hj].
    + rewrite lookup_insert_eq. intros [= <-]. split; try done.
      * rewrite Hk, lookup_insert_eq. eauto.
      * intros Hr. exists n. rewrite Hk, lookup_insert_eq. split_and!; congruence.
    + rewrite lookup_insert_ne by done. intros Hb. destruct (HA _ _ Hb) as [? ? ? Hnode ? Hrun].
      split; try done.
      * destruct (decide (na_NodeID b = k)) as [->|]; [rewrite lookup_insert_eq; eauto|].
        by rewrite lookup_insert_ne.
      * intros Hr. destruct (decide (na_NodeID b = k)) as [Hbk|].
        { destruct Hj. by apply (Hexcl j b). }
        rewrite lookup_insert_ne by done. by apply Hrun.
  - apply map_Forall_lookup_2. intros id m. destruct (decide (id = k)) as [->|Hidk].
    + rewrite lookup_insert_eq. intros [= <-]. split; [done|..].
      * intros s E. unfold times_ok in Ht. by rewrite <- Hst, E in Ht.
      * intros _. exists a. by rewrite Hcur, lookup_insert_eq.
      * intros E. exists a. rewrite Hcur, lookup_insert_eq. split_and!; congruence.
      * intros E. exists a. rewrite Hcur, lookup_insert_eq. split_and!; congruence.
    + rewrite lookup_insert_ne by done. intros Hm. destruct (HN _ _ Hm) as [? ? Hc Hr Hw].
      assert (∀ b, A !! np_CurrentAttempt m = Some b → na_NodeID b = id → np_CurrentAttempt m ≠ aid) as Hdiff.
      { intros b Hb Hbid E. rewrite E in Hb. apply Hown in Hb. congruence. }
      split; try done.
      * intros E. destruct (Hc E) as (b & Hb & Hbid). exists b.
        rewrite lookup_insert_ne by (apply not_eq_sym; eauto). done.
      * intros E. destruct (Hr E) as (b & Hb & Hbid & ?). exists b.
        rewrite lookup_insert_ne by (apply not_eq_sym; eauto). done.
      * intros E. destruct (Hw E) as (b & Hb & Hbid & ?). exists b.
        rewrite lookup_insert_ne by (apply not_eq_sym; eauto). done.
Qed.
