(* ===== verification/Projection.v ===== *)
(** * Projection: construction, validation and copying of a projection

    The repair lifecycle relation, [PlanProjection.Validate], [NewProjection] and
    [eventMatches]/[resultUsage]-style helpers of
    internal/orchestration/transition.go, and [cloneProjection] of executor.go. *)
From stdpp Require Import base strings gmap list pretty.
From Stdlib Require Import ZArith.
From S2P Require Import Prelude GoLib GoValue GoJson ContextModel OrchModel GraphSearch Validate ProjectionData.

(** ** The repair lifecycle *)

Definition validRepairLifecycle (state : RepairLifecycle) : bool :=
  match state with
  | RepairPlanned | RepairDispatched | RepairPatched | RepairVerifying | RepairVerified
  | RepairFailed | RepairExhausted => true
  | RepairNone | RepairOther _ => false
  end.

Definition repairLifecycleTransitionAllowed (from to : RepairLifecycle) : bool :=
  if from ≟ to then true else
  match from with
  | RepairPlanned => (to ≟ RepairDispatched) || (to ≟ RepairFailed) || (to ≟ RepairExhausted)
  | RepairDispatched => (to ≟ RepairPatched) || (to ≟ RepairFailed) || (to ≟ RepairExhausted)
  | RepairPatched => (to ≟ RepairVerifying) || (to ≟ RepairFailed) || (to ≟ RepairExhausted)
  | RepairVerifying => (to ≟ RepairVerified) || (to ≟ RepairFailed) || (to ≟ RepairExhausted)
  | RepairFailed => (to ≟ RepairPlanned) || (to ≟ RepairExhausted)
  | RepairVerified | RepairExhausted => false
  | RepairNone | RepairOther _ => false
  end.

(** [setRepairState]: [None] is the return value false, which leaves the plan
    as it was. *)
Definition setRepairState (repair : RepairPlan) (next : RepairLifecycle) : option RepairPlan :=
  if negb (validRepairLifecycle next) then None
  else if rp_State repair ≟ RepairNone then
    Some (rp_set_StateHistory (rp_StateHistory repair ++ [next]) (rp_set_State next repair))
  else if negb (repairLifecycleTransitionAllowed (rp_State repair) next) then None
  else
    let history :=
      if bool_decide (rp_StateHistory repair = []) then [rp_State repair] else rp_StateHistory repair in
    let history :=
      if last history ≠? Some (rp_State repair) then history ++ [rp_State repair] else history in
    if rp_State repair ≠? next
    then Some (rp_set_StateHistory (history ++ [next]) (rp_set_State next repair))
    else Some (rp_set_StateHistory history repair).

(** A verified node of a repair plan: a missing entry reads as false. *)
Definition verified_at (r : RepairPlan) (nodeID : string) : bool :=
  default false (rp_VerifiedNodes r !! nodeID).

(** One iteration of [allRepairsVerified]. *)
Definition repairVerified (r : RepairPlan) : bool :=
  (rp_State r ≟ RepairVerified)
  && negb (bool_decide (rp_VerificationNodeIDs r = []))
  && negb (size (rp_VerifiedNodes r) <? length (rp_VerificationNodeIDs r))%nat
  && forallb (verified_at r) (rp_VerificationNodeIDs r).

Section projection.
Context `{!MapRange}.

Definition allRepairsVerified (p : PlanProjection) : bool :=
  forallb repairVerified (range_values (pp_RepairPlans p)).

Definition repairVerificationPending (p : PlanProjection) : bool :=
  existsb (λ r, match rp_State r with
                | RepairPlanned | RepairDispatched | RepairPatched | RepairVerifying => true
                | _ => false end) (range_values (pp_RepairPlans p)).

(** ** [PlanProjection.Validate] *)

(** The loop over attempts (lines 77-102). *)
Definition validateAttempt (p : PlanProjection) (id : string) (a : NodeAttempt) : result unit :=
  let m := ce_Manifest (na_InputManifest a) in
  reject ((na_ID a ≠? id) || (na_PlanID a ≠? pp_PlanID p) || (na_NodeID a ≟ "")
          || (na_AttemptNo a <? 1)%Z || (m_SessionID m ≟ "") || (m_Digest m ≟ ""))
    (Errorf "invalid attempt %s" [id]) ;;;
  match na_Status a with
  | AttemptPending | AttemptReady =>
      Err (Errorf "attempt %s has non-running persisted status %q" [id; AttemptStatus_string (na_Status a)])
  | AttemptRunning =>
      reject (IsZero (ls_ExpiresAt (na_Lease a)) || bool_decide (na_StartedAt a = None))
        (Errorf "running attempt %s has no lease or start time" [id])
  | AttemptWaiting =>
      reject (negb (bool_decide (na_FinishedAt a = None)))
        (Errorf "waiting attempt %s cannot have finish time" [id])
  | AttemptPassed | AttemptFailed | AttemptCancelled | AttemptTimedOut =>
      reject (bool_decide (na_FinishedAt a = None))
        (Errorf "terminal attempt %s has no finish time" [id])
  | AttemptStatusOther s => Err (Errorf "attempt %s has invalid status %q" [id; s])
  end ;;;
  reject ((na_RepairState a ≠? RepairNone) && negb (validRepairLifecycle (na_RepairState a)))
    (Errorf "attempt %s has invalid repair state %q" [id; RepairLifecycle_string (na_RepairState a)]).

(** Lines 110-119: the verification nodes are named and distinct. *)
Definition validateVerificationIDs (id : string) (seen : list string) (_ : nat) (nodeID : string)
    : result (list string) :=
  reject (blank nodeID) (Errorf "repair plan %s has an empty verification node" [id]) ;;;
  reject (contains seen nodeID)
    (Errorf "repair plan %s has duplicate verification node %s" [id; nodeID]) ;;;
  Ok (nodeID :: seen).

(** The state history is a run of the lifecycle. *)
Fixpoint validateHistorySteps (id : string) (prev : RepairLifecycle) (rest : list RepairLifecycle)
    : result unit :=
  match rest with
  | [] => Ok tt
  | next :: rest' =>
      reject (negb (repairLifecycleTransitionAllowed prev next))
        (Errorf "repair plan %s has invalid state transition %s -> %s"
           [id; RepairLifecycle_string prev; RepairLifecycle_string next]) ;;;
      validateHistorySteps id next rest'
  end.
Definition validateHistory (id : string) (r : RepairPlan) : result unit :=
  match rp_StateHistory r with
  | [] => Err (Errorf "repair plan %s has incomplete state history" [id])
  | first :: rest =>
      reject ((first ≠? RepairPlanned) || (last (first :: rest) ≠? Some (rp_State r)))
        (Errorf "repair plan %s has incomplete state history" [id]) ;;;
      validateHistorySteps id first rest
  end.

(** Lines 135-151: a dispatched plan has a running target attempt, a patched,
    verifying or verified one a passed one. *)
Definition validateRepairTarget (p : PlanProjection) (id : string) (r : RepairPlan) : result unit :=
  let state := RepairLifecycle_string (rp_State r) in
  let patched := (rp_State r ≟ RepairPatched) || (rp_State r ≟ RepairVerifying) || (rp_State r ≟ RepairVerified) in
  if (rp_State r ≟ RepairDispatched) || patched then
    reject (rp_TargetAttemptID r ≟ "")
      (Errorf "repair plan %s is %s without a target attempt" [id; state]) ;;;
    match pp_Attempts p !! rp_TargetAttemptID r with
    | None => Err (Errorf "repair plan %s points to an invalid target attempt" [id])
    | Some target =>
        reject (na_NodeID target ≠? rp_TargetNodeID r)
          (Errorf "repair plan %s points to an invalid target attempt" [id]) ;;;
        reject ((rp_State r ≟ RepairDispatched) && (na_Status target ≠? AttemptRunning))
          (Errorf "repair plan %s is dispatched without a running target attempt" [id]) ;;;
        reject (patched && (na_Status target ≠? AttemptPassed))
          (Errorf "repair plan %s has state %s without a passed target attempt" [id; state])
    end
  else Ok tt.

(** Verification attempts are declared, exist and are live. *)
Definition validateVerificationAttempt (p : PlanProjection) (id : string) (r : RepairPlan)
    (nodeID attemptID : string) : result unit :=
  reject (negb (contains (rp_VerificationNodeIDs r) nodeID) || blank attemptID)
    (Errorf "repair plan %s has an undeclared verification attempt for %s" [id; nodeID]) ;;;
  match pp_Attempts p !! attemptID with
  | None => Err (Errorf "repair plan %s has an invalid verification attempt for %s" [id; nodeID])
  | Some v =>
      reject (na_NodeID v ≠? nodeID)
        (Errorf "repair plan %s has an invalid verification attempt for %s" [id; nodeID]) ;;;
      reject ((rp_State r ≟ RepairVerifying) && (na_Status v ≠? AttemptRunning) && (na_Status v ≠? AttemptPassed))
        (Errorf "repair plan %s is verifying with non-running verification attempt for %s" [id; nodeID])
  end.
Definition validateVerifying (p : PlanProjection) (id : string) (r : RepairPlan) : result unit :=
  if (rp_State r ≟ RepairVerifying) || (rp_State r ≟ RepairVerified) then
    reject (bool_decide (rp_VerificationAttempts r = ∅))
      (Errorf "repair plan %s is %s without verification attempts" [id; RepairLifecycle_string (rp_State r)]) ;;;
    check_each (λ _ '(nodeID, attemptID), validateVerificationAttempt p id r nodeID attemptID)
      (range (rp_VerificationAttempts r))
  else Ok tt.

(** A verified plan has a passed attempt of every declared node. *)
Definition validateVerifiedNode (p : PlanProjection) (id : string) (r : RepairPlan) (nodeID : string)
    : result unit :=
  reject (negb (verified_at r nodeID))
    (Errorf "repair plan %s is verified without verification result for %s" [id; nodeID]) ;;;
  match pp_Attempts p !! default "" (rp_VerificationAttempts r !! nodeID) with
  | None => Err (Errorf "repair plan %s is verified without a passed verification attempt for %s" [id; nodeID])
  | Some v =>
      reject ((na_NodeID v ≠? nodeID) || (na_Status v ≠? AttemptPassed))
        (Errorf "repair plan %s is verified without a passed verification attempt for %s" [id; nodeID])
  end.
Definition validateVerified (p : PlanProjection) (id : string) (r : RepairPlan) : result unit :=
  if rp_State r ≟ RepairVerified then
    reject (rp_TargetAttemptID r ≟ "")
      (Errorf "repair plan %s is verified without target patch attempt" [id]) ;;;
    reject (size (rp_VerificationAttempts r) <? length (rp_VerificationNodeIDs r))%nat
      (Errorf "repair plan %s is verified without all verification attempts" [id]) ;;;
    check_each (λ _ nodeID, validateVerifiedNode p id r nodeID) (rp_VerificationNodeIDs r)
  else Ok tt.

(** The loop over repair plans (lines 103-186). *)
Definition validateRepairPlan (p : PlanProjection) (id : string) (r : RepairPlan) : result unit :=
  reject ((rp_ID r ≠? id) || (rp_PlanID r ≠? pp_PlanID p) || (rp_RepairNodeID r ≟ "")
          || (rp_RepairAttemptID r ≟ "") || (rp_TargetNodeID r ≟ "")
          || bool_decide (rp_VerificationNodeIDs r = []) || (rp_MaxRounds r <? 1)%Z
          || (rp_Round r <? 1)%Z || negb (validRepairLifecycle (rp_State r)))
    (Errorf "invalid repair plan %s" [id]) ;;;
  reject (rp_MaxRounds r <? rp_Round r)%Z (Errorf "repair plan %s exceeds max rounds" [id]) ;;;
  fold_each_from 0 (validateVerificationIDs id) [] (rp_VerificationNodeIDs r) ;;;
  reject (bool_decide (rp_RepairAttemptIDs r = [])
          || negb (contains (rp_RepairAttemptIDs r) (rp_RepairAttemptID r)))
    (Errorf "repair plan %s has incomplete attempt lineage" [id]) ;;;
  match pp_Attempts p !! rp_RepairAttemptID r with
  | None => Err (Errorf "repair plan %s has no passed planning attempt" [id])
  | Some a =>
      reject ((na_NodeID a ≠? rp_RepairNodeID r) || (na_Status a ≠? AttemptPassed))
        (Errorf "repair plan %s has no passed planning attempt" [id])
  end ;;;
  validateHistory id r ;;;
  validateRepairTarget p id r ;;;
  validateVerifying p id r ;;;
  validateVerified p id r.

(** The loop over nodes (lines 190-211). *)
Definition validateNodeProjection (p : PlanProjection) (id : string) (n : NodeProjection) : result unit :=
  reject (np_NodeID n ≠? id) (Errorf "invalid node projection %s" [id]) ;;;
  match np_Status n with
  | AttemptStatusOther s => Err (Errorf "node %s has invalid status %q" [id; s])
  | _ => Ok tt
  end ;;;
  if np_CurrentAttempt n ≟ "" then Ok tt else
  match pp_Attempts p !! np_CurrentAttempt n with
  | None => Err (Errorf "node %s points to unknown attempt" [id])
  | Some a =>
      reject (na_NodeID a ≠? id) (Errorf "node %s points to unknown attempt" [id]) ;;;
      reject ((np_Status n ≟ AttemptRunning) && (na_Status a ≠? AttemptRunning))
        (Errorf "node %s is running but current attempt is %s" [id; AttemptStatus_string (na_Status a)]) ;;;
      reject ((np_Status n ≟ AttemptWaiting) && (na_Status a ≠? AttemptWaiting))
        (Errorf "node %s is waiting but current attempt is %s" [id; AttemptStatus_string (na_Status a)])
  end.

Definition live_status (s : PlanStatus) : bool :=
  match s with PlanReady | PlanRunning | PlanWaiting | PlanTerminal => true | _ => false end.

Definition PlanProjection_Validate (p : PlanProjection) : result unit :=
  reject ((pp_PlanID p ≟ "") || (pp_Revision p <? 1)%Z)
    (Errorf "projection plan_id and revision are required" []) ;;;
  reject (negb (live_status (pp_Status p)))
    (Errorf "invalid projection plan status %q" [PlanStatus_string (pp_Status p)]) ;;;
  reject ((pp_TokenUsage p <? 0) || (pp_ToolCalls p <? 0) || (pp_CostCents p <? 0))%Z
    (Errorf "projection usage counters cannot be negative" []) ;;;
  check_each (λ _ '(id, a), validateAttempt p id a) (range (pp_Attempts p)) ;;;
  check_each (λ _ '(id, r), validateRepairPlan p id r) (range (pp_RepairPlans p)) ;;;
  reject ((pp_Status p ≟ PlanTerminal) && (pp_TerminalOutcome p ≟ "succeeded")
          && negb (allRepairsVerified p))
    (Errorf "terminal success requires every repair plan to be verified" []) ;;;
  check_each (λ _ '(id, n), validateNodeProjection p id n) (range (pp_Nodes p)).

(** ** [NewProjection] *)

(** One node: ready when it is an entry node. *)
Definition new_node (plan : RequirementExecutionPlan) (n : WorkflowNode) : NodeProjection :=
  {| np_NodeID := wn_ID n;
     np_Status := if contains (g_EntryNodeIDs (pl_GraphSnapshot plan)) (wn_ID n)
                  then AttemptReady else AttemptPending;
     np_CurrentAttempt := ""; np_AttemptNo := 0; np_RetryAt := None; np_RetryCount := 0;
     np_ReadyEdgeIDs := [] |}.

Definition NewProjection (plan : RequirementExecutionPlan) : result PlanProjection :=
  reject (pl_ID plan ≟ "") (Errorf "plan id is required" []) ;;;
  reject (negb (live_status (pl_Status plan)) || (pl_PlanHash plan ≟ "") || (pl_Revision plan <? 1)%Z)
    (Errorf "projection requires a frozen execution plan" []) ;;;
  ValidateGraph (pl_GraphSnapshot plan) ;;;
  Ok {| pp_PlanID := pl_ID plan; pp_Revision := pl_Revision plan; pp_Status := pl_Status plan;
        pp_TerminalOutcome := "";
        pp_Nodes := foldl (λ m n, <[wn_ID n := new_node plan n]> m) ∅ (g_Nodes (pl_GraphSnapshot plan));
        pp_Attempts := ∅; pp_Traversals := ∅; pp_Decisions := []; pp_RepairPlans := ∅;
        pp_Idempotency := ∅; pp_TokenUsage := 0; pp_ToolCalls := 0; pp_CostCents := 0 |}.

End projection.

(** ** [cloneProjection] (executor.go): every map and slice is copied, so the
    copy is equal to the original as a value. *)
Definition copy_map {A} (m : gmap string A) : gmap string A :=
  list_to_map (map_to_list m).
Definition cloneProjection (p : PlanProjection) : PlanProjection :=
  {| pp_PlanID := pp_PlanID p; pp_Revision := pp_Revision p; pp_Status := pp_Status p;
     pp_TerminalOutcome := pp_TerminalOutcome p; pp_Nodes := copy_map (pp_Nodes p);
     pp_Attempts := copy_map (pp_Attempts p); pp_Traversals := copy_map (pp_Traversals p);
     pp_Decisions := pp_Decisions p;
     pp_RepairPlans := copy_map ((λ r, rp_set_VerificationAttempts (copy_map (rp_VerificationAttempts r))
                                   (rp_set_VerifiedNodes (copy_map (rp_VerifiedNodes r)) r))
                                 <$> pp_RepairPlans p);
     pp_Idempotency := copy_map (pp_Idempotency p); pp_TokenUsage := pp_TokenUsage p;
     pp_ToolCalls := pp_ToolCalls p; pp_CostCents := pp_CostCents p |}.

(** ** Events, retries and result fields *)

Definition eventMatches (e : EdgeEvent) (s : AttemptStatus) (event outcome : string) : bool :=
  match e with
  | EdgeSuccess => (s ≟ AttemptPassed) && (event ≠? "approval_granted") && (event ≠? "approved")
                   && (outcome ≠? "approved")
  | EdgeFailure => (s ≟ AttemptFailed) && (event ≠? "bug") && (outcome ≠? "bug")
  | EdgeBug => (s ≟ AttemptFailed) && ((event ≟ "bug") || (outcome ≟ "bug"))
  | EdgeTimeout => s ≟ AttemptTimedOut
  | EdgeCancel => s ≟ AttemptCancelled
  | EdgeApproval => (event ≟ "approval_granted") || (event ≟ "approved") || (outcome ≟ "approved")
  | EdgeEventOther _ => false
  end.

Definition retryAllowed (node : WorkflowNode) (a : NodeAttempt) (input : TransitionInput) : bool :=
  match na_FailureReason a with
  | None => false
  | Some reason =>
      if negb (fr_Retryable reason) then false
      else if bool_decide (rt_RetryOn (wn_RetryPolicy node) = []) then true
      else existsb (λ configured,
             let configured := TrimSpace configured in
             existsb (λ v, (configured ≠? "") && EqualFold configured v)
               [fr_Code reason; ti_Event input; res_Outcome (na_Result a)])
             (rt_RetryOn (wn_RetryPolicy node))
  end.

Definition resultUsage (r : StructuredResult) : Z * Z * Z :=
  (usageInt64 (res_Fields r) "tokens", usageInt (res_Fields r) "tool_calls",
   usageInt64 (res_Fields r) "cost_cents").

Definition resultFields (r : StructuredResult) : gmap string value :=
  <["summary" := VString (res_Summary r)]> (<["outcome" := VString (res_Outcome r)]> (res_Fields r)).

Definition stringSliceValue (v : option value) : list string :=
  match v with
  | Some (VStrings l) => l
  | Some (VAnys l) => omap (λ x, match x with VString s => if blank s then None else Some s | _ => None end) l
  | _ => []
  end.

Definition intValue (v : option value) : Z :=
  match v with
  | Some (VInt KInt n) | Some (VInt KInt64 n) => n
  | Some (VFloat64 f) => int64_of_float f
  | _ => 0%Z
  end.

Definition repairVerificationNodes (a : NodeAttempt) : list string :=
  match res_Fields (na_Result a) !! "verification_node_ids" with
  | Some (VStrings l) => l
  | Some (VAnys l) => omap (λ x, match x with VString s => Some s | _ => None end) l
  | _ => []
  end.

Definition transitionPayloadHash `{!Sha256, !JsonMarshal (string * StructuredResult * option FailureReason)}
    (input : TransitionInput) : string :=
  json_sha256 (ti_Event input, ti_Result input, ti_Failure input).
