(* ===== verification/Repair.v ===== *)
(** * Repair: the repair contract of internal/orchestration/transition.go

    Which node start takes part in a repair plan, how a finished repair decision
    becomes a plan, and how the target's and the verification nodes' attempts
    advance it.  A function that assigns through the projection pointer returns
    the projection it leaves behind next to its result, on errors too; a map
    held by a repair plan is shared with the projection, so an assignment to it
    is visible whether or not the plan is stored back. *)
From stdpp Require Import base strings gmap list pretty.
From Stdlib Require Import ZArith.
From S2P Require Import Prelude GoLib GoValue GoJson ContextModel OrchModel GraphSearch Validate ProjectionData Projection.

Definition isRetryableRepairProviderFailure (a : NodeAttempt) : bool :=
  match na_FailureReason a with
  | None => false
  | Some reason =>
      ((na_Status a ≟ AttemptFailed) || (na_Status a ≟ AttemptTimedOut)) && fr_Retryable reason
      && contains ["provider_failed"; "provider_timeout"; "provider_result_missing";
                   "provider_tool_evidence_missing"; "upstream_error"; "timeout"; "lease_expired"]
           (fr_Code reason)
  end.

Definition retryableRepairProviderAttempt (p : PlanProjection) (attemptID : string) : bool :=
  (attemptID ≠? "") &&
  match pp_Attempts p !! attemptID with
  | Some a => isRetryableRepairProviderFailure a
  | None => false
  end.

Definition repair_marker (repairID : string) : string := "repair:" +:+ repairID +:+ ":target".

(** [repairReadyFrom]: the node was opened by the repair contract's own edge. *)
Definition repairReadyFrom (p : PlanProjection) (g : WorkflowGraph) (nodeID from repairID : string)
    (verification : bool) : bool :=
  match pp_Nodes p !! nodeID with
  | None => false
  | Some node =>
      if negb verification && contains (np_ReadyEdgeIDs node) (repair_marker repairID) then true
      else if existsb (λ readyID, existsb (λ e,
                (we_ID e ≟ readyID) && (we_From e ≟ from) && (we_To e ≟ nodeID)
                && (we_On e ≟ EdgeSuccess)) (g_Edges g)) (np_ReadyEdgeIDs node) then true
      else verification &&
        existsb (λ readyID, existsb (λ e,
          (we_ID e ≟ readyID) && (we_To e ≟ nodeID) && (we_On e ≟ EdgeSuccess)
          && repairPathExists g from (we_From e) EdgeSuccess) (g_Edges g)) (np_ReadyEdgeIDs node)
  end.

(** One iteration of [repairPlanForDispatch]: the state an attempt of [nodeID]
    takes in the repair plan, if it takes part in it. *)
Definition repairDispatch (p : PlanProjection) (g : WorkflowGraph) (nodeID : string) (repair : RepairPlan)
    : option RepairLifecycle :=
  let targetRetry := (rp_TargetNodeID repair ≟ nodeID) && (rp_State repair ≟ RepairDispatched)
                     && retryableRepairProviderAttempt p (rp_TargetAttemptID repair) in
  if (rp_TargetNodeID repair ≟ nodeID)
     && (((rp_State repair ≟ RepairPlanned) && (rp_TargetAttemptID repair ≟ "")) || targetRetry)
     && (targetRetry || repairReadyFrom p g nodeID (rp_RepairNodeID repair) (rp_ID repair) false)
  then Some RepairDispatched
  else
    let verificationAttemptID := default "" (rp_VerificationAttempts repair !! nodeID) in
    let open := contains (rp_VerificationNodeIDs repair) nodeID
                && ((rp_State repair ≟ RepairPatched) || (rp_State repair ≟ RepairVerifying))
                && (rp_TargetAttemptID repair ≠? "") in
    let verificationRetry := open && retryableRepairProviderAttempt p verificationAttemptID in
    if open && repairReadyFrom p g nodeID (rp_TargetNodeID repair) (rp_ID repair) true
       && ((verificationAttemptID ≟ "") || verificationRetry)
    then Some RepairVerifying
    else if verificationRetry then Some RepairVerifying
    else None.

(** [p.RepairPlans[id]] as read: a missing entry is not a plan of the loop. *)
Fixpoint repairDispatchFirst (p : PlanProjection) (g : WorkflowGraph) (nodeID : string) (ids : list string)
    : option (string * RepairLifecycle) :=
  match ids with
  | [] => None
  | id :: ids' =>
      match (pp_RepairPlans p !! id) ≫= repairDispatch p g nodeID with
      | Some state => Some (id, state)
      | None => repairDispatchFirst p g nodeID ids'
      end
  end.

Section repair.
Context `{!MapRange}.

(** [repairPlanForDispatch]; [None] is the pair of empty strings. *)
Definition repairPlanForDispatch (p : PlanProjection) (g : WorkflowGraph) (nodeID : string)
    : option (string * RepairLifecycle) :=
  repairDispatchFirst p g nodeID (sort_strings (range_keys (pp_RepairPlans p))).

Definition repairLifecycleAtStart (p : PlanProjection) (g : WorkflowGraph) (nodeID : string) : RepairLifecycle :=
  match repairPlanForDispatch p g nodeID with
  | Some (id, state) => if id ≠? "" then state else RepairNone
  | None => RepairNone
  end.
End repair.

(** ** Planning a repair *)

Definition string_field (fields : gmap string value) (k : string) : string :=
  match fields !! k with Some (VString s) => s | _ => "" end.

Definition createRepairPlan (p : PlanProjection) (plan : RequirementExecutionPlan) (a : NodeAttempt)
    : result RepairPlan :=
  let g := pl_GraphSnapshot plan in
  let fields := res_Fields (na_Result a) in
  let target := TrimSpace (string_field fields "target_node_id") in
  let verification := repairVerificationNodes a in
  let maxRounds := intValue (fields !! "max_rounds") in
  reject ((target ≟ "") || bool_decide (verification = []) || (maxRounds <? 1)%Z)
    (Wrapf "%w: repair decision is incomplete" [] (ESentinel ErrInvalidTransition)) ;;;
  reject (bool_decide (pp_Nodes p !! target = None))
    (Wrapf "%w: repair target %s is unknown" [target] (ESentinel ErrInvalidTransition)) ;;;
  check_each (λ _ id, reject (bool_decide (pp_Nodes p !! id = None))
      (Wrapf "%w: repair verification node %s is unknown" [id] (ESentinel ErrInvalidTransition)))
    verification ;;;
  reject (negb (repairPathExists g (na_NodeID a) target EdgeSuccess))
    (Wrapf "%w: repair target %s is not on a success edge" [target] (ESentinel ErrInvalidTransition)) ;;;
  check_each (λ _ id, reject (negb (repairPathExists g target id EdgeSuccess))
      (Wrapf "%w: verification node %s is not reachable from target" [id] (ESentinel ErrInvalidTransition)))
    verification ;;;
  Ok {| rp_ID := pl_ID plan +:+ ":repair:" +:+ na_ID a; rp_PlanID := pl_ID plan;
        rp_RepairNodeID := na_NodeID a; rp_RepairAttemptID := na_ID a;
        rp_RepairAttemptIDs := [na_ID a]; rp_TargetNodeID := target;
        rp_VerificationNodeIDs := verification;
        rp_SourceAttemptIDs := stringSliceValue (fields !! "source_attempt_ids");
        rp_Scope := stringSliceValue (fields !! "scope"); rp_MaxRounds := maxRounds; rp_Round := 1;
        rp_State := RepairPlanned; rp_StateHistory := [RepairPlanned]; rp_TargetAttemptID := "";
        rp_VerificationAttempts := ∅; rp_VerifiedNodes := ∅; rp_PatchArtifactIDs := [];
        rp_VerificationArtifactIDs := []; rp_LastReasonCode := "" |}.

(** ** Advancing a repair *)

(** One node of [resetRepairRound]'s loop. *)
Definition resetRepairNode (repair : RepairPlan) (p : PlanProjection) (nodeID : string) : PlanProjection :=
  match pp_Nodes p !! nodeID with
  | None => p
  | Some node =>
      if np_Status node ≟ AttemptRunning then p else
      let node := np_set_RetryAt None node in
      put_node nodeID
        (if nodeID ≟ rp_TargetNodeID repair
         then np_set_ReadyEdgeIDs [repair_marker (rp_ID repair)] (np_set_Status AttemptReady node)
         else np_set_ReadyEdgeIDs [] (np_set_Status AttemptPending node)) p
  end.
Definition resetRepairRound (p : PlanProjection) (repair : RepairPlan) : PlanProjection :=
  foldl (resetRepairNode repair) p (rp_TargetNodeID repair :: rp_VerificationNodeIDs repair).

Definition cannot (what : string) (repair : RepairPlan) : error :=
  Wrapf ("%w: repair %s cannot " +:+ what) [rp_ID repair] (ESentinel ErrInvalidTransition).

Definition stopped (s : AttemptStatus) : bool :=
  (s ≟ AttemptFailed) || (s ≟ AttemptTimedOut) || (s ≟ AttemptCancelled).

(** The failure branches of [advanceRepairAttemptState] (lines 883-903): the next
    round while there is one, [RepairExhausted] otherwise.
    The round counter stays below [MaxRounds], so the increment does not wrap. *)
Definition failRepairRound (reopen : string) (p : PlanProjection) (repair : RepairPlan)
    : PlanProjection * result RepairLifecycle :=
  match setRepairState repair RepairFailed with
  | None => (p, Err (cannot "transition to failed" repair))
  | Some repair =>
      if (rp_Round repair <? rp_MaxRounds repair)%Z then
        let repair := rp_set_VerifiedNodes ∅ (rp_set_VerificationAttempts ∅
                        (rp_set_TargetAttemptID "" (rp_set_Round (rp_Round repair + 1) repair))) in
        let p := resetRepairRound p repair in
        match setRepairState repair RepairPlanned with
        | None => (p, Err (cannot reopen repair))
        | Some repair => (put_repair (rp_ID repair) repair p, Ok RepairFailed)
        end
      else
        match setRepairState repair RepairExhausted with
        | None => (p, Err (cannot "transition to exhausted" repair))
        | Some repair => (put_repair (rp_ID repair) repair p, Ok RepairExhausted)
        end
  end.

(** The target attempt passed (lines 873-904). *)
Definition patchRepair (p : PlanProjection) (repair : RepairPlan) (a : NodeAttempt)
    : PlanProjection * result RepairLifecycle :=
  match setRepairState repair RepairPatched with
  | None => (p, Err (cannot "transition to patched" repair))
  | Some repair =>
      let repair := rp_set_PatchArtifactIDs
                      (appendUnique (rp_PatchArtifactIDs repair) (na_OutputArtifacts a)) repair in
      (put_repair (rp_ID repair) repair p, Ok RepairPatched)
  end.

(** A verification attempt passed (lines 905-949).  [VerifiedNodes] is the map
    the projection holds: its new entry stays when the state cannot change. *)
Definition verifyRepair (p : PlanProjection) (repair : RepairPlan) (a : NodeAttempt)
    : PlanProjection * result RepairLifecycle :=
  let verified := <[na_NodeID a := true]> (rp_VerifiedNodes repair) in
  let p := put_repair (na_RepairPlanID a) (rp_set_VerifiedNodes verified repair) p in
  let repair := rp_set_VerificationArtifactIDs
                  (appendUnique (rp_VerificationArtifactIDs repair) (na_OutputArtifacts a))
                  (rp_set_VerifiedNodes verified repair) in
  if size (rp_VerifiedNodes repair) ≟ length (rp_VerificationNodeIDs repair) then
    match setRepairState repair RepairVerified with
    | None => (p, Err (cannot "transition to verified" repair))
    | Some repair =>
        (put_repair (rp_ID repair) repair p,
         Ok (if rp_State repair ≟ RepairVerified then RepairVerified else RepairVerifying))
    end
  else
    match setRepairState repair RepairVerifying with
    | None => (p, Err (cannot "remain verifying" repair))
    | Some repair =>
        (put_repair (rp_ID repair) repair p,
         Ok (if rp_State repair ≟ RepairVerified then RepairVerified else RepairVerifying))
    end.

Definition advanceRepairAttemptState (p : PlanProjection) (a : NodeAttempt)
    : PlanProjection * result RepairLifecycle :=
  if na_RepairPlanID a ≟ "" then (p, Ok (na_RepairState a)) else
  match pp_RepairPlans p !! na_RepairPlanID a with
  | None => (p, Err (Wrapf "%w: repair plan %s is missing" [na_RepairPlanID a] (ESentinel ErrInvalidTransition)))
  | Some repair =>
      if isRetryableRepairProviderFailure a
      then (put_repair (rp_ID repair) repair p, Ok (na_RepairState a))
      else match na_RepairState a with
      | RepairDispatched =>
          if na_Status a ≟ AttemptPassed then patchRepair p repair a
          else if stopped (na_Status a) then failRepairRound "reopen after failure" p repair
          else (p, Ok (na_RepairState a))
      | RepairVerifying =>
          if na_Status a ≟ AttemptPassed then verifyRepair p repair a
          else if stopped (na_Status a) then failRepairRound "reopen after verification failure" p repair
          else (p, Ok (na_RepairState a))
      | _ => (p, Ok (na_RepairState a))
      end
  end.
