(* ===== verification/RepairSpec.v ===== *)
(** * RepairSpec: the repair lifecycle as a state machine

    [lifecycle_run] is the run relation of the lifecycle; a plan's history is
    well formed when it records such a run from [RepairPlanned] to the plan's
    state.  Every function that changes a repair plan keeps that. *)
From stdpp Require Import base strings gmap list pretty.
From Stdlib Require Import ZArith.
From S2P Require Import Prelude GoLib GoValue GoJson ContextModel OrchModel GraphSearch Validate ProjectionData Projection Repair.

Inductive lifecycle_run : RepairLifecycle → list RepairLifecycle → RepairLifecycle → Prop :=
  | run_nil s : lifecycle_run s [] s
  | run_cons s t l u :
      repairLifecycleTransitionAllowed s t = true → lifecycle_run t l u → lifecycle_run s (t :: l) u.

Definition history_wf (r : RepairPlan) : Prop :=
  ∃ l, rp_StateHistory r = RepairPlanned :: l ∧ lifecycle_run RepairPlanned l (rp_State r).

(** A repair plan as the projection stores it. *)
Definition repair_wf (id : string) (r : RepairPlan) : Prop := rp_ID r = id ∧ history_wf r.

Create HintDb repair.
#[export] Hint Constructors lifecycle_run : repair.

Lemma lifecycle_run_snoc s l t u :
  lifecycle_run s l t → repairLifecycleTransitionAllowed t u = true → lifecycle_run s (l ++ [u]) u.
Proof. induction 1; intros; simpl; eauto with repair. Qed.

Lemma lifecycle_run_last s l t : lifecycle_run s l t → last (s :: l) = Some t.
Proof. induction 1 as [|s t l u _ _ IH]; [done|]. by rewrite last_cons_cons. Qed.

Lemma lifecycle_run_valid s l t :
  validRepairLifecycle s = true → lifecycle_run s l t → validRepairLifecycle t = true.
Proof.
  intros Hs. induction 1 as [|s t l u Ha _ IH]; [done|]. apply IH.
  unfold repairLifecycleTransitionAllowed in Ha. case_bool_decide; [congruence|].
  destruct s; try discriminate;
    repeat (apply orb_true_iff in Ha as [Ha|Ha]; [|]); apply bool_decide_eq_true in Ha; by subst.
Qed.

Lemma history_wf_valid r : history_wf r → validRepairLifecycle (rp_State r) = true.
Proof. intros (l & _ & Hr). by eapply lifecycle_run_valid in Hr. Qed.

Lemma history_wf_ext r r' :
  rp_State r' = rp_State r → rp_StateHistory r' = rp_StateHistory r → history_wf r → history_wf r'.
Proof. unfold history_wf. by intros -> ->. Qed.

(** On a plan with a well-formed history, [setRepairState] appends the new state
    and changes nothing else, or refuses a step the lifecycle does not have. *)
Lemma setRepairState_wf r s :
  history_wf r →
  setRepairState r s =
    if validRepairLifecycle s && repairLifecycleTransitionAllowed (rp_State r) s
    then Some (if rp_State r ≟ s then r
               else rp_set_StateHistory (rp_StateHistory r ++ [s]) (rp_set_State s r))
    else None.
Proof.
  intros Hwf. pose proof (history_wf_valid r Hwf) as Hv. destruct Hwf as (l & Hh & Hr).
  pose proof (lifecycle_run_last _ _ _ Hr) as Hl.
  unfold setRepairState. destruct (validRepairLifecycle s); simpl; [|done].
  rewrite bool_decide_eq_false_2 by (intros E; by rewrite E in Hv).
  destruct (repairLifecycleTransitionAllowed _ _); simpl; [|done].
  rewrite Hh. rewrite (bool_decide_eq_false_2 (_ :: _ = [])) by done. rewrite Hl.
  rewrite (bool_decide_eq_true_2 (Some _ = Some _)) by done. simpl.
  case_bool_decide as E; simpl; [|done]. f_equal. rewrite <- Hh. by destruct r.
Qed.

Lemma setRepairState_history r s r' :
  history_wf r → setRepairState r s = Some r' →
  history_wf r' ∧ rp_State r' = s ∧ rp_StateHistory r `prefix_of` rp_StateHistory r' ∧ rp_ID r' = rp_ID r.
Proof.
  intros Hwf. rewrite (setRepairState_wf r s Hwf).
  destruct (validRepairLifecycle s && _) eqn:E; [|done]. intros [= <-].
  apply andb_true_iff in E as [_ E]. case_bool_decide as Hs; [done|]. simpl.
  split_and!; [|done|by eexists|done]. destruct Hwf as (l & Hh & Hr).
  exists (l ++ [s]). simpl. rewrite Hh. split; [done|]. by eapply lifecycle_run_snoc.
Qed.

(** What a stored plan becomes: its history is extended. *)
Definition repair_step (m m' : gmap string RepairPlan) : Prop :=
  map_Forall repair_wf m →
  map_Forall repair_wf m' ∧
  (∀ id r, m !! id = Some r →
     ∃ r', m' !! id = Some r' ∧ rp_StateHistory r `prefix_of` rp_StateHistory r').

Lemma repair_step_refl m : repair_step m m.
Proof. intros Hm. split; [done|]. intros id r Hr. by exists r. Qed.

Lemma repair_step_trans m1 m2 m3 : repair_step m1 m2 → repair_step m2 m3 → repair_step m1 m3.
Proof.
  intros H1 H2 Hm. destruct (H1 Hm) as [Hm2 E1]. destruct (H2 Hm2) as [Hm3 E2]. split; [done|].
  intros id r Hr. destruct (E1 _ _ Hr) as (r' & Hr' & Hp). destruct (E2 _ _ Hr') as (r'' & Hr'' & Hp').
  exists r''. split; [done|]. by etrans.
Qed.

(** Storing a plan that extends the one already there. *)
Lemma repair_step_update m id r r' :
  m !! id = Some r →
  (repair_wf id r → repair_wf id r' ∧ rp_StateHistory r `prefix_of` rp_StateHistory r') →
  repair_step m (<[id := r']> m).
Proof.
  intros Hr Hext Hm. destruct (Hext (Hm _ _ Hr)) as [Hwf Hp]. split.
  - by apply map_Forall_insert_2.
  - intros k s Hs. destruct (decide (k = id)) as [->|Hne].
    + exists r'. rewrite lookup_insert_eq. split; [done|]. by simplify_eq.
    + exists s. by rewrite lookup_insert_ne.
Qed.

#[export] Hint Resolve repair_step_refl : repair.

(** ** The operations *)

Lemma resetRepairRound_repairs p r : pp_RepairPlans (resetRepairRound p r) = pp_RepairPlans p.
Proof.
  unfold resetRepairRound. generalize (rp_TargetNodeID r :: rp_VerificationNodeIDs r). intros l.
  revert p. induction l as [|x l IH]; intros p; [done|]. cbn [foldl]. rewrite IH.
  unfold resetRepairNode. destruct (pp_Nodes p !! x); [|done]. by case_bool_decide.
Qed.

(** Chaining the two assignments of a failed round. *)
Lemma failRepairRound_step reopen p id r :
  pp_RepairPlans p !! id = Some r →
  map_Forall repair_wf (pp_RepairPlans p) →
  repair_step (pp_RepairPlans p) (pp_RepairPlans (failRepairRound reopen p r).1).
Proof.
  intros Hr Hm. pose proof (Hm _ _ Hr) as [Hid Hwf]. unfold failRepairRound.
  destruct (setRepairState r RepairFailed) as [r1|] eqn:E1; [|auto with repair].
  destruct (setRepairState_history _ _ _ Hwf E1) as (Hwf1 & _ & Hp1 & Hid1).
  destruct (rp_Round r1 <? rp_MaxRounds r1)%Z.
  - set (r2 := rp_set_VerifiedNodes _ _).
    assert (history_wf r2) as Hwf2 by by apply (history_wf_ext r1).
    destruct (setRepairState r2 RepairPlanned) as [r3|] eqn:E3; simpl.
    + destruct (setRepairState_history _ _ _ Hwf2 E3) as (Hwf3 & _ & Hp3 & Hid3).
      rewrite resetRepairRound_repairs.
      assert (rp_ID r3 = id) as -> by (rewrite Hid3; simpl; congruence).
      eapply repair_step_update; [done|]. intros _. split; [split; [|done]|].
      * rewrite Hid3. simpl. congruence.
      * etrans; [exact Hp1|exact Hp3].
    + rewrite resetRepairRound_repairs. auto with repair.
  - destruct (setRepairState r1 RepairExhausted) as [r3|] eqn:E3; simpl; [|auto with repair].
    destruct (setRepairState_history _ _ _ Hwf1 E3) as (Hwf3 & _ & Hp3 & Hid3).
    assert (rp_ID r3 = id) as Hid' by congruence. rewrite Hid'.
    eapply repair_step_update; [done|]. intros _. split; [done|]. by etrans.
Qed.

Lemma patchRepair_step p id r a :
  pp_RepairPlans p !! id = Some r →
  map_Forall repair_wf (pp_RepairPlans p) →
  repair_step (pp_RepairPlans p) (pp_RepairPlans (patchRepair p r a).1).
Proof.
  intros Hr Hm. pose proof (Hm _ _ Hr) as [Hid Hwf]. unfold patchRepair.
  destruct (setRepairState r RepairPatched) as [r1|] eqn:E1; simpl; [|auto with repair].
  destruct (setRepairState_history _ _ _ Hwf E1) as (Hwf1 & _ & Hp1 & Hid1).
  rewrite Hid1, Hid. eapply repair_step_update; [done|]. intros _. split; [split|].
  - simpl. congruence.
  - by apply (history_wf_ext r1).
  - done.
Qed.

Lemma verifyRepair_step p r a :
  pp_RepairPlans p !! na_RepairPlanID a = Some r →
  map_Forall repair_wf (pp_RepairPlans p) →
  repair_step (pp_RepairPlans p) (pp_RepairPlans (verifyRepair p r a).1).
Proof.
  intros Hr Hm. pose proof (Hm _ _ Hr) as [Hid Hwf]. unfold verifyRepair.
  set (id := na_RepairPlanID a) in *. set (v := <[na_NodeID a := true]> _).
  set (r1 := rp_set_VerificationArtifactIDs _ _).
  assert (history_wf r1) as Hwf1 by by apply (history_wf_ext r).
  assert (repair_step (pp_RepairPlans p) (<[id := rp_set_VerifiedNodes v r]> (pp_RepairPlans p))) as H1.
  { eapply repair_step_update; [done|]. intros _. split; [split; [done|]|done]. by apply (history_wf_ext r). }
  assert (∀ s r2, setRepairState r1 s = Some r2 →
    repair_step (pp_RepairPlans p) (<[rp_ID r2 := r2]> (<[id := rp_set_VerifiedNodes v r]> (pp_RepairPlans p)))) as H2.
  { intros s r2 E2. destruct (setRepairState_history _ _ _ Hwf1 E2) as (Hwf2 & _ & Hp2 & Hid2).
    assert (rp_ID r2 = id) as Hid' by (rewrite Hid2; simpl; congruence). rewrite Hid', insert_insert_eq.
    eapply repair_step_update; [done|]. intros _. by split. }
  case_bool_decide.
  - destruct (setRepairState r1 RepairVerified) as [r2|] eqn:E; simpl; eauto.
  - destruct (setRepairState r1 RepairVerifying) as [r2|] eqn:E; simpl; eauto.
Qed.

(** The frame of [advanceRepairAttemptState]: attempts, counters and decisions
    are not touched, and repair plans only grow their histories. *)
Lemma advanceRepairAttemptState_step p a :
  map_Forall repair_wf (pp_RepairPlans p) →
  repair_step (pp_RepairPlans p) (pp_RepairPlans (advanceRepairAttemptState p a).1).
Proof.
  intros Hm. unfold advanceRepairAttemptState. case_bool_decide; [auto with repair|].
  destruct (pp_RepairPlans p !! na_RepairPlanID a) as [r|] eqn:Hr; [|auto with repair].
  destruct (isRetryableRepairProviderFailure a).
  { simpl. pose proof (Hm _ _ Hr) as [-> _]. rewrite insert_id by done. auto with repair. }
  destruct (na_RepairState a); try (simpl; auto with repair; fail).
  - case_bool_decide; [by eapply patchRepair_step|].
    destruct (stopped _); [by eapply failRepairRound_step|auto with repair].
  - case_bool_decide; [by eapply verifyRepair_step|].
    destruct (stopped _); [by eapply failRepairRound_step|auto with repair].
Qed.

(** What a repair decision becomes: a planned, bounded, reachable contract. *)
Lemma createRepairPlan_Ok p plan a r :
  createRepairPlan p plan a = Ok r →
  rp_State r = RepairPlanned ∧ rp_StateHistory r = [RepairPlanned] ∧ rp_Round r = 1%Z ∧ (1 ≤ rp_MaxRounds r)%Z ∧
  rp_VerificationNodeIDs r ≠ [] ∧ is_Some (pp_Nodes p !! rp_TargetNodeID r) ∧
  repairPathExists (pl_GraphSnapshot plan) (na_NodeID a) (rp_TargetNodeID r) EdgeSuccess = true ∧
  (∀ v, v ∈ rp_VerificationNodeIDs r → is_Some (pp_Nodes p !! v) ∧
     repairPathExists (pl_GraphSnapshot plan) (rp_TargetNodeID r) v EdgeSuccess = true) ∧
  rp_RepairNodeID r = na_NodeID a ∧ rp_ID r = pl_ID plan +:+ ":repair:" +:+ na_ID a.
Proof.
  unfold createRepairPlan. cbv zeta.
  rewrite !rbind_reject_Ok, rbind_any_Ok, rbind_reject_Ok, rbind_any_Ok.
  intros (E1 & E2 & [[] E3] & E4 & [[] E5] & [= <-]).
  apply check_each_reject in E3. apply check_each_reject in E5. simpl.
  apply orb_false_iff in E1 as [E1 E1c]. apply orb_false_iff in E1 as [E1a E1b].
  apply bool_decide_eq_false in E1a, E1b, E2. apply negb_false_iff in E4. apply Z.ltb_ge in E1c.
  split_and!; try done.
  - by apply not_eq_None_Some.
  - intros v Hv. rewrite Forall_forall in E3, E5. split.
    + apply not_eq_None_Some. apply E3 in Hv. by apply bool_decide_eq_false in Hv.
    + apply E5 in Hv. by apply negb_false_iff in Hv.
Qed.

Lemma fresh_history_wf r :
  rp_State r = RepairPlanned → rp_StateHistory r = [RepairPlanned] → history_wf r.
Proof. intros Hs Hh. exists []. rewrite Hs. split; [done|constructor]. Qed.

(** ** Dispatch *)

Lemma repairDispatch_state p g nodeID r st :
  repairDispatch p g nodeID r = Some st →
  (st = RepairDispatched ∧ (rp_State r = RepairPlanned ∨ rp_State r = RepairDispatched) ∧ rp_TargetNodeID r = nodeID) ∨
  (st = RepairVerifying ∧ (rp_State r = RepairPatched ∨ rp_State r = RepairVerifying)
   ∧ nodeID ∈ rp_VerificationNodeIDs r ∧ rp_TargetAttemptID r ≠ "").
Proof.
  unfold repairDispatch. cbv zeta.
  destruct (_ && (_ || _)) eqn:E1.
  - intros [= <-]. left. apply andb_true_iff in E1 as [E1 _]. apply andb_true_iff in E1 as [E0 E1].
    apply bool_decide_eq_true in E0. split; [done|]. split; [|done].
    apply orb_true_iff in E1 as [E1|E1].
    + apply andb_true_iff in E1 as [E1 _]. apply bool_decide_eq_true in E1. by left.
    + apply andb_true_iff in E1 as [E1 _]. apply andb_true_iff in E1 as [_ E1].
      apply bool_decide_eq_true in E1. by right.
  - clear E1. set (b := contains _ _ && _ && _). intros E2.
    assert (st = RepairVerifying ∧ b = true) as [-> Hb].
    { destruct b; simpl in E2.
      - split; [|done]. destruct (_ && _); [congruence|]. destruct (retryableRepairProviderAttempt _ _); congruence.
      - done. }
    right. split; [done|]. unfold b in Hb.
    apply andb_true_iff in Hb as [Hb H3]. apply andb_true_iff in Hb as [H1 H2].
    apply contains_spec in H1. apply negb_true_iff, bool_decide_eq_false in H3.
    apply orb_true_iff in H2. rewrite !bool_decide_eq_true in H2. done.
Qed.

Lemma repairDispatchFirst_Some p g nodeID ids id st :
  repairDispatchFirst p g nodeID ids = Some (id, st) →
  ∃ r, pp_RepairPlans p !! id = Some r ∧ repairDispatch p g nodeID r = Some st.
Proof.
  induction ids as [|x ids IH]; simpl; [done|].
  destruct (pp_RepairPlans p !! x) as [r|] eqn:E; simpl; [|done].
  destruct (repairDispatch p g nodeID r) eqn:E2; [|done]. intros [= <- <-]. eauto.
Qed.
