(* ===== verification/Transition.v ===== *)
(** * Transition: the reducer of internal/orchestration/transition.go

    [StartAttempt], [FinishAttempt] and [route].  Each returns the projection it
    leaves behind next to its result, so that an error path's leftovers are part
    of the model.  [wall] is the wall clock read where the input carries no time.
    Sums of [int64] counters wrap ([add64]). *)
From stdpp Require Import base strings gmap list pretty.
From Stdlib Require Import ZArith.
From S2P Require Import Prelude GoLib GoValue GoJson ContextModel OrchModel GraphSearch Validate ProjectionData Projection Repair.

(** What the reducer needs of a context envelope: its own validation, which
    accepts only a token estimate between zero and the budget. *)
Class EnvelopeContract := {
  envelope_validate : ContextEnvelope → result unit;
  envelope_tokens : ∀ e, envelope_validate e = Ok tt →
    (0 ≤ m_TokenEstimate (ce_Manifest e) ≤ m_TokenBudget (ce_Manifest e))%Z
}.

(** [for _, candidate := range plan.GraphSnapshot.Nodes { if candidate.ID == id ... break }]. *)
Definition node_definition (g : WorkflowGraph) (id : string) : WorkflowNode :=
  default zero_WorkflowNode (List.find (λ n, wn_ID n ≟ id) (g_Nodes g)).

(** [edgeSatisfied] (scheduler.go). *)
Definition satisfied_event (a : NodeAttempt) : string :=
  match na_Status a with
  | AttemptPassed => "success"
  | AttemptFailed => if EqualFold (res_Outcome (na_Result a)) "bug" then "bug" else "failure"
  | AttemptTimedOut => "timeout"
  | AttemptCancelled => "cancel"
  | AttemptWaiting => "waiting"
  | _ => ""
  end.
Definition edgeSatisfied (e : WorkflowEdge) (a : NodeAttempt) : bool :=
  if negb (eventMatches (we_On e) (na_Status a) (satisfied_event a) (res_Outcome (na_Result a))) then false
  else match EvaluatePredicate (we_Predicate e) (resultFields (na_Result a)) with
       | Ok true => forallb (contains (res_EvidenceIDs (na_Result a))) (we_RequiredEvidence e)
       | _ => false
       end.

Definition token_estimate (e : ContextEnvelope) : Z := m_TokenEstimate (ce_Manifest e).
Definition running (a : NodeAttempt) : bool := na_Status a ≟ AttemptRunning.
Definition count {A} (f : A → bool) (l : list A) : Z := Z.of_nat (length (List.filter f l)).

Section transition.
Context `{!MapRange, !Sha256, !JsonMarshal (string * StructuredResult * option FailureReason)}.
Context `{!EnvelopeContract}.

(** ** [StartAttempt] *)

(** Plan-level guards (lines 258-306). *)
Definition startPlanGuards (p : PlanProjection) (plan : RequirementExecutionPlan)
    (env : ContextEnvelope) (input : TransitionInput) (now : Time) : result unit :=
  let b := pol_Budget (pl_PolicySnapshot plan) in
  let m := ce_Manifest env in
  reject (pp_PlanID p ≠? pl_ID plan) (ESentinel ErrInvalidTransition) ;;;
  reject ((pl_Status plan ≠? PlanReady) && (pl_Status plan ≠? PlanRunning)) (ESentinel ErrInvalidTransition) ;;;
  reject (negb (IsZero (pl_Deadline plan)) && negb (Before now (pl_Deadline plan)))
    (ESentinel ErrDeadlineExceeded) ;;;
  reject ((0 <? bg_Tokens b) && (bg_Tokens b <? add64 (pp_TokenUsage p) (token_estimate env)))%Z
    (ESentinel ErrBudgetExceeded) ;;;
  reject ((0 <? bg_Concurrent b) && (bg_Concurrent b <=? count running (range_values (pp_Attempts p))))%Z
    (ESentinel ErrBudgetExceeded) ;;;
  reject (blank (m_SessionID m) || blank (m_Digest m) || blank (ce_SelectionDigest env)
          || blank (ce_ReplayKey env) || (m_TokenBudget m <=? 0)%Z
          || (m_TokenBudget m <? m_TokenEstimate m)%Z)
    (Errorf "attempt requires a complete context envelope" []) ;;;
  wrap_err "attempt context envelope: %w" [] (envelope_validate env) ;;;
  reject ((ti_PlanRevision input ≠? 0%Z) && (ti_PlanRevision input ≠? pp_Revision p))
    (ESentinel ErrStaleAttempt).

(** The idempotent replay (lines 307-318): [Ok (Some old)] when the key has been
    used for the same payload. *)
Definition startReplay (p : PlanProjection) (input : TransitionInput) : result (option NodeAttempt) :=
  if ti_IdempotencyKey input ≟ "" then Ok None else
  match pp_Idempotency p !! ti_IdempotencyKey input with
  | None => Ok None
  | Some h =>
      reject (h ≠? ti_PayloadHash input) (ESentinel ErrIdempotencyConflict) ;;;
      Ok (List.find (λ old, na_IdempotencyKey old ≟ ti_IdempotencyKey input) (range_values (pp_Attempts p)))
  end.

Definition node_tokens_used (p : PlanProjection) (nodeID : string) : Z :=
  foldl (λ used a, if na_NodeID a ≟ nodeID then add64 used (token_estimate (na_InputManifest a)) else used)
    0%Z (range_values (pp_Attempts p)).

(** Node-level guards (lines 319-360). *)
Definition startNodeGuards (p : PlanProjection) (def : WorkflowNode) (nodeID : string) (n : NodeProjection)
    (env : ContextEnvelope) (now : Time) : result unit :=
  let b := wn_Budget def in
  reject (match np_RetryAt n with Some t => Before now t | None => false end) (ESentinel ErrRetryBackoff) ;;;
  reject ((0 <? bg_Tokens b) && (bg_Tokens b <? add64 (node_tokens_used p nodeID) (token_estimate env)))%Z
    (ESentinel ErrBudgetExceeded) ;;;
  reject ((0 <? cp_MaxTokens (wn_ContextPolicy def)) && (cp_MaxTokens (wn_ContextPolicy def) <? token_estimate env))%Z
    (Wrapf "%w: node context token budget exceeded" [] (ESentinel ErrBudgetExceeded)) ;;;
  reject ((0 <? bg_Concurrent b)
          && (bg_Concurrent b <=? count (λ a, (na_NodeID a ≟ nodeID) && running a) (range_values (pp_Attempts p))))%Z
    (Wrapf "%w: node concurrency budget exceeded" [] (ESentinel ErrBudgetExceeded)) ;;;
  reject ((np_Status n ≠? AttemptReady) && (np_Status n ≠? AttemptFailed) && (np_Status n ≠? AttemptTimedOut))
    (Errorf "node %s is not ready" [nodeID]).

(** Attempt identity and lease guards (lines 361-394). *)
Definition startAttemptGuards (p : PlanProjection) (plan : RequirementExecutionPlan)
    (nodeID attemptID : string) (attemptNo : Z) (lease : Lease) (n : NodeProjection)
    (input : TransitionInput) (now : Time) : result (option NodeAttempt) :=
  reject ((np_CurrentAttempt n ≠? "") &&
          match pp_Attempts p !! np_CurrentAttempt n with Some old => running old | None => false end)
    (ESentinel ErrInvalidTransition) ;;;
  reject (blank attemptID) (Errorf "attempt id is required" []) ;;;
  match pp_Attempts p !! attemptID with
  | Some existing =>
      if (na_IdempotencyKey existing ≟ ti_IdempotencyKey input) && (ti_IdempotencyKey input ≠? "")
      then Ok (Some existing) else Err (ESentinel ErrInvalidTransition)
  | None =>
      reject (existsb (λ a, (na_PlanID a ≟ pl_ID plan) && (na_NodeID a ≟ nodeID) && (na_AttemptNo a ≟ attemptNo))
                (range_values (pp_Attempts p))) (ESentinel ErrInvalidTransition) ;;;
      reject ((ti_LeaseToken input ≠? 0%Z) && (ls_FencingToken lease ≠? ti_LeaseToken input))
        (ESentinel ErrLeaseLost) ;;;
      reject (negb (IsZero (ls_ExpiresAt lease)) && negb (Before now (ls_ExpiresAt lease)))
        (ESentinel ErrLeaseLost) ;;;
      Ok None
  end.

(** The new attempt (lines 398-406). *)
Definition new_attempt (p : PlanProjection) (plan : RequirementExecutionPlan) (def : WorkflowNode)
    (nodeID attemptID : string) (attemptNo : Z) (lease : Lease) (n : NodeProjection)
    (env : ContextEnvelope) (input : TransitionInput) (now : Time) : NodeAttempt :=
  let g := pl_GraphSnapshot plan in
  let '(repairID, state) :=
    match repairPlanForDispatch p g nodeID with
    | Some (id, state) => if id ≠? "" then (id, state) else ("", repairLifecycleAtStart p g nodeID)
    | None => ("", repairLifecycleAtStart p g nodeID)
    end in
  {| na_ID := attemptID; na_PlanID := pl_ID plan; na_NodeID := nodeID; na_AttemptNo := attemptNo;
     na_RunID := ""; na_SessionID := ""; na_WorkDir := ""; na_Lease := lease;
     na_IdempotencyKey := ti_IdempotencyKey input; na_InputManifest := env; na_OutputArtifacts := [];
     na_Result := zero_Result;
     na_RepairState := if wn_Kind def ≟ NodeRepair then RepairPlanned else state;
     na_RepairPlanID := repairID; na_Status := AttemptRunning; na_FailureReason := None;
     na_ParentAttemptID := np_CurrentAttempt n; na_RetryOf := np_CurrentAttempt n; na_ChildPlanID := "";
     na_StartedAt := Some now; na_FinishedAt := None |}.

Definition drop_start (a : NodeAttempt) (key : string) (p : PlanProjection) : PlanProjection :=
  let p := pp_set_Attempts (delete (na_ID a) (pp_Attempts p)) p in
  if key ≠? "" then pp_set_Idempotency (delete key (pp_Idempotency p)) p else p.

(** The repair plan the attempt takes part in (lines 407-436). *)
Definition startRepair (p : PlanProjection) (nodeID : string) (a : NodeAttempt) (key : string)
    : PlanProjection * result unit :=
  if na_RepairPlanID a ≟ "" then (p, Ok tt) else
  match pp_RepairPlans p !! na_RepairPlanID a with
  | None => (p, Ok tt)
  | Some repair =>
      let store r := (put_repair (na_RepairPlanID a)
                        (rp_set_LastReasonCode (RepairLifecycle_string (na_RepairState a)) r) p, Ok tt) in
      match na_RepairState a with
      | RepairDispatched =>
          match setRepairState (rp_set_TargetAttemptID (na_ID a) repair) RepairDispatched with
          | Some r => store r
          | None => (drop_start a key p, Err (cannot "transition to dispatched" repair))
          end
      | RepairVerifying =>
          match setRepairState
                  (rp_set_VerificationAttempts (<[nodeID := na_ID a]> (rp_VerificationAttempts repair)) repair)
                  RepairVerifying with
          | Some r => store r
          | None =>
              (drop_start a key
                 (put_repair (na_RepairPlanID a)
                    (rp_set_VerificationAttempts (delete nodeID (rp_VerificationAttempts repair)) repair) p),
               Err (cannot "transition to verifying" repair))
          end
      | _ => store repair
      end
  end.

(** The commit (lines 395-446). *)
Definition startCommit (p : PlanProjection) (plan : RequirementExecutionPlan) (def : WorkflowNode)
    (nodeID attemptID : string) (attemptNo : Z) (lease : Lease) (n : NodeProjection)
    (env : ContextEnvelope) (input : TransitionInput) (now : Time) : PlanProjection * result NodeAttempt :=
  let key := ti_IdempotencyKey input in
  let p := if key ≠? "" then put_key key (ti_PayloadHash input) p else p in
  let a := new_attempt p plan def nodeID attemptID attemptNo lease n env input now in
  let p := put_attempt (na_ID a) a p in
  match startRepair p nodeID a key with
  | (p, Err e) => (p, Err e)
  | (p, Ok _) =>
      let n := np_set_ReadyEdgeIDs [] (np_set_RetryAt None (np_set_AttemptNo attemptNo
                 (np_set_CurrentAttempt (na_ID a) (np_set_Status AttemptRunning n)))) in
      let p := pp_set_Status PlanRunning (put_node nodeID n p) in
      (pp_set_TokenUsage (add64 (pp_TokenUsage p) (token_estimate env)) p, Ok a)
  end.

(** What the guards decide: an earlier attempt is returned, or a new one starts. *)
Inductive StartDecision :=
  | StartReplay (a : NodeAttempt)
  | StartFresh (n : NodeProjection) (attemptNo : Z).

Definition startGuards (p : PlanProjection) (plan : RequirementExecutionPlan)
    (nodeID attemptID : string) (attemptNo : Z) (lease : Lease) (env : ContextEnvelope)
    (input : TransitionInput) (now : Time) : result StartDecision :=
  startPlanGuards p plan env input now ;;;
  let* replay := startReplay p input in
  match replay with
  | Some old => Ok (StartReplay old)
  | None =>
      match pp_Nodes p !! nodeID with
      | None => Err (Errorf "unknown node %q" [nodeID])
      | Some n =>
          startNodeGuards p (node_definition (pl_GraphSnapshot plan) nodeID) nodeID n env now ;;;
          let attemptNo := if (attemptNo <? 1)%Z then add64 (np_AttemptNo n) 1 else attemptNo in
          let* replay := startAttemptGuards p plan nodeID attemptID attemptNo lease n input now in
          Ok match replay with Some old => StartReplay old | None => StartFresh n attemptNo end
      end
  end.

Definition StartAttempt (wall : Time) (p : PlanProjection) (plan : RequirementExecutionPlan)
    (nodeID attemptID : string) (attemptNo : Z) (lease : Lease) (env : ContextEnvelope)
    (input : TransitionInput) : PlanProjection * result NodeAttempt :=
  let now := orNow wall (ti_Now input) in
  match startGuards p plan nodeID attemptID attemptNo lease env input now with
  | Err e => (p, Err e)
  | Ok (StartReplay a) => (p, Ok a)
  | Ok (StartFresh n attemptNo) =>
      startCommit p plan (node_definition (pl_GraphSnapshot plan) nodeID) nodeID attemptID attemptNo
        lease n env (ti_set_Now now input) now
  end.

(** ** [route] *)

(** The matching edges; a missing evidence id is an error. *)
Definition edge_matches (a : NodeAttempt) (input : TransitionInput) (e : WorkflowEdge) : bool :=
  (we_From e ≟ na_NodeID a) && eventMatches (we_On e) (na_Status a) (ti_Event input) (res_Outcome (na_Result a)).
Fixpoint matchEdges (a : NodeAttempt) (input : TransitionInput) (edges : list WorkflowEdge)
    : result (list WorkflowEdge) :=
  match edges with
  | [] => Ok []
  | e :: edges' =>
      if negb (edge_matches a input e) then matchEdges a input edges' else
      let* ok := EvaluatePredicate (we_Predicate e) (resultFields (na_Result a)) in
      if ok then
        check_each (λ _ required, reject (negb (contains (res_EvidenceIDs (na_Result a)) required))
            (Errorf "edge %s requires evidence %s" [we_ID e; required])) (we_RequiredEvidence e) ;;;
        let* rest := matchEdges a input edges' in Ok (e :: rest)
      else matchEdges a input edges'
  end.

(** [if e.MaxTraversals > 0 { p.Traversals[e.ID]++; if ... > ... }]. *)
Definition traverse (e : WorkflowEdge) (p : PlanProjection) : PlanProjection * result unit :=
  if (0 <? we_MaxTraversals e)%Z then
    let n := add64 (traversals_at p (we_ID e)) 1 in
    (pp_set_Traversals (<[we_ID e := n]> (pp_Traversals p)) p,
     reject (we_MaxTraversals e <? n)%Z (ESentinel ErrLoopExhausted))
  else (p, Ok tt).

Definition decision (plan : RequirementExecutionPlan) (a : NodeAttempt) (e : WorkflowEdge)
    (reason : string) (loops : Z) (key : string) : FeedbackDecision :=
  {| fd_ID := ""; fd_PlanID := pl_ID plan; fd_SourceAttempt := na_ID a; fd_SourceNode := na_NodeID a;
     fd_TargetNode := we_To e; fd_EdgeID := we_ID e; fd_StructuredResult := na_Result a;
     fd_EvidenceIDs := res_EvidenceIDs (na_Result a); fd_Reason := reason; fd_LoopCount := loops;
     fd_IdempotencyKey := key |}.

(** Opening an edge's target: a running node is left alone; only the fan-out
    branch clears the retry time. *)
Definition open_target (clear : bool) (e : WorkflowEdge) (p : PlanProjection) : PlanProjection :=
  let target := node_at p (we_To e) in
  if np_Status target ≟ AttemptRunning then p else
  let target := np_set_Status AttemptReady target in
  let target := if clear then np_set_RetryAt None target else target in
  put_node (we_To e) (np_set_ReadyEdgeIDs (appendUnique (np_ReadyEdgeIDs target) [we_ID e]) target) p.

Definition record_decision (plan : RequirementExecutionPlan) (a : NodeAttempt) (e : WorkflowEdge)
    (reason : string) (inputKey key : string) (p : PlanProjection) : PlanProjection :=
  if inputKey ≟ "" then p
  else pp_set_Decisions (pp_Decisions p ++ [decision plan a e reason (traversals_at p (we_ID e)) key]) p.

(** Every edge is a fan-out edge: all of them are followed (lines 1138-1166). *)
Fixpoint fanOut (plan : RequirementExecutionPlan) (a : NodeAttempt) (input : TransitionInput)
    (edges : list WorkflowEdge) (p : PlanProjection) : PlanProjection * result unit :=
  match edges with
  | [] => (p, Ok tt)
  | e :: edges' =>
      match traverse e p with
      | (p, Err err) => (p, Err err)
      | (p, Ok _) =>
          let key := ti_IdempotencyKey input in
          fanOut plan a input edges'
            (record_decision plan a e "fan-out predicate matched" key (key +:+ ":" +:+ we_ID e)
               (open_target true e p))
      end
  end.

(** A single edge (lines 1270-1290). *)
Definition follow (plan : RequirementExecutionPlan) (a : NodeAttempt) (input : TransitionInput)
    (e : WorkflowEdge) (p : PlanProjection) : PlanProjection * result unit :=
  match traverse e p with
  | (p, Err err) => (p, Err err)
  | (p, Ok _) =>
      let key := ti_IdempotencyKey input in
      (record_decision plan a e "predicate matched" key key (open_target false e p), Ok tt)
  end.

(** The unique edge of highest priority. *)
Definition best_edge (e : WorkflowEdge) (rest : list WorkflowEdge) : WorkflowEdge :=
  foldl (λ best x, if (we_Priority best <? we_Priority x)%Z then x else best) e rest.
Definition selectEdge (e : WorkflowEdge) (rest : list WorkflowEdge) : result WorkflowEdge :=
  let best := best_edge e rest in
  reject (1 <? count (λ x, we_Priority x ≟ we_Priority best) (e :: rest))%Z
    (ESentinel ErrAmbiguousTransition) ;;;
  Ok best.

(** The exponential backoff: the loop runs at most
    [RetryCount - 1] times and doubles up to a day. *)
Fixpoint backoff_loop (k : nat) (backoff : Duration) : Duration :=
  match k with
  | O => backoff
  | S k' =>
      if (0 <? backoff)%Z && (backoff <? 24 * Hour)%Z then
        if (12 * Hour <? backoff)%Z then (24 * Hour)%Z else backoff_loop k' (backoff + backoff)%Z
      else backoff
  end.
Definition retry_backoff (node : WorkflowNode) (retryCount : Z) : Duration :=
  backoff_loop (Z.to_nat (retryCount - 1)) (rt_Backoff (wn_RetryPolicy node)).

Definition terminate (outcome : string) (p : PlanProjection) : PlanProjection :=
  pp_set_TerminalOutcome outcome (pp_set_Status PlanTerminal p).
Definition terminal_outcome (s : AttemptStatus) : string :=
  match s with
  | AttemptPassed => "succeeded" | AttemptCancelled => "cancelled" | AttemptTimedOut => "timed_out"
  | _ => "failed"
  end.

Definition may_retry (node : WorkflowNode) (a : NodeAttempt) (input : TransitionInput) : bool :=
  ((na_Status a ≟ AttemptFailed) || (na_Status a ≟ AttemptTimedOut))
  && negb (bool_decide (na_FailureReason a = None)) && retryAllowed node a input
  && (na_AttemptNo a <? rt_MaxAttempts (wn_RetryPolicy node))%Z
  && (1 <? rt_MaxAttempts (wn_RetryPolicy node))%Z.

(** Lines 1192-1211: reopen the node once the backoff has passed. *)
Definition schedule_retry (node : WorkflowNode) (a : NodeAttempt) (now : Time) (p : PlanProjection)
    : PlanProjection :=
  let n := node_at p (na_NodeID a) in
  let n := np_set_RetryCount (add64 (np_RetryCount n) 1) n in
  let retryAt := (now + retry_backoff node (np_RetryCount n))%Z in
  pp_set_Status PlanRunning
    (put_node (na_NodeID a) (np_set_Status AttemptReady (np_set_RetryAt (Some retryAt) n)) p).

(** No edge matched (lines 1184-1269). *)
Definition routeUnmatched (plan : RequirementExecutionPlan) (a : NodeAttempt) (input : TransitionInput)
    (now : Time) (p : PlanProjection) : PlanProjection * result unit :=
  let g := pl_GraphSnapshot plan in
  let node := node_definition g (na_NodeID a) in
  if may_retry node a input then (schedule_retry node a now p, Ok tt)
  else if contains (g_ExitNodeIDs g) (na_NodeID a) then
    if bool_decide (res_EvidenceIDs (na_Result a) = []) then (p, Err (ESentinel ErrEvidenceRequired))
    else if negb (allRepairsVerified p) then
      if (na_Status a ≟ AttemptPassed) && repairVerificationPending p
      then (pp_set_Status PlanRunning p, Ok tt)
      else (terminate "failed" p, Ok tt)
    else (terminate (terminal_outcome (na_Status a)) p, Ok tt)
  else if stopped (na_Status a) then (terminate (terminal_outcome (na_Status a)) p, Ok tt)
  else (p, Ok tt).

Definition deadline_failure (a : NodeAttempt) : bool :=
  (na_Status a ≟ AttemptTimedOut) &&
  match na_FailureReason a with Some r => fr_Code r ≟ "plan_deadline_exceeded" | None => false end.

Definition route (wall : Time) (p : PlanProjection) (plan : RequirementExecutionPlan) (a : NodeAttempt)
    (input : TransitionInput) : PlanProjection * result unit :=
  let now := orNow wall (ti_Now input) in
  if deadline_failure a then (terminate "timed_out" p, Ok tt) else
  match matchEdges a input (g_Edges (pl_GraphSnapshot plan)) with
  | Err e => (p, Err e)
  | Ok [] => routeUnmatched plan a input now p
  | Ok [e] => follow plan a input e p
  | Ok (e :: rest) =>
      if forallb we_FanOut (e :: rest) then fanOut plan a input (e :: rest) p
      else match selectEdge e rest with
           | Err err => (p, Err err)
           | Ok best => follow plan a input best p
           end
  end.

(** ** [FinishAttempt] *)

Definition finish_hash (input : TransitionInput) : string :=
  if (TrimSpace (ti_IdempotencyKey input) ≠? "") && (ti_PayloadHash input ≟ "")
  then transitionPayloadHash input else ti_PayloadHash input.

(** Identity, replay and fencing (lines 454-499): the attempt is the node's
    current one; [true] says that it is returned as it is. *)
Definition finishFence (p : PlanProjection) (attemptID : string) (input : TransitionInput) (now : Time)
    : result (NodeAttempt * NodeProjection * bool) :=
  match pp_Attempts p !! attemptID with
  | None => Err (ESentinel ErrStaleAttempt)
  | Some a =>
      reject ((ti_PlanRevision input ≠? 0%Z) && (ti_PlanRevision input ≠? pp_Revision p))
        (ESentinel ErrStaleAttempt) ;;;
      match pp_Nodes p !! na_NodeID a with
      | None => Err (ESentinel ErrStaleAttempt)
      | Some n =>
          reject (np_CurrentAttempt n ≠? attemptID) (ESentinel ErrStaleAttempt) ;;;
          let wasWaiting := na_Status a ≟ AttemptWaiting in
          let finishKey := TrimSpace (ti_IdempotencyKey input) in
          let previous := if finishKey ≠? "" then pp_Idempotency p !! finishKey else None in
          reject (match previous with
                  | Some h => (h ≠? "") && (h ≠? finish_hash input)
                  | None => false end) (ESentinel ErrIdempotencyConflict) ;;;
          if negb (bool_decide (previous = None)) && negb (running a)
             && ((na_Status a ≠? AttemptWaiting) || (ti_Event input ≠? "waiting"))
          then Ok (a, n, true) else
          reject (negb (running a) && negb wasWaiting) (ESentinel ErrInvalidTransition) ;;;
          reject ((ti_LeaseToken input ≠? 0%Z) && (ls_FencingToken (na_Lease a) ≠? ti_LeaseToken input))
            (ESentinel ErrLeaseLost) ;;;
          reject (negb wasWaiting && running a && negb (IsZero (ls_ExpiresAt (na_Lease a)))
                  && negb (Before now (ls_ExpiresAt (na_Lease a))) && (ti_Event input ≠? "timeout"))
            (ESentinel ErrLeaseLost) ;;;
          Ok (a, n, false)
      end
  end.

(** Usage of a node's attempts so far (lines 520-531). *)
Definition node_usage (p : PlanProjection) (nodeID : string) : Z * Z * Z :=
  foldl (λ '(t, c, k) a,
    if na_NodeID a ≠? nodeID then (t, c, k) else
    let '(inT, inC, inK) := resultUsage (na_Result a) in
    (add64 t (add64 (token_estimate (na_InputManifest a)) inT), add64 c inC, add64 k inK))
    (0, 0, 0)%Z (range_values (pp_Attempts p)).

(** A limit is active when it is positive. *)
Definition over (limit used : Z) : bool := (0 <? limit)%Z && (limit <? used)%Z.

(** Evidence and plan budgets (lines 500-519). *)
Definition finishPlanGuards (p : PlanProjection) (plan : RequirementExecutionPlan) (input : TransitionInput)
    : result unit :=
  let b := pol_Budget (pl_PolicySnapshot plan) in
  let '(tokens, tools, cost) := resultUsage (ti_Result input) in
  (if (ti_Event input ≠? "waiting") && (ti_Event input ≠? "approval") then
     reject (bool_decide (res_EvidenceIDs (ti_Result input) = [])) (ESentinel ErrEvidenceRequired) ;;;
     check_each (λ i id, reject (blank id)
         (Wrapf "%w: evidence_ids[%d] is empty" [itoa i] (ESentinel ErrEvidenceRequired)))
       (res_EvidenceIDs (ti_Result input))
   else Ok tt) ;;;
  reject (over (bg_Tokens b) (add64 (pp_TokenUsage p) tokens)) (ESentinel ErrBudgetExceeded) ;;;
  reject (over (bg_ToolCalls b) (add64 (pp_ToolCalls p) tools)) (ESentinel ErrBudgetExceeded) ;;;
  reject (over (bg_CostCents b) (add64 (pp_CostCents p) cost)) (ESentinel ErrBudgetExceeded).

(** Node budgets (lines 532-555). *)
Definition finishNodeGuards (p : PlanProjection) (def : WorkflowNode) (a : NodeAttempt)
    (input : TransitionInput) (now : Time) : result unit :=
  let b := wn_Budget def in
  let '(tokens, tools, cost) := resultUsage (ti_Result input) in
  let '(nodeTokens, nodeTools, nodeCost) := node_usage p (na_NodeID a) in
  reject (over (bg_Tokens b) (add64 nodeTokens tokens))
    (Wrapf "%w: node token budget exceeded" [] (ESentinel ErrBudgetExceeded)) ;;;
  reject (over (bg_ToolCalls b) (add64 nodeTools tools))
    (Wrapf "%w: node tool budget exceeded" [] (ESentinel ErrBudgetExceeded)) ;;;
  reject (over (bg_CostCents b) (add64 nodeCost cost))
    (Wrapf "%w: node cost budget exceeded" [] (ESentinel ErrBudgetExceeded)) ;;;
  reject (match na_StartedAt a with
          | Some t => over (bg_Duration b) (Sub now t) | None => false end)
    (Wrapf "%w: node duration budget exceeded" [] (ESentinel ErrBudgetExceeded)).

(** The event's status (lines 559-578). *)
Definition finishStatus (event : string) : result AttemptStatus :=
  if contains ["success"; "passed"; "pass"] event then Ok AttemptPassed
  else if contains ["failure"; "failed"; "fail"; "bug"] event then Ok AttemptFailed
  else if contains ["timeout"; "timed_out"] event then Ok AttemptTimedOut
  else if contains ["cancel"; "cancelled"] event then Ok AttemptCancelled
  else if contains ["approval"; "approved"; "waiting"] event then Ok AttemptWaiting
  else if event ≟ "approval_granted" then Ok AttemptPassed
  else if event ≟ "approval_denied" then Ok AttemptFailed
  else Err (Wrapf "%w: unsupported event %s" [event] (ESentinel ErrInvalidTransition)).

(** Refreshing the live plan of the same repair node. *)
Definition reuse_repair (a : NodeAttempt) (id : string) (existing repair : RepairPlan) : RepairPlan :=
  let history := if bool_decide (rp_StateHistory existing = []) then [rp_State existing]
                 else rp_StateHistory existing in
  rp_set_RepairAttemptIDs (appendUnique (rp_RepairAttemptIDs existing) [na_ID a])
    (rp_set_StateHistory history (rp_set_State (rp_State existing)
       (rp_set_Round (rp_Round existing) (rp_set_ID id repair)))).
Definition storeRepair (p : PlanProjection) (a : NodeAttempt) (repair : RepairPlan)
    : PlanProjection * NodeAttempt :=
  match List.find (λ '(_, existing), (rp_RepairNodeID existing ≟ na_NodeID a)
                     && (rp_State existing ≠? RepairVerified) && (rp_State existing ≠? RepairExhausted))
          (range (pp_RepairPlans p)) with
  | Some (id, existing) =>
      let repair := reuse_repair a id existing repair in
      let p := put_repair id repair p in
      let a := na_set_RepairPlanID id a in
      if id ≟ "" then (put_repair (rp_ID repair) repair p, na_set_RepairPlanID (rp_ID repair) a) else (p, a)
  | None =>
      if na_RepairPlanID a ≟ ""
      then (put_repair (rp_ID repair) repair p, na_set_RepairPlanID (rp_ID repair) a)
      else (p, a)
  end.

(** A finished repair node plans a repair (lines 579-631); an attempt that takes
    part in one advances it; the state is copied into the result. *)
Definition finishRepair (p : PlanProjection) (plan : RequirementExecutionPlan) (def : WorkflowNode)
    (a : NodeAttempt) : PlanProjection * result NodeAttempt :=
  if wn_Kind def ≟ NodeRepair then
    if na_Status a ≟ AttemptPassed then
      let explicit := TrimSpace (rpol_TargetNodeID (wn_RepairPolicy def)) in
      let target := if explicit ≟ "" then resolveRepairTarget (pl_GraphSnapshot plan) def else explicit in
      if (target ≟ "") || bool_decide (repairVerificationNodes a = []) then
        (p, Err (Wrapf "%w: repair target and verification contract are required" [] (ESentinel ErrInvalidTransition)))
      else
        let a := na_set_RepairState RepairPlanned a in
        match createRepairPlan p plan a with
        | Err e => (p, Err e)
        | Ok repair => let '(p, a) := storeRepair p a repair in (p, Ok a)
        end
    else if (na_Status a ≟ AttemptFailed) || (na_Status a ≟ AttemptTimedOut)
    then (p, Ok (na_set_RepairState RepairExhausted a))
    else (p, Ok a)
  else if na_RepairState a ≟ RepairNone then (p, Ok a)
  else match advanceRepairAttemptState p a with
       | (p, Err e) => (p, Err e)
       | (p, Ok state) => (p, Ok (na_set_RepairState state a))
       end.

(** Lines 632-648: the repair state joins the result; only a waiting attempt
    has no finish time. *)
Definition stamp (now : Time) (a : NodeAttempt) : NodeAttempt :=
  let r := na_Result a in
  let a := if na_RepairState a ≟ RepairNone then a else
    na_set_Result {| res_Outcome := res_Outcome r; res_ReasonCode := res_ReasonCode r;
                     res_Fields := <["repair_state" := VString (RepairLifecycle_string (na_RepairState a))]>
                                     (res_Fields r);
                     res_Summary := res_Summary r; res_EvidenceIDs := res_EvidenceIDs r |} a in
  na_set_FinishedAt (if na_Status a ≠? AttemptWaiting then Some now else None) a.

(** Lines 671-687: a failed branch opens the joins that short-circuit on it. *)
Definition shortCircuit (plan : RequirementExecutionPlan) (a : NodeAttempt) (p : PlanProjection)
    : PlanProjection :=
  let g := pl_GraphSnapshot plan in
  if negb (stopped (na_Status a)) then p else
  foldl (λ p candidate,
    if wn_JoinFailurePolicy candidate ≠? "short_circuit" then p
    else if existsb (λ e, (we_From e ≟ na_NodeID a) && (we_To e ≟ wn_ID candidate) && edgeSatisfied e a) (g_Edges g)
    then let join := node_at p (wn_ID candidate) in
         if (np_Status join ≠? AttemptRunning) && (np_Status join ≠? AttemptPassed)
         then put_node (wn_ID candidate) (np_set_Status AttemptReady join) p else p
    else p) p (g_Nodes g).

(** The recorded completion (lines 659-670). *)
Definition finishRecord (p : PlanProjection) (n : NodeProjection) (a : NodeAttempt) (attemptID : string)
    (input : TransitionInput) : PlanProjection :=
  let '(tokens, tools, cost) := resultUsage (ti_Result input) in
  let key := TrimSpace (ti_IdempotencyKey input) in
  let p := put_node (na_NodeID a) (np_set_Status (na_Status a) n) (put_attempt attemptID a p) in
  let p := pp_set_CostCents (add64 (pp_CostCents p) cost)
             (pp_set_ToolCalls (add64 (pp_ToolCalls p) tools)
               (pp_set_TokenUsage (add64 (pp_TokenUsage p) tokens) p)) in
  if key ≠? "" then put_key key (finish_hash input) p else p.

(** The rollback after a routing error (lines 649-703): [before] is the
    projection when the snapshots were taken, [p] the one [route] left. *)
Definition finishRollback (before p : PlanProjection) (attemptID nodeID : string) (input : TransitionInput)
    : PlanProjection :=
  let key := TrimSpace (ti_IdempotencyKey input) in
  let p := match pp_Attempts before !! attemptID with Some old => put_attempt attemptID old p | None => p end in
  let p := put_node nodeID (node_at before nodeID) p in
  let p := pp_set_Status (pp_Status before) p in
  let p := pp_set_Traversals (pp_Traversals before) p in
  let p := pp_set_Decisions (take (length (pp_Decisions before)) (pp_Decisions p)) p in
  let p := pp_set_RepairPlans (pp_RepairPlans (cloneProjection before)) p in
  if key ≟ "" then p else
  match pp_Idempotency before !! key with
  | Some h => put_key key h p
  | None => pp_set_Idempotency (delete key (pp_Idempotency p)) p
  end.

(** Whether the completion is routed. *)
Definition routes (s : AttemptStatus) (event : string) : bool :=
  (s ≟ AttemptPassed) || stopped s
  || ((s ≟ AttemptWaiting) && (event ≠? "waiting") && (event ≠? "approval")).

(** Lines 706-712. *)
Definition finishReason (a : NodeAttempt) (p : PlanProjection) : PlanProjection :=
  if na_RepairPlanID a ≟ "" then p else
  match pp_RepairPlans p !! na_RepairPlanID a with
  | Some repair => put_repair (na_RepairPlanID a) (rp_set_LastReasonCode (res_ReasonCode (na_Result a)) repair) p
  | None => p
  end.

Definition finishCommit (wall : Time) (p : PlanProjection) (plan : RequirementExecutionPlan)
    (n : NodeProjection) (a : NodeAttempt) (attemptID : string) (input : TransitionInput)
    : PlanProjection * result NodeAttempt :=
  let p1 := shortCircuit plan a (finishRecord p n a attemptID input) in
  if routes (na_Status a) (ti_Event input) then
    match route wall p1 plan a input with
    | (p2, Err e) => (finishRollback p p2 attemptID (na_NodeID a) input, Err e)
    | (p2, Ok _) => (finishReason a p2, Ok a)
    end
  else (finishReason a p1, Ok a).

Definition FinishAttempt (wall : Time) (p : PlanProjection) (plan : RequirementExecutionPlan)
    (attemptID : string) (input : TransitionInput) : PlanProjection * result NodeAttempt :=
  let now := orNow wall (ti_Now input) in
  match finishFence p attemptID input now with
  | Err e => (p, Err e)
  | Ok (a, n, true) => (p, Ok a)
  | Ok (a, n, false) =>
      let input := ti_set_Now now input in
      let def := node_definition (pl_GraphSnapshot plan) (na_NodeID a) in
      match (finishPlanGuards p plan input ;;; finishNodeGuards p def a input now ;;;
             finishStatus (ti_Event input)) with
      | Err e => (p, Err e)
      | Ok status =>
          let a := na_set_Status status (na_set_FailureReason (ti_Failure input)
                     (na_set_OutputArtifacts (appendUnique (na_OutputArtifacts a) (ti_OutputArtifacts input))
                       (na_set_Result (ti_Result input) a))) in
          match finishRepair p plan def a with
          | (p, Err e) => (p, Err e)
          | (p, Ok a) => finishCommit wall p plan n (stamp now a) attemptID input
          end
      end
  end.
End transition.
