(* ===== verification/ContextSpec.v ===== *)
(** * ContextSpec: what a validated context promises

    The lemmas behind the context properties, and the instance that discharges
    the reducer's interface to envelopes ([EnvelopeContract]). *)
From stdpp Require Import base strings gmap list pretty sorting.
From Stdlib Require Import ZArith Lia.
From S2P Require Import Prelude GoLib GoValue GoJson ContextModel OrchModel GraphSearch Validate ProjectionData Projection Repair Transition.

Section spec.
Context `{!Sha256, !JsonMarshal PromptManifest, !JsonMarshal Manifest,
            !JsonMarshal (string * PromptManifest)}.
Context `{!JsonMarshal HarnessManifest, !JsonMarshal (string * list (string * string * string)),
            !JsonMarshal (string * list Block)}.

Lemma ContextManifest_Validate_tokens m :
  ContextManifest_Validate m = Ok tt →
  (0 ≤ m_TokenEstimate m ≤ m_TokenBudget m)%Z ∧ blank (m_SessionID m) = false.
Proof.
  unfold ContextManifest_Validate. rewrite rbind_reject_Ok. intros [E _].
  apply orb_false_iff in E as [E E6]. apply orb_false_iff in E as [E E5].
  apply orb_false_iff in E as [E E4]. apply orb_false_iff in E as [E E3].
  apply orb_false_iff in E as [E1 _]. split; [lia|done].
Qed.

Lemma ContextEnvelope_Validate_tokens e :
  ContextEnvelope_Validate e = Ok tt →
  (0 ≤ m_TokenEstimate (ce_Manifest e) ≤ m_TokenBudget (ce_Manifest e))%Z.
Proof.
  unfold ContextEnvelope_Validate. rewrite rbind_any_Ok. intros [[[] Hm] _].
  by apply ContextManifest_Validate_tokens.
Qed.

(** The harness's envelope validation meets the reducer's interface. *)
#[export] Instance harness_envelope : EnvelopeContract :=
  {| envelope_validate := ContextEnvelope_Validate; envelope_tokens := ContextEnvelope_Validate_tokens |}.

Definition colon : Ascii.ascii := Ascii.ascii_of_nat 58.

(** A string with a colon is not blank. *)
Lemma colon_not_blank s t : blank (s +:+ ":" +:+ t) = false.
Proof.
  apply (not_blank colon); [|done..]. rewrite !list_ascii_app. apply elem_of_app. right. left.
Qed.

Lemma ContextManifest_Envelope_Ok m e :
  ContextManifest_Envelope m = Ok e →
  ContextManifest_Validate m = Ok tt ∧ ce_Manifest e = m ∧ blank (ce_SelectionDigest e) = false ∧
  blank (ce_ReplayKey e) = false ∧
  ∃ data, json_marshal (m_Digest m, m_Blocks m) = Some data ∧ ce_SelectionDigest e = harnessDigest data.
Proof.
  unfold ContextManifest_Envelope. rewrite rbind_any_Ok. intros [[[] Hm] He].
  destruct (json_marshal _) as [data|] eqn:Ej; [|done]. injection He as <-. simpl.
  split_and!; [done|done| | |by eexists].
  - unfold harnessDigest. apply (colon_not_blank "sha256").
  - apply colon_not_blank.
Qed.

(** ** A manifest the constructor builds *)

Lemma prepare_blocks_spec bs i acc cp required total :
  fold_each_from i prepare_block acc bs = Ok (cp, required, total) →
  cp = acc.1.1 ++ (fillHash <$> bs) ∧
  required = acc.1.2 ++ (b_ID <$> filter (λ b, b_Mandatory b = true) bs) ∧
  total = foldl (λ t b, add64 t (b_TokenEstimate b)) acc.2 bs ∧
  Forall (λ b, block_unlined b = false) bs.
Proof.
  revert i acc. induction bs as [|b bs IH]; intros i [[cp0 rq0] t0]; cbn [fold_each_from fst snd].
  - intros [= <- <- <-]. by rewrite !app_nil_r.
  - rewrite rbind_Ok. intros (acc' & Hb & Hrest). unfold prepare_block in Hb.
    rewrite rbind_reject_Ok in Hb. destruct Hb as [Hu [= <-]].
    apply IH in Hrest as (-> & -> & -> & Hall). cbn [fst snd foldl fmap list_fmap]. split_and!; [..|by constructor].
    + by rewrite <- app_assoc.
    + rewrite filter_cons. destruct (b_Mandatory b); simpl; [|done]. by rewrite <- app_assoc.
    + done.
Qed.

Lemma fillHash_fields b :
  b_ID (fillHash b) = b_ID b ∧ b_Mandatory (fillHash b) = b_Mandatory b ∧
  b_TokenEstimate (fillHash b) = b_TokenEstimate b ∧ b_Content (fillHash b) = b_Content b.
Proof. unfold fillHash. by destruct (_ ≟ _). Qed.

Lemma sha256_nonempty s : sha256_hex s ≠ "".
Proof. intros E. pose proof (sha256_nonblank s) as Hb. by rewrite E in Hb. Qed.

(** The blocks loop of [Manifest.Validate] accepts distinct, correctly hashed blocks. *)
Lemma check_blocks_Ok bs i acc :
  Forall (λ b, b_ID b ≠ "" ∧ b_Hash b = HashBlock b) bs → NoDup (b_ID <$> bs) →
  (∀ b, b ∈ bs → b_ID b ∉ ba_seen acc) →
  fold_each_from i check_block acc bs = Ok
    {| ba_seen := reverse (b_ID <$> bs) ++ ba_seen acc;
       ba_required := reverse (b_ID <$> filter (λ b, b_Mandatory b = true) bs) ++ ba_required acc;
       ba_total := foldl (λ t b, add64 t (b_TokenEstimate b)) (ba_total acc) bs |}.
Proof.
  revert i acc. induction bs as [|b bs IH]; intros i acc Hall Hnd Hseen; [by destruct acc|].
  apply Forall_cons in Hall as [[Hid Hh] Hall]. cbn [fmap list_fmap] in Hnd. apply NoDup_cons in Hnd as [Hb Hnd].
  cbn [fold_each_from]. unfold check_block at 1.
  rewrite (bool_decide_eq_false_2 (b_ID b = "")) by done. simpl.
  replace (contains (ba_seen acc) (b_ID b)) with false
    by (symmetry; apply not_true_iff_false; rewrite contains_spec; apply Hseen; left). simpl.
  rewrite (bool_decide_eq_true_2 (b_Hash b = HashBlock b)) by done. simpl.
  rewrite IH; [|done|done|].
  - simpl. f_equal. rewrite !reverse_cons, filter_cons. f_equal.
    + by rewrite <- app_assoc.
    + destruct (b_Mandatory b); simpl; [|done]. by rewrite reverse_cons, <- app_assoc.
  - intros b' Hb'. simpl. intros Hin. apply elem_of_cons in Hin as [E|Hin].
    + apply Hb. rewrite <- E. by apply list_elem_of_fmap_2.
    + apply (Hseen b'); [by right|done].
Qed.

Lemma check_required_Ok required ids i seen :
  NoDup ids → (∀ x, x ∈ ids → x ∈ required ∧ x ∉ seen) →
  fold_each_from i (check_required required) seen ids = Ok (reverse ids ++ seen).
Proof.
  revert i seen. induction ids as [|x ids IH]; intros i seen Hnd Hids; [done|].
  apply NoDup_cons in Hnd as [Hx Hnd]. destruct (Hids x) as [Hr Hs]; [left|].
  cbn [fold_each_from]. unfold check_required at 1.
  replace (contains seen x) with false by (symmetry; apply not_true_iff_false; by rewrite contains_spec). simpl.
  replace (contains required x) with true by (symmetry; by apply contains_spec). simpl.
  rewrite IH; [|done|].
  - by rewrite reverse_cons, <- app_assoc.
  - intros y Hy. destruct (Hids y) as [? ?]; [by right|]. split; [done|].
    intros Hin. apply elem_of_cons in Hin as [->|?]; done.
Qed.

(** ** Segments *)

Lemma buildSegment_Ok b s :
  buildSegment b = Ok s →
  ps_ID s = b_ID b ∧ ps_Kind s = blockPromptKind b ∧ is_Some (promptSegmentRanks (ps_Kind s)) ∧
  segment_incomplete s = false ∧ binding_mismatch s b = false.
Proof.
  unfold buildSegment. cbv zeta. rewrite !rbind_reject_Ok. intros (E1 & E2 & [= <-]). simpl.
  apply bool_decide_eq_false, not_eq_None_Some in E1.
  repeat match goal with H : _ || _ = false |- _ => apply orb_false_iff in H as [? ?] end.
  split_and!; try done.
  - unfold segment_incomplete. simpl. repeat match goal with H : _ = false |- _ => rewrite H end. done.
  - unfold binding_mismatch. simpl. by rewrite !bool_decide_eq_true_2.
Qed.

Lemma buildSegments_Ok bs ss : buildSegments bs = Ok ss → Forall2 (λ b s, buildSegment b = Ok s) bs ss.
Proof.
  revert ss. induction bs as [|b bs IH]; intros ss; simpl; [intros [= <-]; constructor|].
  rewrite rbind_Ok. intros (s & Hs & Hrest). apply rbind_Ok in Hrest as (ss' & Hss & [= <-]).
  constructor; auto.
Qed.

#[global] Instance segment_le_total : Total segment_le.
Proof.
  intros s t. unfold segment_le. destruct (Z.lt_trichotomy (segment_rank s) (segment_rank t)) as [?|[E|?]]; [auto| |auto].
  rewrite E. destruct (total String.le (ps_ID s) (ps_ID t)); auto.
Qed.
#[global] Instance segment_le_trans : Transitive segment_le.
Proof.
  intros s t u [H1|[H1 H1']] [H2|[H2 H2']]; unfold segment_le.
  - left. lia.
  - left. lia.
  - left. lia.
  - right. split; [lia|]. by transitivity (ps_ID t).
Qed.

(** The loop of [PromptManifest.Validate] accepts a sorted list of complete,
    distinct segments. *)
Lemma check_segments_Ok ss i r seen :
  StronglySorted segment_le ss → NoDup (ps_ID <$> ss) →
  Forall (λ s, is_Some (promptSegmentRanks (ps_Kind s)) ∧ segment_incomplete s = false ∧
               (r ≤ segment_rank s)%Z ∧ ps_ID s ∉ seen) ss →
  ∃ st, fold_each_from i check_segment (r, seen) ss = Ok st.
Proof.
  revert i r seen. induction ss as [|s ss IH]; intros i r seen Hs Hnd Hall; [by eexists|].
  apply Forall_cons in Hall as [([k Hk] & Hinc & Hr & Hseen) Hall].
  cbn [fmap list_fmap] in Hnd. apply NoDup_cons in Hnd as [Hx Hnd]. apply StronglySorted_cons in Hs as [Hle Hs].
  assert (segment_rank s = k) as Hrk by (unfold segment_rank; by rewrite Hk).
  cbn [fold_each_from]. unfold check_segment at 1. rewrite Hk, Hinc. simpl.
  replace (k <? r)%Z with false by lia. simpl.
  replace (contains seen (ps_ID s)) with false by (symmetry; apply not_true_iff_false; by rewrite contains_spec). simpl.
  apply IH; [done|done|]. apply Forall_forall. intros t Ht. rewrite Forall_forall in Hall, Hle.
  destruct (Hall t Ht) as (H1 & H2 & _ & H4). split_and!; try done.
  - destruct (Hle t Ht) as [?|[? _]]; lia.
  - intros Hin. apply elem_of_cons in Hin as [E|?]; [|done]. apply Hx. rewrite <- E. by apply list_elem_of_fmap_2.
Qed.

Lemma blocks_by_id_lookup bs (m : gmap string Block) b :
  NoDup (b_ID <$> bs) → b ∈ bs → foldl (λ acc b, <[b_ID b := b]> acc) m bs !! b_ID b = Some b.
Proof.
  revert m. induction bs as [|x bs IH]; intros m Hnd Hb; [by apply elem_of_nil in Hb|].
  cbn [fmap list_fmap] in Hnd. apply NoDup_cons in Hnd as [Hx Hnd]. cbn [foldl].
  apply elem_of_cons in Hb as [->|Hb]; [|by apply IH]. clear IH Hnd.
  assert (<[b_ID x := x]> m !! b_ID x = Some x) as Hm by by rewrite lookup_insert_eq.
  revert Hm. generalize (<[b_ID x := x]> m). clear m. induction bs as [|y bs IH]; intros m Hm; [done|].
  cbn [fmap list_fmap] in Hx. apply not_elem_of_cons in Hx as [Hne Hx]. cbn [foldl]. apply IH; [done|].
  by rewrite lookup_insert_ne.
Qed.

Lemma segments_ids bs ss : Forall2 (λ b s, buildSegment b = Ok s) bs ss → ps_ID <$> ss = b_ID <$> bs.
Proof. induction 1 as [|b s bs ss Hb _ IH]; [done|]. apply buildSegment_Ok in Hb as [E _]. cbn. by rewrite E, IH. Qed.

(** The prompt manifest of distinct blocks validates and binds them. *)
Lemma BuildPromptManifest_valid bs p :
  BuildPromptManifest bs = Ok p → NoDup (b_ID <$> bs) →
  PromptManifest_Validate p = Ok tt ∧
  ∀ m, m_PromptManifest m = p → m_Blocks m = bs → validatePromptManifestBindings m = Ok tt.
Proof.
  unfold BuildPromptManifest. rewrite rbind_Ok. intros (ss & Hss & [= <-]) Hnd.
  apply buildSegments_Ok in Hss. pose proof (segments_ids _ _ Hss) as Hids.
  assert (∀ s, s ∈ ss → ∃ b, b ∈ bs ∧ buildSegment b = Ok s) as Hsrc.
  { intros s Hs. apply list_elem_of_lookup in Hs as [i Hi].
    destruct (Forall2_lookup_r _ _ _ _ _ Hss Hi) as (b & Hb & Hbs). exists b. split; [|done].
    by eapply list_elem_of_lookup_2. }
  pose proof (stable_sort_perm segment_le ss) as Hperm. split.
  - unfold PromptManifest_Validate. rewrite rbind_reject_Ok, rbind_any_Ok, reject_tt. split_and!.
    + simpl. apply bool_decide_eq_false. apply sha256_nonempty.
    + cbn [pm_Segments pm_with_Digest]. apply check_segments_Ok.
      * apply stable_sort_sorted; apply _.
      * rewrite Hperm. by rewrite Hids.
      * apply Forall_forall. intros s Hs. rewrite Hperm in Hs. destruct (Hsrc s Hs) as (b & Hb & Hbs).
        apply buildSegment_Ok in Hbs as (E & _ & Hr & Hinc & _). split_and!; try done.
        -- unfold segment_rank. destruct Hr as [k Hk]. rewrite Hk. simpl. unfold promptSegmentRanks in Hk.
           repeat case_decide; simplify_eq; lia.
        -- apply not_elem_of_nil.
    + apply negb_false_iff, bool_decide_eq_true. done.
  - intros m Hp Hbs. unfold validatePromptManifestBindings. rewrite rbind_reject_Ok, Hp, Hbs.
    cbn [pm_Segments pm_with_Digest]. split.
    + apply negb_false_iff, bool_decide_eq_true. rewrite Hperm. symmetry. by eapply Forall2_length.
    + apply check_each_Ok. intros k s Hk. apply list_elem_of_lookup_2 in Hk. rewrite Hperm in Hk.
      destruct (Hsrc s Hk) as (b & Hb & Hseg). apply buildSegment_Ok in Hseg as (E1 & E2 & _ & _ & E3).
      unfold check_binding, blocks_by_id. rewrite E1, blocks_by_id_lookup by done.
      rewrite E3. simpl. rewrite E2. by rewrite bool_decide_eq_true_2.
Qed.
End spec.
