(* ===== verification/Structural.v ===== *)
(** * Structural: the gate, merge and repair adapters of internal/orchestration/structural.go

    The default adapters turn the satisfied incoming branches of a structural
    node into a decision: an event with evidence and fields the reducer then
    commits.  A Go map or slice stored in the decision's fields is a [VObject]
    or [VAnys] under its Go type's name. *)
From stdpp Require Import base strings gmap list pretty sorting.
From Stdlib Require Import ZArith Lia.
From S2P Require Import Prelude GoLib GoValue GoJson ContextModel OrchModel GraphSearch Validate ProjectionData Projection Repair Transition.

Record StructuralSource := { src_Edge : WorkflowEdge; src_Attempt : NodeAttempt }.
Record StructuralInput := {
  in_Plan : RequirementExecutionPlan; in_Projection : PlanProjection; in_Node : WorkflowNode;
  in_Attempt : NodeAttempt; in_Envelope : ContextEnvelope; in_Incoming : list StructuralSource }.
Record StructuralDecision := {
  sdn_Event : string; sdn_Result : StructuredResult; sdn_Failure : option FailureReason;
  sdn_ArtifactIDs : list string }.

Definition src_result (s : StructuralSource) : StructuredResult := na_Result (src_Attempt s).

(** ** Incoming branches *)

(** Highest priority first, then edge id. *)
Definition source_le (a b : StructuralSource) : Prop :=
  (we_Priority (src_Edge b) < we_Priority (src_Edge a))%Z
  ∨ we_Priority (src_Edge a) = we_Priority (src_Edge b) ∧ String.le (we_ID (src_Edge a)) (we_ID (src_Edge b)).
#[global] Instance source_le_dec : RelDecision source_le.
Proof. intros a b. unfold source_le. apply _. Defined.

Definition satisfied_source (p : PlanProjection) (nodeID : string) (e : WorkflowEdge) : option StructuralSource :=
  if we_To e ≠? nodeID then None else
  match pp_Nodes p !! we_From e with
  | None => None
  | Some node =>
      if np_CurrentAttempt node ≟ "" then None else
      match pp_Attempts p !! np_CurrentAttempt node with
      | None => None
      | Some a => if edgeSatisfied e a then Some {| src_Edge := e; src_Attempt := a |} else None
      end
  end.
Definition incomingStructuralSources (plan : RequirementExecutionPlan) (p : PlanProjection) (nodeID : string)
    : list StructuralSource :=
  stable_sort source_le (omap (satisfied_source p nodeID) (g_Edges (pl_GraphSnapshot plan))).

(** [structuralEvidence]: trimmed, non-empty, first occurrences; and the required
    ids that are not among them. *)
Fixpoint evidence_from (seen : list string) (ids : list string) : list string :=
  match ids with
  | [] => []
  | id :: ids' =>
      let id := TrimSpace id in
      if (id ≟ "") || contains seen id then evidence_from seen ids'
      else id :: evidence_from (id :: seen) ids'
  end.
Definition structuralEvidence (incoming : list StructuralSource) (required : list string)
    : list string * list string :=
  let evidence := evidence_from [] (mjoin ((λ s, res_EvidenceIDs (src_result s)) <$> incoming)) in
  (evidence, filter (λ id, contains evidence id = false) required).

Definition object (m : gmap string value) : value := VObject (map_to_list m).

Definition aggregateStructuralFields (incoming : list StructuralSource) : gmap string value :=
  let branches := (λ s, VObject [("node_id", VString (na_NodeID (src_Attempt s)));
      ("attempt_id", VString (na_ID (src_Attempt s))); ("outcome", VString (res_Outcome (src_result s)));
      ("reason_code", VString (res_ReasonCode (src_result s))); ("fields", object (res_Fields (src_result s)))])
    <$> incoming in
  <["branch_count" := VInt KInt (Z.of_nat (length branches))]>
    (<["branches" := VTyped "[]map[string]any" (VAnys branches)]>
       (foldl (λ fields s, res_Fields (src_result s) ∪ fields) ∅ incoming)).

Definition sourceAttemptIDs (incoming : list StructuralSource) : list string :=
  (λ s, na_ID (src_Attempt s)) <$> incoming.

(** ** Decisions *)

Section decisions.
Context `{!Sha256, !JsonMarshal (string * string * gmap string value), !JsonMarshal value}.
Context `{!MapRange}.

Definition structuralDecisionEvidence (kind code : string) (fields : gmap string value) : string :=
  kind +:+ "-decision:" +:+ json_sha256 (kind, code, fields).

Definition appendUniqueEvidence (evidence : list string) (id : string) : list string :=
  if contains evidence id then evidence else evidence ++ [id].

Definition passedStructuralDecision (kind code summary : string) (evidence : list string)
    (fields : gmap string value) : StructuralDecision :=
  let artifact := structuralDecisionEvidence kind code fields in
  let evidence := if bool_decide (evidence = []) then [artifact] else evidence in
  {| sdn_Event := "success";
     sdn_Result := {| res_Outcome := "pass"; res_ReasonCode := code; res_Fields := fields;
                      res_Summary := summary; res_EvidenceIDs := appendUniqueEvidence evidence artifact |};
     sdn_Failure := None; sdn_ArtifactIDs := [artifact] |}.

Definition failedStructuralDecision (kind code summary : string) (evidence : list string)
    (fields : gmap string value) : StructuralDecision :=
  let artifact := structuralDecisionEvidence kind code fields in
  {| sdn_Event := "failure";
     sdn_Result := {| res_Outcome := "failure"; res_ReasonCode := code; res_Fields := fields;
                      res_Summary := summary; res_EvidenceIDs := appendUniqueEvidence evidence artifact |};
     sdn_Failure := Some {| fr_Code := code; fr_Message := summary; fr_Retryable := false |};
     sdn_ArtifactIDs := [artifact] |}.

(** *** Gate *)

Definition EvaluateGate (i : StructuralInput) : result StructuralDecision :=
  let policy := wn_GatePolicy (in_Node i) in
  let fields := aggregateStructuralFields (in_Incoming i) in
  let* matched := EvaluatePredicate (gp_Predicate policy) fields in
  let '(evidence, missing) := structuralEvidence (in_Incoming i) (gp_RequiredEvidence policy) in
  Ok (if negb (bool_decide (missing = [])) then
        failedStructuralDecision "gate" "gate_evidence_missing" "gate is missing required evidence" evidence
          {["missing_evidence" := VStrings missing]}
      else if negb matched then
        let code := TrimSpace (gp_FailureCode policy) in
        failedStructuralDecision "gate" (if code ≟ "" then "gate_predicate_failed" else code)
          "gate predicate did not match" evidence fields
      else passedStructuralDecision "gate" "gate_predicate_passed" "gate predicate matched" evidence fields).

(** *** Merge *)

(** The distinct values of a key, by their JSON text (an error reads as empty). *)
Fixpoint distinct_values (seen : list string) (key : string) (incoming : list StructuralSource) : list value :=
  match incoming with
  | [] => []
  | s :: rest =>
      match res_Fields (src_result s) !! key with
      | None => distinct_values seen key rest
      | Some v =>
          let digest := default "" (json_marshal v) in
          if contains seen digest then distinct_values seen key rest
          else v :: distinct_values (digest :: seen) key rest
      end
  end.

Definition conflict_keys (incoming : list StructuralSource) (keys : list string) : list string :=
  if bool_decide (keys = [])
  then sort_strings (remove_dups (mjoin ((λ s, range_keys (res_Fields (src_result s))) <$> incoming)))
  else keys.

Definition mergeConflicts (incoming : list StructuralSource) (keys : list string) : gmap string (list value) :=
  foldl (λ conflicts key,
    let values := distinct_values [] key incoming in
    if (1 <? length values)%nat then <[key := values]> conflicts else conflicts) ∅ (conflict_keys incoming keys).

(** Highest edge priority first, then attempt id. *)
Definition preferred_le (a b : StructuralSource) : Prop :=
  (we_Priority (src_Edge b) < we_Priority (src_Edge a))%Z
  ∨ we_Priority (src_Edge a) = we_Priority (src_Edge b) ∧ String.le (na_ID (src_Attempt a)) (na_ID (src_Attempt b)).
#[global] Instance preferred_le_dec : RelDecision preferred_le.
Proof. intros a b. unfold preferred_le. apply _. Defined.

Definition merge_branch (s : StructuralSource) : value :=
  VObject [("edge_id", VString (we_ID (src_Edge s))); ("node_id", VString (na_NodeID (src_Attempt s)));
           ("attempt_id", VString (na_ID (src_Attempt s))); ("priority", VInt KInt (we_Priority (src_Edge s)));
           ("outcome", VString (res_Outcome (src_result s)));
           ("reason_code", VString (res_ReasonCode (src_result s)));
           ("fields", object (res_Fields (src_result s)));
           ("evidence_ids", VStrings (res_EvidenceIDs (src_result s)))].

Definition ReduceMerge (i : StructuralInput) : result StructuralDecision :=
  let incoming := in_Incoming i in
  let policy := wn_MergePolicy (in_Node i) in
  let evidence := (structuralEvidence incoming []).1 in
  if mg_RequireEvidence policy && bool_decide (evidence = []) then
    Ok (failedStructuralDecision "merge" "merge_evidence_missing" "merge has no committed branch evidence" evidence ∅)
  else
    let name := TrimSpace (mg_ConflictPolicy policy) in
    let name := if name ≟ "" then "collect" else name in
    let conflicts := mergeConflicts incoming (mg_KeyFields policy) in
    let fields : gmap string value :=
      {["branches" := VTyped "[]map[string]any" (VAnys (merge_branch <$> incoming));
        "conflicts" := VTyped "map[string][]any" (object (VAnys <$> conflicts));
        "conflict_policy" := VString name]} in
    if name ≟ "collect" then
      Ok (passedStructuralDecision "merge" "merge_collected" "merge collected branch results" evidence fields)
    else if name ≟ "prefer_priority" then
      match stable_sort preferred_le incoming with
      | [] => Ok (failedStructuralDecision "merge" "merge_evidence_missing" "merge has no completed branches"
                    evidence fields)
      | selected :: _ =>
          Ok (passedStructuralDecision "merge" "merge_preferred_priority"
                "merge selected the highest priority branch" evidence
                (<["selected_fields" := object (res_Fields (src_result selected))]>
                   (<["selected_attempt_id" := VString (na_ID (src_Attempt selected))]> fields)))
      end
    else if name ≟ "fail" then
      if negb (bool_decide (conflicts = ∅)) then
        Ok (failedStructuralDecision "merge" "merge_conflict" "merge conflict requires a repair or human route"
              evidence fields)
      else Ok (passedStructuralDecision "merge" "merge_collected" "merge completed without conflicts" evidence fields)
    else Err (Errorf "unsupported merge conflict policy %q" [name]).

(** *** Repair *)

(** The first verification node that is blank or off the success paths. *)
Definition unreachable_verification (g : WorkflowGraph) (target : string) (ids : list string) : option string :=
  List.find (λ id, blank id || negb (repairPathExists g target id EdgeSuccess)) ids.

(** A repair budget as the decision's fields carry it. *)
Definition budget_value (b : Budget) : value :=
  VTyped "orchestration.Budget" (VAnys (VInt KInt64 <$> [bg_Tokens b; bg_ToolCalls b; bg_CostCents b; bg_Duration b; bg_Concurrent b])).

Definition PlanRepair (i : StructuralInput) : result StructuralDecision :=
  let g := pl_GraphSnapshot (in_Plan i) in
  let policy := wn_RepairPolicy (in_Node i) in
  let evidence := (structuralEvidence (in_Incoming i) []).1 in
  let attemptNo := na_AttemptNo (in_Attempt i) in
  if bool_decide (evidence = []) then
    Ok (failedStructuralDecision "repair" "repair_evidence_missing" "repair requires failed evidence" evidence ∅)
  else
    let maxRounds := if (rpol_MaxRounds policy <=? 0)%Z then 1%Z else rpol_MaxRounds policy in
    if (maxRounds <? attemptNo)%Z then
      Ok (failedStructuralDecision "repair" "repair_budget_exhausted" "repair round budget exhausted" evidence
            {["max_rounds" := VInt KInt maxRounds; "attempt_no" := VInt KInt attemptNo]})
    else
      let target := resolveRepairTarget g (in_Node i) in
      if target ≟ "" then
        Ok (failedStructuralDecision "repair" "repair_target_missing" "repair target is required" evidence
              {["repair_node_id" := VString (wn_ID (in_Node i))]})
      else if (target ≟ wn_ID (in_Node i)) || negb (repairPathExists g (wn_ID (in_Node i)) target EdgeSuccess) then
        Ok (failedStructuralDecision "repair" "repair_target_unreachable"
              "repair target is not reachable on a success path" evidence {["target_node_id" := VString target]})
      else
        let verification := rpol_VerificationNodeIDs policy in
        if bool_decide (verification = []) then
          Ok (failedStructuralDecision "repair" "repair_verification_missing"
                "repair requires at least one verification node" evidence {["target_node_id" := VString target]})
        else match unreachable_verification g target verification with
        | Some nodeID =>
            Ok (failedStructuralDecision "repair" "repair_verification_unreachable"
                  "repair verification node is not reachable from target" evidence
                  {["target_node_id" := VString target; "verification_node_id" := VString nodeID]})
        | None =>
            Ok (passedStructuralDecision "repair" "repair_planned" "repair plan created" evidence
                  {["target_node_id" := VString target; "scope" := VStrings (rpol_Scope policy);
                    "verification_node_ids" := VStrings verification; "round" := VInt KInt attemptNo;
                    "max_rounds" := VInt KInt maxRounds; "budget" := budget_value (rpol_Budget policy);
                    "source_attempt_ids" := VStrings (sourceAttemptIDs (in_Incoming i));
                    "repair_state" := VString "planned"]})
        end.
End decisions.
