(* ===== verification/Samples.v ===== *)
(** * Samples: concrete parameters and inputs

    One concrete choice for each parameter of the model (a digest, encoders, an
    iteration order) and a small plan with its attempts, at which the properties
    with hypotheses are instantiated. *)
From stdpp Require Import base strings gmap list pretty.
From Stdlib Require Import ZArith.
From S2P Require Import Prelude GoLib GoValue GoJson ContextModel OrchModel GraphSearch Validate PredicateSpec GraphSpec ProjectionData Projection Repair Transition ContextSpec.

(** A digest that keeps its input readable. *)
Lemma toy_nonblank s : blank ("h:" +:+ s) = false.
Proof. apply (colon_not_blank "h"). Qed.
Definition toy_sha : Sha256 := {| sha256_hex := λ s, "h:" +:+ s; sha256_nonblank := toy_nonblank |}.
(** An encoder that writes the same text for every value. *)
Definition toy_json (T : Type) : JsonMarshal T := λ _, Some "json".

#[export] Existing Instance toy_sha.
#[export] Existing Instance toy_json.
#[export] Existing Instance canonical_range.

Definition sample_manifest (tokens : Z) : Manifest := {|
  m_SessionID := "session"; m_Version := 1; m_SemanticSnapshotVersion := 1; m_TokenBudget := 1000;
  m_TokenEstimate := tokens; m_Blocks := []; m_RequiredBlockIDs := []; m_OmittedRequiredIDs := [];
  m_CompilerVersion := ""; m_TokenizerID := ""; m_CompressionRecords := [];
  m_PromptManifest := {| pm_Version := ""; pm_Segments := []; pm_Digest := "" |};
  m_Digest := "digest"; m_PromptManifestHash := ""; m_ParentDigest := ""; m_CreatedAt := 0 |}.

Definition sample_envelope (tokens : Z) : ContextEnvelope :=
  match ContextManifest_Envelope (sample_manifest tokens) with
  | Ok e => e
  | Err _ => {| ce_Manifest := sample_manifest tokens; ce_SelectionDigest := ""; ce_ReplayKey := "" |}
  end.

Definition sample_lease (token expires : Z) : Lease :=
  {| ls_Key := "key"; ls_Owner := "worker"; ls_FencingToken := token; ls_ExpiresAt := expires |}.

Definition sample_result (outcome : string) (fields : gmap string value) : StructuredResult :=
  {| res_Outcome := outcome; res_ReasonCode := "code"; res_Fields := fields; res_Summary := "";
     res_EvidenceIDs := ["evidence"] |}.

Definition sample_input (event key : string) (token now : Z) (r : StructuredResult)
    (failure : option FailureReason) : TransitionInput :=
  {| ti_PlanRevision := 1; ti_AttemptID := ""; ti_LeaseToken := token; ti_Event := event; ti_Result := r;
     ti_Failure := failure; ti_OutputArtifacts := []; ti_IdempotencyKey := key; ti_PayloadHash := "";
     ti_Now := now |}.

Definition budget (tokens concurrent : Z) : Budget :=
  {| bg_Tokens := tokens; bg_ToolCalls := 0; bg_CostCents := 0; bg_Duration := 0; bg_Concurrent := concurrent |}.

(** The plan of [sample_graph] (build, qa with a bounded bug edge back, human approval). *)
Definition sample_plan_of (g : WorkflowGraph) (b : Budget) : RequirementExecutionPlan := {|
  pl_ID := "plan"; pl_RequirementID := "req"; pl_WorkspaceID := "ws"; pl_GraphSnapshot := g;
  pl_SelectedRef := {| vr_ID := "squad"; vr_Revision := 1; vr_Version := 1 |};
  pl_PolicySnapshot := {| pol_Digest := ""; pol_ToolPolicy := {| tp_Allowed := []; tp_Denied := [];
                            tp_Network := false; tp_SecretScopes := [] |}; pol_Budget := b; pol_CapturedAt := 0 |};
  pl_ContextRoot := {| cref_SessionID := "session"; cref_ManifestDigest := "digest"; cref_ReplayKey := "" |};
  pl_PlanHash := "hash"; pl_Status := PlanReady; pl_Revision := 1; pl_IdempotencyKey := "";
  pl_Deadline := 0; pl_CreatedAt := 1; pl_ParentPlanID := ""; pl_ParentAttemptID := "" |}.
Definition sample_plan : RequirementExecutionPlan := sample_plan_of sample_graph (budget 0 0).

(** The projections of [plan] before and after its entry node has started. *)
Definition new_of (plan : RequirementExecutionPlan) : PlanProjection :=
  match NewProjection plan with
  | Ok p => p
  | Err _ => {| pp_PlanID := ""; pp_Revision := 0; pp_Status := PlanDraft; pp_TerminalOutcome := "";
                pp_Nodes := ∅; pp_Attempts := ∅; pp_Traversals := ∅; pp_Decisions := []; pp_RepairPlans := ∅;
                pp_Idempotency := ∅; pp_TokenUsage := 0; pp_ToolCalls := 0; pp_CostCents := 0 |}
  end.
Definition start (plan : RequirementExecutionPlan) (p : PlanProjection) (node id key : string) (now : Z)
    : PlanProjection * result NodeAttempt :=
  StartAttempt 1 p plan node id 0 (sample_lease 7 100) (sample_envelope 10)
    (sample_input "" key 7 now (sample_result "" ∅) None).
Definition finish (plan : RequirementExecutionPlan) (p : PlanProjection) (id event key : string) (now : Z)
    (fields : gmap string value) : PlanProjection * result NodeAttempt :=
  FinishAttempt 1 p plan id (sample_input event key 7 now (sample_result event fields) None).

(** An attempt of a projection by its id. *)
Definition attempt_of (p : PlanProjection) (id : string) : NodeAttempt :=
  default (new_attempt p sample_plan zero_WorkflowNode "" "" 0 (sample_lease 0 0) zero_NodeProjection
    (sample_envelope 0) (sample_input "" "" 0 0 zero_Result None) 0) (pp_Attempts p !! id).

(** ** A repair loop

    build -> qa -> approve, with the bug edge qa -> fix (a repair node) and the
    success edge fix -> build: the patch target is derived from that edge, qa
    verifies. *)
Definition repair_node : WorkflowNode := {|
  wn_ID := "fix"; wn_Kind := NodeRepair; wn_AgentRef := None; wn_SquadRef := None;
  wn_InputContract := {| sr_ID := ""; sr_Version := 0 |};
  wn_OutputContract := {| sr_ID := ""; sr_Version := 0 |};
  wn_ContextPolicy := {| cp_Required := []; cp_Optional := []; cp_MaxTokens := 0 |};
  wn_ToolPolicy := {| tp_Allowed := []; tp_Denied := []; tp_Network := false; tp_SecretScopes := [] |};
  wn_RetryPolicy := {| rt_MaxAttempts := 3; rt_Backoff := Minute; rt_RetryOn := [] |};
  wn_Timeout := 0; wn_Budget := zero_Budget; wn_JoinPolicy := JoinUnset; wn_JoinQuorum := 0;
  wn_JoinFailurePolicy := "";
  wn_GatePolicy := {| gp_Predicate := zero_Predicate; gp_RequiredEvidence := []; gp_FailureCode := "" |};
  wn_MergePolicy := {| mg_ConflictPolicy := ""; mg_KeyFields := []; mg_RequireEvidence := false |};
  wn_RepairPolicy := {| rpol_TargetNodeID := ""; rpol_Scope := []; rpol_VerificationNodeIDs := ["qa"];
                        rpol_MaxRounds := 2; rpol_Budget := zero_Budget |} |}.

Definition repair_graph : WorkflowGraph := {|
  g_ID := "graph"; g_Version := 1; g_EntryNodeIDs := ["build"]; g_ExitNodeIDs := ["approve"];
  g_Nodes := [sample_node "build" NodeAgent; sample_node "qa" NodeAgent; repair_node; sample_node "approve" NodeHuman];
  g_Edges := [sample_edge "e1" "build" "qa" EdgeSuccess 0; sample_edge "e2" "qa" "approve" EdgeSuccess 0;
              sample_edge "e3" "qa" "fix" EdgeBug 2; sample_edge "e4" "fix" "build" EdgeSuccess 0];
  g_ValidationDigest := "" |}.
Definition repair_plan : RequirementExecutionPlan := sample_plan_of repair_graph (budget 0 0).
Definition repair_fields : gmap string value :=
  {["target_node_id" := VString "build"; "verification_node_ids" := VStrings ["qa"];
    "max_rounds" := VInt KInt 2]}.

(** A run of operations: attempt [id] of [node] starts and ends with [event]. *)
Definition run_one (plan : RequirementExecutionPlan) (fields : gmap string value) (p : PlanProjection)
    (node id event : string) : PlanProjection :=
  (finish plan (start plan p node id ("start:" +:+ id) 10).1 id event ("finish:" +:+ id) 20 fields).1.
Definition repair_planned : PlanProjection :=
  run_one repair_plan repair_fields (run_one repair_plan ∅ (run_one repair_plan ∅ (new_of repair_plan)
    "build" "a1" "success") "qa" "a2" "bug") "fix" "a3" "success".
Definition repair_verified : PlanProjection :=
  run_one repair_plan ∅ (run_one repair_plan ∅ repair_planned "build" "a4" "success") "qa" "a5" "success".
Definition repair_approving : PlanProjection := (start repair_plan repair_verified "approve" "a6" "start:a6" 10).1.
Definition repair_done : PlanProjection := run_one repair_plan ∅ repair_verified "approve" "a6" "success".
