(* ===== verification/ContextProps.v ===== *)
(** * ContextProps: the properties of the context contract *)
From stdpp Require Import base strings gmap list pretty sorting.
From Stdlib Require Import ZArith Lia.
From S2P Require Import Prelude GoLib GoValue GoJson ContextModel OrchModel GraphSearch Validate PredicateSpec GraphSpec ProjectionData Projection Repair Transition ContextSpec Samples.

(** The token sum of blocks is exact below 2^63. *)
Lemma token_sum_exact bs t :
  Forall (λ b, (1 ≤ b_TokenEstimate b)%Z) bs → (0 ≤ t)%Z →
  (t + foldr (λ b s, b_TokenEstimate b + s) 0 bs < two63)%Z →
  foldl (λ t b, add64 t (b_TokenEstimate b)) t bs = (t + foldr (λ b s, b_TokenEstimate b + s) 0 bs)%Z.
Proof.
  revert t. induction bs as [|b bs IH]; intros t Hall Ht Hs; cbn [foldl foldr] in *; [lia|].
  apply Forall_cons in Hall as [Hb Hall].
  assert (0 ≤ foldr (λ b s, b_TokenEstimate b + s) 0 bs)%Z as Hpos.
  { clear -Hall. induction Hall; simpl; lia. }
  unfold add64 at 2. rewrite wrap64_id by (unfold int64_range, two63 in *; lia).
  rewrite IH; [lia|done|lia|lia].
Qed.

Section props.
Context `{!Sha256, !JsonMarshal PromptManifest, !JsonMarshal Manifest,
            !JsonMarshal (string * PromptManifest)}.
Context `{!JsonMarshal HarnessManifest, !JsonMarshal (string * list (string * string * string)),
            !JsonMarshal (string * list Block)}.

(** A manifest built by [newManifest] carries its blocks with their hashes, the
    declared total and the digests of its own content. *)
Lemma newManifest_shape now session version budget blocks tok m :
  newManifest now session version budget blocks tok = Ok m →
  let bs := stable_sort block_id_le blocks in
  blank session = false ∧ (1 ≤ version)%Z ∧ (1 ≤ budget)%Z ∧ blank tok = false ∧
  m_Blocks m = fillHash <$> bs ∧ m_RequiredBlockIDs m = b_ID <$> filter (λ b, b_Mandatory b = true) bs ∧
  m_TokenEstimate m = foldl (λ t b, add64 t (b_TokenEstimate b)) 0%Z bs ∧ (m_TokenEstimate m ≤ budget)%Z ∧
  Forall (λ b, block_unlined b = false) bs ∧
  m_SessionID m = session ∧ m_Version m = version ∧ m_SemanticSnapshotVersion m = version ∧
  m_TokenBudget m = budget ∧ m_OmittedRequiredIDs m = [] ∧ m_CompilerVersion m = CompilerVersion ∧
  m_TokenizerID m = tok ∧ BuildPromptManifest (m_Blocks m) = Ok (m_PromptManifest m) ∧
  manifestDigest m = m_Digest m ∧ m_PromptManifestHash m = promptManifestHash m.
Proof.
  unfold newManifest. rewrite !rbind_reject_Ok. intros (E1 & E2 & Hm). cbv zeta.
  apply rbind_Ok in Hm as ([[cp required] total] & Hp & Hm).
  rewrite rbind_reject_Ok in Hm. destruct Hm as [E3 Hm]. apply rbind_Ok in Hm as (prompt & Hb & [= <-]).
  apply prepare_blocks_spec in Hp as (-> & -> & -> & Hall). simpl in *.
  apply orb_false_iff in E1 as [E1 E1c]. apply orb_false_iff in E1 as [E1a E1b].
  split_and!; try done; lia.
Qed.

(** Filling in missing hashes changes neither ids, nor totals, nor the required set. *)
Lemma fillHash_ids (bs : list Block) : b_ID <$> (fillHash <$> bs) = b_ID <$> bs.
Proof. rewrite <- list_fmap_compose. apply list_fmap_ext. intros i b _. apply fillHash_fields. Qed.

Lemma fillHash_total (bs : list Block) t :
  foldl (λ t b, add64 t (b_TokenEstimate b)) t (fillHash <$> bs)
  = foldl (λ t b, add64 t (b_TokenEstimate b)) t bs.
Proof.
  revert t. induction bs as [|b bs IH]; intros t; [done|]. cbn. rewrite IH.
  by destruct (fillHash_fields b) as (_ & _ & -> & _).
Qed.

Lemma fillHash_required (bs : list Block) :
  b_ID <$> filter (λ b, b_Mandatory b = true) (fillHash <$> bs) = b_ID <$> filter (λ b, b_Mandatory b = true) bs.
Proof.
  induction bs as [|b bs IH]; [done|]. cbn [fmap list_fmap]. rewrite !filter_cons.
  destruct (fillHash_fields b) as (Hi & -> & _).
  case_decide; cbn [fmap list_fmap]; rewrite ?Hi; [by f_equal|done].
Qed.

Lemma fillHash_sound b :
  block_unlined b = false → b_Hash b = "" ∨ b_Hash b = HashBlock b →
  b_ID (fillHash b) ≠ "" ∧ b_Hash (fillHash b) = HashBlock (fillHash b).
Proof.
  intros Hl Hh. unfold HashBlock. destruct (fillHash_fields b) as (-> & _ & _ & ->). split.
  - unfold block_unlined in Hl.
    repeat match goal with H : _ || _ = false |- _ => apply orb_false_iff in H as [? ?] end.
    match goal with H : bool_decide (b_ID b = "") = false |- _ => by apply bool_decide_eq_false in H end.
  - unfold fillHash. case_bool_decide; [done|]. destruct Hh; done.
Qed.

Lemma foldr_permutation_tokens (bs cs : list Block) :
  bs ≡ₚ cs → foldr (λ b s, b_TokenEstimate b + s)%Z 0%Z bs = foldr (λ b s, b_TokenEstimate b + s)%Z 0%Z cs.
Proof. induction 1; simpl; lia. Qed.

Lemma lined_total_pos (bs : list Block) :
  Forall (λ b, block_unlined b = false) bs → (foldr (λ b s, b_TokenEstimate b + s) 0 bs < two63)%Z →
  (0 ≤ foldl (λ t b, add64 t (b_TokenEstimate b)) 0 bs)%Z.
Proof.
  intros Hall Hs. assert (Forall (λ b, (1 ≤ b_TokenEstimate b)%Z) bs) as Hpos.
  { eapply Forall_impl; [exact Hall|]. intros b Hb. unfold block_unlined in Hb. simpl in *. lia. }
  rewrite token_sum_exact by done. clear -Hpos. induction Hpos; simpl; lia.
Qed.

(** What [newManifest] builds from distinct, honestly hashed blocks passes
    [Manifest.Validate]: hashes, required set, token total, prompt bindings,
    canonical segment order and both digests. *)
Theorem newManifest_validates now session version budget blocks tok m :
  newManifest now session version budget blocks tok = Ok m →
  NoDup (b_ID <$> blocks) →
  (∀ b, b ∈ blocks → b_Hash b = "" ∨ b_Hash b = HashBlock b) →
  (foldr (λ b s, b_TokenEstimate b + s) 0 blocks < two63)%Z →
  tok ≠ "model-aware-v1:" →
  Manifest_Validate m = Ok tt.
Proof.
  intros Hm Hnd Hhash Hsum Htok. apply newManifest_shape in Hm. cbv zeta in Hm.
  set (bs := stable_sort block_id_le blocks) in *.
  assert (bs ≡ₚ blocks) as Hperm by apply stable_sort_perm.
  destruct Hm as (Hs & Hv & Hbud & Ht & Hbs & Hreq & Htot & Hle & Hall & S1 & S2 & S3 & S4 & S5 & S6 & S7 & Hprompt & Hd & Hh).
  assert (NoDup (b_ID <$> m_Blocks m)) as Hnd' by (rewrite Hbs, fillHash_ids, Hperm; done).
  destruct (BuildPromptManifest_valid _ _ Hprompt Hnd') as [Hpv Hbind].
  assert (0 ≤ m_TokenEstimate m)%Z as Hpos.
  { rewrite Htot. apply lined_total_pos; [done|]. by rewrite (foldr_permutation_tokens _ _ Hperm). }
  unfold Manifest_Validate. rewrite S1, S2, S3, S4, S5, S6, S7, !rbind_reject_Ok, rbind_any_Ok, rbind_any_Ok, rbind_reject_Ok. split_and!.
  - rewrite bool_decide_eq_false_2 by (intros ->; by vm_compute in Hs).
    rewrite bool_decide_eq_false_2 by (rewrite <- Hd; apply sha256_nonempty). lia.
  - rewrite bool_decide_eq_false_2 by done. rewrite bool_decide_eq_false_2 by (intros ->; by vm_compute in Ht). done.
  - by rewrite bool_decide_eq_false_2.
  - exists tt. by apply wrap_err_Ok.
  - exists tt. by apply Hbind.
  - done.
  - rewrite rbind_Ok. eexists. split.
    { apply check_blocks_Ok; [|done|intros; apply not_elem_of_nil].
      rewrite Hbs. apply Forall_fmap, Forall_forall. intros b Hb. rewrite Forall_forall in Hall.
      apply fillHash_sound; [by apply Hall|]. apply Hhash. by rewrite <- Hperm. }
    simpl. rewrite !rbind_reject_Ok. split.
    { apply negb_false_iff, bool_decide_eq_true. by rewrite Htot, Hbs, fillHash_total. }
    rewrite rbind_Ok. eexists. split.
    { rewrite Hreq. apply check_required_Ok.
      - rewrite <- fillHash_required, <- Hbs. eapply sublist_NoDup; [exact Hnd'|]. apply fmap_sublist, sublist_filter.
      - intros x Hx. split; [|apply not_elem_of_nil]. rewrite app_nil_r, elem_of_reverse, Hbs, fillHash_required. done. }
    rewrite !rbind_reject_Ok, reject_tt. split_and!.
    + apply negb_false_iff, bool_decide_eq_true. by rewrite !app_nil_r, !length_reverse, Hbs, fillHash_required.
    + apply negb_false_iff, bool_decide_eq_true. done.
    + rewrite bool_decide_eq_false_2 by (rewrite Hh; apply sha256_nonempty).
      rewrite bool_decide_eq_true_2 by done. done.
Qed.

(** An envelope derived from a manifest passes the validation a dispatch
    performs, and carries that manifest. *)
Lemma Envelope_roundtrip m e :
  ContextManifest_Envelope m = Ok e → ContextEnvelope_Validate e = Ok tt ∧ ce_Manifest e = m.
Proof.
  intros He. pose proof (ContextManifest_Envelope_Ok m e He) as (Hm & Hce & Hsel & Hkey & _). split; [|done].
  unfold ContextEnvelope_Validate. rewrite Hce, rbind_any_Ok, He, Hm. split; [by eexists|].
  simpl. rewrite Hsel, Hkey, !bool_decide_eq_true_2 by done. done.
Qed.

(** Two valid envelopes with the same selection digest carry the same
    manifest digest and blocks as encoded, unless these two encodings differ and
    still have the same digest. *)
Theorem Envelope_binds_selection e1 e2 :
  ContextEnvelope_Validate e1 = Ok tt → ContextEnvelope_Validate e2 = Ok tt →
  ce_SelectionDigest e1 = ce_SelectionDigest e2 →
  let enc e := json_marshal (m_Digest (ce_Manifest e), m_Blocks (ce_Manifest e)) in
  is_Some (enc e1) ∧
  (enc e1 = enc e2 ∨ enc e1 ≠ enc e2 ∧ sha256_hex <$> enc e1 = sha256_hex <$> enc e2).
Proof.
  assert (∀ e, ContextEnvelope_Validate e = Ok tt → ∃ data,
    json_marshal (m_Digest (ce_Manifest e), m_Blocks (ce_Manifest e)) = Some data ∧
    ce_SelectionDigest e = harnessDigest data) as Hsel.
  { intros e. unfold ContextEnvelope_Validate. rewrite rbind_any_Ok. intros [_ He].
    apply rbind_Ok in He as (d & Hd & He). apply ContextManifest_Envelope_Ok in Hd as (_ & _ & _ & _ & data & Hj & Hs).
    rewrite rbind_reject_Ok in He. destruct He as [He _]. apply orb_false_iff in He as [_ He].
    apply negb_false_iff, bool_decide_eq_true in He. exists data. by rewrite He. }
  intros H1 H2 Heq. cbv zeta.
  destruct (Hsel e1 H1) as (d1 & -> & E1). destruct (Hsel e2 H2) as (d2 & -> & E2).
  split; [by eexists|]. destruct (decide (d1 = d2)) as [->|Hne]; [by left|]. right. split; [congruence|]. simpl.
  rewrite E1, E2 in Heq. unfold harnessDigest in Heq. apply (inj (String.append "sha256:")) in Heq. by rewrite Heq.
Qed.
End props.

(** Two blocks in the wrong order, one of them mandatory. *)
Definition sample_block (id : string) (mandatory : bool) : Block := {|
  b_ID := id; b_Kind := "turn"; b_Source := "user"; b_Content := "text"; b_Hash := ""; b_Policy := "policy";
  b_Trust := "trusted"; b_SelectionReason := "recent"; b_TokenEstimate := 5; b_Mandatory := mandatory;
  b_Metadata := ∅ |}.
Definition sample_blocks : list Block := [sample_block "b" true; sample_block "a" false].

Definition sample_compiled : Manifest :=
  match newManifest 1 "session" 1 100 sample_blocks TokenizerID with
  | Ok m => m | Err _ => sample_manifest 0 end.

Lemma newManifest_validates_witness :
  newManifest 1 "session" 1 100 sample_blocks TokenizerID = Ok sample_compiled ∧
  Manifest_Validate sample_compiled = Ok tt.
Proof.
  split; [reflexivity|]. apply (newManifest_validates 1 "session" 1 100 sample_blocks TokenizerID).
  - reflexivity.
  - apply (bool_decide_unpack _). vm_compute. exact I.
  - intros b Hb. left. repeat (apply elem_of_cons in Hb as [->|Hb]; [reflexivity|]). by apply elem_of_nil in Hb.
  - reflexivity.
  - discriminate.
Defined.

Lemma Envelope_binds_selection_witness :
  let enc e := json_marshal (m_Digest (ce_Manifest e), m_Blocks (ce_Manifest e)) in
  is_Some (enc (sample_envelope 10)) ∧
  (enc (sample_envelope 10) = enc (sample_envelope 20) ∨
   enc (sample_envelope 10) ≠ enc (sample_envelope 20) ∧
   sha256_hex <$> enc (sample_envelope 10) = sha256_hex <$> enc (sample_envelope 20)).
Proof. apply (Envelope_binds_selection (sample_envelope 10) (sample_envelope 20)); reflexivity. Defined.
