(* ===== verification/ContextCompilerProps.v ===== *)
(** * ContextCompilerProps: what the context compiler guarantees

    Mandatory blocks survive, atomic groups are kept or dropped whole, and
    compilation succeeds exactly when the mandatory part fits the budget. *)
From stdpp Require Import base strings gmap list pretty sorting.
From Stdlib Require Import ZArith Lia.
From S2P Require Import Prelude GoLib GoStrings GoValue GoJson ContextModel ContextCompiler OrchModel GraphSearch Validate PredicateSpec GraphSpec ProjectionData Projection Repair Transition ContextSpec Samples ContextProps.

(** ** Token sums *)

Definition token_sum (bs : list Block) : Z := foldr (λ b s, b_TokenEstimate b + s)%Z 0%Z bs.
Definition counted (b : Block) : Prop := (1 ≤ b_TokenEstimate b)%Z.

Lemma token_sum_app bs cs : token_sum (bs ++ cs) = (token_sum bs + token_sum cs)%Z.
Proof. unfold token_sum. induction bs; simpl; lia. Qed.
Lemma token_sum_nonneg bs : Forall counted bs → (0 ≤ token_sum bs)%Z.
Proof. unfold token_sum, counted. induction 1; simpl; lia. Qed.
#[global] Instance token_sum_perm : Proper ((≡ₚ) ==> (=)) token_sum.
Proof. intros bs cs Hp. by apply foldr_permutation_tokens. Qed.
Lemma token_sum_split (P : Block → Prop) `{∀ b, Decision (P b)} bs :
  Forall counted bs → (0 ≤ token_sum (filter P bs) ≤ token_sum bs)%Z.
Proof.
  induction 1 as [|b bs Hb Hbs IH]; [done|]. rewrite filter_cons. unfold token_sum, counted in *.
  case_decide; simpl; lia.
Qed.
Lemma tokens_exact bs :
  Forall counted bs → (token_sum bs < two63)%Z → tokens 0 bs = token_sum bs.
Proof. intros Hc Hs. unfold tokens. rewrite token_sum_exact; [done|done|lia|exact Hs]. Qed.

Lemma Forall_filter {A} (P Q : A → Prop) `{∀ x, Decision (Q x)} l : Forall P l → Forall P (filter Q l).
Proof. intros Hl. rewrite Forall_forall in *. intros x Hx. apply list_elem_of_filter in Hx as [_ Hx]. by apply Hl. Qed.

Section compiler.
Context `{!Sha256, !JsonMarshal PromptManifest, !JsonMarshal Manifest,
            !JsonMarshal (string * PromptManifest)}.
Context `{!JsonMarshal HarnessManifest, !JsonMarshal (string * list (string * string * string)),
            !JsonMarshal (string * list Block)}.
Context `{!JsonMarshal (list (string * string)), !MapRange, !SliceSort}.

(** ** Blocks a manifest can carry *)

(** A block with lineage, content and a prompt kind the renderer knows. *)
Record selectable (b : Block) : Prop := {
  se_lined : block_unlined b = false;
  se_content : blank (b_Content b) = false;
  se_kind : metadata b "prompt_kind" = "" ∨ is_Some (promptSegmentRanks (metadata b "prompt_kind")) }.

Lemma promptKindForBlock_ranked b : is_Some (promptSegmentRanks (promptKindForBlock b)).
Proof. unfold promptKindForBlock. repeat case_match; by eexists. Qed.

Lemma buildSegment_total b : selectable b → b_Hash b ≠ "" → ∃ s, buildSegment b = Ok s.
Proof.
  intros [Hl Hc Hk] Hh. eexists. unfold buildSegment. cbv zeta. rewrite !rbind_reject_Ok. split_and!; [| |done].
  - apply bool_decide_eq_false, not_eq_None_Some. unfold blockPromptKind. fold (metadata b "prompt_kind").
    case_bool_decide as Hm; [apply promptKindForBlock_ranked|]. by destruct Hk.
  - unfold block_unlined in Hl.
    repeat match goal with H : _ || _ = false |- _ => apply orb_false_iff in H as [? ?] end.
    repeat match goal with H : _ = false |- _ => rewrite H end. by rewrite bool_decide_eq_false_2.
Qed.

Lemma fillHash_selectable b : selectable b → selectable (fillHash b) ∧ b_Hash (fillHash b) ≠ "".
Proof.
  intros [Hl Hc Hk]. unfold fillHash. case_bool_decide as Hh; [|by repeat split].
  split; [by constructor|]. apply sha256_nonempty.
Qed.

Lemma buildSegments_total bs : Forall selectable bs → ∃ ss, buildSegments (fillHash <$> bs) = Ok ss.
Proof.
  induction 1 as [|b bs Hb _ [ss IH]]; [by eexists|]. apply fillHash_selectable in Hb as [Hb Hh].
  destruct (buildSegment_total _ Hb Hh) as [s Hs]. eexists. cbn [fmap list_fmap buildSegments]. by rewrite Hs, IH.
Qed.

Lemma prepare_blocks_total bs i acc :
  Forall (λ b, block_unlined b = false) bs → ∃ out, fold_each_from i prepare_block acc bs = Ok out.
Proof.
  intros Hbs. revert i acc. induction Hbs as [|b bs Hb _ IH]; intros i [[cp rq] t]; [by eexists|].
  cbn [fold_each_from]. unfold prepare_block at 1. rewrite Hb. apply IH.
Qed.

Lemma selectable_counted b : selectable b → counted b.
Proof. intros [Hl _ _]. unfold block_unlined in Hl. unfold counted. lia. Qed.

(** What the constructor answers for blocks it can carry. *)
Lemma newManifest_total now session version budget blocks tok :
  blank session = false → (1 ≤ version)%Z → (1 ≤ budget)%Z → blank tok = false →
  Forall selectable blocks → (token_sum blocks < two63)%Z →
  if (token_sum blocks <=? budget)%Z
  then ∃ m, newManifest now session version budget blocks tok = Ok m
  else newManifest now session version budget blocks tok = Err (ESentinel ErrOverflow).
Proof.
  intros Hs Hv Hb Ht Hbs Hsum. unfold newManifest. rewrite Hs, Ht.
  replace (version <? 1)%Z with false by lia. replace (budget <? 1)%Z with false by lia.
  cbn [reject orb rbind].
  assert (stable_sort block_id_le blocks ≡ₚ blocks) as Hp by apply stable_sort_perm.
  assert (Forall selectable (stable_sort block_id_le blocks)) as Hsel by by rewrite Hp.
  destruct (prepare_blocks_total (stable_sort block_id_le blocks) 0 ([], [], 0%Z)) as [[[cp rq] t] Hout].
  { eapply Forall_impl; [exact Hsel|]. by intros b [? _ _]. }
  rewrite Hout. cbn [rbind]. apply prepare_blocks_spec in Hout as (-> & _ & -> & _). cbn [fst snd].
  fold (tokens 0 (stable_sort block_id_le blocks)).
  rewrite tokens_exact; [|eapply Forall_impl; [exact Hsel|apply selectable_counted]|by rewrite (token_sum_perm _ _ Hp)].
  rewrite (token_sum_perm _ _ Hp).
  destruct (Z.leb_spec (token_sum blocks) budget).
  - replace (budget <? token_sum blocks)%Z with false by lia. cbn [reject rbind].
    destruct (buildSegments_total _ Hsel) as [ss Hss]. unfold BuildPromptManifest. rewrite app_nil_l, Hss. by eexists.
  - by replace (budget <? token_sum blocks)%Z with true by lia.
Qed.

(** ** The parts of the input *)

Lemma promote_fields keys b :
  b_mandatory (promote keys b) = b_mandatory b ∧ (b_Mandatory b = true → promote keys b = b).
Proof. unfold promote. destruct b as [? ? ? ? ? ? ? ? ? [] ?]; by destruct (_ && _). Qed.

Lemma same_but_mandatory b c :
  b_mandatory b = b_mandatory c →
  b_ID b = b_ID c ∧ b_TokenEstimate b = b_TokenEstimate c ∧ (selectable b → selectable c) ∧
  atomicGroupKey b = atomicGroupKey c ∧ blockIsAtomic b = blockIsAtomic c.
Proof.
  destruct b, c. unfold b_mandatory. simpl. intros [= -> -> -> -> -> -> -> -> -> ->].
  split_and!; try done. by intros [? ? ?].
Qed.

Lemma promoted_selectable keys bs : Forall selectable bs → Forall selectable (promote keys <$> bs).
Proof.
  intros Hbs. apply Forall_fmap. eapply Forall_impl; [exact Hbs|]. intros b Hb. simpl.
  by eapply (same_but_mandatory b (promote keys b)); [|exact Hb]; rewrite (proj1 (promote_fields keys b)).
Qed.

Lemma promoted_sum keys bs : token_sum (promote keys <$> bs) = token_sum bs.
Proof.
  unfold token_sum. induction bs as [|b bs IH]; [done|]. cbn. rewrite IH. f_equal.
  by apply same_but_mandatory, promote_fields.
Qed.

Lemma mandatory_part_elem bs b : b ∈ bs → b_Mandatory b = true → b ∈ mandatory_part bs.
Proof.
  intros Hb Hm. unfold mandatory_part. apply list_elem_of_filter. split; [done|].
  apply list_elem_of_fmap. exists b. split; [|done]. symmetry. by apply promote_fields.
Qed.

(** A promoted block is mandatory or optional according to its group. *)
Lemma promote_mandatory bs b :
  b ∈ bs → atomicGroupKey b ≠ "" →
  b_Mandatory (promote (mandatoryTransactions bs) b) = true ↔ atomicGroupKey b ∈ mandatoryTransactions bs.
Proof.
  intros Hb Hk. unfold promote. rewrite bool_decide_eq_false_2 by done. cbn [negb andb].
  destruct (contains _ _) eqn:E; [by rewrite <- contains_spec, E|].
  split; [|by rewrite <- contains_spec, E]. intros Hm. unfold mandatoryTransactions.
  apply list_elem_of_fmap. exists b. split; [done|]. by apply list_elem_of_filter.
Qed.

(** ** Groups *)

Definition of_key (k : string) (bs : list Block) : list Block := filter (λ b, atomicGroupKey b = k) bs.

Lemma groups_by_key bs k :
  foldl group_add ∅ bs !! k =
  if decide (of_key k bs = []) then None
  else Some {| ag_key := k; ag_blocks := of_key k bs; ag_tokens := tokens 0 (of_key k bs) |}.
Proof.
  induction bs as [|b bs IH] using rev_ind; [done|]. unfold of_key in *. rewrite foldl_app, filter_app. cbn [foldl].
  unfold group_add at 1. cbv zeta. rewrite filter_cons, filter_nil.
  destruct (decide (atomicGroupKey b = k)) as [->|Hne].
  - rewrite lookup_insert_eq, IH. rewrite (decide_False (P := _ ++ [b] = [])) by (by intros [_ ?]%app_eq_nil).
    unfold tokens. rewrite foldl_app. case_decide as E; cbn; rewrite ?E; done.
  - by rewrite lookup_insert_ne, IH, app_nil_r.
Qed.

Lemma elem_of_groups bs g :
  g ∈ atomicBlockGroups bs →
  ag_blocks g ≡ₚ of_key (ag_key g) bs ∧ ag_tokens g = tokens 0 (of_key (ag_key g) bs).
Proof.
  unfold atomicBlockGroups. rewrite elem_of_stable_sort, list_elem_of_fmap. intros (h & -> & Hh).
  apply elem_of_range_values in Hh as [k Hh]. rewrite groups_by_key in Hh.
  case_decide; [done|]. injection Hh as <-. split; [apply stable_sort_perm|done].
Qed.

Lemma groups_cover bs b : b ∈ bs → ∃ g, g ∈ atomicBlockGroups bs ∧ ag_key g = atomicGroupKey b.
Proof.
  intros Hb. assert (of_key (atomicGroupKey b) bs ≠ []) as Hne.
  { intros E. apply (not_elem_of_nil b). rewrite <- E. by apply list_elem_of_filter. }
  eexists. split.
  - unfold atomicBlockGroups. apply elem_of_stable_sort, list_elem_of_fmap. eexists. split; [done|].
    apply elem_of_range_values. exists (atomicGroupKey b). rewrite groups_by_key. by rewrite decide_False by done.
  - done.
Qed.

(** ** The selection loops *)

(** Blocks up to the mark the compiler may add. *)
Definition kept (b : Block) (bs : list Block) : Prop := b_mandatory (fillHash b) ∈ (λ c, b_mandatory (fillHash c)) <$> bs.

Lemma kept_elem b c bs : c ∈ bs → b_mandatory (fillHash c) = b_mandatory (fillHash b) → kept b bs.
Proof. intros Hc E. apply list_elem_of_fmap. by exists c. Qed.

Lemma fillHash_mandatory b c :
  b_mandatory b = b_mandatory c → b_mandatory (fillHash b) = b_mandatory (fillHash c).
Proof.
  destruct b as [? ? ? ? h ? ? ? ? ? ?], c as [? ? ? ? h' ? ? ? ? ? ?]. unfold b_mandatory. simpl.
  intros [= -> -> -> -> -> -> -> -> -> ->]. unfold fillHash. simpl. by destruct (h' ≟ "").
Qed.

Lemma fillHash_same b c :
  b_mandatory (fillHash b) = b_mandatory (fillHash c) →
  atomicGroupKey b = atomicGroupKey c ∧ blockIsAtomic b = blockIsAtomic c.
Proof.
  destruct b as [? ? ? ? h ? ? ? ? ? ?], c as [? ? ? ? h' ? ? ? ? ? ?]. unfold fillHash, b_mandatory. simpl.
  intros E.
  destruct (h ≟ ""), (h' ≟ ""); simpl in E; injection E as -> -> -> -> ? -> -> -> -> ->; done.
Qed.

Lemma take_groups_spec budget gs st :
  ∃ taken, taken ⊆ gs ∧ sl_selected (foldl (take_group budget) st gs) = sl_selected st ++ mjoin (ag_blocks <$> taken).
Proof.
  revert st. induction gs as [|g gs IH]; intros st.
  { exists []. cbn. by rewrite app_nil_r. }
  cbn [foldl]. destruct (IH (take_group budget st g)) as (taken & Hs & ->). unfold take_group. case_match.
  - exists taken. split; [set_solver|done].
  - exists (g :: taken). split; [set_solver|]. cbn [sl_selected fmap list_fmap]. cbn [mjoin list_join].
    by rewrite <- app_assoc.
Qed.

Lemma take_blocks_spec budget bs st :
  ∃ taken, taken ⊆ bs ∧ sl_selected (foldl (take_block budget) st bs) = sl_selected st ++ taken.
Proof.
  revert st. induction bs as [|b bs IH]; intros st.
  { exists []. cbn. by rewrite app_nil_r. }
  cbn [foldl]. destruct (IH (take_block budget st b)) as (taken & Hs & ->). unfold take_block. case_match.
  - exists taken. split; [set_solver|done].
  - exists (b :: taken). split; [set_solver|]. cbn [sl_selected]. by rewrite <- app_assoc.
Qed.

Lemma summary_block_prose h tk c : blockIsAtomic (summary_block h tk c) = false.
Proof.
  unfold blockIsAtomic, metadata. change (b_Kind (summary_block h tk c)) with "summary".
  assert (∀ key, key ∉ ["source_hash"; "algorithm"; "version"; "tokenizer_id"] →
    b_Metadata (summary_block h tk c) !! key = None) as Hm by (intros key Hk; by apply not_elem_of_list_to_map_1).
  by rewrite !Hm by set_solver.
Qed.

Lemma try_summary_prose sm tk h r bs b s : try_summary sm tk h r bs = inl (b, s) → blockIsAtomic b = false.
Proof.
  unfold try_summary. case_match; [|done]. case_match; [|done]. case_match; [|done]. case_match; [|done].
  intros [= <- _]. apply summary_block_prose.
Qed.

Lemma elem_semantic_optional bs b : b ∈ semantic_optional bs → blockIsAtomic b = false.
Proof. unfold semantic_optional. rewrite slice_sort_perm, list_elem_of_filter. by intros []. Qed.

(** The selection: the mandatory part, whole groups of optional atomic blocks, prose. *)
Lemma select_blocks_spec sm tk budget bs :
  ∃ groups prose,
    sl_selected (select_blocks sm tk budget bs).1 = mandatory_part bs ++ mjoin (ag_blocks <$> groups) ++ prose ∧
    groups ⊆ atomicBlockGroups (atomic_optional bs) ∧ Forall (λ b, blockIsAtomic b = false) prose.
Proof.
  unfold select_blocks. cbv zeta. set (st0 := {| sl_selected := mandatory_part bs |}).
  destruct (take_groups_spec budget (atomicBlockGroups (atomic_optional bs)) st0) as (groups & Hg & Hst).
  set (st := foldl _ _ _) in *. destruct (try_summary _ _ _ _ _) as [[b s]|reason] eqn:Ht.
  - exists groups, [b]. cbn [fst sl_selected]. rewrite Hst. cbn [sl_selected st0]. rewrite <- app_assoc.
    split_and!; [done|done|]. constructor; [|done]. by eapply try_summary_prose.
  - destruct (take_blocks_spec budget (semantic_optional bs) st) as (taken & Hs & E).
    exists groups, taken. cbn [fst]. rewrite E, Hst. cbn [sl_selected st0]. rewrite <- app_assoc.
    split_and!; [done|done|]. apply Forall_forall. intros b Hb. by eapply elem_semantic_optional, Hs.
Qed.

(** What compilation returns: all blocks, or the selection. *)
Lemma compile_blocks now session version budget blocks sm tk r m :
  compileWithSummarizer now session version budget blocks sm tk = (r, Ok m) →
  ∃ bs, (bs = blocks ∨ bs = sl_selected (select_blocks sm tk budget blocks).1) ∧
    m_Blocks m ≡ₚ fillHash <$> bs ∧ (∀ b, b ∈ bs → b_Mandatory b = true → b_ID b ∈ m_RequiredBlockIDs m) ∧
    (m_TokenEstimate m ≤ budget)%Z.
Proof.
  assert (∀ bs m', newManifest now session version budget bs (tk_ID tk) = Ok m' →
    m_Blocks m' ≡ₚ fillHash <$> bs ∧ (∀ b, b ∈ bs → b_Mandatory b = true → b_ID b ∈ m_RequiredBlockIDs m') ∧
    (m_TokenEstimate m' ≤ budget)%Z) as Hn.
  { intros bs m' Hm. apply newManifest_shape in Hm. cbv zeta in Hm.
    destruct Hm as (_ & _ & _ & _ & -> & -> & _ & Hle & _). split_and!; [by rewrite stable_sort_perm| |done].
    intros b Hb Hm. apply list_elem_of_fmap. exists b. split; [done|]. apply list_elem_of_filter.
    by rewrite elem_of_stable_sort. }
  unfold compileWithSummarizer. destruct (newManifest _ _ _ _ blocks _) as [m'|e] eqn:E.
  - intros [= _ <-]. exists blocks. split; [by left|]. by apply Hn.
  - case_match; [done|]. case_match; [done|]. destruct (select_blocks _ _ _ _) as [st r'] eqn:Es.
    destruct (newManifest _ _ _ _ (sl_selected st) _) as [m'|] eqn:E2; [|done].
    intros [= _ <-]. exists (sl_selected st). split; [by right|]. apply (Hn _ _ E2).
Qed.

Lemma compile_mandatory now session version budget blocks sm tk r m b :
  compileWithSummarizer now session version budget blocks sm tk = (r, Ok m) →
  b ∈ blocks → b_Mandatory b = true → fillHash b ∈ m_Blocks m ∧ b_ID b ∈ m_RequiredBlockIDs m.
Proof.
  intros Hc Hb Hm. destruct (compile_blocks _ _ _ _ _ _ _ _ _ Hc) as (bs & Hbs & Hp & Hreq & _).
  assert (b ∈ bs) as Hin.
  { destruct Hbs as [->| ->]; [done|]. destruct (select_blocks_spec sm tk budget blocks) as (gs & prose & -> & _).
    apply elem_of_app. left. by apply mandatory_part_elem. }
  split; [|by apply Hreq]. rewrite Hp. by apply list_elem_of_fmap_2.
Qed.

(** C19: a compiled context carries every mandatory block unchanged and lists it as
    required, within the token budget. *)
Theorem compile_keeps_mandatory now session version budget blocks sm tk r m :
  compileWithSummarizer now session version budget blocks sm tk = (r, Ok m) →
  (m_TokenEstimate m ≤ budget)%Z ∧
  ∀ b, b ∈ blocks → b_Mandatory b = true → fillHash b ∈ m_Blocks m ∧ b_ID b ∈ m_RequiredBlockIDs m.
Proof.
  intros Hc. split; [by destruct (compile_blocks _ _ _ _ _ _ _ _ _ Hc) as (bs & _ & _ & _ & Hle)|].
  intros b. by eapply compile_mandatory.
Qed.

Lemma atomic_optional_elem bs b :
  b ∈ bs → atomicGroupKey b ≠ "" → b_Mandatory (promote (mandatoryTransactions bs) b) = false →
  promote (mandatoryTransactions bs) b ∈ atomic_optional bs.
Proof.
  intros Hb Hk Hm. unfold atomic_optional, optional_part. rewrite slice_sort_perm, !list_elem_of_filter. split_and!; [|done|by apply list_elem_of_fmap_2].
  destruct (same_but_mandatory b (promote (mandatoryTransactions bs) b)) as (_ & _ & _ & _ & <-).
  { symmetry. apply promote_fields. }
  unfold atomicGroupKey in Hk. by destruct (blockIsAtomic b).
Qed.

Lemma fillHash_idem b : fillHash (fillHash b) = fillHash b.
Proof.
  assert (b_Hash (fillHash b) ≠ "") as Hh.
  { unfold fillHash. case_bool_decide; [apply sha256_nonempty|done]. }
  unfold fillHash at 1. by rewrite bool_decide_eq_false_2.
Qed.

Lemma kept_filled b bs cs :
  cs ≡ₚ fillHash <$> bs → kept b cs ↔ ∃ x, x ∈ bs ∧ b_mandatory (fillHash x) = b_mandatory (fillHash b).
Proof.
  intros Hp. unfold kept. rewrite list_elem_of_fmap. setoid_rewrite Hp. setoid_rewrite list_elem_of_fmap. split.
  - intros (y & E & x & -> & Hx). exists x. by rewrite fillHash_idem in E.
  - intros (x & Hx & E). exists (fillHash x). rewrite fillHash_idem. split; [done|]. by exists x.
Qed.

(** The group of a selected atomic block is selected with it. *)
Lemma selected_group sm tk budget bs x c :
  x ∈ sl_selected (select_blocks sm tk budget bs).1 → c ∈ bs → atomicGroupKey c ≠ "" →
  atomicGroupKey x = atomicGroupKey c →
  promote (mandatoryTransactions bs) c ∈ sl_selected (select_blocks sm tk budget bs).1.
Proof.
  intros Hx Hc Hk Hxc. set (P := promote (mandatoryTransactions bs)).
  assert (∀ y, atomicGroupKey (P y) = atomicGroupKey y) as HP.
  { intros y. by apply same_but_mandatory, promote_fields. }
  destruct (select_blocks_spec sm tk budget bs) as (gs & prose & Hs & Hgs & Hprose). rewrite Hs in *.
  rewrite !elem_of_app in Hx. destruct Hx as [Hx|[Hx|Hx]].
  - apply list_elem_of_filter in Hx as [Hm Hx]. apply list_elem_of_fmap in Hx as (y & -> & Hy). fold (P y) in *.
    rewrite HP in Hxc. apply elem_of_app. left. apply list_elem_of_filter. split; [|by apply list_elem_of_fmap_2].
    apply promote_mandatory; [done|done|]. rewrite <- Hxc. apply promote_mandatory; [done|by rewrite Hxc|done].
  - apply list_elem_of_join in Hx as (l & Hx & Hl). apply list_elem_of_fmap in Hl as (g & -> & Hg).
    destruct (elem_of_groups _ _ (Hgs _ Hg)) as [Hbl _].
    rewrite Hbl in Hx. apply list_elem_of_filter in Hx as [Hxk Hx].
    unfold atomic_optional, optional_part in Hx. rewrite slice_sort_perm, !list_elem_of_filter in Hx. destruct Hx as (_ & Hm & Hx).
    apply list_elem_of_fmap in Hx as (y & -> & Hy). fold (P y) in *. rewrite HP in *.
    apply elem_of_app. right. apply elem_of_app. left. apply list_elem_of_join. exists (ag_blocks g).
    split; [|by apply list_elem_of_fmap_2]. rewrite Hbl. apply list_elem_of_filter. split; [by rewrite HP, <- Hxc|].
    apply atomic_optional_elem; [done|done|]. apply not_true_is_false. rewrite promote_mandatory by done.
    assert (atomicGroupKey y ≠ "") as Hky by congruence.
    rewrite <- Hxc, <- (promote_mandatory bs y Hy Hky). fold P. by rewrite Hm.
  - rewrite Forall_forall in Hprose. specialize (Hprose _ Hx). exfalso. apply Hk. rewrite <- Hxc.
    unfold atomicGroupKey. by rewrite Hprose.
Qed.

(** blocks of one atomic group (the records of a tool call) are kept together
    or dropped together. *)
Theorem atomic_groups_whole now session version budget blocks sm tk r m b c :
  compileWithSummarizer now session version budget blocks sm tk = (r, Ok m) →
  b ∈ blocks → c ∈ blocks → atomicGroupKey b ≠ "" → atomicGroupKey b = atomicGroupKey c →
  kept b (m_Blocks m) → kept c (m_Blocks m).
Proof.
  intros Hc Hb Hc' Hk Hbc. destruct (compile_blocks _ _ _ _ _ _ _ _ _ Hc) as (bs & Hbs & Hp & _ & _).
  rewrite !(kept_filled _ _ _ Hp). intros (x & Hx & E). destruct Hbs as [->| ->]; [by exists c|].
  eexists. split.
  - eapply selected_group; [exact Hx|exact Hc'|by rewrite <- Hbc|].
    destruct (fillHash_same _ _ E) as [-> _]. done.
  - apply fillHash_mandatory, promote_fields.
Qed.

(** ** The budget *)

(** A selection whose total is the sum of its blocks, within the budget. *)
Record fits (budget : Z) (st : selection) : Prop := {
  ft_blocks : Forall selectable (sl_selected st);
  ft_total : sl_total st = token_sum (sl_selected st);
  ft_budget : (sl_total st ≤ budget)%Z }.

Lemma fits_add budget st bs n ids :
  fits budget st → Forall selectable bs → n = token_sum bs → (budget + token_sum bs < two63)%Z →
  (add64 (sl_total st) n ≤ budget)%Z →
  fits budget {| sl_selected := sl_selected st ++ bs; sl_total := add64 (sl_total st) n; sl_retained := ids |}.
Proof.
  intros [Hb Ht Hle] Hbs -> Hlim Hn. constructor; simpl; [by apply Forall_app| |done].
  rewrite token_sum_app, <- Ht. apply wrap64_id.
  pose proof (token_sum_nonneg (sl_selected st) (Forall_impl _ _ _ Hb selectable_counted)).
  pose proof (token_sum_nonneg bs (Forall_impl _ _ _ Hbs selectable_counted)).
  unfold int64_range, two63 in *. lia.
Qed.

Lemma take_groups_fit budget gs st :
  fits budget st →
  Forall (λ g, Forall selectable (ag_blocks g) ∧ ag_tokens g = token_sum (ag_blocks g) ∧
               (budget + token_sum (ag_blocks g) < two63)%Z) gs →
  fits budget (foldl (take_group budget) st gs).
Proof.
  intros Hf Hgs. revert st Hf. induction Hgs as [|g gs (Hs & Ht & Hl) _ IH]; intros st Hf; [done|]. cbn [foldl].
  apply IH. unfold take_group. destruct (Z.ltb_spec budget (add64 (sl_total st) (ag_tokens g))); [done|].
  apply fits_add; [done|done|done|done|lia].
Qed.

Lemma take_blocks_fit budget bs st :
  fits budget st → Forall selectable bs → (budget + token_sum bs < two63)%Z →
  fits budget (foldl (take_block budget) st bs).
Proof.
  intros Hf Hbs. revert st Hf. induction Hbs as [|b bs Hb Hbs IH]; intros st Hf Hl; [done|]. cbn [foldl].
  pose proof (selectable_counted _ Hb) as Hb'. unfold counted in Hb'.
  pose proof (token_sum_nonneg bs (Forall_impl _ _ _ Hbs selectable_counted)).
  unfold token_sum in Hl. cbn [foldr] in Hl. fold (token_sum bs) in Hl.
  apply IH; [|lia]. unfold take_block. destruct (Z.ltb_spec budget (add64 (sl_total st) (b_TokenEstimate b))); [done|].
  apply fits_add; [done|by constructor| |cbn; lia|lia]. unfold token_sum. cbn. lia.
Qed.

Lemma summary_block_selectable h tk c :
  blank c = false → (0 < tk_Estimate tk c)%Z → selectable (summary_block h tk c).
Proof.
  intros Hc He. constructor.
  - unfold block_unlined, summary_block. simpl. destruct (Z.ltb_spec (tk_Estimate tk c) 1); [lia|done].
  - unfold summary_block. cbn [b_with_Hash b_Content]. apply TrimSpace_not_blank. by apply bool_decide_eq_false in Hc.
  - left. unfold metadata. assert (b_Metadata (summary_block h tk c) !! "prompt_kind" = None) as ->; [|done].
    apply not_elem_of_list_to_map_1. set_solver.
Qed.

Lemma try_summary_fit sm tk h remaining bs b s :
  try_summary sm tk h remaining bs = inl (b, s) → selectable b ∧ (1 ≤ b_TokenEstimate b ≤ remaining)%Z.
Proof.
  unfold try_summary. destruct ((0 <? remaining)%Z && negb (bool_decide (bs = []))); [|done].
  destruct (sm _) as [sum|]; [|done].
  destruct (negb (blank (sr_Content sum)) && _) eqn:E; [|done].
  apply andb_true_iff in E as [E1%negb_true_iff _]. cbv zeta.
  destruct ((0 <? _)%Z && _) eqn:E; [|done]. apply andb_true_iff in E as [E2%Z.ltb_lt E3%Z.leb_le].
  intros [= <- _]. split; [|lia]. by apply summary_block_selectable.
Qed.

Lemma optional_part_fit bs :
  Forall selectable bs →
  Forall selectable (optional_part bs) ∧ (0 ≤ token_sum (optional_part bs) ≤ token_sum bs)%Z.
Proof.
  intros Hbs. pose proof (promoted_selectable (mandatoryTransactions bs) bs Hbs) as Hp.
  split; [by apply Forall_filter|]. rewrite <- (promoted_sum (mandatoryTransactions bs) bs).
  apply token_sum_split. eapply Forall_impl; [exact Hp|apply selectable_counted].
Qed.

(** The optional atomic blocks, their groups and the optional prose, within the sum. *)
Lemma optional_filter_fit (P : Block → Prop) `{∀ b, Decision (P b)} bs cs :
  Forall selectable bs → cs ≡ₚ filter P (optional_part bs) →
  Forall selectable cs ∧ (0 ≤ token_sum cs ≤ token_sum bs)%Z.
Proof.
  intros Hbs Hcs. destruct (optional_part_fit bs Hbs) as [Ho Hs].
  split; [rewrite Hcs; by apply Forall_filter|]. rewrite (token_sum_perm _ _ Hcs).
  pose proof (token_sum_split P (optional_part bs) (Forall_impl _ _ _ Ho selectable_counted)). lia.
Qed.

Lemma groups_fit budget bs :
  Forall selectable bs → (0 ≤ budget)%Z → (budget + token_sum bs < two63)%Z →
  Forall (λ g, Forall selectable (ag_blocks g) ∧ ag_tokens g = token_sum (ag_blocks g) ∧
               (budget + token_sum (ag_blocks g) < two63)%Z) (atomicBlockGroups (atomic_optional bs)).
Proof.
  intros Hbs Hb Hl. apply Forall_forall. intros g Hg. apply elem_of_groups in Hg as [Hp Ht].
  destruct (optional_filter_fit (λ b, blockIsAtomic b = true) bs (atomic_optional bs)) as [Ha Hs];
    [done|apply slice_sort_perm|].
  pose proof (token_sum_split (λ b, atomicGroupKey b = ag_key g) _ (Forall_impl _ _ _ Ha selectable_counted)) as Hk.
  fold (of_key (ag_key g) (atomic_optional bs)) in Hk.
  assert (Forall selectable (of_key (ag_key g) (atomic_optional bs))) as Hf by by apply Forall_filter.
  split_and!; [by rewrite Hp| |rewrite (token_sum_perm _ _ Hp); lia].
  rewrite Ht, (token_sum_perm _ _ Hp). apply tokens_exact; [|lia].
  eapply Forall_impl; [exact Hf|apply selectable_counted].
Qed.

Lemma select_blocks_fit sm tk budget bs :
  Forall selectable bs → (1 ≤ budget)%Z → (budget + token_sum bs < two63)%Z →
  (token_sum (mandatory_part bs) ≤ budget)%Z → fits budget (select_blocks sm tk budget bs).1.
Proof.
  intros Hbs Hb Hl Hm. unfold select_blocks. cbv zeta. set (st0 := {| sl_selected := mandatory_part bs |}).
  assert (Forall selectable (mandatory_part bs)) as Hmp by by apply Forall_filter, promoted_selectable.
  assert (fits budget st0) as Hf0.
  { assert (tokens 0 (mandatory_part bs) = token_sum (mandatory_part bs)) as E.
    { apply tokens_exact; [eapply Forall_impl; [exact Hmp|apply selectable_counted]|].
      pose proof (token_sum_nonneg bs (Forall_impl _ _ _ Hbs selectable_counted)). lia. }
    constructor; simpl; [done|done|lia]. }
  pose proof (take_groups_fit budget _ _ Hf0 (groups_fit budget bs Hbs ltac:(lia) Hl)) as Hf1.
  set (st := foldl _ _ _) in *. destruct (try_summary _ _ _ _ _) as [[b s]|reason] eqn:Ht; cbn [fst].
  - apply try_summary_fit in Ht as [Hsb Hest].
    assert (int64_range (budget + - sl_total st)) as Hr.
    { pose proof (token_sum_nonneg _ (Forall_impl _ _ _ (ft_blocks _ _ Hf1) selectable_counted)).
      pose proof (token_sum_nonneg bs (Forall_impl _ _ _ Hbs selectable_counted)).
      destruct Hf1 as [_ ? ?]. unfold int64_range, two63 in *. lia. }
    unfold add64 in Hest. rewrite wrap64_id in Hest by done.
    assert (add64 (sl_total st) (b_TokenEstimate b) = (sl_total st + b_TokenEstimate b)%Z) as Hadd.
    { apply wrap64_id. pose proof (token_sum_nonneg _ (Forall_impl _ _ _ (ft_blocks _ _ Hf1) selectable_counted)).
      pose proof (token_sum_nonneg bs (Forall_impl _ _ _ Hbs selectable_counted)).
      destruct Hf1 as [_ ? ?]. unfold int64_range, two63 in *. lia. }
    destruct Hf1 as [F1 F2 F3]. constructor; cbn [sl_selected sl_total]; rewrite ?Hadd.
    + apply Forall_app. split; [done|by constructor].
    + rewrite token_sum_app, F2. unfold token_sum. cbn. lia.
    + lia.
  - destruct (optional_filter_fit (λ b, blockIsAtomic b = false) bs (semantic_optional bs)) as [Ha Hs];
      [done|apply slice_sort_perm|].
    apply take_blocks_fit; [done|done|lia].
Qed.

(** C38: with blocks a manifest can carry, compilation succeeds exactly when the
    mandatory part (with the blocks promoted by their group) fits the budget,
    whatever the summarizer and the tokenizer do. *)
Theorem compile_succeeds_iff now session version budget blocks sm tk :
  blank session = false → (1 ≤ version)%Z → (1 ≤ budget)%Z → blank (tk_ID tk) = false →
  Forall selectable blocks → (budget + token_sum blocks < two63)%Z →
  (∃ m, (compileWithSummarizer now session version budget blocks sm tk).2 = Ok m) ↔
  (token_sum (mandatory_part blocks) ≤ budget)%Z.
Proof.
  intros Hs Hv Hb Ht Hbs Hl.
  assert (Forall counted blocks) as Hc by (eapply Forall_impl; [exact Hbs|apply selectable_counted]).
  pose proof (token_sum_nonneg _ Hc) as Hpos.
  pose proof (promoted_selectable (mandatoryTransactions blocks) blocks Hbs) as Hps.
  pose proof (token_sum_split (λ b, b_Mandatory b = true) _ (Forall_impl _ _ _ Hps selectable_counted)) as Hmp.
  fold (mandatory_part blocks) in Hmp. rewrite promoted_sum in Hmp.
  assert (Forall counted (mandatory_part blocks)) as Hmc.
  { apply Forall_filter. eapply Forall_impl; [exact Hps|apply selectable_counted]. }
  pose proof (newManifest_total now session version budget blocks (tk_ID tk) Hs Hv Hb Ht Hbs ltac:(lia)) as Hn.
  unfold compileWithSummarizer. destruct (Z.leb_spec (token_sum blocks) budget) as [Hfit|Hover].
  - destruct Hn as [m ->]. split; [lia|by eexists].
  - rewrite Hn. cbn [errors_is]. rewrite bool_decide_eq_true_2 by done. cbn [negb].
    rewrite (tokens_exact (mandatory_part blocks)) by (done || lia).
    destruct (Z.ltb_spec budget (token_sum (mandatory_part blocks))) as [Hno|Hok].
    + split; [by intros [m [=]]|lia].
    + split; [lia|]. intros _. pose proof (select_blocks_fit sm tk budget blocks Hbs Hb Hl Hok) as [F1 F2 F3].
      destruct (select_blocks _ _ _ _) as [st r]. cbn [fst] in *.
      pose proof (newManifest_total now session version budget (sl_selected st) (tk_ID tk) Hs Hv Hb Ht F1 ltac:(lia)) as Hn2.
      replace (token_sum (sl_selected st) <=? budget)%Z with true in Hn2 by lia.
      destruct Hn2 as [m ->]. by eexists.
Qed.

(** ** The harness *)

Lemma required_block_fields b :
  b_ID (required_block b) = b_ID b ∧ b_Content (required_block b) = b_Content b ∧
  b_Mandatory (required_block b) = true ∧ fillHash (required_block b) = required_block b.
Proof.
  unfold required_block. set (c := if _ : bool then _ else _).
  assert (b_ID c = b_ID b ∧ b_Content c = b_Content b ∧ b_Mandatory c = true) as (E1 & E2 & E3)
    by (unfold c; by case_match).
  destruct (fillHash_fields c) as (-> & -> & _ & ->). by rewrite fillHash_idem.
Qed.

(** unless the envelope is the historical placeholder, the envelope
    [WithRequiredBlock] returns passes the dispatch validation and carries the
    required block, mandatory and with its content. *)
Theorem required_block_delivered now e b e' :
  WithRequiredBlock now e b = Ok e' →
  (m_CompilerVersion (ce_Manifest e) = "" ∧ m_Blocks (ce_Manifest e) = [] ∧ e' = e) ∨
  ContextEnvelope_Validate e' = Ok tt ∧
  ∃ x, x ∈ m_Blocks (ce_Manifest e') ∧ b_ID x = b_ID b ∧ b_Content x = b_Content b ∧ b_Mandatory x = true.
Proof.
  unfold WithRequiredBlock. cbv zeta. destruct ((m_CompilerVersion _ ≟ "") && _) eqn:Hp.
  { apply andb_true_iff in Hp as [Hv Hn]. apply bool_decide_eq_true in Hv, Hn. intros [= <-]. by left. }
  rewrite rbind_any_Ok. intros [[[] Hv] He]. rewrite rbind_reject_Ok in He. destruct He as [_ He]. right.
  destruct (required_block_fields b) as (Hid & Hct & Hman & Hfill).
  destruct (list_find _ _) as [[i x]|] eqn:Hf.
  - destruct ((b_Hash x ≟ _) && _ && _) eqn:Hx; [|done]. injection He as <-. split; [done|].
    apply andb_true_iff in Hx as [Hx Hm]. apply andb_true_iff in Hx as [_ Hx]. apply bool_decide_eq_true in Hx.
    apply list_find_Some in Hf as (Hx1 & Hx2 & _). exists x. rewrite Hx, Hx2, Hct, Hid.
    split_and!; [by eapply list_elem_of_lookup_2|done..].
  - destruct (CompileWithSummarizer _ _ _ _ _ _) as [r [m|]] eqn:Hc; [|done]. cbn [rbind] in He.
    destruct (compile_mandatory _ _ _ _ _ _ _ _ _ (required_block b) Hc) as [Hin _]; [|done|].
    { apply elem_of_app. right. by apply list_elem_of_singleton. }
    rewrite Hfill in Hin. set (m1 := m_with _ _ _ _ _ m) in *.
    apply rbind_Ok in He as (m2 & Hm2 & He). destruct (Envelope_roundtrip _ _ He) as [Hval ->]. split; [done|].
    exists (required_block b). split_and!; [|done..].
    assert (m_Blocks m2 = m_Blocks m1) as ->; [|done].
    case_bool_decide; [by injection Hm2 as <-|]. unfold Rehash in Hm2.
    apply rbind_Ok in Hm2 as (prompt & _ & Hm2). rewrite rbind_any_Ok in Hm2. by destruct Hm2 as [_ [= <-]].
Qed.
End compiler.

(** ** A compilation under pressure

    A mandatory block, one tool call of two records and one block of prose, of
    which the budget leaves room for the first two and a summary. *)
Definition stable_slice_sort : SliceSort :=
  {| slice_sort := λ A le _ l, stable_sort le l; slice_sort_perm := λ A le _ l, stable_sort_perm le l;
     slice_sort_sorted := λ A le _ _ _ l, stable_sort_sorted le l |}.
#[export] Existing Instance stable_slice_sort.

Definition tool_block (id : string) : Block := {|
  b_ID := id; b_Kind := "tool_call"; b_Source := "tool"; b_Content := "{}"; b_Hash := ""; b_Policy := "policy";
  b_Trust := "trusted"; b_SelectionReason := "recent"; b_TokenEstimate := 3; b_Mandatory := false;
  b_Metadata := {["tool_call_id" := "t1"]} |}.
Definition tight_blocks : list Block :=
  [sample_block "a" false; tool_block "c"; sample_block "b" true; tool_block "d"].
Definition compile_sample (budget : Z) : CompressionRecord * result Manifest :=
  Compile 1 "session" 1 budget tight_blocks.
Definition compiled_sample (budget : Z) : Manifest :=
  match (compile_sample budget).2 with Ok m => m | Err _ => sample_manifest 0 end.

Example tight_budgets :
  (λ budget, b_ID <$> m_Blocks (compiled_sample budget)) <$> [16; 12; 9; 5]%Z
  = [["a"; "b"; "c"; "d"]; ["b"; "c"; "d"; "summary:h:json"]; ["b"; "summary:h:json"]; ["b"]] ∧
  (compile_sample 4).2 = Err (ESentinel ErrOverflow).
Proof. vm_compute. done. Qed.

Lemma compile_keeps_mandatory_witness :
  compile_sample 12 = ((compile_sample 12).1, Ok (compiled_sample 12)) ∧
  (m_TokenEstimate (compiled_sample 12) ≤ 12)%Z ∧
  fillHash (sample_block "b" true) ∈ m_Blocks (compiled_sample 12).
Proof.
  assert (compile_sample 12 = ((compile_sample 12).1, Ok (compiled_sample 12))) as Hc by (vm_compute; reflexivity).
  destruct (compile_keeps_mandatory 1 "session" 1 12 tight_blocks Summarize Rune4Tokenizer _ _ Hc) as [Hle Hb].
  split; [exact Hc|]. split; [exact Hle|].
  apply Hb; [|reflexivity]. apply elem_of_cons; right. apply elem_of_cons; right. left.
Defined.

Lemma atomic_groups_whole_witness :
  compile_sample 12 = ((compile_sample 12).1, Ok (compiled_sample 12)) ∧
  kept (tool_block "d") (m_Blocks (compiled_sample 12)).
Proof.
  assert (compile_sample 12 = ((compile_sample 12).1, Ok (compiled_sample 12))) as Hc by (vm_compute; reflexivity).
  split; [exact Hc|].
  apply (atomic_groups_whole 1 "session" 1 12 tight_blocks Summarize Rune4Tokenizer _ _ (tool_block "c") _ Hc).
  - apply elem_of_cons; right. left.
  - do 3 (apply elem_of_cons; right). left.
  - vm_compute. discriminate.
  - reflexivity.
  - vm_compute. apply elem_of_cons; right. left.
Defined.

Lemma compile_succeeds_iff_witness :
  (token_sum (mandatory_part tight_blocks) ≤ 12)%Z ∧ ∃ m, (compile_sample 12).2 = Ok m.
Proof.
  split; [vm_compute; discriminate|].
  apply (compile_succeeds_iff 1 "session" 1 12 tight_blocks Summarize Rune4Tokenizer).
  - reflexivity.
  - lia.
  - lia.
  - reflexivity.
  - repeat constructor; vm_compute; auto.
  - vm_compute. reflexivity.
  - vm_compute. discriminate.
Defined.

Definition sample_compiled_envelope : ContextEnvelope :=
  match ContextManifest_Envelope sample_compiled with Ok e => e | Err _ => sample_envelope 0 end.
Definition node_contract : Block := {|
  b_ID := "graph-node-contract"; b_Kind := "plan_node_contract"; b_Source := "graph:plan:node:build"; b_Content := "{}";
  b_Hash := ""; b_Policy := "frozen_plan"; b_Trust := "plan_snapshot";
  b_SelectionReason := "mandatory_graph_node_contract"; b_TokenEstimate := 0; b_Mandatory := false;
  b_Metadata := {["atomic" := "true"]} |}.
Definition enriched_envelope : ContextEnvelope :=
  match WithRequiredBlock 1 sample_compiled_envelope node_contract with Ok e => e | Err _ => sample_envelope 0 end.

Lemma required_block_delivered_witness :
  WithRequiredBlock 1 sample_compiled_envelope node_contract = Ok enriched_envelope ∧
  ((m_CompilerVersion (ce_Manifest sample_compiled_envelope) = "" ∧
    m_Blocks (ce_Manifest sample_compiled_envelope) = [] ∧ enriched_envelope = sample_compiled_envelope) ∨
   ContextEnvelope_Validate enriched_envelope = Ok tt ∧
   ∃ x, x ∈ m_Blocks (ce_Manifest enriched_envelope) ∧ b_ID x = "graph-node-contract" ∧ b_Content x = "{}" ∧
     b_Mandatory x = true).
Proof.
  assert (WithRequiredBlock 1 sample_compiled_envelope node_contract = Ok enriched_envelope) as Hw
    by (vm_compute; reflexivity).
  split; [exact Hw|]. apply (required_block_delivered 1 sample_compiled_envelope node_contract _ Hw).
Defined.

(** [WithRequiredBlock] always compiles with the default tokenizer: the envelope of
    a model-aware manifest comes back under another tokenizer's name. *)
Definition model_envelope : ContextEnvelope :=
  match newManifest 1 "session" 1 100 sample_blocks "model-aware-v1:m" with
  | Ok m => match ContextManifest_Envelope m with Ok e => e | Err _ => sample_envelope 0 end
  | Err _ => sample_envelope 0
  end.
Example required_block_changes_tokenizer :
  m_TokenizerID (ce_Manifest model_envelope) = "model-aware-v1:m" ∧
  match WithRequiredBlock 1 model_envelope node_contract with
  | Ok e => m_TokenizerID (ce_Manifest e) = TokenizerID
  | Err _ => False
  end.
Proof. vm_compute. done. Qed.
