(* ===== verification/DefinitionsProps.v ===== *)
(** * DefinitionsProps: what validated definitions and frozen plans guarantee *)
From stdpp Require Import base strings gmap list pretty.
From Stdlib Require Import ZArith Lia Ascii.
From S2P Require Import Prelude GoLib GoStrings GoValue GoJson ContextModel OrchModel GraphSearch Validate Definitions PredicateSpec GraphSpec ProjectionData Projection Repair Transition ContextSpec Samples.

(** ** Loops that collect what they have seen *)

(** A loop whose body rejects a repeated key and remembers it otherwise. *)
Lemma fold_distinct_Ok {A} (key : A → string) (P : A → Prop) (f : list string → nat → A → result (list string)) xs i seen out :
  (∀ s k x s', f s k x = Ok s' → P x ∧ key x ∉ s ∧ s' = key x :: s) →
  fold_each_from i f seen xs = Ok out →
  Forall P xs ∧ NoDup (key <$> xs) ∧ ∀ x, x ∈ xs → key x ∉ seen.
Proof.
  intros Hf. revert i seen. induction xs as [|x xs IH]; intros i seen; simpl.
  - intros _. split_and!; [constructor|constructor|set_solver].
  - rewrite rbind_Ok. intros (s' & Hx & Hr). apply Hf in Hx as (HP & Hn & ->).
    apply IH in Hr as (HPs & Hnd & Hout). split_and!.
    + by constructor.
    + constructor; [|done]. intros Hin. apply list_elem_of_fmap in Hin as (y & Hy & Hin).
      apply (Hout y Hin). rewrite <- Hy. left.
    + intros y Hy. apply elem_of_cons in Hy as [->|Hy]; [done|]. intros Hs. apply (Hout y Hy). by right.
Qed.

Lemma contains_false xs v : contains xs v = false ↔ v ∉ xs.
Proof. rewrite <- contains_spec. by destruct (contains xs v). Qed.

(** ** Tool policies *)

(** A policy overlaps exactly when some item is both allowed and denied. *)
Lemma policyOverlap_spec p :
  policyOverlap p = "" ↔
  ∀ x y, x ∈ tp_Allowed p → y ∈ tp_Denied p → TrimSpace x = TrimSpace y → TrimSpace x = "".
Proof.
  unfold policyOverlap. set (denied := filter _ _).
  assert (∀ v, v ∈ denied ↔ v ≠ "" ∧ ∃ y, y ∈ tp_Denied p ∧ v = TrimSpace y) as Hd.
  { intros v. unfold denied. rewrite list_elem_of_filter, list_elem_of_fmap. naive_solver. }
  destruct (List.find _ _) as [v|] eqn:Hf; simpl.
  - apply find_some in Hf as [Hin Hc]. apply list_elem_of_In, list_elem_of_fmap in Hin as (x & -> & Hx).
    apply contains_spec, Hd in Hc as (Hne & y & Hy & E). split; [done|]. intros Hall. by apply (Hall x y).
  - split; [|done]. intros _ x y Hx Hy E. destruct (decide (TrimSpace x = "")) as [|Hne]; [done|].
    pose proof (find_none _ _ Hf (TrimSpace x)) as Hn. exfalso.
    enough (contains denied (TrimSpace x) = true) as Hc by (rewrite Hn in Hc; [done|]; by apply list_elem_of_In, list_elem_of_fmap_2).
    apply contains_spec, Hd. eauto.
Qed.

(** ** Agents *)

Section agents.
Context `{!MapRange}.

Lemma check_environment_Ok s k r s' :
  check_environment s k r = Ok s' →
  (environmentNamePattern (TrimSpace (er_Name r)) = true ∧
   ∃ v, TrimSpace (er_SecretRef r) = "env:" +:+ v ∧ environmentNamePattern v = true) ∧
  TrimSpace (er_Name r) ∉ s ∧ s' = TrimSpace (er_Name r) :: s.
Proof.
  unfold check_environment. cbv zeta. rewrite !rbind_reject_Ok, negb_false_iff, orb_false_iff, !negb_false_iff, contains_false.
  intros (Hn & [Hp Hv] & Hs & [= <-]). split_and!; try done. exists (TrimPrefix (TrimSpace (er_SecretRef r)) "env:").
  split; [|done]. revert Hp. generalize (TrimSpace (er_SecretRef r)). intros s0 Hp. unfold TrimPrefix. rewrite Hp.
  do 4 (destruct s0 as [|? s0]; [done|]; cbn [HasPrefix] in Hp; apply andb_true_iff in Hp as [E Hp];
        apply bool_decide_eq_true in E as <-).
  done.
Qed.

(** secrets stay out of agent definitions.  In an accepted agent no runtime
    configuration key names a secret and no value can break out of its line;
    every environment entry has a valid, distinct name and refers to a variable
    of the host; no tool is both allowed and denied; and an active agent names
    its provider and both schemas. *)
Theorem agent_definition_safe a :
  AgentDefinition_Validate a = Ok tt →
  (∀ k v, eb_RuntimeConfig (ad_ExecutorBinding a) !! k = Some v →
     ContainsAny v unsafe_value_bytes = false ∧
     ∀ f, f ∈ secret_fragments → Contains (ToLower k) f = false) ∧
  NoDup ((λ r, TrimSpace (er_Name r)) <$> eb_Environment (ad_ExecutorBinding a)) ∧
  (∀ r, r ∈ eb_Environment (ad_ExecutorBinding a) →
     environmentNamePattern (TrimSpace (er_Name r)) = true ∧
     ∃ v, TrimSpace (er_SecretRef r) = "env:" +:+ v ∧ environmentNamePattern v = true) ∧
  (∀ x y, x ∈ tp_Allowed (ad_ToolPolicy a) → y ∈ tp_Denied (ad_ToolPolicy a) →
     TrimSpace x = TrimSpace y → TrimSpace x = "") ∧
  (ad_Status a = AgentActive →
     blank (eb_ProviderID (ad_ExecutorBinding a)) = false ∧ blank (sr_ID (ad_InputSchema a)) = false ∧
     blank (sr_ID (ad_OutputSchema a)) = false).
Proof.
  unfold AgentDefinition_Validate. rewrite !rbind_any_Ok. intros (_ & _ & _ & _ & _ & _ & _ & _ & Ho & Hb & Hr).
  revert Ho Hb Hr. unfold validateAgentBinding, validateAgentRuntime. cbv zeta.
  rewrite !rbind_any_Ok. intros [[] Ho] [[] Hb] (_ & _ & [[] Hc] & _ & [[out He] _]).
  apply reject_tt, negb_false_iff, bool_decide_eq_true in Ho. pose proof (proj1 (policyOverlap_spec _) Ho) as Hpol.
  apply rbind_reject_Ok in Hb as [Hb _].
  eapply (fold_distinct_Ok (λ r, TrimSpace (er_Name r))) in He as (HP & Hnd & _); [|apply check_environment_Ok].
  rewrite Forall_forall in HP. split_and!; try done.
  - intros k v Hk. apply elem_of_range, list_elem_of_lookup in Hk as [j Hj].
    apply check_each_Ok with (k := j) (x := (k, v)) in Hc; [|done]. revert Hc. unfold check_config.
    rewrite !rbind_reject_Ok, reject_tt, orb_false_iff. intros (_ & Hf & _ & Hv). split; [done|].
    intros f Hin. destruct (Contains (ToLower k) f) eqn:E; [|done].
    rewrite <- Hf. symmetry. apply existsb_exists. exists f. split; [by apply list_elem_of_In|done].
  - intros Hst. rewrite (bool_decide_true _ Hst) in Hb. simpl in Hb. rewrite !orb_false_iff in Hb. naive_solver.
Qed.

(** Who may invoke an agent: anyone for a definition without owner and mode;
    otherwise a named member who owns it, belongs to the workspace mode, or is
    listed. *)
Definition may_invoke (a : AgentDefinition) (member : string) : Prop :=
  let owner := if TrimSpace (ad_OwnerID a) ≟ "" then TrimSpace (ad_CreatedBy a) else TrimSpace (ad_OwnerID a) in
  (owner = "" ∧ TrimSpace (ap_Mode (ad_AccessPolicy a)) = "") ∨
  (TrimSpace member ≠ "" ∧
   (TrimSpace member = owner ∨ access_mode a = "workspace" ∨
    (access_mode a = "members" ∧ TrimSpace member ∈ TrimSpace <$> ap_MemberIDs (ad_AccessPolicy a)))).

Lemma CanInvoke_spec a member : CanInvoke a member = true ↔ may_invoke a member.
Proof.
  unfold CanInvoke, may_invoke. cbv zeta. set (owner := if _ ≟ "" then _ else _). unfold blank.
  destruct (decide (owner = "" ∧ TrimSpace (ap_Mode (ad_AccessPolicy a)) = "")) as [[E1 E2]|Hno].
  { rewrite E1, E2. simpl. naive_solver. }
  assert ((owner ≟ "") && (TrimSpace (ap_Mode (ad_AccessPolicy a)) ≟ "") = false) as ->.
  { apply andb_false_iff. rewrite !bool_decide_eq_false. destruct (decide (owner = "")); naive_solver. }
  destruct (decide (TrimSpace member = "")) as [->|Hm].
  - simpl. destruct (access_mode a ≟ "workspace"); [naive_solver|]. destruct (access_mode a ≟ "members"); [|naive_solver].
    split; [|naive_solver]. intros Hx. apply existsb_exists in Hx as (x & _ & Hx). done.
  - rewrite (bool_decide_false _ Hm). simpl. destruct (TrimSpace member ≟ owner) eqn:E.
    { apply bool_decide_eq_true in E. naive_solver. }
    apply bool_decide_eq_false in E. destruct (access_mode a ≟ "workspace") eqn:Ew.
    { apply bool_decide_eq_true in Ew. naive_solver. }
    apply bool_decide_eq_false in Ew. destruct (access_mode a ≟ "members") eqn:Em.
    + apply bool_decide_eq_true in Em. rewrite existsb_exists. setoid_rewrite bool_decide_eq_true.
      rewrite list_elem_of_fmap. setoid_rewrite <- list_elem_of_In. naive_solver.
    + apply bool_decide_eq_false in Em. naive_solver.
Qed.

(** ** Squads *)

Lemma SquadMember_Validate_Ok m :
  SquadMember_Validate m = Ok tt →
  (sm_AgentID m = "" ∨ sm_SquadID m = "") ∧ (blank (sm_AgentID m) = false ∨ blank (sm_SquadID m) = false) ∧
  (sm_Leader m = true → blank (sm_AgentID m) = false ∧ sm_SquadID m = "").
Proof.
  unfold SquadMember_Validate. rewrite !rbind_reject_Ok, rbind_any_Ok, rbind_reject_Ok, reject_tt.
  rewrite !orb_false_iff, !andb_false_iff, !negb_false_iff, !bool_decide_eq_true, bool_decide_eq_false.
  intros (((_ & Hb) & _) & Hx & _ & _ & _ & Hl). split_and!; try done.
  intros Hld. rewrite Hld in Hl. destruct Hl as [?|Hl]; [done|].
  destruct Hx as [?|Hx]; [done|]. destruct Hb as [?|Hb]; [done|]. rewrite Hx in Hb. done.
Qed.

Definition leaders (ms : list SquadMember) : list SquadMember := filter (λ m, sm_Leader m = true) ms.

Lemma check_members_Ok ms i seen n st :
  fold_each_from i check_member (seen, n) ms = Ok st →
  Forall (λ m, SquadMember_Validate m = Ok tt) ms ∧ NoDup (sm_ID <$> ms) ∧ (∀ m, m ∈ ms → sm_ID m ∉ seen) ∧
  st.2 = n + length (leaders ms).
Proof.
  revert i seen n. induction ms as [|m ms IH]; intros i seen n; simpl.
  - intros [= <-]. split_and!; [constructor|constructor|set_solver|simpl; lia].
  - rewrite rbind_Ok. intros (s & Hm & Hr). revert Hm. unfold check_member.
    rewrite rbind_any_Ok, rbind_reject_Ok, contains_false. intros [[[] Hv] [Hs [= <-]]]. apply wrap_err_Ok in Hv.
    apply IH in Hr as (HP & Hnd & Hout & Hc). split_and!.
    + by constructor.
    + constructor; [|done]. intros Hin. apply list_elem_of_fmap in Hin as (y & Hy & Hin).
      apply (Hout y Hin). rewrite <- Hy. left.
    + intros y Hy. apply elem_of_cons in Hy as [->|Hy]; [done|]. intros Hx. apply (Hout y Hy). by right.
    + rewrite Hc. unfold leaders. rewrite filter_cons. destruct (sm_Leader m); simpl; lia.
Qed.

(** An accepted published squad has exactly one leader, who is an agent;
    its members have distinct ids and each refers to an agent or to a squad,
    not to both; and its graph is well formed. *)
Theorem published_squad_led s :
  SquadDefinition_Validate s = Ok tt → sd_Status s = SquadPublished →
  (∃ m, leaders (sd_Members s) = [m] ∧ blank (sm_AgentID m) = false ∧ sm_SquadID m = "") ∧
  NoDup (sm_ID <$> sd_Members s) ∧
  (∀ m, m ∈ sd_Members s → (sm_AgentID m = "" ∨ sm_SquadID m = "") ∧
     (blank (sm_AgentID m) = false ∨ blank (sm_SquadID m) = false)) ∧
  GraphWF (sd_Graph s).
Proof.
  unfold SquadDefinition_Validate. rewrite rbind_reject_Ok. intros [_ Hv] Hst.
  apply rbind_Ok in Hv as (st & Hm & Hv). apply rbind_reject_Ok in Hv as [Hl Hv].
  apply rbind_any_Ok in Hv as [_ Hg]. apply ValidateGraph_decides in Hg.
  apply check_members_Ok in Hm as (HP & Hnd & _ & Hc). rewrite Forall_forall in HP.
  rewrite (bool_decide_true _ Hst) in Hl. simpl in Hl. apply negb_false_iff, Nat.eqb_eq in Hl. rewrite Hl in Hc.
  split_and!; try done.
  - destruct (leaders (sd_Members s)) as [|m [|m' l]] eqn:E; simpl in Hc; try lia. exists m.
    assert (m ∈ leaders (sd_Members s)) as Hin by (rewrite E; left). unfold leaders in Hin.
    apply list_elem_of_filter in Hin as [Hld Hin]. apply HP, SquadMember_Validate_Ok in Hin. naive_solver.
  - intros m Hin. apply HP, SquadMember_Validate_Ok in Hin. naive_solver.
Qed.

(** ** Frozen plans *)

Context `{!Sha256, !JsonMarshal RequirementExecutionPlan}.

(** Freezing.  A frozen plan can be projected, carries the canonical hash of
    its own contents, and cannot be frozen again. *)
Theorem Freeze_projectable p q :
  Freeze p = (q, Ok tt) →
  (∃ proj, NewProjection q = Ok proj) ∧ canonicalPlanHash q = Ok (pl_PlanHash q) ∧
  Freeze q = (q, Err (Errorf "execution plan is immutable" [])).
Proof.
  intros Hf. revert Hf. unfold Freeze. cbv zeta. destruct (rbind _ _) as [h|e] eqn:Hc; [|done]. intros [= <-].
  rewrite !rbind_reject_Ok, rbind_any_Ok, !rbind_reject_Ok in Hc.
  destruct Hc as (Hid & Hpar & [[] Hg] & Hd & Hs & Hh).
  split_and!.
  - unfold NewProjection. simpl. destruct (decide (pl_ID p = "")) as [E|E].
    { rewrite E in Hid. discriminate Hid. }
    rewrite (bool_decide_false _ E). simpl.
    assert (h ≠ "") as Hne.
    { revert Hh. unfold canonicalPlanHash, marshal_sha256. destruct (json_marshal _) as [b|]; [|done].
      intros [= <-]. apply sha256_nonempty. }
    rewrite (bool_decide_false _ Hne). simpl. rewrite Hg. simpl. eauto.
  - exact Hh.
  - simpl. rewrite Hid, Hpar. cbn [reject rbind]. rewrite Hg. cbn [reject rbind]. rewrite Hd. done.
Qed.
End agents.

(** ** Concrete definitions *)

Definition no_tools : ToolPolicy := {| tp_Allowed := ["read"]; tp_Denied := ["shell"]; tp_Network := false; tp_SecretScopes := [] |}.
Definition sample_agent (skills : list DisabledRuntimeSkill) : AgentDefinition := {|
  ad_ID := "agent"; ad_WorkspaceID := "ws"; ad_Revision := 1; ad_Name := "builder"; ad_OwnerID := "owner";
  ad_Description := ""; ad_AvatarURL := ""; ad_Role := ""; ad_Instructions := ""; ad_ConversationStarters := [];
  ad_AccessPolicy := {| ap_Mode := "members"; ap_MemberIDs := ["alice"] |}; ad_SkillIDs := ["s1"];
  ad_DisabledRuntimeSkills := skills; ad_MCPServerIDs := []; ad_Capabilities := []; ad_ToolPolicy := no_tools;
  ad_MemoryPolicy := {| mp_ReadScopes := []; mp_WriteScopes := []; mp_RequireEvidence := false |};
  ad_ExecutorBinding := {| eb_ProviderID := "provider"; eb_RuntimeID := ""; eb_Model := ""; eb_ThinkingLevel := "high";
    eb_ServiceTier := ""; eb_CustomArgs := []; eb_RuntimeConfig := {["log_level" := "info"]};
    eb_Environment := [{| er_Name := "API_KEY"; er_SecretRef := "env:HOST_KEY" |}]; eb_ProviderVersion := "";
    eb_BinaryDigest := ""; eb_RequiredCaps := []; eb_ConfigVersion := "" |};
  ad_ConcurrencyBudget := zero_Budget; ad_InputSchema := {| sr_ID := "in"; sr_Version := 1 |};
  ad_OutputSchema := {| sr_ID := "out"; sr_Version := 1 |};
  ad_Graph := {| g_ID := ""; g_Version := 0; g_EntryNodeIDs := []; g_ExitNodeIDs := []; g_Nodes := []; g_Edges := [];
                 g_ValidationDigest := "" |};
  ad_Status := AgentActive; ad_CreatedBy := ""; ad_CreatedAt := 0; ad_UpdatedAt := 0 |}.

Lemma agent_definition_safe_witness :
  AgentDefinition_Validate (sample_agent []) = Ok tt ∧
  (∃ v, TrimSpace "env:HOST_KEY" = "env:" +:+ v ∧ environmentNamePattern v = true).
Proof.
  assert (AgentDefinition_Validate (sample_agent []) = Ok tt) as Hv by (vm_compute; reflexivity).
  split; [exact Hv|]. destruct (agent_definition_safe (sample_agent []) Hv) as (_ & _ & He & _).
  apply (He {| er_Name := "API_KEY"; er_SecretRef := "env:HOST_KEY" |}). left.
Defined.

Definition sample_member (id agent : string) (leader : bool) : SquadMember := {|
  sm_ID := id; sm_AgentID := agent; sm_SquadID := ""; sm_Role := "role"; sm_Leader := leader;
  sm_InputSchema := {| sr_ID := ""; sr_Version := 0 |}; sm_OutputSchema := {| sr_ID := ""; sr_Version := 0 |};
  sm_CapabilityConstraints := []; sm_MaxAttempts := 1; sm_Budget := zero_Budget; sm_Optional := false |}.
Definition sample_squad : SquadDefinition := {|
  sd_ID := "squad"; sd_WorkspaceID := "ws"; sd_Name := "squad"; sd_Description := ""; sd_Revision := 1;
  sd_PublishedVersion := 1; sd_Members := [sample_member "m1" "agent" true; sample_member "m2" "other" false];
  sd_Graph := sample_graph;
  sd_Policy := {| sp_MaxNestingDepth := 1; sp_Budget := zero_Budget; sp_ToolPolicy := no_tools;
                  sp_HumanExitRequired := false |};
  sd_Status := SquadPublished |}.

Lemma published_squad_led_witness :
  SquadDefinition_Validate sample_squad = Ok tt ∧
  ∃ m, leaders (sd_Members sample_squad) = [m] ∧ blank (sm_AgentID m) = false ∧ sm_SquadID m = "".
Proof.
  split; [vm_compute; reflexivity|]. apply (published_squad_led sample_squad); [vm_compute|]; reflexivity.
Defined.

Definition draft_plan : RequirementExecutionPlan := pl_with "" PlanDraft 0 1 sample_plan.
Lemma Freeze_projectable_witness :
  Freeze draft_plan = (pl_with "h:json" PlanReady 1 1 draft_plan, Ok tt) ∧
  ∃ proj, NewProjection (pl_with "h:json" PlanReady 1 1 draft_plan) = Ok proj.
Proof.
  split; [vm_compute; reflexivity|].
  apply (Freeze_projectable draft_plan (pl_with "h:json" PlanReady 1 1 draft_plan)). vm_compute. reflexivity.
Defined.

(** The replaced text is a raw string of two backslashes, so a key with single
    backslashes is neither normalised nor recognised as leaving its root. *)
Definition windows_key : string := ".." +:+ String "\" "secret".
Example backslash_key_accepted :
  skill_key_invalid "../secret" = true ∧ skill_key_invalid windows_key = false ∧
  AgentDefinition_Validate (sample_agent [{| drs_RuntimeID := "r"; drs_Provider := "p"; drs_Root := "provider";
    drs_Key := windows_key; drs_Name := ""; drs_Plugin := "" |}]) = Ok tt.
Proof. vm_compute. done. Qed.
