(* ===== verification/StartSpec.v ===== *)
(** * StartSpec: what [StartAttempt] does

    The guards as conditions, and the one shape of state a fresh start leaves:
    the lifecycle step its repair plan takes is always allowed, so the error
    branches behind [setRepairState] cannot be reached. *)
From stdpp Require Import base strings gmap list pretty.
From Stdlib Require Import ZArith Lia.
From S2P Require Import Prelude GoLib GoValue GoJson ContextModel OrchModel GraphSearch Validate ProjectionData Projection Repair RepairSpec Transition.

Lemma setRepairState_allowed r s :
  validRepairLifecycle s = true → validRepairLifecycle (rp_State r) = true →
  repairLifecycleTransitionAllowed (rp_State r) s = true → is_Some (setRepairState r s).
Proof.
  intros Hs Hr Ha. unfold setRepairState. rewrite Hs. simpl.
  rewrite bool_decide_eq_false_2 by (intros E; by rewrite E in Hr). rewrite Ha. simpl.
  destruct (_ ≠? _); eauto.
Qed.

Section start.
Context `{!MapRange, !Sha256, !JsonMarshal (string * StructuredResult * option FailureReason)}.
Context `{!EnvelopeContract}.

Lemma repairPlanForDispatch_Some p g nodeID id st :
  repairPlanForDispatch p g nodeID = Some (id, st) →
  ∃ r, pp_RepairPlans p !! id = Some r ∧ repairDispatch p g nodeID r = Some st.
Proof. apply repairDispatchFirst_Some. Qed.

(** Dispatch does not look at the idempotency keys. *)
Lemma repairPlanForDispatch_put_key k h p g nodeID :
  repairPlanForDispatch (put_key k h p) g nodeID = repairPlanForDispatch p g nodeID.
Proof.
  unfold repairPlanForDispatch. simpl. generalize (sort_strings (range_keys (pp_RepairPlans p))).
  intros ids. induction ids as [|id ids IH]; [done|]. cbn [repairDispatchFirst]. rewrite IH. done.
Qed.

Lemma new_attempt_put_key k h p plan def nodeID attemptID no lease n env input now :
  new_attempt (put_key k h p) plan def nodeID attemptID no lease n env input now
  = new_attempt p plan def nodeID attemptID no lease n env input now.
Proof. unfold new_attempt, repairLifecycleAtStart. by rewrite repairPlanForDispatch_put_key. Qed.

Lemma new_attempt_fields p plan def nodeID attemptID no lease n env input now :
  let a := new_attempt p plan def nodeID attemptID no lease n env input now in
  na_ID a = attemptID ∧ na_PlanID a = pl_ID plan ∧ na_NodeID a = nodeID ∧ na_AttemptNo a = no ∧
  na_Lease a = lease ∧ na_InputManifest a = env ∧ na_Status a = AttemptRunning ∧
  na_StartedAt a = Some now ∧ na_FinishedAt a = None ∧ na_IdempotencyKey a = ti_IdempotencyKey input ∧
  na_ParentAttemptID a = np_CurrentAttempt n ∧ na_FailureReason a = None.
Proof.
  unfold new_attempt. cbv zeta.
  destruct (repairPlanForDispatch _ _ _) as [[id st]|]; [destruct (id ≠? "")|]; done.
Qed.

(** The repair plan of a new attempt is one that dispatches it. *)
Lemma new_attempt_repair p plan def nodeID attemptID no lease n env input now :
  let a := new_attempt p plan def nodeID attemptID no lease n env input now in
  na_RepairPlanID a ≠ "" →
  ∃ r st, pp_RepairPlans p !! na_RepairPlanID a = Some r ∧
    repairDispatch p (pl_GraphSnapshot plan) nodeID r = Some st ∧
    na_RepairState a = if wn_Kind def ≟ NodeRepair then RepairPlanned else st.
Proof.
  unfold new_attempt. cbv zeta.
  destruct (repairPlanForDispatch _ _ _) as [[id st]|] eqn:E; [|by intros []].
  destruct (id ≠? "") eqn:E2; [|by intros []]. simpl. intros _.
  apply repairPlanForDispatch_Some in E as (r & Hr & Hd). eauto.
Qed.

(** Storing a plan whose state was set and whose bookkeeping fields changed. *)
Lemma repair_step_set m id r r0 s r' reason :
  m !! id = Some r → rp_State r0 = rp_State r → rp_StateHistory r0 = rp_StateHistory r → rp_ID r0 = rp_ID r →
  setRepairState r0 s = Some r' → repair_step m (<[id := rp_set_LastReasonCode reason r']> m).
Proof.
  intros Hr Hs Hh Hid Hset. eapply repair_step_update; [done|]. intros [Hid' Hwf].
  apply (history_wf_ext r r0) in Hwf; [|done..].
  destruct (setRepairState_history _ _ _ Hwf Hset) as (Hwf' & _ & Hp & Hid'').
  split; [split; [simpl; congruence|by apply (history_wf_ext r')]|]. rewrite <- Hh. done.
Qed.

(** The repair bookkeeping of a start succeeds and only touches the repair plans. *)
Lemma startRepair_Ok p plan def nodeID attemptID no lease n env input now key q :
  let a := new_attempt p plan def nodeID attemptID no lease n env input now in
  pp_RepairPlans q = pp_RepairPlans p →
  ∃ m, startRepair q nodeID a key = (pp_set_RepairPlans m q, Ok tt) ∧ repair_step (pp_RepairPlans p) m.
Proof.
  cbv zeta. set (a := new_attempt _ _ _ _ _ _ _ _ _ _ _). intros Hq.
  assert (∀ x : PlanProjection, pp_set_RepairPlans (pp_RepairPlans x) x = x) as Hid by by intros [].
  unfold startRepair. case_bool_decide as E.
  { exists (pp_RepairPlans p). rewrite <- Hq, Hid. auto with repair. }
  destruct (new_attempt_repair p plan def nodeID attemptID no lease n env input now E)
    as (r & st & Hr & Hd & Hst). fold a in Hr, Hst.
  rewrite Hq, Hr. apply repairDispatch_state in Hd. cbv zeta. rewrite Hst.
  assert (∀ r' reason, repair_step (pp_RepairPlans p) (<[na_RepairPlanID a := rp_set_LastReasonCode reason r']> (pp_RepairPlans p)) →
    ∃ m, (put_repair (na_RepairPlanID a) (rp_set_LastReasonCode reason r') q, Ok tt) = (pp_set_RepairPlans m q, Ok tt)
         ∧ repair_step (pp_RepairPlans p) m) as Hstore.
  { intros r' reason Hs. eexists. split; [|exact Hs]. unfold put_repair. by rewrite Hq. }
  case_bool_decide.
  { apply Hstore. eapply repair_step_update; [done|]. intros [? ?]. split; [|done].
    split; [done|]. by apply (history_wf_ext r). }
  destruct Hd as [(-> & Hs & _)|(-> & Hs & _)].
  - destruct (setRepairState_allowed (rp_set_TargetAttemptID (na_ID a) r) RepairDispatched) as [r' Hr'];
      [done|simpl; by destruct Hs as [->| ->]..|]. simpl. rewrite Hr'. apply Hstore.
    eapply repair_step_set; [exact Hr|..|exact Hr']; done.
  - destruct (setRepairState_allowed
      (rp_set_VerificationAttempts (<[nodeID := na_ID a]> (rp_VerificationAttempts r)) r) RepairVerifying) as [r' Hr'];
      [done|simpl; by destruct Hs as [->| ->]..|]. rewrite Hr'. apply Hstore.
    eapply repair_step_set; [exact Hr|..|exact Hr']; done.
Qed.

(** The state after a fresh start. *)
Definition started (p : PlanProjection) (nodeID : string) (n : NodeProjection) (no : Z)
    (env : ContextEnvelope) (input : TransitionInput) (a : NodeAttempt) (m : gmap string RepairPlan)
    : PlanProjection :=
  {| pp_PlanID := pp_PlanID p; pp_Revision := pp_Revision p; pp_Status := PlanRunning;
     pp_TerminalOutcome := pp_TerminalOutcome p;
     pp_Nodes := <[nodeID := {| np_NodeID := np_NodeID n; np_Status := AttemptRunning;
                                np_CurrentAttempt := na_ID a; np_AttemptNo := no; np_RetryAt := None;
                                np_RetryCount := np_RetryCount n; np_ReadyEdgeIDs := [] |}]> (pp_Nodes p);
     pp_Attempts := <[na_ID a := a]> (pp_Attempts p); pp_Traversals := pp_Traversals p;
     pp_Decisions := pp_Decisions p; pp_RepairPlans := m;
     pp_Idempotency := if ti_IdempotencyKey input ≠? "" then <[ti_IdempotencyKey input := ti_PayloadHash input]> (pp_Idempotency p)
                       else pp_Idempotency p;
     pp_TokenUsage := add64 (pp_TokenUsage p) (token_estimate env); pp_ToolCalls := pp_ToolCalls p;
     pp_CostCents := pp_CostCents p |}.

Lemma startCommit_started p plan def nodeID attemptID no lease n env input now :
  ∃ a m, a = new_attempt p plan def nodeID attemptID no lease n env input now ∧
    repair_step (pp_RepairPlans p) m ∧
    startCommit p plan def nodeID attemptID no lease n env input now = (started p nodeID n no env input a m, Ok a).
Proof.
  unfold startCommit. cbv zeta.
  set (p1 := if ti_IdempotencyKey input ≠? "" then _ else p).
  assert (new_attempt p1 plan def nodeID attemptID no lease n env input now
          = new_attempt p plan def nodeID attemptID no lease n env input now) as ->.
  { unfold p1. destruct (ti_IdempotencyKey input ≠? ""); [apply new_attempt_put_key|done]. }
  set (a := new_attempt _ _ _ _ _ _ _ _ _ _ _).
  destruct (startRepair_Ok p plan def nodeID attemptID no lease n env input now (ti_IdempotencyKey input)
              (put_attempt (na_ID a) a p1)) as (m & Hm & Hstep).
  { unfold p1. by destruct (_ ≠? _). }
  fold a in Hm. exists a, m. split; [done|]. split; [done|]. rewrite Hm.
  unfold started, p1. by destruct (_ ≠? _).
Qed.

(** [StartAttempt] returns an error or an earlier attempt without changing the
    projection, or starts exactly one attempt. *)
Lemma StartAttempt_cases wall p plan nodeID attemptID no lease env input :
  let now := orNow wall (ti_Now input) in
  let def := node_definition (pl_GraphSnapshot plan) nodeID in
  match startGuards p plan nodeID attemptID no lease env input now with
  | Err e => StartAttempt wall p plan nodeID attemptID no lease env input = (p, Err e)
  | Ok (StartReplay a) => StartAttempt wall p plan nodeID attemptID no lease env input = (p, Ok a)
  | Ok (StartFresh n no') =>
      ∃ a m, a = new_attempt p plan def nodeID attemptID no' lease n env (ti_set_Now now input) now ∧
        repair_step (pp_RepairPlans p) m ∧
        StartAttempt wall p plan nodeID attemptID no lease env input
          = (started p nodeID n no' env input a m, Ok a)
  end.
Proof.
  cbv zeta. unfold StartAttempt. destruct (startGuards _ _ _ _ _ _ _ _ _) as [[a|n no']|e]; [done| |done].
  destruct (startCommit_started p plan (node_definition (pl_GraphSnapshot plan) nodeID) nodeID attemptID no'
    lease n env (ti_set_Now (orNow wall (ti_Now input)) input) (orNow wall (ti_Now input))) as (a & m & Ha & Hm & E).
  exists a, m. split; [exact Ha|]. split; [exact Hm|exact E].
Qed.

(** ** The guards *)

Lemma reject_bool_Ok {B} (b : bool) e (k : result B) x : (reject b e ;;; k) = Ok x → b = false ∧ k = Ok x.
Proof. apply rbind_reject_Ok. Qed.

Record fresh_start (p : PlanProjection) (plan : RequirementExecutionPlan) (nodeID attemptID : string)
    (no : Z) (lease : Lease) (env : ContextEnvelope) (input : TransitionInput) (now : Time)
    (n : NodeProjection) (no' : Z) : Prop := {
  fs_plan : pp_PlanID p = pl_ID plan;
  fs_deadline : pl_Deadline plan = 0%Z ∨ (now < pl_Deadline plan)%Z;
  fs_tokens : (bg_Tokens (pol_Budget (pl_PolicySnapshot plan)) ≤ 0 ∨
               add64 (pp_TokenUsage p) (token_estimate env) ≤ bg_Tokens (pol_Budget (pl_PolicySnapshot plan)))%Z;
  fs_concurrent : (bg_Concurrent (pol_Budget (pl_PolicySnapshot plan)) ≤ 0 ∨
                   count running (range_values (pp_Attempts p)) < bg_Concurrent (pol_Budget (pl_PolicySnapshot plan)))%Z;
  fs_envelope : envelope_validate env = Ok tt;
  fs_revision : ti_PlanRevision input = 0%Z ∨ ti_PlanRevision input = pp_Revision p;
  fs_node : pp_Nodes p !! nodeID = Some n;
  fs_backoff : ∀ t, np_RetryAt n = Some t → (t ≤ now)%Z;
  fs_ready : np_Status n = AttemptReady ∨ np_Status n = AttemptFailed ∨ np_Status n = AttemptTimedOut;
  fs_idle : ∀ a, np_CurrentAttempt n ≠ "" → pp_Attempts p !! np_CurrentAttempt n = Some a → na_Status a ≠ AttemptRunning;
  fs_named : attemptID ≠ "";
  fs_new : pp_Attempts p !! attemptID = None;
  fs_number : ∀ id a, pp_Attempts p !! id = Some a →
                ¬ (na_PlanID a = pl_ID plan ∧ na_NodeID a = nodeID ∧ na_AttemptNo a = no');
  fs_token : ti_LeaseToken input = 0%Z ∨ ls_FencingToken lease = ti_LeaseToken input;
  fs_lease : ls_ExpiresAt lease = 0%Z ∨ (now < ls_ExpiresAt lease)%Z
}.

Lemma existsb_range_false {A} (f : A → bool) (m : gmap string A) :
  existsb f (range_values m) = false → ∀ k v, m !! k = Some v → f v = false.
Proof.
  intros Hf k v Hv. apply not_true_iff_false. intros Ht. apply not_true_iff_false in Hf. apply Hf.
  apply existsb_exists. exists v. split; [|done]. apply list_elem_of_In, elem_of_range_values. eauto.
Qed.

Lemma startGuards_fresh p plan nodeID attemptID no lease env input now n no' :
  startGuards p plan nodeID attemptID no lease env input now = Ok (StartFresh n no') →
  fresh_start p plan nodeID attemptID no lease env input now n no'.
Proof.
  unfold startGuards. rewrite rbind_any_Ok. intros [[[] Hp] Hg].
  apply rbind_Ok in Hg as (replay & _ & Hg). destruct replay as [old|]; [done|].
  destruct (pp_Nodes p !! nodeID) as [n0|] eqn:Hn; [|done].
  apply rbind_any_Ok in Hg as [[[] Hnode] Hg]. cbv zeta in Hg.
  set (no0 := if (no <? 1)%Z then _ else _) in Hg.
  apply rbind_Ok in Hg as (replay & Ha & Hg). destruct replay; [done|]. injection Hg as -> ->.
  unfold startPlanGuards in Hp. cbv zeta in Hp.
  rewrite !rbind_reject_Ok, rbind_any_Ok, reject_Ok in Hp.
  destruct Hp as (P1 & P2 & P3 & P4 & P5 & P6 & [[] P7] & P8). apply wrap_err_Ok in P7.
  unfold startNodeGuards in Hnode. cbv zeta in Hnode.
  rewrite !rbind_reject_Ok, reject_Ok in Hnode. destruct Hnode as (N1 & N2 & N3 & N4 & N5).
  unfold startAttemptGuards in Ha. rewrite !rbind_reject_Ok in Ha. destruct Ha as (A1 & A2 & Ha).
  destruct (pp_Attempts p !! attemptID) as [old|] eqn:Hnew.
  { by destruct ((na_IdempotencyKey old ≟ _) && _). }
  rewrite !rbind_reject_Ok in Ha. destruct Ha as (A3 & A4 & A5 & _).
  unfold IsZero, Before in *. split; try done.
  - by apply negb_false_iff, bool_decide_eq_true in P1.
  - lia.
  - lia.
  - lia.
  - apply andb_false_iff in P8. rewrite !negb_false_iff, !bool_decide_eq_true in P8. tauto.
  - intros t Ht. rewrite Ht in N1. lia.
  - apply andb_false_iff in N5. rewrite andb_false_iff in N5.
    rewrite !negb_false_iff, !bool_decide_eq_true in N5. tauto.
  - intros a Hne Ha Hr. rewrite Ha in A1. rewrite bool_decide_eq_false_2 in A1 by done. simpl in A1.
    unfold running in A1. by apply bool_decide_eq_false in A1.
  - intros ->. by vm_compute in A2.
  - intros id a Hid (? & ? & ?). pose proof (existsb_range_false _ _ A3 _ _ Hid) as Hf.
    simpl in Hf. by rewrite !bool_decide_eq_true_2 in Hf.
  - apply andb_false_iff in A4. rewrite !negb_false_iff, !bool_decide_eq_true in A4. tauto.
  - lia.
Qed.
End start.
