(* ===== verification/RouteSpec.v ===== *)
(** * RouteSpec: what [route] does

    The frame of routing (which parts of the projection it may touch), the
    traversal bound, the choice among matching edges and the retry backoff. *)
From stdpp Require Import base strings gmap list pretty.
From Stdlib Require Import ZArith Lia.
From S2P Require Import Prelude GoLib GoValue GoJson ContextModel OrchModel GraphSearch Validate ProjectionData Projection Repair RepairSpec Transition.

(** The part of a projection routing may write. *)
Definition routed (N : node_states) (T : gmap string Z) (D : list FeedbackDecision) (s : PlanStatus)
    (o : string) (p : PlanProjection) : PlanProjection :=
  pp_set_Nodes N (pp_set_Traversals T (pp_set_Decisions D (pp_set_Status s (pp_set_TerminalOutcome o p)))).

Lemma routed_id p :
  routed (pp_Nodes p) (pp_Traversals p) (pp_Decisions p) (pp_Status p) (pp_TerminalOutcome p) p = p.
Proof. by destruct p. Qed.

(** How often the decision log says an edge was followed. *)
Definition times_decided (id : string) (D : list FeedbackDecision) : Z :=
  Z.of_nat (length (filter (λ d, fd_EdgeID d = id) D)).

(** The counter of a bounded edge stays within its limit, and (unless the limit is
    the largest [int64], where the counter wraps) counts every logged decision. *)
Definition trav_ok (g : WorkflowGraph) (T : gmap string Z) (D : list FeedbackDecision) : Prop :=
  ∀ e, e ∈ g_Edges g → (0 < we_MaxTraversals e)%Z →
    (default 0 (T !! we_ID e) ≤ we_MaxTraversals e)%Z ∧
    ((we_MaxTraversals e < two63 - 1)%Z → (times_decided (we_ID e) D ≤ default 0 (T !! we_ID e))%Z).

Lemma times_decided_nonneg id D : (0 ≤ times_decided id D)%Z.
Proof. unfold times_decided. lia. Qed.
Lemma times_decided_snoc id D d :
  times_decided id (D ++ [d]) = (times_decided id D + if decide (fd_EdgeID d = id) then 1 else 0)%Z.
Proof. unfold times_decided. rewrite filter_app, length_app, filter_cons, filter_nil. case_decide; simpl; lia. Qed.

(** The nodes an edge may open exist. *)
Definition targets_exist (g : WorkflowGraph) (N : node_states) : Prop :=
  (∀ e, e ∈ g_Edges g → is_Some (N !! we_To e)) ∧ (∀ n, n ∈ g_Nodes g → is_Some (N !! wn_ID n)).

Lemma targets_exist_reopen g N N' : nodes_reopened N N' → targets_exist g N → targets_exist g N'.
Proof.
  intros Hr [He Hn]. split.
  - intros e Hin. apply (nodes_reopened_is_Some N N'); auto.
  - intros n Hin. apply (nodes_reopened_is_Some N N'); auto.
Qed.

Lemma targets_exist_insert g N id n : targets_exist g N → targets_exist g (<[id := n]> N).
Proof.
  intros [He Hn]. split; intros x Hx; [destruct (He x Hx) as [y Hy]|destruct (Hn x Hx) as [y Hy]];
    rewrite lookup_insert_is_Some'; eauto.
Qed.

(** ** Steps of routing *)

Lemma traverse_frame e p :
  ∃ T, (traverse e p).1 = pp_set_Traversals T p.
Proof. unfold traverse. destruct (_ <? _)%Z; simpl; [by eexists|]. exists (pp_Traversals p). by destruct p. Qed.

Lemma traverse_ok g e p p' D :
  NoDup (we_ID <$> g_Edges g) → e ∈ g_Edges g → trav_ok g (pp_Traversals p) D → traverse e p = (p', Ok tt) →
  trav_ok g (pp_Traversals p') D ∧ ∀ d, fd_EdgeID d = we_ID e → trav_ok g (pp_Traversals p') (D ++ [d]).
Proof.
  intros Hnd He Ht. unfold traverse. destruct (0 <? we_MaxTraversals e)%Z eqn:Hb.
  - intros [= <- Hrej]. apply reject_Ok, Z.ltb_ge in Hrej. apply Z.ltb_lt in Hb. simpl.
    assert (∀ k, (0 ≤ k ≤ 1)%Z → ∀ e', e' ∈ g_Edges g → (0 < we_MaxTraversals e')%Z →
      let n := default 0%Z (<[we_ID e := add64 (traversals_at p (we_ID e)) 1]> (pp_Traversals p) !! we_ID e') in
      (n ≤ we_MaxTraversals e')%Z ∧ ((we_MaxTraversals e' < two63 - 1)%Z →
         (times_decided (we_ID e') D + (if decide (we_ID e = we_ID e') then k else 0) ≤ n)%Z)) as Hall.
    { intros k Hk e' He' Hpos. destruct (Ht e' He' Hpos) as [H1 H2]. cbn zeta. case_decide as Heq.
      - assert (e' = e) as -> by by eapply NoDup_fmap_inj. rewrite lookup_insert_eq. simpl. split; [done|].
        intros Hlt. specialize (H2 Hlt). pose proof (times_decided_nonneg (we_ID e) D). unfold traversals_at, add64 in *.
        rewrite wrap64_id by (unfold int64_range, two63 in *; lia). lia.
      - rewrite lookup_insert_ne by done. split; [done|]. intros Hlt. specialize (H2 Hlt). lia. }
    split.
    + intros e' He' Hpos. destruct (Hall 0%Z ltac:(lia) e' He' Hpos) as [H1 H2]. split; [done|]. intros Hlt. specialize (H2 Hlt).
      case_decide; lia.
    + intros d Hd e' He' Hpos. destruct (Hall 1%Z ltac:(lia) e' He' Hpos) as [H1 H2]. split; [done|]. intros Hlt.
      rewrite times_decided_snoc, Hd. by apply H2.
  - intros [= <-]. split; [done|]. intros d Hd e' He' Hpos. destruct (Ht e' He' Hpos) as [H1 H2]. split; [done|].
    intros Hlt. rewrite times_decided_snoc, Hd. case_decide as Heq; [|specialize (H2 Hlt); lia].
    assert (e' = e) as -> by (by eapply NoDup_fmap_inj). apply Z.ltb_ge in Hb. lia.
Qed.

Lemma open_target_frame clear e p :
  is_Some (pp_Nodes p !! we_To e) →
  ∃ N, open_target clear e p = pp_set_Nodes N p ∧ nodes_reopened (pp_Nodes p) N.
Proof.
  intros [n Hn]. unfold open_target, node_at. rewrite Hn. simpl. case_bool_decide as Hs.
  { exists (pp_Nodes p). by destruct p. }
  eexists. split; [done|]. eapply nodes_reopened_insert; [done|]. right.
  destruct clear; simpl; auto 10.
Qed.

Lemma record_decision_frame plan a e reason ik key p :
  ∃ D, record_decision plan a e reason ik key p = pp_set_Decisions (pp_Decisions p ++ D) p
    ∧ (D = [] ∨ ∃ d, D = [d] ∧ fd_EdgeID d = we_ID e).
Proof.
  unfold record_decision. case_bool_decide; [|eexists; split; [done|right; by eexists]].
  exists []. rewrite app_nil_r. split; [by destruct p|by left].
Qed.

(** The frame of routing, with the traversal bound on success and the terminal
    outcome on failure. *)
Definition route_frame (g : WorkflowGraph) (p : PlanProjection) (out : PlanProjection * result unit) : Prop :=
  ∃ N T D s o, out.1 = routed N T (pp_Decisions p ++ D) s o p ∧ nodes_reopened (pp_Nodes p) N ∧
    (trav_ok g (pp_Traversals p) (pp_Decisions p) → out.2 = Ok tt → trav_ok g T (pp_Decisions p ++ D)) ∧
    (out.2 = Ok tt ∨ o = pp_TerminalOutcome p).

Lemma route_frame_status g p s o : route_frame g p (pp_set_TerminalOutcome o (pp_set_Status s p), Ok tt).
Proof.
  exists (pp_Nodes p), (pp_Traversals p), [], s, o. rewrite app_nil_r.
  split; [by destruct p|]. split; [done|]. split; [done|by left].
Qed.

Lemma route_frame_id g p r : route_frame g p (p, r).
Proof.
  exists (pp_Nodes p), (pp_Traversals p), [], (pp_Status p), (pp_TerminalOutcome p).
  rewrite app_nil_r, routed_id. split_and!; [done..|by right].
Qed.

(** Following one edge, whatever the decision that is recorded. *)
Lemma follow_one_frame plan a e clear reason ik key p q :
  let g := pl_GraphSnapshot plan in
  NoDup (we_ID <$> g_Edges g) → e ∈ g_Edges g → targets_exist g (pp_Nodes p) →
  traverse e p = (q, Ok tt) →
  ∃ N T D, record_decision plan a e reason ik key (open_target clear e q)
    = routed N T (pp_Decisions p ++ D) (pp_Status p) (pp_TerminalOutcome p) p
    ∧ nodes_reopened (pp_Nodes p) N ∧ (trav_ok g (pp_Traversals p) (pp_Decisions p) → trav_ok g T (pp_Decisions p ++ D)).
Proof.
  cbv zeta. intros Hnd He [Htgt _] Htr. destruct (traverse_frame e p) as [T HT]. rewrite Htr in HT. simpl in HT.
  destruct (open_target_frame clear e q) as (N & HN & Hre); [rewrite HT; by apply Htgt|].
  destruct (record_decision_frame plan a e reason ik key (open_target clear e q)) as (D & HD & Hd).
  exists N, T, D. rewrite HD, HN, HT. split_and!.
  - by destruct p.
  - by rewrite HT in Hre.
  - intros Ht. destruct (traverse_ok _ _ _ _ _ Hnd He Ht Htr) as [Hok Hok']. rewrite HT in Hok, Hok'. simpl in Hok, Hok'.
    destruct Hd as [->|(d & -> & Hd)]; [by rewrite app_nil_r|by apply Hok'].
Qed.

Lemma traverse_error_frame g e p q err : traverse e p = (q, Err err) → route_frame g p (q, Err err).
Proof.
  intros Htr. destruct (traverse_frame e p) as [T HT]. rewrite Htr in HT. simpl in HT. subst q.
  exists (pp_Nodes p), T, [], (pp_Status p), (pp_TerminalOutcome p). rewrite app_nil_r.
  split; [by destruct p|]. split; [done|]. split; [done|by right].
Qed.

Lemma follow_frame plan a input e p :
  let g := pl_GraphSnapshot plan in
  NoDup (we_ID <$> g_Edges g) → e ∈ g_Edges g → targets_exist g (pp_Nodes p) →
  route_frame g p (follow plan a input e p).
Proof.
  cbv zeta. intros Hnd He Htgt. unfold follow. destruct (traverse e p) as [q [[]|err]] eqn:Htr.
  - destruct (follow_one_frame plan a e false "predicate matched" (ti_IdempotencyKey input)
      (ti_IdempotencyKey input) p q Hnd He Htgt Htr) as (N & T & D & HE & Hre & Ht).
    eexists N, T, D, _, _. split; [exact HE|]. auto.
  - by eapply traverse_error_frame.
Qed.

Lemma fanOut_frame plan a input es p :
  let g := pl_GraphSnapshot plan in
  NoDup (we_ID <$> g_Edges g) → es ⊆ g_Edges g → targets_exist g (pp_Nodes p) →
  route_frame g p (fanOut plan a input es p).
Proof.
  cbv zeta. intros Hnd. revert p. induction es as [|e es IH]; intros p Hsub Htgt; [apply route_frame_id|].
  cbn [fanOut]. destruct (traverse e p) as [q [[]|err]] eqn:Htr; [|by eapply traverse_error_frame].
  assert (e ∈ g_Edges (pl_GraphSnapshot plan)) as He by (apply Hsub; left).
  destruct (follow_one_frame plan a e true "fan-out predicate matched" (ti_IdempotencyKey input)
      (ti_IdempotencyKey input +:+ ":" +:+ we_ID e) p q Hnd He Htgt Htr) as (N & T & D & HE & Hre & Ht).
  cbv zeta. rewrite HE. set (q' := routed _ _ _ _ _ _).
  destruct (IH q') as (N' & T' & D' & s & o & HE' & Hre' & Ht' & Ho').
  { intros x Hx. apply Hsub. by right. }
  { by eapply targets_exist_reopen. }
  exists N', T', (D ++ D'), s, o. split_and!.
  - rewrite HE', app_assoc. by destruct p.
  - etrans; [exact Hre|exact Hre'].
  - intros H1 H2. rewrite app_assoc. apply Ht'; [|done]. by apply Ht.
  - exact Ho'.
Qed.

Lemma matchEdges_sub a input es l : matchEdges a input es = Ok l → l ⊆ es.
Proof.
  revert l. induction es as [|e es IH]; intros l; cbn [matchEdges]; [by intros [= <-]|].
  destruct (negb _); [intros Hl x Hx; right; by apply (IH _ Hl)|].
  rewrite rbind_Ok. intros ([] & _ & Hl).
  - apply rbind_any_Ok in Hl as [_ Hl]. apply rbind_Ok in Hl as (rest & Hrest & [= <-]).
    apply IH in Hrest. intros x Hx. apply elem_of_cons in Hx as [->|Hx]; [left|right; auto].
  - apply IH in Hl. intros x Hx. right. auto.
Qed.

Lemma best_edge_elem e rest : best_edge e rest ∈ e :: rest.
Proof.
  unfold best_edge. revert e. induction rest as [|x rest IH]; intros e; [left|]. cbn [foldl].
  specialize (IH (if (we_Priority e <? we_Priority x)%Z then x else e)).
  apply elem_of_cons in IH as [->|IH]; [|by right; right].
  destruct (_ <? _)%Z; [right; left|left].
Qed.

Lemma best_edge_max e rest x : x ∈ e :: rest → (we_Priority x ≤ we_Priority (best_edge e rest))%Z.
Proof.
  unfold best_edge. revert e x. induction rest as [|y rest IH]; intros e x Hx; cbn [foldl].
  { apply list_elem_of_singleton in Hx as ->. lia. }
  assert (we_Priority e ≤ we_Priority (if (we_Priority e <? we_Priority y)%Z then y else e) ∧
          we_Priority y ≤ we_Priority (if (we_Priority e <? we_Priority y)%Z then y else e))%Z as [H1 H2]
    by (destruct (_ <? _)%Z eqn:E; lia).
  assert (we_Priority (if (we_Priority e <? we_Priority y)%Z then y else e) ≤
          we_Priority (foldl (λ best x, if (we_Priority best <? we_Priority x)%Z then x else best)
             (if (we_Priority e <? we_Priority y)%Z then y else e) rest))%Z as H3 by (apply IH; left).
  apply elem_of_cons in Hx as [->|Hx]; [lia|]. apply elem_of_cons in Hx as [->|Hx]; [lia|].
  apply IH. by right.
Qed.

Lemma selectEdge_Ok e rest best : selectEdge e rest = Ok best → best ∈ e :: rest.
Proof. unfold selectEdge. rewrite rbind_reject_Ok. intros [_ [= <-]]. apply best_edge_elem. Qed.

(** What following edges cannot change: any part of the projection other than
    nodes, traversals and decisions. *)
Section keeps.
Context {B : Type} (f : PlanProjection → B).
Context (f_nodes : ∀ N p, f (pp_set_Nodes N p) = f p).
Context (f_traversals : ∀ T p, f (pp_set_Traversals T p) = f p).
Context (f_decisions : ∀ D p, f (pp_set_Decisions D p) = f p).

Lemma traverse_keeps e p : f (traverse e p).1 = f p.
Proof. destruct (traverse_frame e p) as [T ->]. apply f_traversals. Qed.

Lemma open_keeps plan a e reason ik key clear p :
  f (record_decision plan a e reason ik key (open_target clear e p)) = f p.
Proof.
  destruct (record_decision_frame plan a e reason ik key (open_target clear e p)) as (D & -> & _).
  rewrite f_decisions. unfold open_target. case_bool_decide; [done|apply f_nodes].
Qed.

Lemma follow_keeps plan a input e p : f (follow plan a input e p).1 = f p.
Proof.
  unfold follow. pose proof (traverse_keeps e p) as Ht.
  destruct (traverse e p) as [q [[]|]]; cbn [fst] in *; [|done]. by rewrite open_keeps.
Qed.

Lemma fanOut_keeps plan a input es p : f (fanOut plan a input es p).1 = f p.
Proof.
  revert p. induction es as [|e es IH]; intros p; [done|]. cbn [fanOut].
  pose proof (traverse_keeps e p) as Ht.
  destruct (traverse e p) as [q [[]|]]; cbn [fst] in *; [|done]. by rewrite IH, open_keeps.
Qed.
End keeps.

Section route.
Context `{!MapRange}.

Lemma route_keeps {B} (f : PlanProjection → B) wall p plan a input :
  (∀ N p, f (pp_set_Nodes N p) = f p) → (∀ T p, f (pp_set_Traversals T p) = f p) →
  (∀ D p, f (pp_set_Decisions D p) = f p) → (∀ s p, f (pp_set_Status s p) = f p) →
  (∀ o p, f (pp_set_TerminalOutcome o p) = f p) →
  f (route wall p plan a input).1 = f p.
Proof.
  intros F1 F2 F3 F4 F5. unfold route. cbv zeta. destruct (deadline_failure a).
  { simpl. unfold terminate. by rewrite F5, F4. }
  destruct (matchEdges _ _ _) as [[|e [|e2 rest]]|]; [..|done].
  - unfold routeUnmatched, terminate, schedule_retry, put_node. cbv zeta.
    repeat case_match; simpl; rewrite ?F5, ?F4, ?F1; done.
  - by apply follow_keeps.
  - destruct (forallb _ _); [by apply fanOut_keeps|].
    destruct (selectEdge _ _); [by apply follow_keeps|done].
Qed.

(** Routing ends a plan successfully only from a passed exit node with evidence,
    when every repair plan is verified. *)
Lemma route_succeeded wall p plan a input :
  pp_TerminalOutcome p ≠ "succeeded" →
  pp_TerminalOutcome (route wall p plan a input).1 = "succeeded" →
  na_Status a = AttemptPassed ∧ na_NodeID a ∈ g_ExitNodeIDs (pl_GraphSnapshot plan) ∧
  res_EvidenceIDs (na_Result a) ≠ [] ∧ allRepairsVerified p = true ∧
  pp_Status (route wall p plan a input).1 = PlanTerminal.
Proof.
  intros Hne. unfold route. cbv zeta. destruct (deadline_failure a); [done|].
  destruct (matchEdges _ _ _) as [[|e [|e2 rest]]|]; [..|done].
  - unfold routeUnmatched. cbv zeta. destruct (may_retry _ _ _); [done|].
    destruct (contains _ _) eqn:Hex; [|destruct (stopped (na_Status a)) eqn:Est; [|done]].
    + apply contains_spec in Hex. case_bool_decide; [done|].
      destruct (allRepairsVerified p) eqn:Hv; simpl.
      * unfold terminate. simpl. intros Ho. destruct (na_Status a); try discriminate. done.
      * destruct (_ && _); done.
    + unfold terminate, stopped in *. simpl. intros Ho. destruct (na_Status a); try discriminate.
  - by rewrite (follow_keeps pp_TerminalOutcome).
  - destruct (forallb _ _); [by rewrite (fanOut_keeps pp_TerminalOutcome)|].
    destruct (selectEdge _ _); [by rewrite (follow_keeps pp_TerminalOutcome)|done].
Qed.

Lemma routeUnmatched_frame plan a input now p :
  (∃ n, pp_Nodes p !! na_NodeID a = Some n ∧ np_Status n ≠ AttemptRunning) →
  route_frame (pl_GraphSnapshot plan) p (routeUnmatched plan a input now p).
Proof.
  intros (n & Hn & Hs). unfold routeUnmatched. cbv zeta.
  destruct (may_retry _ _ _).
  - unfold schedule_retry. unfold node_at. rewrite Hn. simpl.
    eexists _, (pp_Traversals p), [], PlanRunning, (pp_TerminalOutcome p). rewrite app_nil_r.
    split; [unfold routed, put_node; by destruct p|]. split; [|split; [done|by left]].
    eapply nodes_reopened_insert; [done|]. right. simpl. auto 10.
  - destruct (contains _ _); [case_bool_decide; [apply route_frame_id|]|].
    + destruct (negb _); [destruct (_ && _)|]; apply route_frame_status.
    + destruct (stopped _); [apply route_frame_status|apply route_frame_id].
Qed.

Lemma route_framed wall p plan a input :
  let g := pl_GraphSnapshot plan in
  NoDup (we_ID <$> g_Edges g) → targets_exist g (pp_Nodes p) →
  (∃ n, pp_Nodes p !! na_NodeID a = Some n ∧ np_Status n ≠ AttemptRunning) →
  route_frame g p (route wall p plan a input).
Proof.
  cbv zeta. intros Hnd Htgt Hn. unfold route. cbv zeta.
  destruct (deadline_failure a); [apply route_frame_status|].
  destruct (matchEdges _ _ _) as [l|e] eqn:Hm; [|apply route_frame_id].
  pose proof (matchEdges_sub _ _ _ _ Hm) as Hsub. destruct l as [|e [|e2 rest]].
  - by apply routeUnmatched_frame.
  - apply follow_frame; try done. apply Hsub. left.
  - destruct (forallb _ _); [by apply fanOut_frame|].
    destruct (selectEdge _ _) as [best|err] eqn:Hb; [|apply route_frame_id].
    apply follow_frame; try done. by apply Hsub, selectEdge_Ok.
Qed.
End route.
