(* ===== verification/FinishSpec.v ===== *)
(** * FinishSpec: what [FinishAttempt] does

    The phases of [FinishAttempt] with their frames: fencing, repair
    bookkeeping, the recorded completion, routing and the rollback. *)
From stdpp Require Import base strings gmap list pretty.
From Stdlib Require Import ZArith Lia.
From S2P Require Import Prelude GoLib GoValue GoJson ContextModel OrchModel GraphSearch Validate ProjectionData Projection Repair RepairSpec Transition RouteSpec.

(** The part of a projection repair bookkeeping may write. *)
Definition repaired (N : node_states) (M : gmap string RepairPlan) (p : PlanProjection) : PlanProjection :=
  pp_set_Nodes N (pp_set_RepairPlans M p).

Lemma repaired_id p : repaired (pp_Nodes p) (pp_RepairPlans p) p = p.
Proof. by destruct p. Qed.

Definition repair_frame (p q : PlanProjection) : Prop :=
  ∃ N M, q = repaired N M p ∧ nodes_reopened (pp_Nodes p) N.

Lemma repair_frame_id p : repair_frame p p.
Proof. exists (pp_Nodes p), (pp_RepairPlans p). by rewrite repaired_id. Qed.

Lemma repair_frame_put p id r : repair_frame p (put_repair id r p).
Proof. exists (pp_Nodes p), (<[id := r]> (pp_RepairPlans p)). split; [by destruct p|done]. Qed.

Lemma repair_frame_trans p q r : repair_frame p q → repair_frame q r → repair_frame p r.
Proof.
  intros (N & M & -> & H1) (N' & M' & -> & H2). exists N', M'. split; [by destruct p|].
  etrans; [exact H1|exact H2].
Qed.

Create HintDb frame.
#[export] Hint Resolve repair_frame_id repair_frame_put : frame.

Lemma resetRepairNode_frame r p id : repair_frame p (resetRepairNode r p id).
Proof.
  unfold resetRepairNode. destruct (pp_Nodes p !! id) as [n|] eqn:Hn; [|simpl; auto with frame].
  case_bool_decide as Hs; [simpl; auto with frame|].
  unfold put_node. set (n' := if _ ≟ _ then _ else _).
  exists (<[id := n']> (pp_Nodes p)), (pp_RepairPlans p). split; [by destruct p|]. unfold n'.
  eapply nodes_reopened_insert; [done|]. right. case_bool_decide; simpl; auto 10.
Qed.

Lemma resetRepairRound_frame p r : repair_frame p (resetRepairRound p r).
Proof.
  unfold resetRepairRound. generalize (rp_TargetNodeID r :: rp_VerificationNodeIDs r). intros l.
  revert p. induction l as [|x l IH]; intros p; [simpl; auto with frame|]. cbn [foldl].
  eapply repair_frame_trans; [apply resetRepairNode_frame|apply IH].
Qed.

Lemma failRepairRound_frame reopen p r : repair_frame p (failRepairRound reopen p r).1.
Proof.
  unfold failRepairRound. destruct (setRepairState r RepairFailed) as [r1|]; [|simpl; auto with frame].
  destruct (_ <? _)%Z; cbv zeta.
  - destruct (setRepairState _ RepairPlanned); simpl.
    + eapply repair_frame_trans; [apply resetRepairRound_frame|simpl; auto with frame].
    + apply resetRepairRound_frame.
  - destruct (setRepairState _ _); simpl; auto with frame.
Qed.

Lemma advance_frame p a : repair_frame p (advanceRepairAttemptState p a).1.
Proof.
  unfold advanceRepairAttemptState. case_bool_decide; [simpl; auto with frame|].
  destruct (pp_RepairPlans p !! _) as [r|]; [|simpl; auto with frame].
  destruct (isRetryableRepairProviderFailure a); [simpl; auto with frame|].
  destruct (na_RepairState a); try (simpl; auto with frame; fail).
  - case_bool_decide; [|destruct (stopped _); [apply failRepairRound_frame|simpl; auto with frame]].
    unfold patchRepair. destruct (setRepairState _ _); simpl; auto with frame.
  - case_bool_decide; [|destruct (stopped _); [apply failRepairRound_frame|simpl; auto with frame]].
    unfold verifyRepair. cbv zeta.
    case_bool_decide; destruct (setRepairState _ _); simpl; auto with frame;
      (eapply repair_frame_trans; apply repair_frame_put).
Qed.

(** The attempt after repair bookkeeping differs in its repair fields only. *)
Definition same_but_repair (a a' : NodeAttempt) : Prop :=
  ∃ id st, a' = na_set_RepairPlanID id (na_set_RepairState st a).

Lemma same_but_repair_refl a : same_but_repair a a.
Proof. exists (na_RepairPlanID a), (na_RepairState a). by destruct a. Qed.
Lemma same_but_repair_state st a : same_but_repair a (na_set_RepairState st a).
Proof. exists (na_RepairPlanID a), st. by destruct a. Qed.
#[export] Hint Resolve same_but_repair_refl same_but_repair_state : frame.

Section finish.
Context `{!MapRange, !Sha256, !JsonMarshal (string * StructuredResult * option FailureReason)}.

Lemma storeRepair_frame p a r :
  repair_frame p (storeRepair p a r).1 ∧ ∃ id, (storeRepair p a r).2 = na_set_RepairPlanID id a.
Proof.
  unfold storeRepair. destruct (List.find _ _) as [[id ex]|]; cbv zeta.
  - case_bool_decide; simpl; (split; [|by eexists]).
    + eapply repair_frame_trans; apply repair_frame_put.
    + auto with frame.
  - case_bool_decide; simpl; [split; [auto with frame|by eexists]|].
    split; [simpl; auto with frame|]. exists (na_RepairPlanID a). by destruct a.
Qed.

Lemma storeRepair_wf p plan a r :
  createRepairPlan p plan a = Ok r →
  map_Forall repair_wf (pp_RepairPlans p) →
  map_Forall repair_wf (pp_RepairPlans (storeRepair p a r).1).
Proof.
  intros Hc Hm. apply createRepairPlan_Ok in Hc as (Hs & Hh & _).
  pose proof (fresh_history_wf r Hs Hh) as Hwf.
  unfold storeRepair. destruct (List.find _ _) as [[id ex]|] eqn:Hf; cbv zeta.
  - apply find_some in Hf as [Hin _]. apply list_elem_of_In, elem_of_range in Hin.
    destruct (Hm _ _ Hin) as [Hid Hex].
    assert (repair_wf id (reuse_repair a id ex r)) as Hre.
    { split; [done|]. destruct Hex as (l & Hl & Hr). exists l. simpl. by rewrite Hl. }
    case_bool_decide; simpl; repeat (apply map_Forall_insert_2; [done|]); done.
  - case_bool_decide; simpl; [|done]. apply map_Forall_insert_2; [|done]. by split.
Qed.

Lemma finishRepair_frame p plan def a :
  let out := finishRepair p plan def a in
  repair_frame p out.1 ∧ (∀ a', out.2 = Ok a' → same_but_repair a a') ∧
  (map_Forall repair_wf (pp_RepairPlans p) → map_Forall repair_wf (pp_RepairPlans out.1)).
Proof.
  cbv zeta. unfold finishRepair. case_bool_decide as Hk.
  - case_bool_decide.
    + cbv zeta. destruct (_ || _); [simpl; split_and!; auto with frame; done|].
      destruct (createRepairPlan _ _ _) as [r|e] eqn:Hc; [|simpl; split_and!; auto with frame; done].
      pose proof (storeRepair_frame p (na_set_RepairState RepairPlanned a) r) as [Hf [id Hid]].
      pose proof (storeRepair_wf _ _ _ _ Hc) as Hw.
      destruct (storeRepair _ _ _) as [q a1]. simpl in *. split_and!; [done| |done].
      intros a' [= <-]. by exists id, RepairPlanned.
    + destruct (_ || _); simpl; (split_and!; [auto with frame| |done]); intros a' [= <-]; auto with frame.
  - case_bool_decide; [simpl; split_and!; auto with frame; intros a' [= <-]; auto with frame|].
    pose proof (advance_frame p a) as Hf. pose proof (advanceRepairAttemptState_step p a) as Hs.
    destruct (advanceRepairAttemptState p a) as [q [st|e]]; simpl in *; (split_and!; [done| |]);
      try (intros Hm; by apply (Hs Hm Hm)); [|done].
    intros a' [= <-]. auto with frame.
Qed.

(** ** Fencing *)

Record fenced (p : PlanProjection) (attemptID : string) (input : TransitionInput) (now : Time)
    (a : NodeAttempt) (n : NodeProjection) : Prop := {
  fc_attempt : pp_Attempts p !! attemptID = Some a;
  fc_node : pp_Nodes p !! na_NodeID a = Some n;
  fc_current : np_CurrentAttempt n = attemptID;
  fc_revision : ti_PlanRevision input = 0%Z ∨ ti_PlanRevision input = pp_Revision p;
  fc_live : na_Status a = AttemptRunning ∨ na_Status a = AttemptWaiting;
  fc_token : ti_LeaseToken input = 0%Z ∨ ls_FencingToken (na_Lease a) = ti_LeaseToken input;
  fc_lease : na_Status a = AttemptRunning → ls_ExpiresAt (na_Lease a) ≠ 0%Z →
             (now < ls_ExpiresAt (na_Lease a))%Z ∨ ti_Event input = "timeout" }.

Lemma finishFence_Ok p attemptID input now a n :
  finishFence p attemptID input now = Ok (a, n, false) → fenced p attemptID input now a n.
Proof.
  unfold finishFence. destruct (pp_Attempts p !! attemptID) as [a0|] eqn:Ha; [|done].
  rewrite rbind_reject_Ok. intros [Hrev Hf].
  destruct (pp_Nodes p !! na_NodeID a0) as [n0|] eqn:Hn; [|done].
  cbv zeta in Hf. rewrite !rbind_reject_Ok in Hf. destruct Hf as (Hcur & _ & Hf).
  destruct (negb (bool_decide _) && _ && _); [done|].
  rewrite !rbind_reject_Ok in Hf. destruct Hf as (Hlive & Htok & Hlease & [= <- <-]).
  apply negb_false_iff, bool_decide_eq_true in Hcur. unfold running, IsZero, Before in *.
  split; try done.
  - apply andb_false_iff in Hrev. rewrite !negb_false_iff, !bool_decide_eq_true in Hrev. tauto.
  - apply andb_false_iff in Hlive. rewrite !negb_false_iff, !bool_decide_eq_true in Hlive. tauto.
  - apply andb_false_iff in Htok. rewrite !negb_false_iff, !bool_decide_eq_true in Htok. tauto.
  - intros Hr Hz. rewrite Hr in Hlease. rewrite (bool_decide_eq_true_2 (_ = AttemptRunning)) in Hlease by done.
    rewrite bool_decide_eq_false_2 in Hlease by done. simpl in Hlease.
    destruct (decide (ti_Event input = "timeout")) as [->|Hne]; [by right|left].
    rewrite (bool_decide_eq_false_2 (ti_Event input = _)) in Hlease by done. simpl in Hlease. lia.
Qed.

(** A replay returns the recorded attempt, which is no longer running. *)
Lemma finishFence_replay p attemptID input now a n :
  finishFence p attemptID input now = Ok (a, n, true) →
  pp_Attempts p !! attemptID = Some a ∧ na_Status a ≠ AttemptRunning.
Proof.
  unfold finishFence. destruct (pp_Attempts p !! attemptID) as [a0|] eqn:Ha; [|done].
  rewrite rbind_reject_Ok. intros [_ Hf].
  destruct (pp_Nodes p !! na_NodeID a0) as [n0|] eqn:Hn; [|done].
  cbv zeta in Hf. rewrite !rbind_reject_Ok in Hf. destruct Hf as (_ & _ & Hf).
  destruct (negb (bool_decide _) && _ && _) eqn:E.
  - injection Hf as <- <-. split; [done|]. apply andb_true_iff in E as [E _].
    apply andb_true_iff in E as [_ E]. unfold running in E. by apply negb_true_iff, bool_decide_eq_false in E.
  - rewrite !rbind_reject_Ok in Hf. by destruct Hf as (_ & _ & _ & ?).
Qed.

(** Every accepted event ends the attempt or parks it. *)
Lemma finishStatus_Ok event s :
  finishStatus event = Ok s →
  s = AttemptPassed ∨ s = AttemptFailed ∨ s = AttemptTimedOut ∨ s = AttemptCancelled ∨ s = AttemptWaiting.
Proof. unfold finishStatus. repeat case_match; intros [= <-]; auto 10. Qed.

Lemma stamp_fields now a :
  na_ID (stamp now a) = na_ID a ∧ na_PlanID (stamp now a) = na_PlanID a ∧
  na_NodeID (stamp now a) = na_NodeID a ∧ na_Status (stamp now a) = na_Status a ∧
  na_Lease (stamp now a) = na_Lease a ∧ na_FailureReason (stamp now a) = na_FailureReason a.
Proof. unfold stamp. cbv zeta. by destruct (na_RepairState a ≟ RepairNone). Qed.

Lemma stamp_times now a s :
  na_Status a = s →
  s = AttemptPassed ∨ s = AttemptFailed ∨ s = AttemptTimedOut ∨ s = AttemptCancelled ∨ s = AttemptWaiting →
  times_ok (stamp now a).
Proof.
  intros <- Hs. unfold times_ok. destruct (stamp_fields now a) as (_ & _ & _ & -> & _).
  unfold stamp. cbv zeta. destruct (na_RepairState a ≟ RepairNone); simpl;
    destruct Hs as [->|[->|[->|[->| ->]]]]; done.
Qed.

(** ** The commit *)

Lemma shortCircuit_frame plan a p :
  targets_exist (pl_GraphSnapshot plan) (pp_Nodes p) →
  ∃ N, shortCircuit plan a p = pp_set_Nodes N p ∧ nodes_reopened (pp_Nodes p) N.
Proof.
  intros [_ Hn]. unfold shortCircuit. cbv zeta.
  assert (∀ q : PlanProjection, q = pp_set_Nodes (pp_Nodes q) q) as Hid by by intros [].
  destruct (negb _); [exists (pp_Nodes p); split; [apply Hid|done]|].
  generalize (g_Edges (pl_GraphSnapshot plan)). intros es.
  induction (g_Nodes (pl_GraphSnapshot plan)) as [|c ns IH] in p, Hn |- *.
  { exists (pp_Nodes p). split; [apply Hid|done]. }
  cbn [foldl]. match goal with |- context [foldl _ ?x ns] =>
    assert (∃ N, x = pp_set_Nodes N p ∧ nodes_reopened (pp_Nodes p) N) as (N & Hq & Hre); [|rewrite Hq] end.
  { destruct (wn_JoinFailurePolicy c ≠? _); [exists (pp_Nodes p); split; [apply Hid|done]|].
    destruct (existsb _ _); [|exists (pp_Nodes p); split; [apply Hid|done]]. cbv zeta.
    destruct (Hn c) as [n Hc]; [left|]. unfold node_at. rewrite Hc. simpl.
    destruct (_ && _) eqn:E; [|exists (pp_Nodes p); split; [apply Hid|done]].
    eexists. split; [done|]. eapply nodes_reopened_insert; [done|]. right. simpl.
    apply andb_true_iff in E as [E _]. apply negb_true_iff, bool_decide_eq_false in E. auto 10. }
  destruct (IH (pp_set_Nodes N p)) as (N' & HN' & Hre').
  { intros n Hin. apply (nodes_reopened_is_Some (pp_Nodes p) N); [done|]. apply Hn. by right. }
  exists N'. rewrite HN'. split; [by destruct p|]. etrans; [exact Hre|exact Hre'].
Qed.

Lemma finishRecord_fields p n a attemptID input :
  let q := finishRecord p n a attemptID input in
  pp_Nodes q = <[na_NodeID a := np_set_Status (na_Status a) n]> (pp_Nodes p) ∧
  pp_Attempts q = <[attemptID := a]> (pp_Attempts p) ∧
  pp_PlanID q = pp_PlanID p ∧ pp_Revision q = pp_Revision p ∧ pp_Status q = pp_Status p ∧
  pp_TerminalOutcome q = pp_TerminalOutcome p ∧ pp_Traversals q = pp_Traversals p ∧
  pp_Decisions q = pp_Decisions p ∧ pp_RepairPlans q = pp_RepairPlans p.
Proof. unfold finishRecord. cbv zeta. destruct (resultUsage _) as [[t c] k]. by destruct (_ ≠? _). Qed.

Lemma copy_map_id {A} (m : gmap string A) : copy_map m = m.
Proof. unfold copy_map. apply list_to_map_to_list. Qed.

Lemma cloneProjection_id p : cloneProjection p = p.
Proof.
  destruct p. unfold cloneProjection. simpl. rewrite !copy_map_id. f_equal.
  transitivity (id <$> pp_RepairPlans); [|apply map_fmap_id].
  apply map_fmap_ext. intros i r _. rewrite !copy_map_id. by destruct r.
Qed.

Lemma finishRollback_fields before p attemptID nodeID input old :
  pp_Attempts before !! attemptID = Some old →
  let q := finishRollback before p attemptID nodeID input in
  pp_Nodes q = <[nodeID := node_at before nodeID]> (pp_Nodes p) ∧
  pp_Attempts q = <[attemptID := old]> (pp_Attempts p) ∧
  pp_PlanID q = pp_PlanID p ∧ pp_Revision q = pp_Revision p ∧ pp_Status q = pp_Status before ∧
  pp_TerminalOutcome q = pp_TerminalOutcome p ∧ pp_Traversals q = pp_Traversals before ∧
  pp_Decisions q = take (length (pp_Decisions before)) (pp_Decisions p) ∧
  pp_RepairPlans q = pp_RepairPlans before.
Proof.
  intros Hold. unfold finishRollback. cbv zeta. rewrite Hold, cloneProjection_id.
  case_bool_decide; [done|]. by destruct (pp_Idempotency before !! _).
Qed.
Lemma finishRecord_keys p n a attemptID input :
  let key := TrimSpace (ti_IdempotencyKey input) in
  pp_Idempotency (finishRecord p n a attemptID input) =
    if key ≠? "" then <[key := finish_hash input]> (pp_Idempotency p) else pp_Idempotency p.
Proof. unfold finishRecord. cbv zeta. destruct (resultUsage _) as [[t c] k]. by destruct (_ ≠? _). Qed.

(** The rollback takes the completion's key back. *)
Lemma finishRollback_keys before p attemptID nodeID input h :
  let key := TrimSpace (ti_IdempotencyKey input) in
  pp_Idempotency p = (if key ≠? "" then <[key := h]> (pp_Idempotency before) else pp_Idempotency before) →
  pp_Idempotency (finishRollback before p attemptID nodeID input) = pp_Idempotency before.
Proof.
  cbv zeta. intros Hp. unfold finishRollback. cbv zeta.
  assert (∀ q : PlanProjection, pp_Idempotency (match pp_Attempts before !! attemptID with
    | Some old => put_attempt attemptID old q | None => q end) = pp_Idempotency q) as Hq
    by (intros q; by destruct (pp_Attempts before !! attemptID)).
  case_bool_decide as Hk; simpl in *; [by rewrite Hq|].
  destruct (pp_Idempotency before !! _) as [h'|] eqn:E; simpl; rewrite Hq, Hp.
  - by rewrite insert_insert_eq, insert_id.
  - by rewrite delete_insert_eq, delete_id.
Qed.

Lemma shortCircuit_outcome plan a p : pp_TerminalOutcome (shortCircuit plan a p) = pp_TerminalOutcome p.
Proof.
  unfold shortCircuit. cbv zeta. destruct (negb _); [done|].
  generalize (g_Nodes (pl_GraphSnapshot plan)). intros ns. induction ns as [|c ns IH] in p |- *; [done|].
  cbn [foldl]. rewrite IH. destruct (_ ≠? _); [done|]. destruct (existsb _ _); [|done].
  cbv zeta. by destruct (_ && _).
Qed.
End finish.
