(* ===== verification/ReducerInv.v ===== *)
(** * ReducerInv: the reducer's invariant

    [reducer_inv] collects what every projection of a plan satisfies: nodes and
    attempts agree ([live_inv]), bounded edges are within their limits, repair
    histories are runs of the lifecycle.  [StartAttempt] and [FinishAttempt]
    keep it, on every outcome. *)
From stdpp Require Import base strings gmap list pretty.
From Stdlib Require Import ZArith Lia.
From S2P Require Import Prelude GoLib GoValue GoJson ContextModel OrchModel GraphSearch Validate PredicateSpec GraphSpec ProjectionData Projection Repair RepairSpec Transition StartSpec RouteSpec FinishSpec.

Record reducer_inv (plan : RequirementExecutionPlan) (p : PlanProjection) : Prop := {
  ri_plan : pp_PlanID p = pl_ID plan;
  ri_live : live_inv (pl_ID plan) (pp_Nodes p) (pp_Attempts p);
  ri_targets : targets_exist (pl_GraphSnapshot plan) (pp_Nodes p);
  ri_traversals : trav_ok (pl_GraphSnapshot plan) (pp_Traversals p) (pp_Decisions p);
  ri_repairs : map_Forall repair_wf (pp_RepairPlans p) }.

(** The node checks of [PlanProjection.Validate] accept what the invariant describes. *)
Lemma reducer_nodes_validate `{!MapRange} plan p :
  reducer_inv plan p →
  check_each (λ _ '(id, n), validateNodeProjection p id n) (range (pp_Nodes p)) = Ok tt.
Proof.
  intros Hr. apply check_each_Ok. intros k [id n] Hk.
  apply list_elem_of_lookup_2, elem_of_range in Hk.
  destruct (li_nodes _ _ _ (ri_live _ _ Hr) _ _ Hk) as [Hid Hst Hcur Hrun Hwait].
  unfold validateNodeProjection. rewrite bool_decide_eq_true_2 by done. simpl.
  destruct (np_Status n) eqn:Es; try (exfalso; by eapply Hst); simpl;
    (case_bool_decide as E; [done|]);
    (destruct (Hcur E) as (a & Ha & Hnode)); rewrite Ha, bool_decide_eq_true_2 by done; simpl; try done.
  - destruct (Hrun eq_refl) as (b & Hb & _ & Hs). rewrite Ha in Hb. injection Hb as <-.
    rewrite Hs. done.
  - destruct (Hwait eq_refl) as (b & Hb & _ & Hs). rewrite Ha in Hb. injection Hb as <-.
    rewrite Hs. done.
Qed.

(** An attempt that has ended. *)
Definition ended (a : NodeAttempt) : Prop :=
  na_Status a ≠ AttemptRunning ∧ na_Status a ≠ AttemptWaiting.

(** What a completion makes of an attempt. *)
Record finished_as (a a' : NodeAttempt) : Prop := {
  fa_id : na_ID a' = na_ID a;
  fa_plan : na_PlanID a' = na_PlanID a;
  fa_node : na_NodeID a' = na_NodeID a;
  fa_lease : na_Lease a' = na_Lease a;
  fa_times : times_ok a';
  fa_stopped : na_Status a' ≠ AttemptRunning;
  fa_key : na_IdempotencyKey a' = na_IdempotencyKey a }.

Section reducer.
Context `{!MapRange, !Sha256, !JsonMarshal (string * StructuredResult * option FailureReason)}.
Context `{!EnvelopeContract}.
Context (plan : RequirementExecutionPlan).
Context (edge_ids : NoDup (we_ID <$> g_Edges (pl_GraphSnapshot plan))).

Lemma StartAttempt_inv wall p nodeID attemptID no lease env input :
  reducer_inv plan p → reducer_inv plan (StartAttempt wall p plan nodeID attemptID no lease env input).1.
Proof.
  intros [Hpid Hlive Htgt Htrav Hrep].
  pose proof (StartAttempt_cases wall p plan nodeID attemptID no lease env input) as Hc. cbv zeta in Hc.
  destruct (startGuards _ _ _ _ _ _ _ _ _) as [[old|n no']|e] eqn:Hg; [by rewrite Hc| |by rewrite Hc].
  destruct Hc as (a & m & -> & Hm & ->). apply startGuards_fresh in Hg.
  destruct (new_attempt_fields p plan (node_definition (pl_GraphSnapshot plan) nodeID) nodeID attemptID no'
    lease n env (ti_set_Now (orNow wall (ti_Now input)) input) (orNow wall (ti_Now input)))
    as (Ai & Ap & An & _ & _ & _ & As & At & _).
  set (a := new_attempt _ _ _ _ _ _ _ _ _ _ _) in *.
  pose proof (fs_node _ _ _ _ _ _ _ _ _ _ _ Hg) as Hn. split; simpl.
  - done.
  - apply live_inv_set; simpl; try done.
    + rewrite Ai. by apply (fs_named _ _ _ _ _ _ _ _ _ _ _ Hg).
    + unfold times_ok. by rewrite As, At.
    + apply (nw_id _ _ _ (li_nodes _ _ _ Hlive _ _ Hn)).
    + intros b. rewrite Ai, (fs_new _ _ _ _ _ _ _ _ _ _ _ Hg). done.
    + intros j b Hb Hbn Hr.
      destruct (aw_running _ _ _ _ (li_attempts _ _ _ Hlive _ _ Hb) Hr) as (n' & Hn' & Hs & _).
      rewrite Hbn, Hn in Hn'. injection Hn' as <-.
      destruct (fs_ready _ _ _ _ _ _ _ _ _ _ _ Hg) as [?|[?|?]]; congruence.
  - by apply targets_exist_insert.
  - done.
  - by apply Hm.
Qed.

(** The four ways a completion ends. *)
Lemma FinishAttempt_cases wall p attemptID input :
  let out := FinishAttempt wall p plan attemptID input in
  let now := orNow wall (ti_Now input) in
  (∃ e, out = (p, Err e)) ∨
  (∃ a n, out = (p, Ok a) ∧ finishFence p attemptID input now = Ok (a, n, true)) ∨
  (∃ a n q, fenced p attemptID input now a n ∧ repair_frame p q ∧
     (map_Forall repair_wf (pp_RepairPlans p) → map_Forall repair_wf (pp_RepairPlans q)) ∧
     ((∃ e, out = (q, Err e)) ∨
      (∃ a', finished_as a a' ∧ out = finishCommit wall q plan n a' attemptID (ti_set_Now now input)))).
Proof.
  cbv zeta. unfold FinishAttempt. cbv zeta.
  destruct (finishFence _ _ _ _) as [[[a n] [|]]|e] eqn:Hf; [| |by left; eexists].
  { right; left. by exists a, n. }
  apply finishFence_Ok in Hf.
  destruct (rbind _ _) as [s|e] eqn:Hg; [|by left; eexists]. right; right.
  apply rbind_any_Ok in Hg as [_ Hg]. apply rbind_any_Ok in Hg as [_ Hs]. apply finishStatus_Ok in Hs.
  set (a1 := na_set_Status _ _).
  pose proof (finishRepair_frame p plan (node_definition (pl_GraphSnapshot plan) (na_NodeID a)) a1)
    as (Hfr & Ha' & Hw). cbv zeta in Ha', Hw, Hfr.
  destruct (finishRepair _ _ _ _) as [q [a2|e]]; exists a, n, q; (split_and!; [done..|]).
  - right. exists (stamp (orNow wall (ti_Now input)) a2). split; [|done].
    destruct (Ha' a2 eq_refl) as (id & st & ->).
    destruct (stamp_fields (orNow wall (ti_Now input)) (na_set_RepairPlanID id (na_set_RepairState st a1)))
      as (S1 & S2 & S3 & S4 & S5 & _). split; try done.
    + eapply stamp_times; [reflexivity|]. exact Hs.
    + rewrite S4. simpl. by destruct Hs as [->|[->|[->|[->| ->]]]].
    + unfold stamp. cbv zeta. by destruct (_ ≟ RepairNone).
  - left. by eexists.
Qed.

(** A completion in a projection [p] whose nodes were at most reopened ([q]). *)
Lemma finishCommit_inv wall p q n a a' attemptID input now :
  reducer_inv plan p → fenced p attemptID input now a n → finished_as a a' →
  repair_frame p q → map_Forall repair_wf (pp_RepairPlans q) →
  reducer_inv plan (finishCommit wall q plan n a' attemptID (ti_set_Now now input)).1.
Proof.
  intros [Hpid Hlive Htgt Htrav Hrep] Hf Ha (N & M & -> & HN) HM.
  pose proof (fc_attempt _ _ _ _ _ _ Hf) as Hat. pose proof (fc_node _ _ _ _ _ _ Hf) as Hnode.
  pose proof (li_attempts _ _ _ Hlive _ _ Hat) as Haw.
  assert (live_inv (pl_ID plan) N (pp_Attempts p)) as HliveN by by eapply live_inv_reopen.
  set (q := repaired N M p) in *.
  unfold finishCommit. cbv zeta.
  destruct (finishRecord_fields q n a' attemptID (ti_set_Now now input))
    as (R1 & R2 & R3 & R4 & R5 & R6 & R7 & R8 & R9).
  set (p1 := finishRecord _ _ _ _ _) in *.
  assert (live_inv (pl_ID plan) (pp_Nodes p1) (pp_Attempts p1)) as Hlive1.
  { rewrite R1, R2. destruct Ha as [F1 F2 F3 _ F4 F5]. apply live_inv_set; simpl; try done.
    - rewrite F1. apply (aw_id _ _ _ _ Haw).
    - apply (aw_named _ _ _ _ Haw).
    - rewrite F2. apply (aw_plan _ _ _ _ Haw).
    - rewrite F3. apply (nw_id _ _ _ (li_nodes _ _ _ Hlive _ _ Hnode)).
    - apply (fc_current _ _ _ _ _ _ Hf).
    - intros b Hb. simpl in Hb. rewrite Hat in Hb. by injection Hb as <-.
    - intros j b Hb Hbn Hr. rewrite F3 in Hbn.
      destruct (aw_running _ _ _ _ (li_attempts _ _ _ Hlive _ _ Hb) Hr) as (n' & Hn' & _ & Hc).
      rewrite Hbn, Hnode in Hn'. injection Hn' as <-. rewrite <- Hc. apply (fc_current _ _ _ _ _ _ Hf). }
  assert (targets_exist (pl_GraphSnapshot plan) (pp_Nodes p1)) as Htgt1.
  { rewrite R1. apply targets_exist_insert. by eapply targets_exist_reopen. }
  destruct (shortCircuit_frame plan a' p1 Htgt1) as (N2 & -> & HN2).
  set (p2 := pp_set_Nodes N2 p1).
  assert (reducer_inv plan p2) as Hinv2.
  { split; simpl.
    - rewrite R3. done.
    - by eapply live_inv_reopen.
    - by eapply targets_exist_reopen.
    - rewrite R7, R8. done.
    - rewrite R9. done. }
  assert (∃ x, N2 !! na_NodeID a' = Some x ∧ np_Status x ≠ AttemptRunning) as Hown.
  { destruct (nodes_reopened_lookup _ N2 (na_NodeID a') (np_set_Status (na_Status a') n) HN2) as (x & Hx & Hre).
    - by rewrite R1, lookup_insert_eq.
    - exists x. split; [done|]. rewrite (reopened_running _ _ Hre). simpl.
      intros [Hr _]. by apply (fa_stopped _ _ Ha). }
  assert (∀ s, reducer_inv plan s → reducer_inv plan (finishReason a' s)) as Hreason.
  { intros s [? ? ? ? Hr]. unfold finishReason. case_bool_decide; [done|].
    destruct (pp_RepairPlans s !! _) as [r|] eqn:E; [|done]. split; simpl; try done.
    apply map_Forall_insert_2; [|done]. destruct (Hr _ _ E) as [? ?]. split; [done|].
    by apply (history_wf_ext r). }
  destruct (routes _ _); [|by apply Hreason].
  pose proof (route_framed wall p2 plan a' (ti_set_Now now input) edge_ids (ri_targets _ _ Hinv2) Hown)
    as (N3 & T3 & D3 & s3 & o3 & E3 & HN3 & HT3 & _).
  destruct (route wall p2 plan a' (ti_set_Now now input)) as [p3 [[]|e]]; cbn [fst snd] in E3, HT3 |- *; subst p3.
  - apply Hreason. destruct Hinv2 as [I1 I2 I3 I4 I5]. split; simpl; try done.
    + by eapply live_inv_reopen.
    + by eapply targets_exist_reopen.
    + by apply HT3.
  - destruct (finishRollback_fields q (routed N3 T3 (pp_Decisions p2 ++ D3) s3 o3 p2) attemptID (na_NodeID a')
      (ti_set_Now now input) a Hat) as (B1 & B2 & B3 & _ & _ & _ & B7 & B8 & B9).
    assert (nodes_reopened N (<[na_NodeID a' := node_at q (na_NodeID a')]> N3)) as Hback.
    { destruct (nodes_reopened_lookup _ _ _ _ HN Hnode) as (n' & Hn' & _). rewrite <- (fa_node _ _ Ha) in Hn'.
      intros k. destruct (decide (k = na_NodeID a')) as [->|Hk].
      - rewrite lookup_insert_eq. unfold node_at. simpl. rewrite Hn'. by constructor.
      - rewrite lookup_insert_ne by done. pose proof (transitivity HN2 HN3 k) as Hk3.
        rewrite R1, lookup_insert_ne in Hk3 by done. exact Hk3. }
    split.
    + rewrite B3. simpl. by rewrite R3.
    + rewrite B1, B2. simpl. rewrite R2, insert_insert_eq, (insert_id (pp_Attempts q) attemptID a Hat).
      by eapply live_inv_reopen.
    + rewrite B1. simpl. eapply targets_exist_reopen; [exact Hback|]. by eapply targets_exist_reopen.
    + rewrite B7, B8. simpl. rewrite R8. simpl. by rewrite take_app_length.
    + by rewrite B9.
Qed.

Lemma FinishAttempt_inv wall p attemptID input :
  reducer_inv plan p → reducer_inv plan (FinishAttempt wall p plan attemptID input).1.
Proof.
  intros Hinv. pose proof (FinishAttempt_cases wall p attemptID input) as Hc. cbv zeta in Hc.
  destruct Hc as [(e & ->)|[(a & n & -> & _)|(a & n & q & Hf & Hfr & Hw & Hc)]]; [done..|].
  destruct Hc as [(e & ->)|(a' & Ha & ->)].
  - simpl. destruct Hinv as [Hpid Hlive Htgt Htrav Hrep]. specialize (Hw Hrep).
    destruct Hfr as (N & M & -> & HN). split; simpl in *; try done.
    + by eapply live_inv_reopen.
    + by eapply targets_exist_reopen.
  - eapply finishCommit_inv; try done. apply Hw. apply Hinv.
Qed.
End reducer.
