(* ===== verification/Scheduler.v ===== *)
(** * Scheduler: readiness and the explicit controls of internal/orchestration/scheduler.go

    [readyNodesAt] with its join policies, [limitForStructural], and the
    projection's [Retry], [Cancel], [Timeout] and [TakeOver]. *)
From stdpp Require Import base strings gmap list pretty.
From Stdlib Require Import ZArith.
From S2P Require Import Prelude GoLib GoValue GoJson ContextModel OrchModel GraphSearch Validate PredicateSpec GraphSpec ProjectionData Projection Repair Transition.

(** ** Readiness *)

Definition incoming (g : WorkflowGraph) (id : string) : list WorkflowEdge :=
  filter (λ e, we_To e = id) (g_Edges g).

(** The committed current attempt of an edge's source. *)
Definition source_attempt (p : PlanProjection) (e : WorkflowEdge) : option NodeAttempt :=
  let source := node_at p (we_From e) in
  if np_CurrentAttempt source ≟ "" then None else pp_Attempts p !! np_CurrentAttempt source.

Definition source_satisfied (p : PlanProjection) (e : WorkflowEdge) : bool :=
  match source_attempt p e with Some a => edgeSatisfied e a | None => false end.
Definition source_failed (p : PlanProjection) (e : WorkflowEdge) : bool :=
  stopped (np_Status (node_at p (we_From e))).
(** A satisfied failure edge into a short-circuiting join. *)
Definition source_short_circuits (p : PlanProjection) (n : WorkflowNode) (e : WorkflowEdge) : bool :=
  match source_attempt p e with
  | Some a => edgeSatisfied e a && (wn_JoinFailurePolicy n ≟ "short_circuit")
              && (na_Status a ≠? AttemptPassed) && (we_On e ≠? EdgeSuccess)
  | None => false
  end.

(** The number of satisfied edges a join waits for. *)
Definition join_need (n : WorkflowNode) (edges : nat) : Z :=
  match wn_JoinPolicy n with
  | JoinAll => Z.of_nat edges
  | JoinQuorum => if (wn_JoinQuorum n <=? 0)%Z then (Z.of_nat edges / 2 + 1)%Z else wn_JoinQuorum n
  | _ => 1%Z
  end.

(** The body of the loop over nodes. *)
Definition node_ready (p : PlanProjection) (now : Time) (g : WorkflowGraph) (id : string) (n : WorkflowNode) : bool :=
  let state := node_at p id in
  if np_Status state ≠? AttemptReady then false
  else if match np_RetryAt state with Some t => Before now t | None => false end then false
  else
    let edges := incoming g id in
    if bool_decide (edges = []) then true
    else
      let passed := count (source_satisfied p) edges in
      let failed := count (source_failed p) edges in
      let shortCircuit := existsb (source_short_circuits p n) edges in
      let need := if (wn_JoinFailurePolicy n ≟ "short_circuit") && (0 <? failed)%Z && shortCircuit
                  then 0%Z else join_need n (length edges) in
      (need <=? passed)%Z.

Definition node_le (a b : WorkflowNode) : Prop := String.le (wn_ID a) (wn_ID b).
#[global] Instance node_le_dec : RelDecision node_le.
Proof. intros a b. unfold node_le. apply _. Defined.

Definition limitForStructural (plan : RequirementExecutionPlan) (configured : Z) : Z :=
  let c := bg_Concurrent (pol_Budget (pl_PolicySnapshot plan)) in
  let limit := if (configured <=? 0)%Z then Z.of_nat (length (g_Nodes (pl_GraphSnapshot plan))) else configured in
  if (0 <? c)%Z && (c <? limit)%Z then c else limit.

Definition containsAttemptNode (attempts : list NodeAttempt) (nodeID : string) : bool :=
  existsb (λ a, na_NodeID a ≟ nodeID) attempts.

(** ** [Retry]: the node is looked up under the trimmed id and stored under the
    id as given. *)
Definition Retry (p : PlanProjection) (plan : RequirementExecutionPlan) (nodeID : string)
    : PlanProjection * result unit :=
  match pp_Nodes p !! TrimSpace nodeID with
  | None => (p, Err (Errorf "unknown node %q" [nodeID]))
  | Some n =>
      if (np_Status n ≠? AttemptFailed) && (np_Status n ≠? AttemptTimedOut)
      then (p, Err (ESentinel ErrInvalidTransition))
      else
        let p := put_node nodeID (np_set_Status AttemptReady n) p in
        (if pp_Status p ≟ PlanTerminal then pp_set_Status PlanRunning p else p, Ok tt)
  end.

Section scheduler.
Context `{!MapRange, !Sha256, !JsonMarshal (string * StructuredResult * option FailureReason)}.

Definition readyNodesAt (plan : RequirementExecutionPlan) (p : PlanProjection) (now : Time) : list WorkflowNode :=
  let g := pl_GraphSnapshot plan in
  stable_sort node_le
    (snd <$> filter (λ '(id, n), node_ready p now g id n = true) (range (node_table g))).

(** A completion the control plane makes itself. *)
Definition control_input (plan : RequirementExecutionPlan) (attemptID : string) (token : Z)
    (event outcome summary evidence code message : string) (retryable : bool) (now : Time) : TransitionInput :=
  {| ti_PlanRevision := pl_Revision plan; ti_AttemptID := attemptID; ti_LeaseToken := token; ti_Event := event;
     ti_Result := {| res_Outcome := outcome; res_ReasonCode := ""; res_Fields := ∅; res_Summary := summary;
                     res_EvidenceIDs := [evidence] |};
     ti_Failure := Some {| fr_Code := code; fr_Message := message; fr_Retryable := retryable |};
     ti_OutputArtifacts := []; ti_IdempotencyKey := ""; ti_PayloadHash := ""; ti_Now := now |}.

Definition Cancel (wall : Time) (p : PlanProjection) (plan : RequirementExecutionPlan) (attemptID : string)
    (leaseToken : Z) (reason : string) : PlanProjection * result NodeAttempt :=
  FinishAttempt wall p plan attemptID
    (control_input plan attemptID leaseToken "cancel" "cancelled" reason ("cancel:" +:+ attemptID)
       "cancelled" reason false 0).

Definition Timeout (wall : Time) (p : PlanProjection) (plan : RequirementExecutionPlan) (attemptID : string)
    (leaseToken : Z) (reason : string) : PlanProjection * result NodeAttempt :=
  FinishAttempt wall p plan attemptID
    (control_input plan attemptID leaseToken "timeout" "timeout" reason ("timeout:" +:+ attemptID)
       "timeout" reason true 0).

(** The lease a takeover installs: a new owner, the next fencing token, fifteen
    minutes. *)
Definition takeover_lease (owner : string) (now : Time) (l : Lease) : Lease :=
  {| ls_Key := ls_Key l; ls_Owner := owner; ls_FencingToken := add64 (ls_FencingToken l) 1;
     ls_ExpiresAt := (now + 15 * Minute)%Z |}.

Definition TakeOver (wall : Time) (p : PlanProjection) (plan : RequirementExecutionPlan)
    (attemptID owner : string) (now : Time) : PlanProjection * result unit :=
  match pp_Attempts p !! attemptID with
  | None => (p, Err (ESentinel ErrStaleAttempt))
  | Some a =>
      if negb (running a) then (p, Err (ESentinel ErrInvalidTransition))
      else if owner ≟ "" then (p, Err (Errorf "takeover owner is required" []))
      else
        let now := orNow wall now in
        let a := na_set_Lease (takeover_lease owner now (na_Lease a)) a in
        let p := put_attempt attemptID a p in
        let '(p, r) := FinishAttempt wall p plan attemptID
          (control_input plan "" (ls_FencingToken (na_Lease a)) "timeout" "timeout" "human takeover"
             ("human-takeover:" +:+ attemptID) "human_takeover" "attempt taken over" true now) in
        (p, match r with Ok _ => Ok tt | Err e => Err e end)
  end.
End scheduler.
