(* ===== verification/Events.v ===== *)
(** * Events: the hash-chained event log of a plan and its replay

    Models internal/orchestration/events.go: [Event], [NewEventWithContext],
    [Seal], [eventDigest], [ValidateEventChain] and [ReplayProjection], which
    rebuilds a projection by running the reducer's operations over the log.

    [json.Marshal], [json.Unmarshal] and [json.Compact] are parameters; the
    random event id and the wall clock are arguments. *)
From stdpp Require Import base strings gmap list pretty.
From Stdlib Require Import ZArith Lia.
From S2P Require Import Prelude GoLib GoStrings Trace GoValue GoJson ContextModel OrchModel GraphSearch Validate ProjectionData Projection Repair Transition Scheduler.

Record Event := {
  ev_ID : string; ev_PlanID : string; ev_WorkspaceID : string; ev_RunID : string; ev_NodeID : string;
  ev_AttemptID : string; ev_Sequence : Z; ev_Type : string; ev_Payload : string; ev_PayloadHash : string;
  ev_PreviousHash : string; ev_EnvelopeHash : string; ev_IdempotencyKey : string; ev_FencingToken : Z;
  ev_TraceParent : string; ev_TraceState : string; ev_CreatedAt : Time }.

(** The payloads [ReplayProjection] decodes. *)
Record StartedPayload := {
  stp_NodeID : string; stp_AttemptID : string; stp_AttemptNo : Z; stp_Lease : Lease; stp_Context : ContextEnvelope;
  stp_DispatchPayloadHash : string; stp_StartedAt : Time; stp_ChildPlanID : string }.
Record BoundPayload := {
  bp_AttemptID : string; bp_RunID : string; bp_SessionID : string; bp_WorkDir : string; bp_ChildPlanID : string }.
Record FinishedPayload := {
  fp_AttemptID : string; fp_Event : string; fp_Result : StructuredResult; fp_Failure : option FailureReason;
  fp_ArtifactIDs : list string; fp_TransitionIdempotencyKey : option string; fp_TransitionAt : Time }.
Record RetryPayload := { rq_NodeID : string }.

(** [e] with other chain fields. *)
Definition ev_chained (seq : Z) (prev : string) (e : Event) : Event :=
  {| ev_ID := ev_ID e; ev_PlanID := ev_PlanID e; ev_WorkspaceID := ev_WorkspaceID e; ev_RunID := ev_RunID e;
     ev_NodeID := ev_NodeID e; ev_AttemptID := ev_AttemptID e; ev_Sequence := seq; ev_Type := ev_Type e;
     ev_Payload := ev_Payload e; ev_PayloadHash := ev_PayloadHash e; ev_PreviousHash := prev;
     ev_EnvelopeHash := ev_EnvelopeHash e; ev_IdempotencyKey := ev_IdempotencyKey e;
     ev_FencingToken := ev_FencingToken e; ev_TraceParent := ev_TraceParent e; ev_TraceState := ev_TraceState e;
     ev_CreatedAt := ev_CreatedAt e |}.
(** [e] with other payload and digests. *)
Definition ev_hashed (payload payloadHash envelopeHash : string) (e : Event) : Event :=
  {| ev_ID := ev_ID e; ev_PlanID := ev_PlanID e; ev_WorkspaceID := ev_WorkspaceID e; ev_RunID := ev_RunID e;
     ev_NodeID := ev_NodeID e; ev_AttemptID := ev_AttemptID e; ev_Sequence := ev_Sequence e; ev_Type := ev_Type e;
     ev_Payload := payload; ev_PayloadHash := payloadHash; ev_PreviousHash := ev_PreviousHash e;
     ev_EnvelopeHash := envelopeHash; ev_IdempotencyKey := ev_IdempotencyKey e;
     ev_FencingToken := ev_FencingToken e; ev_TraceParent := ev_TraceParent e; ev_TraceState := ev_TraceState e;
     ev_CreatedAt := ev_CreatedAt e |}.
(** [e] with the scope a caller fills in after [NewEvent]. *)
Definition ev_scoped (node attempt : string) (token : Z) (e : Event) : Event :=
  {| ev_ID := ev_ID e; ev_PlanID := ev_PlanID e; ev_WorkspaceID := ev_WorkspaceID e; ev_RunID := ev_RunID e;
     ev_NodeID := node; ev_AttemptID := attempt; ev_Sequence := ev_Sequence e; ev_Type := ev_Type e;
     ev_Payload := ev_Payload e; ev_PayloadHash := ev_PayloadHash e; ev_PreviousHash := ev_PreviousHash e;
     ev_EnvelopeHash := ev_EnvelopeHash e; ev_IdempotencyKey := ev_IdempotencyKey e; ev_FencingToken := token;
     ev_TraceParent := ev_TraceParent e; ev_TraceState := ev_TraceState e; ev_CreatedAt := ev_CreatedAt e |}.

(** [a.RunID, a.SessionID, a.WorkDir, a.ChildPlanID = ...]. *)
Definition bind_run (run session workdir child : string) (a : NodeAttempt) : NodeAttempt :=
  {| na_ID := na_ID a; na_PlanID := na_PlanID a; na_NodeID := na_NodeID a; na_AttemptNo := na_AttemptNo a;
     na_RunID := run; na_SessionID := session; na_WorkDir := workdir; na_Lease := na_Lease a;
     na_IdempotencyKey := na_IdempotencyKey a; na_InputManifest := na_InputManifest a;
     na_OutputArtifacts := na_OutputArtifacts a; na_Result := na_Result a; na_RepairState := na_RepairState a;
     na_RepairPlanID := na_RepairPlanID a; na_Status := na_Status a; na_FailureReason := na_FailureReason a;
     na_ParentAttemptID := na_ParentAttemptID a; na_RetryOf := na_RetryOf a; na_ChildPlanID := child;
     na_StartedAt := na_StartedAt a; na_FinishedAt := na_FinishedAt a |}.
Definition na_set_ChildPlanID (child : string) (a : NodeAttempt) : NodeAttempt :=
  bind_run (na_RunID a) (na_SessionID a) (na_WorkDir a) child a.

Section events.
Context `{!Sha256, !JsonCompact, !JsonMarshal Event}.

Definition canonicalPayload (payload : string) : string := default payload (json_compact payload).
Definition payloadDigest (payload : string) : string := sha256_hex (canonicalPayload payload).

(** What [eventDigest] encodes: everything but the envelope hash. *)
Definition digest_view (e : Event) : Event := ev_hashed (canonicalPayload (ev_Payload e)) (ev_PayloadHash e) "" e.
Definition eventDigest (e : Event) : string := json_sha256 (digest_view e).

(** [Event.Seal]. *)
Definition Seal (e : Event) : Event :=
  let e := ev_hashed (ev_Payload e) (payloadDigest (ev_Payload e)) (ev_EnvelopeHash e) e in
  ev_hashed (ev_Payload e) (ev_PayloadHash e) (eventDigest e) e.

(** [ev.EnvelopeHash = eventDigest(ev)], as the executor seals scoped events. *)
Definition reseal (e : Event) : Event := ev_hashed (ev_Payload e) (ev_PayloadHash e) (eventDigest e) e.

Definition NewEventWithContext {T} `{!JsonMarshal T} (id : string) (wall : Time) (ctx : option SpanContext)
    (previous : option Event) (planID workspaceID typ idempotency : string) (payload : T) : result Event :=
  reject ((planID ≟ "") || (workspaceID ≟ "") || (typ ≟ ""))
    (Errorf "plan, workspace and event type are required" []) ;;;
  match json_marshal payload with
  | None => Err (Errorf "json.Marshal" [])
  | Some b =>
      let '(traceParent, traceState) := Carrier ctx in
      let e := {| ev_ID := id; ev_PlanID := planID; ev_WorkspaceID := workspaceID; ev_RunID := "";
                  ev_NodeID := ""; ev_AttemptID := ""; ev_Sequence := 1; ev_Type := typ; ev_Payload := b;
                  ev_PayloadHash := payloadDigest b; ev_PreviousHash := ""; ev_EnvelopeHash := "";
                  ev_IdempotencyKey := idempotency; ev_FencingToken := 0; ev_TraceParent := traceParent;
                  ev_TraceState := traceState; ev_CreatedAt := wall |} in
      let e := match previous with
               | None => e
               | Some p => ev_chained (add64 (ev_Sequence p) 1) (ev_EnvelopeHash p) e
               end in
      Ok (reseal e)
  end.

Definition event_incomplete (e : Event) : bool :=
  (ev_ID e ≟ "") || (ev_Type e ≟ "") || (ev_PlanID e ≟ "") || (ev_WorkspaceID e ≟ "") || (ev_Payload e ≟ "")
  || (ev_PayloadHash e ≟ "") || (ev_EnvelopeHash e ≟ "").

Definition check_trace (e : Event) : result unit :=
  if (ev_TraceParent e ≠? "") || (ev_TraceState e ≠? "") then
    match ParseTraceParent (ev_TraceParent e) (ev_TraceState e) with
    | Ok _ => Ok tt
    | Err c => Err (Wrapf "event trace context mismatch at %d: %w" [pretty (ev_Sequence e)] c)
    end
  else Ok tt.

(** One event of the chain; the loop carries the previous envelope hash. *)
Definition check_event (planID workspaceID : string) (prev : string) (i : nat) (e : Event) : result string :=
  reject (event_incomplete e) (Errorf "event %d is incomplete" [itoa (S i)]) ;;;
  reject ((ev_PlanID e ≠? planID) || (ev_WorkspaceID e ≠? workspaceID)) (Errorf "event scope mismatch" []) ;;;
  reject (ev_Sequence e ≠? Z.of_nat (S i)) (Errorf "event sequence gap at %d" [pretty (ev_Sequence e)]) ;;;
  reject (ev_PreviousHash e ≠? prev) (Errorf "event previous hash mismatch at %d" [pretty (ev_Sequence e)]) ;;;
  reject (eventDigest e ≠? ev_EnvelopeHash e)
    (Errorf "event envelope hash mismatch at %d" [pretty (ev_Sequence e)]) ;;;
  reject (payloadDigest (ev_Payload e) ≠? ev_PayloadHash e)
    (Errorf "event payload hash mismatch at %d" [pretty (ev_Sequence e)]) ;;;
  check_trace e ;;;
  Ok (ev_EnvelopeHash e).

Definition ValidateEventChain (events : list Event) (planID workspaceID : string) : result unit :=
  fold_each_from 0 (check_event planID workspaceID) "" events ;;; Ok tt.

(** ** Replay *)

Context `{!MapRange, !JsonMarshal (string * StructuredResult * option FailureReason), !EnvelopeContract}.
Context `{!JsonUnmarshal StartedPayload, !JsonUnmarshal BoundPayload, !JsonUnmarshal FinishedPayload,
          !JsonUnmarshal RetryPayload}.

Definition or_empty (v fallback : string) : string := if v ≟ "" then fallback else v.

Definition replayStarted (wall : Time) (plan : RequirementExecutionPlan) (p : PlanProjection) (e : Event)
    : result PlanProjection :=
  let* x := json_unmarshal (T := StartedPayload) (ev_Payload e) in
  let input := {| ti_PlanRevision := pl_Revision plan; ti_AttemptID := "";
                  ti_LeaseToken := ls_FencingToken (stp_Lease x); ti_Event := ""; ti_Result := zero_Result;
                  ti_Failure := None; ti_OutputArtifacts := []; ti_IdempotencyKey := ev_IdempotencyKey e;
                  ti_PayloadHash := stp_DispatchPayloadHash x; ti_Now := orNow (ev_CreatedAt e) (stp_StartedAt x) |} in
  match StartAttempt wall p plan (or_empty (stp_NodeID x) (ev_NodeID e))
          (or_empty (stp_AttemptID x) (ev_AttemptID e)) (stp_AttemptNo x) (stp_Lease x) (stp_Context x) input with
  | (_, Err err) => Err err
  | (p, Ok started) =>
      Ok (if stp_ChildPlanID x ≠? ""
          then put_attempt (na_ID started) (na_set_ChildPlanID (stp_ChildPlanID x) started) p else p)
  end.

Definition replayBound (p : PlanProjection) (e : Event) : result PlanProjection :=
  let* x := json_unmarshal (T := BoundPayload) (ev_Payload e) in
  reject ((bp_AttemptID x ≟ "") || (ev_AttemptID e ≠? "") && (ev_AttemptID e ≠? bp_AttemptID x))
    (ESentinel ErrStaleAttempt) ;;;
  match pp_Attempts p !! bp_AttemptID x with
  | None => Err (ESentinel ErrStaleAttempt)
  | Some a =>
      reject (negb (running a) || (ev_FencingToken e ≠? ls_FencingToken (na_Lease a)))
        (ESentinel ErrStaleAttempt) ;;;
      reject ((ev_NodeID e ≠? "") && (ev_NodeID e ≠? na_NodeID a) || (bp_RunID x ≟ "") || (bp_SessionID x ≟ "")
              || (bp_WorkDir x ≟ ""))
        (Errorf "attempt.bound provenance is incomplete" []) ;;;
      Ok (put_attempt (bp_AttemptID x)
            (bind_run (bp_RunID x) (bp_SessionID x) (bp_WorkDir x) (bp_ChildPlanID x) a) p)
  end.

Definition replayFinished (wall : Time) (plan : RequirementExecutionPlan) (p : PlanProjection) (e : Event)
    : result PlanProjection :=
  let* x := json_unmarshal (T := FinishedPayload) (ev_Payload e) in
  let input := {| ti_PlanRevision := pl_Revision plan; ti_AttemptID := ""; ti_LeaseToken := ev_FencingToken e;
                  ti_Event := fp_Event x; ti_Result := fp_Result x; ti_Failure := fp_Failure x;
                  ti_OutputArtifacts := fp_ArtifactIDs x;
                  ti_IdempotencyKey := default (ev_IdempotencyKey e) (fp_TransitionIdempotencyKey x);
                  ti_PayloadHash := ""; ti_Now := orNow (ev_CreatedAt e) (fp_TransitionAt x) |} in
  match FinishAttempt wall p plan (fp_AttemptID x) input with
  | (_, Err err) => Err err
  | (p, Ok _) => Ok p
  end.

Definition replayRetry (plan : RequirementExecutionPlan) (p : PlanProjection) (e : Event) : result PlanProjection :=
  let* x := json_unmarshal (T := RetryPayload) (ev_Payload e) in
  match Retry p plan (rq_NodeID x) with
  | (_, Err err) => Err err
  | (p, Ok _) => Ok p
  end.

Definition replayEvent (wall : Time) (plan : RequirementExecutionPlan) (p : PlanProjection) (_ : nat) (e : Event)
    : result PlanProjection :=
  if (ev_Type e ≟ "plan.created") || (ev_Type e ≟ "plan.published") then Ok p
  else if ev_Type e ≟ "attempt.started" then replayStarted wall plan p e
  else if ev_Type e ≟ "attempt.bound" then replayBound p e
  else if ev_Type e ≟ "attempt.finished" then replayFinished wall plan p e
  else if ev_Type e ≟ "node.retry_requested" then replayRetry plan p e
  else Err (Errorf "unsupported replay event %q" [ev_Type e]).

Definition ReplayProjection (wall : Time) (plan : RequirementExecutionPlan) (events : list Event)
    : result PlanProjection :=
  let* p := NewProjection plan in
  ValidateEventChain events (pl_ID plan) (pl_WorkspaceID plan) ;;;
  fold_each_from 0 (replayEvent wall plan) p events.
End events.
