(* ===== verification/ProviderOutcome.v ===== *)
(** * ProviderOutcome: reading a result out of a provider run

    Models the part of internal/orchestration/worker.go that turns a provider's
    run snapshot into the completion the reducer is given: [providerOutcome] with
    its marker parser, [hasProviderToolEvidence], and the classification of the
    run status in [Worker.Reconcile].

    [json.Unmarshal] into [any] is a parameter; into [map[string]any] it succeeds
    exactly on the objects (and on null, which leaves the map nil). *)
From stdpp Require Import base strings gmap list pretty.
From Stdlib Require Import ZArith Lia SpecFloat Ascii.
From S2P Require Import Prelude GoLib GoStrings Trace GoValue GoJson ContextModel ContextCompiler OrchModel GraphSearch Validate ProjectionData Projection Repair Transition Scheduler Events.

(** ** Snapshots (internal/provider/provider.go) *)

Record ToolEvent := { te_CallID : string; te_Name : string; te_Phase : string; te_Payload : string; te_Sequence : Z }.
Record Usage := {
  us_InputTokens : Z; us_OutputTokens : Z; us_CacheReadTokens : Z; us_CacheWriteTokens : Z; us_DurationMS : Z;
  us_EstimatedCost : spec_float }.
(** The fields of [RunSnapshot] the worker reads. *)
Record RunSnapshot := {
  rs_Status : string; rs_LastEventID : string; rs_ExecutorPath : string; rs_OutputSHA256 : string;
  rs_Output : string; rs_Error : string; rs_Usage : Usage; rs_ToolEvents : list ToolEvent }.

(** ** Strings *)

Definition quote : ascii := ascii_of_nat 34.
Definition backslash : ascii := ascii_of_nat 92.
Definition open_brace : ascii := ascii_of_nat 123.
Definition close_brace : ascii := ascii_of_nat 125.

(** The suffix of [s] at the last occurrence of [needle]. *)
Fixpoint at_last (s needle : string) : option string :=
  match s with
  | EmptyString => if HasPrefix s needle then Some s else None
  | String _ s' =>
      match at_last s' needle with
      | Some t => Some t
      | None => if HasPrefix s needle then Some s else None
      end
  end.
(** The suffix of [s] at the first byte [c]: [s[strings.IndexByte(s, c):]]. *)
Fixpoint at_byte (c : ascii) (s : string) : option string :=
  match s with
  | EmptyString => None
  | String a s' => if decide (a = c) then Some s else at_byte c s'
  end.
Fixpoint take_bytes (n : nat) (s : string) : string :=
  match n, s with S n', String a s' => String a (take_bytes n' s') | _, _ => "" end.

Definition HasSuffix (s p : string) : bool :=
  (String.length p <=? String.length s)%nat
  && (skip (String.length s - String.length p) s ≟ p).
Definition TrimSuffix (s p : string) : string :=
  if HasSuffix s p then take_bytes (String.length s - String.length p) s else s.

(** [filepath.Base] and [filepath.Ext] (slash-separated paths). *)
Definition slash : ascii := ascii_of_nat 47.
Definition Base (path : string) : string :=
  if path ≟ "" then "." else
  match list_find (λ e, e ≠ "") (reverse (Split slash path)) with
  | None => "/"
  | Some (_, e) => e
  end.
Definition Ext (path : string) : string :=
  default "" (at_last (default "" (last (Split slash path))) ".").

(** ** Lines: [bufio.Scanner] with a limit of 2 MiB on a line *)

Definition drop_cr (l : string) : string := TrimSuffix l (String cr "").
(** The lines of [s]; the text after the last newline is one only if not empty. *)
Definition text_lines (s : string) : list string :=
  let parts := Split nl s in
  if default "" (last parts) ≟ "" then take (pred (length parts)) parts else parts.
(** Scanning stops at the first line that does not fit the buffer. *)
Fixpoint scan_lines (lines : list string) : list string :=
  match lines with
  | [] => []
  | l :: lines' => if (Z.of_nat (String.length l) <? 2097152)%Z then drop_cr l :: scan_lines lines' else []
  end.

(** ** Messages *)

Definition normalized (value : string) : string := ToLower (ReplaceAll (TrimSpace value) "_" "").
Definition isProviderTerminalResultType (value : string) : bool := contains ["result"; "finalresult"] (normalized value).
Definition isProviderAgentMessageType (value : string) : bool :=
  contains ["agentmessage"; "assistantmessage"] (normalized value).
Definition isCommandExecutionName (name : string) : bool := normalized name ≟ "commandexecution".

(** [v, _ := o[key].(string)]. *)
Definition string_at (o : list (string * value)) (key : string) : string :=
  match assoc key o with Some (VString s) => s | _ => "" end.
Definition text_at (o : list (string * value)) (key : string) : list string :=
  let t := string_at o key in if blank t then [] else [t].

Fixpoint collectProviderMessageTexts (v : value) (inMessage : bool) : list string :=
  match v with
  | VAnys l =>
      (fix each (l : list value) : list string :=
         match l with [] => [] | x :: l' => collectProviderMessageTexts x inMessage ++ each l' end) l
  | VObject o =>
      let typ := string_at o "type" in
      let message := inMessage || isProviderAgentMessageType typ in
      let child (key : string) :=
        (fix at_key (o : list (string * value)) : list string :=
           match o with
           | [] => []
           | (k, x) :: o' => if decide (key = k) then collectProviderMessageTexts x message else at_key o'
           end) o in
      (if message then text_at o "text" else [])
      ++ (if isProviderTerminalResultType typ then text_at o "output" else [])
      ++ child "item" ++ child "params" ++ child "payload" ++ child "content"
  | _ => []
  end.

(** ** The marker *)

Record scan_state := { sc_depth : Z; sc_inString : bool; sc_escaped : bool }.
(** One rune of the loop: the state after it, or the end of the object. *)
Definition scan_rune (st : scan_state) (r : N) : option scan_state :=
  if sc_inString st then
    if sc_escaped st then Some {| sc_depth := sc_depth st; sc_inString := true; sc_escaped := false |}
    else if (r =? byte backslash)%N then Some {| sc_depth := sc_depth st; sc_inString := true; sc_escaped := true |}
    else Some {| sc_depth := sc_depth st; sc_inString := negb (r =? byte quote)%N; sc_escaped := false |}
  else if (r =? byte quote)%N then Some {| sc_depth := sc_depth st; sc_inString := true; sc_escaped := sc_escaped st |}
  else if (r =? byte open_brace)%N then
    Some {| sc_depth := sc_depth st + 1; sc_inString := false; sc_escaped := sc_escaped st |}
  else if (r =? byte close_brace)%N then
    if (sc_depth st - 1 =? 0)%Z then None
    else Some {| sc_depth := sc_depth st - 1; sc_inString := false; sc_escaped := sc_escaped st |}
  else Some st.
Fixpoint scan_object (st : scan_state) (rs : list (nat * N)) : option nat :=
  match rs with
  | [] => None
  | (index, r) :: rs' => match scan_rune st r with None => Some index | Some st' => scan_object st' rs' end
  end.
Definition scan_start : scan_state := {| sc_depth := 0; sc_inString := false; sc_escaped := false |}.
Definition extractJSONObject (value : string) : string :=
  match scan_object scan_start (runes value) with
  | Some index => take_bytes (S index) value
  | None => ""
  end.

Definition marker : string := "ADRO_RESULT_JSON".
Definition escaped_quote : string := String backslash (String quote "").

Section outcome.
Context `{!JsonUnmarshal value}.

Definition unmarshal_object (raw : string) : option (list (string * value)) :=
  match json_unmarshal (T := value) raw with
  | Ok (VObject o) => Some o
  | Ok VNil => Some []
  | _ => None
  end.

Definition parseProviderMarker (text : string) : option (list (string * value)) :=
  match at_last text marker with
  | None => None
  | Some t =>
      let fragment := TrimSpace (skip (String.length marker) t) in
      let fragment := if HasPrefix fragment "=" || HasPrefix fragment ":" then TrimSpace (skip 1 fragment) else fragment in
      match at_byte open_brace fragment with
      | None => None
      | Some t =>
          let raw := extractJSONObject t in
          if raw ≟ "" then None else
          match unmarshal_object raw with
          | Some o => Some o
          | None => unmarshal_object (ReplaceAll raw escaped_quote (String quote ""))
          end
      end
  end.

(** ** The outcome *)

Definition first_nonblank (o : list (string * value)) (keys : list string) : string :=
  match list_find (λ k, blank (string_at o k) = false) keys with
  | Some (_, k) => TrimSpace (string_at o k)
  | None => ""
  end.
Fixpoint first_outcome (v : value) : string :=
  match v with
  | VObject o =>
      let own := first_nonblank o ["adro_outcome"; "final_outcome"; "outcome"] in
      if own ≠? "" then own
      else (fix at_key (o : list (string * value)) : string :=
              match o with
              | [] => ""
              | (k, x) :: o' => if decide ("result" = k) then first_outcome x else at_key o'
              end) o
  | _ => ""
  end.
Definition firstOutcome (payload : list (string * value)) : string := first_outcome (VObject payload).

Definition normalizeProviderOutcome (v : string) : string :=
  let s := ToLower (TrimSpace v) in
  if contains ["bug"; "defect"; "regression"] s then "bug"
  else if contains ["failure"; "failed"; "fail"; "error"] s then "failure"
  else if contains ["pass"; "passed"; "success"; "succeeded"; "ok"] s then "pass"
  else if contains ["timeout"; "timed_out"] s then "timeout"
  else if contains ["cancel"; "cancelled"; "canceled"] s then "cancelled"
  else "".

(** [providerStringSlice]: [None] when the second result is false. *)
Fixpoint strings_of (l : list value) : option (list string) :=
  match l with
  | [] => Some []
  | VString s :: l' => if blank s then None else cons s <$> strings_of l'
  | _ => None
  end.
Definition providerStringSlice (v : option value) : option (list string) :=
  match v with
  | Some (VStrings l) => Some l
  | Some (VAnys l) => strings_of l
  | _ => None
  end.
Definition providerStringField (fields : gmap string value) (key : string) : string :=
  match fields !! key with Some (VString s) => TrimSpace s | _ => "" end.
Definition providerStringSliceField (fields : gmap string value) (key : string) : list string :=
  default [] (providerStringSlice (fields !! key)).

Definition put_text (key text : string) (fields : gmap string value) : gmap string value :=
  if text ≟ "" then fields else <[key := VString text]> fields.

(** The fields [providerOutcome] derives from a payload with an outcome. *)
Definition outcome_fields (payload : list (string * value)) (candidate : string) : gmap string value :=
  let fields := match assoc "fields" payload with Some (VObject o) => list_to_map o | _ => ∅ end in
  let fields := put_text "provider_reason_code" (TrimSpace (string_at payload "reason_code")) fields in
  let summary := string_at payload "summary" in
  let fields := put_text "provider_summary" (if blank summary then "" else summary) fields in
  let fields := match providerStringSlice (assoc "evidence_ids" payload) with
                | Some evidence => <["provider_evidence_ids" := VStrings evidence]> fields
                | None => fields
                end in
  <["provider_outcome" := VString candidate]> fields.

Definition candidate_outcome (text : string) : option (string * gmap string value) :=
  match parseProviderMarker text with
  | None => None
  | Some payload =>
      let candidate := firstOutcome payload in
      if candidate ≟ "" then None
      else Some (normalizeProviderOutcome candidate, outcome_fields payload candidate)
  end.

(** The texts that may carry the marker, in order. *)
Definition line_candidates (l : string) : list string :=
  let line := TrimSpace l in
  if line ≟ "" then []
  else match json_unmarshal (T := value) line with
       | Ok v => collectProviderMessageTexts v false
       | Err _ => [line]
       end.
Definition candidates (output : string) : list string :=
  let found := mjoin (line_candidates <$> scan_lines (text_lines output)) in
  if bool_decide (found = []) && negb (blank output) then [output] else found.

(** The last text with an outcome decides. *)
Fixpoint last_outcome (texts : list string) : string * gmap string value :=
  match texts with
  | [] => ("", ∅)
  | t :: texts' => match candidate_outcome t with Some r => r | None => last_outcome texts' end
  end.
Definition providerOutcome (output : string) : string * gmap string value := last_outcome (reverse (candidates output)).

(** ** Evidence of work *)

(** Phases seen per call id. *)
Definition phase_of (e : ToolEvent) : string := ToLower (TrimSpace (te_Phase e)).
Definition note_event (requireCommand : bool) (pairs : gmap string (gset string)) (e : ToolEvent) : gmap string (gset string) :=
  if blank (te_CallID e) || (requireCommand && negb (isCommandExecutionName (te_Name e))) then pairs
  else
    let phases := default ∅ (pairs !! te_CallID e) in
    <[te_CallID e := if contains ["before"; "after"] (phase_of e) then {[phase_of e]} ∪ phases else phases]> pairs.

Definition requires_command (snapshot : RunSnapshot) : bool :=
  EqualFold (TrimSuffix (Base (rs_ExecutorPath snapshot)) (Ext (rs_ExecutorPath snapshot))) "codex"
  || Contains (ToLower (ReplaceAll (rs_Output snapshot) "_" "")) "commandexecution".

Definition hasProviderToolEvidence `{!MapRange} (snapshot : RunSnapshot) : bool :=
  let normalizedOutput := ToLower (ReplaceAll (rs_Output snapshot) "_" "") in
  if negb (Contains normalizedOutput "commandexecution") && requires_command snapshot then false
  else
    let pairs := foldl (note_event (requires_command snapshot)) ∅ (rs_ToolEvents snapshot) in
    existsb (λ phases, bool_decide ("before" ∈ phases) && bool_decide ("after" ∈ phases)) (range_values pairs).

(** ** Classification *)

Fixpoint append_evidence (seen result : list string) (additions : list string) : list string :=
  match additions with
  | [] => result
  | v :: additions' =>
      let v := TrimSpace v in
      if (v ≟ "") || contains seen v then append_evidence seen result additions'
      else append_evidence (v :: seen) (result ++ [v]) additions'
  end.
Definition appendProviderEvidence (values additions : list string) : list string :=
  append_evidence (filter (λ v, blank v = false) values) values additions.

Definition mergeProviderFields (base extra : gmap string value) : gmap string value := extra ∪ base.

Definition usage_fields (snapshot : RunSnapshot) : gmap string value :=
  let u := rs_Usage snapshot in
  let fields := <["tool_calls" := VInt KInt (Z.of_nat (length (rs_ToolEvents snapshot)))]>
                  {["tokens" := VInt KInt64 (add64 (us_InputTokens u) (us_OutputTokens u))]} in
  if SFltb (S754_zero false) (us_EstimatedCost u)
  then <["cost_cents" := VInt KInt64 (int64_of_float (SFmul 53 1024 (us_EstimatedCost u) (float64_of_Z 100)))]> fields
  else fields.

Record completion := {
  co_Event : string; co_Result : StructuredResult; co_Failure : option FailureReason; co_Artifacts : list string }.

Definition provider_result (outcome code summary : string) (fields : gmap string value) (evidence : list string)
    : StructuredResult :=
  {| res_Outcome := outcome; res_ReasonCode := code; res_Fields := fields; res_Summary := summary;
     res_EvidenceIDs := evidence |}.
Definition provider_failure (code message : string) (retryable : bool) : option FailureReason :=
  Some {| fr_Code := code; fr_Message := message; fr_Retryable := retryable |}.
Definition with_evidence (evidence : list string) (r : StructuredResult) : StructuredResult :=
  provider_result (res_Outcome r) (res_ReasonCode r) (res_Summary r) (res_Fields r) evidence.

(** The switch on the run's status: the completion, or nothing for a run that is
    not over.  In the first case the branch without an outcome sets [failure] and
    goes on; only the branch without tool evidence leaves the switch. *)
Definition classify `{!MapRange} (runID : string) (snapshot : RunSnapshot) : option completion :=
  let status := ToLower (TrimSpace (rs_Status snapshot)) in
  let usage := usage_fields snapshot in
  let '(explicitOutcome, outcomeFields) := providerOutcome (rs_Output snapshot) in
  let reason := providerStringField outcomeFields "provider_reason_code" in
  let summary := let s := providerStringField outcomeFields "provider_summary" in
                 if s ≟ "" then rs_Output snapshot else s in
  let evidence := providerStringSliceField outcomeFields "provider_evidence_ids" in
  let merged := mergeProviderFields usage outcomeFields in
  let run suffix := "provider-run:" +:+ runID +:+ suffix in
  let done event result failure :=
    Some {| co_Event := event; co_Result := result; co_Failure := failure; co_Artifacts := evidence |} in
  if contains ["completed"; "passed"; "success"; "succeeded"] status then
    if (explicitOutcome ≠? "") && negb (hasProviderToolEvidence snapshot) then
      let message := "provider completed without a matched tool before/after pair" in
      done "failure"
        (provider_result "failure" "provider_tool_evidence_missing" message
           (mergeProviderFields usage
              (<["provider_output_sha256" := VString (rs_OutputSHA256 snapshot)]>
                 {["tool_event_count" := VInt KInt (Z.of_nat (length (rs_ToolEvents snapshot)))]}))
           [run ":missing-tool-evidence"])
        (provider_failure "provider_tool_evidence_missing" message true)
    else
      let failure := if explicitOutcome ≟ "" then
          provider_failure "provider_result_missing" "provider completed without ADRO_RESULT_JSON evidence" true
        else None in
      let '(event, result, failure) :=
        if explicitOutcome ≟ "bug" then
          ("bug", provider_result "bug" reason summary merged evidence,
           provider_failure "provider_reported_bug" summary true)
        else if explicitOutcome ≟ "failure" then
          ("failure", provider_result "failure" reason summary merged evidence,
           provider_failure "provider_reported_failure" summary true)
        else
          ("success", provider_result "pass" reason summary (if (0 <? size outcomeFields)%nat then merged else usage) evidence,
           failure) in
      let ids := appendProviderEvidence (res_EvidenceIDs result) [rs_LastEventID snapshot] in
      done event (with_evidence (if bool_decide (ids = []) then [run ":completed"] else ids) result) failure
  else if contains ["failed"; "error"; "failure"] status then
    if explicitOutcome ≟ "bug" then
      done "bug" (provider_result "bug" reason summary merged (appendProviderEvidence evidence [run ":bug"]))
        (provider_failure "provider_reported_bug" summary true)
    else
      done "failure" (provider_result "failure" reason summary merged (appendProviderEvidence evidence [run ":failed"]))
        (provider_failure "provider_failed" summary true)
  else if contains ["timed_out"; "timeout"; "timedout"] status then
    done "timeout" (provider_result "timeout" reason summary merged (appendProviderEvidence evidence [run ":timeout"]))
      (provider_failure "provider_timeout" summary true)
  else if contains ["cancelled"; "canceled"] status then
    done "cancel" (provider_result "cancelled" "" (rs_Error snapshot) usage [run ":cancelled"])
      (provider_failure "cancelled" (rs_Error snapshot) false)
  else None.
End outcome.
