(* ===== verification/ProviderOutcomeProps.v ===== *)
(** * ProviderOutcomeProps: what the worker reads into a provider run

    The marker is found wherever an agent prints it, tool evidence is a matched
    pair of events, and every completion the worker derives carries evidence the
    reducer accepts. *)
From stdpp Require Import base strings gmap list pretty.
From Stdlib Require Import ZArith Lia SpecFloat Ascii.
From S2P Require Import Prelude GoLib GoStrings Trace GoValue GoJson ContextModel ContextCompiler OrchModel GraphSearch Validate PredicateSpec GraphSpec ProjectionData Projection Repair Transition ContextSpec Samples Scheduler Events ProviderOutcome.

(** ** The object scanner on bytes

    The bytes the scanner looks for are ASCII, so scanning runes and scanning
    bytes is the same. *)

Fixpoint scan_bytes (st : scan_state) (i : nat) (l : list ascii) : option nat :=
  match l with
  | [] => None
  | a :: l' => match scan_rune st (byte a) with None => Some i | Some st' => scan_bytes st' (S i) l' end
  end.


Lemma lor_high x y : (128 ≤ x)%N → (128 ≤ N.lor x y)%N.
Proof.
  intros Hx. destruct (N.eq_dec (N.lor x y) 0) as [E|E].
  { apply N.lor_eq_0_iff in E as [-> _]. lia. }
  assert (x ≤ N.lor x y)%N; [|lia]. apply N.ldiff_le. apply N.bits_inj. intros i.
  rewrite N.ldiff_spec, N.lor_spec, N.bits_0. by destruct (N.testbit x i), (N.testbit y i).
Qed.

(** The scanner does not react to a rune that is not ASCII. *)
Lemma scan_rune_high st r s : (128 ≤ r)%N → (128 ≤ s)%N → scan_rune st r = scan_rune st s.
Proof.
  intros Hr Hs. unfold scan_rune. 
  repeat match goal with |- context [(?x =? byte ?c)%N] =>
    replace (x =? byte c)%N with false by (symmetry; apply N.eqb_neq; vm_compute byte; lia) end.
  done.
Qed.

Lemma lor_high_r x y : (128 ≤ y)%N → (128 ≤ N.lor x y)%N.
Proof. rewrite N.lor_comm. apply lor_high. Qed.
Lemma shiftl_high x k m : (m ≤ x)%N → (128 ≤ N.shiftl m k)%N → (128 ≤ N.shiftl x k)%N.
Proof. intros Hx Hm. rewrite N.shiftl_mul_pow2 in *. nia. Qed.

(** The payload bits of lead bytes and of restricted second bytes. *)
Lemma lead_bits a :
  ((194 ≤ byte a ≤ 223 → 2 ≤ N.land (byte a) 31) ∧ (225 ≤ byte a ≤ 239 → 1 ≤ N.land (byte a) 15) ∧
   (241 ≤ byte a ≤ 244 → 1 ≤ N.land (byte a) 7) ∧ (160 ≤ byte a ≤ 191 → 32 ≤ low6 a) ∧
   (144 ≤ byte a ≤ 191 → 16 ≤ low6 a))%N.
Proof. destruct a as [[] [] [] [] [] [] [] []]; vm_compute; intuition discriminate. Qed.

Lemma cont_bounds lo hi a : cont lo hi a = true → (lo ≤ byte a ≤ hi)%N.
Proof. unfold cont. rewrite andb_true_iff, !N.leb_le. done. Qed.

(** Runs of continuation bytes. *)
Lemma cont_high lo hi c : (128 ≤ lo)%N → cont lo hi c = true → (128 ≤ byte c)%N.
Proof. intros ? Hc%cont_bounds. lia. Qed.

Ltac conts := repeat match goal with
  | H : _ && _ = true |- _ => apply andb_true_iff in H as [? ?]
  | H : (_ <=? _)%N = true |- _ => apply N.leb_le in H
  | H : (_ =? _)%N = true |- _ => apply N.eqb_eq in H
  | H : cont _ _ _ = true |- _ => apply cont_bounds in H
  end.

Lemma decode_rune_high a rest r n :
  decode_rune a rest = (r, n) → (128 ≤ byte a)%N →
  (128 ≤ r)%N ∧ Forall (λ b, (128 ≤ byte b)%N) (take (pred n) rest) ∧ pred n ≤ length rest.
Proof.
  intros Hd Ha. unfold decode_rune in Hd. rewrite (proj2 (N.ltb_ge _ _) Ha) in Hd. cbv zeta in Hd.
  assert ((RuneError, 1) = (r, n) →
    (128 ≤ r)%N ∧ Forall (λ b, (128 ≤ byte b)%N) (take (pred n) rest) ∧ pred n ≤ length rest) as Herr.
  { intros [= <- <-]. split_and!; [done|constructor|lia]. }
  pose proof (lead_bits a) as (B1 & B2 & B3 & _).
  repeat match type of Hd with (if ?c then _ else _) = _ => destruct c eqn:? end; [..|by apply Herr].
  all: destruct rest as [|c [|d [|e rest]]]; try (by apply Herr).
  all: repeat match type of Hd with context [if ?c then _ else _] => destruct c eqn:? end; try (by apply Herr).
  all: injection Hd as <- <-; conts; cbn [pred take length].
  all: split_and!; [|repeat constructor; lia|lia].
  all: pose proof (lead_bits c) as (_ & _ & _ & C1 & C2).
  all: first
    [ apply lor_high; eapply shiftl_high; [apply B1; lia|done]
    | apply lor_high; eapply shiftl_high; [apply B2; lia|done]
    | apply lor_high; eapply shiftl_high; [apply B3; lia|done]
    | apply lor_high_r, lor_high; eapply shiftl_high; [apply C1; lia|done]
    | apply lor_high_r, lor_high; eapply shiftl_high; [apply C2; lia|done] ].
Qed.

Lemma decode_rune_low a rest : (byte a < 128)%N → decode_rune a rest = (byte a, 1).
Proof. intros Ha. unfold decode_rune. by rewrite (proj2 (N.ltb_lt _ _) Ha). Qed.

(** A byte that is not ASCII changes nothing, unless it is escaped. *)
Lemma scan_rune_skip st r : (128 ≤ r)%N → sc_escaped st = false → scan_rune st r = Some st.
Proof.
  intros Hr He. rewrite (scan_rune_high st r 128) by done. unfold scan_rune. rewrite He.
  destruct st as [d [] esc]; simpl in *; by subst.
Qed.
Lemma scan_rune_escaped st r st' : (128 ≤ r)%N → scan_rune st r = Some st' → sc_inString st = false → sc_escaped st' = sc_escaped st.
Proof.
  intros Hr. rewrite (scan_rune_high st r 128) by done. unfold scan_rune. intros Hs Hi. rewrite Hi in Hs. by injection Hs as <-.
Qed.
Lemma scan_rune_unescapes st r st' :
  (128 ≤ r)%N → (sc_escaped st = true → sc_inString st = true) → scan_rune st r = Some st' →
  sc_escaped st' = false ∧ (sc_escaped st' = true → sc_inString st' = true).
Proof.
  intros Hr Hi. rewrite (scan_rune_high st r 128) by done. unfold scan_rune.
  destruct st as [d [] []]; simpl in *; intros [= <-]; simpl; try done. by specialize (Hi eq_refl).
Qed.
Lemma scan_rune_wf st r st' :
  (sc_escaped st = true → sc_inString st = true) → scan_rune st r = Some st' → sc_escaped st' = true → sc_inString st' = true.
Proof.
  intros Hi. unfold scan_rune. destruct st as [d [] []]; simpl in *; try (by specialize (Hi eq_refl));
  repeat case_match; intros [= <-]; simpl; done.
Qed.

Lemma scan_runes_bytes l st i k :
  (sc_escaped st = true → sc_inString st = true) →
  (0 < k → sc_escaped st = false) → Forall (λ b, (128 ≤ byte b)%N) (take k l) → k ≤ length l →
  scan_object st (runes_from i k l) = scan_bytes st i l.
Proof.
  revert st i k. induction l as [|a l IH]; intros st i k Hi Hk Hf Hl; [by destruct k|].
  destruct k as [|k]; cbn [runes_from scan_bytes].
  - destruct (decode_rune a l) as [r n] eqn:Hd. cbn [scan_object]. destruct (decide (byte a < 128)%N) as [Ha|Ha].
    + rewrite decode_rune_low in Hd by done. injection Hd as <- <-. destruct (scan_rune st (byte a)) as [st'|] eqn:Hs; [|done].
      apply IH; [by eapply scan_rune_wf|cbn; lia|constructor|cbn; lia].
    + assert (128 ≤ byte a)%N as Ha' by lia. destruct (decode_rune_high _ _ _ _ Hd Ha') as (Hr & Hf' & Hl').
      rewrite (scan_rune_high st r (byte a)) by done. destruct (scan_rune st (byte a)) as [st'|] eqn:Hs; [|done].
      destruct (scan_rune_unescapes st (byte a) st' Ha' Hi Hs) as [He Hi']. by apply IH.
  - cbn [take] in Hf. apply Forall_cons in Hf as [Ha Hf]. rewrite scan_rune_skip by (done || apply Hk; lia).
    apply IH; [done|intros _; apply Hk; lia|done|cbn in Hl; lia].
Qed.

Lemma extractJSONObject_bytes s :
  extractJSONObject s = match scan_bytes scan_start 0 (chars s) with Some i => take_bytes (S i) s | None => "" end.
Proof. unfold extractJSONObject, runes. rewrite scan_runes_bytes; [done|done|lia|constructor|lia]. Qed.

Lemma scan_bytes_app st i l l' j : scan_bytes st i l = Some j → scan_bytes st i (l ++ l') = Some j.
Proof.
  revert st i. induction l as [|a l IH]; intros st i; [done|]. cbn. destruct (scan_rune st (byte a)); [|done]. apply IH.
Qed.
Lemma scan_bytes_range st i l j : scan_bytes st i l = Some j → i ≤ j < i + length l.
Proof.
  revert st i. induction l as [|a l IH]; intros st i; [done|]. cbn. destruct (scan_rune st (byte a)); [|intros [= <-]; lia].
  intros Hj%IH. lia.
Qed.

Lemma take_bytes_app n s t : n ≤ String.length s → take_bytes n (s +:+ t) = take_bytes n s.
Proof.
  revert n. induction s as [|a s IH]; intros [|n] Hn; [done|simpl in Hn; lia|done|].
  cbn in Hn |- *. f_equal. apply IH. lia.
Qed.

(** What follows a complete object does not matter. *)
Lemma extractJSONObject_app s t :
  extractJSONObject s ≠ "" → extractJSONObject (s +:+ t) = extractJSONObject s.
Proof.
  rewrite !extractJSONObject_bytes, chars_app. destruct (scan_bytes _ _ _) as [j|] eqn:Hs; [|done]. intros _.
  rewrite (scan_bytes_app _ _ _ _ _ Hs). apply take_bytes_app. apply scan_bytes_range in Hs.
  rewrite length_chars in Hs. lia.
Qed.

(** ** Trimming around printable bytes *)

Lemma printable_low a : printable a = true → (byte a < 128)%N.
Proof. unfold printable. rewrite andb_true_iff, !N.leb_le. lia. Qed.

Lemma drop_space_stops rev u b v : printable b = true → ∃ u', drop_space rev (u ++ b :: v) = u' ++ b :: v.
Proof.
  intros Hb. pose proof (printable_low b Hb) as Hlow.
  assert (∀ n u, length u ≤ n → ∃ u', drop_space rev (u ++ b :: v) = u' ++ b :: v) as Hn; [|by apply (Hn (length u))].
  clear u. induction n as [|n IH]; intros u Hu.
  { destruct u; [|simpl in Hu; lia]. exists []. by apply drop_space_printable. }
  destruct u as [|x u]; [exists []; by apply drop_space_printable|]. simpl in Hu.
  assert (∀ u1, length u1 ≤ n → ∃ u', drop_space rev (u1 ++ b :: v) = u' ++ b :: v) as IH' by done.
  change ((x :: u) ++ b :: v) with (x :: (u ++ b :: v)).
  destruct (ascii_space x) eqn:Ex.
  { cbn [drop_space]. rewrite Ex. apply IH. lia. }
  destruct u as [|y u].
  { cbn [app drop_space]. rewrite Ex.
    destruct (if rev then space2 b x else space2 x b) eqn:E2; [apply space2_rev_high in E2; lia|].
    destruct v as [|z v]; [by exists [x]|].
    destruct (if rev then space3 z b x else space3 x b z) eqn:E3; [apply space3_rev_high in E3; lia|]. by exists [x]. }
  cbn [app]. cbn [drop_space]. rewrite Ex.
  destruct (if rev then space2 y x else space2 x y) eqn:E2.
  { apply IH. simpl in Hu. lia. }
  destruct u as [|z u].
  { cbn [app]. destruct (if rev then space3 b y x else space3 x y b) eqn:E3; [apply space3_rev_high in E3; lia|].
    by exists [x; y]. }
  cbn [app]. destruct (if rev then space3 z y x else space3 x y z) eqn:E3.
  { apply IH. simpl in Hu. lia. }
  by exists (x :: y :: z :: u).
Qed.

Lemma TrimSpace_stops a s b t :
  printable a = true → printable b = true →
  ∃ t', TrimSpace (String a (s +:+ String b t)) = String a (s +:+ String b t').
Proof.
  intros Ha Hb. unfold TrimSpace. cbn [String.list_ascii_of_string]. rewrite drop_space_printable by done.
  rewrite list_ascii_app. cbn [String.list_ascii_of_string].
  replace (reverse (a :: String.list_ascii_of_string s ++ b :: String.list_ascii_of_string t))
    with (reverse (String.list_ascii_of_string t) ++ b :: reverse (a :: String.list_ascii_of_string s)).
  2: { rewrite !reverse_cons, !reverse_app, !reverse_cons, <- !app_assoc. done. }
  destruct (drop_space_stops true (reverse (String.list_ascii_of_string t)) b
    (reverse (a :: String.list_ascii_of_string s)) Hb) as [u ->].
  exists (String.string_of_list_ascii (reverse u)).
  rewrite reverse_app, reverse_cons, reverse_involutive, <- app_assoc. cbn [app String.string_of_list_ascii]. f_equal.
  induction s as [|c s IH]; [done|]. cbn. by rewrite IH.
Qed.

(** ** The marker *)

Lemma scan_bytes_split st i l j :
  scan_bytes st i l = Some j → ∃ l1 l2, l = l1 ++ close_brace :: l2 ∧ j = i + length l1.
Proof.
  revert st i. induction l as [|a l IH]; intros st i; [done|]. cbn [scan_bytes].
  destruct (scan_rune st (byte a)) as [st'|] eqn:Hs.
  - intros (l1 & l2 & -> & ->)%IH. exists (a :: l1), l2. split; [done|]. simpl. lia.
  - intros [= <-]. exists [], l. split; [|simpl; lia]. simpl. f_equal.
    assert (byte a = byte close_brace) as E.
    { revert Hs. unfold scan_rune. repeat case_match; try done. intros _. by apply N.eqb_eq. }
    unfold byte in E. rewrite <- (ascii_N_embedding a), E. done.
Qed.

Lemma take_bytes_full s n : take_bytes n s = s → String.length s ≤ n.
Proof. revert n. induction s as [|a s IH]; intros [|n] E; simpl; [lia|lia|done|]. injection E as E%IH. lia. Qed.

Definition text (l : list ascii) : string := String.string_of_list_ascii l.
Lemma text_app l l' : text (l ++ l') = text l +:+ text l'.
Proof. unfold text. induction l as [|a l IH]; [done|]. cbn. by rewrite IH. Qed.
Lemma text_chars s : text (chars s) = s.
Proof. apply String.string_of_list_ascii_of_string. Qed.

(** A complete object ends with its closing brace. *)
Lemma object_closed body :
  extractJSONObject (String open_brace body) = String open_brace body → ∃ s, body = s +:+ String close_brace "".
Proof.
  rewrite extractJSONObject_bytes. destruct (scan_bytes _ _ _) as [j|] eqn:Hs; [|done].
  intros Hf%take_bytes_full. pose proof (scan_bytes_split _ _ _ _ Hs) as (l1 & l2 & E & ->).
  assert (l2 = []) as ->.
  { rewrite <- length_chars, E, length_app in Hf. simpl in Hf. destruct l2; [done|simpl in Hf; lia]. }
  destruct l1 as [|a l1].
  { exfalso. change (open_brace :: chars body = [close_brace]) in E. by injection E as [=]. }
  change (open_brace :: chars body = a :: (l1 ++ [close_brace])) in E. injection E as <- E.
  exists (text l1). by rewrite <- (text_chars body), E, text_app.
Qed.

Lemma at_last_app pre s needle t : at_last s needle = Some t → at_last (pre +:+ s) needle = Some t.
Proof. intros Hs. induction pre as [|a pre IH]; [done|]. change (String a pre +:+ s) with (String a (pre +:+ s)).
  cbn [at_last]. by rewrite IH.
Qed.

Section marker.
Context `{!JsonUnmarshal value}.

(** a complete JSON object printed after the marker is what the worker reads,
    whatever surrounds it, provided no later text repeats the marker. *)
Theorem marker_roundtrip pre body suf payload :
  let raw := String open_brace body in
  extractJSONObject raw = raw → unmarshal_object raw = Some payload →
  at_last ("DRO_RESULT_JSON=" +:+ raw +:+ suf) marker = None →
  parseProviderMarker (pre +:+ marker +:+ "=" +:+ raw +:+ suf) = Some payload.
Proof.
  intros raw Hx Hu Hl. destruct (object_closed body Hx) as [s ->].
  unfold parseProviderMarker.
  rewrite (at_last_app pre _ _ (marker +:+ "=" +:+ raw +:+ suf)).
  2: { change (marker +:+ "=" +:+ raw +:+ suf) with (String "A" ("DRO_RESULT_JSON=" +:+ raw +:+ suf)).
       cbn [at_last]. by rewrite Hl. }
  change (skip (String.length marker) (marker +:+ "=" +:+ raw +:+ suf)) with (String "=" (raw +:+ suf)).
  assert (∀ t, raw +:+ t = String open_brace s +:+ String close_brace t) as Hraw.
  { intros t. unfold raw. change (String open_brace (s +:+ String close_brace "")) with (String open_brace s +:+ String close_brace "").
    by rewrite append_assoc_str. }
  rewrite Hraw. destruct (TrimSpace_stops "=" (String open_brace s) close_brace suf) as [t1 ->]; [done|done|].
  cbv zeta. change (HasPrefix (String "=" (String open_brace s +:+ String close_brace t1)) "=") with true.
  cbn [orb]. change (skip 1 (String "=" (String open_brace s +:+ String close_brace t1))) with (String open_brace (s +:+ String close_brace t1)).
  destruct (TrimSpace_stops open_brace s close_brace t1) as [t2 ->]; [done|done|].
  cbn [at_byte]. rewrite decide_True by done.
  change (String open_brace (s +:+ String close_brace t2)) with (String open_brace s +:+ String close_brace t2).
  rewrite <- Hraw, extractJSONObject_app, Hx by (by rewrite Hx).
  by rewrite bool_decide_eq_false_2, Hu by done.
Qed.
End marker.

(** ** Tool evidence *)

(** An event that counts toward the evidence of a run. *)
Definition evidence_event (snapshot : RunSnapshot) (e : ToolEvent) : Prop :=
  blank (te_CallID e) = false ∧ (requires_command snapshot = true → isCommandExecutionName (te_Name e) = true).

Section evidence.
Context `{!MapRange}.

Lemma note_events_phases rc es m k ph :
  ph = "before" ∨ ph = "after" →
  ph ∈ default ∅ (foldl (note_event rc) m es !! k) ↔
  ph ∈ default ∅ (m !! k) ∨
  ∃ e, e ∈ es ∧ te_CallID e = k ∧ phase_of e = ph ∧ blank (te_CallID e) = false ∧
       (rc = true → isCommandExecutionName (te_Name e) = true).
Proof.
  intros Hph. revert m. induction es as [|e es IH]; intros m; cbn [foldl].
  { split; [by left|]. intros [?|(e & He & _)]; [done|]. by apply elem_of_nil in He. }
  rewrite IH. clear IH. setoid_rewrite elem_of_cons.
  assert (ph ∈ default ∅ (note_event rc m e !! k) ↔
    ph ∈ default ∅ (m !! k) ∨ te_CallID e = k ∧ phase_of e = ph ∧ blank (te_CallID e) = false ∧
       (rc = true → isCommandExecutionName (te_Name e) = true)) as ->; [|naive_solver].
  unfold note_event. destruct (blank (te_CallID e)) eqn:Hb; cbn [orb]; [naive_solver|].
  destruct (rc && negb (isCommandExecutionName (te_Name e))) eqn:Hrc.
  { apply andb_true_iff in Hrc as [-> Hn%negb_true_iff]. rewrite Hn. naive_solver. }
  assert (rc = true → isCommandExecutionName (te_Name e) = true) as Hc.
  { intros ->. by apply negb_false_iff in Hrc. }
  cbv zeta. destruct (decide (te_CallID e = k)) as [->|Hne].
  - rewrite lookup_insert_eq. cbn [default]. destruct (contains _ _) eqn:Hp.
    + set_solver.
    + split; [by left|]. intros [?|(_ & <- & _)]; [done|].
      exfalso. apply not_true_iff_false in Hp. apply Hp. apply contains_spec. destruct Hph as [-> | ->]; set_solver.
  - rewrite lookup_insert_ne by done. naive_solver.
Qed.

(** A run shows tool evidence exactly when one call id has both a "before" and
    an "after" event; a codex run, or one whose output mentions a command
    execution, must mention it and is judged by command executions only. *)
Theorem tool_evidence_exact snapshot :
  hasProviderToolEvidence snapshot = true ↔
  (requires_command snapshot = true →
     Contains (ToLower (ReplaceAll (rs_Output snapshot) "_" "")) "commandexecution" = true) ∧
  ∃ b a, b ∈ rs_ToolEvents snapshot ∧ a ∈ rs_ToolEvents snapshot ∧ te_CallID b = te_CallID a ∧
    phase_of b = "before" ∧ phase_of a = "after" ∧ evidence_event snapshot b ∧ evidence_event snapshot a.
Proof.
  unfold hasProviderToolEvidence. cbv zeta. set (rc := requires_command snapshot).
  set (mentioned := Contains _ _).
  assert (existsb (λ phases : gset string, bool_decide ("before" ∈ phases) && bool_decide ("after" ∈ phases))
    (range_values (foldl (note_event rc) ∅ (rs_ToolEvents snapshot))) = true ↔
    ∃ k, "before" ∈ default ∅ (foldl (note_event rc) ∅ (rs_ToolEvents snapshot) !! k) ∧
         "after" ∈ default ∅ (foldl (note_event rc) ∅ (rs_ToolEvents snapshot) !! k)) as Hex.
  { rewrite existsb_exists. setoid_rewrite <- list_elem_of_In. setoid_rewrite elem_of_range_values.
    setoid_rewrite andb_true_iff. setoid_rewrite bool_decide_eq_true. split.
    - intros (phases & [k Hk] & Hph). exists k. by rewrite Hk.
    - intros (k & Hb & Ha). destruct (_ !! k) as [phases|] eqn:E; [|by apply not_elem_of_empty in Hb].
      exists phases. split; [by exists k|done]. }
  setoid_rewrite note_events_phases in Hex; [|by left|by right]. setoid_rewrite lookup_empty in Hex.
  assert ((∃ k, (∃ e, e ∈ rs_ToolEvents snapshot ∧ te_CallID e = k ∧ phase_of e = "before" ∧ evidence_event snapshot e) ∧
                (∃ e, e ∈ rs_ToolEvents snapshot ∧ te_CallID e = k ∧ phase_of e = "after" ∧ evidence_event snapshot e)) ↔
    ∃ b a, b ∈ rs_ToolEvents snapshot ∧ a ∈ rs_ToolEvents snapshot ∧ te_CallID b = te_CallID a ∧
      phase_of b = "before" ∧ phase_of a = "after" ∧ evidence_event snapshot b ∧ evidence_event snapshot a) as Hpair.
  { split.
    - intros (k & (b & Hb1 & Hb2 & Hb3 & Hb4) & (a & Ha1 & Ha2 & Ha3 & Ha4)). exists b, a. by rewrite Hb2, Ha2.
    - intros (b & a & Hb1 & Ha1 & Hk & Hb3 & Ha3 & Hb4 & Ha4). exists (te_CallID a). split; [by exists b|by exists a]. }
  rewrite <- Hpair. destruct (negb mentioned && rc) eqn:Hm.
  - apply andb_true_iff in Hm as [Hm%negb_true_iff ->]. rewrite Hm. naive_solver.
  - rewrite Hex. split.
    + intros (k & [Hb|Hb] & [Ha|Ha]); try (by apply not_elem_of_empty in Hb); try (by apply not_elem_of_empty in Ha).
      split; [|by exists k]. intros ->. by apply andb_false_iff in Hm as [Hm%negb_false_iff|].
    + intros (_ & k & Hb & Ha). exists k. split; by right.
Qed.
End evidence.

(** ** Classification *)

(** The dynamic types [json.Unmarshal] stores into [any]. *)
Fixpoint json_value (v : value) : bool :=
  match v with
  | VNil | VBool _ | VFloat64 _ | VString _ => true
  | VAnys l => (fix each (l : list value) := match l with [] => true | x :: l' => json_value x && each l' end) l
  | VObject o =>
      (fix each (o : list (string * value)) := match o with [] => true | (_, x) :: o' => json_value x && each o' end) o
  | _ => false
  end.

Lemma json_value_assoc o k v : json_value (VObject o) = true → assoc k o = Some v → json_value v = true.
Proof.
  induction o as [|[k' x] o IH]; [done|]. cbn. intros [Hx Ho]%andb_true_iff.
  destruct (decide (k = k')); [by intros [= <-]|]. by apply IH.
Qed.
Lemma assoc_list_to_map o k : (list_to_map o : gmap string value) !! k = assoc k o.
Proof.
  induction o as [|[k' x] o IH]; [apply lookup_empty|]. cbn. destruct (decide (k = k')) as [->|Hne].
  - by rewrite lookup_insert_eq.
  - by rewrite lookup_insert_ne.
Qed.

Definition evidenced (ids : list string) : Prop := ids ≠ [] ∧ Forall (λ id, blank id = false) ids.

Lemma strings_of_not_blank l ids : strings_of l = Some ids → Forall (λ id, blank id = false) ids.
Proof.
  revert ids. induction l as [|v l IH]; intros ids; cbn; [intros [= <-]; constructor|].
  destruct v; try done. destruct (blank s) eqn:Hs; [done|].
  destruct (strings_of l) as [ids'|]; [|done]. intros [= <-]. constructor; auto.
Qed.
Lemma providerStringSlice_json v ids :
  providerStringSlice (Some v) = Some ids → json_value v = true → Forall (λ id, blank id = false) ids.
Proof. destruct v; try done. intros Hs _. by eapply strings_of_not_blank. Qed.

Lemma append_evidence_spec additions seen result :
  Forall (λ id, blank id = false) result → Forall (λ id, blank id = false) (append_evidence seen result additions) ∧
  (result ≠ [] → append_evidence seen result additions ≠ []) ∧
  ((∃ v, v ∈ additions ∧ blank v = false) → seen ⊆ result → append_evidence seen result additions ≠ []).
Proof.
  revert seen result. induction additions as [|v additions IH]; intros seen result Hr; cbn [append_evidence].
  { split_and!; [done|done|]. intros (v & Hv & _). by apply elem_of_nil in Hv. }
  cbv zeta. destruct ((TrimSpace v ≟ "") || contains seen (TrimSpace v)) eqn:E.
  - destruct (IH seen result Hr) as (H1' & H2' & H3'). split_and!; [done|done|].
    intros (w & Hw & Hb) Hs. apply elem_of_cons in Hw as [->|Hw]; [|by apply H3'; [exists w|]].
    apply orb_true_iff in E as [E|E]; [unfold blank in Hb; by rewrite E in Hb|].
    apply contains_spec, Hs in E. apply H2'. by intros ->; apply elem_of_nil in E.
  - apply orb_false_iff in E as [E _]. apply bool_decide_eq_false in E.
    destruct (IH (TrimSpace v :: seen) (result ++ [TrimSpace v])) as (H1' & H2' & _).
    { apply Forall_app. split; [done|]. constructor; [by apply TrimSpace_not_blank|done]. }
    split_and!; [done| |]; intros; apply H2'; by destruct result.
Qed.

Lemma appendProviderEvidence_evidenced ids v :
  Forall (λ id, blank id = false) ids → blank v = false → evidenced (appendProviderEvidence ids [v]).
Proof.
  intros Hi Hv. unfold appendProviderEvidence.
  destruct (append_evidence_spec [v] (filter (λ v, blank v = false) ids) ids Hi) as (H1' & _ & H3').
  split; [|done]. apply H3'; [exists v; split; [by apply list_elem_of_singleton|done]|].
  intros x Hx. by apply list_elem_of_filter in Hx as [_ ?].
Qed.

Section classify.
Context `{!JsonUnmarshal value, !MapRange}.
(** encoding/json decodes into the types above. *)
Context (json_types : ∀ s v, json_unmarshal (T := value) s = Ok v → json_value v = true).

Lemma unmarshal_object_json raw o : unmarshal_object raw = Some o → json_value (VObject o) = true.
Proof.
  unfold unmarshal_object. destruct (json_unmarshal raw) as [v|] eqn:E; [|done]. apply json_types in E.
  destruct v; try done; by intros [= <-].
Qed.

Lemma parseProviderMarker_json t o : parseProviderMarker t = Some o → json_value (VObject o) = true.
Proof.
  unfold parseProviderMarker. destruct (at_last _ _); [|done]. cbv zeta. destruct (at_byte _ _); [|done].
  case_bool_decide; [done|]. destruct (unmarshal_object (extractJSONObject _)) as [o'|] eqn:E.
  - intros [= <-]. by eapply unmarshal_object_json.
  - apply unmarshal_object_json.
Qed.

Lemma put_text_ne key text fields k : k ≠ key → put_text key text fields !! k = fields !! k.
Proof. intros Hk. unfold put_text. case_bool_decide; [done|]. by rewrite lookup_insert_ne. Qed.

Lemma outcome_fields_evidence payload candidate :
  json_value (VObject payload) = true →
  Forall (λ id, blank id = false) (providerStringSliceField (outcome_fields payload candidate) "provider_evidence_ids").
Proof.
  intros Hj. unfold providerStringSliceField, outcome_fields. cbv zeta. rewrite lookup_insert_ne by done.
  destruct (providerStringSlice (assoc "evidence_ids" payload)) as [ev|] eqn:Hev.
  - rewrite lookup_insert_eq. cbn. destruct (assoc "evidence_ids" payload) as [v|] eqn:Ha; [|done].
    eapply providerStringSlice_json; [exact Hev|]. by eapply json_value_assoc.
  - rewrite !put_text_ne by done. destruct (assoc "fields" payload) as [v|] eqn:Hf; [|constructor].
    pose proof (json_value_assoc _ _ _ Hj Hf) as Hv. destruct v; try constructor.
    rewrite assoc_list_to_map. destruct (assoc "provider_evidence_ids" o) as [v|] eqn:Ha; [|constructor].
    pose proof (json_value_assoc _ _ _ Hv Ha) as Hv'.
    destruct (providerStringSlice (Some v)) as [ids|] eqn:Hs; [|constructor]. by eapply providerStringSlice_json.
Qed.

Lemma providerOutcome_evidence output :
  Forall (λ id, blank id = false) (providerStringSliceField (providerOutcome output).2 "provider_evidence_ids").
Proof.
  unfold providerOutcome. induction (reverse (candidates output)) as [|t ts IH]; cbn [last_outcome].
  { constructor. }
  unfold candidate_outcome. destruct (parseProviderMarker t) as [payload|] eqn:Hp; [|done]. cbv zeta.
  case_bool_decide; [done|]. apply outcome_fields_evidence. by eapply parseProviderMarker_json.
Qed.

Lemma run_evidence runID suffix : blank ("provider-run:" +:+ runID +:+ suffix) = false.
Proof. apply (colon_not_blank "provider-run"). Qed.

(** The statuses of an attempt that is over. *)
Definition over (st : AttemptStatus) : bool :=
  match st with AttemptPassed | AttemptFailed | AttemptTimedOut | AttemptCancelled => true | _ => false end.

(** every completion the worker derives from a run carries evidence, none of
    it blank, names an event that ends the attempt, and gives a reason unless the
    attempt passed: the reducer never refuses it for missing evidence or an
    unknown event. *)
Theorem classified_evidenced runID snapshot c :
  classify runID snapshot = Some c →
  evidenced (res_EvidenceIDs (co_Result c)) ∧
  ∃ st, finishStatus (co_Event c) = Ok st ∧ over st = true ∧ (st ≠ AttemptPassed → is_Some (co_Failure c)).
Proof.
  pose proof (providerOutcome_evidence (rs_Output snapshot)) as Hev.
  unfold classify. cbv zeta. destruct (providerOutcome (rs_Output snapshot)) as [explicit fields]. cbn [snd] in Hev.
  set (evidence := providerStringSliceField fields _) in *.
  assert (∀ suffix, evidenced (appendProviderEvidence evidence ["provider-run:" +:+ runID +:+ suffix])) as Happ.
  { intros suffix. apply appendProviderEvidence_evidenced; [done|apply run_evidence]. }
  assert (∀ suffix, evidenced ["provider-run:" +:+ runID +:+ suffix]) as Hone.
  { intros suffix. split; [done|]. constructor; [apply run_evidence|done]. }
  destruct (contains ["completed"; _; _; _] _).
  { destruct ((explicit ≠? "") && _).
    { intros [= <-]. split; [apply Hone|]. exists AttemptFailed. by repeat split. }
    set (branch := if explicit ≟ "bug" then _ else _).
    assert (∃ event result failure, branch = (event, result, failure) ∧ res_EvidenceIDs result = evidence ∧
      ∃ st, finishStatus event = Ok st ∧ over st = true ∧ (st ≠ AttemptPassed → is_Some failure)) as
      (event & result & failure & -> & -> & Hst).
    { unfold branch. case_bool_decide; [|case_bool_decide]; do 3 eexists; (split; [done|]); (split; [done|]).
      - exists AttemptFailed. by repeat split.
      - exists AttemptFailed. by repeat split.
      - exists AttemptPassed. by repeat split. }
    intros [= <-]. split; [|done]. cbn [co_Result with_evidence res_EvidenceIDs provider_result].
    case_bool_decide as E; [apply Hone|]. split; [done|].
    by destruct (append_evidence_spec [rs_LastEventID snapshot] (filter (λ v, blank v = false) evidence) evidence Hev). }
  destruct (contains ["failed"; _; _] _).
  { case_bool_decide; intros [= <-]; (split; [apply Happ|]); exists AttemptFailed; by repeat split. }
  destruct (contains ["timed_out"; _; _] _).
  { intros [= <-]. split; [apply Happ|]. exists AttemptTimedOut. by repeat split. }
  destruct (contains ["cancelled"; _] _); [|done].
  intros [= <-]. split; [apply Hone|]. exists AttemptCancelled. by repeat split.
Qed.

(** A run its provider reports as completed. *)
Definition reported_completed (snapshot : RunSnapshot) : bool :=
  contains ["completed"; "passed"; "success"; "succeeded"] (ToLower (TrimSpace (rs_Status snapshot))).

(** a completed run passes its node exactly when its output names no known
    outcome, or names one other than a bug or a failure and shows tool evidence;
    it reports a bug only on an explicit bug outcome with tool evidence. *)
Theorem completed_run_outcome runID snapshot c :
  reported_completed snapshot = true → classify runID snapshot = Some c →
  let outcome := (providerOutcome (rs_Output snapshot)).1 in
  (co_Event c = "success" ↔
     outcome = "" ∨ outcome ≠ "bug" ∧ outcome ≠ "failure" ∧ hasProviderToolEvidence snapshot = true) ∧
  (co_Event c = "bug" ↔ outcome = "bug" ∧ hasProviderToolEvidence snapshot = true) ∧
  (co_Failure c = None ↔
     outcome ≠ "" ∧ outcome ≠ "bug" ∧ outcome ≠ "failure" ∧ hasProviderToolEvidence snapshot = true).
Proof.
  unfold reported_completed, classify. cbv zeta. intros ->.
  destruct (providerOutcome (rs_Output snapshot)) as [explicit fields]. cbn [fst].
  destruct (hasProviderToolEvidence snapshot) eqn:He; cbn [negb].
  - rewrite andb_false_r. repeat case_bool_decide; subst; intros [= <-]; cbn; naive_solver.
  - rewrite andb_true_r. destruct (decide (explicit = "")) as [->|Hne].
    + cbn. repeat case_bool_decide; intros [= <-]; cbn; naive_solver.
    + rewrite bool_decide_eq_false_2 by done. cbn [negb]. intros [= <-]. cbn. naive_solver.
Qed.
End classify.

(** ** Sample runs *)

(** A decoder that knows a few objects. *)
Definition toy_value : JsonUnmarshal value := λ s,
  if s ≟ "{pass}" then Ok (VObject [("outcome", VString "pass"); ("evidence_ids", VAnys [VString "log"])])
  else if s ≟ "{bug}" then Ok (VObject [("outcome", VString "bug")])
  else if s ≟ "{timeout}" then Ok (VObject [("outcome", VString "timeout")])
  else Err (Errorf "invalid character" []).
#[export] Existing Instance toy_value.

Lemma toy_value_types s v : json_unmarshal (T := value) s = Ok v → json_value v = true.
Proof. unfold json_unmarshal, toy_value. repeat case_bool_decide; try done; by intros [= <-]. Qed.

Definition tool_event (call phase : string) : ToolEvent :=
  {| te_CallID := call; te_Name := "shell"; te_Phase := phase; te_Payload := ""; te_Sequence := 1 |}.
Definition sample_snapshot (status output : string) (events : list ToolEvent) : RunSnapshot :=
  {| rs_Status := status; rs_LastEventID := "e9"; rs_ExecutorPath := "/opt/agent"; rs_OutputSHA256 := "sha";
     rs_Output := output; rs_Error := ""; rs_ToolEvents := events;
     rs_Usage := {| us_InputTokens := 3; us_OutputTokens := 4; us_CacheReadTokens := 0; us_CacheWriteTokens := 0;
                    us_DurationMS := 0; us_EstimatedCost := S754_zero false |} |}.
Definition passing_run : RunSnapshot :=
  sample_snapshot "completed" "done ADRO_RESULT_JSON={pass} bye" [tool_event "c1" "before"; tool_event "c1" " After "].
Definition completion_of (runID : string) (snapshot : RunSnapshot) : completion :=
  default {| co_Event := ""; co_Result := sample_result "" ∅; co_Failure := None; co_Artifacts := [] |}
    (classify runID snapshot).

Lemma marker_roundtrip_witness :
  extractJSONObject "{pass}" = "{pass}" ∧
  parseProviderMarker "done ADRO_RESULT_JSON={pass} bye"
  = Some [("outcome", VString "pass"); ("evidence_ids", VAnys [VString "log"])].
Proof. split; [reflexivity|]. apply (marker_roundtrip "done " "pass}" " bye"); reflexivity. Defined.

Lemma classified_evidenced_witness :
  classify "r1" passing_run = Some (completion_of "r1" passing_run) ∧
  evidenced (res_EvidenceIDs (co_Result (completion_of "r1" passing_run))).
Proof.
  split; [vm_compute; reflexivity|].
  apply (classified_evidenced toy_value_types "r1" passing_run). vm_compute. reflexivity.
Defined.

Lemma completed_run_outcome_witness :
  (providerOutcome (rs_Output passing_run)).1 = "pass" ∧ hasProviderToolEvidence passing_run = true ∧
  co_Event (completion_of "r1" passing_run) = "success".
Proof.
  split; [vm_compute; reflexivity|]. split; [vm_compute; reflexivity|].
  apply (completed_run_outcome "r1" passing_run); [vm_compute; reflexivity..|].
  right. split_and!; [vm_compute; discriminate|vm_compute; discriminate|vm_compute; reflexivity].
Defined.

(** A run that completed without the marker passes its node, next to the failure
    reason that says it must be retried. *)
Example missing_result_passes :
  let c := completion_of "r1" (sample_snapshot "completed" "all done" []) in
  co_Event c = "success" ∧ res_Outcome (co_Result c) = "pass" ∧ res_EvidenceIDs (co_Result c) = ["e9"] ∧
  fr_Code <$> co_Failure c = Some "provider_result_missing".
Proof. vm_compute. done. Qed.

(** A completed run whose marker reports a timeout passes its node as well. *)
Example reported_timeout_passes :
  let c := completion_of "r1" (sample_snapshot "completed" "ADRO_RESULT_JSON={timeout}"
             [tool_event "c1" "before"; tool_event "c1" "after"]) in
  co_Event c = "success" ∧ co_Failure c = None ∧
  res_Fields (co_Result c) !! "provider_outcome" = Some (VString "timeout").
Proof. vm_compute. done. Qed.

(** The usage of a run is reported in Go integers, which the log, like the snapshot
    file, gives back as float64.  A predicate comes from JSON: [field_eq] on the
    token count is false of the completion and true of the completion replayed from
    its event, so that a replay can follow another edge than the run did. *)
Definition seven_tokens : Predicate := MkPredicate "field_eq" "tokens" "" (VFloat64 (float64_of_Z 7)) [].
Example usage_replays_as_float :
  let fields := res_Fields (co_Result (completion_of "r1" passing_run)) in
  fields !! "tokens" = Some (VInt KInt64 7) ∧
  EvaluatePredicate seven_tokens fields = Ok false ∧
  EvaluatePredicate seven_tokens (<["tokens" := VFloat64 (float64_of_Z 7)]> fields) = Ok true.
Proof. vm_compute. done. Qed.
