(* ===== verification/Repository.v ===== *)
(** * Repository: the durable store of plans, projections and event chains

    Models the [MemoryRepository] of internal/orchestration/repository.go: its
    tables, the snapshot file behind them ([persistLocked], [load], [Backup],
    [Restore]), the definition store, plan creation, the append-only event chains
    and the combined commit of an event and a projection.

    The mutex serialises the operations, so each is one function from the store
    before to the store after.  What the operating system does to the snapshot
    file is an argument [io] of every operation that writes it.  The file is
    represented by the snapshot it was encoded from; who reads it gets what decoding
    that text gives, which differs from it in [any] fields and raw payloads
    ([read_tables]). *)
From stdpp Require Import base strings gmap list pretty.
From Stdlib Require Import ZArith Lia.
From S2P Require Import Prelude GoLib GoStrings Trace GoValue GoJson ContextModel OrchModel GraphSearch Validate Definitions ProjectionData Projection Repair Transition Scheduler Events.

(** ** Tables, store and file *)

Record OutboxRecord := {
  ob_ID : string; ob_PlanID : string; ob_WorkspaceID : string; ob_Kind : string; ob_IdempotencyKey : string;
  ob_TraceParent : string; ob_TraceState : string; ob_Payload : gmap string value; ob_Status : string;
  ob_Owner : string; ob_LeaseExpiresAt : Time; ob_Attempts : Z; ob_MaxAttempts : Z; ob_LastError : string;
  ob_CreatedAt : Time; ob_UpdatedAt : Time }.

(** The seven maps of a repository and of a snapshot. *)
Record Tables := {
  t_agents : gmap string AgentDefinition; t_squads : gmap string SquadDefinition;
  t_plans : gmap string RequirementExecutionPlan; t_projections : gmap string PlanProjection;
  t_keys : gmap string string; t_events : gmap string (list Event); t_outbox : gmap string OutboxRecord }.

Record persistedRepository := { ps_Version : Z; ps_Revision : Z; ps_Tables : Tables }.

Record MemoryRepository := { r_statePath : string; r_revision : Z; r_dirty : bool; r_tables : Tables }.

Definition no_tables : Tables :=
  {| t_agents := ∅; t_squads := ∅; t_plans := ∅; t_projections := ∅; t_keys := ∅; t_events := ∅; t_outbox := ∅ |}.
Definition newMemoryRepository (path : string) : MemoryRepository :=
  {| r_statePath := path; r_revision := 0; r_dirty := false; r_tables := no_tables |}.

(** The snapshot file: absent, undecodable, or the encoding of a snapshot. *)
Definition File := option (result persistedRepository).

(** A store and its file. *)
Record Store := { s_repo : MemoryRepository; s_file : File }.

Definition set_agents (m : gmap string AgentDefinition) (t : Tables) : Tables :=
  {| t_agents := m; t_squads := t_squads t; t_plans := t_plans t; t_projections := t_projections t;
     t_keys := t_keys t; t_events := t_events t; t_outbox := t_outbox t |}.
Definition set_squads (m : gmap string SquadDefinition) (t : Tables) : Tables :=
  {| t_agents := t_agents t; t_squads := m; t_plans := t_plans t; t_projections := t_projections t;
     t_keys := t_keys t; t_events := t_events t; t_outbox := t_outbox t |}.
Definition set_plans (m : gmap string RequirementExecutionPlan) (t : Tables) : Tables :=
  {| t_agents := t_agents t; t_squads := t_squads t; t_plans := m; t_projections := t_projections t;
     t_keys := t_keys t; t_events := t_events t; t_outbox := t_outbox t |}.
Definition set_projections (m : gmap string PlanProjection) (t : Tables) : Tables :=
  {| t_agents := t_agents t; t_squads := t_squads t; t_plans := t_plans t; t_projections := m;
     t_keys := t_keys t; t_events := t_events t; t_outbox := t_outbox t |}.
Definition set_keys (m : gmap string string) (t : Tables) : Tables :=
  {| t_agents := t_agents t; t_squads := t_squads t; t_plans := t_plans t; t_projections := t_projections t;
     t_keys := m; t_events := t_events t; t_outbox := t_outbox t |}.
Definition set_events (m : gmap string (list Event)) (t : Tables) : Tables :=
  {| t_agents := t_agents t; t_squads := t_squads t; t_plans := t_plans t; t_projections := t_projections t;
     t_keys := t_keys t; t_events := m; t_outbox := t_outbox t |}.
Definition set_outbox (m : gmap string OutboxRecord) (t : Tables) : Tables :=
  {| t_agents := t_agents t; t_squads := t_squads t; t_plans := t_plans t; t_projections := t_projections t;
     t_keys := t_keys t; t_events := t_events t; t_outbox := m |}.

Definition with_tables (t : Tables) (r : MemoryRepository) : MemoryRepository :=
  {| r_statePath := r_statePath r; r_revision := r_revision r; r_dirty := r_dirty r; r_tables := t |}.
(** The tables changed: [r.dirty = true]. *)
Definition dirty_tables (t : Tables) (r : MemoryRepository) : MemoryRepository :=
  {| r_statePath := r_statePath r; r_revision := r_revision r; r_dirty := true; r_tables := t |}.
(** [r.dirty, r.revision = oldDirty, oldRevision]. *)
Definition with_flags (old : MemoryRepository) (r : MemoryRepository) : MemoryRepository :=
  {| r_statePath := r_statePath r; r_revision := r_revision old; r_dirty := r_dirty old; r_tables := r_tables r |}.
Definition with_repo (r : MemoryRepository) (s : Store) : Store := {| s_repo := r; s_file := s_file s |}.

(** [if existed { m[k] = old } else { delete(m, k) }]. *)
Definition restore {A} (k : string) (old : option A) (m : gmap string A) : gmap string A :=
  match old with Some v => <[k:=v]> m | None => delete k m end.

Definition key3 (ws id : string) (rev : Z) : string := ws +:+ ":" +:+ id +:+ ":" +:+ pretty rev.

(** ** Values read back from their JSON

    Decoding gives a struct back field by field, with two exceptions.  A field of
    type [any] holds the types encoding/json stores there, whatever was encoded (a Go
    integer comes back a float64, a [[]string] a [[]any]).  A raw message is copied in
    the layout of the encoder, with the characters <, > and & escaped.  How is the
    encoder's business: the three functions below are parameters of the store. *)
Class JsonClone := {
  json_any : value → value;
  (** a raw message through [json.Marshal], and through [json.MarshalIndent] *)
  json_raw : string → string;
  json_raw_file : string → string }.

(** What a value of a type is after its encoding has been decoded. *)
Class Decoded (T : Type) := decoded : T → T.

Section decoded.
Context `{!JsonClone}.

#[global] Instance decoded_value : Decoded value := json_any.
#[global] Instance decoded_string : Decoded string := id.
#[global] Instance decoded_map {A} `{!Decoded A} : Decoded (gmap string A) := fmap decoded.
#[global] Instance decoded_list {A} `{!Decoded A} : Decoded (list A) := fmap decoded.

#[global] Instance decoded_result : Decoded StructuredResult := λ r,
  {| res_Outcome := res_Outcome r; res_ReasonCode := res_ReasonCode r; res_Fields := decoded (res_Fields r);
     res_Summary := res_Summary r; res_EvidenceIDs := res_EvidenceIDs r |}.
#[global] Instance decoded_attempt : Decoded NodeAttempt := λ a,
  {| na_ID := na_ID a; na_PlanID := na_PlanID a; na_NodeID := na_NodeID a; na_AttemptNo := na_AttemptNo a;
     na_RunID := na_RunID a; na_SessionID := na_SessionID a; na_WorkDir := na_WorkDir a; na_Lease := na_Lease a;
     na_IdempotencyKey := na_IdempotencyKey a; na_InputManifest := na_InputManifest a;
     na_OutputArtifacts := na_OutputArtifacts a; na_Result := decoded (na_Result a); na_RepairState := na_RepairState a;
     na_RepairPlanID := na_RepairPlanID a; na_Status := na_Status a; na_FailureReason := na_FailureReason a;
     na_ParentAttemptID := na_ParentAttemptID a; na_RetryOf := na_RetryOf a; na_ChildPlanID := na_ChildPlanID a;
     na_StartedAt := na_StartedAt a; na_FinishedAt := na_FinishedAt a |}.
#[global] Instance decoded_node : Decoded NodeProjection := id.
#[global] Instance decoded_decision : Decoded FeedbackDecision := λ d,
  {| fd_ID := fd_ID d; fd_PlanID := fd_PlanID d; fd_SourceAttempt := fd_SourceAttempt d; fd_SourceNode := fd_SourceNode d;
     fd_TargetNode := fd_TargetNode d; fd_EdgeID := fd_EdgeID d; fd_StructuredResult := decoded (fd_StructuredResult d);
     fd_EvidenceIDs := fd_EvidenceIDs d; fd_Reason := fd_Reason d; fd_LoopCount := fd_LoopCount d;
     fd_IdempotencyKey := fd_IdempotencyKey d |}.
#[global] Instance decoded_projection : Decoded PlanProjection := λ p,
  {| pp_PlanID := pp_PlanID p; pp_Revision := pp_Revision p; pp_Status := pp_Status p;
     pp_TerminalOutcome := pp_TerminalOutcome p; pp_Nodes := pp_Nodes p; pp_Attempts := decoded (pp_Attempts p);
     pp_Traversals := pp_Traversals p; pp_Decisions := decoded (pp_Decisions p); pp_RepairPlans := pp_RepairPlans p;
     pp_Idempotency := pp_Idempotency p; pp_TokenUsage := pp_TokenUsage p; pp_ToolCalls := pp_ToolCalls p;
     pp_CostCents := pp_CostCents p |}.

(** A predicate compares a field with a value of type [any]. *)
#[global] Instance decoded_predicate : Decoded Predicate :=
  fix go (p : Predicate) : Predicate :=
    let '(MkPredicate kind field op v children) := p in MkPredicate kind field op (json_any v) (go <$> children).
#[global] Instance decoded_workflow_node : Decoded WorkflowNode := λ n,
  {| wn_ID := wn_ID n; wn_Kind := wn_Kind n; wn_AgentRef := wn_AgentRef n; wn_SquadRef := wn_SquadRef n;
     wn_InputContract := wn_InputContract n; wn_OutputContract := wn_OutputContract n;
     wn_ContextPolicy := wn_ContextPolicy n; wn_ToolPolicy := wn_ToolPolicy n; wn_RetryPolicy := wn_RetryPolicy n;
     wn_Timeout := wn_Timeout n; wn_Budget := wn_Budget n; wn_JoinPolicy := wn_JoinPolicy n;
     wn_JoinQuorum := wn_JoinQuorum n; wn_JoinFailurePolicy := wn_JoinFailurePolicy n;
     wn_GatePolicy := {| gp_Predicate := decoded (gp_Predicate (wn_GatePolicy n));
                         gp_RequiredEvidence := gp_RequiredEvidence (wn_GatePolicy n);
                         gp_FailureCode := gp_FailureCode (wn_GatePolicy n) |};
     wn_MergePolicy := wn_MergePolicy n; wn_RepairPolicy := wn_RepairPolicy n |}.
#[global] Instance decoded_workflow_edge : Decoded WorkflowEdge := λ e,
  {| we_ID := we_ID e; we_From := we_From e; we_To := we_To e; we_On := we_On e; we_Predicate := decoded (we_Predicate e);
     we_Priority := we_Priority e; we_MaxTraversals := we_MaxTraversals e; we_RequiredEvidence := we_RequiredEvidence e;
     we_LoopGroup := we_LoopGroup e; we_FanOut := we_FanOut e |}.
#[global] Instance decoded_graph : Decoded WorkflowGraph := λ g,
  {| g_ID := g_ID g; g_Version := g_Version g; g_EntryNodeIDs := g_EntryNodeIDs g; g_ExitNodeIDs := g_ExitNodeIDs g;
     g_Nodes := decoded (g_Nodes g); g_Edges := decoded (g_Edges g); g_ValidationDigest := g_ValidationDigest g |}.
#[global] Instance decoded_plan : Decoded RequirementExecutionPlan := λ p,
  {| pl_ID := pl_ID p; pl_RequirementID := pl_RequirementID p; pl_WorkspaceID := pl_WorkspaceID p;
     pl_GraphSnapshot := decoded (pl_GraphSnapshot p); pl_SelectedRef := pl_SelectedRef p;
     pl_PolicySnapshot := pl_PolicySnapshot p; pl_ContextRoot := pl_ContextRoot p; pl_PlanHash := pl_PlanHash p;
     pl_Status := pl_Status p; pl_Revision := pl_Revision p; pl_IdempotencyKey := pl_IdempotencyKey p;
     pl_Deadline := pl_Deadline p; pl_CreatedAt := pl_CreatedAt p; pl_ParentPlanID := pl_ParentPlanID p;
     pl_ParentAttemptID := pl_ParentAttemptID p |}.
#[global] Instance decoded_agent : Decoded AgentDefinition := λ a,
  {| ad_ID := ad_ID a; ad_WorkspaceID := ad_WorkspaceID a; ad_Revision := ad_Revision a; ad_Name := ad_Name a;
     ad_OwnerID := ad_OwnerID a; ad_Description := ad_Description a; ad_AvatarURL := ad_AvatarURL a; ad_Role := ad_Role a;
     ad_Instructions := ad_Instructions a; ad_ConversationStarters := ad_ConversationStarters a;
     ad_AccessPolicy := ad_AccessPolicy a; ad_SkillIDs := ad_SkillIDs a;
     ad_DisabledRuntimeSkills := ad_DisabledRuntimeSkills a; ad_MCPServerIDs := ad_MCPServerIDs a;
     ad_Capabilities := ad_Capabilities a; ad_ToolPolicy := ad_ToolPolicy a; ad_MemoryPolicy := ad_MemoryPolicy a;
     ad_ExecutorBinding := ad_ExecutorBinding a; ad_ConcurrencyBudget := ad_ConcurrencyBudget a;
     ad_InputSchema := ad_InputSchema a; ad_OutputSchema := ad_OutputSchema a; ad_Graph := decoded (ad_Graph a);
     ad_Status := ad_Status a; ad_CreatedBy := ad_CreatedBy a; ad_CreatedAt := ad_CreatedAt a;
     ad_UpdatedAt := ad_UpdatedAt a |}.
#[global] Instance decoded_squad : Decoded SquadDefinition := λ q,
  {| sd_ID := sd_ID q; sd_WorkspaceID := sd_WorkspaceID q; sd_Name := sd_Name q; sd_Description := sd_Description q;
     sd_Revision := sd_Revision q; sd_PublishedVersion := sd_PublishedVersion q; sd_Members := sd_Members q;
     sd_Graph := decoded (sd_Graph q); sd_Policy := sd_Policy q; sd_Status := sd_Status q |}.
Definition ob_with_payload (payload : gmap string value) (o : OutboxRecord) : OutboxRecord :=
  {| ob_ID := ob_ID o; ob_PlanID := ob_PlanID o; ob_WorkspaceID := ob_WorkspaceID o; ob_Kind := ob_Kind o;
     ob_IdempotencyKey := ob_IdempotencyKey o; ob_TraceParent := ob_TraceParent o; ob_TraceState := ob_TraceState o;
     ob_Payload := payload; ob_Status := ob_Status o; ob_Owner := ob_Owner o; ob_LeaseExpiresAt := ob_LeaseExpiresAt o;
     ob_Attempts := ob_Attempts o; ob_MaxAttempts := ob_MaxAttempts o; ob_LastError := ob_LastError o;
     ob_CreatedAt := ob_CreatedAt o; ob_UpdatedAt := ob_UpdatedAt o |}.
#[global] Instance decoded_outbox : Decoded OutboxRecord := λ o, ob_with_payload (decoded (ob_Payload o)) o.
(** An event whose payload, a raw message, has been copied by an encoder. *)
Definition reencoded (raw : string → string) (e : Event) : Event :=
  ev_hashed (raw (ev_Payload e)) (ev_PayloadHash e) (ev_EnvelopeHash e) e.
#[global] Instance decoded_event : Decoded Event := reencoded json_raw.

(** The tables of a snapshot file, read back. *)
Definition read_tables (t : Tables) : Tables :=
  {| t_agents := decoded (t_agents t); t_squads := decoded (t_squads t); t_plans := decoded (t_plans t);
     t_projections := decoded (t_projections t); t_keys := t_keys t;
     t_events := (λ es : list Event, reencoded json_raw_file <$> es) <$> t_events t; t_outbox := decoded (t_outbox t) |}.

(** [cloneValue]: a copy through [json.Marshal]; the value itself when it has no
    encoding. *)
Definition cloneValue {T} `{!JsonMarshal T, !Decoded T} (v : T) : T :=
  match json_marshal v with Some _ => decoded v | None => v end.
End decoded.

(** What the operating system does during one write of the file: nothing goes
    wrong, something fails before the rename (lock, read, temporary file, write,
    injected fault), or the directory cannot be synchronised after it. *)
Inductive fault :=
  | NoFault
  | FaultBefore (e : error)
  | FaultAfter (e : error).

Section repository.
Context `{!MapRange, !Sha256, !JsonCompact, !JsonClone}.
Context {JM : ∀ T, JsonMarshal T}.

(** ** The snapshot file *)

Definition orchestrationRevision (file : File) : result Z :=
  match file with
  | None => Ok 0%Z
  | Some (Err e) => Err e
  | Some (Ok st) => Ok (ps_Revision st)
  end.

Definition snapshot (revision : Z) (t : Tables) : persistedRepository :=
  {| ps_Version := 1; ps_Revision := revision; ps_Tables := t |}.

Definition persistLocked (io : fault) (s : Store) : Store * result unit :=
  let r := s_repo s in
  if (r_statePath r ≟ "") || negb (r_dirty r) then (s, Ok tt) else
  match orchestrationRevision (s_file s) with
  | Err e => (s, Err e)
  | Ok diskRevision =>
      if diskRevision ≠? r_revision r
      then (s, Err (Errorf "stale orchestration state: expected revision %d, found %d"
                      [pretty (r_revision r); pretty diskRevision]))
      else
      let state := snapshot (add64 (r_revision r) 1) (r_tables r) in
      match json_marshal state, io with
      | None, _ => (s, Err (Errorf "json.MarshalIndent" []))
      | Some _, FaultBefore e => (s, Err e)
      | Some _, FaultAfter e => ({| s_repo := r; s_file := Some (Ok state) |}, Err e)
      | Some _, NoFault =>
          ({| s_repo := {| r_statePath := r_statePath r; r_revision := ps_Revision state; r_dirty := false;
                           r_tables := r_tables r |};
              s_file := Some (Ok state) |}, Ok tt)
      end
  end.

Definition Flush (io : fault) (s : Store) : Store * result unit := persistLocked io s.

(** [if err := r.persistLocked(); err != nil { rollback; return err }]. *)
Definition persist_or (rollback : MemoryRepository → MemoryRepository) (io : fault) (s : Store) : Store * result unit :=
  match persistLocked io s with
  | (s', Ok _) => (s', Ok tt)
  | (s', Err e) => (with_repo (rollback (s_repo s')) s', Err e)
  end.

Definition check_plan (_ : nat) (kv : string * RequirementExecutionPlan) : result unit :=
  let '(id, plan) := kv in
  reject (pl_ID plan ≠? id) (Errorf "orchestration plan key mismatch %s" [id]) ;;;
  match canonicalPlanHash plan with
  | Ok hash => reject (hash ≠? pl_PlanHash plan) (Errorf "orchestration plan %s hash mismatch" [id])
  | Err _ => Err (Errorf "orchestration plan %s hash mismatch" [id])
  end.
Definition check_projection (_ : nat) (kv : string * PlanProjection) : result unit :=
  let '(id, projection) := kv in
  reject (pp_PlanID projection ≠? id) (Errorf "orchestration projection key mismatch %s" [id]) ;;;
  wrap_err "orchestration projection %s: %w" [id] (PlanProjection_Validate projection).
Definition check_chain (_ : nat) (kv : string * list Event) : result unit :=
  let '(planID, events) := kv in
  match events with
  | [] => Ok tt
  | e :: _ =>
      wrap_err "orchestration event chain %s: %w" [planID] (ValidateEventChain events planID (ev_WorkspaceID e))
  end.
Definition check_intent (_ : nat) (kv : string * OutboxRecord) : result unit :=
  let '(id, record) := kv in
  reject ((id ≟ "") || (ob_ID record ≠? id) || (ob_PlanID record ≟ "") || (ob_WorkspaceID record ≟ "")
          || (ob_IdempotencyKey record ≟ ""))
    (Errorf "invalid orchestration outbox record %s" [id]).

(** The three loops [load] and [validateRepositoryState] share. *)
Definition check_tables (t : Tables) : result unit :=
  check_each check_plan (range (t_plans t)) ;;;
  check_each check_projection (range (t_projections t)) ;;;
  check_each check_chain (range (t_events t)).

Definition load (path : string) (file : File) : result MemoryRepository :=
  match file with
  | None => Ok (newMemoryRepository path)
  | Some (Err e) => Err (Wrapf "decode orchestration state: %w" [] e)
  | Some (Ok st) =>
      let t := read_tables (ps_Tables st) in
      check_tables t ;;;
      Ok {| r_statePath := path; r_revision := ps_Revision st; r_dirty := false; r_tables := t |}
  end.

Definition NewPersistentRepository (path : string) (file : File) : result MemoryRepository :=
  if TrimSpace path ≟ "" then Ok (newMemoryRepository "") else load (TrimSpace path) file.

Definition validateRepositoryState (st : persistedRepository) : result unit :=
  reject ((ps_Version st ≠? 0%Z) && (ps_Version st ≠? 1%Z))
    (Errorf "unsupported orchestration snapshot version %d" [pretty (ps_Version st)]) ;;;
  check_tables (ps_Tables st) ;;;
  check_each check_intent (range (t_outbox (ps_Tables st))).

(** [Backup]: the file written at the backup path. *)
Definition clone_tables (t : Tables) : Tables :=
  {| t_agents := cloneValue (t_agents t); t_squads := cloneValue (t_squads t); t_plans := cloneValue (t_plans t);
     t_projections := cloneValue (t_projections t); t_keys := cloneValue (t_keys t);
     t_events := cloneValue (t_events t); t_outbox := cloneValue (t_outbox t) |}.
Definition Backup (io : fault) (path : string) (backup : File) (s : Store) : File * result unit :=
  if TrimSpace path ≟ "" then (backup, Err (Errorf "backup path is required" [])) else
  let state := snapshot (r_revision (s_repo s)) (clone_tables (r_tables (s_repo s))) in
  match json_marshal state, io with
  | None, _ => (backup, Err (Errorf "json.MarshalIndent" []))
  | Some _, FaultBefore e => (backup, Err e)
  | Some _, FaultAfter e => (Some (Ok state), Err e)
  | Some _, NoFault => (Some (Ok state), Ok tt)
  end.

Definition Restore (io : fault) (path : string) (backup : File) (s : Store) : Store * result unit :=
  if TrimSpace path ≟ "" then (s, Err (Errorf "restore path is required" [])) else
  match backup with
  | None => (s, Err (Errorf "read orchestration backup: %w" []))
  | Some (Err e) => (s, Err (Wrapf "decode orchestration backup: %w" [] e))
  | Some (Ok file) =>
      let st := {| ps_Version := ps_Version file; ps_Revision := ps_Revision file;
                   ps_Tables := read_tables (ps_Tables file) |} in
      match validateRepositoryState st with
      | Err e => (s, Err e)
      | Ok _ =>
          let r := s_repo s in
          match persistLocked io (with_repo (dirty_tables (ps_Tables st) r) s) with
          | (s', Ok _) => (s', Ok tt)
          | (s', Err e) =>
              (with_repo {| r_statePath := r_statePath r; r_revision := r_revision r; r_dirty := false;
                            r_tables := r_tables r |} s',
               Err (Wrapf "persist restored orchestration state: %w" [] e))
          end
      end
  end.

(** ** Agents and squads *)

Definition same_agent (ws id : string) (x : AgentDefinition) : bool := (ad_WorkspaceID x ≟ ws) && (ad_ID x ≟ id).
Definition same_squad (ws id : string) (x : SquadDefinition) : bool := (sd_WorkspaceID x ≟ ws) && (sd_ID x ≟ id).

(** [latest := 0; for x: if x matches && x.Revision > latest { latest = x.Revision }]. *)
Definition latest_revision {A} (matches : A → bool) (rev : A → Z) (xs : list A) : Z :=
  foldl (λ latest x, if matches x && (latest <? rev x)%Z then rev x else latest) 0%Z xs.
(** The same loop keeping the record; [None] is the zero value of [out]. *)
Definition latest_of {A} (matches : A → bool) (rev : A → Z) (xs : list A) : option A :=
  foldl (λ out x, if matches x && (from_option rev 0 out <? rev x)%Z then Some x else out) None xs.

Definition latestAgentLocked (t : Tables) (ws id : string) : option AgentDefinition :=
  match latest_of (same_agent ws id) ad_Revision (range_values (t_agents t)) with
  | Some out => if ad_ID out ≠? "" then Some out else None
  | None => None
  end.
Definition latestSquadLocked (t : Tables) (ws id : string) : option SquadDefinition :=
  match latest_of (same_squad ws id) sd_Revision (range_values (t_squads t)) with
  | Some out => if sd_ID out ≠? "" then Some out else None
  | None => None
  end.
Definition agentLocked (t : Tables) (ws id : string) (rev : Z) : option AgentDefinition :=
  if (0 <? rev)%Z then t_agents t !! key3 ws id rev else latestAgentLocked t ws id.
Definition squadLocked (t : Tables) (ws id : string) (rev : Z) : option SquadDefinition :=
  if (0 <? rev)%Z then t_squads t !! key3 ws id rev else latestSquadLocked t ws id.

Definition GetAgent (s : Store) (ws id : string) (rev : Z) : result AgentDefinition :=
  match agentLocked (r_tables (s_repo s)) ws id rev with
  | Some a => Ok (cloneValue a)
  | None => Err (ESentinel ErrNotFound)
  end.
Definition GetSquad (s : Store) (ws id : string) (rev : Z) : result SquadDefinition :=
  match squadLocked (r_tables (s_repo s)) ws id rev with
  | Some x => Ok (cloneValue x)
  | None => Err (ESentinel ErrNotFound)
  end.

Definition SaveAgent (io : fault) (s : Store) (a : AgentDefinition) (expected : Z) : Store * result unit :=
  let r := s_repo s in
  let agents := t_agents (r_tables r) in
  let mine := same_agent (ad_WorkspaceID a) (ad_ID a) in
  let guards :=
    AgentDefinition_Validate a ;;;
    reject (existsb (λ x, mine x && (ad_Revision x ≟ ad_Revision a)) (range_values agents))
      (Errorf "agent revision already exists" []) ;;;
    if (0 <? expected)%Z then
      let latest := latest_revision mine ad_Revision (range_values agents) in
      reject (latest ≠? expected)
        (Errorf "agent revision conflict: expected %d, found %d" [pretty expected; pretty latest])
    else Ok tt in
  match guards with
  | Err e => (s, Err e)
  | Ok _ =>
      let k := key3 (ad_WorkspaceID a) (ad_ID a) (ad_Revision a) in
      persist_or (λ r', with_flags r (with_tables (set_agents (restore k (agents !! k) (t_agents (r_tables r')))
                                                     (r_tables r')) r'))
        io (with_repo (dirty_tables (set_agents (<[k:=a]> agents) (r_tables r)) r) s)
  end.

Definition countSquadLeaders (members : list SquadMember) : nat := length (filter (λ m, sm_Leader m = true) members).

(** The nested squads a squad refers to: members first, then graph nodes. *)
Definition nested_refs (s : SquadDefinition) : list string :=
  ((λ m, sm_SquadID m) <$> filter (λ m, sm_SquadID m ≠ "") (sd_Members s)) ++
  omap (λ n, vr_ID <$> wn_SquadRef n) (g_Nodes (sd_Graph s)).

(** The traversal of nested squads.  [visiting] holds the revisions on the path;
    a call removes its own entry when it returns, so each branch starts from its
    parent's set.  [None] is out of fuel. *)
Fixpoint squadRefs (fuel : nat) (t : Tables) (s : SquadDefinition) (depth : Z) (visiting : gset string)
    : option (result unit) :=
  match fuel with
  | 0 => None
  | S fuel' =>
      let max := sp_MaxNestingDepth (sd_Policy s) in
      let key := sd_WorkspaceID s +:+ ":" +:+ sd_ID s +:+ ":" +:+ pretty (sd_Revision s) in
      if ((0 <? max) && (max <? depth))%Z then Some (Err (Errorf "squad %s nesting depth exceeded" [sd_ID s]))
      else if bool_decide (key ∈ visiting) then Some (Err (Errorf "squad %s nested cycle detected" [sd_ID s]))
      else
      (fix walk (refs : list string) : option (result unit) :=
         match refs with
         | [] => Some (Ok tt)
         | nestedID :: refs' =>
             match latestSquadLocked t (sd_WorkspaceID s) nestedID with
             | Some nested =>
                 if sd_Status nested ≠? SquadPublished then
                   Some (Err (Errorf "squad %s nested squad %s unavailable" [sd_ID s; nestedID]))
                 else if ((0 <? max) && (max <? depth + 1))%Z then
                   Some (Err (Errorf "squad %s nested squad %s exceeds max_nesting_depth" [sd_ID s; nestedID]))
                 else
                 match squadRefs fuel' t nested (depth + 1) ({[key]} ∪ visiting) with
                 | Some (Ok _) => walk refs'
                 | other => other
                 end
             | None => Some (Err (Errorf "squad %s nested squad %s unavailable" [sd_ID s; nestedID]))
             end
         end) (nested_refs s)
  end.

(** Every level of the traversal visits another stored squad. *)
Definition validateSquadGraphRefsLocked (t : Tables) (s : SquadDefinition) : result unit :=
  default (Err (EPanic "validateSquadGraphRefsLocked")) (squadRefs (S (S (size (t_squads t)))) t s 0 ∅).

Definition check_constraint (i : nat) (agent : AgentDefinition) (_ : nat) (c : CapabilityConstraint) : result unit :=
  reject (cc_Required c && negb (existsb (λ cap, cap_Name cap ≟ cc_Name c) (ad_Capabilities agent)))
    (Errorf "members[%d].capability_constraints.%s.unavailable" [itoa i; cc_Name c]).

Definition check_published_member (t : Tables) (s : SquadDefinition) (i : nat) (m : SquadMember) : result unit :=
  (if sm_AgentID m ≠? "" then
     match latestAgentLocked t (sd_WorkspaceID s) (sm_AgentID m) with
     | None => Err (Errorf "members[%d].agent_id.unavailable" [itoa i])
     | Some agent =>
         reject (ad_Status agent ≠? AgentActive) (Errorf "members[%d].agent_id.inactive" [itoa i]) ;;;
         check_each (check_constraint i agent) (sm_CapabilityConstraints m)
     end
   else Ok tt) ;;;
  if sm_SquadID m ≠? "" then
    reject (sm_SquadID m ≟ sd_ID s) (Errorf "members[%d].squad_id.self_reference" [itoa i]) ;;;
    match latestSquadLocked t (sd_WorkspaceID s) (sm_SquadID m) with
    | None => Err (Errorf "members[%d].squad_id.unavailable" [itoa i])
    | Some nested =>
        reject (sd_Status nested ≠? SquadPublished) (Errorf "members[%d].squad_id.unavailable" [itoa i]) ;;;
        reject ((0 <? sp_MaxNestingDepth (sd_Policy s)) &&
                (sp_MaxNestingDepth (sd_Policy s) <=? sp_MaxNestingDepth (sd_Policy nested)))%Z
          (Errorf "members[%d].squad_id.nesting_depth_exceeded" [itoa i])
    end
  else Ok tt.

Definition check_published_node (t : Tables) (s : SquadDefinition) (i : nat) (n : WorkflowNode) : result unit :=
  match wn_AgentRef n with
  | None => Ok tt
  | Some ref =>
      match agentLocked t (sd_WorkspaceID s) (vr_ID ref) (vr_Revision ref) with
      | Some agent => reject (ad_Status agent ≠? AgentActive) (Errorf "graph.nodes[%d].agent_ref.unavailable" [itoa i])
      | None => Err (Errorf "graph.nodes[%d].agent_ref.unavailable" [itoa i])
      end
  end ;;;
  match wn_SquadRef n with
  | None => Ok tt
  | Some ref =>
      match squadLocked t (sd_WorkspaceID s) (vr_ID ref) (vr_Revision ref) with
      | Some nested => reject (sd_Status nested ≠? SquadPublished) (Errorf "graph.nodes[%d].squad_ref.unavailable" [itoa i])
      | None => Err (Errorf "graph.nodes[%d].squad_ref.unavailable" [itoa i])
      end
  end.

Definition validatePublishedSquadLocked (t : Tables) (s : SquadDefinition) : result unit :=
  reject (negb (countSquadLeaders (sd_Members s) =? 1)%nat)
    (Errorf "published squad requires exactly one leader agent" []) ;;;
  validateSquadGraphRefsLocked t s ;;;
  check_each (check_published_member t s) (sd_Members s) ;;;
  check_each (check_published_node t s) (g_Nodes (sd_Graph s)).

Definition SaveSquad (io : fault) (st : Store) (s : SquadDefinition) (expected : Z) : Store * result unit :=
  let r := s_repo st in
  let squads := t_squads (r_tables r) in
  let mine := same_squad (sd_WorkspaceID s) (sd_ID s) in
  let guards :=
    (if sd_Status s ≟ SquadDraft then SquadDefinition_ValidateDraft s else SquadDefinition_Validate s) ;;;
    (if sd_Status s ≟ SquadPublished then validatePublishedSquadLocked (r_tables r) s else Ok tt) ;;;
    reject (existsb (λ x, mine x && (sd_Revision x ≟ sd_Revision s)) (range_values squads))
      (Errorf "squad revision already exists" []) ;;;
    if (0 <? expected)%Z then
      let latest := latest_revision mine sd_Revision (range_values squads) in
      reject (latest ≠? expected)
        (Errorf "squad revision conflict: expected %d, found %d" [pretty expected; pretty latest])
    else Ok tt in
  match guards with
  | Err e => (st, Err e)
  | Ok _ =>
      let k := key3 (sd_WorkspaceID s) (sd_ID s) (sd_Revision s) in
      persist_or (λ r', with_flags r (with_tables (set_squads (restore k (squads !! k) (t_squads (r_tables r')))
                                                     (r_tables r')) r'))
        io (with_repo (dirty_tables (set_squads (<[k:=s]> squads) (r_tables r)) r) st)
  end.

(** ** Plans *)

Definition plan_guards (p : RequirementExecutionPlan) : result PlanProjection :=
  reject ((pl_ID p ≟ "") || (pl_WorkspaceID p ≟ "") || (pl_RequirementID p ≟ "") || (pl_PlanHash p ≟ ""))
    (Errorf "plan id, workspace, requirement and hash are required" []) ;;;
  reject (negb (live_status (pl_Status p))) (Errorf "plan must be frozen before persistence" []) ;;;
  match canonicalPlanHash p with
  | Ok hash => reject (hash ≠? pl_PlanHash p) (Errorf "plan hash does not match frozen snapshot" [])
  | Err _ => Err (Errorf "plan hash does not match frozen snapshot" [])
  end ;;;
  NewProjection p.

Definition plan_key (p : RequirementExecutionPlan) : string := pl_WorkspaceID p +:+ ":" +:+ pl_IdempotencyKey p.

(** [if p.IdempotencyKey != "" { ... }] around the key table. *)
Definition restore_key (p : RequirementExecutionPlan) (old : option string) (t : Tables) : Tables :=
  if pl_IdempotencyKey p ≠? "" then set_keys (restore (plan_key p) old (t_keys t)) t else t.

Definition CreatePlan (io : fault) (s : Store) (p : RequirementExecutionPlan) : Store * result unit :=
  match plan_guards p with
  | Err e => (s, Err e)
  | Ok projection =>
      let r := s_repo s in
      let t := r_tables r in
      let oldKey := t_keys t !! plan_key p in
      let existing := default "" oldKey in
      if (pl_IdempotencyKey p ≠? "") && (existing ≠? "") then
        if existing ≠? pl_PlanHash p then (s, Err (ESentinel ErrIdempotencyConflict)) else (s, Ok tt)
      else
      let t1 := if pl_IdempotencyKey p ≠? "" then set_keys (<[plan_key p := pl_PlanHash p]> (t_keys t)) t else t in
      match t_plans t !! pl_ID p with
      | Some _ => (with_repo (with_tables (restore_key p oldKey t1) r) s, Err (Errorf "plan already exists" []))
      | None =>
          let t2 := set_projections (<[pl_ID p := projection]> (t_projections t1))
                      (set_plans (<[pl_ID p := p]> (t_plans t1)) t1) in
          persist_or (λ r', let t' := r_tables r' in
                      let t' := set_plans (delete (pl_ID p) (t_plans t')) t' in
                      let t' := set_projections (restore (pl_ID p) (t_projections t !! pl_ID p) (t_projections t')) t' in
                      with_flags r (with_tables (restore_key p oldKey t') r'))
            io (with_repo (dirty_tables t2 r) s)
      end
  end.

(** ** Event chains *)

Definition chain_of (t : Tables) (planID : string) : list Event := default [] (t_events t !! planID).

(** A zero sequence, or a fresh event where a predecessor exists, asks for the tail. *)
Definition at_tail (events : list Event) (e : Event) : Event :=
  let expected := Z.of_nat (length events + 1) in
  if (ev_Sequence e ≟ 0%Z) || ((ev_Sequence e ≟ 1%Z) && (1 <? expected)%Z && (ev_PreviousHash e ≟ "")) then
    reseal (ev_chained expected (from_option ev_EnvelopeHash (ev_PreviousHash e) (last events)) e)
  else e.

Definition appendEventLocked (r : MemoryRepository) (e : Event) : MemoryRepository * result unit :=
  let t := r_tables r in
  match t_plans t !! ev_PlanID e with
  | None => (r, Err (ESentinel ErrNotFound))
  | Some plan =>
      if ev_WorkspaceID e ≠? pl_WorkspaceID plan
      then (r, Err (Errorf "event workspace does not match plan workspace" [])) else
      let events := chain_of t (ev_PlanID e) in
      match find (λ old, (ev_IdempotencyKey e ≠? "") && (ev_IdempotencyKey old ≟ ev_IdempotencyKey e)) events with
      | Some old =>
          if ev_PayloadHash old ≟ ev_PayloadHash e then (r, Ok tt) else (r, Err (ESentinel ErrIdempotencyConflict))
      | None =>
          let expected := Z.of_nat (length events + 1) in
          let e := at_tail events e in
          if ev_Sequence e ≠? expected then (r, Err (Errorf "event sequence conflict: got %d" [pretty (ev_Sequence e)]))
          else if match last events with Some l => ev_PreviousHash e ≠? ev_EnvelopeHash l | None => false end
          then (r, Err (Errorf "event previous hash conflict" []))
          else
          match ValidateEventChain (events ++ [e]) (ev_PlanID e) (ev_WorkspaceID e) with
          | Err err => (r, Err err)
          | Ok _ => (dirty_tables (set_events (<[ev_PlanID e := events ++ [e]]> (t_events t)) t) r, Ok tt)
          end
      end
  end.

(** [r.events[planID] = r.events[planID][:beforeLen]], dropping an empty chain. *)
Definition truncate_chain (planID : string) (beforeLen : nat) (t : Tables) : Tables :=
  if (beforeLen <? length (chain_of t planID))%nat then
    set_events (if (beforeLen =? 0)%nat then delete planID (t_events t)
                else <[planID := take beforeLen (chain_of t planID)]> (t_events t)) t
  else t.

Definition AppendEvent (io : fault) (s : Store) (e : Event) : Store * result unit :=
  let r := s_repo s in
  match appendEventLocked r e with
  | (r', Err err) => (with_repo r' s, Err err)
  | (r', Ok _) =>
      persist_or (λ r'', with_flags r (with_tables (truncate_chain (ev_PlanID e)
                            (length (chain_of (r_tables r) (ev_PlanID e))) (r_tables r'')) r''))
        io (with_repo r' s)
  end.

(** [event.IdempotencyKey = p.ID + ":" + event.Type; event.EnvelopeHash = eventDigest(event)]. *)
Definition ev_set_key (key : string) (e : Event) : Event :=
  {| ev_ID := ev_ID e; ev_PlanID := ev_PlanID e; ev_WorkspaceID := ev_WorkspaceID e; ev_RunID := ev_RunID e;
     ev_NodeID := ev_NodeID e; ev_AttemptID := ev_AttemptID e; ev_Sequence := ev_Sequence e; ev_Type := ev_Type e;
     ev_Payload := ev_Payload e; ev_PayloadHash := ev_PayloadHash e; ev_PreviousHash := ev_PreviousHash e;
     ev_EnvelopeHash := ev_EnvelopeHash e; ev_IdempotencyKey := key; ev_FencingToken := ev_FencingToken e;
     ev_TraceParent := ev_TraceParent e; ev_TraceState := ev_TraceState e; ev_CreatedAt := ev_CreatedAt e |}.
Definition default_key (p : RequirementExecutionPlan) (e : Event) : Event :=
  if blank (ev_IdempotencyKey e) then reseal (ev_set_key (pl_ID p +:+ ":" +:+ ev_Type e) e) else e.

(** The plan exists: only a missing lifecycle event is added. *)
Definition repair_event (io : fault) (s : Store) (p existing : RequirementExecutionPlan) (e : Event) : Store * result unit :=
  let r := s_repo s in
  if pl_PlanHash existing ≠? pl_PlanHash p then (s, Err (ESentinel ErrIdempotencyConflict)) else
  let oldEvents := chain_of (r_tables r) (pl_ID p) in
  match appendEventLocked r e with
  | (r', Err err) => (with_repo r' s, Err err)
  | (r', Ok _) =>
      persist_or (λ r'', with_flags r (with_tables
                    (set_events (<[pl_ID p := oldEvents]> (t_events (r_tables r''))) (r_tables r'')) r''))
        io (with_repo r' s)
  end.

(** [delete(r.plans, p.ID); delete(r.projections, p.ID); delete(r.keys, ...)]. *)
Definition forget_plan (p : RequirementExecutionPlan) (t : Tables) : Tables :=
  restore_key p None (set_projections (delete (pl_ID p) (t_projections t)) (set_plans (delete (pl_ID p) (t_plans t)) t)).

Definition CreatePlanWithEvent (io : fault) (s : Store) (p : RequirementExecutionPlan) (event : Event)
    : Store * result unit :=
  match (let* projection := plan_guards p in
         reject ((ev_PlanID event ≠? pl_ID p) || (ev_WorkspaceID event ≠? pl_WorkspaceID p) || (ev_Type event ≟ ""))
           (Errorf "plan event scope does not match plan" []) ;;;
         Ok projection) with
  | Err e => (s, Err e)
  | Ok projection =>
      let e := default_key p event in
      let r := s_repo s in
      let t := r_tables r in
      match t_plans t !! pl_ID p with
      | Some existing => repair_event io s p existing e
      | None =>
          let existingHash := default "" (t_keys t !! plan_key p) in
          if (pl_IdempotencyKey p ≠? "") && (existingHash ≠? "") && (existingHash ≠? pl_PlanHash p)
          then (s, Err (ESentinel ErrIdempotencyConflict)) else
          let t1 := if pl_IdempotencyKey p ≠? "" then set_keys (<[plan_key p := pl_PlanHash p]> (t_keys t)) t else t in
          let t2 := set_projections (<[pl_ID p := projection]> (t_projections t1))
                      (set_plans (<[pl_ID p := p]> (t_plans t1)) t1) in
          match appendEventLocked (with_tables t2 r) e with
          | (r', Err err) => (with_repo (with_flags r (with_tables (forget_plan p (r_tables r')) r')) s, Err err)
          | (r', Ok _) =>
              persist_or (λ r'', let t' := r_tables r'' in
                          with_flags r (with_tables
                            (forget_plan p (set_events (delete (pl_ID p) (t_events t')) t')) r''))
                io (with_repo (dirty_tables (r_tables r') r') s)
          end
      end
  end.

(** ** Projections *)

(** The copy [SaveProjection] stores.  [RepairPlans] keeps the caller's map. *)
Definition detach (p : PlanProjection) : PlanProjection :=
  {| pp_PlanID := pp_PlanID p; pp_Revision := pp_Revision p; pp_Status := pp_Status p;
     pp_TerminalOutcome := pp_TerminalOutcome p; pp_Nodes := copy_map (cloneValue <$> pp_Nodes p);
     pp_Attempts := copy_map (cloneValue <$> pp_Attempts p); pp_Traversals := copy_map (pp_Traversals p);
     pp_Decisions := cloneValue (pp_Decisions p); pp_RepairPlans := pp_RepairPlans p;
     pp_Idempotency := copy_map (pp_Idempotency p); pp_TokenUsage := pp_TokenUsage p;
     pp_ToolCalls := pp_ToolCalls p; pp_CostCents := pp_CostCents p |}.

Definition SaveProjection (io : fault) (s : Store) (p : PlanProjection) : Store * result unit :=
  let r := s_repo s in
  let t := r_tables r in
  let id := pp_PlanID p in
  let guards :=
    reject (id ≟ "") (Errorf "plan id is required" []) ;;;
    PlanProjection_Validate p ;;;
    match t_plans t !! id with
    | None => Err (ESentinel ErrNotFound)
    | Some plan =>
        reject (pp_Revision p ≠? pl_Revision plan)
          (Errorf "projection revision %d does not match plan revision %d" [pretty (pp_Revision p); pretty (pl_Revision plan)]) ;;;
        match t_projections t !! id with
        | Some old => reject (pp_Revision p <? pp_Revision old)%Z (Errorf "projection revision regressed" [])
        | None => Ok tt
        end
    end in
  match guards with
  | Err e => (s, Err e)
  | Ok _ =>
      persist_or (λ r', with_flags r (with_tables (set_projections (restore id (t_projections t !! id)
                                         (t_projections (r_tables r'))) (r_tables r')) r'))
        io (with_repo (dirty_tables (set_projections (<[id := detach p]> (t_projections t)) t) r) s)
  end.

Definition CommitEventProjection (io : fault) (s : Store) (e : Event) (p : PlanProjection) : Store * result unit :=
  let r := s_repo s in
  let t := r_tables r in
  let id := pp_PlanID p in
  let guards :=
    reject ((id ≟ "") || (ev_PlanID e ≠? id)) (Errorf "event and projection plan scope mismatch" []) ;;;
    PlanProjection_Validate p ;;;
    match t_plans t !! id with
    | None => Err (ESentinel ErrNotFound)
    | Some plan =>
        reject ((pp_Revision p ≠? pl_Revision plan) || (ev_WorkspaceID e ≠? pl_WorkspaceID plan))
          (Errorf "event or projection does not match frozen plan scope" [])
    end in
  match guards with
  | Err err => (s, Err err)
  | Ok _ =>
      match appendEventLocked r e with
      | (r', Err err) => (with_repo r' s, Err err)
      | (r', Ok _) =>
          let t' := r_tables r' in
          persist_or (λ r'', let t'' := r_tables r'' in
                      let t'' := set_events (<[ev_PlanID e := chain_of t (ev_PlanID e)]> (t_events t'')) t'' in
                      let t'' := set_projections (restore id (t_projections t !! id) (t_projections t'')) t'' in
                      with_flags r (with_tables t'' r''))
            io (with_repo (dirty_tables (set_projections (<[id := cloneProjection p]> (t_projections t')) t') r') s)
      end
  end.

(** ** Queries *)

Definition GetPlan (s : Store) (ws id : string) : result RequirementExecutionPlan :=
  match t_plans (r_tables (s_repo s)) !! id with
  | Some p => if pl_WorkspaceID p ≠? ws then Err (ESentinel ErrNotFound) else Ok (cloneValue p)
  | None => Err (ESentinel ErrNotFound)
  end.

Definition GetPlanByIdempotency (s : Store) (ws key : string) : result RequirementExecutionPlan :=
  let ws := TrimSpace ws in
  let key := TrimSpace key in
  let t := r_tables (s_repo s) in
  if (ws ≟ "") || (key ≟ "") then Err (ESentinel ErrNotFound) else
  let hash := default "" (t_keys t !! (ws +:+ ":" +:+ key)) in
  if hash ≟ "" then Err (ESentinel ErrNotFound) else
  match find (λ p, (pl_WorkspaceID p ≟ ws) && (pl_IdempotencyKey p ≟ key) && (pl_PlanHash p ≟ hash))
          (range_values (t_plans t)) with
  | Some p => Ok (cloneValue p)
  | None => Err (ESentinel ErrNotFound)
  end.

Definition GetProjection (s : Store) (id : string) : result PlanProjection :=
  match t_projections (r_tables (s_repo s)) !! id with
  | Some p => Ok (cloneProjection p)
  | None => Err (ESentinel ErrNotFound)
  end.

Definition ListEvents (s : Store) (planID : string) (after : Z) : list Event :=
  cloneValue <$> filter (λ e, (after < ev_Sequence e)%Z) (chain_of (r_tables (s_repo s)) planID).
End repository.
