(* ===== verification/Outbox.v ===== *)
(** * Outbox: delivery intents with leases

    Models the outbox of internal/orchestration/repository.go: [EnqueueOutbox],
    [ClaimOutbox], [ClaimOutboxByID], [AckOutbox] and [FailOutbox],
    on the same store.  An intent is delivered by the worker that holds its
    lease; a claim counts one attempt. *)
From stdpp Require Import base strings gmap list pretty.
From Stdlib Require Import ZArith Lia.
From S2P Require Import Prelude GoLib GoValue GoJson ContextModel OrchModel Events Repository.

Definition DefaultOutboxMaxAttempts : Z := 8.

(** [t.UnixNano()]: nanoseconds since 1970, as an [int64]. *)
Definition UnixNano (t : Time) : Z := wrap64 (t - 62135596800000000000).

(** The fields an enqueued intent normalises. *)
Definition ob_scoped (planID workspaceID key : string) (o : OutboxRecord) : OutboxRecord :=
  {| ob_ID := ob_ID o; ob_PlanID := planID; ob_WorkspaceID := workspaceID; ob_Kind := ob_Kind o;
     ob_IdempotencyKey := key; ob_TraceParent := ob_TraceParent o; ob_TraceState := ob_TraceState o;
     ob_Payload := ob_Payload o; ob_Status := ob_Status o; ob_Owner := ob_Owner o;
     ob_LeaseExpiresAt := ob_LeaseExpiresAt o; ob_Attempts := ob_Attempts o; ob_MaxAttempts := ob_MaxAttempts o;
     ob_LastError := ob_LastError o; ob_CreatedAt := ob_CreatedAt o; ob_UpdatedAt := ob_UpdatedAt o |}.
Definition ob_initial (id status : string) (max : Z) (created : Time) (o : OutboxRecord) : OutboxRecord :=
  {| ob_ID := id; ob_PlanID := ob_PlanID o; ob_WorkspaceID := ob_WorkspaceID o; ob_Kind := ob_Kind o;
     ob_IdempotencyKey := ob_IdempotencyKey o; ob_TraceParent := ob_TraceParent o; ob_TraceState := ob_TraceState o;
     ob_Payload := ob_Payload o; ob_Status := status; ob_Owner := ob_Owner o;
     ob_LeaseExpiresAt := ob_LeaseExpiresAt o; ob_Attempts := ob_Attempts o; ob_MaxAttempts := max;
     ob_LastError := ob_LastError o; ob_CreatedAt := created; ob_UpdatedAt := created |}.
(** The fields delivery changes. *)
Definition ob_delivery (status owner : string) (expires : Time) (attempts : Z) (lastError : string) (updated : Time)
    (o : OutboxRecord) : OutboxRecord :=
  {| ob_ID := ob_ID o; ob_PlanID := ob_PlanID o; ob_WorkspaceID := ob_WorkspaceID o; ob_Kind := ob_Kind o;
     ob_IdempotencyKey := ob_IdempotencyKey o; ob_TraceParent := ob_TraceParent o; ob_TraceState := ob_TraceState o;
     ob_Payload := ob_Payload o; ob_Status := status; ob_Owner := owner; ob_LeaseExpiresAt := expires;
     ob_Attempts := attempts; ob_MaxAttempts := ob_MaxAttempts o; ob_LastError := lastError;
     ob_CreatedAt := ob_CreatedAt o; ob_UpdatedAt := updated |}.

(** A live lease, a finished intent, an intent that used up its attempts. *)
Definition leased (now : Time) (o : OutboxRecord) : bool := (ob_Status o ≟ "leased") && After (ob_LeaseExpiresAt o) now.
Definition settled (o : OutboxRecord) : bool := (ob_Status o ≟ "acked") || (ob_Status o ≟ "failed").
Definition exhausted (o : OutboxRecord) : bool := ((0 <? ob_MaxAttempts o) && (ob_MaxAttempts o <=? ob_Attempts o))%Z.

Section outbox.
Context `{!MapRange, !JsonClone}.
Context {JM : ∀ T, JsonMarshal T}.

Definition jsonEqual {A B} (a : A) (b : B) : bool :=
  match json_marshal a, json_marshal b with
  | Some l, Some r => l ≟ r
  | _, _ => false
  end.

Definition outbox_of (s : Store) : gmap string OutboxRecord := t_outbox (r_tables (s_repo s)).

Definition EnqueueOutbox (io : fault) (wall : Time) (s : Store) (record : OutboxRecord)
    : Store * result (OutboxRecord * bool) :=
  let record := ob_scoped (TrimSpace (ob_PlanID record)) (TrimSpace (ob_WorkspaceID record))
                  (TrimSpace (ob_IdempotencyKey record)) record in
  if (ob_PlanID record ≟ "") || (ob_WorkspaceID record ≟ "") || (ob_IdempotencyKey record ≟ "")
     || blank (ob_Kind record)
  then (s, Err (Errorf "outbox plan, workspace, kind and idempotency key are required" [])) else
  match find (λ existing, (ob_PlanID existing ≟ ob_PlanID record)
                          && (ob_IdempotencyKey existing ≟ ob_IdempotencyKey record)) (range_values (outbox_of s)) with
  | Some existing =>
      if negb (jsonEqual (ob_Payload existing) (ob_Payload record)) || (ob_Kind existing ≠? ob_Kind record)
      then (s, Err (ESentinel ErrOutboxConflict)) else (s, Ok (cloneValue existing, false))
  | None =>
      let r := s_repo s in
      let id := if ob_ID record ≟ "" then "outbox-" +:+ pretty (UnixNano wall) else ob_ID record in
      let status := if ob_Status record ≟ "" then "pending" else ob_Status record in
      let max := if (ob_MaxAttempts record <=? 0)%Z then DefaultOutboxMaxAttempts else ob_MaxAttempts record in
      let record := ob_initial id status max (orNow wall (ob_CreatedAt record)) record in
      match persist_or (λ r', with_flags r (with_tables (set_outbox (delete id (t_outbox (r_tables r'))) (r_tables r')) r'))
              io (with_repo (dirty_tables (set_outbox (<[id := cloneValue record]> (outbox_of s)) (r_tables r)) r) s) with
      | (s', Ok _) => (s', Ok (cloneValue record, true))
      | (s', Err e) => (s', Err e)
      end
  end.

Definition zero_OutboxRecord : OutboxRecord :=
  {| ob_ID := ""; ob_PlanID := ""; ob_WorkspaceID := ""; ob_Kind := ""; ob_IdempotencyKey := ""; ob_TraceParent := "";
     ob_TraceState := ""; ob_Payload := ∅; ob_Status := ""; ob_Owner := ""; ob_LeaseExpiresAt := 0; ob_Attempts := 0;
     ob_MaxAttempts := 0; ob_LastError := ""; ob_CreatedAt := 0; ob_UpdatedAt := 0 |}.

(** [r.outbox[item.ID] = item; r.dirty = true; if err := r.persistLocked();
    err != nil { r.outbox[item.ID] = old; return err }]: the dirty flag stays. *)
Definition write_outbox (io : fault) (s : Store) (item old : OutboxRecord) : Store * result unit :=
  let r := s_repo s in
  persist_or (λ r', with_tables (set_outbox (<[ob_ID item := old]> (t_outbox (r_tables r'))) (r_tables r')) r')
    io (with_repo (dirty_tables (set_outbox (<[ob_ID item := item]> (outbox_of s)) (r_tables r)) r) s).

Definition claimOutboxLocked (io : fault) (s : Store) (id owner : string) (ttl : Duration) (now : Time)
    : Store * result OutboxRecord :=
  match outbox_of s !! id with
  | None => (s, Err (ESentinel ErrNotFound))
  | Some selected =>
      if settled selected then (s, Err (ESentinel ErrNotFound))
      else if leased now selected then (s, Err (ESentinel ErrLeaseLost))
      else
      let claimed := ob_delivery "leased" owner (now + ttl) (add64 (ob_Attempts selected) 1)
                       (ob_LastError selected) now selected in
      match write_outbox io s claimed (default zero_OutboxRecord (outbox_of s !! ob_ID claimed)) with
      | (s', Ok _) => (s', Ok (cloneValue claimed))
      | (s', Err e) => (s', Err e)
      end
  end.

(** The loop of [ClaimOutbox]: one step of the selection, [None] being the zero record. *)
Definition claimable (planID : string) (now : Time) (item : OutboxRecord) : bool :=
  negb ((planID ≠? "") && (ob_PlanID item ≠? planID)) && negb (settled item || exhausted item) && negb (leased now item).
Definition select_step (selected item : OutboxRecord) : OutboxRecord :=
  if (ob_ID selected ≟ "") || Before (ob_CreatedAt item) (ob_CreatedAt selected)
     || negb (bool_decide (String.le (ob_ID selected) (ob_ID item)))
  then item else selected.

Definition ClaimOutbox (io : fault) (wall : Time) (s : Store) (planID owner : string) (ttl : Duration) (now : Time)
    : Store * result OutboxRecord :=
  if blank owner || (ttl <=? 0)%Z then (s, Err (Errorf "outbox owner and positive ttl are required" [])) else
  let now := orNow wall now in
  let selected := foldl select_step zero_OutboxRecord
                    (filter (λ o, claimable planID now o = true) (range_values (outbox_of s))) in
  if ob_ID selected ≟ "" then (s, Err (ESentinel ErrNotFound))
  else claimOutboxLocked io s (ob_ID selected) owner ttl now.

Definition ClaimOutboxByID (io : fault) (wall : Time) (s : Store) (id owner : string) (ttl : Duration) (now : Time)
    : Store * result OutboxRecord :=
  if blank id then (s, Err (Errorf "outbox id is required" []))
  else if blank owner || (ttl <=? 0)%Z then (s, Err (Errorf "outbox owner and positive ttl are required" []))
  else claimOutboxLocked io s (TrimSpace id) owner ttl (orNow wall now).

(** The lease check [AckOutbox] and [FailOutbox] share. *)
Definition held_intent (s : Store) (id owner : string) (now : Time) : result OutboxRecord :=
  match outbox_of s !! TrimSpace id with
  | None => Err (ESentinel ErrNotFound)
  | Some item =>
      reject ((ob_Status item ≠? "leased") || (ob_Owner item ≠? owner) || negb (After (ob_LeaseExpiresAt item) now))
        (ESentinel ErrLeaseLost) ;;;
      Ok item
  end.

(** [deliveryErr] is [None] or the text of the error. *)
Definition AckOutbox (io : fault) (wall : Time) (s : Store) (id owner : string) (now : Time)
    (deliveryErr : option string) : Store * result unit :=
  let now := orNow wall now in
  match held_intent s id owner now with
  | Err e => (s, Err e)
  | Ok item =>
      let '(status, lastError) :=
        match deliveryErr with
        | None => ("acked", "")
        | Some err => (if exhausted item then "failed" else "pending", err)
        end in
      write_outbox io s (ob_delivery status "" 0 (ob_Attempts item) lastError now item) item
  end.

Definition FailOutbox (io : fault) (wall : Time) (s : Store) (id owner : string) (now : Time) (reason : string)
    : Store * result unit :=
  if blank reason then (s, Err (Errorf "outbox failure reason is required" [])) else
  let now := orNow wall now in
  match held_intent s id owner now with
  | Err e => (s, Err e)
  | Ok item => write_outbox io s (ob_delivery "failed" "" 0 (ob_Attempts item) reason now item) item
  end.
End outbox.

(** * Draining the outbox

    Models [OutboxDispatcher.Drain] of internal/orchestration/outbox_worker.go: a
    bounded batch of claim, deliver, acknowledge.  The handler, the clock, the
    cancellation of the context and the I/O of the store are functions of the
    iteration. *)

Record OutboxDispatcher := { d_Owner : string; d_LeaseTTL : Duration; d_MaxBatch : Z }.

Record OutboxDispatchReport := {
  dr_Claimed : nat; dr_Acked : nat; dr_Retried : nat; dr_Failed : nat; dr_LastError : string;
  dr_FailedRecords : list OutboxRecord }.
Definition no_report : OutboxDispatchReport :=
  {| dr_Claimed := 0; dr_Acked := 0; dr_Retried := 0; dr_Failed := 0; dr_LastError := ""; dr_FailedRecords := [] |}.

(** What the outside does in iteration [i]: [w_claimed i] and [w_acked i] are the
    clock before the claim and before the acknowledgement, [w_handler] returns the
    text of the delivery error. *)
Record DrainWorld := {
  w_cancelled : nat → option error; w_claimed : nat → Time; w_acked : nat → Time;
  w_io_claim : nat → fault; w_io_ack : nat → fault; w_handler : nat → OutboxRecord → option string }.

Definition dr_count (outcome : option string) (record : OutboxRecord) (r : OutboxDispatchReport) : OutboxDispatchReport :=
  match outcome with
  | None =>
      {| dr_Claimed := dr_Claimed r; dr_Acked := S (dr_Acked r); dr_Retried := dr_Retried r; dr_Failed := dr_Failed r;
         dr_LastError := dr_LastError r; dr_FailedRecords := dr_FailedRecords r |}
  | Some err =>
      if exhausted record then
        {| dr_Claimed := dr_Claimed r; dr_Acked := dr_Acked r; dr_Retried := dr_Retried r; dr_Failed := S (dr_Failed r);
           dr_LastError := err;
           dr_FailedRecords := dr_FailedRecords r ++
             [ob_delivery "failed" (ob_Owner record) (ob_LeaseExpiresAt record) (ob_Attempts record) err
                (ob_UpdatedAt record) record] |}
      else
        {| dr_Claimed := dr_Claimed r; dr_Acked := dr_Acked r; dr_Retried := S (dr_Retried r); dr_Failed := dr_Failed r;
           dr_LastError := err; dr_FailedRecords := dr_FailedRecords r |}
  end.
Definition dr_claim (r : OutboxDispatchReport) : OutboxDispatchReport :=
  {| dr_Claimed := S (dr_Claimed r); dr_Acked := dr_Acked r; dr_Retried := dr_Retried r; dr_Failed := dr_Failed r;
     dr_LastError := dr_LastError r; dr_FailedRecords := dr_FailedRecords r |}.

Section drain.
Context `{!MapRange, !JsonClone}.
Context {JM : ∀ T, JsonMarshal T}.
Context (w : DrainWorld) (owner : string) (ttl : Duration) (planID : string).

(** The loop, by the number of claims left: every iteration claims or returns. *)
Fixpoint drain (left : nat) (s : Store) (report : OutboxDispatchReport)
    : Store * OutboxDispatchReport * result unit :=
  match left with
  | 0 => (s, report, Ok tt)
  | S left' =>
      let i := dr_Claimed report in
      match w_cancelled w i with
      | Some e => (s, report, Err e)
      | None =>
          match ClaimOutbox (w_io_claim w i) (w_claimed w i) s planID owner ttl (w_claimed w i) with
          | (s1, Err e) => (s1, report, if errors_is ErrNotFound e then Ok tt else Err e)
          | (s1, Ok record) =>
              let report := dr_claim report in
              let deliveryErr := w_handler w i record in
              match AckOutbox (w_io_ack w i) (w_acked w i) s1 (ob_ID record) owner (w_acked w i) deliveryErr with
              | (s2, Err e) => (s2, report, Err e)
              | (s2, Ok _) => drain left' s2 (dr_count deliveryErr record report)
              end
          end
      end
  end.
End drain.

Definition Drain `{!MapRange, !JsonClone} {JM : ∀ T, JsonMarshal T} (d : OutboxDispatcher) (w : DrainWorld)
    (s : Store) (planID : string) : Store * OutboxDispatchReport * result unit :=
  if blank (d_Owner d) then (s, no_report, Err (Errorf "outbox owner is required" [])) else
  let ttl := if (d_LeaseTTL d <=? 0)%Z then (15 * Minute)%Z else d_LeaseTTL d in
  let limit := if (d_MaxBatch d <=? 0)%Z then 100%Z else d_MaxBatch d in
  drain w (d_Owner d) ttl planID (Z.to_nat limit) s no_report.
