(* ===== verification/EventChain.v ===== *)
(** * EventChain: what the hash chain guarantees

    An accepted chain is contiguous and linked; a freshly sealed event extends
    it; and its last envelope hash pins down the whole history. *)
From stdpp Require Import base strings gmap list pretty.
From Stdlib Require Import ZArith Lia.
From S2P Require Import Prelude GoLib GoStrings Trace GoValue GoJson ContextModel OrchModel GraphSearch Validate ProjectionData Projection Repair Transition ContextSpec Scheduler Events Samples.

(** The envelope hash a chain ends with. *)
Definition head_hash (events : list Event) : string :=
  match last events with Some e => ev_EnvelopeHash e | None => "" end.

Lemma head_hash_snoc es e : head_hash (es ++ [e]) = ev_EnvelopeHash e.
Proof. unfold head_hash. by rewrite last_snoc. Qed.

(** A loop over a list extended by one element. *)
Lemma fold_each_snoc {A S} (f : S → nat → A → result S) xs x i s :
  fold_each_from i f s (xs ++ [x]) = rbind (fold_each_from i f s xs) (λ s', f s' (i + length xs) x).
Proof.
  revert i s. induction xs as [|y xs IH]; intros i s; simpl.
  - rewrite Nat.add_0_r. by destruct (f s i x).
  - destruct (f s i y) as [s'|e]; simpl; [|done]. rewrite IH. by rewrite Nat.add_succ_r.
Qed.

Section chain.
Context `{!Sha256, !JsonCompact, !JsonMarshal Event}.

(** What one event of an accepted chain satisfies. *)
Record event_ok (planID workspaceID : string) (prev : string) (i : nat) (e : Event) : Prop := {
  eo_complete : event_incomplete e = false;
  eo_plan : ev_PlanID e = planID;
  eo_workspace : ev_WorkspaceID e = workspaceID;
  eo_sequence : ev_Sequence e = Z.of_nat (S i);
  eo_previous : ev_PreviousHash e = prev;
  eo_envelope : ev_EnvelopeHash e = eventDigest e;
  eo_payload : ev_PayloadHash e = payloadDigest (ev_Payload e);
  eo_trace : check_trace e = Ok tt }.

Lemma check_event_Ok planID workspaceID prev i e h :
  check_event planID workspaceID prev i e = Ok h ↔
  event_ok planID workspaceID prev i e ∧ h = ev_EnvelopeHash e.
Proof.
  unfold check_event. rewrite !rbind_reject_Ok, rbind_unit_Ok, orb_false_iff, !negb_false_iff, !bool_decide_eq_true.
  split.
  - intros (? & [? ?] & ? & ? & ? & ? & ? & [= <-]). by split; [split|].
  - intros [[] ->]. naive_solver.
Qed.

Lemma fold_chain_Ok planID workspaceID es h :
  fold_each_from 0 (check_event planID workspaceID) "" es = Ok h → h = head_hash es.
Proof.
  induction es as [|e es IH] using rev_ind; [by intros [= <-]|].
  rewrite fold_each_snoc, rbind_Ok. intros (h' & _ & He).
  apply check_event_Ok in He as [_ ->]. by rewrite head_hash_snoc.
Qed.

(** The chain, event by event. *)
Lemma chain_nil planID workspaceID : ValidateEventChain [] planID workspaceID = Ok tt.
Proof. done. Qed.

Lemma chain_snoc planID workspaceID es e :
  ValidateEventChain (es ++ [e]) planID workspaceID = Ok tt ↔
  ValidateEventChain es planID workspaceID = Ok tt ∧
  event_ok planID workspaceID (head_hash es) (length es) e.
Proof.
  unfold ValidateEventChain. rewrite !rbind_any_Ok, fold_each_snoc. split.
  - intros [[h Hh] _]. apply rbind_Ok in Hh as (h' & Hes & He). pose proof (fold_chain_Ok _ _ _ _ Hes) as ->.
    apply check_event_Ok in He as [He _]. naive_solver.
  - intros [[[h Hes] _] He]. split; [|done]. pose proof (fold_chain_Ok _ _ _ _ Hes) as ->. rewrite Hes.
    exists (ev_EnvelopeHash e). simpl. by apply check_event_Ok.
Qed.

Lemma chain_app planID workspaceID es es' :
  ValidateEventChain (es ++ es') planID workspaceID = Ok tt → ValidateEventChain es planID workspaceID = Ok tt.
Proof.
  induction es' as [|e es' IH] using rev_ind; [by rewrite app_nil_r|].
  rewrite app_assoc. intros Hc. by apply chain_snoc in Hc as [Hc _]; auto.
Qed.

Lemma chain_sequence planID workspaceID es e :
  ValidateEventChain es planID workspaceID = Ok tt → last es = Some e → ev_Sequence e = Z.of_nat (length es).
Proof.
  destruct es as [|e' es _] using rev_ind; [done|]. rewrite last_snoc. intros Hc [= <-].
  apply chain_snoc in Hc as [_ He]. rewrite length_app. simpl. rewrite (eo_sequence _ _ _ _ _ He). lia.
Qed.

(** ** Sealed events extend the chain *)

Lemma eventDigest_seal e h : eventDigest (ev_hashed (ev_Payload e) (ev_PayloadHash e) h e) = eventDigest e.
Proof. done. Qed.

Lemma reseal_ok planID workspaceID prev i e :
  ev_ID e ≠ "" → ev_Type e ≠ "" → ev_Payload e ≠ "" → planID ≠ "" → workspaceID ≠ "" →
  ev_PlanID e = planID → ev_WorkspaceID e = workspaceID → ev_Sequence e = Z.of_nat (S i) →
  ev_PreviousHash e = prev → ev_PayloadHash e = payloadDigest (ev_Payload e) → check_trace e = Ok tt →
  event_ok planID workspaceID prev i (reseal e).
Proof.
  intros. subst. split; try done. unfold event_incomplete. simpl. rewrite !orb_false_iff.
  assert (payloadDigest (ev_Payload e) ≠ "") by apply sha256_nonempty.
  assert (eventDigest e ≠ "") by apply sha256_nonempty.
  split_and!; apply bool_decide_eq_false; congruence.
Qed.

Lemma carried_trace ctx e tp ts :
  Carrier ctx = (tp, ts) → TrimSpace ts = ts → ev_TraceParent e = tp → ev_TraceState e = ts → check_trace e = Ok tt.
Proof.
  intros Hc Hts Htp Hst. unfold check_trace. rewrite Htp, Hst.
  destruct (Carrier_parses _ _ _ Hc Hts) as [[-> ->]|[span ->]]; [done|]. by destruct (_ || _).
Qed.

(** A new event extends the chain.  An event created on top of the last one
    of an accepted chain and sealed after its scope was filled in is accepted
    as the chain's next event. *)
Theorem NewEvent_extends_chain {T} `{!JsonMarshal T} es planID workspaceID id wall ctx typ key (payload : T)
    node attempt token e :
  ValidateEventChain es planID workspaceID = Ok tt →
  NewEventWithContext id wall ctx (last es) planID workspaceID typ key payload = Ok e →
  id ≠ "" → json_marshal payload ≠ Some "" → (Z.of_nat (length es) + 1 < two63)%Z →
  TrimSpace (Carrier ctx).2 = (Carrier ctx).2 →
  ValidateEventChain (es ++ [reseal (ev_scoped node attempt token e)]) planID workspaceID = Ok tt.
Proof.
  intros Hc Hn Hid Hpl Hlen Hts. apply chain_snoc. split; [done|]. revert Hn. unfold NewEventWithContext.
  rewrite rbind_reject_Ok, !orb_false_iff, !bool_decide_eq_false. intros (((Hp & Hw) & Ht) & Hn).
  destruct (json_marshal payload) as [b|] eqn:Hb; [|done].
  destruct (Carrier ctx) as [tp ts] eqn:Hctx. simpl in Hts. injection Hn as <-.
  destruct (last es) as [p|] eqn:Hl.
  - pose proof (chain_sequence _ _ _ _ Hc Hl) as Hseq. apply reseal_ok; simpl; try done; try congruence.
    + rewrite Hseq. unfold add64. rewrite wrap64_id; [lia|]. unfold int64_range, two63 in *. lia.
    + unfold head_hash. by rewrite Hl.
    + by apply (carried_trace ctx _ tp ts).
  - apply last_None in Hl as ->. apply reseal_ok; simpl; try done; try congruence.
    by apply (carried_trace ctx _ tp ts).
Qed.

(** ** Tamper evidence *)

(** A digest, or the empty string before the first event. *)
Definition digest_like (h : string) : Prop := h = "" ∨ ∃ x, h = sha256_hex x.

(** The encoder writes the previous hash so that it can be read back. *)
Definition encodes_previous : Prop := ∀ e e' s,
  json_marshal e = Some s → json_marshal e' = Some s →
  digest_like (ev_PreviousHash e) → digest_like (ev_PreviousHash e') → ev_PreviousHash e = ev_PreviousHash e'.

Lemma head_hash_digest planID workspaceID es :
  ValidateEventChain es planID workspaceID = Ok tt → digest_like (head_hash es).
Proof.
  destruct es as [|e es _] using rev_ind; [by left|]. rewrite head_hash_snoc. intros Hc.
  apply chain_snoc in Hc as [_ He]. right. rewrite (eo_envelope _ _ _ _ _ He). unfold eventDigest, json_sha256. eauto.
Qed.

(** C11: tamper evidence.  Two accepted chains of the same plan with the same
    length and the same last envelope hash hold the same events as encoded,
    one by one, unless an event of the one and an event of the other are
    encoded differently and still have the same digest. *)
Theorem chain_binds_history planID workspaceID es es' :
  encodes_previous →
  (∀ e, e ∈ es ++ es' → is_Some (json_marshal (digest_view e))) →
  ValidateEventChain es planID workspaceID = Ok tt → ValidateEventChain es' planID workspaceID = Ok tt →
  length es = length es' → head_hash es = head_hash es' →
  Forall2 (λ e e', json_marshal (digest_view e) = json_marshal (digest_view e')) es es'
  ∨ ∃ e e' x y, e ∈ es ∧ e' ∈ es' ∧ json_marshal (digest_view e) = Some x ∧
      json_marshal (digest_view e') = Some y ∧ x ≠ y ∧ sha256_hex x = sha256_hex y.
Proof.
  intros Henc. revert es'. induction es as [|e es IH] using rev_ind; intros es' Hall Hc Hc' Hlen Hh.
  { symmetry in Hlen. apply length_zero_iff_nil in Hlen as ->. by left. }
  destruct es' as [|e' es' _] using rev_ind; [rewrite length_app in Hlen; simpl in Hlen; lia|].
  rewrite !head_hash_snoc in Hh. apply chain_snoc in Hc as [Hc He]. apply chain_snoc in Hc' as [Hc' He'].
  rewrite (eo_envelope _ _ _ _ _ He), (eo_envelope _ _ _ _ _ He') in Hh.
  destruct (Hall e) as [s Hs]; [set_solver|]. destruct (Hall e') as [s' Hs']; [set_solver|].
  unfold eventDigest, json_sha256 in Hh. rewrite Hs, Hs' in Hh. simpl in Hh.
  destruct (decide (s = s')) as [<-|Hne]; [|right; exists e, e', s, s'; set_solver].
  assert (head_hash es = head_hash es') as Hprev.
  { rewrite <- (eo_previous _ _ _ _ _ He), <- (eo_previous _ _ _ _ _ He').
    apply (Henc (digest_view e) (digest_view e') s Hs Hs'); simpl.
    - rewrite (eo_previous _ _ _ _ _ He). by eapply head_hash_digest.
    - rewrite (eo_previous _ _ _ _ _ He'). by eapply head_hash_digest. }
  rewrite !length_app in Hlen. simpl in Hlen.
  destruct (IH es') as [Hf|(c & c' & x & y & Hx & Hy & Hcol)]; [set_solver|done|done|lia|done| |].
  2: { right. exists c, c', x, y. rewrite !elem_of_app. auto. }
  left. apply Forall2_app; [done|]. constructor; [congruence|constructor].
Qed.
End chain.

(** ** Concrete chains *)

(** A compactor that changes nothing and an encoder that writes only the
    previous hash. *)
Definition toy_compact : JsonCompact := λ s, Some s.
Definition toy_event_json : JsonMarshal Event := λ e, Some (ev_PreviousHash e).
#[export] Existing Instance toy_compact.

#[export] Existing Instance toy_event_json.

Definition sample_event (prev : option Event) (id typ : string) : Event :=
  match NewEventWithContext id 5 None prev "plan" "ws" typ "" "x" with
  | Ok e => e
  | Err _ => {| ev_ID := ""; ev_PlanID := ""; ev_WorkspaceID := ""; ev_RunID := ""; ev_NodeID := "";
                ev_AttemptID := ""; ev_Sequence := 0; ev_Type := ""; ev_Payload := ""; ev_PayloadHash := "";
                ev_PreviousHash := ""; ev_EnvelopeHash := ""; ev_IdempotencyKey := ""; ev_FencingToken := 0;
                ev_TraceParent := ""; ev_TraceState := ""; ev_CreatedAt := 0 |}
  end.
Definition event1 : Event := sample_event None "e1" "plan.created".
Definition event2 : Event := sample_event (Some event1) "e2" "plan.published".

Lemma toy_encodes_previous : encodes_previous.
Proof. intros e e' s [= <-] [= <-] _ _. done. Qed.

Lemma NewEvent_extends_chain_witness :
  ValidateEventChain [event1] "plan" "ws" = Ok tt ∧
  ValidateEventChain [event1; reseal (ev_scoped "build" "a1" 7 event2)] "plan" "ws" = Ok tt.
Proof.
  split; [vm_compute; reflexivity|].
  apply (NewEvent_extends_chain [event1] "plan" "ws" "e2" 5 None "plan.published" "" "x" "build" "a1" 7 event2).
  - vm_compute. reflexivity.
  - vm_compute. reflexivity.
  - discriminate.
  - discriminate.
  - reflexivity.
  - reflexivity.
Defined.

(** The same history sealed with another attempt id is another chain with the
    same encodings for this encoder, which leaves the attempt id out. *)
Lemma chain_binds_history_witness :
  Forall2 (λ e e', json_marshal (digest_view e) = json_marshal (digest_view e'))
    [event1; event2] [event1; reseal (ev_scoped "build" "a1" 7 event2)]
  ∨ ∃ e e' x y, e ∈ [event1; event2] ∧ e' ∈ [event1; reseal (ev_scoped "build" "a1" 7 event2)] ∧
      json_marshal (digest_view e) = Some x ∧ json_marshal (digest_view e') = Some y ∧ x ≠ y ∧
      sha256_hex x = sha256_hex y.
Proof.
  apply (chain_binds_history "plan" "ws").
  - exact toy_encodes_previous.
  - intros e _. by eexists.
  - vm_compute. reflexivity.
  - vm_compute. reflexivity.
  - reflexivity.
  - vm_compute. reflexivity.
Defined.
