(* ===== verification/Machine.v ===== *)
(** * Machine: the plan's state machine

    The operations of a projection as one step relation, whatever their
    arguments and outcomes, and the invariant of the reachable projections. *)
From stdpp Require Import base strings gmap list pretty relations.
From Stdlib Require Import ZArith Lia.
From S2P Require Import Prelude GoLib GoValue GoJson ContextModel OrchModel GraphSearch Validate PredicateSpec GraphSpec ProjectionData Projection Repair RepairSpec Transition StartSpec RouteSpec FinishSpec ReducerInv Scheduler Events.

Section machine.
Context `{!MapRange, !Sha256, !JsonMarshal (string * StructuredResult * option FailureReason)}.
Context `{!EnvelopeContract}.
Context (plan : RequirementExecutionPlan).

(** One operation, successful or not.  [Cancel] and [Timeout] are completions.
    A retry names its node as the graph does; a binding records the run, session,
    directory and child plan of a running attempt, as the executor does after a
    dispatch. *)
Inductive step : PlanProjection → PlanProjection → Prop :=
  | step_start wall p nodeID attemptID no lease env input :
      step p (StartAttempt wall p plan nodeID attemptID no lease env input).1
  | step_finish wall p attemptID input : step p (FinishAttempt wall p plan attemptID input).1
  | step_retry p nodeID : TrimSpace nodeID = nodeID → step p (Retry p plan nodeID).1
  | step_takeover wall p attemptID owner now : step p (TakeOver wall p plan attemptID owner now).1
  | step_bind p attemptID a run session workdir child :
      pp_Attempts p !! attemptID = Some a → na_Status a = AttemptRunning →
      step p (put_attempt attemptID (bind_run run session workdir child a) p).

(** The projections of the plan's executions. *)
Inductive reachable : PlanProjection → Prop :=
  | reachable_new p : NewProjection plan = Ok p → reachable p
  | reachable_step p p' : reachable p → step p p' → reachable p'.

(** ** The initial projection *)

Lemma new_nodes_lookup ns (N : node_states) id n :
  foldl (λ m x, <[wn_ID x := new_node plan x]> m) N ns !! id = Some n →
  N !! id = Some n ∨ ∃ x, x ∈ ns ∧ wn_ID x = id ∧ n = new_node plan x.
Proof.
  induction ns as [|x ns IH] in N |- *; cbn [foldl]; [by left|]. intros Hn.
  apply IH in Hn as [Hn|(y & Hy & ? & ?)].
  - destruct (decide (wn_ID x = id)) as [<-|Hne].
    + rewrite lookup_insert_eq in Hn. injection Hn as <-. right. exists x. split; [left|done].
    + rewrite lookup_insert_ne in Hn by done. by left.
  - right. exists y. split; [by right|done].
Qed.

Lemma new_nodes_is_Some ns (N : node_states) id :
  (is_Some (N !! id) ∨ id ∈ wn_ID <$> ns) →
  is_Some (foldl (λ m x, <[wn_ID x := new_node plan x]> m) N ns !! id).
Proof.
  induction ns as [|x ns IH] in N |- *; cbn [foldl fmap list_fmap].
  - intros [?|Hin]; [done|by apply elem_of_nil in Hin].
  - intros Hin. apply IH. destruct (decide (wn_ID x = id)) as [<-|Hne].
    + left. rewrite lookup_insert_eq. eauto.
    + rewrite lookup_insert_ne by done. destruct Hin as [?|Hin]; [by left|right].
      by apply elem_of_cons in Hin as [->|?].
Qed.

Lemma NewProjection_wf p : NewProjection plan = Ok p → GraphWF (pl_GraphSnapshot plan).
Proof. unfold NewProjection. rewrite !rbind_reject_Ok, rbind_any_Ok. intros (_ & _ & [[] Hg] & _). by apply ValidateGraph_decides. Qed.

Lemma NewProjection_inv p : NewProjection plan = Ok p → reducer_inv plan p.
Proof.
  intros Hp. pose proof (NewProjection_wf p Hp) as Hwf. revert Hp. unfold NewProjection.
  rewrite !rbind_reject_Ok, rbind_any_Ok. intros (_ & _ & _ & [= <-]). split; simpl.
  - done.
  - split; [by intros id a; rewrite lookup_empty|]. intros id n Hn.
    apply new_nodes_lookup in Hn as [Hn|(x & _ & <- & ->)]; [by rewrite lookup_empty in Hn|].
    split; simpl; try done; destruct (contains _ _); done.
  - split.
    + intros e He. apply new_nodes_is_Some. right. apply node_table_dom.
      pose proof (wf_edges _ Hwf) as Hedges. rewrite Forall_forall in Hedges.
      by apply (edge_ok_ends _ _ (Hedges _ He)).
    + intros n Hn. apply new_nodes_is_Some. right. by apply list_elem_of_fmap_2.
  - intros e _ Hpos. rewrite lookup_empty. unfold times_decided. simpl. lia.
  - by intros id r; rewrite lookup_empty.
Qed.

(** ** The other operations *)

Lemma Retry_inv p nodeID :
  TrimSpace nodeID = nodeID → reducer_inv plan p → reducer_inv plan (Retry p plan nodeID).1.
Proof.
  intros Htrim [Hpid Hlive Htgt Htrav Hrep]. unfold Retry. rewrite Htrim.
  destruct (pp_Nodes p !! nodeID) as [n|] eqn:Hn; [|done].
  destruct (_ && _) eqn:E; [done|]. cbv zeta.
  assert (nodes_reopened (pp_Nodes p) (<[nodeID := np_set_Status AttemptReady n]> (pp_Nodes p))) as Hre.
  { eapply nodes_reopened_insert; [done|]. right. simpl. split_and!; auto.
    apply andb_false_iff in E. rewrite !negb_false_iff, !bool_decide_eq_true in E.
    destruct E; congruence. }
  assert (∀ s, reducer_inv plan (pp_set_Status s (put_node nodeID (np_set_Status AttemptReady n) p))) as Hs.
  { intros s. split; simpl; try done; [by eapply live_inv_reopen|by eapply targets_exist_reopen]. }
  simpl. destruct (pp_Status p ≟ PlanTerminal); [apply Hs|]. specialize (Hs (pp_Status p)). by destruct p.
Qed.

(** Writing data that is not part of the life cycle into a running attempt. *)
Lemma put_same_inv p attemptID a a' :
  reducer_inv plan p → pp_Attempts p !! attemptID = Some a → na_Status a = AttemptRunning →
  na_ID a' = na_ID a → na_PlanID a' = na_PlanID a → na_NodeID a' = na_NodeID a → na_Status a' = na_Status a →
  na_StartedAt a' = na_StartedAt a → na_FinishedAt a' = na_FinishedAt a →
  reducer_inv plan (put_attempt attemptID a' p).
Proof.
  intros [Hpid Hlive Htgt Htrav Hrep] Ha Hr E1 E2 E3 E4 E5 E6. split; simpl; try done.
  destruct (li_attempts _ _ _ Hlive _ _ Ha) as [W1 W2 W3 W4 W5 W6].
  destruct (W6 Hr) as (n & Hn & Hs & Hc). rewrite <- (insert_id (pp_Nodes p) _ _ Hn).
  apply live_inv_set; simpl; try congruence; try done.
  - unfold times_ok in *. by rewrite E4, E5, E6.
  - apply (nw_id _ _ _ (li_nodes _ _ _ Hlive _ _ Hn)).
  - intros j b Hb Hbn Hrb. by eapply live_inv_exclusive.
Qed.

Lemma put_lease_inv p attemptID a l :
  reducer_inv plan p → pp_Attempts p !! attemptID = Some a → na_Status a = AttemptRunning →
  reducer_inv plan (put_attempt attemptID (na_set_Lease l a) p).
Proof. intros Hinv Ha Hr. by apply (put_same_inv p attemptID a). Qed.

Lemma bind_inv p attemptID a run session workdir child :
  reducer_inv plan p → pp_Attempts p !! attemptID = Some a → na_Status a = AttemptRunning →
  reducer_inv plan (put_attempt attemptID (bind_run run session workdir child a) p).
Proof. intros Hinv Ha Hr. by apply (put_same_inv p attemptID a). Qed.

Lemma TakeOver_inv wall p attemptID owner now :
  NoDup (we_ID <$> g_Edges (pl_GraphSnapshot plan)) →
  reducer_inv plan p → reducer_inv plan (TakeOver wall p plan attemptID owner now).1.
Proof.
  intros Hnd Hinv. unfold TakeOver. destruct (pp_Attempts p !! attemptID) as [a|] eqn:Ha; [|done].
  unfold running. case_bool_decide as Hr; simpl; [|done]. case_bool_decide; [done|].
  pose proof (put_lease_inv p attemptID a (takeover_lease owner (orNow wall now) (na_Lease a)) Hinv Ha Hr) as Hq.
  pose proof (FinishAttempt_inv plan Hnd wall _ attemptID
    (control_input plan "" (ls_FencingToken (takeover_lease owner (orNow wall now) (na_Lease a))) "timeout" "timeout"
       "human takeover" ("human-takeover:" +:+ attemptID) "human_takeover" "attempt taken over" true (orNow wall now))
    Hq) as Hf. simpl in Hf. by destruct (FinishAttempt _ _ _ _ _).
Qed.

Lemma step_inv p p' :
  NoDup (we_ID <$> g_Edges (pl_GraphSnapshot plan)) → step p p' → reducer_inv plan p → reducer_inv plan p'.
Proof.
  intros Hnd Hs Hinv. destruct Hs.
  - by apply StartAttempt_inv.
  - by apply FinishAttempt_inv.
  - by apply Retry_inv.
  - by apply TakeOver_inv.
  - by apply bind_inv.
Qed.

Lemma reachable_wf p : reachable p → GraphWF (pl_GraphSnapshot plan).
Proof. induction 1; [by eapply NewProjection_wf|done]. Qed.

Lemma reachable_inv p : reachable p → reducer_inv plan p.
Proof.
  induction 1 as [p Hp|p p' Hr IH Hs]; [by apply NewProjection_inv|].
  eapply step_inv; [|done..]. apply (wf_edge_ids _ (reachable_wf _ Hr)).
Qed.

(** ** The attempt log is append-only *)

(** Attempts that have ended are kept as they are. *)
Definition log_kept (A A' : attempt_log) : Prop :=
  ∀ id a, A !! id = Some a → ended a → A' !! id = Some a.

#[global] Instance log_kept_preorder : PreOrder log_kept.
Proof. split; [by intros A id a ? ?|]. intros A B C Hab Hbc id a Ha He. auto. Qed.

Lemma log_kept_insert A id a b :
  A !! id = None ∨ (A !! id = Some b ∧ ¬ ended b) → log_kept A (<[id := a]> A).
Proof.
  intros Hid k x Hx Hend. destruct (decide (k = id)) as [->|Hne].
  - destruct Hid as [Hid|[Hid Hb]]; rewrite Hid in Hx; [done|]. by injection Hx as <-.
  - by rewrite lookup_insert_ne.
Qed.

Lemma repair_frame_attempts p q : repair_frame p q → pp_Attempts q = pp_Attempts p.
Proof. by intros (N & M & -> & _). Qed.

Lemma route_attempts wall p a input :
  pp_Attempts (route wall p plan a input).1 = pp_Attempts p.
Proof. by apply (route_keeps pp_Attempts). Qed.

Lemma shortCircuit_attempts a p : pp_Attempts (shortCircuit plan a p) = pp_Attempts p.
Proof.
  unfold shortCircuit. cbv zeta. destruct (negb _); [done|].
  generalize (g_Nodes (pl_GraphSnapshot plan)). intros ns. induction ns as [|c ns IH] in p |- *; [done|].
  cbn [foldl]. rewrite IH. destruct (_ ≠? _); [done|]. destruct (existsb _ _); [|done].
  cbv zeta. by destruct (_ && _).
Qed.

Lemma finishReason_attempts a p : pp_Attempts (finishReason a p) = pp_Attempts p.
Proof. unfold finishReason. case_bool_decide; [done|]. by destruct (pp_RepairPlans p !! _). Qed.

(** A completion writes at most its own attempt, and only when it succeeds. *)
Lemma finishCommit_attempts wall q n a a' attemptID input :
  pp_Attempts q !! attemptID = Some a →
  let out := finishCommit wall q plan n a' attemptID input in
  match out.2 with
  | Ok b => b = a' ∧ pp_Attempts out.1 = <[attemptID := a']> (pp_Attempts q)
  | Err _ => pp_Attempts out.1 = pp_Attempts q
  end.
Proof.
  intros Ha. cbv zeta. unfold finishCommit. cbv zeta.
  destruct (finishRecord_fields q n a' attemptID input) as (_ & R2 & _).
  destruct (routes _ _); simpl; [|by rewrite finishReason_attempts, shortCircuit_attempts, R2].
  pose proof (route_attempts wall (shortCircuit plan a' (finishRecord q n a' attemptID input)) a' input) as Hr.
  destruct (route _ _ _ _ _) as [p3 [u|e]]; simpl in *.
  - by rewrite finishReason_attempts, Hr, shortCircuit_attempts, R2.
  - destruct (finishRollback_fields q p3 attemptID (na_NodeID a') input a Ha) as (_ & -> & _).
    by rewrite Hr, shortCircuit_attempts, R2, insert_insert_eq, (insert_id (pp_Attempts q)).
Qed.

Lemma FinishAttempt_attempts wall p attemptID input :
  let out := FinishAttempt wall p plan attemptID input in
  match out.2 with
  | Err _ => pp_Attempts out.1 = pp_Attempts p
  | Ok b => pp_Attempts out.1 !! attemptID = Some b ∧
            (pp_Attempts out.1 = pp_Attempts p ∨
             ∃ a, pp_Attempts p !! attemptID = Some a ∧ ¬ ended a ∧ finished_as a b ∧
                  pp_Attempts out.1 = <[attemptID := b]> (pp_Attempts p))
  end.
Proof.
  cbv zeta. pose proof (FinishAttempt_cases plan wall p attemptID input) as Hc. cbv zeta in Hc.
  destruct Hc as [(e & ->)|[(a & n & -> & Hr)|(a & n & q & Hf & Hfr & _ & Hc)]]; [done| |].
  { apply finishFence_replay in Hr as [Ha _]. by split; [|left]. }
  apply repair_frame_attempts in Hfr. pose proof (fc_attempt _ _ _ _ _ _ Hf) as Ha.
  destruct Hc as [(e & ->)|(a' & Hfa & ->)]; [done|].
  pose proof (finishCommit_attempts wall q n a a' attemptID (ti_set_Now (orNow wall (ti_Now input)) input)) as Hc.
  rewrite Hfr in Hc. specialize (Hc Ha). cbv zeta in Hc.
  destruct (finishCommit _ _ _ _ _ _ _) as [s [b|e]]; simpl in *; [|done]. destruct Hc as [-> Hc].
  split; [by rewrite Hc, lookup_insert_eq|]. right. exists a. split_and!; try done.
  unfold ended. destruct (fc_live _ _ _ _ _ _ Hf); naive_solver.
Qed.

Lemma FinishAttempt_log wall p attemptID input :
  log_kept (pp_Attempts p) (pp_Attempts (FinishAttempt wall p plan attemptID input).1).
Proof.
  pose proof (FinishAttempt_attempts wall p attemptID input) as Hc. cbv zeta in Hc.
  destruct (FinishAttempt _ _ _ _ _) as [s [b|e]]; simpl in *; [|by rewrite Hc].
  destruct Hc as [_ [->|(a & Ha & Hn & _ & ->)]]; [done|]. apply (log_kept_insert _ _ _ a). by right.
Qed.

Lemma step_log p p' : step p p' → log_kept (pp_Attempts p) (pp_Attempts p').
Proof.
  destruct 1 as [wall p nodeID attemptID no lease env input|wall p attemptID input|p nodeID _|wall p attemptID owner now|p attemptID a run session workdir child Ha Hr].
  - pose proof (StartAttempt_cases wall p plan nodeID attemptID no lease env input) as Hc. cbv zeta in Hc.
    destruct (startGuards _ _ _ _ _ _ _ _ _) as [[old|n no']|e] eqn:Hg; [by rewrite Hc| |by rewrite Hc].
    destruct Hc as (a & m & -> & _ & ->). apply startGuards_fresh in Hg. simpl.
    set (a := new_attempt _ _ _ _ _ _ _ _ _ _ _). apply (log_kept_insert _ _ _ a). left.
    unfold a. destruct (new_attempt_fields p plan (node_definition (pl_GraphSnapshot plan) nodeID) nodeID attemptID no'
      lease n env (ti_set_Now (orNow wall (ti_Now input)) input) (orNow wall (ti_Now input))) as (-> & _).
    apply (fs_new _ _ _ _ _ _ _ _ _ _ _ Hg).
  - apply FinishAttempt_log.
  - unfold Retry. destruct (pp_Nodes p !! _); [|done]. destruct (_ && _); [done|]. simpl. by case_bool_decide.
  - unfold TakeOver. destruct (pp_Attempts p !! attemptID) as [a|] eqn:Ha; [|done].
    unfold running. case_bool_decide as Hr; simpl; [|done]. case_bool_decide; [done|]. cbv zeta.
    match goal with |- context [FinishAttempt wall ?q plan attemptID ?i] =>
      pose proof (FinishAttempt_log wall q attemptID i) as Hl;
      destruct (FinishAttempt wall q plan attemptID i) as [s r] end.
    simpl in *. etrans; [|exact Hl]. apply (log_kept_insert _ _ _ a). right. split; [done|]. unfold ended. naive_solver.
  - apply (log_kept_insert _ _ _ a). right. split; [done|]. unfold ended. naive_solver.
Qed.
End machine.
