(* ===== verification/RepositoryInv.v ===== *)
(** * RepositoryInv: what every operation of the store preserves

    [TablesWF] is what a snapshot must satisfy to be loaded again; [sync] says
    that memory and file agree.  The two lemmas about [persist_or] carry every
    operation: a write either replaces the file by the new tables or rolls the
    tables back. *)
From stdpp Require Import base strings gmap list pretty relations.
From Stdlib Require Import ZArith Lia.
From S2P Require Import Prelude GoLib GoStrings Trace GoValue GoJson ContextModel OrchModel GraphSearch Validate PredicateSpec GraphSpec Definitions ProjectionData Projection Repair Transition FinishSpec Scheduler Events Repository Outbox EventChain Machine.

(** ** Tables up to empty chains

    A rolled back commit may leave an empty chain behind where there was none;
    [chain_of] cannot tell the difference. *)
Record tables_equiv (t u : Tables) : Prop := {
  te_agents : t_agents t = t_agents u;
  te_squads : t_squads t = t_squads u;
  te_plans : t_plans t = t_plans u;
  te_projections : t_projections t = t_projections u;
  te_keys : t_keys t = t_keys u;
  te_chains : ∀ id, chain_of t id = chain_of u id;
  te_outbox : t_outbox t = t_outbox u }.
#[export] Instance tables_Equiv : Equiv Tables := tables_equiv.

#[export] Instance tables_equivalence : Equivalence (≡@{Tables}).
Proof.
  split.
  - by split.
  - intros t u []. by split; symmetry.
  - intros t u v [] []. split; intros; etrans; eauto.
Qed.

#[export] Instance chain_of_proper : Proper ((≡) ==> (=) ==> (=)) chain_of.
Proof. intros t u [] id ? <-. done. Qed.

#[export] Instance t_plans_proper : Proper ((≡) ==> (=)) t_plans.
Proof. by intros t u []. Qed.
#[export] Instance t_projections_proper : Proper ((≡) ==> (=)) t_projections.
Proof. by intros t u []. Qed.
#[export] Instance t_keys_proper : Proper ((≡) ==> (=)) t_keys.
Proof. by intros t u []. Qed.
#[export] Instance t_outbox_proper : Proper ((≡) ==> (=)) t_outbox.
Proof. by intros t u []. Qed.

Lemma restore_insert {A} (m : gmap string A) k v : restore k (m !! k) (<[k:=v]> m) = m.
Proof.
  unfold restore. destruct (m !! k) as [w|] eqn:E.
  - rewrite insert_insert_eq. by apply insert_id.
  - by apply delete_insert_id.
Qed.

Lemma restore_Forall {A} (P : string → A → Prop) (m : gmap string A) k old :
  map_Forall P m → (∀ v, old = Some v → P k v) → map_Forall P (restore k old m).
Proof.
  intros Hm Hold. unfold restore. destruct old as [v|].
  - apply map_Forall_insert_2; [by apply Hold|done].
  - intros i x Hi. apply lookup_delete_Some in Hi as [_ Hi]. by apply Hm.
Qed.

Section invariants.
Context `{!MapRange, !Sha256, !JsonCompact, !JsonClone}.
Context {JM : ∀ T, JsonMarshal T}.

(** ** Well-formed tables *)

Definition plan_wf (id : string) (p : RequirementExecutionPlan) : Prop :=
  pl_ID p = id ∧ canonicalPlanHash p = Ok (pl_PlanHash p).
Definition projection_wf (id : string) (q : PlanProjection) : Prop :=
  pp_PlanID q = id ∧ PlanProjection_Validate q = Ok tt.
Definition chain_wf (id : string) (es : list Event) : Prop :=
  es = [] ∨ ∃ ws, ValidateEventChain es id ws = Ok tt.

Record TablesWF (t : Tables) : Prop := {
  wf_plans : map_Forall plan_wf (t_plans t);
  wf_projections : map_Forall projection_wf (t_projections t);
  wf_chains : map_Forall chain_wf (t_events t) }.

Lemma check_range {A} (f : nat → string * A → result unit) (P : string → A → Prop) (m : gmap string A) :
  (∀ i k v, f i (k, v) = Ok tt ↔ P k v) → check_each f (range m) = Ok tt ↔ map_Forall P m.
Proof.
  intros Hf. rewrite check_each_Ok. split.
  - intros Hc k v Hk. apply elem_of_range, list_elem_of_lookup in Hk as [j Hj].
    by eapply Hf, (Hc j (k, v)).
  - intros Hm j [k v] Hj. apply Hf, Hm, elem_of_range. by eapply list_elem_of_lookup_2.
Qed.

Lemma check_plan_Ok i k p : check_plan i (k, p) = Ok tt ↔ plan_wf k p.
Proof.
  unfold check_plan, plan_wf. rewrite rbind_reject_Ok, negb_false_iff, bool_decide_eq_true.
  destruct (canonicalPlanHash p) as [h|e]; [|naive_solver].
  rewrite reject_tt, negb_false_iff, bool_decide_eq_true. naive_solver.
Qed.
Lemma check_projection_Ok i k q : check_projection i (k, q) = Ok tt ↔ projection_wf k q.
Proof.
  unfold check_projection, projection_wf. by rewrite rbind_reject_Ok, negb_false_iff, bool_decide_eq_true, wrap_err_Ok.
Qed.
Lemma chain_head planID ws e es : ValidateEventChain (e :: es) planID ws = Ok tt → ev_WorkspaceID e = ws.
Proof.
  intros Hc. apply (chain_app planID ws [e] es) in Hc. apply (chain_snoc planID ws [] e) in Hc as [_ He].
  by destruct He.
Qed.
Lemma check_chain_Ok i k es : check_chain i (k, es) = Ok tt ↔ chain_wf k es.
Proof.
  unfold check_chain, chain_wf. destruct es as [|e es]; [naive_solver|]. rewrite wrap_err_Ok. split; [eauto|].
  intros [|[ws Hc]]; [done|]. by rewrite (chain_head _ _ _ _ Hc).
Qed.

Lemma check_tables_Ok t : check_tables t = Ok tt ↔ TablesWF t.
Proof.
  unfold check_tables. rewrite !rbind_unit_Ok, (check_range _ plan_wf), (check_range _ projection_wf),
    (check_range _ chain_wf); eauto using check_plan_Ok, check_projection_Ok, check_chain_Ok.
  split; [intros (? & ? & ?); by split|by intros []].
Qed.

Lemma TablesWF_empty : TablesWF no_tables.
Proof. split; apply map_Forall_empty. Qed.

Lemma TablesWF_chain t id : TablesWF t → chain_wf id (chain_of t id).
Proof.
  intros [_ _ Hc]. unfold chain_of. destruct (t_events t !! id) as [es|] eqn:E; [by apply Hc|by left].
Qed.

(** ** Validation does not read results

    A projection is stored and read back with its results and decisions encoded and
    decoded; nothing else of it changes, and [Validate] looks at neither. *)
Definition with_results (g : NodeAttempt → StructuredResult) (ds : list FeedbackDecision) (p : PlanProjection)
    : PlanProjection :=
  {| pp_PlanID := pp_PlanID p; pp_Revision := pp_Revision p; pp_Status := pp_Status p;
     pp_TerminalOutcome := pp_TerminalOutcome p; pp_Nodes := pp_Nodes p;
     pp_Attempts := (λ a, na_set_Result (g a) a) <$> pp_Attempts p; pp_Traversals := pp_Traversals p; pp_Decisions := ds;
     pp_RepairPlans := pp_RepairPlans p; pp_Idempotency := pp_Idempotency p; pp_TokenUsage := pp_TokenUsage p;
     pp_ToolCalls := pp_ToolCalls p; pp_CostCents := pp_CostCents p |}.

Lemma check_each_ext {A} (f f' : nat → A → result unit) xs i :
  (∀ k x, f k x = f' k x) → check_each_from i f xs = check_each_from i f' xs.
Proof. intros Hf. revert i. induction xs as [|x xs IH]; intros i; [done|]. simpl. by rewrite Hf, IH. Qed.

Lemma validateRepairPlan_results g ds p id r :
  validateRepairPlan (with_results g ds p) id r = validateRepairPlan p id r.
Proof.
  unfold validateRepairPlan.
  assert (validateRepairTarget (with_results g ds p) id r = validateRepairTarget p id r) as ->.
  { unfold validateRepairTarget. cbv zeta. cbn [with_results pp_Attempts]. rewrite lookup_fmap.
    by destruct (pp_Attempts p !! rp_TargetAttemptID r). }
  assert (validateVerifying (with_results g ds p) id r = validateVerifying p id r) as ->.
  { unfold validateVerifying. destruct (_ || _); [|done].
    rewrite (check_each_ext _ (λ _ '(nodeID, attemptID), validateVerificationAttempt p id r nodeID attemptID)); [done|].
    intros _ [nodeID attemptID]. unfold validateVerificationAttempt. cbn [with_results pp_Attempts]. rewrite lookup_fmap.
    by destruct (pp_Attempts p !! attemptID). }
  assert (validateVerified (with_results g ds p) id r = validateVerified p id r) as ->.
  { unfold validateVerified. destruct (_ ≟ _); [|done].
    rewrite (check_each_ext _ (λ _ nodeID, validateVerifiedNode p id r nodeID)); [done|].
    intros _ nodeID. unfold validateVerifiedNode. cbn [with_results pp_Attempts]. rewrite lookup_fmap.
    by destruct (pp_Attempts p !! _). }
  cbn [with_results pp_Attempts pp_PlanID]. rewrite lookup_fmap. by destruct (pp_Attempts p !! rp_RepairAttemptID r).
Qed.

Lemma validateNodeProjection_results g ds p id n :
  validateNodeProjection (with_results g ds p) id n = validateNodeProjection p id n.
Proof.
  unfold validateNodeProjection. cbn [with_results pp_Attempts]. rewrite lookup_fmap.
  by destruct (pp_Attempts p !! np_CurrentAttempt n).
Qed.

Lemma Validate_results g ds p : PlanProjection_Validate p = Ok tt → PlanProjection_Validate (with_results g ds p) = Ok tt.
Proof.
  unfold PlanProjection_Validate. rewrite !rbind_unit_Ok, !reject_tt.
  intros (G1 & G2 & G3 & Ha & Hr & Hv & Hn). split_and!; try done.
  - eapply (check_range _ (λ id a, validateAttempt p id a = Ok tt)) in Ha; [|done].
    eapply (check_range _ (λ id a, validateAttempt p id a = Ok tt)); [done|]. cbn [with_results pp_Attempts].
    intros id a Hid. apply lookup_fmap_Some in Hid as (b & <- & Hb). exact (Ha id b Hb).
  - rewrite (check_each_ext _ (λ _ '(id, r), validateRepairPlan p id r)); [done|].
    intros _ [id r]. apply validateRepairPlan_results.
  - rewrite (check_each_ext _ (λ _ '(id, n), validateNodeProjection p id n)); [done|].
    intros _ [id n]. apply validateNodeProjection_results.
Qed.

Lemma decoded_projection_wf id q : projection_wf id q → projection_wf id (decoded q).
Proof. intros [Hid Hv]. split; [done|]. by apply (Validate_results (λ a, decoded (na_Result a)) (decoded (pp_Decisions q))). Qed.

Lemma detach_wf p : PlanProjection_Validate p = Ok tt → PlanProjection_Validate (detach p) = Ok tt.
Proof.
  intros Hv.
  enough (detach p = with_results (λ a, match json_marshal a with Some _ => decoded (na_Result a) | None => na_Result a end)
    (cloneValue (pp_Decisions p)) p) as -> by by apply Validate_results.
  unfold detach, with_results. rewrite !copy_map_id. f_equal.
  - rewrite <- (map_fmap_id (pp_Nodes p)) at 2. apply map_fmap_ext. intros k n _. unfold cloneValue. by destruct (json_marshal n).
  - apply map_fmap_ext. intros k a _. unfold cloneValue. destruct (json_marshal a); [done|by destruct a].
Qed.

(** ** Files *)

(** Plans and events that are read back with the same digests: the predicates of
    the plan compare with values as encoding/json stores them, and the payload of an
    event is what the encoder writes for it, up to white space. *)
Record readable (t : Tables) : Prop := {
  rd_plans : map_Forall (λ _ p, canonicalPlanHash (decoded p) = canonicalPlanHash p) (t_plans t);
  rd_events : map_Forall (λ _ es, Forall (λ e,
      json_raw_file (ev_Payload e) ≠ "" ∧ canonicalPayload (json_raw_file (ev_Payload e)) = canonicalPayload (ev_Payload e)) es)
    (t_events t) }.

Lemma reencoded_ok planID ws prev i e :
  json_raw_file (ev_Payload e) ≠ "" → canonicalPayload (json_raw_file (ev_Payload e)) = canonicalPayload (ev_Payload e) →
  event_ok planID ws prev i e → event_ok planID ws prev i (reencoded json_raw_file e).
Proof.
  intros Hne Hc [Hi ? ? ? ? He Hp ?]. split; try done.
  - unfold event_incomplete in *. cbn [reencoded ev_hashed ev_ID ev_Type ev_PlanID ev_WorkspaceID ev_Payload ev_PayloadHash
      ev_EnvelopeHash]. rewrite !orb_false_iff in *. rewrite (bool_decide_eq_false_2 (json_raw_file _ = "")) by done. tauto.
  - change (ev_EnvelopeHash (reencoded json_raw_file e)) with (ev_EnvelopeHash e). rewrite He. unfold eventDigest, digest_view.
    cbn [reencoded ev_hashed ev_Payload ev_PayloadHash]. by rewrite Hc.
  - cbn [reencoded ev_hashed ev_Payload ev_PayloadHash]. unfold payloadDigest in *. by rewrite Hc.
Qed.

Lemma reencoded_chain planID ws es :
  Forall (λ e, json_raw_file (ev_Payload e) ≠ "" ∧
     canonicalPayload (json_raw_file (ev_Payload e)) = canonicalPayload (ev_Payload e)) es →
  ValidateEventChain es planID ws = Ok tt → ValidateEventChain (reencoded json_raw_file <$> es) planID ws = Ok tt.
Proof.
  assert (Hhead : ∀ es, head_hash (reencoded json_raw_file <$> es) = head_hash es).
  { intros l. unfold head_hash. rewrite fmap_last. by destruct (last l). }
  induction es as [|e es IH] using rev_ind; [done|]. rewrite Forall_app, Forall_singleton, fmap_app.
  intros [Hes [Hne Hc]] Hch. apply chain_snoc in Hch as [Hch He]. apply chain_snoc. split; [by apply IH|].
  rewrite Hhead, length_fmap. by apply reencoded_ok.
Qed.

Lemma read_tables_wf t : readable t → TablesWF t → TablesWF (read_tables t).
Proof.
  intros [Hrp Hre] [Hp Hq He]. split; cbn [read_tables t_plans t_projections t_events].
  - intros id p Hid. apply lookup_fmap_Some in Hid as (p0 & <- & Hid). destruct (Hp _ _ Hid) as [? Hh]. split; [done|].
    by rewrite (Hrp _ _ Hid).
  - intros id q Hid. apply lookup_fmap_Some in Hid as (q0 & <- & Hid). by apply decoded_projection_wf, Hq.
  - intros id es Hid. apply lookup_fmap_Some in Hid as (es0 & <- & Hid).
    destruct (He _ _ Hid) as [->|[ws Hc]]; [by left|]. right. exists ws. apply reencoded_chain; [by apply (Hre id)|done].
Qed.

(** A file holds the encoding of well-formed tables, or of tables that are well
    formed once they are read back. *)
Definition file_tables (f : File) : Tables :=
  match f with Some (Ok st) => ps_Tables st | _ => no_tables end.
Definition file_wf (f : File) : Prop :=
  match f with
  | None => True
  | Some (Ok st) => TablesWF (ps_Tables st) ∨ TablesWF (read_tables (ps_Tables st))
  | Some (Err _) => False
  end.

Record StoreWF (s : Store) : Prop := {
  swf_tables : TablesWF (r_tables (s_repo s));
  swf_file : file_wf (s_file s) }.

(** Memory and file agree: the file is the encoding of the tables in memory or,
    when nothing was written since it was opened, they are what was read from it. *)
Definition agree (t : Tables) (f : File) : Prop := t ≡ file_tables f ∨ t ≡ read_tables (file_tables f).
#[export] Instance agree_proper : Proper ((≡) ==> (=) ==> iff) agree.
Proof. intros t u Htu f ? <-. unfold agree. by rewrite Htu. Qed.
Definition sync (s : Store) : Prop :=
  r_statePath (s_repo s) = "" ∨
  agree (r_tables (s_repo s)) (s_file s) ∧ orchestrationRevision (s_file s) = Ok (r_revision (s_repo s)).

Definition fault_after (io : fault) : bool := match io with FaultAfter _ => true | _ => false end.

Inductive persisted (io : fault) (s : Store) : Store → result unit → Prop :=
  | persisted_clean :
      r_statePath (s_repo s) = "" ∨ r_dirty (s_repo s) = false → persisted io s s (Ok tt)
  | persisted_written s' :
      r_statePath (s_repo s') = r_statePath (s_repo s) → r_tables (s_repo s') = r_tables (s_repo s) →
      s_file s' = Some (Ok (snapshot (r_revision (s_repo s')) (r_tables (s_repo s)))) →
      persisted io s s' (Ok tt)
  | persisted_failed s' e :
      s_repo s' = s_repo s →
      s_file s' = s_file s ∨
        fault_after io = true ∧ s_file s' = Some (Ok (snapshot (add64 (r_revision (s_repo s)) 1) (r_tables (s_repo s)))) →
      persisted io s s' (Err e).

Lemma persistLocked_spec io s : persisted io s (persistLocked io s).1 (persistLocked io s).2.
Proof.
  unfold persistLocked. cbv zeta. destruct (_ || _) eqn:E.
  { apply persisted_clean. apply orb_true_iff in E. rewrite bool_decide_eq_true, negb_true_iff in E. tauto. }
  destruct (orchestrationRevision _) as [n|e] eqn:Hn; [|apply persisted_failed; auto].
  destruct (n ≠? _); [apply persisted_failed; auto|].
  destruct (json_marshal _); [|apply persisted_failed; auto].
  destruct io; simpl; [by apply persisted_written|apply persisted_failed; auto..].
Qed.

(** Atomicity of a write: the new tables are on disk, or the old ones are back in
    memory and the file is untouched. *)
Definition atomic (s s' : Store) (r : result unit) : Prop :=
  r_statePath (s_repo s') = r_statePath (s_repo s) ∧ sync s' ∧
  (r ≠ Ok tt → r_tables (s_repo s') ≡ r_tables (s_repo s) ∧ s_file s' = s_file s).

Lemma persist_or_atomic rollback io s r1 :
  fault_after io = false → sync s →
  r_statePath r1 = r_statePath (s_repo s) → r_revision r1 = r_revision (s_repo s) →
  r_dirty r1 = true ∨ r_tables r1 = r_tables (s_repo s) →
  (∀ r', r_tables r' = r_tables r1 → r_statePath r' = r_statePath r1 → r_revision r' = r_revision r1 →
     r_tables (rollback r') ≡ r_tables (s_repo s) ∧ r_statePath (rollback r') = r_statePath (s_repo s) ∧
     r_revision (rollback r') = r_revision (s_repo s)) →
  atomic s (persist_or rollback io (with_repo r1 s)).1 (persist_or rollback io (with_repo r1 s)).2.
Proof.
  intros Hio Hs Hp1 Hr1 Hd Hb. unfold persist_or.
  destruct (persistLocked io (with_repo r1 s)) as [s' r] eqn:E.
  pose proof (persistLocked_spec io (with_repo r1 s)) as Hp. rewrite E in Hp. simpl in Hp.
  destruct Hp as [Hp|s' Hpath Ht Hfile|s' e Hr Hfile]; simpl in *.
  - split_and!; [done| |done]. destruct Hp as [Hp|Hp]; [by left|]. destruct Hd as [Hd|Hd]; [congruence|].
    destruct Hs as [Hs|[Hs1 Hs2]]; [left; simpl; congruence|right]. simpl. by rewrite Hd, Hr1.
  - split_and!; [congruence| |done]. right. rewrite Hfile. split; [left; simpl; by rewrite Ht|done].
  - destruct Hfile as [Hfile|[Hf _]]; [|congruence].
    destruct (Hb (s_repo s')) as (Hbt & Hbp & Hbr); [by rewrite Hr..|].
    split_and!; [done| |done]. destruct Hs as [Hs|[Hs1 Hs2]]; [left; simpl; congruence|right].
    simpl. by rewrite Hfile, Hbr, Hbt.
Qed.

(** ** Outcomes of operations

    An operation refuses, finds nothing to do, undoes its changes ([trb]), or
    writes tables [t2] and goes back to [trb] when the write fails. *)
Inductive outcome (io : fault) (s : Store) (t2 trb : Tables) : Store * result unit → Prop :=
  | outcome_refused e : outcome io s t2 trb (s, Err e)
  | outcome_nothing : outcome io s t2 trb (s, Ok tt)
  | outcome_undone e r1 :
      r_tables r1 = trb → r_statePath r1 = r_statePath (s_repo s) → r_revision r1 = r_revision (s_repo s) →
      outcome io s t2 trb (with_repo r1 s, Err e)
  | outcome_write rollback r1 :
      r_tables r1 = t2 → r_statePath r1 = r_statePath (s_repo s) → r_revision r1 = r_revision (s_repo s) →
      r_dirty r1 = true ∨ t2 = r_tables (s_repo s) →
      (∀ r', r_tables r' = t2 → r_statePath r' = r_statePath r1 → r_revision r' = r_revision r1 →
         r_tables (rollback r') = trb ∧ r_statePath (rollback r') = r_statePath (s_repo s) ∧
         r_revision (rollback r') = r_revision (s_repo s)) →
      outcome io s t2 trb (persist_or rollback io (with_repo r1 s)).

Lemma outcome_wf io s t2 trb out :
  outcome io s t2 trb out → StoreWF s → TablesWF t2 → TablesWF trb → StoreWF out.1.
Proof.
  intros [e| |e r1 Ht Hp Hr|rollback r1 Ht Hp Hr Hd Hb] Hs Hw2 Hrb; [done..| |].
  { destruct Hs. split; simpl; [by rewrite Ht|done]. }
  unfold persist_or.
  destruct (persistLocked io (with_repo r1 s)) as [s' r] eqn:E.
  pose proof (persistLocked_spec io (with_repo r1 s)) as Hpl. rewrite E in Hpl. simpl in Hpl.
  destruct Hs as [_ Hf]. destruct Hpl as [_|s' _ Ht' Hfile|s' e Hr' Hfile]; simpl in *; subst t2.
  - by split.
  - split; [by rewrite Ht'|]. rewrite Hfile. by left.
  - destruct (Hb (s_repo s')) as (Hbt & _); [by rewrite Hr'..|]. split; simpl; [by rewrite Hbt|].
    destruct Hfile as [->|[_ ->]]; [done|by left].
Qed.

Lemma outcome_atomic io s t2 trb out :
  outcome io s t2 trb out → fault_after io = false → sync s → trb ≡ r_tables (s_repo s) → atomic s out.1 out.2.
Proof.
  intros [e| |e r1 Ht Hp Hr|rollback r1 Ht Hp Hr Hd Hb] Hio Hs Heq; [by repeat split..| |].
  { simpl. split_and!; [done| |intros _; split; [simpl; by rewrite Ht|done]].
    destruct Hs as [Hs|[Hs1 Hs2]]; [left; simpl; congruence|right]. simpl. by rewrite Ht, Hr, Heq. }
  apply persist_or_atomic; try done; [by rewrite Ht|]. intros r' Ht'. rewrite Ht in Ht'.
  intros Hp' Hr'. destruct (Hb r') as (-> & ? & ?); done.
Qed.

(** The tables in memory afterwards. *)
Lemma outcome_tables io s t2 trb out :
  outcome io s t2 trb out →
  r_tables (s_repo out.1) = r_tables (s_repo s) ∨ r_tables (s_repo out.1) = t2 ∨
  (out.2 ≠ Ok tt ∧ r_tables (s_repo out.1) = trb).
Proof.
  intros [e| |e r1 Ht Hp Hr|rollback r1 Ht Hp Hr Hd Hb]; [by left..|by right; right|right]. unfold persist_or.
  destruct (persistLocked io (with_repo r1 s)) as [s' r] eqn:E.
  pose proof (persistLocked_spec io (with_repo r1 s)) as Hpl. rewrite E in Hpl. simpl in Hpl.
  destruct Hpl as [_|s' _ Ht' Hfile|s' e Hr' Hfile]; simpl in *; [left; congruence..|right].
  split; [done|]. apply (Hb (s_repo s')); by rewrite Hr'.
Qed.
End invariants.
