(* ===== verification/RepositoryOps.v ===== *)
(** * RepositoryOps: the outcome of every operation of the store

    For each operation: which tables it writes, what a failed write goes back to,
    and that both are well formed; under the links between the tables the rollback
    is exact and plans and event chains only grow. *)
From stdpp Require Import base strings gmap list pretty relations.
From Stdlib Require Import ZArith Lia.
From S2P Require Import Prelude GoLib GoStrings Trace GoValue GoJson ContextModel OrchModel GraphSearch Validate PredicateSpec GraphSpec Definitions ProjectionData Projection Repair Transition FinishSpec Scheduler Events Repository Outbox EventChain ReducerInv Machine RepositoryInv.

(** Plans are kept, chains only grow. *)
Record grows (t u : Tables) : Prop := {
  gr_plans : t_plans t ⊆ t_plans u;
  gr_chains : ∀ id, chain_of t id `prefix_of` chain_of u id }.
#[export] Instance grows_preorder : PreOrder grows.
Proof.
  split; [by split|]. intros t u v [Hp Hc] [Hp' Hc']. split; [by etrans|]. intros id. by rewrite Hc.
Qed.
#[export] Instance grows_proper : Proper ((≡) ==> (≡) ==> iff) grows.
Proof.
  assert (∀ t t' u u', t ≡ t' → u ≡ u' → grows t u → grows t' u') as Himp.
  { intros t t' u u' Ht Hu [Hp Hc]. split; [by rewrite <- Ht, <- Hu|]. intros id. by rewrite <- Ht, <- Hu. }
  intros t t' Ht u u' Hu. split; by apply Himp.
Qed.

(** Projections and chains belong to stored plans, keys are bound, intents sit
    under their own id. *)
Record linked (t : Tables) : Prop := {
  lk_projections : ∀ id, is_Some (t_projections t !! id) → is_Some (t_plans t !! id);
  lk_chains : ∀ id, chain_of t id ≠ [] → is_Some (t_plans t !! id);
  lk_keys : ∀ k h, t_keys t !! k = Some h → h ≠ "";
  lk_outbox : ∀ id o, t_outbox t !! id = Some o → ob_ID o = id }.
#[export] Instance linked_proper : Proper ((≡) ==> iff) linked.
Proof.
  assert (∀ t u, t ≡ u → linked t → linked u) as Himp.
  { intros t u Htu [Hp Hc Hk Ho]. split.
    - intros id. rewrite <- Htu. auto.
    - intros id. rewrite <- Htu. auto.
    - intros k h. rewrite <- Htu. eauto.
    - intros k h. rewrite <- Htu. eauto. }
  intros t u Htu. split; by apply Himp.
Qed.

Lemma with_flags_self r t : with_flags r (with_tables t r) = with_tables t r.
Proof. done. Qed.
Lemma with_tables_self r : with_tables (r_tables r) r = r.
Proof. by destruct r. Qed.
Lemma with_repo_self s : with_repo (s_repo s) s = s.
Proof. by destruct s. Qed.

Lemma chain_of_insert t id es id' :
  chain_of (set_events (<[id:=es]> (t_events t)) t) id' = if decide (id = id') then es else chain_of t id'.
Proof.
  unfold chain_of. simpl. case_decide as E; [subst; by rewrite lookup_insert_eq|by rewrite lookup_insert_ne].
Qed.

(** Writing a chain back over a changed one. *)
Lemma set_events_back t id es :
  set_events (<[id:=chain_of t id]> (<[id:=es]> (t_events t))) (set_events (<[id:=es]> (t_events t)) t) ≡ t.
Proof.
  split; try done. intros id'. rewrite insert_insert_eq. unfold chain_of. simpl.
  destruct (decide (id = id')) as [<-|Hne]; [by rewrite lookup_insert_eq|by rewrite lookup_insert_ne].
Qed.

Section ops.
Context `{!MapRange, !Sha256, !JsonCompact, !JsonClone}.
Context {JM : ∀ T, JsonMarshal T}.

(** What the rest of the proof needs of one operation. *)
Definition behaves (io : fault) (s : Store) (fresh : Prop) (out : Store * result unit) : Prop :=
  let t := r_tables (s_repo s) in
  ∃ t2 trb, outcome io s t2 trb out ∧ (TablesWF t → TablesWF t2 ∧ TablesWF trb) ∧
    (linked t → fresh → trb ≡ t ∧ linked t2 ∧ grows t t2).

Lemma behaves_refused io s fresh e : behaves io s fresh (s, Err e).
Proof. exists (r_tables (s_repo s)), (r_tables (s_repo s)). split; [constructor|]. split; [auto|]. by intros. Qed.
Lemma behaves_nothing io s fresh : behaves io s fresh (s, Ok tt).
Proof. exists (r_tables (s_repo s)), (r_tables (s_repo s)). split; [constructor|]. split; [auto|]. by intros. Qed.

(** The common operation: write [t2], go back to the tables before. *)
Lemma behaves_write io s (fresh : Prop) rollback t2 :
  (∀ r', r_tables r' = t2 → r_statePath r' = r_statePath (s_repo s) → r_revision r' = r_revision (s_repo s) →
     r_tables (rollback r') = r_tables (s_repo s) ∧ r_statePath (rollback r') = r_statePath (s_repo s) ∧
     r_revision (rollback r') = r_revision (s_repo s)) →
  (TablesWF (r_tables (s_repo s)) → TablesWF t2) →
  (linked (r_tables (s_repo s)) → fresh → linked t2 ∧ grows (r_tables (s_repo s)) t2) →
  behaves io s fresh (persist_or rollback io (with_repo (dirty_tables t2 (s_repo s)) s)).
Proof.
  intros Hb Hw Hl. exists t2, (r_tables (s_repo s)). split; [apply outcome_write; auto|]. split; [auto|].
  intros Hlk Hf. destruct (Hl Hlk Hf). auto.
Qed.

(** ** Projections *)

Lemma NewProjection_validates plan p : NewProjection plan = Ok p → pp_PlanID p = pl_ID plan ∧ PlanProjection_Validate p = Ok tt.
Proof.
  intros Hn. pose proof (NewProjection_inv plan p Hn) as Hinv. revert Hn. unfold NewProjection.
  rewrite !rbind_reject_Ok, rbind_any_Ok, !orb_false_iff. intros (Hid & ((Hst & Hh) & Hrev) & _ & [= <-]).
  split; [done|]. unfold PlanProjection_Validate. cbn [pp_PlanID pp_Revision pp_Status pp_TokenUsage pp_ToolCalls
    pp_CostCents pp_Attempts pp_RepairPlans pp_TerminalOutcome].
  rewrite Hid, Hrev, Hst, !range_empty. cbn -[check_each_from pp_Nodes].
  replace (allRepairsVerified _) with true; [|unfold allRepairsVerified, range_values; simpl; by rewrite range_empty].
  rewrite andb_false_r. apply (reducer_nodes_validate plan _ Hinv).
Qed.

(** ** Definitions *)

Lemma SaveAgent_behaves io s a expected : behaves io s True (SaveAgent io s a expected).
Proof.
  unfold SaveAgent. cbv zeta. destruct (rbind _ _) as [[]|e]; [|apply behaves_refused].
  apply behaves_write.
  - intros r' Ht Hp _. split_and!; [|done..]. simpl. rewrite Ht. simpl. rewrite restore_insert. by destruct (r_tables (s_repo s)).
  - intros [? ? ?]. by split.
  - intros [? ? ?] _. split; [by split|]. by split.
Qed.

Lemma SaveSquad_behaves io s q expected : behaves io s True (SaveSquad io s q expected).
Proof.
  unfold SaveSquad. cbv zeta. destruct (rbind _ _) as [[]|e]; [|apply behaves_refused].
  apply behaves_write.
  - intros r' Ht Hp _. split_and!; [|done..]. simpl. rewrite Ht. simpl. rewrite restore_insert. by destruct (r_tables (s_repo s)).
  - intros [? ? ?]. by split.
  - intros [? ? ?] _. split; [by split|]. by split.
Qed.

(** ** Nested squads: the traversal never runs out of fuel *)

Definition squad_key (s : SquadDefinition) : string :=
  sd_WorkspaceID s +:+ ":" +:+ sd_ID s +:+ ":" +:+ pretty (sd_Revision s).
(** The stored squads whose revision is not on the path. *)
Definition unvisited (t : Tables) (visiting : gset string) : gmap string SquadDefinition :=
  filter (λ kv, squad_key kv.2 ∉ visiting) (t_squads t).

Lemma latest_of_elem {A} (f : A → bool) (rev : A → Z) xs x : latest_of f rev xs = Some x → x ∈ xs.
Proof.
  unfold latest_of. rewrite <- (app_nil_l xs) at 2.
  enough (∀ pre out, (∀ y, out = Some y → y ∈ pre) →
    foldl (λ out x, if f x && (from_option rev 0 out <? rev x)%Z then Some x else out) out xs = Some x → x ∈ pre ++ xs) as Hgen
    by (by apply Hgen).
  induction xs as [|y xs IH]; intros pre out Hout; simpl.
  - intros ->. rewrite app_nil_r. by apply Hout.
  - rewrite cons_middle, app_assoc. apply IH. intros z Hz. destruct (_ && _).
    + injection Hz as <-. set_solver.
    + apply Hout in Hz. set_solver.
Qed.

Lemma latestSquadLocked_stored t ws id q :
  latestSquadLocked t ws id = Some q → ∃ k, t_squads t !! k = Some q.
Proof.
  unfold latestSquadLocked. destruct (latest_of _ _ _) as [out|] eqn:E; [|done].
  destruct (_ ≠? _); [|done]. intros [= <-]. apply latest_of_elem in E. by apply elem_of_range_values.
Qed.

Lemma unvisited_shrinks t visiting q k :
  t_squads t !! k = Some q → squad_key q ∉ visiting →
  size (unvisited t ({[squad_key q]} ∪ visiting)) < size (unvisited t visiting).
Proof.
  intros Hk Hq. apply map_subset_size. split.
  - apply map_subseteq_spec. intros i x. unfold unvisited. rewrite !map_lookup_filter_Some. simpl. set_solver.
  - intros Hsub. assert (unvisited t ({[squad_key q]} ∪ visiting) !! k = Some q) as Hin.
    { eapply lookup_weaken; [|exact Hsub]. apply map_lookup_filter_Some. by split. }
    apply map_lookup_filter_Some in Hin as [_ Hin]. simpl in Hin. set_solver.
Qed.

Lemma squadRefs_total fuel t s depth visiting :
  S (size (unvisited t ({[squad_key s]} ∪ visiting))) < fuel → is_Some (squadRefs fuel t s depth visiting).
Proof.
  revert s depth visiting. induction fuel as [|fuel IH]; intros s depth visiting Hf; [lia|]. simpl.
  destruct (_ && _); [by eexists|]. fold (squad_key s). case_bool_decide; [by eexists|].
  induction (nested_refs s) as [|id refs IHr]; [by eexists|].
  destruct (latestSquadLocked t _ id) as [q|] eqn:Hq; [|by eexists].
  destruct (_ ≠? _); [by eexists|]. destruct (_ && _); [by eexists|].
  assert (is_Some (squadRefs fuel t q (depth + 1) ({[squad_key s]} ∪ visiting))) as [[[]|e] ->]; [|done|by eexists].
  apply latestSquadLocked_stored in Hq as [k Hk].
  destruct (decide (squad_key q ∈ ({[squad_key s]} ∪ visiting : gset string))) as [Hin|Hin].
  - destruct fuel as [|fuel']; [lia|]. simpl. destruct (_ && _); [by eexists|]. fold (squad_key q).
    rewrite bool_decide_eq_true_2 by done. by eexists.
  - apply IH. pose proof (unvisited_shrinks t _ q k Hk Hin). lia.
Qed.

(** The fuel is enough: [validateSquadGraphRefsLocked] returns what the
    traversal returns. *)
Lemma validateSquadGraphRefs_total t s :
  ∃ r, squadRefs (S (S (size (t_squads t)))) t s 0 ∅ = Some r ∧ validateSquadGraphRefsLocked t s = r.
Proof.
  destruct (squadRefs_total (S (S (size (t_squads t)))) t s 0 ∅) as [r Hr].
  - unfold unvisited. pose proof (map_size_filter (λ kv, squad_key kv.2 ∉ ({[squad_key s]} ∪ ∅ : gset string)) (t_squads t)). lia.
  - exists r. split; [done|]. unfold validateSquadGraphRefsLocked. by rewrite Hr.
Qed.

(** ** Plans *)

Lemma plan_guards_Ok p q :
  plan_guards p = Ok q → plan_wf (pl_ID p) p ∧ projection_wf (pl_ID p) q ∧ pl_PlanHash p ≠ "".
Proof.
  unfold plan_guards. rewrite !rbind_reject_Ok, rbind_unit_Ok, !orb_false_iff, !bool_decide_eq_false.
  intros ((_ & Hh) & _ & Hc & Hn). apply NewProjection_validates in Hn. split_and!; try done.
  split; [done|]. destruct (canonicalPlanHash p) as [h|e]; [|done].
  apply reject_tt, negb_false_iff, bool_decide_eq_true in Hc. by subst.
Qed.

(** The tables [CreatePlan] and [CreatePlanWithEvent] write. *)
Definition with_key (p : RequirementExecutionPlan) (t : Tables) : Tables :=
  if pl_IdempotencyKey p ≠? "" then set_keys (<[plan_key p := pl_PlanHash p]> (t_keys t)) t else t.
Definition with_plan (p : RequirementExecutionPlan) (q : PlanProjection) (t : Tables) : Tables :=
  set_projections (<[pl_ID p := q]> (t_projections t)) (set_plans (<[pl_ID p := p]> (t_plans t)) t).

Lemma with_key_wf p t : TablesWF t → TablesWF (with_key p t).
Proof. intros [? ? ?]. unfold with_key. destruct (_ ≠? _); by split. Qed.
Lemma with_plan_wf p q t : plan_wf (pl_ID p) p → projection_wf (pl_ID p) q → TablesWF t → TablesWF (with_plan p q t).
Proof. intros Hp Hq [? ? ?]. split; simpl; [by apply map_Forall_insert_2..|done]. Qed.

Lemma with_key_same p t :
  t_plans (with_key p t) = t_plans t ∧ t_projections (with_key p t) = t_projections t ∧
  t_events (with_key p t) = t_events t.
Proof. unfold with_key. by destruct (_ ≠? _). Qed.

Lemma restore_key_back p t : restore_key p (t_keys t !! plan_key p) (with_key p t) = t.
Proof.
  unfold restore_key, with_key. destruct (_ ≠? _); [|done]. simpl. rewrite restore_insert. by destruct t.
Qed.

Lemma with_plan_linked p q t : pl_PlanHash p ≠ "" → linked t → linked (with_plan p q (with_key p t)).
Proof.
  intros Hh [Hp Hc Hk Ho]. destruct (with_key_same p t) as (Hpl & Hpr & Hev).
  assert (∀ id, chain_of (with_plan p q (with_key p t)) id = chain_of t id) as Hch.
  { intros id. unfold chain_of. simpl. by rewrite Hev. }
  split; simpl.
  - intros id. rewrite Hpr, Hpl, !lookup_insert_is_Some. destruct (decide (pl_ID p = id)); naive_solver.
  - intros id. rewrite Hch, Hpl, lookup_insert_is_Some. destruct (decide (pl_ID p = id)); naive_solver.
  - intros k h. unfold with_key. destruct (_ ≠? _); simpl; [|apply Hk].
    intros [[_ <-]|[_ Hl]]%lookup_insert_Some; [done|by eapply Hk].
  - intros id o. unfold with_key. destruct (_ ≠? _); simpl; apply Ho.
Qed.

Lemma with_plan_grows p q t : t_plans t !! pl_ID p = None → grows t (with_plan p q (with_key p t)).
Proof.
  intros Hn. destruct (with_key_same p t) as (Hpl & _ & Hev). split.
  - simpl. rewrite Hpl. by apply insert_subseteq.
  - intros id. unfold chain_of. simpl. by rewrite Hev.
Qed.

Lemma CreatePlan_behaves io s p : behaves io s True (CreatePlan io s p).
Proof.
  unfold CreatePlan. destruct (plan_guards p) as [q|e] eqn:Hg; [|apply behaves_refused].
  apply plan_guards_Ok in Hg as (Hp & Hq & Hh). cbv zeta.
  destruct (_ && _); [destruct (_ ≠? pl_PlanHash p); [apply behaves_refused|apply behaves_nothing]|].
  fold (with_key p (r_tables (s_repo s))). destruct (t_plans _ !! _) as [x|] eqn:Hx.
  { rewrite restore_key_back, with_tables_self, with_repo_self. apply behaves_refused. }
  apply behaves_write.
  - intros r' Ht Hpath _. split_and!; [|done..]. simpl. rewrite Ht. unfold restore_key, with_key.
    destruct (_ ≠? _); simpl; rewrite !restore_insert, delete_insert_id by done; by destruct (r_tables (s_repo s)).
  - intros Hw. by apply (with_plan_wf p q), with_key_wf.
  - intros Hl _. split; [by apply with_plan_linked|by apply with_plan_grows].
Qed.

(** ** Projections *)

Lemma SaveProjection_behaves io s p : behaves io s True (SaveProjection io s p).
Proof.
  unfold SaveProjection. cbv zeta. destruct (rbind _ _) as [[]|e] eqn:Hg; [|apply behaves_refused].
  apply rbind_reject_Ok in Hg as [_ Hg]. apply rbind_unit_Ok in Hg as [Hv Hg].
  destruct (t_plans _ !! _) as [plan|] eqn:Hpl; [|done].
  apply behaves_write.
  - intros r' Ht Hp _. split_and!; [|done..]. simpl. rewrite Ht. simpl. rewrite restore_insert. by destruct (r_tables (s_repo s)).
  - intros [? ? ?]. split; simpl; [done| |done]. apply map_Forall_insert_2; [|done]. split; [done|by apply detach_wf].
  - intros [Hpr ? ?] _. split; [|by split]. split; simpl; try done.
    intros id. rewrite lookup_insert_is_Some. intros [<-|[_ Hid]]; eauto.
Qed.

(** ** Events *)

(** The tables an appended event leaves. *)
Definition with_event (e : Event) (t : Tables) : Tables :=
  set_events (<[ev_PlanID e := chain_of t (ev_PlanID e) ++ [e]]> (t_events t)) t.

Inductive appended (r : MemoryRepository) (planID : string) : MemoryRepository → result unit → Prop :=
  | appended_refused err : appended r planID r (Err err)
  | appended_known :
      is_Some (t_plans (r_tables r) !! planID) → chain_of (r_tables r) planID ≠ [] → appended r planID r (Ok tt)
  | appended_new e :
      ev_PlanID e = planID → is_Some (t_plans (r_tables r) !! planID) →
      chain_wf planID (chain_of (r_tables r) planID ++ [e]) →
      appended r planID (dirty_tables (with_event e (r_tables r)) r) (Ok tt).

Lemma at_tail_scope es e : ev_PlanID (at_tail es e) = ev_PlanID e ∧ ev_WorkspaceID (at_tail es e) = ev_WorkspaceID e.
Proof. unfold at_tail. cbv zeta. by destruct (_ || _). Qed.

Lemma appendEventLocked_spec r e :
  appended r (ev_PlanID e) (appendEventLocked r e).1 (appendEventLocked r e).2.
Proof.
  unfold appendEventLocked. cbv zeta. destruct (t_plans _ !! _) as [plan|] eqn:Hp; [|constructor].
  destruct (_ ≠? _); [constructor|]. destruct (find _ _) as [old|] eqn:Hf.
  { destruct (ev_PayloadHash old ≟ _); simpl; [apply appended_known; [by eauto|]|constructor].
    intros E. by rewrite E in Hf. }
  destruct (at_tail_scope (chain_of (r_tables r) (ev_PlanID e)) e) as [Hid Hws].
  set (e' := at_tail _ e) in *. do 2 (match goal with |- context [if ?b then (r, Err _) else _] => destruct b end; [constructor|]).
  destruct (ValidateEventChain _ _ _) as [[]|err] eqn:Hv; [|constructor].
  rewrite <- Hid in *. apply appended_new; [done|eauto|]. right. eauto.
Qed.

Lemma with_event_wf e t :
  chain_wf (ev_PlanID e) (chain_of t (ev_PlanID e) ++ [e]) → TablesWF t → TablesWF (with_event e t).
Proof. intros Hc [? ? ?]. split; simpl; [done..|]. by apply map_Forall_insert_2. Qed.

Lemma with_event_chain e t id :
  chain_of (with_event e t) id = if decide (ev_PlanID e = id) then chain_of t id ++ [e] else chain_of t id.
Proof. unfold with_event. rewrite chain_of_insert. by case_decide; [subst|]. Qed.

Lemma with_event_linked e t : is_Some (t_plans t !! ev_PlanID e) → linked t → linked (with_event e t).
Proof.
  intros Hp [? Hc ? ?]. split; simpl; [done| |done..]. intros id. rewrite with_event_chain.
  case_decide as E; [by rewrite <- E|apply Hc].
Qed.
Lemma with_event_grows e t : grows t (with_event e t).
Proof. split; [done|]. intros id. rewrite with_event_chain. case_decide; [by apply prefix_app_r|done]. Qed.

(** Putting the old chain back. *)
Definition put_chain (id : string) (es : list Event) (t : Tables) : Tables := set_events (<[id:=es]> (t_events t)) t.

Lemma put_chain_back e t : put_chain (ev_PlanID e) (chain_of t (ev_PlanID e)) (with_event e t) ≡ t.
Proof. apply set_events_back. Qed.
Lemma put_chain_same id t : put_chain id (chain_of t id) t ≡ t.
Proof.
  split; try done. intros id'. unfold put_chain. rewrite chain_of_insert. by case_decide; [subst|].
Qed.
Lemma put_chain_wf id es t : chain_wf id es → TablesWF t → TablesWF (put_chain id es t).
Proof. intros Hc [? ? ?]. split; simpl; [done..|]. by apply map_Forall_insert_2. Qed.

Lemma truncate_with_event e t :
  truncate_chain (ev_PlanID e) (length (chain_of t (ev_PlanID e))) (with_event e t) ≡ t.
Proof.
  unfold truncate_chain. rewrite with_event_chain, decide_True, length_app by done. cbn [length].
  rewrite (proj2 (Nat.ltb_lt _ _)) by lia. destruct (_ =? 0)%nat eqn:E.
  - apply Nat.eqb_eq, length_zero_iff_nil in E. split; try done. intros id. unfold chain_of. simpl.
    destruct (decide (ev_PlanID e = id)) as [<-|Hne].
    + rewrite lookup_delete_eq. symmetry. exact E.
    + by rewrite lookup_delete_ne, lookup_insert_ne.
  - rewrite take_app_length. apply put_chain_back.
Qed.
Lemma truncate_same id t : truncate_chain id (length (chain_of t id)) t = t.
Proof. unfold truncate_chain. by rewrite Nat.ltb_irrefl. Qed.
Lemma truncate_wf id n t : TablesWF t → TablesWF (truncate_chain id n t).
Proof.
  intros Hw. unfold truncate_chain. destruct (_ <? _)%nat; [|done].
  pose proof (TablesWF_chain t id Hw) as Hc. destruct Hw as [? ? Hch]. split; simpl; [done..|].
  destruct (_ =? _)%nat; [by apply map_Forall_delete|]. apply map_Forall_insert_2; [|done].
  destruct Hc as [->|[ws Hc]]; [left; by rewrite take_nil|right]. exists ws.
  rewrite <- (take_drop n (chain_of t id)) in Hc. by eapply chain_app.
Qed.

(** An operation that appends an event, changes the tables by [f] and puts the
    old chain back by [back] when the write fails. *)
Lemma behaves_append io s (fresh : Prop) e (f back : Tables → Tables) (flags : MemoryRepository → MemoryRepository) :
  let r := s_repo s in
  (∀ r', r_tables (flags r') = r_tables r' ∧ r_statePath (flags r') = r_statePath r' ∧
         r_revision (flags r') = r_revision r') →
  (∀ r', r_dirty (flags r') = true ∨ flags r' = r' ∧ ∀ t, f t = t) →
  (∀ t, TablesWF t → TablesWF (f t)) →
  (TablesWF (r_tables r) → ∀ t, TablesWF t → TablesWF (back t)) →
  (∀ t, is_Some (t_plans t !! ev_PlanID e) → linked t → fresh → linked (f t) ∧ grows t (f t)) →
  (linked (r_tables r) → fresh → ∀ t, t = r_tables r ∨ (∃ e', ev_PlanID e' = ev_PlanID e ∧ t = with_event e' (r_tables r)) →
     back (f t) ≡ r_tables r) →
  behaves io s fresh
    match appendEventLocked r e with
    | (r', Err err) => (with_repo r' s, Err err)
    | (r', Ok _) =>
        persist_or (λ r'', with_flags r (with_tables (back (r_tables r'')) r''))
          io (with_repo (flags (with_tables (f (r_tables r')) r')) s)
    end.
Proof.
  intros r Hflags Hdirty Hwf Hbwf Hlk Hback. pose proof (appendEventLocked_spec r e) as Ha.
  destruct (appendEventLocked r e) as [r' res]. simpl in Ha.
  assert (∀ t, r_tables r' = t → is_Some (t_plans t !! ev_PlanID e) → r_statePath r' = r_statePath r →
    r_revision r' = r_revision r → r_dirty r' = true ∨ t = r_tables r →
    (TablesWF (r_tables r) → TablesWF t) → (linked (r_tables r) → linked t ∧ grows (r_tables r) t) →
    t = r_tables r ∨ (∃ e', ev_PlanID e' = ev_PlanID e ∧ t = with_event e' (r_tables r)) →
    behaves io s fresh (persist_or (λ r'', with_flags r (with_tables (back (r_tables r'')) r''))
      io (with_repo (flags (with_tables (f t) r')) s))) as Hmain.
  { intros t Ht Hplan Hpath Hrev Hd Hw Hl Hform. exists (f t), (back (f t)).
    destruct (Hflags (with_tables (f t) r')) as (F1 & F2 & F3). split; [|split].
    - apply outcome_write; [by rewrite F1|by rewrite F2|by rewrite F3| |].
      + destruct (Hdirty (with_tables (f t) r')) as [?|[-> Hid]]; [by left|]. rewrite Hid. simpl. naive_solver.
      + intros r'' Ht'' Hp'' _. simpl. rewrite Ht'', Hp'', F2. simpl. done.
    - intros Hw0. split; [by apply Hwf, Hw|]. by apply Hbwf, Hwf, Hw.
    - intros Hl0 Hf. split; [by apply Hback|]. destruct (Hl Hl0) as [Hl1 Hg1].
      destruct (Hlk t Hplan Hl1 Hf) as [Hl2 Hg2]. split; [done|]. by etrans. }
  destruct Ha as [err|Hp _|e' He Hp Hc].
  - subst r. rewrite with_repo_self. apply behaves_refused.
  - apply Hmain; auto. by intros.
  - rewrite <- He in *. apply Hmain; simpl; auto.
    + intros. by apply with_event_wf.
    + intros. split; [by apply with_event_linked|by apply with_event_grows].
    + right. eauto.
Qed.

(** The same when nothing but the chain changes. *)
Lemma behaves_append_only io s e (back : Tables → Tables) :
  let r := s_repo s in
  (TablesWF (r_tables r) → ∀ t, TablesWF t → TablesWF (back t)) →
  back (r_tables r) ≡ r_tables r →
  (∀ e', ev_PlanID e' = ev_PlanID e → back (with_event e' (r_tables r)) ≡ r_tables r) →
  behaves io s True
    match appendEventLocked r e with
    | (r', Err err) => (with_repo r' s, Err err)
    | (r', Ok _) => persist_or (λ r'', with_flags r (with_tables (back (r_tables r'')) r'')) io (with_repo r' s)
    end.
Proof.
  intros r Hw Hsame Hback. pose proof (behaves_append io s True e id back id) as Hb. cbv zeta in Hb. fold r in Hb.
  unfold id in Hb. destruct (appendEventLocked r e) as [r' [[]|err]].
  all: try rewrite with_tables_self in Hb; apply Hb; auto; [by split|].
  all: intros _ _ t [->|(e' & He & ->)]; auto.
Qed.

Lemma AppendEvent_behaves io s e : behaves io s True (AppendEvent io s e).
Proof.
  unfold AppendEvent. cbv zeta. apply behaves_append_only.
  - intros _ t. apply truncate_wf.
  - by rewrite truncate_same.
  - intros e' He. rewrite <- He. apply truncate_with_event.
Qed.

Lemma repair_event_behaves io s p existing e :
  ev_PlanID e = pl_ID p → behaves io s True (repair_event io s p existing e).
Proof.
  intros He. unfold repair_event. cbv zeta. destruct (_ ≠? _); [apply behaves_refused|]. rewrite <- He.
  apply (behaves_append_only io s e (put_chain (ev_PlanID e) (chain_of (r_tables (s_repo s)) (ev_PlanID e)))).
  - intros Hw t. apply put_chain_wf. by apply TablesWF_chain.
  - apply put_chain_same.
  - intros e' He'. rewrite <- He'. apply put_chain_back.
Qed.

Lemma CommitEventProjection_behaves io s e p : behaves io s True (CommitEventProjection io s e p).
Proof.
  unfold CommitEventProjection. cbv zeta. destruct (rbind _ _) as [[]|err] eqn:Hg; [|apply behaves_refused].
  apply rbind_reject_Ok in Hg as [Hid Hg]. apply rbind_unit_Ok in Hg as [Hv _].
  apply orb_false_iff in Hid as [_ Hid]. apply negb_false_iff, bool_decide_eq_true in Hid. rewrite cloneProjection_id.
  set (t := r_tables (s_repo s)). set (id := pp_PlanID p) in *.
  apply (behaves_append io s True e (λ t', set_projections (<[id := p]> (t_projections t')) t')
    (λ t', let t' := put_chain (ev_PlanID e) (chain_of t (ev_PlanID e)) t' in
       set_projections (restore id (t_projections t !! id) (t_projections t')) t')
    (λ r', dirty_tables (r_tables r') r')); try done.
  - by left.
  - intros t' [? ? ?]. split; simpl; [done| |done]. by apply map_Forall_insert_2.
  - intros Hw t' Hw'. apply (put_chain_wf (ev_PlanID e) (chain_of t (ev_PlanID e))) in Hw' as [Wp Wq Wc];
      [|by apply TablesWF_chain]. split; simpl; [done| |done]. apply restore_Forall; [done|].
    intros q Hq. by apply (wf_projections _ Hw).
  - intros t' Hp [? ? ?] _. split; [|by split]. split; simpl; try done.
    intros i. rewrite lookup_insert_is_Some. intros [<-|[_ ?]]; [by rewrite <- Hid|auto].
  - intros _ _ t' Ht'. cbv zeta.
    assert (put_chain (ev_PlanID e) (chain_of t (ev_PlanID e)) t' ≡ t ∧ t_projections t' = t_projections t) as [Hc Hpr].
    { destruct Ht' as [->|(e' & <- & ->)]; (split; [|done]); [apply put_chain_same|apply put_chain_back]. }
    destruct Hc as [? ? ? ? ? Hch ?]. split; simpl in *; try done. rewrite Hpr. apply restore_insert.
Qed.

(** A key that is bound to this very plan hash belongs to the stored plan of that
    id: the canonical hash covers the id. *)
Definition key_fresh (p : RequirementExecutionPlan) (t : Tables) : Prop :=
  t_keys t !! plan_key p = Some (pl_PlanHash p) → is_Some (t_plans t !! pl_ID p).

Lemma default_key_scope p e : ev_PlanID (default_key p e) = ev_PlanID e.
Proof. unfold default_key. by destruct (blank _). Qed.

(** Forgetting a plan that was just added, whatever became of its chain. *)
Lemma forget_plan_wf p t : TablesWF t → TablesWF (forget_plan p t).
Proof.
  intros [? ? ?]. unfold forget_plan, restore_key. destruct (_ ≠? _); (split; simpl; [by apply map_Forall_delete..|done]).
Qed.
Lemma forget_chain_wf p t :
  TablesWF t → TablesWF (forget_plan p (set_events (delete (pl_ID p) (t_events t)) t)).
Proof. intros [? ? ?]. apply forget_plan_wf. split; simpl; [done..|]. by apply map_Forall_delete. Qed.

Lemma forget_plan_back p q t :
  linked t → t_plans t !! pl_ID p = None →
  (pl_IdempotencyKey p ≠ "" → t_keys t !! plan_key p = None) →
  forget_plan p (with_plan p q (with_key p t)) ≡ t.
Proof.
  intros [Hpr _ _ _] Hn Hk.
  assert (t_projections t !! pl_ID p = None) as Hq.
  { apply eq_None_not_Some. intros Hs. apply Hpr in Hs. rewrite Hn in Hs. by destruct Hs. }
  unfold forget_plan, restore_key, with_plan, with_key. destruct (decide (pl_IdempotencyKey p = "")) as [E|E].
  - rewrite (bool_decide_true _ E). simpl. split; try done; by apply delete_insert_id.
  - rewrite (bool_decide_false _ E). simpl. split; try done; simpl; by apply delete_insert_id, Hk || apply delete_insert_id.
Qed.

Lemma forget_chain_back p q t e :
  linked t → t_plans t !! pl_ID p = None → ev_PlanID e = pl_ID p →
  (pl_IdempotencyKey p ≠ "" → t_keys t !! plan_key p = None) →
  let t' := with_event e (with_plan p q (with_key p t)) in
  forget_plan p (set_events (delete (pl_ID p) (t_events t')) t') ≡ t.
Proof.
  intros Hl Hn He Hk t'. pose proof (forget_plan_back p q t Hl Hn Hk) as [? ? ? ? ? Hch ?].
  destruct (with_key_same p t) as (_ & _ & Hev).
  split; try (unfold t', forget_plan, restore_key in *; destruct (_ ≠? _); done).
  intros id. assert (t_events (forget_plan p (set_events (delete (pl_ID p) (t_events t')) t')) =
    delete (pl_ID p) (t_events t)) as Hd.
  { unfold t', forget_plan, restore_key. destruct (_ ≠? _); simpl; by rewrite He, delete_insert_eq, Hev. }
  unfold chain_of at 1. rewrite Hd. destruct (decide (pl_ID p = id)) as [<-|Hne].
  - rewrite lookup_delete_eq. destruct (decide (chain_of t (pl_ID p) = [])) as [E|E]; [done|].
    apply (lk_chains _ Hl) in E. rewrite Hn in E. by destruct E.
  - by rewrite lookup_delete_ne.
Qed.

Lemma CreatePlanWithEvent_behaves io s p event :
  behaves io s (key_fresh p (r_tables (s_repo s))) (CreatePlanWithEvent io s p event).
Proof.
  unfold CreatePlanWithEvent. cbv zeta. destruct (rbind _ _) as [q|err] eqn:Hg; [|apply behaves_refused].
  apply rbind_Ok in Hg as (q' & Hg & Hsc). apply rbind_reject_Ok in Hsc as [Hsc [= ->]].
  rewrite !orb_false_iff, !negb_false_iff, !bool_decide_eq_true in Hsc. destruct Hsc as ((Hid & _) & _).
  rewrite <- (default_key_scope p event) in Hid. set (e := default_key p event) in *.
  apply plan_guards_Ok in Hg as (Hp & Hq & Hh). set (t := r_tables (s_repo s)). set (r := s_repo s).
  destruct (t_plans t !! pl_ID p) as [x|] eqn:Hx.
  { destruct (repair_event_behaves io s p x e Hid) as (t2 & trb & Ho & Hw & Hl). exists t2, trb. naive_solver. }
  destruct (_ && _ && _) eqn:Hc; [apply behaves_refused|]. fold (with_key p t). fold (with_plan p q (with_key p t)).
  set (t2 := with_plan p q (with_key p t)).
  assert (linked t → key_fresh p t → pl_IdempotencyKey p ≠ "" → t_keys t !! plan_key p = None) as Hnk.
  { intros Hl Hf Hne. destruct (t_keys t !! plan_key p) as [h|] eqn:Hkk; [|done]. exfalso.
    pose proof (lk_keys _ Hl _ _ Hkk) as Hhne. simpl in Hc. rewrite (bool_decide_false _ Hne), (bool_decide_false _ Hhne) in Hc.
    simpl in Hc. apply negb_false_iff, bool_decide_eq_true in Hc. subst h. unfold key_fresh in Hf. rewrite Hkk, Hx in Hf.
    by destruct (Hf eq_refl). }
  assert (TablesWF t → TablesWF t2) as Hw2 by (intros; by apply with_plan_wf, with_key_wf).
  pose proof (appendEventLocked_spec (with_tables t2 r) e) as Ha.
  destruct (appendEventLocked (with_tables t2 r) e) as [r' res]. simpl in Ha. rewrite Hid in Ha.
  set (trb t' := forget_plan p (set_events (delete (pl_ID p) (t_events t')) t')).
  destruct Ha as [err|_ Hne|e' He _ Hch].
  - exists t2, (forget_plan p t2). split; [by apply outcome_undone|]. split.
    + intros Hw. split; [by apply Hw2|]. by apply forget_plan_wf, Hw2.
    + intros Hl Hf. split_and!; [by apply forget_plan_back; auto|by apply with_plan_linked|by apply with_plan_grows].
  - exists t2, (trb t2). split; [|split].
    + apply outcome_write; auto. intros r'' Ht'' Hp'' _. simpl. by rewrite Ht''.
    + intros Hw. split; [by apply Hw2|]. by apply forget_chain_wf, Hw2.
    + intros Hl _. exfalso. destruct (with_key_same p t) as (_ & _ & Hev).
      assert (is_Some (t_plans t !! pl_ID p)) as Hs; [|rewrite Hx in Hs; by destruct Hs].
      apply (lk_chains _ Hl). revert Hne. unfold chain_of, t2. simpl. by rewrite Hev.
  - exists (with_event e' t2), (trb (with_event e' t2)). split; [|split].
    + apply outcome_write; auto. intros r'' Ht'' Hp'' _. simpl. by rewrite Ht''.
    + intros Hw. rewrite <- He in Hch. pose proof (with_event_wf e' t2 Hch (Hw2 Hw)). split; [done|].
      by apply forget_chain_wf.
    + intros Hl Hf. split; [apply forget_chain_back; auto|].
      assert (linked t2) by by apply with_plan_linked. split.
      * apply with_event_linked; [|done]. rewrite He. simpl. rewrite lookup_insert_eq. eauto.
      * etrans; [by apply with_plan_grows|apply with_event_grows].
Qed.

(** ** Outbox *)

Definition unit_of {A} (out : Store * result A) : Store * result unit :=
  (out.1, match out.2 with Ok _ => Ok tt | Err e => Err e end).

Lemma persist_or_unit rollback io s : persist_or rollback io s = unit_of (persist_or rollback io s).
Proof. unfold unit_of. by destruct (persist_or rollback io s) as [s' [[]|e]]. Qed.

(** The result of a write is discarded, extended or passed on. *)
Lemma unit_of_write {A} (f : Store → A) out :
  unit_of (match out with (s', Ok _) => (s', Ok (f s')) | (s', Err e) => (s', Err e) end) = unit_of (A := unit) out.
Proof. by destruct out as [s' [[]|e]]. Qed.

Lemma set_outbox_wf m t : TablesWF t → TablesWF (set_outbox m t).
Proof. intros [? ? ?]. by split. Qed.
Lemma set_outbox_linked o t : linked t → linked (set_outbox (<[ob_ID o := o]> (t_outbox t)) t).
Proof.
  intros [? ? ? Ho]. split; simpl; try done. intros id x [[<- <-]|[_ Hl]]%lookup_insert_Some; [done|by apply Ho].
Qed.
Lemma set_outbox_grows m t : grows t (set_outbox m t).
Proof. by split. Qed.

Lemma write_outbox_behaves io s item old :
  behaves io s (outbox_of s !! ob_ID item = Some old) (write_outbox io s item old).
Proof.
  unfold write_outbox. cbv zeta. set (t := r_tables (s_repo s)).
  set (t2 := set_outbox (<[ob_ID item := item]> (outbox_of s)) t).
  exists t2, (set_outbox (<[ob_ID item := old]> (t_outbox t2)) t2). split; [|split].
  - apply outcome_write; auto. intros r' Ht Hp Hr. simpl. by rewrite Ht.
  - intros Hw. split; by repeat apply set_outbox_wf.
  - intros Hl Hold. split_and!; [|by apply set_outbox_linked|by apply set_outbox_grows].
    split; try done. simpl. rewrite insert_insert_eq. by apply insert_id.
Qed.

Lemma claimOutboxLocked_behaves io s id owner ttl now :
  behaves io s True (unit_of (claimOutboxLocked io s id owner ttl now)).
Proof.
  unfold claimOutboxLocked. destruct (outbox_of s !! id) as [o|] eqn:Ho; [|apply behaves_refused].
  destruct (settled o); [apply behaves_refused|]. destruct (leased now o); [apply behaves_refused|]. cbv zeta.
  set (claimed := ob_delivery _ _ _ _ _ _ _). rewrite unit_of_write.
  unfold write_outbox. cbv zeta. rewrite <- persist_or_unit.
  destruct (write_outbox_behaves io s claimed (default zero_OutboxRecord (outbox_of s !! ob_ID claimed)))
    as (t2 & trb & Hout & Hw & Hl). exists t2, trb. split_and!; [done..|]. intros Hlk _. apply Hl; [done|].
  assert (ob_ID claimed = id) as Hid by (apply (lk_outbox _ Hlk _ _ Ho)). by rewrite Hid, Ho.
Qed.

Lemma ClaimOutbox_behaves io wall s planID owner ttl now :
  behaves io s True (unit_of (ClaimOutbox io wall s planID owner ttl now)).
Proof.
  unfold ClaimOutbox. cbv zeta. destruct (_ || _); [apply behaves_refused|].
  destruct (_ ≟ _); [apply behaves_refused|]. apply claimOutboxLocked_behaves.
Qed.
Lemma ClaimOutboxByID_behaves io wall s id owner ttl now :
  behaves io s True (unit_of (ClaimOutboxByID io wall s id owner ttl now)).
Proof.
  unfold ClaimOutboxByID. destruct (blank id); [apply behaves_refused|].
  destruct (_ || _); [apply behaves_refused|]. apply claimOutboxLocked_behaves.
Qed.

Lemma held_intent_Ok s id owner now item :
  held_intent s id owner now = Ok item →
  outbox_of s !! TrimSpace id = Some item ∧ leased now item = true ∧ ob_Owner item = owner.
Proof.
  unfold held_intent, leased. destruct (outbox_of s !! _) as [o|]; [|done].
  rewrite rbind_reject_Ok, !orb_false_iff, !negb_false_iff, andb_true_iff, !bool_decide_eq_true.
  by intros (((? & ?) & ?) & [= <-]).
Qed.

(** Settling an intent by its own record. *)
Lemma settle_behaves io s id owner now item status lastError :
  held_intent s id owner now = Ok item →
  behaves io s True (write_outbox io s (ob_delivery status "" 0 (ob_Attempts item) lastError now item) item).
Proof.
  intros (Ho & _ & _)%held_intent_Ok.
  destruct (write_outbox_behaves io s (ob_delivery status "" 0 (ob_Attempts item) lastError now item) item)
    as (t2 & trb & Hout & Hw & Hl). exists t2, trb. split_and!; [done..|]. intros Hlk _. apply Hl; [done|].
  simpl. by rewrite (lk_outbox _ Hlk _ _ Ho).
Qed.
Lemma AckOutbox_behaves io wall s id owner now err : behaves io s True (AckOutbox io wall s id owner now err).
Proof.
  unfold AckOutbox. cbv zeta. destruct (held_intent _ _ _ _) as [item|e] eqn:Hh; [|apply behaves_refused].
  destruct err as [err|]; by eapply settle_behaves.
Qed.
Lemma FailOutbox_behaves io wall s id owner now reason : behaves io s True (FailOutbox io wall s id owner now reason).
Proof.
  unfold FailOutbox. cbv zeta. destruct (blank reason); [apply behaves_refused|].
  destruct (held_intent _ _ _ _) as [item|e] eqn:Hh; [by eapply settle_behaves|apply behaves_refused].
Qed.

(** The id an enqueued intent gets. *)
Definition enqueue_id (wall : Time) (o : OutboxRecord) : string :=
  if ob_ID o ≟ "" then "outbox-" +:+ pretty (UnixNano wall) else ob_ID o.

(** A copy of an intent differs from it in its payload only. *)
Lemma clone_outbox o : ∃ payload, cloneValue o = ob_with_payload payload o.
Proof.
  unfold cloneValue. destruct (json_marshal o); [by exists (decoded (ob_Payload o))|]. exists (ob_Payload o). by destruct o.
Qed.

Lemma EnqueueOutbox_behaves io wall s o :
  behaves io s (outbox_of s !! enqueue_id wall o = None) (unit_of (EnqueueOutbox io wall s o)).
Proof.
  unfold EnqueueOutbox. cbv zeta. destruct (_ || _); [apply behaves_refused|].
  destruct (find _ _) as [x|]; [destruct (_ || _); [apply behaves_refused|apply behaves_nothing]|].
  rewrite unit_of_write, <- persist_or_unit.
  change (ob_ID (ob_scoped _ _ _ o)) with (ob_ID o). fold (enqueue_id wall o).
  set (id := enqueue_id wall o).
  match goal with |- context [cloneValue ?x] => destruct (clone_outbox x) as [payload ->] end.
  set (o' := ob_with_payload _ _). set (t := r_tables (s_repo s)).
  set (t2 := set_outbox (<[id := o']> (outbox_of s)) t).
  exists t2, (set_outbox (delete id (t_outbox t2)) t2). split; [|split].
  - apply outcome_write; auto. intros r' Ht Hp Hr. simpl. by rewrite Ht.
  - intros Hw. split; by repeat apply set_outbox_wf.
  - intros Hl Hold. split_and!; [|by apply (set_outbox_linked o')|by apply set_outbox_grows].
    split; try done. simpl. by apply delete_insert_id.
Qed.

Lemma Flush_behaves io s : behaves io s True (Flush io s).
Proof.
  assert (Flush io s = persist_or id io (with_repo (s_repo s) s)) as ->.
  { unfold Flush, persist_or. rewrite with_repo_self. destruct (persistLocked io s) as [s' [[]|e]]; [done|].
    unfold id. by rewrite with_repo_self. }
  exists (r_tables (s_repo s)), (r_tables (s_repo s)). split; [|split; [auto|by intros]].
  apply outcome_write; auto.
Qed.
End ops.
