(* ===== verification/RepositoryProps.v ===== *)
(** * RepositoryProps: crash safety, atomicity and append-only history of the store *)
From stdpp Require Import base strings gmap list pretty relations.
From Stdlib Require Import ZArith Lia.
From S2P Require Import Prelude GoLib GoStrings Trace GoValue GoJson ContextModel OrchModel GraphSearch Validate PredicateSpec GraphSpec Definitions ProjectionData Projection Repair Transition ContextSpec Samples FinishSpec Scheduler Events Repository Outbox EventChain Machine RepositoryInv RepositoryOps.

(** ** Runs of a store *)

Inductive repo_op :=
  | OpSaveAgent (a : AgentDefinition) (expected : Z)
  | OpSaveSquad (q : SquadDefinition) (expected : Z)
  | OpCreatePlan (p : RequirementExecutionPlan)
  | OpCreatePlanWithEvent (p : RequirementExecutionPlan) (e : Event)
  | OpSaveProjection (p : PlanProjection)
  | OpAppendEvent (e : Event)
  | OpCommit (e : Event) (p : PlanProjection)
  | OpFlush
  | OpEnqueue (wall : Time) (o : OutboxRecord)
  | OpClaim (wall : Time) (planID owner : string) (ttl : Duration) (now : Time)
  | OpClaimByID (wall : Time) (id owner : string) (ttl : Duration) (now : Time)
  | OpAck (wall : Time) (id owner : string) (now : Time) (err : option string)
  | OpFail (wall : Time) (id owner : string) (now : Time) (reason : string).

Section runs.
Context `{!MapRange, !Sha256, !JsonCompact, !JsonClone}.
Context {JM : ∀ T, JsonMarshal T}.

Definition run_op (io : fault) (s : Store) (op : repo_op) : Store * result unit :=
  match op with
  | OpSaveAgent a expected => SaveAgent io s a expected
  | OpSaveSquad q expected => SaveSquad io s q expected
  | OpCreatePlan p => CreatePlan io s p
  | OpCreatePlanWithEvent p e => CreatePlanWithEvent io s p e
  | OpSaveProjection p => SaveProjection io s p
  | OpAppendEvent e => AppendEvent io s e
  | OpCommit e p => CommitEventProjection io s e p
  | OpFlush => Flush io s
  | OpEnqueue wall o => unit_of (EnqueueOutbox io wall s o)
  | OpClaim wall planID owner ttl now => unit_of (ClaimOutbox io wall s planID owner ttl now)
  | OpClaimByID wall id owner ttl now => unit_of (ClaimOutboxByID io wall s id owner ttl now)
  | OpAck wall id owner now err => AckOutbox io wall s id owner now err
  | OpFail wall id owner now reason => FailOutbox io wall s id owner now reason
  end.

(** What the two operations that delete on rollback rely on. *)
Definition op_fresh (s : Store) (op : repo_op) : Prop :=
  match op with
  | OpCreatePlanWithEvent p _ => key_fresh p (r_tables (s_repo s))
  | OpEnqueue wall o => outbox_of s !! enqueue_id wall o = None
  | _ => True
  end.

Lemma run_op_behaves io s op : behaves io s (op_fresh s op) (run_op io s op).
Proof.
  destruct op; simpl; eauto using SaveAgent_behaves, SaveSquad_behaves, CreatePlan_behaves, CreatePlanWithEvent_behaves,
    SaveProjection_behaves, AppendEvent_behaves, CommitEventProjection_behaves, Flush_behaves, EnqueueOutbox_behaves,
    ClaimOutbox_behaves, ClaimOutboxByID_behaves, AckOutbox_behaves, FailOutbox_behaves.
Qed.

(** A step of a process: an operation, a restore, or a restart after a crash.  A
    crash during a write is a fault followed by a restart. *)
Inductive step : relation Store :=
  | step_op io op s : step s (run_op io s op).1
  | step_restore io path backup s : step s (Restore io path backup s).1
  | step_restart s r :
      NewPersistentRepository (r_statePath (s_repo s)) (s_file s) = Ok r →
      step s {| s_repo := r; s_file := s_file s |}.

(** A store opened on a file. *)
Definition opened (path : string) (s : Store) : Prop :=
  TrimSpace path ≠ "" ∧ NewPersistentRepository path (s_file s) = Ok (s_repo s).

Lemma open_wf path file r :
  TrimSpace path ≠ "" → NewPersistentRepository path file = Ok r →
  TablesWF (r_tables r) ∧ file_wf file ∧ r_statePath r = TrimSpace path.
Proof.
  intros Hp. unfold NewPersistentRepository. rewrite (bool_decide_false _ Hp). unfold load.
  destruct file as [[st|e]|]; [|done|].
  - cbv zeta. rewrite rbind_unit_Ok, check_tables_Ok. intros [Hw [= <-]]. split_and!; [done|by right|done].
  - intros [= <-]. split_and!; [apply TablesWF_empty|done..].
Qed.

Lemma load_wf path file :
  TrimSpace path ≠ "" → file_wf file → readable (file_tables file) → ∃ r, NewPersistentRepository path file = Ok r.
Proof.
  intros Hp Hf Hrd. unfold NewPersistentRepository. rewrite (bool_decide_false _ Hp). unfold load.
  destruct file as [[st|e]|]; [|done|by eexists]. cbv zeta.
  assert (TablesWF (read_tables (ps_Tables st))) as Hw%check_tables_Ok by (destruct Hf; [by apply read_tables_wf|done]).
  rewrite Hw. simpl. by eexists.
Qed.

Lemma Restore_wf io path backup s : StoreWF s → StoreWF (Restore io path backup s).1.
Proof.
  intros Hs. unfold Restore. destruct (_ ≟ _); [done|]. destruct backup as [[st|e]|]; [|done..].
  cbv zeta. destruct (validateRepositoryState _) as [[]|e] eqn:Hv; [|done].
  unfold validateRepositoryState in Hv. cbn [ps_Tables] in Hv. rewrite rbind_reject_Ok, rbind_unit_Ok, check_tables_Ok in Hv.
  destruct Hv as (_ & Hw & _). destruct Hs as [Ht Hf]. cbv zeta.
  set (s1 := with_repo _ s). pose proof (persistLocked_spec io s1) as Hp.
  destruct (persistLocked io s1) as [s' r]. simpl in Hp.
  destruct Hp as [_|s' _ Ht' Hfile|s' e _ Hfile]; simpl; split; simpl; try done.
  - by rewrite Ht'.
  - rewrite Hfile. by left.
  - destruct Hfile as [->|[_ ->]]; [done|by left].
Qed.

Lemma statePath_kept io s op : r_statePath (s_repo (run_op io s op).1) = r_statePath (s_repo s).
Proof.
  destruct (run_op_behaves io s op) as (t2 & trb & Ho & _ & _).
  destruct Ho as [e| |e r1 _ Hp _|rollback r1 Ht Hp Hr Hd Hb]; [done..|]. unfold persist_or.
  destruct (persistLocked io (with_repo r1 s)) as [s' r] eqn:E.
  pose proof (persistLocked_spec io (with_repo r1 s)) as Hpl. rewrite E in Hpl. simpl in Hpl.
  destruct Hpl as [_|s' Hp' _ _|s' e Hr' _]; simpl in *; [done|congruence|].
  apply Hb; by rewrite Hr'.
Qed.

Lemma Restore_statePath io path backup s : r_statePath (s_repo (Restore io path backup s).1) = r_statePath (s_repo s).
Proof.
  unfold Restore. destruct (_ ≟ _); [done|]. destruct backup as [[st|e]|]; [|done..].
  cbv zeta. destruct (validateRepositoryState _); [|done].
  set (s1 := with_repo _ s). pose proof (persistLocked_spec io s1) as Hp.
  destruct (persistLocked io s1) as [s' r]. simpl in Hp.
  by destruct Hp as [_|s' Hpath _ _|s' e _ _]; simpl; [|rewrite Hpath|].
Qed.

Lemma reachable_store path s0 s :
  opened path s0 → rtc step s0 s → StoreWF s ∧ r_statePath (s_repo s) = TrimSpace path.
Proof.
  intros [Hp Ho] Hr. apply (rtc_ind_r (λ s, StoreWF s ∧ r_statePath (s_repo s) = TrimSpace path)) with (x := s0) in Hr;
    [done| |].
  { apply open_wf in Ho as (? & ? & ?); [|done]. split; [by split|done]. }
  intros x y _ Hs [Hw Hpath]. destruct Hs as [io op x|io path' backup x|x r Hn].
  - split; [|by rewrite statePath_kept]. destruct (run_op_behaves io x op) as (t2 & trb & Hout & Hwf & _).
    pose proof (swf_tables _ Hw) as Hwt. apply Hwf in Hwt as [? ?]. by eapply outcome_wf.
  - split; [by apply Restore_wf|by rewrite Restore_statePath].
  - assert (TrimSpace (r_statePath (s_repo x)) = TrimSpace path) as Htr by by rewrite Hpath, TrimSpace_idem.
    apply open_wf in Hn as (Hwt & Hwf & Hn); [|by rewrite Htr]. split; [by split|]. simpl. congruence.
Qed.

(** C12: crash safety.  Whatever operations, restores, I/O faults and restarts a
    store goes through, the tables in memory hold plans under their own id with the
    hash of their contents, valid projections and valid event chains; and its
    snapshot file can be loaded again, into tables of which the same holds, as long as
    the plans and events in it are read back from JSON with the digests they were
    stored with ([readable]: the event payloads are written the way the encoder writes
    them, up to white space, and the predicates of the plans hash the same after a
    round trip).  The events the executor appends are encoded by json.Marshal and
    satisfy it; an event appended with a raw < does not
    ([raw_payload_unloadable]). *)
Theorem restart_always_loads path s0 s :
  opened path s0 → rtc step s0 s →
  TablesWF (r_tables (s_repo s)) ∧
  (readable (file_tables (s_file s)) → ∃ r, NewPersistentRepository path (s_file s) = Ok r ∧ TablesWF (r_tables r)).
Proof.
  intros Ho Hr. destruct (reachable_store path s0 s Ho Hr) as [[Ht Hf] Hp]. split; [done|]. intros Hrd.
  destruct Ho as [Hpath _]. destruct (load_wf path (s_file s) Hpath Hf Hrd) as [r Hl]. exists r. split; [done|].
  by apply open_wf in Hl as (? & _ & _).
Qed.

(** ** Live runs: operations on one open store *)

Definition live_step (s s' : Store) : Prop := ∃ io op, op_fresh s op ∧ s' = (run_op io s op).1.
Definition tame_step (s s' : Store) : Prop :=
  ∃ io op, fault_after io = false ∧ op_fresh s op ∧ s' = (run_op io s op).1.

Lemma live_step_linked s s' :
  live_step s s' → linked (r_tables (s_repo s)) →
  linked (r_tables (s_repo s')) ∧ grows (r_tables (s_repo s)) (r_tables (s_repo s')).
Proof.
  intros (io & op & Hf & ->) Hl. destruct (run_op_behaves io s op) as (t2 & trb & Ho & _ & Hb).
  destruct (Hb Hl Hf) as (Heq & Hl2 & Hg).
  destruct (outcome_tables _ _ _ _ _ Ho) as [->|[->|[_ ->]]]; [done..|]. split; [by rewrite Heq|by rewrite Heq].
Qed.

(** C14: history is append-only.  Over any run of operations, whatever I/O faults
    occur, a stored plan is never changed or removed and the event chain of a
    plan only grows at its end. *)
Theorem history_append_only s s' :
  linked (r_tables (s_repo s)) → rtc live_step s s' →
  (∀ id p, t_plans (r_tables (s_repo s)) !! id = Some p → t_plans (r_tables (s_repo s')) !! id = Some p) ∧
  (∀ id, chain_of (r_tables (s_repo s)) id `prefix_of` chain_of (r_tables (s_repo s')) id).
Proof.
  intros Hl Hr. enough (linked (r_tables (s_repo s')) ∧ grows (r_tables (s_repo s)) (r_tables (s_repo s'))) as [_ [Hp Hc]].
  { split; [|done]. intros id p Hid. by eapply lookup_weaken. }
  apply (rtc_ind_r (λ x, linked (r_tables (s_repo x)) ∧ grows (r_tables (s_repo s)) (r_tables (s_repo x)))) with (x := s) in Hr;
    [done|done|]. intros x y _ Hs [Hlx Hg]. destruct (live_step_linked _ _ Hs Hlx) as [? ?]. split; [done|]. by etrans.
Qed.

Lemma opened_sync path s : opened path s → sync s.
Proof.
  intros [Hp Ho]. right. revert Ho. unfold NewPersistentRepository. rewrite (bool_decide_false _ Hp). unfold load.
  destruct (s_file s) as [[st|e]|]; [|done|].
  - cbv zeta. rewrite rbind_unit_Ok. intros [_ [= <-]]. split; [by right|done].
  - intros [= <-]. split; [by left|done].
Qed.

Lemma tame_step_sync s s' :
  tame_step s s' → linked (r_tables (s_repo s)) → sync s → linked (r_tables (s_repo s')) ∧ sync s'.
Proof.
  intros (io & op & Hio & Hf & ->) Hl Hs. split; [apply (live_step_linked s); [by exists io, op|done]|].
  destruct (run_op_behaves io s op) as (t2 & trb & Ho & _ & Hb). destruct (Hb Hl Hf) as (Heq & _ & _).
  by destruct (outcome_atomic _ _ _ _ _ Ho Hio Hs Heq) as (_ & ? & _).
Qed.

(** C13: atomic commits.  Starting from a store opened on a file whose projections and
    chains belong to stored plans and whose intents lie under their own ids
    ([linked]), as long as the file system does not fail after the rename, no intent
    is enqueued under an id that is in use ([OutboxProps.enqueue_replaces_intent])
    and no plan is created with an event under an idempotency key that is bound to
    its hash while no plan of its id is stored, whose binding a rollback would delete
    ([op_fresh]), every operation either succeeds and leaves on disk the encoding of
    exactly the tables it leaves in memory (or the file they were read from, when
    nothing has been written since), or fails and leaves the tables and the file as
    they were (up to an empty event chain). *)
Theorem operations_atomic path s0 s io op :
  opened path s0 → linked (r_tables (s_repo s0)) → rtc tame_step s0 s → fault_after io = false → op_fresh s op →
  let s' := (run_op io s op).1 in
  (r_statePath (s_repo s') = "" ∨ agree (r_tables (s_repo s')) (s_file s')) ∧
  ((run_op io s op).2 ≠ Ok tt → r_tables (s_repo s') ≡ r_tables (s_repo s) ∧ s_file s' = s_file s).
Proof.
  intros Ho Hl Hr Hio Hf s'.
  assert (linked (r_tables (s_repo s)) ∧ sync s) as [Hls Hs].
  { apply (rtc_ind_r (λ x, linked (r_tables (s_repo x)) ∧ sync x)) with (x := s0) in Hr; [done| |].
    - split; [done|by eapply opened_sync].
    - intros x y _ Hxy [? ?]. by eapply tame_step_sync. }
  destruct (run_op_behaves io s op) as (t2 & trb & Hout & _ & Hb). destruct (Hb Hls Hf) as (Heq & _ & _).
  destruct (outcome_atomic _ _ _ _ _ Hout Hio Hs Heq) as (_ & Hsync & Herr). split; [|done].
  destruct Hsync as [?|[? _]]; [by left|by right].
Qed.
End runs.

(** ** A store on a file *)

Definition toy_clone : JsonClone := {| json_any := id; json_raw := id; json_raw_file := id |}.
#[export] Existing Instance toy_clone.
Abbreviation run := (run_op (JM := toy_json)) (only parsing).

Definition stored_plan : RequirementExecutionPlan := pl_with "h:json" PlanReady 1 1 sample_plan.
Definition created_event : Event :=
  match @NewEventWithContext toy_sha toy_compact (toy_json Event) string (toy_json string)
          "e1" 5 None None "plan" "ws" "plan.created" "" "x" with
  | Ok e => e
  | Err _ => event1
  end.
Definition bound_event : Event :=
  match @NewEventWithContext toy_sha toy_compact (toy_json Event) string (toy_json string)
          "e2" 6 None (Some (ev_set_key "plan:plan.created" created_event)) "plan" "ws" "plan.published" "k" "y" with
  | Ok e => e
  | Err _ => event1
  end.

Definition fresh_store : Store := {| s_repo := newMemoryRepository "state.json"; s_file := None |}.
Definition planned_store : Store := (run NoFault fresh_store (OpCreatePlanWithEvent stored_plan created_event)).1.
Definition torn_store : Store :=
  (run (FaultAfter (Errorf "sync" [])) planned_store (OpCommit bound_event (new_of stored_plan))).1.

Lemma fresh_opened : opened (JM := toy_json) "state.json" fresh_store.
Proof. split; [discriminate|reflexivity]. Qed.
Lemma fresh_linked : linked no_tables.
Proof. split; [intros id [x Hx]; discriminate Hx|by intros id|intros k h Hx; discriminate Hx..]. Qed.

Lemma toy_events_readable (m : gmap string (list Event)) :
  forallb (λ kv, forallb (λ e, ev_Payload e ≠? "") kv.2) (map_to_list m) = true →
  map_Forall (λ _ es, Forall (λ e, json_raw_file (ev_Payload e) ≠ "" ∧
    canonicalPayload (json_raw_file (ev_Payload e)) = canonicalPayload (ev_Payload e)) es) m.
Proof.
  intros Hf id es Hid. apply elem_of_map_to_list in Hid. rewrite forallb_forall in Hf.
  apply list_elem_of_In, Hf in Hid. cbn [snd] in Hid. rewrite forallb_forall in Hid. apply Forall_forall. intros e He.
  apply list_elem_of_In, Hid in He. split; [|done]. by apply negb_true_iff, bool_decide_eq_false in He.
Qed.

Lemma restart_always_loads_witness :
  torn_store.(s_repo).(r_tables) = planned_store.(s_repo).(r_tables) ∧ s_file torn_store ≠ s_file planned_store ∧
  TablesWF (JM := toy_json) (r_tables (s_repo torn_store)) ∧
  ∃ r, NewPersistentRepository (JM := toy_json) "state.json" (s_file torn_store) = Ok r ∧ TablesWF (JM := toy_json) (r_tables r).
Proof.
  split; [vm_compute; reflexivity|]. split; [vm_compute; discriminate|].
  destruct (restart_always_loads (JM := toy_json) "state.json" fresh_store torn_store) as [Hw Hl]; [apply fresh_opened| |].
  - eapply rtc_l; [apply (step_op NoFault)|]. eapply rtc_l; [apply (step_op (FaultAfter (Errorf "sync" [])))|]. apply rtc_refl.
  - split; [exact Hw|]. apply Hl. split; [|by apply toy_events_readable].
    assert (t_plans (file_tables (s_file torn_store)) = {["plan" := stored_plan]}) as -> by (vm_compute; reflexivity).
    intros id p Hp. apply lookup_singleton_Some in Hp as [_ <-]. vm_compute. reflexivity.
Defined.

Definition committed_store : Store := (run NoFault planned_store (OpCommit bound_event (new_of stored_plan))).1.

Lemma planned_linked : linked (r_tables (s_repo planned_store)).
Proof.
  apply (live_step_linked (JM := toy_json) fresh_store); [|apply fresh_linked].
  exists NoFault, (OpCreatePlanWithEvent stored_plan created_event). split; [|reflexivity]. intros Hk. discriminate Hk.
Qed.

Lemma history_append_only_witness :
  length (chain_of (r_tables (s_repo planned_store)) "plan") = 1 ∧
  length (chain_of (r_tables (s_repo committed_store)) "plan") = 2 ∧
  (∀ id p, t_plans (r_tables (s_repo planned_store)) !! id = Some p →
     t_plans (r_tables (s_repo committed_store)) !! id = Some p) ∧
  (∀ id, chain_of (r_tables (s_repo planned_store)) id `prefix_of` chain_of (r_tables (s_repo committed_store)) id).
Proof.
  split; [vm_compute; reflexivity|]. split; [vm_compute; reflexivity|].
  apply (history_append_only (JM := toy_json)); [apply planned_linked|]. apply rtc_once.
  exists NoFault, (OpCommit bound_event (new_of stored_plan)). split; [exact I|reflexivity].
Defined.

(** The commit fails before the rename. *)
Definition refused_store : Store :=
  (run (FaultBefore (Errorf "disk full" [])) planned_store (OpCommit bound_event (new_of stored_plan))).1.

Lemma operations_atomic_witness :
  (run (FaultBefore (Errorf "disk full" [])) planned_store (OpCommit bound_event (new_of stored_plan))).2
    = Err (Errorf "disk full" []) ∧
  (r_statePath (s_repo refused_store) = "" ∨ agree (r_tables (s_repo refused_store)) (s_file refused_store)) ∧
  ((run (FaultBefore (Errorf "disk full" [])) planned_store (OpCommit bound_event (new_of stored_plan))).2 ≠ Ok tt →
     r_tables (s_repo refused_store) ≡ r_tables (s_repo planned_store) ∧ s_file refused_store = s_file planned_store).
Proof.
  split; [vm_compute; reflexivity|].
  apply (operations_atomic (JM := toy_json) "state.json" fresh_store); [apply fresh_opened|apply fresh_linked| |reflexivity|exact I].
  apply rtc_once. exists NoFault, (OpCreatePlanWithEvent stored_plan created_event).
  split; [reflexivity|]. split; [intros Hk; discriminate Hk|reflexivity].
Defined.

(** ** Behaviours the sources do not intend *)

(** A failure after the rename: the operation reports an error and rolls back, the
    file keeps it, and from then on every write is refused as stale. *)
Example torn_write_blocks_store :
  (run (FaultAfter (Errorf "sync" [])) planned_store (OpCommit bound_event (new_of stored_plan))).2 = Err (Errorf "sync" []) ∧
  (run NoFault torn_store (OpCommit bound_event (new_of stored_plan))).2 =
    Err (Errorf "stale orchestration state: expected revision %d, found %d" ["1"; "2"]).
Proof. split; vm_compute; reflexivity. Qed.

(** An event that is already in the chain is not appended again, but the
    projection that comes with it is stored. *)
Definition other_projection : PlanProjection := pp_set_Status PlanWaiting (new_of stored_plan).
Example replayed_commit_replaces_projection :
  let s := (run NoFault committed_store (OpCommit bound_event other_projection)).1 in
  chain_of (r_tables (s_repo s)) "plan" = chain_of (r_tables (s_repo committed_store)) "plan" ∧
  pp_Status <$> t_projections (r_tables (s_repo s)) !! "plan" = Some PlanWaiting.
Proof. split; vm_compute; reflexivity. Qed.

(** A payload with a character the encoder escapes: the event is accepted and
    committed, but the file gives it back escaped, its digest no longer matches, and
    the store cannot be opened again. *)
Definition escaping_clone : JsonClone :=
  {| json_any := id; json_raw := λ b, if b ≟ "<" then "u003c" else b; json_raw_file := λ b, if b ≟ "<" then "u003c" else b |}.
Definition raw_event : Event :=
  @Seal toy_sha toy_compact (toy_json Event) (ev_hashed "<" "" "" (ev_set_key "raw" bound_event)).
Definition raw_store : Store :=
  (run_op (H2 := escaping_clone) (JM := toy_json) NoFault planned_store (OpAppendEvent raw_event)).1.
Example raw_payload_unloadable :
  (run_op (H2 := escaping_clone) (JM := toy_json) NoFault planned_store (OpAppendEvent raw_event)).2 = Ok tt ∧
  length (chain_of (r_tables (s_repo raw_store)) "plan") = 2 ∧
  ∃ e, NewPersistentRepository (H2 := escaping_clone) (JM := toy_json) "state.json" (s_file raw_store) = Err e.
Proof. split; [vm_compute; reflexivity|]. split; [vm_compute; reflexivity|]. eexists. vm_compute. reflexivity. Qed.
