(* ===== verification/OutboxProps.v ===== *)
(** * OutboxProps: delivery leases are exclusive *)
From stdpp Require Import base strings gmap list pretty relations.
From Stdlib Require Import ZArith Lia.
From S2P Require Import Prelude GoLib GoStrings Trace GoValue GoJson ContextModel OrchModel GraphSearch Validate Definitions PredicateSpec GraphSpec ProjectionData Projection Repair Transition ContextSpec Samples FinishSpec Scheduler Events Repository Outbox EventChain Machine RepositoryInv RepositoryOps RepositoryProps.

Section outbox.
Context `{!MapRange, !Sha256, !JsonCompact, !JsonClone}.
Context {JM : ∀ T, JsonMarshal T}.

(** ** Frames: the operations that do not touch the outbox *)

Abbreviation intents r := (t_outbox (r_tables r)) (only parsing).

Lemma persist_or_outbox rollback io s m :
  intents (s_repo s) = m → (∀ r', intents r' = m → intents (rollback r') = m) →
  outbox_of (persist_or rollback io s).1 = m.
Proof.
  intros Hm Hb. unfold persist_or, outbox_of. destruct (persistLocked io s) as [s' r] eqn:E.
  pose proof (persistLocked_spec io s) as Hp. rewrite E in Hp. simpl in Hp.
  destruct Hp as [_|s' _ Ht _|s' e Hr _]; simpl; [done|by rewrite Ht|]. apply Hb. by rewrite Hr.
Qed.

Lemma appendEventLocked_outbox r e : intents (appendEventLocked r e).1 = intents r.
Proof. by destruct (appendEventLocked_spec r e) as [|_ _|e' _ _ _]. Qed.

Lemma restore_key_outbox p old t : t_outbox (restore_key p old t) = t_outbox t.
Proof. unfold restore_key. by destruct (_ ≠? _). Qed.
Lemma with_key_outbox p t : t_outbox (with_key p t) = t_outbox t.
Proof. unfold with_key. by destruct (_ ≠? _). Qed.
Lemma truncate_outbox id n t : t_outbox (truncate_chain id n t) = t_outbox t.
Proof. unfold truncate_chain. by destruct (_ <? _)%nat. Qed.

Lemma SaveAgent_outbox io s a expected : outbox_of (SaveAgent io s a expected).1 = outbox_of s.
Proof. unfold SaveAgent. cbv zeta. destruct (rbind _ _) as [[]|e]; [|done]. by apply persist_or_outbox. Qed.
Lemma SaveSquad_outbox io s q expected : outbox_of (SaveSquad io s q expected).1 = outbox_of s.
Proof. unfold SaveSquad. cbv zeta. destruct (rbind _ _) as [[]|e]; [|done]. by apply persist_or_outbox. Qed.
Lemma SaveProjection_outbox io s p : outbox_of (SaveProjection io s p).1 = outbox_of s.
Proof. unfold SaveProjection. cbv zeta. destruct (rbind _ _) as [[]|e]; [|done]. by apply persist_or_outbox. Qed.
Lemma Flush_outbox io s : outbox_of (Flush io s).1 = outbox_of s.
Proof.
  unfold Flush, outbox_of. pose proof (persistLocked_spec io s) as Hp. destruct (persistLocked io s) as [s' r].
  simpl in Hp. by destruct Hp as [_|s' _ Ht _|s' e Hr _]; simpl; [|rewrite Ht|rewrite Hr].
Qed.
Lemma CreatePlan_outbox io s p : outbox_of (CreatePlan io s p).1 = outbox_of s.
Proof.
  unfold CreatePlan. destruct (plan_guards p) as [q|e]; [|done]. cbv zeta.
  destruct (_ && _); [by destruct (_ ≠? _)|]. fold (with_key p (r_tables (s_repo s))).
  destruct (t_plans _ !! _).
  - unfold outbox_of. simpl. by rewrite restore_key_outbox, with_key_outbox.
  - apply persist_or_outbox; simpl; [apply with_key_outbox|]. intros r' Hr. by rewrite restore_key_outbox.
Qed.
Lemma AppendEvent_outbox io s e : outbox_of (AppendEvent io s e).1 = outbox_of s.
Proof.
  unfold AppendEvent. cbv zeta. pose proof (appendEventLocked_outbox (s_repo s) e) as Ha.
  destruct (appendEventLocked _ e) as [r [[]|err]]; simpl in Ha; [|done].
  apply persist_or_outbox; [done|]. intros r' Hr. simpl. by rewrite truncate_outbox.
Qed.
Lemma Commit_outbox io s e p : outbox_of (CommitEventProjection io s e p).1 = outbox_of s.
Proof.
  unfold CommitEventProjection. cbv zeta. destruct (rbind _ _) as [[]|err]; [|done].
  pose proof (appendEventLocked_outbox (s_repo s) e) as Ha.
  destruct (appendEventLocked _ e) as [r [[]|err]]; simpl in Ha; [|done]. by apply persist_or_outbox.
Qed.
Lemma CreatePlanWithEvent_outbox io s p e : outbox_of (CreatePlanWithEvent io s p e).1 = outbox_of s.
Proof.
  unfold CreatePlanWithEvent. destruct (rbind _ _) as [q|err]; [|done]. cbv zeta.
  destruct (t_plans _ !! _) as [x|].
  { unfold repair_event. cbv zeta. destruct (_ ≠? _); [done|].
    pose proof (appendEventLocked_outbox (s_repo s) (default_key p e)) as Ha.
    destruct (appendEventLocked _ _) as [r [[]|err]]; simpl in Ha; [|done]. by apply persist_or_outbox. }
  destruct (_ && _ && _); [done|]. fold (with_key p (r_tables (s_repo s))).
  match goal with |- context [appendEventLocked ?r ?e] => pose proof (appendEventLocked_outbox r e) as Ha;
    destruct (appendEventLocked r e) as [r' [[]|err]] end; simpl in Ha; rewrite with_key_outbox in Ha.
  - apply persist_or_outbox; [done|]. intros r'' Hr. simpl. unfold forget_plan. by rewrite restore_key_outbox.
  - unfold outbox_of. simpl. unfold forget_plan. by rewrite restore_key_outbox.
Qed.

(** ** Exclusive leases *)

(** Operations other workers may issue while [o], stored under [id], is leased: the
    lease is live whenever they claim, they settle in their own name, and they enqueue
    under other ids. *)
Definition foreign (id : string) (o : OutboxRecord) (op : repo_op) : Prop :=
  match op with
  | OpClaim wall _ _ _ now | OpClaimByID wall _ _ _ now => leased (orNow wall now) o = true
  | OpAck _ id' owner _ _ | OpFail _ id' owner _ _ => TrimSpace id' = id → owner ≠ ob_Owner o
  | OpEnqueue wall o' => enqueue_id wall o' ≠ id
  | _ => True
  end.

(** Intents lie under their own id. *)
Definition keyed (m : gmap string OutboxRecord) : Prop := map_Forall (λ id o, ob_ID o = id) m.
#[export] Instance keyed_dec m : Decision (keyed m).
Proof. unfold keyed. apply _. Defined.

Lemma persist_or_outbox_cases (P : gmap string OutboxRecord → Prop) rollback io s :
  P (outbox_of s) → (∀ r', t_outbox (r_tables r') = outbox_of s → P (t_outbox (r_tables (rollback r')))) →
  P (outbox_of (persist_or rollback io s).1).
Proof.
  intros Hs Hr. unfold persist_or. pose proof (persistLocked_spec io s) as Hp. destruct (persistLocked io s) as [s' r].
  simpl in Hp. destruct Hp as [_|s' _ Ht _|s' e Hx _]; unfold outbox_of in *; simpl; [done|by rewrite Ht|].
  apply Hr. by rewrite Hx.
Qed.

Lemma write_outbox_other io s item old id :
  ob_ID item ≠ id → outbox_of (write_outbox io s item old).1 !! id = outbox_of s !! id.
Proof.
  intros Hne. unfold write_outbox. cbv zeta. apply (persist_or_outbox_cases (λ m, m !! id = _)); unfold outbox_of; simpl.
  - by rewrite lookup_insert_ne.
  - intros r' ->. simpl. by rewrite !lookup_insert_ne.
Qed.
Lemma write_outbox_keyed io s item old :
  keyed (outbox_of s) → ob_ID old = ob_ID item → keyed (outbox_of (write_outbox io s item old).1).
Proof.
  intros Hk Hid. unfold write_outbox. cbv zeta. apply persist_or_outbox_cases; unfold outbox_of; simpl.
  - by apply map_Forall_insert_2.
  - intros r' ->. simpl. rewrite insert_insert_eq. by apply map_Forall_insert_2.
Qed.
(** The write of [EnqueueOutbox]. *)
Lemma EnqueueOutbox_outbox (P : gmap string OutboxRecord → Prop) io wall s o :
  P (outbox_of s) →
  (∀ item, ob_ID item = enqueue_id wall o → P (<[enqueue_id wall o := item]> (outbox_of s))) →
  P (delete (enqueue_id wall o) (outbox_of s)) →
  P (outbox_of (EnqueueOutbox io wall s o).1).
Proof.
  intros Hold Hnew Hback. unfold EnqueueOutbox. cbv zeta. destruct (_ || _); [done|]. destruct (find _ _); [by destruct (_ || _)|].
  change (ob_ID (ob_scoped _ _ _ o)) with (ob_ID o). fold (enqueue_id wall o).
  match goal with |- context [persist_or ?rb io ?s1] => pose proof (persist_or_outbox_cases P rb io s1) as Hp;
    destruct (persist_or rb io s1) as [s' [[]|e]] end; simpl in *; apply Hp; unfold outbox_of; simpl.
  1,3: match goal with |- context [cloneValue ?x] => destruct (clone_outbox x) as [payload ->] end; by apply Hnew.
  all: intros r' ->; simpl; by rewrite delete_insert_eq.
Qed.
Lemma EnqueueOutbox_other io wall s o id :
  enqueue_id wall o ≠ id → outbox_of (EnqueueOutbox io wall s o).1 !! id = outbox_of s !! id.
Proof.
  intros Hne. apply (EnqueueOutbox_outbox (λ m, m !! id = _)); [done|intros item _; by rewrite lookup_insert_ne|].
  by rewrite lookup_delete_ne.
Qed.
Lemma EnqueueOutbox_keyed io wall s o : keyed (outbox_of s) → keyed (outbox_of (EnqueueOutbox io wall s o).1).
Proof.
  intros Hk. apply EnqueueOutbox_outbox; [done|intros item Hid; by apply map_Forall_insert_2|].
  by apply map_Forall_delete.
Qed.

(** A claim writes an intent whose lease is not live; a settlement one the caller
    holds. *)
Lemma claimOutboxLocked_keyed io s id owner ttl now :
  keyed (outbox_of s) → keyed (outbox_of (claimOutboxLocked io s id owner ttl now).1).
Proof.
  intros Hk. unfold claimOutboxLocked. destruct (outbox_of s !! id) as [o|] eqn:Ho; [|done].
  destruct (settled o); [done|]. destruct (leased now o); [done|]. cbv zeta.
  match goal with |- context [write_outbox io s ?c ?old] => pose proof (write_outbox_keyed io s c old Hk) as Hw;
    destruct (write_outbox io s c old) as [s' [[]|e]] end.
  all: simpl in *; apply Hw; by rewrite (Hk _ _ Ho), Ho, <- (Hk _ _ Ho).
Qed.
Lemma claimOutboxLocked_foreign io s id' owner ttl now id o :
  keyed (outbox_of s) → outbox_of s !! id = Some o → leased now o = true →
  outbox_of (claimOutboxLocked io s id' owner ttl now).1 !! id = Some o.
Proof.
  intros Hl Ho Hle. unfold claimOutboxLocked. destruct (outbox_of s !! id') as [o'|] eqn:Ho'; [|done].
  destruct (settled o'); [done|]. destruct (leased now o') eqn:Hle'; [done|]. cbv zeta.
  destruct (decide (id' = id)) as [->|Hne]; [simplify_eq; congruence|].
  match goal with |- context [write_outbox io s ?c ?old] => pose proof (write_outbox_other io s c old id) as Hw;
    destruct (write_outbox io s c old) as [s' [[]|e]] end.
  all: simpl in *; rewrite Hw; [done|]; by rewrite (Hl _ _ Ho').
Qed.

Lemma settle_foreign io s id' owner now id o item status err :
  keyed (outbox_of s) → outbox_of s !! id = Some o → (TrimSpace id' = id → owner ≠ ob_Owner o) →
  held_intent s id' owner now = Ok item →
  outbox_of (write_outbox io s (ob_delivery status "" 0 (ob_Attempts item) err now item) item).1 !! id = Some o.
Proof.
  intros Hl Ho Hf (Hi & _ & Hown)%held_intent_Ok. rewrite write_outbox_other; [done|]. simpl.
  rewrite (Hl _ _ Hi). intros E. rewrite E, Ho in Hi. injection Hi as <-. by apply (Hf E).
Qed.

Lemma foreign_keeps io s op id o :
  keyed (outbox_of s) → outbox_of s !! id = Some o → foreign id o op →
  keyed (outbox_of (run_op io s op).1) ∧ outbox_of (run_op io s op).1 !! id = Some o.
Proof.
  intros Hl Ho Hf. destruct op; simpl in *.
  - by rewrite SaveAgent_outbox.
  - by rewrite SaveSquad_outbox.
  - by rewrite CreatePlan_outbox.
  - by rewrite CreatePlanWithEvent_outbox.
  - by rewrite SaveProjection_outbox.
  - by rewrite AppendEvent_outbox.
  - by rewrite Commit_outbox.
  - by rewrite Flush_outbox.
  - rewrite EnqueueOutbox_other by done. split; [by apply EnqueueOutbox_keyed|done].
  - unfold ClaimOutbox. cbv zeta. destruct (_ || _); [done|]. destruct (_ ≟ _); [done|].
    split; [by apply claimOutboxLocked_keyed|by apply claimOutboxLocked_foreign].
  - unfold ClaimOutboxByID. destruct (blank _); [done|]. destruct (_ || _); [done|].
    split; [by apply claimOutboxLocked_keyed|by apply claimOutboxLocked_foreign].
  - unfold AckOutbox. cbv zeta. destruct (held_intent _ _ _ _) as [item|e] eqn:Hh; [|done].
    destruct err; (split; [by apply write_outbox_keyed|by eapply settle_foreign]).
  - unfold FailOutbox. cbv zeta. destruct (blank _); [done|].
    destruct (held_intent _ _ _ _) as [item|e] eqn:Hh; [|done]. split; [by apply write_outbox_keyed|by eapply settle_foreign].
Qed.

Definition foreign_step (id : string) (o : OutboxRecord) (s s' : Store) : Prop :=
  ∃ io op, foreign id o op ∧ s' = (run_op io s op).1.

(** C15: exclusive delivery.  In a store whose intents lie under their own ids, while
    an intent is leased, no operation of other workers changes it, whatever they
    write, enqueue under other ids, claim while the lease is live, or acknowledge and
    fail in their own name, and whatever I/O faults occur; so its holder still passes
    the lease check.  (An intent enqueued under an explicit id that is in use replaces
    the other one, leased or not: [enqueue_replaces_intent].) *)
Theorem lease_exclusive s s' id o now :
  keyed (outbox_of s) → outbox_of s !! TrimSpace id = Some o → leased now o = true →
  rtc (foreign_step (TrimSpace id) o) s s' →
  outbox_of s' !! TrimSpace id = Some o ∧ held_intent s' id (ob_Owner o) now = Ok o.
Proof.
  intros Hl Ho Hle Hr. assert (outbox_of s' !! TrimSpace id = Some o) as Ho'.
  { apply (rtc_ind_r (λ x, keyed (outbox_of x) ∧ outbox_of x !! TrimSpace id = Some o)) with (x := s) in Hr;
      [by destruct Hr|done|]. intros x y _ (io & op & Hf & ->) [Hlx Hox]. by apply foreign_keeps. }
  split; [done|]. unfold held_intent. rewrite Ho'. unfold leased in Hle. apply andb_true_iff in Hle as [Hst Hex].
  rewrite Hst, Hex, bool_decide_eq_true_2 by done. done.
Qed.
End outbox.

(** ** Two workers *)

Definition sample_intent (id : string) : OutboxRecord :=
  {| ob_ID := id; ob_PlanID := "plan"; ob_WorkspaceID := "ws"; ob_Kind := "provider.start"; ob_IdempotencyKey := id;
     ob_TraceParent := ""; ob_TraceState := ""; ob_Payload := ∅; ob_Status := ""; ob_Owner := ""; ob_LeaseExpiresAt := 0;
     ob_Attempts := 0; ob_MaxAttempts := 2; ob_LastError := ""; ob_CreatedAt := 1; ob_UpdatedAt := 0 |}.
Definition queued_store : Store := (run NoFault fresh_store (OpEnqueue 5 (sample_intent "i1"))).1.
Definition claimed_store : Store := (run NoFault queued_store (OpClaim 5 "plan" "w1" 10 20)).1.
Definition claimed_intent : OutboxRecord := default zero_OutboxRecord (outbox_of claimed_store !! "i1").
(** Another worker tries to take the intent over and to settle it, and enqueues one of
    its own. *)
Definition contended_store : Store :=
  (run NoFault (run NoFault (run NoFault claimed_store (OpClaimByID 5 "i1" "w2" 10 25)).1 (OpAck 5 "i1" "w2" 25 None)).1
     (OpEnqueue 25 (sample_intent "i2"))).1.

Lemma lease_exclusive_witness :
  ob_Owner claimed_intent = "w1" ∧ leased 26 claimed_intent = true ∧
  outbox_of contended_store !! "i1" = Some claimed_intent ∧
  held_intent contended_store "i1" "w1" 26 = Ok claimed_intent.
Proof.
  split; [vm_compute; reflexivity|]. split; [vm_compute; reflexivity|].
  apply (lease_exclusive (JM := toy_json) claimed_store contended_store "i1" claimed_intent 26).
  - apply (bool_decide_unpack (keyed _)). vm_compute. exact I.
  - vm_compute. reflexivity.
  - vm_compute. reflexivity.
  - eapply rtc_l; [|eapply rtc_l; [|apply rtc_once]].
    + exists NoFault, (OpClaimByID 5 "i1" "w2" 10 25). split; [vm_compute; reflexivity|reflexivity].
    + exists NoFault, (OpAck 5 "i1" "w2" 25 None). split; [|reflexivity]. intros _. vm_compute. discriminate.
    + exists NoFault, (OpEnqueue 25 (sample_intent "i2")). split; [vm_compute; discriminate|reflexivity].
Defined.

(** ** Behaviours the sources do not intend *)

(** Claiming by id does not look at the attempt limit: an intent whose attempts are
    used up and whose lease expired is leased again. *)
Definition used_up_store : Store :=
  (run NoFault (run NoFault claimed_store (OpClaimByID 5 "i1" "w1" 10 40)).1 (OpFlush)).1.
Example claim_by_id_exceeds_attempts :
  (∃ o, outbox_of used_up_store !! "i1" = Some o ∧ exhausted o = true) ∧
  (run NoFault used_up_store (OpClaim 5 "plan" "w2" 10 60)).2 = Err (ESentinel ErrNotFound) ∧
  ob_Attempts <$> outbox_of (run NoFault used_up_store (OpClaimByID 5 "i1" "w2" 10 60)).1 !! "i1" = Some 3%Z.
Proof. split; [eexists; split; vm_compute; reflexivity|]. split; vm_compute; reflexivity. Qed.

(** An explicit id that is already in use replaces the other intent. *)
Example enqueue_replaces_intent :
  let o := ob_scoped "plan" "ws" "other" (sample_intent "i1") in
  (run NoFault claimed_store (OpEnqueue 5 o)).2 = Ok tt ∧
  ob_IdempotencyKey <$> outbox_of (run NoFault claimed_store (OpEnqueue 5 o)).1 !! "i1" = Some "other".
Proof. split; vm_compute; reflexivity. Qed.

(** The next intent depends on the iteration order: with two intents that are
    ordered differently by time and by id, the two orders choose differently. *)
Definition timed_intent (id : string) (created : Time) : OutboxRecord :=
  ob_initial id "pending" 2 created (ob_scoped "plan" "ws" id (sample_intent id)).
Example selection_depends_on_order :
  ob_ID (foldl select_step zero_OutboxRecord [timed_intent "b" 1; timed_intent "a" 2]) = "a" ∧
  ob_ID (foldl select_step zero_OutboxRecord [timed_intent "a" 2; timed_intent "b" 1]) = "b".
Proof. split; vm_compute; reflexivity. Qed.

(** * A large enough batch drains the outbox *)

(** ** Sums over a map *)

Definition sum_map {A} (f : A → nat) (m : gmap string A) : nat := sum_list (f <$> (map_to_list m).*2).

Lemma sum_map_delete {A} (f : A → nat) (m : gmap string A) k x :
  m !! k = Some x → sum_map f m = f x + sum_map f (delete k m).
Proof. intros Hk. unfold sum_map. by rewrite <- (map_to_list_delete m k x Hk). Qed.
Lemma sum_map_insert {A} (f : A → nat) (m : gmap string A) k x : sum_map f (<[k:=x]> m) = f x + sum_map f (delete k m).
Proof. rewrite (sum_map_delete f _ k x) by apply lookup_insert_eq. by rewrite delete_insert_eq. Qed.

(** ** One iteration on a store in memory *)

(** Intents as [EnqueueOutbox] stores them, under trimmed ids. *)
Definition intent_ok (id : string) (o : OutboxRecord) : Prop :=
  ob_ID o = id ∧ id ≠ "" ∧ TrimSpace id = id ∧ (0 ≤ ob_Attempts o)%Z ∧ (0 < ob_MaxAttempts o < two63)%Z.

#[export] Instance intent_ok_dec id o : Decision (intent_ok id o).
Proof. unfold intent_ok. apply _. Defined.

(** The deliveries an intent of the plan may still cause. *)
Definition of_plan (planID : string) (o : OutboxRecord) : bool := negb ((planID ≠? "") && (ob_PlanID o ≠? planID)).
Definition remaining (planID : string) (o : OutboxRecord) : nat :=
  if of_plan planID o && negb (settled o) then Z.to_nat (ob_MaxAttempts o - ob_Attempts o) else 0.

Lemma select_elem (xs : list OutboxRecord) :
  (∀ x, x ∈ xs → ob_ID x ≠ "") → xs ≠ [] → foldl select_step zero_OutboxRecord xs ∈ xs.
Proof.
  intros Hid Hne. destruct xs as [|x xs]; [done|]. simpl. unfold select_step at 2. simpl.
  assert (∀ y, y ∈ x :: xs → ∀ zs, (∀ z, z ∈ zs → z ∈ x :: xs) → foldl select_step y zs ∈ x :: xs) as Hgen.
  { intros y Hy zs. revert y Hy. induction zs as [|z zs IH]; intros y Hy Hz; [done|]. simpl. apply IH; [|set_solver].
    unfold select_step. destruct (_ || _); [set_solver|done]. }
  apply Hgen; set_solver.
Qed.

Section memory.
Context `{!MapRange, !Sha256, !JsonCompact, !JsonClone}.
Context {JM : ∀ T, JsonMarshal T}.

(** The store after its outbox became [m]. *)
Definition with_outbox (m : gmap string OutboxRecord) (s : Store) : Store :=
  with_repo (dirty_tables (set_outbox m (r_tables (s_repo s))) (s_repo s)) s.

Lemma persist_or_memory rollback io s : r_statePath (s_repo s) = "" → persist_or rollback io s = (s, Ok tt).
Proof. intros Hp. unfold persist_or, persistLocked. rewrite Hp. done. Qed.
Lemma write_outbox_memory io s item old :
  r_statePath (s_repo s) = "" →
  write_outbox io s item old = (with_outbox (<[ob_ID item := item]> (outbox_of s)) s, Ok tt).
Proof. intros Hp. unfold write_outbox. cbv zeta. by apply persist_or_memory. Qed.

Definition claimed_as (owner : string) (ttl : Duration) (now : Time) (o : OutboxRecord) : OutboxRecord :=
  ob_delivery "leased" owner (now + ttl) (add64 (ob_Attempts o) 1) (ob_LastError o) now o.

Lemma ClaimOutbox_memory io wall s planID owner ttl now :
  r_statePath (s_repo s) = "" → map_Forall intent_ok (outbox_of s) → blank owner = false → (0 < ttl)%Z →
  let t := orNow wall now in
  (ClaimOutbox io wall s planID owner ttl now = (s, Err (ESentinel ErrNotFound)) ∧
   map_Forall (λ _ o, claimable planID t o = false) (outbox_of s)) ∨
  ∃ id o, outbox_of s !! id = Some o ∧ claimable planID t o = true ∧
    ClaimOutbox io wall s planID owner ttl now =
      (with_outbox (<[id := claimed_as owner ttl t o]> (outbox_of s)) s, Ok (cloneValue (claimed_as owner ttl t o))).
Proof.
  intros Hp Hok Ho Httl t. unfold ClaimOutbox. rewrite Ho, (proj2 (Z.leb_gt _ _)) by lia. cbv zeta. fold t. simpl.
  set (xs := filter _ _). assert (∀ x, x ∈ xs → ∃ id, outbox_of s !! id = Some x ∧ claimable planID t x = true) as Hxs.
  { intros x [Hc Hx]%list_elem_of_filter. apply elem_of_range_values in Hx as [id Hid]. eauto. }
  destruct (decide (xs = [])) as [E|Hne].
  - left. rewrite E. split; [done|]. intros id o Hid. destruct (claimable planID t o) eqn:Hc; [|done].
    assert (o ∈ xs) as Hin; [|rewrite E in Hin; by apply elem_of_nil in Hin].
    apply list_elem_of_filter. split; [done|]. apply elem_of_range_values. eauto.
  - right. assert (∀ x, x ∈ xs → ob_ID x ≠ "") as Hids.
    { intros x Hx. apply Hxs in Hx as (id & Hid & _). destruct (Hok _ _ Hid) as (-> & ? & _). done. }
    pose proof (select_elem xs Hids Hne) as Hsel. set (o := foldl _ _ xs) in *.
    rewrite (bool_decide_false _ (Hids _ Hsel)). apply Hxs in Hsel as (id & Hid & Hc). exists id, o.
    split_and!; [done..|]. destruct (Hok _ _ Hid) as (Hobid & _). rewrite Hobid. unfold claimOutboxLocked. rewrite Hid.
    pose proof Hc as Hcl. unfold claimable in Hcl. rewrite !andb_true_iff, !negb_true_iff, !orb_false_iff in Hcl.
    destruct Hcl as ((_ & -> & _) & ->). cbv zeta. rewrite write_outbox_memory by done. cbn beta iota.
    change (ob_ID (ob_delivery _ _ _ _ _ _ o)) with (ob_ID o). by rewrite Hobid.
Qed.

(** What an acknowledgement makes of a claimed intent. *)
Definition acked_as (err : option string) (now : Time) (o : OutboxRecord) : OutboxRecord :=
  ob_delivery (match err with None => "acked" | Some _ => if exhausted o then "failed" else "pending" end)
    "" 0 (ob_Attempts o) (default "" err) now o.

Lemma AckOutbox_memory io wall s id owner now err o :
  r_statePath (s_repo s) = "" → outbox_of s !! id = Some o → ob_ID o = id → TrimSpace id = id →
  leased (orNow wall now) o = true → ob_Owner o = owner →
  AckOutbox io wall s id owner now err = (with_outbox (<[id := acked_as err (orNow wall now) o]> (outbox_of s)) s, Ok tt).
Proof.
  intros Hp Ho Hid Htr Hle Hown. unfold AckOutbox, held_intent. cbv zeta. rewrite Htr, Ho.
  unfold leased in Hle. apply andb_true_iff in Hle as [Hst Hex]. rewrite Hst, Hex, bool_decide_eq_true_2 by done. simpl.
  destruct err as [err|]; rewrite write_outbox_memory by done; simpl; by rewrite Hid.
Qed.

Lemma with_outbox_twice m m' s : with_outbox m' (with_outbox m s) = with_outbox m' s.
Proof. done. Qed.
Lemma outbox_of_with m s : outbox_of (with_outbox m s) = m.
Proof. done. Qed.
Lemma orNow_same t : orNow t t = t.
Proof. unfold orNow. by destruct (IsZero t). Qed.

Lemma claimable_attempts planID now id o :
  intent_ok id o → claimable planID now o = true →
  of_plan planID o = true ∧ settled o = false ∧ (ob_Attempts o < ob_MaxAttempts o)%Z ∧
  add64 (ob_Attempts o) 1 = (ob_Attempts o + 1)%Z.
Proof.
  intros (_ & _ & _ & Ha & Hm). unfold claimable. fold (of_plan planID o).
  rewrite !andb_true_iff, !negb_true_iff, orb_false_iff. intros ((Hp & Hs & He) & _).
  unfold exhausted in He. rewrite andb_false_iff, Z.ltb_ge, Z.leb_gt in He. split_and!; [done..|lia|]. unfold add64. apply wrap64_id. unfold int64_range, two63 in *. lia.
Qed.

(** A delivery uses up an attempt. *)
Lemma delivery_progress planID now now' owner ttl err id o :
  intent_ok id o → claimable planID now o = true →
  let o' := acked_as err now' (claimed_as owner ttl now o) in
  intent_ok id o' ∧ remaining planID o' < remaining planID o.
Proof.
  intros Hok Hc o'. destruct (claimable_attempts _ _ _ _ Hok Hc) as (Hp & Hs & Hlt & Hadd).
  destruct Hok as (Hid & Hne & Htr & Ha & Hm). split.
  - split_and!; try done; simpl; rewrite ?Hadd; lia.
  - unfold remaining. rewrite Hp, Hs. change (of_plan planID o') with (of_plan planID o). rewrite Hp. simpl.
    rewrite Hadd. destruct (negb (settled o')); lia.
Qed.

(** draining.  A dispatcher that is not cancelled and acknowledges within its
    lease goes through its outbox: when its batch is larger than the deliveries
    the intents of the plan may still cause, it returns without error and leaves
    no intent of the plan that could be claimed, whatever the deliveries return. *)
Theorem drain_settles (w : DrainWorld) owner ttl planID left s report :
  r_statePath (s_repo s) = "" → map_Forall intent_ok (outbox_of s) → blank owner = false → (0 < ttl)%Z →
  (∀ i, w_cancelled w i = None) → (∀ i, w_acked w i < w_claimed w i + ttl)%Z →
  sum_map (remaining planID) (outbox_of s) < left →
  ∃ s' report' now, drain w owner ttl planID left s report = (s', report', Ok tt) ∧
    map_Forall (λ _ o, claimable planID now o = false) (outbox_of s').
Proof.
  intros Hp Hok Ho Httl Hcan Hack. revert s report Hp Hok. induction left as [|left IH]; intros s report Hp Hok Hsum; [lia|].
  simpl. rewrite Hcan. set (i := dr_Claimed report).
  destruct (ClaimOutbox_memory (w_io_claim w i) (w_claimed w i) s planID owner ttl (w_claimed w i) Hp Hok Ho Httl)
    as [[-> Hnone]|(id & o & Hid & Hc & ->)].
  - exists s, report, (w_claimed w i). rewrite orNow_same in Hnone. done.
  - rewrite orNow_same in *. set (c := claimed_as owner ttl (w_claimed w i) o). set (err := w_handler w i (cloneValue c)).
    assert (ob_ID (cloneValue c) = ob_ID c) as Hclone by (by destruct (clone_outbox c) as [payload ->]).
    pose proof (Hok _ _ Hid) as Hoki. pose proof Hoki as (Hobid & _ & Htr & _).
    rewrite (AckOutbox_memory (w_io_ack w i) (w_acked w i) (with_outbox (<[id:=c]> (outbox_of s)) s) (ob_ID (cloneValue c)) owner
               (w_acked w i) err c);
      [|done|rewrite Hclone; simpl; rewrite Hobid; apply lookup_insert_eq|by rewrite Hclone|rewrite Hclone; simpl; by rewrite Hobid| |done].
    2: { rewrite orNow_same. unfold leased, After. simpl. apply Z.ltb_lt, Hack. }
    rewrite orNow_same, with_outbox_twice, outbox_of_with, Hclone. simpl. rewrite Hobid, insert_insert_eq.
    destruct (delivery_progress planID (w_claimed w i) (w_acked w i) owner ttl err id o Hoki Hc) as [Hok' Hlt].
    apply IH; [done| |].
    + apply map_Forall_insert_2; [done|done].
    + rewrite outbox_of_with, sum_map_insert. rewrite (sum_map_delete _ _ id o Hid) in Hsum. fold c in Hlt. lia.
Qed.
End memory.

(** ** A poisonous intent and a good one *)

Definition sample_world : DrainWorld :=
  {| w_cancelled := λ _, None; w_claimed := λ i, (100 + Z.of_nat i)%Z; w_acked := λ i, (101 + Z.of_nat i)%Z;
     w_io_claim := λ _, NoFault; w_io_ack := λ _, NoFault;
     w_handler := λ _ o, if ob_ID o ≟ "bad" then Some "boom" else None |}.
Definition memory_store : Store := {| s_repo := newMemoryRepository ""; s_file := None |}.
Definition two_intents : Store :=
  (run NoFault (run NoFault memory_store (OpEnqueue 5 (sample_intent "bad"))).1 (OpEnqueue 5 (sample_intent "good"))).1.

Lemma two_intents_ok : map_Forall intent_ok (outbox_of two_intents).
Proof. apply (bool_decide_unpack _). vm_compute. exact I. Qed.

Lemma drain_settles_witness :
  sum_map (remaining "plan") (outbox_of two_intents) = 4 ∧
  ∃ s' report' now, drain (JM := toy_json) sample_world "w1" 10 "plan" 5 two_intents no_report = (s', report', Ok tt) ∧
    map_Forall (λ _ o, claimable "plan" now o = false) (outbox_of s').
Proof.
  split; [vm_compute; reflexivity|].
  apply (drain_settles (JM := toy_json)).
  - reflexivity.
  - apply two_intents_ok.
  - reflexivity.
  - reflexivity.
  - reflexivity.
  - intros i. simpl. lia.
  - vm_compute. lia.
Defined.
