(* ===== verification/Replay.v ===== *)
(** * Replay: rebuilding a projection from its log

    [recorded] relates a live operation of the executor to the event it commits
    (dispatch, binding and completion of internal/orchestration/executor.go, the
    retry of internal/api/orchestration.go).  A run of recorded operations is
    reproduced by [ReplayProjection]; and whatever a replay accepts satisfies
    the reducer's invariant. *)
From stdpp Require Import base strings gmap list pretty.
From Stdlib Require Import ZArith Lia.
From S2P Require Import Prelude GoLib GoStrings Trace GoValue GoJson ContextModel OrchModel GraphSearch Validate PredicateSpec GraphSpec ProjectionData Projection Repair RepairSpec Transition ContextSpec Samples StartSpec RouteSpec FinishSpec ReducerInv Scheduler Events EventChain Machine.

(** ** What a completion reads of its input *)

(** [input] with the fields [FinishAttempt] does not read, or only appends. *)
Definition ti_reported (attemptID : string) (artifacts : list string) (i : TransitionInput) : TransitionInput :=
  {| ti_PlanRevision := ti_PlanRevision i; ti_AttemptID := attemptID; ti_LeaseToken := ti_LeaseToken i;
     ti_Event := ti_Event i; ti_Result := ti_Result i; ti_Failure := ti_Failure i;
     ti_OutputArtifacts := artifacts; ti_IdempotencyKey := ti_IdempotencyKey i;
     ti_PayloadHash := ti_PayloadHash i; ti_Now := ti_Now i |}.

Lemma append_unique_from_kept seen l : append_unique_from seen (append_unique_from seen l) = append_unique_from seen l.
Proof.
  revert seen. induction l as [|v l IH]; intros seen; [done|]. simpl.
  destruct ((v ≟ "") || contains seen v) eqn:E; [done|]. simpl. rewrite E. by rewrite IH.
Qed.

Lemma append_unique_from_prefix seen l l' :
  append_unique_from seen (l ++ l')
  = append_unique_from seen l ++ append_unique_from (reverse (append_unique_from seen l) ++ seen) l'.
Proof.
  revert seen. induction l as [|v l IH]; intros seen; [done|]. simpl.
  destruct ((v ≟ "") || contains seen v) eqn:E; [done|]. simpl. rewrite IH. f_equal. f_equal.
  by rewrite reverse_cons, <- app_assoc.
Qed.

Lemma append_unique_from_skip seen l : (∀ x, x ∈ l → x = "" ∨ x ∈ seen) → append_unique_from seen l = [].
Proof.
  induction l as [|v l IH]; [done|]. intros Hl. simpl.
  assert ((v ≟ "") || contains seen v = true) as ->.
  { destruct (Hl v) as [->|Hv]; [by left|done|]. apply orb_true_iff. right. by apply contains_spec. }
  apply IH. intros x Hx. apply Hl. by right.
Qed.

(** Reporting the artifacts an attempt ended with adds no others. *)
Lemma appendUnique_reported old new : appendUnique old (appendUnique old new) = appendUnique old new.
Proof.
  unfold appendUnique. rewrite !append_unique_from_prefix.
  set (A := append_unique_from [] old). set (S := reverse A ++ []). f_equal.
  rewrite (append_unique_from_skip S A).
  - simpl. apply append_unique_from_kept.
  - intros x Hx. right. unfold S. rewrite app_nil_r. by apply elem_of_reverse.
Qed.

Section replay.
Context `{!MapRange, !Sha256, !JsonMarshal (string * StructuredResult * option FailureReason)}.
Context `{!EnvelopeContract}.
Context `{!JsonCompact, !JsonMarshal Event}.
Context `{!JsonUnmarshal StartedPayload, !JsonUnmarshal BoundPayload, !JsonUnmarshal FinishedPayload,
          !JsonUnmarshal RetryPayload}.
Context (plan : RequirementExecutionPlan).

Lemma matchEdges_reported a id arts i es : matchEdges a (ti_reported id arts i) es = matchEdges a i es.
Proof. induction es as [|e es IH]; [done|]. simpl. rewrite IH. done. Qed.

Lemma fanOut_reported a id arts i es p : fanOut plan a (ti_reported id arts i) es p = fanOut plan a i es p.
Proof.
  revert p. induction es as [|e es IH]; intros p; [done|]. simpl. destruct (traverse e p) as [q [?|?]]; [|done].
  apply IH.
Qed.

Lemma finishCommit_reported wall p n a attemptID id arts i :
  finishCommit wall p plan n a attemptID (ti_reported id arts i) = finishCommit wall p plan n a attemptID i.
Proof.
  unfold finishCommit. cbv zeta.
  change (finishRecord p n a attemptID (ti_reported id arts i)) with (finishRecord p n a attemptID i).
  assert (∀ q, route wall q plan a (ti_reported id arts i) = route wall q plan a i) as Hr.
  { intros q. unfold route. cbv zeta. rewrite matchEdges_reported.
    destruct (deadline_failure a); [done|]. destruct (matchEdges a i _) as [[|e [|e' es]]|]; try done.
    destruct (forallb _ _); [|by destruct (selectEdge _ _)]. apply fanOut_reported. }
  rewrite Hr. done.
Qed.

Lemma FinishAttempt_reported wall p attemptID id arts i :
  (∀ a, pp_Attempts p !! attemptID = Some a →
     appendUnique (na_OutputArtifacts a) arts = appendUnique (na_OutputArtifacts a) (ti_OutputArtifacts i)) →
  FinishAttempt wall p plan attemptID (ti_reported id arts i) = FinishAttempt wall p plan attemptID i.
Proof.
  intros Ha. unfold FinishAttempt. cbv zeta.
  change (finishFence p attemptID (ti_reported id arts i) (orNow wall (ti_Now (ti_reported id arts i))))
    with (finishFence p attemptID i (orNow wall (ti_Now i))).
  destruct (finishFence _ _ _ _) as [[[a n] [|]]|e] eqn:Hf; [done| |done].
  apply finishFence_Ok in Hf. specialize (Ha a (fc_attempt _ _ _ _ _ _ Hf)).
  change (ti_set_Now (orNow wall (ti_Now (ti_reported id arts i))) (ti_reported id arts i))
    with (ti_reported id arts (ti_set_Now (orNow wall (ti_Now i)) i)).
  change (finishPlanGuards p plan (ti_reported id arts (ti_set_Now (orNow wall (ti_Now i)) i)))
    with (finishPlanGuards p plan (ti_set_Now (orNow wall (ti_Now i)) i)).
  change (finishNodeGuards p (node_definition (pl_GraphSnapshot plan) (na_NodeID a)) a
      (ti_reported id arts (ti_set_Now (orNow wall (ti_Now i)) i)) (orNow wall (ti_Now (ti_reported id arts i))))
    with (finishNodeGuards p (node_definition (pl_GraphSnapshot plan) (na_NodeID a)) a
      (ti_set_Now (orNow wall (ti_Now i)) i) (orNow wall (ti_Now i))).
  simpl. rewrite Ha. destruct (rbind _ _) as [s|e]; [|done].
  destruct (finishRepair _ _ _ _) as [q [a2|e]]; [|done]. apply finishCommit_reported.
Qed.

(** A completion repeated with the artifacts its attempt ended with. *)
Lemma FinishAttempt_repeat wall p attemptID id i q b :
  FinishAttempt wall p plan attemptID i = (q, Ok b) →
  FinishAttempt wall p plan attemptID (ti_reported id (na_OutputArtifacts b) i) = (q, Ok b).
Proof.
  intros Ho. destruct (finishFence p attemptID i (orNow wall (ti_Now i))) as [[[a n] r]|e] eqn:Hf.
  2: { revert Ho. unfold FinishAttempt. cbv zeta. by rewrite Hf. }
  destruct r.
  { assert (finishFence p attemptID (ti_reported id (na_OutputArtifacts b) i) (orNow wall (ti_Now i)) = Ok (a, n, true))
      as Hf' by exact Hf.
    revert Ho. unfold FinishAttempt. cbv zeta. change (ti_Now (ti_reported id (na_OutputArtifacts b) i)) with (ti_Now i).
    by rewrite Hf, Hf'. }
  rewrite FinishAttempt_reported; [done|]. pose proof (finishFence_Ok _ _ _ _ _ _ Hf) as Hfc.
  intros x Ha. rewrite (fc_attempt _ _ _ _ _ _ Hfc) in Ha. injection Ha as <-.
  enough (na_OutputArtifacts b = appendUnique (na_OutputArtifacts a) (ti_OutputArtifacts i)) as ->
    by apply appendUnique_reported.
  revert Ho. unfold FinishAttempt. cbv zeta. rewrite Hf. intros Ho.
  destruct (rbind _ _) as [s|e]; [|done].
  set (a1 := na_set_Status _ _) in *.
  pose proof (finishRepair_frame p plan (node_definition (pl_GraphSnapshot plan) (na_NodeID a)) a1) as (_ & Hs & _).
  cbv zeta in Hs. destruct (finishRepair _ _ _ _) as [q2 [a2|e]]; [|done].
  destruct (Hs a2 eq_refl) as (rid & st & ->).
  assert (b = stamp (orNow wall (ti_Now i)) (na_set_RepairPlanID rid (na_set_RepairState st a1))) as ->.
  { revert Ho. unfold finishCommit. cbv zeta. destruct (routes _ _); [|by intros [= _ <-]].
    destruct (route _ _ _ _ _) as [p2 [?|?]]; [by intros [= _ <-]|done]. }
  unfold stamp. cbv zeta. by destruct (_ ≟ RepairNone).
Qed.
(** ** Times and numbers a replay repeats *)

Lemma FinishAttempt_wall wall wall' p attemptID i :
  ti_Now i ≠ 0%Z → FinishAttempt wall p plan attemptID i = FinishAttempt wall' p plan attemptID i.
Proof.
  intros Hn. assert (∀ w, orNow w (ti_Now i) = ti_Now i) as Hw.
  { intros w. unfold orNow, IsZero. by destruct (Z.eqb_spec (ti_Now i) 0). }
  unfold FinishAttempt. rewrite !Hw. cbv zeta. destruct (finishFence _ _ _ _) as [[[a n] [|]]|e]; [done| |done].
  destruct (rbind _ _) as [s|e]; [|done]. destruct (finishRepair _ _ _ _) as [q [a2|e]]; [|done].
  unfold finishCommit, route. cbv zeta. change (ti_Now (ti_set_Now (ti_Now i) i)) with (ti_Now i). by rewrite !Hw.
Qed.

(** An attempt returned for a repeated id does not depend on the number. *)
Lemma startAttemptGuards_existing p nodeID attemptID no lease n i now x :
  startAttemptGuards p plan nodeID attemptID no lease n i now = Ok (Some x) →
  pp_Attempts p !! attemptID = Some x ∧
  ∀ no', startAttemptGuards p plan nodeID attemptID no' lease n i now = Ok (Some x).
Proof.
  unfold startAttemptGuards. setoid_rewrite rbind_reject_Ok. setoid_rewrite rbind_reject_Ok.
  intros (E1 & E2 & Hx). destruct (pp_Attempts p !! attemptID) as [y|].
  - destruct ((na_IdempotencyKey y ≟ _) && _); [|done]. injection Hx as ->. done.
  - rewrite !rbind_reject_Ok in Hx. by destruct Hx as (_ & _ & _ & [=]).
Qed.

Lemma startReplay_stored p i old :
  startReplay p i = Ok (Some old) → ∃ k, pp_Attempts p !! k = Some old.
Proof.
  unfold startReplay. case_bool_decide; [done|]. destruct (pp_Idempotency p !! _); [|done].
  rewrite rbind_reject_Ok. intros [_ [= Hf]]. apply find_some in Hf as [Hf _].
  by apply list_elem_of_In, elem_of_range_values in Hf.
Qed.

(** The recorded attempt number and id are those the start used. *)
Lemma StartAttempt_recorded wall wall' p nodeID attemptID no lease env i q a :
  reducer_inv plan p → ti_Now i ≠ 0%Z → (1 ≤ no)%Z →
  StartAttempt wall p plan nodeID attemptID no lease env i = (q, Ok a) →
  na_ID a ≠ "" ∧ StartAttempt wall' p plan nodeID (na_ID a) (na_AttemptNo a) lease env i = (q, Ok a).
Proof.
  intros Hinv Hn Hno. pose proof (ri_live _ _ Hinv) as [HA _].
  assert (∀ w, orNow w (ti_Now i) = ti_Now i) as Hw.
  { intros w. unfold orNow, IsZero. by destruct (Z.eqb_spec (ti_Now i) 0). }
  unfold StartAttempt. rewrite !Hw. cbv zeta. unfold startGuards. intros Ho.
  destruct (startPlanGuards _ _ _ _ _); [|done]. cbn [rbind] in *.
  destruct (startReplay p i) as [[old|]|e] eqn:Hr; cbn [rbind] in *; [| |done].
  { injection Ho as <- <-. split; [|done]. destruct (startReplay_stored _ _ _ Hr) as [k Hk].
    pose proof (HA _ _ Hk) as [-> ? _ _ _ _]. done. }
  destruct (pp_Nodes p !! nodeID) as [n|]; [|done]. destruct (startNodeGuards _ _ _ _ _ _); [|done]. cbn [rbind] in *.
  assert ((no <? 1)%Z = false) as Hlt by by apply Z.ltb_ge. rewrite Hlt in Ho.
  destruct (startAttemptGuards p plan nodeID attemptID no lease n i (ti_Now i)) as [[x|]|e] eqn:Hg;
    cbn [rbind] in Ho; [| |done].
  - injection Ho as <- <-. apply startAttemptGuards_existing in Hg as [Hx Hg].
    pose proof (HA _ _ Hx) as [-> ? _ _ _ _]. by rewrite Hg.
  - assert (na_ID a = attemptID ∧ na_AttemptNo a = no) as [-> ->].
    { destruct (startCommit_started p plan (node_definition (pl_GraphSnapshot plan) nodeID) nodeID attemptID no
        lease n env (ti_set_Now (ti_Now i) i) (ti_Now i)) as (b & m & -> & _ & E). rewrite E in Ho.
      injection Ho as _ <-.
      destruct (new_attempt_fields p plan (node_definition (pl_GraphSnapshot plan) nodeID) nodeID attemptID no
        lease n env (ti_set_Now (ti_Now i) i) (ti_Now i)) as (-> & _ & _ & -> & _). done. }
    rewrite Hlt, Hg. split; [|done]. intros ->. revert Hg. unfold startAttemptGuards.
    rewrite rbind_reject_Ok. intros [_ Hg]. discriminate Hg.
Qed.

(** ** Recorded operations *)

(** The input of a dispatch. *)
Definition dispatch_input (key hash : string) (token : Z) (now : Time) : TransitionInput :=
  {| ti_PlanRevision := pl_Revision plan; ti_AttemptID := ""; ti_LeaseToken := token; ti_Event := "";
     ti_Result := zero_Result; ti_Failure := None; ti_OutputArtifacts := []; ti_IdempotencyKey := key;
     ti_PayloadHash := hash; ti_Now := now |}.

(** The child plan a dispatch of a nested squad writes into its attempt. *)
Definition with_child (child : string) (a : NodeAttempt) (p : PlanProjection) : PlanProjection :=
  if child ≠? "" then put_attempt (na_ID a) (na_set_ChildPlanID child a) p else p.

(** A live operation, the event it commits, and the projection it leaves.  The
    payloads decode to what was encoded. *)
Inductive recorded : PlanProjection → Event → PlanProjection → Prop :=
  | rec_plan p e : ev_Type e = "plan.created" ∨ ev_Type e = "plan.published" → recorded p e p
  | rec_started wall p e nodeID attemptID no lease env key hash now child q a :
      ev_Type e = "attempt.started" → ev_IdempotencyKey e = key → nodeID ≠ "" → now ≠ 0%Z → (1 ≤ no)%Z →
      StartAttempt wall p plan nodeID attemptID no lease env
        (dispatch_input key hash (ls_FencingToken lease) now) = (q, Ok a) →
      child = "" ∨ na_Status a = AttemptRunning →
      json_unmarshal (ev_Payload e) = Ok {| stp_NodeID := nodeID; stp_AttemptID := na_ID a;
        stp_AttemptNo := na_AttemptNo a; stp_Lease := lease; stp_Context := env; stp_DispatchPayloadHash := hash;
        stp_StartedAt := now; stp_ChildPlanID := child |} →
      recorded p e (with_child child a q)
  | rec_bound p e a run session workdir :
      ev_Type e = "attempt.bound" → ev_AttemptID e = na_ID a → ev_NodeID e = na_NodeID a →
      ev_FencingToken e = ls_FencingToken (na_Lease a) →
      pp_Attempts p !! na_ID a = Some a → na_Status a = AttemptRunning → run ≠ "" → session ≠ "" → workdir ≠ "" →
      json_unmarshal (ev_Payload e) = Ok {| bp_AttemptID := na_ID a; bp_RunID := run; bp_SessionID := session;
        bp_WorkDir := workdir; bp_ChildPlanID := na_ChildPlanID a |} →
      recorded p e (put_attempt (na_ID a) (bind_run run session workdir (na_ChildPlanID a) a) p)
  | rec_finished wall p e attemptID i q b :
      ev_Type e = "attempt.finished" → ev_FencingToken e = ti_LeaseToken i →
      ti_PlanRevision i = pl_Revision plan → ti_PayloadHash i = "" → ti_Now i ≠ 0%Z →
      FinishAttempt wall p plan attemptID i = (q, Ok b) →
      json_unmarshal (ev_Payload e) = Ok {| fp_AttemptID := attemptID; fp_Event := ti_Event i;
        fp_Result := ti_Result i; fp_Failure := ti_Failure i; fp_ArtifactIDs := na_OutputArtifacts b;
        fp_TransitionIdempotencyKey := Some (ti_IdempotencyKey i); fp_TransitionAt := ti_Now i |} →
      recorded p e q
  | rec_retry p e nodeID q :
      ev_Type e = "node.retry_requested" → TrimSpace nodeID = nodeID → Retry p plan nodeID = (q, Ok tt) →
      json_unmarshal (ev_Payload e) = Ok {| rq_NodeID := nodeID |} → recorded p e q.

(** A run of recorded operations. *)
Inductive logged : PlanProjection → list Event → PlanProjection → Prop :=
  | logged_nil p : logged p [] p
  | logged_cons p e q es r : recorded p e q → logged q es r → logged p (e :: es) r.

Lemma StartAttempt_stored wall p nodeID attemptID no lease env i q a :
  reducer_inv plan p → StartAttempt wall p plan nodeID attemptID no lease env i = (q, Ok a) →
  pp_Attempts q !! na_ID a = Some a.
Proof.
  intros Hinv Ho. pose proof (ri_live _ _ Hinv) as [HA _].
  pose proof (StartAttempt_cases wall p plan nodeID attemptID no lease env i) as Hc. cbv zeta in Hc.
  destruct (startGuards _ _ _ _ _ _ _ _ _) as [[old|n no']|e] eqn:Hg; rewrite ?Ho in Hc; [| |done].
  - injection Hc as -> ->. revert Hg. unfold startGuards. rewrite rbind_any_Ok. intros [_ Hg].
    apply rbind_Ok in Hg as (r & Hr & Hg). destruct r as [old'|].
    + injection Hg as ->. destruct (startReplay_stored _ _ _ Hr) as [k Hk].
      pose proof (HA _ _ Hk) as [-> _ _ _ _ _]. done.
    + destruct (pp_Nodes p !! nodeID) as [n|]; [|done]. apply rbind_any_Ok in Hg as [_ Hg].
      apply rbind_Ok in Hg as ([x|] & Hx & Hg); [|done]. injection Hg as ->. apply startAttemptGuards_existing in Hx as [Hx _].
      pose proof (HA _ _ Hx) as [-> _ _ _ _ _]. done.
  - destruct Hc as (b & m & -> & _ & E). injection E as -> ->. simpl. by rewrite lookup_insert_eq.
Qed.

Lemma recorded_steps p e q : reducer_inv plan p → recorded p e q → rtc (step plan) p q.
Proof.
  intros Hinv. destruct 1 as [| wall p e nodeID attemptID no lease env key hash now child q a _ _ _ _ _ Ho Hc _
    | | wall p e attemptID i q b _ _ _ _ _ Ho _ | p e nodeID q _ Ht Ho _].
  - done.
  - apply (rtc_l _ _ q).
    + replace q with (q, Ok a : result NodeAttempt).1 by done. rewrite <- Ho. constructor.
    + unfold with_child. case_bool_decide as E; [done|]. simpl. apply rtc_once. constructor; [|naive_solver].
      by eapply StartAttempt_stored.
  - apply rtc_once. by constructor.
  - apply rtc_once. replace q with (q, Ok b : result NodeAttempt).1 by done. rewrite <- Ho. constructor.
  - apply rtc_once. replace q with (q, Ok tt : result unit).1 by done. rewrite <- Ho. by constructor.
Qed.

Lemma reachable_rtc p q : reachable plan p → rtc (step plan) p q → reachable plan q.
Proof. intros Hp. induction 1; [done|]. eauto using reachable_step. Qed.

(** One event reproduces the operation it records. *)
Lemma replay_recorded wall p e q k :
  reducer_inv plan p → recorded p e q → replayEvent wall plan p k e = Ok q.
Proof.
  intros Hinv. destruct 1 as [p e He | w p e nodeID attemptID no lease env key hash now child q a He <- Hnode Hnow Hno Ho Hc Hj
    | p e a run session workdir He Hid Hnode Htok Ha Hr Hrun Hses Hdir Hj | w p e attemptID i q b He Htok Hrev Hph Hnow Ho Hj
    | p e nodeID q He Ht Ho Hj]; unfold replayEvent.
  - destruct He as [-> | ->]; done.
  - rewrite He. simpl. unfold replayStarted. rewrite Hj. simpl.
    destruct (StartAttempt_recorded w wall p nodeID attemptID no lease env
      (dispatch_input (ev_IdempotencyKey e) hash (ls_FencingToken lease) now) q a Hinv Hnow Hno Ho) as [Hne Hs].
    unfold or_empty. rewrite !bool_decide_eq_false_2 by done.
    replace (orNow (ev_CreatedAt e) now) with now.
    + unfold dispatch_input in Hs. by rewrite Hs.
    + unfold orNow, IsZero. by destruct (Z.eqb_spec now 0).
  - rewrite He. simpl. unfold replayBound. rewrite Hj. simpl.
    pose proof (ri_live _ _ Hinv) as [HA _]. pose proof (HA _ _ Ha) as [_ Hne _ _ _ _].
    rewrite Hid, Hnode, Htok, Ha. unfold running.
    repeat match goal with |- context [bool_decide ?P] =>
      first [rewrite (bool_decide_true P) by done | rewrite (bool_decide_false P) by done] end.
    cbn. rewrite andb_false_r. done.
  - rewrite He. simpl. unfold replayFinished. rewrite Hj. simpl.
    assert (FinishAttempt wall p plan attemptID (ti_reported "" (na_OutputArtifacts b) i) = (q, Ok b)) as Hf.
    { rewrite (FinishAttempt_wall wall w) by done. by apply FinishAttempt_repeat. }
    replace (orNow (ev_CreatedAt e) (ti_Now i)) with (ti_Now i).
    + unfold ti_reported in Hf. rewrite Hrev, Hph in Hf. by rewrite Htok, Hf.
    + unfold orNow, IsZero. by destruct (Z.eqb_spec (ti_Now i) 0).
  - rewrite He. simpl. unfold replayRetry. rewrite Hj. simpl. by rewrite Ho.
Qed.

Lemma replay_logged wall p es q k :
  reachable plan p → logged p es q → fold_each_from k (replayEvent wall plan) p es = Ok q.
Proof.
  intros Hp Hl. induction Hl as [p|p e q es r Hrec Hl IH] in Hp, k |- *; [done|]. simpl.
  pose proof (reachable_inv _ _ Hp) as Hinv. rewrite (replay_recorded wall p e q k Hinv Hrec). simpl.
  apply IH. eapply reachable_rtc; [done|]. by apply (recorded_steps _ e).
Qed.

(** C10: replay reproduces the live projection, for runs of recorded operations.  When
    every event of an accepted chain records an operation of the run ([recorded]: the
    creation of the plan, a start with a set clock, the binding of a running attempt
    to a named run, session and work directory, a completion without a payload hash
    of the caller's, the retry of a node named without surrounding white space) and
    its payload decodes to the data the operation was given, replaying the chain
    yields exactly the projection the run ended with.  A payload decodes to other data
    when its fields hold what JSON does not carry, such as the integer usage of a
    worker's completion ([ProviderOutcomeProps.usage_replays_as_float]).  There is
    no event for a takeover, which is no part of such runs. *)
Theorem replay_reproduces wall es p0 p :
  NewProjection plan = Ok p0 → logged p0 es p →
  ValidateEventChain es (pl_ID plan) (pl_WorkspaceID plan) = Ok tt →
  ReplayProjection wall plan es = Ok p.
Proof.
  intros Hnew Hl Hc. unfold ReplayProjection. rewrite Hnew. simpl. rewrite Hc. simpl.
  apply replay_logged; [by constructor|done].
Qed.
End replay.

(** ** A replayed run *)

(** A decoder that knows the payloads of the sample run by name. *)
Definition toy_started : JsonUnmarshal StartedPayload := λ s,
  if s ≟ "started" then
    Ok {| stp_NodeID := "build"; stp_AttemptID := "a1"; stp_AttemptNo := 1; stp_Lease := sample_lease 7 100;
          stp_Context := sample_envelope 10; stp_DispatchPayloadHash := "h"; stp_StartedAt := 10;
          stp_ChildPlanID := "" |}
  else Err (Errorf "json" []).
Definition toy_bound : JsonUnmarshal BoundPayload := λ s,
  if s ≟ "bound" then
    Ok {| bp_AttemptID := "a1"; bp_RunID := "run"; bp_SessionID := "s"; bp_WorkDir := "/w"; bp_ChildPlanID := "" |}
  else Err (Errorf "json" []).
Definition toy_finished : JsonUnmarshal FinishedPayload := λ s,
  if (s ≟ "finished") || (s ≟ "timeout") then
    Ok {| fp_AttemptID := "a1"; fp_Event := if s ≟ "finished" then "success" else "timeout";
          fp_Result := sample_result "ok" ∅; fp_Failure := None; fp_ArtifactIDs := [];
          fp_TransitionIdempotencyKey := Some "k2"; fp_TransitionAt := 20 |}
  else Err (Errorf "json" []).
Definition toy_retry : JsonUnmarshal RetryPayload := λ s, Ok {| rq_NodeID := s |}.
#[export] Existing Instance toy_started.
#[export] Existing Instance toy_bound.
#[export] Existing Instance toy_finished.
#[export] Existing Instance toy_retry.

(** The next event of a chain, sealed as the executor seals it. *)
Definition next_event (es : list Event) (typ key payload : string) (token : Z) : Event :=
  let e := {| ev_ID := "id"; ev_PlanID := "plan"; ev_WorkspaceID := "ws"; ev_RunID := ""; ev_NodeID := "build";
              ev_AttemptID := "a1"; ev_Sequence := Z.of_nat (S (length es)); ev_Type := typ; ev_Payload := payload;
              ev_PayloadHash := payloadDigest payload; ev_PreviousHash := head_hash es; ev_EnvelopeHash := "";
              ev_IdempotencyKey := key; ev_FencingToken := token; ev_TraceParent := ""; ev_TraceState := "";
              ev_CreatedAt := 1 |} in reseal e.
Definition live_started : PlanProjection * result NodeAttempt :=
  StartAttempt 1 (new_of sample_plan) sample_plan "build" "a1" 1 (sample_lease 7 100) (sample_envelope 10)
    (dispatch_input sample_plan "k1" "h" 7 10).
Definition live_bound : PlanProjection :=
  put_attempt "a1" (bind_run "run" "s" "/w" "" (attempt_of live_started.1 "a1")) live_started.1.
Definition finish_input : TransitionInput := sample_input "success" "k2" 7 20 (sample_result "ok" ∅) None.
Definition live_finished : PlanProjection * result NodeAttempt := FinishAttempt 1 live_bound sample_plan "a1" finish_input.
Definition started_event : Event := next_event [] "attempt.started" "k1" "started" 7.
Definition bound_event : Event := next_event [started_event] "attempt.bound" "k1:bound" "bound" 7.
Definition finished_event : Event := next_event [started_event; bound_event] "attempt.finished" "k2:finished" "finished" 7.

Lemma sample_logged :
  logged sample_plan (new_of sample_plan) [started_event; bound_event; finished_event] live_finished.1.
Proof.
  apply (logged_cons _ _ _ live_started.1).
  { change live_started.1 with (with_child "" (attempt_of live_started.1 "a1") live_started.1).
    apply (rec_started sample_plan 1 (new_of sample_plan) started_event "build" "a1" 1 (sample_lease 7 100)
      (sample_envelope 10) "k1" "h" 10 "" live_started.1 (attempt_of live_started.1 "a1"));
      first [discriminate | lia | by left | vm_compute; reflexivity]. }
  apply (logged_cons _ _ _ live_bound).
  { apply (rec_bound sample_plan live_started.1 bound_event (attempt_of live_started.1 "a1") "run" "s" "/w");
      first [discriminate | vm_compute; reflexivity]. }
  apply (logged_cons _ _ _ live_finished.1); [|constructor].
  apply (rec_finished sample_plan 1 live_bound finished_event "a1" finish_input live_finished.1
    (attempt_of live_finished.1 "a1"));
    first [discriminate | vm_compute; reflexivity].
Qed.

Lemma replay_reproduces_witness :
  NewProjection sample_plan = Ok (new_of sample_plan) ∧
  ReplayProjection 1 sample_plan [started_event; bound_event; finished_event] = Ok live_finished.1.
Proof.
  split; [vm_compute; reflexivity|].
  apply (replay_reproduces sample_plan 1 _ (new_of sample_plan)).
  - vm_compute. reflexivity.
  - apply sample_logged.
  - vm_compute. reflexivity.
Defined.

(** A takeover is recorded as a completion under the token of the new lease
    (internal/api/orchestration.go, [commitAttemptFinishedEvent]), but no event
    carries that lease: replaying the log of a run with a takeover fails. *)
Definition takeover_event : Event := next_event [started_event; bound_event] "attempt.finished" "k2:finished" "timeout" 8.
Example takeover_not_replayable :
  (TakeOver 20 live_bound sample_plan "a1" "operator" 20).2 = Ok tt ∧
  ls_FencingToken (na_Lease (attempt_of (TakeOver 20 live_bound sample_plan "a1" "operator" 20).1 "a1")) = 8%Z ∧
  ValidateEventChain [started_event; bound_event; takeover_event] "plan" "ws" = Ok tt ∧
  ReplayProjection 1 sample_plan [started_event; bound_event; takeover_event] = Err (ESentinel ErrLeaseLost).
Proof. vm_compute. done. Qed.
