(* ===== verification/ReducerProps.v ===== *)
(** * ReducerProps: the properties of the reducer

    What holds of every reachable projection, and what one call guarantees. *)
From stdpp Require Import base strings gmap list pretty relations.
From Stdlib Require Import ZArith Lia.
From S2P Require Import Prelude GoLib GoValue GoJson ContextModel OrchModel GraphSearch Validate PredicateSpec GraphSpec ProjectionData Projection Repair RepairSpec Transition ContextSpec Samples StartSpec RouteSpec FinishSpec ReducerInv Scheduler Machine.

(** ** Helper lemmas *)

Lemma count_cons {A} (f : A → bool) x l : count f (x :: l) = ((if f x then 1 else 0) + count f l)%Z.
Proof. unfold count. simpl. destruct (f x); simpl; lia. Qed.

Lemma count_perm {A} (f : A → bool) l l' : l ≡ₚ l' → count f l = count f l'.
Proof. induction 1; rewrite ?count_cons in *; lia. Qed.

Section helpers.
Context `{!MapRange}.

Lemma count_range_insert {A} (f : A → bool) (m : gmap string A) k v :
  m !! k = None → count f (range_values (<[k := v]> m)) = ((if f v then 1 else 0) + count f (range_values m))%Z.
Proof.
  intros Hk. unfold range_values. rewrite <- count_cons. apply count_perm.
  rewrite (range_insert m k v Hk). done.
Qed.

Lemma allRepairsVerified_spec p :
  allRepairsVerified p = true ↔ ∀ id r, pp_RepairPlans p !! id = Some r → repairVerified r = true.
Proof.
  unfold allRepairsVerified. rewrite forallb_forall. split.
  - intros Hall id r Hr. apply Hall, list_elem_of_In, elem_of_range_values. eauto.
  - intros Hall r Hr. apply list_elem_of_In, elem_of_range_values in Hr as [id Hr]. eauto.
Qed.

Lemma finishReason_verified a p : allRepairsVerified (finishReason a p) = true ↔ allRepairsVerified p = true.
Proof.
  rewrite !allRepairsVerified_spec. unfold finishReason. case_bool_decide; [done|].
  destruct (pp_RepairPlans p !! na_RepairPlanID a) as [r|] eqn:Hr; [|done]. simpl.
  split; intros Hall id s Hs.
  - destruct (decide (id = na_RepairPlanID a)) as [->|Hne].
    + rewrite Hr in Hs. injection Hs as <-.
      specialize (Hall (na_RepairPlanID a)). rewrite lookup_insert_eq in Hall. exact (Hall _ eq_refl).
    + apply (Hall id). by rewrite lookup_insert_ne.
  - destruct (decide (id = na_RepairPlanID a)) as [->|Hne].
    + rewrite lookup_insert_eq in Hs. injection Hs as <-. apply (Hall _ _ Hr).
    + rewrite lookup_insert_ne in Hs by done. eauto.
Qed.
End helpers.

(** A history that is a run passes the validator. *)
Lemma lifecycle_run_validates id s l t : lifecycle_run s l t → validateHistorySteps id s l = Ok tt.
Proof. induction 1 as [|s t l u Ha _ IH]; [done|]. simpl. by rewrite Ha. Qed.

Lemma history_wf_validates id r : history_wf r → validateHistory id r = Ok tt.
Proof.
  intros (l & Hh & Hr). unfold validateHistory. rewrite Hh.
  rewrite (lifecycle_run_last _ _ _ Hr), !bool_decide_eq_true_2 by done. simpl.
  by eapply lifecycle_run_validates.
Qed.

(** What routing and the rest of a completion leave alone. *)
Lemma routed_fields N T D s o p :
  pp_Revision (routed N T D s o p) = pp_Revision p ∧ pp_Idempotency (routed N T D s o p) = pp_Idempotency p ∧
  pp_RepairPlans (routed N T D s o p) = pp_RepairPlans p.
Proof. done. Qed.

Lemma finishReason_fields a p :
  pp_Nodes (finishReason a p) = pp_Nodes p ∧ pp_Revision (finishReason a p) = pp_Revision p ∧
  pp_Idempotency (finishReason a p) = pp_Idempotency p ∧ pp_TerminalOutcome (finishReason a p) = pp_TerminalOutcome p.
Proof. unfold finishReason. case_bool_decide; [done|]. by destruct (pp_RepairPlans p !! _). Qed.

Section props.
Context `{!MapRange, !Sha256, !JsonMarshal (string * StructuredResult * option FailureReason)}.
Context `{!EnvelopeContract}.

(** C1: in every reachable projection a node has at most one running attempt.  The
    runs are those of [step]: starts, completions, takeovers and bindings with any
    arguments, and retries that name their node without surrounding white space (the
    retry of a padded id writes a second node entry, see
    [Findings.retry_untrimmed_id]). *)
Theorem one_running_attempt_per_node plan p i j a b :
  reachable plan p → pp_Attempts p !! i = Some a → pp_Attempts p !! j = Some b →
  na_NodeID a = na_NodeID b → na_Status a = AttemptRunning → na_Status b = AttemptRunning → i = j.
Proof. intros Hr. apply (live_inv_exclusive _ _ _ _ _ _ _ (ri_live _ _ (reachable_inv _ _ Hr))). Qed.

(** every reachable projection passes the node part of
    [PlanProjection.Validate]: nodes sit under their own id, point to an attempt
    of their own, and are running or waiting only if that attempt is. *)
Theorem reachable_nodes_validate plan p :
  reachable plan p →
  check_each (λ _ '(id, n), validateNodeProjection p id n) (range (pp_Nodes p)) = Ok tt.
Proof. intros Hr. apply (reducer_nodes_validate plan), reachable_inv, Hr. Qed.

(** C3: the decision log of a plan never holds more decisions to follow an edge than
    its traversal limit allows: in every reachable projection (retries as in
    [step]) the counter of a bounded edge is at most the limit and at least the number
    of logged decisions that name the edge.  A completion that fails takes both back;
    a target it had already opened stays open ([Findings.failed_fan_out_reopens]).
    For the limit 2^63-1 only the counter is bounded. *)
Theorem loop_limits_hold plan p e :
  reachable plan p → e ∈ g_Edges (pl_GraphSnapshot plan) → (0 < we_MaxTraversals e)%Z →
  (traversals_at p (we_ID e) ≤ we_MaxTraversals e)%Z ∧
  ((we_MaxTraversals e < two63 - 1)%Z → (times_decided (we_ID e) (pp_Decisions p) ≤ traversals_at p (we_ID e))%Z).
Proof. intros Hr. apply (ri_traversals _ _ (reachable_inv _ _ Hr)). Qed.

(** the state history of every repair plan of a reachable projection starts
    at planned, ends at the plan's state and follows the repair lifecycle, so
    the history checks of [PlanProjection.Validate] accept it. *)
Theorem repair_histories_valid plan p id r :
  reachable plan p → pp_RepairPlans p !! id = Some r → rp_ID r = id ∧ validateHistory id r = Ok tt.
Proof.
  intros Hr Hid. destruct (ri_repairs _ _ (reachable_inv _ _ Hr) _ _ Hid) as [Hi Hw].
  split; [done|]. by apply history_wf_validates.
Qed.

(** C6: an attempt that has ended is never changed or dropped by any later
    sequence of operations. *)
Theorem ended_attempts_immutable plan p p' id a :
  rtc (step plan) p p' → pp_Attempts p !! id = Some a → ended a → pp_Attempts p' !! id = Some a.
Proof.
  intros Hs. revert id a. change (log_kept (pp_Attempts p) (pp_Attempts p')).
  induction Hs as [|p q r Hpq _ IH]; [done|]. etrans; [by eapply step_log|done].
Qed.

(** a start that is refused leaves the projection as it was. *)
Theorem StartAttempt_refusal wall p plan nodeID attemptID no lease env input p' e :
  StartAttempt wall p plan nodeID attemptID no lease env input = (p', Err e) → p' = p.
Proof.
  pose proof (StartAttempt_cases wall p plan nodeID attemptID no lease env input) as Hc. cbv zeta in Hc.
  destruct (startGuards _ _ _ _ _ _ _ _ _) as [[old|n no']|e']; [by rewrite Hc; intros [= <-]| |].
  - destruct Hc as (a & m & _ & _ & ->). done.
  - rewrite Hc. by intros [= <-].
Qed.

(** C9: admission control.  A start that adds an attempt does so for a ready
    node with no running attempt, on a live lease, and stays within the plan's
    concurrency and token budgets. *)
Theorem StartAttempt_admission wall p plan nodeID attemptID no lease env input p' a :
  let b := pol_Budget (pl_PolicySnapshot plan) in
  let now := orNow wall (ti_Now input) in
  StartAttempt wall p plan nodeID attemptID no lease env input = (p', Ok a) →
  p' ≠ p →
  (0 ≤ pp_TokenUsage p)%Z → (pp_TokenUsage p + token_estimate env < two63)%Z →
  pp_Attempts p' = <[attemptID := a]> (pp_Attempts p) ∧ na_Status a = AttemptRunning ∧
  na_NodeID a = nodeID ∧ np_CurrentAttempt (node_at p' nodeID) = attemptID ∧
  (ls_ExpiresAt lease = 0 ∨ now < ls_ExpiresAt lease)%Z ∧
  (bg_Concurrent b ≤ 0 ∨ count running (range_values (pp_Attempts p')) ≤ bg_Concurrent b)%Z ∧
  pp_TokenUsage p' = (pp_TokenUsage p + token_estimate env)%Z ∧
  (bg_Tokens b ≤ 0 ∨ pp_TokenUsage p' ≤ bg_Tokens b)%Z.
Proof.
  cbv zeta. intros HS Hnew Hpos Hsum.
  pose proof (StartAttempt_cases wall p plan nodeID attemptID no lease env input) as Hc. cbv zeta in Hc.
  destruct (startGuards _ _ _ _ _ _ _ _ _) as [[old|n no']|e'] eqn:Hg;
    [rewrite Hc in HS; injection HS; congruence| |by rewrite Hc in HS].
  destruct Hc as (a' & m & Ha' & _ & Hc). rewrite Hc in HS. injection HS as <- <-.
  apply startGuards_fresh in Hg.
  destruct (new_attempt_fields p plan (node_definition (pl_GraphSnapshot plan) nodeID) nodeID attemptID no'
    lease n env (ti_set_Now (orNow wall (ti_Now input)) input) (orNow wall (ti_Now input)))
    as (Ai & _ & An & _ & _ & _ & As & _). rewrite <- Ha' in Ai, An, As.
  destruct Hg as [_ _ Gt Gc Ge _ _ _ _ _ _ Gn _ _ Gl]. apply envelope_tokens in Ge. fold (token_estimate env) in Ge.
  assert (add64 (pp_TokenUsage p) (token_estimate env) = pp_TokenUsage p + token_estimate env)%Z as Hadd.
  { unfold add64. apply wrap64_id. unfold int64_range, two63 in *. lia. }
  simpl. rewrite Ai, Hadd in *. unfold node_at. simpl. rewrite lookup_insert_eq.
  split_and!; try done.
  rewrite count_range_insert by done. unfold running at 1. rewrite As, bool_decide_eq_true_2 by done. lia.
Qed.

(** ** Completions *)

(** C2: fencing of running attempts.  A completion of an attempt that is running but
    not its node's current attempt, or that carries a token which is neither zero nor
    the lease's, or that arrives at or after the expiry of a lease that has one and is
    not a timeout, is refused with a sentinel and changes nothing.  (Token zero skips
    the token check, and a waiting attempt is not fenced.) *)
Theorem FinishAttempt_fenced wall p plan attemptID input a :
  let now := orNow wall (ti_Now input) in
  pp_Attempts p !! attemptID = Some a → na_Status a = AttemptRunning →
  (np_CurrentAttempt (node_at p (na_NodeID a)) ≠ attemptID ∨
   (ti_LeaseToken input ≠ 0%Z ∧ ls_FencingToken (na_Lease a) ≠ ti_LeaseToken input) ∨
   (ls_ExpiresAt (na_Lease a) ≠ 0%Z ∧ (ls_ExpiresAt (na_Lease a) ≤ now)%Z ∧ ti_Event input ≠ "timeout")) →
  ∃ s, FinishAttempt wall p plan attemptID input = (p, Err (ESentinel s)) ∧
       s ∈ [ErrStaleAttempt; ErrIdempotencyConflict; ErrLeaseLost].
Proof.
  cbv zeta. intros Ha Hr Hbad. unfold FinishAttempt. cbv zeta.
  assert (∃ s, finishFence p attemptID input (orNow wall (ti_Now input)) = Err (ESentinel s) ∧
               s ∈ [ErrStaleAttempt; ErrIdempotencyConflict; ErrLeaseLost]) as (s & -> & Hs);
    [|by exists s].
  unfold finishFence. rewrite Ha. destruct (_ && _); simpl; [eexists; split; [done|set_solver]|].
  unfold node_at in Hbad. destruct (pp_Nodes p !! na_NodeID a) as [n|]; simpl in Hbad;
    [|eexists; split; [done|set_solver]].
  destruct (bool_decide (np_CurrentAttempt n = attemptID)) eqn:Ec; simpl; [|eexists; split; [done|set_solver]].
  apply bool_decide_eq_true in Ec. cbv zeta.
  match goal with |- context [reject ?b (ESentinel ErrIdempotencyConflict)] => destruct b end; simpl;
    [eexists; split; [done|set_solver]|].
  unfold running. rewrite Hr, andb_false_r. simpl.
  destruct Hbad as [Hbad|[[Ht1 Ht2]|(Hz & He & Hev)]]; [congruence| |].
  - rewrite !bool_decide_eq_false_2 by done. simpl. eexists; split; [done|set_solver].
  - destruct (_ && negb (bool_decide (ls_FencingToken _ = _))); simpl; [eexists; split; [done|set_solver]|].
    unfold IsZero, Before. replace (ls_ExpiresAt (na_Lease a) =? 0)%Z with false by lia.
    replace (orNow wall (ti_Now input) <? ls_ExpiresAt (na_Lease a))%Z with false by lia.
    rewrite bool_decide_eq_false_2 by done. simpl. eexists; split; [done|set_solver].
Qed.

(** The projection a completed commit leaves, in terms of the one before. *)
Lemma finishCommit_Ok_fields plan wall p q n a a' attemptID input now p' b :
  NoDup (we_ID <$> g_Edges (pl_GraphSnapshot plan)) →
  reducer_inv plan p → fenced p attemptID input now a n → finished_as a a' → repair_frame p q →
  finishCommit wall q plan n a' attemptID (ti_set_Now now input) = (p', Ok b) →
  b = a' ∧ pp_Attempts p' = <[attemptID := a']> (pp_Attempts p) ∧ pp_Revision p' = pp_Revision p ∧
  np_CurrentAttempt (node_at p' (na_NodeID a)) = attemptID ∧ is_Some (pp_Nodes p' !! na_NodeID a) ∧
  pp_Idempotency p' = (if TrimSpace (ti_IdempotencyKey input) ≠? ""
    then <[TrimSpace (ti_IdempotencyKey input) := finish_hash input]> (pp_Idempotency p) else pp_Idempotency p).
Proof.
  intros Hnd [Hpid Hlive Htgt Htrav Hrep] Hf Ha (N & M & -> & HN).
  set (q := repaired N M p). unfold finishCommit. cbv zeta.
  destruct (finishRecord_fields q n a' attemptID (ti_set_Now now input)) as (R1 & R2 & _ & R4 & _).
  pose proof (finishRecord_keys q n a' attemptID (ti_set_Now now input)) as R10. cbv zeta in R10.
  set (p1 := finishRecord _ _ _ _ _) in *.
  assert (targets_exist (pl_GraphSnapshot plan) (pp_Nodes p1)) as Htgt1.
  { rewrite R1. apply targets_exist_insert. by eapply targets_exist_reopen. }
  destruct (shortCircuit_frame plan a' p1 Htgt1) as (N2 & -> & HN2).
  pose proof (fc_current _ _ _ _ _ _ Hf) as Hcur. pose proof (fa_node _ _ Ha) as Hnode.
  assert (∀ N', nodes_reopened N2 N' → ∃ x, N' !! na_NodeID a = Some x ∧ np_CurrentAttempt x = attemptID ∧ np_Status x ≠ AttemptRunning) as Hcurrent.
  { intros N' HN'. assert (nodes_reopened (pp_Nodes p1) N') as Hre by (etrans; [exact HN2|exact HN']).
    destruct (nodes_reopened_lookup _ N' (na_NodeID a) (np_set_Status (na_Status a') n) Hre) as (x & Hx & Hxr).
    { by rewrite R1, Hnode, lookup_insert_eq. }
    exists x. split; [done|]. destruct (reopened_fields _ _ Hxr) as [_ ->]. split; [done|].
    rewrite (reopened_running _ _ Hxr). intros [Hs _]. by apply (fa_stopped _ _ Ha). }
  assert (∀ x, nodes_reopened N2 (pp_Nodes x) → pp_Attempts x = pp_Attempts p1 → pp_Revision x = pp_Revision p1 →
    pp_Idempotency x = pp_Idempotency p1 → (finishReason a' x, Ok a') = (p', Ok b) →
    b = a' ∧ pp_Attempts p' = <[attemptID := a']> (pp_Attempts p) ∧ pp_Revision p' = pp_Revision p ∧
    np_CurrentAttempt (node_at p' (na_NodeID a)) = attemptID ∧ is_Some (pp_Nodes p' !! na_NodeID a) ∧
    pp_Idempotency p' = (if TrimSpace (ti_IdempotencyKey input) ≠? ""
      then <[TrimSpace (ti_IdempotencyKey input) := finish_hash input]> (pp_Idempotency p) else pp_Idempotency p)) as Hfin.
  { intros x HN' X1 X2 X3 Heq. injection Heq as <- <-. destruct (finishReason_fields a' x) as (F1 & F2 & F3 & _).
    destruct (Hcurrent _ HN') as (y & Hy & Hc & _). unfold node_at.
    rewrite finishReason_attempts, F1, F2, F3, X1, X2, X3, R2, R4, R10, Hy. split_and!; done || eauto. }
  destruct (routes _ _); [|by apply Hfin].
  assert (∃ x, N2 !! na_NodeID a' = Some x ∧ np_Status x ≠ AttemptRunning) as Hown.
  { rewrite Hnode. destruct (Hcurrent N2) as (x & ? & _ & ?); [done|]. eauto. }
  pose proof (route_framed wall (pp_set_Nodes N2 p1) plan a' (ti_set_Now now input) Hnd
    (targets_exist_reopen _ _ _ HN2 Htgt1) Hown) as (N3 & T3 & D3 & s3 & o3 & E3 & HN3 & _ & _).
  destruct (route _ _ _ _ _) as [p3 [u|e]]; cbn [fst] in E3; [|done]. subst p3. by apply Hfin.
Qed.

(** Whether a completion is a replay does not depend on the clock. *)
Lemma finishFence_replay_now p attemptID input now now' a n :
  finishFence p attemptID input now = Ok (a, n, true) → finishFence p attemptID input now' = Ok (a, n, true).
Proof.
  unfold finishFence. destruct (pp_Attempts p !! attemptID) as [a0|]; [|done].
  rewrite !rbind_reject_Ok. intros [-> Hf]. split; [done|].
  destruct (pp_Nodes p !! na_NodeID a0) as [n0|]; [|done]. cbv zeta in *.
  rewrite !rbind_reject_Ok in *. destruct Hf as (-> & -> & Hf). split_and!; [done..|].
  destruct (negb (bool_decide _) && _ && _); [done|].
  rewrite !rbind_reject_Ok in Hf. by destruct Hf as (_ & _ & _ & ?).
Qed.

(** The projection a commit leaves when routing fails. *)
Lemma finishCommit_Err_fields plan wall p q n a a' attemptID input now p' e :
  NoDup (we_ID <$> g_Edges (pl_GraphSnapshot plan)) →
  reducer_inv plan p → fenced p attemptID input now a n → finished_as a a' → repair_frame p q →
  finishCommit wall q plan n a' attemptID (ti_set_Now now input) = (p', Err e) →
  pp_Traversals p' = pp_Traversals p ∧ pp_Decisions p' = pp_Decisions p ∧ pp_Status p' = pp_Status p ∧
  pp_TerminalOutcome p' = pp_TerminalOutcome p ∧ pp_Revision p' = pp_Revision p ∧
  pp_Idempotency p' = pp_Idempotency p.
Proof.
  intros Hnd [Hpid Hlive Htgt Htrav Hrep] Hf Ha (N & M & -> & HN).
  pose proof (fc_attempt _ _ _ _ _ _ Hf) as Hat.
  set (q := repaired N M p). unfold finishCommit. cbv zeta.
  destruct (finishRecord_fields q n a' attemptID (ti_set_Now now input)) as (R1 & _ & _ & R4 & _ & R6 & _ & R8 & _).
  pose proof (finishRecord_keys q n a' attemptID (ti_set_Now now input)) as R10.
  set (p1 := finishRecord _ _ _ _ _) in *.
  assert (targets_exist (pl_GraphSnapshot plan) (pp_Nodes p1)) as Htgt1.
  { rewrite R1. apply targets_exist_insert. by eapply targets_exist_reopen. }
  destruct (shortCircuit_frame plan a' p1 Htgt1) as (N2 & -> & HN2). set (p2 := pp_set_Nodes N2 p1).
  destruct (routes _ _); [|done].
  assert (∃ x, N2 !! na_NodeID a' = Some x ∧ np_Status x ≠ AttemptRunning) as Hown.
  { eapply nodes_reopened_stopped; [exact HN2|rewrite R1; apply lookup_insert_eq|]. simpl. apply (fa_stopped _ _ Ha). }
  pose proof (route_framed wall p2 plan a' (ti_set_Now now input) Hnd (targets_exist_reopen _ _ _ HN2 Htgt1) Hown)
    as (N3 & T3 & D3 & s3 & o3 & E3 & _ & _ & Ho3).
  destruct (route wall p2 plan a' (ti_set_Now now input)) as [p3 [u|err]]; cbn [fst snd] in E3, Ho3; [done|].
  destruct Ho3 as [|Ho3]; [done|]. intros [= <- _].
  destruct (finishRollback_fields q p3 attemptID (na_NodeID a') (ti_set_Now now input) a Hat)
    as (_ & _ & _ & B4 & B5 & B6 & B7 & B8 & _).
  assert (pp_Idempotency (finishRollback q p3 attemptID (na_NodeID a') (ti_set_Now now input)) = pp_Idempotency q) as B10.
  { eapply finishRollback_keys. rewrite E3. exact R10. }
  rewrite B4, B5, B6, B7, B8, B10, E3. simpl. rewrite Ho3. simpl. rewrite R4, R6, R8.
  split_and!; try done. by rewrite take_app_length.
Qed.

(** C5: a completion is idempotent, waiting excepted.  In a reachable projection,
    repeating a successful completion under the same key, which is not blank, returns
    the same attempt and changes nothing, unless the completion is the event
    [waiting] and left the attempt waiting: that one is applied, and charged, again. *)
Theorem FinishAttempt_idempotent wall wall' plan p attemptID input p' a :
  reachable plan p →
  TrimSpace (ti_IdempotencyKey input) ≠ "" →
  FinishAttempt wall p plan attemptID input = (p', Ok a) →
  na_Status a ≠ AttemptWaiting ∨ ti_Event input ≠ "waiting" →
  na_Status a ≠ AttemptRunning ∧ FinishAttempt wall' p' plan attemptID input = (p', Ok a).
Proof.
  intros Hreach Hkey HF Hev. pose proof (reachable_wf _ _ Hreach) as Hwf. apply reachable_inv in Hreach.
  assert (∀ n, pp_Attempts p' !! attemptID = Some a → na_Status a ≠ AttemptRunning →
    (ti_PlanRevision input = 0%Z ∨ ti_PlanRevision input = pp_Revision p') →
    pp_Nodes p' !! na_NodeID a = Some n → np_CurrentAttempt n = attemptID →
    pp_Idempotency p' !! TrimSpace (ti_IdempotencyKey input) = Some (finish_hash input) →
    FinishAttempt wall' p' plan attemptID input = (p', Ok a)) as Hreplay.
  { intros n Ha Hs Hrev Hn Hc Hk. unfold FinishAttempt, finishFence. cbv zeta. rewrite Ha.
    replace ((ti_PlanRevision input ≠? 0%Z) && (ti_PlanRevision input ≠? pp_Revision p')) with false.
    2: { symmetry. apply andb_false_iff. rewrite !negb_false_iff, !bool_decide_eq_true. done. }
    simpl. rewrite Hn, (bool_decide_eq_true_2 _ Hc). simpl.
    rewrite (bool_decide_eq_false_2 _ Hkey). simpl. rewrite Hk.
    rewrite (bool_decide_eq_true_2 (finish_hash input = finish_hash input)) by done. rewrite andb_false_r. simpl.
    unfold running. rewrite (bool_decide_eq_false_2 _ Hs). simpl.
    replace ((na_Status a ≠? AttemptWaiting) || (ti_Event input ≠? "waiting")) with true; [done|].
    symmetry. apply orb_true_iff. rewrite !negb_true_iff, !bool_decide_eq_false. done. }
  pose proof (FinishAttempt_cases plan wall p attemptID input) as Hc. cbv zeta in Hc. rewrite HF in Hc.
  destruct Hc as [(e & [=])|[(b & n & [= -> ->] & Hr)|(a0 & n & q & Hf & Hfr & Hw & Hc)]].
  - split; [by apply finishFence_replay in Hr as []|]. unfold FinishAttempt. cbv zeta.
    by rewrite (finishFence_replay_now _ _ _ _ (orNow wall' (ti_Now input)) _ _ Hr).
  - destruct Hc as [(e & [=])|(a' & Hfa & HC)]. symmetry in HC.
    destruct (finishCommit_Ok_fields plan wall p q n a0 a' attemptID input _ p' a (wf_edge_ids _ Hwf) Hreach Hf Hfa Hfr HC)
      as (-> & A1 & A2 & A3 & [n' A4] & A5).
    split; [apply (fa_stopped _ _ Hfa)|]. rewrite <- (fa_node _ _ Hfa) in A3, A4.
    apply (Hreplay n'); try done.
    + by rewrite A1, lookup_insert_eq.
    + apply (fa_stopped _ _ Hfa).
    + rewrite A2. apply (fc_revision _ _ _ _ _ _ Hf).
    + unfold node_at in A3. by rewrite A4 in A3.
    + rewrite A5, (bool_decide_eq_false_2 _ Hkey). simpl. by rewrite lookup_insert_eq.
Qed.
(** A completion under a token that is not the attempt's leaves the projection alone. *)
Lemma finish_other_token wall plan p attemptID input a :
  pp_Attempts p !! attemptID = Some a → ti_LeaseToken input ≠ 0%Z →
  ls_FencingToken (na_Lease a) ≠ ti_LeaseToken input →
  (FinishAttempt wall p plan attemptID input).1 = p.
Proof.
  intros Ha Hz Ht. pose proof (FinishAttempt_cases plan wall p attemptID input) as Hc. cbv zeta in Hc.
  destruct Hc as [(e & ->)|[(b & n & -> & _)|(a0 & n & q & Hf & _)]]; [done..|].
  pose proof (fc_attempt _ _ _ _ _ _ Hf) as Ha0. rewrite Ha in Ha0. injection Ha0 as <-.
  destruct (fc_token _ _ _ _ _ _ Hf); done.
Qed.

Lemma add64_succ_ne t : int64_range t → add64 t 1 ≠ t.
Proof.
  unfold int64_range, add64. intros Ht E. destruct (decide (t = two63 - 1)%Z) as [->|Hne].
  - by vm_compute in E.
  - rewrite wrap64_id in E; [lia|]. unfold int64_range, two63 in *. lia.
Qed.

(** C8: after a takeover, whatever its outcome, a completion under the token of
    the worker that was taken over changes nothing. *)
Theorem TakeOver_fences_old_owner wall wall' plan p attemptID owner now input a p' r :
  pp_Attempts p !! attemptID = Some a → na_Status a = AttemptRunning → owner ≠ "" →
  int64_range (ls_FencingToken (na_Lease a)) →
  TakeOver wall p plan attemptID owner now = (p', r) →
  ti_LeaseToken input = ls_FencingToken (na_Lease a) → ti_LeaseToken input ≠ 0%Z →
  (FinishAttempt wall' p' plan attemptID input).1 = p'.
Proof.
  intros Ha Hr Ho Hrange HT Htok Hz. unfold TakeOver in HT. rewrite Ha in HT. unfold running in HT.
  rewrite bool_decide_eq_true_2, bool_decide_eq_false_2 in HT by done. simpl in HT.
  set (l := takeover_lease _ _ _) in HT. set (q := put_attempt _ _ _) in HT.
  set (i := control_input _ _ _ _ _ _ _ _ _ _ _) in HT.
  pose proof (FinishAttempt_attempts plan wall q attemptID i) as Hc. cbv zeta in Hc.
  destruct (FinishAttempt wall q plan attemptID i) as [s out]. injection HT as <- <-. cbn [fst snd] in Hc.
  assert (pp_Attempts q !! attemptID = Some (na_set_Lease l a)) as Hq by (unfold q; simpl; by rewrite lookup_insert_eq).
  assert (∃ b, pp_Attempts s !! attemptID = Some b ∧ na_Lease b = l) as (b & Hb & Hl).
  { destruct out as [b|e]; [|exists (na_set_Lease l a); by rewrite Hc].
    destruct Hc as [Hb [Hsame|(a0 & Ha0 & _ & Hfa & _)]].
    - exists (na_set_Lease l a). by rewrite Hsame.
    - exists b. split; [done|]. rewrite Hq in Ha0. injection Ha0 as <-. apply (fa_lease _ _ Hfa). }
  apply (finish_other_token _ _ _ _ _ b Hb Hz). rewrite Hl, Htok. simpl. by apply add64_succ_ne.
Qed.

(** C7: a plan ends as succeeded only when a passed exit attempt with evidence
    was committed and every repair plan is verified. *)
Theorem success_requires_verified_repairs wall plan p attemptID input p' a :
  FinishAttempt wall p plan attemptID input = (p', Ok a) →
  pp_TerminalOutcome p ≠ "succeeded" → pp_TerminalOutcome p' = "succeeded" →
  na_Status a = AttemptPassed ∧ na_NodeID a ∈ g_ExitNodeIDs (pl_GraphSnapshot plan) ∧
  res_EvidenceIDs (na_Result a) ≠ [] ∧ allRepairsVerified p' = true ∧ pp_Status p' = PlanTerminal.
Proof.
  intros HF Hne Hs. pose proof (FinishAttempt_cases plan wall p attemptID input) as Hc. cbv zeta in Hc.
  rewrite HF in Hc. destruct Hc as [(e & [=])|[(b & n & [= -> ->] & _)|(a0 & n & q & _ & (N & M & -> & _) & _ & Hc)]]; [done|].
  destruct Hc as [(e & [=])|(a' & _ & HC)]. unfold finishCommit in HC. cbv zeta in HC.
  set (i := ti_set_Now _ _) in HC. set (p1 := shortCircuit _ _ _) in HC.
  assert (pp_TerminalOutcome p1 = pp_TerminalOutcome p) as Hp1.
  { unfold p1. rewrite shortCircuit_outcome. destruct (finishRecord_fields (repaired N M p) n a' attemptID i) as (_ & _ & _ & _ & _ & -> & _). done. }
  destruct (routes _ _).
  - pose proof (route_succeeded wall p1 plan a' i) as Hrs.
    pose proof (route_keeps pp_RepairPlans wall p1 plan a' i) as Hrp.
    destruct (route wall p1 plan a' i) as [p2 [u|e]]; [|done]. injection HC as -> ->. cbn [fst] in *.
    destruct (finishReason_fields a' p2) as (_ & _ & _ & Ho). rewrite Ho in Hs.
    destruct Hrs as (R1 & R2 & R3 & R4 & R5); [by rewrite Hp1|done|]. split_and!; try done.
    + apply finishReason_verified, allRepairsVerified_spec. rewrite Hrp by done.
      by apply allRepairsVerified_spec.
    + unfold finishReason. case_bool_decide; [done|]. by destruct (pp_RepairPlans p2 !! _).
  - injection HC as -> ->. destruct (finishReason_fields a' p1) as (_ & _ & _ & Ho). congruence.
Qed.

(** a completion that fails keeps the attempt log, the traversal counts, the
    decisions, the plan's status and outcome, the revision and the recorded keys. *)
Theorem FinishAttempt_failure_restores wall plan p attemptID input p' e :
  reachable plan p → FinishAttempt wall p plan attemptID input = (p', Err e) →
  pp_Attempts p' = pp_Attempts p ∧ pp_Traversals p' = pp_Traversals p ∧ pp_Decisions p' = pp_Decisions p ∧
  pp_Status p' = pp_Status p ∧ pp_TerminalOutcome p' = pp_TerminalOutcome p ∧
  pp_Revision p' = pp_Revision p ∧ pp_Idempotency p' = pp_Idempotency p.
Proof.
  intros Hreach HF. pose proof (FinishAttempt_attempts plan wall p attemptID input) as Hatt. cbv zeta in Hatt.
  rewrite HF in Hatt. cbn [fst snd] in Hatt. split; [done|]. clear Hatt.
  pose proof (reachable_wf _ _ Hreach) as Hwf. apply reachable_inv in Hreach.
  pose proof (FinishAttempt_cases plan wall p attemptID input) as Hc. cbv zeta in Hc.
  rewrite HF in Hc. destruct Hc as [(e' & [= -> _])|[(b & n & [=] & _)|(a & n & q & Hf & Hfr & _ & Hc)]]; [done|].
  destruct Hc as [(e' & [= -> _])|(a' & Hfa & HC)]; [by destruct Hfr as (N & M & -> & _)|].
  symmetry in HC. by eapply (finishCommit_Err_fields plan wall p q n a a' attemptID input _ p' e (wf_edge_ids _ Hwf)).
Qed.
End props.

(** ** Witnesses *)

Lemma start_reachable plan p node id key now :
  reachable plan p → reachable plan (start plan p node id key now).1.
Proof. intros Hp. eapply reachable_step; [exact Hp|]. apply step_start. Qed.

Lemma run_one_reachable plan fields p node id event :
  reachable plan p → reachable plan (run_one plan fields p node id event).
Proof. intros Hp. eapply reachable_step; [apply start_reachable, Hp|]. apply step_finish. Qed.

Lemma run_one_steps plan fields p node id event : rtc (step plan) p (run_one plan fields p node id event).
Proof.
  apply (rtc_l _ _ (start plan p node id ("start:" +:+ id) 10).1); [apply step_start|].
  apply rtc_once. apply step_finish.
Qed.

Lemma new_reachable plan p : NewProjection plan = Ok p → reachable plan (new_of plan).
Proof. intros Hp. unfold new_of. rewrite Hp. by apply reachable_new. Qed.

(** The sample projections of the repair run. *)
Definition built : PlanProjection := (start sample_plan (new_of sample_plan) "build" "a1" "k1" 10).1.
Definition looped : PlanProjection :=
  run_one sample_plan ∅ (run_one sample_plan ∅ (new_of sample_plan) "build" "a1" "success") "qa" "a2" "bug".
Lemma built_reachable : reachable sample_plan built.
Proof. apply start_reachable. eapply new_reachable. vm_compute. reflexivity. Qed.
Lemma looped_reachable : reachable sample_plan looped.
Proof. do 2 apply run_one_reachable. eapply new_reachable. vm_compute. reflexivity. Qed.
Lemma repair_verified_reachable : reachable repair_plan repair_verified.
Proof. do 5 apply run_one_reachable. eapply new_reachable. vm_compute. reflexivity. Qed.

Lemma one_running_attempt_per_node_witness :
  na_Status (attempt_of built "a1") = AttemptRunning ∧ "a1" = "a1".
Proof.
  split; [reflexivity|].
  apply (one_running_attempt_per_node sample_plan built "a1" "a1" (attempt_of built "a1") (attempt_of built "a1"));
    [apply built_reachable|vm_compute; reflexivity..].
Defined.

Lemma reachable_nodes_validate_witness :
  check_each (λ _ '(id, n), validateNodeProjection built id n) (range (pp_Nodes built)) = Ok tt.
Proof. apply (reachable_nodes_validate sample_plan built). apply built_reachable. Defined.

Lemma loop_limits_hold_witness :
  times_decided "e3" (pp_Decisions looped) = 1%Z ∧ (traversals_at looped "e3" ≤ 2)%Z
  ∧ ((2 < two63 - 1)%Z → (times_decided "e3" (pp_Decisions looped) ≤ traversals_at looped "e3")%Z).
Proof.
  split; [vm_compute; reflexivity|].
  apply (loop_limits_hold sample_plan looped (sample_edge "e3" "qa" "build" EdgeBug 2)).
  - apply looped_reachable.
  - simpl. right. right. left.
  - reflexivity.
Defined.

Definition verified_repair : RepairPlan :=
  default {| rp_ID := ""; rp_PlanID := ""; rp_RepairNodeID := ""; rp_RepairAttemptID := "";
    rp_RepairAttemptIDs := []; rp_TargetNodeID := ""; rp_VerificationNodeIDs := []; rp_SourceAttemptIDs := [];
    rp_Scope := []; rp_MaxRounds := 0; rp_Round := 0; rp_State := RepairNone; rp_StateHistory := [];
    rp_TargetAttemptID := ""; rp_VerificationAttempts := ∅; rp_VerifiedNodes := ∅; rp_PatchArtifactIDs := [];
    rp_VerificationArtifactIDs := []; rp_LastReasonCode := "" |} (pp_RepairPlans repair_verified !! "plan:repair:a3").

Lemma repair_histories_valid_witness :
  rp_State verified_repair = RepairVerified ∧ validateHistory "plan:repair:a3" verified_repair = Ok tt.
Proof.
  split; [vm_compute; reflexivity|].
  apply (repair_histories_valid repair_plan repair_verified "plan:repair:a3" verified_repair).
  - apply repair_verified_reachable.
  - vm_compute. reflexivity.
Defined.

Lemma ended_attempts_immutable_witness :
  pp_Attempts repair_done !! "a5" = Some (attempt_of repair_verified "a5").
Proof.
  apply (ended_attempts_immutable repair_plan repair_verified repair_done).
  - exact (run_one_steps repair_plan ∅ repair_verified "approve" "a6" "success").
  - vm_compute. reflexivity.
  - split; vm_compute; discriminate.
Defined.

Lemma StartAttempt_refusal_witness :
  (start sample_plan built "build" "a2" "k2" 11).1 = built.
Proof.
  apply (StartAttempt_refusal 1 built sample_plan "build" "a2" 0 (sample_lease 7 100) (sample_envelope 10)
    (sample_input "" "k2" 7 11 (sample_result "" ∅) None) _ (Errorf "node %s is not ready" ["build"])).
  vm_compute. reflexivity.
Defined.

(** A plan with room for one attempt and 50 tokens. *)
Definition tight_plan : RequirementExecutionPlan := sample_plan_of sample_graph (budget 50 1).
Definition tight_start : PlanProjection * result NodeAttempt :=
  start tight_plan (new_of tight_plan) "build" "a1" "k1" 10.

Lemma StartAttempt_admission_witness :
  (count running (range_values (pp_Attempts tight_start.1)) ≤ 1)%Z ∧ (pp_TokenUsage tight_start.1 ≤ 50)%Z.
Proof.
  assert (tight_start.1 ≠ new_of tight_plan) as Hne.
  { intros E. apply (f_equal pp_TokenUsage) in E. vm_compute in E. discriminate. }
  assert (StartAttempt 1 (new_of tight_plan) tight_plan "build" "a1" 0 (sample_lease 7 100)
    (sample_envelope 10) (sample_input "" "k1" 7 10 (sample_result "" ∅) None)
    = (tight_start.1, Ok (attempt_of tight_start.1 "a1"))) as HS by (vm_compute; reflexivity).
  assert (0 ≤ pp_TokenUsage (new_of tight_plan))%Z as H0 by (vm_compute; discriminate).
  assert (pp_TokenUsage (new_of tight_plan) + token_estimate (sample_envelope 10) < two63)%Z as Hs by (vm_compute; reflexivity).
  destruct (StartAttempt_admission 1 _ _ _ _ _ _ _ _ _ _ HS Hne H0 Hs) as (_ & _ & _ & _ & _ & Hc & _ & Ht).
  destruct Hc as [Hc|Hc]; [exfalso; apply Hc; reflexivity|].
  destruct Ht as [Ht|Ht]; [exfalso; apply Ht; reflexivity|].
  split; [exact Hc|exact Ht].
Defined.

Lemma FinishAttempt_fenced_witness :
  ∃ s, FinishAttempt 1 built sample_plan "a1" (sample_input "success" "k" 6 20 (sample_result "pass" ∅) None)
         = (built, Err (ESentinel s)) ∧ s ∈ [ErrStaleAttempt; ErrIdempotencyConflict; ErrLeaseLost].
Proof.
  apply (FinishAttempt_fenced 1 built sample_plan "a1" _ (attempt_of built "a1")).
  - vm_compute. reflexivity.
  - vm_compute. reflexivity.
  - right. left. split; vm_compute; discriminate.
Defined.

Definition finished_once : PlanProjection * result NodeAttempt :=
  finish sample_plan built "a1" "success" "k2" 20 ∅.

Lemma FinishAttempt_idempotent_witness :
  FinishAttempt 9 finished_once.1 sample_plan "a1"
    (sample_input "success" "k2" 7 20 (sample_result "success" ∅) None)
  = (finished_once.1, Ok (attempt_of finished_once.1 "a1")).
Proof.
  apply (FinishAttempt_idempotent 1 9 sample_plan built "a1").
  - apply built_reachable.
  - vm_compute. discriminate.
  - vm_compute. reflexivity.
  - right. vm_compute. discriminate.
Defined.

Definition taken_over : PlanProjection * result unit := TakeOver 1 built sample_plan "a1" "human" 30.

Lemma TakeOver_fences_old_owner_witness :
  (FinishAttempt 40 taken_over.1 sample_plan "a1"
     (sample_input "success" "k2" 7 40 (sample_result "success" ∅) None)).1 = taken_over.1.
Proof.
  apply (TakeOver_fences_old_owner 1 40 sample_plan built "a1" "human" 30
    (sample_input "success" "k2" 7 40 (sample_result "success" ∅) None) (attempt_of built "a1") taken_over.1 taken_over.2).
  - vm_compute. reflexivity.
  - vm_compute. reflexivity.
  - discriminate.
  - vm_compute. split; [discriminate|reflexivity].
  - vm_compute. reflexivity.
  - vm_compute. reflexivity.
  - discriminate.
Defined.

Lemma success_requires_verified_repairs_witness :
  pp_TerminalOutcome repair_done = "succeeded" ∧ allRepairsVerified repair_done = true.
Proof.
  split; [vm_compute; reflexivity|].
  apply (success_requires_verified_repairs 1 repair_plan repair_approving "a6"
    (sample_input "success" "finish:a6" 7 20 (sample_result "success" ∅) None) repair_done (attempt_of repair_done "a6")).
  - vm_compute. reflexivity.
  - vm_compute. discriminate.
  - vm_compute. reflexivity.
Defined.

(** A completion that would take the bounded edge a third time. *)
Definition thrice : PlanProjection :=
  (start sample_plan (run_one sample_plan ∅ (run_one sample_plan ∅ (run_one sample_plan ∅ looped
     "build" "a3" "success") "qa" "a4" "bug") "build" "a5" "success") "qa" "a6" "start:a6" 10).1.
Definition exhausted : PlanProjection * result NodeAttempt := finish sample_plan thrice "a6" "bug" "finish:a6" 20 ∅.

Lemma FinishAttempt_failure_restores_witness :
  exhausted.2 = Err (ESentinel ErrLoopExhausted) ∧ pp_Traversals exhausted.1 = pp_Traversals thrice.
Proof.
  split; [vm_compute; reflexivity|].
  apply (FinishAttempt_failure_restores 1 sample_plan thrice "a6"
    (sample_input "bug" "finish:a6" 7 20 (sample_result "bug" ∅) None) exhausted.1 (ESentinel ErrLoopExhausted)).
  - apply start_reachable. do 3 apply run_one_reachable. apply looped_reachable.
  - vm_compute. reflexivity.
Defined.
