(* ===== verification/StructuralProps.v ===== *)
(** * StructuralProps: the properties of the structural adapters

    Decisions carry evidence the reducer accepts, the gate fails closed, the
    merge follows its conflict policy, and a repair the controller plans is one
    the reducer can store. *)
From stdpp Require Import base strings gmap list pretty sorting.
From Stdlib Require Import ZArith Lia.
From S2P Require Import Prelude GoLib GoValue GoJson ContextModel OrchModel GraphSearch Validate PredicateSpec GraphSpec ProjectionData Projection Repair RepairSpec Transition ContextSpec Structural Samples RouteSpec.

(** ** Evidence *)

Lemma evidence_from_spec seen ids x :
  x ∈ evidence_from seen ids ↔ x ≠ "" ∧ x ∉ seen ∧ ∃ id, id ∈ ids ∧ TrimSpace id = x.
Proof.
  revert seen. induction ids as [|i ids IH]; intros seen; cbn [evidence_from].
  { split; [intros Hx; by apply elem_of_nil in Hx|intros (_ & _ & id & Hid & _); by apply elem_of_nil in Hid]. }
  cbv zeta. destruct ((TrimSpace i ≟ "") || contains seen (TrimSpace i)) eqn:E.
  - rewrite IH. apply orb_true_iff in E. rewrite bool_decide_eq_true, contains_spec in E. split.
    + intros (? & ? & id & ? & ?). split_and!; [done..|]. exists id. split; [by right|done].
    + intros (Hne & Hs & id & Hid & Ht). split_and!; [done..|].
      apply elem_of_cons in Hid as [->|Hid]; [|by exists id]. rewrite Ht in E. by destruct E.
  - apply orb_false_iff in E as [E1 E2]. apply bool_decide_eq_false in E1.
    assert (TrimSpace i ∉ seen) as Hns by (rewrite <- contains_spec; by rewrite E2).
    rewrite elem_of_cons, IH. split.
    + intros [->|(Hne & Hs & id & Hid & Ht)].
      * split_and!; [done..|]. exists i. split; [left|done].
      * apply not_elem_of_cons in Hs as [_ Hs]. split_and!; [done..|]. exists id. split; [by right|done].
    + intros (Hne & Hs & id & Hid & Ht). destruct (decide (x = TrimSpace i)) as [->|Hxi]; [by left|right].
      split_and!; [done|by apply not_elem_of_cons|].
      apply elem_of_cons in Hid as [->|Hid]; [congruence|by exists id].
Qed.

Lemma structuralEvidence_spec incoming required x :
  x ∈ (structuralEvidence incoming required).1 ↔
  x ≠ "" ∧ ∃ s id, s ∈ incoming ∧ id ∈ res_EvidenceIDs (src_result s) ∧ TrimSpace id = x.
Proof.
  unfold structuralEvidence. simpl. rewrite evidence_from_spec. split.
  - intros (Hne & _ & id & Hid & Ht). split; [done|].
    apply list_elem_of_join in Hid as (l & Hid & Hl). apply list_elem_of_fmap in Hl as (s & -> & Hs). eauto.
  - intros (Hne & s & id & Hs & Hid & Ht). split_and!; [done|apply not_elem_of_nil|]. exists id. split; [|done].
    apply list_elem_of_join. eexists. split; [exact Hid|]. by apply (list_elem_of_fmap_2 (λ s, res_EvidenceIDs (src_result s))).
Qed.

Lemma structuralEvidence_not_blank incoming required :
  Forall (λ id, blank id = false) (structuralEvidence incoming required).1.
Proof.
  apply Forall_forall. intros x Hx. apply structuralEvidence_spec in Hx as (Hne & s & id & _ & _ & <-).
  by apply TrimSpace_not_blank.
Qed.

Lemma structuralEvidence_missing incoming required :
  (structuralEvidence incoming required).2 = [] ↔
  ∀ id, id ∈ required → id ∈ (structuralEvidence incoming required).1.
Proof.
  change ((structuralEvidence incoming required).2)
    with (filter (λ id, contains (structuralEvidence incoming required).1 id = false) required).
  generalize (structuralEvidence incoming required).1. intros ev.
  induction required as [|x l IH].
  - split; [intros _ id Hid; by apply elem_of_nil in Hid|done].
  - rewrite filter_cons. destruct (contains ev x) eqn:E; simpl.
    + rewrite IH. apply contains_spec in E. split.
      * intros Hall id Hid. apply elem_of_cons in Hid as [->|Hid]; auto.
      * intros Hall id Hid. apply Hall. by right.
    + split; [done|]. intros Hall. assert (x ∈ ev) as Hx by (apply Hall; left).
      apply contains_spec in Hx. congruence.
Qed.

(** ** Decisions *)

(** What the reducer requires of a completion's evidence. *)
Definition evidenced (d : StructuralDecision) : Prop :=
  res_EvidenceIDs (sdn_Result d) ≠ [] ∧ Forall (λ id, blank id = false) (res_EvidenceIDs (sdn_Result d)).

Section props.
Context `{!Sha256, !JsonMarshal (string * string * gmap string value), !JsonMarshal value, !MapRange}.

Lemma appendUniqueEvidence_ok evidence id :
  Forall (λ id, blank id = false) evidence → blank id = false →
  appendUniqueEvidence evidence id ≠ [] ∧ Forall (λ id, blank id = false) (appendUniqueEvidence evidence id).
Proof.
  intros He Hid. unfold appendUniqueEvidence. destruct (contains evidence id) eqn:E.
  - split; [|done]. intros ->. apply contains_spec in E. by apply elem_of_nil in E.
  - split; [by destruct evidence|]. apply Forall_app. split; [done|]. by constructor.
Qed.

Lemma decision_evidence_not_blank kind code fields : blank (structuralDecisionEvidence kind code fields) = false.
Proof.
  unfold structuralDecisionEvidence. generalize (json_sha256 (kind, code, fields)). intros h.
  replace (kind +:+ "-decision:" +:+ h) with ((kind +:+ "-decision") +:+ ":" +:+ h); [apply colon_not_blank|].
  clear. induction kind as [|a kind IH]; [reflexivity|].
  change (String a ((kind +:+ "-decision") +:+ ":" +:+ h) = String a (kind +:+ "-decision:" +:+ h)). by rewrite IH.
Qed.

Lemma passed_evidenced kind code summary evidence fields :
  Forall (λ id, blank id = false) evidence → evidenced (passedStructuralDecision kind code summary evidence fields).
Proof.
  intros He. apply appendUniqueEvidence_ok; [|apply decision_evidence_not_blank]. case_bool_decide; [|done].
  constructor; [apply decision_evidence_not_blank|done].
Qed.

Lemma failed_evidenced kind code summary evidence fields :
  Forall (λ id, blank id = false) evidence → evidenced (failedStructuralDecision kind code summary evidence fields).
Proof. intros He. apply appendUniqueEvidence_ok; [done|apply decision_evidence_not_blank]. Qed.

(** Whatever the default adapters decide, the decision carries at least one
    evidence id and no blank one, so the reducer's evidence guard accepts it;
    and it is a success or a failure with its reason. *)
Theorem structural_decisions_evidenced i d :
  EvaluateGate i = Ok d ∨ ReduceMerge i = Ok d ∨ PlanRepair i = Ok d →
  evidenced d ∧ ((sdn_Event d = "success" ∧ sdn_Failure d = None) ∨
                 (sdn_Event d = "failure" ∧ ∃ r, sdn_Failure d = Some r ∧ fr_Code r = res_ReasonCode (sdn_Result d))).
Proof.
  assert (∀ k c s (ev : list string) f, Forall (λ id, blank id = false) ev →
    let d := passedStructuralDecision k c s ev f in
    evidenced d ∧ ((sdn_Event d = "success" ∧ sdn_Failure d = None) ∨
      (sdn_Event d = "failure" ∧ ∃ r, sdn_Failure d = Some r ∧ fr_Code r = res_ReasonCode (sdn_Result d)))) as HP
    by (intros k c s ev f Hev; split; [by apply passed_evidenced|by left]).
  assert (∀ k c s (ev : list string) f, Forall (λ id, blank id = false) ev →
    let d := failedStructuralDecision k c s ev f in
    evidenced d ∧ ((sdn_Event d = "success" ∧ sdn_Failure d = None) ∨
      (sdn_Event d = "failure" ∧ ∃ r, sdn_Failure d = Some r ∧ fr_Code r = res_ReasonCode (sdn_Result d)))) as HF
    by (intros k c s ev f Hev; split; [by apply failed_evidenced|right; split; [done|by eexists]]).
  intros [Hd|[Hd|Hd]].
  - unfold EvaluateGate in Hd. cbv zeta in Hd. apply rbind_Ok in Hd as (m & _ & Hd).
    pose proof (structuralEvidence_not_blank (in_Incoming i) (gp_RequiredEvidence (wn_GatePolicy (in_Node i)))) as He.
    destruct (structuralEvidence _ _) as [ev missing]. simpl in He.
    destruct (negb (bool_decide _)); [|destruct (negb m)]; injection Hd as <-; first [exact (HP _ _ _ _ _ He)|exact (HF _ _ _ _ _ He)].
  - pose proof (structuralEvidence_not_blank (in_Incoming i) []) as He.
    unfold ReduceMerge in Hd. cbv zeta in Hd.
    repeat (case_match; try (injection Hd as <-; first [exact (HP _ _ _ _ _ He)|exact (HF _ _ _ _ _ He)]); try done).
  - pose proof (structuralEvidence_not_blank (in_Incoming i) []) as He.
    unfold PlanRepair in Hd. cbv zeta in Hd.
    repeat (case_match; try (injection Hd as <-; first [exact (HP _ _ _ _ _ He)|exact (HF _ _ _ _ _ He)]); try done).
Qed.

(** the gate fails closed: it passes exactly when its predicate evaluates to
    true on the aggregated branch fields and every required evidence id was
    committed by some branch. *)
Theorem gate_passes_iff i d :
  EvaluateGate i = Ok d →
  sdn_Event d = "success" ↔
  EvaluatePredicate (gp_Predicate (wn_GatePolicy (in_Node i))) (aggregateStructuralFields (in_Incoming i)) = Ok true ∧
  ∀ id, id ∈ gp_RequiredEvidence (wn_GatePolicy (in_Node i)) →
    id ≠ "" ∧ ∃ s id', s ∈ in_Incoming i ∧ id' ∈ res_EvidenceIDs (src_result s) ∧ TrimSpace id' = id.
Proof.
  unfold EvaluateGate. cbv zeta. rewrite rbind_Ok. intros (m & Hm & Hd). rewrite Hm.
  set (req := gp_RequiredEvidence _) in *.
  assert ((structuralEvidence (in_Incoming i) req).2 = [] ↔ ∀ id, id ∈ req →
    id ≠ "" ∧ ∃ s id', s ∈ in_Incoming i ∧ id' ∈ res_EvidenceIDs (src_result s) ∧ TrimSpace id' = id) as Hmiss.
  { rewrite structuralEvidence_missing. split; intros Hall id Hid; apply (structuralEvidence_spec _ req); auto. }
  rewrite <- Hmiss. destruct (structuralEvidence _ _) as [ev missing]. simpl in *.
  case_bool_decide as Hnil; simpl in Hd; [|injection Hd as <-; naive_solver].
  destruct m; simpl in Hd; injection Hd as <-; naive_solver.
Qed.
(** ** Merge *)

#[local] Instance preferred_le_total : Total preferred_le.
Proof.
  intros a b. unfold preferred_le.
  destruct (Z.lt_trichotomy (we_Priority (src_Edge a)) (we_Priority (src_Edge b))) as [?|[E|?]]; [auto| |auto].
  rewrite E. destruct (total String.le (na_ID (src_Attempt a)) (na_ID (src_Attempt b))); auto.
Qed.
#[local] Instance preferred_le_trans : Transitive preferred_le.
Proof.
  intros a b c [H1|[H1 H1']] [H2|[H2 H2']]; unfold preferred_le; [left; lia|left; lia|left; lia|].
  right. split; [lia|]. by transitivity (na_ID (src_Attempt b)).
Qed.

(** Under [prefer_priority] a merge with branches passes, and the branch it
    selects has the highest edge priority, ties going to the smallest attempt id. *)
Theorem merge_prefers_highest_priority i d :
  TrimSpace (mg_ConflictPolicy (wn_MergePolicy (in_Node i))) = "prefer_priority" →
  ReduceMerge i = Ok d → sdn_Event d = "success" →
  ∃ s, s ∈ in_Incoming i ∧
    res_Fields (sdn_Result d) !! "selected_attempt_id" = Some (VString (na_ID (src_Attempt s))) ∧
    res_Fields (sdn_Result d) !! "selected_fields" = Some (object (res_Fields (src_result s))) ∧
    ∀ t, t ∈ in_Incoming i → preferred_le s t.
Proof.
  intros Hp Hd Hs. unfold ReduceMerge in Hd. cbv zeta in Hd. rewrite Hp in Hd.
  destruct (_ && _); [injection Hd as <-; done|].
  change (if bool_decide ("prefer_priority" = "") then "collect" else "prefer_priority")
    with "prefer_priority" in Hd. simpl in Hd.
  pose proof (stable_sort_sorted preferred_le (in_Incoming i)) as Hsort.
  pose proof (λ x, elem_of_stable_sort preferred_le x (in_Incoming i)) as Helem.
  destruct (stable_sort preferred_le (in_Incoming i)) as [|s l]; [injection Hd as <-; done|].
  injection Hd as <-. exists s. split; [apply Helem; left|]. simpl. split_and!.
  - by rewrite lookup_insert_ne, lookup_insert_eq.
  - by rewrite lookup_insert_eq.
  - intros t Ht. apply Helem in Ht. apply StronglySorted_cons in Hsort as [Hle _].
    apply elem_of_cons in Ht as [->|Ht]; [|rewrite Forall_forall in Hle; by apply Hle].
    right. split; [done|]. by destruct (total String.le (na_ID (src_Attempt s)) (na_ID (src_Attempt s))).
Qed.

(** The JSON text by which two values count as the same. *)
Definition encoded (v : value) : string := default "" (json_marshal v).

Lemma distinct_values_nil seen key inc :
  distinct_values seen key inc = [] ↔
  ∀ s v, s ∈ inc → res_Fields (src_result s) !! key = Some v → encoded v ∈ seen.
Proof.
  revert seen. induction inc as [|s inc IH]; intros seen; cbn [distinct_values].
  { split; [intros _ s v Hs; by apply elem_of_nil in Hs|done]. }
  assert (∀ Q : StructuralSource → value → Prop, (∀ x v, x ∈ s :: inc → res_Fields (src_result x) !! key = Some v → Q x v) ↔
    (∀ v, res_Fields (src_result s) !! key = Some v → Q s v) ∧
    (∀ x v, x ∈ inc → res_Fields (src_result x) !! key = Some v → Q x v)) as Hcons.
  { intros Q. split.
    - intros Hall. split; [intros v; apply Hall; left|intros x v Hx; apply Hall; by right].
    - intros [H1 H2] x v Hx. apply elem_of_cons in Hx as [->|Hx]; [apply H1|by apply H2]. }
  rewrite (Hcons (λ _ v, encoded v ∈ seen)).
  destruct (res_Fields (src_result s) !! key) as [v|] eqn:E; [|rewrite IH; naive_solver].
  cbv zeta. fold (encoded v). destruct (contains seen (encoded v)) eqn:Ec.
  - apply contains_spec in Ec. rewrite IH. naive_solver.
  - split; [done|]. intros [Hv _]. assert (encoded v ∈ seen) as Hin by by apply Hv.
    apply contains_spec in Hin. congruence.
Qed.

Lemma distinct_values_one key inc :
  (1 <? length (distinct_values [] key inc))%nat = false ↔
  ∀ s t v w, s ∈ inc → t ∈ inc → res_Fields (src_result s) !! key = Some v →
    res_Fields (src_result t) !! key = Some w → encoded v = encoded w.
Proof.
  assert (∀ (l : list value), (1 <? length l)%nat = false ↔ length l ≤ 1) as -> by (intros l; rewrite Nat.ltb_ge; done).
  induction inc as [|s inc IH]; cbn [distinct_values].
  { split; [intros _ s t v w Hs; by apply elem_of_nil in Hs|simpl; lia]. }
  destruct (res_Fields (src_result s) !! key) as [v|] eqn:E.
  - cbv zeta. fold (encoded v). change (contains [] (encoded v)) with false. cbn [length].
    assert (S (length (distinct_values [encoded v] key inc)) ≤ 1 ↔ distinct_values [encoded v] key inc = []) as ->.
    { rewrite <- length_zero_iff_nil. lia. }
    rewrite distinct_values_nil. split.
    + intros Hall x y a b Hx Hy Ha Hb.
      assert (∀ z c, z ∈ s :: inc → res_Fields (src_result z) !! key = Some c → encoded c = encoded v) as Hz.
      { intros z c Hz Hc. apply elem_of_cons in Hz as [->|Hz]; [congruence|].
        by apply list_elem_of_singleton, (Hall z c). }
      by rewrite (Hz x a), (Hz y b).
    + intros Hall x w Hx Hw. apply list_elem_of_singleton. symmetry. apply (Hall s x); [left|by right|done..].
  - rewrite IH. split.
    + intros Hall x y a b Hx Hy Ha Hb. apply elem_of_cons in Hx as [->|Hx]; [congruence|].
      apply elem_of_cons in Hy as [->|Hy]; [congruence|]. by eapply (Hall x y).
    + intros Hall x y a b Hx Hy. apply Hall; by right.
Qed.

Lemma mergeConflicts_empty inc keys :
  mergeConflicts inc keys = ∅ ↔
  ∀ key, key ∈ conflict_keys inc keys → (1 <? length (distinct_values [] key inc))%nat = false.
Proof.
  unfold mergeConflicts. generalize (conflict_keys inc keys). intros ks. cbv zeta.
  assert (∀ m : gmap string (list value), foldl (λ conflicts key,
    if (1 <? length (distinct_values [] key inc))%nat then <[key := distinct_values [] key inc]> conflicts else conflicts) m ks = ∅
    ↔ m = ∅ ∧ ∀ key, key ∈ ks → (1 <? length (distinct_values [] key inc))%nat = false) as Hfold.
  { induction ks as [|k ks IH]; intros m; cbn [foldl].
    - split; [intros ->; split; [done|intros key Hk; by apply elem_of_nil in Hk]|by intros [-> _]].
    - rewrite IH. destruct (1 <? _)%nat eqn:E.
      + split; [intros [Hi _]; by apply insert_non_empty in Hi|].
        intros [_ Hall]. rewrite Hall in E; [done|left].
      + split; intros [Hm Hall]; (split; [done|]); intros key Hk; [|apply Hall; by right].
        apply elem_of_cons in Hk as [->|Hk]; [done|by apply Hall]. }
  rewrite Hfold. naive_solver.
Qed.

(** Under the [fail] policy a merge whose evidence requirement is met passes
    exactly when no compared key has two branches with different values. *)
Theorem merge_fails_on_conflict i d :
  TrimSpace (mg_ConflictPolicy (wn_MergePolicy (in_Node i))) = "fail" →
  mg_RequireEvidence (wn_MergePolicy (in_Node i)) = false →
  ReduceMerge i = Ok d →
  sdn_Event d = "success" ↔
  ∀ key s t v w, key ∈ conflict_keys (in_Incoming i) (mg_KeyFields (wn_MergePolicy (in_Node i))) →
    s ∈ in_Incoming i → t ∈ in_Incoming i → res_Fields (src_result s) !! key = Some v →
    res_Fields (src_result t) !! key = Some w → encoded v = encoded w.
Proof.
  intros Hp Hreq Hd. unfold ReduceMerge in Hd. cbv zeta in Hd. rewrite Hp, Hreq in Hd.
  change (if bool_decide ("fail" = "") then "collect" else "fail") with "fail" in Hd. simpl in Hd.
  assert (mergeConflicts (in_Incoming i) (mg_KeyFields (wn_MergePolicy (in_Node i))) = ∅ ↔
    ∀ key s t v w, key ∈ conflict_keys (in_Incoming i) (mg_KeyFields (wn_MergePolicy (in_Node i))) →
    s ∈ in_Incoming i → t ∈ in_Incoming i → res_Fields (src_result s) !! key = Some v →
    res_Fields (src_result t) !! key = Some w → encoded v = encoded w) as <-.
  { rewrite mergeConflicts_empty. split.
    - intros Hall key s t v w Hk. by apply distinct_values_one, Hall.
    - intros Hall key Hk. apply distinct_values_one. intros s t v w. by apply Hall. }
  case_bool_decide as Hc; simpl in Hd; injection Hd as <-; (split; [intros He|intros Hm]); done.
Qed.

(** ** Repair *)

Lemma tc_r_inv {A} (R : relation A) x y : tc R x y → ∃ z, rtc R x z ∧ R z y.
Proof.
  induction 1 as [x y Hxy|x y z Hxy _ (w & Hw & Hwz)]; [exists x; split; [apply rtc_refl|done]|].
  exists w. split; [by eapply rtc_l|done].
Qed.

(** A node on a success path is the source itself or the end of an edge. *)
Lemma repairPathExists_end g x y on :
  repairPathExists g x y on = true → x = y ∨ ∃ e, e ∈ g_Edges g ∧ we_To e = y.
Proof.
  unfold repairPathExists. case_bool_decide; [by left|]. rewrite path_search_spec. intros Hp. right.
  apply tc_r_inv in Hp as (z & _ & Hz).
  unfold arc, repair_arcs in Hz. apply list_elem_of_fmap in Hz as (e & [= _ ->] & He).
  apply list_elem_of_filter in He as [_ He]. eauto.
Qed.

(** The converse of [createRepairPlan_Ok]. *)
Lemma createRepairPlan_intro p plan a target verification rounds :
  TrimSpace (string_field (res_Fields (na_Result a)) "target_node_id") = target →
  repairVerificationNodes a = verification → intValue (res_Fields (na_Result a) !! "max_rounds") = rounds →
  target ≠ "" → verification ≠ [] → (1 ≤ rounds)%Z → is_Some (pp_Nodes p !! target) →
  repairPathExists (pl_GraphSnapshot plan) (na_NodeID a) target EdgeSuccess = true →
  (∀ v, v ∈ verification → is_Some (pp_Nodes p !! v) ∧
     repairPathExists (pl_GraphSnapshot plan) target v EdgeSuccess = true) →
  ∃ r, createRepairPlan p plan a = Ok r ∧ rp_TargetNodeID r = target ∧
    rp_VerificationNodeIDs r = verification ∧ rp_MaxRounds r = rounds ∧ rp_State r = RepairPlanned.
Proof.
  intros Ht Hv Hr Hne Hnil Hpos [n Hn] Hpath Hall. unfold createRepairPlan. cbv zeta. rewrite Ht, Hv, Hr.
  rewrite (bool_decide_eq_false_2 _ Hne), (bool_decide_eq_false_2 _ Hnil).
  replace (rounds <? 1)%Z with false by lia. simpl. rewrite Hn, bool_decide_eq_false_2 by done. simpl.
  rewrite (proj2 (check_each_reject _ _ _ _)).
  2: { apply Forall_forall. intros v Hin. apply bool_decide_eq_false. destruct (Hall v Hin) as [[x ->] _]. done. }
  simpl. rewrite Hpath. simpl. rewrite (proj2 (check_each_reject _ _ _ _)).
  2: { apply Forall_forall. intros v Hin. destruct (Hall v Hin) as [_ ->]. done. }
  simpl. eexists. split; [reflexivity|]. done.
Qed.

(** the controller and the reducer agree.  A repair the controller plans is
    one the reducer accepts: [createRepairPlan] succeeds on the decision and
    stores the controller's target, verification nodes and round limit. *)
Theorem planned_repair_is_accepted i d p a :
  let g := pl_GraphSnapshot (in_Plan i) in
  let target := resolveRepairTarget g (in_Node i) in
  targets_exist g (pp_Nodes p) →
  PlanRepair i = Ok d → sdn_Event d = "success" →
  na_NodeID a = wn_ID (in_Node i) → na_Result a = sdn_Result d → TrimSpace target = target →
  ∃ r, createRepairPlan p (in_Plan i) a = Ok r ∧ rp_TargetNodeID r = target ∧
    rp_VerificationNodeIDs r = rpol_VerificationNodeIDs (wn_RepairPolicy (in_Node i)) ∧
    rp_MaxRounds r = Z.max 1 (rpol_MaxRounds (wn_RepairPolicy (in_Node i))) ∧ rp_State r = RepairPlanned.
Proof.
  cbv zeta. intros [Hte Htn] Hd Hs Hnode Hres Htrim. unfold PlanRepair in Hd. cbv zeta in Hd.
  destruct (bool_decide _); [injection Hd as <-; done|].
  set (rounds := if (_ <=? 0)%Z then _ else _) in Hd.
  assert (rounds = Z.max 1 (rpol_MaxRounds (wn_RepairPolicy (in_Node i)))) as Hrounds
    by (unfold rounds; destruct (_ <=? 0)%Z eqn:E; lia).
  destruct (_ <? _)%Z; [injection Hd as <-; done|].
  set (target := resolveRepairTarget _ _) in *. case_bool_decide as Ht; [injection Hd as <-; done|].
  destruct (_ || negb _) eqn:E1; [injection Hd as <-; done|].
  apply orb_false_iff in E1 as [E1 E2]. apply bool_decide_eq_false in E1. apply negb_false_iff in E2.
  case_bool_decide as Hv; [injection Hd as <-; done|].
  destruct (unreachable_verification _ _ _) eqn:Hu; injection Hd as <-; [done|].
  assert (∀ v, v ∈ rpol_VerificationNodeIDs (wn_RepairPolicy (in_Node i)) →
    repairPathExists (pl_GraphSnapshot (in_Plan i)) target v EdgeSuccess = true) as Hpath.
  { intros v Hin. apply (find_none _ _ Hu) in Hin || (apply list_elem_of_In in Hin; apply (find_none _ _ Hu) in Hin).
    apply orb_false_iff in Hin as [_ Hin]. by apply negb_false_iff in Hin. }
  assert (is_Some (pp_Nodes p !! target)) as Htgt.
  { apply repairPathExists_end in E2 as [|(e & He & <-)]; [congruence|by apply Hte]. }
  apply createRepairPlan_intro; try done.
  - unfold string_field. rewrite Hres. exact Htrim.
  - unfold repairVerificationNodes. by rewrite Hres.
  - rewrite Hres. exact Hrounds.
  - lia.
  - by rewrite Hnode.
  - intros v Hin. split; [|by apply Hpath].
    destruct (repairPathExists_end _ _ _ _ (Hpath v Hin)) as [<-|(e & He & <-)]; [done|by apply Hte].
Qed.
End props.

(** ** Witnesses *)

(** The sample repair run when its bug has been found and the repair starts. *)
Definition bug_found : PlanProjection :=
  run_one repair_plan ∅ (run_one repair_plan ∅ (new_of repair_plan) "build" "a1" "success") "qa" "a2" "bug".
Definition repairing : PlanProjection := (start repair_plan bug_found "fix" "a3" "start:a3" 10).1.

Definition structural_input (node : WorkflowNode) (incoming : list StructuralSource) : StructuralInput :=
  {| in_Plan := repair_plan; in_Projection := repairing; in_Node := node; in_Attempt := attempt_of repairing "a3";
     in_Envelope := sample_envelope 10; in_Incoming := incoming |}.
Definition repair_input : StructuralInput :=
  structural_input repair_node (incomingStructuralSources repair_plan repairing "fix").
Definition decision_of (r : result StructuralDecision) : StructuralDecision :=
  match r with
  | Ok d => d
  | Err _ => {| sdn_Event := ""; sdn_Result := zero_Result; sdn_Failure := None; sdn_ArtifactIDs := [] |}
  end.

Lemma structural_decisions_evidenced_witness :
  PlanRepair repair_input = Ok (decision_of (PlanRepair repair_input)) ∧
  evidenced (decision_of (PlanRepair repair_input)).
Proof.
  split; [vm_compute; reflexivity|].
  apply (structural_decisions_evidenced repair_input). right. right. vm_compute. reflexivity.
Defined.

(** Two branches that disagree on "answer", the second one of higher priority. *)
Definition branch (id : string) (priority : Z) (answer : Z) : StructuralSource :=
  {| src_Edge := {| we_ID := "edge:" +:+ id; we_From := id; we_To := "merge"; we_On := EdgeSuccess;
                    we_Predicate := zero_Predicate; we_Priority := priority; we_MaxTraversals := 0;
                    we_RequiredEvidence := []; we_LoopGroup := ""; we_FanOut := false |};
     src_Attempt := na_set_Result {| res_Outcome := "pass"; res_ReasonCode := "";
                      res_Fields := {["answer" := VInt KInt answer]}; res_Summary := ""; res_EvidenceIDs := ["ev:" +:+ id] |}
                      (attempt_of bug_found id) |}.
Definition merge_node (policy : string) : WorkflowNode := {|
  wn_ID := "merge"; wn_Kind := NodeMerge; wn_AgentRef := None; wn_SquadRef := None;
  wn_InputContract := wn_InputContract repair_node; wn_OutputContract := wn_OutputContract repair_node;
  wn_ContextPolicy := wn_ContextPolicy repair_node; wn_ToolPolicy := wn_ToolPolicy repair_node;
  wn_RetryPolicy := wn_RetryPolicy repair_node; wn_Timeout := 0; wn_Budget := zero_Budget;
  wn_JoinPolicy := JoinAll; wn_JoinQuorum := 0; wn_JoinFailurePolicy := "";
  wn_GatePolicy := {| gp_Predicate := MkPredicate "field_eq" "answer" "" (VInt KInt 2) [];
                      gp_RequiredEvidence := ["ev:a2"]; gp_FailureCode := "" |};
  wn_MergePolicy := {| mg_ConflictPolicy := policy; mg_KeyFields := ["answer"]; mg_RequireEvidence := false |};
  wn_RepairPolicy := wn_RepairPolicy repair_node |}.
Definition merge_input (policy : string) : StructuralInput :=
  structural_input (merge_node policy) [branch "a1" 1 1; branch "a2" 5 2].

Lemma gate_passes_iff_witness :
  sdn_Event (decision_of (EvaluateGate (merge_input ""))) = "success" ∧
  EvaluatePredicate (gp_Predicate (wn_GatePolicy (merge_node "")))
    (aggregateStructuralFields (in_Incoming (merge_input ""))) = Ok true.
Proof.
  assert (sdn_Event (decision_of (EvaluateGate (merge_input ""))) = "success") as Hs by (vm_compute; reflexivity).
  split; [exact Hs|]. apply (gate_passes_iff (merge_input "") (decision_of (EvaluateGate (merge_input "")))).
  - vm_compute. reflexivity.
  - exact Hs.
Defined.

Lemma merge_prefers_highest_priority_witness :
  ∃ s, s ∈ in_Incoming (merge_input "prefer_priority") ∧
    res_Fields (sdn_Result (decision_of (ReduceMerge (merge_input "prefer_priority")))) !! "selected_attempt_id"
      = Some (VString (na_ID (src_Attempt s))) ∧
    res_Fields (sdn_Result (decision_of (ReduceMerge (merge_input "prefer_priority")))) !! "selected_fields"
      = Some (object (res_Fields (src_result s))) ∧
    ∀ t, t ∈ in_Incoming (merge_input "prefer_priority") → preferred_le s t.
Proof.
  apply (merge_prefers_highest_priority (merge_input "prefer_priority")
    (decision_of (ReduceMerge (merge_input "prefer_priority")))); vm_compute; reflexivity.
Defined.

(** Agreeing branches pass under [fail]. *)
Definition agreeing_input : StructuralInput :=
  structural_input (merge_node "fail") [branch "a1" 1 7; branch "a2" 5 7].

Lemma merge_fails_on_conflict_witness :
  sdn_Event (decision_of (ReduceMerge agreeing_input)) = "success" ∧
  (∀ key s t v w, key ∈ conflict_keys (in_Incoming agreeing_input) ["answer"] →
    s ∈ in_Incoming agreeing_input → t ∈ in_Incoming agreeing_input → res_Fields (src_result s) !! key = Some v →
    res_Fields (src_result t) !! key = Some w → encoded v = encoded w).
Proof.
  split; [vm_compute; reflexivity|].
  apply (merge_fails_on_conflict agreeing_input (decision_of (ReduceMerge agreeing_input))); vm_compute; reflexivity.
Defined.

Lemma planned_repair_is_accepted_witness :
  ∃ r, createRepairPlan repairing repair_plan
         (na_set_Result (sdn_Result (decision_of (PlanRepair repair_input))) (attempt_of repairing "a3")) = Ok r ∧
    rp_TargetNodeID r = "build" ∧ rp_VerificationNodeIDs r = ["qa"] ∧ rp_MaxRounds r = 2%Z ∧ rp_State r = RepairPlanned.
Proof.
  apply (planned_repair_is_accepted repair_input (decision_of (PlanRepair repair_input)) repairing).
  - split; apply Forall_forall; repeat (constructor; [vm_compute; by eexists|]); constructor.
  - vm_compute. reflexivity.
  - vm_compute. reflexivity.
  - vm_compute. reflexivity.
  - reflexivity.
  - vm_compute. reflexivity.
Defined.
