(* ===== verification/SchedulerProps.v ===== *)
(** * SchedulerProps: routing choice, retry backoff and readiness *)
From stdpp Require Import base strings gmap list pretty relations sorting.
From Stdlib Require Import ZArith Lia.
From S2P Require Import Prelude GoLib GoValue GoJson ContextModel OrchModel GraphSearch Validate PredicateSpec GraphSpec ProjectionData Projection Repair RepairSpec Transition ContextSpec Samples StartSpec RouteSpec FinishSpec ReducerInv Scheduler Machine ReducerProps.

(** ** Choosing an edge *)

Lemma count_nonneg {A} (f : A → bool) l : (0 ≤ count f l)%Z.
Proof. unfold count. lia. Qed.

Lemma count_pos {A} (f : A → bool) l i x : l !! i = Some x → f x = true → (1 ≤ count f l)%Z.
Proof.
  revert i. induction l as [|y l IH]; intros [|i]; simpl; try done; rewrite count_cons.
  - intros [= ->] ->. pose proof (count_nonneg f l). lia.
  - intros Hi Hx. specialize (IH i Hi Hx). destruct (f y); lia.
Qed.

Lemma count_two {A} (f : A → bool) l i j x y :
  l !! i = Some x → l !! j = Some y → i ≠ j → f x = true → f y = true → (2 ≤ count f l)%Z.
Proof.
  revert i j. induction l as [|z l IH]; intros i j; [done|]. rewrite count_cons.
  destruct i as [|i], j as [|j]; simpl; try done.
  - intros [= ->] Hj _ -> Hy. pose proof (count_pos f l j y Hj Hy). lia.
  - intros Hi [= ->] _ Hx ->. pose proof (count_pos f l i x Hi Hx). lia.
  - intros Hi Hj Hne Hx Hy. assert (i ≠ j) as Hij by congruence.
    specialize (IH i j Hi Hj Hij Hx Hy). destruct (f z); lia.
Qed.

Lemma count_at_most_one {A} (f : A → bool) l i :
  (∀ j x, l !! j = Some x → f x = true → j = i) → (count f l ≤ 1)%Z.
Proof.
  revert i. induction l as [|z l IH]; intros i Hu; [unfold count; simpl; lia|]. rewrite count_cons.
  destruct (f z) eqn:Hz.
  - assert (i = 0) as -> by (symmetry; by apply (Hu 0 z)).
    assert (count f l = 0)%Z as ->; [|lia].
    clear IH. unfold count. assert (List.filter f l = []) as ->; [|done].
    destruct (List.filter f l) as [|x l'] eqn:E; [done|].
    assert (List.In x (List.filter f l)) as Hin by (rewrite E; by left).
    apply List.filter_In in Hin as [Hin Hx]. apply list_elem_of_In, list_elem_of_lookup in Hin as [j Hj].
    by specialize (Hu (S j) x Hj Hx).
  - specialize (IH (pred i)). assert (count f l ≤ 1)%Z; [|lia]. apply IH. intros j x Hj Hx.
    specialize (Hu (S j) x Hj Hx). lia.
Qed.

(** When several edges match and they are not all fan-out edges, the one
    followed is the single edge of strictly highest priority; without a single
    one the transition is refused as ambiguous. *)
Theorem selectEdge_unique_highest e rest :
  (∀ b, selectEdge e rest = Ok b ↔
     ∃ i, (e :: rest) !! i = Some b ∧
       ∀ j x, (e :: rest) !! j = Some x → j ≠ i → (we_Priority x < we_Priority b)%Z) ∧
  (∀ err, selectEdge e rest = Err err → err = ESentinel ErrAmbiguousTransition).
Proof.
  split; [|intros err; unfold selectEdge; cbv zeta; destruct (reject _ _) eqn:E; [done|];
           apply reject_Err in E as [_ ->]; by intros [= <-]].
  intros b. set (f := λ x, we_Priority x ≟ we_Priority (best_edge e rest)).
  assert (selectEdge e rest = Ok b ↔ (count f (e :: rest) ≤ 1)%Z ∧ best_edge e rest = b) as ->.
  { unfold selectEdge. cbv zeta. rewrite rbind_reject_Ok. fold f. split.
    - intros [Hc [= <-]]. split; [lia|done].
    - intros [Hc <-]. split; [lia|done]. }
  pose proof (best_edge_elem e rest) as Hin. apply list_elem_of_lookup in Hin as [k Hk].
  assert (f (best_edge e rest) = true) as Hfb by (unfold f; by apply bool_decide_eq_true).
  split.
  - intros [Hc <-]. exists k. split; [done|]. intros j x Hj Hne.
    assert (we_Priority x ≤ we_Priority (best_edge e rest))%Z as Hle
      by (apply best_edge_max; by eapply list_elem_of_lookup_2).
    destruct (decide (we_Priority x = we_Priority (best_edge e rest))) as [Heq|]; [|lia].
    pose proof (count_two f (e :: rest) j k x (best_edge e rest) Hj Hk Hne) as H2.
    unfold f in H2 at 1. rewrite bool_decide_eq_true_2 in H2 by done. specialize (H2 eq_refl Hfb). lia.
  - intros (i & Hi & Hmax).
    assert (we_Priority b ≤ we_Priority (best_edge e rest))%Z as Hle
      by (apply best_edge_max; by eapply list_elem_of_lookup_2).
    assert (k = i) as ->.
    { destruct (decide (k = i)) as [|Hne]; [done|]. specialize (Hmax k _ Hk Hne). lia. }
    rewrite Hk in Hi. injection Hi as <-. split; [|done]. apply (count_at_most_one f _ i).
    intros j x Hj Hx. destruct (decide (j = i)) as [|Hne]; [done|]. specialize (Hmax j x Hj Hne).
    unfold f in Hx. apply bool_decide_eq_true in Hx. lia.
Qed.

(** ** Retry backoff *)

Lemma backoff_loop_closed k b :
  (0 < b ≤ 24 * Hour)%Z → backoff_loop k b = Z.min (b * 2 ^ Z.of_nat k) (24 * Hour).
Proof.
  revert b. induction k as [|k IH]; intros b Hb; cbn [backoff_loop].
  - simpl. rewrite Z.mul_1_r. lia.
  - rewrite Nat2Z.inj_succ, Z.pow_succ_r by lia.
    assert (1 ≤ 2 ^ Z.of_nat k)%Z as Hp by (apply Z.lt_pred_le, Z.pow_pos_nonneg; lia).
    destruct (0 <? b)%Z eqn:E1; [|lia]. destruct (b <? 24 * Hour)%Z eqn:E2; simpl.
    + destruct (12 * Hour <? b)%Z eqn:E3; [rewrite Z.min_r; nia|].
      rewrite IH by lia. f_equal. lia.
    + rewrite Z.min_r by nia. lia.
Qed.

(** The n-th retry of a node waits backoff * 2^(n-1), capped at a day. *)
Theorem retry_backoff_doubles node n :
  (0 < rt_Backoff (wn_RetryPolicy node) ≤ 24 * Hour)%Z → (1 ≤ n)%Z →
  retry_backoff node n = Z.min (rt_Backoff (wn_RetryPolicy node) * 2 ^ (n - 1)) (24 * Hour).
Proof.
  intros Hb Hn. unfold retry_backoff. rewrite backoff_loop_closed by done.
  by rewrite Z2Nat.id by lia.
Qed.

Lemma retry_backoff_doubles_witness :
  retry_backoff (sample_node "build" NodeAgent) 4 = (8 * Minute)%Z.
Proof.
  rewrite (retry_backoff_doubles (sample_node "build" NodeAgent) 4); [reflexivity|..].
  - split; [reflexivity|vm_compute; discriminate].
  - vm_compute. discriminate.
Defined.

(** ** Readiness *)

Lemma node_table_lookup_from ns (m : gmap string WorkflowNode) id n :
  NoDup (wn_ID <$> ns) →
  foldl (λ m x, <[wn_ID x := x]> m) m ns !! id = Some n ↔
  (n ∈ ns ∧ wn_ID n = id) ∨ (m !! id = Some n ∧ id ∉ wn_ID <$> ns).
Proof.
  revert m. induction ns as [|x ns IH]; intros m Hnd; cbn [foldl].
  { split; [intros Hn; right; split; [done|apply not_elem_of_nil]|].
    intros [[Hn _]|[Hn _]]; [by apply elem_of_nil in Hn|done]. }
  cbn [fmap list_fmap] in *. apply NoDup_cons in Hnd as [Hx Hnd]. rewrite IH by done. split.
  - intros [[Hn <-]|[Hm Hid]]; [left; split; [by right|done]|].
    destruct (decide (wn_ID x = id)) as [<-|Hne].
    + rewrite lookup_insert_eq in Hm. injection Hm as <-. left. split; [left|done].
    + rewrite lookup_insert_ne in Hm by done. right. split; [done|].
      intros Hin. apply elem_of_cons in Hin as [->|?]; done.
  - intros [[Hn <-]|[Hm Hid]].
    + apply elem_of_cons in Hn as [->|Hn]; [right; by rewrite lookup_insert_eq|by left].
    + apply not_elem_of_cons in Hid as [Hne Hid]. right. by rewrite lookup_insert_ne.
Qed.

Lemma node_table_lookup g id n :
  NoDup (wn_ID <$> g_Nodes g) → node_table g !! id = Some n ↔ n ∈ g_Nodes g ∧ wn_ID n = id.
Proof.
  intros Hnd. unfold node_table. rewrite node_table_lookup_from by done. rewrite lookup_empty. naive_solver.
Qed.

#[local] Instance node_le_total : Total node_le.
Proof. intros a b. unfold node_le. apply (total String.le). Qed.
#[local] Instance node_le_trans : Transitive node_le.
Proof. intros a b c. unfold node_le. apply transitivity. Qed.

Lemma readyNodesAt_elem `{!MapRange} plan p now n :
  NoDup (wn_ID <$> g_Nodes (pl_GraphSnapshot plan)) →
  n ∈ readyNodesAt plan p now ↔
  n ∈ g_Nodes (pl_GraphSnapshot plan) ∧ node_ready p now (pl_GraphSnapshot plan) (wn_ID n) n = true.
Proof.
  intros Hnd. unfold readyNodesAt. cbv zeta. rewrite elem_of_stable_sort, list_elem_of_fmap. split.
  - intros ([id x] & -> & Hx). apply list_elem_of_filter in Hx as [Hr Hx].
    apply elem_of_range, node_table_lookup in Hx as [Hin <-]; done.
  - intros [Hin Hr]. exists (wn_ID n, n). split; [done|]. apply list_elem_of_filter. split; [done|].
    apply elem_of_range. by apply node_table_lookup.
Qed.

(** The ready list without its final sort has every node at most once. *)
Lemma ready_nodes_NoDup `{!MapRange} plan p now :
  NoDup (wn_ID <$> g_Nodes (pl_GraphSnapshot plan)) → NoDup (wn_ID <$> readyNodesAt plan p now).
Proof.
  intros Hnd. unfold readyNodesAt. cbv zeta. rewrite stable_sort_perm.
  set (l := filter _ _). assert (wn_ID <$> (snd <$> l) = l.*1) as ->.
  { rewrite <- list_fmap_compose. apply list_fmap_ext. intros i [id n] Hi. simpl.
    apply list_elem_of_lookup_2, list_elem_of_filter in Hi as [_ Hi].
    apply elem_of_range, node_table_lookup in Hi as [_ <-]; done. }
  eapply sublist_NoDup; [apply (NoDup_range_keys (node_table (pl_GraphSnapshot plan)))|].
  apply fmap_sublist, sublist_filter.
Qed.

(** readiness is deterministic.  [readyNodesAt] lists exactly the nodes that
    are ready, each once, sorted by id, in the same order whatever order Go
    iterates its maps in. *)
Theorem readyNodesAt_deterministic plan p now (R1 R2 : MapRange) :
  GraphWF (pl_GraphSnapshot plan) →
  (∀ n, n ∈ @readyNodesAt R1 plan p now ↔
     n ∈ g_Nodes (pl_GraphSnapshot plan) ∧ node_ready p now (pl_GraphSnapshot plan) (wn_ID n) n = true) ∧
  StronglySorted node_le (@readyNodesAt R1 plan p now) ∧ NoDup (@readyNodesAt R1 plan p now) ∧
  @readyNodesAt R1 plan p now = @readyNodesAt R2 plan p now.
Proof.
  intros Hwf. pose proof (wf_node_ids _ Hwf) as Hnd.
  assert (∀ R : MapRange, StronglySorted node_le (readyNodesAt plan p now)) as Hs
    by (intros R; apply stable_sort_sorted; apply _).
  assert (∀ R : MapRange, NoDup (readyNodesAt plan p now)) as Hn
    by (intros R; eapply NoDup_fmap_1, ready_nodes_NoDup; done).
  split_and!; [intros n; by apply readyNodesAt_elem|apply Hs|apply Hn|].
  apply (StronglySorted_unique_strong node_le); [|apply Hs|apply Hs|].
  - intros a b Ha Hb Hab Hba. apply readyNodesAt_elem in Ha as [Ha _], Hb as [Hb _]; [|done..].
    eapply NoDup_fmap_inj; [exact Hnd|done..|]. by apply (anti_symm String.le).
  - apply NoDup_Permutation; [apply Hn|apply Hn|]. intros n. by rewrite !readyNodesAt_elem.
Qed.

Lemma readyNodesAt_deterministic_witness :
  @readyNodesAt canonical_range sample_plan looped 30 = @readyNodesAt reversed_range sample_plan looped 30 ∧
  (wn_ID <$> @readyNodesAt canonical_range sample_plan looped 30) = ["build"].
Proof.
  split; [|vm_compute; reflexivity].
  apply (readyNodesAt_deterministic sample_plan looped 30 canonical_range reversed_range).
  apply (@ValidateGraph_decides canonical_range). vm_compute. reflexivity.
Defined.

Lemma count_all {A} (f : A → bool) l : (Z.of_nat (length l) ≤ count f l)%Z → ∀ x, x ∈ l → f x = true.
Proof.
  induction l as [|y l IH]; intros Hc x Hx; [by apply elem_of_nil in Hx|].
  rewrite count_cons in Hc. simpl in Hc.
  assert (count f l ≤ Z.of_nat (length l))%Z as Hle.
  { unfold count. pose proof (List.filter_length_le f l). lia. }
  destruct (f y) eqn:Hy; [|lia]. apply elem_of_cons in Hx as [->|Hx]; [done|]. apply IH; [lia|done].
Qed.

Lemma count_ex {A} (f : A → bool) l : (1 ≤ count f l)%Z → ∃ x, x ∈ l ∧ f x = true.
Proof.
  unfold count. destruct (List.filter f l) as [|x l'] eqn:E; simpl; [lia|]. intros _. exists x.
  assert (List.In x (List.filter f l)) as Hin by (rewrite E; by left).
  apply List.filter_In in Hin as [Hin Hx]. split; [by apply list_elem_of_In|done].
Qed.

(** Reaching the number a join needs meets its policy. *)
Lemma join_need_met {A} (f : A → bool) (l : list A) n :
  (join_need n (length l) <=? count f l)%Z = true →
  match wn_JoinPolicy n with
  | JoinAll => ∀ e, e ∈ l → f e = true
  | JoinQuorum => (if wn_JoinQuorum n <=? 0 then Z.of_nat (length l) < 2 * count f l
                   else wn_JoinQuorum n ≤ count f l)%Z
  | _ => ∃ e, e ∈ l ∧ f e = true
  end.
Proof.
  unfold join_need. intros Hr. destruct (wn_JoinPolicy n); try (apply count_ex; lia).
  - apply count_all. lia.
  - destruct (wn_JoinQuorum n <=? 0)%Z; [|lia].
    pose proof (Z.div_mod (Z.of_nat (length l)) 2) as Hd.
    pose proof (Z.mod_pos_bound (Z.of_nat (length l)) 2) as Hm. lia.
Qed.

(** Joins.  A node with incoming edges that does not short-circuit is ready
    only when its join policy is met by committed, satisfied branches: all of
    them, the quorum (a strict majority when none is configured), or one. *)
Theorem ready_join_satisfied `{!MapRange} plan p now n :
  let edges := incoming (pl_GraphSnapshot plan) (wn_ID n) in
  GraphWF (pl_GraphSnapshot plan) → n ∈ readyNodesAt plan p now → edges ≠ [] →
  wn_JoinFailurePolicy n ≠ "short_circuit" →
  np_Status (node_at p (wn_ID n)) = AttemptReady ∧
  match wn_JoinPolicy n with
  | JoinAll => ∀ e, e ∈ edges → source_satisfied p e = true
  | JoinQuorum => (if wn_JoinQuorum n <=? 0 then Z.of_nat (length edges) < 2 * count (source_satisfied p) edges
                   else wn_JoinQuorum n ≤ count (source_satisfied p) edges)%Z
  | _ => ∃ e, e ∈ edges ∧ source_satisfied p e = true
  end.
Proof.
  cbv zeta. intros Hwf Hn Hne Hsc. apply readyNodesAt_elem in Hn as [_ Hr]; [|apply (wf_node_ids _ Hwf)].
  unfold node_ready in Hr. cbv zeta in Hr.
  destruct (np_Status (node_at p (wn_ID n)) ≠? AttemptReady) eqn:Es; [done|].
  apply negb_false_iff, bool_decide_eq_true in Es. split; [done|].
  destruct (np_RetryAt (node_at p (wn_ID n))) as [t|]; [destruct (Before now t); [done|]|];
    rewrite (bool_decide_eq_false_2 _ Hne), (bool_decide_eq_false_2 _ Hsc) in Hr; simpl in Hr;
    by apply join_need_met.
Qed.

Lemma ready_join_satisfied_witness :
  np_Status (node_at looped "build") = AttemptReady ∧
  ∃ e, e ∈ incoming sample_graph "build" ∧ source_satisfied looped e = true.
Proof.
  apply (ready_join_satisfied sample_plan looped 30 (sample_node "build" NodeAgent)).
  - apply (@ValidateGraph_decides canonical_range). vm_compute. reflexivity.
  - apply readyNodesAt_elem; [vm_compute; apply (bool_decide_unpack _); vm_compute; exact I|].
    split; [left|vm_compute; reflexivity].
  - vm_compute. discriminate.
  - discriminate.
Defined.
