(* ===== verification/Executor.v ===== *)
(** * Executor: reducer calls, events and the provider

    Models internal/orchestration/executor.go: [commitAttemptEvent],
    [FinishAttempt], [AdvanceStructural], [dispatchReady] with the nested squad
    plans, the provider capabilities and the prompt text; and [Scheduler.Tick] of
    scheduler.go.

    The executor's [Repository] and [Events] are the modelled store or nil, as
    internal/api/orchestration.go builds them; that store implements every
    optional interface the executor asks for ([eventAppender],
    [projectionEventCommitter], [outboxStore], [CreatePlanWithEvent]), so the
    branches for poorer stores cannot be taken.  A provider is a record of what
    its calls answer.  Clock readings, random ids, trace contexts and the I/O of
    the store are arguments.  A function that assigns through the projection
    pointer returns the projection it leaves. *)
From stdpp Require Import base strings gmap list pretty.
From Stdlib Require Import ZArith Lia Ascii.
From S2P Require Import Prelude GoLib GoStrings Trace GoValue GoJson ContextModel ContextCompiler OrchModel GraphSearch Validate Definitions ProjectionData Projection Repair Transition Structural Scheduler Events ProviderOutcome Repository Outbox.

(** ** The provider interface (internal/provider/provider.go) *)

Record Capabilities := { ca_Features : list string; ca_FeatureStatus : gmap string string }.
Definition Supports (c : Capabilities) (feature : string) : bool :=
  match ca_FeatureStatus c !! feature with
  | Some status => contains ["supported"; "verified"; "true"] status
  | None => contains (ca_Features c) feature
  end.

(** The fields a graph dispatch fills in. *)
Record StartRunCommand := {
  sr_PlanID : string; sr_NodeID : string; sr_AttemptID : string; sr_WorkItemID : string; sr_AgentBindingID : string;
  sr_Input : string; sr_SessionID : string; sr_ContextEnvelope : ContextEnvelope; sr_IdempotencyKey : string;
  sr_ExpectedRevision : Z; sr_TraceParent : string; sr_TraceState : string }.
Record RunBinding := { rb_ID : string; rb_SessionID : string; rb_WorkDir : string }.
(** [ErrorCodeOf(err)] and [err.Error()]. *)
Record ProviderError := { pe_Code : string; pe_Message : string }.
(** What one call reads from outside: its clock, ids, trace contexts and I/O.  The
    answers of a provider depend on it, so they may change from call to call. *)
Record World := {
  w_now : Time;               (** [e.now()] *)
  w_id : string;              (** [domain.NewID()] *)
  w_wall : nat → Time;        (** readings of [time.Now()] *)
  w_event : nat → string;     (** event ids *)
  w_io : nat → fault;         (** the writes of the store *)
  w_ctx : option SpanContext;
  w_provider_ctx : option SpanContext }.

Record ExecutionProvider := {
  pr_Capabilities : result Capabilities;
  pr_StartRun : World → StartRunCommand → RunBinding + ProviderError;
  pr_GetRun : World → string → result RunSnapshot }.

Record Executor := {
  ex_Provider : option ExecutionProvider;
  ex_ProviderResolver : option (AgentDefinition → result (option ExecutionProvider));
  ex_InstructionsResolver : option (AgentDefinition → result string);
  ex_Repository : bool; ex_Events : bool;
  ex_GateEvaluator : option (StructuralInput → result StructuralDecision);
  ex_MergeReducer : option (StructuralInput → result StructuralDecision);
  ex_RepairController : option (StructuralInput → result StructuralDecision);
  ex_Owner : string; ex_InvokerID : string; ex_LeaseTTL : Duration }.

(** [e] with the repository and lease the scheduler sets. *)
Definition ex_scheduled (repository : bool) (ttl : Duration) (e : Executor) : Executor :=
  {| ex_Provider := ex_Provider e; ex_ProviderResolver := ex_ProviderResolver e;
     ex_InstructionsResolver := ex_InstructionsResolver e; ex_Repository := repository; ex_Events := ex_Events e;
     ex_GateEvaluator := ex_GateEvaluator e; ex_MergeReducer := ex_MergeReducer e;
     ex_RepairController := ex_RepairController e; ex_Owner := ex_Owner e; ex_InvokerID := ex_InvokerID e;
     ex_LeaseTTL := ttl |}.

Definition leaseTTL (e : Executor) (node : WorkflowNode) : Duration :=
  if (0 <? wn_Timeout node)%Z then wn_Timeout node
  else if (0 <? ex_LeaseTTL e)%Z then ex_LeaseTTL e
  else (15 * Minute)%Z.

(** Payloads that leave keys of the decoded struct out. *)
Record StructuralStarted := { ss_payload : StartedPayload }.
Record WaitingFinished := { wf_payload : FinishedPayload }.

(** ** Prompt text *)

Definition dq : string := String quote "".
Definition result_instruction : string :=
  "Always finish with one plain-text line exactly in this form: ADRO_RESULT_JSON={" +:+ dq +:+ "outcome" +:+ dq +:+ ":"
  +:+ dq +:+ "pass|failure|bug" +:+ dq +:+ "," +:+ dq +:+ "reason_code" +:+ dq +:+ ":" +:+ dq +:+ "stable_reason" +:+ dq
  +:+ "," +:+ dq +:+ "summary" +:+ dq +:+ ":" +:+ dq +:+ "what happened" +:+ dq +:+ "," +:+ dq +:+ "evidence_ids" +:+ dq
  +:+ ":[" +:+ dq +:+ "evidence" +:+ dq +:+ "]," +:+ dq +:+ "fields" +:+ dq
  +:+ ":{}}. Use failure for a failed check, bug for a defect found after a previously passing step, and pass only when the node work is complete."
  +:+ line_break +:+ line_break.

Definition node_kind_text (k : NodeKind) : string :=
  match k with
  | NodeAgent => "agent" | NodeSquad => "squad" | NodeGate => "gate" | NodeMerge => "merge" | NodeRepair => "repair"
  | NodeHuman => "human" | NodeKindOther s => s
  end.

Section executor.
Context `{!MapRange, !Sha256, !JsonCompact, !JsonClone, !EnvelopeContract, !SliceSort}.
Context {JM : ∀ T, JsonMarshal T}.
Context {JMs : JsonMarshal StartedPayload} {JMb : JsonMarshal BoundPayload} {JMf : JsonMarshal FinishedPayload}.

Definition nodeInput (envelope : ContextEnvelope) (node : WorkflowNode) (attemptNo : Z) (binding instructions : string)
    : string :=
  let m := ce_Manifest envelope in
  let encoded := default "" (json_marshal (wn_ID node, node_kind_text (wn_Kind node), attemptNo, TrimSpace binding,
                                           m_SessionID m, ce_ReplayKey envelope)) in
  TrimSpace ("ADRO_GRAPH_NODE_JSON=" +:+ encoded +:+ line_break
    +:+ "You are executing one immutable ADRO graph attempt. Follow the node contract and the durable context below."
    +:+ line_break
    +:+ (let text := TrimSpace instructions in
         if text ≠? "" then "Agent instructions:" +:+ line_break +:+ text +:+ line_break else "")
    +:+ result_instruction
    +:+ match RenderPromptManifest (m_PromptManifest m) with
        | Ok rendered => rendered
        | Err _ =>
            foldl (λ acc b, if blank (b_Content b) then acc else acc +:+ line_break +:+ b_Content b)
              "[ADRO_PROMPT_MANIFEST_INVALID]" (m_Blocks m)
        end).

Definition envelopeInput (envelope : ContextEnvelope) : string :=
  match ContextEnvelope_Render envelope with
  | Ok rendered => rendered
  | Err _ => Join line_break (filter (λ c, blank c = false) (b_Content <$> m_Blocks (ce_Manifest envelope)))
  end.

(** ** Committing an event with its projection *)

(** [tail := store.ListEvents(plan.ID, 0)]; the last event of it, if any. *)
Definition previous_event (s : Store) (planID : string) : option Event := last (ListEvents s planID 0).

(** [ev.FencingToken = token; ev.EnvelopeHash = eventDigest(ev)] without and with scope. *)
Definition ev_fenced (token : Z) (e : Event) : Event := reseal (ev_scoped (ev_NodeID e) (ev_AttemptID e) token e).

Definition commitAttemptEvent {T} {JMT : JsonMarshal T} (e : Executor) (w : World) (k : nat) (s : Store) (plan : RequirementExecutionPlan)
    (p : PlanProjection) (attempt : NodeAttempt) (typ key : string) (payload : T) (fencing : option Z)
    : Store * result unit :=
  if negb (ex_Events e) then
    if ex_Repository e then
      match GetPlan s (pl_WorkspaceID plan) (pl_ID plan) with
      | Err err => (s, if errors_is ErrNotFound err then Ok tt else Err err)
      | Ok _ => SaveProjection (w_io w k) s p
      end
    else (s, Ok tt)
  else
    match NewEventWithContext (w_event w k) (w_wall w k) (w_ctx w) (previous_event s (pl_ID plan)) (pl_ID plan)
            (pl_WorkspaceID plan) typ key payload with
    | Err err => (s, Err err)
    | Ok ev =>
        let ev := reseal (ev_scoped (na_NodeID attempt) (na_ID attempt)
                            (default (ls_FencingToken (na_Lease attempt)) fencing) ev) in
        CommitEventProjection (w_io w k) s ev p
    end.

(** ** [Executor.FinishAttempt] *)

Definition finished_payload (attemptID : string) (input : TransitionInput) (a : NodeAttempt) : FinishedPayload :=
  {| fp_AttemptID := attemptID; fp_Event := ti_Event input; fp_Result := ti_Result input; fp_Failure := ti_Failure input;
     fp_ArtifactIDs := na_OutputArtifacts a; fp_TransitionIdempotencyKey := Some (ti_IdempotencyKey input);
     fp_TransitionAt := ti_Now input |}.

Definition finish_key (input : TransitionInput) (a : NodeAttempt) : string :=
  (if ti_IdempotencyKey input ≟ "" then na_IdempotencyKey a else ti_IdempotencyKey input) +:+ ":finished".

Definition Exec_FinishAttempt (e : Executor) (w : World) (k : nat) (s : Store) (plan : RequirementExecutionPlan)
    (p : PlanProjection) (attemptID : string) (input : TransitionInput) : Store * PlanProjection * result NodeAttempt :=
  let input := ti_set_Now (orNow (w_now w) (ti_Now input)) input in
  let old := cloneProjection p in
  match FinishAttempt (w_wall w k) p plan attemptID input with
  | (p1, Err err) => (s, p1, Err err)
  | (p1, Ok a) =>
      if ex_Events e then
        match NewEventWithContext (w_event w k) (w_wall w k) (w_ctx w) (previous_event s (pl_ID plan)) (pl_ID plan)
                (pl_WorkspaceID plan) "attempt.finished" (finish_key input a) (finished_payload attemptID input a) with
        | Err err => (s, old, Err err)
        | Ok ev =>
            match CommitEventProjection (w_io w k) s (ev_fenced (ti_LeaseToken input) ev) p1 with
            | (s', Err err) => (s', old, Err err)
            | (s', Ok _) => (s', p1, Ok a)
            end
        end
      else if ex_Repository e && match GetPlan s (pl_WorkspaceID plan) (pl_ID plan) with Ok _ => true | Err _ => false end
      then
        match SaveProjection (w_io w k) s p1 with
        | (s', Err err) => (s', old, Err err)
        | (s', Ok _) => (s', p1, Ok a)
        end
      else (s, p1, Ok a)
  end.

(** ** [AdvanceStructural] *)

Definition evaluateStructural (e : Executor) (input : StructuralInput) : result StructuralDecision :=
  match wn_Kind (in_Node input) with
  | NodeGate => default EvaluateGate (ex_GateEvaluator e) input
  | NodeMerge => default ReduceMerge (ex_MergeReducer e) input
  | NodeRepair => default PlanRepair (ex_RepairController e) input
  | k => Err (Errorf "unsupported structural node kind %q" [node_kind_text k])
  end.

Definition attempt_key (plan : RequirementExecutionPlan) (nodeID : string) (no : Z) : string :=
  pl_ID plan +:+ ":" +:+ nodeID +:+ ":" +:+ pretty no.
Definition start_input (plan : RequirementExecutionPlan) (lease : Lease) (key hash : string) (now : Time) : TransitionInput :=
  {| ti_PlanRevision := pl_Revision plan; ti_AttemptID := ""; ti_LeaseToken := ls_FencingToken lease; ti_Event := "";
     ti_Result := zero_Result; ti_Failure := None; ti_OutputArtifacts := []; ti_IdempotencyKey := key;
     ti_PayloadHash := hash; ti_Now := now |}.
Definition node_lease (e : Executor) (plan : RequirementExecutionPlan) (node : WorkflowNode) (now : Time) : Lease :=
  {| ls_Key := pl_ID plan +:+ ":" +:+ wn_ID node; ls_Owner := ex_Owner e; ls_FencingToken := UnixNano now;
     ls_ExpiresAt := (now + leaseTTL e node)%Z |}.
Definition started_payload (node : WorkflowNode) (a : NodeAttempt) (lease : Lease) (envelope : ContextEnvelope)
    (hash : string) (now : Time) (child : string) : StartedPayload :=
  {| stp_NodeID := wn_ID node; stp_AttemptID := na_ID a; stp_AttemptNo := na_AttemptNo a; stp_Lease := lease;
     stp_Context := envelope; stp_DispatchPayloadHash := hash; stp_StartedAt := now; stp_ChildPlanID := child |}.

(** The decision of a graph-owned node, and the event that records it. *)
Definition structural_finish (e : Executor) (w : World) (s : Store) (plan : RequirementExecutionPlan)
    (p before : PlanProjection) (a : NodeAttempt) (lease : Lease) (key : string) (node : WorkflowNode)
    (envelope : ContextEnvelope) : Store * PlanProjection * result NodeAttempt :=
  let now := w_now w in
  let input event result failure artifacts ikey :=
    {| ti_PlanRevision := pl_Revision plan; ti_AttemptID := na_ID a; ti_LeaseToken := ls_FencingToken lease;
       ti_Event := event; ti_Result := result; ti_Failure := failure; ti_OutputArtifacts := artifacts;
       ti_IdempotencyKey := ikey; ti_PayloadHash := ""; ti_Now := now |} in
  let decided (event : string) (result : StructuredResult) (failure : option FailureReason) (artifacts : list string)
      (ikey : string) (waiting : bool) :=
    match FinishAttempt (w_wall w 1) p plan (na_ID a) (input event result failure artifacts ikey) with
    | (_, Err err) => (s, before, Err err)
    | (p2, Ok f) =>
        let payload := {| fp_AttemptID := na_ID f; fp_Event := event; fp_Result := na_Result f; fp_Failure := failure;
                          fp_ArtifactIDs := if waiting then [] else na_OutputArtifacts f;
                          fp_TransitionIdempotencyKey := Some ikey; fp_TransitionAt := now |} in
        let committed :=
          if waiting then
            commitAttemptEvent e w 1 s plan p2 f "attempt.finished" (key +:+ ":finished")
              {| wf_payload := payload |} (Some (ls_FencingToken lease))
          else commitAttemptEvent e w 1 s plan p2 f "attempt.finished" (key +:+ ":finished") payload
                 (Some (ls_FencingToken lease)) in
        match committed with
        | (s', Err err) => (s', before, Err err)
        | (s', Ok _) => (s', p2, Ok f)
        end
    end in
  if wn_Kind node ≟ NodeHuman then
    decided "waiting"
      {| res_Outcome := "approval_pending"; res_ReasonCode := ""; res_Fields := ∅;
         res_Summary := "human approval required"; res_EvidenceIDs := [] |} None [] (key +:+ ":waiting") true
  else
    match evaluateStructural e {| in_Plan := plan; in_Projection := cloneProjection p; in_Node := node; in_Attempt := a;
            in_Envelope := envelope; in_Incoming := incomingStructuralSources plan p (wn_ID node) |} with
    | Err err => (s, before, Err err)
    | Ok d =>
        let result := sdn_Result d in
        if (sdn_Event d ≟ "") || (res_ReasonCode result ≟ "") || bool_decide (res_EvidenceIDs result = [])
        then (s, before, Err (Errorf "%s node %s returned an incomplete structural decision"
                                [node_kind_text (wn_Kind node); wn_ID node]))
        else decided (sdn_Event d) result (sdn_Failure d) (sdn_ArtifactIDs d)
               (key +:+ ":" +:+ res_ReasonCode result) false
    end.

(** One node of the loop of [AdvanceStructural]. *)
Definition advance_node (e : Executor) (w : World) (s : Store) (plan : RequirementExecutionPlan) (p : PlanProjection)
    (envelope : ContextEnvelope) (node : WorkflowNode) : Store * PlanProjection * result NodeAttempt :=
  let before := cloneProjection p in
  let attemptNo := add64 (np_AttemptNo (node_at p (wn_ID node))) 1 in
  let now := w_now w in
  let lease := node_lease e plan node now in
  let key := attempt_key plan (wn_ID node) attemptNo in
  let hash := sha256_hex (key +:+ ce_ReplayKey envelope) in
  match StartAttempt (w_wall w 0) p plan (wn_ID node) (w_id w) attemptNo lease envelope
          (start_input plan lease key hash now) with
  | (p1, Err err) => (s, p1, Err err)
  | (p1, Ok a) =>
      match commitAttemptEvent e w 0 s plan p1 a "attempt.started" key
              {| ss_payload := started_payload node a lease envelope hash now "" |} None with
      | (s', Err err) => (s', before, Err err)
      | (s', Ok _) => structural_finish e w s' plan p1 before a lease key node envelope
      end
  end.

Definition provider_node (node : WorkflowNode) : bool := (wn_Kind node ≟ NodeAgent) || (wn_Kind node ≟ NodeSquad).

Fixpoint advance_loop (e : Executor) (ws : nat → World) (i : nat) (s : Store) (plan : RequirementExecutionPlan)
    (p : PlanProjection) (envelope : ContextEnvelope) (limit : Z) (started : list NodeAttempt) (nodes : list WorkflowNode)
    : Store * PlanProjection * (list NodeAttempt * option error) :=
  match nodes with
  | [] => (s, p, (started, None))
  | node :: nodes' =>
      if provider_node node || ((0 <? limit)%Z && (limit <=? Z.of_nat (length started))%Z)
      then advance_loop e ws (S i) s plan p envelope limit started nodes'
      else match advance_node e (ws i) s plan p envelope node with
           | (s', p', Err err) => (s', p', (started, Some err))
           | (s', p', Ok a) => advance_loop e ws (S i) s' plan p' envelope limit (started ++ [a]) nodes'
           end
  end.

Definition AdvanceStructural (e : Executor) (now : Time) (ws : nat → World) (s : Store) (plan : RequirementExecutionPlan)
    (p : PlanProjection) (envelope : ContextEnvelope) (limit : Z)
    : Store * PlanProjection * (list NodeAttempt * option error) :=
  match envelope_validate envelope with
  | Err err => (s, p, ([], Some (Wrapf "context envelope: %w" [] err)))
  | Ok _ => advance_loop e ws 0 s plan p envelope limit [] (readyNodesAt plan p now)
  end.

(** ** Capabilities and nested squad plans *)

Definition requireProviderCapabilities (provider : option ExecutionProvider) (agent : AgentDefinition) : result unit :=
  let required := eb_RequiredCaps (ad_ExecutorBinding agent) in
  if bool_decide (required = []) then Ok tt else
  match provider with
  | None => Err (Errorf "capability_unavailable: provider is required" [])
  | Some p =>
      match pr_Capabilities p with
      | Err err => Err (Wrapf "capability_unavailable: %w" [] err)
      | Ok caps =>
          let missing := filter (λ r, blank r = false ∧ Supports caps r = false) required in
          reject (negb (bool_decide (missing = []))) (Errorf "capability_unavailable: missing %s" [Join "," missing])
      end
  end.

Definition resolve_provider (e : Executor) (agent : AgentDefinition) : result (option ExecutionProvider) :=
  match ex_ProviderResolver e with
  | Some resolver => resolver agent
  | None => Ok (ex_Provider e)
  end.
Definition requireAgentCapabilities (e : Executor) (agent : AgentDefinition) : result unit :=
  let* provider := resolve_provider e agent in requireProviderCapabilities provider agent.

(** The instructions an agent runs with. *)
Definition resolve_instructions (e : Executor) (agent : AgentDefinition) : result string :=
  match ex_InstructionsResolver e with
  | Some resolver => resolver agent
  | None => Ok (ad_Instructions agent)
  end.

Definition child_plan (parent : RequirementExecutionPlan) (attempt : NodeAttempt) (squad : SquadDefinition)
    (created : Time) : RequirementExecutionPlan :=
  {| pl_ID := pl_ID parent +:+ "/squad/" +:+ na_ID attempt; pl_RequirementID := pl_RequirementID parent;
     pl_WorkspaceID := pl_WorkspaceID parent; pl_GraphSnapshot := sd_Graph squad;
     pl_SelectedRef := {| vr_ID := sd_ID squad; vr_Revision := sd_Revision squad; vr_Version := sd_PublishedVersion squad |};
     pl_PolicySnapshot := {| pol_Digest := pol_Digest (pl_PolicySnapshot parent); pol_ToolPolicy := sp_ToolPolicy (sd_Policy squad);
                             pol_Budget := sp_Budget (sd_Policy squad); pol_CapturedAt := created |};
     pl_ContextRoot := pl_ContextRoot parent; pl_PlanHash := ""; pl_Status := PlanDraft; pl_Revision := 0;
     pl_IdempotencyKey := pl_ID parent +:+ ":" +:+ na_ID attempt +:+ ":nested"; pl_Deadline := pl_Deadline parent;
     pl_CreatedAt := created; pl_ParentPlanID := pl_ID parent; pl_ParentAttemptID := na_ID attempt |}.

(** A stored plan under the child's id belongs to this attempt. *)
Definition own_child (parent : RequirementExecutionPlan) (attempt : NodeAttempt) (existing : RequirementExecutionPlan) : bool :=
  (pl_ParentPlanID existing ≟ pl_ID parent) && (pl_ParentAttemptID existing ≟ na_ID attempt).

Definition ensureNestedSquadPlan (e : Executor) (w : World) (k : nat) (s : Store) (parent : RequirementExecutionPlan)
    (node : WorkflowNode) (attempt : NodeAttempt) (squad : SquadDefinition) : Store * result string :=
  if negb (ex_Repository e) then (s, Err (Errorf "repository is required for nested squad execution" [])) else
  let child := child_plan parent attempt squad (w_now w) in
  match GetPlan s (pl_WorkspaceID parent) (pl_ID child) with
  | Ok existing =>
      (s, if own_child parent attempt existing then Ok (pl_ID child)
          else Err (Errorf "nested squad plan %s has mismatched parent lineage" [pl_ID child]))
  | Err _ =>
      match Freeze child with
      | (_, Err err) => (s, Err (Wrapf "freeze nested squad plan %s: %w" [wn_ID node] err))
      | (frozen, Ok _) =>
          match NewEventWithContext (w_event w k) (w_wall w k) (w_ctx w) None (pl_ID frozen) (pl_WorkspaceID frozen)
                  "plan.created" (pl_IdempotencyKey frozen) frozen with
          | Err err => (s, Err err)
          | Ok event =>
              match CreatePlanWithEvent (w_io w k) s frozen event with
              | (s', Ok _) => (s', Ok (pl_ID child))
              | (s', Err err) =>
                  (s', match GetPlan s' (pl_WorkspaceID parent) (pl_ID child) with
                       | Ok existing => if own_child parent attempt existing then Ok (pl_ID child)
                                        else Err (Wrapf "persist nested squad plan: %w" [] err)
                       | Err _ => Err (Wrapf "persist nested squad plan: %w" [] err)
                       end)
              end
          end
      end
  end.

(** ** [dispatchReady] *)

(** What the node refers to: the agent's instructions, the agent, the squad. *)
Record Resolved := { rv_instructions : string; rv_agent : option AgentDefinition; rv_squad : option SquadDefinition }.

Definition resolve_agent_node (e : Executor) (s : Store) (plan : RequirementExecutionPlan) (node : WorkflowNode)
    (ref : VersionedRef) : result Resolved :=
  let* agent := wrap_err "resolve agent node %s: %w" [wn_ID node]
                  (GetAgent s (pl_WorkspaceID plan) (vr_ID ref) (vr_Revision ref)) in
  reject (ad_Status agent ≠? AgentActive) (Errorf "agent node %s references non-active agent" [wn_ID node]) ;;;
  reject (negb (CanInvoke agent (ex_InvokerID e)))
    (Errorf "agent node %s access denied for member %q" [wn_ID node; ex_InvokerID e]) ;;;
  wrap_err "agent node %s: %w" [wn_ID node] (requireAgentCapabilities e agent) ;;;
  let* instructions := wrap_err "resolve agent node %s instructions: %w" [wn_ID node] (resolve_instructions e agent) in
  Ok {| rv_instructions := instructions; rv_agent := Some agent; rv_squad := None |}.

Definition resolve_squad_node (e : Executor) (s : Store) (plan : RequirementExecutionPlan) (node : WorkflowNode)
    : result Resolved :=
  match ex_Repository e, wn_SquadRef node with
  | true, Some ref =>
      let* squad := wrap_err "resolve squad node %s: %w" [wn_ID node]
                      (GetSquad s (pl_WorkspaceID plan) (vr_ID ref) (vr_Revision ref)) in
      reject (sd_Status squad ≠? SquadPublished) (Errorf "squad node %s references non-published squad" [wn_ID node]) ;;;
      reject (negb (countSquadLeaders (sd_Members squad) =? 1)%nat)
        (Errorf "squad node %s squad must have exactly one leader" [wn_ID node]) ;;;
      Ok {| rv_instructions := ""; rv_agent := None; rv_squad := Some squad |}
  | _, _ => Err (Errorf "squad node %s requires a repository and squad_ref" [wn_ID node])
  end.

Definition resolve_node (e : Executor) (s : Store) (plan : RequirementExecutionPlan) (node : WorkflowNode)
    : result Resolved :=
  if wn_Kind node ≟ NodeSquad then resolve_squad_node e s plan node
  else match wn_AgentRef node with
       | Some ref => if ex_Repository e then resolve_agent_node e s plan node ref
                     else Ok {| rv_instructions := ""; rv_agent := None; rv_squad := None |}
       | None => Ok {| rv_instructions := ""; rv_agent := None; rv_squad := None |}
       end.

(** The node's contract as a required block of its envelope. *)
Definition contract_block (plan : RequirementExecutionPlan) (node : WorkflowNode) (contract : string) : Block :=
  {| b_ID := "graph-node-contract:" +:+ pl_ID plan +:+ ":" +:+ wn_ID node; b_Kind := "plan_node_contract";
     b_Source := "graph:" +:+ pl_ID plan +:+ ":node:" +:+ wn_ID node; b_Content := contract; b_Hash := "";
     b_Policy := "frozen_plan"; b_Trust := "plan_snapshot"; b_SelectionReason := "mandatory_graph_node_contract";
     b_TokenEstimate := EstimateTokens contract; b_Mandatory := false;
     b_Metadata := list_to_map [("prompt_kind", "plan_node_contract"); ("atomic", "true")] |}.

Definition node_envelope (e : Executor) (w : World) (plan : RequirementExecutionPlan) (node : WorkflowNode)
    (envelope : ContextEnvelope) (agentBindingID instructions : string) : result ContextEnvelope :=
  if ex_Repository e || (wn_Kind node ≟ NodeSquad) then
    match json_marshal (pl_ID plan, pl_Revision plan, node, agentBindingID, instructions) with
    | None => Err (Errorf "encode graph node contract: %w" [])
    | Some contract =>
        wrap_err "compile graph node context: %w" []
          (WithRequiredBlock (w_wall w 0) envelope (contract_block plan node contract))
    end
  else Ok envelope.

(** The lease of a provider attempt ends with the plan. *)
Definition dispatch_lease (e : Executor) (plan : RequirementExecutionPlan) (node : WorkflowNode) (now : Time) : Lease :=
  let l := node_lease e plan node now in
  if negb (IsZero (pl_Deadline plan)) && Before (pl_Deadline plan) (ls_ExpiresAt l)
  then {| ls_Key := ls_Key l; ls_Owner := ls_Owner l; ls_FencingToken := ls_FencingToken l; ls_ExpiresAt := pl_Deadline plan |}
  else l.

(** The projection is kept by the repository: it is set and knows the plan. *)
Definition saves_projection (e : Executor) (s : Store) (plan : RequirementExecutionPlan) : bool :=
  ex_Repository e && match GetPlan s (pl_WorkspaceID plan) (pl_ID plan) with Ok _ => true | Err _ => false end.

(** Recording an event of an attempt with the projection; [saves] says that,
    without an event store, the projection is saved alone. *)
Definition record_event {T} {JMT : JsonMarshal T} (e : Executor) (saves : bool) (w : World) (k : nat) (s : Store)
    (plan : RequirementExecutionPlan) (p : PlanProjection) (label typ key : string) (payload : T) (seal : Event → Event)
    : Store * result unit :=
  if ex_Events e then
    match NewEventWithContext (w_event w k) (w_wall w k) (w_ctx w) (previous_event s (pl_ID plan)) (pl_ID plan)
            (pl_WorkspaceID plan) typ key payload with
    | Err err => (s, Err err)
    | Ok ev =>
        match CommitEventProjection (w_io w k) s (seal ev) p with
        | (s', Err err) => (s', Err (Wrapf ("commit " +:+ typ +:+ " projection: %w") [] err))
        | (s', Ok _) => (s', Ok tt)
        end
    end
  else if saves then
    match SaveProjection (w_io w k) s p with
    | (s', Err err) => (s', Err (Wrapf ("persist " +:+ label +:+ " projection: %w") [] err))
    | (s', Ok _) => (s', Ok tt)
    end
  else (s, Ok tt).

(** The delivery intent of a dispatch, claimed for its executor. *)
Definition outbox_owner (e : Executor) : string := if ex_Owner e ≟ "" then "executor" else ex_Owner e.
Definition start_intent (w : World) (plan : RequirementExecutionPlan) (node : WorkflowNode) (a : NodeAttempt)
    (key workItemID agentBindingID : string) : OutboxRecord :=
  let '(traceParent, traceState) := Carrier (w_ctx w) in
  {| ob_ID := ""; ob_PlanID := pl_ID plan; ob_WorkspaceID := pl_WorkspaceID plan; ob_Kind := "provider.start";
     ob_IdempotencyKey := key; ob_TraceParent := traceParent; ob_TraceState := traceState;
     ob_Payload := list_to_map [("node_id", VString (wn_ID node)); ("attempt_id", VString (na_ID a));
                                ("work_item_id", VString workItemID); ("agent_binding_id", VString agentBindingID)];
     ob_Status := ""; ob_Owner := ""; ob_LeaseExpiresAt := 0; ob_Attempts := 0; ob_MaxAttempts := 0; ob_LastError := "";
     ob_CreatedAt := 0; ob_UpdatedAt := 0 |}.
(** [None] where the executor has no outbox. *)
Definition claim_intent (e : Executor) (w : World) (s : Store) (record : OutboxRecord)
    : Store * result (option string) :=
  if ex_Events e then
    match EnqueueOutbox (w_io w 2) (w_wall w 2) s record with
    | (s1, Err err) => (s1, Err (Wrapf "enqueue provider.start: %w" [] err))
    | (s1, Ok (intent, _)) =>
        match ClaimOutboxByID (w_io w 3) (w_wall w 3) s1 (ob_ID intent) (outbox_owner e) (15 * Minute)%Z (w_wall w 3) with
        | (s2, Err err) => (s2, Err (Wrapf "claim provider.start outbox: %w" [] err))
        | (s2, Ok _) => (s2, Ok (Some (ob_ID intent)))
        end
    end
  else (s, Ok None).

(** The squad's leader runs its node. *)
Definition resolve_leader (e : Executor) (s : Store) (plan : RequirementExecutionPlan) (node : WorkflowNode)
    (squad : SquadDefinition) (binding : string) : result (string * string * AgentDefinition) :=
  match list_find (λ m, sm_Leader m = true) (sd_Members squad) with
  | None => Err (Errorf "squad node %s squad has no leader agent" [wn_ID node])
  | Some (_, leader) =>
      reject (blank (sm_AgentID leader)) (Errorf "squad node %s squad has no leader agent" [wn_ID node]) ;;;
      let* agent := wrap_err "resolve squad leader %s: %w" [sm_AgentID leader]
                      (GetAgent s (pl_WorkspaceID plan) (sm_AgentID leader) 0) in
      reject (negb (CanInvoke agent (ex_InvokerID e)))
        (Errorf "squad node %s leader access denied for member %q" [wn_ID node; ex_InvokerID e]) ;;;
      wrap_err "squad node %s: %w" [wn_ID node] (requireAgentCapabilities e agent) ;;;
      let* instructions := wrap_err "resolve squad node %s leader instructions: %w" [wn_ID node]
                             (resolve_instructions e agent) in
      Ok (if binding ≟ "" then sm_AgentID leader else binding, instructions, agent)
  end.

(** The binding, instructions and provider of the run. *)
Definition resolve_run (e : Executor) (s : Store) (plan : RequirementExecutionPlan) (node : WorkflowNode)
    (rv : Resolved) (agentBindingID : string) : result (string * string * ExecutionProvider) :=
  let binding := match wn_AgentRef node with
                 | Some ref => if agentBindingID ≟ "" then vr_ID ref else agentBindingID
                 | None => agentBindingID
                 end in
  let* (binding, instructions, agent) :=
    match rv_squad rv with
    | Some squad => let* (binding, instructions, agent) := resolve_leader e s plan node squad binding in
                    Ok (binding, instructions, Some agent)
    | None => Ok (binding, rv_instructions rv, rv_agent rv)
    end in
  let* provider :=
    match agent, ex_ProviderResolver e with
    | Some agent, Some resolver => wrap_err "resolve provider for agent %s: %w" [ad_ID agent] (resolver agent)
    | _, _ => Ok (ex_Provider e)
    end in
  match provider with
  | None => Err (Errorf "provider is required for agent %s" [binding])
  | Some run =>
      match agent with
      | Some agent => wrap_err "agent %s: %w" [ad_ID agent] (requireProviderCapabilities (Some run) agent)
      | None => Ok tt
      end ;;;
      Ok (binding, instructions, run)
  end.

Definition start_command (e : Executor) (w : World) (plan : RequirementExecutionPlan) (node : WorkflowNode) (a : NodeAttempt)
    (envelope : ContextEnvelope) (key workItemID binding instructions : string) : StartRunCommand :=
  let '(traceParent, traceState) := Carrier (w_provider_ctx w) in
  {| sr_PlanID := pl_ID plan; sr_NodeID := wn_ID node; sr_AttemptID := na_ID a; sr_WorkItemID := workItemID;
     sr_AgentBindingID := binding;
     sr_Input := if ex_Repository e || (wn_Kind node ≟ NodeSquad)
                 then nodeInput envelope node (na_AttemptNo a) binding instructions else envelopeInput envelope;
     sr_SessionID := m_SessionID (ce_Manifest envelope); sr_ContextEnvelope := envelope; sr_IdempotencyKey := key;
     sr_ExpectedRevision := pl_Revision plan; sr_TraceParent := traceParent; sr_TraceState := traceState |}.

(** The completion of an attempt whose run could not be started. *)
Definition dispatch_failure (plan : RequirementExecutionPlan) (a : NodeAttempt) (lease : Lease) (err : ProviderError)
    : TransitionInput :=
  {| ti_PlanRevision := pl_Revision plan; ti_AttemptID := ""; ti_LeaseToken := ls_FencingToken lease; ti_Event := "failure";
     ti_Result := {| res_Outcome := "failure"; res_ReasonCode := ""; res_Fields := ∅; res_Summary := "";
                     res_EvidenceIDs := ["provider-dispatch:" +:+ na_ID a] |};
     ti_Failure := Some {| fr_Code := pe_Code err; fr_Message := pe_Message err; fr_Retryable := true |};
     ti_OutputArtifacts := []; ti_IdempotencyKey := ""; ti_PayloadHash := ""; ti_Now := 0 |}.

Definition bound_payload (a : NodeAttempt) : BoundPayload :=
  {| bp_AttemptID := na_ID a; bp_RunID := na_RunID a; bp_SessionID := na_SessionID a; bp_WorkDir := na_WorkDir a;
     bp_ChildPlanID := na_ChildPlanID a |}.

Definition ack (e : Executor) (w : World) (k : nat) (s : Store) (intent : option string) (err : option string)
    : Store * result unit :=
  match intent with
  | Some id => AckOutbox (w_io w k) (w_wall w k) s id (outbox_owner e) (w_wall w k) err
  | None => (s, Ok tt)
  end.

(** After the run was asked for.  (The attempt is stored: its start put it there.) *)
Definition dispatch_run (e : Executor) (saves : bool) (w : World) (s : Store) (plan : RequirementExecutionPlan)
    (p : PlanProjection) (a : NodeAttempt) (lease : Lease) (key : string) (intent : option string)
    (outcome : RunBinding + ProviderError) : Store * PlanProjection * result NodeAttempt :=
  match outcome with
  | inr err =>
      match Exec_FinishAttempt e w 4 s plan p (na_ID a) (dispatch_failure plan a lease err) with
      | (s1, p1, Err finishErr) => (s1, p1, Err (Wrapf "provider failed (%v), finish failed: %w" [pe_Message err] finishErr))
      | (s1, p1, Ok _) => ((ack e w 5 s1 intent (Some (pe_Message err))).1, p1, Err (Errorf "%s" [pe_Message err]))
      end
  | inl b =>
      let current := default a (pp_Attempts p !! na_ID a) in
      let bound := bind_run (rb_ID b) (rb_SessionID b) (rb_WorkDir b) (na_ChildPlanID current) current in
      let p1 := put_attempt (na_ID a) bound p in
      match record_event e saves w 4 s plan p1 "bound attempt" "attempt.bound" (key +:+ ":bound") (bound_payload bound)
              (λ ev, reseal (ev_scoped (na_NodeID bound) (na_ID bound) (ls_FencingToken (na_Lease bound)) ev)) with
      | (s1, Err err) => (s1, p1, Err err)
      | (s1, Ok _) =>
          match ack e w 5 s1 intent None with
          | (s2, Err err) => (s2, p1, Err (Wrapf "ack provider.start outbox: %w" [] err))
          | (s2, Ok _) => (s2, p1, Ok bound)
          end
      end
  end.

(** One provider node of the loop. *)
Definition dispatch_node (e : Executor) (saves : bool) (w : World) (s : Store) (plan : RequirementExecutionPlan)
    (p : PlanProjection) (envelope : ContextEnvelope) (workItemID agentBindingID : string) (node : WorkflowNode)
    : Store * PlanProjection * result NodeAttempt :=
  let before := cloneProjection p in
  match (let* rv := resolve_node e s plan node in
         let* env := node_envelope e w plan node envelope agentBindingID (rv_instructions rv) in
         Ok (rv, env)) with
  | Err err => (s, p, Err err)
  | Ok (rv, env) =>
      let attemptNo := add64 (np_AttemptNo (node_at p (wn_ID node))) 1 in
      let now := w_now w in
      let lease := dispatch_lease e plan node now in
      let key := attempt_key plan (wn_ID node) attemptNo in
      let hash := sha256_hex (key +:+ ce_ReplayKey env) in
      match StartAttempt (w_wall w 0) p plan (wn_ID node) (w_id w) attemptNo lease env (start_input plan lease key hash now) with
      | (p1, Err err) => (s, p1, Err err)
      | (p1, Ok a) =>
          let '(s1, nested) :=
            match rv_squad rv with
            | None => (s, Ok None)
            | Some squad =>
                match ensureNestedSquadPlan e w 0 s plan node a squad with
                | (s1, Ok child) => (s1, Ok (Some child))
                | (s1, Err err) => (s1, Err err)
                end
            end in
          match nested with
          | Err err => (s1, before, Err err)
          | Ok child =>
              let a := match child with Some c => na_set_ChildPlanID c a | None => a end in
              let p2 := match child with Some _ => put_attempt (na_ID a) a p1 | None => p1 end in
              match record_event e saves w 1 s1 plan p2 "attempt" "attempt.started" key
                      (started_payload node a lease env hash now (na_ChildPlanID a)) (ev_fenced (ls_FencingToken lease)) with
              | (s2, Err err) => (s2, before, Err err)
              | (s2, Ok _) =>
                  match claim_intent e w s2 (start_intent w plan node a key workItemID agentBindingID) with
                  | (s3, Err err) => (s3, before, Err err)
                  | (s3, Ok intent) =>
                      match resolve_run e s3 plan node rv agentBindingID with
                      | Err err => (s3, p2, Err err)
                      | Ok (binding, instructions, run) =>
                          dispatch_run e saves w s3 plan p2 a lease key intent
                            (pr_StartRun run w (start_command e w plan node a env key workItemID binding instructions))
                      end
                  end
              end
          end
      end
  end.

Fixpoint dispatch_loop (e : Executor) (saves : bool) (ws : nat → World) (i : nat) (s : Store)
    (plan : RequirementExecutionPlan) (p : PlanProjection) (envelope : ContextEnvelope) (workItemID agentBindingID : string)
    (limit : Z) (started : list NodeAttempt) (nodes : list WorkflowNode)
    : Store * PlanProjection * (list NodeAttempt * option error) :=
  match nodes with
  | [] => (s, p, (started, None))
  | node :: nodes' =>
      if negb (provider_node node)
      then dispatch_loop e saves ws (S i) s plan p envelope workItemID agentBindingID limit started nodes'
      else if (0 <? limit)%Z && (limit <=? Z.of_nat (length started))%Z then (s, p, (started, None))
      else match dispatch_node e saves (ws i) s plan p envelope workItemID agentBindingID node with
           | (s', p', Err err) => (s', p', (started, Some err))
           | (s', p', Ok a) =>
               dispatch_loop e saves ws (S i) s' plan p' envelope workItemID agentBindingID limit (started ++ [a]) nodes'
           end
  end.

Definition dispatchReady (e : Executor) (now : Time) (ws : nat → World) (s : Store) (plan : RequirementExecutionPlan)
    (p : PlanProjection) (envelope : ContextEnvelope) (workItemID agentBindingID : string) (limit : Z)
    : Store * PlanProjection * (list NodeAttempt * option error) :=
  match envelope_validate envelope with
  | Err err => (s, p, ([], Some (Wrapf "context envelope: %w" [] err)))
  | Ok _ =>
      let ready := readyNodesAt plan p now in
      if existsb provider_node ready && match ex_Provider e, ex_ProviderResolver e with None, None => true | _, _ => false end
      then (s, p, ([], Some (Errorf "provider is required for ready agent nodes" [])))
      else dispatch_loop e (negb (ex_Events e) && saves_projection e s plan) ws 0 s plan p envelope workItemID
             agentBindingID limit [] ready
  end.

(** ** [Scheduler.Tick] *)

Record SchedulerConfig := { sch_MaxConcurrent : Z; sch_LeaseTTL : Duration }.
Record ScheduleReport := {
  rep_Started : list NodeAttempt; rep_Advanced : list NodeAttempt; rep_Waiting : list string;
  rep_Blocked : gmap string string; rep_Terminal : bool }.
Definition empty_report : ScheduleReport :=
  {| rep_Started := []; rep_Advanced := []; rep_Waiting := []; rep_Blocked := ∅; rep_Terminal := false |}.

Definition deadline_input (plan : RequirementExecutionPlan) (attemptID : string) (token : Z) (now : Time) : TransitionInput :=
  control_input plan attemptID token "timeout" "timeout" "plan deadline exceeded"
    ("deadline:" +:+ pl_ID plan +:+ ":" +:+ attemptID) "plan_deadline_exceeded" "plan deadline exceeded" false now.

(** Closing the running attempts, in the order of their ids. *)
Fixpoint close_attempts (e : Executor) (ws : nat → World) (i : nat) (s : Store) (plan : RequirementExecutionPlan)
    (p : PlanProjection) (now : Time) (closed : list NodeAttempt) (ids : list string)
    : Store * PlanProjection * (list NodeAttempt * option error) :=
  match ids with
  | [] => (s, p, (closed, None))
  | id :: ids' =>
      let token := from_option (λ a, ls_FencingToken (na_Lease a)) 0%Z (pp_Attempts p !! id) in
      match Exec_FinishAttempt e (ws i) 0 s plan p id (deadline_input plan id token now) with
      | (s', p', Err err) => (s', p', (closed, Some err))
      | (s', p', Ok a) => close_attempts e ws (S i) s' plan p' now (closed ++ [a]) ids'
      end
  end.

Definition running_ids (p : PlanProjection) : list string :=
  sort_strings ((filter (λ '(_, a), na_Status a = AttemptRunning) (range (pp_Attempts p))).*1).
Definition running_count (p : PlanProjection) : Z :=
  Z.of_nat (length (filter (λ a, na_Status a = AttemptRunning) (range_values (pp_Attempts p)))).

Definition tick_deadline (e : Executor) (repository : bool) (cfg : SchedulerConfig) (io : fault) (ws : nat → World) (s : Store)
    (plan : RequirementExecutionPlan) (p : PlanProjection) (now : Time)
    : Store * PlanProjection * (ScheduleReport * option error) :=
  let e := ex_scheduled repository (sch_LeaseTTL cfg) e in
  let report closed terminal :=
    {| rep_Started := []; rep_Advanced := closed; rep_Waiting := []; rep_Blocked := {["plan" := "deadline_exceeded"]};
       rep_Terminal := terminal |} in
  match close_attempts e ws 0 s plan p now [] (running_ids p) with
  | (s', p', (closed, Some err)) => (s', p', (report closed false, Some err))
  | (s', p', (closed, None)) =>
      if pp_Status p' ≠? PlanTerminal then
        let p2 := pp_set_TerminalOutcome "timed_out" (pp_set_Status PlanTerminal p') in
        if repository then
          match SaveProjection io s' p2 with
          | (s2, Err err) => (s2, p2, (report closed false, Some err))
          | (s2, Ok _) => (s2, p2, (report closed true, Some (ESentinel ErrDeadlineExceeded)))
          end
        else (s', p2, (report closed true, Some (ESentinel ErrDeadlineExceeded)))
      else (s', p', (report closed true, Some (ESentinel ErrDeadlineExceeded)))
  end.

(** The permits left: the configured and budgeted limit less what is running. *)
Definition available_limit (plan : RequirementExecutionPlan) (cfg : SchedulerConfig) (ready running : Z) : Z :=
  let limit := if (sch_MaxConcurrent cfg <=? 0)%Z then ready else sch_MaxConcurrent cfg in
  let c := bg_Concurrent (pol_Budget (pl_PolicySnapshot plan)) in
  let limit := if (0 <? c)%Z && (c <? limit)%Z then c else limit in
  let available := (limit - running)%Z in
  let limit := if (available <? limit)%Z then available else limit in
  if (limit <? 0)%Z then 0%Z else limit.

Definition blocked_nodes (started : list NodeAttempt) (ready : list WorkflowNode) : gmap string string :=
  list_to_map ((λ n, (wn_ID n, "concurrency_limit"))
    <$> filter (λ n, provider_node n = true ∧ containsAttemptNode started (wn_ID n) = false) ready).

(** [nows] are the readings of the scheduler's clock; [we], [wd] the worlds of the
    structural and of the provider nodes. *)
Definition Tick (e : Executor) (repository : bool) (cfg : SchedulerConfig) (io : fault) (nows : nat → Time)
    (we wd : nat → World) (s : Store) (plan : RequirementExecutionPlan) (p : PlanProjection) (envelope : ContextEnvelope)
    (workItemID agentBindingID : string) : Store * PlanProjection * (ScheduleReport * option error) :=
  if negb (IsZero (pl_Deadline plan)) && negb (Before (nows 0) (pl_Deadline plan))
  then tick_deadline e repository cfg io we s plan p (nows 1)
  else
  if bool_decide (readyNodesAt plan p (nows 1) = []) then
    (s, p, ({| rep_Started := []; rep_Advanced := []; rep_Waiting := []; rep_Blocked := ∅;
               rep_Terminal := pp_Status p ≟ PlanTerminal |}, None))
  else
  match AdvanceStructural e (nows 2) we s plan p envelope (limitForStructural plan (sch_MaxConcurrent cfg)) with
  | (s1, p1, (_, Some err)) => (s1, p1, (empty_report, Some err))
  | (s1, p1, (advanced, None)) =>
      let ready := readyNodesAt plan p1 (nows 3) in
      let limit := available_limit plan cfg (Z.of_nat (length ready)) (running_count p1) in
      let waiting := wn_ID <$> filter (λ n, provider_node n = false) ready in
      if (limit =? 0)%Z then
        (s1, p1, ({| rep_Started := []; rep_Advanced := advanced; rep_Waiting := waiting;
                     rep_Blocked := blocked_nodes [] ready; rep_Terminal := pp_Status p1 ≟ PlanTerminal |}, None))
      else
      match dispatchReady (ex_scheduled repository (sch_LeaseTTL cfg) e) (nows 4) wd s1 plan p1 envelope workItemID
              agentBindingID limit with
      | (s2, p2, (_, Some err)) =>
          (s2, p2, ({| rep_Started := []; rep_Advanced := advanced; rep_Waiting := waiting; rep_Blocked := ∅;
                       rep_Terminal := false |}, Some err))
      | (s2, p2, (started, None)) =>
          (s2, p2, ({| rep_Started := started; rep_Advanced := advanced; rep_Waiting := waiting;
                       rep_Blocked := blocked_nodes started ready; rep_Terminal := pp_Status p2 ≟ PlanTerminal |}, None))
      end
  end.
End executor.
