(* ===== verification/ExecutorSpec.v ===== *)
(** * ExecutorSpec: what the executor's store operations touch

    [frame id s s'] says that an operation left the log and the projection of the
    plan [id] alone; [consistent] that the stored log records the run that led to
    the stored projection.  A committed event extends the log, a failed commit and
    every outbox operation is a frame. *)
From stdpp Require Import base strings gmap list pretty relations.
From Stdlib Require Import ZArith Lia Ascii.
From S2P Require Import Prelude GoLib GoStrings Trace GoValue GoJson ContextModel ContextCompiler OrchModel GraphSearch Validate PredicateSpec GraphSpec Definitions ProjectionData Projection Repair RepairSpec Transition ContextSpec Structural StartSpec RouteSpec FinishSpec ReducerInv Scheduler Events ProviderOutcome Repository Outbox EventChain Machine RepositoryInv RepositoryOps Replay Executor.

Lemma restore_lookup {A} (m m' : gmap string A) k : restore k (m !! k) m' !! k = m !! k.
Proof. unfold restore. destruct (m !! k); [by rewrite lookup_insert_eq|by rewrite lookup_delete_eq]. Qed.

(** ** Keys *)

(** [c] does not occur in [s]. *)
Fixpoint free_of (c : ascii) (s : string) : bool :=
  match s with
  | "" => true
  | String d s' => negb (bool_decide (d = c)) && free_of c s'
  end.

Lemma free_of_app c x a : free_of c (x +:+ String c a) = false.
Proof. induction x as [|d x IH]; [simpl; by rewrite bool_decide_eq_true_2|].
  rewrite append_cons. cbn [free_of]. by rewrite IH, andb_false_r. Qed.

(** The part after the last [c] of a string is determined. *)
Lemma last_part c x y a b :
  free_of c a = true → free_of c b = true → (x +:+ String c a = y +:+ String c b)%string → x = y ∧ a = b.
Proof.
  intros Ha Hb. revert y. induction x as [|d x IH]; intros [|d' y] E; rewrite ?append_cons in E.
  - by injection E.
  - injection E as -> ->. by rewrite free_of_app in Ha.
  - injection E as -> <-. by rewrite free_of_app in Hb.
  - injection E as -> E. by destruct (IH y E) as [-> ->].
Qed.

(** Characters no number is written with. *)
Definition not_numeric (c : ascii) : Prop := c ≠ "-"%char ∧ ∀ d, (d < 10)%N → pretty_N_char d ≠ c.

Lemma pretty_N_go_free c x s : not_numeric c → free_of c s = true → free_of c (pretty_N_go x s) = true.
Proof.
  intros [_ Hc]. revert s. induction (N.lt_wf_0 x) as [x _ IH]; intros s Hs.
  assert (x = 0 ∨ 0 < x)%N as [->|?] by lia; [done|]. rewrite pretty_N_go_step by done.
  apply IH; [by apply N.div_lt|]. simpl. rewrite Hs, andb_true_r. apply negb_true_iff, bool_decide_eq_false.
  apply Hc. by apply N.mod_lt.
Qed.

Lemma pretty_free c (z : Z) : not_numeric c → free_of c (pretty z) = true.
Proof.
  intros Hc. assert (∀ p : positive, free_of c (pretty p) = true) as Hp.
  { intros p. unfold pretty, pretty_positive, pretty, pretty_N. case_decide; [done|]. by apply pretty_N_go_free. }
  destruct Hc as [Hd Hc]. destruct z as [|p|p].
  - simpl. rewrite andb_true_r. apply negb_true_iff, bool_decide_eq_false. by apply (Hc 0%N).
  - apply (Hp p).
  - change (pretty (Z.neg p)) with (String "-" (pretty p)). simpl. rewrite (Hp p), andb_true_r.
    by apply negb_true_iff, bool_decide_eq_false, not_eq_sym.
Qed.

Ltac solve_not_numeric :=
  split; [done|]; intros d Hd;
  assert (d = 0 ∨ d = 1 ∨ d = 2 ∨ d = 3 ∨ d = 4 ∨ d = 5 ∨ d = 6 ∨ d = 7 ∨ d = 8 ∨ d = 9)%N as Hcases by lia;
  naive_solver.
Lemma colon_not_numeric : not_numeric ":".
Proof. solve_not_numeric. Qed.
Lemma b_not_numeric : not_numeric "b".
Proof. solve_not_numeric. Qed.
Lemma f_not_numeric : not_numeric "f".
Proof. solve_not_numeric. Qed.

(** The keys of an attempt: of its start, its binding and its completion. *)
Inductive key_kind := KeyStart | KeyBound | KeyFinished.
Definition kind_suffix (k : key_kind) : string :=
  match k with KeyStart => "" | KeyBound => ":bound" | KeyFinished => ":finished" end.
Definition derived_key (plan : RequirementExecutionPlan) (n : string) (no : Z) (k : key_kind) : string :=
  attempt_key plan n no +:+ kind_suffix k.

(** The keys of the attempts of two nodes never meet. *)
Lemma derived_key_inj plan n no k n' no' k' : derived_key plan n no k = derived_key plan n' no' k' → n = n'.
Proof.
  pose proof colon_not_numeric as Hcol.
  assert (∀ n no, attempt_key plan n no = ((pl_ID plan +:+ ":" +:+ n) +:+ String ":" (pretty no))%string) as Hs.
  { intros. unfold attempt_key. by rewrite append_assoc_str. }
  assert (∀ n no n' no', attempt_key plan n no = attempt_key plan n' no' → n = n') as Hkey.
  { intros m mo m' mo'. rewrite !Hs. intros E. apply last_part in E as [E _]; [|by apply pretty_free..].
    apply (inj (String.append _)) in E. by injection E. }
  assert (∀ m mo x, attempt_key plan m mo ≠ (x +:+ ":bound")%string ∧ attempt_key plan m mo ≠ (x +:+ ":finished")%string) as Hne.
  { intros m mo x. rewrite Hs. split; intros E; apply last_part in E as [_ E]; try done; try by apply pretty_free.
    - pose proof (pretty_free "b" mo b_not_numeric) as Hf. by rewrite E in Hf.
    - pose proof (pretty_free "f" mo f_not_numeric) as Hf. by rewrite E in Hf. }
  assert (∀ x y, (x +:+ ":bound")%string ≠ (y +:+ ":finished")%string) as Hbf.
  { intros x y E. by apply last_part in E as [_ [=]]. }
  assert (∀ x y b, free_of ":" b = true → (x +:+ String ":" b = y +:+ String ":" b)%string → x = y) as Hcut.
  { intros x y b Hb E. by apply last_part in E as [-> _]. }
  unfold derived_key. destruct k, k'; unfold kind_suffix; rewrite ?append_nil_str; intros E;
    first [by apply Hkey in E | by apply Hcut, Hkey in E | by destruct (Hne n no (attempt_key plan n' no'))
          | by destruct (Hne n' no' (attempt_key plan n no)) | by apply Hbf in E | by symmetry in E; apply Hbf in E].
Qed.

Section spec.
Context `{!MapRange, !Sha256, !JsonCompact, !JsonClone, !EnvelopeContract, !SliceSort}.
Context {JM : ∀ T, JsonMarshal T}.

Definition tables (s : Store) : Tables := r_tables (s_repo s).

(** ** Frames *)

Record frame (id : string) (t u : Tables) : Prop := {
  fm_chain : chain_of u id = chain_of t id;
  fm_projection : t_projections u !! id = t_projections t !! id }.
#[export] Instance frame_preorder id : PreOrder (frame id).
Proof.
  split; [by split|]. intros t u v [H1' H2'] [H3' H4']. split; congruence.
Qed.

(** The tables after a write: those written, or what the rollback makes of them. *)
Lemma persist_or_tables rollback io s s' r :
  persist_or rollback io s = (s', r) →
  (r = Ok tt ∧ tables s' = tables s) ∨
  (r ≠ Ok tt ∧ ∃ r', r_tables r' = tables s ∧ tables s' = r_tables (rollback r')).
Proof.
  unfold persist_or. destruct (persistLocked io s) as [s1 r1] eqn:E.
  pose proof (persistLocked_spec io s) as Hp. rewrite E in Hp. simpl in Hp.
  destruct Hp as [_|s1 _ Ht _|s1 e Hr _]; intros [= <- <-]; [left..|right]; [done|done|].
  split; [done|]. exists (s_repo s1). by rewrite Hr.
Qed.

Lemma outbox_frame id m t : frame id t (set_outbox m t).
Proof. done. Qed.

Lemma write_outbox_frame id io s item old : frame id (tables s) (tables (write_outbox io s item old).1).
Proof.
  unfold write_outbox. cbv zeta. destruct (persist_or _ _ _) as [s' r] eqn:E. simpl.
  apply persist_or_tables in E as [[_ ->]|(_ & r' & Ht & ->)]; [done|]. simpl. by rewrite Ht.
Qed.

Lemma AckOutbox_frame id io wall s x owner now err : frame id (tables s) (tables (AckOutbox io wall s x owner now err).1).
Proof.
  unfold AckOutbox. cbv zeta. destruct (held_intent _ _ _ _); [|done].
  destruct (match err with None => _ | _ => _ end). apply write_outbox_frame.
Qed.

Lemma ClaimOutboxByID_frame id io wall s x owner ttl now :
  frame id (tables s) (tables (ClaimOutboxByID io wall s x owner ttl now).1).
Proof.
  unfold ClaimOutboxByID. destruct (blank x); [done|]. destruct (blank owner || _); [done|].
  unfold claimOutboxLocked. destruct (_ !! _) as [o|]; [|done]. destruct (settled o); [done|].
  destruct (leased _ o); [done|]. cbv zeta.
  pose proof (write_outbox_frame id io s) as Hw. match goal with |- context [write_outbox io s ?i ?o] => specialize (Hw i o) end.
  by destruct (write_outbox _ _ _ _) as [s' [?|?]].
Qed.

Lemma EnqueueOutbox_frame id io wall s record : frame id (tables s) (tables (EnqueueOutbox io wall s record).1).
Proof.
  unfold EnqueueOutbox. cbv zeta. destruct (_ || _); [done|]. destruct (find _ _); [by destruct (_ || _)|].
  destruct (persist_or _ _ _) as [s' [[]|e]] eqn:E; simpl; apply persist_or_tables in E as [[? ->]|(? & r' & Ht & ->)]; try done.
  simpl. by rewrite Ht.
Qed.

Lemma claim_intent_frame id e w s record : frame id (tables s) (tables (claim_intent e w s record).1).
Proof.
  unfold claim_intent. destruct (ex_Events e); [|done].
  pose proof (EnqueueOutbox_frame id (w_io w 2) (w_wall w 2) s record) as He.
  destruct (EnqueueOutbox _ _ _ _) as [s1 [[intent fresh]|err]]; [|done]. simpl in He.
  pose proof (ClaimOutboxByID_frame id (w_io w 3) (w_wall w 3) s1 (ob_ID intent) (outbox_owner e) (15 * Minute)%Z (w_wall w 3)) as Hc.
  destruct (ClaimOutboxByID _ _ _ _ _ _ _) as [s2 [?|?]]; simpl in *; by etrans.
Qed.

Lemma ack_frame id e w k s intent err : frame id (tables s) (tables (ack e w k s intent err).1).
Proof. unfold ack. destruct intent; [apply AckOutbox_frame|done]. Qed.

(** ** Commits *)

(** What a successful append did: nothing for a known key, or one event at the
    tail of a chain that validates. *)
Lemma appendEventLocked_Ok r ev r' :
  appendEventLocked r ev = (r', Ok tt) →
  let es := chain_of (r_tables r) (ev_PlanID ev) in
  (r' = r ∧ ∃ old, old ∈ es ∧ ev_IdempotencyKey ev ≠ "" ∧ ev_IdempotencyKey old = ev_IdempotencyKey ev) ∨
  r_tables r' = set_events (<[ev_PlanID ev := es ++ [at_tail es ev]]> (t_events (r_tables r))) (r_tables r) ∧
  ValidateEventChain (es ++ [at_tail es ev]) (ev_PlanID ev) (ev_WorkspaceID ev) = Ok tt.
Proof.
  unfold appendEventLocked. cbv zeta. destruct (t_plans _ !! _) as [plan|]; [|done].
  destruct (_ ≠? _); [done|]. destruct (find _ _) as [old|] eqn:Hf.
  - destruct (ev_PayloadHash old ≟ _); [|done]. intros [= <-]. left. split; [done|]. exists old.
    apply find_some in Hf as [Hin Hk]. apply andb_true_iff in Hk as [Hk1 Hk2]. apply bool_decide_eq_true in Hk2.
    apply negb_true_iff, bool_decide_eq_false in Hk1. by rewrite list_elem_of_In.
  - destruct (at_tail_scope (chain_of (r_tables r) (ev_PlanID ev)) ev) as [Hid Hws].
    set (ev' := at_tail _ ev) in *. do 2 (match goal with |- context [if ?b then (r, Err _) else _] => destruct b end; [done|]).
    rewrite Hid, Hws. destruct (ValidateEventChain _ _ _) as [[]|] eqn:Hv; [|done]. intros [= <-]. right. done.
Qed.

Lemma CommitEventProjection_Ok io s ev p s' :
  CommitEventProjection io s ev p = (s', Ok tt) →
  let id := pp_PlanID p in
  let es := chain_of (tables s) id in
  ev_PlanID ev = id ∧ t_projections (tables s') !! id = Some p ∧
  (chain_of (tables s') id = es ++ [at_tail es ev] ∧
   ValidateEventChain (es ++ [at_tail es ev]) id (ev_WorkspaceID ev) = Ok tt ∨
   ∃ old, old ∈ es ∧ ev_IdempotencyKey ev ≠ "" ∧ ev_IdempotencyKey old = ev_IdempotencyKey ev).
Proof.
  unfold CommitEventProjection. cbv zeta. destruct (rbind _ _) as [[]|] eqn:Hg; [|done].
  apply rbind_reject_Ok in Hg as [Hid _]. apply orb_false_iff in Hid as [_ Hid].
  apply negb_false_iff, bool_decide_eq_true in Hid. rewrite cloneProjection_id.
  destruct (appendEventLocked (s_repo s) ev) as [r' [[]|]] eqn:Ha; [|done].
  intros Hp. apply persist_or_tables in Hp as [[_ Ht]|[Hn _]]; [|done]. unfold tables in *. rewrite Ht. simpl.
  apply appendEventLocked_Ok in Ha. cbv zeta in Ha. rewrite Hid in *.
  split_and!; [done|by rewrite lookup_insert_eq|]. unfold chain_of at 1. simpl.
  destruct Ha as [[_ Hold]|[Ht2 Hv]]; [by right|left]. rewrite Ht2. simpl. by rewrite lookup_insert_eq.
Qed.

Lemma CommitEventProjection_Err io s ev p s' err :
  CommitEventProjection io s ev p = (s', Err err) → frame (pp_PlanID p) (tables s) (tables s').
Proof.
  unfold CommitEventProjection. cbv zeta. destruct (rbind _ _) as [[]|] eqn:Hg; [|by intros [= <- _]].
  apply rbind_reject_Ok in Hg as [Hid _]. apply orb_false_iff in Hid as [_ Hid].
  apply negb_false_iff, bool_decide_eq_true in Hid.
  pose proof (appendEventLocked_spec (s_repo s) ev) as Hs.
  destruct (appendEventLocked (s_repo s) ev) as [r' [[]|]]; simpl in Hs.
  - intros Hp. apply persist_or_tables in Hp as [[? _]|(_ & r2 & Ht & ->)]; [done|]. simpl. rewrite Ht, Hid. split; simpl.
    + unfold chain_of at 1. simpl. by rewrite lookup_insert_eq.
    + apply restore_lookup.
  - inversion Hs; subst. intros [= <- _]. by rewrite with_repo_self.
Qed.

(** ** Creating another plan *)

Lemma set_events_frame id k es t : id ≠ k → frame id t (set_events (<[k:=es]> (t_events t)) t).
Proof. intros Hne. split; [|done]. unfold chain_of. simpl. by rewrite lookup_insert_ne. Qed.

Lemma append_frame id r ev : id ≠ ev_PlanID ev → frame id (r_tables r) (r_tables (appendEventLocked r ev).1).
Proof.
  intros Hne. pose proof (appendEventLocked_spec r ev) as Ha.
  destruct Ha as [err|_ _|e' He _ _]; [done|done|]. rewrite <- He in Hne. by apply set_events_frame.
Qed.

Lemma with_entry_frame id p q t t1 :
  id ≠ pl_ID p → t_projections t1 = t_projections t → t_events t1 = t_events t →
  frame id t (set_projections (<[pl_ID p := q]> (t_projections t1)) (set_plans (<[pl_ID p := p]> (t_plans t1)) t1)).
Proof.
  intros Hne Hp He. split; simpl; [unfold chain_of; simpl; by rewrite He|]. by rewrite lookup_insert_ne, Hp.
Qed.

Lemma forget_plan_frame id p t : id ≠ pl_ID p → frame id t (forget_plan p t).
Proof.
  intros Hne. unfold forget_plan, restore_key. split.
  - by destruct (pl_IdempotencyKey p ≠? "").
  - destruct (pl_IdempotencyKey p ≠? ""); simpl; by rewrite lookup_delete_ne.
Qed.

Lemma CreatePlanWithEvent_frame id io s p event :
  id ≠ pl_ID p → frame id (tables s) (tables (CreatePlanWithEvent io s p event).1).
Proof.
  intros Hne. unfold CreatePlanWithEvent. destruct (rbind _ _) as [projection|] eqn:Hg; [|done].
  apply rbind_Ok in Hg as (q & _ & Hg). apply rbind_reject_Ok in Hg as [Hg _].
  apply orb_false_iff in Hg as [Hg _]. apply orb_false_iff in Hg as [Hid _]. apply negb_false_iff, bool_decide_eq_true in Hid.
  cbv zeta. set (e := default_key p event). assert (ev_PlanID e = pl_ID p) as He by (unfold e; by rewrite default_key_scope).
  destruct (t_plans _ !! _) as [existing|].
  - unfold repair_event. cbv zeta. destruct (_ ≠? _); [done|].
    pose proof (append_frame id (s_repo s) e) as Ha. destruct (appendEventLocked (s_repo s) e) as [r' [[]|err]]; [|].
    + destruct (persist_or _ _ _) as [s' r] eqn:E. simpl in *. rewrite He in Ha.
      apply persist_or_tables in E as [[_ ->]|(_ & r2 & Ht & ->)]; [by apply Ha|].
      etrans; [by apply Ha|]. simpl. rewrite Ht. simpl. by apply set_events_frame.
    + simpl in *. apply Ha. by rewrite He.
  - destruct (_ && _ && _); [done|].
    set (t1 := if _ : bool then _ else _). set (t2 := set_projections _ _).
    assert (frame id (tables s) t2) as H2'.
    { apply with_entry_frame; [done| |]; unfold t1; by destruct (pl_IdempotencyKey p ≠? ""). }
    pose proof (append_frame id (with_tables t2 (s_repo s)) e) as Ha. rewrite He in Ha. specialize (Ha Hne).
    destruct (appendEventLocked _ e) as [r' [[]|err]]; simpl in Ha.
    + destruct (persist_or _ _ _) as [s' r] eqn:E. simpl.
      apply persist_or_tables in E as [[_ ->]|(_ & r2 & Ht & ->)]; [by etrans|].
      simpl. etrans; [by etrans|]. rewrite Ht. simpl. etrans; [|by apply forget_plan_frame].
      split; [|done]. unfold chain_of. simpl. by rewrite lookup_delete_ne.
    + simpl. etrans; [by etrans|]. by apply forget_plan_frame.
Qed.

Lemma ensureNestedSquadPlan_frame e w k s parent node a squad :
  frame (pl_ID parent) (tables s) (tables (ensureNestedSquadPlan e w k s parent node a squad).1).
Proof.
  unfold ensureNestedSquadPlan. destruct (ex_Repository e); [|done]. simpl negb. cbv iota zeta.
  destruct (GetPlan _ _ _); [done|]. destruct (Freeze _) as [frozen [?|?]] eqn:Hf; [|done].
  destruct (NewEventWithContext _ _ _ _ _ _ _ _ _) as [event|]; [|done].
  assert (pl_ID frozen = pl_ID (child_plan parent a squad (w_now w))) as Hid.
  { revert Hf. unfold Freeze. cbv zeta. destruct (rbind _ _); by intros [= <- _]. }
  assert (pl_ID parent ≠ pl_ID frozen) as Hne.
  { rewrite Hid. by apply append_ne. }
  pose proof (CreatePlanWithEvent_frame (pl_ID parent) (w_io w k) s frozen event Hne) as Hc.
  by destruct (CreatePlanWithEvent _ _ _ _) as [s' [?|?]].
Qed.

Lemma ensureNestedSquadPlan_child e w k s parent node a squad child :
  (ensureNestedSquadPlan e w k s parent node a squad).2 = Ok child → child ≠ "".
Proof.
  assert (pl_ID (child_plan parent a squad (w_now w)) ≠ "") as Hne by (simpl; by destruct (pl_ID parent)).
  unfold ensureNestedSquadPlan. destruct (negb _); [done|]. cbv zeta.
  destruct (GetPlan _ _ _) as [x|]; [destruct (own_child _ _ x); by intros [= <-]|].
  destruct (Freeze _) as [frozen [?|?]]; [|done]. destruct (NewEventWithContext _ _ _ _ _ _ _ _ _); [|done].
  destruct (CreatePlanWithEvent _ _ _ _) as [s' [?|?]]; [by intros [= <-]|].
  destruct (GetPlan _ _ _) as [x|]; [|done]. destruct (own_child _ _ x); by intros [= <-].
Qed.

(** ** The log and the projection agree *)

Context `{!JsonUnmarshal StartedPayload, !JsonUnmarshal BoundPayload, !JsonUnmarshal FinishedPayload,
          !JsonUnmarshal RetryPayload}.

(** The stored projection of the plan is [p], and the stored log is a valid chain
    that records a run of the reducer from the empty projection to [p]. *)
Definition consistent (plan : RequirementExecutionPlan) (s : Store) (p : PlanProjection) : Prop :=
  t_projections (tables s) !! pl_ID plan = Some p ∧
  ValidateEventChain (chain_of (tables s) (pl_ID plan)) (pl_ID plan) (pl_WorkspaceID plan) = Ok tt ∧
  ∃ p0, NewProjection plan = Ok p0 ∧ logged plan p0 (chain_of (tables s) (pl_ID plan)) p.

Lemma consistent_frame plan s s' p : frame (pl_ID plan) (tables s) (tables s') → consistent plan s p → consistent plan s' p.
Proof. intros [Hc Hp]. unfold consistent. by rewrite Hc, Hp. Qed.

Lemma logged_snoc plan p es q e r : logged plan p es q → recorded plan q e r → logged plan p (es ++ [e]) r.
Proof. induction 1; intros Hr; simpl; econstructor; eauto using logged_nil. Qed.

Lemma logged_reachable plan p es q : reachable plan p → logged plan p es q → reachable plan q.
Proof.
  intros Hp Hl. induction Hl as [|p e q es r Hr Hl IH]; [done|]. apply IH. eapply reachable_rtc; [done|].
  eapply recorded_steps; [by apply reachable_inv|done].
Qed.

Lemma consistent_inv plan s p : consistent plan s p → reducer_inv plan p.
Proof.
  intros (_ & _ & p0 & Hn & Hl). apply reachable_inv. eapply logged_reachable; [|done]. by constructor.
Qed.

(** A consistent store replays to its projection. *)
Lemma consistent_replays wall plan s p :
  consistent plan s p →
  t_projections (tables s) !! pl_ID plan = Some p ∧
  ReplayProjection wall plan (chain_of (tables s) (pl_ID plan)) = Ok p.
Proof.
  intros (Hp & Hc & p0 & Hn & Hl). split; [done|]. unfold ReplayProjection. rewrite Hn. cbn [rbind]. rewrite Hc. cbn [rbind].
  apply replay_logged; [by constructor|done].
Qed.

(** Placing an event at the tail keeps what it records. *)
Lemma recorded_at_tail plan p es e q : recorded plan p e q → recorded plan p (at_tail es e) q.
Proof.
  unfold at_tail. cbv zeta. destruct (_ || _); [|done].
  set (e' := reseal _). intros Hr. destruct Hr.
  - by apply rec_plan.
  - by eapply (rec_started plan wall p e').
  - by eapply (rec_bound plan p e').
  - by eapply (rec_finished plan wall p e').
  - by eapply (rec_retry plan p e').
Qed.

Definition key_unused (plan : RequirementExecutionPlan) (s : Store) (key : string) : Prop :=
  ∀ ev, ev ∈ chain_of (tables s) (pl_ID plan) → ev_IdempotencyKey ev ≠ key.

Lemma key_unused_frame plan s s' key : frame (pl_ID plan) (tables s) (tables s') → key_unused plan s key → key_unused plan s' key.
Proof. intros [Hc _]. unfold key_unused. by rewrite Hc. Qed.

(** Committing the event of an operation keeps the store consistent; a refused
    commit leaves it as it was. *)
Lemma consistent_commit plan io s ev p q s' r :
  consistent plan s p → recorded plan p ev q → ev_WorkspaceID ev = pl_WorkspaceID plan →
  key_unused plan s (ev_IdempotencyKey ev) → CommitEventProjection io s ev q = (s', r) →
  match r with
  | Ok _ => consistent plan s' q ∧ chain_of (tables s') (pl_ID plan)
              = chain_of (tables s) (pl_ID plan) ++ [at_tail (chain_of (tables s) (pl_ID plan)) ev]
  | Err _ => frame (pl_ID plan) (tables s) (tables s')
  end.
Proof.
  intros (Hp & Hv & p0 & Hn & Hl) Hr Hws Hk Hc.
  assert (logged plan p0 (chain_of (tables s) (pl_ID plan) ++ [ev]) q) as Hq by by eapply logged_snoc.
  apply logged_reachable, reachable_inv, ri_plan in Hq; [|by constructor]. destruct r as [[]|err].
  - apply CommitEventProjection_Ok in Hc. cbv zeta in Hc. rewrite Hq in Hc.
    destruct Hc as (Hid & Hp' & [[Hch Hv']|(old & Hin & _ & Heq)]).
    + split; [|done]. split; [done|]. rewrite Hch. rewrite Hws in Hv'. split; [done|]. exists p0. split; [done|].
      eapply logged_snoc; [done|]. by apply recorded_at_tail.
    + by destruct (Hk old Hin).
  - apply CommitEventProjection_Err in Hc. by rewrite Hq in Hc.
Qed.

(** The event a caller builds. *)
Lemma NewEventWithContext_Ok {T} `{!JsonMarshal T} id wall ctx previous planID ws typ key (payload : T) ev :
  NewEventWithContext id wall ctx previous planID ws typ key payload = Ok ev →
  ev_PlanID ev = planID ∧ ev_WorkspaceID ev = ws ∧ ev_Type ev = typ ∧ ev_IdempotencyKey ev = key ∧
  json_marshal payload = Some (ev_Payload ev).
Proof.
  unfold NewEventWithContext. rewrite rbind_reject_Ok. intros [_ Hev]. destruct (json_marshal payload) as [b|]; [|done].
  destruct (Carrier ctx). injection Hev as <-. by destruct previous.
Qed.

(** Building the event of an operation and committing it with its projection. *)
Lemma consistent_event {T} `{!JsonMarshal T} {seal} plan io id wall ctx previous s p q typ key (payload : T) ev s' r :
  consistent plan s p → key_unused plan s key →
  (∀ ev, ev_PlanID ev = pl_ID plan → ev_WorkspaceID ev = pl_WorkspaceID plan → ev_Type ev = typ →
     ev_IdempotencyKey ev = key → json_marshal payload = Some (ev_Payload ev) →
     recorded plan p (seal ev) q ∧ ev_WorkspaceID (seal ev) = ev_WorkspaceID ev ∧
     ev_IdempotencyKey (seal ev) = ev_IdempotencyKey ev) →
  NewEventWithContext id wall ctx previous (pl_ID plan) (pl_WorkspaceID plan) typ key payload = Ok ev →
  CommitEventProjection io s (seal ev) q = (s', r) →
  match r with
  | Ok _ => consistent plan s' q ∧ ∀ key', key' ≠ key → key_unused plan s key' → key_unused plan s' key'
  | Err _ => frame (pl_ID plan) (tables s) (tables s')
  end.
Proof.
  intros Hcon Hk Hseal Hev Hc. apply NewEventWithContext_Ok in Hev as (E1 & E2 & E3 & E4 & E5).
  destruct (Hseal ev) as (Hr & Hw & Hkey); [done..|].
  eapply consistent_commit in Hc; [|done|done|by rewrite Hw|by rewrite Hkey, E4].
  destruct r as [[]|err]; [|done]. destruct Hc as [Hc Hch]. split; [done|].
  intros key' Hne Hu ev' Hin. rewrite Hch in Hin. apply elem_of_app in Hin as [Hin|Hin]; [by apply Hu|].
  apply list_elem_of_singleton in Hin as ->.
  assert (ev_IdempotencyKey (at_tail (chain_of (tables s) (pl_ID plan)) (seal ev)) = key) as ->; [|done].
  rewrite <- E4, <- Hkey. unfold at_tail. cbv zeta. by destruct (_ || _).
Qed.

(** Recording an operation with [record_event] or [commitAttemptEvent]. *)
Lemma consistent_record {T} `{!JsonMarshal T} plan e saves w k s p q label typ key (payload : T) seal s' r :
  ex_Events e = true → consistent plan s p → key_unused plan s key →
  (∀ ev, ev_PlanID ev = pl_ID plan → ev_WorkspaceID ev = pl_WorkspaceID plan → ev_Type ev = typ →
     ev_IdempotencyKey ev = key → json_marshal payload = Some (ev_Payload ev) →
     recorded plan p (seal ev) q ∧ ev_WorkspaceID (seal ev) = ev_WorkspaceID ev ∧
     ev_IdempotencyKey (seal ev) = ev_IdempotencyKey ev) →
  record_event e saves w k s plan q label typ key payload seal = (s', r) →
  match r with
  | Ok _ => consistent plan s' q ∧ ∀ key', key' ≠ key → key_unused plan s key' → key_unused plan s' key'
  | Err _ => frame (pl_ID plan) (tables s) (tables s')
  end.
Proof.
  intros He Hcon Hk Hseal. unfold record_event. rewrite He.
  destruct (NewEventWithContext _ _ _ _ _ _ _ _ _) as [ev|] eqn:Hev; [|by intros [= <- <-]].
  destruct (CommitEventProjection _ _ _ _) as [s1 r1] eqn:Hc. eapply consistent_event in Hc; [|done..].
  by destruct r1 as [[]|err]; intros [= <- <-].
Qed.

Lemma consistent_attempt_event {T} `{!JsonMarshal T} plan e w k s p q a typ key (payload : T) fencing s' r :
  ex_Events e = true → consistent plan s p → key_unused plan s key →
  (∀ ev, ev_Type ev = typ → ev_IdempotencyKey ev = key → json_marshal payload = Some (ev_Payload ev) →
     recorded plan p (reseal (ev_scoped (na_NodeID a) (na_ID a) (default (ls_FencingToken (na_Lease a)) fencing) ev)) q) →
  commitAttemptEvent e w k s plan q a typ key payload fencing = (s', r) →
  match r with
  | Ok _ => consistent plan s' q ∧ ∀ key', key' ≠ key → key_unused plan s key' → key_unused plan s' key'
  | Err _ => frame (pl_ID plan) (tables s) (tables s')
  end.
Proof.
  intros He Hcon Hk Hseal. unfold commitAttemptEvent. rewrite He. cbn [negb].
  destruct (NewEventWithContext _ _ _ _ _ _ _ _ _) as [ev|] eqn:Hev; [|by intros [= <- <-]]. cbv zeta. intros Hc.
  eapply (consistent_event (seal := λ ev, reseal (ev_scoped (na_NodeID a) (na_ID a)
    (default (ls_FencingToken (na_Lease a)) fencing) ev))) in Hc; [done|done|done| |done]. intros ev' _ _ Ht Hk' Hj. split_and!; [by apply Hseal|done|done].
Qed.
End spec.
