(* ===== verification/ExecutorProps.v ===== *)
(** * ExecutorProps: the executor's log replays to its projection

    After a completion or a dispatch of the executor the stored log records the
    run that led to the stored projection, whatever the provider, the store or the
    outbox answered; and a tick starts no more attempts than there are permits. *)
From stdpp Require Import base strings gmap list pretty relations.
From Stdlib Require Import ZArith Lia.
From S2P Require Import Prelude GoLib GoStrings Trace GoValue GoJson ContextModel ContextCompiler OrchModel GraphSearch Validate PredicateSpec GraphSpec Definitions ProjectionData Projection Repair RepairSpec Transition ContextSpec Structural Samples ContextCompilerProps StartSpec RouteSpec FinishSpec ReducerInv Scheduler Events ProviderOutcome ProviderOutcomeProps Repository Outbox EventChain Machine RepositoryInv RepositoryOps RepositoryProps Replay SchedulerProps Executor ExecutorSpec.

(** [json.Unmarshal] reads back what [json.Marshal] wrote for a payload type. *)
Definition decodes (T : Type) `{!JsonMarshal T, !JsonUnmarshal T} : Prop :=
  ∀ (x : T) b, json_marshal x = Some b → json_unmarshal b = Ok x.

(** A completion has fields of type [any], and those are read back as the types
    encoding/json stores there: a Go integer comes back a float64, a [[]string] a
    [[]any].  What is read back as it was written is a completion whose fields
    already hold such values. *)
Definition json_result (r : StructuredResult) : Prop := map_Forall (λ _ v, json_value v = true) (res_Fields r).
Definition completions_decode `{!JsonMarshal FinishedPayload, !JsonUnmarshal FinishedPayload} : Prop :=
  ∀ (x : FinishedPayload) b, json_result (fp_Result x) → json_marshal x = Some b → json_unmarshal b = Ok x.

Section props.
Context `{!MapRange, !Sha256, !JsonCompact, !JsonClone, !EnvelopeContract, !SliceSort}.
Context {JM : ∀ T, JsonMarshal T}.
Context {JMs : JsonMarshal StartedPayload} {JMb : JsonMarshal BoundPayload} {JMf : JsonMarshal FinishedPayload}.
Context `{!JsonUnmarshal StartedPayload, !JsonUnmarshal BoundPayload, !JsonUnmarshal FinishedPayload,
          !JsonUnmarshal RetryPayload}.
Context (plan : RequirementExecutionPlan) (e : Executor).
Context (Hevents : ex_Events e = true).

(** ** Completions *)

(** The key of a completion's event, for the stored attempt [a]. *)
Definition finished_key (input : TransitionInput) (a : NodeAttempt) : string :=
  (if ti_IdempotencyKey input ≟ "" then na_IdempotencyKey a else ti_IdempotencyKey input) +:+ ":finished".

Lemma finish_consistent (Hdec : completions_decode) w k s p attemptID input s' p' r :
  consistent plan s p → w_now w ≠ 0%Z → ti_PlanRevision input = pl_Revision plan → ti_PayloadHash input = "" →
  json_result (ti_Result input) → (∀ a, pp_Attempts p !! attemptID = Some a → key_unused plan s (finished_key input a)) →
  Exec_FinishAttempt e w k s plan p attemptID input = (s', p', r) →
  match r with
  | Ok _ => consistent plan s' p' ∧ (∀ id, id ≠ attemptID → pp_Attempts p' !! id = pp_Attempts p !! id) ∧
            ∃ a, pp_Attempts p !! attemptID = Some a ∧
                 ∀ key, key ≠ finished_key input a → key_unused plan s key → key_unused plan s' key
  | Err _ => consistent plan s' p ∧ frame (pl_ID plan) (tables s) (tables s')
  end.
Proof.
  intros Hcon Hnow Hrev Hph Hjson Hkey. unfold Exec_FinishAttempt. cbv zeta. set (i := ti_set_Now _ input).
  assert (ti_Now i ≠ 0%Z) as Hi.
  { unfold i. simpl. unfold orNow, IsZero. by destruct (Z.eqb_spec (ti_Now input) 0). }
  pose proof (FinishAttempt_attempts plan (w_wall w k) p attemptID i) as Ha. cbv zeta in Ha.
  destruct (FinishAttempt _ _ _ _ _) as [p1 [a|err]] eqn:Hf; [|by intros [= <- <- <-]].
  assert (∃ b, pp_Attempts p !! attemptID = Some b ∧ finish_key i a = finished_key input b ∧
               ∀ id, id ≠ attemptID → pp_Attempts p1 !! id = pp_Attempts p !! id) as (b & Hb & Hfk & Hoth).
  { simpl in Ha. destruct Ha as [Ha [Heq|(b & Hb & _ & Hfa & Heq)]].
    - exists a. rewrite <- Heq. done.
    - exists b. split_and!; [done| |].
      + unfold finish_key, finished_key. change (ti_IdempotencyKey i) with (ti_IdempotencyKey input). by rewrite (fa_key _ _ Hfa).
      + intros id Hid. rewrite Heq. by apply lookup_insert_ne. }
  rewrite Hevents. destruct (NewEventWithContext _ _ _ _ _ _ _ _ _) as [ev|] eqn:Hev; [|by intros [= <- <- <-]].
  destruct (CommitEventProjection _ _ _ _) as [s1 r1] eqn:Hc.
  eapply (consistent_event (seal := ev_fenced (ti_LeaseToken i))) in Hc; [|exact Hcon| | |exact Hev].
  - destruct r1 as [[]|err]; intros [= <- <- <-].
    + destruct Hc as [Hc Hu]. split_and!; [done|done|]. exists b. rewrite <- Hfk. done.
    + split; [by eapply consistent_frame|done].
  - rewrite Hfk. by apply Hkey.
  - intros ev' _ _ Ht Hk' Hj. split_and!; [|done|done].
    eapply rec_finished; [exact Ht|reflexivity|exact Hrev|exact Hph|exact Hi|exact Hf|]. by apply Hdec in Hj.
Qed.

Lemma Exec_FinishAttempt_stored w k s p attemptID input s' p' a :
  Exec_FinishAttempt e w k s plan p attemptID input = (s', p', Ok a) → pp_Attempts p' !! attemptID = Some a.
Proof.
  unfold Exec_FinishAttempt. cbv zeta. set (i := ti_set_Now _ input).
  pose proof (FinishAttempt_attempts plan (w_wall w k) p attemptID i) as Ha. cbv zeta in Ha.
  destruct (FinishAttempt _ _ _ _ _) as [p1 [b|err]]; [|done]. destruct Ha as [Ha _].
  rewrite Hevents. destruct (NewEventWithContext _ _ _ _ _ _ _ _ _); [|done].
  destruct (CommitEventProjection _ _ _ _) as [s1 [?|?]]; [|done]. by intros [= <- <- <-].
Qed.

(** a completion leaves a log that replays to the projection it stores.  When
    the executor completes an attempt, the reducer's result and its event are
    stored together and the log replays to exactly the projection returned; when it
    fails, neither the log nor the stored projection has changed, and the log still
    replays to it. *)
Theorem finish_replays (Hdec : completions_decode) w k s p attemptID input :
  consistent plan s p → w_now w ≠ 0%Z → ti_PlanRevision input = pl_Revision plan → ti_PayloadHash input = "" →
  json_result (ti_Result input) → (∀ a, pp_Attempts p !! attemptID = Some a → key_unused plan s (finished_key input a)) →
  let '(s', p', r) := Exec_FinishAttempt e w k s plan p attemptID input in
  let log := chain_of (tables s') (pl_ID plan) in
  match r with
  | Ok a => pp_Attempts p' !! attemptID = Some a ∧ t_projections (tables s') !! pl_ID plan = Some p' ∧
            ∀ wall, ReplayProjection wall plan log = Ok p'
  | Err _ => log = chain_of (tables s) (pl_ID plan) ∧ t_projections (tables s') !! pl_ID plan = Some p ∧
             ∀ wall, ReplayProjection wall plan log = Ok p
  end.
Proof.
  intros Hcon Hnow Hrev Hph Hjson Hkey. destruct (Exec_FinishAttempt _ _ _ _ _ _ _ _) as [[s' p'] r] eqn:Hf. cbv zeta.
  pose proof (finish_consistent Hdec w k s p attemptID input s' p' r Hcon Hnow Hrev Hph Hjson Hkey Hf) as Hc.
  destruct r as [a|err].
  - destruct Hc as [Hc _]. split; [by eapply Exec_FinishAttempt_stored|]. split; [apply Hc|]. intros wall.
    by apply consistent_replays.
  - destruct Hc as [Hc [Hch Hpr]]. split; [done|]. split; [apply Hc|]. intros wall. by apply consistent_replays.
Qed.

(** ** Dispatches *)

(** What a dispatch of [node] under the attempt [id] and the key [key] leaves of
    the rest of the projection. *)
Record others_kept (node id key : string) (p q : PlanProjection) : Prop := {
  ok_nodes : ∀ k, k ≠ node → pp_Nodes q !! k = pp_Nodes p !! k;
  ok_attempts : ∀ k, k ≠ id → pp_Attempts q !! k = pp_Attempts p !! k;
  ok_keys : ∀ k, k ≠ key → pp_Idempotency q !! k = pp_Idempotency p !! k }.

Lemma others_kept_put node id key p q a : others_kept node id key p q → others_kept node id key p (put_attempt id a q).
Proof.
  intros [K1 K2 K3]. split; simpl; [done| |done]. intros k Hk. rewrite lookup_insert_ne by done. by apply K2.
Qed.

(** A start under a new key and a new id creates a running attempt. *)
Lemma StartAttempt_new wall p nodeID attemptID no lease env i q a :
  pp_Idempotency p !! ti_IdempotencyKey i = None → pp_Attempts p !! attemptID = None →
  StartAttempt wall p plan nodeID attemptID no lease env i = (q, Ok a) →
  na_ID a = attemptID ∧ na_Status a = AttemptRunning ∧ na_IdempotencyKey a = ti_IdempotencyKey i ∧
  pp_Attempts q !! na_ID a = Some a ∧ na_ChildPlanID a = "" ∧ others_kept nodeID attemptID (ti_IdempotencyKey i) p q.
Proof.
  intros Hk Ha Hs. pose proof (StartAttempt_cases wall p plan nodeID attemptID no lease env i) as Hc. cbv zeta in Hc.
  destruct (startGuards _ _ _ _ _ _ _ _ _) as [[old|n no']|err] eqn:Hg; rewrite Hs in Hc; [exfalso| |done].
  - revert Hg. unfold startGuards. rewrite rbind_any_Ok. intros [_ Hg].
    assert (startReplay p i = Ok None) as Hr by (unfold startReplay; rewrite Hk; by destruct (_ ≟ _)).
    rewrite Hr in Hg. cbn [rbind] in Hg. destruct (pp_Nodes p !! nodeID) as [n|]; [|done].
    apply rbind_any_Ok in Hg as [_ Hg]. apply rbind_Ok in Hg as ([x|] & Hx & Hg); [|done].
    apply startAttemptGuards_existing in Hx as [Hx _]. congruence.
  - destruct Hc as (b & m & Hb & _ & E). injection E as -> ->.
    assert (na_ID b = attemptID ∧ na_Status b = AttemptRunning ∧ na_IdempotencyKey b = ti_IdempotencyKey i ∧
            na_ChildPlanID b = "") as (B1 & B2 & B3 & B4).
    { rewrite Hb. unfold new_attempt. cbv zeta.
      destruct (repairPlanForDispatch _ _ _) as [[id st]|]; [destruct (id ≠? "")|]; done. }
    simpl. rewrite lookup_insert_eq. split_and!; try done. split; simpl; intros k Hne.
    + by rewrite lookup_insert_ne.
    + rewrite B1. by rewrite lookup_insert_ne.
    + destruct (_ ≠? ""); [by rewrite lookup_insert_ne|done].
Qed.

Definition next_number (p : PlanProjection) (node : WorkflowNode) : Z := add64 (np_AttemptNo (node_at p (wn_ID node))) 1.

(** What a dispatch assumes of its world: the clock is set, the attempt id and the
    keys it derives are new, providers answer with complete bindings. *)
Record new_dispatch (w : World) (s : Store) (p : PlanProjection) (node : WorkflowNode) : Prop := {
  nd_now : w_now w ≠ 0%Z;
  nd_node : wn_ID node ≠ "";
  nd_number : (1 ≤ next_number p node)%Z;
  nd_id : pp_Attempts p !! w_id w = None;
  nd_key : pp_Idempotency p !! attempt_key plan (wn_ID node) (next_number p node) = None;
  nd_log : ∀ kind, key_unused plan s (derived_key plan (wn_ID node) (next_number p node) kind) }.

Definition complete_binding (outcome : RunBinding + ProviderError) : Prop :=
  match outcome with
  | inl b => rb_ID b ≠ "" ∧ rb_SessionID b ≠ "" ∧ rb_WorkDir b ≠ ""
  | inr _ => True
  end.

(** Every provider the executor can reach answers so. *)
Definition complete_providers : Prop :=
  (∀ pr w cmd, ex_Provider e = Some pr → complete_binding (pr_StartRun pr w cmd)) ∧
  (∀ resolver agent pr w cmd, ex_ProviderResolver e = Some resolver → resolver agent = Ok (Some pr) →
     complete_binding (pr_StartRun pr w cmd)).

Lemma resolve_run_complete s node rv binding binding' instructions run w cmd :
  complete_providers → resolve_run e s plan node rv binding = Ok (binding', instructions, run) →
  complete_binding (pr_StartRun run w cmd).
Proof.
  intros [H1' H2'] Hr. unfold resolve_run in Hr. cbv zeta in Hr.
  apply rbind_Ok in Hr as ([[b i] agent] & _ & Hr). apply rbind_Ok in Hr as (pr & Hp & Hr).
  destruct pr as [pr|]; [|done]. apply rbind_any_Ok in Hr as [_ Hr]. injection Hr as _ _ ->.
  destruct agent as [agent|]; [destruct (ex_ProviderResolver e) as [resolver|] eqn:E|].
  - apply wrap_err_Ok in Hp. eauto.
  - injection Hp as Hp. eauto.
  - injection Hp as Hp. eauto.
Qed.

(** On every outcome the log replays to the stored projection, and on success
    that is the projection the caller holds, which differs from [p] only at the
    dispatched node. *)
Definition settled_store (node id key : string) (s : Store) (p : PlanProjection)
    (out : Store * PlanProjection * result NodeAttempt) : Prop :=
  match out with
  | (s', p', Ok _) =>
      consistent plan s' p' ∧ others_kept node id key p p' ∧
      ∀ k, k ≠ key → k ≠ key +:+ ":bound" → key_unused plan s k → key_unused plan s' k
  | (s', _, Err _) => ∃ q, consistent plan s' q
  end.

Lemma dispatch_run_settled saves w s p a lease key intent outcome :
  decodes BoundPayload → completions_decode → consistent plan s p → w_now w ≠ 0%Z →
  pp_Attempts p !! na_ID a = Some a → na_Status a = AttemptRunning → na_IdempotencyKey a = key →
  key_unused plan s (key +:+ ":bound") → key_unused plan s (key +:+ ":finished") → complete_binding outcome →
  let '(s', p', r) := dispatch_run e saves w s plan p a lease key intent outcome in
  match r with
  | Ok _ => consistent plan s' p' ∧ (∃ b, p' = put_attempt (na_ID a) b p) ∧
            ∀ k, k ≠ key +:+ ":bound" → key_unused plan s k → key_unused plan s' k
  | Err _ => ∃ q, consistent plan s' q
  end.
Proof.
  intros Hdb Hdf Hcon Hnow Ha Hrun Hkey Hub Huf Hb. unfold dispatch_run. destruct outcome as [b|err].
  - rewrite Ha. cbv zeta. change (default a (Some a)) with a.
    match goal with |- context [record_event e saves w 4 s plan ?q ?l ?t ?k ?y ?f] =>
      destruct (record_event e saves w 4 s plan q l t k y f) as [s1 r1] eqn:Hr end.
    eapply (consistent_record plan e saves w 4 s p) in Hr; [|done|done|done|].
    + destruct r1 as [[]|err]; [|exists p; by eapply consistent_frame]. destruct Hr as [Hc Hu].
      pose proof (ack_frame (pl_ID plan) e w 5 s1 intent None) as Hack.
      destruct (ack e w 5 s1 intent None) as [s2 [?|?]]; simpl in *; [|eexists; by eapply consistent_frame].
      split_and!; [by eapply consistent_frame|by eexists|]. intros k Hk1 Hk2. eapply key_unused_frame; [done|]. by apply Hu.
    + intros ev _ Hws Ht Hk Hj. split_and!; [|done|done]. destruct Hb as (B1 & B2 & B3).
      apply (rec_bound plan p _ a (rb_ID b) (rb_SessionID b) (rb_WorkDir b)); try done. by apply Hdb in Hj.
  - destruct (Exec_FinishAttempt _ _ _ _ _ _ _ _) as [[s1 p1] r1] eqn:Hf.
    eapply finish_consistent in Hf; [|done|done|done|done|done|apply map_Forall_empty|].
    + destruct r1 as [f|err']; simpl; [|exists p; by destruct Hf]. destruct Hf as [Hf _]. exists p1.
      eapply consistent_frame; [apply ack_frame|done].
    + unfold finished_key. simpl. intros a' Ha'. assert (a' = a) as -> by congruence. by rewrite Hkey.
Qed.

(** The nested plan of a squad node, if any, and its frame. *)
Definition nested_plan (w : World) (s : Store) (node : WorkflowNode) (a : NodeAttempt) (squad : option SquadDefinition)
    : Store * result (option string) :=
  match squad with
  | None => (s, Ok None)
  | Some squad =>
      match ensureNestedSquadPlan e w 0 s plan node a squad with
      | (s1, Ok child) => (s1, Ok (Some child))
      | (s1, Err err) => (s1, Err err)
      end
  end.

Lemma nested_plan_spec w s node a squad :
  frame (pl_ID plan) (tables s) (tables (nested_plan w s node a squad).1) ∧
  ∀ child, (nested_plan w s node a squad).2 = Ok (Some child) → child ≠ "".
Proof.
  unfold nested_plan. destruct squad as [squad|]; [|done].
  pose proof (ensureNestedSquadPlan_frame e w 0 s plan node a squad) as Hf.
  pose proof (ensureNestedSquadPlan_child e w 0 s plan node a squad) as Hc.
  destruct (ensureNestedSquadPlan _ _ _ _ _ _ _ _) as [s1 [c|?]]; simpl in *; [|done].
  split; [done|]. intros child [= <-]. by apply Hc.
Qed.

(** One dispatch: the nested plan, attempt.started, the outbox intent, the provider
    call, and attempt.bound or the completion of a run that could not be started. *)
Lemma dispatch_node_settled saves w s p envelope workItemID agentBindingID node :
  decodes StartedPayload → decodes BoundPayload → completions_decode →
  consistent plan s p → new_dispatch w s p node →
  complete_providers →
  settled_store (wn_ID node) (w_id w) (attempt_key plan (wn_ID node) (next_number p node))
    s p (dispatch_node e saves w s plan p envelope workItemID agentBindingID node).
Proof.
  intros Hds Hdb Hdf Hcon [Hnow Hnode Hno Hid Hk Hlog] Hrun. unfold dispatch_node. cbv zeta.
  pose proof (Hlog KeyBound) as Hub. pose proof (Hlog KeyFinished) as Huf.
  pose proof (Hlog KeyStart) as Hu. unfold derived_key in Hu, Hub, Huf. cbn [kind_suffix] in Hu, Hub, Huf.
  rewrite append_nil_str in Hu.
  destruct (rbind _ _) as [[rv env]|err]; [|by exists p].
  change (add64 _ 1) with (next_number p node) in *. set (no := next_number p node) in *. set (key := attempt_key plan (wn_ID node) no) in *.
  set (lease := dispatch_lease _ _ _ _). set (hash := sha256_hex _).
  destruct (StartAttempt _ _ _ _ _ _ _ _ _) as [p1 [a|err]] eqn:Hs; [|by exists p].
  destruct (StartAttempt_new _ p _ _ _ _ _ (start_input plan lease key hash (w_now w)) _ _ Hk Hid Hs) as (Haid & Hr & Hak & Ha & Hch & Hoth).
  simpl in Hak, Hoth.
  change (match rv_squad rv with None => _ | Some _ => _ end) with (nested_plan w s node a (rv_squad rv)).
  destruct (nested_plan_spec w s node a (rv_squad rv)) as [Hf Hc].
  destruct (nested_plan w s node a (rv_squad rv)) as [s1 [child|err]]; simpl in Hf, Hc;
    [|exists p; by eapply consistent_frame].
  pose proof (consistent_frame _ _ _ _ Hf Hcon) as Hcon1.
  set (a1 := match child with Some c => na_set_ChildPlanID c a | None => a end).
  set (p2 := match child with Some _ => _ | None => p1 end).
  assert (p2 = with_child (na_ChildPlanID a1) a p1 ∧ na_ID a1 = na_ID a ∧ pp_Attempts p2 !! na_ID a1 = Some a1 ∧
          na_Status a1 = AttemptRunning ∧ na_IdempotencyKey a1 = key ∧ na_AttemptNo a1 = na_AttemptNo a ∧
          others_kept (wn_ID node) (w_id w) key p p2) as (Hp2 & Hid1 & Ha1 & Hr1 & Hk1 & Hn1 & Hoth2).
  { unfold a1, p2, with_child. destruct child as [c|]; simpl.
    - rewrite bool_decide_eq_false_2 by by apply Hc. simpl. rewrite lookup_insert_eq. split_and!; try done. rewrite Haid. by apply others_kept_put.
    - by rewrite Hch. }
  match goal with |- settled_store _ _ _ _ _ (match ?x with _ => _ end) => destruct x as [s2 r2] eqn:Hrec end.
  eapply (consistent_record plan e saves w 1 s1 p) in Hrec; [|done|done|by eapply key_unused_frame|].
  2: { intros ev _ Hws Ht Hkey Hj. split_and!; [|done|done]. rewrite Hp2.
       eapply (rec_started plan (w_wall w 0) p _ (wn_ID node) (w_id w) no lease env key hash (w_now w)); try done.
       - right. done.
       - apply Hds in Hj. unfold started_payload in Hj. by rewrite Hid1, Hn1 in Hj. }
  destruct r2 as [[]|err]; [|exists p; by eapply consistent_frame]. destruct Hrec as [Hcon2 Hu2].
  assert (key_unused plan s2 (key +:+ ":bound") ∧ key_unused plan s2 (key +:+ ":finished")) as [Hub2 Huf2].
  { split; (apply Hu2; [by apply not_eq_sym, append_ne|by eapply key_unused_frame]). }
  pose proof (claim_intent_frame (pl_ID plan) e w s2 (start_intent w plan node a1 key workItemID agentBindingID)) as Hf3.
  destruct (claim_intent _ _ _ _) as [s3 [intent|err]]; simpl in Hf3; pose proof (consistent_frame _ _ _ _ Hf3 Hcon2) as Hcon3;
    [|by exists p2].
  destruct (resolve_run _ _ _ _ _ _) as [[[binding instructions] run]|err] eqn:Hrr; [|by exists p2].
  pose proof (dispatch_run_settled saves w s3 p2 a1 lease key intent
    (pr_StartRun run w (start_command e w plan node a1 env key workItemID binding instructions))) as Hd.
  destruct (dispatch_run _ _ _ _ _ _ _ _ _ _ _) as [[s4 p4] r4].
  assert (key_unused plan s3 (key +:+ ":bound") ∧ key_unused plan s3 (key +:+ ":finished")) as [Hub3 Huf3]
    by (split; by eapply key_unused_frame).
  specialize (Hd Hdb Hdf Hcon3 Hnow Ha1 Hr1 Hk1 Hub3 Huf3 (resolve_run_complete _ _ _ _ _ _ _ _ _ Hrun Hrr)).
  destruct r4 as [b4|err]; [|done]. destruct Hd as (Hc4 & (b5 & ->) & Hu4). split_and!; [done| |].
  - rewrite Hid1, Haid. by apply others_kept_put.
  - intros k K1 K2 Hk'. apply Hu4; [done|]. eapply key_unused_frame; [exact Hf3|]. apply Hu2; [done|].
    by eapply key_unused_frame.
Qed.

(** ** The dispatch loop *)

(** A dispatch of one node leaves what another node's dispatch assumes. *)
Lemma new_dispatch_other w w' s s' p p' node node' :
  wn_ID node' ≠ wn_ID node → w_id w' ≠ w_id w →
  others_kept (wn_ID node) (w_id w) (attempt_key plan (wn_ID node) (next_number p node)) p p' →
  (∀ k, k ≠ attempt_key plan (wn_ID node) (next_number p node) →
        k ≠ attempt_key plan (wn_ID node) (next_number p node) +:+ ":bound" → key_unused plan s k → key_unused plan s' k) →
  new_dispatch w' s p node' → new_dispatch w' s' p' node'.
Proof.
  intros Hn Hw [K1 K2 K3] Hu [N1 N2 N3 N4 N5 N6].
  assert (next_number p' node' = next_number p node') as E by (unfold next_number, node_at; by rewrite K1).
  assert (∀ kind kind', derived_key plan (wn_ID node') (next_number p node') kind
                        ≠ derived_key plan (wn_ID node) (next_number p node) kind') as Hd.
  { intros kind kind' Heq. by apply derived_key_inj in Heq. }
  unfold derived_key in Hd. split; rewrite ?E; try done.
  - by rewrite K2.
  - rewrite K3; [done|]. pose proof (Hd KeyStart KeyStart) as H'. cbn [kind_suffix] in H'. by rewrite !append_nil_str in H'.
  - intros kind. apply Hu; [| |done]; unfold derived_key.
    + pose proof (Hd kind KeyStart) as H'. cbn [kind_suffix] in H'. by rewrite (append_nil_str (attempt_key _ (wn_ID node) _)) in H'.
    + apply (Hd kind KeyBound).
Qed.

Lemma dispatch_loop_settled saves ws envelope workItemID agentBindingID limit nodes i s p started :
  decodes StartedPayload → decodes BoundPayload → completions_decode → complete_providers →
  (∀ j k, w_id (ws j) = w_id (ws k) → j = k) → NoDup (wn_ID <$> nodes) → consistent plan s p →
  (∀ j node, nodes !! j = Some node → provider_node node = true → new_dispatch (ws (i + j)) s p node) →
  let '(s', p', (started', err)) :=
    dispatch_loop e saves ws i s plan p envelope workItemID agentBindingID limit started nodes in
  (∃ q, consistent plan s' q ∧ (err = None → q = p')) ∧
  ((0 < limit)%Z → (Z.of_nat (length started) ≤ limit)%Z → (Z.of_nat (length started') ≤ limit)%Z).
Proof.
  intros Hds Hdb Hdf Hpr Hws. induction nodes as [|node nodes IH] in i, s, p, started |- *; intros Hnd Hcon Hnew;
    cbn [dispatch_loop]; [split; eauto|].
  rewrite fmap_cons in Hnd. apply NoDup_cons in Hnd as [Hnot Hnd].
  assert (∀ j, i + S j = S i + j) as Hidx by lia.
  destruct (provider_node node) eqn:Hp; cbn [negb].
  2: { apply IH; [done|done|]. intros j n Hj Hpn. rewrite <- Hidx. by apply Hnew. }
  destruct ((0 <? limit)%Z && _) eqn:Hl; [split; eauto|].
  pose proof (dispatch_node_settled saves (ws i) s p envelope workItemID agentBindingID node Hds Hdb Hdf Hcon) as Hd.
  pose proof (Hnew 0 node eq_refl Hp) as Hnew0. rewrite Nat.add_0_r in Hnew0. specialize (Hd Hnew0 Hpr).
  destruct (dispatch_node _ _ _ _ _ _ _ _ _ _) as [[s1 p1] [a|err]]; [|destruct Hd as [q Hq]; split; [by exists q|done]].
  destruct Hd as (Hcon1 & Hoth & Hu).
  assert ((0 < limit)%Z → (Z.of_nat (length started) ≤ limit)%Z → (Z.of_nat (length (started ++ [a])) ≤ limit)%Z) as Hlen.
  { intros Hpos _. rewrite length_app. simpl. apply andb_false_iff in Hl as [Hl|Hl]; [apply Z.ltb_ge in Hl; lia|].
    apply Z.leb_gt in Hl. lia. }
  specialize (IH (S i) s1 p1 (started ++ [a]) Hnd Hcon1).
  destruct (dispatch_loop _ _ _ _ _ _ _ _ _ _ _ _ _) as [[s2 p2] [started2 err]]. destruct IH as [IH1 IH2]; [|split; eauto].
  intros j n Hj Hpn. rewrite <- Hidx. eapply new_dispatch_other; [..|by apply Hnew]; [| |done|done].
  - intros E. apply Hnot. rewrite <- E. apply list_elem_of_fmap_2. by eapply list_elem_of_lookup_2.
  - intros E. apply Hws in E. lia.
Qed.

(** C16: a dispatch pass leaves a log that replays to the projection it stores.
    Starting from a store whose log records the run to its projection, dispatching
    the ready nodes (nested plans, attempt.started, outbox intents, provider calls,
    attempt.bound, or the completion of a run that could not be started) ends,
    whether the providers start the runs or fail, and whatever the outbox and the
    disk answer, in a store whose log is a valid chain that replays to exactly the
    stored projection; without an error that is the projection the caller holds, and
    a positive limit bounds the attempts started.  Assumed are an executor with an
    event log, providers that name the run, session and work directory of a run they
    start ([complete_providers]; what happens otherwise is
    [incomplete_binding_unreplayable]), a set clock, attempt ids and keys not used
    before ([new_dispatch]), and that encoding/json reads back the started and bound
    payloads, and completions whose [any] fields hold no Go integers or typed slices
    (those of a dispatch hold nothing). *)
Theorem dispatch_replays now ws s p envelope workItemID agentBindingID limit :
  decodes StartedPayload → decodes BoundPayload → completions_decode → complete_providers →
  (∀ j k, w_id (ws j) = w_id (ws k) → j = k) → consistent plan s p →
  (∀ j node, readyNodesAt plan p now !! j = Some node → provider_node node = true → new_dispatch (ws j) s p node) →
  let '(s', p', (started, err)) := dispatchReady e now ws s plan p envelope workItemID agentBindingID limit in
  (∃ q, t_projections (tables s') !! pl_ID plan = Some q ∧
        (∀ wall, ReplayProjection wall plan (chain_of (tables s') (pl_ID plan)) = Ok q) ∧
        (err = None → q = p')) ∧
  ((0 < limit)%Z → (Z.of_nat (length started) ≤ limit)%Z).
Proof.
  intros Hds Hdb Hdf Hpr Hws Hcon Hnew.
  assert (∀ s' q (P : Prop), consistent plan s' q → P →
    t_projections (tables s') !! pl_ID plan = Some q ∧
    (∀ wall, ReplayProjection wall plan (chain_of (tables s') (pl_ID plan)) = Ok q) ∧ P) as Hfin.
  { intros s' q P Hq HP. split; [apply Hq|]. split; [|done]. intros wall. by apply consistent_replays. }
  unfold dispatchReady. destruct (envelope_validate envelope); [|split; [exists p; by apply Hfin|simpl; lia]].
  cbv zeta. destruct (_ && _); [split; [exists p; by apply Hfin|simpl; lia]|].
  assert (NoDup (wn_ID <$> readyNodesAt plan p now)) as Hnd.
  { apply ready_nodes_NoDup. destruct Hcon as (_ & _ & p0 & Hn & _). by apply wf_node_ids, (NewProjection_wf plan p0). }
  pose proof (dispatch_loop_settled (negb (ex_Events e) && saves_projection e s plan) ws envelope workItemID agentBindingID
    limit (readyNodesAt plan p now) 0 s p [] Hds Hdb Hdf Hpr Hws Hnd Hcon Hnew) as Hl.
  destruct (dispatch_loop _ _ _ _ _ _ _ _ _ _ _ _ _) as [[s' p'] [started err]]. destruct Hl as [(q & Hq & He) Hlen].
  split; [exists q; by apply Hfin|]. intros Hpos. apply Hlen; [done|]. simpl. lia.
Qed.
End props.

(** ** A dispatched sample *)

#[local] Instance spec_float_eq_dec : EqDecision SpecFloat.spec_float. Proof. solve_decision. Defined.
#[local] Instance Block_eq_dec : EqDecision Block. Proof. solve_decision. Defined.
#[local] Instance PromptSegment_eq_dec : EqDecision PromptSegment. Proof. solve_decision. Defined.
#[local] Instance PromptManifest_eq_dec : EqDecision PromptManifest. Proof. solve_decision. Defined.
#[local] Instance CompressionRecord_eq_dec : EqDecision CompressionRecord. Proof. solve_decision. Defined.
#[local] Instance Manifest_eq_dec : EqDecision Manifest. Proof. solve_decision. Defined.
#[local] Instance ContextEnvelope_eq_dec : EqDecision ContextEnvelope. Proof. solve_decision. Defined.
#[local] Instance Lease_eq_dec : EqDecision Lease. Proof. solve_decision. Defined.
#[local] Instance FailureReason_eq_dec : EqDecision FailureReason. Proof. solve_decision. Defined.
#[local] Instance StartedPayload_eq_dec : EqDecision StartedPayload. Proof. solve_decision. Defined.
#[local] Instance BoundPayload_eq_dec : EqDecision BoundPayload. Proof. solve_decision. Defined.

Definition local_provider : ExecutionProvider :=
  {| pr_Capabilities := Ok {| ca_Features := []; ca_FeatureStatus := ∅ |};
     pr_StartRun := λ _ cmd, inl {| rb_ID := "run"; rb_SessionID := "session"; rb_WorkDir := "/w" |};
     pr_GetRun := λ _ _, Err (ESentinel ErrNotFound) |}.
Definition sample_executor : Executor :=
  {| ex_Provider := Some local_provider; ex_ProviderResolver := None; ex_InstructionsResolver := None;
     ex_Repository := false; ex_Events := true; ex_GateEvaluator := None; ex_MergeReducer := None;
     ex_RepairController := None; ex_Owner := "worker"; ex_InvokerID := ""; ex_LeaseTTL := 0 |}.
Definition sample_world (i : nat) : World :=
  {| w_now := 10; w_id := pretty i; w_wall := λ _, 11%Z; w_event := λ k, "ev" +:+ pretty k; w_io := λ _, NoFault;
     w_ctx := None; w_provider_ctx := None |}.

Lemma sample_providers : complete_providers sample_executor.
Proof. split; [|discriminate]. intros pr w cmd [= <-]. repeat split; discriminate. Qed.

(** Codecs that know the payloads of the sample run. *)
Definition started_sample : StartedPayload :=
  {| stp_NodeID := "build"; stp_AttemptID := "0"; stp_AttemptNo := 1;
     stp_Lease := {| ls_Key := "plan:build"; ls_Owner := "worker"; ls_FencingToken := UnixNano 10; ls_ExpiresAt := 10 + 15 * Minute |};
     stp_Context := sample_envelope 10;
     stp_DispatchPayloadHash := sha256_hex ("plan:build:1" +:+ ce_ReplayKey (sample_envelope 10)); stp_StartedAt := 10;
     stp_ChildPlanID := "" |}.
Definition bound_sample : BoundPayload :=
  {| bp_AttemptID := "0"; bp_RunID := "run"; bp_SessionID := "session"; bp_WorkDir := "/w"; bp_ChildPlanID := "" |}.
Definition only {T} `{!EqDecision T} (x : T) : JsonMarshal T := λ y, if bool_decide (y = x) then Some "sample" else None.
Definition const_unmarshal {T} (x : T) : JsonUnmarshal T := λ _, Ok x.

Lemma only_decodes {T} `{!EqDecision T} (x : T) : @decodes T (only x) (const_unmarshal x).
Proof. intros y b. unfold json_marshal, only. case_bool_decide as E; [|done]. by rewrite E. Qed.

Definition finished_sample : FinishedPayload :=
  {| fp_AttemptID := "0"; fp_Event := "success"; fp_Result := sample_result "ok" ∅; fp_Failure := None;
     fp_ArtifactIDs := []; fp_TransitionIdempotencyKey := Some "done"; fp_TransitionAt := 20 |}.
(** What of a completion is compared; its fields are empty. *)
Definition finished_view (x : FinishedPayload) :=
  let r := fp_Result x in
  (fp_AttemptID x, fp_Event x, (res_Outcome r, res_ReasonCode r, res_Summary r, res_EvidenceIDs r),
   (fp_Failure x, fp_ArtifactIDs x, fp_TransitionIdempotencyKey x, fp_TransitionAt x)).
Definition same_finished (x y : FinishedPayload) : bool :=
  bool_decide (size (res_Fields (fp_Result x)) = 0) && bool_decide (size (res_Fields (fp_Result y)) = 0)
  && bool_decide (finished_view x = finished_view y).
Lemma same_finished_eq x y : same_finished x y = true → x = y.
Proof.
  unfold same_finished. intros E. apply andb_true_iff in E as [E E2]. apply andb_true_iff in E as [E E1].
  apply bool_decide_eq_true in E, E1, E2. apply map_size_empty_iff in E, E1.
  destruct x as [? ? [? ? ? ? ?] ? ? ? ?], y as [? ? [? ? ? ? ?] ? ? ? ?]. unfold finished_view in E2. simpl in *. by simplify_eq.
Qed.

(** The completion of the sample attempt when its lease has run out. *)
Definition expired_sample : FinishedPayload :=
  {| fp_AttemptID := "0"; fp_Event := "timeout";
     fp_Result := {| res_Outcome := "timeout"; res_ReasonCode := ""; res_Fields := ∅; res_Summary := "provider lease expired";
                     res_EvidenceIDs := ["lease-expired:0"] |};
     fp_Failure := Some {| fr_Code := "lease_expired"; fr_Message := "provider lease expired"; fr_Retryable := true |};
     fp_ArtifactIDs := []; fp_TransitionIdempotencyKey := Some ""; fp_TransitionAt := 10 + 15 * Minute |}.

Definition finished_json : JsonMarshal FinishedPayload := λ x,
  if same_finished x finished_sample then Some "finished" else if same_finished x expired_sample then Some "expired" else None.
Definition json_finished : JsonUnmarshal FinishedPayload := λ b,
  Ok (if b ≟ "finished" then finished_sample else expired_sample).
Lemma finished_json_decodes : @completions_decode finished_json json_finished.
Proof.
  intros x b _. unfold json_marshal, finished_json, json_unmarshal, json_finished.
  destruct (same_finished x finished_sample) eqn:E1; [apply same_finished_eq in E1 as ->; by intros [= <-]|].
  destruct (same_finished x expired_sample) eqn:E2; [apply same_finished_eq in E2 as ->; by intros [= <-]|done].
Qed.

(** build, then approval. *)
Definition line_plan : RequirementExecutionPlan :=
  pl_with "h:json" PlanReady 1 1 (sample_plan_of
    {| g_ID := "graph"; g_Version := 1; g_EntryNodeIDs := ["build"]; g_ExitNodeIDs := ["approve"];
       g_Nodes := [sample_node "build" NodeAgent; sample_node "approve" NodeHuman];
       g_Edges := [sample_edge "e1" "build" "approve" EdgeSuccess 0]; g_ValidationDigest := "" |} (budget 0 0)).
Definition line_store : Store := (run NoFault fresh_store (OpCreatePlanWithEvent line_plan created_event)).1.

#[local] Instance sample_JMs : JsonMarshal StartedPayload := only started_sample.
#[local] Instance sample_JMb : JsonMarshal BoundPayload := only bound_sample.
#[local] Instance sample_JMf : JsonMarshal FinishedPayload := finished_json.
#[local] Instance sample_JUs : JsonUnmarshal StartedPayload := const_unmarshal started_sample.
#[local] Instance sample_JUb : JsonUnmarshal BoundPayload := const_unmarshal bound_sample.
#[local] Instance sample_JUf : JsonUnmarshal FinishedPayload := json_finished.

Lemma sample_decodes : decodes StartedPayload ∧ decodes BoundPayload ∧ completions_decode.
Proof. split_and!; [apply only_decodes..|apply finished_json_decodes]. Qed.

Definition sample_dispatch :=
  dispatchReady (JM := toy_json) sample_executor 10 sample_world line_store line_plan
    (new_of line_plan) (sample_envelope 10) "work" "agent" 1.

Lemma line_consistent : consistent (JM := toy_json) line_plan line_store (new_of line_plan).
Proof.
  split; [vm_compute; reflexivity|]. split; [vm_compute; reflexivity|]. exists (new_of line_plan).
  split; [vm_compute; reflexivity|].
  assert (chain_of (tables line_store) (pl_ID line_plan) = [ev_set_key "plan:plan.created" created_event]) as -> by (vm_compute; reflexivity).
  econstructor; [|constructor]. apply rec_plan. by left.
Qed.

Lemma line_dispatch : new_dispatch line_plan (sample_world 0) line_store (new_of line_plan) (sample_node "build" NodeAgent).
Proof.
  split; try (vm_compute; congruence). intros kind ev Hev.
  assert (chain_of (tables line_store) (pl_ID line_plan) = [ev_set_key "plan:plan.created" created_event]) as E by (vm_compute; reflexivity).
  rewrite E in Hev. apply list_elem_of_singleton in Hev as ->. by destruct kind.
Qed.

Lemma dispatch_replays_witness :
  length sample_dispatch.2.1 = 1 ∧
  (∃ q, t_projections (tables sample_dispatch.1.1) !! "plan" = Some q ∧
        (∀ wall, ReplayProjection (JsonMarshal0 := toy_json _) wall line_plan (chain_of (tables sample_dispatch.1.1) "plan") = Ok q) ∧
        (sample_dispatch.2.2 = None → q = sample_dispatch.1.2)) ∧
  ((0 < 1)%Z → (Z.of_nat (length sample_dispatch.2.1) ≤ 1)%Z).
Proof.
  split; [vm_compute; reflexivity|].
  pose proof (dispatch_replays (JM := toy_json) line_plan sample_executor eq_refl
    10 sample_world line_store (new_of line_plan) (sample_envelope 10) "work" "agent" 1) as Hd.
  fold sample_dispatch in Hd. destruct sample_dispatch as [[s' p'] [started err]]. apply Hd.
  - apply sample_decodes.
  - apply sample_decodes.
  - apply sample_decodes.
  - exact sample_providers.
  - intros j k. simpl. apply (inj pretty).
  - apply line_consistent.
  - intros j node Hj _.
    assert (readyNodesAt line_plan (new_of line_plan) 10 = [sample_node "build" NodeAgent]) as E by (vm_compute; reflexivity).
    clear Hd. rewrite E in Hj. destruct j as [|j]; [|discriminate Hj]. injection Hj as <-. exact line_dispatch.
Defined.

(** The sample run completed. *)
Definition dispatched_store : Store := sample_dispatch.1.1.
Definition dispatched_projection : PlanProjection := sample_dispatch.1.2.
Definition sample_completion (key : string) (now : Time) : TransitionInput :=
  sample_input "success" key (UnixNano 10) now (sample_result "ok" ∅) None.
Definition finish_world : World :=
  {| w_now := 20; w_id := ""; w_wall := λ _, 21%Z; w_event := λ k, "fin" +:+ pretty k; w_io := λ _, NoFault;
     w_ctx := None; w_provider_ctx := None |}.
Definition sample_finish :=
  Exec_FinishAttempt (JM := toy_json) sample_executor finish_world 0 dispatched_store line_plan dispatched_projection "0" (sample_completion "done" 20).

Lemma dispatched_consistent : consistent (JM := toy_json) line_plan dispatched_store dispatched_projection.
Proof.
  assert (readyNodesAt line_plan (new_of line_plan) 10 = [sample_node "build" NodeAgent]) as Hready by (vm_compute; reflexivity).
  pose proof (dispatch_loop_settled (JM := toy_json) line_plan sample_executor eq_refl false sample_world (sample_envelope 10)
    "work" "agent" 1 [sample_node "build" NodeAgent] 0 line_store (new_of line_plan) []) as Hl.
  assert (sample_dispatch = dispatch_loop (JM := toy_json) sample_executor false sample_world 0 line_store line_plan
    (new_of line_plan) (sample_envelope 10) "work" "agent" 1 [] [sample_node "build" NodeAgent]) as E by (vm_compute; reflexivity).
  rewrite <- E in Hl. assert (sample_dispatch.2.2 = None) as Herr by (vm_compute; reflexivity).
  unfold dispatched_store, dispatched_projection. clear E. destruct sample_dispatch as [[s' p'] [started err]].
  destruct Hl as [(q & Hq & Heq) _].
  - apply sample_decodes.
  - apply sample_decodes.
  - apply sample_decodes.
  - exact sample_providers.
  - intros j k. simpl. apply (inj pretty).
  - simpl. apply NoDup_singleton.
  - exact line_consistent.
  - intros [|j] node Hj _; [|discriminate Hj]. injection Hj as <-. exact line_dispatch.
  - simpl in *. by rewrite <- (Heq Herr).
Qed.

Lemma key_unused_check plan s key :
  forallb (λ ev, ev_IdempotencyKey ev ≠? key) (chain_of (tables s) (pl_ID plan)) = true → key_unused plan s key.
Proof.
  intros Hf ev Hin. apply list_elem_of_In in Hin. rewrite forallb_forall in Hf. apply Hf in Hin.
  by apply negb_true_iff, bool_decide_eq_false in Hin.
Qed.

Lemma finish_replays_witness :
  sample_finish.2 = Ok (attempt_of sample_finish.1.2 "0") ∧
  t_projections (tables sample_finish.1.1) !! "plan" = Some sample_finish.1.2 ∧
  ∀ wall, ReplayProjection (JsonMarshal0 := toy_json _) wall line_plan (chain_of (tables sample_finish.1.1) "plan") = Ok sample_finish.1.2.
Proof.
  assert (sample_finish.2 = Ok (attempt_of sample_finish.1.2 "0")) as Hok by (vm_compute; reflexivity). split; [exact Hok|].
  pose proof (finish_replays (JM := toy_json) line_plan sample_executor eq_refl (proj2 (proj2 sample_decodes)) finish_world 0 dispatched_store
    dispatched_projection "0" (sample_completion "done" 20)) as Hf.
  fold sample_finish in Hf. destruct sample_finish as [[s' p'] r]. cbn [fst snd] in Hok. subst r.
  destruct Hf as (_ & Hp & Hr).
  - exact dispatched_consistent.
  - discriminate.
  - reflexivity.
  - reflexivity.
  - apply map_Forall_empty.
  - intros a _. apply key_unused_check. vm_compute. reflexivity.
  - exact (conj Hp Hr).
Defined.

(** A retried completion.  The reducer answers a repeated idempotency key with the
    stored attempt, but the event carries the time of the call: the second call
    finds its event key taken by another payload and is refused. *)
Definition timed_finished : JsonMarshal FinishedPayload := λ x, Some (pretty (fp_TransitionAt x)).
Definition first_finish :=
  Exec_FinishAttempt (JM := toy_json) (JMf := timed_finished) sample_executor finish_world 0 dispatched_store line_plan
    dispatched_projection "0" (sample_completion "done" 20).
Definition second_finish :=
  Exec_FinishAttempt (JM := toy_json) (JMf := timed_finished) sample_executor finish_world 1 first_finish.1.1 line_plan
    first_finish.1.2 "0" (sample_completion "done" 21).
Example retried_completion_refused :
  (∃ a, first_finish.2 = Ok a) ∧
  (∃ a, (FinishAttempt 21 first_finish.1.2 line_plan "0" (sample_completion "done" 21)).2 = Ok a) ∧
  second_finish.2 = Err (ESentinel ErrIdempotencyConflict).
Proof. split_and!; [eexists; vm_compute; reflexivity|eexists; vm_compute; reflexivity|vm_compute; reflexivity]. Qed.

(** An entry node with a feedback edge: the projection opens it, the graph is
    valid, but it waits for the edge and the plan never starts. *)
Example entry_with_feedback_never_ready :
  ValidateGraph sample_graph = Ok tt ∧ np_Status (node_at (new_of sample_plan) "build") = AttemptReady ∧
  ∀ now, readyNodesAt sample_plan (new_of sample_plan) now = [].
Proof. split_and!; [vm_compute; reflexivity..|]. intros now. vm_compute. reflexivity. Qed.
