(* ===== verification/Worker.v ===== *)
(** * Worker: observing provider runs and driving a plan

    Models the loops of internal/orchestration/worker.go: [Reconcile] with the
    nested plans of squad attempts, [recoverUnboundAttempt], [providerForAttempt],
    [Run] and [closeOnContextCancellation] (the classification of a run's snapshot
    is in ProviderOutcome).

    What a call reads from outside is looked up under its path: [inputs (i :: path)]
    is for the [i]-th attempt that the pass at [path] looks at, and for the nested
    plan of that attempt.  The nesting depth is bounded by fuel.  Time spent
    waiting, and [CancelRun], have no effect on the modelled state. *)
From stdpp Require Import base strings gmap list pretty.
From Stdlib Require Import ZArith Lia.
From S2P Require Import Prelude GoLib GoStrings Trace GoValue GoJson ContextModel ContextCompiler OrchModel GraphSearch Validate Definitions ProjectionData Projection Repair Transition Structural Scheduler Events ProviderOutcome Repository Outbox Executor.

(** What one iteration of [Run], and one attempt of [Reconcile], read. *)
Record Inputs := {
  ip_ctx : nat → option error;   (** readings of [ctx.Err()] *)
  ip_nows : nat → Time;          (** readings of the scheduler's clock *)
  ip_io : fault;
  ip_structural : nat → World; ip_dispatch : nat → World;
  ip_closing : nat → World; ip_closing_io : fault;
  ip_world : World }.

(** The binding event of a recovered run leaves the child plan out. *)
Record RecoveredBound := { rbd_payload : BoundPayload }.

Record WorkerReport := {
  wr_Ticks : Z; wr_Started : list NodeAttempt; wr_Finished : list NodeAttempt; wr_LastStatus : ScheduleReport }.

Definition zero_report : WorkerReport :=
  {| wr_Ticks := 0; wr_Started := []; wr_Finished := []; wr_LastStatus := empty_report |}.

(** A foreground loop has returned, or waits for its next iteration. *)
Inductive run_end := Returned (err : option error) | Waiting.

(** [WorkflowNode{ID: nodeID}]. *)
Definition bare_node (id : string) : WorkflowNode :=
  let z := zero_WorkflowNode in
  {| wn_ID := id; wn_Kind := wn_Kind z; wn_AgentRef := wn_AgentRef z; wn_SquadRef := wn_SquadRef z;
     wn_InputContract := wn_InputContract z; wn_OutputContract := wn_OutputContract z;
     wn_ContextPolicy := wn_ContextPolicy z; wn_ToolPolicy := wn_ToolPolicy z; wn_RetryPolicy := wn_RetryPolicy z;
     wn_Timeout := wn_Timeout z; wn_Budget := wn_Budget z; wn_JoinPolicy := wn_JoinPolicy z;
     wn_JoinQuorum := wn_JoinQuorum z; wn_JoinFailurePolicy := wn_JoinFailurePolicy z; wn_GatePolicy := wn_GatePolicy z;
     wn_MergePolicy := wn_MergePolicy z; wn_RepairPolicy := wn_RepairPolicy z |}.

Definition workflowNodeFor (plan : RequirementExecutionPlan) (nodeID : string) : WorkflowNode :=
  match List.find (λ n, wn_ID n ≟ nodeID) (g_Nodes (pl_GraphSnapshot plan)) with
  | Some n => n
  | None => bare_node nodeID
  end.

Definition PayloadString (o : OutboxRecord) (key : string) : string :=
  match ob_Payload o !! key with
  | Some (VString v) => TrimSpace v
  | _ => ""
  end.

(** [!out[j].CreatedAt.Before(out[i].CreatedAt)]. *)
Definition created_le (a b : OutboxRecord) : Prop := (ob_CreatedAt a ≤ ob_CreatedAt b)%Z.
#[global] Instance created_le_dec : RelDecision created_le.
Proof. intros a b. unfold created_le. apply _. Defined.

(** [deadlinePlan.Deadline = t]. *)
Definition pl_set_Deadline (t : Time) (p : RequirementExecutionPlan) : RequirementExecutionPlan :=
  {| pl_ID := pl_ID p; pl_RequirementID := pl_RequirementID p; pl_WorkspaceID := pl_WorkspaceID p;
     pl_GraphSnapshot := pl_GraphSnapshot p; pl_SelectedRef := pl_SelectedRef p; pl_PolicySnapshot := pl_PolicySnapshot p;
     pl_ContextRoot := pl_ContextRoot p; pl_PlanHash := pl_PlanHash p; pl_Status := pl_Status p; pl_Revision := pl_Revision p;
     pl_IdempotencyKey := pl_IdempotencyKey p; pl_Deadline := t; pl_CreatedAt := pl_CreatedAt p;
     pl_ParentPlanID := pl_ParentPlanID p; pl_ParentAttemptID := pl_ParentAttemptID p |}.

(** [report] after a tick, and after a pass. *)
Definition wr_ticked (r : WorkerReport) : WorkerReport :=
  {| wr_Ticks := wr_Ticks r + 1; wr_Started := wr_Started r; wr_Finished := wr_Finished r; wr_LastStatus := wr_LastStatus r |}.
Definition wr_add (started finished : list NodeAttempt) (status : ScheduleReport) (r : WorkerReport) : WorkerReport :=
  {| wr_Ticks := wr_Ticks r; wr_Started := wr_Started r ++ started; wr_Finished := wr_Finished r ++ finished;
     wr_LastStatus := status |}.

Section worker.
Context `{!MapRange, !Sha256, !JsonCompact, !JsonClone, !EnvelopeContract, !SliceSort, !JsonUnmarshal value}.
Context {JM : ∀ T, JsonMarshal T}.
Context {JMs : JsonMarshal StartedPayload} {JMb : JsonMarshal BoundPayload} {JMf : JsonMarshal FinishedPayload}
  {JMr : JsonMarshal RecoveredBound}.

(** ** Readings of the projection *)

Definition nextRetryAt (wall : Time) (p : PlanProjection) (now : Time) : option Time :=
  let now := orNow wall now in
  let next := foldl (λ next n,
      match np_RetryAt n with
      | Some t => if (np_Status n ≟ AttemptReady) && After t now && (IsZero next || Before t next) then t else next
      | None => next
      end) 0%Z (range_values (pp_Nodes p)) in
  if IsZero next then None else Some next.

Definition hasRunningAttempts (p : PlanProjection) : bool :=
  existsb (λ a, na_Status a ≟ AttemptRunning) (range_values (pp_Attempts p)).

(** ** Recovering a run whose binding was lost *)

Definition ListOutbox (s : Store) (planID status : string) : list OutboxRecord :=
  slice_sort created_le
    (cloneValue <$> filter (λ o, negb ((planID ≠? "") && (ob_PlanID o ≠? planID))
                                 && negb ((status ≠? "") && (ob_Status o ≠? status)) = true) (range_values (outbox_of s))).

(** [w] with the delivery context of the claimed intent as its context. *)
Definition in_delivery (w : World) : World :=
  {| w_now := w_now w; w_id := w_id w; w_wall := w_wall w; w_event := w_event w; w_io := w_io w; w_ctx := w_provider_ctx w;
     w_provider_ctx := w_provider_ctx w |}.

(** The open intent of the attempt. *)
Definition unbound_intent (s : Store) (planID attemptID : string) : option OutboxRecord :=
  List.find (λ o, negb (settled o) && match ob_Payload o !! "attempt_id" with
                                      | Some (VString v) => v ≟ attemptID
                                      | _ => false
                                      end) (ListOutbox s planID "").

Definition recovery_command (w : World) (plan : RequirementExecutionPlan) (a : NodeAttempt) (claimed : OutboxRecord)
    : StartRunCommand :=
  let '(traceParent, traceState) := Carrier (w_provider_ctx w) in
  let binding := PayloadString claimed "agent_binding_id" in
  {| sr_PlanID := pl_ID plan; sr_NodeID := na_NodeID a; sr_AttemptID := na_ID a;
     sr_WorkItemID := PayloadString claimed "work_item_id"; sr_AgentBindingID := binding;
     sr_Input := nodeInput (na_InputManifest a) (workflowNodeFor plan (na_NodeID a)) (na_AttemptNo a) binding "";
     sr_SessionID := m_SessionID (ce_Manifest (na_InputManifest a)); sr_ContextEnvelope := na_InputManifest a;
     sr_IdempotencyKey := na_IdempotencyKey a; sr_ExpectedRevision := pl_Revision plan; sr_TraceParent := traceParent;
     sr_TraceState := traceState |}.

Definition recovered_payload (a : NodeAttempt) : RecoveredBound :=
  {| rbd_payload := {| bp_AttemptID := na_ID a; bp_RunID := na_RunID a; bp_SessionID := na_SessionID a;
                       bp_WorkDir := na_WorkDir a; bp_ChildPlanID := "" |} |}.

(** [Ok None]: nothing was recovered. *)
Definition recoverUnboundAttempt (e : Executor) (repository : bool) (run : ExecutionProvider) (nows : nat → Time) (w : World)
    (s : Store) (plan : RequirementExecutionPlan) (p : PlanProjection) (a : NodeAttempt)
    : Store * PlanProjection * result (option NodeAttempt) :=
  if (na_ID a ≟ "") || (na_IdempotencyKey a ≟ "") || (negb (ex_Events e) && negb repository) then (s, p, Ok None) else
  match unbound_intent s (pl_ID plan) (na_ID a) with
  | None => (s, p, Ok None)
  | Some intent =>
      let owner := let o := TrimSpace (ex_Owner e) in if o ≟ "" then "worker-recovery" else o in
      match ClaimOutboxByID (w_io w 0) (w_wall w 0) s (ob_ID intent) owner
              (leaseTTL e (workflowNodeFor plan (na_NodeID a))) (nows 0) with
      | (s1, Err err) =>
          (s1, p, if errors_is ErrNotFound err then Ok None else Err (Wrapf "claim unbound provider outbox: %w" [] err))
      | (s1, Ok claimed) =>
          let settle k s err := AckOutbox (w_io w k) (w_wall w k) s (ob_ID claimed) owner (nows 1) err in
          match pr_StartRun run w (recovery_command w plan a claimed) with
          | inr err => ((settle 1 s1 (Some (pe_Message err))).1, p, Ok None)
          | inl b =>
              if blank (rb_ID b) || blank (rb_SessionID b) || blank (rb_WorkDir b) then
                ((settle 1 s1 (Some "provider returned incomplete binding")).1, p,
                 Err (Errorf "provider returned incomplete binding during recovery" []))
              else
                let bound := bind_run (rb_ID b) (rb_SessionID b) (rb_WorkDir b) (na_ChildPlanID a) a in
                let p1 := put_attempt (na_ID a) bound p in
                match commitAttemptEvent e (in_delivery w) 2 s1 plan p1 bound "attempt.bound" (na_IdempotencyKey a +:+ ":bound")
                        (recovered_payload bound) (Some (ls_FencingToken (na_Lease a))) with
                | (s2, Err err) => (s2, p1, Err (Wrapf "persist recovered provider binding: %w" [] err))
                | (s2, Ok _) =>
                    match settle 3 s2 None with
                    | (s3, Err err) => (s3, p1, Err (Wrapf "ack recovered provider outbox: %w" [] err))
                    | (s3, Ok _) => (s3, p1, Ok (Some bound))
                    end
                end
          end
      end
  end.

(** ** The provider that runs an attempt *)

Definition squad_leader (s : Store) (plan : RequirementExecutionPlan) (node : WorkflowNode) (squad : SquadDefinition)
    : result AgentDefinition :=
  let leaderID := match List.find sm_Leader (sd_Members squad) with Some m => sm_AgentID m | None => "" end in
  if leaderID ≟ "" then Err (Errorf "squad node %s has no leader agent" [wn_ID node])
  else wrap_err "resolve provider for node %s: %w" [wn_ID node] (GetAgent s (pl_WorkspaceID plan) leaderID 0).

Definition providerForAttempt (e : Executor) (provider : ExecutionProvider) (s : Store) (plan : RequirementExecutionPlan)
    (a : NodeAttempt) : result ExecutionProvider :=
  match ex_ProviderResolver e with
  | None => Ok provider
  | Some resolver =>
      reject (negb (ex_Repository e)) (Errorf "repository is required to resolve an attempt provider" []) ;;;
      match List.find (λ n, wn_ID n ≟ na_NodeID a) (g_Nodes (pl_GraphSnapshot plan)) with
      | None => Err (Errorf "attempt %s references unknown node %s" [na_ID a; na_NodeID a])
      | Some node =>
          let resolved agent :=
            let* pr := wrap_err "resolve provider for agent %s: %w" [ad_ID agent] (resolver agent) in
            match pr with
            | Some pr => Ok pr
            | None => Err (Errorf "resolved provider is nil for agent %s" [ad_ID agent])
            end in
          match wn_Kind node with
          | NodeAgent =>
              match wn_AgentRef node with
              | None => Err (Errorf "agent node %s has no agent_ref" [wn_ID node])
              | Some ref =>
                  let* agent := wrap_err "resolve provider for node %s: %w" [wn_ID node]
                                  (GetAgent s (pl_WorkspaceID plan) (vr_ID ref) (vr_Revision ref)) in
                  resolved agent
              end
          | NodeSquad =>
              match wn_SquadRef node with
              | None => Err (Errorf "squad node %s has no squad_ref" [wn_ID node])
              | Some ref =>
                  let* squad := wrap_err "resolve provider for node %s: %w" [wn_ID node]
                                  (GetSquad s (pl_WorkspaceID plan) (vr_ID ref) (vr_Revision ref)) in
                  let* agent := squad_leader s plan node squad in
                  resolved agent
              end
          | _ => Ok provider
          end
      end
  end.

(** ** [Reconcile] *)

Definition worker_input (plan : RequirementExecutionPlan) (a : NodeAttempt) (event : string) (result : StructuredResult)
    (failure : option FailureReason) (artifacts : list string) (now : Time) : TransitionInput :=
  {| ti_PlanRevision := pl_Revision plan; ti_AttemptID := na_ID a; ti_LeaseToken := ls_FencingToken (na_Lease a);
     ti_Event := event; ti_Result := result; ti_Failure := failure; ti_OutputArtifacts := artifacts;
     ti_IdempotencyKey := ""; ti_PayloadHash := ""; ti_Now := now |}.

(** The completion of a squad attempt whose child plan is terminal. *)
Definition child_input (plan : RequirementExecutionPlan) (a : NodeAttempt) (child : PlanProjection) (childID : string)
    (now : Time) : TransitionInput :=
  let succeeded := pp_TerminalOutcome child ≟ "succeeded" in
  worker_input plan a (if succeeded then "success" else "failure")
    {| res_Outcome := if succeeded then "pass" else "failure"; res_ReasonCode := ""; res_Fields := ∅;
       res_Summary := "nested squad plan completed"; res_EvidenceIDs := ["child-plan:" +:+ childID] |}
    (if succeeded then None
     else Some {| fr_Code := "nested_squad_failed"; fr_Message := pp_TerminalOutcome child; fr_Retryable := true |}) [] now.

Definition lease_input (plan : RequirementExecutionPlan) (a : NodeAttempt) (now : Time) : TransitionInput :=
  worker_input plan a "timeout"
    {| res_Outcome := "timeout"; res_ReasonCode := ""; res_Fields := ∅; res_Summary := "provider lease expired";
       res_EvidenceIDs := ["lease-expired:" +:+ na_ID a] |}
    (Some {| fr_Code := "lease_expired"; fr_Message := "provider lease expired"; fr_Retryable := true |}) [] now.

Definition observed_input (plan : RequirementExecutionPlan) (a : NodeAttempt) (c : completion) (now : Time) : TransitionInput :=
  worker_input plan a (co_Event c) (co_Result c) (co_Failure c) (co_Artifacts c) now.

(** What a pass does with one attempt: nothing, a completion, or an error. *)
Definition Outcome : Type := Store * PlanProjection * result (option NodeAttempt).

Definition complete (e : Executor) (w : World) (k : nat) (s : Store) (plan : RequirementExecutionPlan) (p : PlanProjection)
    (id : string) (input : TransitionInput) : Outcome :=
  match Exec_FinishAttempt e w k s plan p id input with
  | (s', p', Err err) => (s', p', Err err)
  | (s', p', Ok item) => (s', p', Ok (Some item))
  end.

(** Runs a nested plan for one tick. *)
Definition ChildRun : Type :=
  Store → RequirementExecutionPlan → PlanProjection → ContextEnvelope → string → Store * PlanProjection * option error.

Definition reconcile_child (e : Executor) (run_child : ChildRun) (i : Inputs) (s : Store) (plan : RequirementExecutionPlan)
    (p : PlanProjection) (a : NodeAttempt) (now : Time) : Outcome :=
  match GetPlan s (pl_WorkspaceID plan) (na_ChildPlanID a) with
  | Err err => (s, p, Err (Wrapf "load nested squad plan %s: %w" [na_ChildPlanID a] err))
  | Ok childPlan =>
      match GetProjection s (pl_ID childPlan) with
      | Err err => (s, p, Err (Wrapf "load nested squad projection %s: %w" [pl_ID childPlan] err))
      | Ok child =>
          let '(s1, child, childErr) := run_child s childPlan child (na_InputManifest a) (na_RunID a) in
          match childErr, ip_ctx i 3 with
          | Some err, Some _ => (s1, p, Err err)
          | _, _ =>
              if pp_Status child ≟ PlanTerminal
              then complete e (ip_world i) 0 s1 plan p (na_ID a) (child_input plan a child (pl_ID childPlan) now)
              else (s1, p, Ok None)
          end
      end
  end.

(** A run that is bound: its snapshot is classified. *)
Definition reconcile_run (e : Executor) (provider : ExecutionProvider) (i : Inputs) (s : Store)
    (plan : RequirementExecutionPlan) (p : PlanProjection) (a : NodeAttempt) (now : Time) : Outcome :=
  let runID := TrimSpace (na_RunID a) in
  match providerForAttempt e provider s plan a with
  | Err err => (s, p, Err err)
  | Ok run =>
      match pr_GetRun run (ip_world i) runID with
      | Err err => (s, p, Err err)
      | Ok snapshot =>
          match classify runID snapshot with
          | None => (s, p, Ok None)
          | Some c => complete e (ip_world i) 4 s plan p (na_ID a) (observed_input plan a c now)
          end
      end
  end.

Definition lease_expired (a : NodeAttempt) (now : Time) : bool :=
  negb (IsZero (ls_ExpiresAt (na_Lease a))) && negb (Before now (ls_ExpiresAt (na_Lease a))).

Definition reconcile_attempt (e : Executor) (repository : bool) (provider : ExecutionProvider) (run_child : ChildRun)
    (i : Inputs) (s : Store) (plan : RequirementExecutionPlan) (p : PlanProjection) (a : NodeAttempt) (now : Time) : Outcome :=
  if na_Status a ≠? AttemptRunning then (s, p, Ok None)
  else if (na_ChildPlanID a ≠? "") && repository then reconcile_child e run_child i s plan p a now
  else if lease_expired a now then complete e (ip_world i) 0 s plan p (na_ID a) (lease_input plan a now)
  else if blank (na_RunID a) then
    match recoverUnboundAttempt e repository provider (ip_nows i) (ip_world i) s plan p a with
    | (s1, p1, Err err) => (s1, p1, Err err)
    | (s1, p1, Ok None) => (s1, p1, Ok None)
    | (s1, p1, Ok (Some bound)) => reconcile_run e provider i s1 plan p1 bound now
    end
  else reconcile_run e provider i s plan p a now.

(** The loop over the attempts the projection held when the pass began. *)
Fixpoint reconcile_loop (step : nat → Store → PlanProjection → NodeAttempt → Outcome) (i : nat) (s : Store)
    (p : PlanProjection) (finished attempts : list NodeAttempt)
    : Store * PlanProjection * (list NodeAttempt * option error) :=
  match attempts with
  | [] => (s, p, (finished, None))
  | a :: attempts' =>
      match step i s p a with
      | (s', p', Err err) => (s', p', (finished, Some err))
      | (s', p', Ok item) => reconcile_loop step (S i) s' p' (finished ++ option_list item) attempts'
      end
  end.

(** ** [Run] *)

Definition RunState : Type := Store * PlanProjection * WorkerReport * run_end.

Definition closeOnContextCancellation (e : Executor) (repository : bool) (cfg : SchedulerConfig) (i : Inputs) (s : Store)
    (plan : RequirementExecutionPlan) (p : PlanProjection) (envelope : ContextEnvelope) (workItemID agentBindingID : string)
    (report : WorkerReport) (cause : error) : RunState :=
  if pp_Status p ≟ PlanTerminal then (s, p, report, Returned (Some cause)) else
  let deadlinePlan := pl_set_Deadline (ip_nows i 10 - 1) plan in
  let '(s', p', (status, closeErr)) :=
    Tick e repository cfg (ip_closing_io i) (λ k, ip_nows i (11 + k)) (ip_closing i) (ip_closing i) s deadlinePlan p envelope
      workItemID agentBindingID in
  let report := wr_add (rep_Started status) (rep_Advanced status) status report in
  (s', p', report,
   Returned (Some (match closeErr with
                   | Some err => if errors_is ErrDeadlineExceeded err then cause
                                 else Wrapf "close cancelled graph: %w (worker cause: %v)" [] err
                   | None => cause
                   end))).

(** The tick's error ends the loop: it is not the deadline, and the reducer has
    neither scheduled a retry nor opened a node. *)
Definition gives_up (i : Inputs) (plan : RequirementExecutionPlan) (p : PlanProjection) (err : option error) : bool :=
  match err with
  | Some err => negb (errors_is ErrDeadlineExceeded err) && bool_decide (nextRetryAt (ip_nows i 5) p (ip_nows i 5) = None)
                && bool_decide (readyNodesAt plan p (ip_nows i 6) = []) && (pp_Status p ≠? PlanTerminal)
  | None => false
  end.

(** A pass of [Reconcile] as the loop calls it. *)
Definition Pass : Type :=
  Store → RequirementExecutionPlan → PlanProjection → Store * PlanProjection * (list NodeAttempt * option error).

Definition run_iteration (reconcile : Pass) (e : Executor) (repository : bool) (cfg : SchedulerConfig) (maxTicks : Z)
    (i : Inputs) (s : Store) (plan : RequirementExecutionPlan) (p : PlanProjection) (envelope : ContextEnvelope)
    (workItemID agentBindingID : string) (report : WorkerReport) : RunState :=
  let close s p report cause :=
    closeOnContextCancellation e repository cfg i s plan p envelope workItemID agentBindingID report cause in
  match ip_ctx i 0 with
  | Some cause => close s p report cause
  | None =>
      let report := wr_ticked report in
      let '(s1, p1, (status, tickErr)) :=
        Tick e repository cfg (ip_io i) (ip_nows i) (ip_structural i) (ip_dispatch i) s plan p envelope workItemID
          agentBindingID in
      if gives_up i plan p1 tickErr then (s1, p1, report, Returned tickErr) else
      let report := wr_add (rep_Started status) [] status report in
      let '(s2, p2, (finished, reconcileErr)) := reconcile s1 plan p1 in
      match reconcileErr with
      | Some err => match ip_ctx i 1 with
                    | Some cause => close s2 p2 report cause
                    | None => (s2, p2, report, Returned (Some err))
                    end
      | None =>
          let report := wr_add [] finished status report in
          let wait := match ip_ctx i 2 with
                      | Some cause => close s2 p2 report cause
                      | None => (s2, p2, report, Waiting)
                      end in
          let deadline := match tickErr with Some err => errors_is ErrDeadlineExceeded err | None => false end in
          if (pp_Status p2 ≟ PlanTerminal) || deadline || ((0 <? maxTicks) && (maxTicks <=? wr_Ticks report))%Z
          then (s2, p2, report, Returned None)
          else if bool_decide (rep_Started status = []) && bool_decide (finished = [])
                  && bool_decide (readyNodesAt plan p2 (ip_nows i 7) = []) && negb (hasRunningAttempts p2)
          then if bool_decide (nextRetryAt (ip_nows i 8) p2 (ip_nows i 8) = None) then (s2, p2, report, Returned None) else wait
          else wait
      end
  end.

(** A pass; [depth] bounds the nesting of the child plans it advances. *)
Fixpoint Reconcile (depth : nat) (e : Executor) (repository : bool) (cfg : SchedulerConfig) (inputs : list nat → Inputs)
    (path : list nat) (s : Store) (plan : RequirementExecutionPlan) (p : PlanProjection)
    : Store * PlanProjection * (list NodeAttempt * option error) :=
  match depth, ex_Provider e with
  | O, _ => (s, p, ([], Some (Errorf "nested squad plans are too deep" [])))
  | _, None => (s, p, ([], Some (Errorf "provider is required" [])))
  | S depth', Some provider =>
      let child (i : nat) : ChildRun := λ s childPlan childProjection envelope runID,
        let e' := ex_scheduled repository (ex_LeaseTTL e) e in
        match run_iteration (Reconcile depth' e' repository cfg inputs (i :: path)) e' repository cfg 1
                (inputs (i :: path)) s childPlan childProjection envelope runID "" zero_report with
        | (s', p', _, Returned err) => (s', p', err)
        | (s', p', _, Waiting) => (s', p', None)
        end in
      reconcile_loop (λ i s p a, reconcile_attempt e repository provider (child i) (inputs (i :: path)) s plan p a
                                   (ip_nows (inputs path) 9))
        0 s p [] (range_values (pp_Attempts (cloneProjection p)))
  end.

(** The loop, for the iterations whose inputs are at hand. *)
Fixpoint Run (depth : nat) (e : Executor) (repository : bool) (cfg : SchedulerConfig) (maxTicks : Z)
    (inputs : list nat → Inputs) (s : Store) (plan : RequirementExecutionPlan) (p : PlanProjection)
    (envelope : ContextEnvelope) (workItemID agentBindingID : string) (report : WorkerReport) (iterations : list nat) : RunState :=
  match iterations with
  | [] => (s, p, report, Waiting)
  | t :: iterations' =>
      match run_iteration (Reconcile depth e repository cfg inputs [t]) e repository cfg maxTicks (inputs [t]) s plan p
              envelope workItemID agentBindingID report with
      | (s', p', report', Returned err) => (s', p', report', Returned err)
      | (s', p', report', Waiting) =>
          Run depth e repository cfg maxTicks inputs s' plan p' envelope workItemID agentBindingID report' iterations'
      end
  end.
End worker.
