(* ===== verification/WorkerProps.v ===== *)
(** * WorkerProps: reconciling keeps the log, and a worker does not strand a run

    A pass over a plan without nested plans leaves a log that replays to the stored
    projection; a bounded worker returns within its ticks; and a worker that
    returns on its own leaves nothing running, ready or due. *)
From stdpp Require Import base strings gmap list pretty relations.
From Stdlib Require Import ZArith Lia Ascii.
From S2P Require Import Prelude GoLib GoStrings Trace GoValue GoJson ContextModel ContextCompiler OrchModel GraphSearch Validate PredicateSpec GraphSpec Definitions ProjectionData Projection Repair RepairSpec Transition ContextSpec Structural Samples ContextCompilerProps StartSpec RouteSpec FinishSpec ReducerInv Scheduler Events ProviderOutcome ProviderOutcomeProps Repository Outbox EventChain Machine RepositoryInv RepositoryOps RepositoryProps Replay SchedulerProps Executor ExecutorSpec ExecutorProps Worker.

(** A map field that tells the entries apart is repeated nowhere in the values. *)
Lemma range_values_NoDup `{!MapRange} {A} (f : A → string) (m : gmap string A) :
  (∀ k k' v v', m !! k = Some v → m !! k' = Some v' → f v = f v' → k = k') → NoDup (f <$> range_values m).
Proof.
  intros Hf. unfold range_values. rewrite <- list_fmap_compose. apply NoDup_fmap_2_strong.
  - intros [k v] [k' v'] H1' H2' E. apply elem_of_range in H1', H2'. simpl in E.
    assert (k = k') as -> by by eapply Hf. congruence.
  - rewrite range_perm. apply NoDup_map_to_list.
Qed.

Section props.
Context `{!MapRange, !Sha256, !JsonCompact, !JsonClone, !EnvelopeContract, !SliceSort, !JsonUnmarshal value}.
Context {JM : ∀ T, JsonMarshal T}.
Context {JMs : JsonMarshal StartedPayload} {JMb : JsonMarshal BoundPayload} {JMf : JsonMarshal FinishedPayload}
  {JMr : JsonMarshal RecoveredBound}.
Context `{!JsonUnmarshal StartedPayload, !JsonUnmarshal BoundPayload, !JsonUnmarshal FinishedPayload,
          !JsonUnmarshal RetryPayload}.

(** ** [Run] is bounded by its ticks *)

Lemma close_returns e repository cfg i s plan p envelope work agent report cause :
  ∃ err, (closeOnContextCancellation e repository cfg i s plan p envelope work agent report cause).2 = Returned err ∧
    wr_Ticks (closeOnContextCancellation e repository cfg i s plan p envelope work agent report cause).1.2 = wr_Ticks report.
Proof.
  unfold closeOnContextCancellation. destruct (_ ≟ PlanTerminal); [by eexists|]. cbv zeta.
  destruct (Tick _ _ _ _ _ _ _ _ _ _ _ _) as [[s' p'] [status err]]. by eexists.
Qed.

(** One iteration counts at most one tick; it goes on only below the limit. *)
Lemma iteration_ticks reconcile e repository cfg maxTicks i s plan p envelope work agent report :
  let out := run_iteration reconcile e repository cfg maxTicks i s plan p envelope work agent report in
  (wr_Ticks out.1.2 ≤ wr_Ticks report + 1)%Z ∧
  (out.2 = Waiting → wr_Ticks out.1.2 = (wr_Ticks report + 1)%Z ∧ ((0 < maxTicks)%Z → (wr_Ticks report + 1 < maxTicks)%Z)).
Proof.
  assert (∀ s p report cause n, (wr_Ticks report ≤ n)%Z →
    let out := closeOnContextCancellation e repository cfg i s plan p envelope work agent report cause in
    (wr_Ticks out.1.2 ≤ n)%Z ∧ (out.2 = Waiting → wr_Ticks out.1.2 = n ∧ ((0 < maxTicks)%Z → (n < maxTicks)%Z))) as Hclose.
  { intros s0 p0 r0 cause n Hn. destruct (close_returns e repository cfg i s0 plan p0 envelope work agent r0 cause) as (err & E & Et).
    cbv zeta. rewrite E, Et. done. }
  cbv zeta. unfold run_iteration. destruct (ip_ctx i 0) as [cause|]; [apply Hclose; lia|]. cbv zeta.
  destruct (Tick _ _ _ _ _ _ _ _ _ _ _ _) as [[s1 p1] [status tickErr]].
  destruct (gives_up _ _ _ _); [simpl; split; [lia|done]|].
  destruct (reconcile s1 plan p1) as [[s2 p2] [finished [err|]]].
  { destruct (ip_ctx i 1); [apply Hclose; simpl; lia|simpl; split; [lia|done]]. }
  destruct (_ || _) eqn:Hstop; [simpl; split; [lia|done]|].
  assert ((0 < maxTicks)%Z → (wr_Ticks report + 1 < maxTicks)%Z) as Hmax.
  { apply orb_false_iff in Hstop as [_ Hstop]. simpl in Hstop. intros Hpos.
    apply andb_false_iff in Hstop as [Hstop|Hstop]; [apply Z.ltb_ge in Hstop; lia|]. apply Z.leb_gt in Hstop. lia. }
  destruct (_ && negb (hasRunningAttempts p2)); [destruct (bool_decide (nextRetryAt _ _ _ = None)); [simpl; split; [lia|done]|]|];
    (destruct (ip_ctx i 2); [apply Hclose; simpl; lia|simpl; split; [lia|done]]).
Qed.

(** a bounded worker returns.  With a positive [MaxTicks] and inputs for that
    many iterations the loop returns, having counted no more ticks than
    [MaxTicks]. *)
Theorem Run_bounded depth e repository cfg maxTicks inputs s plan p envelope work agent iterations :
  (0 < maxTicks)%Z → (maxTicks ≤ Z.of_nat (length iterations))%Z →
  let '(s', p', report, ending) := Run depth e repository cfg maxTicks inputs s plan p envelope work agent zero_report iterations in
  (∃ err, ending = Returned err) ∧ (wr_Ticks report ≤ maxTicks)%Z.
Proof.
  intros Hpos. change (maxTicks ≤ _)%Z with (maxTicks ≤ Z.of_nat (length iterations))%Z.
  assert (∀ report, (wr_Ticks report < maxTicks)%Z → (maxTicks ≤ wr_Ticks report + Z.of_nat (length iterations))%Z →
    let '(s', p', report', ending) := Run depth e repository cfg maxTicks inputs s plan p envelope work agent report iterations in
    (∃ err, ending = Returned err) ∧ (wr_Ticks report' ≤ maxTicks)%Z) as Hgen.
  { induction iterations as [|t iterations IH] in s, p |- *; intros report Hlt Hlen; [simpl in Hlen; lia|]. cbn [Run].
    pose proof (iteration_ticks (Reconcile depth e repository cfg inputs [t]) e repository cfg maxTicks (inputs [t]) s plan p
      envelope work agent report) as Hit. cbv zeta in Hit.
    destruct (run_iteration _ _ _ _ _ _ _ _ _ _ _ _ _) as [[[s1 p1] report1] [err|]]; simpl in Hit; destruct Hit as [H1' H2'].
    - split; [by eexists|lia].
    - destruct H2' as [Ht Hm]; [done|]. specialize (Hm Hpos). simpl in Hlen. apply IH; lia. }
  intros Hlen. apply Hgen; simpl; lia.
Qed.

(** ** The worker does not strand a run *)

(** What the loop found when it returned: nothing runs, is ready or will be retried. *)
Definition quiet (plan : RequirementExecutionPlan) (i : Inputs) (p : PlanProjection) : Prop :=
  hasRunningAttempts p = false ∧ readyNodesAt plan p (ip_nows i 7) = [] ∧ nextRetryAt (ip_nows i 8) p (ip_nows i 8) = None.

(** C18: an unbounded worker returns without an error only when its plan is
    terminal, when a tick met the deadline, or when at its last look nothing was
    running, nothing was ready and no retry was scheduled. *)
Theorem Run_strands_nothing depth e repository cfg maxTicks inputs s plan p envelope work agent report iterations s' p' report' :
  (maxTicks ≤ 0)%Z →
  Run depth e repository cfg maxTicks inputs s plan p envelope work agent report iterations = (s', p', report', Returned None) →
  pp_Status p' = PlanTerminal ∨
  (∃ t s1 p1 err, t ∈ iterations ∧ errors_is ErrDeadlineExceeded err = true ∧
     (Tick e repository cfg (ip_io (inputs [t])) (ip_nows (inputs [t])) (ip_structural (inputs [t])) (ip_dispatch (inputs [t]))
        s1 plan p1 envelope work agent).2.2 = Some err) ∨
  ∃ t, t ∈ iterations ∧ quiet plan (inputs [t]) p'.
Proof.
  intros Hmax. induction iterations as [|t iterations IH] in s, p, report |- *; [done|]. cbn [Run].
  destruct (run_iteration _ _ _ _ _ _ _ _ _ _ _ _ _) as [[[s1 p1] report1] [err|]] eqn:Hit.
  2: { intros Hr. apply IH in Hr as [?|[(t' & s2 & p2 & er & Ht & ? & ?)|(t' & Ht & ?)]]; [by left|right; left|right; right].
       - exists t', s2, p2, er. split; [by right|done].
       - exists t'. split; [by right|done]. }
  intros [= <- <- <- ->]. revert Hit. unfold run_iteration. cbv zeta.
  assert (∀ s p report cause, (closeOnContextCancellation e repository cfg (inputs [t]) s plan p envelope work agent report cause).2
    ≠ Returned None) as Hclose.
  { intros s0 p0 r0 c. unfold closeOnContextCancellation. destruct (_ ≟ PlanTerminal); [done|]. cbv zeta.
    by destruct (Tick _ _ _ _ _ _ _ _ _ _ _ _) as [[? ?] [? ?]]. }
  assert (∀ s p report cause, closeOnContextCancellation e repository cfg (inputs [t]) s plan p envelope work agent report cause
    ≠ (s1, p1, report1, Returned None)) as Hclose'.
  { intros s0 p0 r0 c E. apply (Hclose s0 p0 r0 c). by rewrite E. }
  destruct (ip_ctx (inputs [t]) 0) as [cause|]; [by intros ?%Hclose'|].
  destruct (Tick _ _ _ _ _ _ _ _ _ _ _ _) as [[s2 p2] [status tickErr]] eqn:Htick.
  destruct (gives_up _ _ _ _) eqn:Hg.
  { intros [= <- <- <- ->]. done. }
  destruct (Reconcile _ _ _ _ _ _ _ _ _) as [[s3 p3] [finished [er|]]].
  { destruct (ip_ctx (inputs [t]) 1); [by intros ?%Hclose'|done]. }
  destruct (_ || _) eqn:Hstop.
  { intros [= <- <- <-]. apply orb_true_iff in Hstop as [Hstop|Hstop].
    - apply orb_true_iff in Hstop as [Hstop|Hstop]; [left; by apply bool_decide_eq_true in Hstop|]. right. left.
      destruct tickErr as [er|]; [|done]. exists t, s, p, er. split; [by left|]. split; [done|]. by rewrite Htick.
    - apply andb_true_iff in Hstop as [Hstop _]. apply Z.ltb_lt in Hstop. lia. }
  destruct (_ && negb (hasRunningAttempts p3)) eqn:Hq.
  - destruct (bool_decide_reflect (nextRetryAt (ip_nows (inputs [t]) 8) p3 (ip_nows (inputs [t]) 8) = None)) as [Hr|Hr]; [|destruct (ip_ctx (inputs [t]) 2); [by intros ?%Hclose'|done]].
    intros [= <- <- <-]. right. right. exists t. split; [by left|].
    apply andb_true_iff in Hq as [Hq Hrun]. apply andb_true_iff in Hq as [_ Hready]. apply bool_decide_eq_true in Hready.
    apply negb_true_iff in Hrun. done.
  - destruct (ip_ctx (inputs [t]) 2); [by intros ?%Hclose'|done].
Qed.

(** ** A pass keeps the log *)

Context (plan : RequirementExecutionPlan) (e : Executor).
Context (Hevents : ex_Events e = true).
Context (finished_decodes : completions_decode).
(** The recovered binding leaves [child_plan_id] out, which decodes to "". *)
Context (recovered_decodes : ∀ x b, json_marshal x = Some b → bp_ChildPlanID (rbd_payload x) = "" →
                                    json_unmarshal b = Ok (rbd_payload x)).

(** An attempt a pass may still work on: it is stored, it has no nested plan, and
    the keys of its events are new. *)
Definition pending (s : Store) (p : PlanProjection) (a : NodeAttempt) : Prop :=
  pp_Attempts p !! na_ID a = Some a ∧
  (na_Status a = AttemptRunning →
     na_ChildPlanID a = "" ∧ (blank (na_RunID a) = true → key_unused plan s (na_IdempotencyKey a +:+ ":bound")) ∧
     key_unused plan s (na_IdempotencyKey a +:+ ":finished")).

(** What work on [a] leaves of the other attempts and keys. *)
Definition kept (a : NodeAttempt) (s : Store) (p : PlanProjection) (s' : Store) (p' : PlanProjection) : Prop :=
  (∀ id, id ≠ na_ID a → pp_Attempts p' !! id = pp_Attempts p !! id) ∧
  ∀ key, key ≠ na_IdempotencyKey a +:+ ":bound" → key ≠ na_IdempotencyKey a +:+ ":finished" →
         key_unused plan s key → key_unused plan s' key.

Definition settled_pass (a : NodeAttempt) (s : Store) (p : PlanProjection) (out : Outcome) : Prop :=
  match out with
  | (s', p', Ok _) => consistent plan s' p' ∧ kept a s p s' p'
  | (s', _, Err _) => ∃ q, consistent plan s' q
  end.

Lemma kept_refl a s p : kept a s p s p.
Proof. done. Qed.
Lemma kept_frame a s p s' : frame (pl_ID plan) (tables s) (tables s') → kept a s p s' p.
Proof. intros Hf. split; [done|]. intros key _ _. by apply key_unused_frame. Qed.
Lemma kept_trans a s p s1 p1 s2 p2 : kept a s p s1 p1 → kept a s1 p1 s2 p2 → kept a s p s2 p2.
Proof.
  intros [A1 K1] [A2 K2]. split; [intros id Hid; by rewrite A2, A1|]. intros key H1' H2' Hk. apply K2; [done..|]. by apply K1.
Qed.

Lemma complete_settled w k s p a input :
  w_now w ≠ 0%Z → consistent plan s p → pp_Attempts p !! na_ID a = Some a →
  key_unused plan s (na_IdempotencyKey a +:+ ":finished") →
  ti_PlanRevision input = pl_Revision plan → ti_PayloadHash input = "" → ti_IdempotencyKey input = "" →
  json_result (ti_Result input) →
  settled_pass a s p (complete e w k s plan p (na_ID a) input).
Proof.
  intros Hnow Hcon Ha Hu Hrev Hph Hik Hjson. unfold complete.
  destruct (Exec_FinishAttempt _ _ _ _ _ _ _ _) as [[s' p'] r] eqn:Hf.
  assert (∀ b, pp_Attempts p !! na_ID a = Some b → finished_key input b = na_IdempotencyKey a +:+ ":finished") as Hfk.
  { intros b Hb. assert (b = a) as -> by congruence. unfold finished_key. by rewrite Hik. }
  eapply finish_consistent in Hf; [|done|done|done|done|done|done|done|intros b Hb; by rewrite (Hfk b Hb)].
  destruct r as [b|err]; [|by exists p; destruct Hf]. destruct Hf as (Hc & Hoth & b' & Hb' & Hk). split; [done|].
  split; [done|]. intros key _ Hne. apply Hk. by rewrite (Hfk _ Hb').
Qed.

(** The providers the executor can reach, and what they report while their runs
    go on. *)
Definition reachable (run : ExecutionProvider) : Prop :=
  ex_Provider e = Some run ∨ ∃ resolver agent, ex_ProviderResolver e = Some resolver ∧ resolver agent = Ok (Some run).
Definition runs_go_on : Prop :=
  ∀ run w runID snapshot, reachable run → pr_GetRun run w runID = Ok snapshot → classify runID snapshot = None.

Lemma providerForAttempt_reachable provider s a run :
  ex_Provider e = Some provider → providerForAttempt e provider s plan a = Ok run → reachable run.
Proof.
  intros Hp. unfold providerForAttempt. destruct (ex_ProviderResolver e) as [resolver|] eqn:Er.
  2: { intros [= <-]. by left. }
  rewrite rbind_reject_Ok. intros [_ Hr]. destruct (List.find _ _) as [node|]; [|done].
  assert (∀ agent, (let* pr := wrap_err "resolve provider for agent %s: %w" [ad_ID agent] (resolver agent) in
      match pr with Some pr => Ok pr | None => Err (Errorf "resolved provider is nil for agent %s" [ad_ID agent]) end) = Ok run →
    reachable run) as Hres.
  { intros agent Hw. apply rbind_Ok in Hw as ([pr|] & Hw & Hx); [|done]. injection Hx as ->. apply wrap_err_Ok in Hw.
    right. eauto. }
  destruct (wn_Kind node); try (injection Hr as <-; by left).
  - destruct (wn_AgentRef node); [|done]. apply rbind_Ok in Hr as (agent & _ & Hr). by apply (Hres agent).
  - destruct (wn_SquadRef node); [|done]. apply rbind_Ok in Hr as (squad & _ & Hr). apply rbind_Ok in Hr as (agent & _ & Hr).
    by apply (Hres agent).
Qed.

Context (going : runs_go_on).

Lemma reconcile_run_settled provider i s p a now :
  ex_Provider e = Some provider → w_now (ip_world i) ≠ 0%Z → consistent plan s p → pp_Attempts p !! na_ID a = Some a →
  key_unused plan s (na_IdempotencyKey a +:+ ":finished") →
  settled_pass a s p (reconcile_run e provider i s plan p a now).
Proof.
  intros Hprov Hnow Hcon Ha Hu. unfold reconcile_run. cbv zeta.
  destruct (providerForAttempt _ _ _ _ _) as [run|err] eqn:Hrun; [|by exists p].
  apply providerForAttempt_reachable in Hrun; [|done].
  destruct (pr_GetRun run _ _) as [snapshot|err] eqn:Hg; [|by exists p]. by rewrite (going run _ _ snapshot Hrun Hg).
Qed.

Lemma nonblank_ne s : blank s = false → s ≠ "".
Proof. intros Hb ->. by vm_compute in Hb. Qed.

(** A recovered binding is recorded like a first one. *)
Lemma recover_settled repository provider nows w s p a :
  consistent plan s p → pending s p a → na_Status a = AttemptRunning → blank (na_RunID a) = true →
  match recoverUnboundAttempt e repository provider nows w s plan p a with
  | (s', p', Ok None) => consistent plan s' p' ∧ kept a s p s' p'
  | (s', p', Ok (Some b)) =>
      consistent plan s' p' ∧ kept a s p s' p' ∧ na_ID b = na_ID a ∧ na_IdempotencyKey b = na_IdempotencyKey a ∧
      pp_Attempts p' !! na_ID b = Some b ∧ key_unused plan s' (na_IdempotencyKey b +:+ ":finished")
  | (s', _, Err _) => ∃ q, consistent plan s' q
  end.
Proof.
  intros Hcon [Ha Hp] Hrun Hblank. destruct (Hp Hrun) as (Hch & Hub & Huf). specialize (Hub Hblank). unfold recoverUnboundAttempt. destruct (_ || _); [done|].
  destruct (unbound_intent _ _ _) as [intent|]; [|done]. cbv zeta. set (owner := if _ : bool then _ else _).
  pose proof (ClaimOutboxByID_frame (pl_ID plan) (w_io w 0) (w_wall w 0) s (ob_ID intent) owner
    (leaseTTL e (workflowNodeFor plan (na_NodeID a))) (nows 0)) as Hf1.
  destruct (ClaimOutboxByID _ _ _ _ _ _ _) as [s1 [claimed|err]]; simpl in Hf1;
    pose proof (consistent_frame _ _ _ _ Hf1 Hcon) as Hcon1.
  2: { destruct (errors_is _ _); [split; [done|by apply kept_frame]|by exists p]. }
  assert (∀ k err, let s2 := (AckOutbox (w_io w k) (w_wall w k) s1 (ob_ID claimed) owner (nows 1) err).1 in
                   frame (pl_ID plan) (tables s) (tables s2)) as Hack.
  { intros k err. cbv zeta. etrans; [exact Hf1|apply AckOutbox_frame]. }
  destruct (pr_StartRun provider _ _) as [b|err].
  2: { split; [eapply consistent_frame; [apply Hack|done]|apply kept_frame, Hack]. }
  destruct (_ || blank (rb_WorkDir b)) eqn:Hb; [exists p; eapply consistent_frame; [apply Hack|done]|].
  apply orb_false_iff in Hb as [Hb B3]. apply orb_false_iff in Hb as [B1 B2]. apply nonblank_ne in B1, B2, B3.
  destruct (commitAttemptEvent _ _ _ _ _ _ _ _ _ _ _) as [s2 r2] eqn:Hc.
  eapply (consistent_attempt_event plan e _ 2 s1 p) in Hc; [|done|done|by eapply key_unused_frame|].
  2: { intros ev Ht Hk Hj. simpl. apply (rec_bound plan p _ a (rb_ID b) (rb_SessionID b) (rb_WorkDir b)); try done.
       apply recovered_decodes in Hj; [|done]. rewrite Hch. exact Hj. }
  destruct r2 as [[]|err]; [|exists p; by eapply consistent_frame]. destruct Hc as [Hcon2 Hu2].
  pose proof (AckOutbox_frame (pl_ID plan) (w_io w 3) (w_wall w 3) s2 (ob_ID claimed) owner (nows 1) None) as Hf3.
  destruct (AckOutbox _ _ s2 _ _ _ _) as [s3 [[]|err]]; simpl in Hf3; pose proof (consistent_frame _ _ _ _ Hf3 Hcon2) as Hcon3;
    [|by eexists].
  assert (∀ key, key ≠ na_IdempotencyKey a +:+ ":bound" → key_unused plan s key → key_unused plan s3 key) as Hkeys.
  { intros key Hne Hk. eapply key_unused_frame; [exact Hf3|]. apply Hu2; [done|]. by eapply key_unused_frame. }
  split_and!; [done| |done|done|by simpl; rewrite lookup_insert_eq|].
  - split; [|by intros key Hne _; apply Hkeys]. intros id Hid. simpl. by rewrite lookup_insert_ne.
  - simpl. apply Hkeys; [|done]. intros E. by apply last_part in E as [_ [=]].
Qed.

Lemma reconcile_attempt_settled repository provider run_child i s p a now :
  ex_Provider e = Some provider → w_now (ip_world i) ≠ 0%Z → consistent plan s p → pending s p a →
  settled_pass a s p (reconcile_attempt e repository provider run_child i s plan p a now).
Proof.
  intros Hprov Hnow Hcon Hp. pose proof Hp as [Ha Hpr]. unfold reconcile_attempt.
  destruct (bool_decide_reflect (na_Status a = AttemptRunning)) as [Hrun|Hrun]; [|done]. cbn [negb].
  destruct (Hpr Hrun) as (Hch & Hub & Huf). rewrite Hch. cbn [negb andb].
  destruct (lease_expired a now); [apply complete_settled; try done; apply map_Forall_empty|].
  destruct (blank (na_RunID a)) eqn:Hblank; [|by apply reconcile_run_settled].
  pose proof (recover_settled repository provider (ip_nows i) (ip_world i) s p a Hcon Hp Hrun Hblank) as Hr.
  destruct (recoverUnboundAttempt _ _ _ _ _ _ _ _ _) as [[s1 p1] [[b|]|err]]; [|done|done].
  destruct Hr as (Hcon1 & Hkept & Hid & Hk & Hb & Hub').
  pose proof (reconcile_run_settled provider i s1 p1 b now Hprov Hnow Hcon1 Hb Hub') as Hrr.
  destruct (reconcile_run _ _ _ _ _ _ _ _) as [[s2 p2] [x|err]]; [|done]. destruct Hrr as [Hcon2 Hk2]. split; [done|].
  eapply kept_trans; [done|]. unfold kept in *. by rewrite Hid, Hk in Hk2.
Qed.

Lemma pending_other a b s p s' p' :
  kept a s p s' p' → na_ID b ≠ na_ID a → na_IdempotencyKey b ≠ na_IdempotencyKey a → pending s p b → pending s' p' b.
Proof.
  intros [Ho Hk] Hid Hkey [Hb Hp]. split; [by rewrite Ho|]. intros Hrun. destruct (Hp Hrun) as (Hc & Hub & Huf).
  assert (∀ x y, free_of ":" x = true → free_of ":" y = true →
    na_IdempotencyKey b +:+ String ":" x ≠ na_IdempotencyKey a +:+ String ":" y) as Hne.
  { intros x y Hx Hy E. apply last_part in E as [E _]; done. }
  split_and!; [done|intros Hb'; apply Hk; [by apply Hne..|by apply Hub]|apply Hk; [by apply Hne..|done]].
Qed.

Lemma reconcile_loop_settled (step : nat → Store → PlanProjection → NodeAttempt → Outcome) attempts i s p finished :
  (∀ j s p a, consistent plan s p → pending s p a → settled_pass a s p (step j s p a)) →
  NoDup (na_ID <$> attempts) → NoDup (na_IdempotencyKey <$> attempts) →
  consistent plan s p → Forall (pending s p) attempts →
  let '(s', p', (_, err)) := reconcile_loop step i s p finished attempts in
  ∃ q, consistent plan s' q ∧ (err = None → q = p').
Proof.
  intros Hstep. induction attempts as [|a attempts IH] in i, s, p, finished |- *; intros Hids Hkeys Hcon Hall; cbn [reconcile_loop].
  { by exists p. }
  rewrite fmap_cons in Hids, Hkeys. apply NoDup_cons in Hids as [Hid Hids]. apply NoDup_cons in Hkeys as [Hkey Hkeys].
  apply Forall_cons in Hall as [Ha Hall]. pose proof (Hstep i s p a Hcon Ha) as Hs.
  destruct (step i s p a) as [[s1 p1] [item|err]]; [|by destruct Hs as [q Hq]; exists q]. destruct Hs as [Hcon1 Hk].
  apply IH; [done..|]. rewrite Forall_forall in Hall |- *. intros b Hb.
  eapply pending_other; [exact Hk| | |by apply Hall]; intros E; [apply Hid|apply Hkey]; rewrite <- E; by apply list_elem_of_fmap_2.
Qed.

(** A pass of the worker that finds no run ended leaves a log that replays to the
    projection it stores.  For a plan whose running attempts own no nested plan, a
    pass that times out expired leases and recovers lost bindings, whatever the
    outbox and the disk answer, ends in a store whose log is a valid chain that
    replays to exactly the stored projection; without an error that is the
    projection the caller holds.  The outcome of an ended run carries its usage as Go
    integers, which the log gives back as float64 ([usage_replays_as_float]). *)
Theorem reconcile_replays depth repository cfg inputs path s p :
  (0 < depth)%nat → (∀ i, w_now (ip_world (inputs (i :: path))) ≠ 0%Z) → consistent plan s p →
  (∀ id a, pp_Attempts p !! id = Some a → na_Status a = AttemptRunning →
     na_ChildPlanID a = "" ∧ (blank (na_RunID a) = true → key_unused plan s (na_IdempotencyKey a +:+ ":bound")) ∧
     key_unused plan s (na_IdempotencyKey a +:+ ":finished")) →
  (∀ id id' a b, pp_Attempts p !! id = Some a → pp_Attempts p !! id' = Some b →
     na_IdempotencyKey a = na_IdempotencyKey b → id = id') →
  let '(s', p', (_, err)) := Reconcile depth e repository cfg inputs path s plan p in
  ∃ q, t_projections (tables s') !! pl_ID plan = Some q ∧
       (∀ wall, ReplayProjection wall plan (chain_of (tables s') (pl_ID plan)) = Ok q) ∧
       (err = None → q = p').
Proof.
  intros Hd Hnow Hcon Hnew Hinj.
  assert (∀ s' q (P : Prop), consistent plan s' q ∧ P →
    t_projections (tables s') !! pl_ID plan = Some q ∧
    (∀ wall, ReplayProjection wall plan (chain_of (tables s') (pl_ID plan)) = Ok q) ∧ P) as Hfin.
  { intros s' q P [Hq HP]. split; [apply Hq|]. split; [|done]. intros wall. by apply consistent_replays. }
  destruct depth as [|depth]; [lia|]. cbn [Reconcile]. destruct (ex_Provider e) as [provider|] eqn:Hprov; [|exists p; by apply Hfin].
  cbv zeta. rewrite cloneProjection_id.
  pose proof (ri_live _ _ (consistent_inv _ _ _ Hcon)) as [HA _].
  match goal with |- context [reconcile_loop ?f 0 s p [] ?l] => pose proof (reconcile_loop_settled f l 0 s p []) as Hl end.
  destruct (reconcile_loop _ _ _ _ _ _) as [[s' p'] [finished err]]. destruct Hl as (q & Hq); [..|exists q; by apply Hfin].
  - intros j s0 p0 a. by apply reconcile_attempt_settled.
  - apply range_values_NoDup. intros k k' a b Ha Hb E. pose proof (HA _ _ Ha) as [<- _ _ _ _ _].
    pose proof (HA _ _ Hb) as [<- _ _ _ _ _]. done.
  - apply range_values_NoDup. intros k k' a b Ha Hb. by apply Hinj.
  - done.
  - apply Forall_forall. intros a Ha. apply elem_of_range_values in Ha as [id Ha]. pose proof (HA _ _ Ha) as [Hid _ _ _ _ _].
    split; [by rewrite Hid|]. intros Hr. by apply (Hnew id).
Qed.
End props.

(** ** Sample workers *)

#[local] Existing Instance sample_JMs.
#[local] Existing Instance sample_JMb.
#[local] Existing Instance sample_JMf.
#[local] Existing Instance sample_JUs.
#[local] Existing Instance sample_JUb.
#[local] Existing Instance sample_JUf.
#[local] Instance sample_JMr : JsonMarshal RecoveredBound := λ x, sample_JMb (rbd_payload x).

(** When the lease of the sample attempt has run out. *)
Definition expiry : Time := (10 + 15 * Minute)%Z.
Definition sample_inputs (path : list nat) : Inputs :=
  {| ip_ctx := λ _, None; ip_nows := λ _, expiry; ip_io := NoFault; ip_structural := sample_world; ip_dispatch := sample_world;
     ip_closing := sample_world; ip_closing_io := NoFault; ip_world := finish_world |}.
Definition sample_config : SchedulerConfig := {| sch_MaxConcurrent := 1; sch_LeaseTTL := 0 |}.

Definition sample_pass :=
  Reconcile (JM := toy_json) 1 sample_executor true sample_config sample_inputs [] dispatched_store line_plan dispatched_projection.

Lemma dispatched_attempt id a :
  pp_Attempts dispatched_projection !! id = Some a → id = "0" ∧ a = attempt_of dispatched_projection "0".
Proof.
  assert (pp_Attempts dispatched_projection = {["0" := attempt_of dispatched_projection "0"]}) as -> by (vm_compute; reflexivity).
  rewrite lookup_singleton_Some. by intros [-> ->].
Qed.

Lemma sample_runs_go_on `{!JsonUnmarshal value} : runs_go_on sample_executor.
Proof. intros run w id snapshot [[= <-]|(resolver & agent & [=] & _)] [=]. Qed.

Lemma reconcile_replays_witness :
  length sample_pass.2.1 = 1 ∧
  ∃ q, t_projections (tables sample_pass.1.1) !! "plan" = Some q ∧
       (∀ wall, ReplayProjection (JsonMarshal0 := toy_json _) wall line_plan (chain_of (tables sample_pass.1.1) "plan") = Ok q) ∧
       (sample_pass.2.2 = None → q = sample_pass.1.2).
Proof.
  split; [vm_compute; reflexivity|].
  pose proof (reconcile_replays (JM := toy_json) line_plan sample_executor eq_refl (proj2 (proj2 sample_decodes))) as Hr.
  specialize (Hr (λ x b, ltac:(intros Hj _; exact (proj1 (proj2 sample_decodes) (rbd_payload x) b Hj))) sample_runs_go_on 1 true sample_config
    sample_inputs [] dispatched_store dispatched_projection).
  fold sample_pass in Hr. destruct sample_pass as [[s' p'] [finished err]]. apply Hr; clear Hr.
  - lia.
  - intros i. discriminate.
  - exact dispatched_consistent.
  - intros id a Ha _. apply dispatched_attempt in Ha as [-> ->].
    split_and!; [vm_compute; reflexivity|intros Hb; vm_compute in Hb; discriminate Hb|].
    apply key_unused_check. vm_compute. reflexivity.
  - intros id id' a b Ha Hb _. apply dispatched_attempt in Ha as [-> _]. by apply dispatched_attempt in Hb as [-> _].
Defined.

(** The bounded worker of a squad attempt's nested plan: one tick. *)
Definition one_tick :=
  Run (JM := toy_json) 1 sample_executor true sample_config 1 sample_inputs dispatched_store line_plan dispatched_projection
    (sample_envelope 10) "work" "agent" zero_report [0].
Lemma Run_bounded_witness : (∃ err, one_tick.2 = Returned err) ∧ (wr_Ticks one_tick.1.2 ≤ 1)%Z.
Proof.
  pose proof (Run_bounded (JM := toy_json) 1 sample_executor true sample_config 1 sample_inputs dispatched_store line_plan
    dispatched_projection (sample_envelope 10) "work" "agent" [0]) as Hr.
  fold one_tick in Hr. destruct one_tick as [[[s' p'] report] ending]. apply Hr; simpl; lia.
Defined.

(** A plan whose entry node waits for its own feedback: the worker returns at once. *)
Definition idle_run :=
  Run (JM := toy_json) 1 sample_executor true sample_config 0 sample_inputs planned_store stored_plan (new_of stored_plan)
    (sample_envelope 10) "work" "agent" zero_report [0; 1].
Lemma Run_strands_nothing_witness :
  idle_run.2 = Returned None ∧ pp_Status idle_run.1.1.2 ≠ PlanTerminal ∧
  (pp_Status idle_run.1.1.2 = PlanTerminal ∨
   (∃ t s1 p1 err, t ∈ [0; 1] ∧ errors_is ErrDeadlineExceeded err = true ∧
     (Tick (JM := toy_json) sample_executor true sample_config NoFault (λ _, expiry) sample_world sample_world
        s1 stored_plan p1 (sample_envelope 10) "work" "agent").2.2 = Some err) ∨
   ∃ t, t ∈ [0; 1] ∧ quiet stored_plan (sample_inputs [t]) idle_run.1.1.2).
Proof.
  split; [vm_compute; reflexivity|]. split; [vm_compute; discriminate|].
  pose proof (λ s' p' report', Run_strands_nothing (JM := toy_json) 1 sample_executor true sample_config 0 sample_inputs planned_store
    stored_plan (new_of stored_plan) (sample_envelope 10) "work" "agent" zero_report [0; 1] s' p' report') as Hr.
  fold idle_run in Hr. assert (idle_run.2 = Returned None) as E by (vm_compute; reflexivity).
  destruct idle_run as [[[s' p'] report] ending]. cbn [snd fst] in E |- *. subst ending. apply (Hr s' p' report); [lia|reflexivity].
Defined.

(** ** What is not recorded *)

(** A plan past its deadline with nothing running is closed and saved without an
    event: its log replays to a plan that is still open. *)
Definition late_plan : RequirementExecutionPlan := pl_set_Deadline 5 line_plan.
Definition late_tick :=
  Tick (JM := toy_json) sample_executor true sample_config NoFault (λ _, 10%Z) sample_world sample_world line_store late_plan
    (new_of line_plan) (sample_envelope 10) "work" "agent".
Example deadline_not_logged :
  late_tick.2.2 = Some (ESentinel ErrDeadlineExceeded) ∧
  (∃ q, t_projections (tables late_tick.1.1) !! "plan" = Some q ∧ pp_Status q = PlanTerminal) ∧
  ∃ q, ReplayProjection (JsonMarshal0 := toy_json _) 10 late_plan (chain_of (tables late_tick.1.1) "plan") = Ok q ∧
       pp_Status q ≠ PlanTerminal.
Proof.
  split; [vm_compute; reflexivity|]. split; [eexists; split; [vm_compute; reflexivity|reflexivity]|].
  eexists. split; [vm_compute; reflexivity|discriminate].
Qed.

(** A provider that answers without a work directory: the dispatch succeeds and
    commits attempt.bound, which a replay of the log refuses. *)
Definition bare_binding : BoundPayload :=
  {| bp_AttemptID := "0"; bp_RunID := "run"; bp_SessionID := "session"; bp_WorkDir := ""; bp_ChildPlanID := "" |}.
Definition bare_provider : ExecutionProvider :=
  {| pr_Capabilities := pr_Capabilities local_provider;
     pr_StartRun := λ _ _, inl {| rb_ID := "run"; rb_SessionID := "session"; rb_WorkDir := "" |};
     pr_GetRun := pr_GetRun local_provider |}.
Definition bare_executor : Executor :=
  {| ex_Provider := Some bare_provider; ex_ProviderResolver := None; ex_InstructionsResolver := None;
     ex_Repository := false; ex_Events := true; ex_GateEvaluator := None; ex_MergeReducer := None;
     ex_RepairController := None; ex_Owner := "worker"; ex_InvokerID := ""; ex_LeaseTTL := 0 |}.
Definition bare_dispatch :=
  dispatchReady (JM := toy_json) (JMb := toy_json _) bare_executor 10 sample_world line_store line_plan (new_of line_plan)
    (sample_envelope 10) "work" "agent" 1.
Example incomplete_binding_unreplayable :
  bare_dispatch.2.2 = None ∧ length bare_dispatch.2.1 = 1 ∧
  ReplayProjection (JsonMarshal0 := toy_json _) (JsonUnmarshal1 := const_unmarshal bare_binding) 10 line_plan
    (chain_of (tables bare_dispatch.1.1) "plan") = Err (Errorf "attempt.bound provenance is incomplete" []).
Proof. split_and!; vm_compute; reflexivity. Qed.
