(* ===== verification/Lifecycle.v ===== *)
(** * Lifecycle: component startup, shutdown and health

    Models runtime/lifecycle/manager.go: [NewManager] with its stable
    topological order (Kahn's algorithm over Go maps), [Start] with rollback,
    [Stop] and [Health].  What a component's own Start and Stop do is outside
    the manager: their outcomes are arguments, and the manager's calls are
    recorded in a trace.  Contexts and time limits are not modelled. *)
From stdpp Require Import base strings gmap list pretty sorting.
From Stdlib Require Import ZArith Lia.
From S2P Require Import Prelude GoLib.

(** The part of the [Component] interface the manager reads. *)
Record Component := { c_Name : string; c_Dependencies : list string }.

(** [errors.Join] of the non-nil errors; nil when there is none. *)
Definition joined_error := list error.

(** A call the manager makes. *)
Inductive action :=
  | ACancel
  | AStart (name : string) (started : bool)
  | AStop (name : string).

Record Manager := {
  m_components : gmap string Component; m_order : list string; m_started : list string; m_cancel : bool;
  m_stopTimeout : Duration }.

Definition Second : Duration := 1000000000.

(** The dependencies of a component, as the manager compares them. *)
Definition deps (c : Component) : list string := TrimSpace <$> c_Dependencies c.

Section lifecycle.
Context `{!MapRange}.

(** ** [stableTopologicalOrder] *)

Definition check_dependency (components : gmap string Component) (name : string) (seen : list string) (_ : nat)
    (d : string) : result (list string) :=
  reject ((d ≟ "") || contains seen d) (Errorf "component %s has an empty or duplicate dependency" [name]) ;;;
  reject (bool_decide (components !! d = None)) (Errorf "component %s depends on missing component %s" [name; d]) ;;;
  Ok (d :: seen).

Definition check_component (components : gmap string Component) (_ : nat) (nc : string * Component) : result unit :=
  fold_each_from 0 (check_dependency components nc.1) [] (deps nc.2) ;;; Ok tt.

(** [indegree] and [dependents] after the first loop. *)
Definition indegrees (components : gmap string Component) : gmap string Z :=
  (λ c, Z.of_nat (length (deps c))) <$> components.
Definition dependents (components : gmap string Component) (name : string) : list string :=
  sort_strings (fst <$> filter (λ nc : string * Component, name ∈ deps nc.2) (range components)).

(** Removing the edges from one emitted component. *)
Definition release (st : gmap string Z * list string) (dependent : string) : gmap string Z * list string :=
  let '(indegree, ready) := st in
  let k := (default 0 (indegree !! dependent) - 1)%Z in
  (<[dependent := k]> indegree, if (k =? 0)%Z then sort_strings (ready ++ [dependent]) else ready).

(** The main loop; [None] when the fuel runs out, which never happens with one
    more than the number of components. *)
Fixpoint kahn (fuel : nat) (components : gmap string Component) (indegree : gmap string Z) (ready order : list string)
    : option (list string) :=
  match fuel, ready with
  | O, _ => None
  | S _, [] => Some order
  | S fuel', name :: rest =>
      let '(indegree, ready) := foldl release (indegree, rest) (dependents components name) in
      kahn fuel' components indegree ready (order ++ [name])
  end.

Definition ready0 (components : gmap string Component) : list string :=
  sort_strings (fst <$> filter (λ kd : string * Z, kd.2 = 0%Z) (range (indegrees components))).

Definition stableTopologicalOrder (components : gmap string Component) : result (list string) :=
  check_each (check_component components) (range components) ;;;
  match kahn (S (size components)) components (indegrees components) (ready0 components) [] with
  | None => Err (EPanic "order")
  | Some order =>
      reject (negb (length order =? size components)) (Errorf "lifecycle dependency graph contains a cycle" []) ;;;
      Ok order
  end.

(** ** The manager *)

Definition register (m : gmap string Component) (_ : nat) (c : option Component) : result (gmap string Component) :=
  match c with
  | None => Err (Errorf "lifecycle component is nil" [])
  | Some c =>
      let name := TrimSpace (c_Name c) in
      reject (name ≟ "") (Errorf "lifecycle component name is required" []) ;;;
      reject (negb (bool_decide (m !! name = None))) (Errorf "duplicate lifecycle component %q" [name]) ;;;
      Ok (<[name := c]> m)
  end.

Definition NewManager (components : list (option Component)) (stopTimeout : Duration) : result Manager :=
  let stopTimeout := if (stopTimeout <=? 0)%Z then (5 * Second)%Z else stopTimeout in
  let* registered := fold_each_from 0 register ∅ components in
  let* order := stableTopologicalOrder registered in
  Ok {| m_components := registered; m_order := order; m_started := []; m_cancel := false;
        m_stopTimeout := stopTimeout |}.

Definition m_set (started : list string) (cancel : bool) (m : Manager) : Manager :=
  {| m_components := m_components m; m_order := m_order m; m_started := started; m_cancel := cancel;
     m_stopTimeout := m_stopTimeout m |}.

Definition Order (m : Manager) : list string := m_order m.

(** [stopStartedLocked]: every started component, last first, whatever fails. *)
Definition stopStartedLocked (stop : string → result unit) (m : Manager) : Manager * list action * joined_error :=
  let names := reverse (m_started m) in
  (m_set [] (m_cancel m) m, AStop <$> names,
   omap (λ name, match stop name with
                 | Ok _ => None
                 | Err e => Some (Wrapf "stop lifecycle component %s: %w" [name] e) end) names).

(** The start loop over the rest of the order. *)
Fixpoint startLoop (start stop : string → result unit) (rest : list string) (m : Manager)
    : Manager * list action * joined_error :=
  match rest with
  | [] => (m, [], [])
  | name :: rest' =>
      match start name with
      | Err e =>
          let '(m, tr, errs) := stopStartedLocked stop m in
          (m, AStart name false :: ACancel :: tr, Wrapf "start lifecycle component %s: %w" [name] e :: errs)
      | Ok _ =>
          let '(m, tr, errs) := startLoop start stop rest' (m_set (m_started m ++ [name]) (m_cancel m) m) in
          (m, AStart name true :: tr, errs)
      end
  end.

Definition Start (start stop : string → result unit) (m : Manager) : Manager * list action * joined_error :=
  if negb (bool_decide (m_started m = [])) then (m, [], [])
  else startLoop start stop (m_order m) (m_set (m_started m) true m).

Definition Stop (stop : string → result unit) (m : Manager) : Manager * list action * joined_error :=
  let '(m', tr, errs) := stopStartedLocked stop (m_set (m_started m) false m) in
  (m', (if m_cancel m then [ACancel] else []) ++ tr, errs).

(** [Health]: one entry for every component in the order. *)
Definition Health {H} (health : string → H) (m : Manager) : gmap string H :=
  list_to_map ((λ name, (name, health name)) <$> m_order m).
End lifecycle.
