(* ===== verification/LifecycleProps.v ===== *)
(** * LifecycleProps: ordered startup and shutdown *)
From stdpp Require Import base strings gmap list pretty sorting.
From Stdlib Require Import ZArith Lia.
From S2P Require Import Prelude GoLib Lifecycle.

(** Sorting strings depends only on the multiset. *)
Lemma sort_strings_perm l l' : l ≡ₚ l' → sort_strings l = sort_strings l'.
Proof.
  intros Hp. apply (StronglySorted_unique String.le); [apply stable_sort_sorted; apply _..|].
  unfold sort_strings. by rewrite !stable_sort_perm.
Qed.
Lemma elem_of_sort_strings x l : x ∈ sort_strings l ↔ x ∈ l.
Proof. apply elem_of_stable_sort. Qed.
Lemma NoDup_sort_strings l : NoDup (sort_strings l) ↔ NoDup l.
Proof. unfold sort_strings. by rewrite stable_sort_perm. Qed.

(** The dependencies of a component by name. *)
Definition deps_of (cs : gmap string Component) (x : string) : list string :=
  match cs !! x with Some c => deps c | None => [] end.

(** Every dependency is named once and exists. *)
Definition deps_valid (cs : gmap string Component) : Prop :=
  ∀ x, NoDup (deps_of cs x) ∧ ∀ d, d ∈ deps_of cs x → d ≠ "" ∧ is_Some (cs !! d).

(** Dependencies come before what depends on them. *)
Definition ordered (cs : gmap string Component) (order : list string) : Prop :=
  ∀ i x d, order !! i = Some x → d ∈ deps_of cs x → ∃ j, j < i ∧ order !! j = Some d.

(** No cycle: some rank decreases along every dependency. *)
Definition acyclic (cs : gmap string Component) : Prop :=
  ∃ rank : string → nat, ∀ x d, d ∈ deps_of cs x → rank d < rank x.

(** The dependencies of [x] that are not in [order] yet. *)
Definition pending (cs : gmap string Component) (order : list string) (x : string) : list string :=
  filter (λ d, d ∉ order) (deps_of cs x).

Lemma filter_ext_in {A} (P Q : A → Prop) `{!∀ x, Decision (P x), !∀ x, Decision (Q x)} (l : list A) :
  (∀ x, x ∈ l → P x ↔ Q x) → filter P l = filter Q l.
Proof.
  induction l as [|x l IH]; [done|]. intros HPQ. rewrite !filter_cons, IH by set_solver.
  pose proof (HPQ x (list_elem_of_here _ _)). destruct (decide (P x)), (decide (Q x)); naive_solver.
Qed.

Lemma pending_snoc_other cs order name x :
  name ∉ deps_of cs x → pending cs (order ++ [name]) x = pending cs order x.
Proof.
  intros Hn. unfold pending. apply filter_ext_in. intros d Hd.
  rewrite elem_of_app, list_elem_of_singleton. split; [naive_solver|]. intros ? [?| ->]; done.
Qed.

Lemma pending_snoc_dep cs order name x :
  NoDup (deps_of cs x) → name ∈ deps_of cs x → name ∉ order →
  length (pending cs order x) = S (length (pending cs (order ++ [name]) x)).
Proof.
  intros Hnd Hin Hno. unfold pending.
  assert (filter (λ d, d ∉ order) (deps_of cs x) ≡ₚ name :: filter (λ d, d ∉ order ++ [name]) (deps_of cs x)) as ->; [|done].
  apply NoDup_Permutation.
  - by apply NoDup_filter.
  - constructor; [|by apply NoDup_filter]. rewrite list_elem_of_filter. intros [Hn _]. apply Hn.
    apply elem_of_app. right. left.
  - intros d. rewrite elem_of_cons, !list_elem_of_filter, elem_of_app, list_elem_of_singleton.
    destruct (decide (d = name)) as [->|]; naive_solver.
Qed.

Lemma pending_nil cs order x : pending cs order x = [] ↔ ∀ d, d ∈ deps_of cs x → d ∈ order.
Proof.
  unfold pending. split.
  - intros Hf d Hd. destruct (decide (d ∈ order)) as [|Hno]; [done|].
    by destruct (filter_nil_not_elem_of (λ d, d ∉ order) _ d Hf Hno).
  - intros Hall. destruct (filter _ _) as [|d l] eqn:E; [done|].
    assert (d ∈ filter (λ d, d ∉ order) (deps_of cs x)) as Hd by (rewrite E; left).
    apply list_elem_of_filter in Hd as [Hno Hd]. by apply Hall in Hd.
Qed.

Section topo.
Context `{!MapRange}.
Context (cs : gmap string Component).

Lemma check_component_Ok x c i :
  cs !! x = Some c → check_component cs i (x, c) = Ok tt ↔
  NoDup (deps_of cs x) ∧ ∀ d, d ∈ deps_of cs x → d ≠ "" ∧ is_Some (cs !! d).
Proof.
  intros Hx. unfold check_component, deps_of. rewrite Hx. simpl. rewrite rbind_any_Ok.
  assert (∀ ds k seen, (∃ s, fold_each_from k (check_dependency cs x) seen ds = Ok s) ↔
    NoDup ds ∧ ∀ d, d ∈ ds → d ≠ "" ∧ is_Some (cs !! d) ∧ d ∉ seen) as Hds.
  { induction ds as [|d ds IH]; intros k seen; simpl.
    - split; [intros _; split; [constructor|by intros d Hd%elem_of_nil]|by eexists].
    - unfold check_dependency at 1.
      destruct ((d ≟ "") || contains seen d) eqn:E; simpl.
      + split; [by intros [? ?]|]. intros [_ Hall]. destruct (Hall d) as (Hne & _ & Hs); [left|].
        apply orb_true_iff in E. rewrite bool_decide_eq_true, contains_spec in E. naive_solver.
      + apply orb_false_iff in E as [E1 E2]. apply bool_decide_eq_false in E1.
        assert (d ∉ seen) by (rewrite <- contains_spec; by rewrite E2).
        case_bool_decide as Hd; simpl.
        * split; [by intros [? ?]|]. intros [_ Hall]. destruct (Hall d) as (_ & Hs & _); [left|].
          rewrite Hd in Hs. by destruct Hs.
        * apply not_eq_None_Some in Hd. rewrite IH, NoDup_cons. setoid_rewrite not_elem_of_cons.
          setoid_rewrite elem_of_cons. clear IH. split.
          -- intros [Hnd Hall]. split_and!; [|done|].
             ++ intros Hin. by destruct (Hall d Hin) as (_ & _ & ? & _).
             ++ intros y [->|Hy]; [done|]. destruct (Hall y Hy) as (? & ? & _ & ?). done.
          -- intros [[Hdn Hnd] Hall]. split; [done|]. intros y Hy. destruct (Hall y (or_intror Hy)) as (? & ? & ?).
             split_and!; try done. by intros ->. }
  rewrite Hds. split.
  - intros [[? Hall] _]. split; [done|]. intros d Hd. destruct (Hall d Hd) as (? & ? & _). done.
  - intros [? Hall]. split; [split; [done|]|done]. intros d Hd. destruct (Hall d Hd).
    split_and!; [done|done|apply not_elem_of_nil].
Qed.

Lemma checks_Ok : check_each (check_component cs) (range cs) = Ok tt ↔ deps_valid cs.
Proof.
  rewrite check_each_Ok. split.
  - intros Hall x. destruct (cs !! x) as [c|] eqn:Hx.
    + pose proof Hx as Hr. apply elem_of_range, list_elem_of_lookup in Hr as [k Hk].
      apply Hall in Hk. by apply check_component_Ok in Hk.
    + unfold deps_of. rewrite Hx. split; [constructor|by intros d Hd%elem_of_nil].
  - intros Hv k [x c] Hk. apply list_elem_of_lookup_2, elem_of_range in Hk.
    apply check_component_Ok; [done|]. apply Hv.
Qed.

Lemma elem_of_dependents name x : x ∈ dependents cs name ↔ name ∈ deps_of cs x.
Proof.
  unfold dependents, deps_of. rewrite elem_of_sort_strings, list_elem_of_fmap. split.
  - intros ([k c] & -> & Hin). apply list_elem_of_filter in Hin as [Hd Hin]. apply elem_of_range in Hin.
    simpl in *. by rewrite Hin.
  - destruct (cs !! x) as [c|] eqn:Hx; [|by intros ?%elem_of_nil]. intros Hd. exists (x, c). split; [done|].
    apply list_elem_of_filter. split; [done|]. by apply elem_of_range.
Qed.

Lemma NoDup_dependents name : NoDup (dependents cs name).
Proof.
  unfold dependents. rewrite NoDup_sort_strings. eapply sublist_NoDup; [apply (NoDup_range_keys cs)|].
  apply fmap_sublist, sublist_filter.
Qed.

(** ** The loop *)

(** What releasing the dependents of a component does. *)
Lemma foldl_release l g r :
  NoDup l →
  let out := foldl release (g, r) l in
  (∀ x, out.1 !! x = if decide (x ∈ l) then Some (default 0 (g !! x) - 1)%Z else g !! x) ∧
  out.2 ≡ₚ r ++ filter (λ y, (default 0 (g !! y) - 1)%Z = 0%Z) l.
Proof.
  cbv zeta. revert g r. induction l as [|y l IH]; intros g r Hnd.
  - simpl. split; [|by rewrite app_nil_r]. intros x. by destruct (decide (x ∈ [])) as [?%elem_of_nil|].
  - apply NoDup_cons in Hnd as [Hy Hnd]. cbn [foldl]. unfold release at 2 4.
    set (k := (default 0 (g !! y) - 1)%Z). set (r' := if (k =? 0)%Z then _ else _).
    destruct (IH (<[y := k]> g) r' Hnd) as [H1 H2]. split.
    + intros x. rewrite H1. destruct (decide (x = y)) as [->|Hxy].
      * rewrite decide_False by done. rewrite decide_True by left. by rewrite lookup_insert_eq.
      * rewrite lookup_insert_ne by done. destruct (decide (x ∈ l)) as [Hx|Hx].
        -- by rewrite decide_True by by right.
        -- rewrite decide_False; [done|]. by intros [?|?]%elem_of_cons.
    + rewrite H2. assert (filter (λ z, (default 0 (<[y:=k]> g !! z) - 1)%Z = 0%Z) l
                          = filter (λ z, (default 0 (g !! z) - 1)%Z = 0%Z) l) as ->.
      { apply filter_ext_in. intros z Hz. rewrite lookup_insert_ne; [done|]. by intros ->. }
      rewrite filter_cons. fold k. unfold r'. destruct (Z.eqb_spec k 0) as [E|E].
      * rewrite decide_True by done. unfold sort_strings. rewrite stable_sort_perm, <- app_assoc. done.
      * by rewrite decide_False by done.
Qed.

Record kahn_inv (indegree : gmap string Z) (ready order : list string) : Prop := {
  ki_nodup : NoDup (order ++ ready);
  ki_known : ∀ x, x ∈ order ++ ready → is_Some (cs !! x);
  ki_degree : ∀ x, is_Some (cs !! x) → indegree !! x = Some (Z.of_nat (length (pending cs order x)));
  ki_ready : ∀ x, is_Some (cs !! x) → pending cs order x = [] ↔ x ∈ order ++ ready;
  ki_ordered : ordered cs order }.

Lemma kahn_inv_start : kahn_inv (indegrees cs) (ready0 cs) [].
Proof.
  assert (∀ x, pending cs [] x = deps_of cs x) as Hp.
  { intros x. unfold pending. induction (deps_of cs x) as [|d l IH]; [done|]. rewrite filter_cons, IH.
    by rewrite decide_True by apply not_elem_of_nil. }
  assert (∀ x, x ∈ ready0 cs ↔ is_Some (cs !! x) ∧ deps_of cs x = []) as Hr.
  { intros x. unfold ready0. rewrite elem_of_sort_strings, list_elem_of_fmap. split.
    - intros ([k z] & -> & Hin). apply list_elem_of_filter in Hin as [Hz Hin]. apply elem_of_range in Hin.
      simpl in *. unfold indegrees in Hin. rewrite lookup_fmap in Hin. unfold deps_of.
      destruct (cs !! k) as [c|]; [|done]. injection Hin as <-. split; [eauto|]. destruct (deps c); [done|simpl in Hz; lia].
    - intros [[c Hc] Hd]. exists (x, 0%Z). split; [done|]. apply list_elem_of_filter. split; [done|].
      apply elem_of_range. unfold indegrees. rewrite lookup_fmap, Hc. simpl. unfold deps_of in Hd. rewrite Hc in Hd.
      by rewrite Hd. }
  split; simpl.
  - unfold ready0. rewrite NoDup_sort_strings. eapply sublist_NoDup; [apply (NoDup_range_keys (indegrees cs))|].
    apply fmap_sublist, sublist_filter.
  - intros x Hx. by apply Hr in Hx as [? _].
  - intros x [c Hc]. rewrite Hp. unfold indegrees, deps_of. by rewrite lookup_fmap, Hc.
  - intros x Hx. rewrite Hp, Hr. naive_solver.
  - intros i x d Hi. by rewrite lookup_nil in Hi.
Qed.

Lemma kahn_inv_step indegree name rest order :
  deps_valid cs → kahn_inv indegree (name :: rest) order →
  let out := foldl release (indegree, rest) (dependents cs name) in
  kahn_inv out.1 out.2 (order ++ [name]).
Proof.
  intros Hv [K1 K2 K3 K4 K5]. cbv zeta.
  destruct (foldl_release (dependents cs name) indegree rest (NoDup_dependents name)) as [F1 F2].
  set (out := foldl release _ _) in *.
  assert (name ∉ order) as Hname.
  { intros Hin. apply NoDup_app in K1 as (_ & Hd & _). apply (Hd name Hin). left. }
  assert (∀ x, name ∈ deps_of cs x → is_Some (cs !! x)) as Hknown.
  { intros x Hx. unfold deps_of in Hx. destruct (cs !! x); [eauto|by apply elem_of_nil in Hx]. }
  assert (∀ x, name ∈ deps_of cs x → (default 0 (indegree !! x) - 1)%Z = Z.of_nat (length (pending cs (order ++ [name]) x))) as Hdec.
  { intros x Hx. rewrite (K3 x (Hknown x Hx)). simpl.
    rewrite (pending_snoc_dep cs order name x) by (done || apply Hv). lia. }
  set (new := filter _ (dependents cs name)) in F2.
  assert (∀ x, x ∈ new ↔ name ∈ deps_of cs x ∧ pending cs (order ++ [name]) x = []) as Hnew.
  { intros x. unfold new. rewrite list_elem_of_filter, elem_of_dependents. split.
    - intros [Hz Hx]. rewrite Hdec in Hz by done. split; [done|]. destruct (pending _ _ _); [done|simpl in Hz; lia].
    - intros [Hx Hp]. rewrite Hdec by done. by rewrite Hp. }
  assert (∀ x, x ∈ new → x ∉ order ++ name :: rest) as Hfresh.
  { intros x Hx Hin. apply Hnew in Hx as [Hx _]. apply (K4 x (Hknown x Hx)) in Hin.
    rewrite pending_nil in Hin. by apply Hname, Hin. }
  split.
  - rewrite F2, <- app_assoc. simpl. rewrite app_comm_cons, app_assoc. apply NoDup_app. split_and!; [done| |].
    + intros x Hx Hn. by apply (Hfresh x Hn).
    + apply NoDup_filter, NoDup_dependents.
  - intros x Hx. rewrite F2 in Hx. rewrite !elem_of_app, list_elem_of_singleton in Hx.
    destruct Hx as [[Hx| ->]|[Hx|Hx]].
    + apply K2. apply elem_of_app. by left.
    + apply K2. apply elem_of_app. right. left.
    + apply K2. apply elem_of_app. right. by right.
    + apply Hknown. by apply Hnew in Hx as [? _].
  - intros x Hx. rewrite F1. destruct (decide (x ∈ dependents cs name)) as [Hd|Hd]; rewrite elem_of_dependents in Hd.
    + by rewrite Hdec.
    + rewrite pending_snoc_other by done. by apply K3.
  - intros x Hx. rewrite F2, !elem_of_app, list_elem_of_singleton. destruct (decide (name ∈ deps_of cs x)) as [Hd|Hd].
    + split.
      * intros Hp. right. right. by apply Hnew.
      * intros Hin. destruct (decide (x ∈ new)) as [Hn|Hn]; [by apply Hnew in Hn as [_ ?]|].
        assert (x ∈ order ++ name :: rest) as Hin' by (rewrite elem_of_app, elem_of_cons; naive_solver).
        apply (K4 x Hx), pending_nil with (d := name) in Hin'; [|done]. done.
    + rewrite pending_snoc_other by done. rewrite (K4 x Hx), elem_of_app, elem_of_cons. split; [naive_solver|].
      intros [[?|?]|[?|Hn]]; [naive_solver..|]. by apply Hnew in Hn as [? _].
  - intros i x d Hi Hd. apply lookup_app_Some in Hi as [Hi|[Hlen Hi]].
    + destruct (K5 i x d Hi Hd) as (j & Hj & Hl). exists j. split; [done|]. by apply lookup_app_l_Some.
    + destruct (i - length order) as [|k] eqn:E; [|by destruct k]. simpl in Hi. injection Hi as <-.
      assert (pending cs order name = []) as Hp.
      { apply K4; [apply K2|]; apply elem_of_app; right; left. }
      rewrite pending_nil in Hp. apply Hp, list_elem_of_lookup in Hd as [j Hj]. exists j.
      pose proof (lookup_lt_Some _ _ _ Hj). split; [lia|]. by apply lookup_app_l_Some.
Qed.

(** The names of the components. *)
Lemma names_perm l : NoDup l → (∀ x, x ∈ l ↔ is_Some (cs !! x)) → length l = size cs.
Proof.
  intros Hnd Hl. rewrite <- (length_map_to_list cs), <- (length_fmap fst). apply Permutation_length.
  apply NoDup_Permutation; [done|apply NoDup_fst_map_to_list|]. intros x. rewrite Hl, list_elem_of_fmap. split.
  - intros [c Hc]. exists (x, c). split; [done|]. by apply elem_of_map_to_list.
  - intros ([k c] & -> & Hin). apply elem_of_map_to_list in Hin. eauto.
Qed.

Lemma known_length l : NoDup l → (∀ x, x ∈ l → is_Some (cs !! x)) → length l ≤ size cs.
Proof.
  intros Hnd Hl. rewrite <- (length_map_to_list cs), <- (length_fmap fst).
  apply submseteq_length, NoDup_submseteq; [done|]. intros x Hx. destruct (Hl x Hx) as [c Hc].
  apply list_elem_of_fmap. exists (x, c). split; [done|]. by apply elem_of_map_to_list.
Qed.

(** The loop ends within its fuel, with no component left ready. *)
Lemma kahn_ends fuel g r o :
  deps_valid cs → kahn_inv g r o → size cs < fuel + length o →
  ∃ g' o', kahn fuel cs g r o = Some o' ∧ kahn_inv g' [] o'.
Proof.
  intros Hv. revert g r o. induction fuel as [|fuel IH]; intros g r o Hk Hf.
  - pose proof (known_length _ (ki_nodup _ _ _ Hk) (ki_known _ _ _ Hk)) as Hl. rewrite length_app in Hl. simpl in Hf. lia.
  - destruct r as [|name rest]; [by eexists _, _|]. cbn [kahn].
    pose proof (kahn_inv_step g name rest o Hv Hk) as Hs. cbv zeta in Hs.
    destruct (foldl release (g, rest) (dependents cs name)) as [g' r']. simpl in Hs.
    apply IH; [done|]. rewrite length_app. simpl. lia.
Qed.

(** A component whose dependencies all were emitted was emitted. *)
Lemma acyclic_emits g o : deps_valid cs → acyclic cs → kahn_inv g [] o → ∀ x, is_Some (cs !! x) → x ∈ o.
Proof.
  intros Hv [rank Hrank] Hk x. remember (rank x) as n eqn:Hn. revert x Hn.
  induction (lt_wf n) as [n _ IH]. intros x -> Hx.
  rewrite <- (app_nil_r o). apply (ki_ready _ _ _ Hk x Hx). apply pending_nil. intros d Hd.
  eapply IH; [by apply Hrank|done|]. by apply (Hv x).
Qed.

(** The position in the order is a rank. *)
Lemma ordered_acyclic order :
  NoDup order → (∀ x, is_Some (cs !! x) → x ∈ order) → ordered cs order → acyclic cs.
Proof.
  intros Hnd Hall Ho. exists (λ x, match list_find (λ y, y = x) order with Some (i, _) => i | None => 0 end).
  assert (∀ i x, order !! i = Some x → list_find (λ y, y = x) order = Some (i, x)) as Hfind.
  { intros i x Hi. apply list_find_Some. split_and!; [done|done|]. intros j y Hj Hlt ->.
    pose proof (NoDup_lookup _ _ _ _ Hnd Hi Hj). lia. }
  intros x d Hd. assert (is_Some (cs !! x)) as Hx.
  { unfold deps_of in Hd. destruct (cs !! x); [eauto|by apply elem_of_nil in Hd]. }
  apply Hall, list_elem_of_lookup in Hx as [i Hi]. destruct (Ho i x d Hi Hd) as (j & Hj & Hl).
  by rewrite (Hfind _ _ Hi), (Hfind _ _ Hl).
Qed.

Lemma stableTopologicalOrder_Ok order :
  stableTopologicalOrder cs = Ok order →
  deps_valid cs ∧ NoDup order ∧ (∀ x, x ∈ order ↔ is_Some (cs !! x)) ∧ ordered cs order.
Proof.
  unfold stableTopologicalOrder. rewrite rbind_unit_Ok, checks_Ok. intros [Hv Hk]. split; [done|].
  destruct (kahn_ends (S (size cs)) (indegrees cs) (ready0 cs) [] Hv kahn_inv_start) as (g & o & E & Hinv); [simpl; lia|].
  rewrite E in Hk. apply rbind_reject_Ok in Hk as [Hlen [= <-]]. apply negb_false_iff, Nat.eqb_eq in Hlen.
  pose proof (ki_nodup _ _ _ Hinv) as Hnd. pose proof (ki_known _ _ _ Hinv) as Hkn. rewrite app_nil_r in Hnd, Hkn.
  split_and!; [done| |apply Hinv]. intros x. split; [apply Hkn|]. intros [c Hc].
  destruct (decide (x ∈ o)) as [|Hno]; [done|]. exfalso.
  pose proof (known_length (x :: o)) as Hl. rewrite <- Hlen in Hl. simpl in Hl.
  enough (S (length o) ≤ length o) by lia. apply Hl; [by constructor|].
  intros y [->|Hy]%elem_of_cons; eauto.
Qed.

Lemma stableTopologicalOrder_complete :
  deps_valid cs → acyclic cs → ∃ order, stableTopologicalOrder cs = Ok order.
Proof.
  intros Hv Ha. unfold stableTopologicalOrder. rewrite (proj2 checks_Ok Hv). cbn [rbind].
  destruct (kahn_ends (S (size cs)) (indegrees cs) (ready0 cs) [] Hv kahn_inv_start) as (g & o & E & Hinv); [simpl; lia|].
  rewrite E. exists o. pose proof (ki_nodup _ _ _ Hinv) as Hnd. pose proof (ki_known _ _ _ Hinv) as Hkn.
  rewrite app_nil_r in Hnd, Hkn.
  rewrite (names_perm o Hnd), Nat.eqb_refl; [done|]. intros x. split; [apply Hkn|]. by eapply acyclic_emits.
Qed.
End topo.

(** The order does not depend on how Go iterates its maps. *)
Lemma dependents_range (R1 R2 : MapRange) cs name : @dependents R1 cs name = @dependents R2 cs name.
Proof.
  unfold dependents. apply sort_strings_perm. apply fmap_Permutation.
  by rewrite (@range_perm R1), (@range_perm R2).
Qed.
Lemma kahn_range (R1 R2 : MapRange) fuel cs g r o : @kahn R1 fuel cs g r o = @kahn R2 fuel cs g r o.
Proof.
  revert g r o. induction fuel as [|fuel IH]; intros g r o; [done|]. destruct r as [|name rest]; [done|]. cbn [kahn].
  rewrite (dependents_range R1 R2). destruct (foldl release _ _). apply IH.
Qed.
Lemma stableTopologicalOrder_range (R1 R2 : MapRange) cs order :
  @stableTopologicalOrder R1 cs = Ok order → @stableTopologicalOrder R2 cs = Ok order.
Proof.
  unfold stableTopologicalOrder. rewrite !rbind_unit_Ok, !checks_Ok. intros [Hv Hk]. split; [done|].
  rewrite <- (kahn_range R1 R2). replace (@ready0 R2 cs) with (@ready0 R1 cs); [done|].
  unfold ready0. apply sort_strings_perm, fmap_Permutation. by rewrite (@range_perm R1), (@range_perm R2).
Qed.

(** C17: startup order.  [stableTopologicalOrder] succeeds exactly when every
    dependency is named once and registered and there is no cycle; the order
    then lists every component once, dependencies first, and is the same
    whatever order Go iterates its maps in. *)
Theorem startup_order_exact (R1 R2 : MapRange) cs :
  ((∃ order, @stableTopologicalOrder R1 cs = Ok order) ↔ deps_valid cs ∧ acyclic cs) ∧
  (∀ order, @stableTopologicalOrder R1 cs = Ok order →
     NoDup order ∧ (∀ x, x ∈ order ↔ is_Some (cs !! x)) ∧ ordered cs order ∧
     @stableTopologicalOrder R2 cs = Ok order).
Proof.
  split.
  - split.
    + intros [order Ho]. apply stableTopologicalOrder_Ok in Ho as (Hv & Hnd & Hall & Hord). split; [done|].
      apply (ordered_acyclic cs order); [done| |done]. intros x. apply Hall.
    + intros [Hv Ha]. by apply stableTopologicalOrder_complete.
  - intros order Ho. pose proof (stableTopologicalOrder_Ok cs order Ho) as (_ & Hnd & Hall & Hord).
    split_and!; try done. by apply (stableTopologicalOrder_range R1 R2).
Qed.

(** ** Starting and stopping *)

(** The components running after a call. *)
Definition act (running : list string) (a : action) : list string :=
  match a with
  | ACancel | AStart _ false => running
  | AStart name true => running ++ [name]
  | AStop name => filter (λ x, x ≠ name) running
  end.
Abbreviation running_after r tr := (foldl act r tr).

(** [P] holds before, between and after the calls of a trace. *)
Fixpoint throughout (P : list string → Prop) (r : list string) (tr : list action) : Prop :=
  P r ∧ match tr with [] => True | a :: tr' => throughout P (act r a) tr' end.

Lemma throughout_prefix P r tr tr' : throughout P r tr → tr' `prefix_of` tr → P (running_after r tr').
Proof.
  intros Ht [k ->]. revert r Ht. induction tr' as [|a tr' IH]; intros r Ht; simpl.
  - by destruct k, Ht.
  - destruct Ht as [_ Ht]. by apply IH.
Qed.
Lemma throughout_app P r tr tr' :
  throughout P r tr → throughout P (running_after r tr) tr' → throughout P r (tr ++ tr').
Proof. revert r. induction tr as [|a tr IH]; intros r Ht Ht'; [done|]. destruct Ht. simpl. split; [done|]. by apply IH. Qed.

Lemma filter_last l (x : string) : NoDup (l ++ [x]) → filter (λ y, y ≠ x) (l ++ [x]) = l.
Proof.
  intros Hnd. rewrite filter_app, filter_cons_False by naive_solver. rewrite filter_nil, app_nil_r.
  apply NoDup_app in Hnd as (_ & Hd & _). induction l as [|y l IH]; [done|].
  rewrite filter_cons_True; [|intros ->; apply (Hd x); left].
  f_equal. apply IH. intros z Hz. apply Hd. by right.
Qed.

Section calls.
Context (order : list string) (order_nodup : NoDup order).
Abbreviation started_prefix := (λ r, r `prefix_of` order).

Lemma stop_throughout l :
  l `prefix_of` order →
  throughout started_prefix l (AStop <$> reverse l) ∧ running_after l (AStop <$> reverse l) = [].
Proof.
  induction l as [|x l IH] using rev_ind; intros Hp; [done|]. rewrite reverse_snoc. cbn [fmap list_fmap foldl throughout act].
  assert (NoDup (l ++ [x])) as Hnd by (destruct Hp as [k ->]; by apply NoDup_app in order_nodup as (? & _)).
  rewrite filter_last by done. destruct IH as [H1 H2]; [|done].
  etrans; [|exact Hp]. by eexists.
Qed.

(** A call of the manager: the books match the calls, and what runs is always an
    initial part of the order. *)
Definition call_ok (m m' : Manager) (tr : list action) : Prop :=
  throughout started_prefix (m_started m) tr ∧ running_after (m_started m) tr = m_started m' ∧
  m_order m' = m_order m ∧ m_components m' = m_components m.

Lemma startLoop_ok start stop rest m :
  m_started m ++ rest = order →
  let out := startLoop start stop rest m in
  call_ok m out.1.1 out.1.2 ∧
  ((m_started out.1.1 = order ∧ out.2 = []) ∨ (m_started out.1.1 = [] ∧ out.2 ≠ [])).
Proof.
  cbv zeta. revert m. induction rest as [|name rest IH]; intros m Hm; cbn [startLoop].
  - rewrite app_nil_r in Hm. split; [|by left]. split_and!; try done. split; [|done]. by rewrite Hm.
  - assert (m_started m `prefix_of` order) as Hp by by eexists. destruct (start name) as [u|e].
    + destruct (IH (m_set (m_started m ++ [name]) (m_cancel m) m)) as [(I1 & I2 & I3 & I4) Hout].
      { simpl. by rewrite <- app_assoc. }
      destruct (startLoop _ _ _ _) as [[m' tr] errs]. simpl in *. split; [|done]. by split_and!.
    + cbn [stopStartedLocked fst snd]. destruct (stop_throughout _ Hp) as [H1 H2]. split; [|by right].
      by split_and!.
Qed.

Lemma Start_ok start stop m :
  m_order m = order → m_started m `prefix_of` order →
  let out := Start start stop m in
  call_ok m out.1.1 out.1.2 ∧ m_started out.1.1 `prefix_of` order.
Proof.
  cbv zeta. intros Ho Hp. unfold Start. case_bool_decide as Hs; simpl.
  - destruct (startLoop_ok start stop (m_order m) (m_set (m_started m) true m)) as [Hc Hout].
    { simpl. by rewrite Hs, Ho. }
    destruct (startLoop _ _ _ _) as [[m' tr] errs]. simpl in *. split; [done|].
    destruct Hout as [[-> _]|[-> _]]; [done|]. apply prefix_nil.
  - by split.
Qed.

Lemma Stop_ok stop m :
  m_started m `prefix_of` order →
  let out := Stop stop m in call_ok m out.1.1 out.1.2 ∧ m_started out.1.1 = [].
Proof.
  cbv zeta. intros Hp. unfold Stop. cbn [stopStartedLocked]. destruct (stop_throughout _ Hp) as [H1 H2].
  split; [|done]. destruct (m_cancel m); by split_and!.
Qed.
End calls.

(** A call of the manager's interface, with the outcomes of its components. *)
Inductive operation :=
  | OpStart (start stop : string → result unit)
  | OpStop (stop : string → result unit).
Definition run_op (m : Manager) (op : operation) : Manager * list action * joined_error :=
  match op with OpStart start stop => Start start stop m | OpStop stop => Stop stop m end.
Fixpoint run_ops (m : Manager) (ops : list operation) : Manager * list action :=
  match ops with
  | [] => (m, [])
  | op :: ops' =>
      let '(m, tr, _) := run_op m op in
      let '(m, tr') := run_ops m ops' in (m, tr ++ tr')
  end.

Lemma run_ops_ok order ops m :
  NoDup order → m_order m = order → m_started m `prefix_of` order →
  let out := run_ops m ops in
  throughout (λ r, r `prefix_of` order) (m_started m) out.2 ∧ running_after (m_started m) out.2 = m_started out.1.
Proof.
  cbv zeta. intros Hnd. revert m. induction ops as [|op ops IH]; intros m Ho Hp; [done|]. cbn [run_ops].
  assert (call_ok order m (run_op m op).1.1 (run_op m op).1.2 ∧ m_started (run_op m op).1.1 `prefix_of` order) as [Hc Hp'].
  { destruct op as [start stop|stop]; cbn [run_op]; [by apply Start_ok|].
    destruct (Stop_ok order Hnd stop m Hp) as [? ->]. split; [done|]. apply prefix_nil. }
  destruct (run_op m op) as [[m1 tr] errs]. simpl in *. destruct Hc as (C1 & C2 & C3 & _).
  destruct (IH m1) as [I1 I2]; [congruence|done|]. destruct (run_ops m1 ops) as [m2 tr2]. simpl in *. split.
  - apply throughout_app; [done|]. by rewrite C2.
  - by rewrite foldl_app, C2.
Qed.

Lemma ordered_prefix cs order l x d :
  ordered cs order → l `prefix_of` order → x ∈ l → d ∈ deps_of cs x → d ∈ l.
Proof.
  intros Ho [k ->] Hx Hd. apply list_elem_of_lookup in Hx as [i Hi].
  destruct (Ho i x d) as (j & Hj & Hl); [by apply lookup_app_l_Some|done|].
  apply list_elem_of_lookup. exists j. rewrite lookup_app_l in Hl; [done|].
  pose proof (lookup_lt_Some _ _ _ Hi). lia.
Qed.

(** C37: dependencies always run.  Whatever calls of [Start] and [Stop] are made,
    and whatever the components return, at every point between two calls of
    components a running component has all its dependencies running; and the
    manager's list of started components is what runs. *)
Theorem dependencies_always_running `{!MapRange} components stopTimeout m ops tr x d :
  NewManager components stopTimeout = Ok m → tr `prefix_of` (run_ops m ops).2 →
  x ∈ running_after [] tr → d ∈ deps_of (m_components m) x →
  d ∈ running_after [] tr ∧ running_after [] (run_ops m ops).2 = m_started (run_ops m ops).1.
Proof.
  unfold NewManager. cbv zeta. intros Hm. apply rbind_Ok in Hm as (cs & _ & Hm).
  apply rbind_Ok in Hm as (order & Ho & [= <-]). apply stableTopologicalOrder_Ok in Ho as (_ & Hnd & _ & Hord).
  intros Hp Hx Hd. simpl in *.
  match goal with |- context [run_ops ?m ops] => destruct (run_ops_ok order ops m Hnd) as [R1 R2];
    [done|apply prefix_nil|] end.
  split; [|done]. eapply ordered_prefix; [done| |done|done]. by eapply (throughout_prefix _ _ _ _ R1).
Qed.

(** ** A concrete manager *)

Definition db : Component := {| c_Name := "db"; c_Dependencies := [] |}.
Definition api : Component := {| c_Name := "api"; c_Dependencies := ["bus"; " db "] |}.
Definition bus : Component := {| c_Name := "bus"; c_Dependencies := ["db"] |}.
Definition sample_manager : Manager :=
  {| m_components := {["api" := api; "bus" := bus; "db" := db]}; m_order := ["db"; "bus"; "api"]; m_started := [];
     m_cancel := false; m_stopTimeout := 5 * Second |}.
Definition api_fails (name : string) : result unit := if name ≟ "api" then Err (Errorf "boom" []) else Ok tt.

Example rollback_trace :
  run_ops sample_manager [OpStart api_fails (λ _, Ok tt)]
  = (m_set [] true sample_manager,
     [AStart "db" true; AStart "bus" true; AStart "api" false; ACancel; AStop "bus"; AStop "db"]).
Proof. reflexivity. Qed.

Lemma dependencies_always_running_witness :
  @NewManager canonical_range [Some api; Some bus; Some db] 0 = Ok sample_manager ∧
  "db" ∈ running_after [] [AStart "db" true; AStart "bus" true].
Proof.
  split; [vm_compute; reflexivity|].
  apply (@dependencies_always_running canonical_range [Some api; Some bus; Some db] 0 sample_manager
    [OpStart api_fails (λ _, Ok tt)] [AStart "db" true; AStart "bus" true] "bus" "db").
  - vm_compute. reflexivity.
  - by exists [AStart "api" false; ACancel; AStop "bus"; AStop "db"].
  - right. left.
  - left.
Defined.
