(* ===== verification/Workflow.v ===== *)
(** * Workflow: requirement statuses and quality gates

    Models the status table of internal/domain/domain.go ([transitions],
    [Valid], [CanTransition], [Transition]) and the gate engine of
    internal/workflow/workflow.go. *)
From stdpp Require Import base strings list.
From Stdlib Require Import ZArith Lia.
From S2P Require Import Prelude GoLib.

Inductive RequirementStatus :=
  | RequirementReceived | RequirementTriaged | RequirementAssigneesConfirmed | RequirementDesigning
  | RequirementDesignReview | RequirementDeveloping | RequirementUnitVerified | RequirementAPIDocReady
  | RequirementTestDeploying | RequirementTesting | RequirementReadyForHumanQA | RequirementAccepted
  | RequirementReleased | RequirementDesignRework | RequirementTestFailed | RequirementAutoRepairing
  | RequirementHumanTriageRequired | RequirementHumanApprovalNeeded | RequirementBlockedProvider
  | RequirementBlockedEnvironment | RequirementBlockedArtifactStore | RequirementCancelled
  (** Any other string. *)
  | RequirementOther (s : string).
#[global] Instance RequirementStatus_eq_dec : EqDecision RequirementStatus.
Proof. solve_decision. Defined.

(** [transitions]: [None] for a status that is not a key of the map. *)
Definition transitions (s : RequirementStatus) : option (list RequirementStatus) :=
  match s with
  | RequirementReceived => Some [RequirementTriaged; RequirementCancelled]
  | RequirementTriaged => Some [RequirementAssigneesConfirmed; RequirementCancelled]
  | RequirementAssigneesConfirmed => Some [RequirementDesigning; RequirementCancelled]
  | RequirementDesigning => Some [RequirementDesignReview; RequirementDesignRework; RequirementBlockedProvider]
  | RequirementDesignReview => Some [RequirementDeveloping; RequirementDesignRework; RequirementHumanApprovalNeeded]
  | RequirementDesignRework => Some [RequirementDesigning; RequirementCancelled]
  | RequirementDeveloping => Some [RequirementUnitVerified; RequirementTestFailed; RequirementBlockedProvider]
  | RequirementUnitVerified => Some [RequirementAPIDocReady; RequirementTestFailed]
  | RequirementAPIDocReady => Some [RequirementTestDeploying; RequirementBlockedEnvironment]
  | RequirementTestDeploying => Some [RequirementTesting; RequirementBlockedEnvironment]
  | RequirementTesting => Some [RequirementReadyForHumanQA; RequirementTestFailed; RequirementBlockedEnvironment]
  | RequirementTestFailed => Some [RequirementAutoRepairing; RequirementHumanTriageRequired]
  | RequirementAutoRepairing => Some [RequirementDeveloping; RequirementTestFailed; RequirementHumanTriageRequired]
  | RequirementReadyForHumanQA => Some [RequirementAccepted; RequirementDeveloping; RequirementHumanApprovalNeeded]
  | RequirementAccepted => Some [RequirementReleased]
  | RequirementHumanTriageRequired => Some [RequirementDeveloping; RequirementCancelled]
  | RequirementHumanApprovalNeeded => Some [RequirementDeveloping; RequirementAccepted; RequirementCancelled]
  | RequirementBlockedProvider => Some [RequirementDesigning; RequirementDeveloping; RequirementCancelled]
  | RequirementBlockedEnvironment => Some [RequirementTestDeploying; RequirementTesting; RequirementCancelled]
  | RequirementBlockedArtifactStore => Some [RequirementTesting; RequirementReadyForHumanQA; RequirementCancelled]
  | RequirementReleased | RequirementCancelled | RequirementOther _ => None
  end.

Definition RequirementStatus_Valid (s : RequirementStatus) : bool :=
  negb (bool_decide (transitions s = None)) || (s ≟ RequirementReleased) || (s ≟ RequirementAccepted)
  || (s ≟ RequirementCancelled).

Definition CanTransition (from to : RequirementStatus) : bool :=
  if from ≟ to then true else bool_decide (to ∈ default [] (transitions from)).

Definition Transition (from to : RequirementStatus) : result unit :=
  reject (negb (RequirementStatus_Valid from) || negb (RequirementStatus_Valid to))
    (Errorf "invalid requirement status transition %q -> %q" []) ;;;
  reject (negb (CanTransition from to)) (Errorf "invalid requirement status transition %q -> %q" []).

(** ** The gate engine *)

Record GateInput := { gi_Name : string; gi_Decision : string; gi_RepairAttempts : Z }.
Record Engine := { en_MaxRepairAttempts : Z }.

Definition NewEngine (maxRepairAttempts : Z) : Engine :=
  {| en_MaxRepairAttempts := if (maxRepairAttempts <? 1)%Z then 3 else maxRepairAttempts |}.

(** The status a gate asks for. *)
Definition gate_target (e : Engine) (current : RequirementStatus) (g : GateInput) : result RequirementStatus :=
  let pass := gi_Decision g ≟ "pass" in
  if gi_Name g ≟ "design" then Ok (if pass then RequirementDesignReview else RequirementDesignRework)
  else if gi_Name g ≟ "design_review" then Ok (if pass then RequirementDeveloping else RequirementDesignRework)
  else if gi_Name g ≟ "unit_test" then Ok (if pass then RequirementUnitVerified else RequirementTestFailed)
  else if gi_Name g ≟ "api_doc" then Ok (if pass then RequirementAPIDocReady else current)
  else if gi_Name g ≟ "test_deploy" then Ok (if pass then RequirementTesting else RequirementBlockedEnvironment)
  else if gi_Name g ≟ "api_log_data" then Ok (if pass then RequirementReadyForHumanQA else RequirementTestFailed)
  else if gi_Name g ≟ "repair" then
    Ok (if (en_MaxRepairAttempts e <=? gi_RepairAttempts g)%Z then RequirementHumanTriageRequired
        else if pass then RequirementDeveloping else RequirementTestFailed)
  else Err (Errorf "unknown gate %q" [gi_Name g]).

(** On an error the current status is returned. *)
Definition ApplyGate (e : Engine) (current : RequirementStatus) (g : GateInput) : RequirementStatus * result unit :=
  if (gi_Decision g ≠? "pass") && (gi_Decision g ≠? "fail")
  then (current, Err (Errorf "gate decision must be pass or fail" []))
  else match gate_target e current g with
       | Err err => (current, Err err)
       | Ok to => match Transition current to with
                  | Err err => (current, Err err)
                  | Ok _ => (to, Ok tt)
                  end
       end.

(** ** Gates never advance a requirement by failing *)

(** Statuses a failed gate may lead to: rework, blocked or escalated. *)
Definition setback (s : RequirementStatus) : Prop :=
  s = RequirementDesignRework ∨ s = RequirementTestFailed ∨ s = RequirementBlockedEnvironment ∨
  s = RequirementHumanTriageRequired.

Lemma ApplyGate_cases e current g :
  (∃ err, ApplyGate e current g = (current, Err err)) ∨
  (∃ to, gate_target e current g = Ok to ∧ CanTransition current to = true ∧
     (gi_Decision g = "pass" ∨ gi_Decision g = "fail") ∧ ApplyGate e current g = (to, Ok tt)).
Proof.
  unfold ApplyGate. destruct ((gi_Decision g ≠? "pass") && _) eqn:Ed; [by left; eexists|].
  destruct (gate_target e current g) as [to|err]; [|by left; eexists]. unfold Transition.
  destruct (reject (negb _ || _) _); [|by left; eexists]. simpl.
  destruct (CanTransition current to) eqn:Hc; simpl; [|by left; eexists]. right. exists to. split_and!; try done.
  apply andb_false_iff in Ed. rewrite !negb_false_iff, !bool_decide_eq_true in Ed. done.
Qed.

Lemma gate_target_fail e current g to :
  gi_Decision g = "fail" → gate_target e current g = Ok to → to = current ∨ setback to.
Proof.
  unfold gate_target, setback. intros ->. simpl. intros Ht.
  repeat match type of Ht with
  | (if ?b then _ else _) = _ => destruct b
  end; injection Ht as <- || discriminate Ht; try destruct (_ <=? _)%Z; auto 6.
Qed.

(** quality gates.  A gate either leaves the status and reports an error or
    makes a transition of the table; a failed gate never advances a requirement
    (it stays, is sent back, blocked or escalated); and once the repair limit is
    reached the repair gate only escalates to a human. *)
Theorem gates_fail_closed e current g to r :
  ApplyGate e current g = (to, r) →
  (r ≠ Ok tt → to = current) ∧
  (r = Ok tt → CanTransition current to = true) ∧
  (gi_Decision g ≠ "pass" → to = current ∨ setback to) ∧
  (gi_Name g = "repair" → (en_MaxRepairAttempts e ≤ gi_RepairAttempts g)%Z →
     to = current ∨ to = RequirementHumanTriageRequired).
Proof.
  destruct (ApplyGate_cases e current g) as [[err ->]|(to' & Ht & Hc & Hd & ->)]; intros [= <- <-].
  - split_and!; auto; done.
  - split_and!; try done.
    + intros Hp. destruct Hd as [?|Hd]; [done|]. by eapply gate_target_fail.
    + intros Hn Hmax. revert Ht. unfold gate_target. rewrite Hn. simpl. rewrite (proj2 (Z.leb_le _ _) Hmax).
      intros [= <-]. by right.
Qed.

Lemma gates_fail_closed_witness :
  ApplyGate (NewEngine 3) RequirementTestFailed {| gi_Name := "repair"; gi_Decision := "fail"; gi_RepairAttempts := 3 |}
    = (RequirementHumanTriageRequired, Ok tt) ∧
  CanTransition RequirementTestFailed RequirementHumanTriageRequired = true.
Proof.
  split; [reflexivity|].
  apply (gates_fail_closed (NewEngine 3) RequirementTestFailed
    {| gi_Name := "repair"; gi_Decision := "fail"; gi_RepairAttempts := 3 |} RequirementHumanTriageRequired (Ok tt)); reflexivity.
Defined.
