(* ===== verification/Journal.v ===== *)
(** * Journal: the durable execution journal of the runtime kernel

    Models internal/runtime/kernel.go: the hash-chained journal of execution
    events, its snapshot file shared by several processes, the leases that fence
    writers, and the reload, rebase and commit steps every operation goes through.

    The mutex serialises the goroutines of one process, so an operation is one
    function from a [World] (the journal in memory, the snapshot file and the
    shadow store) to the next.  What happens outside the process is an argument
    [Io] of the operation: the ids and clock readings it draws, the failures of
    the file system, and what other processes do to the file in the two windows
    an operation leaves open (before it takes the file lock, and between the
    commit and the re-read).  The file is represented by the snapshot its text
    decodes to; a payload is represented up to insignificant white space, which
    the snapshot encoder changes and every reader ignores. *)
From stdpp Require Import base strings gmap list pretty.
From Stdlib Require Import ZArith Lia Ascii.
From S2P Require Import Prelude GoLib GoStrings GoValue GoJson ContextModel.

(** ** Constants *)

Definition SchemaVersion : Z := 1.
Definition StatusPending : string := "pending".
Definition StatusCommitted : string := "committed".
Definition StatusRejected : string := "rejected".
Definition StatusRecoveryNeeded : string := "recovery_required".

Definition runtime_ErrCorrupt : error := ESentinel (Sentinel "runtime" "ErrCorrupt").
Definition runtime_ErrConflict : error := ESentinel (Sentinel "runtime" "ErrConflict").
Definition runtime_ErrIdempotencyConflict : error := ESentinel (Sentinel "runtime" "ErrIdempotencyConflict").
Definition runtime_ErrLeaseBusy : error := ESentinel (Sentinel "runtime" "ErrLeaseBusy").
Definition runtime_ErrLeaseLost : error := ESentinel (Sentinel "runtime" "ErrLeaseLost").

(** ** Data *)

Record Scope := { sc_TenantID : string; sc_WorkspaceID : string; sc_SessionID : string; sc_RunID : string }.
#[global] Instance Scope_eq_dec : EqDecision Scope.
Proof. solve_decision. Defined.

(** [Scope.valid]. *)
Definition Scope_valid (s : Scope) : bool :=
  negb (blank (sc_TenantID s)) && negb (blank (sc_WorkspaceID s))
  && negb (blank (sc_SessionID s)) && negb (blank (sc_RunID s)).

Record Event := {
  je_EventID : string; je_SchemaVersion : Z; je_Sequence : Z; je_EventType : string; je_AggregateType : string;
  je_AggregateID : string; je_Scope : Scope; je_CorrelationID : string; je_CausationID : string;
  je_IdempotencyKey : string; je_WriterID : string; je_FencingToken : Z; je_Status : string; je_Payload : string;
  je_PayloadHash : string; je_PreviousHash : string; je_EnvelopeHash : string; je_CreatedAt : Time;
  je_CommittedAt : Time }.

Record Input := {
  in_EventType : string; in_AggregateType : string; in_AggregateID : string; in_Scope : Scope;
  in_CorrelationID : string; in_CausationID : string; in_IdempotencyKey : string; in_WriterID : string;
  in_FencingToken : Z; in_Status : string; in_Payload : value }.

Record Lease := { jl_Key : string; jl_Owner : string; jl_FencingToken : Z; jl_ExpiresAt : Time; jl_UpdatedAt : Time }.

(** The snapshot; [omitempty] leaves an empty map out of the file, and it comes
    back as nil. *)
Record journalState := {
  js_Version : Z; js_Revision : Z; js_Events : list Event; js_Leases : gmap string Lease;
  js_Effects : gmap string string }.

Record Journal := {
  j_path : string; j_revision : Z; j_events : list Event; j_leases : gmap string Lease;
  j_effects : gmap string string }.

(** Absent, undecodable, or a snapshot. *)
Definition JournalFile := option (result journalState).

Definition zero_Scope : Scope := {| sc_TenantID := ""; sc_WorkspaceID := ""; sc_SessionID := ""; sc_RunID := "" |}.
Definition zero_Event : Event :=
  {| je_EventID := ""; je_SchemaVersion := 0; je_Sequence := 0; je_EventType := ""; je_AggregateType := "";
     je_AggregateID := ""; je_Scope := zero_Scope; je_CorrelationID := ""; je_CausationID := "";
     je_IdempotencyKey := ""; je_WriterID := ""; je_FencingToken := 0; je_Status := ""; je_Payload := "";
     je_PayloadHash := ""; je_PreviousHash := ""; je_EnvelopeHash := ""; je_CreatedAt := 0; je_CommittedAt := 0 |}.
Definition zero_Lease : Lease :=
  {| jl_Key := ""; jl_Owner := ""; jl_FencingToken := 0; jl_ExpiresAt := 0; jl_UpdatedAt := 0 |}.

(** [e] at another place of the chain. *)
Definition je_chained (seq : Z) (previous : string) (e : Event) : Event :=
  {| je_EventID := je_EventID e; je_SchemaVersion := je_SchemaVersion e; je_Sequence := seq;
     je_EventType := je_EventType e; je_AggregateType := je_AggregateType e; je_AggregateID := je_AggregateID e;
     je_Scope := je_Scope e; je_CorrelationID := je_CorrelationID e; je_CausationID := je_CausationID e;
     je_IdempotencyKey := je_IdempotencyKey e; je_WriterID := je_WriterID e; je_FencingToken := je_FencingToken e;
     je_Status := je_Status e; je_Payload := je_Payload e; je_PayloadHash := je_PayloadHash e;
     je_PreviousHash := previous; je_EnvelopeHash := je_EnvelopeHash e; je_CreatedAt := je_CreatedAt e;
     je_CommittedAt := je_CommittedAt e |}.
(** [e.EnvelopeHash = hash]. *)
Definition je_sealed (hash : string) (e : Event) : Event :=
  {| je_EventID := je_EventID e; je_SchemaVersion := je_SchemaVersion e; je_Sequence := je_Sequence e;
     je_EventType := je_EventType e; je_AggregateType := je_AggregateType e; je_AggregateID := je_AggregateID e;
     je_Scope := je_Scope e; je_CorrelationID := je_CorrelationID e; je_CausationID := je_CausationID e;
     je_IdempotencyKey := je_IdempotencyKey e; je_WriterID := je_WriterID e; je_FencingToken := je_FencingToken e;
     je_Status := je_Status e; je_Payload := je_Payload e; je_PayloadHash := je_PayloadHash e;
     je_PreviousHash := je_PreviousHash e; je_EnvelopeHash := hash; je_CreatedAt := je_CreatedAt e;
     je_CommittedAt := je_CommittedAt e |}.

Definition set_revision (n : Z) (j : Journal) : Journal :=
  {| j_path := j_path j; j_revision := n; j_events := j_events j; j_leases := j_leases j; j_effects := j_effects j |}.
Definition set_jevents (es : list Event) (j : Journal) : Journal :=
  {| j_path := j_path j; j_revision := j_revision j; j_events := es; j_leases := j_leases j; j_effects := j_effects j |}.
Definition set_jleases (ls : gmap string Lease) (j : Journal) : Journal :=
  {| j_path := j_path j; j_revision := j_revision j; j_events := j_events j; j_leases := ls; j_effects := j_effects j |}.
Definition set_jeffects (es : gmap string string) (j : Journal) : Journal :=
  {| j_path := j_path j; j_revision := j_revision j; j_events := j_events j; j_leases := j_leases j; j_effects := es |}.

(** ** Keys *)

Definition nul : string := String Ascii.zero "".
Definition scopedKey (scope : Scope) (key : string) : string :=
  Join nul [sc_TenantID scope; sc_WorkspaceID scope; sc_SessionID scope; sc_RunID scope; key].
(** The lease key of [AcquireLease], [ReleaseLease] and [prepareLocked]. *)
Definition leaseKey (scope : Scope) : string :=
  sc_TenantID scope +:+ nul +:+ sc_WorkspaceID scope +:+ nul +:+ sc_RunID scope.
Definition shadowScopeKey (scope : Scope) : string :=
  sc_TenantID scope +:+ nul +:+ sc_WorkspaceID scope +:+ nul +:+ sc_SessionID scope +:+ nul +:+ sc_RunID scope.

(** ** The shadow

    [EventShadow] is the migration sink the journal mirrors its events to; a
    report is kept per scope and never read by an operation. *)

Record ShadowReport := {
  sr_Scope : Scope; sr_StreamID : string; sr_LegacyCount : Z; sr_ShadowCount : Z; sr_LegacyDigest : string;
  sr_ShadowDigest : string; sr_Diverged : bool; sr_DivergenceAt : Z; sr_Error : string; sr_CheckedAt : Time }.

Class EventShadow (S : Type) := Mirror : S → Scope → list Event → S * ShadowReport.

(** The journal, its file, and its shadow with the latest report of each scope. *)
Record World {S : Type} := {
  w_journal : Journal; w_file : JournalFile; w_shadow : option S; w_reports : gmap string ShadowReport }.
Arguments World S : clear implicits.

(** What an operation meets outside the process. *)
Record Io := {
  io_tick : nat → string * Time;      (* [domain.NewID()] and [time.Now()] of the n-th prepared record *)
  io_now : Time;                      (* [time.Now()] of the operation itself *)
  io_reload : option error;           (* the read of [reloadLocked] fails *)
  io_peers : JournalFile → JournalFile;   (* other processes, before the file lock is taken *)
  io_lock : option error;             (* the file lock cannot be taken *)
  io_write : option error;            (* the temporary file or the rename fails *)
  io_peers_after : JournalFile → JournalFile; (* other processes, after the lock is released *)
  io_reread : option error }.         (* the read of [reloadFromDiskLocked] fails *)

Section journal.
Context `{!Sha256, !JsonCompact, !JsonMarshal value, !JsonMarshal Event, !JsonMarshal journalState}.

(** ** Digests and the validity of a chain *)

Definition digest (data : string) : string := "sha256:" +:+ sha256_hex data.
Definition payloadDigest (data : string) : string :=
  match json_compact data with Some canonical => digest canonical | None => "" end.
Definition envelopeDigest (event : Event) : string := digest (default "" (json_marshal (je_sealed "" event))).

Definition event_corrupt (i : nat) (previous : string) (e : Event) : bool :=
  (je_EventID e ≟ "") || (je_SchemaVersion e ≠? SchemaVersion) || (je_Sequence e ≠? Z.of_nat (S i))
  || negb (Scope_valid (je_Scope e)) || (je_EventType e ≟ "") || (je_AggregateType e ≟ "")
  || (je_AggregateID e ≟ "") || (je_PreviousHash e ≠? previous)
  || (je_PayloadHash e ≠? payloadDigest (je_Payload e)) || (je_EnvelopeHash e ≠? envelopeDigest e).

(** One iteration; the loop carries the previous hash and the ids seen. *)
Definition validate_event (acc : string * list string) (i : nat) (e : Event) : result (string * list string) :=
  let '(previous, seen) := acc in
  reject (event_corrupt i previous e) (Wrapf "%w: event sequence %d" [itoa (S i)] runtime_ErrCorrupt) ;;;
  reject (contains seen (je_EventID e)) (Wrapf "%w: duplicate event %s" [je_EventID e] runtime_ErrCorrupt) ;;;
  Ok (je_EnvelopeHash e, je_EventID e :: seen).

Definition validateEvents (events : list Event) : result unit :=
  fold_each_from 0 validate_event ("", []) events ;;; Ok tt.

Definition validateState (state : journalState) : result unit :=
  reject ((js_Version state ≠? 0%Z) && (js_Version state ≠? SchemaVersion))
    (Wrapf "%w: unsupported version %d" [pretty (js_Version state)] runtime_ErrCorrupt) ;;;
  validateEvents (js_Events state).

(** [Journal.Verify]. *)
Definition Verify (j : Journal) : result unit := validateEvents (j_events j).

(** ** Opening and reading *)

Definition empty_journal (path : string) : Journal :=
  {| j_path := path; j_revision := 0; j_events := []; j_leases := ∅; j_effects := ∅ |}.

(** [NewJournal]; [fault] is an error of the read other than [os.ErrNotExist]. *)
Definition NewJournal (path : string) (fault : option error) (file : JournalFile) : result Journal :=
  let path := TrimSpace path in
  if path ≟ "" then Ok (empty_journal path) else
  match fault with
  | Some e => Err (Wrapf "read runtime journal: %w" [] e)
  | None =>
      match file with
      | None => Ok (empty_journal path)
      | Some (Err e) => Err (Wrapf "decode runtime journal: %w" [] e)
      | Some (Ok state) =>
          validateState state ;;;
          Ok {| j_path := path; j_revision := js_Revision state; j_events := js_Events state;
                j_leases := js_Leases state; j_effects := js_Effects state |}
      end
  end.

(** [Journal.List]. *)
Definition List_ (j : Journal) (scope : Scope) : list Event :=
  filter (λ e, negb (Scope_valid scope && (je_Scope e ≠? scope)) = true) (j_events j).

(** [if m != nil]: a map read from a snapshot is nil exactly when it is empty. *)
Definition is_nil {A} (m : gmap string A) : bool := bool_decide (map_to_list m = []).

Definition reload_journal (io : Io) (file : JournalFile) (j : Journal) : result Journal :=
  if j_path j ≟ "" then Ok j else
  match io_reload io, file with
  | Some e, _ => Err e
  | None, None => Ok j
  | None, Some (Err e) => Err (Wrapf "decode runtime journal: %w" [] e)
  | None, Some (Ok state) =>
      validateState state ;;;
      if (js_Revision state <=? j_revision j)%Z then Ok j else
      Ok {| j_path := j_path j; j_revision := js_Revision state; j_events := js_Events state;
            j_leases := if is_nil (js_Leases state) then j_leases j else js_Leases state;
            j_effects := if is_nil (js_Effects state) then j_effects j else js_Effects state |}
  end.

Definition reread_journal (io : Io) (file : JournalFile) (j : Journal) : result Journal :=
  if j_path j ≟ "" then Ok j else
  match io_reread io, file with
  | Some e, _ => Err e
  | None, None => Err (Errorf "file does not exist" [])
  | None, Some (Err e) => Err e
  | None, Some (Ok state) =>
      validateState state ;;;
      Ok {| j_path := j_path j; j_revision := js_Revision state; j_events := js_Events state;
            j_leases := js_Leases state; j_effects := js_Effects state |}
  end.

Definition readRevision (file : JournalFile) : result Z :=
  match file with
  | None => Ok 0%Z
  | Some (Err e) => Err (Wrapf "decode runtime revision: %w" [] e)
  | Some (Ok state) => validateState state ;;; Ok (js_Revision state)
  end.

(** ** Committing a candidate *)

(** The loop that compares the histories; [disk] is at least as long. *)
Fixpoint same_history (mine disk : list Event) : bool :=
  match mine, disk with
  | [], _ => true
  | e :: mine', d :: disk' =>
      (je_EventID d ≟ je_EventID e) && (je_EnvelopeHash d ≟ je_EnvelopeHash e) && same_history mine' disk'
  | _ :: _, [] => false
  end.

(** The loop that moves the new events behind the peer's. *)
Fixpoint rechain (n : nat) (previous : string) (suffix : list Event) : list Event :=
  match suffix with
  | [] => []
  | e :: suffix' =>
      let e := je_chained (Z.of_nat (S n)) previous e in
      let e := je_sealed (envelopeDigest e) e in
      e :: rechain (S n) (je_EnvelopeHash e) suffix'
  end.

Definition last_hash (events : list Event) : string := default "" (je_EnvelopeHash <$> last events).

(** The candidate an operation hands to [persistCandidateLocked]. *)
Record Candidate := {
  cd_events : list Event; cd_leases : gmap string Lease; cd_effects : gmap string string }.

(** The branch of [persistCandidateLocked] for a file another process has
    advanced: the journal with the peer's history, and the merged candidate. *)
Definition rebase (diskRevision : Z) (file : JournalFile) (c : Candidate) (j : Journal) : result (Journal * Candidate) :=
  match file with
  | None => Err (Errorf "file does not exist" [])
  | Some (Err e) => Err e
  | Some (Ok disk) =>
      reject (length (js_Events disk) <? length (j_events j))%nat
        (Wrapf "%w: expected revision %d, found %d" [pretty (j_revision j); pretty diskRevision] runtime_ErrConflict) ;;;
      reject (negb (same_history (j_events j) (js_Events disk)))
        (Wrapf "%w: peer event history diverged" [] runtime_ErrConflict) ;;;
      let '(j, events) :=
        if (length (j_events j) <? length (js_Events disk))%nat
        then (set_jevents (js_Events disk) j,
              js_Events disk ++ rechain (length (js_Events disk)) (last_hash (js_Events disk))
                                  (drop (length (j_events j)) (cd_events c)))
        else (j, cd_events c) in
      Ok (set_revision diskRevision j,
          {| cd_events := events; cd_leases := cd_leases c ∪ js_Leases disk;
             cd_effects := cd_effects c ∪ js_Effects disk |})
  end.

(** [persistCandidateLocked] for a journal with a file: the journal and the file
    afterwards. *)
Definition persist_candidate (io : Io) (c : Candidate) (j : Journal) (file : JournalFile)
    : Journal * JournalFile * result unit :=
  match (if io_lock io is Some e then Err e else readRevision file) with
  | Err e => (j, file, Err e)
  | Ok diskRevision =>
      match (if diskRevision ≠? j_revision j then rebase diskRevision file c j else Ok (j, c)) with
      | Err e => (j, file, Err e)
      | Ok (j, c) =>
          let state := {| js_Version := SchemaVersion; js_Revision := add64 (j_revision j) 1;
                          js_Events := cd_events c; js_Leases := cd_leases c; js_Effects := cd_effects c |} in
          match json_marshal state, io_write io with
          | None, _ => (j, file, Err (Errorf "json.MarshalIndent" []))
          | Some _, Some e => (j, file, Err e)
          | Some _, None => (set_revision (js_Revision state) j, Some (Ok state), Ok tt)
          end
      end
  end.

(** ** Preparing a record *)

Definition status_known (s : string) : bool :=
  (s ≟ StatusPending) || (s ≟ StatusCommitted) || (s ≟ StatusRejected) || (s ≟ StatusRecoveryNeeded).

(** The input with its fields trimmed and defaulted. *)
Definition normalized (input : Input) : Input :=
  {| in_EventType := TrimSpace (in_EventType input); in_AggregateType := TrimSpace (in_AggregateType input);
     in_AggregateID := TrimSpace (in_AggregateID input); in_Scope := in_Scope input;
     in_CorrelationID := in_CorrelationID input; in_CausationID := in_CausationID input;
     in_IdempotencyKey := in_IdempotencyKey input;
     in_WriterID := if in_WriterID input ≟ "" then "local" else in_WriterID input;
     in_FencingToken := in_FencingToken input;
     in_Status := if in_Status input ≟ "" then StatusCommitted else in_Status input;
     in_Payload := in_Payload input |}.

(** The first record of the scope that carries the idempotency key. *)
Definition prior_event (existing : list Event) (input : Input) : option Event :=
  if in_IdempotencyKey input ≟ "" then None else
  find (λ e, (je_IdempotencyKey e ≟ in_IdempotencyKey input) && (je_Scope e ≟ in_Scope input)) existing.

(** The lease check: a positive token must be the one of a live lease. *)
Definition fence_open (leases : gmap string Lease) (now : Time) (input : Input) : bool :=
  if (0 <? in_FencingToken input)%Z then
    match leases !! leaseKey (in_Scope input) with
    | Some lease => (jl_Owner lease ≟ in_WriterID input) && (jl_FencingToken lease ≟ in_FencingToken input)
                    && After (jl_ExpiresAt lease) now
    | None => false
    end
  else true.

(** The record appended after [existing]. *)
Definition new_event (id : string) (now : Time) (existing : list Event) (input : Input) (payload : string) : Event :=
  let e := {| je_EventID := id; je_SchemaVersion := SchemaVersion;
              je_Sequence := Z.of_nat (length existing + 1); je_EventType := in_EventType input;
              je_AggregateType := in_AggregateType input; je_AggregateID := in_AggregateID input;
              je_Scope := in_Scope input; je_CorrelationID := in_CorrelationID input;
              je_CausationID := in_CausationID input; je_IdempotencyKey := in_IdempotencyKey input;
              je_WriterID := in_WriterID input; je_FencingToken := in_FencingToken input;
              je_Status := in_Status input; je_Payload := payload; je_PayloadHash := payloadDigest payload;
              je_PreviousHash := last_hash existing; je_EnvelopeHash := ""; je_CreatedAt := now;
              je_CommittedAt := now |} in
  je_sealed (envelopeDigest e) e.

Definition prepareLocked (leases : gmap string Lease) (tick : string * Time) (existing : list Event) (input : Input)
    : result Event :=
  reject (negb (Scope_valid (in_Scope input)))
    (Errorf "tenant_id, workspace_id, session_id and run_id are required" []) ;;;
  let input := normalized input in
  reject ((in_EventType input ≟ "") || (in_AggregateType input ≟ "") || (in_AggregateID input ≟ ""))
    (Errorf "event_type, aggregate_type and aggregate_id are required" []) ;;;
  reject (negb (status_known (in_Status input))) (Errorf "invalid runtime event status" []) ;;;
  match json_marshal (in_Payload input) with
  | None => Err (Wrapf "encode runtime payload: %w" [] (Errorf "json.Marshal" []))
  | Some payload =>
      match prior_event existing input with
      | Some prior =>
          if (je_PayloadHash prior ≠? payloadDigest payload) || (je_EventType prior ≠? in_EventType input)
             || (je_AggregateID prior ≠? in_AggregateID input)
          then Err runtime_ErrIdempotencyConflict else Ok prior
      | None =>
          if fence_open leases (snd tick) input then Ok (new_event (fst tick) (snd tick) existing input payload)
          else Err runtime_ErrLeaseLost
      end
  end.

(** The loop of [appendBatchLocked]: the candidate and the last record. *)
Fixpoint prepare_batch (leases : gmap string Lease) (tick : nat → string * Time) (i : nat) (candidate : list Event)
    (last : Event) (inputs : list Input) : result (list Event * Event) :=
  match inputs with
  | [] => Ok (candidate, last)
  | input :: inputs' =>
      let* event := prepareLocked leases (tick i) candidate input in
      let candidate := if existsb (λ p, je_EventID p ≟ je_EventID event) candidate
                       then candidate else candidate ++ [event] in
      prepare_batch leases tick (S i) candidate event inputs'
  end.
End journal.

(** ** Operations on the world *)

Section operations.
Context `{!Sha256, !JsonCompact, !JsonMarshal value, !JsonMarshal Event, !JsonMarshal journalState}.
Context {S : Type} `{!EventShadow S}.

Definition with_journal (j : Journal) (w : World S) : World S :=
  {| w_journal := j; w_file := w_file w; w_shadow := w_shadow w; w_reports := w_reports w |}.
Definition with_file (f : JournalFile) (w : World S) : World S :=
  {| w_journal := w_journal w; w_file := f; w_shadow := w_shadow w; w_reports := w_reports w |}.

Definition reloadLocked (io : Io) (w : World S) : World S * result unit :=
  match reload_journal io (w_file w) (w_journal w) with
  | Ok j => (with_journal j w, Ok tt)
  | Err e => (w, Err e)
  end.

(** The re-read happens after the lock is released: peers may have run. *)
Definition reloadFromDiskLocked (io : Io) (w : World S) : World S * result unit :=
  if j_path (w_journal w) ≟ "" then (w, Ok tt) else
  let w := with_file (io_peers_after io (w_file w)) w in
  match reread_journal io (w_file w) (w_journal w) with
  | Ok j => (with_journal j w, Ok tt)
  | Err e => (w, Err e)
  end.

Definition persistCandidateLocked (io : Io) (c : Candidate) (w : World S) : World S * result unit :=
  let j := w_journal w in
  if j_path j ≟ "" then (with_journal (set_revision (add64 (j_revision j) 1) j) w, Ok tt) else
  let '(j, file, r) := persist_candidate io c j (io_peers io (w_file w)) in
  (with_file file (with_journal j w), r).

(** ** The shadow *)

(** One iteration of [syncShadowScopesLocked]. *)
Definition sync_scope (w : World S) (scope : Scope) : World S :=
  match w_shadow w with
  | None => w
  | Some s =>
      let '(s, report) := Mirror s scope (filter (λ e, je_Scope e = scope) (j_events (w_journal w))) in
      {| w_journal := w_journal w; w_file := w_file w; w_shadow := Some s;
         w_reports := <[shadowScopeKey scope := report]> (w_reports w) |}
  end.
Definition syncShadowScopesLocked (scopes : list Scope) (w : World S) : World S := foldl sync_scope w scopes.

(** The scopes of a batch, each once. *)
Fixpoint batch_scopes (seen : list string) (inputs : list Input) : list Scope :=
  match inputs with
  | [] => []
  | input :: inputs' =>
      let key := shadowScopeKey (in_Scope input) in
      if contains seen key then batch_scopes seen inputs' else in_Scope input :: batch_scopes (key :: seen) inputs'
  end.

Definition sortedScopes (events : list Event) : list Scope :=
  let byKey : gmap string Scope := foldl (λ m e, <[shadowScopeKey (je_Scope e) := je_Scope e]> m) ∅ events in
  omap (λ key, byKey !! key) (sort_strings (map_to_list byKey).*1).

Definition shadowReportsLocked (w : World S) : list ShadowReport :=
  omap (λ key, w_reports w !! key) (sort_strings (map_to_list (w_reports w)).*1).

(** [SetShadow]; the timeout is only passed on to the context of [Mirror]. *)
Definition SetShadow (shadow : option S) (w : World S) : World S * list ShadowReport :=
  let w := {| w_journal := w_journal w; w_file := w_file w; w_shadow := shadow; w_reports := w_reports w |} in
  let w := syncShadowScopesLocked (sortedScopes (j_events (w_journal w))) w in
  (w, shadowReportsLocked w).

(** ** Appending *)

Definition appendBatchLocked (io : Io) (inputs : list Input) (w : World S) : World S * result Event :=
  let j := w_journal w in
  match prepare_batch (j_leases j) (io_tick io) 0 (j_events j) zero_Event inputs with
  | Err e => (w, Err e)
  | Ok (candidate, last) =>
      let c := {| cd_events := candidate; cd_leases := j_leases j; cd_effects := j_effects j |} in
      match persistCandidateLocked io c w with
      | (w, Err e) => (w, Err e)
      | (w, Ok _) =>
          match (if j_path (w_journal w) ≠? "" then reloadFromDiskLocked io w
                 else (with_journal (set_jevents candidate (w_journal w)) w, Ok tt)) with
          | (w, Err e) => (w, Err e)
          | (w, Ok _) =>
              let w := syncShadowScopesLocked (batch_scopes [] inputs) w in
              (w, if je_EventID last ≟ "" then Err runtime_ErrConflict else Ok last)
          end
      end
  end.

Definition AppendBatch (io : Io) (inputs : list Input) (w : World S) : World S * result Event :=
  match inputs with
  | [] => (w, Err (Errorf "at least one runtime event is required" []))
  | _ => match reloadLocked io w with
         | (w, Err e) => (w, Err e)
         | (w, Ok _) => appendBatchLocked io inputs w
         end
  end.

Definition Append (io : Io) (input : Input) (w : World S) : World S * result Event := AppendBatch io [input] w.

(** ** Leases *)

Definition AcquireLease (io : Io) (scope : Scope) (owner : string) (ttl : Duration) (now : Time) (w : World S)
    : World S * result Lease :=
  if negb (Scope_valid scope) || blank owner || (ttl <=? 0)%Z
  then (w, Err (Errorf "scope, owner and positive ttl are required" [])) else
  let now := orNow (io_now io) now in
  let key := leaseKey scope in
  match reloadLocked io w with
  | (w, Err e) => (w, Err e)
  | (w, Ok _) =>
      let j := w_journal w in
      let found := j_leases j !! key in
      if match found with
         | Some lease => After (jl_ExpiresAt lease) now && (jl_Owner lease ≠? owner)
         | None => false
         end
      then (w, Err runtime_ErrLeaseBusy) else
      let lease := {| jl_Key := key; jl_Owner := owner;
                      jl_FencingToken := add64 (jl_FencingToken (default zero_Lease found)) 1;
                      jl_ExpiresAt := (now + ttl)%Z; jl_UpdatedAt := now |} in
      let leases := <[key := lease]> (j_leases j) in
      match persistCandidateLocked io {| cd_events := j_events j; cd_leases := leases; cd_effects := j_effects j |} w with
      | (w, Err e) => (w, Err e)
      | (w, Ok _) =>
          let w := with_journal (set_jleases leases (w_journal w)) w in
          match reloadFromDiskLocked io w with
          | (w, Err e) => (w, Err e)
          | (w, Ok _) => (w, Ok lease)
          end
      end
  end.

Definition ReleaseLease (io : Io) (scope : Scope) (owner : string) (fencingToken : Z) (w : World S)
    : World S * result unit :=
  let key := leaseKey scope in
  match reloadLocked io w with
  | (w, Err e) => (w, Err e)
  | (w, Ok _) =>
      let j := w_journal w in
      if match j_leases j !! key with
         | Some lease => (jl_Owner lease ≠? owner) || (jl_FencingToken lease ≠? fencingToken)
                         || negb (After (jl_ExpiresAt lease) (io_now io))
         | None => true
         end
      then (w, Err runtime_ErrLeaseLost) else
      let leases := delete key (j_leases j) in
      match persistCandidateLocked io {| cd_events := j_events j; cd_leases := leases; cd_effects := j_effects j |} w with
      | (w, Err e) => (w, Err e)
      | (w, Ok _) => (with_journal (set_jleases leases (w_journal w)) w, Ok tt)
      end
  end.
End operations.
