(* ===== verification/Effects.v ===== *)
(** * Effects: tool calls and external effects on the journal

    Models the tool and effect operations of internal/runtime/kernel.go: the
    state of an effect and of a tool call is a fold over the journal, and every
    operation checks that state, then appends the records of its transition.  An
    effect goes intent, prepared, dispatched, and then either receipted or, when
    its outcome is unknown, reconciled under the policy frozen in its intent. *)
From stdpp Require Import base strings gmap list pretty.
From Stdlib Require Import ZArith Lia.
From S2P Require Import Prelude GoLib GoStrings GoValue GoJson Journal.

(** ** Constants *)

Definition EventTurnStarted : string := "turn.started".
Definition EventTurnFinished : string := "turn.finished".
Definition EventTurnCheckpointed : string := "turn.checkpointed".
Definition EventToolAuthorized : string := "tool.authorized".
Definition EventToolStarted : string := "tool.started".
Definition EventToolApproved : string := "tool.approved".
Definition EventToolFinished : string := "tool.finished".
Definition EventToolFailed : string := "tool.failed".
Definition EventToolCancelled : string := "tool.cancelled".
Definition EventToolRetried : string := "tool.retried".
Definition EventInteraction : string := "interaction.accepted".
Definition EventUsage : string := "usage.recorded".
Definition EventEffectIntent : string := "effect.intent_committed".
Definition EventEffectPrepared : string := "effect.dispatch_prepared".
Definition EventEffectDispatched : string := "effect.dispatched".
Definition EventEffectReceipted : string := "effect.receipted".
Definition EventEffectUnknown : string := "effect.outcome_unknown".
Definition EventEffectReconciled : string := "effect.reconciled".

Definition runtime_ErrUnauthorized : error := ESentinel (Sentinel "runtime" "ErrUnauthorized").
Definition runtime_ErrApprovalRequired : error := ESentinel (Sentinel "runtime" "ErrApprovalRequired").
Definition runtime_ErrToolExecution : error := ESentinel (Sentinel "runtime" "ErrToolExecution").
Definition runtime_ErrEffectOutcomeUnknown : error := ESentinel (Sentinel "runtime" "ErrEffectOutcomeUnknown").

(** ** Effect classes and reconciliation policies *)

Definition EffectReadOnly : string := "read_only".
Definition EffectIdempotentWrite : string := "idempotent_write".
Definition EffectReconcilableWrite : string := "reconcilable_write".
Definition EffectNonRetriableWrite : string := "non_retriable_write".
(** [EffectClass.valid]. *)
Definition EffectClass_valid (c : string) : bool :=
  (c ≟ EffectReadOnly) || (c ≟ EffectIdempotentWrite) || (c ≟ EffectReconcilableWrite) || (c ≟ EffectNonRetriableWrite).

Definition ReconcileNone : string := "none".
Definition ReconcileQuery : string := "query".
Definition ReconcileCompensate : string := "compensate".
Definition ReconcileHuman : string := "human_decision".
Definition ReconcileUnrecoverable : string := "unrecoverable".
(** [ReconcilePolicy.valid]. *)
Definition ReconcilePolicy_valid (p : string) : bool :=
  (p ≟ ReconcileNone) || (p ≟ ReconcileQuery) || (p ≟ ReconcileCompensate) || (p ≟ ReconcileHuman)
  || (p ≟ ReconcileUnrecoverable).

Definition reconcilePolicyForClass (class : string) : string :=
  if class ≟ EffectReadOnly then ReconcileNone else ReconcileHuman.

Definition validateReconcilePolicy (class policy : string) : result unit :=
  if (class ≟ EffectReadOnly) && (policy ≟ "") then Ok tt else
  reject (negb (ReconcilePolicy_valid policy)) (Errorf "valid reconcile_policy is required" []) ;;;
  reject ((class ≟ EffectReadOnly) && (policy ≠? ReconcileNone))
    (Errorf "read_only effects must use reconcile_policy none" []) ;;;
  reject ((class ≠? EffectReadOnly) && (policy ≟ ReconcileNone))
    (Errorf "write effects require an explicit reconcile_policy" []).

Definition reconcileDecisionAllowed (policy decision : string) : bool :=
  if policy ≟ ReconcileQuery then (decision ≟ "confirmed") || (decision ≟ "not_found")
  else if policy ≟ ReconcileCompensate then (decision ≟ "compensated") || (decision ≟ "not_found")
  else if policy ≟ ReconcileHuman then decision ≟ "human_resolved"
  else if policy ≟ ReconcileUnrecoverable then decision ≟ "unrecoverable"
  else false.

(** ** Data *)

Record ToolContract := {
  tc_Name : string; tc_InputSchema : string; tc_OutputSchema : string; tc_SideEffectClass : string;
  tc_ReconcilePolicy : string; tc_Risk : string; tc_Capability : string; tc_SecretScopes : list string;
  tc_Network : bool; tc_Filesystem : bool; tc_Timeout : Duration; tc_MaxRetries : Z; tc_RequiresApproval : bool;
  tc_Compensation : string; tc_EvidenceRequired : bool }.

Record ToolState := {
  tl_Scope : Scope; tl_CallID : string; tl_Name : string; tl_Authorized : bool; tl_Started : bool;
  tl_Approved : option bool; tl_Finished : bool; tl_Cancelled : bool; tl_Attempts : Z; tl_LastEventID : string;
  tl_ReasonCode : string }.

Record EffectState := {
  ef_Scope : Scope; ef_EffectID : string; ef_ToolCallID : string; ef_Class : string; ef_ReconcilePolicy : string;
  ef_IntentCommitted : bool; ef_DispatchPrepared : bool; ef_Dispatched : bool; ef_Receipted : bool;
  ef_OutcomeUnknown : bool; ef_Reconciled : bool; ef_ReconcileDecision : string; ef_ReconcileOutput : value;
  ef_LastEventID : string }.

(** The anonymous structs the payloads are decoded into. *)
Record IntentPayload := { ip_CallID : string; ip_Class : string; ip_ReconcilePolicy : string }.
Record DecisionPayload := { dp_Decision : string; dp_Output : value }.
Record NamePayload := { np_Name : string }.

Section effects.
Context `{!Sha256, !JsonCompact, !JsonMarshal value, !JsonMarshal Event, !JsonMarshal journalState}.
Context `{!JsonInto IntentPayload, !JsonInto DecisionPayload, !JsonInto NamePayload}.

(** ** The state of an effect *)

Definition new_effect (scope : Scope) (effectID : string) : EffectState :=
  {| ef_Scope := scope; ef_EffectID := effectID; ef_ToolCallID := ""; ef_Class := ""; ef_ReconcilePolicy := "";
     ef_IntentCommitted := false; ef_DispatchPrepared := false; ef_Dispatched := false; ef_Receipted := false;
     ef_OutcomeUnknown := false; ef_Reconciled := false; ef_ReconcileDecision := ""; ef_ReconcileOutput := VNil;
     ef_LastEventID := "" |}.

(** The events of an effect. *)
Definition effect_event (scope : Scope) (effectID : string) (e : Event) : bool :=
  (je_Scope e ≟ scope) && (je_AggregateType e ≟ "effect") && (je_AggregateID e ≟ effectID).

(** One iteration of the loop of [effectStateLocked]. *)
Definition effect_step (s : EffectState) (e : Event) : EffectState :=
  let t := je_EventType e in
  if t ≟ EventEffectIntent then
    let p := fst (json_into (T := IntentPayload) (je_Payload e)) in
    {| ef_Scope := ef_Scope s; ef_EffectID := ef_EffectID s; ef_ToolCallID := ip_CallID p; ef_Class := ip_Class p;
       ef_ReconcilePolicy := if ip_ReconcilePolicy p ≟ "" then reconcilePolicyForClass (ip_Class p)
                             else ip_ReconcilePolicy p;
       ef_IntentCommitted := true; ef_DispatchPrepared := ef_DispatchPrepared s; ef_Dispatched := ef_Dispatched s;
       ef_Receipted := ef_Receipted s; ef_OutcomeUnknown := ef_OutcomeUnknown s; ef_Reconciled := ef_Reconciled s;
       ef_ReconcileDecision := ef_ReconcileDecision s; ef_ReconcileOutput := ef_ReconcileOutput s;
       ef_LastEventID := je_EventID e |}
  else if t ≟ EventEffectReconciled then
    let p := fst (json_into (T := DecisionPayload) (je_Payload e)) in
    {| ef_Scope := ef_Scope s; ef_EffectID := ef_EffectID s; ef_ToolCallID := ef_ToolCallID s; ef_Class := ef_Class s;
       ef_ReconcilePolicy := ef_ReconcilePolicy s; ef_IntentCommitted := ef_IntentCommitted s;
       ef_DispatchPrepared := ef_DispatchPrepared s; ef_Dispatched := ef_Dispatched s;
       ef_Receipted := ef_Receipted s; ef_OutcomeUnknown := false; ef_Reconciled := true;
       ef_ReconcileDecision := dp_Decision p; ef_ReconcileOutput := dp_Output p; ef_LastEventID := je_EventID e |}
  else
    {| ef_Scope := ef_Scope s; ef_EffectID := ef_EffectID s; ef_ToolCallID := ef_ToolCallID s; ef_Class := ef_Class s;
       ef_ReconcilePolicy := ef_ReconcilePolicy s; ef_IntentCommitted := ef_IntentCommitted s;
       ef_DispatchPrepared := if t ≟ EventEffectPrepared then true else ef_DispatchPrepared s;
       ef_Dispatched := if t ≟ EventEffectDispatched then true else ef_Dispatched s;
       ef_Receipted := if t ≟ EventEffectReceipted then true else ef_Receipted s;
       ef_OutcomeUnknown := if t ≟ EventEffectReceipted then false
                            else if t ≟ EventEffectUnknown then true else ef_OutcomeUnknown s;
       ef_Reconciled := ef_Reconciled s; ef_ReconcileDecision := ef_ReconcileDecision s;
       ef_ReconcileOutput := ef_ReconcileOutput s; ef_LastEventID := je_EventID e |}.

Definition effectStateLocked (events : list Event) (scope : Scope) (effectID : string) : EffectState :=
  foldl effect_step (new_effect scope effectID) (filter (λ e, effect_event scope effectID e = true) events).

(** [Journal.EffectState]. *)
Definition Journal_EffectState (j : Journal) (scope : Scope) (effectID : string) : result EffectState :=
  reject (negb (Scope_valid scope) || blank effectID) (Errorf "scope and effect_id are required" []) ;;;
  Ok (effectStateLocked (j_events j) scope (TrimSpace effectID)).

(** ** The state of a tool call *)

Definition new_tool (scope : Scope) (callID : string) : ToolState :=
  {| tl_Scope := scope; tl_CallID := callID; tl_Name := ""; tl_Authorized := false; tl_Started := false;
     tl_Approved := None; tl_Finished := false; tl_Cancelled := false; tl_Attempts := 0; tl_LastEventID := "";
     tl_ReasonCode := "" |}.

Definition toolHas (events : list Event) (scope : Scope) (callID eventType : string) : bool :=
  existsb (λ e, (je_Scope e ≟ scope) && (je_AggregateID e ≟ callID) && (je_EventType e ≟ eventType)) events.

Definition toolEvents (events : list Event) (scope : Scope) (callID : string) : list Event :=
  filter (λ e, je_Scope e = scope ∧ je_AggregateID e = callID) events.

(** One iteration of the loop of [toolStateLocked]. *)
Definition tool_step (s : ToolState) (e : Event) : ToolState :=
  let t := je_EventType e in
  let authorized := t ≟ EventToolAuthorized in
  let name := np_Name (fst (json_into (T := NamePayload) (je_Payload e))) in
  {| tl_Scope := tl_Scope s; tl_CallID := tl_CallID s;
     tl_Name := if authorized && (name ≠? "") then name else tl_Name s;
     tl_Authorized := if authorized then je_Status e ≠? StatusRejected else tl_Authorized s;
     tl_Started := if t ≟ EventToolStarted then true else tl_Started s;
     tl_Approved := if t ≟ EventToolApproved
                    then Some (dp_Decision (fst (json_into (T := DecisionPayload) (je_Payload e))) ≟ "approved")
                    else tl_Approved s;
     tl_Finished := if t ≟ EventToolFinished then true else tl_Finished s;
     tl_Cancelled := if t ≟ EventToolCancelled then true else tl_Cancelled s;
     tl_Attempts := if (t ≟ EventToolStarted) || (t ≟ EventToolRetried) then add64 (tl_Attempts s) 1 else tl_Attempts s;
     tl_LastEventID := je_EventID e;
     tl_ReasonCode := if t ≟ EventToolFailed then "tool_execution_failed" else tl_ReasonCode s |}.

Definition toolStateLocked (events : list Event) (scope : Scope) (callID : string) : ToolState :=
  foldl tool_step (new_tool scope callID) (toolEvents events scope callID).

(** [Journal.ToolState]. *)
Definition Journal_ToolState (j : Journal) (scope : Scope) (callID : string) : result ToolState :=
  reject (negb (Scope_valid scope) || blank callID) (Errorf "scope and call_id are required" []) ;;;
  Ok (toolStateLocked (j_events j) scope (TrimSpace callID)).

(** ** Effect operations *)

Context {S : Type} `{!EventShadow S}.

(** The [Input] literals of the operations, which leave the correlation and
    causation ids empty. *)
Definition record (typ aggregate id : string) (scope : Scope) (key owner : string) (token : Z) (status : string)
    (payload : value) : Input :=
  {| in_EventType := typ; in_AggregateType := aggregate; in_AggregateID := id; in_Scope := scope;
     in_CorrelationID := ""; in_CausationID := ""; in_IdempotencyKey := key; in_WriterID := owner;
     in_FencingToken := token; in_Status := status; in_Payload := payload |}.

Definition intent_payload (effectID callID tool class policy inputDigest : string) : value :=
  VObject [("effect_id", VString effectID); ("call_id", VString callID); ("tool", VString tool);
           ("effect_class", VString class); ("reconcile_policy", VString policy);
           ("input_digest", VString inputDigest)].

Definition CommitEffectIntentWithPolicy (io : Io) (scope : Scope) (effectID callID tool class policy : string)
    (input : value) (owner : string) (fencingToken : Z) (w : World S) : World S * result (Event * bool) :=
  let effectID := TrimSpace effectID in
  let callID := TrimSpace callID in
  let tool := TrimSpace tool in
  if (effectID ≟ "") || (callID ≟ "") || (tool ≟ "") || negb (EffectClass_valid class)
  then (w, Err (Errorf "effect_id, call_id, tool and valid effect_class are required" [])) else
  match validateReconcilePolicy class policy with
  | Err e => (w, Err e)
  | Ok _ =>
  if blank owner || (fencingToken <=? 0)%Z then (w, Err runtime_ErrLeaseLost) else
  match json_marshal input with
  | None => (w, Err (Wrapf "encode effect input: %w" [] (Errorf "json.Marshal" [])))
  | Some inputBytes =>
  let payload := intent_payload effectID callID tool class policy (payloadDigest inputBytes) in
  match reloadLocked io w with
  | (w, Err e) => (w, Err e)
  | (w, Ok _) =>
      let j := w_journal w in
      let effectKey := scopedKey scope effectID in
      let id := default "" (j_effects j !! effectKey) in
      if id ≠? "" then
        match find (λ e, je_EventID e ≟ id) (j_events j) with
        | None => (w, Err runtime_ErrCorrupt)
        | Some event =>
            match json_marshal payload with
            | Some payloadBytes =>
                if payloadDigest payloadBytes ≠? je_PayloadHash event
                then (w, Err runtime_ErrIdempotencyConflict) else (w, Ok (event, false))
            | None => (w, Err runtime_ErrIdempotencyConflict)
            end
        end
      else
      match prepareLocked (j_leases j) (io_tick io 0) (j_events j)
              (record EventEffectIntent "effect" effectID scope ("effect:" +:+ effectID +:+ ":intent") owner
                 fencingToken StatusPending payload) with
      | Err e => (w, Err e)
      | Ok event =>
          let effects := <[effectKey := je_EventID event]> (j_effects j) in
          let candidate := j_events j ++ [event] in
          match persistCandidateLocked io
                  {| cd_events := candidate; cd_leases := j_leases j; cd_effects := effects |} w with
          | (w, Err e) => (w, Err e)
          | (w, Ok _) =>
              let w := with_journal (set_jeffects effects (set_jevents candidate (w_journal w))) w in
              match reloadFromDiskLocked io w with
              | (w, Err e) => (w, Err e)
              | (w, Ok _) => (w, Ok (event, true))
              end
          end
      end
  end
  end
  end.

Definition CommitEffectIntent (io : Io) (scope : Scope) (effectID callID tool class : string) (input : value)
    (owner : string) (fencingToken : Z) (w : World S) : World S * result (Event * bool) :=
  CommitEffectIntentWithPolicy io scope effectID callID tool class (reconcilePolicyForClass class) input owner
    fencingToken w.

(** [j.mu.Lock(); if err := j.reloadLocked(); err != nil { return err }; ...]. *)
Definition locked {A} (io : Io) (body : World S → World S * result A) (w : World S) : World S * result A :=
  match reloadLocked io w with
  | (w, Err e) => (w, Err e)
  | (w, Ok _) => body w
  end.

Definition PrepareEffectDispatch (io : Io) (scope : Scope) (effectID owner : string) (fencingToken : Z) (w : World S)
    : World S * result Event :=
  locked io (λ w,
    let state := effectStateLocked (j_events (w_journal w)) scope effectID in
    if negb (ef_IntentCommitted state) || ef_Dispatched state || ef_Receipted state || ef_OutcomeUnknown state
       || ef_Reconciled state
    then (w, Err runtime_ErrConflict) else
    appendBatchLocked io [record EventEffectPrepared "effect" effectID scope ("effect:" +:+ effectID +:+ ":prepare")
                            owner fencingToken StatusPending (VObject [("effect_id", VString effectID)])] w) w.

(** The record of an earlier dispatch; the loop does not compare the scope. *)
Definition dispatched_event (effectID : string) (e : Event) : bool :=
  (je_AggregateType e ≟ "effect") && (je_AggregateID e ≟ effectID) && (je_EventType e ≟ EventEffectDispatched).

Definition MarkEffectDispatched (io : Io) (scope : Scope) (effectID owner : string) (fencingToken : Z) (w : World S)
    : World S * result Event :=
  locked io (λ w,
    let events := j_events (w_journal w) in
    let state := effectStateLocked events scope effectID in
    if negb (ef_DispatchPrepared state) || ef_Receipted state || ef_OutcomeUnknown state || ef_Reconciled state
    then (w, Err runtime_ErrConflict) else
    match (if ef_Dispatched state then find (dispatched_event effectID) events else None) with
    | Some event => (w, Ok event)
    | None =>
        appendBatchLocked io [record EventEffectDispatched "effect" effectID scope
                                ("effect:" +:+ effectID +:+ ":dispatch") owner fencingToken StatusPending
                                (VObject [("effect_id", VString effectID)])] w
    end) w.

Definition MarkEffectOutcomeUnknown (io : Io) (scope : Scope) (effectID reason owner : string) (fencingToken : Z)
    (w : World S) : World S * result Event :=
  locked io (λ w,
    let state := effectStateLocked (j_events (w_journal w)) scope effectID in
    if negb (ef_Dispatched state) || ef_Receipted state || ef_Reconciled state then (w, Err runtime_ErrConflict) else
    let reason := if blank reason then "dispatch_outcome_unknown" else reason in
    appendBatchLocked io [record EventEffectUnknown "effect" effectID scope ("effect:" +:+ effectID +:+ ":unknown")
                            owner fencingToken StatusRecoveryNeeded
                            (VObject [("effect_id", VString effectID); ("reason_code", VString reason)])] w) w.

(** The two records of a reconciliation. *)
Definition reconcile_batch (scope : Scope) (effectID callID owner : string) (fencingToken : Z) (decision : string)
    (output : value) : list Input :=
  [ record EventEffectReconciled "effect" effectID scope ("effect:" +:+ effectID +:+ ":reconciled") owner fencingToken
      StatusCommitted (VObject [("effect_id", VString effectID); ("decision", VString decision); ("output", output)]);
    record EventToolFinished "tool" callID scope ("tool:" +:+ callID +:+ ":reconciled") owner fencingToken
      StatusCommitted output ].

Definition ReconcileEffect (io : Io) (scope : Scope) (effectID callID owner : string) (fencingToken : Z)
    (decision : string) (output : value) (w : World S) : World S * result Event :=
  let effectID := TrimSpace effectID in
  let callID := TrimSpace callID in
  let decision := ToLower (TrimSpace decision) in
  if (effectID ≟ "") || (callID ≟ "") || (decision ≟ "")
  then (w, Err (Errorf "effect_id, call_id and reconciliation decision are required" [])) else
  if blank owner || (fencingToken <=? 0)%Z then (w, Err runtime_ErrLeaseLost) else
  locked io (λ w,
    let events := j_events (w_journal w) in
    let state := effectStateLocked events scope effectID in
    let toolState := toolStateLocked events scope callID in
    if ef_Reconciled state then
      match find (λ e, effect_event scope effectID e && (je_EventType e ≟ EventEffectReconciled)) events with
      | None => (w, Err runtime_ErrCorrupt)
      | Some item =>
          let '(prior, failed) := json_into (T := DecisionPayload) (je_Payload item) in
          if negb failed && (dp_Decision prior ≟ decision) then (w, Ok item)
          else (w, Err runtime_ErrIdempotencyConflict)
      end
    else
    if negb (ef_IntentCommitted state) || negb (ef_Dispatched state) || ef_Receipted state
       || negb (tl_Started toolState) || tl_Finished toolState || tl_Cancelled toolState
    then (w, Err runtime_ErrConflict) else
    if negb (ef_OutcomeUnknown state) then (w, Err runtime_ErrConflict) else
    if negb (reconcileDecisionAllowed (ef_ReconcilePolicy state) decision)
    then (w, Err (Wrapf "%w: decision %q is not allowed by policy %q" [decision; ef_ReconcilePolicy state]
                    runtime_ErrConflict)) else
    appendBatchLocked io (reconcile_batch scope effectID callID owner fencingToken decision output) w) w.

(** The two records of a completion. *)
Definition complete_batch (scope : Scope) (effectID callID owner : string) (fencingToken : Z) (output : value)
    : list Input :=
  [ record EventEffectReceipted "effect" effectID scope ("effect:" +:+ effectID +:+ ":receipt") owner fencingToken
      StatusCommitted output;
    record EventToolFinished "tool" callID scope ("tool:" +:+ callID +:+ ":finish") owner fencingToken
      StatusCommitted output ].

Definition CompleteToolEffect (io : Io) (scope : Scope) (effectID callID owner : string) (fencingToken : Z)
    (output : value) (w : World S) : World S * result Event :=
  locked io (λ w,
    let events := j_events (w_journal w) in
    let effectState := effectStateLocked events scope effectID in
    let toolState := toolStateLocked events scope callID in
    if negb (ef_Dispatched effectState) || ef_OutcomeUnknown effectState || ef_Receipted effectState
       || ef_Reconciled effectState || negb (tl_Started toolState) || tl_Cancelled toolState || tl_Finished toolState
    then (w, Err runtime_ErrConflict) else
    appendBatchLocked io (complete_batch scope effectID callID owner fencingToken output) w) w.

(** ** Tool operations *)

Definition AuthorizeTool (io : Io) (scope : Scope) (callID name owner : string) (fencingToken : Z)
    (allowed : list string) (w : World S) : World S * result Event :=
  let callID := TrimSpace callID in
  let name := TrimSpace name in
  if (callID ≟ "") || (name ≟ "") then (w, Err (Errorf "tool call id and name are required" [])) else
  if blank owner || (fencingToken <=? 0)%Z then (w, Err runtime_ErrLeaseLost) else
  if negb (existsb (λ candidate, TrimSpace candidate ≟ name) allowed) then (w, Err runtime_ErrUnauthorized) else
  Append io (record EventToolAuthorized "tool" callID scope ("tool:" +:+ callID +:+ ":authorize") owner fencingToken ""
               (VObject [("call_id", VString callID); ("name", VString name); ("allowed", VBool true)])) w.

Definition StartTool (io : Io) (scope : Scope) (callID name owner : string) (fencingToken : Z) (payload : value)
    (w : World S) : World S * result Event :=
  if blank owner || (fencingToken <=? 0)%Z then (w, Err runtime_ErrLeaseLost) else
  let j := w_journal w in
  let state := toolStateLocked (j_events j) scope callID in
  if negb (tl_Authorized state) then (w, Err runtime_ErrUnauthorized) else
  if tl_Cancelled state || tl_Finished state then (w, Err runtime_ErrConflict) else
  if tl_Approved state ≟ Some false then (w, Err runtime_ErrUnauthorized) else
  match (if tl_Started state
         then find (λ e, (je_AggregateID e ≟ callID) && (je_EventType e ≟ EventToolStarted)) (List_ j scope)
         else None) with
  | Some event => (w, Ok event)
  | None =>
      Append io (record EventToolStarted "tool" callID scope ("tool:" +:+ callID +:+ ":start") owner fencingToken
                   StatusPending payload) w
  end.

Definition StartToolWithContract (io io' : Io) (scope : Scope) (callID owner : string) (fencingToken : Z)
    (contract : ToolContract) (payload : value) (allowed : list string) (w : World S) : World S * result Event :=
  if blank (tc_Name contract) then (w, Err (Errorf "tool contract name is required" [])) else
  if ((tc_Timeout contract <? 0) || (tc_MaxRetries contract <? 0))%Z
  then (w, Err (Errorf "tool timeout and max_retries cannot be negative" [])) else
  match validateReconcilePolicy (tc_SideEffectClass contract) (tc_ReconcilePolicy contract) with
  | Err e => (w, Err e)
  | Ok _ =>
      match AuthorizeTool io scope callID (tc_Name contract) owner fencingToken allowed w with
      | (w, Err e) => (w, Err e)
      | (w, Ok _) =>
          let state := toolStateLocked (j_events (w_journal w)) scope callID in
          if tc_RequiresApproval contract && (tl_Approved state ≟ None) then (w, Err runtime_ErrApprovalRequired) else
          if tc_RequiresApproval contract && (tl_Approved state ≟ Some false) then (w, Err runtime_ErrUnauthorized) else
          StartTool io' scope callID (tc_Name contract) owner fencingToken payload w
      end
  end.

Definition ApproveTool (io : Io) (scope : Scope) (callID owner : string) (fencingToken : Z) (decision : string)
    (w : World S) : World S * result Event :=
  if blank owner || (fencingToken <=? 0)%Z then (w, Err runtime_ErrLeaseLost) else
  let decision := ToLower (TrimSpace decision) in
  if (decision ≠? "approved") && (decision ≠? "denied")
  then (w, Err (Errorf "tool approval must be approved or denied" [])) else
  Append io (record EventToolApproved "tool" callID scope ("tool:" +:+ callID +:+ ":approval") owner fencingToken
               (if decision ≟ "approved" then StatusCommitted else StatusRejected)
               (VObject [("decision", VString decision)])) w.

(** The loop of [FinishTool] that looks for a denial. *)
Definition tool_denied (events : list Event) (scope : Scope) (callID : string) : bool :=
  existsb (λ e, (je_Scope e ≟ scope) && (je_AggregateID e ≟ callID) && (je_EventType e ≟ EventToolApproved)
                && (je_Status e ≟ StatusRejected)) events.

Definition FinishTool (io : Io) (scope : Scope) (callID owner : string) (fencingToken : Z) (output : value)
    (w : World S) : World S * result Event :=
  if blank owner || (fencingToken <=? 0)%Z then (w, Err runtime_ErrLeaseLost) else
  let events := j_events (w_journal w) in
  let state := toolStateLocked events scope callID in
  if negb (tl_Started state) then (w, Err runtime_ErrConflict) else
  if tool_denied events scope callID || tl_Cancelled state then (w, Err runtime_ErrUnauthorized) else
  if tl_Finished state then (w, Err runtime_ErrConflict) else
  Append io (record EventToolFinished "tool" callID scope ("tool:" +:+ callID +:+ ":finish") owner fencingToken
               StatusCommitted output) w.

Definition CancelTool (io : Io) (scope : Scope) (callID owner : string) (fencingToken : Z) (reason : string)
    (w : World S) : World S * result Event :=
  let reason := if blank reason then "cancelled" else reason in
  match Journal_ToolState (w_journal w) scope callID with
  | Err e => (w, Err e)
  | Ok state =>
      if negb (tl_Started state) || tl_Finished state then (w, Err runtime_ErrConflict) else
      Append io (record EventToolCancelled "tool" callID scope ("tool:" +:+ callID +:+ ":cancel") owner fencingToken
                   StatusRejected (VObject [("reason", VString reason)])) w
  end.

Definition RetryTool (io : Io) (scope : Scope) (callID owner : string) (fencingToken : Z) (attempt : Z)
    (reason : string) (w : World S) : World S * result (string * Event) :=
  let attempt := if (attempt <? 1)%Z then 1%Z else attempt in
  if blank callID then (w, Err (Errorf "call_id is required" [])) else
  let newID := callID +:+ ":retry:" +:+ pretty attempt in
  let '(w, r) :=
    Append io (record EventToolRetried "tool" callID scope ("tool:" +:+ callID +:+ ":retry:" +:+ pretty attempt) owner
                 fencingToken StatusCommitted
                 (VObject [("new_call_id", VString newID); ("reason", VString reason); ("attempt", VInt KInt attempt)])) w in
  (w, let* event := r in Ok (newID, event)).

(** ** Turns *)

Definition AppendInteraction (io : Io) (scope : Scope) (input key owner : string) (fencingToken : Z) (w : World S)
    : World S * result Event :=
  if blank input then (w, Err (Errorf "interaction input is required" [])) else
  if blank owner || (fencingToken <=? 0)%Z then (w, Err runtime_ErrLeaseLost) else
  Append io (record EventInteraction "run" (sc_RunID scope) scope key owner fencingToken ""
               (VObject [("input", VString input)])) w.

Definition RecordUsage (io : Io) (scope : Scope) (usage : value) (owner : string) (fencingToken : Z) (w : World S)
    : World S * result Event :=
  if blank owner || (fencingToken <=? 0)%Z then (w, Err runtime_ErrLeaseLost) else
  Append io (record EventUsage "run" (sc_RunID scope) scope "" owner fencingToken "" usage) w.

Definition turn_batch (scope : Scope) (turn checkpoint : value) (key owner : string) (fencingToken : Z) : list Input :=
  [ record EventTurnFinished "run" (sc_RunID scope) scope (key +:+ ":finish") owner fencingToken StatusCommitted turn;
    record EventTurnCheckpointed "run" (sc_RunID scope) scope (key +:+ ":checkpoint") owner fencingToken
      StatusCommitted checkpoint ].

Definition FinishTurn (io : Io) (scope : Scope) (turn checkpoint : value) (key owner : string) (fencingToken : Z)
    (w : World S) : World S * result Event :=
  let key := TrimSpace key in
  if key ≟ "" then (w, Err (Errorf "turn idempotency key is required" [])) else
  if blank owner || (fencingToken <=? 0)%Z then (w, Err runtime_ErrLeaseLost) else
  AppendBatch io (turn_batch scope turn checkpoint key owner fencingToken) w.
End effects.
