(* ===== verification/ToolLoop.v ===== *)
(** * ToolLoop: the provider-neutral tool loop

    Models internal/runtime/loop.go: [ToolLoop.Run] authorizes a call, checks the
    state the journal already has for it, starts it, commits the effect intent, the
    preparation and the dispatch, runs the provider's callback, and records its
    receipt or its unknown outcome, with bounded retries of read-only tools.

    The callback is what the provider does: its outcome per attempt is an argument,
    and the run returns the ids of the calls it was made for.  The n-th operation
    on the journal meets the surroundings [supply n]; the run takes the number of
    its first operation and returns the number of the next.  The text of a cause
    printed with [%v] is not part of a modelled error. *)
From stdpp Require Import base strings gmap list pretty.
From Stdlib Require Import ZArith Lia.
From S2P Require Import Prelude GoLib GoStrings GoValue GoJson Journal Effects.

Definition context_DeadlineExceeded : sentinel := Sentinel "context" "DeadlineExceeded".

(** What the callback did: its result, whether its context had passed its
    deadline, and the error of the caller's context afterwards. *)
Record ExecOutcome := { ex_result : result value; ex_deadline : bool; ex_ctxErr : option error }.

Record ToolExecution := {
  te_CallID : string; te_Attempt : Z; te_Status : string; te_Reason : string; te_Replayed : bool; te_Output : value;
  te_EventIDs : list string }.

(** The loop's own fields; the journal is the world it runs in. *)
Record ToolLoop := { lp_Scope : Scope; lp_Owner : string; lp_FencingToken : Z; lp_AllowedTools : list string }.

Definition zero_Execution : ToolExecution :=
  {| te_CallID := ""; te_Attempt := 0; te_Status := ""; te_Reason := ""; te_Replayed := false; te_Output := VNil;
     te_EventIDs := [] |}.

(** [result.CallID, result.Attempt = id, attempt]. *)
Definition te_at (id : string) (attempt : Z) (r : ToolExecution) : ToolExecution :=
  {| te_CallID := id; te_Attempt := attempt; te_Status := te_Status r; te_Reason := te_Reason r;
     te_Replayed := te_Replayed r; te_Output := te_Output r; te_EventIDs := te_EventIDs r |}.
(** [result.Status = status]. *)
Definition te_status (status : string) (r : ToolExecution) : ToolExecution :=
  {| te_CallID := te_CallID r; te_Attempt := te_Attempt r; te_Status := status; te_Reason := te_Reason r;
     te_Replayed := te_Replayed r; te_Output := te_Output r; te_EventIDs := te_EventIDs r |}.
(** [result.Status, result.Reason = status, reason]. *)
Definition te_because (status reason : string) (r : ToolExecution) : ToolExecution :=
  {| te_CallID := te_CallID r; te_Attempt := te_Attempt r; te_Status := status; te_Reason := reason;
     te_Replayed := te_Replayed r; te_Output := te_Output r; te_EventIDs := te_EventIDs r |}.
Definition te_replay (output : value) (r : ToolExecution) : ToolExecution :=
  {| te_CallID := te_CallID r; te_Attempt := te_Attempt r; te_Status := te_Status r; te_Reason := te_Reason r;
     te_Replayed := true; te_Output := output; te_EventIDs := te_EventIDs r |}.
Definition te_output (output : value) (r : ToolExecution) : ToolExecution :=
  {| te_CallID := te_CallID r; te_Attempt := te_Attempt r; te_Status := te_Status r; te_Reason := te_Reason r;
     te_Replayed := te_Replayed r; te_Output := output; te_EventIDs := te_EventIDs r |}.
(** [result.EventIDs = append(result.EventIDs, id)]. *)
Definition te_event (id : string) (r : ToolExecution) : ToolExecution :=
  {| te_CallID := te_CallID r; te_Attempt := te_Attempt r; te_Status := te_Status r; te_Reason := te_Reason r;
     te_Replayed := te_Replayed r; te_Output := te_Output r; te_EventIDs := te_EventIDs r ++ [id] |}.

(** [fmt.Sprintf("%s:retry:%d", callID, attempt-1)], or the call id itself. *)
Definition attempt_id (callID : string) (attempt : Z) : string :=
  if (1 <? attempt)%Z then callID +:+ ":retry:" +:+ pretty (attempt - 1)%Z else callID.
Definition effect_of (callID : string) : string := "tool-effect:" +:+ callID.

(** How an attempt ends: the run returns, or goes on to the next attempt. *)
Inductive attempt_end :=
  | Return (r : ToolExecution) (err : option error)
  | Continue (r : ToolExecution).

Section loop.
Context `{!Sha256, !JsonCompact, !JsonMarshal value, !JsonMarshal Event, !JsonMarshal journalState}.
Context `{!JsonInto IntentPayload, !JsonInto DecisionPayload, !JsonInto NamePayload}.
Context {S : Type} `{!EventShadow S}.

(** What an attempt finds in the journal before it starts the call. *)
Definition already (contract : ToolContract) (effectState : EffectState) (state : ToolState) (r : ToolExecution)
    : option (ToolExecution * option error) :=
  if ef_Receipted effectState then
    if tl_Finished state then Some (te_replay (te_Output r) (te_because "replayed" "tool_already_finished" r), None)
    else Some (r, Some runtime_ErrCorrupt)
  else if ef_Reconciled effectState then
    if negb (tl_Finished state) then Some (r, Some runtime_ErrCorrupt)
    else Some (te_replay (ef_ReconcileOutput effectState) (te_because "reconciled" "effect_reconciled" r), None)
  else if tl_Finished state then
    Some (te_replay (te_Output r) (te_because "replayed" "tool_already_finished" r), None)
  else if ef_Dispatched effectState || ef_OutcomeUnknown effectState then
    Some (te_because "outcome_unknown" "effect_outcome_unknown" r, Some runtime_ErrEffectOutcomeUnknown)
  else if tc_RequiresApproval contract && (tl_Approved state ≟ None) then
    Some (te_because "waiting" "approval_required" r, Some runtime_ErrApprovalRequired)
  else None.

(** After the callback: the receipt, or the unknown outcome and what follows. *)
Definition conclude (supply : nat → Io) (l : ToolLoop) (contract : ToolContract) (currentID : string) (attempt : Z)
    (out : ExecOutcome) (r : ToolExecution) (n : nat) (w : World S) : World S * nat * attempt_end :=
  let effectID := effect_of currentID in
  match ex_result out with
  | Ok output =>
      match CompleteToolEffect (supply n) (lp_Scope l) effectID currentID (lp_Owner l) (lp_FencingToken l) output w with
      | (w, Err e) => (w, (n + 1)%nat, Return (te_because "blocked" "receipt_commit_failed" r) (Some e))
      | (w, Ok finished) => (w, (n + 1)%nat, Return (te_event (je_EventID finished) (te_output output (te_status "finished" r))) None)
      end
  | Err execErr =>
      let timedOut := errors_is context_DeadlineExceeded execErr || ex_deadline out in
      match MarkEffectOutcomeUnknown (supply n) (lp_Scope l) effectID
              (if timedOut then "tool_timeout" else "tool_execution_failed") (lp_Owner l) (lp_FencingToken l) w with
      | (w, Err e) => (w, (n + 1)%nat, Return (te_because "blocked" "unknown_outcome_commit_failed" r) (Some e))
      | (w, Ok unknown) =>
          let r := te_event (je_EventID unknown) r in
          match ex_ctxErr out with
          | Some ctxErr =>
              (w, (n + 1)%nat, Return (te_because "outcome_unknown" "context_cancelled_after_dispatch" r)
                       (Some (Wrapf "%w: %v" [] runtime_ErrEffectOutcomeUnknown)))
          | None =>
              if (tc_SideEffectClass contract ≟ EffectReadOnly) && (attempt <=? tc_MaxRetries contract)%Z then
                match RetryTool (supply (n + 1)%nat) (lp_Scope l) currentID (lp_Owner l) (lp_FencingToken l) attempt
                        "tool_execution_failed" w with
                | (w, Err e) => (w, (n + 2)%nat, Return (te_because "blocked" "retry_commit_failed" r) (Some e))
                | (w, Ok (_, retryEvent)) => (w, (n + 2)%nat, Continue (te_event (je_EventID retryEvent) r))
                end
              else if tc_SideEffectClass contract ≠? EffectReadOnly then
                (w, (n + 1)%nat, Return (te_because "outcome_unknown" "effect_outcome_unknown" r)
                         (Some (Wrapf "%w: %v" [] runtime_ErrEffectOutcomeUnknown)))
              else if timedOut then (w, (n + 1)%nat, Return (te_because "timed_out" "tool_timeout" r) (Some execErr))
              else (w, (n + 1)%nat, Return (te_because "failed" "tool_execution_failed" r)
                            (Some (Wrapf "%w: %v" [] runtime_ErrToolExecution)))
          end
      end
  end.

(** From the started call to the callback: intent, preparation, dispatch.  The
    list holds the call the callback was made for. *)
Definition dispatch (supply : nat → Io) (l : ToolLoop) (contract : ToolContract) (input : value) (currentID : string)
    (attempt : Z) (out : ExecOutcome) (r : ToolExecution) (n : nat) (w : World S)
    : World S * nat * list string * attempt_end :=
  let effectID := effect_of currentID in
  match CommitEffectIntentWithPolicy (supply n) (lp_Scope l) effectID currentID (tc_Name contract)
          (tc_SideEffectClass contract) (tc_ReconcilePolicy contract) input (lp_Owner l) (lp_FencingToken l) w with
  | (w, Err e) => (w, (n + 1)%nat, [], Return (te_because "blocked" "effect_intent_failed" r) (Some e))
  | (w, Ok (intent, _)) =>
  let r := te_event (je_EventID intent) r in
  match PrepareEffectDispatch (supply (n + 1)%nat) (lp_Scope l) effectID (lp_Owner l) (lp_FencingToken l) w with
  | (w, Err e) => (w, (n + 2)%nat, [], Return (te_because "blocked" "effect_prepare_failed" r) (Some e))
  | (w, Ok prepared) =>
  let r := te_event (je_EventID prepared) r in
  match MarkEffectDispatched (supply (n + 2)%nat) (lp_Scope l) effectID (lp_Owner l) (lp_FencingToken l) w with
  | (w, Err e) => (w, (n + 3)%nat, [], Return (te_because "blocked" "effect_dispatch_commit_failed" r) (Some e))
  | (w, Ok dispatched) =>
      let r := te_event (je_EventID dispatched) r in
      let '(w, n', e) := conclude supply l contract currentID attempt out r (n + 3) w in
      (w, n', [currentID], e)
  end
  end
  end.

(** One iteration of the loop. *)
Definition attempt_once (supply : nat → Io) (l : ToolLoop) (contract : ToolContract) (input : value) (callID : string)
    (attempt : Z) (out : ExecOutcome) (r : ToolExecution) (n : nat) (w : World S)
    : World S * nat * list string * attempt_end :=
  let currentID := attempt_id callID attempt in
  let r := te_at currentID attempt r in
  match AuthorizeTool (supply n) (lp_Scope l) currentID (tc_Name contract) (lp_Owner l) (lp_FencingToken l)
          (lp_AllowedTools l) w with
  | (w, Err e) => (w, (n + 1)%nat, [], Return (te_because "blocked" "authorization_denied" r) (Some e))
  | (w, Ok authorized) =>
      let r := te_event (je_EventID authorized) r in
      match Journal_EffectState (w_journal w) (lp_Scope l) (effect_of currentID),
            Journal_ToolState (w_journal w) (lp_Scope l) currentID with
      | Err e, _ | Ok _, Err e => (w, (n + 1)%nat, [], Return r (Some e))
      | Ok effectState, Ok state =>
          match already contract effectState state r with
          | Some (r, err) => (w, (n + 1)%nat, [], Return r err)
          | None =>
              match StartTool (supply (n + 1)%nat) (lp_Scope l) currentID (tc_Name contract) (lp_Owner l)
                      (lp_FencingToken l) input w with
              | (w, Err e) =>
                  (w, (n + 2)%nat, [], Return (if errors_is (Sentinel "runtime" "ErrUnauthorized") e
                                     then te_because "blocked" "approval_denied" r else te_status "blocked" r) (Some e))
              | (w, Ok _) =>
                  let r := match Journal_ToolState (w_journal w) (lp_Scope l) currentID with
                           | Ok started => if tl_LastEventID started ≠? "" then te_event (tl_LastEventID started) r else r
                           | Err _ => r
                           end in
                  dispatch supply l contract input currentID attempt out r (n + 2) w
              end
          end
      end
  end.

(** The loop, [remaining] more attempts to go. *)
Fixpoint attempts (supply : nat → Io) (l : ToolLoop) (contract : ToolContract) (input : value) (callID : string)
    (exec : Z → ExecOutcome) (remaining : nat) (attempt : Z) (r : ToolExecution) (n : nat) (w : World S)
    : World S * nat * list string * (ToolExecution * option error) :=
  match remaining with
  | O => (w, n, [], (r, Some runtime_ErrToolExecution))
  | Datatypes.S remaining =>
      match attempt_once supply l contract input callID attempt (exec attempt) r n w with
      | (w, n, calls, Return r err) => (w, n, calls, (r, err))
      | (w, n, calls, Continue r) =>
          let '(w, n, more, res) := attempts supply l contract input callID exec remaining (attempt + 1)%Z r n w in
          (w, n, calls ++ more, res)
      end
  end.

(** The contract with its reconciliation policy filled in. *)
Definition effective (contract : ToolContract) : ToolContract :=
  {| tc_Name := tc_Name contract; tc_InputSchema := tc_InputSchema contract; tc_OutputSchema := tc_OutputSchema contract;
     tc_SideEffectClass := tc_SideEffectClass contract;
     tc_ReconcilePolicy := if (tc_ReconcilePolicy contract ≟ "") && (tc_SideEffectClass contract ≟ EffectReadOnly)
                           then ReconcileNone else tc_ReconcilePolicy contract;
     tc_Risk := tc_Risk contract; tc_Capability := tc_Capability contract; tc_SecretScopes := tc_SecretScopes contract;
     tc_Network := tc_Network contract; tc_Filesystem := tc_Filesystem contract; tc_Timeout := tc_Timeout contract;
     tc_MaxRetries := tc_MaxRetries contract; tc_RequiresApproval := tc_RequiresApproval contract;
     tc_Compensation := tc_Compensation contract; tc_EvidenceRequired := tc_EvidenceRequired contract |}.

(** The checks at the head of [Run]. *)
Definition check_run (l : ToolLoop) (callID : string) (contract : ToolContract) (nilExecute : bool) : result unit :=
  reject (negb (Scope_valid (lp_Scope l))) (Errorf "scope is required" []) ;;;
  reject (blank callID || nilExecute) (Errorf "call_id and execute callback are required" []) ;;;
  reject (blank (lp_Owner l) || (lp_FencingToken l <=? 0)%Z) runtime_ErrLeaseLost ;;;
  reject (blank (tc_Name contract)) (Errorf "tool contract name is required" []) ;;;
  reject (tc_MaxRetries contract <? 0)%Z (Errorf "tool max_retries cannot be negative" []) ;;;
  reject (negb (EffectClass_valid (tc_SideEffectClass contract))) (Errorf "valid tool side_effect_class is required" []) ;;;
  reject ((tc_SideEffectClass contract ≠? EffectReadOnly) && (0 <? tc_MaxRetries contract)%Z)
    (Errorf "automatic retries are only supported for read_only tools" []) ;;;
  validateReconcilePolicy (tc_SideEffectClass contract) (tc_ReconcilePolicy contract).

(** [ToolLoop.Run]. *)
Definition Run (supply : nat → Io) (l : ToolLoop) (callID : string) (contract : ToolContract) (input : value)
    (execute : option (Z → ExecOutcome)) (n : nat) (w : World S)
    : World S * nat * list string * (ToolExecution * option error) :=
  match check_run l callID contract (if execute is None then true else false), execute with
  | Err e, _ => (w, n, [], (zero_Execution, Some e))
  | Ok _, None => (w, n, [], (zero_Execution, None))
  | Ok _, Some exec =>
      attempts supply l (effective contract) input callID exec
        (Z.to_nat (add64 (tc_MaxRetries contract) 1)) 1%Z
        {| te_CallID := callID; te_Attempt := 1; te_Status := "pending"; te_Reason := ""; te_Replayed := false;
           te_Output := VNil; te_EventIDs := [] |} n w
  end.
End loop.
