(* ===== verification/JournalSpec.v ===== *)
(** * JournalSpec: chains, commits and what each step of the journal preserves

    The lemmas the journal's properties share: when a chain validates, what
    preparing and rebasing records does to it, the frame of each step of an
    operation, and the rely/guarantee relation between the processes that share a
    journal file. *)
From stdpp Require Import base strings gmap list pretty.
From Stdlib Require Import ZArith Lia.
From S2P Require Import Prelude GoLib GoStrings GoValue GoJson Journal.

Definition ids (es : list Event) : list string := je_EventID <$> es.

Lemma ids_app es es' : ids (es ++ es') = ids es ++ ids es'.
Proof. apply fmap_app. Qed.

Lemma last_hash_snoc es e : last_hash (es ++ [e]) = je_EnvelopeHash e.
Proof. unfold last_hash. by rewrite last_snoc. Qed.

Section chains.
Context `{!Sha256, !JsonCompact, !JsonMarshal value, !JsonMarshal Event, !JsonMarshal journalState}.

Lemma envelopeDigest_sealed h e : envelopeDigest (je_sealed h e) = envelopeDigest e.
Proof. reflexivity. Qed.

(** ** Chains *)

(** What [validateEvents] demands of the record at the end of [es]. *)
Definition extends_chain (es : list Event) (e : Event) : Prop :=
  event_corrupt (length es) (last_hash es) e = false ∧ je_EventID e ∉ ids es.

Definition Valid (es : list Event) : Prop := validateEvents es = Ok tt.

Lemma validate_acc es acc :
  fold_each_from 0 validate_event ("", []) es = Ok acc →
  fst acc = last_hash es ∧ (∀ x, contains (snd acc) x = true ↔ x ∈ ids es).
Proof.
  revert acc. induction es as [|e es IH] using rev_ind; intros acc.
  { intros [= <-]. split; [done|]. intros x. rewrite contains_spec. simpl. set_solver. }
  rewrite fold_each_app. cbn [rbind]. destruct (fold_each_from 0 _ _ es) as [[p seen]|] eqn:E; [|done].
  specialize (IH _ eq_refl) as [_ IH]. cbn [rbind fold_each_from validate_event].
  intros Hok. apply rbind_Ok in Hok as (a & Ha & [= <-]).
  apply rbind_reject_Ok in Ha as [_ Ha]. apply rbind_reject_Ok in Ha as [_ [= <-]].
  split; [by rewrite last_hash_snoc|]. intros x. specialize (IH x).
  rewrite contains_spec in IH |- *. rewrite ids_app. simpl in *. set_solver.
Qed.

Lemma Valid_nil : Valid [].
Proof. done. Qed.

Lemma Valid_snoc es e : Valid (es ++ [e]) ↔ Valid es ∧ extends_chain es e.
Proof.
  unfold Valid, validateEvents, extends_chain. rewrite fold_each_app.
  destruct (fold_each_from 0 _ _ es) as [[p seen]|] eqn:E; cbn [rbind]; [|naive_solver].
  apply validate_acc in E as [Hp Hs]. simpl in Hp, Hs. subst p. cbn [fold_each_from validate_event].
  rewrite Nat.add_0_l. destruct (event_corrupt (length es) (last_hash es) e); cbn [reject rbind]; [naive_solver|].
  destruct (contains seen (je_EventID e)) eqn:Ec; cbn [reject rbind].
  - split; [done|]. intros [_ [_ Hn]]. by apply Hs in Ec.
  - split; [|done]. intros _. split_and!; [done..|]. rewrite <- Hs, Ec. done.
Qed.

Lemma Valid_prefix es es' : Valid (es ++ es') → Valid es.
Proof.
  induction es' as [|e es' IH] using rev_ind; [by rewrite app_nil_r|].
  rewrite app_assoc, Valid_snoc. naive_solver.
Qed.

(** A valid chain that starts with [es] continues it record by record. *)
Lemma Valid_app es es' :
  Valid (es ++ es') ↔ Valid es ∧ ∀ pre e post, es' = pre ++ e :: post → extends_chain (es ++ pre) e.
Proof.
  induction es' as [|x es' IH] using rev_ind.
  { rewrite app_nil_r. split; [|naive_solver]. intros; split; [done|]. by intros [] ? ?. }
  rewrite app_assoc, Valid_snoc, IH. split.
  - intros [[Hv Hc] Hx]. split; [done|]. intros pre e post.
    destruct post as [|y post _] using rev_ind.
    + intros [-> [= ->]]%app_inj_2; done.
    + rewrite app_comm_cons, app_assoc. intros [-> [= ->]]%app_inj_2; [|done]. by eapply Hc.
  - intros [Hv Hc]. split; [split; [done|]|].
    + intros pre e post ->. eapply (Hc pre e (post ++ [x])). by rewrite <- app_assoc.
    + by eapply (Hc es' x []).
Qed.

Lemma corrupt_parts i p e :
  event_corrupt i p e = false ↔
  je_EventID e ≠ "" ∧ je_SchemaVersion e = SchemaVersion ∧ je_Sequence e = Z.of_nat (S i)
  ∧ Scope_valid (je_Scope e) = true ∧ je_EventType e ≠ "" ∧ je_AggregateType e ≠ "" ∧ je_AggregateID e ≠ ""
  ∧ je_PreviousHash e = p ∧ je_PayloadHash e = payloadDigest (je_Payload e) ∧ je_EnvelopeHash e = envelopeDigest e.
Proof.
  unfold event_corrupt. rewrite !orb_false_iff, !negb_false_iff, !bool_decide_eq_true, !bool_decide_eq_false.
  naive_solver.
Qed.

(** A record at another place of the chain, sealed there. *)
Definition rechained (n : nat) (previous : string) (e : Event) : Event :=
  je_sealed (envelopeDigest (je_chained (Z.of_nat (S n)) previous e)) (je_chained (Z.of_nat (S n)) previous e).

Lemma rechained_ok i p j q e : event_corrupt i p e = false → event_corrupt j q (rechained j q e) = false.
Proof. rewrite !corrupt_parts. simpl. intros (?&?&?&?&?&?&?&?&?&?). by split_and!. Qed.

Lemma rechain_cons n p e es : rechain n p (e :: es) = rechained n p e :: rechain (S n) (je_EnvelopeHash (rechained n p e)) es.
Proof. reflexivity. Qed.

Lemma ids_rechain n p es : ids (rechain n p es) = ids es.
Proof. revert n p. induction es as [|e es IH]; intros n p; [done|]. rewrite rechain_cons. simpl. by f_equal. Qed.

(** Rebased records keep the chain valid behind any valid history that does not
    hold their ids. *)
Lemma rechain_valid disk es suffix :
  Valid disk → Valid (es ++ suffix) → (∀ x, x ∈ ids suffix → x ∉ ids disk) →
  Valid (disk ++ rechain (length disk) (last_hash disk) suffix).
Proof.
  revert disk es. induction suffix as [|e suffix IH]; intros disk es Hd Hs Hf; [by rewrite app_nil_r|].
  rewrite rechain_cons. pose proof Hs as Hall. apply Valid_app in Hs as [Hes Hs].
  destruct (Hs [] e suffix eq_refl) as [Hc Hid]. rewrite app_nil_r in Hc.
  rewrite (cons_middle _ _ (rechain _ _ _)), app_assoc.
  rewrite (cons_middle e es suffix), app_assoc in Hall.
  assert (length (disk ++ [rechained (length disk) (last_hash disk) e]) = S (length disk)) as Hl
    by (rewrite length_app; simpl; lia).
  rewrite <- Hl, <- (last_hash_snoc disk). apply (IH _ (es ++ [e])); [|done|].
  - apply Valid_snoc. split; [done|]. split; [by eapply rechained_ok|]. simpl. apply Hf. simpl. left.
  - intros x Hx. rewrite ids_app, not_elem_of_app. split; [apply Hf; simpl; by right|]. simpl.
    rewrite list_elem_of_singleton. intros ->. apply list_elem_of_fmap in Hx as (y & Hy & Hin).
    apply list_elem_of_split in Hin as (l1 & l2 & ->).
    destruct (Hs (e :: l1) y l2 eq_refl) as [_ Hn]. apply Hn. rewrite ids_app. simpl. rewrite <- Hy. set_solver.
Qed.

(** ** Preparing records *)

Lemma new_event_fields id now es input payload :
  let e := new_event id now es input payload in
  je_EventID e = id ∧ je_EventType e = in_EventType input ∧ je_AggregateType e = in_AggregateType input
  ∧ je_AggregateID e = in_AggregateID input ∧ je_Scope e = in_Scope input
  ∧ je_IdempotencyKey e = in_IdempotencyKey input ∧ je_WriterID e = in_WriterID input
  ∧ je_FencingToken e = in_FencingToken input ∧ je_Payload e = payload ∧ je_PayloadHash e = payloadDigest payload
  ∧ je_Status e = in_Status input.
Proof. by split_and!. Qed.

Lemma prior_event_Some es input e :
  prior_event es input = Some e →
  e ∈ es ∧ in_IdempotencyKey input ≠ "" ∧ je_IdempotencyKey e = in_IdempotencyKey input
  ∧ je_Scope e = in_Scope input.
Proof.
  unfold prior_event. case_bool_decide; [done|]. intros Hf. apply find_some in Hf as [Hin Hb].
  apply andb_true_iff in Hb as [Hk Hs]. apply bool_decide_eq_true in Hk, Hs.
  by split_and!; [apply list_elem_of_In|..].
Qed.

(** What [prepareLocked] accepts: an earlier record of the same request, or a
    new record of a complete input whose fence is open. *)
Inductive prepared (leases : gmap string Lease) (tick : string * Time) (es : list Event) (input : Input) : Event → Prop :=
  | prepared_prior e payload :
      prior_event es (normalized input) = Some e →
      json_marshal (in_Payload input) = Some payload →
      je_PayloadHash e = payloadDigest payload →
      je_EventType e = in_EventType (normalized input) →
      je_AggregateID e = in_AggregateID (normalized input) →
      prepared leases tick es input e
  | prepared_new payload :
      prior_event es (normalized input) = None →
      json_marshal (in_Payload input) = Some payload →
      Scope_valid (in_Scope input) = true →
      in_EventType (normalized input) ≠ "" → in_AggregateType (normalized input) ≠ "" →
      in_AggregateID (normalized input) ≠ "" →
      fence_open leases (snd tick) (normalized input) = true →
      prepared leases tick es input (new_event (fst tick) (snd tick) es (normalized input) payload).

Lemma prepareLocked_Ok leases tick es input e :
  prepareLocked leases tick es input = Ok e → prepared leases tick es input e.
Proof.
  unfold prepareLocked. intros Hok. apply rbind_reject_Ok in Hok as [Hs Hok].
  apply negb_false_iff in Hs. apply rbind_reject_Ok in Hok as [Hb Hok].
  apply rbind_reject_Ok in Hok as [_ Hok].
  apply orb_false_iff in Hb as [Hb Hb3]. apply orb_false_iff in Hb as [Hb1 Hb2].
  apply bool_decide_eq_false in Hb1, Hb2, Hb3.
  cbn [normalized in_Payload] in Hok.
  destruct (json_marshal (in_Payload input)) as [payload|] eqn:Ep; [|done].
  destruct (prior_event es (normalized input)) as [prior|] eqn:Epr.
  - destruct (_ || _ || _) eqn:Eb in Hok; [done|]. injection Hok as <-.
    apply orb_false_iff in Eb as [Eb E3]. apply orb_false_iff in Eb as [E1 E2].
    apply negb_false_iff, bool_decide_eq_true in E1, E2, E3. by econstructor.
  - destruct (fence_open leases (snd tick) (normalized input)) eqn:Ef; [|done]. injection Hok as <-. by econstructor.
Qed.

Lemma existsb_id es e : existsb (λ p, je_EventID p ≟ je_EventID e) es = true ↔ je_EventID e ∈ ids es.
Proof.
  rewrite existsb_exists. unfold ids. rewrite list_elem_of_fmap. split.
  - intros (p & Hp & Hb). apply bool_decide_eq_true in Hb. exists p. by split; [|apply list_elem_of_In].
  - intros (p & Hp & Hin). exists p. split; [by apply list_elem_of_In|]. by apply bool_decide_eq_true.
Qed.

Lemma new_event_extends id now es input payload :
  id ≠ "" → Scope_valid (in_Scope input) = true → in_EventType input ≠ "" → in_AggregateType input ≠ "" →
  in_AggregateID input ≠ "" → id ∉ ids es → extends_chain es (new_event id now es input payload).
Proof.
  intros Hid Hs Ht Ha Hg Hn. split; [|done]. apply corrupt_parts. cbn [new_event je_sealed].
  split_and!; try done. cbn. lia.
Qed.

(** The induction principle of the loop of [appendBatchLocked]: the candidate
    only ever grows by a new record whose id it does not hold. *)
Lemma prepare_batch_ind (P : list Event → Prop) leases tick inputs i es last es' last' :
  P es →
  (∀ k input es1 payload,
     let e := new_event (fst (tick k)) (snd (tick k)) es1 (normalized input) payload in
     P es1 → input ∈ inputs → prepareLocked leases (tick k) es1 input = Ok e →
     prepared leases (tick k) es1 input e → prior_event es1 (normalized input) = None →
     je_EventID e ∉ ids es1 → P (es1 ++ [e])) →
  prepare_batch leases tick i es last inputs = Ok (es', last') → P es'.
Proof.
  intros Hbase Hstep. revert i es last Hbase. induction inputs as [|input inputs IH]; intros i es last Hbase; simpl.
  { by intros [= <- <-]. }
  intros Hok. apply rbind_Ok in Hok as (e & He & Hok). pose proof (prepareLocked_Ok _ _ _ _ _ He) as Hp.
  assert (∀ k input0 es1 payload,
     let e := new_event (fst (tick k)) (snd (tick k)) es1 (normalized input0) payload in
     P es1 → input0 ∈ inputs → prepareLocked leases (tick k) es1 input0 = Ok e →
     prepared leases (tick k) es1 input0 e → prior_event es1 (normalized input0) = None →
     je_EventID e ∉ ids es1 → P (es1 ++ [e])) as Hstep'.
  { intros. apply Hstep; try done. set_solver. }
  eapply (IH Hstep' (S i)); [|exact Hok].
  destruct (existsb _ es) eqn:Ex; [done|].
  assert (je_EventID e ∉ ids es) as Hn by (by rewrite <- existsb_id, Ex).
  inversion Hp as [e' payload Hpr|payload Hpr Hm]; subst.
  - apply prior_event_Some in Hpr as [Hin _]. exfalso. apply Hn. by apply list_elem_of_fmap_2.
  - apply Hstep; try done. set_solver.
Qed.

Definition named (tick : nat → string * Time) : Prop := ∀ k, fst (tick k) ≠ "".

Lemma prepare_batch_extends leases tick inputs i es last es' last' :
  named tick → Valid es → prepare_batch leases tick i es last inputs = Ok (es', last') →
  ∃ new, es' = es ++ new ∧ Valid (es ++ new) ∧ (∀ x, x ∈ ids new → ∃ k, x = fst (tick k)).
Proof.
  intros Ht Hv Hok.
  eapply (prepare_batch_ind (λ cand, ∃ new, cand = es ++ new ∧ Valid (es ++ new)
            ∧ (∀ x, x ∈ ids new → ∃ k, x = fst (tick k)))); [| |exact Hok].
  - exists []. rewrite app_nil_r. split_and!; [done..|]. intros x Hx. by apply elem_of_nil in Hx.
  - intros k input es1 payload e (new & -> & Hv1 & Hids) Hin _ Hp Hpr Hn. exists (new ++ [e]).
    rewrite app_assoc. split; [done|]. split.
    + apply Valid_snoc. split; [done|]. inversion Hp as [? ? Hpr'|? ? ? ? ? ? ? ?]; [congruence|].
      by apply new_event_extends.
    + intros x. rewrite ids_app, elem_of_app. intros [Hx|Hx]; [by apply Hids|].
      simpl in Hx. apply list_elem_of_singleton in Hx as ->. by exists k.
Qed.

(** A batch whose inputs all meet a closed fence is prepared only when each of
    them repeats a request already recorded, and then adds nothing. *)
Lemma prepare_batch_closed leases tick inputs i es last es' last' :
  (∀ k input, input ∈ inputs → fence_open leases (snd (tick k)) (normalized input) = false) →
  prepare_batch leases tick i es last inputs = Ok (es', last') →
  es' = es ∧ ∀ input, input ∈ inputs → prior_event es (normalized input) ≠ None.
Proof.
  intros Hf. revert i last. induction inputs as [|input inputs IH]; intros i last; simpl.
  { intros [= <- <-]. split; [done|]. intros ? []%elem_of_nil. }
  intros Hok. apply rbind_Ok in Hok as (e & He%prepareLocked_Ok & Hok).
  inversion He as [? payload Hpr|payload Hpr ? ? ? ? ? Hopen]; subst.
  2: { rewrite Hf in Hopen; [done|left]. }
  pose proof (prior_event_Some _ _ _ Hpr) as [Hin _].
  rewrite (proj2 (existsb_id es e)) in Hok by by apply list_elem_of_fmap_2.
  destruct (IH (λ k x Hx, Hf k x (list_elem_of_further _ _ _ Hx)) _ _ Hok) as [-> Hall]. split; [done|].
  intros x [->|Hx]%elem_of_cons; [by rewrite Hpr|by apply Hall].
Qed.

(** A record that stands for an input: the request it was, or the retry of it. *)
Definition answers (input : Input) (e : Event) : Prop :=
  je_Scope e = in_Scope input ∧ je_EventType e = TrimSpace (in_EventType input)
  ∧ je_AggregateID e = TrimSpace (in_AggregateID input) ∧ je_IdempotencyKey e = in_IdempotencyKey input
  ∧ ∃ payload, json_marshal (in_Payload input) = Some payload ∧ je_PayloadHash e = payloadDigest payload.

Lemma prepared_answers leases tick es input e : prepared leases tick es input e → answers input e.
Proof.
  intros [? payload Hpr Hm Hh Ht Ha|payload Hpr Hm]; [|by split_and!; [..|exists payload]].
  apply prior_event_Some in Hpr as (_ & _ & Hk & Hs). by split_and!; [..|exists payload].
Qed.

(** A batch that is prepared holds a record for each of its inputs. *)
Lemma prepare_batch_covers leases tick inputs i es last es' last' :
  (∀ k k', fst (tick k) = fst (tick k') → k = k') → (∀ k, i ≤ k → fst (tick k) ∉ ids es) →
  prepare_batch leases tick i es last inputs = Ok (es', last') →
  es `prefix_of` es' ∧ (∀ input, input ∈ inputs → ∃ e, e ∈ es' ∧ answers input e) ∧ (inputs ≠ [] → last' ∈ es').
Proof.
  intros Hinj. revert i es last. induction inputs as [|input inputs IH]; intros i es last Hf; simpl.
  { intros [= <- <-]. split; [done|]. split; [|done]. intros input Hin. by apply elem_of_nil in Hin. }
  intros Hok. apply rbind_Ok in Hok as (e & He & Hok). apply prepareLocked_Ok in He.
  pose proof (prepared_answers _ _ _ _ _ He) as Hans.
  set (es1 := if existsb _ es then es else es ++ [e]) in *.
  assert (e ∈ es1 ∧ es `prefix_of` es1 ∧ (∀ k, S i ≤ k → fst (tick k) ∉ ids es1)) as (He1 & Hpre & Hf1).
  { unfold es1. destruct (existsb _ es) eqn:Ex.
    - split; [|split; [done|intros k Hk; apply Hf; lia]]. inversion He as [? ? Hpr|payload]; subst.
      + by apply prior_event_Some in Hpr as [? _].
      + apply existsb_id in Ex. exfalso. by eapply (Hf i).
    - split; [set_solver|]. split; [by eexists|]. intros k Hk. rewrite ids_app, not_elem_of_app. split; [apply Hf; lia|].
      simpl. rewrite list_elem_of_singleton. intros Hin. inversion He as [? ? Hpr|payload]; subst.
      + apply prior_event_Some in Hpr as [Hin' _]. apply (Hf k); [lia|]. rewrite Hin. by apply list_elem_of_fmap_2.
      + apply Hinj in Hin. lia. }
  destruct (IH _ _ _ Hf1 Hok) as (Hpre2 & Hall & Hlast). split; [by etrans|].
  assert (e ∈ es') as He2 by (destruct Hpre2 as [k ->]; set_solver).
  split.
  - intros input' [->|Hin]%elem_of_cons; [by exists e|by apply Hall].
  - intros _. destruct inputs as [|i2 inputs]; [by injection Hok as <- <-|by apply Hlast].
Qed.

Lemma Valid_named es e : Valid es → e ∈ es → je_EventID e ≠ "".
Proof.
  intros Hv Hin. apply list_elem_of_split in Hin as (l1 & l2 & ->).
  apply (Valid_app l1) in Hv as [_ Hv]. destruct (Hv [] e l2 eq_refl) as [Hc _]. by apply corrupt_parts in Hc as [? _].
Qed.

(** The records a batch adds under a positive token are those of a live lease. *)
Lemma prepare_batch_fenced leases tick inputs i es last es' last' :
  prepare_batch leases tick i es last inputs = Ok (es', last') →
  ∃ new, es' = es ++ new ∧
  Forall (λ e, (0 < je_FencingToken e)%Z → ∃ lease, leases !! leaseKey (je_Scope e) = Some lease
            ∧ jl_Owner lease = je_WriterID e ∧ jl_FencingToken lease = je_FencingToken e
            ∧ (je_CreatedAt e < jl_ExpiresAt lease)%Z) new.
Proof.
  intros Hok. eapply (prepare_batch_ind (λ cand, ∃ new, cand = es ++ new ∧ Forall _ new)); [| |exact Hok].
  - exists []. by rewrite app_nil_r.
  - intros k input es1 payload e (new & -> & Hall) _ _ Hp Hpr _. exists (new ++ [e]). rewrite app_assoc.
    split; [done|]. apply Forall_app. split; [exact Hall|]. apply Forall_singleton. intros Hpos.
    inversion Hp as [? ? Hpr'|? ? ? ? ? ? ? Hf]; [congruence|]. unfold fence_open in Hf.
    cbn [e new_event je_sealed je_FencingToken] in Hpos. rewrite (proj2 (Z.ltb_lt _ _)) in Hf by exact Hpos.
    destruct (leases !! _) as [lease|] eqn:El; [|done]. exists lease.
    apply andb_true_iff in Hf as [Hf Hx]. apply andb_true_iff in Hf as [Ho Htk].
    apply bool_decide_eq_true in Ho, Htk. apply Z.ltb_lt in Hx. done.
Qed.
End chains.
