(* ===== verification/JournalOps.v ===== *)
(** * JournalOps: the processes that share a journal file

    A rely/guarantee account of the file protocol.  [Extends] is what every
    process promises the others about the file, [Synced] what a process keeps
    between its memory and the file; the lemmas show that the steps of an
    operation keep both, whatever the other processes do in the windows the
    operation leaves open, as long as they keep the promise. *)
From stdpp Require Import base strings gmap list pretty.
From Stdlib Require Import ZArith Lia.
From S2P Require Import Prelude GoLib GoStrings GoValue GoJson Journal Effects JournalSpec.

(** ** The file *)

Definition file_events (f : JournalFile) : list Event :=
  match f with Some (Ok st) => js_Events st | _ => [] end.
Definition file_revision (f : JournalFile) : Z :=
  match f with Some (Ok st) => js_Revision st | _ => 0%Z end.

Section rely.
Context `{!Sha256, !JsonCompact, !JsonMarshal value, !JsonMarshal Event, !JsonMarshal journalState}.

(** The file can be loaded. *)
Definition file_ok (f : JournalFile) : Prop :=
  match f with
  | None => True
  | Some (Err _) => False
  | Some (Ok st) => validateState st = Ok tt ∧ (0 ≤ js_Revision st)%Z
  end.

(** What a process promises: the file stays loadable, no committed record is
    removed or changed, and a changed file has a higher revision. *)
Definition Extends (f f' : JournalFile) : Prop :=
  file_ok f' ∧ (file_revision f ≤ file_revision f')%Z ∧ file_events f `prefix_of` file_events f'
  ∧ (file_revision f = file_revision f' → f = f').

Lemma Extends_refl f : file_ok f → Extends f f.
Proof. intros ?. unfold Extends. by split_and!. Qed.

Lemma Extends_trans f g h : Extends f g → Extends g h → Extends f h.
Proof.
  intros (Hg & Hr & Hp & He) (Hh & Hr' & Hp' & He'). split_and!; [done|lia|by etrans|].
  intros Heq. rewrite He by lia. apply He'. lia.
Qed.

(** A process's memory is a stage of the file's history, and the current one
    when it carries the file's revision. *)
Definition Synced (j : Journal) (f : JournalFile) : Prop :=
  (0 ≤ j_revision j ≤ file_revision f)%Z ∧ j_events j `prefix_of` file_events f
  ∧ (j_revision j = file_revision f → j_events j = file_events f).

Lemma Synced_stable j f f' : Synced j f → Extends f f' → Synced j f'.
Proof.
  intros (Hr & Hp & He) (_ & Hr' & Hp' & He'). split_and!; [lia..|by etrans|].
  intros Heq. rewrite <- He' by lia. apply He. lia.
Qed.

Lemma file_revision_pos f : file_ok f → (0 ≤ file_revision f)%Z.
Proof. destruct f as [[st|e]|]; simpl; naive_solver. Qed.

Lemma Synced_loaded j f :
  file_ok f → j_revision j = file_revision f → j_events j = file_events f → Synced j f.
Proof.
  intros Hf Hr He. apply file_revision_pos in Hf. split_and!; [lia..| |done]. by rewrite He.
Qed.

Lemma file_ok_Valid f : file_ok f → Valid (file_events f).
Proof.
  destruct f as [[st|e]|]; simpl; [|done|done]. intros [Hv _]. unfold validateState in Hv.
  by apply rbind_unit_Ok in Hv as [_ Hv].
Qed.

Lemma readRevision_ok f : file_ok f → readRevision f = Ok (file_revision f).
Proof. destruct f as [[st|e]|]; simpl; [|done|done]. intros [Hv _]. by rewrite Hv. Qed.

Lemma validateState_new rev es ls ef :
  Valid es →
  validateState {| js_Version := SchemaVersion; js_Revision := rev; js_Events := es; js_Leases := ls;
                   js_Effects := ef |} = Ok tt.
Proof. intros Hv. unfold validateState. simpl. exact Hv. Qed.

(** ** Loading *)

Lemma reload_journal_Synced io f j j' :
  file_ok f → Synced j f → j_path j ≠ "" → reload_journal io f j = Ok j' → Synced j' f ∧ j_path j' = j_path j.
Proof.
  intros Hf Hs Hp. unfold reload_journal. rewrite (bool_decide_eq_false_2 (j_path j = "")) by done.
  destruct (io_reload io); [done|]. destruct f as [[st|e]|]; [|done|by intros [= <-]].
  intros Hok. apply rbind_any_Ok in Hok as [_ Hok]. destruct (_ <=? _)%Z; injection Hok as <-; [done|].
  split; [|done]. by apply Synced_loaded.
Qed.

Lemma reread_journal_loaded io f j j' :
  file_ok f → j_path j ≠ "" → reread_journal io f j = Ok j' →
  Synced j' f ∧ j_path j' = j_path j ∧ ∃ st, f = Some (Ok st) ∧ j_events j' = js_Events st
  ∧ j_leases j' = js_Leases st ∧ j_effects j' = js_Effects st ∧ j_revision j' = js_Revision st.
Proof.
  intros Hf Hp. unfold reread_journal. rewrite (bool_decide_eq_false_2 (j_path j = "")) by done.
  destruct (io_reread io); [done|]. destruct f as [[st|e]|]; [|done|done].
  intros Hok. apply rbind_any_Ok in Hok as [_ Hok]. injection Hok as <-.
  split; [by apply Synced_loaded|]. split; [done|]. by exists st.
Qed.

(** ** Committing *)

Lemma same_history_refl es es' : same_history es (es ++ es') = true.
Proof.
  induction es as [|e es IH]; [done|]. simpl. by rewrite !bool_decide_eq_true_2, IH.
Qed.

(** A process that is in step never meets a divergent history. *)
Lemma rebase_Synced f c j new :
  file_ok f → Synced j f → file_revision f ≠ j_revision j → cd_events c = j_events j ++ new →
  ∃ st, f = Some (Ok st) ∧
  rebase (file_revision f) f c j =
  Ok (set_revision (file_revision f) (set_jevents (js_Events st) j),
      {| cd_events := if decide (length (j_events j) < length (js_Events st))%nat
                      then js_Events st ++ rechain (length (js_Events st)) (last_hash (js_Events st)) new
                      else js_Events st ++ new;
         cd_leases := cd_leases c ∪ js_Leases st; cd_effects := cd_effects c ∪ js_Effects st |}).
Proof.
  intros Hf (Hr & [k Hk] & He) Hne Hc. destruct f as [[st|e]|]; [|done|simpl in *; lia].
  exists st. split; [done|]. unfold rebase. simpl in Hk, Hr, Hne. rewrite Hk, length_app, Hc.
  rewrite (proj2 (Nat.ltb_ge _ _)) by lia. rewrite same_history_refl. cbn [reject negb rbind].
  destruct (decide (length (j_events j) < length (j_events j) + length k)) as [Hl|Hl].
  - rewrite (proj2 (Nat.ltb_lt _ _)) by done. by rewrite drop_app_length.
  - rewrite (proj2 (Nat.ltb_ge _ _)) by lia. destruct k; [|simpl in Hl; lia]. rewrite app_nil_r in *.
    reflexivity.
Qed.

(** The outcome of a commit by a process that is in step. *)
Lemma persist_candidate_spec io c j f new j' f' r :
  file_ok f → Synced j f → (file_revision f < two63 - 1)%Z →
  cd_events c = j_events j ++ new → Valid (cd_events c) → (∀ x, x ∈ ids new → x ∉ ids (file_events f)) →
  persist_candidate io c j f = (j', f', r) →
  j_path j' = j_path j ∧ j_leases j' = j_leases j ∧ j_effects j' = j_effects j ∧
  match r with
  | Err _ => f' = f ∧ Synced j' f
  | Ok _ => ∃ st new', f' = Some (Ok st) ∧ js_Revision st = (file_revision f + 1)%Z
      ∧ js_Events st = file_events f ++ new' ∧ ids new' = ids new ∧ validateState st = Ok tt
      ∧ j_revision j' = js_Revision st ∧ j_events j' = file_events f
      ∧ (file_revision f = j_revision j →
           new' = new ∧ js_Leases st = cd_leases c ∧ js_Effects st = cd_effects c)
      ∧ (∃ m, js_Effects st = cd_effects c ∪ m ∧ (m = ∅ ∨ ∃ st0, f = Some (Ok st0) ∧ m = js_Effects st0))
  end.
Proof.
  intros Hf Hs Hlt Hc Hv Hids. unfold persist_candidate.
  destruct (io_lock io) as [e|]; [by intros [= <- <- <-]|]. rewrite readRevision_ok by done.
  pose proof (file_revision_pos f Hf) as Hpos.
  assert (add64 (file_revision f) 1 = file_revision f + 1)%Z as Hadd
    by (unfold add64; apply wrap64_id; unfold int64_range, two63 in *; lia).
  case_bool_decide as Heq; cbn [negb].
  - destruct Hs as (Hr & Hp & He).
    destruct (json_marshal _); [|by intros [= <- <- <-]].
    destruct (io_write io); [by intros [= <- <- <-]|]. intros [= <- <- <-]. split_and!; [done..|].
    eexists _, new. split; [done|]. cbn. rewrite Heq in *.
    split_and!; try done; [by rewrite Hc, He| |].
    + by apply He.
    + exists ∅. split; [by rewrite (right_id_L ∅ _)|]. by left.
  - destruct (rebase_Synced f c j new) as (st & -> & ->); [done..|]. simpl in *.
    assert (Synced (set_revision (js_Revision st) (set_jevents (js_Events st) j)) (Some (Ok st))) as Hs'
      by (apply Synced_loaded; done).
    destruct (json_marshal _); [|by intros [= <- <- <-]].
    destruct (io_write io); [by intros [= <- <- <-]|]. intros [= <- <- <-]. split_and!; [done..|].
    destruct Hs as (Hr & [k Hk] & He). simpl in Hk.
    destruct (decide _) as [Hl|Hl].
    + eexists _, _. split; [done|]. cbn. split_and!; try done; [by apply ids_rechain| |].
      * apply validateState_new, (rechain_valid _ (j_events j)); [apply (file_ok_Valid (Some (Ok st))); done|by rewrite <- Hc|done].
      * eexists. split; [done|]. right. by eexists.
    + eexists _, _. split; [done|]. cbn. split_and!; try done.
      * apply validateState_new. rewrite Hk, length_app in Hl. destruct k; [|simpl in Hl; lia]. by rewrite Hk, app_nil_r, <- Hc.
      * eexists. split; [done|]. right. by eexists.
Qed.
End rely.

(** * The operations of the journal as transactions

    Every public operation of the journal is, seen from the file, one of a few
    transactions: nothing, a reload, a batch appended after a reload, a lease
    change, or the commit of an effect intent.  [run_op_tx] shows it once, so that
    the invariants are proved per transaction and not per operation. *)

Inductive Op :=
  | OpAppendBatch (inputs : list Input)
  | OpAcquireLease (scope : Scope) (owner : string) (ttl : Duration) (now : Time)
  | OpReleaseLease (scope : Scope) (owner : string) (token : Z)
  | OpCommitEffectIntent (scope : Scope) (effectID callID tool class policy : string) (input : value)
      (owner : string) (token : Z)
  | OpPrepareEffectDispatch (scope : Scope) (effectID owner : string) (token : Z)
  | OpMarkEffectDispatched (scope : Scope) (effectID owner : string) (token : Z)
  | OpMarkEffectOutcomeUnknown (scope : Scope) (effectID reason owner : string) (token : Z)
  | OpReconcileEffect (scope : Scope) (effectID callID owner : string) (token : Z) (decision : string) (output : value)
  | OpCompleteToolEffect (scope : Scope) (effectID callID owner : string) (token : Z) (output : value)
  | OpAuthorizeTool (scope : Scope) (callID name owner : string) (token : Z) (allowed : list string)
  | OpStartTool (scope : Scope) (callID name owner : string) (token : Z) (payload : value)
  | OpApproveTool (scope : Scope) (callID owner : string) (token : Z) (decision : string)
  | OpFinishTool (scope : Scope) (callID owner : string) (token : Z) (output : value)
  | OpCancelTool (scope : Scope) (callID owner : string) (token : Z) (reason : string)
  | OpRetryTool (scope : Scope) (callID owner : string) (token attempt : Z) (reason : string)
  | OpAppendInteraction (scope : Scope) (input key owner : string) (token : Z)
  | OpRecordUsage (scope : Scope) (usage : value) (owner : string) (token : Z)
  | OpFinishTurn (scope : Scope) (turn checkpoint : value) (key owner : string) (token : Z).

Section ops.
Context `{!Sha256, !JsonCompact, !JsonMarshal value, !JsonMarshal Event, !JsonMarshal journalState}.
Context `{!JsonInto IntentPayload, !JsonInto DecisionPayload, !JsonInto NamePayload}.
Context {S : Type} `{!EventShadow S}.
Implicit Types (w : World S) (io : Io) (op : Op).

Definition run_op (op : Op) (io : Io) (w : World S) : World S :=
  match op with
  | OpAppendBatch inputs => fst (AppendBatch io inputs w)
  | OpAcquireLease scope owner ttl now => fst (AcquireLease io scope owner ttl now w)
  | OpReleaseLease scope owner token => fst (ReleaseLease io scope owner token w)
  | OpCommitEffectIntent scope effectID callID tool class policy input owner token =>
      fst (CommitEffectIntentWithPolicy io scope effectID callID tool class policy input owner token w)
  | OpPrepareEffectDispatch scope effectID owner token => fst (PrepareEffectDispatch io scope effectID owner token w)
  | OpMarkEffectDispatched scope effectID owner token => fst (MarkEffectDispatched io scope effectID owner token w)
  | OpMarkEffectOutcomeUnknown scope effectID reason owner token =>
      fst (MarkEffectOutcomeUnknown io scope effectID reason owner token w)
  | OpReconcileEffect scope effectID callID owner token decision output =>
      fst (ReconcileEffect io scope effectID callID owner token decision output w)
  | OpCompleteToolEffect scope effectID callID owner token output =>
      fst (CompleteToolEffect io scope effectID callID owner token output w)
  | OpAuthorizeTool scope callID name owner token allowed =>
      fst (AuthorizeTool io scope callID name owner token allowed w)
  | OpStartTool scope callID name owner token payload => fst (StartTool io scope callID name owner token payload w)
  | OpApproveTool scope callID owner token decision => fst (ApproveTool io scope callID owner token decision w)
  | OpFinishTool scope callID owner token output => fst (FinishTool io scope callID owner token output w)
  | OpCancelTool scope callID owner token reason => fst (CancelTool io scope callID owner token reason w)
  | OpRetryTool scope callID owner token attempt reason => fst (RetryTool io scope callID owner token attempt reason w)
  | OpAppendInteraction scope input key owner token => fst (AppendInteraction io scope input key owner token w)
  | OpRecordUsage scope usage owner token => fst (RecordUsage io scope usage owner token w)
  | OpFinishTurn scope turn checkpoint key owner token => fst (FinishTurn io scope turn checkpoint key owner token w)
  end.

(** The record an intent is committed with. *)
Definition intent_input (scope : Scope) (effectID callID tool class policy inputBytes owner : string) (token : Z) : Input :=
  record EventEffectIntent "effect" effectID scope ("effect:" +:+ effectID +:+ ":intent") owner token StatusPending
    (intent_payload effectID callID tool class policy (payloadDigest inputBytes)).

(** The commit of an intent the journal does not index yet. *)
Definition commit_intent (io : Io) (scope : Scope) (effectID : string) (event : Event) (w : World S) : World S :=
  let j := w_journal w in
  let effects := <[scopedKey scope effectID := je_EventID event]> (j_effects j) in
  let c := {| cd_events := j_events j ++ [event]; cd_leases := j_leases j; cd_effects := effects |} in
  match persistCandidateLocked io c w with
  | (w, Err _) => w
  | (w, Ok _) => fst (reloadFromDiskLocked io
                        (with_journal (set_jeffects effects (set_jevents (cd_events c) (w_journal w))) w))
  end.

(** The change of a lease table, with or without the re-read. *)
Definition commit_leases (io : Io) (reread : bool) (leases : gmap string Lease) (w : World S) : World S :=
  let j := w_journal w in
  match persistCandidateLocked io {| cd_events := j_events j; cd_leases := leases; cd_effects := j_effects j |} w with
  | (w, Err _) => w
  | (w, Ok _) => let w := with_journal (set_jleases leases (w_journal w)) w in
                 if reread then fst (reloadFromDiskLocked io w) else w
  end.

(** The transaction of an operation, in terms of the world after its reload;
    [intent] says that it may commit an intent. *)
Inductive Tx (io : Io) (intent : bool) (w : World S) : World S → Prop :=
  | tx_none : Tx io intent w w
  | tx_reload w1 : reloadLocked io w = (w1, Ok tt) → Tx io intent w w1
  | tx_append w1 inputs :
      reloadLocked io w = (w1, Ok tt) → inputs ≠ [] → Tx io intent w (fst (appendBatchLocked io inputs w1))
  | tx_acquire w1 key lease :
      reloadLocked io w = (w1, Ok tt) →
      Tx io intent w (commit_leases io true (<[key := lease]> (j_leases (w_journal w1))) w1)
  | tx_release w1 key :
      reloadLocked io w = (w1, Ok tt) → Tx io intent w (commit_leases io false (delete key (j_leases (w_journal w1))) w1)
  | tx_intent w1 scope effectID callID tool class policy inputBytes owner token event :
      intent = true → reloadLocked io w = (w1, Ok tt) →
      default "" (j_effects (w_journal w1) !! scopedKey scope effectID) = "" →
      prepareLocked (j_leases (w_journal w1)) (io_tick io 0) (j_events (w_journal w1))
        (intent_input scope effectID callID tool class policy inputBytes owner token) = Ok event →
      TrimSpace effectID = effectID →
      Tx io intent w (commit_intent io scope effectID event w1).

Lemma reloadLocked_cases io w :
  (∃ e, reloadLocked io w = (w, Err e)) ∨ (∃ w1, reloadLocked io w = (w1, Ok tt)).
Proof. unfold reloadLocked. destruct (reload_journal io _ _); eauto. Qed.

Lemma locked_tx {A} io b (body : World S → World S * result A) w :
  (∀ w1, reloadLocked io w = (w1, Ok tt) →
     fst (body w1) = w1 ∨ ∃ inputs, inputs ≠ [] ∧ fst (body w1) = fst (appendBatchLocked io inputs w1)) →
  Tx io b w (fst (locked io body w)).
Proof.
  intros Hb. unfold locked. destruct (reloadLocked_cases io w) as [[e E]|[w1 E]]; rewrite E; [apply tx_none|].
  destruct (Hb w1 E) as [->|(inputs & Hn & ->)]; [by apply tx_reload|by apply tx_append].
Qed.

Lemma AppendBatch_tx io b inputs w : Tx io b w (fst (AppendBatch io inputs w)).
Proof.
  destruct inputs as [|input inputs]; [apply tx_none|]. unfold AppendBatch.
  destruct (reloadLocked_cases io w) as [[e E]|[w1 E]]; rewrite E; [apply tx_none|]. by apply tx_append.
Qed.

Lemma Append_tx io b input w : Tx io b w (fst (Append io input w)).
Proof. apply AppendBatch_tx. Qed.

Lemma AcquireLease_tx io b scope owner ttl now w : Tx io b w (fst (AcquireLease io scope owner ttl now w)).
Proof.
  unfold AcquireLease. destruct (_ || _ || _); [apply tx_none|].
  destruct (reloadLocked_cases io w) as [[e E]|[w1 E]]; rewrite E; [apply tx_none|].
  destruct (match j_leases _ !! _ with Some _ => _ | None => _ end); [by apply tx_reload|].
  match goal with |- context [persistCandidateLocked io {| cd_events := _; cd_leases := <[?k := ?l]> _; cd_effects := _ |} w1] =>
    pose proof (tx_acquire io b w w1 k l E) as Ht end.
  unfold commit_leases in Ht. destruct (persistCandidateLocked io _ w1) as [w2 [u|e]]; [|exact Ht].
  destruct (reloadFromDiskLocked io _) as [w3 [v|e]]; exact Ht.
Qed.

Lemma ReleaseLease_tx io b scope owner token w : Tx io b w (fst (ReleaseLease io scope owner token w)).
Proof.
  unfold ReleaseLease. destruct (reloadLocked_cases io w) as [[e E]|[w1 E]]; rewrite E; [apply tx_none|].
  destruct (match j_leases _ !! _ with Some _ => _ | None => _ end); [by apply tx_reload|].
  pose proof (tx_release io b w w1 (leaseKey scope) E) as Ht. unfold commit_leases in Ht.
  destruct (persistCandidateLocked io _ w1) as [w2 [u|e]]; exact Ht.
Qed.

Lemma CommitEffectIntent_tx io scope effectID callID tool class policy input owner token w :
  Tx io true w (fst (CommitEffectIntentWithPolicy io scope effectID callID tool class policy input owner token w)).
Proof.
  unfold CommitEffectIntentWithPolicy. destruct (_ || _ || _ || _); [apply tx_none|].
  destruct (validateReconcilePolicy class policy); [|apply tx_none].
  destruct (_ || _); [apply tx_none|]. destruct (json_marshal input) as [b|]; [|apply tx_none].
  destruct (reloadLocked_cases io w) as [[e E]|[w1 E]]; rewrite E; [apply tx_none|].
  case_bool_decide as Hid; cbn [negb].
  - destruct (prepareLocked _ _ _ _) as [event|e] eqn:Ep; [|by apply tx_reload].
    pose proof (tx_intent io true w w1 scope (TrimSpace effectID) (TrimSpace callID) (TrimSpace tool) class policy b owner
                  token event eq_refl E Hid Ep (TrimSpace_idem _)) as Ht. unfold commit_intent in Ht.
    destruct (persistCandidateLocked io _ w1) as [w2 [u|e]]; [|exact Ht].
    destruct (reloadFromDiskLocked io _) as [w3 [v|e]]; exact Ht.
  - destruct (find _ _); [|by apply tx_reload].
    destruct (json_marshal (intent_payload _ _ _ _ _ _)); [|by apply tx_reload].
    destruct (negb _); by apply tx_reload.
Qed.

(** The proof of the guarded operations: every branch reads, or appends. *)
Ltac tx_branches :=
  cbv beta zeta;
  repeat match goal with
  | |- context [if ?b then _ else _] => destruct b
  | |- context [match ?x with _ => _ end] => destruct x
  end;
  first [ apply tx_none | apply AppendBatch_tx | apply Append_tx
        | left; reflexivity | right; eexists; split; [|reflexivity]; discriminate ].

Definition commits_intent (op : Op) : bool :=
  match op with OpCommitEffectIntent _ _ _ _ _ _ _ _ _ => true | _ => false end.

Lemma run_op_tx op io w : Tx io (commits_intent op) w (run_op op io w).
Proof.
  destruct op; cbn [run_op].
  - apply AppendBatch_tx.
  - apply AcquireLease_tx.
  - apply ReleaseLease_tx.
  - apply CommitEffectIntent_tx.
  - apply locked_tx. intros w1 _. tx_branches.
  - apply locked_tx. intros w1 _. tx_branches.
  - apply locked_tx. intros w1 _. tx_branches.
  - unfold ReconcileEffect. destruct (_ || _ || _); [apply tx_none|]. destruct (_ || _); [apply tx_none|].
    apply locked_tx. intros w1 _. tx_branches.
  - apply locked_tx. intros w1 _. tx_branches.
  - unfold AuthorizeTool. tx_branches.
  - unfold StartTool. tx_branches.
  - unfold ApproveTool. tx_branches.
  - unfold FinishTool. tx_branches.
  - unfold CancelTool. tx_branches.
  - unfold RetryTool. destruct (blank callID); [apply tx_none|].
    match goal with |- context [Append io ?i w] => pose proof (Append_tx io false i w) as Ht; destruct (Append io i w) end.
    exact Ht.
  - unfold AppendInteraction. tx_branches.
  - unfold RecordUsage. tx_branches.
  - unfold FinishTurn. tx_branches.
Qed.
End ops.

(** ** The path never changes *)

Section path.
Context `{!Sha256, !JsonCompact, !JsonMarshal value, !JsonMarshal Event, !JsonMarshal journalState}.
Context {S : Type} `{!EventShadow S}.
Implicit Types (w : World S) (io : Io).

Lemma reload_path io w : j_path (w_journal (fst (reloadLocked io w))) = j_path (w_journal w).
Proof.
  unfold reloadLocked, reload_journal. case_bool_decide; [done|]. destruct (io_reload io); [done|].
  destruct (w_file w) as [[st|e]|]; [|done|done]. destruct (validateState st); [|done]. cbn [rbind].
  by destruct (_ <=? _)%Z.
Qed.

Lemma reread_path io w : j_path (w_journal (fst (reloadFromDiskLocked io w))) = j_path (w_journal w).
Proof.
  unfold reloadFromDiskLocked. case_bool_decide; [done|]. unfold reread_journal. cbn [w_file with_file w_journal].
  rewrite bool_decide_eq_false_2 by done. destruct (io_reread io); [done|].
  destruct (io_peers_after io (w_file w)) as [[st|e]|]; [|done|done]. by destruct (validateState st).
Qed.

Lemma rebase_path n f c j j' c' : rebase n f c j = Ok (j', c') → j_path j' = j_path j.
Proof.
  unfold rebase. destruct f as [[st|e]|]; [|done|done]. intros Hok. apply rbind_reject_Ok in Hok as [_ Hok].
  apply rbind_reject_Ok in Hok as [_ Hok]. destruct (_ <? _)%nat in Hok; by injection Hok as <- <-.
Qed.

Lemma persist_path io c w : j_path (w_journal (fst (persistCandidateLocked io c w))) = j_path (w_journal w).
Proof.
  unfold persistCandidateLocked. case_bool_decide; [done|].
  destruct (persist_candidate io c (w_journal w) (io_peers io (w_file w))) as [[j' f'] r] eqn:E. cbn [fst w_journal with_file with_journal].
  unfold persist_candidate in E. destruct (if io_lock io is Some e then Err e else readRevision _) as [n|e]; [|by injection E as <- <- <-].
  destruct (negb _).
  - destruct (rebase n _ c (w_journal w)) as [[j1 c1]|e] eqn:Er; [|by injection E as <- <- <-].
    apply rebase_path in Er. destruct (json_marshal _); [destruct (io_write io)|]; injection E as <- <- <-; done.
  - destruct (json_marshal _); [destruct (io_write io)|]; injection E as <- <- <-; done.
Qed.

Lemma sync_frame scopes w :
  w_journal (syncShadowScopesLocked scopes w) = w_journal w ∧ w_file (syncShadowScopesLocked scopes w) = w_file w.
Proof.
  unfold syncShadowScopesLocked. revert w. induction scopes as [|s scopes IH]; intros w; [done|]. simpl.
  destruct (IH (sync_scope w s)) as [-> ->]. unfold sync_scope.
  destruct (w_shadow w); [|done]. by destruct (Mirror _ _ _).
Qed.

Lemma append_path io inputs w : j_path (w_journal (fst (appendBatchLocked io inputs w))) = j_path (w_journal w).
Proof.
  unfold appendBatchLocked. destruct (prepare_batch _ _ _ _ _ _) as [[cand last]|e]; [|done].
  match goal with |- context [persistCandidateLocked io ?c w] => pose proof (persist_path io c w) as Hp;
    destruct (persistCandidateLocked io c w) as [w1 [u|e]] end; [|done]. cbn [fst] in Hp.
  destruct (negb _).
  - pose proof (reread_path io w1) as Hr. destruct (reloadFromDiskLocked io w1) as [w2 [v|e]]; cbn [fst] in *; [|congruence].
    destruct (sync_frame (batch_scopes [] inputs) w2) as [-> _]. congruence.
  - cbn [fst]. destruct (sync_frame (batch_scopes [] inputs) (with_journal (set_jevents cand (w_journal w1)) w1)) as [-> _]. done.
Qed.

Lemma tx_path io b w w' : Tx io b w w' → j_path (w_journal w') = j_path (w_journal w).
Proof.
  assert (∀ w1, reloadLocked io w = (w1, Ok tt) → j_path (w_journal w1) = j_path (w_journal w)) as Hre.
  { intros w1 E. pose proof (reload_path io w) as Hp. by rewrite E in Hp. }
  intros [|w1 E|w1 inputs E _|w1 key lease E|w1 key E|w1 sc id call tool cl pol bs own tok ev Hb E Hidx Hok Htr]; [done|..];
    apply Hre in E; rewrite <- E; [done| | | |].
  - apply append_path.
  - unfold commit_leases. match goal with |- context [persistCandidateLocked io ?c w1] => pose proof (persist_path io c w1) as Hp;
      destruct (persistCandidateLocked io c w1) as [w2 [u|e]] end; [|done]. by rewrite reread_path.
  - unfold commit_leases. match goal with |- context [persistCandidateLocked io ?c w1] => pose proof (persist_path io c w1) as Hp;
      destruct (persistCandidateLocked io c w1) as [w2 [u|e]] end; done.
  - unfold commit_intent. match goal with |- context [persistCandidateLocked io ?c w1] => pose proof (persist_path io c w1) as Hp;
      destruct (persistCandidateLocked io c w1) as [w2 [u|e]] end; [|done]. by rewrite reread_path.
Qed.
End path.

(** ** One process among others *)

Section process.
Context `{!Sha256, !JsonCompact, !JsonMarshal value, !JsonMarshal Event, !JsonMarshal journalState}.
Context `{!JsonInto IntentPayload, !JsonInto DecisionPayload, !JsonInto NamePayload}.
Context {S : Type} `{!EventShadow S}.
Implicit Types (w : World S) (io : Io) (op : Op).

(** The journal has a file it can load, and its memory is in step with it. *)
Definition InStep w : Prop :=
  j_path (w_journal w) ≠ "" ∧ file_ok (w_file w) ∧ Synced (w_journal w) (w_file w).

(** What an operation may assume of its surroundings: the other processes keep
    their promise, the ids it draws are new, the revision counter has room, and
    the file it has just written can be read again.  Every other failure of the
    file system is allowed. *)
Definition sound_io (io : Io) w : Prop :=
  (∀ g, file_ok g → Extends g (io_peers io g) ∧ Extends g (io_peers_after io g))
  ∧ named (io_tick io)
  ∧ (∀ k, fst (io_tick io k) ∉ ids (file_events (io_peers io (w_file w))))
  ∧ (file_revision (io_peers io (w_file w)) < two63 - 1)%Z
  ∧ io_reread io = None.

Lemma reloadLocked_file io w w1 r : reloadLocked io w = (w1, r) → w_file w1 = w_file w.
Proof. unfold reloadLocked. destruct (reload_journal _ _ _); by intros [= <- <-]. Qed.

Lemma reloadLocked_InStep io w w1 r : InStep w → reloadLocked io w = (w1, r) → InStep w1.
Proof.
  intros (Hp & Hf & Hs). unfold reloadLocked. destruct (reload_journal _ _ _) as [j|e] eqn:E; intros [= <- <-]; [|done].
  apply reload_journal_Synced in E as [Hs' Hp']; [|done..]. unfold InStep. simpl. by rewrite Hp'.
Qed.

Lemma InStep_Valid w : InStep w → Valid (j_events (w_journal w)).
Proof.
  intros (_ & Hf & _ & [k Hk] & _). apply file_ok_Valid in Hf. rewrite Hk in Hf. by apply Valid_prefix in Hf.
Qed.

Lemma reloadFromDisk_InStep io w :
  (∀ g, file_ok g → Extends g (io_peers_after io g)) → io_reread io = None →
  j_path (w_journal w) ≠ "" → (∃ st, w_file w = Some (Ok st) ∧ (0 < js_Revision st)%Z ∧ file_ok (w_file w)) →
  InStep (fst (reloadFromDiskLocked io w)) ∧ Extends (w_file w) (w_file (fst (reloadFromDiskLocked io w))).
Proof.
  intros Hpol Hrr Hp (st & Hst & Hpos & Hf). unfold reloadFromDiskLocked.
  rewrite (bool_decide_eq_false_2 (j_path _ = "")) by done. cbn [w_file with_file w_journal].
  destruct (Hpol _ Hf) as [Hf' Hext']. pose proof (conj Hf' Hext' : Extends _ _) as Hext. clear Hf' Hext'.
  pose proof Hext as (Hf' & Hr & _). assert (file_revision (w_file w) = js_Revision st) as Hrev by (by rewrite Hst). rewrite Hrev in Hr.
  destruct (reread_journal io _ _) as [j|e] eqn:E; cbn [fst].
  - apply reread_journal_loaded in E as (Hs & Hp' & _); [|done..]. split; [|done].
    unfold InStep. simpl. by rewrite Hp'.
  - exfalso. unfold reread_journal in E. rewrite (bool_decide_eq_false_2 (j_path _ = "")) in E by done.
    rewrite Hrr in E. destruct (io_peers_after io (w_file w)) as [[st'|e']|]; simpl in *; [|done|lia].
    destruct Hf' as [Hv _]. by rewrite Hv in E.
Qed.

(** The commit step of an operation. *)
Lemma persist_InStep io c new w w2 r :
  InStep w → sound_io io w → cd_events c = j_events (w_journal w) ++ new → Valid (cd_events c) →
  (∀ x, x ∈ ids new → ∃ k, x = fst (io_tick io k)) →
  persistCandidateLocked io c w = (w2, r) →
  j_path (w_journal w2) ≠ "" ∧ Extends (w_file w) (w_file w2) ∧
  match r with
  | Err _ => InStep w2
  | Ok _ => (new = [] → InStep w2) ∧ ∃ st, w_file w2 = Some (Ok st) ∧ (0 < js_Revision st)%Z ∧ file_ok (w_file w2)
  end.
Proof.
  intros (Hp & Hf & Hs) (Hpol & Ht & Hfresh & Hroom & Hrr) Hc Hv Hids.
  unfold persistCandidateLocked. rewrite (bool_decide_eq_false_2 (j_path _ = "")) by done.
  destruct (Hpol _ Hf) as [Hext _]. set (g := io_peers io (w_file w)) in *.
  destruct (persist_candidate io c (w_journal w) g) as [[j' f'] r'] eqn:E. intros [= <- <-].
  pose proof Hext as (Hg & _). pose proof (Synced_stable _ _ _ Hs Hext) as Hs'.
  eapply (persist_candidate_spec io c (w_journal w) g new) in E as (Hp' & _ & _ & E); [|try done..].
  2:{ intros x Hx. destruct (Hids x Hx) as [k ->]. apply Hfresh. }
  cbn [w_journal with_file with_journal w_file]. split; [by rewrite Hp'|].
  pose proof (file_revision_pos _ Hg) as Hpos.
  destruct r' as [[]|e].
  - destruct E as (st & new' & -> & Hrev & Hev & Hid & Hvst & Hjr & Hje & _).
    assert (file_ok (Some (Ok st))) as Hok by (split; [done|lia]).
    split; [|split; [|by exists st; split_and!; [done|lia|done]]].
    + eapply Extends_trans; [done|]. split; [exact Hok|]. simpl. rewrite Hev, Hrev.
      split; [lia|]. split; [by eexists|lia].
    + intros ->. destruct new'; [|done]. rewrite app_nil_r in Hev.
      unfold InStep. cbn [w_journal with_file with_journal w_file]. rewrite Hp'. split; [done|]. split; [done|].
      apply Synced_loaded; simpl; [done|done|congruence].
  - destruct E as [-> Hs2]. split; [done|]. unfold InStep. cbn [w_journal with_file with_journal w_file].
    by rewrite Hp'.
Qed.

Lemma sound_io_reload io w w1 : w_file w1 = w_file w → sound_io io w → sound_io io w1.
Proof. unfold sound_io. by intros ->. Qed.

(** A batch appended in step leaves the process in step, and the file extended. *)
Lemma append_InStep io inputs w :
  InStep w → sound_io io w →
  InStep (fst (appendBatchLocked io inputs w)) ∧ Extends (w_file w) (w_file (fst (appendBatchLocked io inputs w))).
Proof.
  intros Hw Hio. unfold appendBatchLocked.
  destruct (prepare_batch _ _ _ _ _ _) as [[cand last]|e] eqn:Ep; [|split; [done|apply Extends_refl, Hw]].
  pose proof Hio as (Hpol & Ht & _ & _ & Hrr).
  apply prepare_batch_extends in Ep as (new & -> & Hv & Hids); [|done|by apply InStep_Valid].
  destruct (persistCandidateLocked io _ w) as [w2 [[]|e]] eqn:E.
  - eapply (persist_InStep _ _ new) in E as (Hp & Hext & _ & Hst); [|done..].
    rewrite (bool_decide_eq_false_2 (j_path _ = "")) by done. cbn [negb].
    destruct (reloadFromDisk_InStep io w2) as [Hs Hext2]; [by intros; apply Hpol|done..|].
    destruct (reloadFromDiskLocked io w2) as [w3 [u|e]]; cbn [fst] in *; [|by split; [|eapply Extends_trans]].
    destruct (sync_frame (batch_scopes [] inputs) w3) as [Ej Ef].
    unfold InStep. rewrite Ej, Ef. split; [exact Hs|by eapply Extends_trans].
  - eapply (persist_InStep _ _ new) in E as (Hp & Hext & Hs); done.
Qed.

Lemma leases_InStep io b ls w :
  InStep w → sound_io io w → InStep (commit_leases io b ls w) ∧ Extends (w_file w) (w_file (commit_leases io b ls w)).
Proof.
  intros Hw Hio. unfold commit_leases. destruct (persistCandidateLocked io _ w) as [w2 [[]|e]] eqn:E.
  - eapply (persist_InStep _ _ []) in E as (Hp & Hext & Hs & Hst);
      [|done|done|by rewrite app_nil_r|by apply InStep_Valid|intros x Hx; by apply elem_of_nil in Hx].
    pose proof Hio as (Hpol & _ & _ & _ & Hrr). destruct b; [|split; [by apply Hs|done]].
    destruct (reloadFromDisk_InStep io (with_journal (set_jleases ls (w_journal w2)) w2)) as [Hs2 Hext2];
      [by intros; apply Hpol|done..|]. split; [done|by eapply Extends_trans].
  - eapply (persist_InStep _ _ []) in E as (Hp & Hext & Hs);
      [done|done|done|by rewrite app_nil_r|by apply InStep_Valid|intros x Hx; by apply elem_of_nil in Hx].
Qed.

(** Every intent in the journal is in its effect index. *)
Definition registered (es : list Event) (effects : gmap string string) : Prop :=
  ∀ e, e ∈ es → je_EventType e = EventEffectIntent →
       default "" (effects !! scopedKey (je_Scope e) (je_AggregateID e)) ≠ "".

(** An intent that is not indexed is new. *)
Lemma intent_new leases tick es effects scope effectID callID tool class policy b owner token event :
  registered es effects → default "" (effects !! scopedKey scope effectID) = "" → TrimSpace effectID = effectID →
  prepareLocked leases tick es (intent_input scope effectID callID tool class policy b owner token) = Ok event →
  fst tick ≠ "" → fst tick ∉ ids es →
  extends_chain es event ∧ je_EventID event = fst tick ∧ je_EventType event = EventEffectIntent
  ∧ je_Scope event = scope ∧ je_AggregateID event = effectID.
Proof.
  intros Hreg Hidx Htrim Hok Hne Hn. apply prepareLocked_Ok in Hok.
  inversion Hok as [e payload Hpr Hm Hh Ht Ha|payload Hpr Hm Hs Ht Hat Ha Hf]; subst.
  - exfalso. apply prior_event_Some in Hpr as (Hin & _ & _ & Hsc).
    apply (Hreg event Hin); [exact Ht|]. rewrite Hsc, Ha.
    cbn [normalized intent_input record in_AggregateID in_Scope]. by rewrite Htrim.
  - split; [by apply new_event_extends|].
    cbn [new_event je_sealed je_EventID je_EventType je_Scope je_AggregateID normalized intent_input record in_EventType
         in_AggregateID in_Scope]. by rewrite Htrim.
Qed.

Lemma intent_InStep io scope effectID callID tool class policy b owner token event w :
  InStep w → sound_io io w → registered (j_events (w_journal w)) (j_effects (w_journal w)) →
  default "" (j_effects (w_journal w) !! scopedKey scope effectID) = "" → TrimSpace effectID = effectID →
  prepareLocked (j_leases (w_journal w)) (io_tick io 0) (j_events (w_journal w))
    (intent_input scope effectID callID tool class policy b owner token) = Ok event →
  InStep (commit_intent io scope effectID event w)
  ∧ Extends (w_file w) (w_file (commit_intent io scope effectID event w)).
Proof.
  intros Hw Hio Hreg Hidx Htrim Hok. pose proof Hio as (Hpol & Ht & Hfresh & _ & Hrr).
  assert (fst (io_tick io 0) ∉ ids (j_events (w_journal w))) as Hn.
  { intros Hin. apply (Hfresh 0). destruct Hw as (_ & Hf & Hs). destruct (Hpol _ Hf) as [Hext _].
    destruct (Synced_stable _ _ _ Hs Hext) as (_ & [k ->] & _). rewrite ids_app. set_solver. }
  destruct (intent_new _ _ _ _ _ _ _ _ _ _ _ _ _ _ Hreg Hidx Htrim Hok (Ht 0) Hn) as (Hx & Hid & _).
  assert (Valid (j_events (w_journal w) ++ [event])) as Hv by (apply Valid_snoc; split; [by apply InStep_Valid|done]).
  unfold commit_intent. cbn [cd_events]. destruct (persistCandidateLocked io _ w) as [w2 [[]|e]] eqn:E.
  - eapply (persist_InStep _ _ [event]) in E as (Hp & Hext & _ & Hst); [|done..|].
    2:{ intros x Hin. simpl in Hin. apply list_elem_of_singleton in Hin as ->. by exists 0. }
    match goal with |- context [reloadFromDiskLocked io ?w3] =>
      destruct (reloadFromDisk_InStep io w3) as [Hs2 Hext2]; [by intros; apply Hpol|done..|] end.
    split; [done|by eapply Extends_trans].
  - eapply (persist_InStep _ _ [event]) in E as (Hp & Hext & Hs); [done|done..|].
    intros x Hin. simpl in Hin. apply list_elem_of_singleton in Hin as ->. by exists 0.
Qed.
End process.
