(* ===== verification/JournalAlone.v ===== *)
(** * JournalAlone: the journal while one process holds it

    A refinement of the journal to its contents.  As long as no other process
    writes the file, memory and file hold the same records, leases and effect
    index ([Settled]); an operation then either fails and changes nothing, or
    replaces the contents by exactly the candidate it prepared, whether the
    journal has a file or not and whatever else fails. *)
From stdpp Require Import base strings gmap list pretty.
From Stdlib Require Import ZArith Lia.
From S2P Require Import Prelude GoLib GoStrings GoValue GoJson Journal Effects JournalSpec JournalOps.

(** What the operations read and write: the records, the leases, the index. *)
Record Contents := { ct_events : list Event; ct_leases : gmap string Lease; ct_effects : gmap string string }.

Definition contents {S} (w : World S) : Contents :=
  {| ct_events := j_events (w_journal w); ct_leases := j_leases (w_journal w); ct_effects := j_effects (w_journal w) |}.

Definition file_contents (f : JournalFile) : Contents :=
  match f with
  | Some (Ok st) => {| ct_events := js_Events st; ct_leases := js_Leases st; ct_effects := js_Effects st |}
  | _ => {| ct_events := []; ct_leases := ∅; ct_effects := ∅ |}
  end.

Section alone.
Context `{!Sha256, !JsonCompact, !JsonMarshal value, !JsonMarshal Event, !JsonMarshal journalState}.
Context {S : Type} `{!EventShadow S}.
Implicit Types (w : World S) (io : Io).

(** The records are a chain, and with a file, the file holds the same contents. *)
Definition Settled w : Prop :=
  Valid (j_events (w_journal w)) ∧
  (j_path (w_journal w) ≠ "" →
   file_ok (w_file w) ∧ j_revision (w_journal w) = file_revision (w_file w) ∧ contents w = file_contents (w_file w)).

(** The operation meets no other process, draws new ids, and can read back the
    file it wrote. *)
Definition alone io w : Prop :=
  io_peers io (w_file w) = w_file w ∧ (∀ f, io_peers_after io f = f) ∧ io_reread io = None
  ∧ (named (io_tick io) ∧ ∀ k k', fst (io_tick io k) = fst (io_tick io k') → k = k')
  ∧ (∀ k, fst (io_tick io k) ∉ ids (j_events (w_journal w)))
  ∧ (file_revision (w_file w) < two63 - 1)%Z.

Lemma Settled_Synced w : Settled w → j_path (w_journal w) ≠ "" → Synced (w_journal w) (w_file w).
Proof.
  intros [_ Hs] Hp. destruct (Hs Hp) as (Hf & Hr & Hc). apply Synced_loaded; [done..|].
  unfold contents, file_contents in Hc. destruct (w_file w) as [[st|e]|]; simpl in *; congruence.
Qed.

(** Reloading finds nothing new. *)
Lemma reload_settled io w w1 r : Settled w → reloadLocked io w = (w1, r) → w1 = w.
Proof.
  intros [_ Hs]. unfold reloadLocked, reload_journal. case_bool_decide as Hp.
  { intros [= <- <-]. by destruct w. }
  destruct (Hs Hp) as (Hf & Hr & _). destruct (io_reload io); [by intros [= <- <-]|].
  destruct (w_file w) as [[st|e]|] eqn:Ew; simpl in *; [|done|intros [= <- <-]; by destruct w].
  destruct Hf as [-> _]. cbn [rbind]. rewrite (proj2 (Z.leb_le _ _)) by lia. intros [= <- <-]. by destruct w.
Qed.

(** A commit fails without a trace, or installs the candidate. *)
Lemma persist_settled io c new w w2 r :
  Settled w → alone io w → cd_events c = j_events (w_journal w) ++ new → Valid (cd_events c) →
  (∀ x, x ∈ ids new → ∃ k, x = fst (io_tick io k)) →
  persistCandidateLocked io c w = (w2, r) →
  match r with
  | Err _ => w2 = w
  | Ok _ =>
      w_journal w2 = set_revision (j_revision (w_journal w2)) (w_journal w)
      ∧ w_shadow w2 = w_shadow w ∧ w_reports w2 = w_reports w
      ∧ (j_path (w_journal w) ≠ "" →
         file_ok (w_file w2) ∧ j_revision (w_journal w2) = file_revision (w_file w2)
         ∧ ∃ st, w_file w2 = Some (Ok st) ∧ js_Events st = cd_events c ∧ js_Leases st = cd_leases c
                 ∧ js_Effects st = cd_effects c)
  end.
Proof.
  intros Hs (Hpeer & _ & _ & [Ht _] & Hfresh & Hroom) Hc Hv Hids. unfold persistCandidateLocked.
  case_bool_decide as Hp; [by intros [= <- <-]|]. rewrite Hpeer.
  pose proof (Settled_Synced _ Hs Hp) as Hsy. destruct Hs as [_ Hs]. destruct (Hs Hp) as (Hf & Hr & Hct).
  assert (file_events (w_file w) = j_events (w_journal w)) as Hev by (symmetry; by apply Hsy).
  destruct (persist_candidate io c _ _) as [[j' f'] r'] eqn:E. intros [= <- <-].
  unfold persist_candidate in E.
  destruct (io_lock io); [injection E as <- <- <-; by destruct w|].
  rewrite readRevision_ok in E by done. rewrite bool_decide_eq_true_2 in E by done. cbn [negb] in E.
  destruct (json_marshal _); [|injection E as <- <- <-; by destruct w].
  destruct (io_write io); injection E as <- <- <-; [by destruct w|].
  assert (add64 (j_revision (w_journal w)) 1 = file_revision (w_file w) + 1)%Z as Hadd.
  { pose proof (file_revision_pos _ Hf). rewrite Hr. unfold add64. apply wrap64_id.
    unfold int64_range, two63 in *. lia. }
  cbn. split; [done|]. split; [done|]. split; [done|]. intros _.
  split; [|split; [done|by eexists]]. split; [by apply validateState_new|].
  pose proof (file_revision_pos _ Hf). cbn. rewrite Hadd. lia.
Qed.

(** [c] as the contents of a journal. *)
Definition candidate_contents (c : Candidate) : Contents :=
  {| ct_events := cd_events c; ct_leases := cd_leases c; ct_effects := cd_effects c |}.

(** After a successful commit: the journal that holds the candidate, and the one
    read back from the file, are settled with the candidate as contents. *)
Lemma commit_settled io c new w w1 u :
  Settled w → alone io w → cd_events c = j_events (w_journal w) ++ new → Valid (cd_events c) →
  (∀ x, x ∈ ids new → ∃ k, x = fst (io_tick io k)) →
  persistCandidateLocked io c w = (w1, Ok u) →
  w_journal w1 = set_revision (j_revision (w_journal w1)) (w_journal w) ∧
  (∀ j1, j_path j1 = j_path (w_journal w) → j_revision j1 = j_revision (w_journal w1) →
     contents (with_journal j1 w1) = candidate_contents c → Settled (with_journal j1 w1)) ∧
  (∀ j1, j_path j1 = j_path (w_journal w) →
     (j_path (w_journal w) = "" → contents (with_journal j1 w1) = candidate_contents c) →
     ∃ w3, reloadFromDiskLocked io (with_journal j1 w1) = (w3, Ok tt) ∧ Settled w3 ∧ contents w3 = candidate_contents c
           ∧ j_path (w_journal w3) = j_path (w_journal w)).
Proof.
  intros Hs Ha Hc Hv Hids E. pose proof Ha as (_ & Hpa & Hrr & _).
  eapply (persist_settled _ _ new) in E as (Hj & _ & _ & Hfile); [|done..].
  assert (∀ j1, j_path j1 = j_path (w_journal w) → j_revision j1 = j_revision (w_journal w1) →
     contents (with_journal j1 w1) = candidate_contents c → Settled (with_journal j1 w1)) as Hset.
  { intros j1 Hp1 Hr1 Hc1. split.
    - cbn. assert (j_events j1 = cd_events c) as -> by (by injection Hc1). exact Hv.
    - cbn [w_journal with_journal w_file]. rewrite Hp1, Hr1, Hc1. intros Hp.
      destruct (Hfile Hp) as (Hok & Hrev & st & Hst & He & Hl & Hef). split; [done|]. split; [done|].
      rewrite Hst. cbn. by rewrite He, Hl, Hef. }
  split; [done|]. split; [done|]. intros j1 Hp1 Hc1. unfold reloadFromDiskLocked.
  cbn [w_journal with_journal w_file]. rewrite Hp1. case_bool_decide as Hp.
  - eexists. split; [done|]. split; [|by split; [apply Hc1|]].
    split; [cbn; assert (j_events j1 = cd_events c) as -> by (by injection (Hc1 Hp)); exact Hv|]. cbn. by rewrite Hp1.
  - destruct (Hfile Hp) as (Hok & Hrev & st & Hst & He & Hl & Hef). rewrite Hpa.
    cbn [w_file with_file w_journal with_journal]. unfold reread_journal. rewrite Hp1, (bool_decide_eq_false_2 (j_path _ = "")), Hrr, Hst by done.
    rewrite Hst in Hok. destruct Hok as [Hvst Hpos]. rewrite Hvst. cbn [rbind]. eexists. split; [done|].
    assert (contents (with_journal {| j_path := j_path (w_journal w); j_revision := js_Revision st;
              j_events := js_Events st; j_leases := js_Leases st; j_effects := js_Effects st |}
              (with_file (Some (Ok st)) (with_journal j1 w1))) = candidate_contents c) as Hcc
      by (unfold contents; cbn; by rewrite He, Hl, Hef).
    split; [|by split; [exact Hcc|]]. split; [cbn; by rewrite He|]. intros _. split; [done|]. split; [done|].
    rewrite Hcc. cbn. by rewrite He, Hl, Hef.
Qed.

(** The outcome of a batch on a settled journal. *)
Lemma append_settled io inputs w w2 r :
  Settled w → alone io w → appendBatchLocked io inputs w = (w2, r) →
  Settled w2 ∧ j_path (w_journal w2) = j_path (w_journal w) ∧
  match prepare_batch (j_leases (w_journal w)) (io_tick io) 0 (j_events (w_journal w)) zero_Event inputs with
  | Err e => w2 = w ∧ r = Err e
  | Ok (candidate, last) =>
      (w2 = w ∧ ∃ e, r = Err e) ∨
      (contents w2 = {| ct_events := candidate; ct_leases := j_leases (w_journal w);
                        ct_effects := j_effects (w_journal w) |}
       ∧ r = if je_EventID last ≟ "" then Err runtime_ErrConflict else Ok last)
  end.
Proof.
  intros Hs Ha. unfold appendBatchLocked.
  destruct (prepare_batch _ _ _ _ _ _) as [[cand last]|e] eqn:Ep; [|by intros [= <- <-]].
  pose proof Ha as (_ & _ & _ & [Ht _] & _).
  apply prepare_batch_extends in Ep as (new & -> & Hv & Hids); [|done|apply Hs].
  destruct (persistCandidateLocked io _ w) as [w1 [u|e]] eqn:E.
  2:{ eapply (persist_settled _ _ new) in E; [|done..]. subst w1. intros [= <- <-]. split; [done|]. split; [done|].
      left. eauto. }
  eapply (commit_settled _ _ new) in E as (Hj & Hset & Hre); [|done..].
  assert (∃ w3, (if j_path (w_journal w1) ≠? "" then reloadFromDiskLocked io w1
           else (with_journal (set_jevents (j_events (w_journal w) ++ new) (w_journal w1)) w1, Ok tt)) = (w3, Ok tt)
           ∧ Settled w3 ∧ contents w3 = {| ct_events := j_events (w_journal w) ++ new;
               ct_leases := j_leases (w_journal w); ct_effects := j_effects (w_journal w) |}
           ∧ j_path (w_journal w3) = j_path (w_journal w)) as (w3 & -> & Hs3 & Hc3 & Hp3).
  { case_bool_decide as Hp; rewrite Hj in Hp; cbn in Hp; cbn [negb].
    - eexists. split; [done|]. assert (contents (with_journal (set_jevents (j_events (w_journal w) ++ new) (w_journal w1)) w1)
        = candidate_contents {| cd_events := j_events (w_journal w) ++ new; cd_leases := j_leases (w_journal w);
                                cd_effects := j_effects (w_journal w) |}) as Hcc.
      { unfold contents. cbn. rewrite Hj. done. }
      split; [apply Hset; [cbn; by rewrite Hj|done|done]|]. split; [done|]. cbn. by rewrite Hj.
    - destruct (Hre (w_journal w1)) as (w3 & E3 & Hs3 & Hc3 & Hp3); [by rewrite Hj|done|]. exists w3.
      split; [|done]. rewrite <- E3. by destruct w1. }
  intros [= <- <-]. destruct (sync_frame (batch_scopes [] inputs) w3) as [Ej Ef].
  unfold Settled, contents in *. rewrite Ej, Ef. split; [done|]. split; [done|]. right. done.
Qed.

Lemma no_ids io x : x ∈ ids [] → ∃ k : nat, x = fst (io_tick io k).
Proof. intros Hx. by apply elem_of_nil in Hx. Qed.

(** ** Results of the public operations *)

Lemma AppendBatch_settled io inputs w w2 r :
  Settled w → inputs ≠ [] → AppendBatch io inputs w = (w2, r) →
  (w2 = w ∧ ∃ e, r = Err e) ∨ appendBatchLocked io inputs w = (w2, r).
Proof.
  intros Hs Hne. destruct inputs as [|input inputs]; [done|]. unfold AppendBatch.
  destruct (reloadLocked io w) as [w1 [[]|e]] eqn:E; apply reload_settled in E; try done; subst w1; [by right|].
  intros [= <- <-]. left. eauto.
Qed.

Lemma AcquireLease_settled io scope owner ttl now w w2 r :
  Settled w → alone io w → AcquireLease io scope owner ttl now w = (w2, r) →
  Settled w2 ∧
  match r with
  | Err _ => w2 = w
  | Ok lease =>
      (∀ old, j_leases (w_journal w) !! leaseKey scope = Some old →
              jl_Owner old = owner ∨ (jl_ExpiresAt old ≤ orNow (io_now io) now)%Z)
      ∧ jl_Owner lease = owner
      ∧ jl_FencingToken lease = add64 (jl_FencingToken (default zero_Lease (j_leases (w_journal w) !! leaseKey scope))) 1
      ∧ jl_ExpiresAt lease = (orNow (io_now io) now + ttl)%Z
      ∧ contents w2 = {| ct_events := j_events (w_journal w);
                         ct_leases := <[leaseKey scope := lease]> (j_leases (w_journal w));
                         ct_effects := j_effects (w_journal w) |}
  end.
Proof.
  intros Hs Ha. unfold AcquireLease. destruct (_ || _ || _); [by intros [= <- <-]|].
  destruct (reloadLocked io w) as [w1 [[]|e]] eqn:E; apply reload_settled in E; try done; subst w1; [|by intros [= <- <-]].
  destruct (match j_leases _ !! _ with Some _ => _ | None => _ end) eqn:Eb; [by intros [= <- <-]|].
  assert (∀ old, j_leases (w_journal w) !! leaseKey scope = Some old →
              jl_Owner old = owner ∨ (jl_ExpiresAt old ≤ orNow (io_now io) now)%Z) as Hold.
  { intros old Eo. rewrite Eo in Eb. apply andb_false_iff in Eb as [Eb|Eb].
    - right. unfold After in Eb. apply Z.ltb_ge in Eb. done.
    - left. apply negb_false_iff, bool_decide_eq_true in Eb. done. }
  destruct (persistCandidateLocked io _ w) as [w1 [u|e]] eqn:E.
  2:{ intros [= <- <-]. eapply (persist_settled _ _ []) in E as ->; [done|done|done|by rewrite app_nil_r|apply Hs|apply no_ids]. }
  eapply (commit_settled _ _ []) in E as (Hj & _ & Hre); [|done|done|by rewrite app_nil_r|apply Hs|apply no_ids].
  match goal with |- context [set_jleases ?ls _] =>
    destruct (Hre (set_jleases ls (w_journal w1))) as (w3 & -> & Hs3 & Hc3 & _) end.
  { cbn. by rewrite Hj. }
  { intros _. unfold contents. cbn. by rewrite Hj. }
  intros [= <- <-]. done.
Qed.

Lemma ReleaseLease_settled io scope owner token w w2 r :
  Settled w → alone io w → ReleaseLease io scope owner token w = (w2, r) →
  Settled w2 ∧
  match r with
  | Err _ => w2 = w
  | Ok _ =>
      (∃ lease, j_leases (w_journal w) !! leaseKey scope = Some lease ∧ jl_Owner lease = owner
                ∧ jl_FencingToken lease = token ∧ (io_now io < jl_ExpiresAt lease)%Z)
      ∧ contents w2 = {| ct_events := j_events (w_journal w);
                         ct_leases := delete (leaseKey scope) (j_leases (w_journal w));
                         ct_effects := j_effects (w_journal w) |}
  end.
Proof.
  intros Hs Ha. unfold ReleaseLease.
  destruct (reloadLocked io w) as [w1 [[]|e]] eqn:E; apply reload_settled in E; try done; subst w1; [|by intros [= <- <-]].
  destruct (j_leases (w_journal w) !! leaseKey scope) as [lease|] eqn:El; [|by intros [= <- <-]].
  destruct (_ || _ || _) eqn:Eb; [by intros [= <- <-]|].
  apply orb_false_iff in Eb as [Eb E3]. apply orb_false_iff in Eb as [E1 E2].
  apply negb_false_iff in E1, E2, E3. apply bool_decide_eq_true in E1, E2. unfold After in E3. apply Z.ltb_lt in E3.
  destruct (persistCandidateLocked io _ w) as [w1 [u|e]] eqn:E.
  2:{ intros [= <- <-]. eapply (persist_settled _ _ []) in E as ->; [done|done|done|by rewrite app_nil_r|apply Hs|apply no_ids]. }
  eapply (commit_settled _ _ []) in E as (Hj & Hset & _); [|done|done|by rewrite app_nil_r|apply Hs|apply no_ids].
  intros [= <- <-]. match goal with |- context [set_jleases ?ls _] =>
    assert (contents (with_journal (set_jleases ls (w_journal w1)) w1)
      = {| ct_events := j_events (w_journal w); ct_leases := ls; ct_effects := j_effects (w_journal w) |}) as Hcc end.
  { unfold contents. cbn. by rewrite Hj. }
  split; [apply Hset; [cbn; by rewrite Hj|done|done]|]. split; [by exists lease|done].
Qed.

(** The commit of an intent that is not in the journal. *)
Lemma intent_settled io scope effectID event w :
  Settled w → alone io w → extends_chain (j_events (w_journal w)) event → je_EventID event = fst (io_tick io 0) →
  let w2 := commit_intent io scope effectID event w in
  Settled w2 ∧ j_path (w_journal w2) = j_path (w_journal w) ∧
  (w2 = w ∨ contents w2 = {| ct_events := j_events (w_journal w) ++ [event]; ct_leases := j_leases (w_journal w);
                             ct_effects := <[scopedKey scope effectID := je_EventID event]> (j_effects (w_journal w)) |}).
Proof.
  intros Hs Ha Hx Hid. cbn zeta. unfold commit_intent. cbn [cd_events].
  assert (Valid (j_events (w_journal w) ++ [event])) as Hv by (apply Valid_snoc; split; [apply Hs|done]).
  assert (∀ x, x ∈ ids [event] → ∃ k, x = fst (io_tick io k)) as Hids.
  { intros x Hin. simpl in Hin. apply list_elem_of_singleton in Hin as ->. by exists 0. }
  destruct (persistCandidateLocked io _ w) as [w1 [u|e]] eqn:E.
  2:{ eapply (persist_settled _ _ [event]) in E as ->; [|done..]. by split; [|split; [|left]]. }
  eapply (commit_settled _ _ [event]) in E as (Hj & _ & Hre); [|done..].
  match goal with |- context [set_jeffects ?ef (set_jevents ?es _)] =>
    destruct (Hre (set_jeffects ef (set_jevents es (w_journal w1)))) as (w3 & -> & Hs3 & Hc3 & Hp3) end.
  { cbn. by rewrite Hj. }
  { intros _. unfold contents. cbn. by rewrite Hj. }
  split; [done|]. split; [done|by right].
Qed.
End alone.
