(* ===== verification/JournalProps.v ===== *)
(** * JournalProps: what the journal guarantees the processes that share it *)
From stdpp Require Import base strings gmap list pretty.
From Stdlib Require Import ZArith Lia.
From S2P Require Import Prelude GoLib GoStrings GoValue GoJson Journal Effects JournalSpec JournalOps JournalAlone.

Section shared.
Context `{!Sha256, !JsonCompact, !JsonMarshal value, !JsonMarshal Event, !JsonMarshal journalState}.
Context `{!JsonInto IntentPayload, !JsonInto DecisionPayload, !JsonInto NamePayload}.
Context {S : Type} `{!EventShadow S}.
Implicit Types (w : World S) (io : Io) (op : Op).

(** The effect index of a process covers its journal once it is reloaded. *)
Definition covered io w : Prop :=
  ∀ w1, reloadLocked io w = (w1, Ok tt) → registered (j_events (w_journal w1)) (j_effects (w_journal w1)).

(** A step of this process, or of another one. *)
Inductive shared_step w : World S → Prop :=
  | step_op op io : sound_io io w → (commits_intent op = true → covered io w) → shared_step w (run_op op io w)
  | step_peer f : Extends (w_file w) f → shared_step w (with_file f w).

Lemma tx_InStep io b w w' :
  InStep w → sound_io io w → (b = true → covered io w) → Tx io b w w' → InStep w' ∧ Extends (w_file w) (w_file w').
Proof.
  intros Hw Hio Hreg Htx.
  assert (∀ w1, reloadLocked io w = (w1, Ok tt) → InStep w1 ∧ sound_io io w1 ∧ w_file w1 = w_file w) as Hre.
  { intros w1 E. pose proof (reloadLocked_file _ _ _ _ E) as Ef.
    split_and!; [by eapply reloadLocked_InStep|by eapply sound_io_reload|done]. }
  destruct Htx as [|w1 E|w1 inputs E _|w1 key lease E|w1 key E|w1 sc id call tool cl pol bs own tok ev Hb E Hidx Hok Htr].
  - split; [done|apply Extends_refl, Hw].
  - destruct (Hre w1 E) as (H1' & _ & ->). split; [done|apply Extends_refl, Hw].
  - destruct (Hre w1 E) as (H1' & H2' & <-). by apply append_InStep.
  - destruct (Hre w1 E) as (H1' & H2' & <-). by apply leases_InStep.
  - destruct (Hre w1 E) as (H1' & H2' & <-). by apply leases_InStep.
  - destruct (Hre w1 E) as (H1' & H2' & <-). eapply intent_InStep; eauto. by apply Hreg.
Qed.

Lemma shared_InStep w w' : InStep w → shared_step w w' → InStep w' ∧ Extends (w_file w) (w_file w').
Proof.
  intros Hw Hstep. destruct Hstep as [op io Hio Hc|f Hf].
  - by eapply tx_InStep; [..|apply run_op_tx].
  - destruct Hw as (Hp & Hok & Hs). split; [|done]. split; [done|]. split; [apply Hf|]. by eapply Synced_stable.
Qed.

Lemma shared_reach w w' : InStep w → rtc shared_step w w' → InStep w' ∧ Extends (w_file w) (w_file w').
Proof.
  intros Hw Hr. induction Hr as [w|w w1 w2 H1' _ IH]; [split; [done|apply Extends_refl, Hw]|].
  destruct (shared_InStep _ _ Hw H1') as [Hw1 He]. destruct (IH Hw1) as [Hw2 He2].
  split; [done|by eapply Extends_trans].
Qed.

(** The world of a process that opens a journal file. *)
Definition opened (j : Journal) (file : JournalFile) (shadow : option S) : World S :=
  {| w_journal := j; w_file := file; w_shadow := shadow; w_reports := ∅ |}.

Lemma opened_InStep path file j shadow :
  TrimSpace path ≠ "" → file_ok file → NewJournal path None file = Ok j → InStep (opened j file shadow).
Proof.
  intros Hp Hf. unfold NewJournal. rewrite (bool_decide_eq_false_2 (TrimSpace path = "")) by done.
  destruct file as [[st|e]|]; [|done|intros [= <-]; by split_and!].
  intros Hok. apply rbind_any_Ok in Hok as [_ [= <-]]. split; [done|]. split; [done|]. by apply Synced_loaded.
Qed.

Lemma NewJournal_loads path file :
  TrimSpace path ≠ "" → file_ok file → ∃ j, NewJournal path None file = Ok j ∧ j_events j = file_events file.
Proof.
  intros Hp Hf. unfold NewJournal. rewrite (bool_decide_eq_false_2 (TrimSpace path = "")) by done.
  destruct file as [[st|e]|]; simpl in *; [|done|by eexists].
  destruct Hf as [-> _]. by eexists.
Qed.

(** C20: a process opens a journal file shared with other processes, and both it and
    they run operations, interleaved in the windows an operation leaves between its
    reload and its commit and after its commit.  Then no record that was ever
    committed is removed, changed or reordered; the journal in memory verifies; and
    at every moment the file reopens to a journal that holds the records of the
    process's memory in their order.  The operations draw new event ids, the revision
    counter has room, the peers only append, and the file system may fail everywhere
    but in the re-read of the file just written, which loses the commit
    ([JournalSamples.reread_failure_loses_commit]); an effect intent is committed
    only while the effect index in memory covers the journal ([covered]), since the
    index is stale after a rebase whose write failed
    ([JournalSamples.stale_index_corrupts_file]). *)
Theorem commits_permanent path file j shadow w :
  TrimSpace path ≠ "" → file_ok file → NewJournal path None file = Ok j →
  rtc shared_step (opened j file shadow) w →
  file_events file `prefix_of` file_events (w_file w) ∧ Verify (w_journal w) = Ok tt
  ∧ ∃ j', NewJournal path None (w_file w) = Ok j' ∧ j_events (w_journal w) `prefix_of` j_events j'.
Proof.
  intros Hp Hf Hj Hr. pose proof (opened_InStep _ _ _ shadow Hp Hf Hj) as Hw.
  destruct (shared_reach _ _ Hw Hr) as [Hw' Hext]. split; [apply Hext|]. split; [by apply InStep_Valid|].
  destruct Hw' as (_ & Hf' & _ & Hpre & _).
  destruct (NewJournal_loads path _ Hp Hf') as (j' & Hj' & Hev). exists j'. by rewrite Hev.
Qed.
End shared.

Section exclusive.
Context `{!Sha256, !JsonCompact, !JsonMarshal value, !JsonMarshal Event, !JsonMarshal journalState}.
Context {S : Type} `{!EventShadow S}.
Implicit Types (w : World S) (io : Io).

(** The lease a record was appended under. *)
Definition under_lease (leases : gmap string Lease) (e : Event) : Prop :=
  ∃ lease, leases !! leaseKey (je_Scope e) = Some lease ∧ jl_Owner lease = je_WriterID e
           ∧ jl_FencingToken lease = je_FencingToken e ∧ (je_CreatedAt e < jl_ExpiresAt lease)%Z.

(** C21: a batch is atomic and fenced, in a process that is alone with its file: no
    other process writes it during the operation, the re-read of the file just
    written does not fail, and event ids are new ([alone]); any other failure of the
    file system is allowed.  A batch that returns an error has changed nothing; one
    that succeeds has left every earlier record in place and holds a record of each
    of its inputs, same scope, type, aggregate, idempotency key and payload digest;
    and every record it added under a positive fencing token was written by the owner
    of the run's unexpired lease with that token.  (A rebase behind another process
    checks no lease: [JournalSamples.rebase_restores_stale_lease].) *)
Theorem AppendBatch_atomic_fenced io inputs w w' r :
  Settled w → alone io w → AppendBatch io inputs w = (w', r) →
  Settled w' ∧ ct_leases (contents w') = ct_leases (contents w) ∧ ct_effects (contents w') = ct_effects (contents w)
  ∧ ∃ new, ct_events (contents w') = ct_events (contents w) ++ new
      ∧ Forall (λ e, (0 < je_FencingToken e)%Z → under_lease (ct_leases (contents w)) e) new
      ∧ match r with
        | Err _ => new = []
        | Ok e => e ∈ ct_events (contents w')
                  ∧ ∀ input, input ∈ inputs → ∃ e, e ∈ ct_events (contents w') ∧ answers input e
        end.
Proof.
  intros Hs Ha E.
  assert (w' = w → (∃ e, r = Err e) → Settled w' ∧ ct_leases (contents w') = ct_leases (contents w)
    ∧ ct_effects (contents w') = ct_effects (contents w) ∧ ∃ new, ct_events (contents w') = ct_events (contents w) ++ new
      ∧ Forall (λ e, (0 < je_FencingToken e)%Z → under_lease (ct_leases (contents w)) e) new
      ∧ match r with Err _ => new = [] | Ok e => e ∈ ct_events (contents w')
          ∧ ∀ input, input ∈ inputs → ∃ e, e ∈ ct_events (contents w') ∧ answers input e end) as Hsame.
  { intros -> [e ->]. split; [done|]. split; [done|]. split; [done|]. exists []. by rewrite app_nil_r. }
  destruct (decide (inputs = [])) as [->|Hne]; [injection E as <- <-; apply Hsame; eauto|].
  apply AppendBatch_settled in E as [[-> He]|E]; [by apply Hsame| |done|done].
  apply append_settled in E as (Hs' & _ & E); [|done..].
  destruct (prepare_batch _ _ _ _ _ _) as [[cand last]|e] eqn:Ep; [|destruct E as [-> ->]; apply Hsame; eauto].
  destruct E as [[-> He]|[Hc Hr]]; [by apply Hsame|].
  destruct (prepare_batch_fenced _ _ _ _ _ _ _ _ Ep) as (new & Hnew & Hf).
  pose proof Ha as (_ & _ & _ & [_ Hinj] & Hfresh & _).
  destruct (prepare_batch_covers _ _ _ _ _ _ _ _ Hinj (λ k _, Hfresh k) Ep) as (_ & Hcov & Hlast).
  rewrite Hc. cbn. split; [done|]. split; [done|]. split; [done|]. exists new. split; [done|]. split; [done|].
  assert (je_EventID last ≠ "") as Hid.
  { apply (Valid_named cand); [|by apply Hlast]. destruct Hs' as [Hv _]. by injection Hc as <- _ _. }
  rewrite bool_decide_eq_false_2 in Hr by done. subst r. split; [by apply Hlast|done].
Qed.

(** A fence that is not the one of the run's lease is closed, whether it is the
    writer or the token that differs. *)
Lemma fence_closed leases now scope lease input :
  leases !! leaseKey scope = Some lease → in_Scope input = scope → (0 < in_FencingToken input)%Z →
  in_WriterID (normalized input) ≠ jl_Owner lease ∨ in_FencingToken input ≠ jl_FencingToken lease →
  fence_open leases now (normalized input) = false.
Proof.
  intros Hl <- Hpos Hd. unfold fence_open. cbn [normalized in_FencingToken in_Scope].
  rewrite (proj2 (Z.ltb_lt _ _) Hpos), Hl, !andb_false_iff, !bool_decide_eq_false.
  left. destruct Hd as [Hd|Hd]; [left|right]; intros E; apply Hd; by rewrite E.
Qed.

(** C22: taking over a lease fences every earlier one, in a process that is alone
    with its file ([alone], as for batches).  Acquiring succeeds only when the run's
    lease is absent, expired or the caller's own, and takes a token that differs from
    the previous one.  From then on a batch of positive fencing tokens for the run,
    each written by another writer or under another token than the new lease's (so
    also by the new owner itself, under the token it held before), leaves events,
    leases and effects as they are, and is refused unless every input repeats, under
    its idempotency key, a request already recorded. *)
Theorem takeover_fences io io' scope owner ttl now lease inputs w w1 w2 r :
  Settled w → alone io w → AcquireLease io scope owner ttl now w = (w1, Ok lease) →
  alone io' w1 → AppendBatch io' inputs w1 = (w2, r) →
  (∀ input, input ∈ inputs → in_Scope input = scope ∧ (0 < in_FencingToken input)%Z
     ∧ (in_WriterID (normalized input) ≠ owner ∨ in_FencingToken input ≠ jl_FencingToken lease)) →
  (∀ old, ct_leases (contents w) !! leaseKey scope = Some old →
     (jl_Owner old = owner ∨ (jl_ExpiresAt old ≤ orNow (io_now io) now)%Z)
     ∧ jl_FencingToken lease = add64 (jl_FencingToken old) 1)
  ∧ contents w2 = contents w1
  ∧ ((∀ input, input ∈ inputs → prior_event (ct_events (contents w1)) (normalized input) ≠ None) ∨ ∃ e, r = Err e).
Proof.
  intros Hs Ha Hacq Ha' Happ Hin. apply AcquireLease_settled in Hacq as (Hs1 & Hold & Hown & Htok & _ & Hc); [|done..].
  split.
  { intros old Eo. split; [by apply Hold|]. unfold contents in Eo. cbn in Eo. rewrite Htok, Eo. done. }
  assert (j_leases (w_journal w1) = <[leaseKey scope := lease]> (j_leases (w_journal w))) as Hl by (by injection Hc).
  destruct (decide (inputs = [])) as [->|Hne]; [injection Happ as <- <-; split; [done|right; eauto]|].
  apply AppendBatch_settled in Happ as [[-> He]|Happ]; [by split; [|right]| |done|done].
  apply append_settled in Happ as (_ & _ & Happ); [|done..].
  destruct (prepare_batch _ _ _ _ _ _) as [[cand last]|e] eqn:Ep; [|destruct Happ as [-> ->]; split; [done|right; eauto]].
  destruct Happ as [[-> He]|[Hc2 _]]; [by split; [|right]|].
  apply prepare_batch_closed in Ep as [-> Hall]; [rewrite Hc2; by split; [|left]|].
  intros k input Hi. destruct (Hin input Hi) as (Hsc & Hpos & Hd).
  apply (fence_closed _ _ scope lease); [by rewrite Hl, lookup_insert_eq|done|done|by rewrite Hown].
Qed.

Lemma prior_event_app es es' input e : prior_event es input = Some e → prior_event (es ++ es') input = Some e.
Proof.
  unfold prior_event. case_bool_decide; [done|]. induction es as [|x es IH]; [done|]. simpl.
  by destruct (_ && _).
Qed.

Lemma prior_event_snoc es input e :
  prior_event es input = None → in_IdempotencyKey input ≠ "" → je_IdempotencyKey e = in_IdempotencyKey input →
  je_Scope e = in_Scope input → prior_event (es ++ [e]) input = Some e.
Proof.
  intros Hpr Hk Hke Hse. unfold prior_event in *. rewrite bool_decide_eq_false_2 in * by done.
  induction es as [|x es IH]; simpl in *; [by rewrite !bool_decide_eq_true_2|].
  destruct (_ && _); [done|]. by apply IH.
Qed.

(** an append is idempotent.  Once an input with an idempotency key has been
    accepted, presenting it again to any later state of the journal, whatever has
    been appended since and whoever holds the lease by then, either fails on the
    file system or returns the very record of the first time; the journal does not
    change. *)
Theorem append_idempotent io io' input e w w1 w2 w3 r :
  Settled w → alone io w → in_IdempotencyKey input ≠ "" → Append io input w = (w1, Ok e) →
  Settled w2 → alone io' w2 → ct_events (contents w1) `prefix_of` ct_events (contents w2) →
  Append io' input w2 = (w3, r) →
  contents w3 = contents w2 ∧ (r = Ok e ∨ w3 = w2 ∧ ∃ err, r = Err err).
Proof.
  intros Hs Ha Hk E Hs2 Ha2 [more Hmore] E2. unfold Append in *.
  apply AppendBatch_settled in E as [[_ [? ?]]|E]; [done| |done|done].
  apply append_settled in E as (Hs1 & _ & E); [|done..]. cbn [prepare_batch] in E.
  destruct (prepareLocked _ _ _ input) as [ev|err] eqn:Ep; cbn [rbind] in E; [|by destruct E as [_ ?]].
  destruct E as [[_ [? ?]]|[Hc Hr]]; [done|]. case_bool_decide as Hid; [done|]. injection Hr as <-.
  assert (prior_event (j_events (w_journal w1)) (normalized input) = Some e
    ∧ ∃ payload, json_marshal (in_Payload input) = Some payload ∧ je_PayloadHash e = payloadDigest payload
      ∧ je_EventType e = in_EventType (normalized input) ∧ je_AggregateID e = in_AggregateID (normalized input))
    as [Hpr (payload & Hm & Hh & Ht & Hag)].
  { assert (j_events (w_journal w1) = (if existsb (λ p, je_EventID p ≟ je_EventID e) (j_events (w_journal w))
      then j_events (w_journal w) else j_events (w_journal w) ++ [e])) as -> by (by injection Hc).
    apply prepareLocked_Ok in Ep.
    inversion Ep as [? payload Hpr Hm Hh Ht Hag|payload Hpr Hm]; subst.
    - split; [|by exists payload]. apply prior_event_Some in Hpr as Hin. destruct Hin as [Hin _].
      rewrite (proj2 (existsb_id _ _)); [done|]. by apply list_elem_of_fmap_2.
    - split; [|by exists payload]. destruct (existsb _ _) eqn:Ex.
      + apply existsb_id in Ex. exfalso. destruct Ha as (_ & _ & _ & _ & Hfresh & _). exact (Hfresh 0 Ex).
      + by apply prior_event_snoc. }
  apply AppendBatch_settled in E2 as [[-> He]|E2]; [by split; [|right]| |done|done].
  apply append_settled in E2 as (_ & _ & E2); [|done..]. cbn [prepare_batch] in E2.
  assert (prior_event (j_events (w_journal w2)) (normalized input) = Some e) as Hpr2.
  { unfold contents in Hmore. cbn in Hmore. rewrite Hmore. by apply prior_event_app. }
  clear Ep. destruct (prepareLocked _ _ _ input) as [ev2|err] eqn:Ep2; cbn [rbind] in E2.
  2:{ destruct E2 as [-> ->]. split; [done|]. right. eauto. }
  assert (ev2 = e) as ->.
  { apply prepareLocked_Ok in Ep2. destruct Ep2 as [e2 p2 Hpr'|p2 Hpr']; congruence. }
  destruct E2 as [[-> He]|[Hc2 Hr2]]; [by split; [|right]|].
  rewrite bool_decide_eq_false_2 in Hr2 by done. split; [|by left]. rewrite Hc2. unfold contents. f_equal.
  apply prior_event_Some in Hpr2 as [Hin _].
  rewrite (proj2 (existsb_id _ _)); [done|]. by apply list_elem_of_fmap_2.
Qed.

(** A released lease takes its counter with it: the next acquisition starts at
    token one again, whatever token was reached before. *)
Theorem release_resets_token io io' scope owner owner' token ttl now lease w w1 w2 :
  Settled w → alone io w → ReleaseLease io scope owner token w = (w1, Ok tt) →
  alone io' w1 → AcquireLease io' scope owner' ttl now w1 = (w2, Ok lease) →
  jl_FencingToken lease = 1%Z.
Proof.
  intros Hs Ha Hrel Ha' Hacq. apply ReleaseLease_settled in Hrel as (Hs1 & _ & Hc); [|done..].
  apply AcquireLease_settled in Hacq as (_ & _ & _ & -> & _); [|done..].
  assert (j_leases (w_journal w1) = delete (leaseKey scope) (j_leases (w_journal w))) as -> by (by injection Hc).
  by rewrite lookup_delete_eq.
Qed.
End exclusive.
