(* ===== verification/EffectProps.v ===== *)
(** * EffectProps: the life of an effect

    What the journal's operations, run one after another, can make of an effect:
    the invariant of its state, and the lemmas that show each transition keeps it. *)
From stdpp Require Import base strings gmap list pretty.
From Stdlib Require Import ZArith Lia.
From S2P Require Import Prelude GoLib GoStrings GoValue GoJson Journal Effects JournalSpec JournalOps JournalAlone.

(** The record types that move an effect. *)
Definition effect_type (t : string) : bool :=
  contains [EventEffectIntent; EventEffectPrepared; EventEffectDispatched; EventEffectReceipted; EventEffectUnknown;
            EventEffectReconciled] t.

(** The state of an effect makes sense: each stage implies the one before, a
    receipt, an unknown outcome and a reconciliation exclude each other, and a
    reconciliation is one the policy of the intent allows. *)
Record effect_ok (s : EffectState) : Prop := {
  eo_prepared : ef_DispatchPrepared s = true → ef_IntentCommitted s = true;
  eo_dispatched : ef_Dispatched s = true → ef_DispatchPrepared s = true;
  eo_receipted : ef_Receipted s = true →
    ef_Dispatched s = true ∧ ef_OutcomeUnknown s = false ∧ ef_Reconciled s = false;
  eo_unknown : ef_OutcomeUnknown s = true → ef_Dispatched s = true ∧ ef_Reconciled s = false;
  eo_reconciled : ef_Reconciled s = true →
    ef_Dispatched s = true ∧ reconcileDecisionAllowed (ef_ReconcilePolicy s) (ef_ReconcileDecision s) = true }.

Section life.
Context `{!Sha256, !JsonCompact, !JsonMarshal value, !JsonMarshal Event, !JsonMarshal journalState}.
Context `{!JsonInto IntentPayload, !JsonInto DecisionPayload, !JsonInto NamePayload}.

(** Every effect of every scope is in order. *)
Definition Life (es : list Event) : Prop := ∀ scope id, effect_ok (effectStateLocked es scope id).

(** A completed effect has its tool completion in the same scope. *)
Definition Closed (es : list Event) : Prop := ∀ scope id,
  ef_Receipted (effectStateLocked es scope id) = true ∨ ef_Reconciled (effectStateLocked es scope id) = true →
  ∃ e, e ∈ es ∧ je_Scope e = scope ∧ je_EventType e = EventToolFinished.

Lemma effect_state_snoc es e scope id :
  effectStateLocked (es ++ [e]) scope id =
  if effect_event scope id e then effect_step (effectStateLocked es scope id) e else effectStateLocked es scope id.
Proof.
  unfold effectStateLocked. rewrite filter_app, foldl_app, filter_cons, filter_nil.
  destruct (effect_event scope id e); [by rewrite decide_True|by rewrite decide_False].
Qed.

(** What the invariant depends on. *)
Definition flags (s : EffectState) :=
  (ef_IntentCommitted s, ef_DispatchPrepared s, ef_Dispatched s, ef_Receipted s, ef_OutcomeUnknown s,
   ef_Reconciled s, ef_ReconcilePolicy s, ef_ReconcileDecision s).

Lemma effect_ok_flags s s' : flags s' = flags s → effect_ok s → effect_ok s'.
Proof. unfold flags. intros [= E1 E2 E3 E4 E5 E6 E7 E8] []. constructor; by rewrite ?E1, ?E2, ?E3, ?E4, ?E5, ?E6, ?E7, ?E8. Qed.

Ltac type_cases :=
  repeat match goal with
  | |- context [?a ≟ ?b] => rewrite (bool_decide_eq_true_2 (a = b)) by reflexivity
  | |- context [?a ≟ ?b] => rewrite (bool_decide_eq_false_2 (a = b)) by discriminate
  end.

Lemma plain_step s e : effect_type (je_EventType e) = false → flags (effect_step s e) = flags s.
Proof.
  unfold effect_type. intros Ht.
  assert (∀ t, t ∈ [EventEffectIntent; EventEffectPrepared; EventEffectDispatched; EventEffectReceipted;
            EventEffectUnknown; EventEffectReconciled] → je_EventType e ≠ t) as Hne.
  { intros t Hin <-. apply contains_spec in Hin. congruence. }
  unfold effect_step. by rewrite !bool_decide_eq_false_2 by (apply Hne; set_solver).
Qed.

Lemma plain_state es e scope id :
  effect_type (je_EventType e) = false →
  flags (effectStateLocked (es ++ [e]) scope id) = flags (effectStateLocked es scope id).
Proof. intros Ht. rewrite effect_state_snoc. destruct (effect_event _ _ _); [by apply plain_step|done]. Qed.

Lemma Life_plain es e : effect_type (je_EventType e) = false → Life es → Life (es ++ [e]).
Proof. intros Ht HL scope id. eapply effect_ok_flags; [by apply plain_state|apply HL]. Qed.

(** An effect record: only its own effect is touched. *)
Lemma Life_effect es e :
  je_AggregateType e = "effect" → Life es →
  effect_ok (effect_step (effectStateLocked es (je_Scope e) (je_AggregateID e)) e) → Life (es ++ [e]).
Proof.
  intros Ha HL Hok scope id. rewrite effect_state_snoc. destruct (effect_event scope id e) eqn:E; [|apply HL].
  unfold effect_event in E. apply andb_true_iff in E as [E E3]. apply andb_true_iff in E as [E1 _].
  apply bool_decide_eq_true in E1, E3. by subst.
Qed.

Lemma Life_nil : Life [].
Proof. intros scope id. by constructor. Qed.

(** ** The transitions *)

Ltac step_cases Ht :=
  unfold effect_step; rewrite Ht; type_cases; cbn [negb].

Lemma prepare_ok s e :
  je_EventType e = EventEffectPrepared → effect_ok s → ef_IntentCommitted s = true → effect_ok (effect_step s e).
Proof. intros Ht [] Hi. step_cases Ht. by constructor. Qed.

Lemma dispatch_ok s e :
  je_EventType e = EventEffectDispatched → effect_ok s → ef_DispatchPrepared s = true → effect_ok (effect_step s e).
Proof. intros Ht [] Hp. step_cases Ht. constructor; cbn; naive_solver. Qed.

Lemma unknown_ok s e :
  je_EventType e = EventEffectUnknown → effect_ok s → ef_Dispatched s = true → ef_Receipted s = false →
  ef_Reconciled s = false → effect_ok (effect_step s e).
Proof. intros Ht [] Hd Hr Hc. step_cases Ht. constructor; cbn; rewrite ?Hr, ?Hc; naive_solver. Qed.

Lemma receipt_ok s e :
  je_EventType e = EventEffectReceipted → effect_ok s → ef_Dispatched s = true → ef_Reconciled s = false →
  effect_ok (effect_step s e).
Proof. intros Ht [] Hd Hc. step_cases Ht. constructor; cbn; rewrite ?Hc; naive_solver. Qed.

Lemma reconcile_ok s e :
  je_EventType e = EventEffectReconciled → effect_ok s → ef_Dispatched s = true → ef_Receipted s = false →
  reconcileDecisionAllowed (ef_ReconcilePolicy s) (dp_Decision (fst (json_into (je_Payload e)))) = true →
  effect_ok (effect_step s e).
Proof. intros Ht [] Hd Hr Hall. step_cases Ht. constructor; cbn; rewrite ?Hr; naive_solver. Qed.

Lemma intent_ok s e :
  je_EventType e = EventEffectIntent → effect_ok s → ef_IntentCommitted s = false → effect_ok (effect_step s e).
Proof.
  intros Ht [Hp Hd Hr Hu Hc] Hi. step_cases Ht.
  assert (ef_DispatchPrepared s = false) as Ep by (destruct (ef_DispatchPrepared s); [|done]; rewrite Hp in Hi; done).
  assert (ef_Dispatched s = false) as Ed by (destruct (ef_Dispatched s); [|done]; rewrite Hd in Ep; done).
  constructor; cbn; try done; rewrite ?Ed in *; naive_solver.
Qed.
End life.

(** * What the journal's operations make of tools and effects

    The journal while one process holds it: every operation keeps the life of
    every effect in order, whatever fails. *)

Section turns.
Context `{!Sha256, !JsonCompact, !JsonMarshal value, !JsonMarshal Event, !JsonMarshal journalState}.
Context `{!JsonInto IntentPayload, !JsonInto DecisionPayload, !JsonInto NamePayload}.

(** ** What a record in the journal says about a flag *)

Definition Trimmed (es : list Event) : Prop := ∀ e, e ∈ es → TrimSpace (je_AggregateID e) = je_AggregateID e.

(** Only effects have the records of effects. *)
Definition Typed (es : list Event) : Prop :=
  ∀ e, e ∈ es → effect_type (je_EventType e) = true → je_AggregateType e = "effect".

(** The stage flags of an effect. *)
Definition staged (s : EffectState) : bool :=
  ef_IntentCommitted s || ef_DispatchPrepared s || ef_Dispatched s || ef_OutcomeUnknown s.

Lemma staged_event es scope id :
  staged (effectStateLocked es scope id) = true → ∃ e, e ∈ es ∧ effect_event scope id e = true.
Proof.
  induction es as [|e es IH] using rev_ind; [done|]. rewrite effect_state_snoc.
  destruct (effect_event scope id e) eqn:E; [intros _; exists e; set_solver|].
  intros Hs. destruct (IH Hs) as (e' & ? & ?). exists e'. set_solver.
Qed.

Lemma staged_trimmed es scope id :
  Trimmed es → staged (effectStateLocked es scope id) = true → TrimSpace id = id.
Proof.
  intros Ht Hs. apply staged_event in Hs as (e & Hin & He). apply andb_true_iff in He as [_ He].
  apply bool_decide_eq_true in He. subst. by apply Ht.
Qed.

Lemma step_intent s e :
  ef_IntentCommitted (effect_step s e) = true → ef_IntentCommitted s = true ∨ je_EventType e = EventEffectIntent.
Proof. unfold effect_step. case_bool_decide; [by right|]. case_bool_decide; by left. Qed.

Lemma intent_event es scope id :
  ef_IntentCommitted (effectStateLocked es scope id) = true →
  ∃ e, e ∈ es ∧ je_Scope e = scope ∧ je_AggregateID e = id ∧ je_EventType e = EventEffectIntent.
Proof.
  induction es as [|e es IH] using rev_ind; [done|]. rewrite effect_state_snoc.
  destruct (effect_event scope id e) eqn:E.
  - intros [Hs|Ht]%step_intent.
    + destruct (IH Hs) as (e' & ? & ?). exists e'. set_solver.
    + exists e. unfold effect_event in E. apply andb_true_iff in E as [E E3]. apply andb_true_iff in E as [E1 _].
      apply bool_decide_eq_true in E1, E3. split_and!; [set_solver|done..].
  - intros Hs. destruct (IH Hs) as (e' & ? & ?). exists e'. set_solver.
Qed.

(** ** Batches that keep the effects in order *)

Definition plain (input : Input) : Prop := effect_type (TrimSpace (in_EventType input)) = false.

(** The record of [input] behind [es]. *)
Definition recorded (es : list Event) (input : Input) (e : Event) : Prop :=
  ∃ id now payload, json_marshal (in_Payload input) = Some payload
                    ∧ e = new_event id now es (normalized input) payload.

(** A batch an operation may append to [es]: plain records, or a record that
    moves an effect, followed by the completion of the tool if it closes it. *)
Inductive Grant (es : list Event) : list Input → Prop :=
  | grant_plain inputs : Forall plain inputs → Grant es inputs
  | grant_effect input rest :
      Forall plain rest → TrimSpace (in_EventType input) ≠ EventEffectIntent →
      TrimSpace (in_AggregateType input) = "effect" →
      (Trimmed es → Life es → ∀ e, recorded es input e → Life (es ++ [e])) →
      ((TrimSpace (in_EventType input) = EventEffectReceipted ∨ TrimSpace (in_EventType input) = EventEffectReconciled) →
       ∃ i, i ∈ rest ∧ in_Scope i = in_Scope input ∧ TrimSpace (in_EventType i) = EventToolFinished) →
      Grant es (input :: rest).

(** The invariant of the contents of a journal. *)
Record Orderly (es : list Event) (effects : gmap string string) : Prop := {
  or_life : Life es;
  or_closed : Closed es;
  or_trimmed : Trimmed es;
  or_typed : Typed es;
  or_registered : registered es effects }.

Lemma Orderly_nil : Orderly [] ∅.
Proof.
  constructor; [apply Life_nil|..].
  - intros scope id [Hs|Hs]; done.
  - intros e Hin. by apply elem_of_nil in Hin.
  - intros e Hin. by apply elem_of_nil in Hin.
  - intros e Hin. by apply elem_of_nil in Hin.
Qed.

Lemma Trimmed_snoc es id now input payload :
  Trimmed es → Trimmed (es ++ [new_event id now es (normalized input) payload]).
Proof. intros Ht e [Hin|Hin%list_elem_of_singleton]%elem_of_app; [by apply Ht|]. subst. apply TrimSpace_idem. Qed.

Lemma Typed_snoc es e :
  Typed es → (effect_type (je_EventType e) = true → je_AggregateType e = "effect") → Typed (es ++ [e]).
Proof. intros Ht He x [Hin|Hin%list_elem_of_singleton]%elem_of_app; [by apply Ht|by subst]. Qed.

Lemma registered_snoc es effects e :
  registered es effects → je_EventType e ≠ EventEffectIntent → registered (es ++ [e]) effects.
Proof. intros Hr Hne x [Hin|Hin%list_elem_of_singleton]%elem_of_app; [by apply Hr|by subst]. Qed.

(** The flags that close an effect. *)
Lemma step_closed s e :
  ef_Receipted (effect_step s e) = true ∨ ef_Reconciled (effect_step s e) = true →
  (ef_Receipted s = true ∨ ef_Reconciled s = true) ∨ je_EventType e = EventEffectReceipted
  ∨ je_EventType e = EventEffectReconciled.
Proof.
  unfold effect_step. case_bool_decide; [by left|]. case_bool_decide as H2'; [by right; right|]. cbn.
  case_bool_decide; [by right; left|]. by left.
Qed.

Lemma Closed_grow es es' :
  (∀ e, e ∈ es → e ∈ es') →
  (∀ scope id, ef_Receipted (effectStateLocked es' scope id) = true ∨ ef_Reconciled (effectStateLocked es' scope id) = true →
     (ef_Receipted (effectStateLocked es scope id) = true ∨ ef_Reconciled (effectStateLocked es scope id) = true)
     ∨ ∃ e, e ∈ es' ∧ je_Scope e = scope ∧ je_EventType e = EventToolFinished) →
  Closed es → Closed es'.
Proof.
  intros Hin Hst Hc scope id Hs. destruct (Hst scope id Hs) as [Ho|He]; [|done].
  destruct (Hc scope id Ho) as (e & ? & ?). exists e. split; [by apply Hin|done].
Qed.

(** One record after another. *)
Definition state_flags (es : list Event) scope id := flags (effectStateLocked es scope id).

Lemma plain_batch leases tick inputs i es last es' last' :
  Forall plain inputs → prepare_batch leases tick i es last inputs = Ok (es', last') →
  (∀ scope id, state_flags es' scope id = state_flags es scope id) ∧ (Life es → Life es')
  ∧ (Trimmed es → Trimmed es') ∧ (Typed es → Typed es') ∧ (∀ effects, registered es effects → registered es' effects) ∧ es `prefix_of` es'.
Proof.
  intros Hp Hok.
  eapply (prepare_batch_ind (λ cand, (∀ scope id, state_flags cand scope id = state_flags es scope id)
    ∧ (Life es → Life cand) ∧ (Trimmed es → Trimmed cand) ∧ (Typed es → Typed cand) ∧ (∀ effects, registered es effects → registered cand effects)
    ∧ es `prefix_of` cand)); [by split_and!| |exact Hok].
  intros k input es1 payload e (H1' & H2' & H3' & H6' & H4' & H5') Hin _ _ _ _.
  rewrite Forall_forall in Hp. specialize (Hp input Hin). unfold plain in Hp.
  assert (effect_type (je_EventType e) = false) as Ht by exact Hp. split_and!.
  - intros scope id. unfold state_flags. rewrite plain_state by done. apply H1'.
  - intros HL. apply Life_plain; [done|by apply H2'].
  - intros HT. by apply Trimmed_snoc, H3'.
  - intros HT. apply Typed_snoc; [by apply H6'|congruence].
  - intros effects Hr. apply registered_snoc; [by apply H4'|]. intros E. rewrite E in Ht. done.
  - by apply prefix_app_r.
Qed.

Lemma flags_closed es es' scope id :
  state_flags es' scope id = state_flags es scope id →
  (ef_Receipted (effectStateLocked es' scope id) = true ∨ ef_Reconciled (effectStateLocked es' scope id) = true) →
  (ef_Receipted (effectStateLocked es scope id) = true ∨ ef_Reconciled (effectStateLocked es scope id) = true).
Proof. unfold state_flags, flags. intros [= _ _ _ -> _ -> _ _]. done. Qed.

Lemma grant_batch leases tick inputs es es' last' effects :
  (∀ k k', fst (tick k) = fst (tick k') → k = k') → (∀ k, fst (tick k) ∉ ids es) →
  Grant es inputs → Orderly es effects →
  prepare_batch leases tick 0 es zero_Event inputs = Ok (es', last') → Orderly es' effects.
Proof.
  intros Hinj Hfresh Hg [HL HC HT HY HR] Hok. destruct Hg as [inputs Hp|input rest Hp Hni Hagt Hkeep Hclose].
  { destruct (plain_batch _ _ _ _ _ _ _ _ Hp Hok) as (Hfl & HL' & HT' & HY' & HR' & [k ->]).
    constructor; [by apply HL'| |by apply HT'|by apply HY'|by apply HR'].
    apply (Closed_grow es); [set_solver| |exact HC]. intros scope id Hs. left. exact (flags_closed es _ scope id (Hfl scope id) Hs). }
  destruct (prepare_batch_covers _ _ _ _ _ _ _ _ Hinj (λ k _, Hfresh k) Hok) as (Hpre & Hcov & _).
  cbn [prepare_batch] in Hok. apply rbind_Ok in Hok as (e & He & Hok).
  apply prepareLocked_Ok in He.
  assert ((if existsb (λ p, je_EventID p ≟ je_EventID e) es then es else es ++ [e]) = es
    ∨ ((if existsb (λ p, je_EventID p ≟ je_EventID e) es then es else es ++ [e]) = es ++ [e]
       ∧ ∃ payload, json_marshal (in_Payload input) = Some payload
           ∧ e = new_event (fst (tick 0)) (snd (tick 0)) es (normalized input) payload)) as [Hes|[Hes (payload & Hm & He')]].
  { inversion He as [? payload Hpr|payload Hpr Hm]; subst.
    - left. apply prior_event_Some in Hpr as [Hin _]. rewrite (proj2 (existsb_id _ _)); [done|].
      by apply list_elem_of_fmap_2.
    - destruct (existsb _ _); [by left|right]. split; [done|]. by exists payload. }
  - rewrite Hes in Hok. destruct (plain_batch _ _ _ _ _ _ _ _ Hp Hok) as (Hfl & HL' & HT' & HY' & HR' & [k ->]).
    constructor; [by apply HL'| |by apply HT'|by apply HY'|by apply HR'].
    apply (Closed_grow es); [set_solver| |exact HC]. intros scope id Hs. left. exact (flags_closed es _ scope id (Hfl scope id) Hs).
  - rewrite Hes in Hok. destruct (plain_batch _ _ _ _ _ _ _ _ Hp Hok) as (Hfl & HL' & HT' & HY' & HR' & Hpre2).
    assert (je_EventType e = TrimSpace (in_EventType input)) as Hty by (by rewrite He').
    constructor.
    + apply HL', Hkeep; [done..|]. by exists (fst (tick 0)), (snd (tick 0)), payload.
    + apply (Closed_grow es); [destruct Hpre as [k ->]; set_solver| |exact HC]. intros scope id Hs.
      apply (flags_closed (es ++ [e]) es' scope id (Hfl scope id)) in Hs. rewrite effect_state_snoc in Hs.
      destruct (effect_event scope id e) eqn:Eev; [|by left].
      apply step_closed in Hs as [Hs|Hs]; [by left|]. right. rewrite Hty in Hs.
      destruct (Hclose Hs) as (i & Hi & Hsc & Hti). destruct (Hcov i) as (e2 & Hin2 & Hans); [set_solver|].
      exists e2. destruct Hans as (Hs2 & Ht2 & _). split_and!; [done| |by rewrite Ht2].
      unfold effect_event in Eev. apply andb_true_iff in Eev as [Eev _]. apply andb_true_iff in Eev as [Eev _].
      apply bool_decide_eq_true in Eev. rewrite Hs2, Hsc, <- Eev, He'. done.
    + rewrite He' in HT'. by apply HT', Trimmed_snoc.
    + apply HY', Typed_snoc; [done|]. intros _. by rewrite He'.
    + apply HR', registered_snoc; [done|]. by rewrite Hty.
Qed.
End turns.

(** ** The operations *)

Section public.
Context `{!Sha256, !JsonCompact, !JsonMarshal value, !JsonMarshal Event, !JsonMarshal journalState}.
Context `{!JsonInto IntentPayload, !JsonInto DecisionPayload, !JsonInto NamePayload}.
Context {S : Type} `{!EventShadow S}.
Implicit Types (w : World S) (io : Io) (op : Op).

(** The decoder returns the decision the reconciliation record was written with. *)
Context (decision_codec : ∀ effectID decision output b,
  json_marshal (VObject [("effect_id", VString effectID); ("decision", VString decision); ("output", output)]) = Some b →
  dp_Decision (fst (json_into b)) = decision).

(** A record of an effect keeps the life of the effects in order if its own
    effect may take the step. *)
Lemma grant_step es input (rest : list Input) typ effectID scope key owner token status payload :
  input = record typ "effect" effectID scope key owner token status payload →
  TrimSpace typ = typ → typ ≠ EventEffectIntent → Forall plain rest →
  staged (effectStateLocked es scope effectID) = true →
  (effect_ok (effectStateLocked es scope effectID) → ∀ e, je_EventType e = typ →
     json_marshal payload = Some (je_Payload e) → effect_ok (effect_step (effectStateLocked es scope effectID) e)) →
  ((typ = EventEffectReceipted ∨ typ = EventEffectReconciled) →
    ∃ i, i ∈ rest ∧ in_Scope i = scope ∧ TrimSpace (in_EventType i) = EventToolFinished) →
  Grant es (input :: rest).
Proof.
  intros -> Htyp Hni Hp Hst Hstep Hclose. apply grant_effect; [done|by cbn [record in_EventType]; rewrite Htyp|reflexivity| |].
  - intros HT HL e (id & now & b & Hm & ->). apply Life_effect; [done|done|].
    cbn [new_event je_sealed je_Scope je_AggregateID normalized record in_Scope in_AggregateID].
    rewrite (staged_trimmed es scope effectID HT Hst). apply Hstep; [apply HL|exact Htyp|exact Hm].
  - cbn [record in_EventType in_Scope]. by rewrite Htyp.
Qed.

(** What a settled journal can become by one operation. *)
Inductive Turn io w : World S → Prop :=
  | turn_none : Turn io w w
  | turn_append inputs : inputs ≠ [] → Grant (j_events (w_journal w)) inputs →
      Turn io w (fst (appendBatchLocked io inputs w))
  | turn_acquire scope owner ttl now : Turn io w (fst (AcquireLease io scope owner ttl now w))
  | turn_release scope owner token : Turn io w (fst (ReleaseLease io scope owner token w))
  | turn_intent scope effectID callID tool class policy b owner token event :
      default "" (j_effects (w_journal w) !! scopedKey scope effectID) = "" →
      prepareLocked (j_leases (w_journal w)) (io_tick io 0) (j_events (w_journal w))
        (intent_input scope effectID callID tool class policy b owner token) = Ok event →
      TrimSpace effectID = effectID → Turn io w (commit_intent io scope effectID event w).

Lemma locked_turn {A} io (body : World S → World S * result A) w :
  Settled w → Turn io w (fst (body w)) → Turn io w (fst (locked io body w)).
Proof.
  intros Hs Hb. unfold locked. destruct (reloadLocked io w) as [w1 [u|e]] eqn:E;
    apply reload_settled in E; try done; subst; [done|apply turn_none].
Qed.

Lemma AppendBatch_turn io inputs w :
  Settled w → Grant (j_events (w_journal w)) inputs → Turn io w (fst (AppendBatch io inputs w)).
Proof.
  intros Hs Hg. destruct (decide (inputs = [])) as [->|Hne]; [apply turn_none|].
  destruct (AppendBatch io inputs w) as [w2 r] eqn:E. apply AppendBatch_settled in E as [[-> _]|E]; [apply turn_none| |done|done].
  cbn [fst]. replace w2 with (fst (appendBatchLocked io inputs w)) by (by rewrite E). by apply turn_append.
Qed.

Lemma Append_turn io input w : Settled w → plain input → Turn io w (fst (Append io input w)).
Proof. intros Hs Hp. apply AppendBatch_turn; [done|]. by apply grant_plain, Forall_singleton. Qed.

(** A batch whose records are all plain may always be appended. *)
Definition public op : Prop :=
  match op with OpAppendBatch inputs => Forall plain inputs | _ => True end.

Ltac plain_branches Hs :=
  cbv beta zeta;
  repeat match goal with
  | |- context [if ?b then _ else _] => destruct b
  | |- context [match ?x with _ => _ end] => destruct x
  end;
  first [ apply turn_none | apply Append_turn; [exact Hs|reflexivity] ].

(** A guard [b1 || ... || bn] that did not fire. *)
Ltac guards E := repeat apply orb_false_iff in E as [E ?]; repeat match goal with
  | Hb : negb _ = false |- _ => apply negb_false_iff in Hb end.

Lemma PrepareEffectDispatch_turn io scope effectID owner token w :
  Settled w → Turn io w (fst (PrepareEffectDispatch io scope effectID owner token w)).
Proof.
  intros Hs. apply locked_turn; [done|]. cbv beta zeta. destruct (_ || _ || _ || _ || _) eqn:E; [apply turn_none|].
  guards E. apply turn_append; [done|].
  eapply grant_step; [reflexivity|reflexivity|done|constructor| | |intros [|]; done].
  - unfold staged. by rewrite E.
  - intros Hok e Ht _. by apply prepare_ok.
Qed.

Lemma MarkEffectDispatched_turn io scope effectID owner token w :
  Settled w → Turn io w (fst (MarkEffectDispatched io scope effectID owner token w)).
Proof.
  intros Hs. apply locked_turn; [done|]. cbv beta zeta. destruct (_ || _ || _ || _) eqn:E; [apply turn_none|].
  guards E. destruct (if ef_Dispatched _ then _ else _); [apply turn_none|]. apply turn_append; [done|].
  eapply grant_step; [reflexivity|reflexivity|done|constructor| | |intros [|]; done].
  - unfold staged. rewrite E. by rewrite orb_true_r.
  - intros Hok e Ht _. by apply dispatch_ok.
Qed.

Lemma MarkEffectOutcomeUnknown_turn io scope effectID reason owner token w :
  Settled w → Turn io w (fst (MarkEffectOutcomeUnknown io scope effectID reason owner token w)).
Proof.
  intros Hs. apply locked_turn; [done|]. cbv beta zeta. destruct (_ || _ || _) eqn:E; [apply turn_none|].
  guards E. apply turn_append; [done|].
  eapply grant_step; [reflexivity|reflexivity|done|constructor| | |intros [|]; done].
  - unfold staged. rewrite E. by rewrite orb_true_r.
  - intros Hok e Ht _. by apply unknown_ok.
Qed.

Lemma CompleteToolEffect_turn io scope effectID callID owner token output w :
  Settled w → Turn io w (fst (CompleteToolEffect io scope effectID callID owner token output w)).
Proof.
  intros Hs. apply locked_turn; [done|]. cbv beta zeta.
  destruct (_ || _ || _ || _ || _ || _ || _) eqn:E; [apply turn_none|].
  guards E. apply turn_append; [done|].
  eapply grant_step; [reflexivity|reflexivity|done| | | |].
  - repeat constructor.
  - unfold staged. rewrite E. by rewrite orb_true_r.
  - intros Hok e Ht _. by apply receipt_ok.
  - intros _. eexists. split; [left|]. done.
Qed.

Lemma ReconcileEffect_turn io scope effectID callID owner token decision output w :
  Settled w → Turn io w (fst (ReconcileEffect io scope effectID callID owner token decision output w)).
Proof.
  intros Hs. unfold ReconcileEffect. destruct (_ || _ || _); [apply turn_none|]. destruct (_ || _); [apply turn_none|].
  apply locked_turn; [done|]. cbv beta zeta.
  destruct (ef_Reconciled _) eqn:Erec.
  { destruct (find _ _) as [item|]; [|apply turn_none]. destruct (json_into _) as [prior failed].
    destruct (_ && _); apply turn_none. }
  destruct (_ || _ || _ || _ || _ || _) eqn:E; [apply turn_none|].
  destruct (negb (ef_OutcomeUnknown _)) eqn:Eu; [apply turn_none|]. apply negb_false_iff in Eu.
  destruct (negb (reconcileDecisionAllowed _ _)) eqn:Ed; [apply turn_none|]. apply negb_false_iff in Ed.
  guards E. apply turn_append; [done|].
  eapply grant_step; [reflexivity|reflexivity|done| | | |].
  - repeat constructor.
  - unfold staged. by rewrite E.
  - intros Hok e Ht Hm. apply reconcile_ok; [done..|]. by rewrite (decision_codec _ _ _ _ Hm).
  - intros _. eexists. split; [left|]. done.
Qed.

Lemma CommitEffectIntent_turn io scope effectID callID tool class policy input owner token w :
  Settled w →
  Turn io w (fst (CommitEffectIntentWithPolicy io scope effectID callID tool class policy input owner token w)).
Proof.
  intros Hs. unfold CommitEffectIntentWithPolicy. destruct (_ || _ || _ || _); [apply turn_none|].
  destruct (validateReconcilePolicy class policy); [|apply turn_none].
  destruct (_ || _); [apply turn_none|]. destruct (json_marshal input) as [b|]; [|apply turn_none].
  destruct (reloadLocked io w) as [w1 [u|e]] eqn:E; apply reload_settled in E; try done; subst w1; [|apply turn_none].
  case_bool_decide as Hid; cbn [negb].
  - destruct (prepareLocked _ _ _ _) as [event|e] eqn:Ep; [|apply turn_none].
    pose proof (turn_intent io w scope (TrimSpace effectID) (TrimSpace callID) (TrimSpace tool) class policy b owner
                  token event Hid Ep (TrimSpace_idem _)) as Ht. unfold commit_intent in Ht.
    destruct (persistCandidateLocked io _ w) as [w2 [v|e]]; [|exact Ht].
    destruct (reloadFromDiskLocked io _) as [w3 [v'|e]]; exact Ht.
  - destruct (find _ _); [|apply turn_none].
    destruct (json_marshal (intent_payload _ _ _ _ _ _)); [|apply turn_none]. destruct (negb _); apply turn_none.
Qed.

Lemma run_op_turn op io w : Settled w → public op → Turn io w (run_op op io w).
Proof.
  intros Hs Hp. destruct op; cbn [run_op].
  - apply AppendBatch_turn; [done|]. by apply grant_plain.
  - apply turn_acquire.
  - apply turn_release.
  - by apply CommitEffectIntent_turn.
  - by apply PrepareEffectDispatch_turn.
  - by apply MarkEffectDispatched_turn.
  - by apply MarkEffectOutcomeUnknown_turn.
  - by apply ReconcileEffect_turn.
  - by apply CompleteToolEffect_turn.
  - unfold AuthorizeTool. plain_branches Hs.
  - unfold StartTool. plain_branches Hs.
  - unfold ApproveTool. plain_branches Hs.
  - unfold FinishTool. plain_branches Hs.
  - unfold CancelTool. plain_branches Hs.
  - unfold RetryTool. destruct (blank callID); [apply turn_none|].
    match goal with |- context [Append io ?i w] =>
      pose proof (Append_turn io i w Hs) as Ht; destruct (Append io i w) end. by apply Ht.
  - unfold AppendInteraction. plain_branches Hs.
  - unfold RecordUsage. plain_branches Hs.
  - unfold FinishTurn. cbv beta zeta. case_bool_decide; [apply turn_none|]. destruct (_ || _); [apply turn_none|].
    apply AppendBatch_turn; [done|]. apply grant_plain. repeat constructor.
Qed.

(** The invariant of a journal one process holds. *)
Definition Kept w : Prop := Settled w ∧ Orderly (j_events (w_journal w)) (j_effects (w_journal w)).

Lemma contents_eq w w' : contents w' = contents w →
  j_events (w_journal w') = j_events (w_journal w) ∧ j_leases (w_journal w') = j_leases (w_journal w)
  ∧ j_effects (w_journal w') = j_effects (w_journal w).
Proof. unfold contents. by intros [= -> -> ->]. Qed.

Lemma intent_orderly io scope effectID callID tool class policy b owner token event w :
  Kept w → alone io w → default "" (j_effects (w_journal w) !! scopedKey scope effectID) = "" →
  prepareLocked (j_leases (w_journal w)) (io_tick io 0) (j_events (w_journal w))
    (intent_input scope effectID callID tool class policy b owner token) = Ok event →
  TrimSpace effectID = effectID →
  Orderly (j_events (w_journal w) ++ [event]) (<[scopedKey scope effectID := je_EventID event]> (j_effects (w_journal w))).
Proof.
  intros [Hs [HL HC HT HY HR]] (_ & _ & _ & [Ht _] & Hfresh & _) Hidx Hok Htrim.
  destruct (intent_new _ _ _ _ _ _ _ _ _ _ _ _ _ _ HR Hidx Htrim Hok (Ht 0) (Hfresh 0)) as (_ & Hid & Hty & Hsc & Hag).
  assert (je_AggregateType event = "effect" ∧ ∃ payload, event = new_event (fst (io_tick io 0)) (snd (io_tick io 0))
            (j_events (w_journal w)) (normalized (intent_input scope effectID callID tool class policy b owner token)) payload)
    as [Hagt [payload Hev]].
  { apply prepareLocked_Ok in Hok. destruct Hok as [e p Hpr Hm Hh Hty' Hag'|p Hpr Hm]; [|split; [done|by exists p]].
    exfalso. apply prior_event_Some in Hpr as (Hin & _ & _ & Hsc'). eapply (HR _ Hin); [done|].
    by rewrite Hsc, Hag. }
  constructor.
  - apply Life_effect; [done|done|]. rewrite Hsc, Hag. apply intent_ok; [done|apply HL|].
    destruct (ef_IntentCommitted _) eqn:Ei; [|done]. exfalso.
    destruct (intent_event _ _ _ Ei) as (e & Hin & Hs1 & Ha1 & Ht1). eapply (HR e Hin); [done|]. by rewrite Hs1, Ha1.
  - apply (Closed_grow (j_events (w_journal w))); [set_solver| |exact HC]. intros sc id Hst. left.
    rewrite effect_state_snoc in Hst. destruct (effect_event _ _ _); [|done].
    apply step_closed in Hst as [Hst|[Hst|Hst]]; [done|..]; rewrite Hty in Hst; done.
  - rewrite Hev. by apply Trimmed_snoc.
  - by apply Typed_snoc.
  - intros e [Hin|Hin%list_elem_of_singleton]%elem_of_app Hte.
    + destruct (decide (scopedKey (je_Scope e) (je_AggregateID e) = scopedKey scope effectID)) as [Hk|Hk].
      * rewrite Hk, lookup_insert_eq. cbn. rewrite Hid. apply Ht.
      * rewrite lookup_insert_ne by congruence. by apply HR.
    + subst e. rewrite Hsc, Hag, lookup_insert_eq. cbn. rewrite Hid. apply Ht.
Qed.

Lemma turn_kept io w w' : Kept w → alone io w → Turn io w w' → Kept w'.
Proof.
  intros [Hs Ho] Ha Ht. destruct Ht as [|inputs Hne Hg|scope owner ttl now|scope owner token|sc id call tool cl pol b own tok ev Hidx Hok Htr].
  - done.
  - destruct (appendBatchLocked io inputs w) as [w2 r] eqn:E. cbn [fst].
    apply append_settled in E as (Hs2 & _ & E); [|done..]. split; [done|].
    destruct (prepare_batch _ _ _ _ _ _) as [[cand last]|e] eqn:Ep; [|by destruct E as [-> _]].
    destruct E as [[-> _]|[Hc _]]; [done|]. injection Hc as -> _ ->.
    pose proof Ha as (_ & _ & _ & [_ Hinj] & Hfresh & _). by eapply grant_batch.
  - destruct (AcquireLease io scope owner ttl now w) as [w2 r] eqn:E. cbn [fst].
    apply AcquireLease_settled in E as [Hs2 E]; [|done..]. split; [done|].
    destruct r as [lease|e]; [|by subst]. destruct E as (_ & _ & _ & _ & Hc). by injection Hc as -> _ ->.
  - destruct (ReleaseLease io scope owner token w) as [w2 r] eqn:E. cbn [fst].
    apply ReleaseLease_settled in E as [Hs2 E]; [|done..]. split; [done|].
    destruct r as [u|e]; [|by subst]. destruct E as (_ & Hc). by injection Hc as -> _ ->.
  - pose proof Ha as (_ & _ & _ & [Htk _] & Hfresh & _).
    destruct (intent_new _ _ _ _ _ _ _ _ _ _ _ _ _ _ (or_registered _ _ Ho) Hidx Htr Hok (Htk 0) (Hfresh 0)) as (Hx & Hid & _).
    destruct (intent_settled io sc id ev w Hs Ha Hx Hid) as (Hs2 & _ & [->|Hc]); [done|].
    split; [done|]. injection Hc as -> _ ->. by eapply intent_orderly.
Qed.

(** ** Histories of operations *)

Inductive turn_step w : World S → Prop :=
  | turn_op op io : alone io w → public op → turn_step w (run_op op io w).

Lemma turns_kept w w' : Kept w → rtc turn_step w w' → Kept w'.
Proof.
  intros Hk Hr. induction Hr as [w|w w1 w2 Hstep _ IH]; [done|]. apply IH. destruct Hstep as [op io Ha Hp].
  eapply turn_kept; [done|done|]. apply run_op_turn; [apply Hk|done].
Qed.

Lemma turns_path w w' : rtc turn_step w w' → j_path (w_journal w') = j_path (w_journal w).
Proof.
  induction 1 as [w|w w1 w2 Hstep _ IH]; [done|]. rewrite IH. destruct Hstep as [op io _ _].
  eapply tx_path, run_op_tx.
Qed.

(** The world of a process that opens a new journal, with or without a file. *)
Definition fresh_world (path : string) (shadow : option S) : World S :=
  {| w_journal := empty_journal (TrimSpace path); w_file := None; w_shadow := shadow; w_reports := ∅ |}.

Lemma fresh_kept path shadow : Kept (fresh_world path shadow).
Proof. split; [by split|]. apply Orderly_nil. Qed.

(** C23: the life of an effect.  Whatever operations a process that is alone with its
    journal ([alone]: no other process writes the file, the re-read of the file just
    written does not fail, event ids are new) runs on it, in whatever order, with
    whatever arguments and other failures of the file system, effect records being
    written by the effect operations and not by raw batches ([public]), an effect of
    any scope is prepared only after its intent, dispatched only after it was
    prepared, and then receipted or reconciled but never both; its outcome is unknown
    only between dispatch and reconciliation; a reconciliation is one the policy
    frozen in the intent allows; and a receipted or reconciled effect has a tool
    completion in its scope. *)
Theorem effect_lifecycle path shadow w scope effectID :
  rtc turn_step (fresh_world path shadow) w →
  let s := effectStateLocked (j_events (w_journal w)) scope effectID in
  effect_ok s ∧ (ef_Receipted s = true ∨ ef_Reconciled s = true →
    ∃ e, e ∈ j_events (w_journal w) ∧ je_Scope e = scope ∧ je_EventType e = EventToolFinished).
Proof.
  intros Hr. destruct (turns_kept _ _ (fresh_kept path shadow) Hr) as [_ [HL HC _ _ _]]. split; [apply HL|apply HC].
Qed.

(** restarting loses nothing.  After any operations on a journal with a file,
    with any failures but a re-read that fails, opening the file gives a journal
    with the records, leases and effect index the process has in memory, at its
    revision. *)
Theorem reopen_same path shadow w :
  TrimSpace path ≠ "" → rtc turn_step (fresh_world path shadow) w →
  NewJournal path None (w_file w) = Ok (w_journal w).
Proof.
  intros Hp Hr. pose proof (turns_path _ _ Hr) as Hpath. cbn in Hpath.
  destruct (turns_kept _ _ (fresh_kept path shadow) Hr) as [[_ Hs] _].
  destruct Hs as (Hf & Hrev & Hc); [by rewrite Hpath|]. unfold NewJournal.
  rewrite (bool_decide_eq_false_2 (TrimSpace path = "")) by done. unfold contents in Hc.
  destruct (w_journal w) as [p rev es ls ef]. cbn in *. destruct (w_file w) as [[st|e]|]; [|done|]; cbn in *.
  - destruct Hf as [-> _]. cbn. injection Hc as -> -> ->. by rewrite Hpath, Hrev.
  - injection Hc as -> -> ->. by rewrite Hpath, Hrev.
Qed.
End public.
