(* ===== verification/ToolLoopProps.v ===== *)
(** * ToolLoopProps: at most one execution per call

    The tool loop over a journal one process holds: the callback runs for a call
    only once its dispatch is on record, and never again, whatever it returned,
    whatever failed, and however often the loop is run. *)
From stdpp Require Import base strings gmap list pretty.
From Stdlib Require Import ZArith Lia.
From S2P Require Import Prelude GoLib GoStrings GoValue GoJson Journal Effects ToolLoop JournalSpec JournalOps JournalAlone EffectProps.

Section growth.
Context `{!Sha256, !JsonCompact, !JsonMarshal value, !JsonMarshal Event, !JsonMarshal journalState}.
Context `{!JsonInto IntentPayload, !JsonInto DecisionPayload, !JsonInto NamePayload}.
Context {S : Type} `{!EventShadow S}.
Implicit Types (w : World S) (io : Io) (op : Op).

(** ** A journal only grows, by the records of the operation *)

Definition grows io (es es' : list Event) : Prop :=
  es `prefix_of` es' ∧ ∀ x, x ∈ ids es' → x ∈ ids es ∨ ∃ k, x = fst (io_tick io k).

Lemma grows_refl io es : grows io es es.
Proof. split; [done|by left]. Qed.

Lemma turn_grows io w w' :
  Kept w → alone io w → Turn io w w' → grows io (j_events (w_journal w)) (j_events (w_journal w')).
Proof.
  intros [Hs Ho] Ha Ht. destruct Ht as [|inputs Hne Hg|scope owner ttl now|scope owner token|sc id call tool cl pol b own tok ev Hidx Hok Htr].
  - apply grows_refl.
  - destruct (appendBatchLocked io inputs w) as [w2 r] eqn:E. cbn [fst].
    apply append_settled in E as (_ & _ & E); [|done..].
    destruct (prepare_batch _ _ _ _ _ _) as [[cand last]|e] eqn:Ep; [|destruct E as [-> _]; apply grows_refl].
    destruct E as [[-> _]|[Hc _]]; [apply grows_refl|]. injection Hc as -> _ _.
    pose proof Ha as (_ & _ & _ & [Hn _] & _). apply prepare_batch_extends in Ep as (new & -> & _ & Hids); [|done|apply Hs].
    split; [by eexists|]. intros x. rewrite ids_app, elem_of_app. intros [|Hx]; [by left|right; by apply Hids].
  - destruct (AcquireLease io scope owner ttl now w) as [w2 r] eqn:E. cbn [fst].
    apply AcquireLease_settled in E as [_ E]; [|done..]. destruct r as [lease|e]; [|subst; apply grows_refl].
    destruct E as (_ & _ & _ & _ & Hc). injection Hc as -> _ _. apply grows_refl.
  - destruct (ReleaseLease io scope owner token w) as [w2 r] eqn:E. cbn [fst].
    apply ReleaseLease_settled in E as [_ E]; [|done..]. destruct r as [u|e]; [|subst; apply grows_refl].
    destruct E as (_ & Hc). injection Hc as -> _ _. apply grows_refl.
  - pose proof Ha as (_ & _ & _ & [Htk _] & Hfresh & _).
    destruct (intent_new _ _ _ _ _ _ _ _ _ _ _ _ _ _ (or_registered _ _ Ho) Hidx Htr Hok (Htk 0) (Hfresh 0)) as (Hx & Hid & _).
    destruct (intent_settled io sc id ev w Hs Ha Hx Hid) as (_ & _ & [->|Hc]); [apply grows_refl|].
    injection Hc as -> _ _. split; [by eexists|]. intros x. rewrite ids_app, elem_of_app. intros [|Hin]; [by left|].
    simpl in Hin. apply list_elem_of_singleton in Hin as ->. right. by exists 0.
Qed.

(** An operation raises the revision of the file by at most one. *)
Lemma persist_revision io c w :
  Settled w → alone io w →
  (file_revision (w_file (fst (persistCandidateLocked io c w))) ≤ file_revision (w_file w) + 1)%Z.
Proof.
  intros [_ Hs] (Hpeer & _ & _ & _ & _ & Hroom). unfold persistCandidateLocked. case_bool_decide as Hp; [cbn; lia|].
  destruct (Hs Hp) as (Hf & Hr & _). rewrite Hpeer.
  destruct (persist_candidate io c (w_journal w) (w_file w)) as [[j' f'] r] eqn:E.
  unfold persist_candidate in E. cbn [fst w_file with_file].
  destruct (io_lock io); [injection E as <- <- <-; lia|]. rewrite readRevision_ok in E by done.
  rewrite bool_decide_eq_true_2 in E by done. cbn [negb] in E.
  destruct (json_marshal _); [|injection E as <- <- <-; lia].
  destruct (io_write io); injection E as <- <- <-; [lia|]. cbn. rewrite Hr. pose proof (file_revision_pos _ Hf).
  unfold add64. rewrite wrap64_id; [lia|]. unfold int64_range, two63 in *. lia.
Qed.

Lemma reread_file io w : (∀ f, io_peers_after io f = f) → w_file (fst (reloadFromDiskLocked io w)) = w_file w.
Proof.
  intros Hpa. unfold reloadFromDiskLocked. case_bool_decide; [done|]. rewrite Hpa.
  destruct (reread_journal _ _ _); done.
Qed.

Lemma tx_revision io b w w' :
  Settled w → alone io w → Tx io b w w' → (file_revision (w_file w') ≤ file_revision (w_file w) + 1)%Z.
Proof.
  intros Hs Ha. pose proof Ha as (_ & Hpa & _). 
  intros [|w1 E|w1 inputs E _|w1 key lease E|w1 key E|w1 sc id call tool cl pol bs own tok ev Hb E Hidx Hok Htr]; [lia|..];
    apply reload_settled in E; try done; subst w1; [lia| | | |].
  - unfold appendBatchLocked. destruct (prepare_batch _ _ _ _ _ _) as [[cand last]|e]; [|cbn; lia].
    match goal with |- context [persistCandidateLocked io ?c w] => pose proof (persist_revision io c w Hs Ha) as Hp;
      destruct (persistCandidateLocked io c w) as [w1 [u|e]] end; [|exact Hp]. cbn [fst] in Hp.
    destruct (negb _).
    + pose proof (reread_file io w1 Hpa) as Hr. destruct (reloadFromDiskLocked io w1) as [w2 [v|e]]; cbn [fst] in *; [|by rewrite Hr].
      destruct (sync_frame (batch_scopes [] inputs) w2) as [_ ->]. by rewrite Hr.
    + cbn [fst]. destruct (sync_frame (batch_scopes [] inputs) (with_journal (set_jevents cand (w_journal w1)) w1)) as [_ ->]. done.
  - unfold commit_leases. match goal with |- context [persistCandidateLocked io ?c w] => pose proof (persist_revision io c w Hs Ha) as Hp;
      destruct (persistCandidateLocked io c w) as [w2 [u|e]] end; [|done]. by rewrite reread_file.
  - unfold commit_leases. match goal with |- context [persistCandidateLocked io ?c w] => pose proof (persist_revision io c w Hs Ha) as Hp;
      destruct (persistCandidateLocked io c w) as [w2 [u|e]] end; done.
  - unfold commit_intent. match goal with |- context [persistCandidateLocked io ?c w] => pose proof (persist_revision io c w Hs Ha) as Hp;
      destruct (persistCandidateLocked io c w) as [w2 [u|e]] end; [|done]. by rewrite reread_file.
Qed.

(** ** The dispatch flag *)

Lemma step_dispatched s e : ef_Dispatched s = true → ef_Dispatched (effect_step s e) = true.
Proof. unfold effect_step. case_bool_decide; [done|]. case_bool_decide; [done|]. cbn. by case_bool_decide. Qed.

Lemma dispatched_mono es es' scope id :
  es `prefix_of` es' → ef_Dispatched (effectStateLocked es scope id) = true →
  ef_Dispatched (effectStateLocked es' scope id) = true.
Proof.
  intros [k ->] Hd. induction k as [|e k IH] using rev_ind; [by rewrite app_nil_r|].
  rewrite app_assoc, effect_state_snoc. destruct (effect_event _ _ _); [by apply step_dispatched|done].
Qed.

Lemma dispatched_record es scope id e :
  e ∈ es → effect_event scope id e = true → je_EventType e = EventEffectDispatched →
  ef_Dispatched (effectStateLocked es scope id) = true.
Proof.
  intros Hin He Ht. apply list_elem_of_split in Hin as (l1 & l2 & ->). rewrite cons_middle, app_assoc.
  eapply dispatched_mono; [by eexists|]. rewrite effect_state_snoc, He. unfold effect_step. rewrite Ht.
  rewrite (bool_decide_eq_false_2 (EventEffectDispatched = EventEffectIntent)) by done.
  rewrite (bool_decide_eq_false_2 (EventEffectDispatched = EventEffectReconciled)) by done. cbn.
  by rewrite bool_decide_eq_true_2.
Qed.

(** A dispatch that is acknowledged is on record. *)
Lemma MarkEffectDispatched_recorded io scope effectID owner token w w' e :
  Kept w → alone io w → MarkEffectDispatched io scope effectID owner token w = (w', Ok e) → Kept w' →
  ef_Dispatched (effectStateLocked (j_events (w_journal w')) scope effectID) = true.
Proof.
  intros [Hs Ho] Ha. unfold MarkEffectDispatched, locked.
  destruct (reloadLocked io w) as [w1 [u|er]] eqn:E; apply reload_settled in E; try done; subst w1.
  destruct (_ || _ || _ || _) eqn:Eg; [done|].
  destruct (if ef_Dispatched _ then _ else _) as [ev|] eqn:Ef.
  { intros [= <- <-] _. by destruct (ef_Dispatched _). }
  intros Eapp [_ Ho']. apply append_settled in Eapp as (_ & _ & Eapp); [|done..].
  destruct (prepare_batch _ _ _ _ _ _) as [[cand last]|er] eqn:Ep; [|by destruct Eapp as [_ ?]].
  destruct Eapp as [[_ [? ?]]|[Hc _]]; [done|].
  pose proof Ha as (_ & _ & _ & [_ Hinj] & Hfresh & _).
  destruct (prepare_batch_covers _ _ _ _ _ _ _ _ Hinj (λ k _, Hfresh k) Ep) as (_ & Hcov & _).
  destruct (Hcov (record EventEffectDispatched "effect" effectID scope ("effect:" +:+ effectID +:+ ":dispatch") owner token
     StatusPending (VObject [("effect_id", VString effectID)]))) as (x & Hx & Hsc & Hty & Hag & _); [set_solver|].
  cbn [record in_Scope in_EventType in_AggregateID] in Hsc, Hty, Hag.
  assert (j_events (w_journal w') = cand) as Hcand by (by injection Hc).
  assert (TrimSpace effectID = effectID) as Htr.
  { apply (staged_trimmed (j_events (w_journal w)) scope effectID); [apply Ho|]. unfold staged.
    repeat apply orb_false_iff in Eg as [Eg ?]. apply negb_false_iff in Eg. rewrite Eg. by rewrite orb_true_r. }
  rewrite Hcand. eapply dispatched_record; [exact Hx| |exact Hty].
  unfold effect_event. rewrite Hsc, Hag, Htr.
  rewrite (or_typed _ _ Ho' x); [by rewrite !bool_decide_eq_true_2|by rewrite Hcand|by rewrite Hty].
Qed.
End growth.

Section loop.
Context `{!Sha256, !JsonCompact, !JsonMarshal value, !JsonMarshal Event, !JsonMarshal journalState}.
Context `{!JsonInto IntentPayload, !JsonInto DecisionPayload, !JsonInto NamePayload}.
Context {S : Type} `{!EventShadow S}.
Implicit Types (w : World S) (io : Io) (op : Op).

Context (decision_codec : ∀ effectID decision output b,
  json_marshal (VObject [("effect_id", VString effectID); ("decision", VString decision); ("output", output)]) = Some b →
  dp_Decision (fst (json_into b)) = decision).

(** ** The surroundings of a process's operations, one after another *)

(** No operation meets another process, each can read back the file it wrote, and
    no id is drawn twice. *)
Definition quiet (supply : nat → Io) : Prop :=
  (∀ n, (∀ f, io_peers (supply n) f = f) ∧ (∀ f, io_peers_after (supply n) f = f) ∧ io_reread (supply n) = None
        ∧ named (io_tick (supply n)))
  ∧ ∀ n k n' k', fst (io_tick (supply n) k) = fst (io_tick (supply n') k') → n = n' ∧ k = k'.

(** The journal before the n-th operation. *)
Definition ready (supply : nat → Io) (n : nat) w : Prop :=
  Kept w ∧ (∀ x, x ∈ ids (j_events (w_journal w)) → ∃ m k, m < n ∧ x = fst (io_tick (supply m) k))
  ∧ (file_revision (w_file w) ≤ Z.of_nat n)%Z.

(** There is room for the n-th operation. *)
Definition room (n : nat) : Prop := (Z.of_nat n < two63)%Z.

Context (supply : nat → Io) (Hquiet : quiet supply).

Lemma ready_alone n w : ready supply n w → room (n + 1) → alone (supply n) w.
Proof.
  intros (_ & Hids & Hrev) Hroom. destruct Hquiet as [Hq Hinj]. destruct (Hq n) as (Hp & Hpa & Hrr & Hn).
  split; [apply Hp|]. split; [done|]. split; [done|]. split; [split; [done|]|].
  - intros k k' E. by apply Hinj in E as [_ ?].
  - split; [|unfold room in Hroom; lia]. intros k Hin. apply Hids in Hin as (m & k' & Hlt & E).
    apply Hinj in E as [-> _]. lia.
Qed.

Lemma ready_op n op w :
  ready supply n w → room (n + 1) → public op →
  ready supply (n + 1) (run_op op (supply n) w)
  ∧ j_events (w_journal w) `prefix_of` j_events (w_journal (run_op op (supply n) w)).
Proof.
  intros Hr Hroom Hp. pose proof (ready_alone n w Hr Hroom) as Ha. destruct Hr as (Hk & Hids & Hrev).
  pose proof (run_op_turn decision_codec op (supply n) w (proj1 Hk) Hp) as Ht.
  destruct (turn_grows _ _ _ Hk Ha Ht) as [Hpre Hnew]. split; [|done]. split; [by eapply turn_kept|]. split.
  - intros x Hx. destruct (Hnew x Hx) as [Hin|[k ->]].
    + apply Hids in Hin as (m & k & ? & ?). exists m, k. split; [lia|done].
    + exists n, k. split; [lia|done].
  - pose proof (tx_revision _ _ _ _ (proj1 Hk) Ha (run_op_tx op (supply n) w)). lia.
Qed.

(** The same, for the operation's own name. *)
Lemma ready_step {A} n op w w' (r : result A) (x : World S * result A) :
  x = (w', r) → run_op op (supply n) w = fst x → ready supply n w → room (n + 1) → public op →
  ready supply (n + 1) w' ∧ j_events (w_journal w) `prefix_of` j_events (w_journal w').
Proof. intros -> Hop Hr Hroom Hp. cbn [fst] in Hop. subst w'. by apply ready_op. Qed.

(** ** The calls made so far *)

(** Every call the callback was made for was made once, and has its dispatch on
    record. *)
Definition calls_ok (n : nat) w (log : list (Scope * string)) : Prop :=
  ready supply n w ∧ NoDup log
  ∧ ∀ scope id, (scope, id) ∈ log →
      ef_Dispatched (effectStateLocked (j_events (w_journal w)) scope (effect_of id)) = true.

Lemma calls_ok_grow n n' w w' log :
  calls_ok n w log → ready supply n' w' → j_events (w_journal w) `prefix_of` j_events (w_journal w') → calls_ok n' w' log.
Proof.
  intros (_ & Hnd & Hd) Hr Hpre. split; [done|]. split; [done|]. intros scope id Hin.
  eapply dispatched_mono; [done|by apply Hd].
Qed.

Lemma calls_ok_step {A} n op w w' log (r : result A) (x : World S * result A) :
  x = (w', r) → run_op op (supply n) w = fst x → calls_ok n w log → room (n + 1) → public op →
  calls_ok (n + 1) w' log ∧ j_events (w_journal w) `prefix_of` j_events (w_journal w').
Proof.
  intros Hx Hop Hc Hroom Hp. destruct (ready_step n op w w' r x Hx Hop (proj1 Hc) Hroom Hp) as [Hr Hpre].
  split; [|done]. by eapply calls_ok_grow.
Qed.

Lemma conclude_counter l contract id attempt out r n w w' n' e :
  conclude supply l contract id attempt out r n w = (w', n', e) → n ≤ n'.
Proof.
  unfold conclude. intros E. destruct (ex_result out).
  - destruct (CompleteToolEffect _ _ _ _ _ _ _ _) as [? [?|?]]; injection E; lia.
  - destruct (MarkEffectOutcomeUnknown _ _ _ _ _ _ _) as [? [?|?]]; [|injection E; lia].
    destruct (ex_ctxErr out); [injection E; lia|]. destruct (_ && _).
    + destruct (RetryTool _ _ _ _ _ _ _ _) as [? [[? ?]|?]]; injection E; lia.
    + destruct (negb _); [|destruct (_ || _)]; injection E; lia.
Qed.

Lemma dispatch_counter l contract input id attempt out r n w w' n' calls e :
  dispatch supply l contract input id attempt out r n w = (w', n', calls, e) → n ≤ n' ∧ length calls ≤ 1.
Proof.
  unfold dispatch. intros E.
  destruct (CommitEffectIntentWithPolicy _ _ _ _ _ _ _ _ _ _ _) as [? [[? ?]|?]]; [|injection E as <- <- <- <-; simpl; lia].
  destruct (PrepareEffectDispatch _ _ _ _ _ _) as [? [?|?]]; [|injection E as <- <- <- <-; simpl; lia].
  destruct (MarkEffectDispatched _ _ _ _ _ _) as [? [?|?]]; [|injection E as <- <- <- <-; simpl; lia].
  destruct (conclude _ _ _ _ _ _ _ _ _) as [[w4 n4] e4] eqn:E4. injection E as <- <- <- <-.
  apply conclude_counter in E4. simpl. lia.
Qed.

Lemma conclude_ok l contract id attempt out r n w w' n' e log :
  calls_ok n w log → conclude supply l contract id attempt out r n w = (w', n', e) → room n' →
  calls_ok n' w' log.
Proof.
  intros Hc. unfold conclude. destruct (ex_result out) as [output|err].
  - destruct (CompleteToolEffect _ _ _ _ _ _ _ _) as [w1 r1] eqn:E.
    intros Hres Hroom. assert (n' = n + 1 ∧ w' = w1) as [-> ->] by (destruct r1; by injection Hres).
    eapply (calls_ok_step n (OpCompleteToolEffect _ _ _ _ _ _)); [exact E|reflexivity|done|done|done].
  - destruct (MarkEffectOutcomeUnknown _ _ _ _ _ _ _) as [w1 r1] eqn:E.
    assert (room (n + 1) → calls_ok (n + 1) w1 log) as H1'.
    { intros Hroom. eapply (calls_ok_step n (OpMarkEffectOutcomeUnknown _ _ _ _ _)); [exact E|reflexivity|done|done|done]. }
    destruct r1 as [u|er]; [|intros [= <- <- <-] Hroom; by apply H1'].
    destruct (ex_ctxErr out); [intros [= <- <- <-] Hroom; by apply H1'|].
    destruct (_ && _).
    + destruct (RetryTool _ _ _ _ _ _ _ _) as [w2 r2] eqn:E2.
      intros Hres Hroom. assert (n' = n + 2 ∧ w' = w2) as [-> ->] by (destruct r2 as [[? ?]|]; by injection Hres).
      replace (n + 2) with ((n + 1) + 1) in * by lia.
      eapply (calls_ok_step (n + 1) (OpRetryTool _ _ _ _ _ _)); [exact E2|reflexivity| |done|done].
      apply H1'. unfold room in *. lia.
    + destruct (negb _); [|destruct (_ || _)]; intros [= <- <- <-] Hroom; by apply H1'.
Qed.

(** The calls of one scope. *)
Definition logged (l : ToolLoop) (calls : list string) : list (Scope * string) := (λ id, (lp_Scope l, id)) <$> calls.

Lemma dispatch_ok_calls l contract input id attempt out r n w w' n' calls e log :
  calls_ok n w log → (lp_Scope l, id) ∉ log →
  dispatch supply l contract input id attempt out r n w = (w', n', calls, e) → room n' →
  calls_ok n' w' (log ++ logged l calls).
Proof.
  intros Hc Hnew. unfold dispatch.
  destruct (CommitEffectIntentWithPolicy _ _ _ _ _ _ _ _ _ _ _) as [w1 r1] eqn:E1.
  assert (room (n + 1) → calls_ok (n + 1) w1 log) as H1'.
  { intros Hroom. eapply (calls_ok_step n (OpCommitEffectIntent _ _ _ _ _ _ _ _ _)); [exact E1|reflexivity|done|done|done]. }
  destruct r1 as [[intent b]|er]; [|intros [= <- <- <- <-] Hroom; rewrite app_nil_r; by apply H1'].
  destruct (PrepareEffectDispatch _ _ _ _ _ _) as [w2 r2] eqn:E2.
  assert (room (n + 2) → calls_ok (n + 2) w2 log) as H2'.
  { intros Hroom. replace (n + 2) with ((n + 1) + 1) in * by lia.
    eapply (calls_ok_step (n + 1) (OpPrepareEffectDispatch _ _ _ _)); [exact E2|reflexivity| |done|done].
    apply H1'. unfold room in *. lia. }
  destruct r2 as [prep|er]; [|intros [= <- <- <- <-] Hroom; rewrite app_nil_r; by apply H2'].
  destruct (MarkEffectDispatched _ _ _ _ _ _) as [w3 r3] eqn:E3.
  assert (room (n + 3) → calls_ok (n + 3) w3 log) as H3'.
  { intros Hroom. replace (n + 3) with ((n + 2) + 1) in * by lia.
    eapply (calls_ok_step (n + 2) (OpMarkEffectDispatched _ _ _ _)); [exact E3|reflexivity| |done|done].
    apply H2'. unfold room in *. lia. }
  destruct r3 as [disp|er]; [|intros [= <- <- <- <-] Hroom; rewrite app_nil_r; by apply H3'].
  destruct (conclude _ _ _ _ _ _ _ _ _) as [[w4 n4] e4] eqn:E4. intros [= <- <- <- <-] Hroom.
  pose proof (conclude_counter _ _ _ _ _ _ _ _ _ _ _ E4) as Hle.
  assert (room (n + 3)) as Hr3 by (unfold room in *; lia).
  assert (room (n + 2)) as Hr2 by (unfold room in *; lia).
  pose proof (H3' Hr3) as Hc3. pose proof (H2' Hr2) as Hc2.
  assert (calls_ok (n + 3) w3 (log ++ [(lp_Scope l, id)])) as Hc3'.
  { destruct Hc3 as (Hrd & Hnd & Hd). split; [done|]. split.
    - apply NoDup_app. split; [done|]. split; [|apply NoDup_singleton]. intros x Hx Hin%list_elem_of_singleton. by subst.
    - intros scope id' [Hin|Hin%list_elem_of_singleton]%elem_of_app; [by apply Hd|]. injection Hin as -> ->.
      eapply MarkEffectDispatched_recorded; [apply Hc2| |exact E3|apply Hrd].
      apply ready_alone; [apply Hc2|]. by replace (n + 2 + 1) with (n + 3) by lia. }
  exact (conclude_ok _ _ _ _ _ _ _ _ _ _ _ _ Hc3' E4 Hroom).
Qed.

Lemma attempt_counter l contract input callID attempt out r n w w' n' calls e :
  attempt_once supply l contract input callID attempt out r n w = (w', n', calls, e) → n ≤ n' ∧ length calls ≤ 1.
Proof.
  unfold attempt_once. intros E.
  destruct (AuthorizeTool _ _ _ _ _ _ _ _) as [? [?|?]]; [|injection E as <- <- <- <-; simpl; lia].
  destruct (Journal_EffectState _ _ _); [|injection E as <- <- <- <-; simpl; lia].
  destruct (Journal_ToolState _ _ _); [|injection E as <- <- <- <-; simpl; lia].
  destruct (already _ _ _ _) as [[? ?]|]; [injection E as <- <- <- <-; simpl; lia|].
  destruct (StartTool _ _ _ _ _ _ _ _) as [? [?|?]]; [|injection E as <- <- <- <-; simpl; lia].
  apply dispatch_counter in E. lia.
Qed.

Lemma already_None contract es ts r : already contract es ts r = None → ef_Dispatched es = false.
Proof.
  unfold already. destruct (ef_Receipted es); [by destruct (tl_Finished ts)|].
  destruct (ef_Reconciled es); [by destruct (negb (tl_Finished ts))|]. destruct (tl_Finished ts); [done|].
  by destruct (ef_Dispatched es).
Qed.

Lemma attempt_ok l contract input callID attempt out r n w w' n' calls e log :
  calls_ok n w log → attempt_once supply l contract input callID attempt out r n w = (w', n', calls, e) → room n' →
  calls_ok n' w' (log ++ logged l calls).
Proof.
  intros Hc E Hroom. pose proof E as Hcnt. apply attempt_counter in Hcnt as [Hle _]. unfold attempt_once in E.
  set (id := attempt_id callID attempt) in *.
  destruct (AuthorizeTool _ _ _ _ _ _ _ _) as [w1 r1] eqn:E1.
  assert (room (n + 1) → calls_ok (n + 1) w1 log) as H1'.
  { intros Hroom'. eapply (calls_ok_step n (OpAuthorizeTool _ _ _ _ _ _)); [exact E1|reflexivity|done|done|done]. }
  assert (∀ e0, (w1, n + 1, [], e0) = (w', n', calls, e) → calls_ok n' w' (log ++ logged l calls)) as Hret1.
  { intros e0 [= <- <- <- <-]. rewrite app_nil_r. by apply H1'. }
  destruct r1 as [auth|er]; [|by eapply Hret1].
  destruct (Journal_EffectState _ _ _) as [es|er] eqn:Ees; [|by eapply Hret1].
  destruct (Journal_ToolState _ _ _) as [ts|er] eqn:Ets; [|by eapply Hret1].
  destruct (already contract es ts _) as [[r' err]|] eqn:Eal; [by eapply Hret1|].
  destruct (StartTool _ _ _ _ _ _ _ _) as [w2 r2] eqn:E2.
  assert (room (n + 2) → calls_ok (n + 2) w2 log) as H2'.
  { intros Hroom'. replace (n + 2) with ((n + 1) + 1) in * by lia.
    eapply (calls_ok_step (n + 1) (OpStartTool _ _ _ _ _ _)); [exact E2|reflexivity| |done|done].
    apply H1'. unfold room in *. lia. }
  destruct r2 as [started|er]; [|injection E as <- <- <- <-; rewrite app_nil_r; by apply H2'].
  pose proof E as Hcnt. apply dispatch_counter in Hcnt as [Hle2 _].
  assert (room (n + 2)) as Hr2 by (unfold room in *; lia). assert (room (n + 1)) as Hr1 by (unfold room in *; lia).
  eapply dispatch_ok_calls; [exact (H2' Hr2)| |exact E|exact Hroom].
  intros Hin. destruct (H1' Hr1) as (Hrd & _ & Hd). pose proof (Hd _ _ Hin) as Hdd.
  apply already_None in Eal. unfold Journal_EffectState in Ees. apply rbind_reject_Ok in Ees as [_ [= <-]].
  assert (TrimSpace (effect_of id) = effect_of id) as Htr.
  { eapply staged_trimmed; [apply Hrd|]. unfold staged. rewrite Hdd. by rewrite orb_true_r. }
  rewrite Htr in Eal. congruence.
Qed.

Lemma attempts_counter l contract input callID exec left attempt r n w w' n' calls res :
  attempts supply l contract input callID exec left attempt r n w = (w', n', calls, res) → n ≤ n' ∧ length calls ≤ left.
Proof.
  revert attempt r n w calls. induction left as [|left IH]; intros attempt r n w calls; cbn [attempts].
  { intros [= <- <- <- <-]. simpl. lia. }
  destruct (attempt_once _ _ _ _ _ _ _ _ _ _) as [[[w1 n1] calls1] e1] eqn:E1. apply attempt_counter in E1 as [? ?].
  destruct e1; [intros [= <- <- <- <-]; lia|].
  destruct (attempts _ _ _ _ _ _ left _ _ _ _) as [[[w2 n2] more] res2] eqn:E2. intros [= <- <- <- <-].
  apply IH in E2. rewrite length_app. lia.
Qed.

Lemma attempts_ok l contract input callID exec left attempt r n w w' n' calls res log :
  calls_ok n w log → attempts supply l contract input callID exec left attempt r n w = (w', n', calls, res) → room n' →
  calls_ok n' w' (log ++ logged l calls) ∧ n ≤ n' ∧ length calls ≤ left.
Proof.
  revert attempt r n w calls log. induction left as [|left IH]; intros attempt r n w calls log Hc; cbn [attempts].
  { intros [= <- <- <- <-] _. rewrite app_nil_r. split_and!; [done|lia|done]. }
  destruct (attempt_once _ _ _ _ _ _ _ _ _ _) as [[[w1 n1] calls1] e1] eqn:E1.
  pose proof E1 as Hcnt. apply attempt_counter in Hcnt as [Hle Hlen].
  destruct e1 as [r1 err|r1].
  - intros [= <- <- <- <-] Hroom. split_and!; [by eapply attempt_ok|lia|lia].
  - destruct (attempts _ _ _ _ _ _ left _ _ _ _) as [[[w2 n2] more] res2] eqn:E2. intros [= <- <- <- <-] Hroom.
    assert (n1 ≤ n2) as Hle2.
    { apply attempts_counter in E2. lia. }
    assert (calls_ok n1 w1 (log ++ logged l calls1)) as Hc1.
    { eapply attempt_ok; [done|exact E1|]. unfold room in *. lia. }
    destruct (IH _ _ _ _ _ _ Hc1 E2 Hroom) as (Hc2 & _ & Hlen2). rewrite length_app.
    unfold logged in *. rewrite fmap_app, app_assoc. split_and!; [done|lia|lia].
Qed.

(** ** Sessions *)

(** What a process has done: the number of its next journal operation, the world,
    and the calls the callback was made for, in order. *)
Definition progress : Type := nat * World S * list (Scope * string).

(** A process runs tool loops, with any owner, token, allow-list, contract and
    callback, and between them any other operations of the journal. *)
Inductive session : progress → progress → Prop :=
  | session_run l callID contract input execute n w w' n' calls res log :
      Run supply l callID contract input execute n w = (w', n', calls, res) →
      session (n, w, log) (n', w', log ++ logged l calls)
  | session_op op n w log : public op → session (n, w, log) (n + 1, run_op op (supply n) w, log).

Lemma Run_ok l callID contract input execute n w w' n' calls res log :
  calls_ok n w log → Run supply l callID contract input execute n w = (w', n', calls, res) → room n' →
  calls_ok n' w' (log ++ logged l calls) ∧ n ≤ n'.
Proof.
  intros Hc. unfold Run. destruct (check_run _ _ _ _) as [u|e].
  - destruct execute as [exec|].
    + intros E Hroom. destruct (attempts_ok _ _ _ _ _ _ _ _ _ _ _ _ _ _ _ Hc E Hroom) as (? & ? & _). done.
    + intros [= <- <- <- <-] _. rewrite app_nil_r. split; [done|lia].
  - intros [= <- <- <- <-] _. rewrite app_nil_r. split; [done|lia].
Qed.

Lemma Run_counter l callID contract input execute n w w' n' calls res :
  Run supply l callID contract input execute n w = (w', n', calls, res) → n ≤ n'.
Proof.
  unfold Run. destruct (check_run _ _ _ _); [|intros [= <- <- <- <-]; lia].
  destruct execute; [|intros [= <- <- <- <-]; lia]. intros E. apply attempts_counter in E. lia.
Qed.

Lemma session_counter p p' : session p p' → p.1.1 ≤ p'.1.1.
Proof. intros [l c ct i ex n w w' n' calls res log E|op n w log _]; simpl; [by eapply Run_counter|lia]. Qed.

Lemma session_ok p p' :
  calls_ok p.1.1 p.1.2 p.2 → rtc session p p' → room p'.1.1 → calls_ok p'.1.1 p'.1.2 p'.2.
Proof.
  intros Hc Hr. induction Hr as [p|p p1 p2 Hstep Hrest IH]; [done|]. intros Hroom.
  assert (p1.1.1 ≤ p2.1.1) as Hle.
  { clear -Hrest. induction Hrest as [|? ? ? Hs _ IH]; [done|]. apply session_counter in Hs. lia. }
  apply IH; [|done]. assert (room p1.1.1) as Hroom1 by (unfold room in *; lia).
  destruct Hstep as [l c ct i ex n w w' n' calls res log E|op n w log Hp]; simpl in *.
  - by eapply Run_ok.
  - destruct (ready_op n op w (proj1 Hc) Hroom1 Hp) as [Hrd Hpre]. by eapply calls_ok_grow.
Qed.

(** C24: a tool call is executed at most once.  A process that holds the journal
    runs the tool loop any number of times, for any calls, contracts, inputs and
    callbacks, under any owners and tokens, interleaved with any other operation of
    the journal and with any failures of the file system; then the callback has
    been made at most once for each call id of each scope (a retry of a read-only
    tool has an id of its own), and each call it was made for has its dispatch on
    record, so that no later run makes it again. *)
Theorem executed_at_most_once path shadow n w log :
  rtc session (0, fresh_world path shadow, []) (n, w, log) → room n →
  NoDup log ∧ ∀ scope id, (scope, id) ∈ log →
    ef_Dispatched (effectStateLocked (j_events (w_journal w)) scope (effect_of id)) = true.
Proof.
  intros Hr Hroom.
  assert (calls_ok 0 (fresh_world path shadow) []) as H0'.
  { split; [|split; [constructor|intros ? ? Hin; by apply elem_of_nil in Hin]].
    split; [apply fresh_kept|]. split; [intros x Hin; by apply elem_of_nil in Hin|]. cbn. lia. }
  apply session_ok in Hr; [|done|done]. destruct Hr as (_ & ? & ?). done.
Qed.
End loop.

Section bounds.
Context `{!Sha256, !JsonCompact, !JsonMarshal value, !JsonMarshal Event, !JsonMarshal journalState}.
Context `{!JsonInto IntentPayload, !JsonInto DecisionPayload, !JsonInto NamePayload}.
Context {S : Type} `{!EventShadow S}.

(** a run is bounded, whatever the journal and other processes do: it makes
    the callback at most [MaxRetries + 1] times, and at most once for a tool that
    writes. *)
Theorem Run_calls_bounded supply l callID contract input execute n (w : World S) w' n' calls res :
  Run supply l callID contract input execute n w = (w', n', calls, res) →
  int64_range (tc_MaxRetries contract) →
  (Z.of_nat (length calls) ≤ Z.max 0 (tc_MaxRetries contract) + 1)%Z
  ∧ (tc_SideEffectClass contract ≠ EffectReadOnly → length calls ≤ 1).
Proof.
  unfold Run. destruct (check_run _ _ _ _) as [u|e] eqn:Ec; [|intros [= <- <- <- <-] _; simpl; split; lia].
  destruct execute as [exec|]; [|intros [= <- <- <- <-] _; simpl; split; lia].
  unfold check_run in Ec. do 4 (apply rbind_reject_Ok in Ec as [_ Ec]).
  apply rbind_reject_Ok in Ec as [Hneg Ec]. apply rbind_reject_Ok in Ec as [_ Ec]. apply rbind_reject_Ok in Ec as [Hro _].
  intros E Hrange. apply attempts_counter in E as [_ E].
  assert (Z.of_nat (Z.to_nat (add64 (tc_MaxRetries contract) 1)) ≤ tc_MaxRetries contract + 1)%Z as Hadd.
  { destruct (decide (tc_MaxRetries contract = two63 - 1)%Z) as [->|Hne]; [vm_compute; discriminate|].
    unfold add64. rewrite wrap64_id; unfold int64_range, two63 in *; lia. }
  split; [lia|]. intros Hw. rewrite (bool_decide_eq_false_2 _ Hw) in Hro. cbn in Hro. lia.
Qed.
End bounds.
