(* ===== verification/JournalSamples.v ===== *)
(** * JournalSamples: concrete parameters and runs of the runtime journal

    One concrete choice for each parameter of the journal's model, at which its
    properties are instantiated, and the runs that show where the code departs from
    what it means to do. *)
From stdpp Require Import base strings gmap list pretty countable.
From Stdlib Require Import ZArith Lia Ascii.
From S2P Require Import Prelude GoLib GoStrings Trace GoValue GoJson Journal Effects ToolLoop JournalSpec JournalOps JournalAlone JournalProps EffectProps ToolLoopProps.

(** ** Parameters *)

Lemma plain_nonblank s : blank ("h:" +:+ s) = false.
Proof.
  apply (not_blank ":"%char); [|done|vm_compute; reflexivity].
  rewrite list_ascii_app. apply elem_of_app. left. simpl. right. left.
Qed.
Definition plain_sha : Sha256 := {| sha256_hex := λ s, "h:" +:+ s; sha256_nonblank := plain_nonblank |}.
Definition plain_compact : JsonCompact := λ s, Some s.
(** A codec that keeps what the effect states read back: the decision. *)
Definition plain_value : JsonMarshal value := λ v,
  match v with
  | VObject (_ :: ("decision", VString d) :: _) => Some d
  | VObject [("decision", VString d)] => Some d
  | VString s => Some s
  | _ => Some "{}"
  end.
Definition plain_event : JsonMarshal Event := λ e, Some (je_EventID e +:+ je_PreviousHash e).
Definition plain_state : JsonMarshal journalState := λ _, Some "state".
Definition plain_intent : JsonInto IntentPayload := λ _, ({| ip_CallID := "call"; ip_Class := EffectNonRetriableWrite; ip_ReconcilePolicy := "" |}, false).
Definition plain_decision : JsonInto DecisionPayload := λ s, ({| dp_Decision := s; dp_Output := VNil |}, false).
Definition plain_name : JsonInto NamePayload := λ _, ({| np_Name := "" |}, false).
(** A shadow that only counts. *)
Definition counting_shadow : EventShadow nat := λ s scope events,
  (s + length events,
   {| sr_Scope := scope; sr_StreamID := ""; sr_LegacyCount := Z.of_nat (length events); sr_ShadowCount := 0;
      sr_LegacyDigest := ""; sr_ShadowDigest := ""; sr_Diverged := false; sr_DivergenceAt := 0; sr_Error := "";
      sr_CheckedAt := 0 |}).
#[export] Existing Instances plain_sha plain_compact plain_value plain_event plain_state plain_intent plain_decision
  plain_name counting_shadow.

Lemma plain_codec effectID decision output b :
  json_marshal (VObject [("effect_id", VString effectID); ("decision", VString decision); ("output", output)]) = Some b →
  dp_Decision (fst (json_into b)) = decision.
Proof. by intros [= <-]. Qed.

Definition sample_scope : Scope :=
  {| sc_TenantID := "t"; sc_WorkspaceID := "w"; sc_SessionID := "s"; sc_RunID := "r" |}.
Definition other_scope : Scope :=
  {| sc_TenantID := "t2"; sc_WorkspaceID := "w"; sc_SessionID := "s"; sc_RunID := "r" |}.

(** The n-th operation of a process: ids of its own, the clock at ten. *)
Definition event_id (n k : nat) : string := "e" +:+ pretty (encode_nat (n, k)).
Definition calm (n : nat) : Io :=
  {| io_tick := λ k, (event_id n k, 10%Z); io_now := 10; io_reload := None; io_peers := λ f, f; io_lock := None;
     io_write := None; io_peers_after := λ f, f; io_reread := None |}.

Lemma event_id_inj n k n' k' : event_id n k = event_id n' k' → n = n' ∧ k = k'.
Proof.
  unfold event_id. intros E. injection E as E. apply (pretty_nat_inj _ _) in E.
  apply (encode_nat_inj _ _) in E. by injection E.
Qed.

Lemma calm_quiet : quiet calm.
Proof. split; [|exact event_id_inj]. intros n. split_and!; [done..|]. intros k. done. Qed.

Definition memory : World nat := fresh_world "" (Some 0).
Definition on_file : World nat := fresh_world "journal" (Some 0).

Lemma calm_ready n (w : World nat) op : ready calm n w → (Z.of_nat n < 100)%Z → public op → ready calm (n + 1) (run_op op (calm n) w).
Proof.
  intros Hr Hn Hp. apply (ready_op plain_codec calm calm_quiet n op w Hr); [unfold room, two63; lia|done].
Qed.

Lemma fresh_ready path : ready calm 0 (fresh_world path (Some 0)).
Proof.
  split; [apply fresh_kept|]. split; [|done]. intros x Hin. by apply elem_of_nil in Hin.
Qed.

Lemma calm_alone n (w : World nat) : ready calm n w → (Z.of_nat n < 100)%Z → alone (calm n) w.
Proof. intros Hr Hn. apply (ready_alone calm calm_quiet); [done|unfold room, two63; lia]. Qed.

Definition turn_input (key : string) (owner : string) (token : Z) : Input :=
  {| in_EventType := "turn.started"; in_AggregateType := "run"; in_AggregateID := "r"; in_Scope := sample_scope;
     in_CorrelationID := ""; in_CausationID := ""; in_IdempotencyKey := key; in_WriterID := owner;
     in_FencingToken := token; in_Status := ""; in_Payload := VString key |}.

Example append_once :
  let '(w, r) := Append (calm 0) (turn_input "k" "local" 0) on_file in
  (length (j_events (w_journal w)), length (file_events (w_file w)), je_Sequence <$> (if r is Ok e then Some e else None),
   w_shadow w) = (1, 1, Some 1%Z, Some 1).
Proof. vm_compute. reflexivity. Qed.

(** ** A history of operations *)

Fixpoint play (n : nat) (ops : list Op) (w : World nat) : World nat :=
  match ops with [] => w | op :: ops' => play (S n) ops' (run_op op (calm n) w) end.

Lemma play_ready n ops w :
  ready calm n w → (Z.of_nat (n + length ops) < 100)%Z → Forall public ops → ready calm (n + length ops) (play n ops w).
Proof.
  revert n w. induction ops as [|op ops IH]; intros n w Hr Hn Hp; simpl; [by rewrite Nat.add_0_r|].
  inversion Hp as [|? ? Hp1 Hps]; subst. rewrite Nat.add_succ_r, <- Nat.add_succ_l. apply IH; [|simpl in *; lia|done].
  replace (S n) with (n + 1) by lia. apply calm_ready; [done|simpl in Hn; lia|exact Hp1].
Qed.

Lemma play_turns n ops w :
  ready calm n w → (Z.of_nat (n + length ops) < 100)%Z → Forall public ops → rtc turn_step w (play n ops w).
Proof.
  revert n w. induction ops as [|op ops IH]; intros n w Hr Hn Hp; simpl; [done|].
  inversion Hp as [|? ? Hp1 Hps]; subst. eapply rtc_l.
  - apply turn_op; [|exact Hp1]. apply calm_alone; [done|simpl in Hn; lia].
  - apply IH; [|simpl in *; lia|done]. replace (S n) with (n + 1) by lia. apply calm_ready; [done|simpl in Hn; lia|exact Hp1].
Qed.

(** A tool call with its effect, from the lease to the receipt. *)
Definition call_ops : list Op :=
  [ OpAcquireLease sample_scope "worker" 100 10;
    OpAuthorizeTool sample_scope "call" "deploy" "worker" 1 ["deploy"];
    OpStartTool sample_scope "call" "deploy" "worker" 1 VNil;
    OpCommitEffectIntent sample_scope "fx" "call" "deploy" EffectNonRetriableWrite ReconcileHuman VNil "worker" 1;
    OpPrepareEffectDispatch sample_scope "fx" "worker" 1;
    OpMarkEffectDispatched sample_scope "fx" "worker" 1 ].
Definition receipted_ops : list Op := call_ops ++ [OpCompleteToolEffect sample_scope "fx" "call" "worker" 1 VNil].
Definition reconciled_ops : list Op :=
  call_ops ++ [ OpMarkEffectOutcomeUnknown sample_scope "fx" "" "worker" 1;
                OpReconcileEffect sample_scope "fx" "call" "worker" 1 " Human_Resolved " VNil ].

Definition receipted : World nat := play 0 receipted_ops on_file.
Definition reconciled : World nat := play 0 reconciled_ops on_file.

Lemma receipted_turns : rtc turn_step on_file receipted.
Proof. apply play_turns; [apply fresh_ready|done|]. repeat constructor. Qed.
Lemma reconciled_turns : rtc turn_step on_file reconciled.
Proof. apply play_turns; [apply fresh_ready|done|]. repeat constructor. Qed.

Lemma effect_lifecycle_witness :
  let s := effectStateLocked (j_events (w_journal reconciled)) sample_scope "fx" in
  ef_Reconciled s = true ∧ ef_ReconcileDecision s = "human_resolved" ∧ effect_ok s
  ∧ ∃ e, e ∈ j_events (w_journal reconciled) ∧ je_Scope e = sample_scope ∧ je_EventType e = EventToolFinished.
Proof.
  cbv zeta. assert (ef_Reconciled (effectStateLocked (j_events (w_journal reconciled)) sample_scope "fx") = true) as Hr
    by (vm_compute; reflexivity).
  destruct (effect_lifecycle plain_codec "journal" (Some 0) reconciled sample_scope "fx" reconciled_turns) as [Hok Hcl].
  split; [exact Hr|]. split; [vm_compute; reflexivity|]. split; [exact Hok|]. apply Hcl. right. exact Hr.
Defined.

Lemma reopen_same_witness :
  length (j_events (w_journal receipted)) = 7 ∧ NewJournal "journal" None (w_file receipted) = Ok (w_journal receipted).
Proof.
  split; [vm_compute; reflexivity|]. apply (reopen_same plain_codec "journal" (Some 0) receipted); [done|exact receipted_turns].
Defined.

(** ** Leases and appends *)

Definition leased : World nat := run_op (OpAcquireLease sample_scope "worker" 100 10) (calm 0) on_file.
Lemma leased_ready : ready calm 1 leased.
Proof. apply (calm_ready 0); [apply fresh_ready|done|done]. Qed.

Definition first_append : World nat * result Event := AppendBatch (calm 1) [turn_input "k" "worker" 1] leased.
Lemma appended_ready : ready calm 2 (fst first_append).
Proof. apply (calm_ready 1 leased (OpAppendBatch [turn_input "k" "worker" 1])); [apply leased_ready|done|repeat constructor]. Qed.

Lemma AppendBatch_atomic_fenced_witness :
  length (ct_events (contents (fst first_append))) = 1 ∧
  ∃ new, ct_events (contents (fst first_append)) = ct_events (contents leased) ++ new
    ∧ Forall (λ e, (0 < je_FencingToken e)%Z → under_lease (ct_leases (contents leased)) e) new.
Proof.
  split; [vm_compute; reflexivity|].
  destruct (AppendBatch_atomic_fenced (calm 1) [turn_input "k" "worker" 1] leased (fst first_append) (snd first_append))
    as (_ & _ & _ & new & Hn & Hf & _); [apply leased_ready|apply calm_alone; [apply leased_ready|done]|apply surjective_pairing|].
  exists new. split; [exact Hn|exact Hf].
Defined.

Definition taken_over : World nat * result Lease := AcquireLease (calm 1) sample_scope "other" 100 200 leased.
Definition taken_lease : Lease :=
  {| jl_Key := leaseKey sample_scope; jl_Owner := "other"; jl_FencingToken := 2; jl_ExpiresAt := 300; jl_UpdatedAt := 200 |}.
Lemma taken_over_eq : taken_over = (fst taken_over, Ok taken_lease).
Proof. vm_compute. reflexivity. Qed.
Lemma taken_ready : ready calm 2 (fst taken_over).
Proof. apply (calm_ready 1 leased (OpAcquireLease sample_scope "other" 100 200)); [apply leased_ready|done|done]. Qed.

(** The former owner, and the new owner under the token of its predecessor. *)
Definition fenced_batch : list Input := [turn_input "k" "worker" 1; turn_input "l" "other" 1].
Definition fenced_append : World nat * result Event := AppendBatch (calm 2) fenced_batch (fst taken_over).

Lemma takeover_fences_witness :
  contents (fst fenced_append) = contents (fst taken_over) ∧ ∃ e, snd fenced_append = Err e.
Proof.
  destruct (takeover_fences (calm 1) (calm 2) sample_scope "other" 100 200 taken_lease fenced_batch
              leased (fst taken_over) (fst fenced_append) (snd fenced_append)) as (_ & Hsame & Hr);
    [apply leased_ready|apply calm_alone; [apply leased_ready|done]|exact taken_over_eq
    |apply calm_alone; [apply taken_ready|done]|apply surjective_pairing| |].
  - intros input Hin. apply elem_of_cons in Hin. destruct Hin as [->|Hin].
    + split; [reflexivity|]. split; [reflexivity|left; discriminate].
    + apply list_elem_of_singleton in Hin. subst input. split; [reflexivity|]. split; [reflexivity|right; discriminate].
  - split; [exact Hsame|]. destruct Hr as [Hr|Hr]; [|exact Hr]. exfalso.
    apply (Hr (turn_input "k" "worker" 1)); [left|]. vm_compute. reflexivity.
Defined.

Definition first_record : Event := match snd first_append with Ok e => e | Err _ => zero_Event end.
Lemma first_append_eq : Append (calm 1) (turn_input "k" "worker" 1) leased = (fst first_append, Ok first_record).
Proof. vm_compute. reflexivity. Qed.

Lemma append_idempotent_witness :
  let again := Append (calm 2) (turn_input "k" "worker" 1) (fst first_append) in
  contents (fst again) = contents (fst first_append)
  ∧ (snd again = Ok first_record ∨ fst again = fst first_append ∧ ∃ e, snd again = Err e).
Proof.
  cbv zeta.
  apply (append_idempotent (calm 1) (calm 2) (turn_input "k" "worker" 1) first_record leased (fst first_append)
           (fst first_append));
    [apply leased_ready|apply calm_alone; [apply leased_ready|done]|discriminate|exact first_append_eq
    |apply appended_ready|apply calm_alone; [apply appended_ready|done]|reflexivity|apply surjective_pairing].
Defined.

(** ** Several processes *)

Definition shared_append : World nat :=
  run_op (OpAppendBatch [turn_input "k" "local" 0]) (calm 0) (opened (empty_journal "journal") None None).

Lemma commits_permanent_witness :
  length (file_events (w_file shared_append)) = 1 ∧ Verify (w_journal shared_append) = Ok tt
  ∧ ∃ j', NewJournal "journal" None (w_file shared_append) = Ok j'
          ∧ j_events (w_journal shared_append) `prefix_of` j_events j'.
Proof.
  split; [vm_compute; reflexivity|].
  destruct (commits_permanent "journal" None (empty_journal "journal") None shared_append) as [_ H']; [discriminate|done|reflexivity| |exact H'].
  apply rtc_once, step_op; [|discriminate]. split; [|split; [|split; [|split]]].
  - intros g Hg. split; by apply Extends_refl.
  - intros k. done.
  - intros k Hin. by apply elem_of_nil in Hin.
  - done.
  - done.
Defined.

(** ** The tool loop *)

Definition sample_loop : ToolLoop :=
  {| lp_Scope := sample_scope; lp_Owner := "worker"; lp_FencingToken := 1; lp_AllowedTools := ["fetch"; "deploy"] |}.
Definition contract (class policy : string) (retries : Z) : ToolContract :=
  {| tc_Name := "fetch"; tc_InputSchema := ""; tc_OutputSchema := ""; tc_SideEffectClass := class;
     tc_ReconcilePolicy := policy; tc_Risk := ""; tc_Capability := ""; tc_SecretScopes := []; tc_Network := false;
     tc_Filesystem := false; tc_Timeout := 0; tc_MaxRetries := retries; tc_RequiresApproval := false;
     tc_Compensation := ""; tc_EvidenceRequired := false |}.
Definition succeeds : ExecOutcome := {| ex_result := Ok VNil; ex_deadline := false; ex_ctxErr := None |}.
Definition fails : ExecOutcome := {| ex_result := Err (Errorf "boom" []); ex_deadline := false; ex_ctxErr := None |}.
(** A read-only tool that fails once and then succeeds. *)
Definition flaky : Z → ExecOutcome := λ attempt, if (attempt <=? 1)%Z then fails else succeeds.

Definition flaky_run : World nat * nat * list string * (ToolExecution * option error) :=
  Run calm sample_loop "call" (contract EffectReadOnly "" 2) VNil (Some flaky) 1 leased.

Lemma flaky_session : rtc (session calm) (0, on_file, []) (flaky_run.1.1.2, flaky_run.1.1.1, logged sample_loop flaky_run.1.2).
Proof.
  eapply rtc_l; [apply (session_op calm (OpAcquireLease sample_scope "worker" 100 10)); exact I|].
  apply rtc_once. apply (session_run calm sample_loop "call" (contract EffectReadOnly "" 2) VNil (Some flaky) 1 leased
    flaky_run.1.1.1 flaky_run.1.1.2 flaky_run.1.2 flaky_run.2 []).
  fold flaky_run. destruct flaky_run as [[[w n] calls] res]. reflexivity.
Qed.

Lemma executed_at_most_once_witness :
  flaky_run.1.2 = ["call"; "call:retry:1"] ∧ te_Status (fst flaky_run.2) = "finished" ∧ NoDup (logged sample_loop flaky_run.1.2).
Proof.
  split; [vm_compute; reflexivity|]. split; [vm_compute; reflexivity|].
  destruct (executed_at_most_once plain_codec calm calm_quiet "journal" (Some 0) flaky_run.1.1.2 flaky_run.1.1.1
              (logged sample_loop flaky_run.1.2)) as [Hnd _]; [exact flaky_session| |exact Hnd].
  vm_compute. reflexivity.
Defined.

Lemma Run_calls_bounded_witness : (Z.of_nat (length flaky_run.1.2) ≤ 3)%Z.
Proof.
  destruct (Run_calls_bounded calm sample_loop "call" (contract EffectReadOnly "" 2) VNil (Some flaky) 1 leased
              flaky_run.1.1.1 flaky_run.1.1.2 flaky_run.1.2 flaky_run.2) as [Hb _]; [| |exact Hb].
  - fold flaky_run. destruct flaky_run as [[[w n] calls] res]. reflexivity.
  - unfold int64_range, two63. simpl. lia.
Defined.

(** * Where the runtime journal departs from what it promises

    Runs of the model, and two general facts, that exhibit the defects recorded
    with the development. *)

(** The surroundings of an operation whose re-read fails, whose write fails, or
    that finds another process's file when it takes the lock. *)
Definition disturbed (n : nat) (reread write : option error) (peer : option JournalFile) : Io :=
  {| io_tick := io_tick (calm n); io_now := 10; io_reload := None; io_peers := λ f, default f peer; io_lock := None;
     io_write := write; io_peers_after := λ f, f; io_reread := reread |}.
Definition io_error : error := Errorf "input/output error" [].

(** A commit whose re-read fails is on disk, but the next append of the process
    overwrites it: the revision in memory already is the new one, so the record is
    neither reloaded nor missed. *)
Lemma reread_failure_loses_commit :
  let first := Append (disturbed 0 (Some io_error) None None) (turn_input "k1" "local" 0) on_file in
  let second := Append (calm 1) (turn_input "k2" "local" 0) (fst first) in
  ids (file_events (w_file (fst first))) = [event_id 0 0] ∧
  ids (file_events (w_file (fst second))) = [event_id 1 0] ∧ ∃ e, snd second = Ok e.
Proof. vm_compute. split_and!; [reflexivity..|]. eexists. reflexivity. Qed.

(** The file another process leaves behind when it appends under the same key. *)
Definition peer_appended : JournalFile := w_file (fst (Append (calm 5) (turn_input "k" "local" 0) on_file)).

(** Rebasing a record behind a peer's does not look for its idempotency key: the
    journal ends up with two records of one request. *)
Lemma rebase_duplicates_request :
  let w := fst (Append (disturbed 0 None None (Some peer_appended)) (turn_input "k" "local" 0) on_file) in
  (λ e, (je_EventID e, je_IdempotencyKey e, je_Scope e)) <$> file_events (w_file w)
  = [(event_id 5 0, "k", sample_scope); (event_id 0 0, "k", sample_scope)].
Proof. vm_compute. reflexivity. Qed.

(** The file after another process has taken the lease over. *)
Definition peer_took_over : JournalFile := w_file (fst taken_over).

(** Rebasing also writes the process's own lease table over the peer's: a worker
    whose lease has been taken over puts its lease back, and the new owner is the
    one that is fenced off. *)
Lemma rebase_restores_stale_lease :
  (jl_Owner <$> ct_leases (file_contents peer_took_over) !! leaseKey sample_scope) = Some "other" ∧
  let w := fst (Append (disturbed 1 None None (Some peer_took_over)) (turn_input "k" "worker" 1) leased) in
  ((λ l, (jl_Owner l, jl_FencingToken l)) <$> ct_leases (file_contents (w_file w)) !! leaseKey sample_scope)
  = Some ("worker", 1%Z) ∧ length (file_events (w_file w)) = 1.
Proof. vm_compute. split_and!; reflexivity. Qed.

(** The file after another process has released the only lease. *)
Definition peer_released : JournalFile := w_file (fst (ReleaseLease (calm 1) sample_scope "worker" 1 leased)).

(** An empty lease table is left out of the file, and a table that is missing is
    not loaded: the process still sees the released lease and refuses others. *)
Lemma released_lease_still_busy :
  map_to_list (ct_leases (file_contents peer_released)) = [] ∧
  snd (AcquireLease (calm 2) sample_scope "other" 100 10 (with_file peer_released leased)) = Err runtime_ErrLeaseBusy.
Proof. vm_compute. split; reflexivity. Qed.

(** The file after another process has committed an intent. *)
Definition intent_of (n : nat) (w : World nat) : World nat :=
  fst (CommitEffectIntentWithPolicy (calm n) sample_scope "fx" "call" "deploy" EffectNonRetriableWrite ReconcileHuman
         VNil "worker" 1 w).
Definition peer_intent : JournalFile := w_file (intent_of 5 leased).

(** A write that fails after a rebase leaves the peer's records in memory without
    its effect index; committing the same intent then appends the peer's record a
    second time, and the file can never be opened again. *)
Lemma stale_index_corrupts_file :
  let w2 := fst (Append (disturbed 1 None (Some io_error) (Some peer_intent)) (turn_input "k" "worker" 1) leased) in
  let w3 := intent_of 2 (with_file peer_intent w2) in
  j_effects (w_journal w2) = ∅ ∧ ids (file_events (w_file w3)) = [event_id 5 0; event_id 5 0] ∧
  NewJournal "journal" None (w_file w3) = Err (Wrapf "%w: event sequence %d" ["2"] runtime_ErrCorrupt).
Proof. vm_compute. split_and!; reflexivity. Qed.

(** A released lease of another process is not released: the table is merged. *)
Lemma release_lost_in_merge :
  let w := fst (ReleaseLease (disturbed 1 None None (Some peer_intent)) sample_scope "worker" 1 leased) in
  snd (ReleaseLease (disturbed 1 None None (Some peer_intent)) sample_scope "worker" 1 leased) = Ok tt ∧
  j_leases (w_journal w) = ∅ ∧
  (jl_Owner <$> ct_leases (file_contents (w_file w)) !! leaseKey sample_scope) = Some "worker".
Proof. vm_compute. split_and!; reflexivity. Qed.

(** A dispatch that is on record is acknowledged again to anyone: neither the
    owner nor the token is checked, so a worker whose lease has been taken over
    goes on to execute the effect its successor is executing. *)
Theorem redispatch_unfenced (w : World nat) io scope effectID owner token e :
  Settled w → io_reload io = None →
  let s := effectStateLocked (j_events (w_journal w)) scope effectID in
  ef_DispatchPrepared s = true → ef_Dispatched s = true → ef_Receipted s = false → ef_OutcomeUnknown s = false →
  ef_Reconciled s = false → find (dispatched_event effectID) (j_events (w_journal w)) = Some e →
  MarkEffectDispatched io scope effectID owner token w = (w, Ok e).
Proof.
  cbv zeta. intros Hs Hre Hp Hd Hr Hu Hc Hf. unfold MarkEffectDispatched, locked.
  destruct (reloadLocked io w) as [w1 r] eqn:E. pose proof (reload_settled _ _ _ _ Hs E) as ->.
  assert (r = Ok tt) as ->.
  { unfold reloadLocked, reload_journal in E. case_bool_decide as Hpath; [by injection E|].
    destruct Hs as [_ Hs]. destruct (Hs Hpath) as (Hok & _). rewrite Hre in E.
    destruct (w_file w) as [[st|e']|]; [|done|by injection E]. destruct Hok as [Hv _]. rewrite Hv in E. cbn [rbind] in E.
    destruct (_ <=? _)%Z; by injection E. }
  rewrite Hp, Hd, Hr, Hu, Hc. cbn. by rewrite Hf.
Qed.

(** The search for an earlier dispatch does not compare the scope: a tenant is
    handed the record of another tenant's effect of the same id. *)
Definition both_dispatched : World nat :=
  play 0 (call_ops ++
    [ OpAcquireLease other_scope "worker" 100 10;
      OpAuthorizeTool other_scope "call" "deploy" "worker" 1 ["deploy"];
      OpStartTool other_scope "call" "deploy" "worker" 1 VNil;
      OpCommitEffectIntent other_scope "fx" "call" "deploy" EffectNonRetriableWrite ReconcileHuman VNil "worker" 1;
      OpPrepareEffectDispatch other_scope "fx" "worker" 1;
      OpMarkEffectDispatched other_scope "fx" "worker" 1 ]) on_file.
Lemma dispatch_record_of_other_tenant :
  (if snd (MarkEffectDispatched (calm 50) other_scope "fx" "worker" 1 both_dispatched) is Ok e
   then Some (je_Scope e) else None) = Some sample_scope.
Proof. vm_compute. reflexivity. Qed.

(** The id a retry is recorded with is the one the loop runs only for the first
    retry; from the second on, the record names a call that is never made. *)
Theorem retry_lineage_broken callID attempt :
  (2 ≤ attempt)%Z →
  attempt_id callID attempt +:+ ":retry:" +:+ pretty attempt ≠ attempt_id callID (attempt + 1).
Proof.
  intros Ha E. unfold attempt_id in E. rewrite !(proj2 (Z.ltb_lt _ _)) in E by lia.
  replace (attempt + 1 - 1)%Z with attempt in E by lia. apply (f_equal String.length) in E.
  rewrite !string_length_app in E. simpl in E. lia.
Qed.

(** A call that failed and then succeeded on its retry is reported with an
    unknown outcome when the run is repeated: the repetition stops at the failed
    first attempt and never looks at the retry that finished. *)
Lemma repeated_run_forgets_retry :
  te_Status (fst flaky_run.2) = "finished" ∧
  let again := Run calm sample_loop "call" (contract EffectReadOnly "" 2) VNil (Some flaky) 50 flaky_run.1.1.1 in
  te_Status (fst again.2) = "outcome_unknown" ∧ snd again.2 = Some runtime_ErrEffectOutcomeUnknown.
Proof. vm_compute. split_and!; reflexivity. Qed.
