(* ===== verification/Pipeline.v ===== *)
(** * Pipeline: the seven-stage delivery state machine

    Models internal/domain/pipeline.go and the workflow part of
    internal/domain/workflow_chat.go (stages, roles, workflow steps and templates,
    runs and their validation) and internal/pipeline/engine.go ([Engine.Apply],
    which merges the result of a stage into a run and takes one edge of the state
    machine, for the default seven stages or for a custom selection of them).

    [Apply] returns the run also when it fails, with whatever it has merged so
    far; the model returns it too.  A coverage is an IEEE-754 number. *)
From stdpp Require Import base strings gmap list pretty.
From Stdlib Require Import ZArith Lia SpecFloat.
From S2P Require Import Prelude GoLib GoStrings GoValue.

(** ** Stages and statuses *)

Definition PipelineDesign : Z := 1.
Definition PipelineDevelopment : Z := 2.
Definition PipelineUnitTest : Z := 3.
Definition PipelineIntegration : Z := 4.
Definition PipelineArbitration : Z := 5.
Definition PipelineRevalidation : Z := 6.
Definition PipelineReport : Z := 7.

(** [PipelineStage.Valid] and [PipelineStage.String]. *)
Definition PipelineStage_Valid (s : Z) : bool := ((PipelineDesign <=? s) && (s <=? PipelineReport))%Z.
Definition PipelineStage_String (s : Z) : string :=
  if (s =? PipelineDesign)%Z then "design" else if (s =? PipelineDevelopment)%Z then "development"
  else if (s =? PipelineUnitTest)%Z then "unit_test" else if (s =? PipelineIntegration)%Z then "integration_test"
  else if (s =? PipelineArbitration)%Z then "arbitration" else if (s =? PipelineRevalidation)%Z then "revalidation"
  else if (s =? PipelineReport)%Z then "report" else "".

Definition PipelineRunning : string := "running".
Definition PipelineWaiting : string := "waiting_provider".
Definition PipelineWaitingApproval : string := "waiting_approval".
Definition PipelineSuspended : string := "suspended".
Definition PipelineCompleted : string := "completed".
Definition PipelineFailed : string := "failed".

Definition WorkflowAutomatic : string := "automatic".
Definition WorkflowDesignApproval : string := "design_approval".

(** ** Roles and workflow steps *)

Record PipelineAgentRoles := { ro_Designer : string; ro_Developer : string; ro_Tester : string; ro_Arbitrator : string }.

Definition PipelineAgentRoles_Validate (r : PipelineAgentRoles) : result unit :=
  let missing :=
    (if blank (ro_Designer r) then ["designer_agent_id"] else []) ++
    (if blank (ro_Developer r) then ["developer_agent_id"] else []) ++
    (if blank (ro_Tester r) then ["tester_agent_id"] else []) ++
    (if blank (ro_Arbitrator r) then ["arbitrator_agent_id"] else []) in
  reject (0 <? length missing)%nat (Errorf "missing pipeline agents: %s" [Join ", " missing]).

(** [PipelineAgentRoles.AgentFor]. *)
Definition roles_AgentFor (r : PipelineAgentRoles) (stage : Z) : string :=
  if (stage =? PipelineDesign)%Z then ro_Designer r
  else if (stage =? PipelineDevelopment)%Z then ro_Developer r
  else if ((stage =? PipelineUnitTest) || (stage =? PipelineIntegration) || (stage =? PipelineRevalidation)
           || (stage =? PipelineReport))%Z then ro_Tester r
  else if (stage =? PipelineArbitration)%Z then ro_Arbitrator r
  else "".

Record WorkflowStep := {
  ws_ID : string; ws_Stage : Z; ws_Name : string; ws_Role : string; ws_AgentID : string; ws_Required : bool;
  ws_RetryLimit : Z; ws_Config : gmap string value }.
Definition zero_Step : WorkflowStep :=
  {| ws_ID := ""; ws_Stage := 0; ws_Name := ""; ws_Role := ""; ws_AgentID := ""; ws_Required := false;
     ws_RetryLimit := 0; ws_Config := ∅ |}.

Definition WorkflowStep_Validate (s : WorkflowStep) : result unit :=
  reject (blank (ws_ID s)) (Errorf "workflow step id is required" []) ;;;
  reject (negb (PipelineStage_Valid (ws_Stage s))) (Errorf "workflow step %q has invalid stage" [ws_ID s]) ;;;
  reject (blank (ws_AgentID s)) (Errorf "workflow step %q has no agent_id" [ws_ID s]) ;;;
  reject (ws_RetryLimit s <? 0)%Z (Errorf "workflow step %q retry_limit cannot be negative" [ws_ID s]).

Definition default_step (id : string) (stage : Z) (name role agent : string) : WorkflowStep :=
  {| ws_ID := id; ws_Stage := stage; ws_Name := name; ws_Role := role; ws_AgentID := agent; ws_Required := true;
     ws_RetryLimit := 0; ws_Config := ∅ |}.
Definition DefaultWorkflow (roles : PipelineAgentRoles) : list WorkflowStep :=
  [ default_step "design" PipelineDesign "Design" "designer" (ro_Designer roles);
    default_step "development" PipelineDevelopment "Development" "developer" (ro_Developer roles);
    default_step "unit_test" PipelineUnitTest "Unit tests" "tester" (ro_Tester roles);
    default_step "integration_test" PipelineIntegration "Integration tests" "tester" (ro_Tester roles);
    default_step "arbitration" PipelineArbitration "Repair arbitration" "arbitrator" (ro_Arbitrator roles);
    default_step "revalidation" PipelineRevalidation "Revalidation" "tester" (ro_Tester roles);
    default_step "report" PipelineReport "Final report" "tester" (ro_Tester roles) ].

(** [sort.SliceStable] by stage. *)
Definition stage_le : relation WorkflowStep := λ a b, (ws_Stage a ≤ ws_Stage b)%Z.
#[global] Instance stage_le_dec : RelDecision stage_le.
Proof. intros a b. unfold stage_le. apply _. Defined.
Definition NormalizeWorkflow (steps : list WorkflowStep) : list WorkflowStep := stable_sort stage_le steps.

(** The loop [for _, step := range steps { if step.Stage == stage { return step } }]. *)
Definition step_at (stage : Z) (steps : list WorkflowStep) : WorkflowStep :=
  default zero_Step (find (λ s, (ws_Stage s =? stage)%Z) steps).

(** [PipelineAgentRoles.StepFor]. *)
Definition roles_StepFor (r : PipelineAgentRoles) (stage : Z) : WorkflowStep := step_at stage (DefaultWorkflow r).

(** ** Templates *)

Record WorkflowTemplate := {
  wt_ID : string; wt_WorkspaceID : string; wt_Name : string; wt_Description : string; wt_Mode : string;
  wt_Steps : list WorkflowStep; wt_Version : Z; wt_CreatedAt : Time; wt_UpdatedAt : Time }.

(** One iteration of the loop of [WorkflowTemplate.Validate]: the ids and the
    stages seen so far. *)
Definition check_template_step (seen : list string * list Z) (_ : nat) (step : WorkflowStep)
    : result (list string * list Z) :=
  let '(seenIDs, seenStages) := seen in
  WorkflowStep_Validate step ;;;
  reject (contains seenIDs (ws_ID step)) (Errorf "workflow step id %q is duplicated" [ws_ID step]) ;;;
  reject (existsb (Z.eqb (ws_Stage step)) seenStages)
    (Errorf "workflow stage %d is duplicated" [pretty (ws_Stage step)]) ;;;
  Ok (ws_ID step :: seenIDs, ws_Stage step :: seenStages).

Definition WorkflowTemplate_Validate (w : WorkflowTemplate) : result unit :=
  reject (blank (wt_WorkspaceID w) || blank (wt_Name w)) (Errorf "workspace_id and name are required" []) ;;;
  let mode := if wt_Mode w ≟ "" then WorkflowAutomatic else wt_Mode w in
  reject ((mode ≠? WorkflowAutomatic) && (mode ≠? WorkflowDesignApproval))
    (Errorf "mode must be automatic or design_approval" []) ;;;
  reject (length (wt_Steps w) =? 0)%nat (Errorf "at least one workflow step is required" []) ;;;
  let* seen := fold_each_from 0 check_template_step ([], []) (wt_Steps w) in
  reject (negb (existsb (Z.eqb PipelineReport) (snd seen))) (Errorf "workflow must include the report stage" []).

Definition StepsForRun (w : WorkflowTemplate) : list WorkflowStep := NormalizeWorkflow (wt_Steps w).

(** ** Runs *)

Record PipelineContext := {
  pc_RequirementText : string; pc_DesignDoc : string; pc_BaselineCommit : string; pc_CurrentCommit : string;
  pc_PassedTests : list string; pc_FailedTests : list string; pc_ErrorLogs : list string;
  pc_RepairNotes : list string; pc_Coverage : spec_float }.

Record PipelineTransition := {
  pt_Sequence : Z; pt_From : Z; pt_To : Z; pt_Outcome : string; pt_AgentID : string; pt_ProviderIssueID : string;
  pt_ProviderTaskID : string; pt_ProviderSessionID : string; pt_ProviderWorkDir : string; pt_Summary : string;
  pt_CreatedAt : Time }.

Record PipelineRun := {
  pr_ID : string; pr_WorkspaceID : string; pr_RequirementID : string; pr_SessionID : string;
  pr_PipelineWorkItemID : string; pr_BugID : string; pr_ParentSessionID : string; pr_ProviderWorkDir : string;
  pr_PipelineStage : Z; pr_Status : string; pr_Roles : PipelineAgentRoles; pr_WorkflowMode : string;
  pr_LegacyAdapterVersion : string; pr_ExecutionPlanID : string; pr_ActiveGraphNodeID : string;
  pr_ActiveGraphAttemptID : string; pr_Workflow : list WorkflowStep; pr_DesignApprovalID : string;
  pr_DesignApprovalStatus : string; pr_Context : PipelineContext; pr_MaxRetries : Z; pr_RetryCount : Z;
  pr_UnitRetryCount : Z; pr_CoverageThreshold : spec_float; pr_ActiveProviderIssueID : string;
  pr_ActiveProviderTaskID : string; pr_ActiveAgentID : string; pr_FinalReport : string; pr_SuspendReason : string;
  pr_Version : Z; pr_History : list PipelineTransition; pr_CreatedAt : Time; pr_UpdatedAt : Time }.

Record PipelineStepResult := {
  sr_Stage : Z; sr_AgentID : string; sr_Outcome : string; sr_Summary : string; sr_DesignDoc : string;
  sr_CodeVersion : string; sr_Coverage : spec_float; sr_PassedTests : list string; sr_FailedTests : list string;
  sr_ErrorLog : string; sr_RepairNote : string; sr_Report : string; sr_ProviderIssueID : string;
  sr_ProviderTaskID : string; sr_ProviderSessionID : string; sr_ProviderWorkDir : string }.

Definition hundred : spec_float := float64_of_Z 100.
Definition zero_float : spec_float := S754_zero false.

(** One iteration of the loop of [PipelineRun.Validate]: the stages seen so far. *)
Definition check_run_step (seen : list Z) (_ : nat) (step : WorkflowStep) : result (list Z) :=
  WorkflowStep_Validate step ;;;
  reject (existsb (Z.eqb (ws_Stage step)) seen) (Errorf "workflow stage %d is duplicated" [pretty (ws_Stage step)]) ;;;
  Ok (ws_Stage step :: seen).

Definition PipelineRun_Validate (r : PipelineRun) : result unit :=
  reject (blank (pr_WorkspaceID r) || blank (pr_RequirementID r))
    (Errorf "workspace_id and requirement_id are required" []) ;;;
  reject (blank (pr_SessionID r)) (Errorf "session_id is required" []) ;;;
  reject (negb (PipelineStage_Valid (pr_PipelineStage r))) (Errorf "pipeline_stage must be between 1 and 7" []) ;;;
  (match pr_Workflow r with
   | [] => PipelineAgentRoles_Validate (pr_Roles r)
   | _ =>
       let* seen := fold_each_from 0 check_run_step [] (pr_Workflow r) in
       reject (negb (existsb (Z.eqb PipelineReport) seen)) (Errorf "workflow must include the report stage" [])
   end) ;;;
  reject (pr_MaxRetries r <? 1)%Z (Errorf "max_retries must be at least 1" []) ;;;
  reject (SFleb (pr_CoverageThreshold r) zero_float || SFltb hundred (pr_CoverageThreshold r))
    (Errorf "coverage_threshold must be in (0,100]" []).

Definition Steps (r : PipelineRun) : list WorkflowStep :=
  match pr_Workflow r with [] => DefaultWorkflow (pr_Roles r) | _ => NormalizeWorkflow (pr_Workflow r) end.

(** [PipelineRun.StepFor], [AgentFor], [HasStage] and [NextSelectedStage]. *)
Definition StepFor (r : PipelineRun) (stage : Z) : WorkflowStep := step_at stage (Steps r).
Definition AgentFor (r : PipelineRun) (stage : Z) : string :=
  let step := StepFor r stage in
  if ws_AgentID step ≠? "" then ws_AgentID step else roles_AgentFor (pr_Roles r) stage.
Definition HasStage (r : PipelineRun) (stage : Z) : bool := (ws_Stage (StepFor r stage) =? stage)%Z.

Fixpoint next_selected (stage : Z) (steps : list WorkflowStep) : Z :=
  match steps with
  | [] => stage
  | step :: rest =>
      if (ws_Stage step =? stage)%Z
      then match rest with next :: _ => ws_Stage next | [] => stage end
      else next_selected stage rest
  end.
Definition NextSelectedStage (r : PipelineRun) (stage : Z) : Z := next_selected stage (Steps r).

(** ** The engine *)

Definition pipeline_ErrStaleStage : error := ESentinel (Sentinel "pipeline" "ErrStaleStage").
Definition pipeline_ErrWrongAgent : error := ESentinel (Sentinel "pipeline" "ErrWrongAgent").
Definition pipeline_ErrSessionContinuity : error := ESentinel (Sentinel "pipeline" "ErrSessionContinuity").

(** The engine's own [appendUnique], which trims. *)
Fixpoint add_unique (seen : list string) (values : list string) : list string :=
  match values with
  | [] => []
  | v :: rest =>
      let item := TrimSpace v in
      if (item ≟ "") || contains seen item then add_unique seen rest else item :: add_unique (item :: seen) rest
  end.
Definition engine_appendUnique (existing values : list string) : list string := existing ++ add_unique existing values.

Definition retryLimit (r : PipelineRun) (stage : Z) : Z :=
  if (0 <? ws_RetryLimit (StepFor r stage))%Z then ws_RetryLimit (StepFor r stage) else pr_MaxRetries r.

(** What [nextStage] answers: the stage, the status and the suspension reason. *)
Record Verdict := { vd_stage : Z; vd_status : string; vd_reason : string }.
Definition go_on (stage : Z) : result Verdict := Ok {| vd_stage := stage; vd_status := PipelineRunning; vd_reason := "" |}.
Definition suspend (stage : Z) (reason : string) : result Verdict :=
  Ok {| vd_stage := stage; vd_status := PipelineSuspended; vd_reason := reason |}.

(** [run.WorkflowMode == WorkflowDesignApproval && run.DesignApprovalStatus != "approved"]. *)
Definition awaits_approval (r : PipelineRun) : bool :=
  (pr_WorkflowMode r ≟ WorkflowDesignApproval) && (pr_DesignApprovalStatus r ≠? "approved").
Definition below_threshold (r : PipelineRun) (x : PipelineStepResult) : bool :=
  SFltb (sr_Coverage x) (pr_CoverageThreshold r).

Definition nextCustomStage (r : PipelineRun) (x : PipelineStepResult) : result Verdict :=
  let pass := sr_Outcome x ≟ "pass" in
  let current := pr_PipelineStage r in
  let advance :=
    let next := NextSelectedStage r current in
    if (next =? current)%Z && negb (current =? PipelineReport)%Z
    then suspend current "workflow has no subsequent stage" else go_on next in
  if (current =? PipelineDesign)%Z then
    if negb pass then suspend current "design generation failed"
    else if blank (sr_DesignDoc x) then Err (Errorf "design stage requires design_doc" [])
    else if awaits_approval r
    then Ok {| vd_stage := current; vd_status := PipelineWaitingApproval; vd_reason := "design approval required" |}
    else advance
  else if (current =? PipelineDevelopment)%Z then
    if negb pass then
      if (retryLimit r current <=? pr_RetryCount r)%Z then suspend current "development retry limit reached"
      else go_on current
    else if blank (sr_CodeVersion x) then Err (Errorf "development stage requires code_version" [])
    else advance
  else if (current =? PipelineUnitTest)%Z then
    if negb pass || below_threshold r x then
      if (retryLimit r current <=? pr_UnitRetryCount r)%Z
      then suspend current "unit-test or coverage retry limit reached" else go_on current
    else advance
  else if (current =? PipelineReport)%Z then
    if negb pass then suspend current "report generation failed"
    else if blank (sr_Report x) then Err (Errorf "report stage requires report" [])
    else Ok {| vd_stage := current; vd_status := PipelineCompleted; vd_reason := "" |}
  else if (current =? PipelineIntegration)%Z && negb pass then
    if HasStage r PipelineArbitration then go_on PipelineArbitration
    else if HasStage r PipelineDevelopment && (pr_RetryCount r <? retryLimit r PipelineDevelopment)%Z
    then go_on PipelineDevelopment
    else suspend current "integration failed and no repair stage is configured"
  else if (current =? PipelineArbitration)%Z then
    if negb pass then suspend current "arbitrator rejected automatic repair"
    else if (retryLimit r current <? pr_RetryCount r)%Z then suspend current "repair retry limit reached"
    else if HasStage r PipelineDevelopment then go_on PipelineDevelopment
    else advance
  else if (current =? PipelineRevalidation)%Z && negb pass then
    if HasStage r PipelineArbitration then go_on PipelineArbitration
    else suspend current "revalidation failed and no arbitration stage is configured"
  else advance.

Definition nextStage (r : PipelineRun) (x : PipelineStepResult) : result Verdict :=
  match pr_Workflow r with
  | _ :: _ => nextCustomStage r x
  | [] =>
      let pass := sr_Outcome x ≟ "pass" in
      let current := pr_PipelineStage r in
      if (current =? PipelineDesign)%Z then
        if negb pass then suspend PipelineDesign "design generation failed"
        else if blank (sr_DesignDoc x) then Err (Errorf "design stage requires design_doc" [])
        else if awaits_approval r
        then Ok {| vd_stage := PipelineDesign; vd_status := PipelineWaitingApproval; vd_reason := "design approval required" |}
        else go_on PipelineDevelopment
      else if (current =? PipelineDevelopment)%Z then
        if negb pass then
          if (pr_MaxRetries r <=? pr_RetryCount r)%Z then suspend PipelineDevelopment "development retry limit reached"
          else go_on PipelineDevelopment
        else if blank (sr_CodeVersion x) then Err (Errorf "development stage requires code_version" [])
        else go_on PipelineUnitTest
      else if (current =? PipelineUnitTest)%Z then
        if negb pass || below_threshold r x then
          if (pr_MaxRetries r <=? pr_UnitRetryCount r)%Z
          then suspend PipelineUnitTest "unit-test or coverage retry limit reached" else go_on PipelineUnitTest
        else go_on PipelineIntegration
      else if (current =? PipelineIntegration)%Z then
        if negb pass then go_on PipelineArbitration
        else if (0 <? pr_RetryCount r)%Z then go_on PipelineRevalidation
        else go_on PipelineReport
      else if (current =? PipelineArbitration)%Z then
        if negb pass then suspend PipelineArbitration "arbitrator rejected automatic repair"
        else if (pr_MaxRetries r <? pr_RetryCount r)%Z then suspend PipelineArbitration "repair retry limit reached"
        else go_on PipelineDevelopment
      else if (current =? PipelineRevalidation)%Z then
        if negb pass then go_on PipelineArbitration else go_on PipelineReport
      else if (current =? PipelineReport)%Z then
        if negb pass then suspend PipelineReport "report generation failed"
        else if blank (sr_Report x) then Err (Errorf "report stage requires report" [])
        else Ok {| vd_stage := PipelineReport; vd_status := PipelineCompleted; vd_reason := "" |}
      else Err (Errorf "invalid pipeline stage" [])
  end.

(** ** [Engine.Apply] *)

(** The assignments of [Apply] before [nextStage]: context, session, counters. *)
Definition merged (r : PipelineRun) (c : PipelineContext) (session workDir : string) (retry unitRetry : Z)
    : PipelineRun :=
  {| pr_ID := pr_ID r; pr_WorkspaceID := pr_WorkspaceID r; pr_RequirementID := pr_RequirementID r;
     pr_SessionID := pr_SessionID r; pr_PipelineWorkItemID := pr_PipelineWorkItemID r; pr_BugID := pr_BugID r;
     pr_ParentSessionID := session; pr_ProviderWorkDir := workDir; pr_PipelineStage := pr_PipelineStage r;
     pr_Status := pr_Status r; pr_Roles := pr_Roles r; pr_WorkflowMode := pr_WorkflowMode r;
     pr_LegacyAdapterVersion := pr_LegacyAdapterVersion r; pr_ExecutionPlanID := pr_ExecutionPlanID r;
     pr_ActiveGraphNodeID := pr_ActiveGraphNodeID r; pr_ActiveGraphAttemptID := pr_ActiveGraphAttemptID r;
     pr_Workflow := pr_Workflow r; pr_DesignApprovalID := pr_DesignApprovalID r;
     pr_DesignApprovalStatus := pr_DesignApprovalStatus r; pr_Context := c; pr_MaxRetries := pr_MaxRetries r;
     pr_RetryCount := retry; pr_UnitRetryCount := unitRetry; pr_CoverageThreshold := pr_CoverageThreshold r;
     pr_ActiveProviderIssueID := pr_ActiveProviderIssueID r; pr_ActiveProviderTaskID := pr_ActiveProviderTaskID r;
     pr_ActiveAgentID := pr_ActiveAgentID r; pr_FinalReport := pr_FinalReport r;
     pr_SuspendReason := pr_SuspendReason r; pr_Version := pr_Version r; pr_History := pr_History r;
     pr_CreatedAt := pr_CreatedAt r; pr_UpdatedAt := pr_UpdatedAt r |}.

(** [run.Status = status]. *)
Definition with_status (status : string) (r : PipelineRun) : PipelineRun :=
  {| pr_ID := pr_ID r; pr_WorkspaceID := pr_WorkspaceID r; pr_RequirementID := pr_RequirementID r;
     pr_SessionID := pr_SessionID r; pr_PipelineWorkItemID := pr_PipelineWorkItemID r; pr_BugID := pr_BugID r;
     pr_ParentSessionID := pr_ParentSessionID r; pr_ProviderWorkDir := pr_ProviderWorkDir r;
     pr_PipelineStage := pr_PipelineStage r; pr_Status := status; pr_Roles := pr_Roles r;
     pr_WorkflowMode := pr_WorkflowMode r; pr_LegacyAdapterVersion := pr_LegacyAdapterVersion r;
     pr_ExecutionPlanID := pr_ExecutionPlanID r; pr_ActiveGraphNodeID := pr_ActiveGraphNodeID r;
     pr_ActiveGraphAttemptID := pr_ActiveGraphAttemptID r; pr_Workflow := pr_Workflow r;
     pr_DesignApprovalID := pr_DesignApprovalID r; pr_DesignApprovalStatus := pr_DesignApprovalStatus r;
     pr_Context := pr_Context r; pr_MaxRetries := pr_MaxRetries r; pr_RetryCount := pr_RetryCount r;
     pr_UnitRetryCount := pr_UnitRetryCount r; pr_CoverageThreshold := pr_CoverageThreshold r;
     pr_ActiveProviderIssueID := pr_ActiveProviderIssueID r; pr_ActiveProviderTaskID := pr_ActiveProviderTaskID r;
     pr_ActiveAgentID := pr_ActiveAgentID r; pr_FinalReport := pr_FinalReport r;
     pr_SuspendReason := pr_SuspendReason r; pr_Version := pr_Version r; pr_History := pr_History r;
     pr_CreatedAt := pr_CreatedAt r; pr_UpdatedAt := pr_UpdatedAt r |}.

(** The evidence of a result, merged into the context of the run. *)
Definition merge_context (c : PipelineContext) (x : PipelineStepResult) : PipelineContext :=
  {| pc_RequirementText := pc_RequirementText c;
     pc_DesignDoc := if sr_DesignDoc x ≠? "" then sr_DesignDoc x else pc_DesignDoc c;
     pc_BaselineCommit :=
       if (sr_CodeVersion x ≠? "") && (pc_BaselineCommit c ≟ "") then sr_CodeVersion x else pc_BaselineCommit c;
     pc_CurrentCommit := if sr_CodeVersion x ≠? "" then sr_CodeVersion x else pc_CurrentCommit c;
     pc_PassedTests := engine_appendUnique (pc_PassedTests c) (sr_PassedTests x);
     pc_FailedTests := engine_appendUnique (pc_FailedTests c) (sr_FailedTests x);
     pc_ErrorLogs := pc_ErrorLogs c ++ (if blank (sr_ErrorLog x) then [] else [sr_ErrorLog x]);
     pc_RepairNotes := pc_RepairNotes c ++ (if blank (sr_RepairNote x) then [] else [sr_RepairNote x]);
     pc_Coverage := if SFltb zero_float (sr_Coverage x) then sr_Coverage x else pc_Coverage c |}.

(** The block of the development stage: the session and worktree the run is
    pinned to, or why the result is refused. *)
Definition pin_session (r : PipelineRun) (x : PipelineStepResult) : result (string * string) :=
  if (pr_PipelineStage r =? PipelineDevelopment)%Z then
    reject (blank (sr_ProviderSessionID x)) (Errorf "development result requires provider_session_id" []) ;;;
    reject (blank (sr_ProviderWorkDir x)) (Errorf "development result requires provider_work_dir" []) ;;;
    if pr_ParentSessionID r ≟ "" then Ok (sr_ProviderSessionID x, sr_ProviderWorkDir x)
    else
      reject (sr_ProviderSessionID x ≠? pr_ParentSessionID r) pipeline_ErrSessionContinuity ;;;
      reject (sr_ProviderWorkDir x ≠? pr_ProviderWorkDir r) pipeline_ErrSessionContinuity ;;;
      Ok (pr_ParentSessionID r, pr_ProviderWorkDir r)
  else Ok (pr_ParentSessionID r, pr_ProviderWorkDir r).

(** When the two counters are incremented. *)
Definition counts_retry (r : PipelineRun) (x : PipelineStepResult) : bool :=
  let from := pr_PipelineStage r in
  ((from =? PipelineDevelopment)%Z && (sr_Outcome x ≟ "fail"))
  || ((from =? PipelineArbitration)%Z && (sr_Outcome x ≟ "pass"))
  || ((from =? PipelineIntegration)%Z && (sr_Outcome x ≟ "fail") && (0 <? length (pr_Workflow r))%nat
      && negb (HasStage r PipelineArbitration)).
Definition counts_unit_retry (r : PipelineRun) (x : PipelineStepResult) : bool :=
  (pr_PipelineStage r =? PipelineUnitTest)%Z && ((sr_Outcome x ≟ "fail") || below_threshold r x).
Definition bump (flag : bool) (n : Z) : Z := if flag then add64 n 1 else n.

(** The assignments of [Apply] after [nextStage]. *)
Definition advanced (now : Time) (r : PipelineRun) (x : PipelineStepResult) (v : Verdict) : PipelineRun :=
  let from := pr_PipelineStage r in
  let completed := vd_status v ≟ PipelineCompleted in
  {| pr_ID := pr_ID r; pr_WorkspaceID := pr_WorkspaceID r; pr_RequirementID := pr_RequirementID r;
     pr_SessionID := pr_SessionID r; pr_PipelineWorkItemID := pr_PipelineWorkItemID r; pr_BugID := pr_BugID r;
     pr_ParentSessionID := pr_ParentSessionID r; pr_ProviderWorkDir := pr_ProviderWorkDir r;
     pr_PipelineStage := vd_stage v; pr_Status := vd_status v; pr_Roles := pr_Roles r;
     pr_WorkflowMode := pr_WorkflowMode r; pr_LegacyAdapterVersion := pr_LegacyAdapterVersion r;
     pr_ExecutionPlanID := pr_ExecutionPlanID r; pr_ActiveGraphNodeID := pr_ActiveGraphNodeID r;
     pr_ActiveGraphAttemptID := pr_ActiveGraphAttemptID r; pr_Workflow := pr_Workflow r;
     pr_DesignApprovalID := pr_DesignApprovalID r; pr_DesignApprovalStatus := pr_DesignApprovalStatus r;
     pr_Context := pr_Context r; pr_MaxRetries := pr_MaxRetries r; pr_RetryCount := pr_RetryCount r;
     pr_UnitRetryCount := pr_UnitRetryCount r; pr_CoverageThreshold := pr_CoverageThreshold r;
     pr_ActiveProviderIssueID := sr_ProviderIssueID x;
     pr_ActiveProviderTaskID := if completed then "" else sr_ProviderTaskID x;
     pr_ActiveAgentID := if completed then "" else AgentFor r (vd_stage v);
     pr_FinalReport :=
       if completed then sr_Report x
       else if (vd_stage v =? PipelineReport)%Z && (sr_Report x ≠? "") then sr_Report x else pr_FinalReport r;
     pr_SuspendReason := vd_reason v; pr_Version := add64 (pr_Version r) 1;
     pr_History := pr_History r ++
       [ {| pt_Sequence := Z.of_nat (length (pr_History r)) + 1; pt_From := from; pt_To := vd_stage v;
            pt_Outcome := sr_Outcome x; pt_AgentID := sr_AgentID x; pt_ProviderIssueID := sr_ProviderIssueID x;
            pt_ProviderTaskID := sr_ProviderTaskID x; pt_ProviderSessionID := sr_ProviderSessionID x;
            pt_ProviderWorkDir := sr_ProviderWorkDir x; pt_Summary := sr_Summary x; pt_CreatedAt := now |} ];
     pr_CreatedAt := pr_CreatedAt r; pr_UpdatedAt := now |}.

Definition terminal_status (s : string) : bool :=
  (s ≟ PipelineCompleted) || (s ≟ PipelineSuspended) || (s ≟ PipelineFailed).

(** The guards of [Apply], in order. *)
Definition apply_guards (r : PipelineRun) (x : PipelineStepResult) : result unit :=
  reject (terminal_status (pr_Status r)) (Errorf "pipeline is terminal: %s" [pr_Status r]) ;;;
  reject (negb (sr_Stage x =? pr_PipelineStage r)%Z) pipeline_ErrStaleStage ;;;
  reject (blank (sr_AgentID x) || (sr_AgentID x ≠? AgentFor r (pr_PipelineStage r))) pipeline_ErrWrongAgent ;;;
  reject ((sr_Outcome x ≠? "pass") && (sr_Outcome x ≠? "fail")) (Errorf "outcome must be pass or fail" []).

(** The run is returned also with an error: with nothing merged when a guard
    refused the result, with its evidence merged when a later check did. *)
Definition Apply (now : Time) (r : PipelineRun) (x : PipelineStepResult) : PipelineRun * result unit :=
  match apply_guards r x with
  | Err e => (r, Err e)
  | Ok _ =>
      let c := merge_context (pr_Context r) x in
      match pin_session r x with
      | Err e => (merged r c (pr_ParentSessionID r) (pr_ProviderWorkDir r) (pr_RetryCount r) (pr_UnitRetryCount r), Err e)
      | Ok (session, workDir) =>
          let r' := merged r c session workDir (bump (counts_retry r x) (pr_RetryCount r))
                      (bump (counts_unit_retry r x) (pr_UnitRetryCount r)) in
          match nextStage r' x with
          | Err e => (r', Err e)
          | Ok v => (advanced now r' x v, Ok tt)
          end
      end
  end.
