(* ===== verification/PipelineProps.v ===== *)
(** * PipelineProps: what the delivery state machine guarantees

    [Edge] is the specification of [nextStage], one constructor per kind of edge,
    for the default stages and for a custom selection alike; [nextStage_edge] is
    the refinement.  From it follow the well-formedness of runs ([wf_run]), the
    permanence of evidence, the bound on the number of results a run accepts, and
    which workflows can complete. *)
From stdpp Require Import base strings gmap list pretty.
From Stdlib Require Import ZArith Lia SpecFloat Sorted.
From S2P Require Import Prelude GoLib GoStrings GoValue Pipeline.

(** ** The selected stages *)

#[global] Instance stage_le_total : Total stage_le.
Proof. intros a b. unfold stage_le. lia. Qed.
#[global] Instance stage_le_trans : Transitive stage_le.
Proof. intros a b c. unfold stage_le. lia. Qed.

Definition good_step (s : WorkflowStep) : Prop :=
  PipelineStage_Valid (ws_Stage s) = true ∧ blank (ws_AgentID s) = false ∧ (0 ≤ ws_RetryLimit s)%Z.
Definition selected (r : PipelineRun) (stage : Z) : Prop := ∃ s, s ∈ Steps r ∧ ws_Stage s = stage.

Lemma stage_valid s : PipelineStage_Valid s = true ↔ (1 ≤ s ≤ 7)%Z.
Proof. unfold PipelineStage_Valid, PipelineDesign, PipelineReport. rewrite andb_true_iff, !Z.leb_le. done. Qed.

Lemma existsb_Z z l : existsb (Z.eqb z) l = true ↔ z ∈ l.
Proof.
  rewrite existsb_exists. split.
  - intros (y & Hy & ->%Z.eqb_eq). by apply list_elem_of_In.
  - intros Hz. exists z. rewrite Z.eqb_refl. split; [by apply list_elem_of_In|done].
Qed.

Lemma run_steps_good steps : ∀ i acc acc',
  fold_each_from i check_run_step acc steps = Ok acc' →
  Forall good_step steps ∧ (∀ z, z ∈ acc' ↔ z ∈ acc ∨ z ∈ map ws_Stage steps)
  ∧ NoDup (map ws_Stage steps) ∧ (∀ z, z ∈ acc → z ∉ map ws_Stage steps).
Proof.
  induction steps as [|s steps IH]; intros i acc acc'; cbn [fold_each_from map].
  - intros [= <-]. repeat split; [constructor|set_solver..|constructor|set_solver].
  - rewrite rbind_Ok. intros (a & Hs & Hrest). unfold check_run_step, WorkflowStep_Validate in Hs.
    apply rbind_unit_Ok in Hs as [Hv Hs]. apply rbind_unit_Ok in Hs as [Hnew Hs]. injection Hs as <-.
    apply reject_tt, not_true_iff_false in Hnew. rewrite existsb_Z in Hnew.
    destruct (IH _ _ _ Hrest) as (Hgood & Hacc & Hnd & Hfresh). split; [|split; [|split]].
    + constructor; [|done]. repeat (apply rbind_unit_Ok in Hv as [? Hv]).
      rewrite !reject_tt in *. rewrite negb_false_iff in *. rewrite Z.ltb_ge in *. done.
    + intros z. rewrite Hacc. set_solver.
    + constructor; [apply Hfresh; set_solver|done].
    + intros z Hz. rewrite elem_of_cons. intros [->|Hin]; [done|]. by apply (Hfresh z); [set_solver|].
Qed.

Lemma roles_valid ro : PipelineAgentRoles_Validate ro = Ok tt →
  blank (ro_Designer ro) = false ∧ blank (ro_Developer ro) = false ∧ blank (ro_Tester ro) = false
  ∧ blank (ro_Arbitrator ro) = false.
Proof.
  unfold PipelineAgentRoles_Validate. rewrite reject_tt.
  destruct (blank (ro_Designer ro)), (blank (ro_Developer ro)), (blank (ro_Tester ro)), (blank (ro_Arbitrator ro));
    done.
Qed.

Lemma default_steps_good ro : PipelineAgentRoles_Validate ro = Ok tt → Forall good_step (DefaultWorkflow ro).
Proof.
  intros (? & ? & ? & ?)%roles_valid. unfold DefaultWorkflow.
  repeat (constructor; [by repeat split|]). constructor.
Qed.

(** What validation guarantees of the selected steps. *)
Lemma Validate_steps r : PipelineRun_Validate r = Ok tt →
  Forall good_step (Steps r) ∧ selected r PipelineReport ∧ NoDup (map ws_Stage (Steps r)).
Proof.
  unfold PipelineRun_Validate. intros Hv. repeat (apply rbind_unit_Ok in Hv as [? Hv]).
  unfold selected, Steps. destruct (pr_Workflow r) as [|w ws] eqn:Ew.
  - split; [by apply default_steps_good|].
    split; [|by apply (bool_decide_eq_true_1 (NoDup (map ws_Stage (DefaultWorkflow (pr_Roles r)))))].
    exists (default_step "report" PipelineReport "Final report" "tester" (ro_Tester (pr_Roles r))).
    split; [|done]. unfold DefaultWorkflow. set_solver.
  - match goal with H : rbind _ _ = Ok tt |- _ => apply rbind_Ok in H as (seen & Hfold & Hrep) end.
    apply reject_tt, negb_false_iff, existsb_Z in Hrep.
    destruct (run_steps_good _ _ _ _ Hfold) as (Hgood & Hseen & Hnd & _).
    split; [|split].
    + rewrite Forall_forall in *. intros s Hs. apply Hgood. by rewrite <- (elem_of_stable_sort stage_le).
    + apply Hseen in Hrep as [Hnil|Hin]; [set_solver|].
      apply list_elem_of_fmap in Hin as (s & Hs & Hin). exists s. split; [|done].
      by apply elem_of_stable_sort.
    + unfold NormalizeWorkflow. by rewrite stable_sort_perm.
Qed.

Lemma step_at_spec stage steps :
  (∃ s, step_at stage steps = s ∧ s ∈ steps ∧ ws_Stage s = stage)
  ∨ (step_at stage steps = zero_Step ∧ ∀ s, s ∈ steps → ws_Stage s ≠ stage).
Proof.
  unfold step_at. destruct (find _ steps) as [s|] eqn:Ef; cbn [default].
  - left. apply find_some in Ef as [Hin Heq%Z.eqb_eq]. exists s. by rewrite list_elem_of_In.
  - right. split; [done|]. intros s Hs Heq. apply list_elem_of_In in Hs.
    pose proof (find_none _ _ Ef _ Hs) as Hn. cbn in Hn. by rewrite Heq, Z.eqb_refl in Hn.
Qed.

Lemma HasStage_spec r stage : stage ≠ 0%Z → HasStage r stage = true ↔ selected r stage.
Proof.
  intros Hz. unfold HasStage, StepFor, selected. rewrite Z.eqb_eq.
  destruct (step_at_spec stage (Steps r)) as [(s & -> & Hin & Hs)|[-> Hno]].
  - split; [eauto|]. done.
  - split; [cbn; congruence|]. intros (s & Hin & Hs). by destruct (Hno s).
Qed.

Lemma default_selected r stage : pr_Workflow r = [] → (1 ≤ stage ≤ 7)%Z → HasStage r stage = true.
Proof.
  intros Hw Hs. unfold HasStage, StepFor, Steps. rewrite Hw.
  assert (stage = 1 ∨ stage = 2 ∨ stage = 3 ∨ stage = 4 ∨ stage = 5 ∨ stage = 6 ∨ stage = 7)%Z
    as [->|[->|[->|[->|[->|[->| ->]]]]]] by lia; done.
Qed.

Lemma default_retryLimit r stage : pr_Workflow r = [] → retryLimit r stage = pr_MaxRetries r.
Proof.
  intros Hw. unfold retryLimit, StepFor, Steps. rewrite Hw.
  destruct (step_at_spec stage (DefaultWorkflow (pr_Roles r))) as [(s & -> & Hin & _)|[-> _]]; [|done].
  unfold DefaultWorkflow in Hin. set_unfold in Hin. naive_solver.
Qed.

Lemma Steps_sorted r : StronglySorted stage_le (Steps r).
Proof.
  unfold Steps. destruct (pr_Workflow r) as [|w ws]; [|apply (stable_sort_sorted stage_le)].
  unfold DefaultWorkflow.
  repeat (apply SSorted_cons; [|repeat (constructor; [unfold stage_le; vm_compute; discriminate|]); constructor]).
  apply SSorted_nil.
Qed.

(** The next selected stage is the current one when there is none after it. *)
Lemma next_selected_spec stage steps :
  StronglySorted stage_le steps →
  next_selected stage steps = stage
  ∨ (stage < next_selected stage steps)%Z ∧ ∃ s, s ∈ steps ∧ ws_Stage s = next_selected stage steps.
Proof.
  induction 1 as [|s steps Hsort IH Hle]; cbn [next_selected]; [by left|].
  destruct (Z.eqb_spec (ws_Stage s) stage) as [Heq|Hne].
  - destruct steps as [|n steps]; [by left|]. inversion Hle as [|? ? Hn _]. unfold stage_le in Hn.
    destruct (decide (ws_Stage n = stage)); [by left|]. right. split; [lia|]. exists n. set_solver.
  - destruct IH as [IH|(? & u & ? & ?)]; [by left|]. right. split; [done|]. exists u. set_solver.
Qed.

Lemma NextSelectedStage_spec r stage :
  NextSelectedStage r stage = stage
  ∨ (stage < NextSelectedStage r stage)%Z ∧ selected r (NextSelectedStage r stage).
Proof. apply next_selected_spec, Steps_sorted. Qed.

(** ** The edges *)

(** The evidence a stage must bring before the run moves on. *)
Definition ready (r : PipelineRun) (x : PipelineStepResult) : Prop :=
  (pr_PipelineStage r = PipelineDesign → blank (sr_DesignDoc x) = false ∧ awaits_approval r = false)
  ∧ (pr_PipelineStage r = PipelineDevelopment → blank (sr_CodeVersion x) = false)
  ∧ (pr_PipelineStage r = PipelineUnitTest → below_threshold r x = false).

Inductive Edge (r : PipelineRun) (x : PipelineStepResult) : Verdict → Prop :=
  | edge_stop reason :
      Edge r x {| vd_stage := pr_PipelineStage r; vd_status := PipelineSuspended; vd_reason := reason |}
  | edge_approval reason :
      pr_PipelineStage r = PipelineDesign → awaits_approval r = true →
      Edge r x {| vd_stage := PipelineDesign; vd_status := PipelineWaitingApproval; vd_reason := reason |}
  | edge_complete :
      pr_PipelineStage r = PipelineReport → sr_Outcome x = "pass" → blank (sr_Report x) = false →
      Edge r x {| vd_stage := PipelineReport; vd_status := PipelineCompleted; vd_reason := "" |}
  | edge_develop_again :
      pr_PipelineStage r = PipelineDevelopment → sr_Outcome x ≠ "pass" →
      (pr_RetryCount r < retryLimit r PipelineDevelopment)%Z →
      Edge r x {| vd_stage := PipelineDevelopment; vd_status := PipelineRunning; vd_reason := "" |}
  | edge_test_again :
      pr_PipelineStage r = PipelineUnitTest → sr_Outcome x ≠ "pass" ∨ below_threshold r x = true →
      (pr_UnitRetryCount r < retryLimit r PipelineUnitTest)%Z →
      Edge r x {| vd_stage := PipelineUnitTest; vd_status := PipelineRunning; vd_reason := "" |}
  | edge_arbitrate :
      pr_PipelineStage r = PipelineIntegration ∨ pr_PipelineStage r = PipelineRevalidation →
      sr_Outcome x ≠ "pass" → HasStage r PipelineArbitration = true →
      Edge r x {| vd_stage := PipelineArbitration; vd_status := PipelineRunning; vd_reason := "" |}
  | edge_redo :
      pr_PipelineStage r = PipelineIntegration → sr_Outcome x ≠ "pass" → pr_Workflow r ≠ [] →
      HasStage r PipelineArbitration = false → HasStage r PipelineDevelopment = true →
      (pr_RetryCount r < retryLimit r PipelineDevelopment)%Z →
      Edge r x {| vd_stage := PipelineDevelopment; vd_status := PipelineRunning; vd_reason := "" |}
  | edge_repair :
      pr_PipelineStage r = PipelineArbitration → sr_Outcome x = "pass" → HasStage r PipelineDevelopment = true →
      (pr_RetryCount r ≤ retryLimit r PipelineArbitration)%Z →
      Edge r x {| vd_stage := PipelineDevelopment; vd_status := PipelineRunning; vd_reason := "" |}
  | edge_unrepaired next :
      pr_PipelineStage r = PipelineArbitration → sr_Outcome x = "pass" → HasStage r PipelineDevelopment = false →
      (pr_RetryCount r ≤ retryLimit r PipelineArbitration)%Z →
      (PipelineArbitration < next)%Z → selected r next → next = NextSelectedStage r (pr_PipelineStage r) →
      Edge r x {| vd_stage := next; vd_status := PipelineRunning; vd_reason := "" |}
  | edge_forward next :
      pr_PipelineStage r ≠ PipelineArbitration → pr_PipelineStage r ≠ PipelineReport → sr_Outcome x = "pass" →
      ready r x → (pr_PipelineStage r < next)%Z → selected r next →
      (pr_Workflow r ≠ [] → next = NextSelectedStage r (pr_PipelineStage r)) →
      (pr_Workflow r = [] → next ≠ PipelineArbitration) →
      Edge r x {| vd_stage := next; vd_status := PipelineRunning; vd_reason := "" |}.

Lemma advance_edge r x :
  pr_PipelineStage r ≠ PipelineArbitration → pr_PipelineStage r ≠ PipelineReport → sr_Outcome x = "pass" →
  ready r x → pr_Workflow r ≠ [] →
  ∀ v, (let next := NextSelectedStage r (pr_PipelineStage r) in
        if (next =? pr_PipelineStage r)%Z && negb (pr_PipelineStage r =? PipelineReport)%Z
        then suspend (pr_PipelineStage r) "workflow has no subsequent stage" else go_on next) = Ok v → Edge r x v.
Proof.
  intros Ha Hr Hp Hready Hw v. cbn zeta.
  destruct (NextSelectedStage_spec r (pr_PipelineStage r)) as [Hn|[Hlt Hsel]].
  - rewrite Hn, Z.eqb_refl. apply Z.eqb_neq in Hr. rewrite Hr. cbn. intros [= <-]. apply edge_stop.
  - destruct (Z.eqb_spec (NextSelectedStage r (pr_PipelineStage r)) (pr_PipelineStage r)); [lia|].
    cbn. intros [= <-]. by apply edge_forward.
Qed.

Lemma unrepaired_edge r x :
  pr_PipelineStage r = PipelineArbitration → sr_Outcome x = "pass" → HasStage r PipelineDevelopment = false →
  (pr_RetryCount r ≤ retryLimit r PipelineArbitration)%Z →
  ∀ v, (let next := NextSelectedStage r (pr_PipelineStage r) in
        if (next =? pr_PipelineStage r)%Z && negb (pr_PipelineStage r =? PipelineReport)%Z
        then suspend (pr_PipelineStage r) "workflow has no subsequent stage" else go_on next) = Ok v → Edge r x v.
Proof.
  intros Ha Hp Hd Hle v. cbn zeta.
  destruct (NextSelectedStage_spec r (pr_PipelineStage r)) as [Hn|[Hlt Hsel]].
  - rewrite Hn, Z.eqb_refl, Ha. cbn. intros [= <-]. rewrite <- Ha. apply edge_stop.
  - destruct (Z.eqb_spec (NextSelectedStage r (pr_PipelineStage r)) (pr_PipelineStage r)); [lia|].
    cbn. intros [= <-]. apply edge_unrepaired; try done. by rewrite <- Ha.
Qed.

Lemma stage_cases s : PipelineStage_Valid s = true →
  s = PipelineDesign ∨ s = PipelineDevelopment ∨ s = PipelineUnitTest ∨ s = PipelineIntegration
  ∨ s = PipelineArbitration ∨ s = PipelineRevalidation ∨ s = PipelineReport.
Proof.
  rewrite stage_valid. unfold PipelineDesign, PipelineDevelopment, PipelineUnitTest, PipelineIntegration,
    PipelineArbitration, PipelineRevalidation, PipelineReport. lia.
Qed.

Ltac ready_tac :=
  unfold ready; split; [|split]; intros Hst;
  first
    [ by exfalso; match goal with E : pr_PipelineStage _ = _ |- _ => rewrite E in Hst; discriminate Hst end
    | try split; done ].

Lemma stop_edge r x current reason : pr_PipelineStage r = current →
  Edge r x {| vd_stage := current; vd_status := PipelineSuspended; vd_reason := reason |}.
Proof. intros <-. apply edge_stop. Qed.

(** Splits the conditions of [nextStage] down to one verdict, keeping them as hypotheses. *)
Ltac split_verdict :=
  repeat match goal with
  | |- (if ?b then _ else _) = Ok _ → _ =>
      lazymatch b with (_ && true) => fail | _ => let E := fresh "E" in destruct b eqn:E end
  end;
  repeat match goal with
  | H : (_ && _) = true |- _ => apply andb_true_iff in H as [? ?]
  | H : (_ <=? _)%Z = false |- _ => apply Z.leb_gt in H
  | H : (_ <? _)%Z = false |- _ => apply Z.ltb_ge in H
  | H : (_ <? _)%Z = true |- _ => apply Z.ltb_lt in H
  end.
Ltac verdict_tac Hadv Hunr :=
  first
    [ solve [intros ?; discriminate]
    | solve [intros [= <-]; by apply stop_edge]
    | solve [intros [= <-]; by apply edge_approval]
    | solve [intros [= <-]; by apply edge_complete]
    | solve [intros [= <-]; by apply edge_develop_again]
    | solve [intros [= <-]; apply edge_test_again; auto]
    | solve [intros [= <-]; apply edge_arbitrate; auto]
    | solve [intros [= <-]; by apply edge_redo]
    | solve [intros [= <-]; by apply edge_repair]
    | solve [apply Hadv; first [discriminate | ready_tac | done]]
    | solve [apply Hunr; done] ].

Ltac stage_split r x Hs :=
  destruct (stage_cases _ Hs) as [E|[E|[E|[E|[E|[E|E]]]]]]; rewrite E in *; cbn [Z.eqb Pos.eqb PipelineDesign
    PipelineDevelopment PipelineUnitTest PipelineIntegration PipelineArbitration PipelineRevalidation PipelineReport];
  destruct (decide (sr_Outcome x = "pass")) as [Hp|Hp];
    [rewrite (bool_decide_eq_true_2 _ Hp)|rewrite (bool_decide_eq_false_2 _ Hp)|rewrite (bool_decide_eq_true_2 _ Hp)
    |rewrite (bool_decide_eq_false_2 _ Hp)|rewrite (bool_decide_eq_true_2 _ Hp)|rewrite (bool_decide_eq_false_2 _ Hp)
    |rewrite (bool_decide_eq_true_2 _ Hp)|rewrite (bool_decide_eq_false_2 _ Hp)|rewrite (bool_decide_eq_true_2 _ Hp)
    |rewrite (bool_decide_eq_false_2 _ Hp)|rewrite (bool_decide_eq_true_2 _ Hp)|rewrite (bool_decide_eq_false_2 _ Hp)
    |rewrite (bool_decide_eq_true_2 _ Hp)|rewrite (bool_decide_eq_false_2 _ Hp)];
  cbn [negb andb orb].

Lemma custom_edge r x v :
  PipelineStage_Valid (pr_PipelineStage r) = true → pr_Workflow r ≠ [] → nextCustomStage r x = Ok v → Edge r x v.
Proof.
  intros Hs Hw. unfold nextCustomStage.
  pose proof (advance_edge r x) as Hadv. pose proof (unrepaired_edge r x) as Hunr.
  stage_split r x Hs; split_verdict; verdict_tac Hadv Hunr.
Qed.

Lemma default_forward r x next :
  pr_Workflow r = [] → pr_PipelineStage r ≠ PipelineArbitration → pr_PipelineStage r ≠ PipelineReport →
  sr_Outcome x = "pass" → ready r x → (pr_PipelineStage r < next ≤ 7)%Z → (1 ≤ pr_PipelineStage r)%Z →
  next ≠ PipelineArbitration → Edge r x {| vd_stage := next; vd_status := PipelineRunning; vd_reason := "" |}.
Proof.
  intros Hw Ha Hr Hp Hrd [Hlt H7] H1' Hn. apply edge_forward; try done.
  apply HasStage_spec; [lia|]. apply default_selected; [done|lia].
Qed.

Lemma default_edge r x v :
  PipelineStage_Valid (pr_PipelineStage r) = true → pr_Workflow r = [] → nextStage r x = Ok v → Edge r x v.
Proof.
  intros Hs Hw. unfold nextStage. rewrite Hw.
  pose proof (λ s, default_retryLimit r s Hw) as Hlim. pose proof (λ s, default_selected r s Hw) as Hsel.
  pose proof (default_forward r x) as Hfw.
  stage_split r x Hs; split_verdict.
  all: first
    [ verdict_tac I I
    | solve [intros [= <-]; apply Hfw; first [discriminate | ready_tac | done | lia]]
    | intros [= <-] ].
  - by apply edge_develop_again; rewrite ?Hlim.
  - apply edge_test_again; rewrite ?Hlim; auto.
  - apply edge_test_again; rewrite ?Hlim; auto.
  - apply edge_arbitrate; [auto|done|by apply Hsel].
  - apply edge_repair; rewrite ?Hlim; [done|done|by apply Hsel|done].
  - apply edge_arbitrate; [auto|done|by apply Hsel].
Qed.

(** The refinement: every verdict of [nextStage] is one of the edges. *)
Lemma nextStage_edge r x v : PipelineRun_Validate r = Ok tt → nextStage r x = Ok v → Edge r x v.
Proof.
  intros Hv Hn. assert (Hs : PipelineStage_Valid (pr_PipelineStage r) = true).
  { unfold PipelineRun_Validate in Hv. repeat (apply rbind_unit_Ok in Hv as [? Hv]).
    rewrite !reject_tt, ?negb_false_iff in *. done. }
  destruct (pr_Workflow r) as [|w ws] eqn:Ew.
  - by apply default_edge.
  - apply custom_edge; [done|by rewrite Ew|]. unfold nextStage in Hn. by rewrite Ew in Hn.
Qed.

(** ** One application *)

(** The run as [nextStage] sees it: evidence merged, session pinned, counters moved. *)
Definition prepared (r : PipelineRun) (x : PipelineStepResult) (session workDir : string) : PipelineRun :=
  merged r (merge_context (pr_Context r) x) session workDir (bump (counts_retry r x) (pr_RetryCount r))
    (bump (counts_unit_retry r x) (pr_UnitRetryCount r)).

Lemma Apply_inv now r x r' :
  Apply now r x = (r', Ok tt) →
  apply_guards r x = Ok tt ∧
  ∃ session workDir v,
    pin_session r x = Ok (session, workDir) ∧ nextStage (prepared r x session workDir) x = Ok v
    ∧ r' = advanced now (prepared r x session workDir) x v.
Proof.
  unfold Apply. destruct (apply_guards r x) as [[]|e]; [|done].
  destruct (pin_session r x) as [[s w]|e]; [|done].
  fold (prepared r x s w). destruct (nextStage _ x) as [v|e] eqn:En; [|done].
  intros [= <-]. split; [done|]. by exists s, w, v.
Qed.

(** A failing application changes evidence, session and counters at most. *)
Lemma Apply_failed now r x e :
  snd (Apply now r x) = Err e →
  fst (Apply now r x) = r
  ∨ ∃ session workDir retry unitRetry,
      fst (Apply now r x) = merged r (merge_context (pr_Context r) x) session workDir retry unitRetry.
Proof.
  unfold Apply. destruct (apply_guards r x) as [[]|e']; [|by left].
  destruct (pin_session r x) as [[s w]|e']; [|right; by eauto].
  fold (prepared r x s w). destruct (nextStage _ x) as [v|e'] eqn:En; [done|]. right. unfold prepared. by eauto 10.
Qed.

Lemma guards_inv r x : apply_guards r x = Ok tt →
  terminal_status (pr_Status r) = false ∧ sr_Stage x = pr_PipelineStage r
  ∧ sr_AgentID x = AgentFor r (pr_PipelineStage r) ∧ (sr_Outcome x = "pass" ∨ sr_Outcome x = "fail").
Proof.
  unfold apply_guards. intros Hg. repeat (apply rbind_unit_Ok in Hg as [? Hg]).
  rewrite !reject_tt in *. rewrite orb_false_iff, andb_false_iff, !negb_false_iff, !bool_decide_eq_true in *.
  rewrite Z.eqb_eq in *. naive_solver.
Qed.

Lemma pin_session_inv r x s w : pin_session r x = Ok (s, w) →
  if (pr_PipelineStage r =? PipelineDevelopment)%Z
  then s = sr_ProviderSessionID x ∧ w = sr_ProviderWorkDir x ∧ blank s = false ∧ blank w = false
       ∧ (pr_ParentSessionID r = "" ∨ pr_ParentSessionID r = s ∧ pr_ProviderWorkDir r = w)
  else s = pr_ParentSessionID r ∧ w = pr_ProviderWorkDir r.
Proof.
  unfold pin_session. destruct (_ =? _)%Z; [|by intros [= <- <-]].
  rewrite !rbind_unit_Ok, !reject_tt. intros (Hb & Hbw & Hp). revert Hp. case_bool_decide.
  - intros [= <- <-]. naive_solver.
  - rewrite !rbind_unit_Ok, !reject_tt, !negb_false_iff, !bool_decide_eq_true.
    intros (? & ? & [= <- <-]). repeat split; try congruence. naive_solver.
Qed.

Lemma Validate_stage r : PipelineRun_Validate r = Ok tt → PipelineStage_Valid (pr_PipelineStage r) = true.
Proof.
  unfold PipelineRun_Validate. intros Hv. repeat (apply rbind_unit_Ok in Hv as [? Hv]).
  rewrite !reject_tt, ?negb_false_iff in *. done.
Qed.

Lemma retryLimit_pos r stage : PipelineRun_Validate r = Ok tt → (1 ≤ retryLimit r stage)%Z.
Proof.
  unfold PipelineRun_Validate. intros Hv. repeat (apply rbind_unit_Ok in Hv as [? Hv]).
  rewrite !reject_tt, ?Z.ltb_ge in *. unfold retryLimit.
  destruct (Z.ltb_spec 0 (ws_RetryLimit (StepFor r stage))); lia.
Qed.

Lemma advanced_valid now r x v :
  PipelineRun_Validate r = Ok tt → PipelineStage_Valid (vd_stage v) = true →
  PipelineRun_Validate (advanced now r x v) = Ok tt.
Proof.
  intros Hv Hs. unfold PipelineRun_Validate in *. cbn [advanced pr_WorkspaceID pr_RequirementID pr_SessionID
    pr_PipelineStage pr_Workflow pr_Roles pr_MaxRetries pr_CoverageThreshold].
  rewrite Hs. rewrite !rbind_unit_Ok in *. naive_solver.
Qed.

Lemma selected_valid r stage : PipelineRun_Validate r = Ok tt → selected r stage → PipelineStage_Valid stage = true.
Proof.
  intros (Hgood & _ & _)%Validate_steps (s & Hin & <-). rewrite Forall_forall in Hgood. by apply Hgood.
Qed.

(** An edge ends at a selected stage. *)
Lemma edge_selected r x v : selected r (pr_PipelineStage r) → Edge r x v → selected r (vd_stage v).
Proof.
  intros Hs He. destruct He as [| | | | | | | | |]; cbn [vd_stage]; try done; try congruence.
  all: apply HasStage_spec; done.
Qed.

(** ** Well-formed runs *)

(** A run passes validation, is at a stage its workflow selects, and its history
    is numbered from one, leads edge by edge to the current stage, and carries one
    provider session and worktree through every development step; a completed run
    has its report. *)
Record wf_run (r : PipelineRun) : Prop := {
  wf_valid : PipelineRun_Validate r = Ok tt;
  wf_stage : selected r (pr_PipelineStage r);
  wf_numbered : ∀ i t, pr_History r !! i = Some t → pt_Sequence t = (Z.of_nat i + 1)%Z;
  wf_chained : ∀ i t u, pr_History r !! i = Some t → pr_History r !! Datatypes.S i = Some u → pt_To t = pt_From u;
  wf_last : ∀ t, last (pr_History r) = Some t → pt_To t = pr_PipelineStage r;
  wf_session : ∀ t, t ∈ pr_History r → pt_From t = PipelineDevelopment →
    pt_ProviderSessionID t = pr_ParentSessionID r ∧ pt_ProviderWorkDir t = pr_ProviderWorkDir r;
  wf_pinned : pr_ParentSessionID r ≠ "" → blank (pr_ParentSessionID r) = false ∧ blank (pr_ProviderWorkDir r) = false;
  wf_unpinned : pr_ParentSessionID r = "" → ∀ t, t ∈ pr_History r → pt_From t ≠ PipelineDevelopment;
  wf_completed : pr_Status r = PipelineCompleted →
    pr_PipelineStage r = PipelineReport ∧ blank (pr_FinalReport r) = false }.

(** The transition [Apply] appends. *)
Definition transition_of (now : Time) (r : PipelineRun) (x : PipelineStepResult) (v : Verdict) : PipelineTransition :=
  {| pt_Sequence := Z.of_nat (length (pr_History r)) + 1; pt_From := pr_PipelineStage r; pt_To := vd_stage v;
     pt_Outcome := sr_Outcome x; pt_AgentID := sr_AgentID x; pt_ProviderIssueID := sr_ProviderIssueID x;
     pt_ProviderTaskID := sr_ProviderTaskID x; pt_ProviderSessionID := sr_ProviderSessionID x;
     pt_ProviderWorkDir := sr_ProviderWorkDir x; pt_Summary := sr_Summary x; pt_CreatedAt := now |}.

Lemma history_snoc_numbered h t :
  (∀ i u, h !! i = Some u → pt_Sequence u = (Z.of_nat i + 1)%Z) → pt_Sequence t = (Z.of_nat (length h) + 1)%Z →
  ∀ i u, (h ++ [t]) !! i = Some u → pt_Sequence u = (Z.of_nat i + 1)%Z.
Proof.
  intros Hh Ht i u. rewrite lookup_app_Some. intros [Hi|[Hle Hi]]; [eauto|].
  apply list_lookup_singleton_Some in Hi as [Hi <-]. rewrite Ht. lia.
Qed.

Lemma history_snoc_chained h t :
  (∀ i u w, h !! i = Some u → h !! Datatypes.S i = Some w → pt_To u = pt_From w) →
  (∀ u, last h = Some u → pt_To u = pt_From t) →
  ∀ i u w, (h ++ [t]) !! i = Some u → (h ++ [t]) !! Datatypes.S i = Some w → pt_To u = pt_From w.
Proof.
  intros Hh Ht i u w. rewrite !lookup_app_Some. intros [Hi|[Hle Hi]] [Hj|[Hle' Hj]].
  - eauto.
  - apply list_lookup_singleton_Some in Hj as [Hj <-]. apply Ht. rewrite last_lookup.
    replace (Nat.pred (length h)) with i; [done|]. pose proof (lookup_lt_Some _ _ _ Hi). lia.
  - pose proof (lookup_lt_Some _ _ _ Hj). lia.
  - apply list_lookup_singleton_Some in Hi as [Hi _]. apply list_lookup_singleton_Some in Hj as [Hj _]. lia.
Qed.

(** The session a run is pinned to after a result, against the one before. *)
Lemma pinned_session r x s w :
  wf_run r → pin_session r x = Ok (s, w) →
  (s ≠ "" → blank s = false ∧ blank w = false)
  ∧ (∀ t, t ∈ pr_History r → pt_From t = PipelineDevelopment →
       pt_ProviderSessionID t = s ∧ pt_ProviderWorkDir t = w)
  ∧ (s = "" → ∀ t, t ∈ pr_History r → pt_From t ≠ PipelineDevelopment)
  ∧ (pr_PipelineStage r = PipelineDevelopment → s = sr_ProviderSessionID x ∧ w = sr_ProviderWorkDir x ∧ s ≠ "").
Proof.
  intros Hwf Hpin%pin_session_inv. revert Hpin. destruct (Z.eqb_spec (pr_PipelineStage r) PipelineDevelopment).
  - intros (Hs & Hw & Hbs & Hbw & Hold). assert (s ≠ "") by (intros ->; done).
    destruct Hold as [Hempty|[Hsame Hsame']].
    + repeat split; try done; destruct (wf_unpinned r Hwf Hempty _ ltac:(eassumption)); done.
    + subst s w. repeat split; try done; rewrite ?Hsame, ?Hsame'.
      * rewrite <- Hsame. by apply (wf_session r Hwf).
      * rewrite <- Hsame'. by apply (wf_session r Hwf).
  - intros [-> ->]. split; [apply (wf_pinned r Hwf)|]. split; [apply (wf_session r Hwf)|].
    split; [apply (wf_unpinned r Hwf)|done].
Qed.

Lemma merged_wf r c s w n m :
  wf_run r →
  (s ≠ "" → blank s = false ∧ blank w = false) →
  (∀ t, t ∈ pr_History r → pt_From t = PipelineDevelopment → pt_ProviderSessionID t = s ∧ pt_ProviderWorkDir t = w) →
  (s = "" → ∀ t, t ∈ pr_History r → pt_From t ≠ PipelineDevelopment) →
  wf_run (merged r c s w n m).
Proof. intros [] ? ? ?. split; done. Qed.

Lemma completed_edge r x v : Edge r x v → vd_status v = PipelineCompleted →
  vd_stage v = PipelineReport ∧ blank (sr_Report x) = false.
Proof. destruct 1; done. Qed.

Lemma advanced_wf now r x v :
  wf_run r → Edge r x v →
  (pr_PipelineStage r = PipelineDevelopment →
     pr_ParentSessionID r = sr_ProviderSessionID x ∧ pr_ProviderWorkDir r = sr_ProviderWorkDir x
     ∧ pr_ParentSessionID r ≠ "") →
  wf_run (advanced now r x v).
Proof.
  intros Hwf He Hdev. pose proof (edge_selected r x v (wf_stage r Hwf) He) as Hsel.
  split; cbn [advanced pr_History pr_PipelineStage pr_ParentSessionID pr_ProviderWorkDir pr_Status pr_FinalReport].
  - apply advanced_valid; [apply Hwf|]. apply (selected_valid r); [apply Hwf|done].
  - done.
  - apply history_snoc_numbered; [apply Hwf|done].
  - apply history_snoc_chained; [apply Hwf|]. intros u Hu. by rewrite (wf_last r Hwf u Hu).
  - intros t. rewrite last_snoc. by intros [= <-].
  - intros t [Hin|Hin]%elem_of_app Hfrom; [by apply (wf_session r Hwf)|].
    apply list_elem_of_singleton in Hin as ->. cbn in *. destruct (Hdev Hfrom) as (? & ? & ?). done.
  - apply Hwf.
  - intros Hempty t [Hin|Hin]%elem_of_app; [by apply (wf_unpinned r Hwf)|].
    apply list_elem_of_singleton in Hin as ->. cbn. intros Hfrom. by destruct (Hdev Hfrom) as (_ & _ & ?).
  - intros Hc. destruct (completed_edge r x v He Hc) as [-> ?]. by rewrite (bool_decide_eq_true_2 _ Hc).
Qed.

Lemma Apply_keeps_wf now r x : wf_run r → wf_run (fst (Apply now r x)).
Proof.
  intros Hwf. destruct (Apply now r x) as [r' res] eqn:Ea. destruct res as [[]|e].
  - destruct (Apply_inv _ _ _ _ Ea) as (_ & s & w & v & Hpin & Hn & ->).
    destruct (pinned_session r x s w Hwf Hpin) as (Hb & Hses & Hun & Hdev).
    apply advanced_wf; [by apply merged_wf| |done].
    apply nextStage_edge; [apply Hwf|done].
  - cbn [fst]. unfold Apply in Ea. destruct (apply_guards r x) as [[]|]; [|by simplify_eq].
    destruct (pin_session r x) as [[s w]|] eqn:Hpin.
    + destruct (pinned_session r x s w Hwf Hpin) as (Hb & Hses & Hun & Hdev).
      destruct (nextStage _ x); simplify_eq. by apply merged_wf.
    + simplify_eq. apply merged_wf; [done|apply Hwf..].
Qed.

(** The results that spend a repair: a failed development, an arbitration that
    orders one, and a failed integration where no arbitration is selected. *)
Definition repair_round (r : PipelineRun) (x : PipelineStepResult) : Prop :=
  (pr_PipelineStage r = PipelineDevelopment ∧ sr_Outcome x = "fail")
  ∨ (pr_PipelineStage r = PipelineArbitration ∧ sr_Outcome x = "pass")
  ∨ (pr_PipelineStage r = PipelineIntegration ∧ sr_Outcome x = "fail" ∧ pr_Workflow r ≠ []
     ∧ HasStage r PipelineArbitration = false).
(** The results that spend a unit-test round: a failure or too little coverage. *)
Definition test_round (r : PipelineRun) (x : PipelineStepResult) : Prop :=
  pr_PipelineStage r = PipelineUnitTest ∧ (sr_Outcome x = "fail" ∨ below_threshold r x = true).

Lemma counts_retry_true r x :
  counts_retry r x = true ↔ repair_round r x.
Proof.
  unfold counts_retry, repair_round. rewrite !orb_true_iff, !andb_true_iff, !bool_decide_eq_true, !Z.eqb_eq, negb_true_iff.
  assert ((0 <? length (pr_Workflow r))%nat = true ↔ pr_Workflow r ≠ []) as ->.
  { destruct (pr_Workflow r); cbn; naive_solver. }
  naive_solver.
Qed.

Lemma counts_unit_true r x :
  counts_unit_retry r x = true ↔ test_round r x.
Proof. unfold counts_unit_retry, test_round. by rewrite andb_true_iff, orb_true_iff, bool_decide_eq_true, Z.eqb_eq. Qed.

Lemma bump_cases (b : bool) (P : Prop) n :
  (b = true ↔ P) → (P → bump b n = add64 n 1) ∧ (¬ P → bump b n = n).
Proof. intros HP. destruct b; simpl; naive_solver. Qed.

(** C25: Whatever result is applied, by whichever agent, accepted or refused, a
    well-formed run stays well formed: it still passes [Validate], sits at a stage
    its workflow selects, its history is numbered and chained up to that stage,
    every development step in it used the same provider session and worktree, and
    a completed run is at the report stage with its report.  An accepted result
    leaves the run running, waiting for approval, suspended or completed, and
    moves each counter exactly when it should: the repair counter by one for a
    failed development, a granted arbitration or a failed integration without
    arbitration, the unit-test counter by one for a failed or insufficient unit
    test, and neither otherwise. *)
Theorem Apply_wf now r x :
  wf_run r →
  wf_run (fst (Apply now r x))
  ∧ (snd (Apply now r x) = Ok tt →
     let r' := fst (Apply now r x) in
     pr_Status r' ∈ [PipelineRunning; PipelineWaitingApproval; PipelineSuspended; PipelineCompleted]
     ∧ (repair_round r x → pr_RetryCount r' = add64 (pr_RetryCount r) 1)
     ∧ (¬ repair_round r x → pr_RetryCount r' = pr_RetryCount r)
     ∧ (test_round r x → pr_UnitRetryCount r' = add64 (pr_UnitRetryCount r) 1)
     ∧ (¬ test_round r x → pr_UnitRetryCount r' = pr_UnitRetryCount r)).
Proof.
  intros Hwf. split; [by apply Apply_keeps_wf|]. destruct (Apply now r x) as [r' res] eqn:Ea. cbn [fst snd]. intros ->.
  destruct (Apply_inv _ _ _ _ Ea) as (_ & s & w & v & _ & Hn & ->). split.
  - apply nextStage_edge in Hn; [|apply Hwf]. cbn [advanced pr_Status].
    destruct Hn; cbn [vd_status]; rewrite !elem_of_cons; auto.
  - destruct (bump_cases _ _ (pr_RetryCount r) (counts_retry_true r x)),
      (bump_cases _ _ (pr_UnitRetryCount r) (counts_unit_true r x)). by split_and!.
Qed.

(** ** Evidence *)

(** Nothing recorded in the first run is lost or replaced in the second. *)
Record evidence_kept (r r' : PipelineRun) : Prop := {
  ek_baseline : pc_BaselineCommit (pr_Context r) ≠ "" →
    pc_BaselineCommit (pr_Context r') = pc_BaselineCommit (pr_Context r);
  ek_requirement : pc_RequirementText (pr_Context r') = pc_RequirementText (pr_Context r);
  ek_passed : pc_PassedTests (pr_Context r) `prefix_of` pc_PassedTests (pr_Context r');
  ek_failed : pc_FailedTests (pr_Context r) `prefix_of` pc_FailedTests (pr_Context r');
  ek_logs : pc_ErrorLogs (pr_Context r) `prefix_of` pc_ErrorLogs (pr_Context r');
  ek_notes : pc_RepairNotes (pr_Context r) `prefix_of` pc_RepairNotes (pr_Context r');
  ek_history : pr_History r `prefix_of` pr_History r';
  ek_session : pr_ParentSessionID r ≠ "" →
    pr_ParentSessionID r' = pr_ParentSessionID r ∧ pr_ProviderWorkDir r' = pr_ProviderWorkDir r }.

#[global] Instance evidence_kept_preorder : PreOrder evidence_kept.
Proof.
  split.
  - intros r. by split.
  - intros a b c Hab Hbc. destruct Hab as [Hbase Hreq ? ? ? ? ? Hses], Hbc as [Hbase' Hreq' ? ? ? ? ? Hses'].
    split; [|congruence| by etrans..|].
    + intros Hne. rewrite Hbase'; rewrite Hbase; done.
    + intros Hne. destruct (Hses Hne) as [E E']. rewrite <- E, <- E'. apply Hses'. congruence.
Qed.

Lemma merge_kept r x s w n m :
  (pr_ParentSessionID r ≠ "" → s = pr_ParentSessionID r ∧ w = pr_ProviderWorkDir r) →
  evidence_kept r (merged r (merge_context (pr_Context r) x) s w n m).
Proof.
  intros Hses. split; cbn [merged merge_context pr_Context pr_History pr_ParentSessionID pr_ProviderWorkDir
    pc_BaselineCommit pc_RequirementText pc_PassedTests pc_FailedTests pc_ErrorLogs pc_RepairNotes]; try done.
  2-5: apply prefix_app_r; reflexivity.
  intros Hne. by rewrite (bool_decide_eq_false_2 _ Hne), andb_false_r.
Qed.

Lemma advanced_kept now r x v : evidence_kept r (advanced now r x v).
Proof. split; try done. cbn [advanced pr_History]. by apply prefix_app_r. Qed.

Lemma pin_session_kept r x s w : pin_session r x = Ok (s, w) →
  pr_ParentSessionID r ≠ "" → s = pr_ParentSessionID r ∧ w = pr_ProviderWorkDir r.
Proof. intros Hpin%pin_session_inv Hne. revert Hpin. destruct (_ =? _)%Z; naive_solver. Qed.

Lemma Apply_kept now r x : evidence_kept r (fst (Apply now r x)).
Proof.
  unfold Apply. destruct (apply_guards r x) as [[]|e]; [|by cbn].
  destruct (pin_session r x) as [[s w]|e] eqn:Hpin; [|by apply merge_kept].
  pose proof (pin_session_kept r x s w Hpin) as Hses.
  destruct (nextStage _ x) as [v|e]; cbn [fst]; [etrans; [|apply advanced_kept]|]; by apply merge_kept.
Qed.

(** A caller that applies a list of results, keeping the run each one returns. *)
Definition apply_each (r : PipelineRun) (xs : list (Time * PipelineStepResult)) : PipelineRun :=
  foldl (λ r nx, fst (Apply (fst nx) r (snd nx))) r xs.

(** C39: [Apply] never replaces previous evidence: over any sequence of results,
    accepted or refused, the first baseline commit stays, the failed and passed
    tests, error logs, repair notes and transitions only grow at the end, and a
    pinned session and worktree never change. *)
Theorem evidence_permanent r xs : evidence_kept r (apply_each r xs).
Proof.
  revert r. induction xs as [|[now x] xs IH]; intros r; [done|].
  cbn [apply_each foldl fst snd]. etrans; [apply Apply_kept|apply IH].
Qed.

(** ** How many results a run accepts *)

(** The runs reached by accepted results. *)
Inductive Accepted : PipelineRun → list (Time * PipelineStepResult) → PipelineRun → Prop :=
  | accepted_none r : Accepted r [] r
  | accepted_next now r x r1 xs r2 :
      Apply now r x = (r1, Ok tt) → Accepted r1 xs r2 → Accepted r ((now, x) :: xs) r2.

(** The largest retry limit that applies to the run. *)
Definition retry_bound (r : PipelineRun) : Z :=
  Z.max (retryLimit r PipelineDevelopment) (Z.max (retryLimit r PipelineUnitTest) (retryLimit r PipelineArbitration)).

(** Position of a stage on the way to the report: revalidation may fall back to arbitration. *)
Definition rank (stage : Z) : Z :=
  if (stage =? PipelineArbitration)%Z then 2 else if (stage =? PipelineRevalidation)%Z then 3
  else if (stage =? PipelineReport)%Z then 1 else (8 - stage).

(** What is left to the run: it falls with every accepted result. *)
Definition potential (r : PipelineRun) : Z :=
  (if terminal_status (pr_Status r) then 0
   else 5 * (retry_bound r + 1 - pr_RetryCount r) + (retry_bound r - pr_UnitRetryCount r) + rank (pr_PipelineStage r))%Z.

(** Counters are within the limits while a run is live. *)
Record counted (r : PipelineRun) : Prop := {
  ct_fits : (retry_bound r < two63 - 1)%Z;
  ct_retry : (0 ≤ pr_RetryCount r)%Z; ct_unit : (0 ≤ pr_UnitRetryCount r)%Z;
  ct_live : terminal_status (pr_Status r) = false →
    (pr_RetryCount r ≤ retry_bound r ∧ pr_UnitRetryCount r ≤ retry_bound r)%Z;
  ct_approved : awaits_approval r = false }.

Lemma rank_range s : (1 ≤ s ≤ 7)%Z → (1 ≤ rank s ≤ 7)%Z.
Proof.
  unfold rank, PipelineArbitration, PipelineRevalidation, PipelineReport. intros Hs.
  repeat case_match; lia.
Qed.

Lemma bump_ge b n bound : (0 ≤ n ≤ bound)%Z → (bound < two63 - 1)%Z → bump b n = (n + if b then 1 else 0)%Z.
Proof.
  intros Hn Hb. unfold bump. destruct b; [|lia]. unfold add64. rewrite wrap64_id; [done|]. unfold int64_range. unfold two63 in *. lia.
Qed.

(** The counters of a result, by the stage it is for. *)
Ltac count_cases r x :=
  let Hr := fresh "Hr" in let Hu := fresh "Hu" in
  destruct (counts_retry r x) eqn:Hr;
    [apply counts_retry_true in Hr|apply not_true_iff_false in Hr; rewrite counts_retry_true in Hr];
  (destruct (counts_unit_retry r x) eqn:Hu;
    [apply counts_unit_true in Hu|apply not_true_iff_false in Hu; rewrite counts_unit_true in Hu]).

Definition spent (b : bool) : Z := if b then 1 else 0.

(** Workflow, limits and thresholds are those of the run before the merge. *)
Ltac unprepare :=
  repeat match goal with
  | H : context [retryLimit (prepared ?r ?x ?s ?w) ?k] |- _ =>
      change (retryLimit (prepared r x s w) k) with (retryLimit r k) in H
  | H : context [HasStage (prepared ?r ?x ?s ?w) ?k] |- _ =>
      change (HasStage (prepared r x s w) k) with (HasStage r k) in H
  | H : context [below_threshold (prepared ?r ?x ?s ?w) ?y] |- _ =>
      change (below_threshold (prepared r x s w) y) with (below_threshold r y) in H
  end.

(** A live edge, in terms of the run before the counters moved. *)
Lemma edge_spends r x s w v :
  (1 ≤ pr_PipelineStage r ≤ 7)%Z → counted r → terminal_status (pr_Status r) = false →
  (sr_Outcome x = "pass" ∨ sr_Outcome x = "fail") →
  Edge (prepared r x s w) x v → vd_status v = PipelineRunning → PipelineStage_Valid (vd_stage v) = true →
  (pr_RetryCount r + spent (counts_retry r x) ≤ retry_bound r)%Z
  ∧ (pr_UnitRetryCount r + spent (counts_unit_retry r x) ≤ retry_bound r)%Z
  ∧ (rank (vd_stage v) < rank (pr_PipelineStage r) + 5 * spent (counts_retry r x) + spent (counts_unit_retry r x))%Z.
Proof.
  intros Hstage [Hfits HR HU Hlive Happ] Ht Hout He Hrun Hv'%stage_valid. destruct (Hlive Ht) as [HRb HUb].
  pose proof (bump_ge (counts_retry r x) (pr_RetryCount r) (retry_bound r) ltac:(lia) Hfits) as HbR.
  pose proof (bump_ge (counts_unit_retry r x) (pr_UnitRetryCount r) (retry_bound r) ltac:(lia) Hfits) as HbU.
  fold (spent (counts_retry r x)) in HbR. fold (spent (counts_unit_retry r x)) in HbU.
  assert (retryLimit r PipelineDevelopment ≤ retry_bound r)%Z by (unfold retry_bound; lia).
  assert (retryLimit r PipelineUnitTest ≤ retry_bound r)%Z by (unfold retry_bound; lia).
  assert (retryLimit r PipelineArbitration ≤ retry_bound r)%Z by (unfold retry_bound; lia).
  inversion He as [| | |Hs Hp Hl|Hs Hp Hl|Hs Hp Hh|Hs Hp Hw Hh Hd Hl|Hs Hp Hh Hl|n Hs Hp Hh Hl Hlt Hsel Hn|
    n Hs Hs' Hp Hrd Hlt Hsel Hn Hn']; subst v; try discriminate; clear He Hrun;
    cbn [prepared merged pr_PipelineStage pr_RetryCount pr_UnitRetryCount vd_stage pr_Workflow] in *;
    rewrite ?HbR, ?HbU in *.
  all: unprepare.
  all: count_cases r x; unfold repair_round, test_round in *; cbn [spent] in *.
  all: unfold rank, PipelineDesign, PipelineDevelopment, PipelineUnitTest, PipelineIntegration, PipelineArbitration,
    PipelineRevalidation, PipelineReport in *.
  all: split; [|split]; repeat case_match; repeat match goal with H : (_ =? _)%Z = _ |- _ => first [apply Z.eqb_eq in H|apply Z.eqb_neq in H] end;
    try lia.
  all: exfalso; try (unfold ready in Hrd; unprepare; cbn [prepared merged pr_PipelineStage] in Hrd);
    unfold PipelineUnitTest in *; clear HbR HbU Hlive Hfits; intuition (lia || congruence).
Qed.

Lemma edge_status r x v : Edge r x v → awaits_approval r = false →
  vd_status v = PipelineRunning ∨ terminal_status (vd_status v) = true.
Proof. destruct 1; intros Hno; try (by left); try (by right). congruence. Qed.

Lemma potential_live r : PipelineRun_Validate r = Ok tt → counted r → terminal_status (pr_Status r) = false →
  (0 < potential r)%Z.
Proof.
  intros Hv%Validate_stage%stage_valid%rank_range [_ _ _ Hlive _] Ht. destruct (Hlive Ht).
  unfold potential. rewrite Ht. lia.
Qed.

Lemma potential_nonneg r : PipelineRun_Validate r = Ok tt → counted r → (0 ≤ potential r)%Z.
Proof.
  intros Hv Hc. destruct (terminal_status (pr_Status r)) eqn:Ht.
  - unfold potential. rewrite Ht. lia.
  - pose proof (potential_live r Hv Hc Ht). lia.
Qed.

Lemma Apply_spends now r x r' :
  wf_run r → counted r → Apply now r x = (r', Ok tt) → counted r' ∧ (potential r' < potential r)%Z.
Proof.
  intros Hwf Hc Ha. destruct (Apply_inv _ _ _ _ Ha) as (Hg & s & w & v & Hpin & Hn & ->).
  destruct (guards_inv _ _ Hg) as (Ht & Hst & _ & Hout).
  assert (He : Edge (prepared r x s w) x v) by (apply nextStage_edge; [apply Hwf|done]).
  pose proof (Validate_stage r (wf_valid r Hwf)) as Hstage. apply stage_valid in Hstage.
  pose proof (edge_selected (prepared r x s w) x v (wf_stage r Hwf) He) as Hsel.
  pose proof (selected_valid r _ (wf_valid r Hwf) Hsel) as Hsv.
  pose proof (potential_live r (wf_valid r Hwf) Hc Ht) as Hpos.
  pose proof Hc as [Hfits HR HU Hlive Happ]. destruct (Hlive Ht) as [HRb HUb].
  pose proof (bump_ge (counts_retry r x) (pr_RetryCount r) (retry_bound r) ltac:(lia) Hfits) as HbR.
  pose proof (bump_ge (counts_unit_retry r x) (pr_UnitRetryCount r) (retry_bound r) ltac:(lia) Hfits) as HbU.
  set (r' := advanced now (prepared r x s w) x v).
  change (bump (counts_retry r x) (pr_RetryCount r)) with (pr_RetryCount r') in HbR.
  change (bump (counts_unit_retry r x) (pr_UnitRetryCount r)) with (pr_UnitRetryCount r') in HbU.
  destruct (edge_status _ _ _ He Happ) as [Hrun|Hterm].
  - destruct (edge_spends r x s w v Hstage Hc Ht Hout He Hrun Hsv) as (HR' & HU' & Hrank). unfold spent in *.
    assert (Ht' : terminal_status (pr_Status r') = false) by (cbn; by rewrite Hrun).
    split; [split; [exact Hfits|destruct (counts_retry r x); lia|destruct (counts_unit_retry r x); lia| |exact Happ]|].
    { intros _. change (retry_bound r') with (retry_bound r). lia. }
    unfold potential. rewrite Ht, Ht'. change (retry_bound r') with (retry_bound r).
    change (pr_PipelineStage r') with (vd_stage v). lia.
  - assert (Ht' : terminal_status (pr_Status r') = true) by done.
    split; [split; [exact Hfits|destruct (counts_retry r x); lia|destruct (counts_unit_retry r x); lia|
      by rewrite Ht'|exact Happ]|].
    unfold potential at 1. by rewrite Ht'.
Qed.

Lemma accepted_potential r xs r' :
  wf_run r → counted r → Accepted r xs r' → (Z.of_nat (length xs) + potential r' ≤ potential r)%Z.
Proof.
  intros Hwf Hc Hacc. induction Hacc as [r|now r x r1 xs r2 Ha Hacc IH]; cbn [length]; [lia|].
  destruct (Apply_spends _ _ _ _ Hwf Hc Ha) as [Hc1 Hlt].
  pose proof (Apply_keeps_wf now r x Hwf) as Hwf1. rewrite Ha in Hwf1. specialize (IH Hwf1 Hc1). lia.
Qed.

Lemma accepted_wf r xs r' : wf_run r → Accepted r xs r' → wf_run r'.
Proof.
  intros Hwf Hacc. induction Hacc as [r|now r x r1 xs r2 Ha Hacc IH]; [done|].
  apply IH. pose proof (Apply_keeps_wf now r x Hwf) as Hwf1. by rewrite Ha in Hwf1.
Qed.

Lemma accepted_counted r xs r' : wf_run r → counted r → Accepted r xs r' → counted r'.
Proof.
  intros Hwf Hc Hacc. induction Hacc as [r|now r x r1 xs r2 Ha Hacc IH]; [done|].
  pose proof (Apply_keeps_wf now r x Hwf) as Hwf1. rewrite Ha in Hwf1.
  apply IH; [done|]. by apply (Apply_spends now r x r1).
Qed.

(** C26: The delivery loop is bounded.  A run that does not wait for a design
    approval accepts at most six times its largest retry limit plus twelve results,
    whatever the agents answer and whichever stages were selected, counting the
    repair loops through arbitration and the repeats of development and unit tests;
    no counter overflows on the way. *)
Theorem accepted_bounded r xs r' :
  wf_run r → counted r → Accepted r xs r' →
  (Z.of_nat (length xs) ≤ 6 * retry_bound r + 12)%Z ∧ counted r'.
Proof.
  intros Hwf Hc Hacc. split; [|by eapply accepted_counted].
  pose proof (accepted_potential r xs r' Hwf Hc Hacc) as Hle.
  pose proof (potential_nonneg r' (wf_valid _ (accepted_wf _ _ _ Hwf Hacc)) (accepted_counted _ _ _ Hwf Hc Hacc)).
  pose proof (Validate_stage r (wf_valid r Hwf)) as Hs%stage_valid%rank_range.
  pose proof (retryLimit_pos r PipelineDevelopment (wf_valid r Hwf)).
  assert (1 ≤ retry_bound r)%Z by (unfold retry_bound; lia).
  destruct Hc as [_ HR HU _ _]. unfold potential in Hle at 2. destruct (terminal_status (pr_Status r)); lia.
Qed.

(** ** Which workflows complete *)

Lemma next_selected_absent stage steps :
  Forall (λ s, ws_Stage s ≠ stage) steps → next_selected stage steps = stage.
Proof. induction 1 as [|s steps Hs _ IH]; cbn; [done|]. by rewrite (proj2 (Z.eqb_neq _ _) Hs). Qed.

(** No selected stage lies between a stage and its successor. *)
Lemma next_selected_le stage steps s :
  StronglySorted stage_le steps → s ∈ steps → (stage < ws_Stage s)%Z → (next_selected stage steps ≤ ws_Stage s)%Z.
Proof.
  induction 1 as [|u steps Hsort IH Hle]; cbn [next_selected]; [set_solver|].
  rewrite elem_of_cons. intros Hs Hlt. destruct (Z.eqb_spec (ws_Stage u) stage) as [Heq|Hne].
  - destruct Hs as [->|Hs]; [lia|]. destruct steps as [|n steps]; [lia|].
    apply elem_of_cons in Hs as [->|Hs]; [lia|]. inversion Hsort as [|? ? _ Hn].
    rewrite Forall_forall in Hn. by apply (Hn s).
  - destruct Hs as [->|Hs]; [|by apply IH]. rewrite next_selected_absent; [lia|].
    eapply Forall_impl; [exact Hle|]. intros v. unfold stage_le. lia.
Qed.

(** A selected stage that is not the last one has a successor. *)
Lemma next_selected_gt stage steps s :
  StronglySorted stage_le steps → NoDup (map ws_Stage steps) → stage ∈ map ws_Stage steps →
  s ∈ steps → (stage < ws_Stage s)%Z → (stage < next_selected stage steps)%Z.
Proof.
  induction 1 as [|u steps Hsort IH Hle]; cbn [next_selected map]; [set_solver|].
  intros Hnd%NoDup_cons Hstage Hs Hlt. destruct Hnd as [Hnew Hnd].
  destruct (Z.eqb_spec (ws_Stage u) stage) as [Heq|Hne].
  - apply elem_of_cons in Hs as [->|Hs]; [lia|]. destruct steps as [|n steps]; [set_solver|].
    inversion Hle as [|? ? Hn _]. unfold stage_le in Hn. cbn in Hnew. rewrite elem_of_cons in Hnew.
    destruct (decide (ws_Stage u = ws_Stage n)); [tauto|lia].
  - apply elem_of_cons in Hs as [->|Hs].
    + exfalso. apply elem_of_cons in Hstage as [?|Hin]; [congruence|].
      apply list_elem_of_fmap in Hin as (v & -> & Hv). rewrite Forall_forall in Hle. specialize (Hle v Hv).
      unfold stage_le in Hle. lia.
    + apply IH; [done| |done|done]. apply elem_of_cons in Hstage as [?|?]; [congruence|done].
Qed.

Lemma custom_below_arbitration r x v :
  pr_Workflow r ≠ [] → HasStage r PipelineDevelopment = true → HasStage r PipelineArbitration = true →
  (pr_PipelineStage r ≤ PipelineArbitration)%Z → Edge r x v →
  (vd_stage v ≤ PipelineArbitration)%Z ∧ vd_status v ≠ PipelineCompleted.
Proof.
  intros Hw Hd Ha Hle He. inversion He as [| |Hs| | | | | |n Hs Hp Hh|n Hs Hs' Hp Hrd Hlt Hsel Hn Hn']; subst v;
    cbn [vd_stage vd_status]; unfold PipelineArbitration, PipelineDevelopment, PipelineReport, PipelineDesign,
      PipelineUnitTest in *; (split; [|done || lia]); try lia; try congruence.
  apply HasStage_spec in Ha as (s & Hin & Hst); [|done].
  rewrite (Hn Hw), <- Hst. apply next_selected_le; [apply Steps_sorted|done|lia].
Qed.

(** A custom workflow that selects both development and arbitration cannot
    complete: a passing integration test is followed by the next selected stage,
    arbitration, which always sends the run back to development. *)
Theorem custom_repair_never_completes r xs r' :
  wf_run r → pr_Workflow r ≠ [] → HasStage r PipelineDevelopment = true → HasStage r PipelineArbitration = true →
  (pr_PipelineStage r ≤ PipelineArbitration)%Z → pr_Status r ≠ PipelineCompleted →
  Accepted r xs r' → pr_Status r' ≠ PipelineCompleted.
Proof.
  intros Hwf Hw Hd Ha Hle Hst Hacc. induction Hacc as [r|now r x r1 xs r2 Happ Hacc IH]; [done|].
  pose proof (Apply_keeps_wf now r x Hwf) as Hwf1. rewrite Happ in Hwf1.
  destruct (Apply_inv _ _ _ _ Happ) as (_ & s & w & v & _ & Hn & ->).
  pose proof (nextStage_edge (prepared r x s w) x v (wf_valid r Hwf) Hn) as He.
  destruct (custom_below_arbitration (prepared r x s w) _ _ Hw Hd Ha Hle He) as [Hle' Hst'].
  by apply IH.
Qed.

(** The result of an agent that does all a stage asks for. *)
Definition passing (r : PipelineRun) : PipelineStepResult :=
  let pinned := pr_ParentSessionID r ≠? "" in
  {| sr_Stage := pr_PipelineStage r; sr_AgentID := AgentFor r (pr_PipelineStage r); sr_Outcome := "pass";
     sr_Summary := ""; sr_DesignDoc := "design"; sr_CodeVersion := "commit"; sr_Coverage := hundred;
     sr_PassedTests := []; sr_FailedTests := []; sr_ErrorLog := ""; sr_RepairNote := ""; sr_Report := "report";
     sr_ProviderIssueID := ""; sr_ProviderTaskID := "";
     sr_ProviderSessionID := if pinned then pr_ParentSessionID r else "session";
     sr_ProviderWorkDir := if pinned then pr_ProviderWorkDir r else "/work" |}.

Lemma AgentFor_selected r stage : PipelineRun_Validate r = Ok tt → selected r stage → blank (AgentFor r stage) = false.
Proof.
  intros (Hgood & _ & _)%Validate_steps (s & Hin & Hs). unfold AgentFor, StepFor.
  destruct (step_at_spec stage (Steps r)) as [(u & -> & Hu & _)|[_ Hno]]; [|by destruct (Hno s)].
  rewrite Forall_forall in Hgood. destruct (Hgood u Hu) as (_ & Hb & _). cbn zeta.
  rewrite (bool_decide_eq_false_2 (ws_AgentID u = "")); [done|]. intros E. by rewrite E in Hb.
Qed.

Lemma passing_guards r : wf_run r → terminal_status (pr_Status r) = false → apply_guards r (passing r) = Ok tt.
Proof.
  intros Hwf Ht. unfold apply_guards. rewrite Ht. cbn [passing sr_Stage sr_AgentID sr_Outcome reject rbind].
  rewrite Z.eqb_refl, (AgentFor_selected r _ (wf_valid r Hwf) (wf_stage r Hwf)).
  by rewrite (bool_decide_eq_true_2 (AgentFor _ _ = _)).
Qed.

Lemma passing_pins r : wf_run r → ∃ s w, pin_session r (passing r) = Ok (s, w).
Proof.
  intros Hwf. unfold pin_session. destruct (_ =? _)%Z; [|by eauto].
  cbn [passing sr_ProviderSessionID sr_ProviderWorkDir].
  destruct (decide (pr_ParentSessionID r = "")) as [E|E].
  - rewrite !(bool_decide_eq_true_2 _ E). cbn. eauto.
  - rewrite !(bool_decide_eq_false_2 _ E). cbn [negb]. destruct (wf_pinned r Hwf E) as [-> ->].
    rewrite !bool_decide_eq_true_2 by done. cbn. eauto.
Qed.

Lemma passing_covers r s w : wf_run r → below_threshold (prepared r (passing r) s w) (passing r) = false.
Proof.
  intros Hwf. pose proof (wf_valid r Hwf) as Hv. unfold PipelineRun_Validate in Hv.
  repeat (apply rbind_unit_Ok in Hv as [? Hv]). apply reject_tt, orb_false_iff in Hv as [_ Hv]. exact Hv.
Qed.

(** Selections whose repair loop can be left. *)
Definition completable (r : PipelineRun) : Prop :=
  pr_Workflow r = [] ∨ HasStage r PipelineDevelopment = false ∨ HasStage r PipelineArbitration = false.

(** There is room for one more repair where a passing run may meet arbitration. *)
Definition room (r : PipelineRun) : Prop :=
  pr_PipelineStage r = PipelineArbitration ∨ (pr_Workflow r ≠ [] ∧ (pr_PipelineStage r < PipelineArbitration)%Z) →
  (0 ≤ pr_RetryCount r < retryLimit r PipelineArbitration ∧ retryLimit r PipelineArbitration < two63)%Z.

Definition moves_on (r : PipelineRun) (v : Verdict) : Prop :=
  if (pr_PipelineStage r =? PipelineReport)%Z then vd_status v = PipelineCompleted
  else vd_status v = PipelineRunning ∧ (pr_Workflow r = [] → vd_stage v ≠ PipelineArbitration)
       ∧ ((pr_PipelineStage r < vd_stage v)%Z
          ∨ pr_Workflow r = [] ∧ pr_PipelineStage r = PipelineArbitration ∧ vd_stage v = PipelineDevelopment).

Lemma passing_bump r : wf_run r → room r → pr_PipelineStage r = PipelineArbitration →
  (bump (counts_retry r (passing r)) (pr_RetryCount r) ≤ retryLimit r PipelineArbitration)%Z.
Proof.
  intros Hwf Hroom E. destruct (Hroom (or_introl E)) as [HRC Hfit].
  assert (counts_retry r (passing r) = true) as -> by (apply counts_retry_true; unfold repair_round; auto).
  unfold bump, add64. rewrite wrap64_id; [lia|]. unfold int64_range. unfold two63 in *. lia.
Qed.

Lemma passing_default r s w : wf_run r → awaits_approval r = false → room r → pr_Workflow r = [] →
  ∃ v, nextStage (prepared r (passing r) s w) (passing r) = Ok v ∧ moves_on r v.
Proof.
  intros Hwf Hap Hroom Hw. pose proof (passing_covers r s w Hwf) as Hcov.
  pose proof (passing_bump r Hwf Hroom) as Hbump. rewrite (default_retryLimit r _ Hw) in Hbump.
  pose proof (Validate_stage r (wf_valid r Hwf)) as Hs. unfold nextStage, moves_on.
  change (pr_Workflow (prepared r (passing r) s w)) with (pr_Workflow r). rewrite Hw, Hcov.
  change (awaits_approval (prepared r (passing r) s w)) with (awaits_approval r). rewrite Hap.
  change (pr_PipelineStage (prepared r (passing r) s w)) with (pr_PipelineStage r).
  change (pr_MaxRetries (prepared r (passing r) s w)) with (pr_MaxRetries r).
  change (pr_RetryCount (prepared r (passing r) s w)) with (bump (counts_retry r (passing r)) (pr_RetryCount r)).
  destruct (stage_cases _ Hs) as [E|[E|[E|[E|[E|[E|E]]]]]]; rewrite E in *; cbn.
  4: destruct (0 <? _)%Z.
  6: rewrite (proj2 (Z.ltb_ge _ _) (Hbump eq_refl)).
  all: eexists; split; [reflexivity|]; cbn; try done.
  all: split; [done|]; split; [discriminate|]; first [by left|by right].
Qed.

Lemma passing_custom r s w :
  wf_run r → awaits_approval r = false → room r → pr_Workflow r ≠ [] → completable r →
  ∃ v, nextStage (prepared r (passing r) s w) (passing r) = Ok v ∧ moves_on r v.
Proof.
  intros Hwf Hap Hroom Hw Hcomp. pose proof (passing_covers r s w Hwf) as Hcov.
  pose proof (passing_bump r Hwf Hroom) as Hbump.
  pose proof (Validate_stage r (wf_valid r Hwf)) as Hs.
  assert (Hnext : pr_PipelineStage r ≠ PipelineReport → (pr_PipelineStage r < NextSelectedStage r (pr_PipelineStage r))%Z).
  { intros Hne. destruct (Validate_steps r (wf_valid r Hwf)) as (_ & (u & Hu & Hur) & Hnd).
    destruct (wf_stage r Hwf) as (c & Hc & Hcs).
    apply (next_selected_gt _ _ u); [apply Steps_sorted|done| |done|].
    - rewrite <- Hcs. by apply list_elem_of_fmap_2.
    - rewrite Hur. apply stage_valid in Hs. unfold PipelineReport in *. lia. }
  assert (nextStage (prepared r (passing r) s w) (passing r) = nextCustomStage (prepared r (passing r) s w) (passing r)) as ->.
  { unfold nextStage. change (pr_Workflow (prepared r (passing r) s w)) with (pr_Workflow r).
    by destruct (pr_Workflow r). }
  unfold nextCustomStage, moves_on. rewrite Hcov.
  change (awaits_approval (prepared r (passing r) s w)) with (awaits_approval r). rewrite Hap.
  change (pr_PipelineStage (prepared r (passing r) s w)) with (pr_PipelineStage r).
  change (NextSelectedStage (prepared r (passing r) s w)) with (NextSelectedStage r).
  change (retryLimit (prepared r (passing r) s w)) with (retryLimit r).
  change (HasStage (prepared r (passing r) s w)) with (HasStage r).
  change (pr_RetryCount (prepared r (passing r) s w)) with (bump (counts_retry r (passing r)) (pr_RetryCount r)).
  destruct (decide (pr_PipelineStage r = PipelineReport)) as [E|Hne].
  { rewrite E. cbn. eexists. split; [reflexivity|done]. }
  specialize (Hnext Hne).
  assert (Hadv : (NextSelectedStage r (pr_PipelineStage r) =? pr_PipelineStage r)%Z = false) by (apply Z.eqb_neq; lia).
  rewrite Hadv, (proj2 (Z.eqb_neq _ _) Hne).
  assert (Hd : pr_PipelineStage r = PipelineArbitration → HasStage r PipelineDevelopment = false).
  { intros E. destruct Hcomp as [?|[?|Ha]]; [done|done|]. rewrite <- E in Ha.
    assert (Hz : pr_PipelineStage r ≠ 0%Z) by (by rewrite E).
    by rewrite (proj2 (HasStage_spec r _ Hz) (wf_stage r Hwf)) in Ha. }
  exists {| vd_stage := NextSelectedStage r (pr_PipelineStage r); vd_status := PipelineRunning; vd_reason := "" |}.
  split; [|cbn; repeat split; [done|by left]].
  destruct (stage_cases _ Hs) as [E|[E|[E|[E|[E|[E|E]]]]]]; rewrite E in *; cbn; try done.
  rewrite (proj2 (Z.ltb_ge _ _) (Hbump eq_refl)), (Hd eq_refl). done.
Qed.

Lemma passing_no_bump r s w : pr_PipelineStage r ≠ PipelineArbitration →
  pr_RetryCount (prepared r (passing r) s w) = pr_RetryCount r.
Proof.
  intros Hne. cbn [prepared merged pr_RetryCount].
  assert (counts_retry r (passing r) = false) as ->; [|done].
  apply not_true_iff_false. rewrite counts_retry_true. unfold repair_round. cbn. intuition discriminate.
Qed.

(** The step of a passing agent: the run completes or moves on, and may pass again. *)
Lemma passing_step now r :
  wf_run r → terminal_status (pr_Status r) = false → awaits_approval r = false → room r → completable r →
  ∃ r', Apply now r (passing r) = (r', Ok tt) ∧ wf_run r' ∧ awaits_approval r' = false ∧ room r' ∧ completable r'
    ∧ pr_Workflow r' = pr_Workflow r
    ∧ (pr_Status r' = PipelineCompleted
       ∨ terminal_status (pr_Status r') = false ∧ (pr_Workflow r = [] → pr_PipelineStage r' ≠ PipelineArbitration)
         ∧ ((pr_PipelineStage r < pr_PipelineStage r')%Z
            ∨ pr_Workflow r = [] ∧ pr_PipelineStage r = PipelineArbitration ∧ pr_PipelineStage r' = PipelineDevelopment)).
Proof.
  intros Hwf Ht Hap Hroom Hcomp. destruct (passing_pins r Hwf) as (s & w & Hpin).
  assert (∃ v, nextStage (prepared r (passing r) s w) (passing r) = Ok v ∧ moves_on r v) as (v & Hn & Hmove).
  { destruct (decide (pr_Workflow r = [])); [by apply passing_default|by apply passing_custom]. }
  assert (Ha : Apply now r (passing r) = (advanced now (prepared r (passing r) s w) (passing r) v, Ok tt)).
  { unfold Apply. rewrite passing_guards, Hpin by done. fold (prepared r (passing r) s w). by rewrite Hn. }
  pose proof (Apply_keeps_wf now r (passing r) Hwf) as Hwf'. rewrite Ha in Hwf'.
  eexists. split; [exact Ha|]. split; [exact Hwf'|]. split; [exact Hap|]. split; [|split; [exact Hcomp|]; split; [done|]].
  - unfold moves_on in Hmove. unfold room in *. cbn [advanced pr_PipelineStage pr_Workflow pr_RetryCount].
    change (pr_Workflow (prepared r (passing r) s w)) with (pr_Workflow r).
    change (retryLimit (advanced now (prepared r (passing r) s w) (passing r) v)) with (retryLimit r).
    intros Hcase. destruct (Z.eqb_spec (pr_PipelineStage r) PipelineReport) as [E|Hne].
    + exfalso. pose proof (nextStage_edge _ _ _ (wf_valid r Hwf : PipelineRun_Validate (prepared r (passing r) s w) = _) Hn) as He.
      destruct (completed_edge _ _ _ He Hmove) as [E' _]. rewrite E' in Hcase. destruct Hcase as [?|[_ ?]]; done.
    + destruct Hmove as (_ & Hdef & Hup). rewrite passing_no_bump; [apply Hroom|]; intuition (congruence || lia).
  - unfold moves_on in Hmove. cbn [advanced pr_Status pr_PipelineStage].
    destruct (Z.eqb_spec (pr_PipelineStage r) PipelineReport); [by left|].
    destruct Hmove as (Hrun & Hdef & Hup). right. by rewrite Hrun.
Qed.

Lemma passing_completes (now : Time) n : ∀ r,
  wf_run r → terminal_status (pr_Status r) = false → awaits_approval r = false → room r → completable r →
  ¬ (pr_Workflow r = [] ∧ pr_PipelineStage r = PipelineArbitration) →
  (8 - pr_PipelineStage r ≤ Z.of_nat n)%Z →
  ∃ xs r', Accepted r xs r' ∧ pr_Status r' = PipelineCompleted ∧ (length xs ≤ n)%nat
    ∧ Forall (λ nx, sr_Outcome (snd nx) = "pass") xs.
Proof.
  induction n as [|n IH]; intros r Hwf Ht Hap Hroom Hcomp Hnot Hle.
  { pose proof (Validate_stage r (wf_valid r Hwf)) as Hs%stage_valid. lia. }
  destruct (passing_step now r Hwf Ht Hap Hroom Hcomp) as (r1 & Ha & Hwf1 & Hap1 & Hroom1 & Hcomp1 & Hw1 & Hend).
  destruct Hend as [Hdone|(Ht1 & Hdef & Hup)].
  - exists [(now, passing r)], r1. split; [by econstructor; [|constructor]|].
    split; [done|]. split; [cbn; lia|]. by constructor; [|constructor].
  - destruct (IH r1) as (xs & r2 & Hacc & Hst & Hlen & Hall); try done.
    + rewrite Hw1. intros [Hw E]. by apply (Hdef Hw).
    + destruct Hup as [?|(? & ? & _)]; [lia|tauto].
    + exists ((now, passing r) :: xs), r2. split; [by econstructor|]. split; [done|]. split; [cbn; lia|].
      by constructor.
Qed.

(** C40: Delivery can always finish: from any live, well-formed run that is not
    waiting for an approval, whose repair budget is not spent, and whose workflow is
    the default one or a selection without a development-and-arbitration loop, seven
    passing results at most lead to a completed run. *)
Theorem delivery_completes (now : Time) r :
  wf_run r → terminal_status (pr_Status r) = false → counted r → completable r →
  (pr_RetryCount r < retryLimit r PipelineArbitration)%Z →
  ∃ xs r', Accepted r xs r' ∧ pr_Status r' = PipelineCompleted ∧ blank (pr_FinalReport r') = false
    ∧ (length xs ≤ 7)%nat ∧ Forall (λ nx, sr_Outcome (snd nx) = "pass") xs.
Proof.
  intros Hwf Ht Hc Hcomp Hbudget. destruct Hc as [Hfits HR _ _ Hap].
  assert (Hroom : room r).
  { intros _. split; [lia|]. unfold retry_bound in Hfits. unfold two63 in *. lia. }
  pose proof (Validate_stage r (wf_valid r Hwf)) as Hs%stage_valid.
  assert (∃ xs r', Accepted r xs r' ∧ pr_Status r' = PipelineCompleted ∧ (length xs ≤ 7)%nat
    ∧ Forall (λ nx, sr_Outcome (snd nx) = "pass") xs) as (xs & r' & Hacc & Hst & Hlen & Hall).
  { destruct (decide (pr_Workflow r = [] ∧ pr_PipelineStage r = PipelineArbitration)) as [[Hw E]|Hnot];
      [|apply (passing_completes now); try done; lia].
    destruct (passing_step now r Hwf Ht Hap Hroom Hcomp) as (r1 & Ha & Hwf1 & Hap1 & Hroom1 & Hcomp1 & Hw1 & Hend).
    destruct Hend as [Hdone|(Ht1 & Hdef & Hup)].
    - exists [(now, passing r)], r1. split; [by econstructor; [|constructor]|].
      split; [done|]. split; [cbn; lia|]. by constructor; [|constructor].
    - destruct (passing_completes now 6 r1) as (xs & r2 & Hacc & Hst & Hlen & Hall); try done.
      + intros [_ E1]. by apply (Hdef Hw).
      + unfold PipelineArbitration, PipelineDevelopment in *. lia.
      + exists ((now, passing r) :: xs), r2. split; [by econstructor|]. split; [done|]. split; [cbn; lia|].
        by constructor. }
  exists xs, r'. split; [done|]. split; [done|]. split; [|done].
  by apply (wf_completed r' (accepted_wf _ _ _ Hwf Hacc)).
Qed.
