(* ===== verification/Migration.v ===== *)
(** * Migration: the bridge from the seven-stage pipeline to workflow graphs

    Models internal/compat/pipeline_stage.go: the dispatch scopes, the graph of a
    legacy run ([GraphFromPipeline], a complete graph whose predicates let the
    result name the next node) and the frozen plan [MigratePipeline] makes of it. *)
From stdpp Require Import base strings gmap list pretty.
From Stdlib Require Import ZArith Lia Ascii.
From S2P Require Import Prelude GoLib GoStrings GoValue GoJson ContextModel OrchModel Validate Definitions Pipeline.

Definition LegacyAdapterVersion : string := "pipeline-stage-compat-v1".

Record DispatchScope := { ds_PlanID : string; ds_NodeID : string; ds_AttemptID : string }.

Definition PipelineNodeID (stage : Z) : string := "legacy-node-" +:+ pretty stage.

Section scopes.
Context `{!Sha256}.

Definition legacy_attempt (planID nodeID key : string) : string :=
  "legacy-attempt-" +:+ sha256_hex (planID +:+ nul +:+ nodeID +:+ nul +:+ key).

Definition PipelineDispatchScope (run : PipelineRun) (turnKey : string) : result DispatchScope :=
  reject (blank (pr_ID run) || negb (PipelineStage_Valid (pr_PipelineStage run)))
    (Errorf "legacy pipeline id and valid stage are required" []) ;;;
  let planID := "legacy-plan-" +:+ pr_ID run in
  let nodeID := PipelineNodeID (pr_PipelineStage run) in
  let key := TrimSpace turnKey in
  reject (key ≟ "") (Errorf "legacy pipeline turn key is required" []) ;;;
  Ok {| ds_PlanID := planID; ds_NodeID := nodeID; ds_AttemptID := legacy_attempt planID nodeID key |}.

Definition genericDispatchScope (planID nodeID turnKey : string) : result DispatchScope :=
  reject (blank planID || blank nodeID || blank turnKey)
    (Errorf "legacy dispatch scope requires plan, node and turn key" []) ;;;
  Ok {| ds_PlanID := planID; ds_NodeID := nodeID; ds_AttemptID := legacy_attempt planID nodeID turnKey |}.

Definition WorkItemDispatchScope (workItemID turnKey : string) : result DispatchScope :=
  genericDispatchScope ("legacy-work-item-" +:+ TrimSpace workItemID) "work-item" turnKey.
Definition BugDispatchScope (bugID turnKey : string) : result DispatchScope :=
  genericDispatchScope ("legacy-bug-" +:+ TrimSpace bugID) "bug-repair" turnKey.
Definition CommentDispatchScope (commentID targetID turnKey : string) : result DispatchScope :=
  genericDispatchScope ("legacy-comment-" +:+ TrimSpace commentID) ("target-" +:+ TrimSpace targetID) turnKey.
End scopes.

(** ** The graph of a run *)

Definition legacy_node (step : WorkflowStep) : WorkflowNode :=
  let z := zero_WorkflowNode in
  {| wn_ID := "legacy-node-" +:+ pretty (ws_Stage step); wn_Kind := NodeAgent;
     wn_AgentRef := Some {| vr_ID := ws_AgentID step; vr_Revision := 1; vr_Version := 0 |};
     wn_SquadRef := wn_SquadRef z; wn_InputContract := wn_InputContract z; wn_OutputContract := wn_OutputContract z;
     wn_ContextPolicy := wn_ContextPolicy z; wn_ToolPolicy := wn_ToolPolicy z;
     wn_RetryPolicy := {| rt_MaxAttempts := ws_RetryLimit step; rt_Backoff := 0; rt_RetryOn := [] |};
     wn_Timeout := wn_Timeout z; wn_Budget := wn_Budget z; wn_JoinPolicy := wn_JoinPolicy z;
     wn_JoinQuorum := wn_JoinQuorum z; wn_JoinFailurePolicy := wn_JoinFailurePolicy z;
     wn_GatePolicy := wn_GatePolicy z; wn_MergePolicy := wn_MergePolicy z; wn_RepairPolicy := wn_RepairPolicy z |}.

(** One iteration of the loop over the steps: the nodes and the stage map so far. *)
Definition add_legacy_node (acc : list WorkflowNode * gmap string string) (_ : nat) (step : WorkflowStep)
    : result (list WorkflowNode * gmap string string) :=
  let '(nodes, stageNode) := acc in
  reject (negb (PipelineStage_Valid (ws_Stage step)) || blank (ws_AgentID step))
    (Errorf "legacy workflow step %d requires a valid stage and agent" [pretty (ws_Stage step)]) ;;;
  let id := "legacy-node-" +:+ pretty (ws_Stage step) in
  reject (bool_decide (is_Some (stageNode !! pretty (ws_Stage step))))
    (Errorf "legacy workflow stage %d is duplicated" [pretty (ws_Stage step)]) ;;;
  Ok (nodes ++ [legacy_node step], <[pretty (ws_Stage step) := id]> stageNode).

(** The edge of an event: taken when the result continues and names its target. *)
Definition legacy_predicate (to : string) : Predicate :=
  MkPredicate "all" "" "" VNil
    [MkPredicate "field_eq" "continue" "" (VBool true) []; MkPredicate "field_eq" "next_node_id" "" (VString to) []].
Definition legacy_edge_id (from to event : string) : string :=
  "legacy-edge-" +:+ from +:+ "-" +:+ to +:+ "-" +:+ event.
Definition legacy_edge (loopLimit : Z) (from to : string) (event : EdgeEvent) (name : string) : WorkflowEdge :=
  {| we_ID := legacy_edge_id from to name; we_From := from; we_To := to; we_On := event;
     we_Predicate := legacy_predicate to; we_Priority := 0; we_MaxTraversals := loopLimit; we_RequiredEvidence := [];
     we_LoopGroup := ""; we_FanOut := false |}.

Definition legacy_events : list (EdgeEvent * string) :=
  [(EdgeSuccess, "success"); (EdgeFailure, "failure"); (EdgeApproval, "approval")].

(** The three nested loops. *)
Definition legacy_edges (loopLimit : Z) (nodes : list WorkflowNode) : list WorkflowEdge :=
  nodes ≫= λ from, nodes ≫= λ to,
    (λ ev, legacy_edge loopLimit (wn_ID from) (wn_ID to) (fst ev) (snd ev)) <$> legacy_events.

Definition loop_limit (run : PipelineRun) : Z :=
  let l := add64 (pr_MaxRetries run) 1 in if (l <? 1)%Z then 1 else l.

(** The graph literal, before [ValidateGraph]. *)
Definition legacy_graph (run : PipelineRun) (nodes : list WorkflowNode) (first : WorkflowNode) : WorkflowGraph :=
  {| g_ID := "legacy-graph-" +:+ pr_ID run; g_Version := if (pr_Version run <? 1)%Z then 1 else pr_Version run;
     g_EntryNodeIDs := [wn_ID first]; g_ExitNodeIDs := wn_ID <$> nodes; g_Nodes := nodes;
     g_Edges := legacy_edges (loop_limit run) nodes; g_ValidationDigest := "" |}.

Section migrate.
Context `{!MapRange}.

Definition GraphFromPipeline (run : PipelineRun) : result (WorkflowGraph * gmap string string) :=
  reject (length (Steps run) =? 0)%nat (Errorf "legacy pipeline has no workflow steps" []) ;;;
  let* acc := fold_each_from 0 add_legacy_node ([], ∅) (Steps run) in
  let '(nodes, stageNode) := acc in
  match nodes with
  | [] => Err (EPanic "index out of range")
  | first :: _ =>
      let graph := legacy_graph run nodes first in
      ValidateGraph graph ;;;
      Ok (graph, stageNode)
  end.

Record MigrationResult := {
  mr_Plan : RequirementExecutionPlan; mr_LegacyVersion : string; mr_StageNodeMap : gmap string string;
  mr_ShadowWarnings : list string }.

Context `{!Sha256, !JsonMarshal RequirementExecutionPlan}.

Definition zero_PolicySnapshot : PolicySnapshot :=
  {| pol_Digest := ""; pol_ToolPolicy := {| tp_Allowed := []; tp_Denied := []; tp_Network := false; tp_SecretScopes := [] |};
     pol_Budget := zero_Budget; pol_CapturedAt := 0 |}.

(** The plan literal of [MigratePipeline]. *)
Definition legacy_plan (run : PipelineRun) (graph : WorkflowGraph) : RequirementExecutionPlan :=
  {| pl_ID := "legacy-plan-" +:+ pr_ID run; pl_RequirementID := pr_RequirementID run;
     pl_WorkspaceID := pr_WorkspaceID run; pl_GraphSnapshot := graph;
     pl_SelectedRef := {| vr_ID := ""; vr_Revision := 0; vr_Version := 0 |};
     pl_PolicySnapshot := zero_PolicySnapshot;
     pl_ContextRoot := {| cref_SessionID := pr_SessionID run; cref_ManifestDigest := "legacy:" +:+ pr_SessionID run;
                          cref_ReplayKey := "" |};
     pl_PlanHash := ""; pl_Status := PlanDraft; pl_Revision := if (0 <? pr_Version run)%Z then pr_Version run else 0;
     pl_IdempotencyKey := ""; pl_Deadline := 0; pl_CreatedAt := 0; pl_ParentPlanID := ""; pl_ParentAttemptID := "" |}.

Definition MigratePipeline (run : PipelineRun) : result MigrationResult :=
  let* gm := GraphFromPipeline run in
  let '(graph, mapping) := gm in
  match Freeze (legacy_plan run graph) with
  | (_, Err e) => Err e
  | (frozen, Ok _) =>
      Ok {| mr_Plan := frozen; mr_LegacyVersion := LegacyAdapterVersion; mr_StageNodeMap := mapping;
            mr_ShadowWarnings :=
              ["legacy pipeline feedback and evidence are not inferred; configure graph edges explicitly"] |}
  end.
End migrate.
