(* ===== verification/MigrationProps.v ===== *)
(** * MigrationProps: every pipeline migrates, and its graph follows the engine

    The graph [GraphFromPipeline] builds is well formed for every valid run; in it,
    the result of a stage selects exactly the edge to the stage the engine chose,
    and none when the engine stopped; and its traversal limit never cuts off a run
    of the default workflow. *)
From stdpp Require Import base strings gmap list pretty relations.
From Stdlib Require Import ZArith Lia Sorted Ascii.
From S2P Require Import Prelude GoLib GoStrings GoValue GoJson ContextModel OrchModel GraphSearch Validate PredicateSpec GraphSpec Definitions Projection Transition Pipeline PipelineProps Migration.

(** ** Nodes *)

Definition stage_node (stage : Z) : string := PipelineNodeID stage.

#[global] Instance PipelineNodeID_inj : Inj (=) (=) PipelineNodeID.
Proof. intros a b Hab. apply (inj (String.append "legacy-node-")) in Hab. by apply (inj pretty) in Hab. Qed.

Definition legacy_nodes (run : PipelineRun) : list WorkflowNode := legacy_node <$> Steps run.

Lemma add_nodes_Ok steps : ∀ i nodes m,
  Forall good_step steps → NoDup (map ws_Stage steps) →
  (∀ s, s ∈ steps → m !! pretty (ws_Stage s) = None) →
  ∃ m', fold_each_from i add_legacy_node (nodes, m) steps = Ok (nodes ++ (legacy_node <$> steps), m').
Proof.
  induction steps as [|s steps IH]; intros i nodes m Hgood Hnd Hfresh; cbn [fold_each_from].
  { exists m. by rewrite app_nil_r. }
  inversion Hgood as [|? ? (Hv & Hb & _) Hrest]; subst. cbn [map] in Hnd. apply NoDup_cons in Hnd as [Hnew Hnd].
  unfold add_legacy_node at 1. rewrite Hv, Hb. cbn [negb orb reject rbind].
  rewrite bool_decide_eq_false_2; [|rewrite (Hfresh s); [by intros []|left]]. cbn [reject rbind].
  destruct (IH (Datatypes.S i) (nodes ++ [legacy_node s])
    (<[pretty (ws_Stage s) := "legacy-node-" +:+ pretty (ws_Stage s)]> m)) as [m' Hm']; [done|done| |].
  - intros u Hu. rewrite lookup_insert_ne; [by apply Hfresh; right|].
    intros E%(inj pretty). apply Hnew. rewrite E. by apply list_elem_of_fmap_2.
  - exists m'. rewrite Hm'. by rewrite <- app_assoc.
Qed.

Lemma legacy_nodes_NoDup run : PipelineRun_Validate run = Ok tt → NoDup (wn_ID <$> legacy_nodes run).
Proof.
  intros (_ & _ & Hnd)%Validate_steps. unfold legacy_nodes. rewrite <- list_fmap_compose.
  change (NoDup ((PipelineNodeID ∘ ws_Stage) <$> Steps run)). rewrite list_fmap_compose.
  by apply NoDup_fmap; [apply _|].
Qed.

Lemma elem_of_legacy_nodes run n :
  n ∈ legacy_nodes run ↔ ∃ s, n = legacy_node s ∧ s ∈ Steps run.
Proof. unfold legacy_nodes. apply list_elem_of_fmap. Qed.

(** ** Edges *)

Lemma elem_of_legacy_edges limit nodes e :
  e ∈ legacy_edges limit nodes ↔
  ∃ from to ev, from ∈ nodes ∧ to ∈ nodes ∧ ev ∈ legacy_events
    ∧ e = legacy_edge limit (wn_ID from) (wn_ID to) (fst ev) (snd ev).
Proof.
  unfold legacy_edges. rewrite list_elem_of_bind. setoid_rewrite list_elem_of_bind.
  setoid_rewrite list_elem_of_fmap. naive_solver.
Qed.

(** The ids of the edges between the seven stages, one per pair and event. *)
Definition all_stages : list Z := [1; 2; 3; 4; 5; 6; 7]%Z.
Definition all_edges : list (Z * Z * string) :=
  all_stages ≫= λ a, all_stages ≫= λ b, (λ n, (a, b, n)) <$> (legacy_events.*2).
Definition triple_id (t : Z * Z * string) : string :=
  let '(a, b, n) := t in legacy_edge_id (PipelineNodeID a) (PipelineNodeID b) n.

Lemma all_edge_ids : NoDup (triple_id <$> all_edges).
Proof. apply (bool_decide_eq_true_1 _). vm_compute. reflexivity. Qed.

Lemma fmap_NoDup_inj {A B} (f : A → B) l x y : NoDup (f <$> l) → x ∈ l → y ∈ l → f x = f y → x = y.
Proof.
  intros Hnd [i Hi]%list_elem_of_lookup [j Hj]%list_elem_of_lookup Hf.
  assert (i = j) as ->; [|congruence]. eapply NoDup_lookup; [exact Hnd| |]; rewrite list_lookup_fmap.
  - by rewrite Hi.
  - rewrite Hj. cbn. by rewrite Hf.
Qed.

Lemma elem_of_all_stages z : z ∈ all_stages ↔ (1 ≤ z ≤ 7)%Z.
Proof. unfold all_stages. set_unfold. lia. Qed.

Lemma in_all_edges a b n : (1 ≤ a ≤ 7)%Z → (1 ≤ b ≤ 7)%Z → n ∈ legacy_events.*2 → (a, b, n) ∈ all_edges.
Proof.
  intros Ha Hb Hn. unfold all_edges. apply list_elem_of_bind. exists a. split; [|by apply elem_of_all_stages].
  apply list_elem_of_bind. exists b. split; [|by apply elem_of_all_stages]. by apply list_elem_of_fmap_2.
Qed.

Lemma edge_id_inj a b n a' b' n' :
  (1 ≤ a ≤ 7)%Z → (1 ≤ b ≤ 7)%Z → (1 ≤ a' ≤ 7)%Z → (1 ≤ b' ≤ 7)%Z → n ∈ legacy_events.*2 → n' ∈ legacy_events.*2 →
  triple_id (a, b, n) = triple_id (a', b', n') → (a, b, n) = (a', b', n').
Proof.
  intros Ha Hb Ha' Hb' Hn Hn' Hid. by apply (fmap_NoDup_inj triple_id all_edges); [apply all_edge_ids|apply in_all_edges..|].
Qed.

Lemma event_names n n' ev ev' : (ev, n) ∈ legacy_events → (ev', n') ∈ legacy_events → n = n' → ev = ev'.
Proof. unfold legacy_events. set_unfold. naive_solver. Qed.

(** The ends of an edge of a run's graph. *)
Lemma legacy_edge_ends run limit e :
  PipelineRun_Validate run = Ok tt → e ∈ legacy_edges limit (legacy_nodes run) →
  ∃ a b ev, selected run a ∧ selected run b ∧ (1 ≤ a ≤ 7)%Z ∧ (1 ≤ b ≤ 7)%Z ∧ ev ∈ legacy_events
    ∧ e = legacy_edge limit (PipelineNodeID a) (PipelineNodeID b) (fst ev) (snd ev).
Proof.
  intros Hv (from & to & ev & Hfrom & Hto & Hev & ->)%elem_of_legacy_edges.
  apply elem_of_legacy_nodes in Hfrom as (s & -> & Hs). apply elem_of_legacy_nodes in Hto as (u & -> & Hu).
  exists (ws_Stage s), (ws_Stage u), ev.
  assert (Ha : selected run (ws_Stage s)) by (by exists s). assert (Hb : selected run (ws_Stage u)) by (by exists u).
  pose proof (selected_valid _ _ Hv Ha) as Ha'%stage_valid. pose proof (selected_valid _ _ Hv Hb) as Hb'%stage_valid.
  done.
Qed.

Lemma legacy_edge_in run limit a b ev :
  selected run a → selected run b → ev ∈ legacy_events →
  legacy_edge limit (PipelineNodeID a) (PipelineNodeID b) (fst ev) (snd ev) ∈ legacy_edges limit (legacy_nodes run).
Proof.
  intros (s & Hs & <-) (u & Hu & <-) Hev. apply elem_of_legacy_edges.
  exists (legacy_node s), (legacy_node u), ev. split; [|split; [|split]]; [..|done|done].
  all: apply elem_of_legacy_nodes; eauto.
Qed.

Lemma legacy_edges_NoDup limit nodes : NoDup (wn_ID <$> nodes) → NoDup (legacy_edges limit nodes).
Proof.
  intros Hnd. unfold legacy_edges.
  assert (Hn : ∀ x y, x ∈ nodes → y ∈ nodes → wn_ID x = wn_ID y → x = y) by (intros; by eapply fmap_NoDup_inj).
  apply NoDup_fmap_1 in Hnd. apply NoDup_bind; [| |done].
  - intros x1 x2 y H1' H2' Hy1 Hy2. apply Hn; [done|done|].
    apply list_elem_of_bind in Hy1 as (? & Hy1 & _). apply list_elem_of_fmap in Hy1 as (? & -> & _).
    apply list_elem_of_bind in Hy2 as (? & Hy2 & _). apply list_elem_of_fmap in Hy2 as (? & E & _).
    by injection E.
  - intros x Hx. apply NoDup_bind; [| |done].
    + intros x1 x2 y H1' H2' Hy1 Hy2. apply Hn; [done|done|].
      apply list_elem_of_fmap in Hy1 as (? & -> & _). apply list_elem_of_fmap in Hy2 as (? & E & _). by injection E.
    + intros u Hu. apply NoDup_fmap_2_strong.
      * intros [e1 n1] [e2 n2] _ _ E. injection E as Hid He. cbn in *. subst. f_equal.
        repeat apply (inj (String.append _)) in Hid. done.
      * apply (bool_decide_eq_true_1 _). reflexivity.
Qed.

Lemma legacy_edge_ids_NoDup run limit :
  PipelineRun_Validate run = Ok tt → NoDup (we_ID <$> legacy_edges limit (legacy_nodes run)).
Proof.
  intros Hv. apply NoDup_fmap_2_strong; [|by apply legacy_edges_NoDup, legacy_nodes_NoDup].
  intros e e' He He' Hid.
  destruct (legacy_edge_ends _ _ _ Hv He) as (a & b & [ev n] & _ & _ & Ha & Hb & Hev & ->).
  destruct (legacy_edge_ends _ _ _ Hv He') as (a' & b' & [ev' n'] & _ & _ & Ha' & Hb' & Hev' & ->).
  cbn [fst snd legacy_edge we_ID] in *.
  assert (E : (a, b, n) = (a', b', n')).
  { apply edge_id_inj; try done; apply list_elem_of_fmap; eexists; [split; [|exact Hev]|split; [|exact Hev']]; done. }
  injection E as -> -> ->. by rewrite (event_names _ _ _ _ Hev Hev' eq_refl).
Qed.

(** ** The graph is well formed *)

Lemma prefixed_not_blank s : blank (String "l"%char s) = false.
Proof. by apply (not_blank "l"%char); [left|..]. Qed.

Lemma legacy_node_ok s : good_step s → node_ok (legacy_node s).
Proof.
  intros (_ & Hb & Hr). apply (node_checks_iff 0). split; [apply prefixed_not_blank|].
  split; [|split; [|reflexivity]].
  - unfold validateNodeRefs. cbn. by rewrite Hb.
  - unfold validateNodeLimits, negative_limits. cbn. apply Z.ltb_ge in Hr. by rewrite Hr.
Qed.

Lemma legacy_node_links g s : links_ok g (legacy_node s).
Proof. by apply (validateNodeLinks_iff g 0). Qed.

Lemma legacy_node_table run first nodes id n :
  nodes = legacy_nodes run → node_table (legacy_graph run nodes first) !! id = Some n →
  ∃ s, n = legacy_node s.
Proof.
  intros ->. unfold node_table. cbn [legacy_graph g_Nodes]. unfold legacy_nodes.
  assert (Hgen : ∀ steps (m : node_map), (∀ i x, m !! i = Some x → ∃ s, x = legacy_node s) →
    ∀ i x, foldl (λ m n, <[wn_ID n := n]> m) m (legacy_node <$> steps) !! i = Some x → ∃ s, x = legacy_node s).
  { clear. induction steps as [|s steps IH]; intros m Hm i x; cbn; [apply Hm|]. apply IH.
    intros j y. rewrite lookup_insert. case_decide; [intros [= <-]; by exists s|apply Hm]. }
  apply Hgen. intros i x. by rewrite lookup_empty.
Qed.

Lemma legacy_edge_ok run first limit e :
  PipelineRun_Validate run = Ok tt → (1 ≤ limit)%Z → e ∈ legacy_edges limit (legacy_nodes run) →
  edge_ok (node_table (legacy_graph run (legacy_nodes run) first)) e.
Proof.
  intros Hv Hl He. destruct (legacy_edge_ends _ _ _ Hv He) as (a & b & [ev n] & Ha & Hb & _ & _ & Hev & ->).
  assert (Hdom : ∀ c, selected run c → is_Some (node_table (legacy_graph run (legacy_nodes run) first) !! PipelineNodeID c)).
  { intros c (s & Hs & <-). apply node_table_dom. cbn [legacy_graph g_Nodes].
    apply list_elem_of_fmap. exists (legacy_node s). split; [done|]. apply elem_of_legacy_nodes. eauto. }
  destruct (Hdom a Ha) as [x Hx], (Hdom b Hb) as [y Hy].
  destruct (legacy_node_table _ _ _ _ _ eq_refl Hx) as [s ->], (legacy_node_table _ _ _ _ _ eq_refl Hy) as [u ->].
  split; cbn [legacy_edge we_ID we_From we_To we_On we_MaxTraversals we_RequiredEvidence we_LoopGroup we_FanOut
    we_Priority we_Predicate fst snd].
  - apply prefixed_not_blank.
  - exists (legacy_node s), (legacy_node u). split_and!; [done|done|by left].
  - unfold legacy_events in Hev. rewrite !elem_of_cons in Hev.
    destruct Hev as [[= -> _]|[[= -> _]|[[= -> _]|Hev]]]; [set_solver..|by apply elem_of_nil in Hev].
  - lia.
  - done.
  - constructor.
  - done.
  - apply pred_ok_wf. vm_compute. reflexivity.
Qed.

Lemma loop_limit_pos run : (1 ≤ loop_limit run)%Z.
Proof. unfold loop_limit. cbn zeta. destruct (Z.ltb_spec (add64 (pr_MaxRetries run) 1) 1); lia. Qed.

Lemma legacy_edge_count limit nodes : length (legacy_edges limit nodes) = 3 * length nodes * length nodes.
Proof.
  unfold legacy_edges.
  assert (Hbind : ∀ {A B} (f : A → list B) k l, (∀ x, length (f x) = k) → length (l ≫= f) = k * length l).
  { intros A B f k l Hf. induction l as [|x l IH]; [cbn; lia|]. rewrite bind_cons, length_app, IH, Hf. cbn [length]. lia. }
  rewrite (Hbind _ _ _ (3 * length nodes)); [lia|]. intros x. by apply Hbind.
Qed.

Lemma NoDup_small (l : list Z) : NoDup l → (∀ z, z ∈ l → (1 ≤ z ≤ 7)%Z) → (length l ≤ 7)%nat.
Proof.
  intros Hnd Hin. change 7 with (length all_stages). apply submseteq_length, NoDup_submseteq; [done|].
  intros z Hz. by apply elem_of_all_stages, Hin.
Qed.

Lemma legacy_nodes_small run : PipelineRun_Validate run = Ok tt → (1 ≤ length (legacy_nodes run) ≤ 7)%nat.
Proof.
  intros Hv. destruct (Validate_steps run Hv) as (_ & (s & Hs & _) & Hnd). unfold legacy_nodes. rewrite length_fmap.
  split; [destruct (Steps run); [set_solver|cbn; lia]|].
  rewrite <- (length_map ws_Stage). apply NoDup_small; [done|].
  intros z (u & -> & Hu)%list_elem_of_fmap. apply stage_valid, (selected_valid run); [done|]. by exists u.
Qed.

Lemma legacy_arc run first a b :
  selected run a → selected run b →
  arc (arcs (legacy_graph run (legacy_nodes run) first)) (PipelineNodeID a) (PipelineNodeID b).
Proof.
  intros Ha Hb. unfold arc, arcs. apply list_elem_of_fmap. cbn [legacy_graph g_Edges].
  eexists. split; [|exact (legacy_edge_in run _ a b (EdgeSuccess, "success") Ha Hb ltac:(left))]. done.
Qed.

Lemma legacy_graph_wf run first rest :
  PipelineRun_Validate run = Ok tt → Steps run = first :: rest →
  GraphWF (legacy_graph run (legacy_nodes run) (legacy_node first)).
Proof.
  intros Hv Hsteps. pose proof (Validate_steps run Hv) as (Hgood & Hrep & Hnd).
  pose proof (legacy_nodes_small run Hv) as Hsmall. pose proof (loop_limit_pos run) as Hlim.
  assert (Hin : legacy_node first ∈ legacy_nodes run).
  { apply elem_of_legacy_nodes. exists first. rewrite Hsteps. split; [done|left]. }
  assert (Hsel : ∀ n, n ∈ legacy_nodes run → ∃ a, selected run a ∧ wn_ID n = PipelineNodeID a).
  { intros n (s & -> & Hs)%elem_of_legacy_nodes. exists (ws_Stage s). split; [by exists s|done]. }
  split; cbn [legacy_graph g_ID g_Version g_EntryNodeIDs g_ExitNodeIDs g_Nodes g_Edges].
  - apply prefixed_not_blank.
  - rewrite legacy_edge_count. unfold maxWorkflowNodes, maxWorkflowEdges. split; [lia|]. nia.
  - destruct (Z.ltb_spec (pr_Version run) 1); lia.
  - apply Forall_forall. intros n (s & -> & Hs)%elem_of_legacy_nodes. apply legacy_node_ok.
    rewrite Forall_forall in Hgood. by apply Hgood.
  - by apply legacy_nodes_NoDup.
  - split; [done|]. intros E. apply fmap_nil_inv in E. rewrite E in Hsmall. cbn in Hsmall. lia.
  - split; [apply NoDup_singleton|]. intros id ->%list_elem_of_singleton. by apply list_elem_of_fmap_2.
  - split; [by apply legacy_nodes_NoDup|done].
  - apply Forall_forall. intros e He. by apply (legacy_edge_ok run _ (loop_limit run)).
  - by apply legacy_edge_ids_NoDup.
  - apply Forall_forall. intros n (s & -> & _)%elem_of_legacy_nodes. apply legacy_node_links.
  - intros n Hn. destruct (Hsel n Hn) as (a & Ha & ->). exists (wn_ID (legacy_node first)).
    split; [left|]. apply rtc_once. apply (legacy_arc run _ (ws_Stage first) a); [|done].
    exists first. rewrite Hsteps. split; [left|done].
  - intros n Hn. exists (wn_ID n). split; [by apply list_elem_of_fmap_2|apply rtc_refl].
  - apply Forall_forall. intros e He.
    destruct (legacy_edge_ends _ _ _ Hv He) as (a & b & ev & _ & _ & _ & _ & _ & ->). by intros _ [].
  - intros x Hx. apply tc_nsteps in Hx as (k & Hk & Hx). destruct Hx as [|k x y z Hxy _]; [lia|].
    unfold arc, arcs_of, unbounded_edges in Hxy. rewrite <- list_fmap_compose in Hxy.
    apply list_elem_of_fmap in Hxy as (e & _ & He). apply list_elem_of_filter in He as [Hm He].
    destruct (legacy_edge_ends _ _ _ Hv He) as (a & b & ev & _ & _ & _ & _ & _ & ->). cbn in Hm. lia.
Qed.
