(* ===== verification/LegacyGraph.v ===== *)
(** * LegacyGraph: pipeline runs recorded against their migrated plans

    Models internal/api/legacy_graph.go and [persistLegacyExecutionPlan] of
    internal/api/pipeline.go: every dispatch, binding, result and approval of a
    legacy run is also an attempt of the plan [MigratePipeline] made of it, in the
    orchestration repository.  A server without that repository ([None]) skips the
    dual write.  [domain.Approval] is used for its id, decision and reason. *)
From stdpp Require Import base strings gmap list pretty.
From Stdlib Require Import ZArith Lia.
From S2P Require Import Prelude GoLib GoStrings Trace GoValue GoJson ContextModel OrchModel ProjectionData Projection Transition Events Repository Outbox Executor Pipeline Migration.

(** The payloads the adapter writes. *)
Record LegacyStarted := {
  lst_AdapterVersion : string; lst_Stage : Z; lst_StageName : string; lst_AttemptID : string; lst_AttemptNo : Z;
  lst_NodeID : string; lst_Lease : OrchModel.Lease; lst_Context : ContextEnvelope; lst_DispatchPayloadHash : string;
  lst_StartedAt : Time }.
Record LegacyBound := { lbd_AttemptID : string; lbd_RunID : string; lbd_SessionID : string; lbd_WorkDir : string }.
Record LegacyFinished := {
  lfn_AttemptID : string; lfn_Event : string; lfn_Result : StructuredResult; lfn_Failure : option FailureReason;
  lfn_TransitionKey : string; lfn_TransitionAt : Time }.

(** The fields of [domain.Approval] the adapter reads. *)
Record LegacyApproval := { la_ID : string; la_Decision : string; la_Reason : string }.

(** What a call reads from outside: clock, event id and the write of the store. *)
Record LegacyIo := { lio_now : Time; lio_event : string; lio_fault : fault; lio_fault2 : fault }.

Definition lease_ttl : Duration := (30 * Minute)%Z.

(** ** Results as graph transitions *)

(** The event of a result: an approval wait first, then the outcome. *)
Definition legacy_event (nextStatus outcome : string) : string :=
  let event := if nextStatus ≟ PipelineWaitingApproval then "approval" else "failure" in
  if contains ["pass"; "passed"; "success"; "succeeded"; "completed"] outcome
  then if event ≠? "approval" then "success" else event
  else if outcome ≟ "bug" then "bug"
  else if contains ["timeout"; "timed_out"] outcome then "timeout"
  else if contains ["cancel"; "cancelled"; "canceled"] outcome then "cancel"
  else event.

Definition legacy_fields (next : PipelineRun) (x : PipelineStepResult) : gmap string value :=
  list_to_map
    [("coverage", VFloat64 (sr_Coverage x)); ("provider_task_id", VString (sr_ProviderTaskID x));
     ("provider_issue_id", VString (sr_ProviderIssueID x));
     ("next_node_id", VString (PipelineNodeID (pr_PipelineStage next)));
     ("next_stage", VInt KInt (pr_PipelineStage next));
     ("continue", VBool (pr_Status next ≟ PipelineRunning));
     ("pipeline_status", VTyped "domain.PipelineStatus" (VString (pr_Status next)))].

Definition legacy_failure (event summary : string) : option FailureReason :=
  if (event ≠? "success") && (event ≠? "approval")
  then Some {| fr_Code := "legacy_pipeline_" +:+ event; fr_Message := summary;
               fr_Retryable := (event ≟ "failure") || (event ≟ "bug") |}
  else None.

Section legacy.
Context `{!MapRange, !Sha256, !JsonCompact, !JsonClone, !EnvelopeContract}.
Context {JM : ∀ T, JsonMarshal T}.

Definition legacy_evidence (x : PipelineStepResult) : list string :=
  match filter (λ item, blank item = false) [sr_ProviderTaskID x; sr_ProviderIssueID x; sr_CodeVersion x] with
  | [] => ["legacy-result:" +:+ sha256_hex (pretty (sr_Stage x) +:+ nul +:+ sr_AgentID x +:+ nul +:+ sr_Outcome x
                                            +:+ nul +:+ sr_Summary x)]
  | l => l
  end.

Definition legacy_result (next : PipelineRun) (x : PipelineStepResult) : StructuredResult :=
  {| res_Outcome := ToLower (TrimSpace (sr_Outcome x)); res_ReasonCode := ""; res_Fields := legacy_fields next x;
     res_Summary := sr_Summary x; res_EvidenceIDs := legacy_evidence x |}.

Definition legacyGraphPayloadHash (scope : DispatchScope) (envelope : ContextEnvelope) : string :=
  sha256_hex (ds_PlanID scope +:+ nul +:+ ds_NodeID scope +:+ nul +:+ ds_AttemptID scope +:+ nul
              +:+ ce_ReplayKey envelope +:+ nul +:+ ce_SelectionDigest envelope).

(** ** Committing *)

Definition commitLegacyGraphEvent {T} (io : LegacyIo) (s : Store) (plan : RequirementExecutionPlan)
    (projection : PlanProjection) (a : NodeAttempt) (eventType key : string) (payload : T) (fencing : Z)
    : Store * result unit :=
  match NewEventWithContext (lio_event io) (lio_now io) None (last (ListEvents s (pl_ID plan) 0)) (pl_ID plan)
          (pl_WorkspaceID plan) eventType key payload with
  | Err e => (s, Err e)
  | Ok event =>
      CommitEventProjection (lio_fault io) s (Seal (ev_scoped (na_NodeID a) (na_ID a) fencing event)) projection
  end.

(** ** Starting *)

(** [GetProjection], creating and saving the first projection of the plan. *)
Definition load_or_new (io : LegacyIo) (s : Store) (plan : RequirementExecutionPlan) : Store * result PlanProjection :=
  match GetProjection s (pl_ID plan) with
  | Ok p => (s, Ok p)
  | Err e =>
      if errors_is ErrNotFound e then
        match NewProjection plan with
        | Err e => (s, Err e)
        | Ok p => let '(s, r) := SaveProjection (lio_fault2 io) s p in (s, r ;;; Ok p)
        end
      else (s, Err e)
  end.

Definition start_on (io : LegacyIo) (s : Store) (run : PipelineRun) (scope : DispatchScope)
    (envelope : ContextEnvelope) (now : Time) : Store * result unit :=
  match GetPlan s (pr_WorkspaceID run) (ds_PlanID scope) with
  | Err e => (s, Err (Wrapf "load legacy graph plan: %w" [] e))
  | Ok plan =>
      match load_or_new io s plan with
      | (s, Err e) => (s, Err (Wrapf "load legacy graph projection: %w" [] e))
      | (s, Ok projection) =>
          let now := orNow (lio_now io) now in
          if default "" (na_ID <$> pp_Attempts projection !! ds_AttemptID scope) ≟ ds_AttemptID scope then (s, Ok tt)
          else
            let attemptNo := add64 (np_AttemptNo (node_at projection (ds_NodeID scope))) 1 in
            let lease := {| ls_Key := pl_ID plan +:+ ":" +:+ ds_NodeID scope; ls_Owner := "legacy-adapter";
                            ls_FencingToken := UnixNano now; ls_ExpiresAt := (now + lease_ttl)%Z |} in
            let payloadHash := legacyGraphPayloadHash scope envelope in
            let input := {| ti_PlanRevision := pl_Revision plan; ti_AttemptID := ds_AttemptID scope;
                            ti_LeaseToken := ls_FencingToken lease; ti_Event := ""; ti_Result := zero_Result;
                            ti_Failure := None; ti_OutputArtifacts := [];
                            ti_IdempotencyKey := "legacy:" +:+ ds_AttemptID scope; ti_PayloadHash := payloadHash;
                            ti_Now := now |} in
            match StartAttempt (lio_now io) projection plan (ds_NodeID scope) (ds_AttemptID scope) attemptNo lease
                    envelope input with
            | (_, Err e) =>
                (s, Err (Wrapf "start legacy graph attempt for %s: %w"
                           [PipelineStage_String (ws_Stage (StepFor run (pr_PipelineStage run)))] e))
            | (projection, Ok a) =>
                commitLegacyGraphEvent io s plan projection a "attempt.started" ("legacy:" +:+ ds_AttemptID scope)
                  {| lst_AdapterVersion := LegacyAdapterVersion; lst_Stage := pr_PipelineStage run;
                     lst_StageName := PipelineStage_String (pr_PipelineStage run); lst_AttemptID := na_ID a;
                     lst_AttemptNo := na_AttemptNo a; lst_NodeID := na_NodeID a; lst_Lease := lease;
                     lst_Context := envelope; lst_DispatchPayloadHash := payloadHash; lst_StartedAt := now |}
                  (ls_FencingToken lease)
            end
      end
  end.

(** [s == nil || s.Orchestration == nil]. *)
Definition with_store (s : option Store) (f : Store → Store * result unit) : option Store * result unit :=
  match s with None => (None, Ok tt) | Some s => let '(s, r) := f s in (Some s, r) end.

Definition startLegacyGraphAttempt (io : LegacyIo) (s : option Store) (run : PipelineRun) (scope : DispatchScope)
    (envelope : ContextEnvelope) (now : Time) : option Store * result unit :=
  with_store s (λ s, start_on io s run scope envelope now).

(** ** Binding *)

(** The plan and the projection of a run. *)
Definition plan_projection (s : Store) (ws planID : string) : result (RequirementExecutionPlan * PlanProjection) :=
  let* plan := GetPlan s ws planID in
  let* projection := GetProjection s (pl_ID plan) in
  Ok (plan, projection).

Definition bindLegacyGraphAttempt (io : LegacyIo) (s : option Store) (run : PipelineRun)
    (attemptID bindingID sessionID workDir : string) : option Store * result unit :=
  with_store s (λ s,
    if blank attemptID then (s, Ok tt) else
    let planID := if pr_ExecutionPlanID run ≟ "" then "legacy-plan-" +:+ pr_ID run else pr_ExecutionPlanID run in
    match plan_projection s (pr_WorkspaceID run) planID with
    | Err e => (s, Err e)
    | Ok (plan, projection) =>
        match pp_Attempts projection !! attemptID with
        | None => (s, Err (ESentinel ErrStaleAttempt))
        | Some a =>
            match (reject (blank bindingID || blank sessionID || blank workDir)
                     (Errorf "legacy graph provider binding requires run_id, session_id and workdir" []) ;;;
                   reject ((na_RunID a ≠? "") && (na_RunID a ≠? bindingID))
                     (Errorf "legacy graph attempt %s binding is immutable" [attemptID])) with
            | Err e => (s, Err e)
            | Ok _ =>
                let a := bind_run bindingID sessionID workDir (na_ChildPlanID a) a in
                commitLegacyGraphEvent io s plan (put_attempt attemptID a projection) a "attempt.bound"
                  ("legacy:" +:+ attemptID +:+ ":bound")
                  {| lbd_AttemptID := attemptID; lbd_RunID := bindingID; lbd_SessionID := sessionID;
                     lbd_WorkDir := workDir |}
                  (ls_FencingToken (na_Lease a))
            end
        end
    end).

(** ** Finishing *)

Definition finish_transition (plan : RequirementExecutionPlan) (a : NodeAttempt) (event key : string)
    (res : StructuredResult) (failure : option FailureReason) (now : Time) : TransitionInput :=
  {| ti_PlanRevision := pl_Revision plan; ti_AttemptID := na_ID a; ti_LeaseToken := ls_FencingToken (na_Lease a);
     ti_Event := event; ti_Result := res; ti_Failure := failure; ti_OutputArtifacts := [];
     ti_IdempotencyKey := key; ti_PayloadHash := ""; ti_Now := now |}.

(** [FinishAttempt] and the commit of its event. *)
Definition finish_and_commit (io : LegacyIo) (s : Store) (plan : RequirementExecutionPlan) (projection : PlanProjection)
    (a : NodeAttempt) (event key : string) (res : StructuredResult) (failure : option FailureReason)
    : Store * result unit :=
  let now := lio_now io in
  match FinishAttempt now projection plan (na_ID a) (finish_transition plan a event key res failure now) with
  | (_, Err e) => (s, Err e)
  | (projection, Ok finished) =>
      commitLegacyGraphEvent io s plan projection finished "attempt.finished" key
        {| lfn_AttemptID := na_ID a; lfn_Event := event; lfn_Result := res; lfn_Failure := failure;
           lfn_TransitionKey := key; lfn_TransitionAt := now |}
        (ls_FencingToken (na_Lease finished))
  end.

Definition finishLegacyGraphAttempt (io : LegacyIo) (s : option Store) (run next : PipelineRun) (x : PipelineStepResult)
    : option Store * result unit :=
  with_store s (λ s,
    if blank (pr_ExecutionPlanID run) || blank (pr_ActiveGraphAttemptID run) then (s, Ok tt) else
    match plan_projection s (pr_WorkspaceID run) (pr_ExecutionPlanID run) with
    | Err e => (s, Err e)
    | Ok (plan, projection) =>
        match pp_Attempts projection !! pr_ActiveGraphAttemptID run with
        | None => (s, Err (ESentinel ErrStaleAttempt))
        | Some a =>
            let event := legacy_event (pr_Status next) (ToLower (TrimSpace (sr_Outcome x))) in
            finish_and_commit io s plan projection a event ("legacy:" +:+ na_ID a +:+ ":finish")
              (legacy_result next x) (legacy_failure event (sr_Summary x))
        end
    end).

(** A dispatch the provider refused; [summary] is [providerSafeError] of the cause. *)
Definition failLegacyGraphDispatch (io : LegacyIo) (s : option Store) (run : PipelineRun) (summary : string)
    : option Store * result unit :=
  if blank (pr_ActiveGraphAttemptID run) then (s, Ok tt)
  else
    finishLegacyGraphAttempt io s run (with_status PipelineSuspended run)
      {| sr_Stage := pr_PipelineStage run; sr_AgentID := AgentFor run (pr_PipelineStage run); sr_Outcome := "fail";
         sr_Summary := summary; sr_DesignDoc := ""; sr_CodeVersion := ""; sr_Coverage := zero_float;
         sr_PassedTests := []; sr_FailedTests := []; sr_ErrorLog := summary; sr_RepairNote := ""; sr_Report := "";
         sr_ProviderIssueID := ""; sr_ProviderTaskID := ""; sr_ProviderSessionID := ""; sr_ProviderWorkDir := "" |}.

(** ** Approvals *)

Definition approval_result (next : PipelineRun) (approval : LegacyApproval) (outcome : string) : StructuredResult :=
  {| res_Outcome := outcome; res_ReasonCode := "";
     res_Fields := list_to_map
       [("approval_id", VString (la_ID approval));
        ("next_node_id", VString (PipelineNodeID (pr_PipelineStage next)));
        ("next_stage", VInt KInt (pr_PipelineStage next));
        ("continue", VBool (pr_Status next ≟ PipelineRunning));
        ("pipeline_status", VTyped "domain.PipelineStatus" (VString (pr_Status next)))];
     res_Summary := la_Reason approval; res_EvidenceIDs := ["approval:" +:+ la_ID approval] |}.

Definition resolveLegacyGraphApproval (io : LegacyIo) (s : option Store) (run next : PipelineRun)
    (approval : LegacyApproval) : option Store * result unit :=
  with_store s (λ s,
    if blank (pr_ExecutionPlanID run) || blank (pr_ActiveGraphAttemptID run) then (s, Ok tt) else
    match plan_projection s (pr_WorkspaceID run) (pr_ExecutionPlanID run) with
    | Err e => (s, Err e)
    | Ok (plan, projection) =>
        match pp_Attempts projection !! pr_ActiveGraphAttemptID run with
        | None => (s, Err (ESentinel ErrStaleAttempt))
        | Some a =>
            if na_Status a ≠? AttemptWaiting then (s, Err (ESentinel ErrStaleAttempt)) else
            let rejected := la_Decision approval ≟ "rejected" in
            finish_and_commit io s plan projection a
              (if rejected then "approval_denied" else "approval_granted")
              ("legacy:" +:+ na_ID a +:+ ":approval:" +:+ la_ID approval)
              (approval_result next approval (if rejected then "rejected" else "approved"))
              (if rejected
               then Some {| fr_Code := "legacy_pipeline_approval_denied"; fr_Message := la_Reason approval;
                            fr_Retryable := false |}
               else None)
        end
    end).

(** ** The dual write at creation *)

Definition legacy_binding : ExecutorBinding :=
  {| eb_ProviderID := "local"; eb_RuntimeID := ""; eb_Model := ""; eb_ThinkingLevel := ""; eb_ServiceTier := "";
     eb_CustomArgs := []; eb_RuntimeConfig := ∅; eb_Environment := []; eb_ProviderVersion := ""; eb_BinaryDigest := "";
     eb_RequiredCaps := ["run.snapshot.v1"]; eb_ConfigVersion := "" |}.

(** The frozen agent of a historical role: the fields the adapter sets, the rest zero. *)
Definition legacy_agent (now : Time) (run : PipelineRun) (step : WorkflowStep) : AgentDefinition :=
  {| ad_ID := ws_AgentID step; ad_WorkspaceID := pr_WorkspaceID run; ad_Revision := 1;
     ad_Name := "legacy-" +:+ ws_AgentID step; ad_OwnerID := ""; ad_Description := ""; ad_AvatarURL := "";
     ad_Role := PipelineStage_String (ws_Stage step); ad_Instructions := ""; ad_ConversationStarters := [];
     ad_AccessPolicy := {| ap_Mode := ""; ap_MemberIDs := [] |}; ad_SkillIDs := []; ad_DisabledRuntimeSkills := [];
     ad_MCPServerIDs := []; ad_Capabilities := [];
     ad_ToolPolicy := {| tp_Allowed := []; tp_Denied := []; tp_Network := false; tp_SecretScopes := [] |};
     ad_MemoryPolicy := {| mp_ReadScopes := []; mp_WriteScopes := []; mp_RequireEvidence := false |};
     ad_ExecutorBinding := legacy_binding; ad_ConcurrencyBudget := zero_Budget;
     ad_InputSchema := {| sr_ID := "legacy-input"; sr_Version := 1 |};
     ad_OutputSchema := {| sr_ID := "legacy-output"; sr_Version := 1 |};
     ad_Graph := {| g_ID := ""; g_Version := 0; g_EntryNodeIDs := []; g_ExitNodeIDs := []; g_Nodes := []; g_Edges := [];
                    g_ValidationDigest := "" |};
     ad_Status := AgentActive; ad_CreatedBy := "legacy-adapter"; ad_CreatedAt := now; ad_UpdatedAt := now |}.

(** Registering the agent of each step that has none; one write per agent. *)
Fixpoint register_agents (now : Time) (faults : nat → fault) (s : Store) (run : PipelineRun) (steps : list WorkflowStep)
    : Store * result unit :=
  match steps with
  | [] => (s, Ok tt)
  | step :: rest =>
      if blank (ws_AgentID step) then register_agents now faults s run rest
      else match GetAgent s (pr_WorkspaceID run) (ws_AgentID step) 1 with
           | Ok _ => register_agents now faults s run rest
           | Err _ =>
               match SaveAgent (faults (length rest)) s (legacy_agent now run step) 0 with
               | (s, Err e) => (s, Err (Wrapf "persist legacy agent %s: %w" [ws_AgentID step] e))
               | (s, Ok _) => register_agents now faults s run rest
               end
           end
  end.

Definition persistLegacyExecutionPlan (io : LegacyIo) (faults : nat → fault) (s : Store) (run : PipelineRun)
    : Store * result unit :=
  match MigratePipeline run with
  | Err e => (s, Err e)
  | Ok migrated =>
      match register_agents (lio_now io) faults s run (Steps run) with
      | (s, Err e) => (s, Err e)
      | (s, Ok _) =>
          let plan := mr_Plan migrated in
          match NewEventWithContext (lio_event io) (lio_now io) None None (pl_ID plan) (pl_WorkspaceID plan)
                  "plan.created" (pl_IdempotencyKey plan) plan with
          | Err e => (s, Err e)
          | Ok event => CreatePlanWithEvent (lio_fault io) s plan event
          end
      end
  end.
End legacy.
