(* ===== verification/LegacyProps.v ===== *)
(** * LegacyProps: the migrated plan records what the engine decided

    Every valid run migrates to a frozen plan; the result of an accepted step
    selects, in that plan's graph, exactly the edge to the stage the engine chose
    and none when the engine stopped; the traversal limits of the graph suffice for
    every run of the default workflow. *)
From stdpp Require Import base strings gmap list pretty relations.
From Stdlib Require Import ZArith Lia Ascii.
From S2P Require Import Prelude GoLib GoStrings Trace GoValue GoJson ContextModel OrchModel GraphSearch Validate PredicateSpec GraphSpec Definitions ProjectionData Projection Transition Events Repository Outbox Executor Pipeline PipelineProps Migration MigrationProps LegacyGraph.

(** ** Every valid run migrates *)

Section migrate.
Context `{!MapRange}.

Lemma GraphFromPipeline_Ok run first rest :
  PipelineRun_Validate run = Ok tt → Steps run = first :: rest →
  ∃ m, GraphFromPipeline run = Ok (legacy_graph run (legacy_nodes run) (legacy_node first), m).
Proof.
  intros Hv Hsteps. pose proof (Validate_steps run Hv) as (Hgood & _ & Hnd).
  destruct (add_nodes_Ok (Steps run) 0 [] ∅ Hgood Hnd) as [m Hm]; [intros; apply lookup_empty|].
  exists m. unfold GraphFromPipeline. rewrite Hm, Hsteps. cbn [length Nat.eqb reject rbind app fmap list_fmap].
  unfold legacy_nodes. rewrite Hsteps. cbn [fmap list_fmap].
  pose proof (legacy_graph_wf run first rest Hv Hsteps) as Hwf. unfold legacy_nodes in Hwf. rewrite Hsteps in Hwf.
  cbn [fmap list_fmap] in Hwf. apply ValidateGraph_decides in Hwf. by rewrite Hwf.
Qed.

Lemma Steps_nonempty run : PipelineRun_Validate run = Ok tt → ∃ first rest, Steps run = first :: rest.
Proof.
  intros (_ & (s & Hs & _) & _)%Validate_steps. destruct (Steps run) as [|f l]; [set_solver|eauto].
Qed.

Context `{!Sha256, !JsonMarshal RequirementExecutionPlan}.

(** Every run that passes validation migrates: the graph of its workflow
    passes [ValidateGraph], the plan freezes, and each selected stage is a node bound
    to the agent the engine expects for that stage. *)
Theorem MigratePipeline_total run :
  PipelineRun_Validate run = Ok tt → (∀ p : RequirementExecutionPlan, is_Some (json_marshal p)) →
  ∃ res, MigratePipeline run = Ok res
    ∧ pl_Status (mr_Plan res) = PlanReady ∧ pl_ID (mr_Plan res) = "legacy-plan-" +:+ pr_ID run
    ∧ GraphWF (pl_GraphSnapshot (mr_Plan res))
    ∧ ∀ stage, selected run stage →
        ∃ n, n ∈ g_Nodes (pl_GraphSnapshot (mr_Plan res)) ∧ wn_ID n = PipelineNodeID stage
             ∧ (vr_ID <$> wn_AgentRef n) = Some (AgentFor run stage).
Proof.
  intros Hv Hjson. destruct (Steps_nonempty run Hv) as (first & rest & Hsteps).
  destruct (GraphFromPipeline_Ok run first rest Hv Hsteps) as [m Hg].
  pose proof (legacy_graph_wf run first rest Hv Hsteps) as Hwf.
  set (g := legacy_graph run (legacy_nodes run) (legacy_node first)) in *.
  assert (Hvalid : ValidateGraph g = Ok tt) by (by apply ValidateGraph_decides).
  pose proof Hv as Hv'. unfold PipelineRun_Validate in Hv'. repeat (apply rbind_unit_Ok in Hv' as [? Hv']).
  match goal with H : reject (blank (pr_WorkspaceID run) || _) _ = _ |- _ =>
    apply reject_tt, orb_false_iff in H as [Hws Hreq] end.
  destruct (Hjson (pl_with "" (PlanStatusOther "") 0 0 (legacy_plan run g))) as [b Hb].
  assert (Hfreeze : Freeze (legacy_plan run g) = (pl_with (sha256_hex b) PlanReady 1 0 (legacy_plan run g), Ok tt)).
  { unfold Freeze, canonicalPlanHash, marshal_sha256. rewrite Hb.
    cbn [legacy_plan pl_ID pl_RequirementID pl_WorkspaceID pl_ParentPlanID pl_ParentAttemptID pl_GraphSnapshot pl_Deadline
      pl_CreatedAt pl_Status]. rewrite Hws, Hreq, Hvalid.
    assert (blank ("legacy-plan-" +:+ pr_ID run) = false) as -> by apply prefixed_not_blank. done. }
  unfold MigratePipeline. rewrite Hg. cbn [rbind]. rewrite Hfreeze. eexists. split; [reflexivity|].
  cbn [mr_Plan pl_with pl_Status pl_ID pl_GraphSnapshot legacy_plan].
  split; [done|]. split; [done|]. split; [done|]. intros stage (s & Hs & Hst).
  destruct (step_at_spec stage (Steps run)) as [(u & Hu & Hin & Hus)|[_ Hno]]; [|by destruct (Hno s)].
  exists (legacy_node u). cbn [g legacy_graph g_Nodes].
  split; [apply elem_of_legacy_nodes; by exists u|]. split; [by rewrite <- Hus|].
  cbn. unfold AgentFor, StepFor. rewrite Hu. destruct (Validate_steps run Hv) as (Hgood & _ & _).
  rewrite Forall_forall in Hgood. destruct (Hgood u Hin) as (_ & Hblank & _). cbn zeta.
  rewrite bool_decide_eq_false_2; [done|]. intros E. by rewrite E in Hblank.
Qed.
End migrate.

(** ** The graph follows the engine *)

(** Matching is a filter when no edge asks for evidence and no predicate fails. *)
Lemma matchEdges_filter a input (holds : WorkflowEdge → bool) es :
  Forall (λ e, we_RequiredEvidence e = []
               ∧ EvaluatePredicate (we_Predicate e) (resultFields (na_Result a)) = Ok (holds e)) es →
  matchEdges a input es = Ok (filter (λ e, edge_matches a input e && holds e = true) es).
Proof.
  induction 1 as [|e es [Hev He] _ IH]; [done|]. cbn [matchEdges]. rewrite filter_cons, IH, He, Hev.
  destruct (edge_matches a input e); cbn; [|done]. by destruct (holds e).
Qed.

Lemma filter_unique {A} (P : A → Prop) `{!∀ x, Decision (P x)} (l : list A) t :
  NoDup l → t ∈ l → (∀ x, x ∈ l → P x ↔ x = t) → filter P l = [t].
Proof.
  intros Hnd Ht HP. apply Permutation_singleton_r. apply NoDup_Permutation; [by apply NoDup_filter|apply NoDup_singleton|].
  intros x. rewrite list_elem_of_filter, list_elem_of_singleton. naive_solver.
Qed.

Lemma field_eq_eval field v w fields :
  fields !! field = Some v → evalPredicate (MkPredicate "field_eq" field "" w []) fields = Ok (DeepEqual v w).
Proof. intros Hf. cbn [evalPredicate]. by rewrite Hf. Qed.

Lemma legacy_predicate_eval to fields c n :
  fields !! "continue" = Some (VBool c) → fields !! "next_node_id" = Some (VString n) →
  EvaluatePredicate (legacy_predicate to) fields = Ok (c && bool_decide (n = to)).
Proof.
  intros Hc Hn. unfold EvaluatePredicate.
  assert (ValidatePredicate (legacy_predicate to) 0 "predicate" = Ok tt) as -> by reflexivity.
  change (evalPredicate (legacy_predicate to) fields) with
    (let* b := evalPredicate (MkPredicate "field_eq" "continue" "" (VBool true) []) fields in
     if b then let* b := evalPredicate (MkPredicate "field_eq" "next_node_id" "" (VString to) []) fields in
               if b then Ok true else Ok false
     else Ok false).
  rewrite (field_eq_eval _ _ _ _ Hc), (field_eq_eval _ _ _ _ Hn). cbn [DeepEqual rbind].
  destruct c; [|done]. cbn [andb]. change (bool_decide (true = true)) with true. cbn iota. by case_bool_decide.
Qed.

(** The event of an accepted result and the edge event it travels on. *)
Definition edge_of_outcome (outcome : string) : EdgeEvent * string :=
  if outcome ≟ "pass" then (EdgeSuccess, "success") else (EdgeFailure, "failure").

Lemma edge_of_outcome_in outcome : edge_of_outcome outcome ∈ legacy_events.
Proof. unfold edge_of_outcome, legacy_events. case_bool_decide; set_solver. Qed.

Lemma legacy_events_fst ev ev' : ev ∈ legacy_events → ev' ∈ legacy_events → fst ev = fst ev' → ev = ev'.
Proof. unfold legacy_events. set_unfold. naive_solver. Qed.

Lemma lower_outcome x : sr_Outcome x = "pass" ∨ sr_Outcome x = "fail" →
  ToLower (TrimSpace (sr_Outcome x)) = sr_Outcome x.
Proof. by intros [->| ->]. Qed.

(** Only the edges of the outcome's event match. *)
Lemma outcome_matches outcome event status :
  outcome = "pass" ∨ outcome = "fail" → event = legacy_event PipelineRunning outcome →
  finishStatus event = Ok status →
  ∀ ev, ev ∈ legacy_events → eventMatches (fst ev) status event outcome = true ↔ ev = edge_of_outcome outcome.
Proof.
  intros [->| ->] -> Hs ev Hev; vm_compute in Hs; injection Hs as <-; unfold legacy_events in Hev; set_unfold in Hev;
    destruct Hev as [->|[->|[->|[]]]]; vm_compute; (split; [try done|try done; discriminate]).
Qed.

Section follow.
Context `{!MapRange, !Sha256}.

Lemma legacy_fields_continue next x (res := legacy_result next x) :
  resultFields res !! "continue" = Some (VBool (pr_Status next ≟ PipelineRunning)).
Proof. reflexivity. Qed.
Lemma legacy_fields_next next x (res := legacy_result next x) :
  resultFields res !! "next_node_id" = Some (VString (PipelineNodeID (pr_PipelineStage next))).
Proof. reflexivity. Qed.

(** C27: Edge selection agrees with the engine.  When the engine accepts a result, the
    attempt that records it in the migrated graph matches exactly one edge, from the
    stage it was for to the stage the engine chose, on the event of its outcome, when
    the run goes on; and no edge at all when the engine suspended or completed the
    run or waits for an approval.  So the edge is never ambiguous.  This is about the
    matching of edges only: whether the matched edge is within its traversal limit
    and what the graph does when none matches is not (see
    [step_limit_exceeds_traversals] and [suspended_run_retried_by_graph]). *)
Theorem graph_follows_engine now r x r' g m a input :
  wf_run r → Apply now r x = (r', Ok tt) → GraphFromPipeline r = Ok (g, m) →
  na_NodeID a = PipelineNodeID (pr_PipelineStage r) → na_Result a = legacy_result r' x →
  ti_Event input = legacy_event (pr_Status r') (sr_Outcome x) → finishStatus (ti_Event input) = Ok (na_Status a) →
  matchEdges a input (g_Edges g) =
    Ok (if pr_Status r' ≟ PipelineRunning
        then [legacy_edge (loop_limit r) (PipelineNodeID (pr_PipelineStage r)) (PipelineNodeID (pr_PipelineStage r'))
                (fst (edge_of_outcome (sr_Outcome x))) (snd (edge_of_outcome (sr_Outcome x)))]
        else []).
Proof.
  intros Hwf Ha Hg Hnode Hres Hevent Hstatus. pose proof (wf_valid r Hwf) as Hv.
  destruct (Steps_nonempty r Hv) as (first & rest & Hsteps).
  destruct (GraphFromPipeline_Ok r first rest Hv Hsteps) as [m' Hg']. rewrite Hg in Hg'. injection Hg' as -> _.
  pose proof (Apply_keeps_wf now r x Hwf) as Hwf'. rewrite Ha in Hwf'. cbn [fst] in Hwf'.
  assert (Hsel' : selected r (pr_PipelineStage r')).
  { destruct (Apply_inv _ _ _ _ Ha) as (_ & s & w & v & _ & _ & ->). exact (wf_stage _ Hwf'). }
  destruct (Apply_inv _ _ _ _ Ha) as (Hguards & _). apply guards_inv in Hguards as (_ & _ & _ & Hout).
  cbn [legacy_graph g_Edges].
  rewrite (matchEdges_filter a input
    (λ e, (pr_Status r' ≟ PipelineRunning) && bool_decide (PipelineNodeID (pr_PipelineStage r') = we_To e))).
  2: { apply Forall_forall. intros e He.
       destruct (legacy_edge_ends _ _ _ Hv He) as (b & c & ev & _ & _ & _ & _ & _ & ->). split; [done|].
       rewrite Hres. apply legacy_predicate_eval; [apply legacy_fields_continue|apply legacy_fields_next]. }
  f_equal. destruct (decide (pr_Status r' = PipelineRunning)) as [Hrun|Hstop].
  - rewrite (bool_decide_eq_true_2 _ Hrun). apply filter_unique.
    + apply legacy_edges_NoDup, legacy_nodes_NoDup, Hv.
    + apply legacy_edge_in; [apply Hwf|done|apply edge_of_outcome_in].
    + intros e He. destruct (legacy_edge_ends _ _ _ Hv He) as (b & c & ev & _ & _ & _ & _ & Hev & ->).
      rewrite Hrun in Hevent.
      pose proof (outcome_matches _ _ _ Hout Hevent Hstatus ev Hev) as Hmatch.
      unfold edge_matches. rewrite Hnode, Hres. cbn [legacy_edge legacy_result we_From we_To we_On res_Outcome].
      rewrite (lower_outcome x Hout), !andb_true_iff, !bool_decide_eq_true, Hmatch. split.
      * intros [[Hfrom ->] [_ Hto]]. by rewrite Hfrom, Hto.
      * intros E. pose proof (f_equal we_From E : PipelineNodeID _ = PipelineNodeID _) as Hfrom.
        pose proof (f_equal we_To E : PipelineNodeID _ = PipelineNodeID _) as Hto.
        pose proof (f_equal we_On E : fst _ = fst _) as Hon.
        split; [split; [done|]|by split].
        apply legacy_events_fst; [done|apply edge_of_outcome_in|done].
  - rewrite (bool_decide_eq_false_2 _ Hstop). cbn [andb].
    induction (legacy_edges _ _) as [|e es IH]; [done|]. rewrite filter_cons.
    rewrite decide_False; [exact IH|]. rewrite andb_false_r. done.
Qed.
End follow.

(** ** Traversal limits *)

(** How often a history goes from one stage to another. *)
Definition hop (a b : Z) (t : PipelineTransition) : Z :=
  if bool_decide (pt_From t = a ∧ pt_To t = b) then 1 else 0.
Definition hops (a b : Z) (h : list PipelineTransition) : Z := foldr (λ t n, (hop a b t + n)%Z) 0%Z h.

Lemma hops_snoc a b h t : hops a b (h ++ [t]) = (hops a b h + hop a b t)%Z.
Proof. unfold hops. induction h as [|u h IH]; cbn [foldr app]; lia. Qed.

Lemma hops_nonneg a b h : (0 ≤ hops a b h)%Z.
Proof.
  unfold hops. induction h as [|u h IH]; cbn [foldr]; [lia|].
  unfold hop at 1. case_bool_decide; lia.
Qed.

Definition over (r : PipelineRun) : Z := if terminal_status (pr_Status r) then 1 else 0.
Definition laps (r : PipelineRun) : Z := hops PipelineArbitration PipelineDevelopment (pr_History r).

(** Within one repair lap every forward edge is taken at most once: the rank falls.
    Only the repair edge and the repeats of development and unit tests go back, and
    they are counted. *)
Record lap (r : PipelineRun) : Prop := {
  lap_forward : ∀ a b, (rank b < rank a)%Z →
    (hops a b (pr_History r) ≤ laps r + if (rank (pr_PipelineStage r) <=? rank b)%Z then 1 else 0)%Z;
  lap_backward : ∀ a b, (rank a < rank b)%Z → ¬ (a = PipelineArbitration ∧ b = PipelineDevelopment) →
    hops a b (pr_History r) = 0%Z;
  lap_still : ∀ a, a ≠ PipelineDevelopment → a ≠ PipelineUnitTest → (hops a a (pr_History r) ≤ over r)%Z;
  lap_develop : (laps r + hops PipelineDevelopment PipelineDevelopment (pr_History r) ≤ pr_MaxRetries r + over r)%Z;
  lap_test : (hops PipelineUnitTest PipelineUnitTest (pr_History r) ≤ pr_MaxRetries r + over r)%Z;
  lap_repairs : (laps r ≤ pr_MaxRetries r)%Z;
  lap_counted : terminal_status (pr_Status r) = false →
    (laps r + hops PipelineDevelopment PipelineDevelopment (pr_History r) ≤ pr_RetryCount r
     ∧ hops PipelineUnitTest PipelineUnitTest (pr_History r) ≤ pr_UnitRetryCount r)%Z }.

Lemma default_bound r : pr_Workflow r = [] → retry_bound r = pr_MaxRetries r.
Proof. intros Hw. unfold retry_bound. rewrite !default_retryLimit by done. lia. Qed.

(** The history, stage and counters after an accepted result. *)
Lemma Apply_moves now r x r' :
  wf_run r → counted r → Apply now r x = (r', Ok tt) →
  terminal_status (pr_Status r) = false ∧
  ∃ s w v, Edge (prepared r x s w) x v
    ∧ (∃ t, pr_History r' = pr_History r ++ [t] ∧ pt_From t = pr_PipelineStage r ∧ pt_To t = vd_stage v)
    ∧ pr_PipelineStage r' = vd_stage v ∧ pr_Status r' = vd_status v ∧ pr_Workflow r' = pr_Workflow r
    ∧ pr_MaxRetries r' = pr_MaxRetries r
    ∧ pr_RetryCount r' = (pr_RetryCount r + spent (counts_retry r x))%Z
    ∧ pr_UnitRetryCount r' = (pr_UnitRetryCount r + spent (counts_unit_retry r x))%Z
    ∧ (sr_Outcome x = "pass" ∨ sr_Outcome x = "fail").
Proof.
  intros Hwf [Hfits HR HU Hlive _] Ha. destruct (Apply_inv _ _ _ _ Ha) as (Hg & s & w & v & Hpin & Hn & ->).
  destruct (guards_inv _ _ Hg) as (Ht & _ & _ & Hout). destruct (Hlive Ht) as [HRb HUb]. split; [done|].
  exists s, w, v. split; [apply nextStage_edge; [apply Hwf|done]|].
  split; [by eexists; split; [reflexivity|]|]. repeat split; try done.
  - by apply (bump_ge _ _ (retry_bound r)); [lia|].
  - by apply (bump_ge _ _ (retry_bound r)); [lia|].
Qed.

Lemma hop_eq a b t f u : pt_From t = f → pt_To t = u → hop a b t = if bool_decide (f = a ∧ u = b) then 1%Z else 0%Z.
Proof. by intros <- <-. Qed.

(** The moves of the default workflow, with what they cost. *)
Definition default_move (r r' : PipelineRun) : Prop :=
  let f := pr_PipelineStage r in let u := pr_PipelineStage r' in
  if terminal_status (pr_Status r') then u = f
  else (pr_RetryCount r ≤ pr_RetryCount r' ≤ pr_MaxRetries r
        ∧ pr_UnitRetryCount r ≤ pr_UnitRetryCount r' ≤ pr_MaxRetries r)%Z
    ∧ ((rank u < rank f)%Z
       ∨ f = PipelineArbitration ∧ u = PipelineDevelopment ∧ (pr_RetryCount r < pr_RetryCount r')%Z
       ∨ f = PipelineDevelopment ∧ u = PipelineDevelopment ∧ (pr_RetryCount r < pr_RetryCount r')%Z
       ∨ f = PipelineUnitTest ∧ u = PipelineUnitTest ∧ (pr_UnitRetryCount r < pr_UnitRetryCount r')%Z).

Lemma rank_falls f u : (1 ≤ f ≤ 7)%Z → (1 ≤ u ≤ 7)%Z → (f < u)%Z → f ≠ PipelineArbitration → (rank u < rank f)%Z.
Proof.
  unfold rank, PipelineArbitration, PipelineRevalidation, PipelineReport. intros Hf Hu Hlt Hne.
  repeat match goal with |- context [(?a =? ?b)%Z] => destruct (Z.eqb_spec a b) end; lia.
Qed.

Lemma Apply_default_move now r x r' :
  wf_run r → counted r → pr_Workflow r = [] → Apply now r x = (r', Ok tt) → default_move r r'.
Proof.
  intros Hwf Hc Hw Ha. destruct (Apply_spends _ _ _ _ Hwf Hc Ha) as [Hc' _].
  pose proof (Apply_keeps_wf now r x Hwf) as Hwf'. rewrite Ha in Hwf'. cbn [fst] in Hwf'.
  destruct (Apply_moves _ _ _ _ Hwf Hc Ha) as (Ht & s & w & v & He & _ & Hst & Hstat & Hw' & Hmax & HR & HU & Hout).
  unfold default_move. destruct Hc as [Hfits _ _ Hlive Hap], Hc' as [_ _ _ Hlive' _].
  rewrite (default_bound r' ltac:(by rewrite Hw')), Hmax in Hlive'.
  pose proof (Validate_stage r (wf_valid r Hwf)) as Hs%stage_valid.
  pose proof (Validate_stage r' (wf_valid r' Hwf')) as Hs'%stage_valid.
  destruct (terminal_status (pr_Status r')) eqn:Ht'.
  { rewrite Hst. rewrite Hstat in Ht'. inversion He; subst v; try discriminate; cbn [vd_stage]; done. }
  destruct (Hlive' eq_refl) as [HR' HU'].
  assert (0 ≤ spent (counts_retry r x))%Z by (by destruct (counts_retry r x)).
  assert (0 ≤ spent (counts_unit_retry r x))%Z by (by destruct (counts_unit_retry r x)).
  split; [lia|]. rewrite Hstat in Ht'.
  inversion He as [| | |Hk Hp Hl|Hk Hp Hl|Hk Hp Hh'|Hk Hp Hw'' Hh' Hd Hl|Hk Hp Hh' Hl|n Hk Hp Hh' Hl Hlt Hsel Hn|
    n Hk Hk' Hp Hrd Hlt Hsel Hn Hn']; subst v; cbn [vd_stage vd_status] in *; clear He; try discriminate.
  - unfold awaits_approval in *. cbn in *. congruence.
  - right. right. left. assert (counts_retry r x = true) as E.
    { apply counts_retry_true. left. split; [done|]. destruct Hout; done. }
    rewrite E in HR. cbn [spent] in HR. repeat split; [done|done|lia].
  - right. right. right. assert (counts_unit_retry r x = true) as E.
    { apply counts_unit_true. split; [done|]. destruct Hp; [left; by destruct Hout|by right]. }
    rewrite E in HU. cbn [spent] in HU. repeat split; [done|done|lia].
  - left. rewrite Hst. cbn in Hk. by destruct Hk as [->| ->].
  - done.
  - right. left. assert (counts_retry r x = true) as E by (apply counts_retry_true; right; by left).
    rewrite E in HR. cbn [spent] in HR. repeat split; [done|done|lia].
  - change (HasStage r PipelineDevelopment = false) in Hh'. by rewrite (default_selected r _ Hw) in Hh'.
  - left. rewrite Hst. apply rank_falls; [done|by rewrite <- Hst|done|done].
Qed.

Lemma over_live r : terminal_status (pr_Status r) = false → over r = 0%Z.
Proof. unfold over. by intros ->. Qed.

Ltac hop_case := repeat match goal with |- context [bool_decide ?P] => destruct (bool_decide_reflect P) end.

(** Arithmetic of one live move, by its kind. *)
Ltac lap_cases Hkind :=
  hop_case;
  destruct Hkind as [Hr|[(E1 & E2 & ?)|[(E1 & E2 & ?)|(E1 & E2 & ?)]]]; destruct_and?; try lia;
  try (exfalso; match goal with Hf : ?f = _, Hu : ?u = _, Hr : (rank ?u < rank ?f)%Z |- _ => rewrite Hf, Hu in Hr; lia end);
  try (exfalso; unfold PipelineArbitration, PipelineDevelopment, PipelineUnitTest in *; lia);
  try (exfalso; match goal with Hno : ¬ (_ ∧ _) |- _ => by apply Hno end).

Lemma lap_step now r x r' :
  wf_run r → counted r → pr_Workflow r = [] → lap r → Apply now r x = (r', Ok tt) → lap r'.
Proof.
  intros Hwf Hc Hw [Jf Jb Js Jd Jt Jr Jc] Ha. pose proof (Apply_default_move _ _ _ _ Hwf Hc Hw Ha) as Hmove.
  destruct (Apply_moves _ _ _ _ Hwf Hc Ha) as (Ht & s & w & v & _ & (t & Hh & Hf & Hto) & Hst & _ & _ & Hmax & _ & _ & _).
  rewrite <- Hst in Hto. clear Hst Ha s w v. rewrite (over_live r Ht) in *. specialize (Jc Ht).
  unfold default_move in Hmove. unfold laps in *.
  assert (Hhop : ∀ a b, hops a b (pr_History r') =
    (hops a b (pr_History r) + if bool_decide (pr_PipelineStage r = a ∧ pr_PipelineStage r' = b) then 1 else 0)%Z).
  { intros a b. by rewrite Hh, hops_snoc, (hop_eq _ _ _ _ _ Hf Hto). }
  assert (Hnn : ∀ a b, (0 ≤ hops a b (pr_History r))%Z).
  { intros a b. apply hops_nonneg. }
  clear Hh Hf Hto t. set (h := pr_History r) in *. set (h' := pr_History r') in *.
  set (f := pr_PipelineStage r) in *. set (u := pr_PipelineStage r') in *.
  pose proof (Hhop PipelineArbitration PipelineDevelopment) as HL.
  pose proof (Hhop PipelineDevelopment PipelineDevelopment) as HD.
  pose proof (Hhop PipelineUnitTest PipelineUnitTest) as HT.
  assert (Hnorepeat : ∀ a b, a ≠ b → u = f → bool_decide (f = a ∧ u = b) = false).
  { intros a b Hne E. apply bool_decide_eq_false. intros [Ha Hb]. congruence. }
  assert (R2 : rank PipelineDevelopment = 6%Z) by done. assert (R3 : rank PipelineUnitTest = 5%Z) by done.
  assert (R5 : rank PipelineArbitration = 2%Z) by done.
  destruct (terminal_status (pr_Status r')) eqn:Ht'.
  - assert (Ho : over r' = 1%Z) by (unfold over; by rewrite Ht').
    rewrite (Hnorepeat PipelineArbitration PipelineDevelopment) in HL by done.
    split; unfold laps; fold h' u; rewrite ?Ho, ?Hmax.
    + intros a b Hab. specialize (Jf a b Hab). rewrite Hhop, Hnorepeat, Hmove; [cbn iota in *; lia|by intros ->; lia|done].
    + intros a b Hab Hne. rewrite Hhop, Hnorepeat, (Jb a b Hab Hne); [done|by intros ->; lia|done].
    + intros a H2 H3. specialize (Js a H2 H3). rewrite Hhop. hop_case; lia.
    + rewrite HL, HD. hop_case; lia.
    + rewrite HT. hop_case; lia.
    + lia.
    + by rewrite Ht'.
  - assert (Ho : over r' = 0%Z) by (unfold over; by rewrite Ht').
    destruct Hmove as [Hcount Hkind].
    assert (Hkind' : (rank u < rank f)%Z ∨ f = PipelineArbitration ∧ u = PipelineDevelopment ∨ u = f).
    { clear -Hkind. destruct Hkind as [?|[(? & ? & _)|[(-> & -> & _)|(-> & -> & _)]]]; auto. }
    split; unfold laps; fold h' u; rewrite ?Ho, ?Hmax.
    + intros a b Hab. specialize (Jf a b Hab). rewrite Hhop, HL.
      destruct Hkind' as [Hr|[[Hf Hu]|E]].
      * destruct (bool_decide_reflect (f = PipelineArbitration ∧ u = PipelineDevelopment)) as [[E1 E2]|_];
          [rewrite E1, E2 in Hr; lia|].
        destruct (bool_decide_reflect (f = a ∧ u = b)) as [[<- <-]|_].
        -- destruct (Z.leb_spec (rank f) (rank u)), (Z.leb_spec (rank u) (rank u)); lia.
        -- destruct (Z.leb_spec (rank f) (rank b)), (Z.leb_spec (rank u) (rank b)); lia.
      * rewrite (bool_decide_eq_true_2 (f = PipelineArbitration ∧ _)) by done.
        destruct (bool_decide_reflect (f = a ∧ u = b)) as [[<- <-]|_]; [rewrite Hf, Hu in Hab; lia|].
        destruct (_ <=? _)%Z, (_ <=? _)%Z; lia.
      * rewrite !Hnorepeat by (done || intros ->; lia). rewrite E. cbn iota. lia.
    + intros a b Hab Hne. rewrite Hhop, (Jb a b Hab Hne). rewrite bool_decide_eq_false_2; [done|].
      intros [<- <-]. destruct Hkind' as [Hr|[?|E]]; [lia|done|]. rewrite E in Hab. lia.
    + intros a H2 H3. specialize (Js a H2 H3). rewrite Hhop, bool_decide_eq_false_2; [lia|].
      intros [<- E]. destruct Hkind as [Hr|[(E1 & E2 & _)|[(E1 & _)|(E1 & _)]]]; try done.
      * rewrite E in Hr. lia.
      * rewrite E1, E2 in E. discriminate.
    + rewrite HL, HD. lap_cases Hkind.
    + rewrite HT. lap_cases Hkind.
    + rewrite HL. pose proof (Hnn PipelineDevelopment PipelineDevelopment). lap_cases Hkind.
    + intros _. rewrite HL, HD, HT. lap_cases Hkind.
Qed.

(** A run before its first result. *)
Definition fresh_run (r : PipelineRun) : Prop :=
  pr_Status r = PipelineRunning ∧ pr_History r = [] ∧ pr_RetryCount r = 0%Z ∧ pr_UnitRetryCount r = 0%Z.

Lemma fresh_lap r : fresh_run r → wf_run r → lap r.
Proof.
  intros (Hs & Hh & HR & HU) Hwf. assert (0 ≤ pr_MaxRetries r)%Z.
  { pose proof (wf_valid r Hwf) as Hv. unfold PipelineRun_Validate in Hv.
    repeat (apply rbind_unit_Ok in Hv as [? Hv]). rewrite !reject_tt, ?Z.ltb_ge in *. lia. }
  assert (Ho : over r = 0%Z) by (unfold over; by rewrite Hs).
  split; unfold laps; rewrite ?Hh, ?HR, ?HU, ?Ho; intros; cbn [hops foldr]; try lia; try done.
  destruct (_ <=? _)%Z; lia.
Qed.

Lemma accepted_lap r xs r' :
  wf_run r → counted r → pr_Workflow r = [] → lap r → Accepted r xs r' →
  lap r' ∧ pr_MaxRetries r' = pr_MaxRetries r.
Proof.
  intros Hwf Hc Hw Hlap Hacc. induction Hacc as [r|now r x r1 xs r2 Ha Hacc IH]; [done|].
  destruct (Apply_spends _ _ _ _ Hwf Hc Ha) as [Hc1 _].
  pose proof (Apply_keeps_wf now r x Hwf) as Hwf1. rewrite Ha in Hwf1.
  destruct (Apply_moves _ _ _ _ Hwf Hc Ha) as (_ & s & w & v & _ & _ & _ & _ & Hw1 & Hmax & _).
  destruct IH as [IH Hm]; [done|done|by rewrite Hw1|by apply (lap_step now r x r1)|]. split; [done|]. by rewrite Hm.
Qed.

(** The traversal limit of the migrated graph never stops a run of the default
    workflow: whatever the agents answer, no pair of stages occurs in the history of
    the run more often than the limit every edge of the graph carries, so the
    reducer never reports an exhausted loop for a transition the engine accepted. *)
Theorem traversal_limits_suffice r xs r' a b :
  wf_run r → fresh_run r → pr_Workflow r = [] → awaits_approval r = false → (pr_MaxRetries r < two63 - 1)%Z →
  Accepted r xs r' → (1 ≤ a ≤ 7)%Z → (1 ≤ b ≤ 7)%Z →
  (hops a b (pr_History r') ≤ loop_limit r)%Z.
Proof.
  intros Hwf Hfresh Hw Hap Hfits Hacc Ha Hb. pose proof Hfresh as (Hs & Hh & HR & HU).
  assert (Hmax1 : (1 ≤ pr_MaxRetries r)%Z).
  { rewrite <- (default_retryLimit r PipelineDevelopment Hw). apply retryLimit_pos, Hwf. }
  assert (Hc : counted r).
  { split; rewrite ?(default_bound r Hw), ?HR, ?HU; try done; intros; lia. }
  destruct (accepted_lap r xs r' Hwf Hc Hw (fresh_lap r Hfresh Hwf) Hacc) as [[Jf Jb Js Jd Jt Jr _] Hm].
  rewrite Hm in *. assert (Hlim : loop_limit r = (pr_MaxRetries r + 1)%Z).
  { unfold loop_limit, add64. rewrite wrap64_id; [|unfold int64_range; unfold two63 in *; lia].
    cbn zeta. destruct (Z.ltb_spec (pr_MaxRetries r + 1) 1); lia. }
  rewrite Hlim. pose proof (hops_nonneg PipelineArbitration PipelineDevelopment (pr_History r')) as Hn.
  assert (over r' ≤ 1)%Z by (unfold over; destruct (terminal_status _); lia). unfold laps in *.
  destruct (Z.lt_trichotomy (rank a) (rank b)) as [Hlt|[Heq|Hgt]].
  - destruct (decide (a = PipelineArbitration ∧ b = PipelineDevelopment)) as [[-> ->]|Hne]; [lia|].
    rewrite (Jb a b Hlt Hne). lia.
  - assert (a = b) as <-.
    { revert Heq. unfold rank, PipelineArbitration, PipelineRevalidation, PipelineReport.
      repeat match goal with |- context [(?x =? ?y)%Z] => destruct (Z.eqb_spec x y) end; lia. }
    destruct (decide (a = PipelineDevelopment)) as [->|H2]; [lia|].
    destruct (decide (a = PipelineUnitTest)) as [->|H3]; [lia|]. specialize (Js a H2 H3). lia.
  - specialize (Jf a b Hgt). destruct (_ <=? _)%Z in Jf; lia.
Qed.
