(* ===== verification/PipelineSamples.v ===== *)
(** * PipelineSamples: concrete pipelines

    A default run and custom ones, the witnesses of the theorems on them, and what
    the custom workflows get wrong. *)
From stdpp Require Import base strings gmap list pretty.
From Stdlib Require Import ZArith Lia SpecFloat.
From S2P Require Import Prelude GoLib GoStrings Trace GoValue GoJson ContextModel OrchModel GraphSearch Validate PredicateSpec GraphSpec Definitions ProjectionData Projection Transition Samples Pipeline PipelineProps Migration MigrationProps LegacyGraph LegacyProps.

Definition sample_roles : PipelineAgentRoles :=
  {| ro_Designer := "designer"; ro_Developer := "dev"; ro_Tester := "test"; ro_Arbitrator := "arb" |}.
Definition empty_context : PipelineContext :=
  {| pc_RequirementText := "req"; pc_DesignDoc := ""; pc_BaselineCommit := ""; pc_CurrentCommit := ""; pc_PassedTests := [];
     pc_FailedTests := []; pc_ErrorLogs := []; pc_RepairNotes := []; pc_Coverage := zero_float |}.

Definition sample_pipeline (workflow : list WorkflowStep) (stage : Z) (maxRetries : Z) : PipelineRun :=
  {| pr_ID := "run"; pr_WorkspaceID := "ws"; pr_RequirementID := "req"; pr_SessionID := "session";
     pr_PipelineWorkItemID := ""; pr_BugID := ""; pr_ParentSessionID := ""; pr_ProviderWorkDir := "";
     pr_PipelineStage := stage; pr_Status := PipelineRunning; pr_Roles := sample_roles;
     pr_WorkflowMode := WorkflowAutomatic; pr_LegacyAdapterVersion := ""; pr_ExecutionPlanID := "";
     pr_ActiveGraphNodeID := ""; pr_ActiveGraphAttemptID := ""; pr_Workflow := workflow; pr_DesignApprovalID := "";
     pr_DesignApprovalStatus := ""; pr_Context := empty_context; pr_MaxRetries := maxRetries; pr_RetryCount := 0;
     pr_UnitRetryCount := 0; pr_CoverageThreshold := float64_of_Z 80; pr_ActiveProviderIssueID := "";
     pr_ActiveProviderTaskID := ""; pr_ActiveAgentID := ""; pr_FinalReport := ""; pr_SuspendReason := "";
     pr_Version := 1; pr_History := []; pr_CreatedAt := 1; pr_UpdatedAt := 1 |}.

Definition default_run : PipelineRun := sample_pipeline [] PipelineDesign 3.

(** A run that has no history is well formed when it is valid and at a selected stage. *)
Lemma new_run_wf workflow stage maxRetries :
  let r := sample_pipeline workflow stage maxRetries in
  PipelineRun_Validate r = Ok tt → HasStage r stage = true → stage ≠ 0%Z → wf_run r.
Proof.
  intros r Hv Hs Hz. split; try done; cbn; try set_solver.
  by apply HasStage_spec.
Qed.

Lemma default_run_wf : wf_run default_run.
Proof. by apply new_run_wf. Qed.
Lemma default_run_counted : counted default_run.
Proof. split; vm_compute; try done; intros; split; discriminate. Qed.

Definition sample_result (r : PipelineRun) (outcome : string) : PipelineStepResult :=
  {| sr_Stage := pr_PipelineStage r; sr_AgentID := AgentFor r (pr_PipelineStage r); sr_Outcome := outcome;
     sr_Summary := "s"; sr_DesignDoc := "d"; sr_CodeVersion := "c"; sr_Coverage := float64_of_Z 90; sr_PassedTests := [];
     sr_FailedTests := []; sr_ErrorLog := ""; sr_RepairNote := ""; sr_Report := "r"; sr_ProviderIssueID := "";
     sr_ProviderTaskID := ""; sr_ProviderSessionID := "native"; sr_ProviderWorkDir := "/repo" |}.
Definition step_with (outcome : string) (r : PipelineRun) : PipelineRun := fst (Apply 2 r (sample_result r outcome)).

Lemma Apply_wf_witness :
  wf_run default_run ∧ wf_run (step_with "fail" (step_with "pass" default_run))
  ∧ pr_RetryCount (step_with "fail" (step_with "pass" default_run))
    = add64 (pr_RetryCount (step_with "pass" default_run)) 1.
Proof.
  split; [exact default_run_wf|].
  destruct (Apply_wf 2 default_run (sample_result default_run "pass") default_run_wf) as [Hwf _].
  destruct (Apply_wf 2 (step_with "pass" default_run) (sample_result (step_with "pass" default_run) "fail") Hwf)
    as [Hwf2 Hc].
  split; [exact Hwf2|]. apply Hc; [vm_compute; reflexivity|]. left. split; vm_compute; reflexivity.
Defined.

Definition sample_steps : list (Time * PipelineStepResult) :=
  [(2%Z, sample_result default_run "pass"); (2%Z, sample_result (step_with "pass" default_run) "fail")].
Lemma sample_accepted : Accepted default_run sample_steps (step_with "fail" (step_with "pass" default_run)).
Proof.
  apply (accepted_next _ _ _ (step_with "pass" default_run)); [by vm_compute|].
  apply (accepted_next _ _ _ (step_with "fail" (step_with "pass" default_run))); [by vm_compute|]. constructor.
Qed.

Lemma accepted_bounded_witness :
  Accepted default_run sample_steps (step_with "fail" (step_with "pass" default_run))
  ∧ (Z.of_nat (length sample_steps) ≤ 6 * retry_bound default_run + 12)%Z.
Proof.
  split; [exact sample_accepted|].
  apply (accepted_bounded default_run sample_steps (step_with "fail" (step_with "pass" default_run)));
    [exact default_run_wf|exact default_run_counted|exact sample_accepted].
Defined.

Lemma delivery_completes_witness :
  completable default_run ∧
  ∃ xs r', Accepted default_run xs r' ∧ pr_Status r' = PipelineCompleted ∧ blank (pr_FinalReport r') = false
    ∧ (length xs ≤ 7)%nat ∧ Forall (λ nx, sr_Outcome (snd nx) = "pass") xs.
Proof.
  split; [by left|].
  apply (delivery_completes 2 default_run); [exact default_run_wf|reflexivity|exact default_run_counted|by left|reflexivity].
Defined.

Lemma traversal_limits_suffice_witness :
  Accepted default_run sample_steps (step_with "fail" (step_with "pass" default_run)) ∧
  (hops PipelineDevelopment PipelineDevelopment (pr_History (step_with "fail" (step_with "pass" default_run)))
   ≤ loop_limit default_run)%Z.
Proof.
  split; [exact sample_accepted|].
  apply (traversal_limits_suffice default_run sample_steps (step_with "fail" (step_with "pass" default_run))
    PipelineDevelopment PipelineDevelopment); try exact default_run_wf; try exact sample_accepted; try reflexivity.
  - done.
  - done.
  - done.
Defined.

Lemma MigratePipeline_total_witness :
  PipelineRun_Validate default_run = Ok tt ∧
  ∃ res, MigratePipeline default_run = Ok res ∧ pl_Status (mr_Plan res) = PlanReady.
Proof.
  split; [reflexivity|].
  destruct (MigratePipeline_total default_run eq_refl (λ p, ex_intro _ "json" eq_refl)) as (res & Hres & Hst & _).
  exists res. split; assumption.
Defined.

(** The attempt that records a result on a node. *)
Definition legacy_attempt_of (r next : PipelineRun) (x : PipelineStepResult) (status : AttemptStatus) : NodeAttempt :=
  na_set_Status status (na_set_FailureReason
    (legacy_failure (legacy_event (pr_Status next) (sr_Outcome x)) (sr_Summary x))
    {| na_ID := "attempt"; na_PlanID := "legacy-plan-run"; na_NodeID := PipelineNodeID (pr_PipelineStage r);
       na_AttemptNo := 1; na_RunID := ""; na_SessionID := ""; na_WorkDir := "";
       na_Lease := {| ls_Key := ""; ls_Owner := ""; ls_FencingToken := 1; ls_ExpiresAt := 9 |};
       na_IdempotencyKey := ""; na_InputManifest := sample_envelope 0; na_OutputArtifacts := [];
       na_Result := legacy_result next x; na_RepairState := RepairOther ""; na_RepairPlanID := "";
       na_Status := status; na_FailureReason := None; na_ParentAttemptID := ""; na_RetryOf := "";
       na_ChildPlanID := ""; na_StartedAt := None; na_FinishedAt := None |}).
Definition legacy_input (next : PipelineRun) (x : PipelineStepResult) : TransitionInput :=
  {| ti_PlanRevision := 1; ti_AttemptID := "attempt"; ti_LeaseToken := 1;
     ti_Event := legacy_event (pr_Status next) (sr_Outcome x); ti_Result := legacy_result next x; ti_Failure := None;
     ti_OutputArtifacts := []; ti_IdempotencyKey := "k"; ti_PayloadHash := ""; ti_Now := 5 |}.

Definition sample_graph_of (r : PipelineRun) : WorkflowGraph * gmap string string :=
  match GraphFromPipeline r with
  | Ok gm => gm
  | Err _ => (legacy_graph r [] zero_WorkflowNode, ∅)
  end.

Definition custom_step (id : string) (stage limit : Z) : WorkflowStep :=
  {| ws_ID := id; ws_Stage := stage; ws_Name := ""; ws_Role := ""; ws_AgentID := "agent"; ws_Required := true;
     ws_RetryLimit := limit; ws_Config := ∅ |}.

Definition short_run : PipelineRun :=
  sample_pipeline [custom_step "dev" PipelineDevelopment 0; custom_step "report" PipelineReport 0] PipelineDevelopment 1.
Definition short_result : PipelineStepResult := sample_result short_run "pass".
Definition short_next : PipelineRun := step_with "pass" short_run.

Lemma graph_follows_engine_witness :
  Apply 2 short_run short_result = (short_next, Ok tt) ∧
  matchEdges (legacy_attempt_of short_run short_next short_result AttemptPassed) (legacy_input short_next short_result)
    (g_Edges (fst (sample_graph_of short_run)))
  = Ok [legacy_edge 2 "legacy-node-2" "legacy-node-7" EdgeSuccess "success"].
Proof.
  split; [by vm_compute|].
  assert (Hwf : wf_run short_run) by (by apply new_run_wf).
  etransitivity.
  - apply (graph_follows_engine 2 short_run short_result short_next (fst (sample_graph_of short_run))
      (snd (sample_graph_of short_run)) _ (legacy_input short_next short_result) Hwf); by vm_compute.
  - by vm_compute.
Defined.

(** ** What custom workflows get wrong *)

(** All seven stages, listed explicitly: the workflow is valid, and a run of it
    can be live, yet no sequence of results completes it. *)
Definition explicit_default : PipelineRun := sample_pipeline (DefaultWorkflow sample_roles) PipelineDesign 3.
Theorem explicit_default_never_completes xs r' : Accepted explicit_default xs r' → pr_Status r' ≠ PipelineCompleted.
Proof.
  assert (Hwf : wf_run explicit_default) by (by apply new_run_wf).
  by apply (custom_repair_never_completes explicit_default xs r' Hwf).
Qed.

(** A step's own retry limit above the run's: the engine accepts a third failed
    development result, the graph allows the edge to be taken twice. *)
Definition long_retry : PipelineRun :=
  sample_pipeline [custom_step "dev" PipelineDevelopment 5; custom_step "report" PipelineReport 0] PipelineDevelopment 1.
Definition failed_thrice : PipelineRun := step_with "fail" (step_with "fail" (step_with "fail" long_retry)).
Theorem step_limit_exceeds_traversals :
  PipelineRun_Validate long_retry = Ok tt ∧ pr_Status failed_thrice = PipelineRunning ∧ loop_limit long_retry = 2%Z
  ∧ hops PipelineDevelopment PipelineDevelopment (pr_History failed_thrice) = 3%Z.
Proof. vm_compute. done. Qed.

(** The engine suspends a run whose integration test failed; the graph, whose node
    carries the step's retry limit as its attempt limit, schedules a retry of the
    node and keeps the plan running. *)
Definition no_repair : PipelineRun :=
  sample_pipeline [custom_step "it" PipelineIntegration 3; custom_step "report" PipelineReport 0] PipelineIntegration 1.
Definition failed_it : PipelineRun := step_with "fail" no_repair.
Definition no_repair_plan : RequirementExecutionPlan := legacy_plan no_repair (fst (sample_graph_of no_repair)).
Definition no_repair_projection : PlanProjection :=
  new_of no_repair_plan.
Definition failed_attempt : NodeAttempt :=
  legacy_attempt_of no_repair failed_it (sample_result no_repair "fail") AttemptFailed.
Definition graph_after : PlanProjection :=
  fst (route 5 no_repair_projection no_repair_plan failed_attempt (legacy_input failed_it (sample_result no_repair "fail"))).
Theorem suspended_run_retried_by_graph :
  pr_Status failed_it = PipelineSuspended ∧ pp_Status graph_after = PlanRunning
  ∧ np_Status (node_at graph_after "legacy-node-4") = AttemptReady.
Proof. vm_compute. done. Qed.

(** The revision [MigratePipeline] copies from the run is overwritten by [Freeze]. *)
Theorem migrated_revision_is_one run res :
  MigratePipeline run = Ok res → pl_Revision (mr_Plan res) = 1%Z.
Proof.
  unfold MigratePipeline. destruct (GraphFromPipeline run) as [[g m]|]; [|done]. cbn [rbind].
  unfold Freeze. cbv zeta. destruct (rbind _ _) as [h|e]; [|done]. by intros [= <-].
Qed.

(** Steps are sorted by stage, whatever order they were configured in. *)
Theorem configured_order_ignored :
  map ws_Stage (Steps (sample_pipeline [custom_step "b" PipelineIntegration 0; custom_step "a" PipelineDevelopment 0;
    custom_step "r" PipelineReport 0] PipelineIntegration 1))
  = [PipelineDevelopment; PipelineIntegration; PipelineReport].
Proof. vm_compute. done. Qed.
