(* ===== verification/EventBus.v ===== *)
(** * EventBus: the local event bus

    Models internal/events/events.go: envelopes and their hash chain, the snapshot
    file shared by several processes (lock, merge of a peer's history, rebase of the
    uncommitted tail, write), publication with de-duplication, retention, durable
    acknowledgements, at-least-once deliveries with tokens, replay windows, and
    bounded live subscribers with gap events.

    A [World] is one process's bus and the file; what happens around an operation
    (clock, ids, peers, faults) is its [Io].  A payload is [None] when it is nil. *)
From stdpp Require Import base strings gmap list pretty.
From Stdlib Require Import ZArith Lia Ascii.
From S2P Require Import Prelude GoLib GoStrings Trace GoValue GoJson.

(** ** Envelopes *)

Abbreviation Payload := (option (gmap string value)).

Record Envelope := {
  en_EventID : string; en_SchemaVersion : Z; en_Sequence : Z; en_EventType : string; en_AggregateType : string;
  en_AggregateID : string; en_AggregateVersion : Z; en_TenantID : string; en_WorkspaceID : string;
  en_CorrelationID : string; en_CausationID : string; en_TraceParent : string; en_TraceState : string;
  en_Provider : string; en_ProviderEventID : string; en_OccurredAt : Time; en_Classification : string;
  en_PayloadHash : string; en_PreviousHash : string; en_EnvelopeHash : string; en_Payload : Payload }.

(** An envelope with the fields the bus assigns. *)
Definition en_with (id : string) (schema seq : Z) (phash prev ehash : string) (p : Payload) (e : Envelope) : Envelope :=
  {| en_EventID := id; en_SchemaVersion := schema; en_Sequence := seq; en_EventType := en_EventType e;
     en_AggregateType := en_AggregateType e; en_AggregateID := en_AggregateID e;
     en_AggregateVersion := en_AggregateVersion e; en_TenantID := en_TenantID e; en_WorkspaceID := en_WorkspaceID e;
     en_CorrelationID := en_CorrelationID e; en_CausationID := en_CausationID e; en_TraceParent := en_TraceParent e;
     en_TraceState := en_TraceState e; en_Provider := en_Provider e; en_ProviderEventID := en_ProviderEventID e;
     en_OccurredAt := en_OccurredAt e; en_Classification := en_Classification e; en_PayloadHash := phash;
     en_PreviousHash := prev; en_EnvelopeHash := ehash; en_Payload := p |}.
Definition set_trace (parent state : string) (e : Envelope) : Envelope :=
  {| en_EventID := en_EventID e; en_SchemaVersion := en_SchemaVersion e; en_Sequence := en_Sequence e;
     en_EventType := en_EventType e; en_AggregateType := en_AggregateType e; en_AggregateID := en_AggregateID e;
     en_AggregateVersion := en_AggregateVersion e; en_TenantID := en_TenantID e; en_WorkspaceID := en_WorkspaceID e;
     en_CorrelationID := en_CorrelationID e; en_CausationID := en_CausationID e; en_TraceParent := parent;
     en_TraceState := state; en_Provider := en_Provider e; en_ProviderEventID := en_ProviderEventID e;
     en_OccurredAt := en_OccurredAt e; en_Classification := en_Classification e; en_PayloadHash := en_PayloadHash e;
     en_PreviousHash := en_PreviousHash e; en_EnvelopeHash := en_EnvelopeHash e; en_Payload := en_Payload e |}.
Definition set_id (id : string) (e : Envelope) : Envelope :=
  en_with id (en_SchemaVersion e) (en_Sequence e) (en_PayloadHash e) (en_PreviousHash e) (en_EnvelopeHash e) (en_Payload e) e.
Definition set_schema (v : Z) (e : Envelope) : Envelope :=
  en_with (en_EventID e) v (en_Sequence e) (en_PayloadHash e) (en_PreviousHash e) (en_EnvelopeHash e) (en_Payload e) e.
Definition set_sequence (n : Z) (e : Envelope) : Envelope :=
  en_with (en_EventID e) (en_SchemaVersion e) n (en_PayloadHash e) (en_PreviousHash e) (en_EnvelopeHash e) (en_Payload e) e.
Definition set_phash (h : string) (e : Envelope) : Envelope :=
  en_with (en_EventID e) (en_SchemaVersion e) (en_Sequence e) h (en_PreviousHash e) (en_EnvelopeHash e) (en_Payload e) e.
Definition set_prev (h : string) (e : Envelope) : Envelope :=
  en_with (en_EventID e) (en_SchemaVersion e) (en_Sequence e) (en_PayloadHash e) h (en_EnvelopeHash e) (en_Payload e) e.
Definition set_ehash (h : string) (e : Envelope) : Envelope :=
  en_with (en_EventID e) (en_SchemaVersion e) (en_Sequence e) (en_PayloadHash e) (en_PreviousHash e) h (en_Payload e) e.
Definition set_payload (p : Payload) (e : Envelope) : Envelope :=
  en_with (en_EventID e) (en_SchemaVersion e) (en_Sequence e) (en_PayloadHash e) (en_PreviousHash e) (en_EnvelopeHash e) p e.

(** The JSON round trip of a payload: [None] when it cannot be encoded.  What a
    decoder returns is encoded and decoded again unchanged. *)
Class PayloadClone := {
  clone_map : gmap string value → option (gmap string value);
  clone_map_stable : ∀ m m', clone_map m = Some m' → clone_map m' = Some m' }.

Record RetentionPolicy := { rp_MaxEvents : Z; rp_MaxAge : Duration }.
Record Delivery := { dl_Event : Envelope; dl_AckToken : string; dl_Attempt : Z; dl_Redelivered : bool }.

Definition ErrInvalidCursor : error := ESentinel (Sentinel "events" "ErrInvalidCursor").

Record streamGap := {
  gap_count : Z; gap_from : Z; gap_to : Z; gap_tenantID : string; gap_workspaceID : string; gap_aggregateID : string;
  gap_correlationID : string }.
Definition no_gap : streamGap :=
  {| gap_count := 0; gap_from := 0; gap_to := 0; gap_tenantID := ""; gap_workspaceID := ""; gap_aggregateID := "";
     gap_correlationID := "" |}.

(** A subscriber: its buffered channel and the entry of [dropped] under its id. *)
Record Subscriber := { sub_cap : nat; sub_queue : list Envelope; sub_gap : streamGap }.

Record Bus := {
  b_statePath : string; b_events : list Envelope; b_seen : gset string; b_seenProvider : gset string;
  b_subscribers : gmap nat Subscriber; b_nextSubID : nat; b_revision : Z; b_acks : gmap string string;
  b_deliveryAttempts : gmap string Z; b_retention : RetentionPolicy }.

Record persistedEvents := {
  pe_Revision : Z; pe_Events : list Envelope; pe_Acks : gmap string string; pe_DeliveryAttempts : gmap string Z;
  pe_Retention : RetentionPolicy }.

(** The file: absent, unreadable, or a snapshot (an array of events is a snapshot
    of revision 0 with nothing else). *)
Definition BusFile := option (result persistedEvents).

Record World := { bw_bus : Bus; bw_file : BusFile }.
Record Io := {
  bi_now : Time;                  (* [time.Now()] *)
  bi_id : string;                 (* [domain.NewID()] of the event *)
  bi_gap_id : nat → string;       (* [domain.NewID()] of the gap event of a subscriber *)
  bi_mid : BusFile → BusFile;     (* peers, between the two reads of a replay *)
  bi_peers : BusFile → BusFile;   (* peers, before the file lock is taken *)
  bi_lock : option error;         (* the lock cannot be taken *)
  bi_before : option error;       (* the temporary file cannot be written or renamed *)
  bi_after : option error }.      (* the directory cannot be synchronised after the rename *)

(** Bus updates. *)
Definition with_events (es : list Envelope) (b : Bus) : Bus :=
  {| b_statePath := b_statePath b; b_events := es; b_seen := b_seen b; b_seenProvider := b_seenProvider b;
     b_subscribers := b_subscribers b; b_nextSubID := b_nextSubID b; b_revision := b_revision b; b_acks := b_acks b;
     b_deliveryAttempts := b_deliveryAttempts b; b_retention := b_retention b |}.
Definition with_seen (ids providers : gset string) (b : Bus) : Bus :=
  {| b_statePath := b_statePath b; b_events := b_events b; b_seen := ids; b_seenProvider := providers;
     b_subscribers := b_subscribers b; b_nextSubID := b_nextSubID b; b_revision := b_revision b; b_acks := b_acks b;
     b_deliveryAttempts := b_deliveryAttempts b; b_retention := b_retention b |}.
Definition with_durable (revision : Z) (acks : gmap string string) (attempts : gmap string Z) (ret : RetentionPolicy)
    (b : Bus) : Bus :=
  {| b_statePath := b_statePath b; b_events := b_events b; b_seen := b_seen b; b_seenProvider := b_seenProvider b;
     b_subscribers := b_subscribers b; b_nextSubID := b_nextSubID b; b_revision := revision; b_acks := acks;
     b_deliveryAttempts := attempts; b_retention := ret |}.
Definition with_subscribers (subs : gmap nat Subscriber) (next : nat) (b : Bus) : Bus :=
  {| b_statePath := b_statePath b; b_events := b_events b; b_seen := b_seen b; b_seenProvider := b_seenProvider b;
     b_subscribers := subs; b_nextSubID := next; b_revision := b_revision b; b_acks := b_acks b;
     b_deliveryAttempts := b_deliveryAttempts b; b_retention := b_retention b |}.
Definition with_bus (b : Bus) (w : World) : World := {| bw_bus := b; bw_file := bw_file w |}.

Definition no_retention : RetentionPolicy := {| rp_MaxEvents := 0; rp_MaxAge := 0 |}.
Definition NewBus : Bus :=
  {| b_statePath := ""; b_events := []; b_seen := ∅; b_seenProvider := ∅; b_subscribers := ∅; b_nextSubID := 0;
     b_revision := 0; b_acks := ∅; b_deliveryAttempts := ∅; b_retention := no_retention |}.

(** ** The index of seen ids *)

Definition provider_key (e : Envelope) : option string :=
  if (en_Provider e ≠? "") && (en_ProviderEventID e ≠? "")
  then Some (en_Provider e +:+ nul +:+ en_ProviderEventID e) else None.

Definition rebuildSeen (b : Bus) : Bus :=
  with_seen (list_to_set (map en_EventID (b_events b))) (list_to_set (omap provider_key (b_events b))) b.

(** [pruneLocked]. *)
Fixpoint expired (cutoff : Time) (es : list Envelope) : nat :=
  match es with
  | e :: es' => if Before (en_OccurredAt e) cutoff then S (expired cutoff es') else 0
  | [] => 0
  end.
Definition prune_start (ret : RetentionPolicy) (now : Time) (es : list Envelope) : nat :=
  let start := if (0 <? rp_MaxAge ret)%Z then expired (now - rp_MaxAge ret)%Z es else 0 in
  if (0 <? rp_MaxEvents ret)%Z && (rp_MaxEvents ret <? Z.of_nat (length es - start))%Z
  then length es - Z.to_nat (rp_MaxEvents ret) else start.
Definition pruneLocked (now : Time) (b : Bus) : Bus :=
  if (rp_MaxEvents (b_retention b) <=? 0)%Z && (rp_MaxAge (b_retention b) <=? 0)%Z then b
  else
    let start := prune_start (b_retention b) now (b_events b) in
    if (start <=? 0)%nat then b else rebuildSeen (with_events (drop start (b_events b)) b).

Definition maxSequence (es : list Envelope) : Z := foldl (λ m e, Z.max m (en_Sequence e)) 0%Z es.

Section bus.
Context `{!Sha256, !PayloadClone, !JsonMarshal Payload, !JsonMarshal Envelope, !JsonMarshal persistedEvents}.

(** ** Hashes and the chain *)

(** [fmt.Sprintf("sha256:%x", ...)], empty when the value cannot be encoded. *)
Definition hash_of {T} `{!JsonMarshal T} (v : T) : string :=
  match json_marshal v with Some data => "sha256:" +:+ sha256_hex data | None => "" end.
Definition payloadHash (p : Payload) : string := hash_of p.
Definition envelopeHash (e : Envelope) : string := hash_of (set_ehash "" e).
Definition sealed (e : Envelope) : Envelope := set_ehash (envelopeHash e) e.

Definition cloneEnvelope (e : Envelope) : Envelope :=
  match en_Payload e with
  | None => e
  | Some m => match clone_map m with Some m' => set_payload (Some m') e | None => e end
  end.

Definition New (id : string) (now : Time) (eventType aggregateType aggregateID tenantID workspaceID : string)
    (version : Z) (payload : Payload) : Envelope :=
  sealed {| en_EventID := id; en_SchemaVersion := 1; en_Sequence := 0; en_EventType := eventType;
            en_AggregateType := aggregateType; en_AggregateID := aggregateID; en_AggregateVersion := version;
            en_TenantID := tenantID; en_WorkspaceID := workspaceID; en_CorrelationID := aggregateID; en_CausationID := "";
            en_TraceParent := ""; en_TraceState := ""; en_Provider := ""; en_ProviderEventID := ""; en_OccurredAt := now;
            en_Classification := "internal"; en_PayloadHash := payloadHash payload; en_PreviousHash := "";
            en_EnvelopeHash := ""; en_Payload := payload |}.

Definition NewWithContext (ctx : option SpanContext) (id : string) (now : Time)
    (eventType aggregateType aggregateID tenantID workspaceID : string) (version : Z) (payload : Payload) : Envelope :=
  let event := New id now eventType aggregateType aggregateID tenantID workspaceID version payload in
  sealed (set_trace (fst (Carrier ctx)) (snd (Carrier ctx)) event).

(** One element of [validatePersistedEvents], in place: the element as the loop
    leaves it and what the loop answers. *)
Definition validate_item (chain : bool) (base : Z) (i : nat) (seen : list string) (previous : string) (e : Envelope)
    : Envelope * result unit :=
  let expected := add64 base (Z.of_nat i) in
  match (reject (en_Sequence e ≠? expected)
           (Errorf "event sequence corruption at index %d: got %d want %d"
              [itoa i; pretty (en_Sequence e); pretty expected]) ;;;
         reject (blank (en_EventID e)) (Errorf "event at sequence %d has empty event_id" [pretty expected]) ;;;
         reject (contains seen (en_EventID e)) (Errorf "duplicate event id %s" [en_EventID e])) with
  | Err err => (e, Err err)
  | Ok _ =>
      let e := if (en_SchemaVersion e =? 0)%Z then set_schema 1 e else e in
      match (reject (en_SchemaVersion e ≠? 1%Z)
               (Errorf "event %s has unsupported schema_version %d" [en_EventID e; pretty (en_SchemaVersion e)]) ;;;
             reject ((en_PayloadHash e ≠? "") && (en_PayloadHash e ≠? payloadHash (en_Payload e)))
               (Errorf "event %s payload hash mismatch" [en_EventID e]) ;;;
             (if (en_TraceParent e ≠? "") || (en_TraceState e ≠? "")
              then wrap_err "event %s trace context: %w" [en_EventID e]
                     (ParseTraceParent (en_TraceParent e) (en_TraceState e) ;;; Ok tt)
              else Ok tt) ;;;
             reject ((en_EnvelopeHash e ≠? "") && (en_EnvelopeHash e ≠? envelopeHash e))
               (Errorf "event %s envelope hash mismatch" [en_EventID e])) with
      | Err err => (e, Err err)
      | Ok _ =>
          let e := if en_EnvelopeHash e ≟ "" then sealed e else e in
          (e, reject (chain && (0 <? i)%nat && (en_PreviousHash e ≠? previous))
                (Errorf "event previous hash mismatch at sequence %d" [pretty expected]))
      end
  end.

Fixpoint validate_from (chain : bool) (base : Z) (i : nat) (seen : list string) (previous : string)
    (items : list Envelope) : list Envelope * result unit :=
  match items with
  | [] => ([], Ok tt)
  | e :: rest =>
      match validate_item chain base i seen previous e with
      | (e', Err err) => (e' :: rest, Err err)
      | (e', Ok _) =>
          let '(rest', r) := validate_from chain base (S i) (en_EventID e' :: seen) (en_EnvelopeHash e') rest in
          (e' :: rest', r)
      end
  end.

(** [items[i].Sequence = int64(i + 1)]. *)
Fixpoint number_from (i : nat) (items : list Envelope) : list Envelope :=
  match items with
  | [] => []
  | e :: rest => set_sequence (Z.of_nat i + 1)%Z e :: number_from (S i) rest
  end.

Definition validatePersistedEvents (items : list Envelope) : list Envelope * result unit :=
  let items := if forallb (λ e, (en_Sequence e =? 0)%Z) items then number_from 0 items else items in
  match items with
  | [] => ([], Ok tt)
  | first :: _ =>
      let chain := existsb (λ e, en_PreviousHash e ≠? "") items in
      let base := if (en_Sequence first <? 1)%Z then 1%Z else en_Sequence first in
      validate_from chain base 0 [] "" items
  end.

(** ** The merge of a peer's history *)

(** The first loop: copies of the committed events, and their ids. *)
Definition copy_committed (acc : list Envelope * list string) (_ : nat) (e : Envelope)
    : result (list Envelope * list string) :=
  let '(merged, seen) := acc in
  reject (en_EventID e ≟ "") (Errorf "committed event has empty event_id" []) ;;;
  reject (contains seen (en_EventID e)) (Errorf "duplicate committed event id %s" [en_EventID e]) ;;;
  Ok (merged ++ [cloneEnvelope e], en_EventID e :: seen).

(** A local event rebased onto the tail. *)
Definition rebased (sequence : Z) (previousHash : string) (e : Envelope) : Envelope :=
  let e := set_prev previousHash (set_sequence sequence (cloneEnvelope e)) in
  set_phash (payloadHash (en_Payload e)) e.

Record MergeState := { ms_merged : list Envelope; ms_seen : list string; ms_sequence : Z; ms_previous : string }.

(** The second loop. *)
Definition append_local (st : MergeState) (_ : nat) (e : Envelope) : result MergeState :=
  reject (en_EventID e ≟ "") (Errorf "local event has empty event_id" []) ;;;
  if contains (ms_seen st) (en_EventID e) then Ok st
  else
    let sequence := add64 (ms_sequence st) 1 in
    let e := rebased sequence (ms_previous st) e in
    reject (en_PayloadHash e ≟ "") (Errorf "local event %s payload is not JSON encodable" [en_EventID e]) ;;;
    let e := sealed e in
    Ok {| ms_merged := ms_merged st ++ [e]; ms_seen := en_EventID e :: ms_seen st; ms_sequence := sequence;
          ms_previous := en_EnvelopeHash e |}.

Definition mergePeerEventsPreservingCommitted (committed local : list Envelope) : result (list Envelope) :=
  let* acc := fold_each_from 0 copy_committed ([], []) committed in
  let previous := match last committed with Some e => en_EnvelopeHash e | None => "" end in
  let* st := fold_each_from 0 append_local
    {| ms_merged := fst acc; ms_seen := snd acc; ms_sequence := maxSequence committed; ms_previous := previous |} local in
  Ok (ms_merged st).

(** ** The snapshot file *)

Definition readPersistedEvents (file : BusFile) : result (option persistedEvents) :=
  match file with None => Ok None | Some (Err e) => Err e | Some (Ok d) => Ok (Some d) end.

(** [for key, attempts := range disk { if attempts > b[key] { b[key] = attempts } }]. *)
Definition merge_attempts (disk attempts : gmap string Z) : gmap string Z :=
  merge (λ d l, match d with
                | Some d => if (default 0 l <? d)%Z then Some d else l
                | None => l
                end) disk attempts.

(** A peer has written since: its history becomes the prefix of this bus. *)
Definition adopt_peer (disk : persistedEvents) (b : Bus) : Bus * result unit :=
  let '(events, valid) := validatePersistedEvents (pe_Events disk) in
  match valid with
  | Err e => (b, Err e)
  | Ok _ =>
      match mergePeerEventsPreservingCommitted events (b_events b) with
      | Err e => (with_events [] b, Err e)
      | Ok merged =>
          (with_durable (pe_Revision disk) (pe_Acks disk ∪ b_acks b)
             (merge_attempts (pe_DeliveryAttempts disk) (b_deliveryAttempts b)) (b_retention b)
             (rebuildSeen (with_events merged b)), Ok tt)
      end
  end.

Definition next_snapshot (b : Bus) : persistedEvents :=
  {| pe_Revision := add64 (b_revision b) 1; pe_Events := b_events b; pe_Acks := b_acks b;
     pe_DeliveryAttempts := b_deliveryAttempts b; pe_Retention := b_retention b |}.
Definition set_revision (n : Z) (b : Bus) : Bus :=
  with_durable n (b_acks b) (b_deliveryAttempts b) (b_retention b) b.

(** The write, once the history of the bus is the one to commit. *)
Definition write_snapshot (io : Io) (file : BusFile) (b : Bus) : World * result unit :=
  let '(events, valid) := validatePersistedEvents (b_events b) in
  let b := with_events events b in
  match valid with
  | Err e => ({| bw_bus := b; bw_file := file |}, Err e)
  | Ok _ =>
      let next := next_snapshot b in
      match json_marshal next, bi_before io, bi_after io with
      | None, _, _ => ({| bw_bus := b; bw_file := file |}, Err (Errorf "json.Marshal" []))
      | Some _, Some e, _ => ({| bw_bus := b; bw_file := file |}, Err e)
      | Some _, None, Some e => ({| bw_bus := b; bw_file := Some (Ok next) |}, Err e)
      | Some _, None, None =>
          ({| bw_bus := set_revision (pe_Revision next) b; bw_file := Some (Ok next) |}, Ok tt)
      end
  end.

Definition persistLocked (io : Io) (w : World) : World * result unit :=
  let b := bw_bus w in
  if b_statePath b ≟ "" then (w, Ok tt) else
  let file := bi_peers io (bw_file w) in
  match bi_lock io with
  | Some e => ({| bw_bus := b; bw_file := file |}, Err e)
  | None =>
      match readPersistedEvents file with
      | Err e => ({| bw_bus := b; bw_file := file |}, Err e)
      | Ok disk =>
          let '(b, adopted) :=
            match disk with
            | Some d => if pe_Revision d ≠? b_revision b then adopt_peer d b else (b, Ok tt)
            | None => (b, Ok tt)
            end in
          match adopted with
          | Err e => ({| bw_bus := b; bw_file := file |}, Err e)
          | Ok _ => write_snapshot io file b
          end
      end
  end.

Definition reloadLocked (w : World) : World * result unit :=
  let b := bw_bus w in
  if b_statePath b ≟ "" then (w, Ok tt) else
  match readPersistedEvents (bw_file w) with
  | Err e => (w, Err e)
  | Ok None => (w, Ok tt)
  | Ok (Some d) =>
      if (pe_Revision d <=? b_revision b)%Z then (w, Ok tt)
      else
        let '(events, valid) := validatePersistedEvents (pe_Events d) in
        let b := with_durable (pe_Revision d) (pe_Acks d) (pe_DeliveryAttempts d) (pe_Retention d) (with_events events b) in
        match valid with
        | Err e => (with_bus b w, Err e)
        | Ok _ => (with_bus (rebuildSeen b) w, Ok tt)
        end
  end.

Definition Reload (w : World) : World * result unit := reloadLocked w.
Definition Bus_Flush (io : Io) (w : World) : World * result unit := persistLocked io w.

(** One event of the loop of [NewPersistentBus]. *)
Definition load_event (acc : list Envelope) (_ : nat) (e : Envelope) : result (list Envelope) :=
  let computed := payloadHash (en_Payload e) in
  reject ((en_PayloadHash e ≠? "") && (en_PayloadHash e ≠? computed))
    (Errorf "event %s payload hash mismatch" [en_EventID e]) ;;;
  let e := set_phash computed e in
  let e := if en_EnvelopeHash e ≟ "" then sealed e else e in
  Ok (acc ++ [e]).

Definition NewPersistentBus (path : string) (file : BusFile) : result Bus :=
  let b := NewBus in
  let b := {| b_statePath := path; b_events := b_events b; b_seen := b_seen b; b_seenProvider := b_seenProvider b;
              b_subscribers := b_subscribers b; b_nextSubID := b_nextSubID b; b_revision := b_revision b;
              b_acks := b_acks b; b_deliveryAttempts := b_deliveryAttempts b; b_retention := b_retention b |} in
  if path ≟ "" then Ok b else
  let* disk := readPersistedEvents file in
  match disk with
  | None => Ok b
  | Some d =>
      let '(stored, valid) := validatePersistedEvents (pe_Events d) in
      valid ;;;
      let* events := fold_each_from 0 load_event [] stored in
      Ok (rebuildSeen (with_durable (pe_Revision d) (pe_Acks d) (pe_DeliveryAttempts d) (pe_Retention d)
            (with_events events b)))
  end.

(** ** Retention *)

Definition SetRetention (io : Io) (w : World) (policy : RetentionPolicy) : World * result unit :=
  if (rp_MaxEvents policy <? 0)%Z || (rp_MaxAge policy <? 0)%Z
  then (w, Err (Errorf "retention limits cannot be negative" []))
  else
    let b := bw_bus w in
    let b := with_durable (b_revision b) (b_acks b) (b_deliveryAttempts b) policy b in
    persistLocked io (with_bus (pruneLocked (bi_now io) b) w).

Definition Prune (io : Io) (w : World) (now : Time) : World * result unit :=
  persistLocked io (with_bus (pruneLocked (orNow (bi_now io) now) (bw_bus w)) w).

(** ** Publication *)

(** The envelope as the bus accepts it, before it has a position. *)
Definition admit_event (io : Io) (e : Envelope) : result Envelope :=
  let e := if en_EventID e ≟ "" then set_id (bi_id io) e else e in
  let e := cloneEnvelope e in
  let e := if (en_SchemaVersion e =? 0)%Z then set_schema 1 e else e in
  reject (en_SchemaVersion e ≠? 1%Z) (Errorf "unsupported event schema_version %d" [pretty (en_SchemaVersion e)]) ;;;
  let computed := payloadHash (en_Payload e) in
  reject (computed ≟ "") (Errorf "event payload is not JSON encodable" []) ;;;
  reject ((en_PayloadHash e ≠? "") && (en_PayloadHash e ≠? computed))
    (Errorf "event payload hash does not match payload" []) ;;;
  let e := set_phash computed e in
  reject ((en_EnvelopeHash e ≠? "") && (en_EnvelopeHash e ≠? envelopeHash e))
    (Errorf "event envelope hash does not match envelope" []) ;;;
  Ok e.

Definition already_seen (b : Bus) (e : Envelope) : bool :=
  bool_decide (en_EventID e ∈ b_seen b)
  || match provider_key e with Some k => bool_decide (k ∈ b_seenProvider b) | None => false end.

(** The event at the tail of the history. *)
Definition positioned (es : list Envelope) (e : Envelope) : Envelope :=
  let e := set_sequence (add64 (maxSequence es) 1) e in
  let e := match last es with Some l => set_prev (en_EnvelopeHash l) e | None => e end in
  sealed e.

Definition mark_seen (e : Envelope) (b : Bus) : Bus :=
  with_seen ({[ en_EventID e ]} ∪ b_seen b)
    (match provider_key e with Some k => {[ k ]} ∪ b_seenProvider b | None => b_seenProvider b end) b.

(** The gap event of a subscriber that lost events. *)
Definition gap_event (io : Io) (id : nat) (g : streamGap) : Envelope :=
  let payload := Some (list_to_map
    [("dropped_count", VInt KInt64 (gap_count g)); ("from_sequence", VInt KInt64 (gap_from g));
     ("to_sequence", VInt KInt64 (gap_to g))]) in
  sealed {| en_EventID := bi_gap_id io id; en_SchemaVersion := 0; en_Sequence := gap_from g;
            en_EventType := "stream.gap.v1"; en_AggregateType := "stream"; en_AggregateID := gap_aggregateID g;
            en_AggregateVersion := 0; en_TenantID := gap_tenantID g; en_WorkspaceID := gap_workspaceID g;
            en_CorrelationID := gap_correlationID g; en_CausationID := ""; en_TraceParent := ""; en_TraceState := "";
            en_Provider := ""; en_ProviderEventID := ""; en_OccurredAt := bi_now io; en_Classification := "system";
            en_PayloadHash := payloadHash payload; en_PreviousHash := ""; en_EnvelopeHash := ""; en_Payload := payload |}.

(** A send that does not block. *)
Definition offer (e : Envelope) (s : Subscriber) : option Subscriber :=
  if (length (sub_queue s) <? sub_cap s)%nat
  then Some {| sub_cap := sub_cap s; sub_queue := sub_queue s ++ [e]; sub_gap := sub_gap s |} else None.
Definition set_gap (g : streamGap) (s : Subscriber) : Subscriber :=
  {| sub_cap := sub_cap s; sub_queue := sub_queue s; sub_gap := g |}.

Definition widen_gap (e : Envelope) (g : streamGap) : streamGap :=
  {| gap_count := add64 (gap_count g) 1; gap_from := gap_from g; gap_to := en_Sequence e;
     gap_tenantID := gap_tenantID g; gap_workspaceID := gap_workspaceID g; gap_aggregateID := gap_aggregateID g;
     gap_correlationID := gap_correlationID g |}.
Definition open_gap (e : Envelope) (g : streamGap) : streamGap :=
  if (gap_from g =? 0)%Z
  then {| gap_count := add64 (gap_count g) 1; gap_from := en_Sequence e; gap_to := en_Sequence e;
          gap_tenantID := en_TenantID e; gap_workspaceID := en_WorkspaceID e; gap_aggregateID := en_AggregateID e;
          gap_correlationID := en_CorrelationID e |}
  else widen_gap e g.

(** The event itself, or a gap that records its loss. *)
Definition send_event (e : Envelope) (s : Subscriber) : Subscriber :=
  match offer (cloneEnvelope e) s with
  | Some s' => s'
  | None => set_gap (open_gap e (sub_gap s)) s
  end.

(** One subscriber of the loop of [Publish]. *)
Definition notify (io : Io) (e : Envelope) (id : nat) (s : Subscriber) : Subscriber :=
  if (0 <? gap_count (sub_gap s))%Z then
    match offer (gap_event io id (sub_gap s)) s with
    | Some s' => send_event e (set_gap no_gap s')
    | None => set_gap (widen_gap e (sub_gap s)) s
    end
  else send_event e s.

Definition retained (es : list Envelope) (e : Envelope) : Envelope :=
  match find (λ r, en_EventID r ≟ en_EventID e) es with Some r => cloneEnvelope r | None => e end.

Definition Publish (io : Io) (w : World) (event : Envelope) : World * result unit :=
  match admit_event io event with
  | Err err => (w, Err err)
  | Ok e =>
      let b := bw_bus w in
      if already_seen b e then (w, Ok tt)
      else
        let e := positioned (b_events b) e in
        let b' := pruneLocked (bi_now io) (with_events (b_events b ++ [e]) (mark_seen e b)) in
        match persistLocked io (with_bus b' w) with
        | (w', Err err) =>
            (with_bus (rebuildSeen (with_events (b_events b) (bw_bus w'))) w', Err (Wrapf "persist event: %w" [] err))
        | (w', Ok _) =>
            let b' := bw_bus w' in
            let e := retained (b_events b') e in
            (with_bus (with_subscribers (map_imap (λ id s, Some (notify io e id s)) (b_subscribers b'))
                         (b_nextSubID b') b') w', Ok tt)
        end
  end.

Definition Subscribe (b : Bus) (buffer : Z) : Bus * nat :=
  let cap := if (buffer <? 1)%Z then 16 else Z.to_nat buffer in
  let id := b_nextSubID b in
  (with_subscribers (<[id := {| sub_cap := cap; sub_queue := []; sub_gap := no_gap |}]> (b_subscribers b)) (S id) b, id).
Definition Unsubscribe (b : Bus) (id : nat) : Bus := with_subscribers (delete id (b_subscribers b)) (b_nextSubID b) b.

(** A receive from the channel of a subscriber. *)
Definition receive (b : Bus) (id : nat) : Bus * option Envelope :=
  match b_subscribers b !! id with
  | Some s =>
      match sub_queue s with
      | e :: rest =>
          (with_subscribers (<[id := {| sub_cap := sub_cap s; sub_queue := rest; sub_gap := sub_gap s |}]> (b_subscribers b))
             (b_nextSubID b) b, Some e)
      | [] => (b, None)
      end
  | None => (b, None)
  end.

(** ** Acknowledgements *)

Definition deliveryKey (consumerID eventID : string) : string := consumerID +:+ nul +:+ eventID.

Definition position (id : string) (es : list Envelope) : option nat :=
  fst <$> list_find (λ e, en_EventID e = id) es.

Definition set_ack (consumerID eventID : string) (b : Bus) : Bus :=
  with_durable (b_revision b) (<[consumerID := eventID]> (b_acks b))
    (delete (deliveryKey consumerID eventID) (b_deliveryAttempts b)) (b_retention b) b.
(** The state a failed write restores. *)
Definition restore_ack (consumerID eventID : string) (old b : Bus) : Bus :=
  let key := deliveryKey consumerID eventID in
  let previous := default "" (b_acks old !! consumerID) in
  with_durable (b_revision b)
    (if previous ≟ "" then delete consumerID (b_acks b) else <[consumerID := previous]> (b_acks b))
    (match b_deliveryAttempts old !! key with
     | Some n => <[key := n]> (b_deliveryAttempts b)
     | None => delete key (b_deliveryAttempts b)
     end) (b_retention b) b.

Definition Ack (io : Io) (w : World) (consumer event : string) : World * result unit :=
  let consumerID := TrimSpace consumer in
  let eventID := TrimSpace event in
  if (consumerID ≟ "") || (eventID ≟ "") then (w, Err (Errorf "consumer_id and event_id are required" [])) else
  match reloadLocked w with
  | (w, Err e) => (w, Err e)
  | (w, Ok _) =>
      let b := bw_bus w in
      match position eventID (b_events b) with
      | None => (w, Err (Errorf "event is not retained" []))
      | Some index =>
          let previous := default "" (b_acks b !! consumerID) in
          let backwards := match position previous (b_events b) with
                           | Some p => (previous ≠? "") && (index <? p)%nat
                           | None => false
                           end in
          if backwards then (w, Err (Errorf "event acknowledgement would move backwards" [])) else
          match persistLocked io (with_bus (set_ack consumerID eventID b) w) with
          | (w', Err e) =>
              (with_bus (restore_ack consumerID eventID b (bw_bus w')) w',
               Err (Wrapf "persist event acknowledgement: %w" [] e))
          | (w', Ok _) => (w', Ok tt)
          end
      end
  end.

Definition ackToken (consumerID eventID : string) : string :=
  eventID +:+ "." +:+ sha256_hex (TrimSpace consumerID +:+ nul +:+ TrimSpace eventID).

Definition verifyAckToken (consumerID token : string) : result string :=
  match Cut "." (TrimSpace token) with
  | Some (id, mac) =>
      if (id ≟ "") || (mac ≟ "") || (ackToken consumerID id ≠? token) then Err ErrInvalidCursor else Ok id
  | None => Err ErrInvalidCursor
  end.

Definition AckDelivery (io : Io) (w : World) (consumerID token : string) : World * result unit :=
  match verifyAckToken (TrimSpace consumerID) token with
  | Err e => (w, Err e)
  | Ok id => Ack io w consumerID id
  end.

Definition scopedConsumerID (consumerID tenantID workspaceID aggregateID : string) : string :=
  Join nul [consumerID; tenantID; workspaceID; aggregateID].

Definition in_scope (tenantID workspaceID aggregateID : string) (e : Envelope) : bool :=
  ((tenantID ≟ "") || (en_TenantID e ≟ tenantID)) && (en_WorkspaceID e ≟ workspaceID)
  && ((aggregateID ≟ "") || (en_AggregateID e ≟ aggregateID)).

Definition AckScoped (io : Io) (w : World) (consumerID tenantID workspaceID aggregateID eventID : string)
    : World * result unit :=
  match Reload w with
  | (w, Err e) => (w, Err e)
  | (w, Ok _) =>
      let matched := match find (λ e, en_EventID e ≟ eventID) (b_events (bw_bus w)) with
                     | Some e => in_scope tenantID workspaceID aggregateID e
                     | None => false
                     end in
      if negb matched then (w, Err (Wrapf "%w: event does not belong to scoped stream" [] ErrInvalidCursor))
      else Ack io w (scopedConsumerID consumerID tenantID workspaceID aggregateID) eventID
  end.

Definition AckDeliveryScoped (io : Io) (w : World) (consumerID tenantID workspaceID aggregateID token : string)
    : World * result unit :=
  match verifyAckToken (scopedConsumerID consumerID tenantID workspaceID aggregateID) token with
  | Err e => (w, Err e)
  | Ok id => AckScoped io w consumerID tenantID workspaceID aggregateID id
  end.

(** ** Replay windows *)

Definition page_limit (limit : Z) : nat := if (limit <=? 0)%Z || (250 <? limit)%Z then 100 else Z.to_nat limit.

(** At most [limit] matching events, in order, and the cursor of a full page. *)
Definition page (keep : Envelope → bool) (limit : nat) (es : list Envelope) : list Envelope * string :=
  let items := cloneEnvelope <$> take limit (filter (λ e, keep e = true) es) in
  (items, if (length items =? limit)%nat then match last items with Some e => en_EventID e | None => "" end else "").

Definition in_aggregate (aggregateID : string) (e : Envelope) : bool :=
  (aggregateID ≟ "") || (en_AggregateID e ≟ aggregateID).

(** The events after a cursor; the cursor must be retained and belong to the stream. *)
Definition after_cursor (keep : Envelope → bool) (wrong : string) (cursor : string) (es : list Envelope)
    : result (list Envelope) :=
  if cursor ≟ "" then Ok es
  else match list_find (λ e, en_EventID e = cursor) es with
       | None => Err ErrInvalidCursor
       | Some (i, e) => if keep e then Ok (drop (S i) es) else Err (Wrapf wrong [] ErrInvalidCursor)
       end.

Definition wrong_aggregate : string := "%w: cursor belongs to a different aggregate".
Definition wrong_scope : string := "%w: cursor does not belong to scoped stream".

Definition ListChecked (w : World) (aggregateID cursor : string) (limit : Z)
    : World * result (list Envelope * string) :=
  match reloadLocked w with
  | (w, Err e) => (w, Err e)
  | (w, Ok _) =>
      (w, let* es := after_cursor (in_aggregate aggregateID) wrong_aggregate cursor (b_events (bw_bus w)) in
          Ok (page (in_aggregate aggregateID) (page_limit limit) es))
  end.

Definition List_ (w : World) (aggregateID cursor : string) (limit : Z) : World * (list Envelope * string) :=
  let '(w, r) := ListChecked w aggregateID cursor limit in
  (w, match r with Ok p => p | Err _ => ([], "") end).

Definition Replay (io : Io) (w : World) (consumerID aggregateID cursor : string) (limit : Z)
    : World * result (list Envelope * string) :=
  match Reload w with
  | (w, Err e) => (w, Err e)
  | (w, Ok _) =>
      let b := bw_bus w in
      let cursor := if blank cursor && negb (blank consumerID) then default "" (b_acks b !! consumerID) else cursor in
      match after_cursor (in_aggregate aggregateID) wrong_aggregate cursor (b_events b) with
      | Err e => (w, Err e)
      | Ok _ => ListChecked {| bw_bus := b; bw_file := bi_mid io (bw_file w) |} aggregateID cursor limit
      end
  end.

Definition ReplayScoped (w : World) (consumerID tenantID workspaceID aggregateID cursor : string) (limit : Z)
    : World * result (list Envelope * string) :=
  match Reload w with
  | (w, Err e) => (w, Err e)
  | (w, Ok _) =>
      let b := bw_bus w in
      let scoped := scopedConsumerID consumerID tenantID workspaceID aggregateID in
      let cursor := TrimSpace cursor in
      let cursor := if (cursor ≟ "") && (consumerID ≠? "") then default "" (b_acks b !! scoped) else cursor in
      let keep := in_scope tenantID workspaceID aggregateID in
      (w, let* es := after_cursor keep wrong_scope cursor (b_events b) in Ok (page keep (page_limit limit) es))
  end.

Definition ReplayRange (w : World) (tenantID workspaceID aggregateID : string) (from to : Z)
    : World * result (list Envelope) :=
  if (from <? 1)%Z || (to <? from)%Z then (w, Err ErrInvalidCursor) else
  match Reload w with
  | (w, Err e) => (w, Err e)
  | (w, Ok _) =>
      let inside := filter (λ e, (from ≤ en_Sequence e ≤ to)%Z) (b_events (bw_bus w)) in
      (w, reject (Z.of_nat (length inside) ≠? add64 (to - from) 1) ErrInvalidCursor ;;;
          Ok (cloneEnvelope <$> filter (λ e,
                ((tenantID ≟ "") || (en_TenantID e ≟ tenantID)) && ((workspaceID ≟ "") || (en_WorkspaceID e ≟ workspaceID))
                && ((aggregateID ≟ "") || (en_AggregateID e ≟ aggregateID)) = true) inside))
  end.

(** Gauges; a failing reload is ignored. *)
Definition count_events (P : Envelope → bool) (w : World) : World * nat :=
  let w := fst (Reload w) in (w, length (filter (λ e, P e = true) (b_events (bw_bus w)))).
Definition Count (w : World) (aggregateID : string) : World * nat := count_events (in_aggregate aggregateID) w.
Definition CountByType (w : World) (eventType : string) : World * nat :=
  count_events (λ e, en_EventType e ≟ eventType) w.
Definition HasEvent (w : World) (eventType aggregateID dedupeKey : string) : World * bool :=
  let w := fst (Reload w) in
  (w, existsb (λ e, (en_EventType e ≟ eventType) && (en_AggregateID e ≟ aggregateID)
                    && match en_Payload e ≫= (.!! "dedupe_key") with Some (VString v) => v ≟ dedupeKey | _ => false end)
        (b_events (bw_bus w))).

(** ** Deliveries *)

(** The loop of [recordDeliveries]: attempts so far and deliveries. *)
Definition record_step (consumerID : string) (st : gmap string Z * list Delivery) (e : Envelope)
    : gmap string Z * list Delivery :=
  let key := deliveryKey consumerID (en_EventID e) in
  let attempt := add64 (default 0%Z (fst st !! key)) 1 in
  (<[key := attempt]> (fst st),
   snd st ++ [{| dl_Event := cloneEnvelope e; dl_AckToken := ackToken consumerID (en_EventID e); dl_Attempt := attempt;
                 dl_Redelivered := (1 <? attempt)%Z |}]).

(** The rollback of a failed write: every key of the batch as it was. *)
Definition restore_attempts (consumerID : string) (items : list Envelope) (old now : gmap string Z) : gmap string Z :=
  foldr (λ e m, let key := deliveryKey consumerID (en_EventID e) in
                let before := default 0%Z (old !! key) in
                if (before =? 0)%Z then delete key m else <[key := before]> m) now items.

Definition recordDeliveries (io : Io) (w : World) (consumerID : string) (items : list Envelope) (next : string)
    : World * result (list Delivery * string) :=
  match items with
  | [] => (w, Ok ([], next))
  | _ =>
      let b := bw_bus w in
      let '(attempts, deliveries) := foldl (record_step consumerID) (b_deliveryAttempts b, []) items in
      match persistLocked io (with_bus (with_durable (b_revision b) (b_acks b) attempts (b_retention b) b) w) with
      | (w', Err e) =>
          let b' := bw_bus w' in
          (with_bus (with_durable (b_revision b') (b_acks b')
             (restore_attempts consumerID items (b_deliveryAttempts b) (b_deliveryAttempts b')) (b_retention b') b') w',
           Err (Wrapf "persist event delivery: %w" [] e))
      | (w', Ok _) => (w', Ok (deliveries, next))
      end
  end.

Definition Deliver (io : Io) (w : World) (consumer aggregateID cursor : string) (limit : Z)
    : World * result (list Delivery * string) :=
  let consumerID := TrimSpace consumer in
  if consumerID ≟ "" then (w, Err (Errorf "consumer_id is required" [])) else
  match Replay io w consumerID aggregateID cursor limit with
  | (w, Err e) => (w, Err e)
  | (w, Ok (items, next)) => recordDeliveries io w consumerID items next
  end.

Definition DeliverScoped (io : Io) (w : World) (consumerID tenantID workspaceID aggregateID cursor : string) (limit : Z)
    : World * result (list Delivery * string) :=
  if blank consumerID then (w, Err (Errorf "consumer_id is required" [])) else
  match ReplayScoped w consumerID tenantID workspaceID aggregateID cursor limit with
  | (w, Err e) => (w, Err e)
  | (w, Ok (items, next)) =>
      recordDeliveries io w (scopedConsumerID consumerID tenantID workspaceID aggregateID) items next
  end.
End bus.
