(* ===== verification/EventBusSpec.v ===== *)
(** * EventBusSpec: lemmas on the history of the event bus

    Validation is idempotent, what it accepts is numbered and linked, a peer's
    history is an exact prefix of a merge, and one position is added per event. *)
From stdpp Require Import base strings gmap list pretty.
From Stdlib Require Import ZArith Lia.
From S2P Require Import Prelude GoLib GoStrings Trace GoValue GoJson EventBus.

Section spec.
Context `{!Sha256, !PayloadClone, !JsonMarshal Payload, !JsonMarshal Envelope, !JsonMarshal persistedEvents}.

(** ** Validation *)

Lemma sealed_hash e : envelopeHash (sealed e) = envelopeHash e.
Proof. reflexivity. Qed.

Definition trace_ok (e : Envelope) : Prop :=
  en_TraceParent e = "" ∧ en_TraceState e = ""
  ∨ ∃ c, ParseTraceParent (en_TraceParent e) (en_TraceState e) = Ok c.

(** What validation guarantees of an element of the history. *)
Record item_ok (chain : bool) (base : Z) (i : nat) (seen : list string) (prev : string) (e : Envelope) : Prop := {
  io_seq : en_Sequence e = add64 base (Z.of_nat i);
  io_id : blank (en_EventID e) = false;
  io_new : en_EventID e ∉ seen;
  io_schema : en_SchemaVersion e = 1%Z;
  io_payload : en_PayloadHash e = "" ∨ en_PayloadHash e = payloadHash (en_Payload e);
  io_trace : trace_ok e;
  io_hash : en_EnvelopeHash e = envelopeHash e;
  io_link : chain = true → 0 < i → en_PreviousHash e = prev }.

Definition same_core (e e' : Envelope) : Prop :=
  en_EventID e' = en_EventID e ∧ en_PreviousHash e' = en_PreviousHash e ∧ en_Payload e' = en_Payload e
  ∧ en_PayloadHash e' = en_PayloadHash e.

Lemma trace_check_ok e f args :
  (if (en_TraceParent e ≠? "") || (en_TraceState e ≠? "")
   then wrap_err f args (ParseTraceParent (en_TraceParent e) (en_TraceState e) ;;; Ok tt) else Ok tt) = Ok tt
  ↔ trace_ok e.
Proof.
  unfold trace_ok. destruct (decide (en_TraceParent e = "")) as [E1|E1], (decide (en_TraceState e = "")) as [E2|E2].
  1: rewrite (bool_decide_eq_true_2 _ E1), (bool_decide_eq_true_2 _ E2); cbn; naive_solver.
  all: rewrite ?(bool_decide_eq_false_2 _ E1), ?(bool_decide_eq_false_2 _ E2), ?orb_true_r; cbn [negb orb];
    rewrite wrap_err_Ok, rbind_any_Ok; naive_solver.
Qed.

Lemma set_ehash_same e h : en_EnvelopeHash e = h → set_ehash h e = e.
Proof. intros <-. by destruct e. Qed.

Lemma validate_item_ok chain base i seen prev e :
  item_ok chain base i seen prev e → validate_item chain base i seen prev e = (e, Ok tt).
Proof.
  intros [Hseq Hid Hnew Hsch Hpay Htr Hh Hl]. unfold validate_item. cbn zeta.
  rewrite (bool_decide_eq_true_2 (en_Sequence e = _)) by done. rewrite Hid.
  assert (contains seen (en_EventID e) = false) as ->.
  { apply not_true_iff_false. by rewrite contains_spec. }
  cbn [negb reject rbind]. rewrite Hsch. cbn [Z.eqb]. rewrite Hsch.
  assert ((en_PayloadHash e ≠? "") && (en_PayloadHash e ≠? payloadHash (en_Payload e)) = false) as ->.
  { destruct Hpay as [E|E]; [by rewrite (bool_decide_eq_true_2 _ E)|].
    by rewrite (bool_decide_eq_true_2 (en_PayloadHash e = payloadHash _) E), andb_false_r. }
  rewrite (bool_decide_eq_true_2 (1%Z = 1%Z)) by done. cbn [negb reject rbind].
  pose proof (proj2 (trace_check_ok e "event %s trace context: %w" [en_EventID e]) Htr) as Ht. rewrite Ht.
  rewrite (bool_decide_eq_true_2 (en_EnvelopeHash e = envelopeHash e) Hh), andb_false_r. cbn [rbind reject negb].
  assert ((if en_EnvelopeHash e ≟ "" then sealed e else e) = e) as ->.
  { destruct (bool_decide_reflect (en_EnvelopeHash e = "")); [|done]. by apply set_ehash_same. }
  f_equal. apply reject_tt. destruct chain; [|done]. destruct (Nat.ltb_spec 0 i); [|done].
  by rewrite (bool_decide_eq_true_2 (en_PreviousHash e = prev)) by auto.
Qed.

Lemma validate_item_inv chain base i seen prev e e' :
  validate_item chain base i seen prev e = (e', Ok tt) →
  item_ok chain base i seen prev e' ∧ same_core e e' ∧ en_Sequence e' = en_Sequence e.
Proof.
  unfold validate_item. cbn zeta. destruct (rbind _ _) as [[]|err] eqn:G1; [|done].
  rewrite !rbind_unit_Ok, !reject_tt, negb_false_iff, bool_decide_eq_true in G1. destruct G1 as (Hseq & Hid & Hnew).
  apply not_true_iff_false in Hnew. rewrite contains_spec in Hnew.
  set (e1 := if (en_SchemaVersion e =? 0)%Z then set_schema 1 e else e).
  assert (F1 : same_core e e1 ∧ en_Sequence e1 = en_Sequence e) by (unfold e1; by destruct (_ =? _)%Z).
  destruct (rbind (reject (en_SchemaVersion e1 ≠? 1%Z) _) _) as [[]|err] eqn:G2; [|done].
  rewrite !rbind_unit_Ok, !reject_tt, negb_false_iff, bool_decide_eq_true in G2.
  destruct G2 as (Hsch & Hpay & Htr%trace_check_ok & Hh).
  rewrite !andb_false_iff, !negb_false_iff, !bool_decide_eq_true in Hpay, Hh.
  set (e2 := if en_EnvelopeHash e1 ≟ "" then sealed e1 else e1).
  assert (F2 : same_core e1 e2 ∧ en_Sequence e2 = en_Sequence e1 ∧ en_SchemaVersion e2 = en_SchemaVersion e1
    ∧ en_TraceParent e2 = en_TraceParent e1 ∧ en_TraceState e2 = en_TraceState e1
    ∧ en_EnvelopeHash e2 = envelopeHash e2).
  { unfold e2. destruct (bool_decide_reflect (en_EnvelopeHash e1 = "")); [done|]. repeat split. by destruct Hh. }
  destruct F1 as ((I1 & P1 & Y1 & H1') & S1), F2 as ((I2 & P2 & Y2 & H2') & S2 & C2 & T2 & U2 & EH).
  intros [= <- G3]. apply reject_tt in G3.
  split; [|split; [|congruence]]; [split|repeat split; congruence].
  - congruence.
  - by rewrite I2, I1.
  - by rewrite I2, I1.
  - congruence.
  - rewrite H2', Y2. tauto.
  - unfold trace_ok in *. by rewrite T2, U2.
  - done.
  - intros -> Hi. apply Nat.ltb_lt in Hi. rewrite Hi in G3. cbn [andb] in G3.
    by apply negb_false_iff, bool_decide_eq_true in G3.
Qed.

(** The whole history, as the loop accepts it. *)
Inductive chain_ok (chain : bool) (base : Z) : nat → list string → string → list Envelope → Prop :=
  | chain_nil i seen prev : chain_ok chain base i seen prev []
  | chain_cons i seen prev e es :
      item_ok chain base i seen prev e → chain_ok chain base (Datatypes.S i) (en_EventID e :: seen) (en_EnvelopeHash e) es →
      chain_ok chain base i seen prev (e :: es).

Lemma validate_from_ok chain base es : ∀ i seen prev,
  chain_ok chain base i seen prev es → validate_from chain base i seen prev es = (es, Ok tt).
Proof.
  induction es as [|e es IH]; intros i seen prev Hc; [done|]. inversion Hc; subst. cbn [validate_from].
  rewrite validate_item_ok by done. by rewrite IH.
Qed.

Lemma validate_from_inv chain base es : ∀ i seen prev es',
  validate_from chain base i seen prev es = (es', Ok tt) →
  chain_ok chain base i seen prev es' ∧ Forall2 (λ e e', same_core e e' ∧ en_Sequence e' = en_Sequence e) es es'.
Proof.
  induction es as [|e es IH]; intros i seen prev es'; cbn [validate_from].
  { intros [= <-]. split; constructor. }
  destruct (validate_item _ _ _ _ _ e) as [e1 [[]|]] eqn:Hi; [|done].
  destruct (validate_from _ _ _ _ _ es) as [es1 [[]|]] eqn:Hf; [|done]. intros [= <-].
  destruct (validate_item_inv _ _ _ _ _ _ _ Hi) as (Hok & Hcore & Hseq).
  destruct (IH _ _ _ _ Hf) as [Hc Hall]. split; constructor; done.
Qed.

(** ** Settled events: nothing about them is left for validation to fill in *)

Record settled (e : Envelope) : Prop := {
  st_schema : en_SchemaVersion e = 1%Z;
  st_hash : en_EnvelopeHash e = envelopeHash e;
  st_clone : cloneEnvelope e = e;
  st_nonzero : en_Sequence e ≠ 0%Z;
  st_range : int64_range (en_Sequence e);
  st_payload : en_PayloadHash e = payloadHash (en_Payload e) }.

Lemma settled_item chain base i seen prev e :
  settled e → fst (validate_item chain base i seen prev e) = e.
Proof.
  intros [Hs Hh _ _ _ _]. unfold validate_item. cbn zeta. destruct (rbind _ _) as [[]|]; [|done].
  rewrite Hs. cbn [Z.eqb]. destruct (rbind (reject (en_SchemaVersion e ≠? 1%Z) _) _) as [[]|]; [|done]. cbn [fst].
  destruct (bool_decide_reflect (en_EnvelopeHash e = "")); [|done]. by apply set_ehash_same.
Qed.

Lemma settled_from chain base es : ∀ i seen prev,
  Forall settled es → fst (validate_from chain base i seen prev es) = es.
Proof.
  induction es as [|e es IH]; intros i seen prev Hall; [done|]. inversion Hall as [|? ? He Hes]; subst.
  cbn [validate_from]. pose proof (settled_item chain base i seen prev e He) as Hi.
  destruct (validate_item _ _ _ _ _ e) as [e' [[]|]]; cbn [fst] in Hi |- *; subst e'; [|done].
  specialize (IH (Datatypes.S i) (en_EventID e :: seen) (en_EnvelopeHash e) Hes).
  destruct (validate_from _ _ _ _ _ es) as [es' r]. cbn in *. by subst.
Qed.

Lemma settled_validate es : Forall settled es → fst (validatePersistedEvents es) = es.
Proof.
  intros Hall. unfold validatePersistedEvents.
  assert (Hnum : (if forallb (λ e, (en_Sequence e =? 0)%Z) es then number_from 0 es else es) = es).
  { destruct es as [|e es]; [done|]. cbn [forallb]. inversion Hall as [|? ? He _]; subst.
    by rewrite (proj2 (Z.eqb_neq _ _) (st_nonzero e He)). }
  rewrite Hnum. destruct es as [|e es]; [done|]. by apply settled_from.
Qed.

(** A history that validates as it is. *)
Definition valid_history (es : list Envelope) : Prop := Forall settled es ∧ snd (validatePersistedEvents es) = Ok tt.

Lemma valid_history_eq es : valid_history es → validatePersistedEvents es = (es, Ok tt).
Proof.
  intros [Hs Hv]. pose proof (settled_validate es Hs) as Hf. destruct (validatePersistedEvents es). cbn in *. congruence.
Qed.

(** ** Ids *)

Lemma chain_ok_ids chain base es : ∀ i seen prev,
  chain_ok chain base i seen prev es → NoDup (map en_EventID es) ∧ (∀ e, e ∈ es → blank (en_EventID e) = false)
  ∧ (∀ e, e ∈ es → en_EventID e ∉ seen).
Proof.
  induction es as [|e es IH]; intros i seen prev Hc; cbn [map].
  { split; [constructor|set_solver]. }
  inversion Hc as [|? ? ? ? ? Hi Hrest]; subst. destruct (IH _ _ _ Hrest) as (Hnd & Hb & Hseen).
  split; [|split].
  - constructor; [|done]. intros (e' & Heq & Hin)%list_elem_of_fmap. apply (Hseen e' Hin). rewrite Heq. left.
  - intros e' [->|Hin]%elem_of_cons; [apply Hi|by apply Hb].
  - intros e' [->|Hin]%elem_of_cons; [apply Hi|]. intros Hs. apply (Hseen e' Hin). by right.
Qed.

Lemma valid_history_ids es :
  valid_history es → NoDup (map en_EventID es) ∧ ∀ e, e ∈ es → blank (en_EventID e) = false.
Proof.
  intros Hv. pose proof (valid_history_eq es Hv) as Heq. unfold validatePersistedEvents in Heq.
  destruct (if forallb _ es then number_from 0 es else es) as [|e es0] eqn:E.
  { injection Heq as <-. split; [constructor|set_solver]. }
  apply validate_from_inv in Heq as [Hc _]. apply chain_ok_ids in Hc. naive_solver.
Qed.

(** ** The merge *)

Lemma copy_committed_ok es : ∀ i merged seen,
  NoDup (map en_EventID es) → (∀ e, e ∈ es → en_EventID e ≠ "" ∧ en_EventID e ∉ seen ∧ cloneEnvelope e = e) →
  fold_each_from i copy_committed (merged, seen) es = Ok (merged ++ es, reverse (map en_EventID es) ++ seen).
Proof.
  induction es as [|e es IH]; intros i merged seen Hnd Hall; cbn [fold_each_from map].
  { by rewrite app_nil_r. }
  apply NoDup_cons in Hnd as [Hnew Hnd]. destruct (Hall e ltac:(left)) as (Hne & Hseen & Hcl).
  unfold copy_committed at 1. rewrite (bool_decide_eq_false_2 _ Hne).
  assert (contains seen (en_EventID e) = false) as -> by (apply not_true_iff_false; by rewrite contains_spec).
  cbn [reject rbind]. rewrite Hcl, IH; [|done|].
  - rewrite reverse_cons, <- !app_assoc. done.
  - intros e' Hin. destruct (Hall e' ltac:(by right)) as (? & ? & ?). split; [done|]. split; [|done].
    rewrite elem_of_cons. intros [E|?]; [|done]. apply Hnew. rewrite <- E. by apply list_elem_of_fmap_2.
Qed.

Lemma blank_nonempty s : blank s = false → s ≠ "".
Proof. by intros Hb ->. Qed.

(** What the second loop adds to the committed history: one record per new id. *)
Lemma append_local_spec st i e st' :
  append_local st i e = Ok st' →
  (en_EventID e ∈ ms_seen st ∧ st' = st)
  ∨ (en_EventID e ∉ ms_seen st ∧ ∃ e', ms_merged st' = ms_merged st ++ [e'] ∧ en_EventID e' = en_EventID e
      ∧ e' = sealed (rebased (add64 (ms_sequence st) 1) (ms_previous st) e)
      ∧ ms_seen st' = en_EventID e :: ms_seen st ∧ ms_sequence st' = en_Sequence e'
      ∧ en_PayloadHash e' ≠ "").
Proof.
  unfold append_local. rewrite rbind_unit_Ok, reject_tt. intros [_ Ha].
  destruct (contains (ms_seen st) (en_EventID e)) eqn:Hc.
  { apply contains_spec in Hc. injection Ha as <-. by left. }
  right. apply not_true_iff_false in Hc. rewrite contains_spec in Hc. split; [done|].
  apply rbind_unit_Ok in Ha as [Hp Ha]. apply reject_tt, bool_decide_eq_false in Hp. injection Ha as <-.
  set (r := rebased (add64 (ms_sequence st) 1) (ms_previous st) e) in *.
  assert (Hid : en_EventID r = en_EventID e).
  { unfold r, rebased, cloneEnvelope. destruct (en_Payload e) as [m|]; [|done]. by destruct (clone_map m). }
  exists (sealed r). cbn [ms_merged ms_seen ms_sequence]. split; [reflexivity|]. split; [exact Hid|].
  split; [done|]. split; [f_equal; exact Hid|]. split; [done|exact Hp].
Qed.

Lemma clone_idem e : cloneEnvelope (cloneEnvelope e) = cloneEnvelope e.
Proof.
  unfold cloneEnvelope. destruct (en_Payload e) as [m|] eqn:Em; [|by rewrite Em].
  destruct (clone_map m) as [m'|] eqn:Ec; [|by rewrite Em, Ec].
  cbn [set_payload en_with en_Payload]. by rewrite (clone_map_stable _ _ Ec).
Qed.

(** Cloning concerns the payload only. *)
Lemma clone_stable_iff e e' : en_Payload e' = en_Payload e → cloneEnvelope e = e → cloneEnvelope e' = e'.
Proof.
  unfold cloneEnvelope. intros Hp. rewrite Hp. destruct (en_Payload e) as [m|] eqn:Em; [|done].
  destruct (clone_map m) as [m'|]; [|done]. intros E. assert (m' = m) as ->.
  { assert (E' : en_Payload (set_payload (Some m') e) = en_Payload e) by (by rewrite E). cbn in E'. congruence. }
  destruct e'. cbn in *. by subst.
Qed.

Lemma clone_fields e : en_EventID (cloneEnvelope e) = en_EventID e ∧ en_SchemaVersion (cloneEnvelope e) = en_SchemaVersion e.
Proof. unfold cloneEnvelope. destruct (en_Payload e) as [m|]; [|done]. by destruct (clone_map m). Qed.

Lemma next_seq_nonzero n : (0 ≤ n < two63)%Z → add64 n 1 ≠ 0%Z.
Proof.
  intros Hn. unfold add64, wrap64, two63, two64 in *.
  destruct (decide (n = 9223372036854775807)%Z) as [->|Hne]; [done|]. rewrite Z.mod_small; lia.
Qed.

Lemma rebased_settled n prev e :
  (0 ≤ n < two63)%Z → en_SchemaVersion e = 1%Z → settled (sealed (rebased (add64 n 1) prev e)).
Proof.
  intros Hn Hs. pose proof (clone_fields e) as [_ Hcs]. split; try done.
  - unfold rebased. cbn. by rewrite Hcs.
  - apply (clone_stable_iff (cloneEnvelope e)); [done|apply clone_idem].
  - by apply next_seq_nonzero.
  - apply wrap64_range.
Qed.

Lemma maxSequence_range es : Forall settled es → (0 ≤ maxSequence es < two63)%Z.
Proof.
  unfold maxSequence. intros Hall. assert (Hgen : ∀ n, (0 ≤ n < two63)%Z →
    (0 ≤ foldl (λ m e, Z.max m (en_Sequence e)) n es < two63)%Z).
  { induction Hall as [|e es He _ IH]; intros n Hn; cbn [foldl]; [done|]. apply IH.
    pose proof (st_range e He) as [? ?]. lia. }
  apply Hgen. unfold two63. lia.
Qed.

(** The second loop, on local events in the form the bus keeps them. *)
Lemma append_locals_spec local : ∀ i st st',
  Forall settled local → (0 ≤ ms_sequence st)%Z → (ms_sequence st + Z.of_nat (length local) < two63)%Z →
  fold_each_from i append_local st local = Ok st' →
  ∃ tail, ms_merged st' = ms_merged st ++ tail ∧ Forall settled tail
    ∧ (∀ e, e ∈ local → en_EventID e ∈ ms_seen st ∨ ∃ e', e' ∈ tail ∧ en_EventID e' = en_EventID e)
    ∧ (∀ e', e' ∈ tail → en_EventID e' ∉ ms_seen st).
Proof.
  induction local as [|e local IH]; intros i st st' Hall Hz Hroom; cbn [fold_each_from length].
  { intros [= <-]. exists []. rewrite app_nil_r. split; [done|]. split; [constructor|set_solver]. }
  inversion Hall as [|? ? He Hlocal]; subst. rewrite rbind_Ok. intros (st1 & Ha & Hrest). cbn [length] in Hroom.
  destruct (append_local_spec _ _ _ _ Ha) as [[Hin ->]|(Hnew & e' & Hm & Hid & Heq & Hseen & Hseq & _)].
  - destruct (IH _ st st' Hlocal Hz ltac:(lia) Hrest) as (tail & Hm & Hs & Hin1 & Hin2).
    exists tail. split; [done|]. split; [done|]. split; [|done].
    intros x [->|Hx]%elem_of_cons; [by left|by apply Hin1].
  - assert (Hs' : settled e').
    { rewrite Heq. apply rebased_settled; [lia|apply He]. }
    assert (Hnext : ms_sequence st1 = (ms_sequence st + 1)%Z).
    { rewrite Hseq, Heq. cbn. unfold add64. apply wrap64_id. unfold int64_range, two63 in *. lia. }
    destruct (IH _ st1 st' Hlocal ltac:(lia) ltac:(lia) Hrest) as (tail & Hm' & Hs & Hin1 & Hin2).
    exists (e' :: tail). split; [by rewrite Hm', Hm, <- app_assoc|]. split; [by constructor|]. rewrite Hseen in *. split.
    + intros x [->|Hx]%elem_of_cons; [right; exists e'; split; [left|done]|].
      destruct (Hin1 x Hx) as [[E|?]%elem_of_cons|(y & Hy & Ey)]; [|by left|right; exists y; split; [by right|done]].
      right. exists e'. split; [left|congruence].
    + intros x [->|Hx]%elem_of_cons; [by rewrite Hid|]. specialize (Hin2 x Hx). set_solver.
Qed.

(** A successful merge: the committed history, unchanged, and the local events it
    did not contain. *)
Lemma merge_spec committed local merged :
  valid_history committed → Forall settled local →
  (maxSequence committed + Z.of_nat (length local) < two63)%Z →
  mergePeerEventsPreservingCommitted committed local = Ok merged →
  ∃ tail, merged = committed ++ tail ∧ Forall settled tail
    ∧ (∀ e, e ∈ local → ∃ e', e' ∈ merged ∧ en_EventID e' = en_EventID e)
    ∧ (∀ e', e' ∈ tail → en_EventID e' ∉ map en_EventID committed).
Proof.
  intros Hv Hlocal Hroom. destruct (valid_history_ids _ Hv) as [Hnd Hb]. destruct Hv as [Hs _].
  unfold mergePeerEventsPreservingCommitted. rewrite (copy_committed_ok committed 0 [] []); [|done|].
  2: { intros e He. rewrite Forall_forall in Hs. split; [by apply blank_nonempty, Hb|]. split; [set_solver|by apply Hs]. }
  cbn [rbind fst snd app]. rewrite rbind_Ok. intros (st & Hf & [= <-]).
  apply append_locals_spec in Hf as (tail & Hm & Ht & H1' & H2'); [|done|apply (maxSequence_range _ Hs)|done].
  cbn [ms_merged ms_seen] in *. rewrite app_nil_r in *. exists tail. split; [done|]. split; [done|]. split.
  - intros e He. rewrite Hm. destruct (H1' e He) as [Hin|(e' & Hin & Hid)].
    + apply elem_of_reverse, list_elem_of_fmap in Hin as (e' & Hid & Hin). exists e'. split; [set_solver|done].
    + exists e'. split; [set_solver|done].
  - intros e' Hin. specialize (H2' e' Hin). by rewrite elem_of_reverse in H2'.
Qed.

(** ** Positions *)

Lemma positioned_settled es e :
  Forall settled es → (maxSequence es + 1 < two63)%Z → en_SchemaVersion e = 1%Z → cloneEnvelope e = e →
  en_PayloadHash e = payloadHash (en_Payload e) → settled (positioned es e).
Proof.
  intros Hall Hroom Hs Hc Hp. pose proof (maxSequence_range es Hall) as Hr. unfold positioned. cbn zeta.
  set (f := match last es with Some l => set_prev _ _ | None => _ end).
  assert (F : en_SchemaVersion f = 1%Z ∧ en_Payload f = en_Payload e ∧ en_PayloadHash f = en_PayloadHash e
    ∧ en_Sequence f = add64 (maxSequence es) 1).
  { unfold f. by destruct (last es). }
  destruct F as (F1 & F2 & F3 & F4). split; cbn [sealed set_ehash en_with en_SchemaVersion en_Sequence en_Payload
    en_PayloadHash en_EnvelopeHash]; try done.
  - apply (clone_stable_iff e); [exact F2|exact Hc].
  - rewrite F4. by apply next_seq_nonzero; lia.
  - rewrite F4. apply wrap64_range.
  - by rewrite F3, F2.
Qed.

Lemma admit_spec io event e : admit_event io event = Ok e →
  en_SchemaVersion e = 1%Z ∧ cloneEnvelope e = e ∧ en_PayloadHash e = payloadHash (en_Payload e)
  ∧ en_EventID e = (if en_EventID event ≟ "" then bi_id io else en_EventID event).
Proof.
  unfold admit_event. cbn zeta. set (e0 := if en_EventID event ≟ "" then set_id (bi_id io) event else event).
  set (e1 := cloneEnvelope e0). set (e2 := if (en_SchemaVersion e1 =? 0)%Z then set_schema 1 e1 else e1).
  rewrite !rbind_unit_Ok, !reject_tt, negb_false_iff, bool_decide_eq_true. intros (Hs & _ & _ & _ & [= <-]).
  assert (F : en_Payload e2 = en_Payload e1 ∧ en_EventID e2 = en_EventID e1) by (unfold e2; by destruct (_ =? _)%Z).
  destruct F as [F1 F2]. split; [done|]. split; [|split; [done|]].
  - apply (clone_stable_iff e1); [by cbn|]. apply clone_idem.
  - cbn. rewrite F2. unfold e1. rewrite (proj1 (clone_fields e0)). unfold e0. by case_bool_decide.
Qed.

Lemma positioned_id es e : en_EventID (positioned es e) = en_EventID e.
Proof. unfold positioned. cbn. by destruct (last es). Qed.
End spec.

(** * One process's bus among peers that share its file

    [good] histories (numbered, linked, settled), what a write leaves in the file
    and in the bus, and the invariant [synced] that ties the two together. *)

Abbreviation ids := (map en_EventID).

Section rely.
Context `{!Sha256, !PayloadClone, !JsonMarshal Payload, !JsonMarshal Envelope, !JsonMarshal persistedEvents}.

Definition tail_hash (prev : string) (es : list Envelope) : string :=
  match last es with Some l => en_EnvelopeHash l | None => prev end.

(** ** Good histories *)

Record good (es : list Envelope) : Prop := {
  gd_settled : Forall settled es;
  gd_chain : ∃ base, (1 ≤ base)%Z ∧ (base + Z.of_nat (length es) < two63)%Z ∧ chain_ok true base 0 [] "" es }.

Lemma chain_ok_weaken base es : ∀ i seen prev chain,
  chain_ok true base i seen prev es → chain_ok chain base i seen prev es.
Proof.
  induction es as [|e es IH]; intros i seen prev chain Hc; [constructor|].
  inversion Hc as [|? ? ? ? ? [] Hrest]; subst. constructor; [|by apply IH]. split; auto.
Qed.

Lemma good_valid es : good es → valid_history es.
Proof.
  intros [Hs (base & Hb & Hroom & Hc)]. split; [done|]. unfold validatePersistedEvents.
  destruct es as [|e es]; [done|]. inversion Hc as [|? ? ? ? ? Hi Hrest]; subst.
  assert (He : en_Sequence e = base).
  { rewrite (io_seq _ _ _ _ _ _ Hi). unfold add64. rewrite Z.add_0_r. apply wrap64_id.
    unfold int64_range, two63 in *. cbn [length] in Hroom. lia. }
  cbn [forallb]. rewrite (proj2 (Z.eqb_neq _ _)) by lia. cbn [andb].
  rewrite (proj2 (Z.ltb_ge _ _)) by lia. rewrite He.
  rewrite (validate_from_ok _ base (e :: es)); [done|]. by apply chain_ok_weaken.
Qed.

Lemma good_nil : good [].
Proof. split; [constructor|]. exists 1%Z. split; [lia|]. split; [unfold two63; cbn; lia|constructor]. Qed.

Lemma chain_max base es : ∀ i seen prev n,
  chain_ok true base i seen prev es → (n ≤ base + Z.of_nat i)%Z → (1 ≤ base)%Z →
  (base + Z.of_nat (i + length es) < two63)%Z →
  foldl (λ m e, Z.max m (en_Sequence e)) n es
  = match es with [] => n | _ => (base + Z.of_nat (i + length es) - 1)%Z end.
Proof.
  induction es as [|e es IH]; intros i seen prev n Hc Hn Hb Hroom; [done|].
  inversion Hc as [|? ? ? ? ? Hi Hrest]; subst. cbn [foldl length] in *.
  assert (He : en_Sequence e = (base + Z.of_nat i)%Z).
  { rewrite (io_seq _ _ _ _ _ _ Hi). apply wrap64_id. unfold int64_range, two63 in *. lia. }
  rewrite He, (IH (Datatypes.S i) _ _ _ Hrest) by lia. destruct es; cbn [length]; lia.
Qed.

Lemma history_snoc base e es : ∀ i seen prev,
  chain_ok true base i seen prev es →
  item_ok true base (i + length es) (reverse (ids es) ++ seen) (tail_hash prev es) e →
  chain_ok true base i seen prev (es ++ [e]).
Proof.
  induction es as [|x es IH]; intros i seen prev Hc Hi; cbn [length app map] in *.
  { rewrite Nat.add_0_r in Hi. constructor; [exact Hi|constructor]. }
  inversion Hc as [|? ? ? ? ? Hx Hrest]; subst. constructor; [done|]. apply IH; [done|].
  rewrite reverse_cons, <- app_assoc in Hi. cbn [app] in Hi. rewrite Nat.add_succ_comm.
  unfold tail_hash in *. rewrite last_cons in Hi. by destruct (last es).
Qed.

(** An event that may be appended to a history. *)
Record follows (es : list Envelope) (e : Envelope) : Prop := {
  fw_settled : settled e;
  fw_id : blank (en_EventID e) = false;
  fw_new : en_EventID e ∉ ids es;
  fw_trace : trace_ok e;
  fw_seq : en_Sequence e = add64 (maxSequence es) 1;
  fw_prev : es ≠ [] → en_PreviousHash e = tail_hash "" es }.

Lemma good_snoc es e : good es → (maxSequence es + 2 < two63)%Z → follows es e → good (es ++ [e]).
Proof.
  intros [Hs (base & Hb & Hroom & Hc)] Hmax [Fs Fi Fn Ft Fq Fp]. unfold maxSequence in *.
  split; [apply Forall_app; split; [done|by constructor]|].
  destruct es as [|x es].
  { exists 1%Z. split; [lia|]. split; [unfold two63; cbn; lia|]. constructor; [|constructor].
    split; try done; try apply Fs; [right; apply Fs|by intros _ ?%Nat.lt_irrefl]. }
  rewrite (chain_max base (x :: es) 0 [] "" 0 Hc) in * by (cbn [length Nat.add] in *; lia).
  cbn [Nat.add] in *. exists base. split; [done|]. rewrite length_app. cbn [length] in *. split; [lia|].
  apply history_snoc; [done|]. cbn [Nat.add length]. split; try done; try apply Fs.
  - rewrite Fq. unfold add64. f_equal. lia.
  - rewrite app_nil_r, elem_of_reverse. exact Fn.
  - right. apply Fs.
  - intros _ _. by apply Fp.
Qed.

(** ** Appending through a merge *)

Lemma append_known local : ∀ i st,
  (∀ e, e ∈ local → en_EventID e ≠ "" ∧ en_EventID e ∈ ms_seen st) → fold_each_from i append_local st local = Ok st.
Proof.
  induction local as [|e local IH]; intros i st Hall; [done|]. cbn [fold_each_from].
  destruct (Hall e ltac:(left)) as [Hne Hin]. unfold append_local at 1. rewrite (bool_decide_eq_false_2 _ Hne).
  rewrite (proj2 (contains_spec _ _) Hin). cbn [reject rbind]. apply IH. intros x Hx. apply Hall. by right.
Qed.

Lemma merge_known committed local :
  good committed → (∀ e, e ∈ local → en_EventID e ∈ ids committed) →
  mergePeerEventsPreservingCommitted committed local = Ok committed.
Proof.
  intros Hg Hin. destruct (valid_history_ids _ (good_valid _ Hg)) as [Hnd Hb]. destruct Hg as [Hs _].
  unfold mergePeerEventsPreservingCommitted. rewrite (copy_committed_ok committed 0 [] []); [|done|].
  2: { intros e He. rewrite Forall_forall in Hs. split; [by apply blank_nonempty, Hb|]. split; [set_solver|by apply Hs]. }
  cbn [rbind fst snd app]. rewrite append_known; [done|]. cbn [ms_seen]. intros e He. specialize (Hin e He).
  split; [|by rewrite app_nil_r, elem_of_reverse].
  apply list_elem_of_fmap in Hin as (x & -> & Hx). by apply blank_nonempty, Hb.
Qed.

Lemma merge_new committed local e :
  good committed → (∀ x, x ∈ local → en_EventID x ∈ ids committed) →
  settled e → blank (en_EventID e) = false → trace_ok e → payloadHash (en_Payload e) ≠ "" →
  en_EventID e ∉ ids committed →
  ∃ e', mergePeerEventsPreservingCommitted committed (local ++ [e]) = Ok (committed ++ [e'])
    ∧ follows committed e' ∧ en_EventID e' = en_EventID e.
Proof.
  intros Hg Hin Hset Hid Htr Hpay Hnew. destruct (valid_history_ids _ (good_valid _ Hg)) as [Hnd Hb].
  destruct Hg as [Hs _]. pose proof (maxSequence_range _ Hs) as Hr.
  unfold mergePeerEventsPreservingCommitted. rewrite (copy_committed_ok committed 0 [] []); [|done|].
  2: { intros x He. rewrite Forall_forall in Hs. split; [by apply blank_nonempty, Hb|]. split; [set_solver|by apply Hs]. }
  cbn [rbind fst snd app]. rewrite fold_each_app, append_known.
  2: { cbn [ms_seen]. intros x Hx. specialize (Hin x Hx). split; [|by rewrite app_nil_r, elem_of_reverse].
       apply list_elem_of_fmap in Hin as (y & -> & Hy). by apply blank_nonempty, Hb. }
  cbn [rbind fold_each_from]. unfold append_local. cbn [ms_seen ms_merged ms_sequence ms_previous].
  rewrite (bool_decide_eq_false_2 _ (blank_nonempty _ Hid)). cbn [reject rbind].
  assert (contains (reverse (ids committed) ++ []) (en_EventID e) = false) as ->.
  { apply not_true_iff_false. by rewrite contains_spec, app_nil_r, elem_of_reverse. }
  assert (Hre : rebased (add64 (maxSequence committed) 1) (tail_hash "" committed) e
    = set_phash (payloadHash (en_Payload e)) (set_prev (tail_hash "" committed)
        (set_sequence (add64 (maxSequence committed) 1) e))).
  { unfold rebased. by rewrite (st_clone e Hset). }
  fold (tail_hash "" committed). rewrite Hre. set (f := set_phash _ _) in *.
  rewrite (bool_decide_eq_false_2 (en_PayloadHash f = "") Hpay).
  cbn [reject rbind]. eexists. split; [reflexivity|]. split; [|done].
  split; try done; cbn [en_EventID sealed set_ehash set_phash set_prev set_sequence en_with].
  rewrite <- Hre. apply rebased_settled; [lia|apply Hset].
Qed.

(** ** The file *)

Definition hist (f : BusFile) : list Envelope := match f with Some (Ok d) => pe_Events d | _ => [] end.
Definition rev (f : BusFile) : Z := match f with Some (Ok d) => pe_Revision d | _ => 0%Z end.
Definition fine (f : BusFile) : Prop :=
  match f with
  | None => True
  | Some (Err _) => False
  | Some (Ok d) => good (pe_Events d) ∧ pe_Retention d = no_retention
  end.

Lemma fine_good f : fine f → good (hist f).
Proof. destruct f as [[d|]|]; cbn; [by intros []|done|intros _; apply good_nil]. Qed.

(** What peers may do to it between two operations of this process. *)
Record rely (f f' : BusFile) : Prop := {
  rl_fine : fine f';
  rl_prefix : hist f `prefix_of` hist f';
  rl_rev : f' = f ∨ (rev f < rev f')%Z }.

(** Events this process is about to commit on top of [p]: at most one. *)
Inductive pending (p : list Envelope) : list Envelope → Prop :=
  | pending_none : pending p []
  | pending_one e : follows p e → payloadHash (en_Payload e) ≠ "" → pending p [e].

(** The bus a write is made of, once a peer's history has been adopted. *)
Record ready (b : Bus) (ext : list Envelope) (f : BusFile) (b' : Bus) (ext' : list Envelope) : Prop := {
  rd_events : b_events b' = hist f ++ ext';
  rd_good : good (b_events b');
  rd_same : ext = [] → ext' = [];
  rd_ids : ∀ e, e ∈ ext → en_EventID e ∈ ids (b_events b');
  rd_rev : b_revision b' = rev f;
  rd_path : b_statePath b' = b_statePath b;
  rd_ret : b_retention b' = b_retention b;
  rd_alone : b_revision b = rev f → b' = b;
  rd_seen : b_revision b ≠ rev f → b_seen b' = list_to_set (ids (b_events b'))
              ∧ b_seenProvider b' = list_to_set (omap provider_key (b_events b')) }.

(** What [persistLocked] leaves behind, on every branch. *)
Inductive persisted (io : Io) (b : Bus) (ext : list Envelope) (f : BusFile) : World → result unit → Prop :=
  | persist_locked err : persisted io b ext f {| bw_bus := b; bw_file := f |} (Err err)
  | persist_unwritten b' ext' err :
      ready b ext f b' ext' → bi_before io ≠ None ∨ json_marshal (next_snapshot b') = None →
      persisted io b ext f {| bw_bus := b'; bw_file := f |} (Err err)
  | persist_unsynced b' ext' err :
      ready b ext f b' ext' → bi_after io ≠ None →
      persisted io b ext f {| bw_bus := b'; bw_file := Some (Ok (next_snapshot b')) |} (Err err)
  | persist_done b' ext' :
      ready b ext f b' ext' →
      persisted io b ext f
        {| bw_bus := set_revision (add64 (b_revision b') 1) b'; bw_file := Some (Ok (next_snapshot b')) |} (Ok tt).

Lemma write_spec io b ext f b' ext' : ready b ext f b' ext' →
  persisted io b ext f (fst (write_snapshot io f b')) (snd (write_snapshot io f b')).
Proof.
  intros Hr. unfold write_snapshot. rewrite (valid_history_eq _ (good_valid _ (rd_good _ _ _ _ _ Hr))).
  assert (with_events (b_events b') b' = b') as -> by (by destruct b').
  destruct (json_marshal (next_snapshot b')) eqn:Hj; [|by apply (persist_unwritten _ _ _ _ b' ext'); [|right]].
  destruct (bi_before io) eqn:Hb; [by apply (persist_unwritten _ _ _ _ b' ext'); [|left; rewrite Hb]|].
  destruct (bi_after io) eqn:Ha; [by apply (persist_unsynced _ _ _ _ b' ext'); [|rewrite Ha]|].
  by apply (persist_done _ _ _ _ b' ext').
Qed.

Lemma known_ids p (f : BusFile) e : p `prefix_of` hist f → e ∈ p → en_EventID e ∈ ids (hist f).
Proof. intros [k ->] He. apply list_elem_of_fmap_2. set_solver. Qed.

Lemma pending_good p ext : good p → (maxSequence p + 2 < two63)%Z → pending p ext → good (p ++ ext).
Proof. intros Hg Hroom [|e He _]; [by rewrite app_nil_r|by apply good_snoc]. Qed.

Lemma adopt_ready b p ext d :
  good (pe_Events d) → b_events b = p ++ ext → p `prefix_of` pe_Events d → pending p ext →
  (maxSequence (pe_Events d) + 2 < two63)%Z → b_revision b ≠ pe_Revision d →
  ∃ b' ext', adopt_peer d b = (b', Ok tt) ∧ ready b ext (Some (Ok d)) b' ext'.
Proof.
  intros Hg He Hp Hpend Hroom Hrev. unfold adopt_peer. rewrite (valid_history_eq _ (good_valid _ Hg)).
  assert (Hm : ∃ ext', mergePeerEventsPreservingCommitted (pe_Events d) (b_events b) = Ok (pe_Events d ++ ext')
    ∧ good (pe_Events d ++ ext') ∧ (ext = [] → ext' = [])
    ∧ ∀ e, e ∈ ext → en_EventID e ∈ ids (pe_Events d ++ ext')).
  { pose proof (known_ids p (Some (Ok d)) : ∀ e, _) as Hk. rewrite He. destruct Hpend as [|e Hf Hpay].
    { exists []. rewrite !app_nil_r. split; [|by split; [|set_solver]].
      apply merge_known; [done|]. intros e Hin. by apply Hk. }
    destruct (decide (en_EventID e ∈ ids (pe_Events d))) as [Hin|Hnew].
    - exists []. rewrite app_nil_r. split; [|split; [done|split; [done|set_solver]]].
      apply merge_known; [done|]. intros x [Hx| ->%list_elem_of_singleton]%elem_of_app; [by apply Hk|done].
    - destruct (merge_new (pe_Events d) p e Hg (λ x Hx, Hk x Hp Hx)) as (e' & Hm & Hf' & Hid); try done; try apply Hf.
      exists [e']. split; [done|]. split; [by apply good_snoc|]. split; [done|].
      intros x ->%list_elem_of_singleton. rewrite map_app, <- Hid. set_solver. }
  destruct Hm as (ext' & -> & Hg' & Hnil & Hids). eexists _, ext'. split; [reflexivity|]. split; try done.
Qed.

Theorem persist_spec io w p ext : let b := bw_bus w in let f := bi_peers io (bw_file w) in
  b_statePath b ≠ "" → fine f → b_events b = p ++ ext → p `prefix_of` hist f → pending p ext →
  (maxSequence (hist f) + 2 < two63)%Z → (b_revision b = rev f → p = hist f) → (b_revision b ≤ rev f)%Z →
  (0 ≤ b_revision b)%Z →
  persisted io b ext f (fst (persistLocked io w)) (snd (persistLocked io w)).
Proof.
  cbn zeta. set (b := bw_bus w). set (f := bi_peers io (bw_file w)).
  intros Hpath Hfine He Hp Hpend Hroom Heq Hle Hpos. unfold persistLocked. fold b f.
  rewrite (bool_decide_eq_false_2 _ Hpath). destruct (bi_lock io) as [err|]; [apply persist_locked|].
  assert (Halone : b_revision b = rev f → ready b ext f b ext).
  { intros Hr. specialize (Heq Hr). subst p. split; try done; [|by rewrite He; intros; rewrite map_app; set_solver].
    rewrite He. apply pending_good; [by apply fine_good|done|done]. }
  destruct f as [[d|]|] eqn:Ef; [|done|]; cbn [readPersistedEvents].
  - destruct (bool_decide_reflect (pe_Revision d = b_revision b)) as [Hr|Hr]; cbn [negb].
    + apply (write_spec _ _ _ _ _ ext). apply Halone. by cbn.
    + destruct Hfine as [Hg _]. destruct (adopt_ready b p ext d Hg He Hp Hpend Hroom) as (b' & ext' & -> & Hrd);
        [congruence|]. by apply (write_spec _ _ _ _ _ ext').
  - apply (write_spec _ _ _ _ _ ext). apply Halone. cbn in *. lia.
Qed.
End rely.
