(* ===== verification/EventBusProps.v ===== *)
(** * EventBusProps: what the event bus promises to its callers

    A bus among peers keeps the shared history append-only and loses no
    acknowledged publication; a bus reopened from the file is the bus that wrote it;
    reading by cursor returns the stream, page by page; a live subscriber receives
    every event or a gap that names the events it missed. *)
From stdpp Require Import base strings gmap list pretty.
From Stdlib Require Import ZArith Lia.
From S2P Require Import Prelude GoLib GoStrings Trace GoValue GoJson EventBus EventBusSpec.

Section props.
Context `{!Sha256, !PayloadClone, !JsonMarshal Payload, !JsonMarshal Envelope, !JsonMarshal persistedEvents}.

(** ** A bus in step with its file *)

Record synced (w : World) : Prop := {
  sy_path : b_statePath (bw_bus w) ≠ "";
  sy_fine : fine (bw_file w);
  sy_prefix : b_events (bw_bus w) `prefix_of` hist (bw_file w);
  sy_pos : (0 ≤ b_revision (bw_bus w))%Z;
  sy_rev : (b_revision (bw_bus w) ≤ rev (bw_file w))%Z;
  sy_eq : b_revision (bw_bus w) = rev (bw_file w) → b_events (bw_bus w) = hist (bw_file w);
  sy_ret : b_retention (bw_bus w) = no_retention;
  sy_seen : b_seen (bw_bus w) = list_to_set (ids (b_events (bw_bus w)));
  sy_provider : b_seenProvider (bw_bus w) = list_to_set (omap provider_key (b_events (bw_bus w))) }.

(** Acknowledgements, delivery counters and subscribers are not part of it. *)
Definition history_kept (b b' : Bus) : Prop :=
  b_statePath b' = b_statePath b ∧ b_events b' = b_events b ∧ b_seen b' = b_seen b
  ∧ b_seenProvider b' = b_seenProvider b ∧ b_revision b' = b_revision b ∧ b_retention b' = b_retention b.

Lemma synced_same b b' f :
  history_kept b b' → synced {| bw_bus := b; bw_file := f |} → synced {| bw_bus := b'; bw_file := f |}.
Proof. intros (E1 & E2 & E3 & E4 & E5 & E6) [? ? ? ? ? ? ? ? ?]. split; cbn in *; by rewrite ?E1, ?E2, ?E3, ?E4, ?E5, ?E6. Qed.

Lemma rely_refl f : fine f → rely f f.
Proof. intros Hf. by split; [|done|left]. Qed.
Lemma rely_trans f g h : rely f g → rely g h → rely f h.
Proof.
  intros [_ P1 R1] [F2 P2 R2]. split; [done|by etrans|]. destruct R1 as [->|], R2 as [->|]; auto. right. lia.
Qed.

Lemma rely_rev f g : rely f g → (rev f ≤ rev g)%Z.
Proof. intros [_ _ [->|]]; lia. Qed.

(** Peers do not put a bus out of step. *)
Lemma synced_peer b f g : synced {| bw_bus := b; bw_file := f |} → rely f g → synced {| bw_bus := b; bw_file := g |}.
Proof.
  intros [? ? Hp ? Hr He ? ? ?] Hrel. pose proof (rely_rev _ _ Hrel). destruct Hrel as [Hf Hpre Hrv].
  split; cbn in *; try done; [by etrans|lia|]. intros E. destruct Hrv as [->|]; [by apply He|lia].
Qed.

Lemma synced_alone b f g :
  synced {| bw_bus := b; bw_file := f |} → rely f g → b_revision b = rev g → b_events b = hist g.
Proof. intros Hs Hr. apply (sy_eq _ (synced_peer _ _ _ Hs Hr)). Qed.

(** ** Reloading *)

Lemma reload_synced w : synced w → ∃ b, reloadLocked w = ({| bw_bus := b; bw_file := bw_file w |}, Ok tt)
  ∧ synced {| bw_bus := b; bw_file := bw_file w |} ∧ b_revision b = rev (bw_file w).
Proof.
  intros Hs. destruct w as [b f]. cbn [bw_file]. destruct Hs as [Hpath Hfine Hp Hpos Hr He Hret Hseen Hprov].
  cbn [bw_bus bw_file] in *. unfold reloadLocked. cbn [bw_bus bw_file].
  rewrite (bool_decide_eq_false_2 _ Hpath). destruct f as [[d|]|]; [|done|]; cbn [readPersistedEvents].
  - destruct (Z.leb_spec (pe_Revision d) (b_revision b)) as [Hle|Hgt].
    { exists b. split; [done|]. cbn in *. split; [by split|lia]. }
    destruct Hfine as [Hg Hret']. rewrite (valid_history_eq _ (good_valid _ Hg)).
    eexists. split; [reflexivity|]. split; [|done]. split; cbn in *; try done; lia.
  - exists b. split; [done|]. cbn in *. split; [by split|lia].
Qed.

(** ** A write that adds no event *)

Definition room (f : BusFile) : Prop := (maxSequence (hist f) + 2 < two63)%Z ∧ (0 ≤ rev f)%Z ∧ (rev f + 1 < two63)%Z.

Lemma next_revision b f : room f → b_revision b = rev f → add64 (b_revision b) 1 = (rev f + 1)%Z.
Proof. intros (_ & ? & ?) ->. apply wrap64_id. unfold int64_range, two63 in *. lia. Qed.

Lemma persisted_file io b ext f w r :
  persisted io b ext f w r → fine f → room f → b_retention b = no_retention → rely f (bw_file w).
Proof.
  intros Hp Hf Hroom Hret. destruct Hp as [err|b' ext' err Hrd _|b' ext' err Hrd _|b' ext' Hrd]; cbn [bw_file];
    try by apply rely_refl.
  all: split; [split; [apply Hrd|rewrite <- Hret; apply Hrd]|cbn [hist next_snapshot pe_Events]; rewrite (rd_events _ _ _ _ _ Hrd); by eexists|];
    right; cbn [rev next_snapshot pe_Revision]; rewrite (next_revision _ f Hroom (rd_rev _ _ _ _ _ Hrd)); lia.
Qed.

Lemma persisted_quiet io b f w r :
  persisted io b [] f w r → synced {| bw_bus := b; bw_file := f |} → room f → synced w.
Proof.
  intros Hp Hs Hroom.
  assert (Hrd : ∀ b' ext', ready b [] f b' ext' → synced {| bw_bus := b'; bw_file := f |}).
  { intros b' ext' Hrd. destruct (decide (b_revision b = rev f)) as [E|E]; [by rewrite (rd_alone _ _ _ _ _ Hrd E)|].
    destruct (rd_seen _ _ _ _ _ Hrd E) as [Hse Hpr]. pose proof (rd_events _ _ _ _ _ Hrd) as Hev.
    rewrite (rd_same _ _ _ _ _ Hrd eq_refl), app_nil_r in Hev. destruct Hroom as (_ & ? & _).
    split; cbn [bw_bus bw_file]; try done.
    - rewrite (rd_path _ _ _ _ _ Hrd). apply Hs.
    - apply Hs.
    - by rewrite Hev.
    - by rewrite (rd_rev _ _ _ _ _ Hrd).
    - by rewrite (rd_rev _ _ _ _ _ Hrd).
    - rewrite (rd_ret _ _ _ _ _ Hrd). apply Hs. }
  pose proof (sy_ret _ Hs) as Hret. pose proof (persisted_file _ _ _ _ _ _ Hp (sy_fine _ Hs) Hroom Hret) as Hrel.
  destruct Hp as [err|b' ext' err H1' _|b' ext' err H1' _|b' ext' H1']; cbn [bw_file] in Hrel.
  - done.
  - by eapply Hrd.
  - by eapply synced_peer; [eapply Hrd|].
  - pose proof (synced_peer _ _ _ (Hrd _ _ H1') Hrel) as [? ? ? ? ? ? ? ? ?].
    assert (E := next_revision _ f Hroom (rd_rev _ _ _ _ _ H1')). destruct Hroom as (_ & ? & _).
    split; cbn in *; try done; rewrite ?E; try lia.
Qed.

(** What a process may meet while it runs an operation: peers that respect the
    same discipline, and room for the counters. *)
Record coop (io : Io) (f : BusFile) : Prop := {
  co_peers : rely f (bi_peers io f);
  co_room : room (bi_peers io f) }.

(** A write by a bus whose history is that of a bus in step. *)
Lemma quiet_write io b w :
  synced w → history_kept (bw_bus w) b → coop io (bw_file w) →
  let w' := fst (persistLocked io (with_bus b w)) in
  synced w' ∧ rely (bw_file w) (bw_file w').
Proof.
  intros Hs Hsame [Hrel Hroom]. destruct w as [b0 f]. cbn [bw_bus bw_file] in *.
  pose proof (synced_same _ _ _ Hsame (synced_peer _ _ _ Hs Hrel)) as Hs'.
  pose proof (persist_spec io (with_bus b {| bw_bus := b0; bw_file := f |}) (b_events b) []) as Hp.
  cbn [with_bus bw_bus bw_file] in Hp |- *. cbn zeta.
  specialize (Hp (sy_path _ Hs') (sy_fine _ Hs') ltac:(by rewrite app_nil_r) (sy_prefix _ Hs') ltac:(constructor)
    ltac:(apply Hroom) (sy_eq _ Hs') (sy_rev _ Hs') (sy_pos _ Hs')). cbn [bw_bus] in Hp.
  split; [by eapply persisted_quiet|]. eapply rely_trans; [exact Hrel|].
  eapply persisted_file; [exact Hp|apply Hs'|done|apply (sy_ret _ Hs')].
Qed.

(** ** Publication *)

(** An event the bus can commit: it has an id and, if it has one, a trace context
    that parses. *)
Definition publishable (io : Io) (event : Envelope) : Prop :=
  blank (if en_EventID event ≟ "" then bi_id io else en_EventID event) = false ∧ trace_ok event.

(** No write of a publication fails between the adoption of a peer's history and
    the rename of the file. *)
Definition undisturbed (io : Io) (w : World) : Prop :=
  b_revision (bw_bus w) = rev (bi_peers io (bw_file w))
  ∨ bi_before io = None ∧ ∀ d : persistedEvents, json_marshal d ≠ None.

Lemma clone_trace e :
  en_TraceParent (cloneEnvelope e) = en_TraceParent e ∧ en_TraceState (cloneEnvelope e) = en_TraceState e.
Proof. unfold cloneEnvelope. destruct (en_Payload e) as [m|]; [|done]. by destruct (clone_map m). Qed.

Lemma admit_trace io event e : admit_event io event = Ok e → trace_ok event → trace_ok e ∧ payloadHash (en_Payload e) ≠ "".
Proof.
  unfold admit_event. cbn zeta. set (e0 := if en_EventID event ≟ "" then set_id (bi_id io) event else event).
  set (e1 := cloneEnvelope e0). set (e2 := if (en_SchemaVersion e1 =? 0)%Z then set_schema 1 e1 else e1).
  rewrite !rbind_unit_Ok, !reject_tt, !bool_decide_eq_false. intros (_ & Hp & _ & _ & [= <-]). intros Ht. split; [|done].
  assert (F : en_TraceParent e2 = en_TraceParent event ∧ en_TraceState e2 = en_TraceState event).
  { assert (F1 : en_TraceParent e2 = en_TraceParent e1 ∧ en_TraceState e2 = en_TraceState e1)
      by (unfold e2; by destruct (_ =? _)%Z).
    assert (F0 : en_TraceParent e0 = en_TraceParent event ∧ en_TraceState e0 = en_TraceState event)
      by (unfold e0; by destruct (_ ≟ _)).
    destruct F1 as [-> ->], (clone_trace e0) as [E1 E2]. unfold e1. by rewrite E1, E2. }
  unfold trace_ok in *. cbn. by destruct F as [-> ->].
Qed.

Lemma positioned_follows es e :
  Forall settled es → (maxSequence es + 1 < two63)%Z → en_SchemaVersion e = 1%Z → cloneEnvelope e = e →
  en_PayloadHash e = payloadHash (en_Payload e) → blank (en_EventID e) = false → trace_ok e → en_EventID e ∉ ids es →
  follows es (positioned es e).
Proof.
  intros Hs Hroom H1' H2' H3' Hid Htr Hnew. split; rewrite ?positioned_id; try done.
  - by apply positioned_settled.
  - unfold trace_ok, positioned in *. cbn. by destruct (last es).
  - unfold positioned. cbn. by destruct (last es).
  - intros Hne. unfold positioned, tail_hash. cbn. destruct (last es) eqn:E; [done|]. by apply last_None in E.
Qed.

Lemma positioned_payload es e : en_Payload (positioned es e) = en_Payload e.
Proof. unfold positioned. cbn. by destruct (last es). Qed.
Lemma positioned_provider es e : provider_key (positioned es e) = provider_key e.
Proof. unfold positioned, provider_key. cbn. by destruct (last es). Qed.

Lemma prune_off now b : b_retention b = no_retention → pruneLocked now b = b.
Proof. unfold pruneLocked. by intros ->. Qed.

Lemma prefix_max es es' : es `prefix_of` es' → (maxSequence es ≤ maxSequence es')%Z.
Proof.
  intros [k ->]. unfold maxSequence. rewrite foldl_app. generalize (foldl (λ m e, Z.max m (en_Sequence e)) 0%Z es).
  induction k as [|e k IH]; intros n; cbn [foldl]; [done|]. specialize (IH (Z.max n (en_Sequence e))). lia.
Qed.

(** What [persistLocked] is asked to commit by [Publish]. *)
Lemma publish_pending io w event e :
  synced w → coop io (bw_file w) → publishable io event → admit_event io event = Ok e →
  already_seen (bw_bus w) e = false → pending (b_events (bw_bus w)) [positioned (b_events (bw_bus w)) e].
Proof.
  intros Hs [Hrel (Hroom & _ & _)] [Hid Htr] Ha Hseen. destruct (admit_spec _ _ _ Ha) as (Hsch & Hcl & Hph & Heid).
  destruct (admit_trace _ _ _ Ha Htr) as [Ht Hpay]. pose proof (fine_good _ (sy_fine _ Hs)) as [Hset _].
  assert (Hset' : Forall settled (b_events (bw_bus w))).
  { destruct (sy_prefix _ Hs) as [k Ek]. rewrite Ek in Hset. by apply Forall_app in Hset as [? _]. }
  pose proof (prefix_max _ _ (transitivity (sy_prefix _ Hs) (rl_prefix _ _ Hrel))) as Hle.
  constructor; [|by rewrite positioned_payload]. apply positioned_follows; try done; [lia|congruence|].
  unfold already_seen in Hseen. apply orb_false_iff in Hseen as [Hn _]. apply bool_decide_eq_false in Hn.
  by rewrite (sy_seen _ Hs), elem_of_list_to_set in Hn.
Qed.

Lemma publish_write io w event e :
  synced w → coop io (bw_file w) → publishable io event → admit_event io event = Ok e →
  already_seen (bw_bus w) e = false →
  let b := bw_bus w in let p := positioned (b_events b) e in
  let b' := with_events (b_events b ++ [p]) (mark_seen p b) in
  persisted io b' [p] (bi_peers io (bw_file w)) (fst (persistLocked io (with_bus b' w)))
    (snd (persistLocked io (with_bus b' w))).
Proof.
  intros Hs Hco Hpub Ha Hseen. cbn zeta. pose proof (publish_pending _ _ _ _ Hs Hco Hpub Ha Hseen) as Hpend.
  set (b := bw_bus w) in *. set (p := positioned (b_events b) e) in *. destruct Hco as [Hrel Hroom].
  assert (Hs' : synced {| bw_bus := b; bw_file := bi_peers io (bw_file w) |}).
  { apply (synced_peer _ (bw_file w)); [by destruct w|done]. }
  set (b' := with_events (b_events b ++ [p]) (mark_seen p b)).
  apply (persist_spec io (with_bus b' w) (b_events b) [p]); cbn [with_bus bw_bus bw_file];
    try apply Hs'; try done. apply Hroom.
Qed.

(** The bus between operations after a publication that failed. *)
Lemma restored_synced b b' f g :
  synced {| bw_bus := b; bw_file := f |} → rely f g → b_statePath b' = b_statePath b → b_retention b' = no_retention →
  (0 ≤ b_revision b' ≤ rev g)%Z → (b_revision b' = rev g → b_events b = hist g) →
  synced {| bw_bus := rebuildSeen (with_events (b_events b) b'); bw_file := g |}.
Proof.
  intros Hs [Hf Hp _] Hpath Hret [? ?] Heq.
  split; cbn; try done; [rewrite Hpath; apply Hs|]. etrans; [apply Hs|done].
Qed.

Definition keeps (w w' : World) : Prop := synced w' ∧ rely (bw_file w) (bw_file w').

Lemma seen_snoc (es : list Envelope) (e : Envelope) :
  ({[ en_EventID e ]} ∪ list_to_set (ids es) : gset string) = list_to_set (ids (es ++ [e])).
Proof. rewrite map_app. set_solver. Qed.

Lemma provider_snoc (es : list Envelope) (e : Envelope) :
  match provider_key e with Some k => {[ k ]} ∪ list_to_set (omap provider_key es) | None => list_to_set (omap provider_key es) end
  = (list_to_set (omap provider_key (es ++ [e])) : gset string).
Proof.
  rewrite omap_app. cbn [omap list_omap]. destruct (provider_key e) as [k|]; cbn [list_omap]; [|by rewrite app_nil_r].
  set_solver.
Qed.

Lemma publish_keeps io w event :
  synced w → coop io (bw_file w) → publishable io event → undisturbed io w → keeps w (fst (Publish io w event)).
Proof.
  intros Hs Hco Hpub Hun. assert (Hsame : keeps w w) by (split; [done|by apply rely_refl, Hs]).
  unfold Publish. destruct (admit_event io event) as [e|] eqn:Ha; [|exact Hsame]. cbn zeta.
  destruct (already_seen (bw_bus w) e) eqn:Hseen; [exact Hsame|].
  rewrite prune_off by apply Hs. pose proof (publish_write _ _ _ _ Hs Hco Hpub Ha Hseen) as Hp. cbn zeta in Hp.
  set (p := positioned (b_events (bw_bus w)) e) in *. set (b' := with_events _ _) in *.
  destruct w as [b f]. cbn [bw_bus bw_file] in *. destruct Hco as [Hrel Hroom].
  pose proof (persisted_file _ _ _ _ _ _ Hp (rl_fine _ _ Hrel) Hroom (sy_ret _ Hs)) as Hrel2.
  pose proof (synced_peer _ _ _ Hs Hrel) as Hs1. pose proof (rely_trans _ _ _ Hrel Hrel2) as Hrel3.
  destruct (persistLocked io (with_bus b' _)) as [w' r]. cbn [fst snd] in *.
  destruct r as [[]|err]; cbn [fst]; (split; [|exact Hrel3]).
  - inversion Hp as [| | |b1 ext' Hrd]; subst. cbn [bw_bus bw_file] in *.
    assert (E := next_revision _ _ Hroom (rd_rev _ _ _ _ _ Hrd)). destruct Hroom as (? & ? & ?).
    assert (Hseen1 : b_seen b1 = list_to_set (ids (b_events b1))
      ∧ b_seenProvider b1 = list_to_set (omap provider_key (b_events b1))).
    { destruct (decide (b_revision b' = rev (bi_peers io f))) as [Er|Er]; [|apply (rd_seen _ _ _ _ _ Hrd Er)].
      rewrite (rd_alone _ _ _ _ _ Hrd Er). pose proof (sy_seen _ Hs1) as G1.
      pose proof (sy_provider _ Hs1) as G2. unfold b'. cbn [bw_bus with_events mark_seen with_seen b_seen b_seenProvider
        b_events] in *. by rewrite G1, G2, seen_snoc, provider_snoc. }
    split; cbn; try done; try (rewrite E; lia).
    + rewrite (rd_path _ _ _ _ _ Hrd). apply Hs.
    + split; [apply Hrd|]. rewrite (rd_ret _ _ _ _ _ Hrd). apply Hs.
    + rewrite (rd_ret _ _ _ _ _ Hrd). apply Hs.
    + apply Hseen1.
    + apply Hseen1.
  - assert (Hpos := sy_pos _ Hs). assert (Hrv := sy_rev _ Hs1). cbn [bw_bus bw_file] in Hpos, Hrv.
    inversion Hp as [err'|b1 ext' err' Hrd Hfail|b1 ext' err' Hrd _|]; subst; cbn [with_bus bw_bus bw_file] in *.
    + apply (restored_synced _ _ _ _ Hs1 Hrel2); try done; [apply Hs|]. intros Er. by apply (sy_eq _ Hs1).
    + assert (Er : b_revision b' = rev (bi_peers io f)).
      { destruct Hun as [Hun|[Hb Hj]]; [exact Hun|]. destruct Hfail as [?|Hn]; [done|]. by destruct (Hj _ Hn). }
      rewrite (rd_alone _ _ _ _ _ Hrd Er).
      apply (restored_synced _ _ _ _ Hs1 Hrel2); try done; [apply Hs|]. intros _. by apply (sy_eq _ Hs1).
    + assert (E := next_revision _ _ Hroom (rd_rev _ _ _ _ _ Hrd)). destruct Hroom as (? & ? & ?).
      apply (restored_synced _ _ _ _ Hs1 Hrel2); try done;
        [apply (rd_path _ _ _ _ _ Hrd)|rewrite (rd_ret _ _ _ _ _ Hrd); apply Hs| |];
        cbn [rev next_snapshot pe_Revision]; rewrite E, (rd_rev _ _ _ _ _ Hrd); lia.
Qed.

(** A publication that succeeds is in the file, unless the bus knew its id or the
    id its provider gave it. *)
Lemma publish_in_file io w event :
  synced w → coop io (bw_file w) → publishable io event → snd (Publish io w event) = Ok tt →
  ∃ e, admit_event io event = Ok e
    ∧ (en_EventID e ∈ ids (hist (bw_file (fst (Publish io w event))))
       ∨ ∃ k, provider_key e = Some k ∧ k ∈ omap provider_key (hist (bw_file w))).
Proof.
  intros Hs Hco Hpub. unfold Publish. destruct (admit_event io event) as [e|] eqn:Ha; [|done]. cbn zeta.
  destruct (already_seen (bw_bus w) e) eqn:Hseen.
  { intros _. exists e. split; [done|]. unfold already_seen in Hseen. apply orb_true_iff in Hseen as [Hin|Hin].
    - apply bool_decide_eq_true in Hin. rewrite (sy_seen _ Hs), elem_of_list_to_set in Hin. left. cbn [fst].
      destruct (sy_prefix _ Hs) as [k ->]. rewrite map_app. set_solver.
    - destruct (provider_key e) as [k|]; [|done]. apply bool_decide_eq_true in Hin.
      rewrite (sy_provider _ Hs), elem_of_list_to_set in Hin. right. exists k. split; [done|].
      destruct (sy_prefix _ Hs) as [l ->]. rewrite omap_app. set_solver. }
  rewrite prune_off by apply Hs. pose proof (publish_write _ _ _ _ Hs Hco Hpub Ha Hseen) as Hp. cbn zeta in Hp.
  destruct (persistLocked io _) as [w' r]. cbn [fst snd] in *. destruct r as [[]|]; [|done]. intros _.
  exists e. split; [done|]. left. inversion Hp as [| | |b1 ext' Hrd]; subst. cbn [fst with_bus bw_file hist next_snapshot pe_Events].
  rewrite <- (positioned_id (b_events (bw_bus w)) e). apply (rd_ids _ _ _ _ _ Hrd). set_solver.
Qed.

(** ** The other operations *)

Lemma keeps_refl w : synced w → keeps w w.
Proof. intros Hs. split; [done|by apply rely_refl, Hs]. Qed.
Lemma keeps_trans w1 w2 w3 : keeps w1 w2 → keeps w2 w3 → keeps w1 w3.
Proof. intros [_ R1] [S2 R2]. split; [done|by eapply rely_trans]. Qed.

(** A bus whose durable bookkeeping is edited after the fact. *)
Lemma keeps_same w w' b : keeps w w' → history_kept (bw_bus w') b → keeps w (with_bus b w').
Proof. intros [Hs Hr] Hb. split; [|done]. apply (synced_same (bw_bus w')); [done|by destruct w']. Qed.

Lemma keeps_reload w : synced w → ∃ w1, reloadLocked w = (w1, Ok tt) ∧ keeps w w1 ∧ bw_file w1 = bw_file w.
Proof.
  intros Hs. destruct (reload_synced w Hs) as (b & -> & Hs' & _). eexists. split; [done|]. split; [|done].
  split; [done|]. cbn [bw_file]. by apply rely_refl, Hs.
Qed.

Lemma keeps_write io w b : synced w → history_kept (bw_bus w) b → coop io (bw_file w) →
  keeps w (fst (persistLocked io (with_bus b w))).
Proof. intros Hs Hb Hco. exact (quiet_write io b w Hs Hb Hco). Qed.

Lemma ack_keeps io w consumer event : synced w → coop io (bw_file w) → keeps w (fst (Ack io w consumer event)).
Proof.
  intros Hs Hco. unfold Ack. destruct (_ || _); [by apply keeps_refl|].
  destruct (keeps_reload w Hs) as (w1 & -> & Hk & Hf). destruct (position _ _) as [i|]; [|exact Hk].
  destruct (match position _ _ with Some p => _ | None => _ end); [exact Hk|].
  rewrite <- Hf in Hco. pose proof (proj1 Hk) as Hs1.
  pose proof (keeps_write io w1 (set_ack (TrimSpace consumer) (TrimSpace event) (bw_bus w1)) Hs1 ltac:(done) Hco) as Hw.
  destruct (persistLocked io _) as [w2 r]. cbn [fst] in Hw. pose proof (keeps_trans _ _ _ Hk Hw) as Hk2.
  destruct r as [[]|err]; cbn [fst]; [exact Hk2|]. by apply keeps_same.
Qed.

Lemma ack_scoped_keeps io w c t ws a e : synced w → coop io (bw_file w) → keeps w (fst (AckScoped io w c t ws a e)).
Proof.
  intros Hs Hco. unfold AckScoped, Reload. destruct (keeps_reload w Hs) as (w1 & -> & Hk & Hf).
  destruct (negb _); [exact Hk|]. rewrite <- Hf in Hco. eapply keeps_trans; [exact Hk|]. by apply ack_keeps; [apply Hk|].
Qed.

Lemma list_keeps w a c n : synced w → keeps w (fst (ListChecked w a c n)).
Proof. intros Hs. unfold ListChecked. by destruct (keeps_reload w Hs) as (w1 & -> & Hk & _). Qed.

Lemma replay_keeps io w c a cur n : synced w → rely (bw_file w) (bi_mid io (bw_file w)) →
  keeps w (fst (Replay io w c a cur n)) ∧ (snd (Replay io w c a cur n) = Err ErrInvalidCursor ∨
    ∀ p, snd (Replay io w c a cur n) = Ok p → bw_file (fst (Replay io w c a cur n)) = bi_mid io (bw_file w)).
Proof.
  intros Hs Hmid. unfold Replay, Reload. destruct (keeps_reload w Hs) as (w1 & -> & Hk & Hf). cbn zeta.
  destruct (after_cursor _ _ _ _) as [es|err]; [|split; [exact Hk|by right]]. cbn [fst snd].
  assert (Hs1 : synced {| bw_bus := bw_bus w1; bw_file := bi_mid io (bw_file w1) |}).
  { rewrite Hf. apply (synced_peer _ (bw_file w)); [|done]. rewrite <- Hf. destruct w1. apply Hk. }
  rewrite Hf in *. split.
  - eapply keeps_trans; [|by apply list_keeps]. by split.
  - right. intros p _. unfold ListChecked. destruct (keeps_reload _ Hs1) as (w2 & -> & _ & Hf2). exact Hf2.
Qed.

Lemma record_keeps io w c items next : synced w → coop io (bw_file w) →
  keeps w (fst (recordDeliveries io w c items next)).
Proof.
  intros Hs Hco. unfold recordDeliveries. destruct items as [|x items]; [by apply keeps_refl|]. cbn zeta.
  destruct (foldl _ _ _) as [attempts deliveries].
  set (b := with_durable _ _ _ _ _). pose proof (keeps_write io w b Hs ltac:(done) Hco) as Hw.
  destruct (persistLocked io _) as [w2 r]. cbn [fst] in Hw. destruct r as [[]|err]; cbn [fst]; [exact Hw|].
  by apply keeps_same.
Qed.

Lemma deliver_keeps io w c a cur n : synced w → rely (bw_file w) (bi_mid io (bw_file w)) →
  coop io (bi_mid io (bw_file w)) → keeps w (fst (Deliver io w c a cur n)).
Proof.
  intros Hs Hmid Hco. unfold Deliver. cbn zeta. destruct (_ ≟ ""); [by apply keeps_refl|].
  destruct (replay_keeps io w (TrimSpace c) a cur n Hs Hmid) as [Hk Hf].
  destruct (Replay io w _ a cur n) as [w1 [[items next]|err]]; cbn [fst snd] in *; [|exact Hk].
  destruct Hf as [?|Hf]; [done|]. specialize (Hf _ eq_refl).
  eapply keeps_trans; [exact Hk|]. apply record_keeps; [apply Hk|by rewrite Hf].
Qed.

Lemma replay_scoped_keeps w c t ws a cur n : synced w → ∃ w1 r, ReplayScoped w c t ws a cur n = (w1, r)
  ∧ keeps w w1 ∧ bw_file w1 = bw_file w.
Proof.
  intros Hs. unfold ReplayScoped, Reload. destruct (keeps_reload w Hs) as (w1 & -> & Hk & Hf). by eexists _, _.
Qed.

Lemma deliver_scoped_keeps io w c t ws a cur n : synced w → coop io (bw_file w) →
  keeps w (fst (DeliverScoped io w c t ws a cur n)).
Proof.
  intros Hs Hco. unfold DeliverScoped. destruct (blank c); [by apply keeps_refl|].
  destruct (replay_scoped_keeps w c t ws a cur n Hs) as (w1 & r & -> & Hk & Hf). destruct r as [[items next]|]; [|exact Hk].
  eapply keeps_trans; [exact Hk|]. apply record_keeps; [apply Hk|by rewrite Hf].
Qed.

(** ** Runs *)

(** The calls of a process, and what its peers do between them. *)
Inductive BusOp :=
  | OpPublish (io : Io) (event : Envelope)
  | OpAck (io : Io) (consumer event : string)
  | OpAckDelivery (io : Io) (consumer token : string)
  | OpAckScoped (io : Io) (consumer tenant workspace aggregate event : string)
  | OpAckDeliveryScoped (io : Io) (consumer tenant workspace aggregate token : string)
  | OpDeliver (io : Io) (consumer aggregate cursor : string) (limit : Z)
  | OpDeliverScoped (io : Io) (consumer tenant workspace aggregate cursor : string) (limit : Z)
  | OpReplay (io : Io) (consumer aggregate cursor : string) (limit : Z)
  | OpReplayScoped (consumer tenant workspace aggregate cursor : string) (limit : Z)
  | OpReplayRange (tenant workspace aggregate : string) (from to : Z)
  | OpList (aggregate cursor : string) (limit : Z)
  | OpPrune (io : Io) (now : Time)
  | OpFlush (io : Io)
  | OpPeers (f : BusFile).

Definition run_op (op : BusOp) (w : World) : World :=
  match op with
  | OpPublish io e => fst (Publish io w e)
  | OpAck io c e => fst (Ack io w c e)
  | OpAckDelivery io c t => fst (AckDelivery io w c t)
  | OpAckScoped io c t ws a e => fst (AckScoped io w c t ws a e)
  | OpAckDeliveryScoped io c t ws a k => fst (AckDeliveryScoped io w c t ws a k)
  | OpDeliver io c a cur n => fst (Deliver io w c a cur n)
  | OpDeliverScoped io c t ws a cur n => fst (DeliverScoped io w c t ws a cur n)
  | OpReplay io c a cur n => fst (Replay io w c a cur n)
  | OpReplayScoped c t ws a cur n => fst (ReplayScoped w c t ws a cur n)
  | OpReplayRange t ws a from to => fst (ReplayRange w t ws a from to)
  | OpList a c n => fst (List_ w a c n)
  | OpPrune io now => fst (Prune io w now)
  | OpFlush io => fst (Bus_Flush io w)
  | OpPeers f => {| bw_bus := bw_bus w; bw_file := f |}
  end.

(** What an operation may meet, and what its caller owes. *)
Definition allowed (op : BusOp) (w : World) : Prop :=
  match op with
  | OpPublish io e => coop io (bw_file w) ∧ publishable io e ∧ undisturbed io w
  | OpAck io _ _ | OpAckDelivery io _ _ | OpAckScoped io _ _ _ _ _ | OpAckDeliveryScoped io _ _ _ _ _
  | OpDeliverScoped io _ _ _ _ _ _ | OpPrune io _ | OpFlush io => coop io (bw_file w)
  | OpDeliver io _ _ _ _ => rely (bw_file w) (bi_mid io (bw_file w)) ∧ coop io (bi_mid io (bw_file w))
  | OpReplay io _ _ _ _ => rely (bw_file w) (bi_mid io (bw_file w))
  | OpReplayScoped _ _ _ _ _ _ | OpReplayRange _ _ _ _ _ | OpList _ _ _ => True
  | OpPeers f => rely (bw_file w) f
  end.

Fixpoint all_allowed (ops : list BusOp) (w : World) : Prop :=
  match ops with [] => True | op :: ops' => allowed op w ∧ all_allowed ops' (run_op op w) end.
Definition run_ops (ops : list BusOp) (w : World) : World := foldl (λ w op, run_op op w) w ops.

Lemma op_keeps op w : synced w → allowed op w → keeps w (run_op op w).
Proof.
  intros Hs. destruct op as [io e|io c e|io c t|io c t ws a e|io c t ws a k|io c a cur n|io c t ws a cur n
    |io c a cur n|c t ws a cur n|t ws a from to|a c n|io now|io|f]; cbn [run_op allowed].
  - intros (? & ? & ?). by apply publish_keeps.
  - intros ?. by apply ack_keeps.
  - intros ?. unfold AckDelivery. destruct (verifyAckToken _ _); [by apply ack_keeps|by apply keeps_refl].
  - intros ?. by apply ack_scoped_keeps.
  - intros ?. unfold AckDeliveryScoped. destruct (verifyAckToken _ _); [by apply ack_scoped_keeps|by apply keeps_refl].
  - intros [? ?]. by apply deliver_keeps.
  - intros ?. by apply deliver_scoped_keeps.
  - intros ?. by apply replay_keeps.
  - intros _. by destruct (replay_scoped_keeps w c t ws a cur n Hs) as (w1 & r & -> & Hk & _).
  - intros _. unfold ReplayRange, Reload. destruct (_ || _); [by apply keeps_refl|].
    by destruct (keeps_reload w Hs) as (w1 & -> & Hk & _).
  - intros _. unfold List_. pose proof (list_keeps w a c n Hs) as Hk. by destruct (ListChecked _ _ _ _).
  - intros Hco. unfold Prune. rewrite prune_off by apply Hs. by apply keeps_write.
  - intros Hco. unfold Bus_Flush. pose proof (keeps_write io w (bw_bus w) Hs ltac:(done) Hco) as Hk. by destruct w.
  - intros Hr. split; [|done]. destruct w. by eapply synced_peer.
Qed.

Lemma ops_keep ops : ∀ w, synced w → all_allowed ops w → keeps w (run_ops ops w).
Proof.
  induction ops as [|op ops IH]; intros w Hs; cbn [all_allowed]; [intros _; by apply keeps_refl|].
  intros [Ho Hrest]. pose proof (op_keeps op w Hs Ho) as Hk. eapply keeps_trans; [exact Hk|]. apply IH; [apply Hk|done].
Qed.

(** C28: Publications to a shared event file are permanent, under the conditions
    below: whatever calls a process makes on its bus afterwards, whatever peers that
    follow the same protocol write in between, and whatever faults those calls meet
    (a lock that cannot be taken, a directory that cannot be synchronised, a write
    that fails), the history in the file only grows at its end, and an event whose
    publication returned success stays in it under its id (unless the bus already
    held the record its provider sent under the same provider event id).  Retention is
    off, the counters have room, every event published has an id and a valid trace
    context ([publishable]; otherwise [refused_publish_erases_peer]), and no
    publication fails between the adoption of a peer's history and the rename of the
    file ([undisturbed]; otherwise [failed_publish_erases_peer]). *)
Theorem publication_permanent io w event ops :
  synced w → coop io (bw_file w) → publishable io event → undisturbed io w →
  snd (Publish io w event) = Ok tt → all_allowed ops (fst (Publish io w event)) →
  ∃ e, admit_event io event = Ok e
    ∧ hist (bw_file w) `prefix_of` hist (bw_file (run_ops ops (fst (Publish io w event))))
    ∧ (en_EventID e ∈ ids (hist (bw_file (run_ops ops (fst (Publish io w event)))))
       ∨ ∃ k, provider_key e = Some k ∧ k ∈ omap provider_key (hist (bw_file w))).
Proof.
  intros Hs Hco Hpub Hun Hok Hall. destruct (publish_in_file _ _ _ Hs Hco Hpub Hok) as (e & Ha & Hin).
  pose proof (publish_keeps _ _ _ Hs Hco Hpub Hun) as Hk.
  pose proof (ops_keep ops _ (proj1 Hk) Hall) as Hk2. exists e. split; [done|].
  split; [apply (keeps_trans _ _ _ Hk Hk2)|]. destruct Hin as [Hin|Hin]; [left|by right].
  destruct Hk2 as [_ [_ [k ->] _]]. rewrite map_app. set_solver.
Qed.

(** ** Reopening the file *)

(** A bus without its live subscribers. *)
Definition detached (b : Bus) : Bus := with_subscribers ∅ 0 b.

Lemma load_settled es : ∀ i acc, Forall settled es → fold_each_from i load_event acc es = Ok (acc ++ es).
Proof.
  induction es as [|e es IH]; intros i acc Hall; cbn [fold_each_from]; [by rewrite app_nil_r|].
  inversion Hall as [|? ? He Hes]; subst. unfold load_event at 1. cbn zeta. pose proof (st_payload e He) as Hp.
  rewrite (bool_decide_eq_true_2 (en_PayloadHash e = payloadHash (en_Payload e)) Hp), andb_false_r. cbn [reject rbind].
  assert (set_phash (payloadHash (en_Payload e)) e = e) as -> by (rewrite <- Hp; by destruct e).
  assert ((if en_EnvelopeHash e ≟ "" then sealed e else e) = e) as ->.
  { destruct (bool_decide_reflect (en_EnvelopeHash e = "")); [|done]. apply set_ehash_same, He. }
  rewrite IH by done. by rewrite <- app_assoc.
Qed.

Lemma reopen_snapshot b :
  b_statePath b ≠ "" → good (b_events b) → b_seen b = list_to_set (ids (b_events b)) →
  b_seenProvider b = list_to_set (omap provider_key (b_events b)) →
  NewPersistentBus (b_statePath b) (Some (Ok (next_snapshot b))) = Ok (detached (set_revision (add64 (b_revision b) 1) b)).
Proof.
  intros Hp Hg Hs Hpr. unfold NewPersistentBus. cbn zeta. rewrite (bool_decide_eq_false_2 _ Hp).
  cbn [readPersistedEvents rbind next_snapshot pe_Events pe_Revision pe_Acks pe_DeliveryAttempts pe_Retention].
  rewrite (valid_history_eq _ (good_valid _ Hg)). cbn [rbind]. rewrite load_settled by apply Hg. cbn [rbind app].
  unfold detached, rebuildSeen, set_revision, with_subscribers, with_seen, with_durable, with_events, NewBus. cbn. by rewrite Hs, Hpr.
Qed.

(** Closing a process loses nothing that was flushed: after a successful flush
    among peers, a bus opened anew on the file is the bus that wrote it - history,
    ids and provider ids seen, acknowledgements, delivery counters, retention and
    revision - except for the live subscribers, which are not durable. *)
Theorem flush_reopens io w :
  synced w → coop io (bw_file w) → snd (Bus_Flush io w) = Ok tt →
  let w' := fst (Bus_Flush io w) in
  NewPersistentBus (b_statePath (bw_bus w)) (bw_file w') = Ok (detached (bw_bus w')).
Proof.
  intros Hs [Hrel Hroom] Hok. cbn zeta. unfold Bus_Flush in *. destruct w as [b f]. cbn [bw_bus bw_file] in *.
  pose proof (synced_peer _ _ _ Hs Hrel) as Hs'.
  pose proof (persist_spec io {| bw_bus := b; bw_file := f |} (b_events b) []) as Hp. cbn [bw_bus bw_file] in Hp. cbn zeta in Hp.
  specialize (Hp (sy_path _ Hs') (sy_fine _ Hs') ltac:(by rewrite app_nil_r) (sy_prefix _ Hs') ltac:(constructor)
    ltac:(apply Hroom) (sy_eq _ Hs') (sy_rev _ Hs') (sy_pos _ Hs')).
  destruct (persistLocked io _) as [w' r]. cbn [fst snd] in *. subst r.
  inversion Hp as [| | |b1 ext' Hrd]; subst. cbn [bw_bus bw_file].
  rewrite <- (rd_path _ _ _ _ _ Hrd : b_statePath b1 = b_statePath b).
  assert (Hseen : b_seen b1 = list_to_set (ids (b_events b1))
      ∧ b_seenProvider b1 = list_to_set (omap provider_key (b_events b1))).
  { destruct (decide (b_revision b = rev (bi_peers io f))) as [Er|Er]; [|apply (rd_seen _ _ _ _ _ Hrd Er)].
    rewrite (rd_alone _ _ _ _ _ Hrd Er). split; [apply (sy_seen _ Hs)|apply (sy_provider _ Hs)]. }
  apply reopen_snapshot; [rewrite (rd_path _ _ _ _ _ Hrd); apply Hs|apply Hrd|apply Hseen|apply Hseen].
Qed.
End props.
