(* ===== verification/EventBusLive.v ===== *)
(** * EventBusLive: readers of the event bus

    Reading by cursor while the history grows, and live subscribers with bounded
    buffers: what a reader sees is the stream, in order, with every omission
    announced. *)
From stdpp Require Import base strings gmap list pretty.
From Stdlib Require Import ZArith Lia.
From S2P Require Import Prelude GoLib GoStrings Trace GoValue GoJson EventBus EventBusSpec EventBusProps.

#[global] Instance streamGap_eq_dec : EqDecision streamGap.
Proof. solve_decision. Defined.

Section live.
Context `{!Sha256, !PayloadClone, !JsonMarshal Payload, !JsonMarshal Envelope, !JsonMarshal persistedEvents}.

(** ** Pages *)

(** A page that is full ends at an event of the list. *)
Lemma full_page {A} (P : A → Prop) `{∀ x, Decision (P x)} n l :
  length (take (Datatypes.S n) (filter P l)) = Datatypes.S n →
  ∃ l1 x l2, l = l1 ++ x :: l2 ∧ P x ∧ filter P (l1 ++ [x]) = take (Datatypes.S n) (filter P l).
Proof.
  revert n. induction l as [|a l IH]; intros n Hlen; [done|]. rewrite filter_cons in *.
  destruct (decide (P a)) as [Ha|Ha].
  - destruct n as [|n].
    + exists [], a, l. split; [done|]. split; [done|]. cbn [app]. rewrite filter_cons_True, filter_nil by done. done.
    + cbn [take length] in Hlen. destruct (IH n) as (l1 & x & l2 & -> & Hx & He); [by injection Hlen|].
      exists (a :: l1), x, l2. split; [done|]. split; [done|]. cbn [app]. rewrite filter_cons_True by done.
      change (take (Datatypes.S (Datatypes.S n)) (a :: ?t)) with (a :: take (Datatypes.S n) t). by rewrite He.
  - destruct (IH n Hlen) as (l1 & x & l2 & -> & Hx & He).
    exists (a :: l1), x, l2. split; [done|]. split; [done|]. cbn [app]. by rewrite filter_cons_False.
Qed.

Lemma find_unique (es1 es2 : list Envelope) e :
  NoDup (ids (es1 ++ e :: es2)) →
  list_find (λ x, en_EventID x = en_EventID e) (es1 ++ e :: es2) = Some (length es1, e).
Proof.
  intros Hnd. apply list_find_Some. split; [by rewrite list_lookup_middle|]. split; [done|].
  intros j y Hj Hlt Hid. rewrite lookup_app_l in Hj by done.
  rewrite map_app, NoDup_app in Hnd. destruct Hnd as (_ & Hd & _). apply (Hd (en_EventID y)).
  - apply list_elem_of_fmap_2. by eapply list_elem_of_lookup_2.
  - rewrite Hid. cbn. left.
Qed.

(** The part of a history a cursor stands for. *)
Definition before_cursor (keep : Envelope → bool) (cursor : string) (pre : list Envelope) : Prop :=
  (cursor = "" ∧ pre = []) ∨ ∃ l e, pre = l ++ [e] ∧ en_EventID e = cursor ∧ keep e = true.

Definition distinct (es : list Envelope) : Prop := NoDup (ids es) ∧ ∀ e, e ∈ es → en_EventID e ≠ "".

Lemma good_distinct es : good es → distinct es.
Proof.
  intros Hg. destruct (valid_history_ids _ (good_valid _ Hg)) as [Hnd Hb]. split; [done|].
  intros e He. by apply blank_nonempty, Hb.
Qed.

Lemma after_cursor_ok keep wrong cursor pre rest :
  distinct (pre ++ rest) → before_cursor keep cursor pre → after_cursor keep wrong cursor (pre ++ rest) = Ok rest.
Proof.
  intros [Hnd Hne] [[-> ->]|(l & e & -> & <- & Hk)]; unfold after_cursor; [done|].
  assert (en_EventID e ≠ "") as Hn by (apply Hne; set_solver).
  rewrite (bool_decide_eq_false_2 _ Hn). rewrite <- app_assoc in *. cbn [app] in *.
  rewrite find_unique by done. rewrite Hk. f_equal. replace (Datatypes.S (length l)) with (length (l ++ [e])).
  - by rewrite (app_assoc l [e] rest : l ++ e :: rest = _), drop_app_length.
  - rewrite length_app. cbn. lia.
Qed.

Definition stream (keep : Envelope → bool) (es : list Envelope) : list Envelope :=
  cloneEnvelope <$> filter (λ e, keep e = true) es.

Lemma stream_app keep es1 es2 : stream keep (es1 ++ es2) = stream keep es1 ++ stream keep es2.
Proof. unfold stream. by rewrite filter_app, fmap_app. Qed.

(** One page: everything that is left, or a full page and the cursor that ends it. *)
Lemma page_spec keep n rest items next :
  (∀ e, e ∈ rest → en_EventID e ≠ "") → 0 < n → page keep n rest = (items, next) →
  (next = "" ∧ items = stream keep rest)
  ∨ ∃ l1 x l2, rest = l1 ++ x :: l2 ∧ keep x = true ∧ next = en_EventID x ∧ items = stream keep (l1 ++ [x]).
Proof.
  intros Hne Hn. destruct n as [|n]; [lia|]. unfold page. set (k := take (Datatypes.S n) _). cbn zeta.
  destruct (Nat.eqb_spec (length (cloneEnvelope <$> k)) (Datatypes.S n)) as [Hl|Hl].
  - rewrite length_fmap in Hl. destruct (full_page _ _ _ Hl) as (l1 & x & l2 & -> & Hx & He). fold k in He.
    rewrite <- He, filter_app, filter_cons_True, filter_nil, fmap_app by done. cbn [fmap list_fmap].
    rewrite last_snoc. intros [= <- <-]. right. exists l1, x, l2. split; [done|]. split; [done|]. split; [apply clone_fields|].
    unfold stream. by rewrite filter_app, filter_cons_True, filter_nil, fmap_app.
  - intros [= <- <-]. left. split; [done|]. unfold stream, k. rewrite length_fmap in Hl.
    rewrite take_ge; [done|]. unfold k in Hl. rewrite length_take in Hl. lia.
Qed.

Lemma page_limit_pos n : 0 < page_limit n.
Proof. unfold page_limit. destruct (Z.leb_spec n 0), (Z.ltb_spec 250 n); cbn; lia. Qed.

(** A reader that follows the cursors, one page of each world it finds. *)
Fixpoint read_pages (ws : list World) (aggregateID cursor : string) (limit : Z) : result (list Envelope * string) :=
  match ws with
  | [] => Ok ([], cursor)
  | w :: ws' =>
      let* p := snd (ListChecked w aggregateID cursor limit) in
      if snd p ≟ "" then Ok p
      else let* q := read_pages ws' aggregateID (snd p) limit in Ok (fst p ++ fst q, snd q)
  end.

Definition current (w : World) : Prop := reloadLocked w = (w, Ok tt) ∧ distinct (b_events (bw_bus w)).

(** Each world continues the history of the one before. *)
Fixpoint growing (es : list Envelope) (ws : list World) : Prop :=
  match ws with
  | [] => True
  | w :: ws' => current w ∧ es `prefix_of` b_events (bw_bus w) ∧ growing (b_events (bw_bus w)) ws'
  end.

Lemma growing_weaken es es' ws : es' `prefix_of` es → growing es ws → growing es' ws.
Proof. destruct ws as [|w ws]; [done|]. intros Hp (? & ? & ?). split; [done|]. split; [by etrans|done]. Qed.

(** The history of the last world visited. *)
Definition final (es : list Envelope) (ws : list World) : list Envelope := foldl (λ _ w, b_events (bw_bus w)) es ws.

Lemma growing_final ws : ∀ es, growing es ws → es `prefix_of` final es ws.
Proof.
  induction ws as [|w ws IH]; intros es; [done|]. intros (_ & Hp & Hg). etrans; [exact Hp|]. by apply (IH (b_events (bw_bus w))).
Qed.

Lemma list_checked_current w a cursor limit :
  current w → snd (ListChecked w a cursor limit)
    = rbind (after_cursor (in_aggregate a) wrong_aggregate cursor (b_events (bw_bus w)))
        (λ es, Ok (page (in_aggregate a) (page_limit limit) es)).
Proof. intros [Hr _]. unfold ListChecked. by rewrite Hr. Qed.

Lemma read_pages_spec limit a ws : ∀ pre cursor,
  growing pre ws → before_cursor (in_aggregate a) cursor pre →
  ∃ items next es, read_pages ws a cursor limit = Ok (items, next)
    ∧ stream (in_aggregate a) pre ++ items = stream (in_aggregate a) es
    ∧ ((next = "" ∧ ∃ w, w ∈ ws ∧ es = b_events (bw_bus w))
       ∨ (es `prefix_of` final pre ws ∧ length pre + length ws ≤ length es)).
Proof.
  induction ws as [|w ws IH]; intros pre cursor; cbn [read_pages growing].
  { intros _ _. exists [], cursor, pre. rewrite app_nil_r. split; [done|]. split; [done|]. right. split; [done|]. cbn. lia. }
  intros (Hcur & [rest Hrest] & Hg) Hc. rewrite list_checked_current by done.
  destruct Hcur as [_ Hd]. rewrite Hrest in Hd. rewrite Hrest, after_cursor_ok by done. cbn [rbind].
  destruct (page _ _ rest) as [items next] eqn:Hp. cbn [fst snd].
  assert (Hne : ∀ e, e ∈ rest → en_EventID e ≠ "") by (intros e He; apply Hd; set_solver).
  destruct (page_spec _ _ _ _ _ Hne (page_limit_pos limit) Hp) as [[-> ->]|(l1 & x & l2 & -> & Hx & -> & ->)].
  - exists (stream (in_aggregate a) rest), "", (b_events (bw_bus w)). split; [done|]. rewrite Hrest, stream_app.
    split; [done|]. left. split; [done|]. exists w. split; [left|done].
  - rewrite (bool_decide_eq_false_2 (en_EventID x = "")) by (apply Hne; set_solver).
    set (mid := pre ++ l1 ++ [x]).
    assert (Hmid : mid `prefix_of` b_events (bw_bus w)).
    { rewrite Hrest. unfold mid. exists l2. by rewrite <- !app_assoc. }
    destruct (IH mid (en_EventID x)) as (more & next & es & -> & Hs & Hcase).
    { by eapply growing_weaken. }
    { right. exists (pre ++ l1), x. unfold mid. by rewrite <- app_assoc. }
    exists (stream (in_aggregate a) (l1 ++ [x]) ++ more), next, es. split; [done|].
    split; [rewrite app_assoc, <- stream_app; exact Hs|].
    destruct Hcase as [(-> & v & Hv & ->)|[Hpre Hlen]].
    + left. split; [done|]. exists v. split; [by right|done].
    + right. split.
      * destruct ws as [|v ws']; [|done]. by etrans.
      * unfold mid in Hlen. rewrite !length_app in Hlen. cbn [length] in *. lia.
Qed.

Lemma stream_prefix keep es es' : es `prefix_of` es' → stream keep es `prefix_of` stream keep es'.
Proof. intros [k ->]. rewrite stream_app. by eexists. Qed.

(** Reading the bus by cursor misses nothing and repeats nothing: a reader that
    starts without a cursor and follows the one each page returns, while events keep
    being appended between its pages, always gets a page, has read at every moment a
    prefix of the aggregate's stream in publication order, and when a page comes
    back without a cursor it has read exactly the stream of the history that page
    was taken from; it gets there as soon as it asks for more pages than there are
    events. *)
Theorem pages_read_the_stream ws aggregateID limit :
  growing [] ws →
  ∃ items next, read_pages ws aggregateID "" limit = Ok (items, next)
    ∧ ((next = "" ∧ ∃ w, w ∈ ws ∧ items = stream (in_aggregate aggregateID) (b_events (bw_bus w)))
       ∨ (items `prefix_of` stream (in_aggregate aggregateID) (final [] ws) ∧ length ws ≤ length (final [] ws))).
Proof.
  intros Hg. destruct (read_pages_spec limit aggregateID ws [] "" Hg) as (items & next & es & Hr & Hs & Hc); [by left|].
  cbn [app stream filter list_filter fmap list_fmap] in Hs. exists items, next. split; [done|]. rewrite Hs.
  destruct Hc as [(-> & w & Hw & ->)|[Hp Hl]]; [left|right].
  - split; [done|]. by exists w.
  - split; [by apply stream_prefix|]. etrans; [exact Hl|]. by apply prefix_length.
Qed.

(** ** Live subscribers *)

(** A gap that stands for exactly the events of a segment. *)
Definition records (seg : list Envelope) (g : streamGap) : Prop :=
  match seg, last seg with
  | first :: _, Some final =>
      gap_count g = Z.of_nat (length seg) ∧ gap_from g = en_Sequence first ∧ gap_to g = en_Sequence final
      ∧ gap_tenantID g = en_TenantID first ∧ gap_workspaceID g = en_WorkspaceID first
      ∧ gap_aggregateID g = en_AggregateID first ∧ gap_correlationID g = en_CorrelationID first
  | _, _ => g = no_gap
  end.

(** [told] is accounted for by the envelopes [out] a subscriber was sent: each event
    by its copy, or a run of events by one gap event that names it. *)
Inductive accounts (id : nat) : list Envelope → list Envelope → Prop :=
  | acc_nil : accounts id [] []
  | acc_event told out e : accounts id told out → accounts id (told ++ [e]) (out ++ [cloneEnvelope e])
  | acc_gap told out seg io g :
      accounts id told out → seg ≠ [] → records seg g → accounts id (told ++ seg) (out ++ [gap_event io id g]).

(** A subscriber that has been told of [told] and has received [got]. *)
Record attended (id : nat) (told got : list Envelope) (s : Subscriber) : Prop := {
  at_bound : length (sub_queue s) ≤ sub_cap s;
  at_account : ∃ sent lost, told = sent ++ lost ∧ accounts id sent (got ++ sub_queue s) ∧ records lost (sub_gap s) }.

Lemma records_snoc seg g e :
  seg ≠ [] → records seg g → (Z.of_nat (length seg) + 1 < two63)%Z → records (seg ++ [e]) (widen_gap e g).
Proof.
  intros Hne Hr Hroom. destruct seg as [|f seg]; [done|]. unfold records in *. cbn [app].
  assert (last (f :: seg ++ [e]) = Some e) as -> by (rewrite app_comm_cons; apply last_snoc). destruct (last (f :: seg)) as [l|] eqn:El.
  2: { by apply last_None in El. }
  destruct Hr as (Hc & Hr). unfold widen_gap. cbn [gap_count gap_from gap_to gap_tenantID gap_workspaceID gap_aggregateID
    gap_correlationID]. split; [|tauto]. rewrite Hc. unfold add64. rewrite wrap64_id.
  - cbn [length]. rewrite length_app. cbn [length]. lia.
  - unfold int64_range, two63 in *. cbn [length] in *. lia.
Qed.

Lemma records_open e : records [e] (open_gap e no_gap).
Proof. by unfold records. Qed.

Lemma records_count seg g : records seg g → (0 <? gap_count g)%Z = bool_decide (seg ≠ []).
Proof.
  destruct seg as [|f seg]; cbn [records]; [by intros ->|]. unfold records.
  destruct (last (f :: seg)) as [l|] eqn:El; [|by apply last_None in El]. intros (-> & _).
  rewrite bool_decide_eq_true_2 by done. apply Z.ltb_lt. cbn [length]. lia.
Qed.

Lemma offer_spec e s s' : offer e s = Some s' →
  sub_queue s' = sub_queue s ++ [e] ∧ sub_cap s' = sub_cap s ∧ sub_gap s' = sub_gap s ∧ length (sub_queue s') ≤ sub_cap s'.
Proof.
  unfold offer. destruct (Nat.ltb_spec (length (sub_queue s)) (sub_cap s)); [|done]. intros [= <-]. cbn.
  rewrite length_app. cbn. split; [done|]. split; [done|]. split; [done|lia].
Qed.

(** An event sent to a subscriber without a pending gap. *)
Lemma send_attended id told got s e :
  length (sub_queue s) ≤ sub_cap s → accounts id told (got ++ sub_queue s) → sub_gap s = no_gap →
  attended id (told ++ [e]) got (send_event e s).
Proof.
  intros Hb Ha Hg. unfold send_event. destruct (offer (cloneEnvelope e) s) as [s'|] eqn:Ho.
  - destruct (offer_spec _ _ _ Ho) as (Hq & _ & Hg' & Hb'). split; [done|]. exists (told ++ [e]), [].
    rewrite app_nil_r. split; [done|]. rewrite Hq, app_assoc. split; [by constructor|]. by rewrite Hg', Hg.
  - split; [done|]. exists told, [e]. split; [done|]. split; [done|]. cbn [set_gap sub_gap]. rewrite Hg. apply records_open.
Qed.

Lemma notify_attended io id told got s e :
  attended id told got s → (Z.of_nat (length told) + 1 < two63)%Z → attended id (told ++ [e]) got (notify io e id s).
Proof.
  intros [Hb (sent & lost & -> & Ha & Hr)] Hroom. unfold notify. rewrite (records_count _ _ Hr).
  destruct (bool_decide_reflect (lost ≠ [])) as [Hne|He].
  - destruct (offer (gap_event io id (sub_gap s)) s) as [s'|] eqn:Ho.
    + destruct (offer_spec _ _ _ Ho) as (Hq & _ & _ & Hb'). apply send_attended; [done| |done].
      cbn [set_gap sub_queue]. rewrite Hq, app_assoc. by constructor.
    + split; [done|]. exists sent, (lost ++ [e]). rewrite app_assoc. split; [done|]. split; [done|].
      cbn [set_gap sub_gap]. apply records_snoc; [done|done|]. rewrite length_app in Hroom. lia.
  - destruct lost as [|x lost]; [|by destruct He]. rewrite app_nil_r in *. by apply send_attended.
Qed.

(** What a publication of [e] puts in front of a subscriber: the report of its
    pending gap, if it has one, and then the event. *)
Definition due (io : Io) (id : nat) (s : Subscriber) (e : Envelope) : list Envelope :=
  (if decide (sub_gap s = no_gap) then [] else [gap_event io id (sub_gap s)]) ++ [cloneEnvelope e].

(** A publication fills the buffer with what is due, as far as there is room;
    a gap is left pending only when something did not fit. *)
Definition served (io : Io) (id : nat) (s : Subscriber) (e : Envelope) (s' : Subscriber) : Prop :=
  sub_queue s' = take (sub_cap s) (sub_queue s ++ due io id s e)
  ∧ (sub_gap s' = no_gap ↔ length (sub_queue s ++ due io id s e) ≤ sub_cap s).

Lemma open_gap_pending e : open_gap e no_gap ≠ no_gap.
Proof. intros E. by apply (f_equal gap_count) in E. Qed.

Lemma send_served q e s :
  sub_gap s = no_gap → length (sub_queue s) ≤ sub_cap s → q = sub_queue s ++ [cloneEnvelope e] →
  sub_queue (send_event e s) = take (sub_cap s) q ∧ (sub_gap (send_event e s) = no_gap ↔ length q ≤ sub_cap s).
Proof.
  intros Hg Hb ->. unfold send_event, offer. rewrite length_app. cbn [length].
  destruct (Nat.ltb_spec (length (sub_queue s)) (sub_cap s)) as [Hlt|Hge]; cbn [sub_queue sub_gap set_gap].
  - rewrite take_ge by (rewrite length_app; cbn; lia). split; [done|]. split; [lia|done].
  - replace (sub_cap s) with (length (sub_queue s)) by lia. rewrite take_app_length. split; [done|]. rewrite Hg.
    split; [intros E; by apply open_gap_pending in E|lia].
Qed.

Lemma notify_served io id told got s e :
  attended id told got s → (Z.of_nat (length told) + 1 < two63)%Z → served io id s e (notify io e id s).
Proof.
  intros [Hb (sent & lost & -> & Ha & Hr)] Hroom. unfold served, notify, due. rewrite (records_count _ _ Hr).
  destruct lost as [|x lost].
  { cbn [records last] in Hr. rewrite bool_decide_eq_false_2 by (intros E; by apply E). rewrite decide_True by done.
    by apply send_served. }
  rewrite bool_decide_eq_true_2 by done.
  assert (sub_gap s ≠ no_gap) as Hpend.
  { intros E. pose proof (records_count _ _ Hr) as Hc. rewrite E, bool_decide_eq_true_2 in Hc by done. discriminate Hc. }
  rewrite decide_False by done. destruct (offer (gap_event io id (sub_gap s)) s) as [s'|] eqn:Ho.
  - destruct (offer_spec _ _ _ Ho) as (Hq & Hc & _ & Hb'). rewrite <- Hc.
    apply (send_served _ e (set_gap no_gap s')); [done|done|]. cbn [set_gap sub_queue]. by rewrite Hq, <- app_assoc.
  - unfold offer in Ho. destruct (Nat.ltb_spec (length (sub_queue s)) (sub_cap s)); [done|].
    cbn [set_gap sub_queue sub_gap]. replace (sub_cap s) with (length (sub_queue s)) by lia.
    rewrite take_app_length. split; [done|]. rewrite length_app. cbn [app length]. split; [|lia].
    intros E. exfalso. rewrite length_app in Hroom.
    assert (records ((x :: lost) ++ [e]) no_gap) as Hr' by (rewrite <- E; apply records_snoc; [done|done|lia]).
    apply records_count in Hr'. rewrite bool_decide_eq_true_2 in Hr' by done. discriminate Hr'.
Qed.

Lemma receive_attended id told got s e rest :
  attended id told got s → sub_queue s = e :: rest →
  attended id told (got ++ [e]) {| sub_cap := sub_cap s; sub_queue := rest; sub_gap := sub_gap s |}.
Proof.
  intros [Hb (sent & lost & -> & Ha & Hr)] Hq. rewrite Hq in *. split; cbn [sub_queue sub_cap sub_gap]; [cbn in Hb; lia|].
  exists sent, lost. split; [done|]. by rewrite <- app_assoc.
Qed.

(** ** Publication and the subscribers *)

Lemma adopt_subs d b : b_subscribers (fst (adopt_peer d b)) = b_subscribers b ∧ b_nextSubID (fst (adopt_peer d b)) = b_nextSubID b.
Proof.
  unfold adopt_peer. destruct (validatePersistedEvents _) as [es [[]|]]; [|done].
  by destruct (mergePeerEventsPreservingCommitted _ _).
Qed.

Definition same_subs (b b' : Bus) : Prop := b_subscribers b' = b_subscribers b ∧ b_nextSubID b' = b_nextSubID b.

Lemma write_subs io f b : same_subs b (bw_bus (fst (write_snapshot io f b))).
Proof.
  unfold write_snapshot. destruct (validatePersistedEvents _) as [es [[]|]]; [|done]. cbn zeta.
  destruct (json_marshal _); [|done]. destruct (bi_before io); [done|]. by destruct (bi_after io).
Qed.

Lemma persist_subs io w : same_subs (bw_bus w) (bw_bus (fst (persistLocked io w))).
Proof.
  unfold persistLocked. destruct (b_statePath _ ≟ ""); [done|]. cbn zeta. destruct (bi_lock io); [done|].
  destruct (readPersistedEvents _) as [[d|]|]; [| |done].
  - destruct (pe_Revision d ≠? b_revision (bw_bus w)); [|apply write_subs].
    pose proof (adopt_subs d (bw_bus w)) as Ha. destruct (adopt_peer d (bw_bus w)) as [b' [[]|]]; cbn [fst] in Ha; [|exact Ha].
    destruct (write_subs io (bi_peers io (bw_file w)) b') as [E1 E2], Ha as [A1 A2]. split; congruence.
  - apply write_subs.
Qed.

Lemma prune_subs now b : same_subs b (pruneLocked now b).
Proof. unfold pruneLocked. destruct (_ && _); [done|]. cbn zeta. by destruct (_ <=? _)%nat. Qed.

(** What a publication announces to the subscribers, if anything: the record as the
    history retains it. *)
Definition announced (io : Io) (w : World) (event : Envelope) : option Envelope :=
  match admit_event io event with
  | Err _ => None
  | Ok e =>
      let b := bw_bus w in
      if already_seen b e then None
      else
        let e := positioned (b_events b) e in
        match persistLocked io (with_bus (pruneLocked (bi_now io) (with_events (b_events b ++ [e]) (mark_seen e b))) w) with
        | (_, Err _) => None
        | (w', Ok _) => Some (retained (b_events (bw_bus w')) e)
        end
  end.

Lemma publish_subs io w event id :
  b_subscribers (bw_bus (fst (Publish io w event))) !! id
  = match announced io w event with
    | Some e => notify io e id <$> b_subscribers (bw_bus w) !! id
    | None => b_subscribers (bw_bus w) !! id
    end.
Proof.
  unfold Publish, announced. destruct (admit_event io event) as [e|]; [|done]. cbn zeta.
  destruct (already_seen _ e); [done|]. set (b' := pruneLocked _ _).
  assert (Hs : same_subs (bw_bus w) b') by exact (prune_subs (bi_now io) (with_events _ (mark_seen _ (bw_bus w)))).
  pose proof (persist_subs io (with_bus b' w)) as Hp. destruct (persistLocked io _) as [w' [[]|]]; cbn [fst with_bus bw_bus] in *.
  - cbn [with_subscribers b_subscribers]. rewrite map_lookup_imap. destruct Hp as [-> _], Hs as [-> _].
    by destruct (b_subscribers (bw_bus w) !! id).
  - cbn [rebuildSeen with_seen with_events b_subscribers]. by destruct Hp as [-> _], Hs as [-> _].
Qed.

(** ** The other operations leave the subscribers alone *)

Lemma same_subs_trans b1 b2 b3 : same_subs b1 b2 → same_subs b2 b3 → same_subs b1 b3.
Proof. intros [] []. split; congruence. Qed.

Lemma reload_subs w : same_subs (bw_bus w) (bw_bus (fst (reloadLocked w))).
Proof.
  unfold reloadLocked. destruct (_ ≟ ""); [done|]. destruct (readPersistedEvents _) as [[d|]|]; [|done|done].
  destruct (_ <=? _)%Z; [done|]. by destruct (validatePersistedEvents _) as [es [[]|]].
Qed.

(** A write of edited bookkeeping, and the edit that a failure undoes. *)
Lemma rewrite_subs {A} io w b (undo : Bus → Bus) (wrap : error → A) (good : A) :
  same_subs (bw_bus w) b → (∀ b', same_subs b' (undo b')) →
  same_subs (bw_bus w) (bw_bus (fst (match persistLocked io (with_bus b w) with
    | (w', Err e) => (with_bus (undo (bw_bus w')) w', wrap e)
    | (w', Ok _) => (w', good)
    end))).
Proof.
  intros Hb Hu. pose proof (same_subs_trans _ _ _ Hb (persist_subs io (with_bus b w))) as Hp.
  destruct (persistLocked io _) as [w' [[]|]]; cbn [fst with_bus bw_bus] in *; [done|]. by eapply same_subs_trans.
Qed.

Lemma ack_subs io w c e : same_subs (bw_bus w) (bw_bus (fst (Ack io w c e))).
Proof.
  unfold Ack. destruct (_ || _); [done|]. pose proof (reload_subs w) as Hr.
  destruct (reloadLocked w) as [w1 [[]|]]; cbn [fst] in Hr; [|exact Hr]. destruct (position _ _) as [i|]; [|exact Hr].
  destruct (match position _ _ with Some p => _ | None => _ end); [exact Hr|].
  eapply same_subs_trans; [exact Hr|].
  exact (rewrite_subs io w1 (set_ack (TrimSpace c) (TrimSpace e) (bw_bus w1)) (restore_ack (TrimSpace c) (TrimSpace e) (bw_bus w1)) _ _ (conj eq_refl eq_refl)
           (λ b', conj eq_refl eq_refl)).
Qed.

Lemma ack_scoped_subs io w c t ws a e : same_subs (bw_bus w) (bw_bus (fst (AckScoped io w c t ws a e))).
Proof.
  unfold AckScoped, Reload. pose proof (reload_subs w) as Hr.
  destruct (reloadLocked w) as [w1 [[]|]]; cbn [fst] in Hr; [|exact Hr]. destruct (negb _); [exact Hr|].
  eapply same_subs_trans; [exact Hr|apply ack_subs].
Qed.

Lemma list_subs w a c n : same_subs (bw_bus w) (bw_bus (fst (ListChecked w a c n))).
Proof.
  unfold ListChecked. pose proof (reload_subs w) as Hr. by destruct (reloadLocked w) as [w1 [[]|]].
Qed.

Lemma replay_subs io w c a cur n : same_subs (bw_bus w) (bw_bus (fst (Replay io w c a cur n))).
Proof.
  unfold Replay, Reload. pose proof (reload_subs w) as Hr. destruct (reloadLocked w) as [w1 [[]|]]; cbn [fst] in Hr; [|exact Hr].
  cbn zeta. destruct (after_cursor _ _ _ _); [|exact Hr]. eapply same_subs_trans; [exact Hr|].
  exact (list_subs {| bw_bus := bw_bus w1; bw_file := _ |} _ _ _).
Qed.

Lemma replay_scoped_subs w c t ws a cur n : same_subs (bw_bus w) (bw_bus (fst (ReplayScoped w c t ws a cur n))).
Proof.
  unfold ReplayScoped, Reload. pose proof (reload_subs w) as Hr. by destruct (reloadLocked w) as [w1 [[]|]].
Qed.

Lemma record_subs io w c items next : same_subs (bw_bus w) (bw_bus (fst (recordDeliveries io w c items next))).
Proof.
  unfold recordDeliveries. destruct items as [|x items]; [done|]. cbn zeta. destruct (foldl _ _ _) as [attempts ds].
  exact (rewrite_subs io w (with_durable _ _ _ _ (bw_bus w))
           (λ b', with_durable (b_revision b') (b_acks b')
              (restore_attempts c (x :: items) (b_deliveryAttempts (bw_bus w)) (b_deliveryAttempts b')) (b_retention b') b')
           _ _ (conj eq_refl eq_refl) (λ b', conj eq_refl eq_refl)).
Qed.

Definition op_announced (op : BusOp) (w : World) : option Envelope :=
  match op with OpPublish io e => announced io w e | _ => None end.

Lemma op_subs op w : (∀ io e, op ≠ OpPublish io e) → same_subs (bw_bus w) (bw_bus (run_op op w)).
Proof.
  intros Hop. destruct op as [io e|io c e|io c t|io c t ws a e|io c t ws a k|io c a cur n|io c t ws a cur n
    |io c a cur n|c t ws a cur n|t ws a from to|a c n|io now|io|f]; cbn [run_op].
  - by destruct (Hop io e).
  - apply ack_subs.
  - unfold AckDelivery. destruct (verifyAckToken _ _); [apply ack_subs|done].
  - apply ack_scoped_subs.
  - unfold AckDeliveryScoped. destruct (verifyAckToken _ _); [apply ack_scoped_subs|done].
  - unfold Deliver. cbn zeta. destruct (_ ≟ ""); [done|]. pose proof (replay_subs io w (TrimSpace c) a cur n) as Hr.
    destruct (Replay io w _ a cur n) as [w1 [[items next]|]]; [|exact Hr]. eapply same_subs_trans; [exact Hr|apply record_subs].
  - unfold DeliverScoped. destruct (blank c); [done|]. pose proof (replay_scoped_subs w c t ws a cur n) as Hr.
    destruct (ReplayScoped w c t ws a cur n) as [w1 [[items next]|]]; [|exact Hr].
    eapply same_subs_trans; [exact Hr|apply record_subs].
  - apply replay_subs.
  - apply replay_scoped_subs.
  - unfold ReplayRange, Reload. destruct (_ || _); [done|]. pose proof (reload_subs w) as Hr.
    by destruct (reloadLocked w) as [w1 [[]|]].
  - unfold List_. pose proof (list_subs w a c n) as Hr. by destruct (ListChecked w a c n).
  - unfold Prune. eapply same_subs_trans; [apply (prune_subs (orNow (bi_now io) now))|].
    exact (persist_subs io (with_bus _ w)).
  - apply persist_subs.
  - done.
Qed.

(** ** Runs, as one subscriber lives them *)

Inductive LiveAct :=
  | ActOp (op : BusOp)
  | ActReceive (id : nat)
  | ActSubscribe (buffer : Z)
  | ActUnsubscribe (id : nat).

(** The world, the events announced since the subscription, the envelopes received. *)
Record Watch := { wt_world : World; wt_told : list Envelope; wt_got : list Envelope }.

Definition live_step (id : nat) (st : Watch) (act : LiveAct) : Watch :=
  let w := wt_world st in
  match act with
  | ActOp op => {| wt_world := run_op op w; wt_told := wt_told st ++ option_list (op_announced op w); wt_got := wt_got st |}
  | ActReceive k =>
      let '(b, r) := receive (bw_bus w) k in
      {| wt_world := with_bus b w; wt_told := wt_told st;
         wt_got := if decide (k = id) then wt_got st ++ option_list r else wt_got st |}
  | ActSubscribe n => {| wt_world := with_bus (fst (Subscribe (bw_bus w) n)) w; wt_told := wt_told st; wt_got := wt_got st |}
  | ActUnsubscribe k => {| wt_world := with_bus (Unsubscribe (bw_bus w) k) w; wt_told := wt_told st; wt_got := wt_got st |}
  end.
Definition live_run (id : nat) (w : World) (acts : list LiveAct) : Watch :=
  foldl (live_step id) {| wt_world := w; wt_told := []; wt_got := [] |} acts.

Definition tended (id : nat) (st : Watch) : Prop :=
  id < b_nextSubID (bw_bus (wt_world st))
  ∧ ∃ s, b_subscribers (bw_bus (wt_world st)) !! id = Some s ∧ attended id (wt_told st) (wt_got st) s.

Lemma publish_next io w e : b_nextSubID (bw_bus (fst (Publish io w e))) = b_nextSubID (bw_bus w).
Proof.
  unfold Publish. destruct (admit_event io e) as [e'|]; [|done]. cbn zeta. destruct (already_seen _ e'); [done|].
  set (b' := pruneLocked _ _). pose proof (persist_subs io (with_bus b' w)) as [_ Hp].
  assert (Hn : b_nextSubID b' = b_nextSubID (bw_bus w)).
  { exact (proj2 (prune_subs (bi_now io) (with_events _ (mark_seen _ (bw_bus w))))). }
  destruct (persistLocked io _) as [w' [[]|]]; cbn in *; congruence.
Qed.

Lemma op_tended id op st :
  tended id st → (Z.of_nat (length (wt_told st)) + 1 < two63)%Z → tended id (live_step id st (ActOp op)).
Proof.
  intros (Hn & s & Hs & Ha) Hroom. cbn [live_step]. unfold tended. cbn [wt_world wt_told wt_got].
  destruct op as [io e| | | | | | | | | | | | | ].
  2-14: match goal with |- context [run_op ?op ?w] =>
          destruct (op_subs op w) as [-> ->]; [by intros|]; cbn [op_announced option_list]; rewrite app_nil_r; by eauto end.
  cbn [run_op op_announced]. rewrite publish_next, publish_subs, Hs. split; [done|].
  destruct (announced io (wt_world st) e) as [x|]; cbn [option_list fmap option_fmap option_map].
  - eexists. split; [reflexivity|]. by apply notify_attended.
  - exists s. by rewrite app_nil_r.
Qed.

Lemma act_tended id act st :
  tended id st → act ≠ ActUnsubscribe id → (Z.of_nat (length (wt_told st)) + 1 < two63)%Z →
  tended id (live_step id st act).
Proof.
  intros Ht Hne Hroom. destruct act as [op|k|n|k]; [by apply op_tended| | |]; destruct Ht as (Hn & s & Hs & Ha).
  - cbn [live_step]. unfold receive. destruct (decide (k = id)) as [->|Hk].
    + rewrite Hs. destruct (sub_queue s) as [|e rest] eqn:Hq; cbn [option_list].
      * split; [done|]. exists s. cbn. by rewrite app_nil_r.
      * split; [done|]. eexists. cbn. split; [apply lookup_insert_eq|]. by apply receive_attended.
    + destruct (b_subscribers _ !! k) as [s'|]; [|by split; eauto]. destruct (sub_queue s') as [|e rest]; [by split; eauto|].
      split; [done|]. exists s. cbn. by rewrite lookup_insert_ne.
  - split; [cbn in *; lia|]. exists s. cbn in *. by rewrite lookup_insert_ne by lia.
  - split; [done|]. exists s. cbn. rewrite lookup_delete_ne; [done|]. congruence.
Qed.

Lemma live_told_mono id acts : ∀ st, length (wt_told st) ≤ length (wt_told (foldl (live_step id) st acts)).
Proof.
  induction acts as [|act acts IH]; intros st; [done|]. cbn [foldl]. etrans; [|apply IH].
  destruct act as [op|k|n|k]; cbn [live_step]; try done; [cbn; rewrite length_app; lia|]. by destruct (receive _ _).
Qed.

(** C29: A live subscriber is never left behind silently: from its subscription on,
    through any sequence of publications, acknowledgements, deliveries, reloads and
    other subscriptions, and however slowly it reads, the events announced by this
    process are accounted for, in order and each exactly once, by what it has
    received, what waits in its buffer, and one pending gap - every event either as
    a copy of the committed record or inside a gap event that gives the number of
    events missed, the sequence of the first and of the last - and its buffer never
    holds more than it was created for.  A pending gap is reported by the next
    publication that finds room: what that publication puts in the buffer is the gap
    event and then the event itself, as far as both fit, and a gap stays pending only
    when one of them did not.  (The report waits for a publication: a subscriber that
    makes room after the last one is told nothing, although the comment on [Publish]
    says as soon as the queue has room.) *)
Theorem subscriber_never_misled w buffer acts :
  let '(b, id) := Subscribe (bw_bus w) buffer in
  ActUnsubscribe id ∉ acts →
  let st := live_run id (with_bus b w) acts in
  (Z.of_nat (length (wt_told st)) + 1 < two63)%Z →
  ∃ s, b_subscribers (bw_bus (wt_world st)) !! id = Some s ∧ attended id (wt_told st) (wt_got st) s
    ∧ ∀ io e x, announced io (wt_world st) e = Some x →
      ∃ s', b_subscribers (bw_bus (fst (Publish io (wt_world st) e))) !! id = Some s' ∧ served io id s x s'.
Proof.
  destruct (Subscribe (bw_bus w) buffer) as [b id] eqn:Hsub. injection Hsub as <- <-.
  set (id := b_nextSubID (bw_bus w)). cbn zeta. unfold live_run. set (st0 := {| wt_world := _ |}). intros Hacts Hroom.
  assert (H0' : tended id st0).
  { split; [cbn; lia|]. eexists. cbn. split; [apply lookup_insert_eq|]. split; [cbn; lia|].
    exists [], []. split; [done|]. split; [apply acc_nil|done]. }
  assert (Ht : tended id (foldl (live_step id) st0 acts)).
  { clearbody st0. induction acts as [|act acts IH] using rev_ind; [done|]. rewrite foldl_snoc in *.
    pose proof (live_told_mono id [act] (foldl (live_step id) st0 acts)) as Hm. cbn [foldl] in Hm.
    apply act_tended; [apply IH; [set_solver|lia]|set_solver|lia]. }
  destruct Ht as (_ & s & Hs & Ha). exists s. split; [done|]. split; [done|]. intros io e x Hx.
  rewrite publish_subs, Hs, Hx. cbn. eexists. split; [reflexivity|]. by eapply notify_served.
Qed.
End live.
