(* ===== verification/EventBusSamples.v ===== *)
(** * EventBusSamples: concrete parameters and runs of the event bus

    One concrete choice for each parameter of the bus, at which its properties are
    instantiated, and the runs that show where the code departs from what it means
    to do. *)
From stdpp Require Import base strings gmap list pretty.
From Stdlib Require Import ZArith Lia.
From S2P Require Import Prelude GoLib GoStrings Trace GoValue GoJson JournalSamples EventBus EventBusSpec EventBusProps EventBusLive.

(** ** Parameters *)

#[local] Existing Instance plain_sha.
#[local] Instance plain_clone : PayloadClone := {| clone_map := Some; clone_map_stable := λ m m' _, eq_refl |}.
#[local] Instance plain_payload : JsonMarshal Payload := λ p,
  Some (match p with None => "null" | Some m => "{" +:+ pretty (size m) +:+ "}" end).
#[local] Instance plain_envelope : JsonMarshal Envelope := λ e,
  Some (Join "|" [en_EventID e; pretty (en_Sequence e); en_PreviousHash e; en_PayloadHash e]).
#[local] Instance plain_snapshot : JsonMarshal persistedEvents := λ d, Some (pretty (pe_Revision d)).

Definition quiet : Io :=
  {| bi_now := 100; bi_id := "generated"; bi_gap_id := λ _, "gap"; bi_mid := λ f, f; bi_peers := λ f, f; bi_lock := None;
     bi_before := None; bi_after := None |}.
(** Another process has replaced the file; the write may fail before the rename. *)
Definition meets (f : BusFile) (fault : option error) : Io :=
  {| bi_now := 100; bi_id := "generated"; bi_gap_id := λ _, "gap"; bi_mid := λ f, f; bi_peers := λ _, f; bi_lock := None;
     bi_before := fault; bi_after := None |}.
Definition disk_full : error := Errorf "no space left on device" [].

Definition sample (id : string) : Envelope :=
  {| en_EventID := id; en_SchemaVersion := 1; en_Sequence := 0; en_EventType := "run.started"; en_AggregateType := "run";
     en_AggregateID := "run-1"; en_AggregateVersion := 1; en_TenantID := "local"; en_WorkspaceID := "ws";
     en_CorrelationID := "run-1"; en_CausationID := ""; en_TraceParent := ""; en_TraceState := ""; en_Provider := "";
     en_ProviderEventID := ""; en_OccurredAt := 50; en_Classification := "internal"; en_PayloadHash := "";
     en_PreviousHash := ""; en_EnvelopeHash := ""; en_Payload := None |}.
Definition from_provider (provider pid : string) (e : Envelope) : Envelope :=
  {| en_EventID := en_EventID e; en_SchemaVersion := 1; en_Sequence := 0; en_EventType := en_EventType e;
     en_AggregateType := en_AggregateType e; en_AggregateID := en_AggregateID e; en_AggregateVersion := 1;
     en_TenantID := en_TenantID e; en_WorkspaceID := en_WorkspaceID e; en_CorrelationID := en_CorrelationID e;
     en_CausationID := ""; en_TraceParent := ""; en_TraceState := ""; en_Provider := provider; en_ProviderEventID := pid;
     en_OccurredAt := en_OccurredAt e; en_Classification := en_Classification e; en_PayloadHash := ""; en_PreviousHash := "";
     en_EnvelopeHash := ""; en_Payload := None |}.

(** A bus just opened on a file that does not exist yet. *)
Definition opened : Bus := default NewBus (match NewPersistentBus "events.json" None with Ok b => Some b | Err _ => None end).
Definition fresh : World := {| bw_bus := opened; bw_file := None |}.

Lemma fresh_synced : synced fresh.
Proof. split; vm_compute; congruence || reflexivity || apply prefix_nil || done. Qed.

Lemma quiet_coop w : synced w → room (bw_file w) → coop quiet (bw_file w).
Proof. intros Hs Hr. split; [apply rely_refl, Hs|exact Hr]. Qed.

(** ** Witnesses *)

Definition published : World := fst (Publish quiet fresh (sample "e1")).

Lemma sample_publishable id : blank id = false → publishable quiet (sample id).
Proof.
  intros Hb. split; [|by left]. cbn [en_EventID sample]. by rewrite (bool_decide_eq_false_2 _ (blank_nonempty _ Hb)).
Qed.

Lemma published_synced : synced published.
Proof.
  apply (publish_keeps quiet fresh (sample "e1") fresh_synced); [|by apply sample_publishable|by left].
  apply (quiet_coop fresh fresh_synced). repeat split; vm_compute; congruence.
Qed.

Lemma publication_permanent_witness :
  let ops := [OpAck quiet "reader" "e1"; OpFlush quiet] in
  ∃ e, admit_event quiet (sample "e1") = Ok e
    ∧ hist (bw_file fresh) `prefix_of` hist (bw_file (run_ops ops published))
    ∧ (en_EventID e ∈ ids (hist (bw_file (run_ops ops published)))
       ∨ ∃ k, provider_key e = Some k ∧ k ∈ omap provider_key (hist (bw_file fresh))).
Proof.
  cbn zeta. apply (publication_permanent quiet fresh (sample "e1")).
  - apply fresh_synced.
  - apply (quiet_coop fresh fresh_synced). repeat split; vm_compute; congruence.
  - by apply sample_publishable.
  - by left.
  - vm_compute. reflexivity.
  - assert (Hc : coop quiet (bw_file published)).
    { apply quiet_coop; [apply published_synced|]. repeat split; vm_compute; congruence. }
    split; [exact Hc|]. split; [|exact I]. cbn [allowed run_op]. apply quiet_coop.
    + exact (proj1 (ack_keeps quiet published "reader" "e1" published_synced Hc)).
    + repeat split; vm_compute; congruence.
Defined.

Lemma flush_reopens_witness :
  NewPersistentBus "events.json" (bw_file (fst (Bus_Flush quiet published)))
  = Ok (detached (bw_bus (fst (Bus_Flush quiet published)))).
Proof.
  apply (flush_reopens quiet published published_synced); [|vm_compute; reflexivity].
  apply quiet_coop; [apply published_synced|]. repeat split; vm_compute; congruence.
Defined.

Definition published2 : World := fst (Publish quiet published (sample "e2")).

Lemma pages_read_the_stream_witness :
  ∃ items next, read_pages [published; published2] "run-1" "" 1 = Ok (items, next)
    ∧ ((next = "" ∧ ∃ w, w ∈ [published; published2] ∧ items = stream (in_aggregate "run-1") (b_events (bw_bus w)))
       ∨ (items `prefix_of` stream (in_aggregate "run-1") (final [] [published; published2])
          ∧ length [published; published2] ≤ length (final [] [published; published2]))).
Proof.
  apply (pages_read_the_stream [published; published2] "run-1" 1).
  assert (Hd : ∀ w, reloadLocked w = (w, Ok tt) → NoDup (ids (b_events (bw_bus w))) →
    Forall (λ e, en_EventID e ≠ "") (b_events (bw_bus w)) → current w).
  { intros w Hr Hn Hf. split; [done|]. split; [done|]. by rewrite Forall_forall in Hf. }
  split; [|split; [apply prefix_nil|]; split; [|split; [|exact I]]].
  - apply Hd; [vm_compute; reflexivity|apply (bool_decide_unpack _); vm_compute; exact I|].
    apply (bool_decide_unpack _). vm_compute. exact I.
  - apply Hd; [vm_compute; reflexivity|apply (bool_decide_unpack _); vm_compute; exact I|].
    apply (bool_decide_unpack _). vm_compute. exact I.
  - exists (drop 1 (b_events (bw_bus published2))). vm_compute. reflexivity.
Defined.

(** A subscriber with room for one event that reads late. *)
Definition slow_run : list LiveAct :=
  [ActOp (OpPublish quiet (sample "e1")); ActOp (OpPublish quiet (sample "e2")); ActOp (OpPublish quiet (sample "e3"));
   ActReceive 0; ActOp (OpPublish quiet (sample "e4"))].

Lemma subscriber_never_misled_witness :
  let st := live_run 0 (with_bus (fst (Subscribe opened 1)) fresh) slow_run in
  map en_EventType (wt_got st) = ["run.started"]
  ∧ ∃ s, b_subscribers (bw_bus (wt_world st)) !! 0 = Some s ∧ attended 0 (wt_told st) (wt_got st) s
    ∧ map en_EventType (sub_queue s) = ["stream.gap.v1"].
Proof.
  cbn zeta. split; [vm_compute; reflexivity|].
  destruct (subscriber_never_misled fresh 1 slow_run) as (s & Hs & Ha & _);
    [|vm_compute; reflexivity|exists s; split; [exact Hs|split; [exact Ha|]]].
  - unfold slow_run. intros Hin. repeat (apply elem_of_cons in Hin as [Hin|Hin]; [discriminate|]). by apply elem_of_nil in Hin.
  - assert (Hq : map en_EventType (default [] (sub_queue <$> b_subscribers (bw_bus (wt_world
        (live_run 0 (with_bus (fst (Subscribe opened 1)) fresh) slow_run))) !! 0)) = ["stream.gap.v1"])
      by (vm_compute; reflexivity).
    exact (eq_trans (eq_sym (f_equal (λ o, map en_EventType (default [] (sub_queue <$> o))) Hs)) Hq).
Defined.

(** ** Where the bus departs from what it promises *)

(** The file after another process has published [e], starting from [f]. *)
Definition peer_published (f : BusFile) (e : Envelope) : BusFile :=
  match NewPersistentBus "events.json" f with
  | Ok b => bw_file (fst (Publish quiet {| bw_bus := b; bw_file := f |} e))
  | Err _ => f
  end.

(** A publication that adopts a peer's history and then cannot write restores the
    events but keeps the peer's revision, so the next publication overwrites the
    events the peer had committed. *)
Lemma failed_publish_erases_peer :
  let f := peer_published None (sample "peer") in
  let failed := Publish (meets f (Some disk_full)) fresh (sample "e1") in
  let next := Publish quiet (fst failed) (sample "e2") in
  ids (hist f) = ["peer"] ∧ snd failed = Err (Wrapf "persist event: %w" [] disk_full)
  ∧ snd next = Ok tt ∧ ids (hist (bw_file (fst next))) = ["e2"].
Proof. vm_compute. repeat split. Qed.

(** The same loss needs no fault: an event whose id is blank is refused by the
    validation of the history, after the adoption. *)
Lemma refused_publish_erases_peer :
  let f := peer_published None (sample "peer") in
  let refused := Publish (meets f None) fresh (sample " ") in
  let next := Publish quiet (fst refused) (sample "e2") in
  snd refused ≠ Ok tt ∧ snd next = Ok tt ∧ ids (hist (bw_file (fst next))) = ["e2"].
Proof. vm_compute. repeat split. discriminate. Qed.

(** An acknowledgement reports success and is lost when a peer wrote the file since
    it was reloaded: the merge prefers the acknowledgement on disk. *)
Lemma ack_lost_in_merge :
  let acked := fst (Ack quiet published2 "reader" "e1") in
  let f := peer_published (bw_file acked) (sample "peer") in
  let result := Ack (meets f None) acked "reader" "e2" in
  snd result = Ok tt ∧ b_acks (bw_bus (fst result)) !! "reader" = Some "e1".
Proof. vm_compute. repeat split. Qed.

(** A retention limit set while a peer has written since does not prune: the merge
    brings the pruned events back. *)
Lemma pruned_events_return :
  let f := peer_published (bw_file published2) (sample "peer") in
  let result := SetRetention (meets f None) published2 {| rp_MaxEvents := 1; rp_MaxAge := 0 |} in
  snd result = Ok tt ∧ ids (hist (bw_file (fst result))) = ["e1"; "e2"; "peer"].
Proof. vm_compute. repeat split. Qed.

(** Two processes that receive the same provider event under different ids both
    commit it: the merge compares event ids only. *)
Lemma provider_event_committed_twice :
  let f := peer_published None (from_provider "codex" "p-1" (sample "a")) in
  let result := Publish (meets f None) fresh (from_provider "codex" "p-1" (sample "b")) in
  snd result = Ok tt ∧ ids (hist (bw_file (fst result))) = ["a"; "b"].
Proof. vm_compute. repeat split. Qed.

(** A snapshot of before payload hashes opens, and can then never be written again:
    the envelope hash is filled in before the payload hash. *)
Lemma legacy_snapshot_read_only :
  let f := Some (Ok {| pe_Revision := 0; pe_Events := [sample "old"]; pe_Acks := ∅; pe_DeliveryAttempts := ∅;
                       pe_Retention := no_retention |}) in
  match NewPersistentBus "events.json" f with
  | Ok b => snd (Publish quiet {| bw_bus := b; bw_file := f |} (sample "new"))
            = Err (Wrapf "persist event: %w" [] (Errorf "event %s envelope hash mismatch" ["old"]))
  | Err _ => False
  end.
Proof. vm_compute. repeat split. Qed.

(** The token of an event whose id contains a period is never accepted. *)
Lemma dotted_token_refused :
  verifyAckToken "reader" (ackToken "reader" "run.1") = Err ErrInvalidCursor
  ∧ verifyAckToken "reader" (ackToken "reader" "run-1") = Ok "run-1".
Proof. vm_compute. repeat split. Qed.
