(* ===== verification/Harness.v ===== *)
(** * Harness: sessions of the durable harness

    Models the session half of internal/harness/store.go: turns, checkpoints,
    archives and memories with their hashes, [validateSessionState], and the
    functions that change one session: [appendTurnLocked],
    [saveCheckpointLocked], [compactLocked] and [autoCompactLocked] with its
    summaries.

    A function that would leave a half-changed session behind an error is only
    called on a copy its caller then drops, so it is a function to [result].  The
    calls of [domain.NewID] and [time.Now] of an operation are numbered: [fresh i]
    is what the [i]-th pair returns. *)
From stdpp Require Import base strings gmap list pretty sorting.
From Stdlib Require Import ZArith Lia Ascii SpecFloat.
From S2P Require Import Prelude GoLib GoStrings GoValue GoJson ContextModel ContextCompiler.

Record Turn := {
  tn_ID : string; tn_SessionID : string; tn_Sequence : Z; tn_AttemptID : string; tn_Role : string;
  tn_Content : string; tn_ToolName : string; tn_ToolCallID : string; tn_ToolStatus : string;
  tn_IdempotencyKey : string; tn_Metadata : gmap string string; tn_PrevHash : string; tn_Hash : string;
  tn_CreatedAt : Time }.
Record Checkpoint := {
  ck_ID : string; ck_SessionID : string; ck_TurnSequence : Z; ck_Phase : string; ck_EventHash : string;
  ck_PrevHash : string; ck_ToolCallID : string; ck_ContextVersion : Z; ck_OutboxIDs : list string;
  ck_LeaseIDs : list string; ck_State : string; ck_Hash : string; ck_CreatedAt : Time }.
Record ArchiveWindow := {
  aw_ID : string; aw_SessionID : string; aw_StartSequence : Z; aw_EndSequence : Z; aw_SourceHash : string;
  aw_ReplacementHash : string; aw_Summary : string; aw_RetainedTail : Z; aw_ParentArchiveID : string;
  aw_Reason : string; aw_Compression : CompressionRecord; aw_CreatedAt : Time }.
Record MemoryItem := {
  mi_ID : string; mi_SessionID : string; mi_Scope : string; mi_ProjectID : string; mi_Kind : string;
  mi_Fingerprint : string; mi_Content : string; mi_SourceIDs : list string; mi_Confidence : spec_float;
  mi_Importance : spec_float; mi_Status : string; mi_QualityScore : spec_float; mi_EvidenceHash : string;
  mi_Sensitivity : string; mi_PollutionLineage : list string; mi_ConflictPackage : list string; mi_Reviewer : string;
  mi_LastReason : string; mi_Pinned : bool; mi_ExpiresAt : option Time; mi_Supersedes : list string;
  mi_CreatedAt : Time }.
Record Session := {
  se_ID : string; se_TenantID : string; se_WorkspaceID : string; se_ProjectID : string; se_BudgetTokens : Z;
  se_AutoCompaction : bool; se_CompactionThreshold : spec_float; se_CompactionRetainTail : Z;
  se_AutoCompactionSet : bool; se_ContextVersion : Z; se_CreatedAt : Time; se_UpdatedAt : Time }.
Record Lease := {
  ls_ID : string; ls_SessionID : string; ls_Key : string; ls_Owner : string; ls_State : string; ls_Version : Z;
  ls_ExpiresAt : Time; ls_CreatedAt : Time; ls_UpdatedAt : Time }.
Record OutboxEvent := {
  ob_ID : string; ob_SessionID : string; ob_IdempotencyKey : string; ob_Payload : string; ob_State : string;
  ob_Attempts : Z; ob_Owner : string; ob_LeaseUntil : Time; ob_NextAttemptAt : Time; ob_PublishedAt : option Time;
  ob_CreatedAt : Time }.
Record sessionState := {
  ss_Session : Session; ss_Turns : list Turn; ss_Checkpoints : list Checkpoint; ss_Archives : list ArchiveWindow;
  ss_Memories : list MemoryItem; ss_Leases : list Lease; ss_Outbox : list OutboxEvent }.

(** Field updates. *)
Definition tn_with_Hash (h : string) (x : Turn) : Turn :=
  {| tn_ID := tn_ID x; tn_SessionID := tn_SessionID x; tn_Sequence := tn_Sequence x; tn_AttemptID := tn_AttemptID x;
     tn_Role := tn_Role x; tn_Content := tn_Content x; tn_ToolName := tn_ToolName x;
     tn_ToolCallID := tn_ToolCallID x; tn_ToolStatus := tn_ToolStatus x; tn_IdempotencyKey := tn_IdempotencyKey x;
     tn_Metadata := tn_Metadata x; tn_PrevHash := tn_PrevHash x; tn_Hash := h; tn_CreatedAt := tn_CreatedAt x |}.
Definition tn_stamped (id : string) (seq : Z) (prev : string) (hash : string) (now : Time) (x : Turn) : Turn :=
  {| tn_ID := id; tn_SessionID := tn_SessionID x; tn_Sequence := seq; tn_AttemptID := tn_AttemptID x;
     tn_Role := tn_Role x; tn_Content := tn_Content x; tn_ToolName := tn_ToolName x;
     tn_ToolCallID := tn_ToolCallID x; tn_ToolStatus := tn_ToolStatus x; tn_IdempotencyKey := tn_IdempotencyKey x;
     tn_Metadata := tn_Metadata x; tn_PrevHash := prev; tn_Hash := hash; tn_CreatedAt := now |}.
Definition tn_with_SessionID (id : string) (x : Turn) : Turn :=
  {| tn_ID := tn_ID x; tn_SessionID := id; tn_Sequence := tn_Sequence x; tn_AttemptID := tn_AttemptID x;
     tn_Role := tn_Role x; tn_Content := tn_Content x; tn_ToolName := tn_ToolName x;
     tn_ToolCallID := tn_ToolCallID x; tn_ToolStatus := tn_ToolStatus x; tn_IdempotencyKey := tn_IdempotencyKey x;
     tn_Metadata := tn_Metadata x; tn_PrevHash := tn_PrevHash x; tn_Hash := tn_Hash x; tn_CreatedAt := tn_CreatedAt x |}.
Definition ck_with_Hash (h : string) (x : Checkpoint) : Checkpoint :=
  {| ck_ID := ck_ID x; ck_SessionID := ck_SessionID x; ck_TurnSequence := ck_TurnSequence x; ck_Phase := ck_Phase x;
     ck_EventHash := ck_EventHash x; ck_PrevHash := ck_PrevHash x; ck_ToolCallID := ck_ToolCallID x;
     ck_ContextVersion := ck_ContextVersion x; ck_OutboxIDs := ck_OutboxIDs x; ck_LeaseIDs := ck_LeaseIDs x;
     ck_State := ck_State x; ck_Hash := h; ck_CreatedAt := ck_CreatedAt x |}.
Definition ck_with_ContextVersion (v : Z) (x : Checkpoint) : Checkpoint :=
  {| ck_ID := ck_ID x; ck_SessionID := ck_SessionID x; ck_TurnSequence := ck_TurnSequence x; ck_Phase := ck_Phase x;
     ck_EventHash := ck_EventHash x; ck_PrevHash := ck_PrevHash x; ck_ToolCallID := ck_ToolCallID x;
     ck_ContextVersion := v; ck_OutboxIDs := ck_OutboxIDs x; ck_LeaseIDs := ck_LeaseIDs x; ck_State := ck_State x;
     ck_Hash := ck_Hash x; ck_CreatedAt := ck_CreatedAt x |}.
Definition ck_stamped (id : string) (session : string) (prev : string) (hash : string) (now : Time) (x : Checkpoint) : Checkpoint :=
  {| ck_ID := id; ck_SessionID := session; ck_TurnSequence := ck_TurnSequence x; ck_Phase := ck_Phase x;
     ck_EventHash := ck_EventHash x; ck_PrevHash := prev; ck_ToolCallID := ck_ToolCallID x;
     ck_ContextVersion := ck_ContextVersion x; ck_OutboxIDs := ck_OutboxIDs x; ck_LeaseIDs := ck_LeaseIDs x;
     ck_State := ck_State x; ck_Hash := hash; ck_CreatedAt := now |}.
Definition mi_reviewed (status : string) (reviewer : string) (reason : string) (expires : option Time) (x : MemoryItem) : MemoryItem :=
  {| mi_ID := mi_ID x; mi_SessionID := mi_SessionID x; mi_Scope := mi_Scope x; mi_ProjectID := mi_ProjectID x;
     mi_Kind := mi_Kind x; mi_Fingerprint := mi_Fingerprint x; mi_Content := mi_Content x;
     mi_SourceIDs := mi_SourceIDs x; mi_Confidence := mi_Confidence x; mi_Importance := mi_Importance x;
     mi_Status := status; mi_QualityScore := mi_QualityScore x; mi_EvidenceHash := mi_EvidenceHash x;
     mi_Sensitivity := mi_Sensitivity x; mi_PollutionLineage := mi_PollutionLineage x;
     mi_ConflictPackage := mi_ConflictPackage x; mi_Reviewer := reviewer; mi_LastReason := reason;
     mi_Pinned := mi_Pinned x; mi_ExpiresAt := expires; mi_Supersedes := mi_Supersedes x;
     mi_CreatedAt := mi_CreatedAt x |}.
Definition mi_with_Scope (scope : string) (project : string) (x : MemoryItem) : MemoryItem :=
  {| mi_ID := mi_ID x; mi_SessionID := mi_SessionID x; mi_Scope := scope; mi_ProjectID := project;
     mi_Kind := mi_Kind x; mi_Fingerprint := mi_Fingerprint x; mi_Content := mi_Content x;
     mi_SourceIDs := mi_SourceIDs x; mi_Confidence := mi_Confidence x; mi_Importance := mi_Importance x;
     mi_Status := mi_Status x; mi_QualityScore := mi_QualityScore x; mi_EvidenceHash := mi_EvidenceHash x;
     mi_Sensitivity := mi_Sensitivity x; mi_PollutionLineage := mi_PollutionLineage x;
     mi_ConflictPackage := mi_ConflictPackage x; mi_Reviewer := mi_Reviewer x; mi_LastReason := mi_LastReason x;
     mi_Pinned := mi_Pinned x; mi_ExpiresAt := mi_ExpiresAt x; mi_Supersedes := mi_Supersedes x;
     mi_CreatedAt := mi_CreatedAt x |}.
Definition mi_with_Status (status : string) (x : MemoryItem) : MemoryItem :=
  {| mi_ID := mi_ID x; mi_SessionID := mi_SessionID x; mi_Scope := mi_Scope x; mi_ProjectID := mi_ProjectID x;
     mi_Kind := mi_Kind x; mi_Fingerprint := mi_Fingerprint x; mi_Content := mi_Content x;
     mi_SourceIDs := mi_SourceIDs x; mi_Confidence := mi_Confidence x; mi_Importance := mi_Importance x;
     mi_Status := status; mi_QualityScore := mi_QualityScore x; mi_EvidenceHash := mi_EvidenceHash x;
     mi_Sensitivity := mi_Sensitivity x; mi_PollutionLineage := mi_PollutionLineage x;
     mi_ConflictPackage := mi_ConflictPackage x; mi_Reviewer := mi_Reviewer x; mi_LastReason := mi_LastReason x;
     mi_Pinned := mi_Pinned x; mi_ExpiresAt := mi_ExpiresAt x; mi_Supersedes := mi_Supersedes x;
     mi_CreatedAt := mi_CreatedAt x |}.
Definition se_touched (now : Time) (x : Session) : Session :=
  {| se_ID := se_ID x; se_TenantID := se_TenantID x; se_WorkspaceID := se_WorkspaceID x;
     se_ProjectID := se_ProjectID x; se_BudgetTokens := se_BudgetTokens x; se_AutoCompaction := se_AutoCompaction x;
     se_CompactionThreshold := se_CompactionThreshold x; se_CompactionRetainTail := se_CompactionRetainTail x;
     se_AutoCompactionSet := se_AutoCompactionSet x; se_ContextVersion := se_ContextVersion x;
     se_CreatedAt := se_CreatedAt x; se_UpdatedAt := now |}.
Definition se_with_ContextVersion (v : Z) (now : Time) (x : Session) : Session :=
  {| se_ID := se_ID x; se_TenantID := se_TenantID x; se_WorkspaceID := se_WorkspaceID x;
     se_ProjectID := se_ProjectID x; se_BudgetTokens := se_BudgetTokens x; se_AutoCompaction := se_AutoCompaction x;
     se_CompactionThreshold := se_CompactionThreshold x; se_CompactionRetainTail := se_CompactionRetainTail x;
     se_AutoCompactionSet := se_AutoCompactionSet x; se_ContextVersion := v; se_CreatedAt := se_CreatedAt x;
     se_UpdatedAt := now |}.
Definition se_with_Set (b : bool) (x : Session) : Session :=
  {| se_ID := se_ID x; se_TenantID := se_TenantID x; se_WorkspaceID := se_WorkspaceID x;
     se_ProjectID := se_ProjectID x; se_BudgetTokens := se_BudgetTokens x; se_AutoCompaction := se_AutoCompaction x;
     se_CompactionThreshold := se_CompactionThreshold x; se_CompactionRetainTail := se_CompactionRetainTail x;
     se_AutoCompactionSet := b; se_ContextVersion := se_ContextVersion x; se_CreatedAt := se_CreatedAt x;
     se_UpdatedAt := se_UpdatedAt x |}.
Definition ss_with_Session (s : Session) (x : sessionState) : sessionState :=
  {| ss_Session := s; ss_Turns := ss_Turns x; ss_Checkpoints := ss_Checkpoints x; ss_Archives := ss_Archives x;
     ss_Memories := ss_Memories x; ss_Leases := ss_Leases x; ss_Outbox := ss_Outbox x |}.
Definition ss_with_Turns (l : list Turn) (x : sessionState) : sessionState :=
  {| ss_Session := ss_Session x; ss_Turns := l; ss_Checkpoints := ss_Checkpoints x; ss_Archives := ss_Archives x;
     ss_Memories := ss_Memories x; ss_Leases := ss_Leases x; ss_Outbox := ss_Outbox x |}.
Definition ss_with_Checkpoints (l : list Checkpoint) (x : sessionState) : sessionState :=
  {| ss_Session := ss_Session x; ss_Turns := ss_Turns x; ss_Checkpoints := l; ss_Archives := ss_Archives x;
     ss_Memories := ss_Memories x; ss_Leases := ss_Leases x; ss_Outbox := ss_Outbox x |}.
Definition ss_with_Archives (l : list ArchiveWindow) (x : sessionState) : sessionState :=
  {| ss_Session := ss_Session x; ss_Turns := ss_Turns x; ss_Checkpoints := ss_Checkpoints x; ss_Archives := l;
     ss_Memories := ss_Memories x; ss_Leases := ss_Leases x; ss_Outbox := ss_Outbox x |}.
Definition ss_with_Memories (l : list MemoryItem) (x : sessionState) : sessionState :=
  {| ss_Session := ss_Session x; ss_Turns := ss_Turns x; ss_Checkpoints := ss_Checkpoints x;
     ss_Archives := ss_Archives x; ss_Memories := l; ss_Leases := ss_Leases x; ss_Outbox := ss_Outbox x |}.
Definition ss_with_Leases (l : list Lease) (x : sessionState) : sessionState :=
  {| ss_Session := ss_Session x; ss_Turns := ss_Turns x; ss_Checkpoints := ss_Checkpoints x;
     ss_Archives := ss_Archives x; ss_Memories := ss_Memories x; ss_Leases := l; ss_Outbox := ss_Outbox x |}.
Definition ss_with_Outbox (l : list OutboxEvent) (x : sessionState) : sessionState :=
  {| ss_Session := ss_Session x; ss_Turns := ss_Turns x; ss_Checkpoints := ss_Checkpoints x;
     ss_Archives := ss_Archives x; ss_Memories := ss_Memories x; ss_Leases := ss_Leases x; ss_Outbox := l |}.

Record CompactRequest := {
  cq_StartSequence : Z; cq_EndSequence : Z; cq_Summary : string; cq_RetainedTail : Z; cq_Reason : string;
  cq_compression : CompressionRecord }.

Record Stamp := { st_id : string; st_now : Time }.

Definition harness_error (name : string) : error := ESentinel (Sentinel "harness" name).
Definition ErrNotFound : error := harness_error "ErrNotFound".
Definition ErrConflict : error := harness_error "ErrConflict".
Definition ErrCorrupt : error := harness_error "ErrCorrupt".
Definition ErrLeaseBusy : error := harness_error "ErrLeaseBusy".
Definition ErrLeaseLost : error := harness_error "ErrLeaseLost".
Definition ErrWindowUsed : error := harness_error "ErrWindowUsed".

Definition RoleSystem := "system".
Definition RoleUser := "user".
Definition RoleAssistant := "assistant".
Definition RoleTool := "tool".
Definition validRole (role : string) : bool :=
  (role ≟ RoleSystem) || (role ≟ RoleUser) || (role ≟ RoleAssistant) || (role ≟ RoleTool).

Definition CheckpointTurnStarted := "turn_started".
Definition CheckpointToolBefore := "tool_before".
Definition CheckpointToolAfter := "tool_after".
Definition CheckpointCompactionBegin := "compaction_before".
Definition CheckpointCompactionDone := "compaction_after".
Definition CheckpointEffectBefore := "effect_before".
Definition CheckpointEffectAfter := "effect_after".
Definition phase_valid (p : string) : bool :=
  contains [CheckpointTurnStarted; CheckpointToolBefore; CheckpointToolAfter; CheckpointCompactionBegin;
            CheckpointCompactionDone; CheckpointEffectBefore; CheckpointEffectAfter] p.

(** [x < 0 || x > 1]; false of a NaN. *)
Definition outside_unit (x : spec_float) : bool := SFltb x (S754_zero false) || SFltb float_one x.
(** The literal [0.80]. *)
Definition four_fifths : spec_float := S754_finite false 7205759403792794 (-53).

Definition hasTurnHash (turns : list Turn) (value : string) : bool := existsb (λ t, tn_Hash t ≟ value) turns.
Definition hasTurnID (turns : list Turn) (value : string) : bool := existsb (λ t, tn_ID t ≟ value) turns.
Definition hasMemoryID (items : list MemoryItem) (value : string) : bool := existsb (λ m, mi_ID m ≟ value) items.
Fixpoint sameStrings (left right : list string) : bool :=
  match left, right with
  | [], [] => true
  | l :: left', r :: right' => (l ≟ r) && sameStrings left' right'
  | _, _ => false
  end.

Definition in_window (start stop : Z) (t : Turn) : bool := (start <=? tn_Sequence t)%Z && (tn_Sequence t <=? stop)%Z.
Definition turnArchived (archives : list ArchiveWindow) (sequence : Z) : bool :=
  existsb (λ a, (aw_StartSequence a <=? sequence)%Z && (sequence <=? aw_EndSequence a)%Z) archives.
Definition turnIDs (turns : list Turn) : list string := tn_ID <$> turns.
Definition overlaps (start stop : Z) (a : ArchiveWindow) : bool :=
  (start <=? aw_EndSequence a)%Z && (aw_StartSequence a <=? stop)%Z.

(** Memory statuses. *)
Definition validMemoryStatus (status : string) : bool :=
  (status ≟ "") || contains ["candidate"; "quarantined"; "confirmed"; "superseded"; "forgotten"; "rejected"] status.
Definition memoryTransitionAllowed (from to : string) : bool :=
  let from := if from ≟ "" then "confirmed" else from in
  (from ≟ to)
  || (if from ≟ "candidate" then contains ["quarantined"; "confirmed"; "rejected"] to
      else if from ≟ "quarantined" then contains ["candidate"; "confirmed"; "rejected"] to
      else if from ≟ "confirmed" then contains ["superseded"; "forgotten"] to
      else false).

Section session.
Context `{!Sha256, !JsonMarshal Turn, !JsonMarshal Checkpoint, !UnicodeCase}.

(** ** Hashes *)

Definition digest (data : string) : string := "sha256:" +:+ sha256_hex data.
Definition hashTurn (t : Turn) : string := digest (default "" (json_marshal (tn_with_Hash "" t))).
Definition turnDigest (t : Turn) : string := hashTurn (tn_stamped "" 0 "" "" 0 t).
Definition hashCheckpoint (c : Checkpoint) : string := digest (default "" (json_marshal (ck_with_Hash "" c))).

(** The encoding of the turns of a window, a line each. *)
Definition window_source (start stop : Z) (turns : list Turn) : string :=
  foldr (λ t s, if in_window start stop t then default "" (json_marshal t) +:+ line_break +:+ s else s) "" turns.

(** ** Memory text *)

Definition normalizeMemoryText (content : string) : string :=
  Join " " (Fields (ToLowerText (TrimSpace content))).
Definition memoryFingerprint (kind content : string) : string :=
  digest (ToLowerText (TrimSpace kind) +:+ nul +:+ normalizeMemoryText content).
Definition evidence_hash (sources : list string) (content : string) : string :=
  digest (Join nul sources +:+ nul +:+ content).
Fixpoint first_marker (normalized : string) (markers : list string) : option string :=
  match markers with
  | [] => None
  | m :: rest =>
      match Index normalized m with
      | Some (Datatypes.S _ as i) => Some (TrimSpace (String.substring 0 i normalized))
      | _ => first_marker normalized rest
      end
  end.
Definition memorySubject (content : string) : string :=
  let normalized := normalizeMemoryText content in
  match first_marker normalized ["="; " must "; " should "; " can "; " is "; " are "; " -> "] with
  | Some subject => subject
  | None => Join " " (take 3 (Fields normalized))
  end.

(** ** [validateSessionState] *)

Definition check_turn (session : string) (previous : string) (i : nat) (t : Turn) : result string :=
  reject ((tn_ID t ≟ "") || (tn_SessionID t ≠? session) || (tn_Sequence t ≠? (Z.of_nat i + 1)%Z)
          || negb (validRole (tn_Role t)) || blank (tn_Content t) || (tn_Hash t ≟ "") || (tn_PrevHash t ≠? previous)
          || (hashTurn t ≠? tn_Hash t))
    (Wrapf "%w: transcript chain at sequence %d" [itoa (i + 1)] ErrCorrupt) ;;;
  Ok (tn_Hash t).

Record checkpoint_acc := {
  ca_last : option Checkpoint; ca_tools : gmap string string; ca_open : bool }.

Definition check_tool (tools : gmap string string) (c : Checkpoint) : result (gmap string string) :=
  if ck_ToolCallID c ≟ "" then Ok tools
  else if ck_Phase c ≟ CheckpointToolBefore then
    reject (bool_decide (is_Some (tools !! ck_ToolCallID c)))
      (Wrapf "%w: duplicate tool-before checkpoint %s" [ck_ID c] ErrCorrupt) ;;;
    Ok (<[ck_ToolCallID c := ck_Phase c]> tools)
  else if ck_Phase c ≟ CheckpointToolAfter then
    reject (default "" (tools !! ck_ToolCallID c) ≠? CheckpointToolBefore)
      (Wrapf "%w: tool-after checkpoint %s has no before phase" [ck_ID c] ErrCorrupt) ;;;
    Ok (<[ck_ToolCallID c := ck_Phase c]> tools)
  else Ok tools.

Definition check_compaction (open : bool) (c : Checkpoint) : result bool :=
  if ck_Phase c ≟ CheckpointCompactionBegin then
    reject open (Wrapf "%w: duplicate compaction begin %s" [ck_ID c] ErrCorrupt) ;;; Ok true
  else if ck_Phase c ≟ CheckpointCompactionDone then
    reject (negb open) (Wrapf "%w: compaction done %s has no begin" [ck_ID c] ErrCorrupt) ;;; Ok false
  else Ok open.

Definition check_checkpoint (session : string) (turns : list Turn) (acc : checkpoint_acc) (_ : nat) (c : Checkpoint)
    : result checkpoint_acc :=
  reject ((ck_ID c ≟ "") || (ck_SessionID c ≠? session) || negb (phase_valid (ck_Phase c))
          || (ck_TurnSequence c <? 0)%Z || (ck_ContextVersion c <=? 0)%Z || (ck_Hash c ≟ "")
          || (hashCheckpoint c ≠? ck_Hash c) || (Z.of_nat (length turns) <? ck_TurnSequence c)%Z
          || match ca_last acc with
             | Some p => (ck_TurnSequence c <? ck_TurnSequence p)%Z || (ck_ContextVersion c <? ck_ContextVersion p)%Z
             | None => false
             end
          || (ck_PrevHash c ≠? match ca_last acc with Some p => ck_Hash p | None => "" end))
    (Wrapf "%w: checkpoint %s" [ck_ID c] ErrCorrupt) ;;;
  reject ((ck_EventHash c ≠? "") && negb (hasTurnHash turns (ck_EventHash c)))
    (Wrapf "%w: checkpoint event hash %s" [ck_EventHash c] ErrCorrupt) ;;;
  let* tools := check_tool (ca_tools acc) c in
  let* open := check_compaction (ca_open acc) c in
  Ok {| ca_last := Some c; ca_tools := tools; ca_open := open |}.

(** A stored compression record agrees with its archive. *)
Definition compression_broken (a : ArchiveWindow) : bool :=
  let r := aw_Compression a in
  (cr_Algorithm r ≠? "")
  && ((cr_SourceHash r ≠? aw_SourceHash a) || (cr_SummaryHash r ≠? aw_ReplacementHash a)
      || outside_unit (cr_QualityScore r) || blank (cr_Version r) || blank (cr_ReplayKey r)).

Definition check_archive (session : string) (turns : list Turn) (earlier : list ArchiveWindow) (_ : nat)
    (a : ArchiveWindow) : result (list ArchiveWindow) :=
  reject ((aw_SessionID a ≠? session) || (aw_StartSequence a <? 1)%Z || (aw_EndSequence a <? aw_StartSequence a)%Z
          || (Z.of_nat (length turns) <? aw_EndSequence a)%Z)
    (Wrapf "%w: archive %s" [aw_ID a] ErrCorrupt) ;;;
  reject ((aw_SourceHash a ≠? digest (window_source (aw_StartSequence a) (aw_EndSequence a) turns))
          || (aw_ReplacementHash a ≠? digest (TrimSpace (aw_Summary a))))
    (Wrapf "%w: archive digest %s" [aw_ID a] ErrCorrupt) ;;;
  reject (compression_broken a) (Wrapf "%w: archive compression record %s" [aw_ID a] ErrCorrupt) ;;;
  reject (match last earlier with Some p => aw_ParentArchiveID a ≠? aw_ID p | None => false end)
    (Wrapf "%w: archive parent %s" [aw_ID a] ErrCorrupt) ;;;
  reject (existsb (overlaps (aw_StartSequence a) (aw_EndSequence a)) earlier)
    (Wrapf "%w: overlapping archive %s" [aw_ID a] ErrCorrupt) ;;;
  Ok (earlier ++ [a]).

(** The checks session and project memories share. *)
Definition memory_broken (m : MemoryItem) : bool :=
  blank (mi_Content m) || outside_unit (mi_Confidence m) || outside_unit (mi_Importance m)
  || outside_unit (mi_QualityScore m) || negb (validMemoryStatus (mi_Status m))
  || ((mi_Fingerprint m ≠? "") && (mi_Fingerprint m ≠? memoryFingerprint (mi_Kind m) (mi_Content m))).
Definition evidence_broken (m : MemoryItem) : bool :=
  (mi_EvidenceHash m ≠? "") && (mi_EvidenceHash m ≠? evidence_hash (mi_SourceIDs m) (mi_Content m)).

Definition check_memory (session : string) (turns : list Turn) (_ : nat) (m : MemoryItem) : result unit :=
  reject ((mi_ID m ≟ "") || (mi_SessionID m ≠? session) || (mi_Scope m ≟ "project") || memory_broken m)
    (Wrapf "%w: memory %s" [mi_ID m] ErrCorrupt) ;;;
  check_each (λ _ source, reject (negb (hasTurnID turns source)) (Wrapf "%w: memory source %s" [source] ErrCorrupt))
    (mi_SourceIDs m) ;;;
  reject (evidence_broken m) (Wrapf "%w: memory evidence %s" [mi_ID m] ErrCorrupt).

Definition no_checkpoints : checkpoint_acc := {| ca_last := None; ca_tools := ∅; ca_open := false |}.

Definition validateSessionState (s : sessionState) : result unit :=
  let session := ss_Session s in
  reject ((se_ID session ≟ "") || (se_TenantID session ≟ "") || (se_WorkspaceID session ≟ "")
          || (se_ContextVersion session <=? 0)%Z) ErrCorrupt ;;;
  fold_each_from 0 (check_turn (se_ID session)) "" (ss_Turns s) ;;;
  fold_each_from 0 (check_checkpoint (se_ID session) (ss_Turns s)) no_checkpoints (ss_Checkpoints s) ;;;
  fold_each_from 0 (check_archive (se_ID session) (ss_Turns s)) [] (ss_Archives s) ;;;
  check_each (check_memory (se_ID session) (ss_Turns s)) (ss_Memories s).

(** ** Checkpoints *)

(** The fields that make a submitted checkpoint a replay of a stored one. *)
Definition same_checkpoint (c existing : Checkpoint) : bool :=
  (ck_TurnSequence existing ≟ ck_TurnSequence c) && (ck_Phase existing ≟ ck_Phase c)
  && (ck_EventHash existing ≟ ck_EventHash c) && (ck_ToolCallID existing ≟ ck_ToolCallID c)
  && (ck_ContextVersion existing ≟ ck_ContextVersion c) && (ck_State existing ≟ ck_State c)
  && sameStrings (ck_OutboxIDs existing) (ck_OutboxIDs c) && sameStrings (ck_LeaseIDs existing) (ck_LeaseIDs c).
(** Identity or chain fields the caller supplied and the stored record contradicts. *)
Definition forged_checkpoint (c existing : Checkpoint) : bool :=
  ((ck_ID c ≠? "") && (ck_ID c ≠? ck_ID existing))
  || ((ck_SessionID c ≠? "") && (ck_SessionID c ≠? ck_SessionID existing))
  || ((ck_PrevHash c ≠? "") && (ck_PrevHash c ≠? ck_PrevHash existing))
  || ((ck_Hash c ≠? "") && (ck_Hash c ≠? ck_Hash existing))
  || (negb (IsZero (ck_CreatedAt c)) && (ck_CreatedAt c ≠? ck_CreatedAt existing)).

Definition has_phase (call phase : string) (cs : list Checkpoint) : bool :=
  existsb (λ e, (ck_ToolCallID e ≟ call) && (ck_Phase e ≟ phase)) cs.
Definition compaction_step (open : bool) (c : Checkpoint) : bool :=
  if ck_Phase c ≟ CheckpointCompactionBegin then true
  else if ck_Phase c ≟ CheckpointCompactionDone then false else open.
Definition compaction_open (cs : list Checkpoint) : bool := foldl compaction_step false cs.

(** The checks on a checkpoint that is not a replay. *)
Definition admit_checkpoint (cs : list Checkpoint) (c : Checkpoint) : result unit :=
  match last cs with
  | Some l => reject ((ck_TurnSequence c <? ck_TurnSequence l)%Z) ErrConflict ;;;
              reject ((ck_ContextVersion c <? ck_ContextVersion l)%Z) ErrConflict
  | None => Ok tt
  end ;;;
  reject ((ck_PrevHash c ≠? "") && (ck_PrevHash c ≠? match last cs with Some l => ck_Hash l | None => "" end))
    (Wrapf "%w: checkpoint previous hash does not match the chain" [] ErrCorrupt) ;;;
  (if ck_ToolCallID c ≟ "" then Ok tt
   else
     let pairedBefore := has_phase (ck_ToolCallID c) CheckpointToolBefore cs in
     let pairedAfter := has_phase (ck_ToolCallID c) CheckpointToolAfter cs in
     if ck_Phase c ≟ CheckpointToolBefore then
       reject pairedBefore (Wrapf "%w: tool checkpoint is already open" [] ErrConflict)
     else if ck_Phase c ≟ CheckpointToolAfter then
       reject (negb pairedBefore || pairedAfter)
         (Wrapf "%w: tool checkpoint has no unique before phase" [] ErrConflict)
     else Ok tt) ;;;
  if ck_Phase c ≟ CheckpointCompactionBegin then
    reject (compaction_open cs) (Wrapf "%w: compaction checkpoint is already open" [] ErrConflict)
  else if ck_Phase c ≟ CheckpointCompactionDone then
    reject (negb (compaction_open cs)) (Wrapf "%w: compaction checkpoint has no begin phase" [] ErrConflict)
  else Ok tt.

Definition seal_checkpoint (stamp : Stamp) (session : string) (cs : list Checkpoint) (c : Checkpoint) : Checkpoint :=
  let id := TrimSpace (ck_ID c) in
  let c := ck_stamped (if id ≟ "" then st_id stamp else id) session
             (match last cs with Some l => ck_Hash l | None => "" end) (ck_Hash c) (st_now stamp) c in
  ck_with_Hash (hashCheckpoint c) c.

Definition saveCheckpointLocked (stamp : Stamp) (s : sessionState) (c : Checkpoint) : result (sessionState * Checkpoint) :=
  reject (negb (phase_valid (ck_Phase c)) || (ck_TurnSequence c <? 0)%Z || (ck_ContextVersion c <? 0)%Z)
    (Errorf "invalid checkpoint phase, turn sequence, or context version" []) ;;;
  let c := if (ck_ContextVersion c =? 0)%Z then ck_with_ContextVersion (se_ContextVersion (ss_Session s)) c else c in
  reject (ck_ContextVersion c <=? 0)%Z (Errorf "invalid checkpoint context version" []) ;;;
  reject (Z.of_nat (length (ss_Turns s)) <? ck_TurnSequence c)%Z ErrConflict ;;;
  reject ((ck_EventHash c ≠? "") && negb (hasTurnHash (ss_Turns s) (ck_EventHash c)))
    (Wrapf "%w: checkpoint event hash is not in the transcript" [] ErrCorrupt) ;;;
  match find (same_checkpoint c) (ss_Checkpoints s) with
  | Some existing =>
      reject (forged_checkpoint c existing)
        (Wrapf "%w: replayed checkpoint identity or chain fields do not match" [] ErrCorrupt) ;;;
      Ok (s, existing)
  | None =>
      admit_checkpoint (ss_Checkpoints s) c ;;;
      let c := seal_checkpoint stamp (se_ID (ss_Session s)) (ss_Checkpoints s) c in
      Ok (ss_with_Session (se_touched (st_now stamp) (ss_Session s)) (ss_with_Checkpoints (ss_Checkpoints s ++ [c]) s), c)
  end.

(** A checkpoint of a compaction: what the code leaves out is empty. *)
Definition phase_checkpoint (sequence : Z) (phase event tool : string) (version : Z) (state : string) : Checkpoint :=
  {| ck_ID := ""; ck_SessionID := ""; ck_TurnSequence := sequence; ck_Phase := phase; ck_EventHash := event;
     ck_PrevHash := ""; ck_ToolCallID := tool; ck_ContextVersion := version; ck_OutboxIDs := []; ck_LeaseIDs := [];
     ck_State := state; ck_Hash := ""; ck_CreatedAt := 0 |}.

(** ** Compaction *)

(** ASCII letters and digits, and the CJK block. *)
Definition word_rune (r : N) : bool :=
  (((97 <=? r) && (r <=? 122)) || ((48 <=? r) && (r <=? 57)) || ((19968 <=? r) && (r <=? 40959)))%N.
Definition semanticWords (value : string) : list string := FieldsFunc (ToLowerText value) (λ r, negb (word_rune r)).

Definition source_words (start stop : Z) (turns : list Turn) : gset string :=
  list_to_set (turns ≫= λ t, if in_window start stop t then semanticWords (tn_Content t) else []).
Definition retain_word (st : nat * gset string) (word : string) : nat * gset string :=
  if bool_decide (word ∈ st.2) then (Datatypes.S st.1, st.2 ∖ {[ word ]}) else st.
Definition summaryCoverage (turns : list Turn) (start stop : Z) (summary : string) : spec_float :=
  let words := source_words start stop turns in
  if (size words =? 0)%nat then float_one else
  let '(retained, rest) := foldl retain_word (0, words) (semanticWords summary) in
  let total := retained + size rest in
  if (total =? 0)%nat then float_one
  else SFdiv 53 1024 (float64_of_Z (Z.of_nat retained)) (float64_of_Z (Z.of_nat total)).

Definition cr_filled (source summary : string) (r : CompressionRecord) : CompressionRecord :=
  let source := if cr_SourceHash r ≟ "" then source else cr_SourceHash r in
  let summary := if cr_SummaryHash r ≟ "" then summary else cr_SummaryHash r in
  {| cr_SourceBlockIDs := cr_SourceBlockIDs r; cr_Algorithm := cr_Algorithm r; cr_Version := cr_Version r;
     cr_SourceHash := source; cr_SummaryHash := summary; cr_TargetTokens := cr_TargetTokens r;
     cr_RetainedFacts := cr_RetainedFacts r; cr_DroppedFacts := cr_DroppedFacts r;
     cr_QualityScore := cr_QualityScore r; cr_FallbackReason := cr_FallbackReason r;
     cr_DroppedReason := cr_DroppedReason r; cr_OverflowReason := cr_OverflowReason r;
     cr_ReplayKey := if cr_ReplayKey r ≟ "" then source +:+ ":" +:+ summary else cr_ReplayKey r |}.
Definition operator_record (turns : list Turn) (source summary : string) (q : CompactRequest) : CompressionRecord :=
  {| cr_SourceBlockIDs := []; cr_Algorithm := "operator-summary"; cr_Version := "v1"; cr_SourceHash := source;
     cr_SummaryHash := summary; cr_TargetTokens := 0; cr_RetainedFacts := []; cr_DroppedFacts := [];
     cr_QualityScore := summaryCoverage turns (cq_StartSequence q) (cq_EndSequence q) (cq_Summary q);
     cr_FallbackReason := ""; cr_DroppedReason := ""; cr_OverflowReason := "";
     cr_ReplayKey := source +:+ ":" +:+ summary |}.

Definition archive_of (stamp : Stamp) (s : sessionState) (q : CompactRequest) : ArchiveWindow :=
  let sourceHash := digest (window_source (cq_StartSequence q) (cq_EndSequence q) (ss_Turns s)) in
  let replacementHash := digest (TrimSpace (cq_Summary q)) in
  let compression := if cr_Algorithm (cq_compression q) ≟ "" then operator_record (ss_Turns s) sourceHash replacementHash q
                     else cq_compression q in
  {| aw_ID := st_id stamp; aw_SessionID := se_ID (ss_Session s); aw_StartSequence := cq_StartSequence q;
     aw_EndSequence := cq_EndSequence q; aw_SourceHash := sourceHash; aw_ReplacementHash := replacementHash;
     aw_Summary := TrimSpace (cq_Summary q); aw_RetainedTail := cq_RetainedTail q;
     aw_ParentArchiveID := match last (ss_Archives s) with Some p => aw_ID p | None => "" end;
     aw_Reason := TrimSpace (cq_Reason q); aw_Compression := cr_filled sourceHash replacementHash compression;
     aw_CreatedAt := st_now stamp |}.

Definition compactLocked (stamp : Stamp) (s : sessionState) (q : CompactRequest) : result (sessionState * ArchiveWindow) :=
  reject ((cq_StartSequence q <? 1)%Z || (cq_EndSequence q <? cq_StartSequence q)%Z
          || (Z.of_nat (length (ss_Turns s)) <? cq_EndSequence q)%Z || blank (cq_Summary q))
    (Errorf "invalid compaction window or summary" []) ;;;
  reject (cq_RetainedTail q <? 0)%Z (Errorf "retained_tail cannot be negative" []) ;;;
  reject (existsb (overlaps (cq_StartSequence q) (cq_EndSequence q)) (ss_Archives s)) ErrWindowUsed ;;;
  let archive := archive_of stamp s q in
  Ok (ss_with_Session (se_with_ContextVersion (add64 (se_ContextVersion (ss_Session s)) 1) (st_now stamp) (ss_Session s))
        (ss_with_Archives (ss_Archives s ++ [archive]) s), archive).

(** [Compact] without the store: the archive between its two checkpoints. *)
Definition compact_session (fresh : nat → Stamp) (s : sessionState) (q : CompactRequest)
    : result (sessionState * ArchiveWindow) :=
  let turnSequence := Z.of_nat (length (ss_Turns s)) in
  let eventHash := match last (ss_Turns s) with Some t => tn_Hash t | None => "" end in
  let* (s, _) := saveCheckpointLocked (fresh 0) s
    (phase_checkpoint turnSequence CheckpointCompactionBegin eventHash "" (se_ContextVersion (ss_Session s))
       "compaction pending") in
  let* (s, archive) := compactLocked (fresh 1) s q in
  let sourceTokens := foldl (λ n t, if in_window (cq_StartSequence q) (cq_EndSequence q) t
                                    then add64 n (EstimateTokens (tn_Content t)) else n) 0%Z (ss_Turns s) in
  reject ((16 <=? sourceTokens)%Z && (sourceTokens <=? EstimateTokens (aw_Summary archive))%Z)
    (Errorf "compaction summary does not reduce token estimate" []) ;;;
  let* (s, _) := saveCheckpointLocked (fresh 2) s
    (phase_checkpoint turnSequence CheckpointCompactionDone eventHash "" (se_ContextVersion (ss_Session s))
       "compaction committed") in
  Ok (s, archive).

(** [automaticSummary]: [n] is [builder.Len()], in bytes; limits are in runes. *)
Definition summary_line (t : Turn) : string :=
  "[" +:+ pretty (tn_Sequence t) +:+ " " +:+ tn_Role t +:+ "] " +:+ TrimSpace (tn_Content t) +:+ line_break.
Fixpoint summary_lines (maxRunes : Z) (built : string) (turns : list Turn) : string :=
  match turns with
  | [] => built
  | t :: rest =>
      let remaining := (maxRunes - Z.of_nat (String.length built))%Z in
      if (remaining <=? 0)%Z then built
      else
        let line := summary_line t in
        let line := if (remaining <? Z.of_nat (rune_count line))%Z && (4 <? remaining)%Z
                    then string_of_runes (take (Z.to_nat (remaining - 4)) (rune_list line)) +:+ "..." +:+ line_break
                    else line in
        summary_lines maxRunes (built +:+ line) rest
  end.
Definition summary_limit (turns : list Turn) (budget : Z) : Z :=
  let sourceRunes := foldl (λ n t, n + Z.of_nat (rune_count (tn_Content t)) + 24)%Z 0%Z turns in
  let maxRunes := (sourceRunes / 3)%Z in
  let budgetRunes := wrap64 (budget * 2) in
  let maxRunes := if (0 <? budgetRunes)%Z && (budgetRunes <? maxRunes)%Z then budgetRunes else maxRunes in
  Z.min 12000 (Z.max 96 maxRunes).
Definition automaticSummary (turns : list Turn) (budget : Z) : string :=
  TrimSpace (summary_lines (summary_limit turns budget)
    ("Auto-archived transcript; full turns remain available for replay." +:+ line_break) turns).

(** The first run of turns that no archive covers. *)
Fixpoint active_turns (archives : list ArchiveWindow) (started : bool) (turns : list Turn) : list Turn :=
  match turns with
  | [] => []
  | t :: rest =>
      if turnArchived archives (tn_Sequence t)
      then if started then [] else active_turns archives false rest
      else t :: active_turns archives true rest
  end.

Definition estimate_turns (tk : Tokenizer) (turns : list Turn) : Z :=
  foldl (λ n t, add64 n (tk_Estimate tk (tn_Content t))) 0%Z turns.
Definition turn_block (tk : Tokenizer) (t : Turn) : Block :=
  {| b_ID := tn_ID t; b_Kind := "turn"; b_Source := tn_ID t; b_Content := tn_Content t; b_Hash := "";
     b_Policy := "transcript"; b_Trust := "hash_chain"; b_SelectionReason := "automatic_compaction";
     b_TokenEstimate := tk_Estimate tk (tn_Content t); b_Mandatory := false; b_Metadata := ∅ |}.

Definition semantic_record (algorithm : string) (sources : list string) (target : Z) (retained dropped : list string)
    (quality : spec_float) (reason : string) : CompressionRecord :=
  {| cr_SourceBlockIDs := sources; cr_Algorithm := algorithm; cr_Version := "v1"; cr_SourceHash := "";
     cr_SummaryHash := ""; cr_TargetTokens := target; cr_RetainedFacts := retained; cr_DroppedFacts := dropped;
     cr_QualityScore := quality; cr_FallbackReason := reason; cr_DroppedReason := ""; cr_OverflowReason := "";
     cr_ReplayKey := "" |}.

(** The summary of the selected turns and its record: the summarizer's, or the
    deterministic one with the reason. *)
Definition summarize_turns (sm : Summarizer) (tk : Tokenizer) (budget : Z) (selected : list Turn) (start stop : Z)
    (selectedTokens : Z) : string * CompressionRecord :=
  let target := Z.max 16 (selectedTokens ÷ 3) in
  let target := if (0 <? budget)%Z && (budget ÷ 2 <? target)%Z then (budget ÷ 2)%Z else target in
  let answer := sm {| sq_Blocks := turn_block tk <$> selected; sq_TargetTokens := target; sq_TokenizerID := tk_ID tk;
                      sq_Estimate := tk_Estimate tk |} in
  let retained := match answer with inl r => sr_RetainedFacts r | inr _ => [] end in
  let dropped := match answer with inl r => sr_DroppedFacts r | inr _ => [] end in
  let quality := match answer with inl r => sr_QualityScore r | inr _ => S754_zero false end in
  let summary := match answer with inl r => TrimSpace (sr_Content r) | inr _ => "" end in
  let fallback reason :=
    let summary := automaticSummary selected budget in
    (summary, semantic_record "deterministic-extractive-fallback" (turnIDs selected) (tk_Estimate tk summary) retained
                dropped (summaryCoverage selected start stop summary) reason) in
  match answer with
  | inr message => fallback ("summarizer_failed: " +:+ message)
  | inl _ =>
      if SFltb quality quality_threshold then fallback "summary_quality_below_threshold"
      else if (summary ≟ "") || (selectedTokens <=? tk_Estimate tk summary)%Z then fallback "summary_did_not_reduce"
      else (summary, semantic_record "semantic-extractive" (turnIDs selected) (tk_Estimate tk summary) retained dropped
                       quality "")
  end.

Definition auto_threshold (s : Session) : spec_float :=
  let threshold := se_CompactionThreshold s in
  if SFleb threshold (S754_zero false) || SFltb float_one threshold then four_fifths else threshold.
Definition auto_tokenizer (tk : Tokenizer) : Tokenizer := if blank (tk_ID tk) then Rune4Tokenizer else tk.

(** The window [autoCompactLocked] archives, when it archives one. *)
Definition auto_window (tk : Tokenizer) (s : sessionState) : option (list Turn) :=
  let session := ss_Session s in
  let total := estimate_turns tk (filter (λ t, turnArchived (ss_Archives s) (tn_Sequence t) = false) (ss_Turns s)) in
  if SFleb (float64_of_Z total) (SFmul 53 1024 (float64_of_Z (se_BudgetTokens session)) (auto_threshold session))
  then None
  else
    let retain := Z.to_nat (Z.max 1 (se_CompactionRetainTail session)) in
    let active := active_turns (ss_Archives s) false (ss_Turns s) in
    if (length active <=? retain)%nat then None
    else
      let selected := take (length active - retain) active in
      if (estimate_turns tk selected <? 16)%Z then None else Some selected.

Definition autoCompactLocked (fresh : nat → Stamp) (sm : Summarizer) (tk : Tokenizer) (s : sessionState)
    : result (sessionState * option ArchiveWindow) :=
  let session := ss_Session s in
  if negb (se_AutoCompaction session) || (se_BudgetTokens session <=? 0)%Z || bool_decide (ss_Turns s = [])
  then Ok (s, None)
  else
    let tk := auto_tokenizer tk in
    match auto_window tk s with
    | None => Ok (s, None)
    | Some selected =>
        let start := match head selected with Some t => tn_Sequence t | None => 0%Z end in
        let stop := match last selected with Some t => tn_Sequence t | None => 0%Z end in
        let '(summary, record) :=
          summarize_turns sm tk (se_BudgetTokens session) selected start stop (estimate_turns tk selected) in
        let eventHash := match last (ss_Turns s) with Some t => tn_Hash t | None => "" end in
        let turnSequence := Z.of_nat (length (ss_Turns s)) in
        let* (s, _) := saveCheckpointLocked (fresh 0) s
          (phase_checkpoint turnSequence CheckpointCompactionBegin eventHash "" (se_ContextVersion session)
             "automatic compaction pending") in
        let* (s, archive) := compactLocked (fresh 1) s
          {| cq_StartSequence := start; cq_EndSequence := stop; cq_Summary := summary;
             cq_RetainedTail := Z.max 1 (se_CompactionRetainTail session); cq_Reason := "automatic budget guard";
             cq_compression := record |} in
        let* (s, _) := saveCheckpointLocked (fresh 2) s
          (phase_checkpoint turnSequence CheckpointCompactionDone eventHash "" (se_ContextVersion (ss_Session s))
             "automatic compaction committed") in
        Ok (s, Some archive)
    end.

(** ** Turns *)

Definition seal_turn (stamp : Stamp) (turns : list Turn) (t : Turn) : Turn :=
  let id := TrimSpace (tn_ID t) in
  let t := tn_stamped (if id ≟ "" then st_id stamp else id) (Z.of_nat (length turns) + 1)
             (match last turns with Some l => tn_Hash l | None => "" end) (tn_Hash t) (st_now stamp) t in
  tn_with_Hash (hashTurn t) t.

(** The common part of [AppendTurn] and [appendTurnLocked]: the session, the turn,
    and whether it was added (a turn under a known idempotency key is not). *)
Definition append_turn (fresh : nat → Stamp) (sm : Summarizer) (tk : Tokenizer) (s : sessionState) (sessionID : string)
    (t : Turn) : result (sessionState * Turn * bool) :=
  reject ((tn_Role t ≟ "") || negb (validRole (tn_Role t)) || blank (tn_Content t))
    (Errorf "role and content are required" []) ;;;
  let t := if tn_SessionID t ≟ "" then tn_with_SessionID sessionID t else t in
  reject (tn_SessionID t ≠? sessionID) ErrConflict ;;;
  let known := if tn_IdempotencyKey t ≟ "" then None
               else find (λ e, tn_IdempotencyKey e ≟ tn_IdempotencyKey t) (ss_Turns s) in
  match known with
  | Some existing =>
      reject (turnDigest existing ≠? turnDigest t) ErrConflict ;;;
      Ok (s, existing, false)
  | None =>
      reject (negb (tn_Sequence t =? 0)%Z && (tn_Sequence t ≠? (Z.of_nat (length (ss_Turns s)) + 1)%Z)) ErrConflict ;;;
      let t := seal_turn (fresh 0) (ss_Turns s) t in
      let s := ss_with_Session (se_touched (tn_CreatedAt t) (ss_Session s)) (ss_with_Turns (ss_Turns s ++ [t]) s) in
      let* (s, _) := wrap_err "auto compact turn: %w" []
        (autoCompactLocked (λ i, fresh (Datatypes.S i)) sm tk s) in
      Ok (s, t, true)
  end.

Definition appendTurnLocked (fresh : nat → Stamp) (sm : Summarizer) (tk : Tokenizer) (s : sessionState)
    (sessionID : string) (t : Turn) : result (sessionState * Turn * bool) :=
  reject (se_ID (ss_Session s) ≠? sessionID) ErrNotFound ;;;
  append_turn fresh sm tk s sessionID t.

(** [migrateCheckpointChains], one session. *)
Definition migrate_checkpoint (acc : list Checkpoint * string) (i : nat) (c : Checkpoint)
    : result (list Checkpoint * string) :=
  reject ((ck_Hash c ≟ "") || (hashCheckpoint c ≠? ck_Hash c)) (Wrapf "%w: checkpoint %s" [ck_ID c] ErrCorrupt) ;;;
  let c := if (ck_PrevHash c ≟ "") && (0 <? i)%nat
           then let c := ck_stamped (ck_ID c) (ck_SessionID c) (snd acc) (ck_Hash c) (ck_CreatedAt c) c in
                ck_with_Hash (hashCheckpoint c) c
           else c in
  Ok (fst acc ++ [c], ck_Hash c).
Definition migrate_session (s : sessionState) : result sessionState :=
  let* acc := fold_each_from 0 migrate_checkpoint ([], "") (ss_Checkpoints s) in
  Ok (ss_with_Checkpoints (fst acc) s).
End session.
