(* ===== verification/HarnessStore.v ===== *)
(** * HarnessStore: the durable store of harness sessions

    Models the store of internal/harness/store.go: the snapshot file with its
    crash journal and the append-only transcript, [New] with its recovery
    ([readLastJournal], [migrateCheckpointChains], [reconcileTranscript]),
    [persistLocked] with its optimistic revision check, and the operations on
    sessions, turns, tool calls, compactions, memories, leases and the outbox, and
    the context compiler's adapter.

    A [World] is a process's store and the three files.  What an operation meets
    (clock, ids, faults of each file operation) is its [Io].  Strings are valid
    UTF-8, so that JSON reads back what it wrote; what it does not read back is
    written out: the [json:"-"] field and the white space of raw payloads. *)
From stdpp Require Import base strings gmap list pretty sorting.
From Stdlib Require Import ZArith Lia Ascii SpecFloat.
From S2P Require Import Prelude GoLib GoStrings GoValue GoJson ContextModel ContextCompiler Harness.

(** ** Files *)

Record persistedState := {
  pst_Version : Z; pst_Revision : Z; pst_Sessions : gmap string sessionState;
  pst_ProjectMemories : gmap string (list MemoryItem) }.
Definition harnessStateVersion : Z := 4.

Record transcriptRecord := { tr_Version : Z; tr_SessionID : string; tr_Turn : Turn }.

(** The snapshot file: absent, not decodable, or a state. *)
Inductive SnapFile := SnapAbsent | SnapGarbled (e : error) | Snap (p : persistedState).

(** A file of JSON lines: the complete lines ([None] does not decode) and what
    follows the last newline. *)
Record LogFile (T : Type) := { lf_lines : list (option T); lf_tail : option (option T) }.
Arguments lf_lines {T} _.
Arguments lf_tail {T} _.
Arguments Build_LogFile {T} _ _.

Record Files := {
  fl_snapshot : SnapFile; fl_journal : option (LogFile persistedState); fl_transcript : option (LogFile transcriptRecord) }.
Definition no_files : Files := {| fl_snapshot := SnapAbsent; fl_journal := None; fl_transcript := None |}.

(** What an interrupted write left: whole lines, then nothing, a part of the next
    line ([Some false]) or all of it but its newline ([Some true]). *)
Record Partial := { pa_whole : nat; pa_tail : option bool }.
(** A failed append: before the file was opened ([None]) or while writing. *)
Definition AppendFault := option (error * option Partial).

Section log.
Context {T : Type}.

(** [nonEmptyLines]. *)
Definition log_records (f : LogFile T) : list (option T) :=
  lf_lines f ++ match lf_tail f with Some r => [r] | None => [] end.
Definition log_open (f : option (LogFile T)) : LogFile T := default (Build_LogFile [] None) f.
(** An append; a line without its newline runs into the first record. *)
Definition log_append (f : LogFile T) (xs : list T) : LogFile T :=
  match lf_tail f, xs with
  | None, _ => Build_LogFile (lf_lines f ++ (Some <$> xs)) None
  | Some _, [] => f
  | Some _, _ :: xs' => Build_LogFile (lf_lines f ++ None :: (Some <$> xs')) None
  end.
Definition log_partial (f : LogFile T) (xs : list T) (p : Partial) : LogFile T :=
  let g := log_append f (take (pa_whole p) xs) in
  match pa_tail p, drop (pa_whole p) xs with
  | Some whole, x :: _ =>
      Build_LogFile (lf_lines g) (Some (match lf_tail g with None => if whole then Some x else None | Some _ => None end))
  | _, _ => g
  end.
(** [appendJournal], [appendTranscript] and [appendTranscriptBatch] on the file. *)
Definition log_write (fault : AppendFault) (f : option (LogFile T)) (xs : list T) : option (LogFile T) * result unit :=
  match fault with
  | None => (Some (log_append (log_open f) xs), Ok tt)
  | Some (e, None) => (f, Err e)
  | Some (e, Some p) => (Some (log_partial (log_open f) xs p), Err e)
  end.
End log.

(** What a raw JSON value reads back as after [MarshalIndent] and after [Marshal]. *)
Class RawJson := { raw_indent : string → string; raw_compact : string → string }.

Definition ob_with_Payload (p : string) (e : OutboxEvent) : OutboxEvent :=
  {| ob_ID := ob_ID e; ob_SessionID := ob_SessionID e; ob_IdempotencyKey := ob_IdempotencyKey e; ob_Payload := p;
     ob_State := ob_State e; ob_Attempts := ob_Attempts e; ob_Owner := ob_Owner e; ob_LeaseUntil := ob_LeaseUntil e;
     ob_NextAttemptAt := ob_NextAttemptAt e; ob_PublishedAt := ob_PublishedAt e; ob_CreatedAt := ob_CreatedAt e |}.
(** A session as its encoding reads back. *)
Definition reread_session (raw : string → string) (s : sessionState) : sessionState :=
  ss_with_Session (se_with_Set false (ss_Session s))
    (ss_with_Outbox ((λ e, ob_with_Payload (raw (ob_Payload e)) e) <$> ss_Outbox s) s).
Definition reread (raw : string → string) (p : persistedState) : persistedState :=
  {| pst_Version := pst_Version p; pst_Revision := pst_Revision p; pst_Sessions := reread_session raw <$> pst_Sessions p;
     pst_ProjectMemories := pst_ProjectMemories p |}.

(** ** The store *)

Record Store := {
  hs_path : string; hs_sessions : gmap string sessionState; hs_projectMemories : gmap string (list MemoryItem);
  hs_revision : Z; hs_summarizer : Summarizer; hs_tokenizer : Tokenizer }.
Record World := { hw_store : Store; hw_files : Files }.

Record Io := {
  hi_fresh : nat → Stamp;                 (* [domain.NewID] and [time.Now], numbered *)
  hi_read_snapshot : option error;        (* reading a file fails, though it exists *)
  hi_read_journal : option error;
  hi_read_transcript : option error;
  hi_lock : option error;                 (* the lock of the snapshot cannot be taken *)
  hi_before : option error;               (* the temporary file cannot be written *)
  hi_journal : AppendFault;               (* the append to the crash journal *)
  hi_rename : option error;               (* before the rename *)
  hi_sync : option error;                 (* after the rename *)
  hi_kept : bool;                         (* the journal cannot be removed *)
  hi_transcript : nat → AppendFault }.    (* the appends to the transcript, numbered *)

Definition Durable (s : Store) : bool := hs_path s ≠? "".

Definition hs_with (sessions : gmap string sessionState) (projects : gmap string (list MemoryItem)) (s : Store) : Store :=
  {| hs_path := hs_path s; hs_sessions := sessions; hs_projectMemories := projects; hs_revision := hs_revision s;
     hs_summarizer := hs_summarizer s; hs_tokenizer := hs_tokenizer s |}.
Definition hs_with_revision (n : Z) (s : Store) : Store :=
  {| hs_path := hs_path s; hs_sessions := hs_sessions s; hs_projectMemories := hs_projectMemories s; hs_revision := n;
     hs_summarizer := hs_summarizer s; hs_tokenizer := hs_tokenizer s |}.
Definition with_store (f : Store → Store) (w : World) : World :=
  {| hw_store := f (hw_store w); hw_files := hw_files w |}.
(** [s.sessions[id] = state]. *)
Definition put_session (id : string) (state : sessionState) : World → World :=
  with_store (λ s, hs_with (<[id := state]> (hs_sessions s)) (hs_projectMemories s) s).
Definition drop_session (id : string) : World → World :=
  with_store (λ s, hs_with (delete id (hs_sessions s)) (hs_projectMemories s) s).
Definition put_projects (id : string) (items : list MemoryItem) : World → World :=
  with_store (λ s, hs_with (hs_sessions s) (<[id := items]> (hs_projectMemories s)) s).
Definition with_files (f : Files) (w : World) : World := {| hw_store := hw_store w; hw_files := f |}.
Definition session_of (w : World) (id : string) : option sessionState := hs_sessions (hw_store w) !! id.
Definition projects_of (w : World) (id : string) : list MemoryItem := default [] (hs_projectMemories (hw_store w) !! id).
Definition touch (now : Time) (s : sessionState) : sessionState := ss_with_Session (se_touched now (ss_Session s)) s.

Section store.
Context `{!Sha256, !JsonMarshal Turn, !JsonMarshal Checkpoint, !JsonMarshal persistedState, !JsonMarshal value}.
Context `{!UnicodeCase, !RawJson, !MapRange, !SliceSort}.

(** [persistedRevision]. *)
Definition persistedRevision (io : Io) (f : Files) : result Z :=
  match hi_read_snapshot io, fl_snapshot f with
  | _, SnapAbsent => Ok 0%Z
  | Some e, _ => Err (Wrapf "read harness revision: %w" [] e)
  | None, SnapGarbled e => Err (Wrapf "decode harness revision: %w" [] e)
  | None, Snap p => Ok (pst_Revision p)
  end.

Definition next_state (s : Store) : persistedState :=
  {| pst_Version := harnessStateVersion; pst_Revision := add64 (hs_revision s) 1; pst_Sessions := hs_sessions s;
     pst_ProjectMemories := hs_projectMemories s |}.

(** The write of a state whose revision was checked: the files and the outcome. *)
Definition write_state (io : Io) (f : Files) (state : persistedState) : Files * result unit :=
  match hi_before io with
  | Some e => (f, Err e)
  | None =>
      let '(journal, appended) := log_write (hi_journal io) (fl_journal f) [reread raw_compact state] in
      let f := {| fl_snapshot := fl_snapshot f; fl_journal := journal; fl_transcript := fl_transcript f |} in
      match appended, hi_rename io, hi_sync io with
      | Err e, _, _ => (f, Err e)
      | Ok _, Some e, _ => (f, Err e)
      | Ok _, None, Some e =>
          ({| fl_snapshot := Snap (reread raw_indent state); fl_journal := journal; fl_transcript := fl_transcript f |}, Err e)
      | Ok _, None, None =>
          ({| fl_snapshot := Snap (reread raw_indent state); fl_journal := if hi_kept io then journal else None;
              fl_transcript := fl_transcript f |}, Ok tt)
      end
  end.

Definition persistLocked (io : Io) (w : World) : World * result unit :=
  let s := hw_store w in
  if hs_path s ≟ "" then (w, Ok tt) else
  match hi_lock io with
  | Some e => (w, Err e)
  | None =>
      match persistedRevision io (hw_files w) with
      | Err e => (w, Err e)
      | Ok disk =>
          if disk ≠? hs_revision s
          then (w, Err (Wrapf "%w: expected revision %d, found %d" [pretty (hs_revision s); pretty disk] ErrConflict))
          else
            let state := next_state s in
            match json_marshal state with
            | None => (w, Err (Errorf "json.Marshal" []))
            | Some _ =>
                match write_state io (hw_files w) state with
                | (f, Err e) => (with_files f w, Err e)
                | (f, Ok _) => (with_store (hs_with_revision (pst_Revision state)) (with_files f w), Ok tt)
                end
            end
      end
  end.

Definition Flush (io : Io) (w : World) : World * result unit := persistLocked io w.

(** Persist a changed session, or put [restore] back under the message. *)
Definition save_session (io : Io) (w : World) (id : string) (state restore : sessionState) (message : string)
    : World * result unit :=
  match persistLocked io (put_session id state w) with
  | (w, Err e) => (put_session id restore w, Err (Wrapf message [] e))
  | (w, Ok _) => (w, Ok tt)
  end.

(** The [k]-th append to the transcript. *)
Definition appendTranscriptBatch (io : Io) (k : nat) (w : World) (turns : list Turn) : World * result unit :=
  if (hs_path (hw_store w) ≟ "") || bool_decide (turns = []) then (w, Ok tt) else
  let record t := {| tr_Version := 1; tr_SessionID := tn_SessionID t; tr_Turn := t |} in
  let f := hw_files w in
  let '(transcript, r) := log_write (hi_transcript io k) (fl_transcript f) (record <$> turns) in
  (with_files {| fl_snapshot := fl_snapshot f; fl_journal := fl_journal f; fl_transcript := transcript |} w, r).
Definition appendTranscript (io : Io) (k : nat) (w : World) (t : Turn) : World * result unit :=
  appendTranscriptBatch io k w [t].

(** ** Opening a store *)

(** The last state that decodes; only the last line may fail to. *)
Fixpoint last_journal (i : nat) (latest : option persistedState) (lines : list (option persistedState))
    : result (option persistedState) :=
  match lines with
  | [] => Ok latest
  | [None] => Ok latest
  | None :: _ => Err (Wrapf "%w: journal record %d: %v" [itoa (i + 1)] ErrCorrupt)
  | Some p :: rest => last_journal (Datatypes.S i) (Some p) rest
  end.
Definition readLastJournal (io : Io) (f : Files) : result (option persistedState) :=
  match fl_journal f, hi_read_journal io with
  | None, _ => Ok None
  | Some _, Some e => Err e
  | Some l, None => last_journal 0 None (log_records l)
  end.

Definition check_record (records : gmap string (list Turn)) (i : nat) (r : transcriptRecord) : result (gmap string (list Turn)) :=
  let t := tr_Turn r in
  reject ((tr_Version r ≠? 1%Z) || blank (tr_SessionID r) || (tn_SessionID t ≠? tr_SessionID r) || (tn_Hash t ≟ ""))
    (Wrapf "%w: invalid transcript record at line %d" [itoa (i + 1)] ErrCorrupt) ;;;
  reject (hashTurn t ≠? tn_Hash t) (Wrapf "%w: transcript turn %s hash mismatch" [tn_ID t] ErrCorrupt) ;;;
  let items := default [] (records !! tr_SessionID r) in
  reject (tn_Sequence t ≠? (Z.of_nat (length items) + 1)%Z)
    (Wrapf "%w: transcript sequence for session %s is %d" [tr_SessionID r; pretty (tn_Sequence t)] ErrCorrupt) ;;;
  reject (match last items with Some l => tn_PrevHash t ≠? tn_Hash l | None => false end)
    (Wrapf "%w: transcript prev_hash for session %s is invalid" [tr_SessionID r] ErrCorrupt) ;;;
  Ok (<[tr_SessionID r := items ++ [t]]> records).
Fixpoint read_records (i : nat) (records : gmap string (list Turn)) (lines : list (option transcriptRecord))
    : result (gmap string (list Turn)) :=
  match lines with
  | [] => Ok records
  | [None] => Ok records
  | None :: _ => Err (Wrapf "%w: transcript line %d: %v" [itoa (i + 1)] ErrCorrupt)
  | Some r :: rest => let* records := check_record records i r in read_records (Datatypes.S i) records rest
  end.
(** [None] when there is no file. *)
Definition readTranscript (io : Io) (f : Files) : result (option (gmap string (list Turn))) :=
  match fl_transcript f, hi_read_transcript io with
  | None, _ => Ok None
  | Some _, Some e => Err e
  | Some l, None => let* records := read_records 0 ∅ (log_records l) in Ok (Some records)
  end.

(** One [appendTranscript] per turn, numbered from [k]. *)
Fixpoint append_each (io : Io) (k : nat) (w : World) (turns : list Turn) : nat * World * result unit :=
  match turns with
  | [] => (k, w, Ok tt)
  | t :: rest =>
      match appendTranscript io k w t with
      | (w, Err e) => (Datatypes.S k, w, Err e)
      | (w, Ok _) => append_each io (Datatypes.S k) w rest
      end
  end.

Definition same_turn (t logged : Turn) : bool :=
  (turnDigest t ≟ turnDigest logged) && (tn_Hash t ≟ tn_Hash logged) && (tn_PrevHash t ≟ tn_PrevHash logged).
Fixpoint diverges (i : nat) (turns logged : list Turn) : option nat :=
  match turns, logged with
  | [], _ => None
  | t :: turns', l :: logged' => if same_turn t l then diverges (Datatypes.S i) turns' logged' else Some i
  | _ :: _, [] => Some i
  end.

(** The body of the loop over the transcript's sessions. *)
Definition reconcile_session (io : Io) (k : nat) (w : World) (id : string) (logged : list Turn)
    : nat * bool * World * result unit :=
  match session_of w id with
  | None => (k, false, w, Err (Wrapf "%w: transcript references unknown session %s" [id] ErrCorrupt))
  | Some s =>
      let ahead := (length (ss_Turns s) <? length logged)%nat in
      let s := if ahead
               then let s := ss_with_Turns (ss_Turns s ++ drop (length (ss_Turns s)) logged) s in
                    match last logged with Some l => touch (tn_CreatedAt l) s | None => s end
               else s in
      let w := if ahead then put_session id s w else w in
      let missing := drop (length logged) (ss_Turns s) in
      match append_each io k w missing with
      | (k, w, Err e) => (k, ahead, w, Err e)
      | (k, w, Ok _) =>
          (k, ahead, w,
           match diverges 0 (ss_Turns s) (logged ++ missing) with
           | Some i => Err (Wrapf "%w: transcript diverges at session %s sequence %d" [id; itoa (i + 1)] ErrCorrupt)
           | None => Ok tt
           end)
      end
  end.
Fixpoint reconcile_sessions (io : Io) (k : nat) (changed : bool) (w : World) (records : list (string * list Turn))
    : nat * bool * World * result unit :=
  match records with
  | [] => (k, changed, w, Ok tt)
  | (id, logged) :: rest =>
      match reconcile_session io k w id logged with
      | (k, c, w, Err e) => (k, changed || c, w, Err e)
      | (k, c, w, Ok _) => reconcile_sessions io k (changed || c) w rest
      end
  end.

Definition reconcileTranscript (io : Io) (w : World) : World * result unit :=
  match readTranscript io (hw_files w) with
  | Err e => (w, Err (Wrapf "read transcript: %w" [] e))
  | Ok None =>
      let '(_, w, r) := append_each io 0 w (range_values (hs_sessions (hw_store w)) ≫= ss_Turns) in (w, r)
  | Ok (Some records) =>
      match reconcile_sessions io 0 false w (range records) with
      | (_, _, w, Err e) => (w, Err e)
      | (k, changed, w, Ok _) =>
          let unlogged := filter (λ p : string * sessionState, records !! p.1 = None) (range (hs_sessions (hw_store w))) in
          match append_each io k w (unlogged.*2 ≫= ss_Turns) with
          | (_, w, Err e) => (w, Err e)
          | (_, w, Ok _) =>
              if negb changed then (w, Ok tt)
              else match check_each (λ _ p, wrap_err "validate reconciled session %s: %w" [fst p] (validateSessionState (snd p)))
                           (range (hs_sessions (hw_store w))) with
                   | Err e => (w, Err e)
                   | Ok _ =>
                       match persistLocked io w with
                       | (w, Err e) => (w, Err (Wrapf "persist reconciled transcript state: %w" [] e))
                       | (w, Ok _) => (w, Ok tt)
                       end
                   end
          end
      end
  end.

(** Project memories are checked like a session's. *)
Definition check_project_memory (project : string) (seen : list string) (_ : nat) (m : MemoryItem) : result (list string) :=
  reject ((mi_ID m ≟ "") || (mi_Scope m ≠? "project") || (mi_ProjectID m ≠? project) || memory_broken m)
    (Wrapf "%w: project memory %s" [mi_ID m] ErrCorrupt) ;;;
  reject (contains seen (mi_ID m)) (Wrapf "%w: duplicate project memory %s" [mi_ID m] ErrCorrupt) ;;;
  reject (evidence_broken m) (Wrapf "%w: project memory evidence %s" [mi_ID m] ErrCorrupt) ;;;
  Ok (mi_ID m :: seen).
Definition check_project (_ : nat) (p : string * list MemoryItem) : result unit :=
  reject (blank (fst p)) (Wrapf "%w: project memory has empty project id" [] ErrCorrupt) ;;;
  fold_each_from 0 (check_project_memory (fst p)) [] (snd p) ;;; Ok tt.

(** The upgrades of records that predate memory scopes. *)
Definition scope_session (s : sessionState) : sessionState :=
  ss_with_Memories ((λ m, if blank (mi_Scope m) then mi_with_Scope "session" (mi_ProjectID m) m else m) <$> ss_Memories s) s.
Definition scope_projects (project : string) (items : list MemoryItem) : option (list MemoryItem) :=
  Some ((λ m, mi_with_Scope "project" (if mi_ProjectID m ≟ "" then project else mi_ProjectID m) m) <$> items).

Definition migrateCheckpointChains (sessions : gmap string sessionState) : result (gmap string sessionState) :=
  fold_each_from 0 (λ m _ p, let* s := migrate_session (snd p) in Ok (<[fst p := s]> m)) sessions (range sessions).

(** The state [New] starts from: the journal's, or the snapshot's, or none. *)
Definition load_state (io : Io) (f : Files) : result (option persistedState) :=
  reject (match hi_read_snapshot io, fl_snapshot f with Some _, SnapAbsent => false | Some _, _ => true | None, _ => false end)
    (Wrapf "read harness state: %w" [] (default (Errorf "" []) (hi_read_snapshot io))) ;;;
  let* journal := wrap_err "read harness journal: %w" [] (readLastJournal io f) in
  match journal, fl_snapshot f with
  | Some p, _ => Ok (Some p)
  | None, SnapGarbled e => Err (Wrapf "decode harness state: %w" [] e)
  | None, Snap p => Ok (Some p)
  | None, SnapAbsent =>
      reject (bool_decide (is_Some (fl_transcript f)))
        (Wrapf "%w: transcript exists without a session snapshot" [] ErrCorrupt) ;;; Ok None
  end.

Definition load_store (path : string) (p : persistedState) : result Store :=
  reject (harnessStateVersion <? pst_Version p)%Z (Errorf "unsupported harness state version %d" [pretty (pst_Version p)]) ;;;
  let* sessions := if (pst_Version p <? harnessStateVersion)%Z then migrateCheckpointChains (pst_Sessions p)
                   else Ok (pst_Sessions p) in
  let sessions := scope_session <$> sessions in
  let projects := map_imap scope_projects (pst_ProjectMemories p) in
  check_each (λ _ p, wrap_err "validate session %s: %w" [fst p] (validateSessionState (snd p))) (range sessions) ;;;
  check_each check_project (range projects) ;;;
  Ok {| hs_path := path; hs_sessions := sessions; hs_projectMemories := projects; hs_revision := pst_Revision p;
        hs_summarizer := Summarize; hs_tokenizer := Rune4Tokenizer |}.

Definition empty_store (path : string) : Store :=
  {| hs_path := path; hs_sessions := ∅; hs_projectMemories := ∅; hs_revision := 0; hs_summarizer := Summarize;
     hs_tokenizer := Rune4Tokenizer |}.

(** [New]: the files it leaves and the store. *)
Definition New (io : Io) (path : string) (f : Files) : Files * result Store :=
  let path := TrimSpace path in
  if path ≟ "" then (f, Ok (empty_store path)) else
  match load_state io f with
  | Err e => (f, Err e)
  | Ok None => (f, Ok (empty_store path))
  | Ok (Some p) =>
      match load_store path p with
      | Err e => (f, Err e)
      | Ok s =>
          match reconcileTranscript io {| hw_store := s; hw_files := f |} with
          | (w, Err e) => (hw_files w, Err e)
          | (w, Ok _) => (hw_files w, Ok (hw_store w))
          end
      end
  end.

Definition SetContextSummarizer (sm : option Summarizer) (s : Store) : Store :=
  {| hs_path := hs_path s; hs_sessions := hs_sessions s; hs_projectMemories := hs_projectMemories s;
     hs_revision := hs_revision s; hs_summarizer := default Summarize sm; hs_tokenizer := hs_tokenizer s |}.
Definition SetContextTokenizer (tk : option Tokenizer) (s : Store) : Store :=
  {| hs_path := hs_path s; hs_sessions := hs_sessions s; hs_projectMemories := hs_projectMemories s;
     hs_revision := hs_revision s; hs_summarizer := hs_summarizer s;
     hs_tokenizer := match tk with Some tk => auto_tokenizer tk | None => Rune4Tokenizer end |}.

(** ** Sessions *)

Definition se_prepared (id : string) (threshold : spec_float) (auto : bool) (retain version : Z) (now : Time) (s : Session)
    : Session :=
  {| se_ID := id; se_TenantID := se_TenantID s; se_WorkspaceID := se_WorkspaceID s; se_ProjectID := se_ProjectID s;
     se_BudgetTokens := se_BudgetTokens s; se_AutoCompaction := auto; se_CompactionThreshold := threshold;
     se_CompactionRetainTail := retain; se_AutoCompactionSet := se_AutoCompactionSet s; se_ContextVersion := version;
     se_CreatedAt := now; se_UpdatedAt := now |}.
Definition empty_session (s : Session) : sessionState :=
  {| ss_Session := s; ss_Turns := []; ss_Checkpoints := []; ss_Archives := []; ss_Memories := []; ss_Leases := [];
     ss_Outbox := [] |}.

Definition prepare_session (stamp : Stamp) (s : Session) : result Session :=
  let id := if blank (se_ID s) then st_id stamp else se_ID s in
  reject (blank (se_TenantID s) || blank (se_WorkspaceID s)) (Errorf "tenant_id and workspace_id are required" []) ;;;
  reject (se_BudgetTokens s <? 0)%Z (Errorf "budget_tokens cannot be negative" []) ;;;
  let threshold := if SFleb (se_CompactionThreshold s) (S754_zero false) then four_fifths else se_CompactionThreshold s in
  reject (SFltb float_one threshold) (Errorf "compaction_threshold must be in (0,1]" []) ;;;
  reject (se_CompactionRetainTail s <? 0)%Z (Errorf "compaction_retain_tail cannot be negative" []) ;;;
  let bounded := (0 <? se_BudgetTokens s)%Z in
  let auto := if bounded && negb (se_AutoCompactionSet s) then true else se_AutoCompaction s in
  let retain := if bounded && (se_CompactionRetainTail s =? 0)%Z then 4%Z else se_CompactionRetainTail s in
  Ok (se_prepared id threshold auto retain 1 (st_now stamp) s).

Definition CreateSession (io : Io) (w : World) (session : Session) : World * result Session :=
  match prepare_session (hi_fresh io 0) session with
  | Err e => (w, Err e)
  | Ok s =>
      match session_of w (se_ID s) with
      | Some _ => (w, Err ErrConflict)
      | None =>
          match persistLocked io (put_session (se_ID s) (empty_session s) w) with
          | (w, Err e) => (drop_session (se_ID s) w, Err (Wrapf "persist session: %w" [] e))
          | (w, Ok _) => (w, Ok s)
          end
      end
  end.

Definition owned_session (asked : Session) (s : sessionState) : result Session :=
  let stored := ss_Session s in
  reject (((se_TenantID asked ≠? "") && (se_TenantID stored ≠? se_TenantID asked))
          || ((se_WorkspaceID asked ≠? "") && (se_WorkspaceID stored ≠? se_WorkspaceID asked))) ErrConflict ;;;
  Ok stored.
(** No other request runs between the steps of one operation, so [CreateSession]
    of an absent session does not find it; a persist may still report [ErrConflict]. *)
Definition EnsureSession (io : Io) (w : World) (session : Session) : World * result Session :=
  if blank (se_ID session) then CreateSession io w session else
  match session_of w (se_ID session) with
  | Some s => (w, owned_session session s)
  | None =>
      match CreateSession io w session with
      | (w, Ok s) => (w, Ok s)
      | (w, Err e) =>
          if negb (errors_is (Sentinel "harness" "ErrConflict") e) then (w, Err e)
          else match session_of w (se_ID session) with
               | None => (w, Err e)
               | Some s => (w, owned_session session s)
               end
      end
  end.

Definition GetSession (w : World) (id : string) : result Session :=
  match session_of w id with Some s => Ok (ss_Session s) | None => Err ErrNotFound end.

Definition session_le (a b : Session) : Prop :=
  (se_CreatedAt a < se_CreatedAt b)%Z ∨ se_CreatedAt a = se_CreatedAt b ∧ String.le (se_ID a) (se_ID b).
#[global] Instance session_le_dec : RelDecision session_le.
Proof. intros a b. unfold session_le. apply _. Defined.
Definition ListSessions (w : World) : list Session :=
  slice_sort session_le (ss_Session <$> range_values (hs_sessions (hw_store w))).

(** ** Turns, tool calls, checkpoints, compaction *)

Definition AppendTurn (io : Io) (w : World) (sessionID : string) (t : Turn) : World * result Turn :=
  match session_of w sessionID with
  | None => (w, Err ErrNotFound)
  | Some s =>
      match append_turn (hi_fresh io) (hs_summarizer (hw_store w)) (hs_tokenizer (hw_store w)) s sessionID t with
      | Err e => (w, Err e)
      | Ok (_, t, false) => (w, Ok t)
      | Ok (s', t, true) =>
          match save_session io w sessionID s' s "persist turn: %w" with
          | (w, Err e) => (w, Err e)
          | (w, Ok _) =>
              match appendTranscript io 0 w t with
              | (w, Err e) => (w, Err (Wrapf "persist transcript: %w" [] e))
              | (w, Ok _) => (w, Ok t)
              end
          end
      end
  end.

Definition tool_turn (content name call status key : string) : Turn :=
  {| tn_ID := ""; tn_SessionID := ""; tn_Sequence := 0; tn_AttemptID := ""; tn_Role := RoleTool; tn_Content := content;
     tn_ToolName := name; tn_ToolCallID := call; tn_ToolStatus := status; tn_IdempotencyKey := key; tn_Metadata := ∅;
     tn_PrevHash := ""; tn_Hash := ""; tn_CreatedAt := 0 |}.

(** The tool transaction on a copy of the session: the new session, the turns it
    added and its two checkpoints. *)
Definition tool_transaction (fresh : nat → Stamp) (sm : Summarizer) (tk : Tokenizer) (s : sessionState)
    (sessionID call name before after : string) (version : Z) : result (sessionState * list Turn * list Checkpoint) :=
  let* (s, tb, addedb) := appendTurnLocked fresh sm tk s sessionID
    (tool_turn before name call "before" ("tool:" +:+ call +:+ ":before")) in
  let* (s, cb) := saveCheckpointLocked (fresh 4) s
    (phase_checkpoint (tn_Sequence tb) CheckpointToolBefore (tn_Hash tb) call version "tool started") in
  let* (s, ta, addeda) := appendTurnLocked (λ i, fresh (5 + i)%nat) sm tk s sessionID
    (tool_turn after name call "after" ("tool:" +:+ call +:+ ":after")) in
  let* (s, ca) := saveCheckpointLocked (fresh 9) s
    (phase_checkpoint (tn_Sequence ta) CheckpointToolAfter (tn_Hash ta) call version "tool completed") in
  Ok (s, (if addedb then [tb] else []) ++ (if addeda then [ta] else []), [cb; ca]).

Definition RecordToolCall (io : Io) (w : World) (sessionID callID name input output : string) (contextVersion : Z)
    : World * result (list Checkpoint) :=
  let call := TrimSpace callID in
  let name := TrimSpace name in
  if call ≟ "" then (w, Err (Errorf "tool call id is required" [])) else
  let before := if TrimSpace input ≟ "" then "tool call" else TrimSpace input in
  let after := if TrimSpace output ≟ "" then "tool completed" else TrimSpace output in
  match session_of w sessionID with
  | None => (w, Err ErrNotFound)
  | Some s =>
      let version := if (contextVersion <=? 0)%Z then se_ContextVersion (ss_Session s) else contextVersion in
      if (version <=? 0)%Z then (w, Err (Errorf "context version must be positive" [])) else
      match tool_transaction (hi_fresh io) (hs_summarizer (hw_store w)) (hs_tokenizer (hw_store w)) s sessionID call name
              before after version with
      | Err e => (w, Err e)
      | Ok (s', added, cps) =>
          if bool_decide (added = []) && (length (ss_Checkpoints s') =? length (ss_Checkpoints s))%nat then (w, Ok cps)
          else match save_session io w sessionID s' s "persist tool call: %w" with
               | (w, Err e) => (w, Err e)
               | (w, Ok _) =>
                   match appendTranscriptBatch io 0 w added with
                   | (w, Err e) => (w, Err (Wrapf "persist tool transcript: %w" [] e))
                   | (w, Ok _) => (w, Ok cps)
                   end
               end
      end
  end.

Definition ListTurns (w : World) (sessionID : string) (after limit : Z) : result (list Turn * Z) :=
  match session_of w sessionID with
  | None => Err ErrNotFound
  | Some s =>
      let limit := if (limit <=? 0)%Z || (500 <? limit)%Z then 100 else Z.to_nat limit in
      let items := take limit (filter (λ t, (after < tn_Sequence t)%Z) (ss_Turns s)) in
      Ok (items, if (length items =? limit)%nat then match last items with Some t => tn_Sequence t | None => 0%Z end else 0%Z)
  end.

Definition SaveCheckpoint (io : Io) (w : World) (sessionID : string) (c : Checkpoint) : World * result Checkpoint :=
  match session_of w sessionID with
  | None => (w, Err ErrNotFound)
  | Some s =>
      match saveCheckpointLocked (hi_fresh io 0) s c with
      | Err e => (w, Err e)
      | Ok (s', saved) =>
          match save_session io w sessionID s' s "persist checkpoint: %w" with
          | (w, Err e) => (w, Err e)
          | (w, Ok _) => (w, Ok saved)
          end
      end
  end.
Definition ListCheckpoints (w : World) (sessionID : string) : result (list Checkpoint) :=
  match session_of w sessionID with Some s => Ok (ss_Checkpoints s) | None => Err ErrNotFound end.

Definition Compact (io : Io) (w : World) (sessionID : string) (q : CompactRequest) : World * result ArchiveWindow :=
  match session_of w sessionID with
  | None => (w, Err ErrNotFound)
  | Some s =>
      match compact_session (hi_fresh io) s q with
      | Err e => (w, Err e)
      | Ok (s', archive) =>
          match save_session io w sessionID s' s "persist compaction: %w" with
          | (w, Err e) => (w, Err e)
          | (w, Ok _) => (w, Ok archive)
          end
      end
  end.
Definition ListArchives (w : World) (sessionID : string) : result (list ArchiveWindow) :=
  match session_of w sessionID with Some s => Ok (ss_Archives s) | None => Err ErrNotFound end.

(** ** Memories *)

Definition memoryActive (m : MemoryItem) (now : Time) : bool :=
  (mi_Status m ≟ "confirmed") && match mi_ExpiresAt m with Some t => After t now | None => true end.
Definition memoryScopeRank (scope : string) : Z :=
  if scope ≟ "working" then 0%Z else if scope ≟ "session" then 1%Z else if scope ≟ "project" then 2%Z else 3%Z.

(** The comparison of [sortMemories], and the order it sorts by (importances are
    numbers: a NaN cannot be stored in a file). *)
Definition memory_less (a b : MemoryItem) : bool :=
  if negb (Bool.eqb (mi_Pinned a) (mi_Pinned b)) then mi_Pinned a
  else if negb (SFeqb (mi_Importance a) (mi_Importance b)) then SFltb (mi_Importance b) (mi_Importance a)
  else if negb (memoryScopeRank (mi_Scope a) =? memoryScopeRank (mi_Scope b))%Z
  then (memoryScopeRank (mi_Scope a) <? memoryScopeRank (mi_Scope b))%Z
  else if (mi_CreatedAt a =? mi_CreatedAt b)%Z then bool_decide (strict String.le (mi_ID a) (mi_ID b))
  else Before (mi_CreatedAt a) (mi_CreatedAt b).
Definition memory_le (a b : MemoryItem) : Prop := memory_less b a = false.
#[global] Instance memory_le_dec : RelDecision memory_le.
Proof. intros a b. unfold memory_le. apply _. Defined.
Definition sortMemories (items : list MemoryItem) : list MemoryItem := stable_sort memory_le items.

Definition activeMemoryFrontier (items : list MemoryItem) (now : Time) : list MemoryItem :=
  let superseded := items ≫= mi_Supersedes in
  sortMemories (filter (λ m, negb (contains superseded (mi_ID m)) && memoryActive m now = true) items).

Definition mi_prepared (id scope project status fingerprint : string) (quality : spec_float) (m : MemoryItem) : MemoryItem :=
  {| mi_ID := id; mi_SessionID := mi_SessionID m; mi_Scope := scope; mi_ProjectID := project; mi_Kind := mi_Kind m;
     mi_Fingerprint := fingerprint; mi_Content := mi_Content m; mi_SourceIDs := mi_SourceIDs m;
     mi_Confidence := mi_Confidence m; mi_Importance := mi_Importance m; mi_Status := status; mi_QualityScore := quality;
     mi_EvidenceHash := mi_EvidenceHash m; mi_Sensitivity := mi_Sensitivity m; mi_PollutionLineage := mi_PollutionLineage m;
     mi_ConflictPackage := mi_ConflictPackage m; mi_Reviewer := mi_Reviewer m; mi_LastReason := mi_LastReason m;
     mi_Pinned := mi_Pinned m; mi_ExpiresAt := mi_ExpiresAt m; mi_Supersedes := mi_Supersedes m;
     mi_CreatedAt := mi_CreatedAt m |}.
Definition mi_sealed (now : Time) (m : MemoryItem) : MemoryItem :=
  {| mi_ID := mi_ID m; mi_SessionID := mi_SessionID m; mi_Scope := mi_Scope m; mi_ProjectID := mi_ProjectID m;
     mi_Kind := mi_Kind m; mi_Fingerprint := mi_Fingerprint m; mi_Content := mi_Content m; mi_SourceIDs := mi_SourceIDs m;
     mi_Confidence := mi_Confidence m; mi_Importance := mi_Importance m; mi_Status := mi_Status m;
     mi_QualityScore := mi_QualityScore m; mi_EvidenceHash := evidence_hash (mi_SourceIDs m) (mi_Content m);
     mi_Sensitivity := mi_Sensitivity m; mi_PollutionLineage := mi_PollutionLineage m;
     mi_ConflictPackage := mi_ConflictPackage m; mi_Reviewer := mi_Reviewer m; mi_LastReason := mi_LastReason m;
     mi_Pinned := mi_Pinned m; mi_ExpiresAt := mi_ExpiresAt m; mi_Supersedes := mi_Supersedes m; mi_CreatedAt := now |}.

(** The item as [AddMemory] normalises it, or why it is refused. *)
Definition prepare_memory (stamp : Stamp) (s : sessionState) (m : MemoryItem) : result MemoryItem :=
  let scope := ToLowerText (TrimSpace (mi_Scope m)) in
  let scope := if scope ≟ "" then "session" else scope in
  let project := se_ProjectID (ss_Session s) in
  reject (negb (contains ["working"; "session"; "project"] scope))
    (Errorf "memory scope must be working, session, or project" []) ;;;
  reject (blank (mi_Kind m) || blank (mi_Content m) || bool_decide (mi_SourceIDs m = []) || outside_unit (mi_Confidence m)
          || outside_unit (mi_Importance m) || outside_unit (mi_QualityScore m))
    (Errorf "memory kind, content, source_ids and confidence are required" []) ;;;
  let status := ToLowerText (TrimSpace (mi_Status m)) in
  let status := if status ≟ "" then "confirmed" else status in
  reject (negb (validMemoryStatus status)) (Errorf "memory status is invalid" []) ;;;
  let quality := if SFeqb (mi_QualityScore m) (S754_zero false) then mi_Confidence m else mi_QualityScore m in
  let fingerprint := memoryFingerprint (mi_Kind m) (mi_Content m) in
  reject ((mi_Fingerprint m ≠? "") && (mi_Fingerprint m ≠? fingerprint))
    (Errorf "memory fingerprint does not match kind and content" []) ;;;
  reject ((scope ≟ "project") && blank project) (Errorf "project memory requires a session project_id" []) ;;;
  let own := if scope ≟ "project"
             then (if TrimSpace (mi_ProjectID m) ≟ "" then project else TrimSpace (mi_ProjectID m)) else "" in
  reject ((scope ≟ "project") && (own ≠? project)) ErrConflict ;;;
  check_each (λ _ source, reject (negb (hasTurnID (ss_Turns s) source))
                            (Wrapf "%w: memory source turn %s is missing" [source] ErrCorrupt)) (mi_SourceIDs m) ;;;
  let id := TrimSpace (mi_ID m) in
  Ok (mi_prepared (if id ≟ "" then st_id stamp else id) scope own status fingerprint quality m).

(** The active item a repeated claim converges on. *)
Definition known_memory (items : list MemoryItem) (now : Time) (m : MemoryItem) : option MemoryItem :=
  find (λ e, let fingerprint := if mi_Fingerprint e ≟ "" then memoryFingerprint (mi_Kind e) (mi_Content e)
                                else mi_Fingerprint e in
             (mi_Scope e ≟ mi_Scope m) && (mi_Kind e ≟ mi_Kind m) && (fingerprint ≟ mi_Fingerprint m))
    (activeMemoryFrontier items now).
Definition check_supersedes (items : list MemoryItem) (m : MemoryItem) : result unit :=
  check_each (λ _ old,
    reject (TrimSpace old ≟ mi_ID m) (Wrapf "%w: memory cannot supersede itself" [] ErrConflict) ;;;
    reject (negb (hasMemoryID items old)) (Wrapf "%w: superseded memory %s is missing" [old] ErrCorrupt)) (mi_Supersedes m).

Definition AddMemory (io : Io) (w : World) (item : MemoryItem) : World * result MemoryItem :=
  let sessionID := mi_SessionID item in
  match session_of w sessionID with
  | None => (w, Err ErrNotFound)
  | Some s =>
      match prepare_memory (hi_fresh io 0) s item with
      | Err e => (w, Err e)
      | Ok m =>
          let project := mi_Scope m ≟ "project" in
          let items := if project then projects_of w (mi_ProjectID m) else ss_Memories s in
          if hasMemoryID (ss_Memories s) (mi_ID m) || hasMemoryID (projects_of w (mi_ProjectID m)) (mi_ID m)
          then (w, Err ErrConflict) else
          match known_memory items (st_now (hi_fresh io 1)) m with
          | Some existing => (w, Ok existing)
          | None =>
              match check_supersedes items m with
              | Err e => (w, Err e)
              | Ok _ =>
                  let m := mi_sealed (st_now (hi_fresh io 0)) m in
                  let now := mi_CreatedAt m in
                  let s' := touch now (if project then s else ss_with_Memories (ss_Memories s ++ [m]) s) in
                  let w := if project then put_projects (mi_ProjectID m) (items ++ [m]) w else w in
                  match save_session io w sessionID s' (touch now s) "persist memory: %w" with
                  | (w, Err e) => (if project then put_projects (mi_ProjectID m) items w else w, Err e)
                  | (w, Ok _) => (w, Ok m)
                  end
              end
          end
      end
  end.

Definition update_first {A} (P : A → bool) (f : A → A) : list A → list A :=
  fix go l := match l with [] => [] | x :: l' => if P x then f x :: l' else x :: go l' end.

Definition has_id (id : string) (m : MemoryItem) : bool := mi_ID m ≟ id.
Definition review (status reviewer reason : string) (m : MemoryItem) : MemoryItem :=
  mi_reviewed status (TrimSpace reviewer) (TrimSpace reason)
    (if contains ["superseded"; "forgotten"; "rejected"] status then None else mi_ExpiresAt m) m.

(** The loop over the project's memories has no way out but its end and keeps the
    first match of the session's own project. *)
Definition TransitionMemoryWithReview (io : Io) (w : World) (sessionID memoryID status reviewer reason : string)
    : World * result MemoryItem :=
  let status := ToLowerText (TrimSpace status) in
  if negb (validMemoryStatus status) || (status ≟ "") then (w, Err (Errorf "memory status is invalid" [])) else
  match session_of w sessionID with
  | None => (w, Err ErrNotFound)
  | Some s =>
      let projectID := se_ProjectID (ss_Session s) in
      let own := find (has_id memoryID) (ss_Memories s) in
      let shared := find (has_id memoryID) (projects_of w projectID) in
      match (match own with Some m => Some m | None => shared end) with
      | None => (w, Err ErrNotFound)
      | Some target =>
          if negb (memoryTransitionAllowed (mi_Status target) status)
          then (w, Err (Wrapf "%w: invalid memory transition %s -> %s" [mi_Status target; status] ErrConflict))
          else
            let change := update_first (has_id memoryID) (review status reviewer reason) in
            let now := st_now (hi_fresh io 0) in
            match own with
            | Some m =>
                match save_session io w sessionID (touch now (ss_with_Memories (change (ss_Memories s)) s)) s
                        "persist memory transition: %w" with
                | (w, Err e) => (w, Err e)
                | (w, Ok _) => (w, Ok (review status reviewer reason m))
                end
            | None =>
                let w := put_projects projectID (change (projects_of w projectID)) w in
                match save_session io w sessionID (touch now s) s "persist memory transition: %w" with
                | (w, Err e) =>
                    (if projectID ≟ "" then w
                     else put_projects projectID
                            ((λ m, if has_id memoryID m then mi_with_Status (mi_Status target) m else m)
                             <$> projects_of w projectID) w, Err e)
                | (w, Ok _) => (w, Ok (review status reviewer reason target))
                end
            end
      end
  end.
Definition TransitionMemory (io : Io) (w : World) (sessionID memoryID status : string) : World * result MemoryItem :=
  TransitionMemoryWithReview io w sessionID memoryID status "" "".

Record parsedClaim := { pc_Kind : string; pc_Content : string }.
(** The literals [0.8] and [0.6] of a parsed claim. *)
Definition claim_confidence : spec_float := four_fifths.
Definition claim_importance : spec_float := quality_threshold.
Fixpoint claim_kind (line : string) (kinds : list string) : string * string :=
  match kinds with
  | [] => ("fact", line)
  | k :: rest => if HasPrefix (ToLowerText line) (k +:+ ":") then (k, TrimSpace (skip (String.length k + 1) line))
                 else claim_kind line rest
  end.
Definition parse_claim (raw : string) : option parsedClaim :=
  let line := TrimSpace raw in
  if (line ≟ "") || HasPrefix line "#" then None else
  let '(kind, line) := claim_kind line ["fact"; "constraint"; "decision"; "invariant"; "preference"] in
  if line ≟ "" then None else Some {| pc_Kind := kind; pc_Content := line |}.
Definition parseClaims (content : string) : list parsedClaim :=
  omap parse_claim (Split nl (ReplaceAll content (String cr line_break) line_break)).

Definition uniqueNonEmpty (values : list string) : list string := append_unique_from [] (TrimSpace <$> values).

Record MemoryReduction := {
  mr_Added : list MemoryItem; mr_Superseded : list string; mr_Conflicts : list string; mr_SourceTurns : list string }.

Definition claim_item (sessionID : string) (sources : list string) (c : parsedClaim) (supersedes : list string) : MemoryItem :=
  {| mi_ID := ""; mi_SessionID := sessionID; mi_Scope := "session"; mi_ProjectID := ""; mi_Kind := pc_Kind c;
     mi_Fingerprint := memoryFingerprint (pc_Kind c) (pc_Content c); mi_Content := pc_Content c; mi_SourceIDs := sources;
     mi_Confidence := claim_confidence; mi_Importance := claim_importance; mi_Status := "";
     mi_QualityScore := S754_zero false; mi_EvidenceHash := ""; mi_Sensitivity := ""; mi_PollutionLineage := [];
     mi_ConflictPackage := []; mi_Reviewer := ""; mi_LastReason := ""; mi_Pinned := false; mi_ExpiresAt := None;
     mi_Supersedes := supersedes; mi_CreatedAt := 0 |}.
(** The older claims on the same subject, up to one that says the same; whether
    there was such a one. *)
Fixpoint older_claims (now : Time) (m : MemoryItem) (existing : list MemoryItem) : list string * bool :=
  match existing with
  | [] => ([], false)
  | old :: rest =>
      if (mi_Scope old ≠? mi_Scope m) || (mi_Kind old ≠? mi_Kind m)
         || (memorySubject (mi_Content old) ≠? memorySubject (mi_Content m)) || negb (memoryActive old now)
      then older_claims now m rest
      else if (mi_Fingerprint old ≟ mi_Fingerprint m) || EqualFoldText (TrimSpace (mi_Content old)) (TrimSpace (mi_Content m))
      then ([], mi_ID old ≠? "")
      else let '(ids, same) := older_claims now m rest in (mi_ID old :: ids, same)
  end.
(** The loop of [ReduceMemories]; [ios i] is what the [i]-th claim meets. *)
Fixpoint reduce_claims (ios : nat → Io) (i : nat) (w : World) (sessionID : string) (sources : list string)
    (existing : list MemoryItem) (r : MemoryReduction) (claims : list parsedClaim) : World * (MemoryReduction * result unit) :=
  match claims with
  | [] => (w, (r, Ok tt))
  | c :: rest =>
      let probe := claim_item sessionID sources c [] in
      let '(older, same) := older_claims (st_now (hi_fresh (ios i) 2)) probe existing in
      let r := {| mr_Added := mr_Added r; mr_Superseded := mr_Superseded r ++ older; mr_Conflicts := mr_Conflicts r ++ older;
                  mr_SourceTurns := mr_SourceTurns r |} in
      if same then reduce_claims ios (Datatypes.S i) w sessionID sources existing r rest
      else match AddMemory (ios i) w (claim_item sessionID sources c older) with
           | (w, Err e) => (w, (r, Err e))
           | (w, Ok saved) =>
               reduce_claims ios (Datatypes.S i) w sessionID sources (existing ++ [saved])
                 {| mr_Added := mr_Added r ++ [saved]; mr_Superseded := mr_Superseded r; mr_Conflicts := mr_Conflicts r;
                    mr_SourceTurns := mr_SourceTurns r |} rest
           end
  end.
Definition no_reduction : MemoryReduction :=
  {| mr_Added := []; mr_Superseded := []; mr_Conflicts := []; mr_SourceTurns := [] |}.
Definition ReduceMemories (ios : nat → Io) (w : World) (sessionID : string) (sourceIDs : list string) (content : string)
    : World * (MemoryReduction * result unit) :=
  let sources := uniqueNonEmpty sourceIDs in
  if bool_decide (sources = []) || blank content
  then (w, (no_reduction, Err (Errorf "source_ids and content are required" []))) else
  match session_of w sessionID with
  | None => (w, (no_reduction, Err ErrNotFound))
  | Some s =>
      match check_each (λ _ source, reject (negb (hasTurnID (ss_Turns s) source))
                          (Wrapf "%w: memory source turn %s is missing" [source] ErrCorrupt)) sources with
      | Err e => (w, (no_reduction, Err e))
      | Ok _ =>
          let project := se_ProjectID (ss_Session s) in
          let existing := ss_Memories s ++ (if project ≟ "" then [] else projects_of w project) in
          match parseClaims content with
          | [] => (w, (no_reduction, Err (Errorf "no memory claims found" [])))
          | claims =>
              reduce_claims ios 0 w sessionID sources existing
                {| mr_Added := []; mr_Superseded := []; mr_Conflicts := []; mr_SourceTurns := sources |} claims
          end
      end
  end.
Definition ListMemories (now : Time) (w : World) (sessionID : string) : result (list MemoryItem) :=
  match session_of w sessionID with
  | None => Err ErrNotFound
  | Some s =>
      let project := se_ProjectID (ss_Session s) in
      let items := ss_Memories s ++ (if project ≟ "" then [] else projects_of w project) in
      Ok (activeMemoryFrontier (filter (λ m, memoryActive m now = true) items) now)
  end.

(** ** Leases *)

Definition ls_taken (owner state : string) (version : Z) (expires updated : Time) (l : Lease) : Lease :=
  {| ls_ID := ls_ID l; ls_SessionID := ls_SessionID l; ls_Key := ls_Key l; ls_Owner := owner; ls_State := state;
     ls_Version := version; ls_ExpiresAt := expires; ls_CreatedAt := ls_CreatedAt l; ls_UpdatedAt := updated |}.
(** The lease of a key: the first one that was not released. *)
Definition open_lease (key : string) (l : Lease) : bool := (ls_Key l ≟ key) && (ls_State l ≠? "released").
Definition lease_id (id : string) (l : Lease) : bool := ls_ID l ≟ id.

Definition AcquireLease (io : Io) (w : World) (sessionID key owner : string) (ttl : Duration) (now : Time)
    : World * result Lease :=
  match session_of w sessionID with
  | None => (w, Err ErrNotFound)
  | Some s =>
      if blank key || blank owner || (ttl <=? 0)%Z
      then (w, Err (Errorf "lease key, owner and positive ttl are required" [])) else
      let now := orNow (st_now (hi_fresh io 0)) now in
      match find (open_lease key) (ss_Leases s) with
      | Some l =>
          if After (ls_ExpiresAt l) now && (ls_Owner l ≠? owner) then (w, Err ErrLeaseBusy) else
          let take l := ls_taken owner "held" (add64 (ls_Version l) 1) (now + ttl)%Z now l in
          match save_session io w sessionID (ss_with_Leases (update_first (open_lease key) take (ss_Leases s)) s) s
                  "persist lease renewal: %w" with
          | (w, Err e) => (w, Err e)
          | (w, Ok _) => (w, Ok (take l))
          end
      | None =>
          let l := {| ls_ID := st_id (hi_fresh io 0); ls_SessionID := sessionID; ls_Key := key; ls_Owner := owner;
                      ls_State := "held"; ls_Version := 1; ls_ExpiresAt := (now + ttl)%Z; ls_CreatedAt := now;
                      ls_UpdatedAt := now |} in
          match save_session io w sessionID (touch now (ss_with_Leases (ss_Leases s ++ [l]) s)) (touch now s)
                  "persist lease: %w" with
          | (w, Err e) => (w, Err e)
          | (w, Ok _) => (w, Ok l)
          end
      end
  end.

Definition ReleaseLease (io : Io) (w : World) (sessionID leaseID owner : string) (now : Time) : World * result unit :=
  match session_of w sessionID with
  | None => (w, Err ErrNotFound)
  | Some s =>
      match find (lease_id leaseID) (ss_Leases s) with
      | None => (w, Err ErrNotFound)
      | Some l =>
          if (ls_Owner l ≠? owner) || (ls_State l ≠? "held") then (w, Err ErrLeaseLost) else
          let now := orNow (st_now (hi_fresh io 0)) now in
          let release l := ls_taken (ls_Owner l) "released" (add64 (ls_Version l) 1) 0 now l in
          save_session io w sessionID (touch now (ss_with_Leases (update_first (lease_id leaseID) release (ss_Leases s)) s)) s
            "persist lease release: %w"
      end
  end.

Definition HeartbeatLease (io : Io) (w : World) (sessionID leaseID owner : string) (ttl : Duration) (now : Time)
    : World * result Lease :=
  match session_of w sessionID with
  | None => (w, Err ErrNotFound)
  | Some s =>
      if blank leaseID || blank owner || (ttl <=? 0)%Z
      then (w, Err (Errorf "lease id, owner and positive ttl are required" [])) else
      let now := orNow (st_now (hi_fresh io 0)) now in
      match find (lease_id leaseID) (ss_Leases s) with
      | None => (w, Err ErrNotFound)
      | Some l =>
          if (ls_Owner l ≠? owner) || (ls_State l ≠? "held") || negb (After (ls_ExpiresAt l) now)
          then (w, Err ErrLeaseLost) else
          let beat l := ls_taken (ls_Owner l) (ls_State l) (add64 (ls_Version l) 1) (now + ttl)%Z now l in
          match save_session io w sessionID
                  (touch now (ss_with_Leases (update_first (lease_id leaseID) beat (ss_Leases s)) s)) s
                  "persist lease heartbeat: %w" with
          | (w, Err e) => (w, Err e)
          | (w, Ok _) => (w, Ok (beat l))
          end
      end
  end.

(** ** Outbox *)

Definition ob_moved (state owner : string) (until next : Time) (attempts : Z) (published : option Time) (e : OutboxEvent)
    : OutboxEvent :=
  {| ob_ID := ob_ID e; ob_SessionID := ob_SessionID e; ob_IdempotencyKey := ob_IdempotencyKey e; ob_Payload := ob_Payload e;
     ob_State := state; ob_Attempts := attempts; ob_Owner := owner; ob_LeaseUntil := until; ob_NextAttemptAt := next;
     ob_PublishedAt := published; ob_CreatedAt := ob_CreatedAt e |}.
Definition claimed (owner : string) (until : Time) (e : OutboxEvent) : OutboxEvent :=
  ob_moved "processing" owner until (ob_NextAttemptAt e) (add64 (ob_Attempts e) 1) (ob_PublishedAt e) e.
Definition published (now : Time) (e : OutboxEvent) : OutboxEvent :=
  ob_moved "published" "" 0 (ob_NextAttemptAt e) (ob_Attempts e) (Some now) e.
Definition requeued (next : Time) (e : OutboxEvent) : OutboxEvent :=
  ob_moved "pending" "" 0 next (ob_Attempts e) (ob_PublishedAt e) e.
Definition new_event (id sessionID key data state : string) (attempts : Z) (owner : string) (until now : Time) : OutboxEvent :=
  {| ob_ID := id; ob_SessionID := sessionID; ob_IdempotencyKey := key; ob_Payload := data; ob_State := state;
     ob_Attempts := attempts; ob_Owner := owner; ob_LeaseUntil := until; ob_NextAttemptAt := now; ob_PublishedAt := None;
     ob_CreatedAt := now |}.
Definition with_key (key : string) (e : OutboxEvent) : bool := ob_IdempotencyKey e ≟ key.
Definition event_id (id : string) (e : OutboxEvent) : bool := ob_ID e ≟ id.

Definition EnqueueOutbox (io : Io) (w : World) (sessionID key : string) (payload : value) : World * result OutboxEvent :=
  match session_of w sessionID with
  | None => (w, Err ErrNotFound)
  | Some s =>
      if blank key then (w, Err (Errorf "outbox idempotency key is required" [])) else
      match json_marshal payload with
      | None => (w, Err (Errorf "encode outbox payload: %w" []))
      | Some data =>
          match find (with_key key) (ss_Outbox s) with
          | Some existing => if ob_Payload existing ≠? data then (w, Err ErrConflict) else (w, Ok existing)
          | None =>
              let now := st_now (hi_fresh io 0) in
              let e := new_event (st_id (hi_fresh io 0)) sessionID key data "pending" 0 "" 0 now in
              match save_session io w sessionID (touch now (ss_with_Outbox (ss_Outbox s ++ [e]) s)) (touch now s)
                      "persist outbox event: %w" with
              | (w, Err err) => (w, Err err)
              | (w, Ok _) => (w, Ok e)
              end
          end
      end
  end.

(** The event it returns, on some errors too, and whether the caller owns it. *)
Definition EnqueueAndClaimOutbox (io : Io) (w : World) (sessionID key : string) (payload : value) (owner : string)
    (ttl : Duration) (now : Time) : World * (option OutboxEvent * result bool) :=
  match session_of w sessionID with
  | None => (w, (None, Err ErrNotFound))
  | Some s =>
      if blank key then (w, (None, Err (Errorf "outbox idempotency key is required" []))) else
      if blank owner || (ttl <=? 0)%Z then (w, (None, Err (Errorf "outbox owner and positive ttl are required" []))) else
      match json_marshal payload with
      | None => (w, (None, Err (Errorf "encode outbox payload: %w" [])))
      | Some data =>
          let now := orNow (st_now (hi_fresh io 0)) now in
          match find (with_key key) (ss_Outbox s) with
          | Some e =>
              if ob_Payload e ≠? data then (w, (None, Err ErrConflict))
              else if ob_State e ≟ "published" then (w, (Some e, Ok false))
              else if (ob_State e ≟ "processing") && After (ob_LeaseUntil e) now then (w, (Some e, Err ErrLeaseBusy))
              else if (ob_State e ≠? "pending") && (ob_State e ≠? "processing") then (w, (Some e, Err ErrConflict))
              else if (ob_State e ≟ "pending") && After (ob_NextAttemptAt e) now then (w, (Some e, Err ErrLeaseBusy))
              else
                let claim := claimed owner (now + ttl)%Z in
                match save_session io w sessionID
                        (touch now (ss_with_Outbox (update_first (with_key key) claim (ss_Outbox s)) s)) s
                        "persist outbox claim: %w" with
                | (w, Err err) => (w, (None, Err err))
                | (w, Ok _) => (w, (Some (claim e), Ok true))
                end
          | None =>
              let e := new_event (st_id (hi_fresh io 0)) sessionID key data "processing" 1 owner (now + ttl)%Z now in
              match save_session io w sessionID (touch now (ss_with_Outbox (ss_Outbox s ++ [e]) s)) (touch now s)
                      "persist outbox claim: %w" with
              | (w, Err err) => (w, (None, Err err))
              | (w, Ok _) => (w, (Some e, Ok true))
              end
          end
      end
  end.

(** The loop of [ClaimOutbox]: [left] more events may be taken. *)
Definition claimable (now : Time) (e : OutboxEvent) : bool := (ob_State e ≟ "pending") && negb (After (ob_NextAttemptAt e) now).
Fixpoint claim_events (owner : string) (until now : Time) (left : nat) (es : list OutboxEvent)
    : list OutboxEvent * list OutboxEvent :=
  match es with
  | [] => ([], [])
  | e :: rest =>
      match left with
      | Datatypes.S left' =>
          if claimable now e
          then let '(es', items) := claim_events owner until now left' rest in
               (claimed owner until e :: es', claimed owner until e :: items)
          else let '(es', items) := claim_events owner until now left rest in (e :: es', items)
      | O => (es, [])
      end
  end.
Definition ClaimOutbox (io : Io) (w : World) (sessionID owner : string) (limit : Z) (ttl : Duration) (now : Time)
    : World * result (list OutboxEvent) :=
  match session_of w sessionID with
  | None => (w, Err ErrNotFound)
  | Some s =>
      if blank owner || (ttl <=? 0)%Z then (w, Err (Errorf "outbox owner and positive ttl are required" [])) else
      let limit := if (limit <=? 0)%Z || (100 <? limit)%Z then 10 else Z.to_nat limit in
      let now := orNow (st_now (hi_fresh io 0)) now in
      let '(outbox, items) := claim_events owner (now + ttl)%Z now limit (ss_Outbox s) in
      if bool_decide (items = []) then (w, Ok [])
      else match save_session io w sessionID (touch now (ss_with_Outbox outbox s)) s "persist outbox claim: %w" with
           | (w, Err e) => (w, Err e)
           | (w, Ok _) => (w, Ok items)
           end
  end.

(** The end of [AckOutbox] and [CompleteOutbox]. *)
Definition publish_event (io : Io) (w : World) (sessionID eventID : string) (now : Time) (s : sessionState)
    (message : string) : World * result unit :=
  let now := orNow (st_now (hi_fresh io 0)) now in
  save_session io w sessionID
    (touch now (ss_with_Outbox (update_first (event_id eventID) (published now) (ss_Outbox s)) s)) s message.

Definition AckOutbox (io : Io) (w : World) (sessionID eventID owner : string) (now : Time) : World * result unit :=
  match session_of w sessionID with
  | None => (w, Err ErrNotFound)
  | Some s =>
      match find (event_id eventID) (ss_Outbox s) with
      | None => (w, Err ErrNotFound)
      | Some e =>
          if ob_State e ≟ "published" then (w, Ok tt)
          else if (ob_State e ≠? "processing") || (ob_Owner e ≠? owner) then (w, Err ErrLeaseLost)
          else publish_event io w sessionID eventID now s "persist outbox acknowledgement: %w"
      end
  end.

Definition CompleteOutbox (io : Io) (w : World) (sessionID eventID : string) (now : Time) : World * result unit :=
  match session_of w sessionID with
  | None => (w, Err ErrNotFound)
  | Some s =>
      match find (event_id eventID) (ss_Outbox s) with
      | None => (w, Err ErrNotFound)
      | Some e =>
          if ob_State e ≟ "published" then (w, Ok tt)
          else if ob_State e ≠? "pending" then (w, Err ErrLeaseLost)
          else publish_event io w sessionID eventID now s "persist outbox completion: %w"
      end
  end.

Definition Second : Duration := 1000000000.
Definition NackOutbox (io : Io) (w : World) (sessionID eventID owner : string) (retryAt : Time) : World * result unit :=
  match session_of w sessionID with
  | None => (w, Err ErrNotFound)
  | Some s =>
      match find (event_id eventID) (ss_Outbox s) with
      | None => (w, Err ErrNotFound)
      | Some e =>
          if (ob_State e ≠? "processing") || (ob_Owner e ≠? owner) then (w, Err ErrLeaseLost) else
          let retryAt := if IsZero retryAt then (st_now (hi_fresh io 0) + Second)%Z else retryAt in
          save_session io w sessionID (ss_with_Outbox (update_first (event_id eventID) (requeued retryAt) (ss_Outbox s)) s) s
            "persist outbox retry: %w"
      end
  end.

(** ** Recovery and diagnostics *)

Record Recovery := {
  rc_Session : Session; rc_LatestCheckpoint : option Checkpoint; rc_PendingEffects : list OutboxEvent;
  rc_ExpiredLeases : list Lease }.
Definition lease_expired (now : Time) (l : Lease) : bool := (ls_State l ≟ "held") && negb (After (ls_ExpiresAt l) now).
Definition expire_lease (now : Time) (l : Lease) : Lease :=
  if lease_expired now l then ls_taken (ls_Owner l) "expired" (ls_Version l) (ls_ExpiresAt l) now l else l.
Definition claim_expired (now : Time) (e : OutboxEvent) : bool :=
  (ob_State e ≟ "processing") && negb (After (ob_LeaseUntil e) now).
Definition expire_claim (now : Time) (e : OutboxEvent) : OutboxEvent := if claim_expired now e then requeued now e else e.

Definition Recover (io : Io) (w : World) (sessionID : string) (now : Time) : World * result Recovery :=
  match session_of w sessionID with
  | None => (w, Err ErrNotFound)
  | Some s =>
      match validateSessionState s with
      | Err e => (w, Err e)
      | Ok _ =>
          let now := orNow (st_now (hi_fresh io 0)) now in
          let expired := filter (λ l, lease_expired now l = true) (ss_Leases s) in
          let dirty := existsb (lease_expired now) (ss_Leases s) || existsb (claim_expired now) (ss_Outbox s) in
          let s' := ss_with_Leases (expire_lease now <$> ss_Leases s) (ss_with_Outbox (expire_claim now <$> ss_Outbox s) s) in
          let s' := if dirty then touch now s' else s' in
          let found := {| rc_Session := ss_Session s'; rc_LatestCheckpoint := last (ss_Checkpoints s');
                          rc_PendingEffects := filter (λ e, (ob_State e ≟ "pending") || (ob_State e ≟ "processing") = true)
                                                 (ss_Outbox s');
                          rc_ExpiredLeases := expire_lease now <$> expired |} in
          if negb dirty then (w, Ok found)
          else match save_session io w sessionID s' s "persist lease recovery: %w" with
               | (w, Err e) => (w, Err e)
               | (w, Ok _) => (w, Ok found)
               end
      end
  end.

Record ContextStatus := {
  cs_SessionID : string; cs_ContextVersion : Z; cs_TurnCount : nat; cs_ArchivedTurns : Z; cs_TokenEstimate : Z;
  cs_BudgetTokens : Z; cs_ArchiveCount : nat; cs_MemoryCount : nat; cs_CheckpointCount : nat; cs_AutoCompaction : bool;
  cs_CompactionThreshold : spec_float; cs_CompactionRetainTail : Z; cs_LastTurnHash : string; cs_TranscriptDurable : bool }.
Definition Context_Status (now : Time) (w : World) (sessionID : string) : result ContextStatus :=
  match session_of w sessionID with
  | None => Err ErrNotFound
  | Some s =>
      let session := ss_Session s in
      Ok {| cs_SessionID := sessionID; cs_ContextVersion := se_ContextVersion session; cs_TurnCount := length (ss_Turns s);
            cs_ArchivedTurns := foldl (λ n a, n + (aw_EndSequence a - aw_StartSequence a + 1))%Z 0%Z (ss_Archives s);
            cs_TokenEstimate :=
              foldl (λ n t, if (0 <? tn_Sequence t)%Z && negb (turnArchived (ss_Archives s) (tn_Sequence t))
                            then (n + (Z.of_nat (rune_count (tn_Content t)) + 3) / 4)%Z else n) 0%Z (ss_Turns s);
            cs_BudgetTokens := se_BudgetTokens session; cs_ArchiveCount := length (ss_Archives s);
            cs_MemoryCount := length (activeMemoryFrontier (ss_Memories s ++ projects_of w (se_ProjectID session)) now);
            cs_CheckpointCount := length (ss_Checkpoints s); cs_AutoCompaction := se_AutoCompaction session;
            cs_CompactionThreshold := se_CompactionThreshold session;
            cs_CompactionRetainTail := se_CompactionRetainTail session;
            cs_LastTurnHash := match last (ss_Turns s) with Some t => tn_Hash t | None => "" end;
            cs_TranscriptDurable := Durable (hw_store w) |}
  end.

(** The error field holds the rendering of the error that is returned. *)
Record TranscriptIntegrity := {
  ti_SessionID : string; ti_TurnCount : nat; ti_ArchiveCount : nat; ti_Valid : bool; ti_RecallVerified : bool }.
Definition VerifyTranscript (io : Io) (w : World) (sessionID : string) : TranscriptIntegrity * result unit :=
  match session_of w sessionID with
  | None => ({| ti_SessionID := sessionID; ti_TurnCount := 0; ti_ArchiveCount := 0; ti_Valid := false;
                ti_RecallVerified := false |}, Err ErrNotFound)
  | Some s =>
      let answer valid := {| ti_SessionID := sessionID; ti_TurnCount := length (ss_Turns s);
                             ti_ArchiveCount := length (ss_Archives s); ti_Valid := valid; ti_RecallVerified := false |} in
      let verdict :=
        validateSessionState s ;;;
        if hs_path (hw_store w) ≟ "" then Ok tt else
        let* transcript := readTranscript io (hw_files w) in
        match transcript with
        | None => Err (Wrapf "%w: %s" ["append-only transcript is missing"] ErrCorrupt)
        | Some records =>
            let logged := default [] (records !! sessionID) in
            reject (negb (length logged =? length (ss_Turns s))%nat)
              (Wrapf "%w: transcript turn count %d does not match snapshot %d"
                 [itoa (length logged); itoa (length (ss_Turns s))] ErrCorrupt) ;;;
            match diverges 0 (ss_Turns s) logged with
            | Some i => Err (Wrapf "%w: transcript diverges at sequence %d" [itoa (i + 1)] ErrCorrupt)
            | None => Ok tt
            end
        end in
      match verdict with Ok _ => (answer true, Ok tt) | Err e => (answer false, Err e) end
  end.

Definition archive_start_le (a b : ArchiveWindow) : Prop := (aw_StartSequence a ≤ aw_StartSequence b)%Z.
#[global] Instance archive_start_le_dec : RelDecision archive_start_le.
Proof. intros a b. unfold archive_start_le. apply _. Defined.
Definition SortArchives (items : list ArchiveWindow) : list ArchiveWindow := stable_sort archive_start_le items.

(** ** The compiled context *)

Context `{!JsonMarshal PromptManifest, !JsonMarshal Manifest, !JsonMarshal (string * PromptManifest)}.
Context `{!JsonMarshal HarnessManifest, !JsonMarshal (string * list (string * string * string)),
            !JsonMarshal (string * list Block), !JsonMarshal (list (string * string))}.

(** [appendBlock], for the block at index [i]. *)
Definition context_block (i : nat) (kind source content policy trust reason : string) (mandatory : bool)
    (metadata : gmap string string) : Block :=
  let content := if ends_with_newline content then content else content +:+ line_break in
  let id := kind +:+ ":" +:+ (if source ≟ "" then itoa (i + 1) else source) in
  {| b_ID := id; b_Kind := kind; b_Source := source; b_Content := content; b_Hash := sha256_hex content; b_Policy := policy;
     b_Trust := trust; b_SelectionReason := reason; b_TokenEstimate := EstimateTokens content; b_Mandatory := mandatory;
     b_Metadata := metadata |}.
Definition archive_block (a : ArchiveWindow) (i : nat) : Block :=
  context_block i "archive" (aw_ID a) ("[archive " +:+ aw_ID a +:+ "] " +:+ aw_Summary a) "verified_summary" "verified"
    "archive_order" false
    (list_to_map [("start_sequence", pretty (aw_StartSequence a)); ("end_sequence", pretty (aw_EndSequence a))]).
Definition memory_block (m : MemoryItem) (i : nat) : Block :=
  context_block i "memory" (mi_ID m) ("[memory " +:+ mi_Kind m +:+ " " +:+ mi_ID m +:+ "] " +:+ mi_Content m)
    "active_frontier" "source_turn" "memory_priority" false
    (list_to_map [("scope", mi_Scope m); ("fingerprint", mi_Fingerprint m)]).

(** A tool call whose turns lack one of the two halves. *)
Definition incompleteToolCall (turns : list Turn) (call : string) : bool :=
  let half status := existsb (λ t, (tn_ToolCallID t ≟ call) && (tn_ToolStatus t ≟ status)) turns in
  negb (half "before") || negb (half "after").
Definition latestUser (turns : list Turn) : Z :=
  foldl (λ n t, if (tn_Role t ≟ RoleUser) && (n <? tn_Sequence t)%Z then tn_Sequence t else n) 0%Z turns.
Definition is_objective (turns : list Turn) (t : Turn) : bool :=
  (tn_Role t ≟ RoleUser) && (tn_Sequence t =? latestUser turns)%Z.
Definition turn_mandatory (turns : list Turn) (t : Turn) : bool :=
  (tn_Role t ≟ RoleSystem) || is_objective turns t
  || ((tn_ToolCallID t ≠? "") && incompleteToolCall turns (tn_ToolCallID t)).
Definition prompt_kind (turns : list Turn) (t : Turn) : string :=
  if tn_Role t ≟ RoleSystem then "system_policy"
  else if is_objective turns t then "latest_objective"
  else if tn_ToolCallID t ≠? "" then "tool_schema" else "context_memory".
Definition transcript_block (turns : list Turn) (t : Turn) (i : nat) : Block :=
  context_block i "turn" (tn_ID t) (tn_Role t +:+ ": " +:+ tn_Content t) "transcript" "hash_chain"
    "latest_objective_or_transaction" (turn_mandatory turns t)
    (list_to_map [("sequence", pretty (tn_Sequence t)); ("turn_hash", tn_Hash t); ("tool_call_id", tn_ToolCallID t);
                  ("tool_status", tn_ToolStatus t); ("prompt_kind", prompt_kind turns t)]).

Definition active_memories (now : Time) (w : World) (s : sessionState) : list MemoryItem :=
  let project := se_ProjectID (ss_Session s) in
  let items := sortMemories (filter (λ m, memoryActive m now = true)
                 (ss_Memories s ++ (if project ≟ "" then [] else projects_of w project))) in
  filter (λ m, contains (items ≫= mi_Supersedes) (mi_ID m) = false) items.
Definition session_blocks (now : Time) (w : World) (s : sessionState) : list Block :=
  imap (λ i block, block i)
    ((archive_block <$> ss_Archives s) ++ (memory_block <$> active_memories now w s)
     ++ (transcript_block (ss_Turns s)
         <$> filter (λ t, turnArchived (ss_Archives s) (tn_Sequence t) = false ∨ turn_mandatory (ss_Turns s) t = true)
               (ss_Turns s))).

Definition mandatory_budget (blocks : list Block) : Z :=
  Z.max 1 (foldl (λ n b, if b_Mandatory b then add64 n (b_TokenEstimate b) else n) 0%Z blocks).

(** [compileManifest]; [now] is the clock of the memories, [compiled] the
    compiler's. *)
Definition compileManifest (now compiled : Time) (w : World) (sessionID : string) (maxTokens : Z) (requiredOnly : bool)
    : result Manifest :=
  match session_of w sessionID with
  | None => Err ErrNotFound
  | Some s =>
      let maxTokens := if (maxTokens <=? 0)%Z then se_BudgetTokens (ss_Session s) else maxTokens in
      let maxTokens := if (maxTokens <=? 0)%Z then (2 ^ 60)%Z else maxTokens in
      let blocks := session_blocks now w s in
      let version := Z.max 1 (se_ContextVersion (ss_Session s)) in
      let maxTokens := if requiredOnly then mandatory_budget blocks else maxTokens in
      let '(compression, m) := CompileWithTokenizerAndSummarizer compiled sessionID version maxTokens blocks
                                 (Some (hs_tokenizer (hw_store w))) (hs_summarizer (hw_store w)) in
      let* m := m in
      let records := filter (λ r, cr_Algorithm r ≠ "") ((aw_Compression <$> ss_Archives s) ++ [compression]) in
      let m := m_with (m_Digest m) (m_PromptManifestHash m) records (m_PromptManifest m) (m_CreatedAt m) m in
      match records with [] => Ok m | _ => Rehash m end
  end.
Definition CompileManifest (now compiled : Time) (w : World) (sessionID : string) (maxTokens : Z) : result Manifest :=
  compileManifest now compiled w sessionID maxTokens false.
Definition CompileEnvelope (now compiled : Time) (w : World) (sessionID : string) (maxTokens : Z) : result ContextEnvelope :=
  let* m := CompileManifest now compiled w sessionID maxTokens in
  reject ((m_TokenBudget m <=? 0)%Z || (m_TokenBudget m <? m_TokenEstimate m)%Z)
    (Errorf "context envelope exceeds hard token budget" []) ;;;
  ContextManifest_Envelope m.
Definition Compile (now compiled : Time) (w : World) (sessionID : string) (maxTokens : Z) : result string :=
  let* e := CompileEnvelope now compiled w sessionID maxTokens in ContextEnvelope_Render e.
Definition CompilePrompt (now compiled : Time) (w : World) (sessionID : string) (maxTokens : Z) : result string :=
  let* e := CompileEnvelope now compiled w sessionID maxTokens in ContextEnvelope_Render e.
Definition CompileRequiredPrompt (now compiled : Time) (w : World) (sessionID : string) : result string :=
  let* m := compileManifest now compiled w sessionID 0 true in ContextManifest_Render m.

Fixpoint recalled (prompt : string) (archives : list ArchiveWindow) : result unit :=
  match archives with
  | [] => Ok tt
  | a :: rest =>
      reject (negb (Contains prompt (aw_Summary a))) (Wrapf "%w: archive %s summary was not recalled" [aw_ID a] ErrCorrupt) ;;;
      recalled prompt rest
  end.
Definition VerifyCompaction (io : Io) (now compiled : Time) (w : World) (sessionID : string)
    : TranscriptIntegrity * result unit :=
  match VerifyTranscript io w sessionID with
  | (answer, Err e) => (answer, Err e)
  | (answer, Ok _) =>
      let archives := match session_of w sessionID with Some s => ss_Archives s | None => [] end in
      match (let* prompt := Compile now compiled w sessionID (2 ^ 60) in recalled prompt archives) with
      | Err e => (answer, Err e)
      | Ok _ => ({| ti_SessionID := ti_SessionID answer; ti_TurnCount := ti_TurnCount answer;
                    ti_ArchiveCount := ti_ArchiveCount answer; ti_Valid := ti_Valid answer; ti_RecallVerified := true |}, Ok tt)
      end
  end.
End store.
