(* ===== verification/HarnessSpec.v ===== *)
(** * HarnessSpec: what keeps a harness session valid

    The lemmas behind the store's invariants: the checks of
    [validateSessionState] as predicates, each of which survives the operations
    that extend a session, the range of a coverage, and [change], the relation of
    all changes an operation of the store makes to a session. *)
From stdpp Require Import base strings gmap list pretty sorting.
From Stdlib Require Import ZArith Lia Ascii SpecFloat.
From S2P Require Import Prelude GoLib GoStrings GoValue GoJson ContextModel ContextCompiler Harness HarnessStore.

(** ** Coverage is a fraction *)

Lemma unit_inside f : unit_float f = true → outside_unit f = false.
Proof.
  unfold unit_float, outside_unit. change float_one with (S754_finite false 4503599627370496 (-52)). unfold SFleb, SFltb.
  intros H. apply andb_true_iff in H as [H1 H2]. destruct f as [[]|[]| |[] m e]; try done. cbn [SFcompare] in *. cbn [orb].
  rewrite Z.compare_antisym. destruct (Z.compare e (-52)); cbn [CompOpp] in *; [|done..].
  pose proof (Pos.compare_cont_antisym m 4503599627370496 Eq) as Ha. cbn [CompOpp] in Ha. rewrite <- Ha.
  by destruct (Pos.compare_cont Eq m 4503599627370496).
Qed.

Lemma rune_bytes_length k cur s : length (rune_bytes_from k cur s) ≤ S (length s).
Proof.
  revert k cur. induction s as [|a s IH]; intros k cur; cbn [rune_bytes_from length]; [lia|].
  destruct k as [|k]; [destruct (decode_rune a s) as [r n]; cbn [length]; specialize (IH (pred n) (r, [a]))
    |specialize (IH k (fst cur, snd cur ++ [a]))]; lia.
Qed.
Lemma fields_from_length sep cur s : length (fields_from sep cur s) ≤ S (length s).
Proof.
  revert cur. induction s as [|[r bs] s IH]; intros cur; cbn [fields_from length]; [destruct cur; cbn; lia|].
  destruct (sep r); [|specialize (IH (cur ++ bs)); lia]. rewrite length_app. specialize (IH []). destruct cur; cbn [length]; lia.
Qed.
Lemma FieldsFunc_length s sep : length (FieldsFunc s sep) ≤ S (String.length s).
Proof.
  unfold FieldsFunc, rune_bytes. etransitivity; [apply fields_from_length|]. rewrite length_tl.
  pose proof (rune_bytes_length 0 (0%N, []) (chars s)) as Hl.
  rewrite length_chars in Hl. lia.
Qed.
Lemma length_string_of_list l : String.length (String.string_of_list_ascii l) = length l.
Proof. induction l; cbn; auto. Qed.
Lemma encode_rune_length r : length (encode_rune r) ≤ 4.
Proof. unfold encode_rune. repeat case_match; cbn; lia. Qed.
Lemma runes_from_length i k s : length (runes_from i k s) ≤ length s.
Proof.
  revert i k. induction s as [|a s IH]; intros i k; cbn [runes_from length]; [lia|].
  destruct k as [|k]; [destruct (decode_rune a s) as [r n]; cbn [length]; specialize (IH (S i) (pred n))
    |specialize (IH (S i) k)]; lia.
Qed.

Lemma size_list_to_set_le (l : list string) : size (list_to_set l : gset string) ≤ length l.
Proof.
  induction l as [|x l IH]; [done|]. cbn [list_to_set length]. rewrite size_union_alt, size_singleton.
  etransitivity; [apply Nat.add_le_mono_l, (subseteq_size _ (list_to_set l)); set_solver|]. lia.
Qed.

Section spec.
Context `{!Sha256, !JsonMarshal Turn, !JsonMarshal Checkpoint, !UnicodeCase}.

Lemma ToLowerText_length s : String.length (ToLowerText s) ≤ 4 * String.length s.
Proof.
  unfold ToLowerText. case_match.
  - assert (String.length (ToLower s) = String.length s) as -> by (clear; induction s; cbn; auto). lia.
  - unfold string_of_runes, rune_list, runes. rewrite length_string_of_list, <- (length_chars s).
    pose proof (runes_from_length 0 0 (chars s)) as Hl. revert Hl. generalize (runes_from 0 0 (chars s)) as rs.
    intros rs Hl. assert (length (mjoin (encode_rune <$> (lower_rune <$> rs.*2))) ≤ 4 * length rs) as Hr; [|lia].
    clear Hl. induction rs as [|r rs IH]; [cbn; lia|]. rewrite !fmap_cons. cbn [mjoin list_join length]. rewrite length_app.
    pose proof (encode_rune_length (lower_rune r.2)) as H2. etransitivity; [exact (Nat.add_le_mono _ _ _ _ H2 IH)|lia].
Qed.

(** The bytes of a transcript. *)
Definition text_size (ts : list Turn) : nat := foldr (λ t n, S (String.length (tn_Content t)) + n) 0 ts.
Lemma text_size_app ts us : text_size (ts ++ us) = text_size ts + text_size us.
Proof. induction ts as [|t ts IH]; cbn; [done|]. fold text_size. unfold text_size in *. cbn in *. lia. Qed.

Lemma source_words_size start stop ts : size (source_words start stop ts) ≤ 4 * text_size ts.
Proof.
  unfold source_words. etransitivity; [apply size_list_to_set_le|]. induction ts as [|t ts IH]; cbn; [lia|].
  rewrite length_app. assert (length (if in_window start stop t then semanticWords (tn_Content t) else []) ≤
    4 * S (String.length (tn_Content t))) as Hw.
  { case_match; [|cbn; lia]. unfold semanticWords. etransitivity; [apply FieldsFunc_length|].
    pose proof (ToLowerText_length (tn_Content t)). lia. }
  unfold text_size in *. cbn in *. lia.
Qed.

Lemma retain_words st ws : size (foldl retain_word st ws).2 + (foldl retain_word st ws).1 = size st.2 + st.1.
Proof.
  revert st. induction ws as [|x ws IH]; intros [n X]; [done|]. cbn [foldl]. rewrite IH. unfold retain_word. cbn [fst snd].
  case_bool_decide as Hx; cbn [fst snd]; [|done]. rewrite size_difference by set_solver. rewrite size_singleton.
  assert (size X ≠ 0) by (intros E; apply size_empty_inv in E; set_solver). lia.
Qed.

Lemma coverage_inside ts start stop summary :
  (Z.of_nat (text_size ts) < 2 ^ 40)%Z → outside_unit (summaryCoverage ts start stop summary) = false.
Proof.
  intros Hs. unfold summaryCoverage. pose proof (source_words_size start stop ts) as Hw.
  destruct (size (source_words start stop ts) =? 0)%nat eqn:E0; [done|]. apply Nat.eqb_neq in E0.
  pose proof (retain_words (0, source_words start stop ts) (semanticWords summary)) as Hr. cbn [fst snd] in Hr.
  destruct (foldl retain_word _ _) as [n rest]. cbn [fst snd] in Hr. rewrite (proj2 (Nat.eqb_neq _ _)) by lia.
  apply unit_inside, quotient_unit; lia.
Qed.

(** ** The checks of [validateSessionState] *)

Definition last_hash (ts : list Turn) : string := match last ts with Some t => tn_Hash t | None => "" end.
Definition turns_ok (id : string) (ts : list Turn) : Prop :=
  fold_each_from 0 (check_turn id) "" ts = Ok (last_hash ts).
Definition checkpoints_ok (id : string) (ts : list Turn) (cs : list Checkpoint) : Prop :=
  ∃ acc, fold_each_from 0 (check_checkpoint id ts) no_checkpoints cs = Ok acc.
Definition archives_ok (id : string) (ts : list Turn) (l : list ArchiveWindow) : Prop :=
  fold_each_from 0 (check_archive id ts) [] l = Ok l.
Definition memories_ok (id : string) (ts : list Turn) (ms : list MemoryItem) : Prop :=
  check_each (check_memory id ts) ms = Ok tt.
Definition header_ok (s : Session) : Prop :=
  (se_ID s ≟ "") || (se_TenantID s ≟ "") || (se_WorkspaceID s ≟ "") || (se_ContextVersion s <=? 0)%Z = false.

Lemma check_turn_Ok id h i t h' : check_turn id h i t = Ok h' → h' = tn_Hash t ∧ tn_Sequence t = (Z.of_nat i + 1)%Z.
Proof.
  unfold check_turn. intros E. apply rbind_reject_Ok in E as [E [= <-]]. split; [done|].
  apply orb_false_iff in E as [E _]. do 4 apply orb_false_iff in E as [E _]. apply orb_false_iff in E as [_ E].
  by apply negb_false_iff, bool_decide_eq_true in E.
Qed.
Lemma turns_fold id ts h : fold_each_from 0 (check_turn id) "" ts = Ok h → h = last_hash ts.
Proof.
  intros E. pose proof (fold_each_inv (check_turn id) (λ s done, s = last_hash done) ts) as Hi. cbn beta in Hi.
  refine (Hi _ 0 "" [] h _ E); [|done]. intros s i x l s' _ Hx. apply check_turn_Ok in Hx as [-> _].
  unfold last_hash. by rewrite last_snoc.
Qed.
Lemma archives_fold id ts l l' : fold_each_from 0 (check_archive id ts) [] l = Ok l' → l' = l.
Proof.
  intros E. pose proof (fold_each_inv (check_archive id ts) (λ s done, s = done) l) as Hi. cbn beta in Hi.
  rewrite <- (app_nil_l l). refine (Hi _ 0 [] [] l' _ E); [|done]. intros s i x l0 s' -> Hx. unfold check_archive in Hx.
  res_inv Hx. by injection Hx as <-.
Qed.

Lemma valid_iff s : validateSessionState s = Ok tt ↔
  header_ok (ss_Session s) ∧ turns_ok (se_ID (ss_Session s)) (ss_Turns s)
  ∧ checkpoints_ok (se_ID (ss_Session s)) (ss_Turns s) (ss_Checkpoints s)
  ∧ archives_ok (se_ID (ss_Session s)) (ss_Turns s) (ss_Archives s)
  ∧ memories_ok (se_ID (ss_Session s)) (ss_Turns s) (ss_Memories s).
Proof.
  unfold validateSessionState. cbn zeta. rewrite rbind_reject_Ok, !rbind_any_Ok. unfold header_ok, memories_ok. split.
  - intros (Hh & [h Ht] & Hc & [l Ha] & Hm). pose proof (turns_fold _ _ _ Ht). pose proof (archives_fold _ _ _ _ Ha). by subst.
  - intros (Hh & Ht & Hc & Ha & Hm). split_and!; [done|by eexists|done|by eexists|done].
Qed.

(** *** Turns *)

Lemma turns_snoc id ts t : turns_ok id ts → check_turn id (last_hash ts) (length ts) t = Ok (tn_Hash t) → turns_ok id (ts ++ [t]).
Proof.
  unfold turns_ok. intros Ht Hc. rewrite fold_each_app, Ht. cbn [rbind fold_each_from]. rewrite Nat.add_0_l, Hc. cbn [rbind].
  unfold last_hash. by rewrite last_snoc.
Qed.
Lemma turns_prefix id ts us : turns_ok id (ts ++ us) → turns_ok id ts.
Proof.
  unfold turns_ok. rewrite fold_each_app. intros E. apply rbind_Ok in E as (h & Hh & _). by rewrite Hh, (turns_fold _ _ _ Hh).
Qed.
Lemma turns_sequence id ts i t : turns_ok id ts → ts !! i = Some t → tn_Sequence t = (Z.of_nat i + 1)%Z.
Proof.
  intros Ht Hi. apply list_elem_of_split_length in Hi as (l1 & l2 & -> & ->). rewrite cons_middle, app_assoc in Ht.
  apply turns_prefix in Ht. unfold turns_ok in Ht. rewrite fold_each_app in Ht. apply rbind_Ok in Ht as (h & _ & Ht).
  cbn [fold_each_from] in Ht. apply rbind_Ok in Ht as (h' & Hc & _). apply check_turn_Ok in Hc as [_ Hc]. by rewrite Nat.add_0_l in Hc.
Qed.

Lemma digest_ne s : digest s ≠ "".
Proof. done. Qed.

Lemma seal_turn_ok stamp id ts t :
  st_id stamp ≠ "" → validRole (tn_Role t) = true → blank (tn_Content t) = false → tn_SessionID t = id →
  check_turn id (last_hash ts) (length ts) (seal_turn stamp ts t) = Ok (tn_Hash (seal_turn stamp ts t)).
Proof.
  intros Hid Hr Hc Hs. apply rbind_reject_Ok. split; [|done]. rewrite !orb_false_iff.
  split_and!; try apply negb_false_iff; try (by apply bool_decide_eq_true); try done; apply bool_decide_eq_false.
  cbn [seal_turn tn_with_Hash tn_stamped tn_ID]. by case_bool_decide.
Qed.

(** *** Checkpoints *)

(** What the fold knows of the checkpoints it has passed. *)
Definition tool_phase (call : string) (cs : list Checkpoint) : option string :=
  if has_phase call CheckpointToolAfter cs then Some CheckpointToolAfter
  else if has_phase call CheckpointToolBefore cs then Some CheckpointToolBefore else None.
Definition acc_of (acc : checkpoint_acc) (cs : list Checkpoint) : Prop :=
  ca_last acc = last cs ∧ ca_open acc = compaction_open cs ∧ (∀ call, call ≠ "" → ca_tools acc !! call = tool_phase call cs)
  ∧ ∀ call, call ≠ "" → has_phase call CheckpointToolAfter cs = true → has_phase call CheckpointToolBefore cs = true.

Lemma has_phase_snoc call phase cs c :
  has_phase call phase (cs ++ [c]) = has_phase call phase cs || ((ck_ToolCallID c ≟ call) && (ck_Phase c ≟ phase)).
Proof. unfold has_phase. rewrite existsb_app. cbn [existsb]. by rewrite orb_false_r. Qed.

Lemma check_tool_acc tools c tools' cs :
  (∀ call, call ≠ "" → tools !! call = tool_phase call cs) → check_tool tools c = Ok tools' →
  (∀ call, call ≠ "" → tools' !! call = tool_phase call (cs ++ [c]))
  ∧ ∀ call, call ≠ "" → (has_phase call CheckpointToolAfter cs = true → has_phase call CheckpointToolBefore cs = true) →
      has_phase call CheckpointToolAfter (cs ++ [c]) = true → has_phase call CheckpointToolBefore (cs ++ [c]) = true.
Proof.
  intros HI Hc. unfold tool_phase in *. unfold check_tool in Hc. revert Hc.
  destruct (bool_decide_reflect (ck_ToolCallID c = "")) as [E|E].
  { intros [= <-]. split; intros call Hne; rewrite !has_phase_snoc, !(bool_decide_eq_false_2 (_ = call)) by congruence;
      rewrite !andb_false_l, !orb_false_r; auto. }
  pose proof (HI _ E) as Hcall. destruct (bool_decide_reflect (ck_Phase c = CheckpointToolBefore)) as [Eb|Eb].
  { intros Hc. apply rbind_reject_Ok in Hc as [Hr [= <-]]. apply bool_decide_eq_false in Hr. rewrite Hcall in Hr.
    split; intros call Hne; rewrite !has_phase_snoc, Eb, (bool_decide_eq_false_2 (_ = CheckpointToolAfter)) by done;
      rewrite andb_false_r, orb_false_r, (bool_decide_eq_true_2 (CheckpointToolBefore = _)), andb_true_r by done.
    - destruct (decide (ck_ToolCallID c = call)) as [<-|Hn].
      + rewrite lookup_insert_eq, bool_decide_eq_true_2, orb_true_r by done. by destruct (has_phase _ CheckpointToolAfter cs); [destruct Hr|].
      + rewrite lookup_insert_ne, bool_decide_eq_false_2, orb_false_r by done. auto.
    - intros Hi Ha. by rewrite (Hi Ha). }
  destruct (bool_decide_reflect (ck_Phase c = CheckpointToolAfter)) as [Ea|Ea].
  { intros Hc. apply rbind_reject_Ok in Hc as [Hr [= <-]]. apply negb_false_iff, bool_decide_eq_true in Hr. rewrite Hcall in Hr.
    assert (has_phase (ck_ToolCallID c) CheckpointToolBefore cs = true) as Hb.
    { by destruct (has_phase _ CheckpointToolAfter cs), (has_phase _ CheckpointToolBefore cs). }
    split; intros call Hne; rewrite !has_phase_snoc, Ea, (bool_decide_eq_true_2 (CheckpointToolAfter = _)), andb_true_r by done;
      rewrite (bool_decide_eq_false_2 (_ = CheckpointToolBefore)), andb_false_r, orb_false_r by done.
    - destruct (decide (ck_ToolCallID c = call)) as [<-|Hn].
      + by rewrite lookup_insert_eq, bool_decide_eq_true_2, orb_true_r.
      + rewrite lookup_insert_ne, bool_decide_eq_false_2, orb_false_r by done. auto.
    - intros Hi. destruct (decide (ck_ToolCallID c = call)) as [<-|Hn]; [done|]. by rewrite bool_decide_eq_false_2, orb_false_r by done. }
  intros [= <-]. split; intros call Hne; rewrite !has_phase_snoc, !(bool_decide_eq_false_2 (ck_Phase c = _)) by done;
    rewrite !andb_false_r, !orb_false_r; auto.
Qed.

Lemma check_compaction_acc open c open' cs :
  open = compaction_open cs → check_compaction open c = Ok open' → open' = compaction_open (cs ++ [c]).
Proof.
  intros ->. unfold compaction_open at 2. rewrite foldl_app. cbn [foldl]. fold (compaction_open cs).
  unfold compaction_step, check_compaction. destruct (ck_Phase c ≟ CheckpointCompactionBegin), (ck_Phase c ≟ CheckpointCompactionDone); intros Hc;
    try apply rbind_reject_Ok in Hc as [_ Hc]; by injection Hc as <-.
Qed.

Lemma check_checkpoint_acc id ts acc i c acc' cs :
  acc_of acc cs → check_checkpoint id ts acc i c = Ok acc' → acc_of acc' (cs ++ [c]).
Proof.
  intros (H1 & H2 & H3 & H4) Hc. unfold check_checkpoint in Hc. apply rbind_reject_Ok in Hc as [_ Hc].
  apply rbind_reject_Ok in Hc as [_ Hc]. apply rbind_Ok in Hc as (tools & Ht & Hc). apply rbind_Ok in Hc as (open & Ho & [= <-]).
  destruct (check_tool_acc _ _ _ _ H3 Ht) as [H5 H6]. split_and!; cbn [ca_last ca_open ca_tools].
  - by rewrite last_snoc.
  - by eapply check_compaction_acc.
  - done.
  - intros call Hne. apply H6; [done|]. by apply H4.
Qed.
Lemma acc_of_fold id ts cs acc : fold_each_from 0 (check_checkpoint id ts) no_checkpoints cs = Ok acc → acc_of acc cs.
Proof.
  intros E. pose proof (fold_each_inv (check_checkpoint id ts) acc_of cs) as Hi. rewrite <- (app_nil_l cs).
  refine (Hi _ 0 no_checkpoints [] acc _ E); [intros; by eapply check_checkpoint_acc|].
  split_and!; [done|done|intros; apply lookup_empty|done].
Qed.

Lemma fold_each_mono {A B} (f g : B → nat → A → result B) xs i s s' :
  (∀ s i x s', f s i x = Ok s' → x ∈ xs → g s i x = Ok s') → fold_each_from i f s xs = Ok s' → fold_each_from i g s xs = Ok s'.
Proof.
  revert i s. induction xs as [|x xs IH]; intros i s Hfg; [done|]. cbn [fold_each_from]. intros E.
  apply rbind_Ok in E as (s1 & E1 & E2). rewrite (Hfg _ _ _ _ E1) by left. cbn [rbind]. apply IH; [|done].
  intros s2 j y s3 Hf Hy. apply Hfg; [done|by right].
Qed.

Lemma hasTurnHash_app ts us h : hasTurnHash ts h = true → hasTurnHash (ts ++ us) h = true.
Proof. unfold hasTurnHash. rewrite existsb_app. by intros ->. Qed.
Lemma hasTurnID_app ts us h : hasTurnID ts h = true → hasTurnID (ts ++ us) h = true.
Proof. unfold hasTurnID. rewrite existsb_app. by intros ->. Qed.
Lemma last_hash_has ts : last_hash ts ≠ "" → hasTurnHash ts (last_hash ts) = true.
Proof.
  unfold last_hash, hasTurnHash. destruct (last ts) as [t|] eqn:E; [|done]. intros _. apply existsb_exists. exists t.
  split; [|by apply bool_decide_eq_true]. apply list_elem_of_In. apply last_Some in E as [l ->]. apply elem_of_app. right. by left.
Qed.

Lemma checkpoints_mono id ts us cs : checkpoints_ok id ts cs → checkpoints_ok id (ts ++ us) cs.
Proof.
  intros [acc Hacc]. exists acc. eapply fold_each_mono; [|done]. intros s i c s' Hc _. unfold check_checkpoint in *.
  apply rbind_reject_Ok in Hc as [H1 Hc]. apply rbind_reject_Ok in Hc as [H2 Hc]. apply rbind_reject_Ok. split.
  { rewrite !orb_false_iff in *. rewrite length_app. destruct_and! H1. split_and!; try done.
    match goal with Hz : (Z.of_nat _ <? _)%Z = false |- _ => apply Z.ltb_ge in Hz; apply Z.ltb_ge; lia end. }
  apply rbind_reject_Ok. split; [|done]. apply andb_false_iff in H2 as [H2|H2]; apply andb_false_iff; [by left|right].
  apply negb_false_iff in H2. apply negb_false_iff. by apply hasTurnHash_app.
Qed.

(** A checkpoint [saveCheckpointLocked] adds passes the checks of a restart. *)
Lemma seal_checkpoint_ok stamp s c acc :
  st_id stamp ≠ "" → phase_valid (ck_Phase c) = true → (0 ≤ ck_TurnSequence c ≤ Z.of_nat (length (ss_Turns s)))%Z →
  (0 < ck_ContextVersion c)%Z → (ck_EventHash c ≠? "") && negb (hasTurnHash (ss_Turns s) (ck_EventHash c)) = false →
  admit_checkpoint (ss_Checkpoints s) c = Ok tt → acc_of acc (ss_Checkpoints s) →
  ∃ acc', check_checkpoint (se_ID (ss_Session s)) (ss_Turns s) acc (length (ss_Checkpoints s))
            (seal_checkpoint stamp (se_ID (ss_Session s)) (ss_Checkpoints s) c) = Ok acc'.
Proof.
  intros Hid Hp Hs Hv He Ha (H1 & H2 & H3 & H4). set (cs := ss_Checkpoints s) in *. set (c' := seal_checkpoint _ _ cs c).
  unfold admit_checkpoint in Ha. apply rbind_unit_Ok in Ha as [Hlast Ha]. apply rbind_reject_Ok in Ha as [_ Ha].
  apply rbind_unit_Ok in Ha as [Htool Hcomp].
  assert (Htools : ∃ tools, check_tool (ca_tools acc) c' = Ok tools).
  { unfold check_tool. change (ck_ToolCallID c') with (ck_ToolCallID c). change (ck_Phase c') with (ck_Phase c).
    destruct (bool_decide_reflect (ck_ToolCallID c = "")) as [|Hne]; [by eexists|]. rewrite (H3 _ Hne). unfold tool_phase.
    destruct (ck_Phase c ≟ CheckpointToolBefore).
    - apply reject_tt in Htool. rewrite Htool. destruct (has_phase _ CheckpointToolAfter cs) eqn:Ea; [by rewrite (H4 _ Hne Ea) in Htool|].
      rewrite (bool_decide_eq_false_2 (is_Some None)) by (by intros []). by eexists.
    - destruct (ck_Phase c ≟ CheckpointToolAfter); [|by eexists]. apply reject_tt, orb_false_iff in Htool as [Hb Hf].
      apply negb_false_iff in Hb. rewrite Hf, Hb. cbn [default]. rewrite (bool_decide_eq_true_2 (_ = _)) by done. by eexists. }
  assert (Hopen : ∃ open, check_compaction (ca_open acc) c' = Ok open).
  { unfold check_compaction. change (ck_Phase c') with (ck_Phase c). rewrite H2.
    destruct (ck_Phase c ≟ CheckpointCompactionBegin); [apply reject_tt in Hcomp; rewrite Hcomp; by eexists|].
    destruct (ck_Phase c ≟ CheckpointCompactionDone); [|by eexists]. apply reject_tt in Hcomp. rewrite Hcomp. by eexists. }
  destruct Htools as [tools Ht], Hopen as [open Ho]. exists {| ca_last := Some c'; ca_tools := tools; ca_open := open |}.
  unfold check_checkpoint. apply rbind_reject_Ok. split;
    [|change (ck_EventHash c') with (ck_EventHash c); rewrite He, Ht; cbn [rbind reject]; by rewrite Ho].
  rewrite H1, !orb_false_iff. split_and!; try apply negb_false_iff; try (by apply bool_decide_eq_true); try done.
  - apply bool_decide_eq_false. unfold c'. cbn [seal_checkpoint ck_with_Hash ck_stamped ck_ID]. clear -Hid. by case_bool_decide.
  - apply Z.ltb_ge. apply Hs.
  - apply Z.leb_gt. apply Hv.
  - apply Z.ltb_ge. apply Hs.
  - change (ck_TurnSequence c') with (ck_TurnSequence c). change (ck_ContextVersion c') with (ck_ContextVersion c).
    destruct (last cs) as [l|]; [|done]. apply rbind_reject_Ok in Hlast as [-> Hlast]. by apply reject_tt in Hlast.
Qed.

(** The two outcomes of [saveCheckpointLocked]: a replay, or one more checkpoint. *)
Lemma save_checkpoint_inv stamp s c s' c' :
  saveCheckpointLocked stamp s c = Ok (s', c') →
  (s' = s ∧ c' ∈ ss_Checkpoints s) ∨
  (s' = touch (st_now stamp) (ss_with_Checkpoints (ss_Checkpoints s ++ [c']) s)
   ∧ (st_id stamp ≠ "" → ∀ acc, acc_of acc (ss_Checkpoints s) →
      ∃ acc', check_checkpoint (se_ID (ss_Session s)) (ss_Turns s) acc (length (ss_Checkpoints s)) c' = Ok acc')).
Proof.
  unfold saveCheckpointLocked. cbn zeta. intros E. apply rbind_reject_Ok in E as [H1 E]. apply rbind_reject_Ok in E as [H2 E].
  apply rbind_reject_Ok in E as [H3 E]. apply rbind_reject_Ok in E as [H4 E].
  set (c0 := if (ck_ContextVersion c =? 0)%Z then _ else c) in *.
  assert (ck_Phase c0 = ck_Phase c ∧ ck_TurnSequence c0 = ck_TurnSequence c) as [Ep Es] by (unfold c0; by destruct (ck_ContextVersion c =? 0)%Z).
  destruct (find _ _) as [e|] eqn:Ef.
  - apply rbind_reject_Ok in E as [_ [= <- <-]]. left. split; [done|]. apply find_some in Ef as [Ef _]. by apply list_elem_of_In.
  - apply rbind_unit_Ok in E as [Ha [= <- <-]]. right. split; [done|]. intros Hid acc Hacc.
    apply orb_false_iff in H1 as [H1 _]. apply orb_false_iff in H1 as [Hp Hs]. apply negb_false_iff in Hp. apply Z.ltb_ge in Hs.
    apply Z.leb_gt in H2. apply Z.ltb_ge in H3. apply seal_checkpoint_ok; try done; [by rewrite Ep|split; [|done]]. by rewrite Es.
Qed.

Lemma checkpoints_snoc id ts cs c :
  checkpoints_ok id ts cs → (∀ acc, acc_of acc cs → ∃ acc', check_checkpoint id ts acc (length cs) c = Ok acc') →
  checkpoints_ok id ts (cs ++ [c]).
Proof.
  intros [acc Hacc] Hc. destruct (Hc acc (acc_of_fold _ _ _ _ Hacc)) as [acc' Hacc']. exists acc'.
  rewrite fold_each_app, Hacc. cbn [rbind fold_each_from]. by rewrite Nat.add_0_l, Hacc'.
Qed.

(** *** Archives and memories *)

Lemma window_source_app start stop ts us :
  (∀ t, t ∈ us → (stop < tn_Sequence t)%Z) → window_source start stop (ts ++ us) = window_source start stop ts.
Proof.
  intros Hus. unfold window_source. rewrite foldr_app. f_equal. induction us as [|u us IH]; [done|]. cbn [foldr].
  rewrite IH by (intros; apply Hus; by right). unfold in_window. rewrite (proj2 (Z.leb_gt (tn_Sequence u) stop)) by (apply Hus; left).
  by rewrite andb_false_r.
Qed.

Lemma later_sequence id ts us t : turns_ok id (ts ++ us) → t ∈ us → (Z.of_nat (length ts) < tn_Sequence t)%Z.
Proof.
  intros Ht Hin. apply list_elem_of_lookup in Hin as [i Hi].
  rewrite (turns_sequence id (ts ++ us) (length ts + i) t Ht); [lia|]. rewrite lookup_app_r by lia. by rewrite Nat.add_comm, Nat.add_sub.
Qed.

Lemma archives_mono id ts us l : turns_ok id (ts ++ us) → archives_ok id ts l → archives_ok id (ts ++ us) l.
Proof.
  intros Ht Ha. eapply fold_each_mono; [|exact Ha]. intros s i a s' Hc _. unfold check_archive in *.
  apply rbind_reject_Ok in Hc as [H1 Hc]. apply rbind_reject_Ok in Hc as [H2 Hc].
  rewrite !orb_false_iff in H1. destruct H1 as [[[Hs H1] H3] H4]. apply Z.ltb_ge in H4.
  apply rbind_reject_Ok. split; [rewrite !orb_false_iff; split_and!; try done; apply Z.ltb_ge; rewrite length_app; lia|].
  apply rbind_reject_Ok. split; [|done]. rewrite window_source_app; [done|]. intros t Hin.
  pose proof (later_sequence _ _ _ _ Ht Hin). lia.
Qed.

Lemma memories_mono id ts us ms : memories_ok id ts ms → memories_ok id (ts ++ us) ms.
Proof.
  unfold memories_ok. rewrite !check_each_Ok. intros Hm k m Hk. specialize (Hm k m Hk). unfold check_memory in *.
  apply rbind_reject_Ok in Hm as [-> Hm]. cbn [reject rbind]. apply rbind_unit_Ok in Hm as [Hm ->]. apply rbind_unit_Ok. split; [|done].
  rewrite check_each_reject in Hm. rewrite check_each_reject. eapply Forall_impl; [exact Hm|]. intros x Hx.
  apply negb_false_iff in Hx. apply negb_false_iff. by apply hasTurnID_app.
Qed.

(** A record an automatic compaction hands over. *)
Definition record_ok (r : CompressionRecord) : Prop :=
  cr_Algorithm r = "" ∨
  cr_SourceHash r = "" ∧ cr_SummaryHash r = "" ∧ cr_ReplayKey r = "" ∧ blank (cr_Version r) = false
  ∧ outside_unit (cr_QualityScore r) = false.

Lemma digest_not_blank d s : blank (digest d +:+ s) = false.
Proof. apply (not_blank "s"%char); [cbn; left|done|done]. Qed.

Lemma archive_of_ok stamp s q i :
  (Z.of_nat (text_size (ss_Turns s)) < 2 ^ 40)%Z → record_ok (cq_compression q) →
  (1 ≤ cq_StartSequence q)%Z → (cq_StartSequence q ≤ cq_EndSequence q ≤ Z.of_nat (length (ss_Turns s)))%Z →
  existsb (overlaps (cq_StartSequence q) (cq_EndSequence q)) (ss_Archives s) = false →
  check_archive (se_ID (ss_Session s)) (ss_Turns s) (ss_Archives s) i (archive_of stamp s q)
  = Ok (ss_Archives s ++ [archive_of stamp s q]).
Proof.
  intros Hsize Hr H1 H2 Ho. set (a := archive_of stamp s q). unfold check_archive. apply rbind_reject_Ok. split.
  { rewrite !orb_false_iff. split_and!; [by apply negb_false_iff, bool_decide_eq_true|apply Z.ltb_ge; unfold a; cbn [archive_of aw_StartSequence aw_EndSequence]; lia..]. }
  apply rbind_reject_Ok. split.
  { rewrite !orb_false_iff. split; apply negb_false_iff, bool_decide_eq_true; [done|].
    unfold a. cbn [archive_of aw_ReplacementHash aw_Summary]. by rewrite TrimSpace_idem. }
  apply rbind_reject_Ok. split.
  { unfold compression_broken. apply andb_false_iff.
    assert (Hb : ∀ d d', digest d +:+ ":" +:+ d' = digest d +:+ (":" +:+ d')) by done.
    unfold a, archive_of. cbn [aw_Compression aw_SourceHash aw_ReplacementHash cr_filled cr_Algorithm cr_SourceHash cr_SummaryHash
      cr_QualityScore cr_Version cr_ReplayKey].
    destruct (bool_decide_reflect (cr_Algorithm (cq_compression q) = "")) as [E|E].
    - right. cbn [operator_record cr_SourceHash cr_SummaryHash cr_QualityScore cr_Version cr_ReplayKey].
      rewrite !(bool_decide_eq_false_2 (_ = "")) by done. rewrite !(bool_decide_eq_true_2 (_ = _)) by done.
      rewrite coverage_inside by done. by rewrite digest_not_blank.
    - destruct Hr as [Hr|(E1 & E2 & E3 & E4 & E5)]; [done|]. right. rewrite E1, E2, E3, E4, E5.
      rewrite !(bool_decide_eq_true_2 (_ = _)) by done. by rewrite digest_not_blank. }
  apply rbind_reject_Ok. split.
  { unfold a. cbn [archive_of aw_ParentArchiveID]. destruct (last (ss_Archives s)); [|done]. by apply negb_false_iff, bool_decide_eq_true. }
  apply rbind_reject_Ok. split; [exact Ho|done].
Qed.

Lemma compact_inv stamp s q s' a :
  compactLocked stamp s q = Ok (s', a) →
  a = archive_of stamp s q
  ∧ s' = ss_with_Session (se_with_ContextVersion (add64 (se_ContextVersion (ss_Session s)) 1) (st_now stamp) (ss_Session s))
           (ss_with_Archives (ss_Archives s ++ [a]) s)
  ∧ ((Z.of_nat (text_size (ss_Turns s)) < 2 ^ 40)%Z → record_ok (cq_compression q) →
     check_archive (se_ID (ss_Session s)) (ss_Turns s) (ss_Archives s) (length (ss_Archives s)) a = Ok (ss_Archives s ++ [a])).
Proof.
  unfold compactLocked. cbn zeta. intros E. apply rbind_reject_Ok in E as [H1 E]. apply rbind_reject_Ok in E as [_ E].
  apply rbind_reject_Ok in E as [Ho [= <- <-]]. split_and!; [done|done|]. intros Hsize Hr.
  rewrite !orb_false_iff in H1. destruct H1 as [[[H1 H2] H3] _]. apply Z.ltb_ge in H1, H2, H3. by apply archive_of_ok.
Qed.

Lemma archives_snoc id ts l a :
  archives_ok id ts l → check_archive id ts l (length l) a = Ok (l ++ [a]) → archives_ok id ts (l ++ [a]).
Proof. unfold archives_ok. intros Hl Ha. rewrite fold_each_app, Hl. cbn [rbind fold_each_from]. by rewrite Nat.add_0_l, Ha. Qed.

(** ** Sound sessions *)

(** The size of what a session holds; Go's slices and strings are far smaller. *)
Definition fits (s : sessionState) : Prop :=
  (Z.of_nat (text_size (ss_Turns s) + length (ss_Archives s)) < 2 ^ 40)%Z.
(** A session under its own id, whose version counts its archives, and valid. *)
Definition sound (id : string) (s : sessionState) : Prop :=
  se_ID (ss_Session s) = id
  ∧ se_ContextVersion (ss_Session s) = wrap64 (1 + Z.of_nat (length (ss_Archives s)))
  ∧ (fits s → validateSessionState s = Ok tt).
(** Turns, checkpoints and archives are only added, at the end. *)
Definition grows (s s' : sessionState) : Prop :=
  ss_Turns s `prefix_of` ss_Turns s' ∧ ss_Checkpoints s `prefix_of` ss_Checkpoints s'
  ∧ ss_Archives s `prefix_of` ss_Archives s'.

#[global] Instance grows_po : PreOrder grows.
Proof. split; [by intros s; split_and!|]. intros a b c (? & ? & ?) (? & ? & ?). split_and!; by etrans. Qed.

Lemma fits_grows s s' : grows s s' → fits s' → fits s.
Proof.
  intros ([ts Et] & _ & [l El]). unfold fits. rewrite Et, El, text_size_app, length_app. lia.
Qed.

Lemma header_stable s s' :
  se_ID s' = se_ID s → se_TenantID s' = se_TenantID s → se_WorkspaceID s' = se_WorkspaceID s →
  (se_ContextVersion s' <=? 0)%Z = false → header_ok s → header_ok s'.
Proof. unfold header_ok. intros -> -> -> ->. rewrite !orb_false_iff. naive_solver. Qed.
Lemma header_version s : header_ok s → (se_ContextVersion s <=? 0)%Z = false.
Proof. unfold header_ok. rewrite !orb_false_iff. naive_solver. Qed.

Lemma sound_touch id now s : sound id s → sound id (touch now s).
Proof.
  intros (H1 & H2 & H3). split_and!; [done|done|]. intros Hf. apply valid_iff. apply H3, valid_iff in Hf. exact Hf.
Qed.
Lemma grows_touch now s s' : grows s s' → grows s (touch now s').
Proof. done. Qed.

Lemma save_checkpoint_sound stamp id s c s' c' :
  st_id stamp ≠ "" → sound id s → saveCheckpointLocked stamp s c = Ok (s', c') → sound id s' ∧ grows s s'.
Proof.
  intros Hid Hs E. destruct (save_checkpoint_inv _ _ _ _ _ E) as [[-> _]|[-> Hc]]; [done|]. split.
  - apply sound_touch. destruct Hs as (H1 & H2 & H3). split_and!; [done|done|]. intros Hf. apply valid_iff.
    apply H3, valid_iff in Hf as (Hh & Ht & Hck & Ha & Hm). cbn [ss_with_Checkpoints ss_Session ss_Turns ss_Archives ss_Memories ss_Checkpoints].
    split_and!; try done. apply checkpoints_snoc; auto.
  - split_and!; try done. by exists [c'].
Qed.

Lemma compact_sound stamp id s q s' a :
  (fits s' → record_ok (cq_compression q)) → sound id s → compactLocked stamp s q = Ok (s', a) → sound id s' ∧ grows s s'.
Proof.
  intros Hr Hs E. destruct (compact_inv _ _ _ _ _ E) as (_ & E' & Hc).
  assert (Hg : grows s s') by (subst s'; split_and!; [done|done|by exists [a]]). split; [|done].
  destruct Hs as (H1 & H2 & H3). split_and!; [by subst s'| |].
  - subst s'. cbn [ss_with_Session ss_Session se_with_ContextVersion se_ContextVersion ss_Archives ss_with_Archives].
    rewrite H2, length_app. unfold add64, wrap64. cbn [length]. rewrite Nat2Z.inj_add. change (Z.of_nat 1) with 1%Z.
    set (n := Z.of_nat _). f_equal. replace ((1 + n + two63) mod two64 - two63 + 1 + two63)%Z with ((1 + n + two63) mod two64 + 1)%Z by lia.
    rewrite Z.add_mod_idemp_l by done. f_equal. lia.
  - intros Hf. apply valid_iff. pose proof Hf as Hf'. apply (fits_grows _ _ Hg) in Hf. pose proof Hf as Hfs.
    apply H3, valid_iff in Hf as (Hh & Ht & Hck & Ha & Hm).
    assert (Hsize : (Z.of_nat (text_size (ss_Turns s)) < 2 ^ 40)%Z) by (unfold fits in Hfs; lia).
    specialize (Hc Hsize (Hr Hf')). subst s'.
    cbn [ss_with_Session ss_with_Archives ss_Session ss_Turns ss_Archives ss_Memories ss_Checkpoints se_with_ContextVersion se_ID].
    split_and!; try done; [|by apply archives_snoc].
    apply (header_stable (ss_Session s)); try done. cbn [se_with_ContextVersion se_ContextVersion].
    rewrite H2. unfold fits in Hfs. unfold add64. assert (0 ≤ Z.of_nat (length (ss_Archives s)) < 2 ^ 40)%Z by lia.
    rewrite (wrap64_id (1 + _)) by (unfold int64_range, two63; lia). rewrite wrap64_id by (unfold int64_range, two63; lia).
    apply Z.leb_gt. lia.
Qed.

Definition fresh_ok (fresh : nat → Stamp) : Prop := ∀ i, st_id (fresh i) ≠ "".
(** The contract of a summarizer: its quality score is a fraction. *)
Definition request_size (bs : list Block) : nat := foldr (λ b n, S (String.length (b_Content b)) + n) 0 bs.
Definition sm_ok (sm : Summarizer) : Prop :=
  ∀ q r, (Z.of_nat (request_size (sq_Blocks q)) < 2 ^ 40)%Z → sm q = inl r → outside_unit (sr_QualityScore r) = false.

Lemma total_weight_perm fs gs : fs ≡ₚ gs → total_weight fs = total_weight gs.
Proof. unfold total_weight. induction 1; cbn in *; lia. Qed.
Lemma fact_weight_bounds b text : (1 ≤ fact_weight b text ≤ 45)%Z.
Proof.
  unfold fact_weight. cbn zeta. pose proof (length_filter (λ k, Contains (ToLower text) k = true) summary_keywords) as Hl.
  change (length summary_keywords) with 12 in Hl. destruct b; lia.
Qed.
Lemma chosen_weight estimate target facts st :
  Forall (λ f, 1 ≤ sf_Weight f)%Z facts →
  (total_weight st.1 ≤ total_weight (foldl (take_fact estimate target) st facts).1 ≤ total_weight st.1 + total_weight facts)%Z.
Proof.
  intros Hf. revert st. induction Hf as [|f facts Hf Hfs IH]; intros [sel used]; [cbn; lia|]. cbn [foldl].
  specialize (IH (take_fact estimate target (sel, used) f)).
  assert (∀ l, total_weight (l ++ [f]) = total_weight l + sf_Weight f)%Z as Happ.
  { intros l. rewrite <- (total_weight_perm (f :: l)) by (by rewrite Permutation_cons_append).
    change (total_weight (f :: l)) with (sf_Weight f + total_weight l)%Z. lia. }
  change (total_weight (f :: facts)) with (sf_Weight f + total_weight facts)%Z. cbn [fst].
  assert ((take_fact estimate target (sel, used) f).1 = sel ∨ (take_fact estimate target (sel, used) f).1 = sel ++ [f]) as [E|E]
    by (unfold take_fact; cbn zeta; case_match; auto); rewrite E, ?Happ in IH; lia.
Qed.

Lemma length_append a b : String.length (a +:+ b) = String.length a + String.length b.
Proof. induction a as [|c a IH]; [done|]. rewrite append_cons. cbn [String.length]. by rewrite IH. Qed.
Lemma replace_length k old new s : String.length new ≤ 1 → String.length (replace_from k old new s) ≤ String.length s.
Proof.
  intros Hn. revert k. induction s as [|a s IH]; intros k; cbn [replace_from String.length]; [lia|].
  destruct k as [|k]; [|specialize (IH k); lia]. case_match; [|cbn [String.length]; specialize (IH 0); lia].
  specialize (IH (pred (String.length old))). rewrite length_append. lia.
Qed.
Lemma break_sentences_length s : String.length (break_sentences s) = String.length s.
Proof.
  enough (∀ n s, String.length s ≤ n → String.length (break_sentences s) = String.length s) by eauto.
  clear. intros n. induction n as [|n IH]; intros [|a [|b s]] Hn; try done; [cbn in Hn; lia|]. cbn [String.length] in Hn.
  assert (break_sentences (String a (String b s)) =
    if ends_sentence a && (String b "" ≟ " ") then String a (String nl (break_sentences s))
    else String a (break_sentences (String b s))) as -> by done.
  case_match; cbn [String.length]; rewrite IH by (cbn [String.length]; lia); done.
Qed.
Lemma Split_length sep s : length (Split sep s) ≤ S (String.length s).
Proof.
  induction s as [|a s IH]; cbn [Split length String.length]; [lia|]. case_match; cbn [length]; [lia|]. case_match; cbn [length] in *; lia.
Qed.
Lemma append_unique_length seen l : length (append_unique_from seen l) ≤ length l.
Proof. revert seen. induction l as [|x l IH]; intros seen; cbn; [lia|]. case_match; [specialize (IH seen)|specialize (IH (x :: seen))]; cbn; lia. Qed.
Lemma semanticFacts_length content : length (semanticFacts content) ≤ S (String.length content).
Proof.
  unfold semanticFacts. etransitivity; [apply append_unique_length|]. rewrite length_fmap. etransitivity; [apply Split_length|].
  rewrite break_sentences_length. apply le_n_S, replace_length. done.
Qed.

Lemma summary_facts_weight bs :
  Forall (λ f, 1 ≤ sf_Weight f)%Z (summary_facts bs) ∧ (total_weight (summary_facts bs) ≤ 45 * Z.of_nat (request_size bs))%Z.
Proof.
  unfold summary_facts. set (pairs := mjoin _).
  assert (length pairs ≤ request_size bs) as Hl.
  { unfold pairs. clear. induction bs as [|b bs IH]; [done|]. cbn [fmap list_fmap mjoin list_join request_size foldr].
    rewrite length_app, length_fmap. fold (request_size bs). pose proof (semanticFacts_length (b_Content b)) as Hs.
    exact (Nat.add_le_mono _ _ _ _ Hs IH). }
  assert (∀ k, Forall (λ f, 1 ≤ sf_Weight f)%Z (imap (λ i (bt : Block * string),
      {| sf_ID := factDigest (b_ID bt.1) bt.2; sf_Text := bt.2; sf_Weight := fact_weight (b_Mandatory bt.1) bt.2;
         sf_Position := k + i |}) pairs)
    ∧ (total_weight (imap (λ i (bt : Block * string),
      {| sf_ID := factDigest (b_ID bt.1) bt.2; sf_Text := bt.2; sf_Weight := fact_weight (b_Mandatory bt.1) bt.2;
         sf_Position := k + i |}) pairs) ≤ 45 * Z.of_nat (length pairs))%Z) as Hw.
  { clear Hl. induction pairs as [|p l IH]; intros k; [by split|]. cbn [imap]. destruct (IH (S k)) as [IH1 IH2].
    pose proof (fact_weight_bounds (b_Mandatory p.1) p.2) as Hb.
    rewrite (imap_ext (_ ∘ S) (λ i (bt : Block * string),
      {| sf_ID := factDigest (b_ID bt.1) bt.2; sf_Text := bt.2; sf_Weight := fact_weight (b_Mandatory bt.1) bt.2;
         sf_Position := S k + i |})) by (intros i x _; cbn; f_equal; lia).
    split; [constructor; [cbn; lia|done]|].
    match goal with |- (total_weight (?x :: ?r) ≤ _)%Z => change (total_weight (x :: r)) with (sf_Weight x + total_weight r)%Z end.
    cbn [sf_Weight length]. lia. }
  destruct (Hw 0) as [H1 H2]. cbn [Nat.add] in H1, H2. split; [exact H1|]. etransitivity; [exact H2|]. lia.
Qed.

(** The store's own summarizer meets the contract. *)
Lemma Summarize_ok : sm_ok Summarize.
Proof.
  intros q r Hsize. unfold Summarize. case_match; [done|]. cbn zeta. case_bool_decide; [done|]. case_bool_decide as Hc; [done|].
  intros [= <-]. cbn [sr_QualityScore]. destruct (summary_facts_weight (sq_Blocks q)) as [Hf Ht].
  set (facts := summary_facts _) in *. set (chosen := (foldl _ _ _).1) in *.
  rewrite (total_weight_perm (stable_sort position_le chosen) chosen) by apply stable_sort_perm.
  pose proof (chosen_weight (sq_Estimate q) (sq_TargetTokens q) (stable_sort fact_le facts) ([], 0%Z)) as Hw.
  rewrite (total_weight_perm (stable_sort fact_le facts) facts) in Hw by apply stable_sort_perm.
  assert (Forall (λ f, 1 ≤ sf_Weight f)%Z (stable_sort fact_le facts)) as Hs.
  { rewrite (stable_sort_perm fact_le facts). exact Hf. }
  specialize (Hw Hs). fold chosen in Hw.
  change (total_weight ([], 0%Z).1) with 0%Z in Hw. apply unit_inside, quotient_unit; [lia|]. split; [|lia].
  destruct facts as [|f fs]; [done|]. apply Forall_cons in Hf as [Hf Hfs].
  change (0 < sf_Weight f + total_weight fs)%Z. assert (0 ≤ total_weight fs)%Z; [|lia]. clear -Hfs.
  induction Hfs as [|g l Hg Hl IH]; [done|]. change (0 ≤ sf_Weight g + total_weight l)%Z. lia.
Qed.

Lemma text_size_active archives b ts : text_size (active_turns archives b ts) ≤ text_size ts.
Proof.
  revert b. induction ts as [|t ts IH]; intros b; cbn [active_turns]; [done|].
  assert (text_size (t :: ts) = S (String.length (tn_Content t)) + text_size ts) as Et by done. rewrite Et.
  case_match; [case_match; [unfold text_size; cbn; lia|specialize (IH false); lia]|].
  change (S (String.length (tn_Content t)) + text_size (active_turns archives true ts) ≤ S (String.length (tn_Content t)) + text_size ts).
  specialize (IH true). lia.
Qed.
Lemma text_size_take n ts : text_size (take n ts) ≤ text_size ts.
Proof. rewrite <- (take_drop n ts) at 2. rewrite text_size_app. lia. Qed.

Lemma auto_window_size tk s selected : auto_window tk s = Some selected → text_size selected ≤ text_size (ss_Turns s).
Proof.
  unfold auto_window. cbn zeta. repeat (case_match; try done). intros [= <-].
  etransitivity; [apply text_size_take|apply text_size_active].
Qed.

Lemma summarize_record_ok sm tk budget selected start stop n :
  sm_ok sm → (Z.of_nat (text_size selected) < 2 ^ 40)%Z → record_ok (summarize_turns sm tk budget selected start stop n).2.
Proof.
  intros Hsm Hsize. right. unfold summarize_turns. cbn zeta. set (q := {| sq_Blocks := _ |}).
  destruct (sm q) as [r|m] eqn:E.
  - case_match; [split_and!; [done..|by apply coverage_inside]|]. case_match; [split_and!; [done..|by apply coverage_inside]|].
    split_and!; [done..|]. apply (Hsm q); [|done]. cbn [q sq_Blocks]. assert (request_size (turn_block tk <$> selected) = text_size selected) as ->; [|done].
    clear. induction selected as [|t l IH]; [done|]. change (S (String.length (tn_Content t)) + request_size (turn_block tk <$> l) = S (String.length (tn_Content t)) + text_size l). by rewrite IH.
  - split_and!; [done..|by apply coverage_inside].
Qed.

Lemma auto_sound fresh sm tk id s s' a :
  fresh_ok fresh → sm_ok sm → sound id s → autoCompactLocked fresh sm tk s = Ok (s', a) → sound id s' ∧ grows s s'.
Proof.
  intros Hf Hsm Hs E. unfold autoCompactLocked in E. cbn zeta in E. case_match; [by injection E as <- _|].
  destruct (auto_window _ s) as [selected|] eqn:Ew; [|by injection E as <- _].
  destruct (summarize_turns _ _ _ _ _ _ _) as [summary record] eqn:Er.
  apply rbind_Ok in E as ([s1 c1] & E1 & E). apply rbind_Ok in E as ([s2 a2] & E2 & E).
  apply rbind_Ok in E as ([s3 c3] & E3 & E). injection E as <- _.
  destruct (save_checkpoint_sound _ _ _ _ _ _ (Hf 0) Hs E1) as [Hs1 Hg1].
  assert (Hr : fits s2 → record_ok record).
  { intros Hfit. assert (record = (summary, record).2) as -> by done. rewrite <- Er. apply summarize_record_ok; [done|].
    pose proof (auto_window_size _ _ _ Ew). assert (fits s1) as Hf1.
    { eapply fits_grows; [|exact Hfit]. destruct (compact_inv _ _ _ _ _ E2) as (_ & -> & _). split_and!; [done|done|by eexists]. }
    apply (fits_grows _ _ Hg1) in Hf1. unfold fits in Hf1. lia. }
  apply (compact_sound _ id) in E2 as [Hs2 Hg2]; [|exact Hr|exact Hs1].
  destruct (save_checkpoint_sound _ _ _ _ _ _ (Hf 2) Hs2 E3) as [Hs3 Hg3]. split; [done|]. by do 2 (etrans; [done|]).
Qed.

Lemma sound_turn id s t :
  sound id s → check_turn id (last_hash (ss_Turns s)) (length (ss_Turns s)) t = Ok (tn_Hash t) →
  sound id (ss_with_Turns (ss_Turns s ++ [t]) s).
Proof.
  intros (H1 & H2 & H3) Hc. split_and!; [done|done|]. intros Hf. apply valid_iff.
  assert (fits s) as Hfs by (eapply fits_grows; [|exact Hf]; split_and!; [by exists [t]|done..]).
  apply H3, valid_iff in Hfs as (Hh & Ht & Hck & Ha & Hm). cbn [ss_with_Turns ss_Session ss_Turns ss_Archives ss_Memories ss_Checkpoints].
  rewrite H1 in *. pose proof (turns_snoc _ _ _ Ht Hc) as Ht'.
  split_and!; [done|done|by apply checkpoints_mono|by apply archives_mono|by apply memories_mono].
Qed.

Lemma append_turn_inv fresh sm tk s id t s' t' added :
  append_turn fresh sm tk s id t = Ok (s', t', added) →
  (added = false ∧ s' = s ∧ t' ∈ ss_Turns s) ∨
  (added = true ∧ ∃ t0 a,
     validRole (tn_Role t0) = true ∧ blank (tn_Content t0) = false ∧ tn_SessionID t0 = id
     ∧ t' = seal_turn (fresh 0) (ss_Turns s) t0
     ∧ autoCompactLocked (λ i, fresh (Datatypes.S i)) sm tk
         (touch (tn_CreatedAt t') (ss_with_Turns (ss_Turns s ++ [t']) s)) = Ok (s', a)).
Proof.
  unfold append_turn. cbn zeta. intros E. apply rbind_reject_Ok in E as [H1 E]. apply rbind_reject_Ok in E as [H2 E].
  set (t0 := if tn_SessionID t ≟ "" then _ else t) in *.
  assert (tn_Role t0 = tn_Role t ∧ tn_Content t0 = tn_Content t) as [Er Ec] by (unfold t0; by destruct (tn_SessionID t ≟ "")).
  destruct (if tn_IdempotencyKey t0 ≟ "" then None else _) as [e|] eqn:Ek.
  - apply rbind_reject_Ok in E as [_ [= <- <- <-]]. left. split_and!; [done|done|]. destruct (tn_IdempotencyKey t0 ≟ ""); [done|].
    apply find_some in Ek as [Ek _]. by apply list_elem_of_In.
  - apply rbind_reject_Ok in E as [_ E]. apply rbind_Ok in E as ([s1 a] & E1 & [= <- <- <-]). apply wrap_err_Ok in E1.
    right. split; [done|]. exists t0, a. rewrite !orb_false_iff in H1. destruct H1 as [[_ H1] H3]. apply negb_false_iff in H1.
    apply negb_false_iff, bool_decide_eq_true in H2. by rewrite Er, Ec.
Qed.

Lemma append_turn_sound fresh sm tk id s t s' t' added :
  fresh_ok fresh → sm_ok sm → sound id s → append_turn fresh sm tk s id t = Ok (s', t', added) → sound id s' ∧ grows s s'.
Proof.
  intros Hf Hsm Hs E. destruct (append_turn_inv _ _ _ _ _ _ _ _ _ E) as [(_ & -> & _)|(_ & t0 & a & Hr & Hc & Hi & -> & Ea)]; [done|].
  set (t' := seal_turn _ _ _) in *. assert (Hs1 : sound id (touch (tn_CreatedAt t') (ss_with_Turns (ss_Turns s ++ [t']) s))).
  { apply sound_touch, sound_turn; [done|]. apply seal_turn_ok; auto. }
  apply (auto_sound _ _ _ id) in Ea as [Hs' Hg]; [|by intros i; apply Hf|done|done]. split; [done|]. etrans; [|exact Hg].
  split_and!; [by exists [t']|done..].
Qed.

Lemma compact_session_sound fresh id s q s' a :
  fresh_ok fresh → cq_compression q = no_record → sound id s → compact_session fresh s q = Ok (s', a) → sound id s' ∧ grows s s'.
Proof.
  intros Hf Hq Hs E. unfold compact_session in E. cbn zeta in E. apply rbind_Ok in E as ([s1 c1] & E1 & E).
  apply rbind_Ok in E as ([s2 a2] & E2 & E). apply rbind_reject_Ok in E as [_ E]. apply rbind_Ok in E as ([s3 c3] & E3 & [= <- _]).
  apply (save_checkpoint_sound _ id) in E1 as [Hs1 Hg1]; [|apply Hf|done].
  apply (compact_sound _ id) in E2 as [Hs2 Hg2]; [|intros _; rewrite Hq; by left|done].
  apply (save_checkpoint_sound _ id) in E3 as [Hs3 Hg3]; [|apply Hf|done]. split; [done|]. by do 2 (etrans; [done|]).
Qed.

Lemma tool_transaction_sound fresh sm tk id s call name before after version s' added cps :
  fresh_ok fresh → sm_ok sm → sound id s →
  tool_transaction fresh sm tk s id call name before after version = Ok (s', added, cps) → sound id s' ∧ grows s s'.
Proof.
  intros Hf Hsm Hs E. unfold tool_transaction in E. apply rbind_Ok in E as ([[s1 t1] b1] & E1 & E).
  apply rbind_Ok in E as ([s2 c2] & E2 & E). apply rbind_Ok in E as ([[s3 t3] b3] & E3 & E).
  apply rbind_Ok in E as ([s4 c4] & E4 & [= <- _ _]). unfold appendTurnLocked in E1, E3.
  apply rbind_reject_Ok in E1 as [_ E1]. apply rbind_reject_Ok in E3 as [_ E3].
  apply append_turn_sound in E1 as [Hs1 Hg1]; [|done..]. apply (save_checkpoint_sound _ id) in E2 as [Hs2 Hg2]; [|apply Hf|done].
  apply append_turn_sound in E3 as [Hs3 Hg3]; [|by intros i; apply Hf|done|done].
  apply (save_checkpoint_sound _ id) in E4 as [Hs4 Hg4]; [|apply Hf|done]. split; [done|]. by do 3 (etrans; [done|]).
Qed.

(** ** Memories *)

Lemma memories_Forall id ts ms : memories_ok id ts ms ↔ Forall (λ m, check_memory id ts 0 m = Ok tt) ms.
Proof.
  unfold memories_ok. rewrite check_each_Ok, Forall_lookup. split; intros Hm k m Hk; [exact (Hm k m Hk)|by apply (Hm k m Hk)].
Qed.

Lemma sound_memories id s ms :
  sound id s → (Forall (λ m, check_memory id (ss_Turns s) 0 m = Ok tt) (ss_Memories s) →
                Forall (λ m, check_memory id (ss_Turns s) 0 m = Ok tt) ms) → sound id (ss_with_Memories ms s).
Proof.
  intros (H1 & H2 & H3) Hm. split_and!; [done|done|]. intros Hf. apply valid_iff. apply H3, valid_iff in Hf as (Hh & Ht & Hck & Ha & Hms).
  cbn [ss_with_Memories ss_Session ss_Turns ss_Archives ss_Memories ss_Checkpoints]. split_and!; try done.
  rewrite H1 in *. apply memories_Forall, Hm. by apply memories_Forall.
Qed.

Lemma prepared_memory_ok stamp now id s m m' :
  st_id stamp ≠ "" → prepare_memory stamp s m = Ok m' → mi_Scope m' ≠ "project" → mi_SessionID m = id →
  check_memory id (ss_Turns s) 0 (mi_sealed now m') = Ok tt.
Proof.
  intros Hid E Hp Hs. unfold prepare_memory in E. cbn zeta in E. apply rbind_reject_Ok in E as [_ E].
  apply rbind_reject_Ok in E as [H1 E]. apply rbind_reject_Ok in E as [H2 E]. apply rbind_reject_Ok in E as [H3 E].
  apply rbind_reject_Ok in E as [_ E]. apply rbind_reject_Ok in E as [_ E]. apply rbind_unit_Ok in E as [H4 [= <-]].
  set (m' := mi_prepared _ _ _ _ _ _ m) in *. rewrite !orb_false_iff in H1. destruct H1 as [[[[[_ Hc] _] Hco] Him] Hq].
  unfold check_memory. apply rbind_reject_Ok. split.
  { rewrite !orb_false_iff. split_and!; [|by apply negb_false_iff, bool_decide_eq_true|by apply bool_decide_eq_false|].
    - apply bool_decide_eq_false. unfold m'. cbn [mi_sealed mi_prepared mi_ID]. clear -Hid. by case_bool_decide.
    - unfold memory_broken, m'. cbn [mi_sealed mi_prepared mi_Content mi_Confidence mi_Importance mi_QualityScore mi_Status mi_Fingerprint mi_Kind].
      rewrite Hc, Hco, Him, H2. destruct (SFeqb _ _); rewrite ?Hq, ?Hco; cbn [orb]; apply andb_false_iff; right;
        by apply negb_false_iff, bool_decide_eq_true. }
  apply rbind_unit_Ok. split.
  - rewrite check_each_reject in H4. by rewrite check_each_reject.
  - apply reject_tt. unfold evidence_broken. apply andb_false_iff. right. by apply negb_false_iff, bool_decide_eq_true.
Qed.

Lemma check_memory_review id ts m status reviewer reason :
  validMemoryStatus status = true → check_memory id ts 0 m = Ok tt → check_memory id ts 0 (review status reviewer reason m) = Ok tt.
Proof.
  intros Hv E. unfold check_memory in *. apply rbind_reject_Ok in E as [H1 E]. apply rbind_reject_Ok. split; [|exact E].
  rewrite !orb_false_iff in *. destruct H1 as [[[H1 H2] H3] H4]. split_and!; try done. unfold memory_broken in *.
  rewrite !orb_false_iff in *. destruct H4 as [[[[[H4 H5] H6] H7] H8] H9]. split_and!; try done. cbn [review mi_reviewed mi_Status]. by rewrite Hv.
Qed.

Lemma update_first_Forall {A} (P : A → bool) f (R : A → Prop) l :
  (∀ x, R x → R (f x)) → Forall R l → Forall R (update_first P f l).
Proof.
  intros Hf. induction 1 as [|x l Hx Hl IH]; [done|]. cbn [update_first]. destruct (P x); constructor; auto.
Qed.
Lemma update_first_Forall2 {A} (P : A → bool) f (R : A → A → Prop) l x :
  (∀ y, R y y) → find P l = Some x → R x (f x) → Forall2 R l (update_first P f l).
Proof.
  intros Hr Hfind Hx. induction l as [|y l IH]; [done|]. cbn [find update_first] in *. destruct (P y).
  - injection Hfind as ->. constructor; [done|]. clear -Hr. induction l; by constructor.
  - constructor; auto.
Qed.

(** ** Every change of a session *)

Definition lease_next (l l' : Lease) : Prop := ls_Key l' = ls_Key l ∧ (ls_State l = "released" → ls_State l' = "released").
Definition outbox_next (e e' : OutboxEvent) : Prop :=
  ob_ID e' = ob_ID e ∧ ob_IdempotencyKey e' = ob_IdempotencyKey e ∧ (ob_State e = "published" → e' = e).

Context `{!JsonMarshal persistedState, !JsonMarshal value, !RawJson, !MapRange, !SliceSort}.

(** What an operation may do to the session under [id]. *)
Inductive change (id : string) : sessionState → sessionState → Prop :=
  | ch_refl s : change id s s
  | ch_trans s1 s2 s3 : change id s1 s2 → change id s2 s3 → change id s1 s3
  | ch_touch now s : change id s (touch now s)
  | ch_turn fresh sm tk s t s' t' added :
      fresh_ok fresh → sm_ok sm → append_turn fresh sm tk s id t = Ok (s', t', added) → change id s s'
  | ch_tool fresh sm tk s call name before after version s' added cps :
      fresh_ok fresh → sm_ok sm → tool_transaction fresh sm tk s id call name before after version = Ok (s', added, cps) →
      change id s s'
  | ch_checkpoint stamp s c s' c' : st_id stamp ≠ "" → saveCheckpointLocked stamp s c = Ok (s', c') → change id s s'
  | ch_compact fresh s q s' a :
      fresh_ok fresh → cq_compression q = no_record → compact_session fresh s q = Ok (s', a) → change id s s'
  | ch_memory stamp now s m m' :
      st_id stamp ≠ "" → prepare_memory stamp s m = Ok m' → mi_Scope m' ≠ "project" → mi_SessionID m = id →
      change id s (ss_with_Memories (ss_Memories s ++ [mi_sealed now m']) s)
  | ch_review s P status reviewer reason :
      validMemoryStatus status = true →
      change id s (ss_with_Memories (update_first P (review status reviewer reason) (ss_Memories s)) s)
  | ch_leases s l : Forall2 lease_next (ss_Leases s) l → change id s (ss_with_Leases l s)
  | ch_lease s l : find (open_lease (ls_Key l)) (ss_Leases s) = None → change id s (ss_with_Leases (ss_Leases s ++ [l]) s)
  | ch_outbox s l : Forall2 outbox_next (ss_Outbox s) l → change id s (ss_with_Outbox l s)
  | ch_event s e :
      find (with_key (ob_IdempotencyKey e)) (ss_Outbox s) = None → change id s (ss_with_Outbox (ss_Outbox s ++ [e]) s).

Lemma change_sound id s s' : change id s s' → sound id s → sound id s' ∧ grows s s'.
Proof.
  induction 1 as [|s1 s2 s3 _ IH1 _ IH2| | | | | |stamp now s m m' Hid Hp Hsc Hsid|s P status reviewer reason Hv| | | |]; intros Hs.
  - done.
  - destruct (IH1 Hs) as [Hs2 Hg1]. destruct (IH2 Hs2) as [Hs3 Hg2]. split; [done|by etrans].
  - split; [by apply sound_touch|done].
  - by eapply append_turn_sound.
  - by eapply tool_transaction_sound.
  - by eapply save_checkpoint_sound.
  - by eapply compact_session_sound.
  - split; [|done]. apply sound_memories; [done|]. intros Hm. apply Forall_app. split; [done|]. apply Forall_singleton.
    by eapply prepared_memory_ok.
  - split; [|done]. apply sound_memories; [done|]. apply update_first_Forall. intros x. by apply check_memory_review.
  - done.
  - done.
  - done.
  - done.
Qed.
End spec.
