(* ===== verification/HarnessProps.v ===== *)
(** * HarnessProps: what the harness store guarantees

    The operations of a process as one step relation, with restarts and every fault
    of the file system; a principle that carries a property of sessions through all
    of them, in memory and in the files ([closed], [holds_steps]); the properties
    of the store, their witnesses, and behaviours its source does not intend. *)
From stdpp Require Import base strings gmap list pretty sorting relations.
From Stdlib Require Import ZArith Lia Ascii SpecFloat.
From S2P Require Import Prelude GoLib GoStrings GoValue GoJson ContextModel ContextCompiler ContextCompilerProps Harness HarnessStore HarnessSpec.

(** ** Operations *)

Inductive Op :=
  | OFlush
  | OSetContextSummarizer (sm : option Summarizer)
  | OSetContextTokenizer (tk : option Tokenizer)
  | OCreateSession (s : Session)
  | OEnsureSession (s : Session)
  | OAppendTurn (id : string) (t : Turn)
  | ORecordToolCall (id call name input output : string) (version : Z)
  | OSaveCheckpoint (id : string) (c : Checkpoint)
  | OCompact (id : string) (start stop : Z) (summary : string) (tail : Z) (reason : string)
  | OAddMemory (m : MemoryItem)
  | OTransitionMemory (id memory status reviewer reason : string)
  | OReduceMemories (ios : nat → Io) (id : string) (sources : list string) (content : string)
  | OAcquireLease (id key owner : string) (ttl : Duration) (now : Time)
  | OReleaseLease (id lease owner : string) (now : Time)
  | OHeartbeatLease (id lease owner : string) (ttl : Duration) (now : Time)
  | OEnqueueOutbox (id key : string) (payload : value)
  | OEnqueueAndClaimOutbox (id key : string) (payload : value) (owner : string) (ttl : Duration) (now : Time)
  | OClaimOutbox (id owner : string) (limit : Z) (ttl : Duration) (now : Time)
  | OAckOutbox (id event owner : string) (now : Time)
  | OCompleteOutbox (id event : string) (now : Time)
  | ONackOutbox (id event owner : string) (retryAt : Time)
  | ORecover (id : string) (now : Time).

(** [domain.NewID] never returns the empty string. *)
Definition io_ok (io : Io) : Prop := fresh_ok (hi_fresh io).
Definition op_ok (op : Op) : Prop :=
  match op with
  | OSetContextSummarizer (Some sm) => sm_ok sm
  | OReduceMemories ios _ _ _ => ∀ i, io_ok (ios i)
  | _ => True
  end.

(** A state in the snapshot or in a line of the journal. *)
Definition stored (f : Files) (p : persistedState) : Prop :=
  fl_snapshot f = Snap p ∨ ∃ l, fl_journal f = Some l ∧ Some p ∈ log_records l.

Section log.
Context {T : Type}.
Lemma log_append_records (f : LogFile T) xs x : Some x ∈ log_records (log_append f xs) → Some x ∈ log_records f ∨ x ∈ xs.
Proof.
  unfold log_append, log_records. destruct (lf_tail f) as [t|] eqn:Et.
  - destruct xs as [|y xs]; [rewrite Et; auto|]. cbn [lf_lines lf_tail]. rewrite app_nil_r, !elem_of_app, elem_of_cons.
    intros [?|[?|Hin]]; [auto|done|]. apply list_elem_of_fmap in Hin as (z & [= ->] & Hz). right. by right.
  - cbn [lf_lines lf_tail]. rewrite !app_nil_r, elem_of_app. intros [?|Hin]; [auto|].
    apply list_elem_of_fmap in Hin as (z & [= ->] & Hz). auto.
Qed.
Lemma log_partial_records (f : LogFile T) xs p x : Some x ∈ log_records (log_partial f xs p) → Some x ∈ log_records f ∨ x ∈ xs.
Proof.
  unfold log_partial. cbn zeta. set (g := log_append f _).
  assert (Hg : Some x ∈ log_records g → Some x ∈ log_records f ∨ x ∈ xs).
  { intros Hx. apply log_append_records in Hx as [?|Hx]; [auto|]. right. rewrite <- (take_drop (pa_whole p) xs).
    apply elem_of_app. by left. }
  destruct (pa_tail p) as [whole|]; [|done]. destruct (drop (pa_whole p) xs) as [|y ys] eqn:Ed; [done|].
  assert (Hy : y ∈ xs). { rewrite <- (take_drop (pa_whole p) xs), Ed. set_solver. }
  unfold log_records at 1. cbn [lf_lines lf_tail]. rewrite elem_of_app. intros [Hx|Hx].
  - apply Hg. unfold log_records. set_solver.
  - apply list_elem_of_singleton in Hx. destruct (lf_tail g); [done|]. destruct whole; [|done]. injection Hx as ->. auto.
Qed.
Lemma log_write_records fault (f : option (LogFile T)) xs f' r l x :
  log_write fault f xs = (f', r) → f' = Some l → Some x ∈ log_records l →
  (∃ l0, f = Some l0 ∧ Some x ∈ log_records l0) ∨ x ∈ xs.
Proof.
  assert (Ho : Some x ∈ log_records (log_open f) → ∃ l0, f = Some l0 ∧ Some x ∈ log_records l0).
  { unfold log_open. destruct f as [l0|]; cbn; [eauto|]. intros Hin. by apply elem_of_nil in Hin. }
  unfold log_write. destruct fault as [[e [p|]]|]; intros [= <- <-].
  - intros [= <-] Hx. apply log_partial_records in Hx as [?|?]; auto.
  - intros -> Hx. eauto.
  - intros [= <-] Hx. apply log_append_records in Hx as [?|?]; auto.
Qed.
End log.

Section props.
Context `{!Sha256, !JsonMarshal Turn, !JsonMarshal Checkpoint, !JsonMarshal persistedState, !JsonMarshal value}.
Context `{!UnicodeCase, !RawJson, !MapRange, !SliceSort}.

Definition run (op : Op) (io : Io) (w : World) : World :=
  match op with
  | OFlush => fst (Flush io w)
  | OSetContextSummarizer sm => with_store (SetContextSummarizer sm) w
  | OSetContextTokenizer tk => with_store (SetContextTokenizer tk) w
  | OCreateSession s => fst (CreateSession io w s)
  | OEnsureSession s => fst (EnsureSession io w s)
  | OAppendTurn id t => fst (AppendTurn io w id t)
  | ORecordToolCall id call name input output version => fst (RecordToolCall io w id call name input output version)
  | OSaveCheckpoint id c => fst (SaveCheckpoint io w id c)
  | OCompact id start stop summary tail reason =>
      fst (Compact io w id {| cq_StartSequence := start; cq_EndSequence := stop; cq_Summary := summary; cq_RetainedTail := tail;
                              cq_Reason := reason; cq_compression := no_record |})
  | OAddMemory m => fst (AddMemory io w m)
  | OTransitionMemory id memory status reviewer reason => fst (TransitionMemoryWithReview io w id memory status reviewer reason)
  | OReduceMemories ios id sources content => fst (ReduceMemories ios w id sources content)
  | OAcquireLease id key owner ttl now => fst (AcquireLease io w id key owner ttl now)
  | OReleaseLease id lease owner now => fst (ReleaseLease io w id lease owner now)
  | OHeartbeatLease id lease owner ttl now => fst (HeartbeatLease io w id lease owner ttl now)
  | OEnqueueOutbox id key payload => fst (EnqueueOutbox io w id key payload)
  | OEnqueueAndClaimOutbox id key payload owner ttl now => fst (EnqueueAndClaimOutbox io w id key payload owner ttl now)
  | OClaimOutbox id owner limit ttl now => fst (ClaimOutbox io w id owner limit ttl now)
  | OAckOutbox id event owner now => fst (AckOutbox io w id event owner now)
  | OCompleteOutbox id event now => fst (CompleteOutbox io w id event now)
  | ONackOutbox id event owner retryAt => fst (NackOutbox io w id event owner retryAt)
  | ORecover id now => fst (Recover io w id now)
  end.

(** What the operation answers its caller: success or its error. *)
Definition forget {A} (r : result A) : result unit := match r with Ok _ => Ok tt | Err e => Err e end.
Definition report (op : Op) (io : Io) (w : World) : result unit :=
  match op with
  | OFlush => snd (Flush io w)
  | OSetContextSummarizer _ | OSetContextTokenizer _ => Ok tt
  | OCreateSession s => forget (snd (CreateSession io w s))
  | OEnsureSession s => forget (snd (EnsureSession io w s))
  | OAppendTurn id t => forget (snd (AppendTurn io w id t))
  | ORecordToolCall id call name input output version => forget (snd (RecordToolCall io w id call name input output version))
  | OSaveCheckpoint id c => forget (snd (SaveCheckpoint io w id c))
  | OCompact id start stop summary tail reason =>
      forget (snd (Compact io w id {| cq_StartSequence := start; cq_EndSequence := stop; cq_Summary := summary;
                                      cq_RetainedTail := tail; cq_Reason := reason; cq_compression := no_record |}))
  | OAddMemory m => forget (snd (AddMemory io w m))
  | OTransitionMemory id memory status reviewer reason =>
      forget (snd (TransitionMemoryWithReview io w id memory status reviewer reason))
  | OReduceMemories ios id sources content => forget (snd (snd (ReduceMemories ios w id sources content)))
  | OAcquireLease id key owner ttl now => forget (snd (AcquireLease io w id key owner ttl now))
  | OReleaseLease id lease owner now => snd (ReleaseLease io w id lease owner now)
  | OHeartbeatLease id lease owner ttl now => forget (snd (HeartbeatLease io w id lease owner ttl now))
  | OEnqueueOutbox id key payload => forget (snd (EnqueueOutbox io w id key payload))
  | OEnqueueAndClaimOutbox id key payload owner ttl now =>
      forget (snd (snd (EnqueueAndClaimOutbox io w id key payload owner ttl now)))
  | OClaimOutbox id owner limit ttl now => forget (snd (ClaimOutbox io w id owner limit ttl now))
  | OAckOutbox id event owner now => snd (AckOutbox io w id event owner now)
  | OCompleteOutbox id event now => snd (CompleteOutbox io w id event now)
  | ONackOutbox id event owner retryAt => snd (NackOutbox io w id event owner retryAt)
  | ORecover id now => forget (snd (Recover io w id now))
  end.

(** A process: operations, a restart on the files it left, and restarts that are
    refused. *)
Inductive step (path : string) : World → World → Prop :=
  | step_op op io w : io_ok io → op_ok op → step path w (run op io w)
  | step_open io w f s : io_ok io → New io path (hw_files w) = (f, Ok s) → step path w {| hw_store := s; hw_files := f |}
  | step_refused io w f e : io_ok io → New io path (hw_files w) = (f, Err e) → step path w (with_files f w).
Definition start (path : string) : World := {| hw_store := empty_store (TrimSpace path); hw_files := no_files |}.
Definition reachable (path : string) (w : World) : Prop := rtc (step path) (start path) w.

(** ** Carrying a property through every step *)

(** The session as the transcript completes it. *)
Definition extends (s s' : sessionState) : Prop :=
  s' = s ∨ ∃ ts now, s' = touch now (ss_with_Turns (ss_Turns s ++ ts) s).
Definition extended (m m' : gmap string sessionState) : Prop :=
  ∀ id, match m !! id, m' !! id with Some s, Some s' => extends s s' | None, None => True | _, _ => False end.
Definition all_valid (m : gmap string sessionState) : Prop := map_Forall (λ _ s, validateSessionState s = Ok tt) m.

Record closed (Q : gmap string sessionState → Prop) : Prop := {
  cl_change m id s s' : m !! id = Some s → change id s s' → Q m → Q (<[id := s']> m);
  cl_new m stamp s s' : m !! se_ID s' = None → st_id stamp ≠ "" → prepare_session stamp s = Ok s' → Q m →
    Q (<[se_ID s' := empty_session s']> m);
  cl_reread raw m : Q m → Q (reread_session raw <$> m);
  cl_scope m : Q m → Q (scope_session <$> m);
  cl_extend m m' : Q m → extended m m' → all_valid m' → Q m' }.

Section carry.
Context (Q : gmap string sessionState → Prop) (HQ : closed Q) (path : string).

Definition files_hold (f : Files) : Prop := ∀ p, stored f p → pst_Version p = harnessStateVersion ∧ Q (pst_Sessions p).
(** A restart finds a state, or an empty store will do. *)
Definition rooted (f : Files) : Prop := Q ∅ ∨ blank path = false ∧ ∃ p, fl_snapshot f = Snap p.
Definition files_ok (f : Files) : Prop := files_hold f ∧ rooted f.
Definition store_ok (s : Store) : Prop := sm_ok (hs_summarizer s) ∧ hs_path s = TrimSpace path.
Definition holds (w : World) : Prop :=
  Q (hs_sessions (hw_store w)) ∧ store_ok (hw_store w) ∧ files_ok (hw_files w).

Definition same_stored (f f' : Files) : Prop := fl_snapshot f' = fl_snapshot f ∧ fl_journal f' = fl_journal f.
Lemma files_ok_same f f' : same_stored f f' → files_ok f → files_ok f'.
Proof. intros [E1 E2] [Hf Hr]. unfold files_ok, files_hold, rooted, stored in *. by rewrite E1, E2. Qed.

Lemma write_state_ok io f state f' r :
  pst_Version state = harnessStateVersion → Q (pst_Sessions state) → files_ok f → write_state io f state = (f', r) → files_ok f'.
Proof.
  intros Hv Hs [Hf Hr] E. unfold write_state in E. destruct (hi_before io); [by injection E as <- <-|].
  destruct (log_write (hi_journal io) (fl_journal f) [reread raw_compact state]) as [journal appended] eqn:El.
  assert (Hj : ∀ l p, journal = Some l → Some p ∈ log_records l → pst_Version p = harnessStateVersion ∧ Q (pst_Sessions p)).
  { intros l p Hl Hp. destruct (log_write_records _ _ _ _ _ _ _ El Hl Hp) as [(l0 & Hl0 & Hp0)|Hp0].
    - apply Hf. right. eauto.
    - apply list_elem_of_singleton in Hp0 as ->. split; [done|]. by apply (cl_reread Q HQ). }
  assert (Hold : files_ok {| fl_snapshot := fl_snapshot f; fl_journal := journal; fl_transcript := fl_transcript f |}).
  { split; [|done]. intros p [Hp|(l & Hl & Hp)]; [apply Hf; by left|by eapply Hj]. }
  assert (Hnew : ∀ j, (j = journal ∨ j = None) →
    files_ok {| fl_snapshot := Snap (reread raw_indent state); fl_journal := j; fl_transcript := fl_transcript f |}).
  { intros j Hjj. split.
    - intros p [[= <-]|(l & Hl & Hp)]; [split; [done|by apply (cl_reread Q HQ)]|]. destruct Hjj as [Hj0|Hj0]; rewrite Hj0 in Hl; [by eapply Hj|done].
    - destruct Hr as [Hr|[Hb _]]; [by left|right; split; [done|by eexists]]. }
  destruct appended as [[]|e]; [|by injection E as <- <-]. destruct (hi_rename io); [by injection E as <- <-|].
  destruct (hi_sync io); injection E as <- <-; apply Hnew; [auto|]. destruct (hi_kept io); auto.
Qed.

Lemma holds_persist io w : holds w → holds (persistLocked io w).1.
Proof.
  intros (Hm & Hsm & Hf). unfold persistLocked. cbn zeta. destruct (hs_path (hw_store w) ≟ ""); [done|].
  destruct (hi_lock io); [done|]. destruct (persistedRevision io (hw_files w)) as [disk|]; [|done].
  destruct (negb _); [done|]. destruct (json_marshal _); [|done].
  destruct (write_state io (hw_files w) (next_state (hw_store w))) as [f r] eqn:E.
  assert (files_ok f) by (by eapply write_state_ok in E). by destruct r as [[]|].
Qed.
Lemma persist_frame io w :
  hs_sessions (hw_store (persistLocked io w).1) = hs_sessions (hw_store w)
  ∧ hs_projectMemories (hw_store (persistLocked io w).1) = hs_projectMemories (hw_store w).
Proof. unfold persistLocked. cbn zeta. by repeat case_match. Qed.

Lemma holds_put id s w : holds w → Q (<[id := s]> (hs_sessions (hw_store w))) → holds (put_session id s w).
Proof. intros (Hm & Hsm & Hf) Hq. by split_and!. Qed.
Lemma holds_projects id items w : holds w → holds (put_projects id items w).
Proof. intros (Hm & Hsm & Hf). by split_and!. Qed.

Lemma holds_save io w id s state restore message :
  holds w → session_of w id = Some s → change id s state → change id s restore → holds (save_session io w id state restore message).1.
Proof.
  intros Hw Hs Hc1 Hc2. unfold save_session. pose proof (holds_persist io (put_session id state w)) as Hp.
  destruct (persist_frame io (put_session id state w)) as [Ef _].
  destruct (persistLocked io (put_session id state w)) as [w' [[]|e]]; cbn [fst] in *.
  - apply Hp, holds_put; [done|]. eapply cl_change; [done..|apply Hw].
  - apply holds_put.
    + apply Hp, holds_put; [done|]. eapply cl_change; [done..|apply Hw].
    + rewrite Ef. cbn. rewrite insert_insert_eq. eapply cl_change; [done..|apply Hw].
Qed.

Lemma transcript_frame io k w ts w' r :
  appendTranscriptBatch io k w ts = (w', r) → hw_store w' = hw_store w ∧ same_stored (hw_files w) (hw_files w').
Proof.
  unfold appendTranscriptBatch. case_match; [by intros [= <- <-]|]. cbn zeta.
  destruct (log_write _ _ _). by intros [= <- <-].
Qed.
Lemma holds_transcript io k w ts : holds w → holds (appendTranscriptBatch io k w ts).1.
Proof.
  intros (Hm & Hsm & Hf). destruct (appendTranscriptBatch io k w ts) as [w' r] eqn:E.
  apply transcript_frame in E as [E1 E2]. cbn [fst]. unfold holds. rewrite E1. split_and!; try done. by eapply files_ok_same.
Qed.

Lemma holds_create io w s : io_ok io → holds w → holds (CreateSession io w s).1.
Proof.
  intros Hio Hw. unfold CreateSession. destruct (prepare_session _ s) as [s'|] eqn:Ep; [|done].
  destruct (session_of w (se_ID s')) eqn:Es; [done|].
  assert (Hp : holds (persistLocked io (put_session (se_ID s') (empty_session s') w)).1).
  { apply holds_persist, holds_put; [done|]. eapply (cl_new Q HQ); [done|apply Hio|done|apply Hw]. }
  destruct (persist_frame io (put_session (se_ID s') (empty_session s') w)) as [Ef _].
  destruct (persistLocked _ _) as [w' [[]|e]]; cbn [fst] in *; [done|]. destruct Hp as (_ & Hsm & Hf). split_and!; [|done|done].
  cbn. rewrite Ef. cbn. rewrite delete_insert_id; [apply Hw|done].
Qed.
Lemma holds_ensure io w s : io_ok io → holds w → holds (EnsureSession io w s).1.
Proof.
  intros Hio Hw. unfold EnsureSession. pose proof (holds_create io w s Hio Hw) as Hc. case_match; [done|].
  destruct (session_of w (se_ID s)); [done|]. destruct (CreateSession io w s) as [w' [s'|e]]; [done|]. cbn [fst] in *. by repeat case_match.
Qed.

Lemma holds_append io w id t : io_ok io → holds w → holds (AppendTurn io w id t).1.
Proof.
  intros Hio Hw. unfold AppendTurn. destruct (session_of w id) as [s|] eqn:Es; [|done].
  destruct (append_turn _ _ _ s id t) as [[[s' t'] []]|e] eqn:Ea; [|done|done].
  pose proof (holds_save io w id s s' s "persist turn: %w" Hw Es) as Hp.
  assert (change id s s') as Hch by (eapply ch_turn; [exact Hio|apply Hw|done]). specialize (Hp Hch (ch_refl _ _)).
  destruct (save_session _ _ _ _ _ _) as [w' [[]|e]]; [|done]. cbn [fst] in Hp. pose proof (holds_transcript io 0 w' [t'] Hp) as Ht.
  unfold appendTranscript. by destruct (appendTranscriptBatch io 0 w' [t']) as [w'' [[]|]].
Qed.
Lemma holds_tool io w id call name input output version :
  io_ok io → holds w → holds (RecordToolCall io w id call name input output version).1.
Proof.
  intros Hio Hw. unfold RecordToolCall. cbn zeta. case_match; [done|]. destruct (session_of w id) as [s|] eqn:Es; [|done].
  set (v := if (version <=? 0)%Z then _ else _). destruct (v <=? 0)%Z; [done|].
  destruct (tool_transaction _ _ _ _ _ _ _ _ _ _) as [[[s' added] cps]|e] eqn:Et; [|done].
  destruct (bool_decide (added = []) && _); [done|].
  pose proof (holds_save io w id s s' s "persist tool call: %w" Hw Es) as Hp.
  assert (change id s s') as Hch by (eapply ch_tool; [exact Hio|apply Hw|done]). specialize (Hp Hch (ch_refl _ _)).
  destruct (save_session _ _ _ _ _ _) as [w' [[]|e]]; [|done]. cbn [fst] in Hp. pose proof (holds_transcript io 0 w' added Hp) as Ht.
  by destruct (appendTranscriptBatch io 0 w' added) as [w'' [[]|]].
Qed.

(** The operations that save one session and answer. *)
Lemma holds_saved {A} io w id s state restore message (k : World → World * result A) :
  holds w → session_of w id = Some s → change id s state → change id s restore → (∀ w', holds w' → holds (k w').1) →
  holds (match save_session io w id state restore message with (w', Err e) => (w', Err e) | (w', Ok _) => k w' end).1.
Proof.
  intros Hw Hs Hc1 Hc2 Hk. pose proof (holds_save io w id s state restore message Hw Hs Hc1 Hc2) as Hp.
  destruct (save_session _ _ _ _ _ _) as [w' [[]|e]]; [by apply Hk|done].
Qed.

Lemma holds_checkpoint io w id c : io_ok io → holds w → holds (SaveCheckpoint io w id c).1.
Proof.
  intros Hio Hw. unfold SaveCheckpoint. destruct (session_of w id) as [s|] eqn:Es; [|done].
  destruct (saveCheckpointLocked _ s c) as [[s' c']|e] eqn:Ec; [|done].
  apply (holds_saved io w id s s' s _ (λ w', (w', Ok c'))); [done|done|by eapply ch_checkpoint|constructor|done].
Qed.
Lemma holds_compact io w id q : io_ok io → cq_compression q = no_record → holds w → holds (Compact io w id q).1.
Proof.
  intros Hio Hq Hw. unfold Compact. destruct (session_of w id) as [s|] eqn:Es; [|done].
  destruct (compact_session _ s q) as [[s' a]|e] eqn:Ec; [|done].
  apply (holds_saved io w id s s' s _ (λ w', (w', Ok a))); [done|done|by eapply ch_compact|constructor|done].
Qed.

Lemma change_touch id now s s' : change id s s' → change id s (touch now s').
Proof. intros Hc. eapply ch_trans; [exact Hc|constructor]. Qed.

Lemma holds_memory io w m : io_ok io → holds w → holds (AddMemory io w m).1.
Proof.
  intros Hio Hw. unfold AddMemory. cbn zeta. destruct (session_of w (mi_SessionID m)) as [s|] eqn:Es; [|done].
  destruct (prepare_memory _ s m) as [m'|e] eqn:Em; [|done]. case_match; [done|]. destruct (known_memory _ _ m'); [done|].
  destruct (check_supersedes _ m') as [[]|e]; [|done].
  set (now := st_now (hi_fresh io 0)). change (mi_CreatedAt (mi_sealed now m')) with now. change (mi_ProjectID (mi_sealed now m')) with (mi_ProjectID m').
  destruct (bool_decide_reflect (mi_Scope m' = "project")) as [Ep|Ep].
  - set (w1 := put_projects _ _ w). assert (holds w1) as Hw1 by (by apply holds_projects).
    pose proof (holds_save io w1 (mi_SessionID m) s (touch now s) (touch now s) "persist memory: %w" Hw1 Es) as Hp.
    specialize (Hp (ch_touch _ _ _) (ch_touch _ _ _)).
    destruct (save_session _ _ _ _ _ _) as [w' [[]|e]]; [done|]. by apply holds_projects.
  - eapply (holds_saved io w (mi_SessionID m) s _ _ _ (λ w', (w', Ok (mi_sealed now m')))); [done|done| |apply ch_touch|done].
    apply change_touch. eapply ch_memory; [apply Hio|done|done|done].
Qed.
Lemma holds_review io w id memory status reviewer reason :
  holds w → holds (TransitionMemoryWithReview io w id memory status reviewer reason).1.
Proof.
  intros Hw. unfold TransitionMemoryWithReview. cbn zeta. set (st := ToLowerText _).
  destruct (validMemoryStatus st) eqn:Ev; [|done]. cbn [negb orb]. case_match; [done|].
  destruct (session_of w id) as [s|] eqn:Es; [|done]. set (P := has_id memory). destruct (find P (ss_Memories s)) as [m|] eqn:Ef.
  - case_match; [done|].
    apply (holds_saved io w id s _ s _ (λ w', (w', Ok (review st reviewer reason m)))); [done|done| |constructor|done].
    apply change_touch. by constructor.
  - destruct (find P (projects_of w _)) as [m|]; [|done]. case_match; [done|]. set (w1 := put_projects _ _ w).
    assert (holds w1) as Hw1 by (by apply holds_projects).
    pose proof (holds_save io w1 id s (touch (st_now (hi_fresh io 0)) s) s "persist memory transition: %w" Hw1 Es) as Hp.
    specialize (Hp (ch_touch _ _ _) (ch_refl _ _)).
    destruct (save_session _ _ _ _ _ _) as [w' [[]|e]]; [done|]. case_match; [done|]. by apply holds_projects.
Qed.
Lemma holds_claims ios i w id sources existing r claims :
  (∀ i, io_ok (ios i)) → holds w → holds (reduce_claims ios i w id sources existing r claims).1.
Proof.
  intros Hio. revert i w existing r. induction claims as [|c claims IH]; intros i w existing r Hw; [done|]. cbn [reduce_claims].
  destruct (older_claims _ _ _) as [older same]. destruct same; [by apply IH|].
  pose proof (holds_memory (ios i) w (claim_item id sources c older) (Hio i) Hw) as Hm.
  destruct (AddMemory _ _ _) as [w' [saved|e]]; [by apply IH|done].
Qed.
Lemma holds_reduce ios w id sources content : (∀ i, io_ok (ios i)) → holds w → holds (ReduceMemories ios w id sources content).1.
Proof.
  intros Hio Hw. unfold ReduceMemories. cbn zeta. case_match; [done|]. destruct (session_of w id); [|done].
  destruct (check_each_from _ _ _) as [[]|]; [|done]. destruct (parseClaims content); [done|]. by apply holds_claims.
Qed.

Lemma lease_next_refl l : lease_next l l.
Proof. done. Qed.
Lemma outbox_next_refl e : outbox_next e e.
Proof. done. Qed.
Hint Resolve lease_next_refl outbox_next_refl : core.

Lemma holds_acquire io w id key owner ttl now : holds w → holds (AcquireLease io w id key owner ttl now).1.
Proof.
  intros Hw. unfold AcquireLease. destruct (session_of w id) as [s|] eqn:Es; [|done]. case_match; [done|]. cbn zeta.
  destruct (find (open_lease key) (ss_Leases s)) as [l|] eqn:Ef.
  - case_match; [done|]. eapply (holds_saved io w id s _ _ _ (λ w', (w', Ok _))); [done|done| |constructor|done].
    apply ch_leases. eapply update_first_Forall2; [done|exact Ef|]. apply find_some in Ef as [_ Ef].
    apply andb_true_iff in Ef as [_ Ef]. apply negb_true_iff, bool_decide_eq_false in Ef. by split.
  - eapply (holds_saved io w id s _ _ _ (λ w', (w', Ok _))); [done|done| |constructor|done]. apply change_touch. by apply ch_lease.
Qed.
Lemma holds_release io w id lease owner now : holds w → holds (ReleaseLease io w id lease owner now).1.
Proof.
  intros Hw. unfold ReleaseLease. destruct (session_of w id) as [s|] eqn:Es; [|done].
  destruct (find (lease_id lease) (ss_Leases s)) as [l|] eqn:Ef; [|done]. case_match; [done|]. cbn zeta.
  apply holds_save with s; [done|done| |constructor]. apply change_touch, ch_leases. by eapply update_first_Forall2.
Qed.
Lemma holds_heartbeat io w id lease owner ttl now : holds w → holds (HeartbeatLease io w id lease owner ttl now).1.
Proof.
  intros Hw. unfold HeartbeatLease. destruct (session_of w id) as [s|] eqn:Es; [|done]. case_match; [done|]. cbn zeta.
  destruct (find (lease_id lease) (ss_Leases s)) as [l|] eqn:Ef; [|done]. case_match; [done|].
  eapply (holds_saved io w id s _ _ _ (λ w', (w', Ok _))); [done|done| |constructor|done].
  apply change_touch, ch_leases. by eapply update_first_Forall2.
Qed.

Lemma holds_enqueue io w id key payload : holds w → holds (EnqueueOutbox io w id key payload).1.
Proof.
  intros Hw. unfold EnqueueOutbox. destruct (session_of w id) as [s|] eqn:Es; [|done]. case_match; [done|].
  destruct (json_marshal payload) as [data|]; [|done]. destruct (find (with_key key) (ss_Outbox s)) as [e|] eqn:Ef; [by case_match|]. cbn zeta.
  eapply (holds_saved io w id s _ _ _ (λ w', (w', Ok _))); [done|done| |constructor|done]. apply change_touch. by apply ch_event.
Qed.
Lemma holds_enqueue_claim io w id key payload owner ttl now :
  holds w → holds (EnqueueAndClaimOutbox io w id key payload owner ttl now).1.
Proof.
  intros Hw. unfold EnqueueAndClaimOutbox. destruct (session_of w id) as [s|] eqn:Es; [|done]. case_match; [done|]. case_match; [done|].
  destruct (json_marshal payload) as [data|]; [|done]. cbn zeta. destruct (find (with_key key) (ss_Outbox s)) as [e|] eqn:Ef.
  - case_match; [done|]. destruct (bool_decide_reflect (ob_State e = "published")) as [|Hn]; [done|]. do 3 (case_match; [done|]).
    match goal with |- holds (fst (match save_session io w id ?st s ?m with _ => _ end)) =>
      pose proof (holds_save io w id s st s m Hw Es) as Hp end.
    assert (Hp' := Hp ltac:(apply change_touch, ch_outbox; by eapply update_first_Forall2) (ch_refl _ _)). clear Hp.
    by destruct (save_session _ _ _ _ _ _) as [w' [[]|]].
  - match goal with |- holds (fst (match save_session io w id ?st ?rs ?m with _ => _ end)) =>
      pose proof (holds_save io w id s st rs m Hw Es) as Hp end.
    assert (Hp' := Hp ltac:(apply change_touch; by apply ch_event) (ch_touch _ _ _)). clear Hp.
    by destruct (save_session _ _ _ _ _ _) as [w' [[]|]].
Qed.

Lemma claim_events_next owner until now left es : Forall2 outbox_next es (claim_events owner until now left es).1.
Proof.
  revert left. induction es as [|e es IH]; intros left; [by destruct left|]. cbn [claim_events]. destruct left as [|left].
  { cbn [fst]. constructor; [done|]. clear. induction es; by constructor. }
  destruct (claimable now e) eqn:Ec.
  - specialize (IH left). destruct (claim_events owner until now left es) as [es' items]. cbn [fst] in *. constructor; [|done].
    apply andb_true_iff in Ec as [Ec _]. apply bool_decide_eq_true in Ec. split_and!; [done|done|]. rewrite Ec. done.
  - specialize (IH (S left)). destruct (claim_events owner until now (S left) es) as [es' items]. cbn [fst] in *. by constructor.
Qed.
Lemma holds_claim io w id owner limit ttl now : holds w → holds (ClaimOutbox io w id owner limit ttl now).1.
Proof.
  intros Hw. unfold ClaimOutbox. destruct (session_of w id) as [s|] eqn:Es; [|done]. case_match; [done|]. cbn zeta.
  set (n := if _ || _ then 10 else _). set (u := orNow _ now).
  pose proof (claim_events_next owner (u + ttl)%Z u n (ss_Outbox s)) as Hn.
  destruct (claim_events owner _ u n (ss_Outbox s)) as [outbox items]. case_match; [done|].
  apply (holds_saved io w id s _ _ _ (λ w', (w', Ok items))); [done|done| |constructor|done]. apply change_touch. by apply ch_outbox.
Qed.

Lemma holds_publish io w id event now s e message :
  holds w → session_of w id = Some s → find (event_id event) (ss_Outbox s) = Some e → ob_State e ≠ "published" →
  holds (publish_event io w id event now s message).1.
Proof.
  intros Hw Es Ef Hn. apply holds_save with s; [done|done| |constructor]. apply change_touch, ch_outbox.
  eapply update_first_Forall2; [done|exact Ef|]. by split_and!.
Qed.
Lemma holds_ack io w id event owner now : holds w → holds (AckOutbox io w id event owner now).1.
Proof.
  intros Hw. unfold AckOutbox. destruct (session_of w id) as [s|] eqn:Es; [|done].
  destruct (find (event_id event) (ss_Outbox s)) as [e|] eqn:Ef; [|done].
  destruct (bool_decide_reflect (ob_State e = "published")); [done|]. case_match; [done|]. by eapply holds_publish.
Qed.
Lemma holds_complete io w id event now : holds w → holds (CompleteOutbox io w id event now).1.
Proof.
  intros Hw. unfold CompleteOutbox. destruct (session_of w id) as [s|] eqn:Es; [|done].
  destruct (find (event_id event) (ss_Outbox s)) as [e|] eqn:Ef; [|done].
  destruct (bool_decide_reflect (ob_State e = "published")); [done|]. case_match; [done|]. by eapply holds_publish.
Qed.
Lemma holds_nack io w id event owner retryAt : holds w → holds (NackOutbox io w id event owner retryAt).1.
Proof.
  intros Hw. unfold NackOutbox. destruct (session_of w id) as [s|] eqn:Es; [|done].
  destruct (find (event_id event) (ss_Outbox s)) as [e|] eqn:Ef; [|done].
  destruct (bool_decide_reflect (ob_State e = "processing")) as [Ep|]; [|done]. cbn [negb orb]. case_match; [done|]. cbn zeta.
  apply holds_save with s; [done|done| |constructor]. apply ch_outbox. eapply update_first_Forall2; [done|exact Ef|].
  split_and!; [done|done|]. by rewrite Ep.
Qed.

Lemma map_Forall2 {A} (R : A → A → Prop) f l : (∀ x, R x (f x)) → Forall2 R l (f <$> l).
Proof. intros Hf. induction l; by constructor. Qed.
Lemma holds_recover io w id now : holds w → holds (Recover io w id now).1.
Proof.
  intros Hw. unfold Recover. destruct (session_of w id) as [s|] eqn:Es; [|done].
  destruct (validateSessionState s) as [[]|]; [|done]. cbn zeta. set (u := orNow _ now). destruct (_ || _); [|done]. cbn [negb].
  apply (holds_saved io w id s _ _ _ (λ w', (w', Ok _))); [done|done| |constructor|done]. apply change_touch.
  eapply ch_trans; [apply (ch_outbox _ s (expire_claim u <$> ss_Outbox s))|apply ch_leases; cbn [ss_with_Outbox ss_Leases]];
    apply map_Forall2.
  - intros e. unfold expire_claim, claim_expired. destruct (bool_decide_reflect (ob_State e = "processing")) as [Ep|]; [|done].
    cbn [andb]. case_match; [|done]. split_and!; [done|done|]. by rewrite Ep.
  - intros l. unfold expire_lease, lease_expired. destruct (bool_decide_reflect (ls_State l = "held")) as [Ep|]; [|done].
    cbn [andb]. case_match; [|done]. split; [done|]. by rewrite Ep.
Qed.

(** Every operation carries the property. *)
Lemma holds_run op io w : io_ok io → op_ok op → holds w → holds (run op io w).
Proof.
  intros Hio Hop Hw. destruct op; cbn [run op_ok] in *.
  - by apply holds_persist.
  - destruct Hw as (Hm & [_ Hp] & Hf). split_and!; [done| |done]. split; [|done]. destruct sm; [done|]. apply Summarize_ok.
  - done.
  - by apply holds_create.
  - by apply holds_ensure.
  - by apply holds_append.
  - by apply holds_tool.
  - by apply holds_checkpoint.
  - by apply holds_compact.
  - by apply holds_memory.
  - by apply holds_review.
  - by apply holds_reduce.
  - by apply holds_acquire.
  - by apply holds_release.
  - by apply holds_heartbeat.
  - by apply holds_enqueue.
  - by apply holds_enqueue_claim.
  - by apply holds_claim.
  - by apply holds_ack.
  - by apply holds_complete.
  - by apply holds_nack.
  - by apply holds_recover.
Qed.

(** *** Restarts *)

Lemma extends_trans s1 s2 s3 : extends s1 s2 → extends s2 s3 → extends s1 s3.
Proof.
  intros [->|(ts & now & ->)] [->|(us & later & ->)]; unfold extends; [by left|right; by exists us, later|right; by exists ts, now|].
  right. exists (ts ++ us), later. cbn. by rewrite app_assoc.
Qed.
Lemma extended_refl m : extended m m.
Proof. intros id. destruct (m !! id); [by left|done]. Qed.
Lemma extended_trans m1 m2 m3 : extended m1 m2 → extended m2 m3 → extended m1 m3.
Proof.
  intros H12 H23 id. specialize (H12 id). specialize (H23 id).
  destruct (m1 !! id), (m2 !! id), (m3 !! id); try done. by eapply extends_trans.
Qed.

Lemma append_each_frame io k w ts k' w' r :
  append_each io k w ts = (k', w', r) → hw_store w' = hw_store w ∧ same_stored (hw_files w) (hw_files w').
Proof.
  revert k w. induction ts as [|t ts IH]; intros k w; cbn [append_each]; [by intros [= <- <- <-]|].
  destruct (appendTranscript io k w t) as [w1 [[]|e]] eqn:Et; apply transcript_frame in Et as [E1 [E2 E3]].
  - intros E. apply IH in E as (E4 & E5 & E6). unfold same_stored. by rewrite E4, E5, E6, E1, E2, E3.
  - by intros [= <- <- <-].
Qed.

Lemma reconcile_session_frame io k w id logged k' c w' r :
  reconcile_session io k w id logged = (k', c, w', r) →
  same_stored (hw_files w) (hw_files w') ∧ extended (hs_sessions (hw_store w)) (hs_sessions (hw_store w'))
  ∧ (c = false → hw_store w' = hw_store w) ∧ (store_ok (hw_store w) → store_ok (hw_store w')).
Proof.
  unfold reconcile_session. destruct (session_of w id) as [s|] eqn:Es; [|intros [= <- <- <- <-]; by split_and!; [..|apply extended_refl| |]].
  cbn zeta. destruct (length (ss_Turns s) <? length logged)%nat eqn:El.
  - set (s' := match last logged with Some l => touch _ _ | None => _ end). destruct (append_each _ _ _ _) as [[k1 w1] r1] eqn:Ea.
    apply append_each_frame in Ea as [E1 E2]. assert (Hx : extended (hs_sessions (hw_store w)) (hs_sessions (hw_store w1))).
    { rewrite E1. intros id'. cbn. destruct (decide (id' = id)) as [->|Hne].
      - rewrite lookup_insert_eq. unfold session_of in Es. rewrite Es. unfold s'. destruct (last logged) as [l|] eqn:Ell; [right; by eexists _, _|].
        apply last_None in Ell as ->. apply Nat.ltb_lt in El. cbn in El. lia.
      - rewrite lookup_insert_ne by done. apply extended_refl. }
    destruct r1 as [[]|e]; intros [= <- <- <- <-]; split_and!; try done; by rewrite E1.
  - destruct (append_each _ _ _ _) as [[k1 w1] r1] eqn:Ea. apply append_each_frame in Ea as [E1 E2].
    destruct r1 as [[]|e]; intros [= <- <- <- <-]; rewrite E1; split_and!; try done; apply extended_refl.
Qed.
Lemma reconcile_sessions_frame io k c w records k' c' w' r :
  reconcile_sessions io k c w records = (k', c', w', r) →
  same_stored (hw_files w) (hw_files w') ∧ extended (hs_sessions (hw_store w)) (hs_sessions (hw_store w'))
  ∧ (c' = false → hw_store w' = hw_store w) ∧ (store_ok (hw_store w) → store_ok (hw_store w')).
Proof.
  revert k c w. induction records as [|[id logged] records IH]; intros k c w; cbn [reconcile_sessions].
  { intros [= <- <- <- <-]. split_and!; try done. apply extended_refl. }
  destruct (reconcile_session io k w id logged) as [[[k1 c1] w1] [[]|e]] eqn:E1;
    apply reconcile_session_frame in E1 as ([F1 F2] & F3 & F4 & F5).
  - intros E. pose proof E as E'. apply IH in E as ([G1 G2] & G3 & G4 & G5).
    split; [unfold same_stored; by rewrite G1, G2|]. split_and!.
    + by eapply extended_trans.
    + intros Hc. rewrite (G4 Hc). apply F4. revert E' Hc. clear. revert k1 w1.
      assert (∀ c k w k' c' w' r, reconcile_sessions io k c w records = (k', c', w', r) → c' = false → c = false) as Hm.
      { induction records as [|[i l] rs IH]; intros c0 k0 w0 k2 c2 w2 r2; cbn [reconcile_sessions]; [by intros [= _ <- _ _]|].
        destruct (reconcile_session io k0 w0 i l) as [[[k3 c3] w3] [[]|e]]; [intros E Hc; apply IH in E; [|done]|intros [= _ <- _ _] E];
          by apply orb_false_iff in E as [E _]. }
      intros k1 w1 E Hc. apply Hm in E; [|done]. by apply orb_false_iff in E as [_ E].
    + auto.
  - intros [= <- <- <- <-]. split_and!; try done. intros Hc. apply F4. by apply orb_false_iff in Hc as [_ Hc].
Qed.

Lemma check_range_valid message m :
  check_each (λ _ p, wrap_err message [fst p] (validateSessionState (snd p))) (range m) = Ok tt → all_valid m.
Proof.
  rewrite check_each_Ok. intros Hc id s Hs. apply elem_of_range in Hs. apply list_elem_of_lookup in Hs as [k Hk].
  specialize (Hc k (id, s) Hk). by apply wrap_err_Ok in Hc.
Qed.

Lemma holds_reconcile io w w' r :
  holds w → reconcileTranscript io w = (w', r) → files_ok (hw_files w') ∧ (r = Ok tt → holds w').
Proof.
  intros Hw E. pose proof Hw as (Hm & Hsm & Hf). unfold reconcileTranscript in E.
  destruct (readTranscript io (hw_files w)) as [[records|]|e]; [| |by injection E as <- <-].
  2: { destruct (append_each _ _ _ _) as [[k w1] r1] eqn:Ea. injection E as <- <-. apply append_each_frame in Ea as [E1 E2].
       pose proof (files_ok_same _ _ E2 Hf) as Hf1. split; [done|]. intros _. unfold holds. by rewrite E1. }
  destruct (reconcile_sessions io 0 false w (range records)) as [[[k c] w1] [[]|e]] eqn:Er;
    apply reconcile_sessions_frame in Er as (F1 & F2 & F3 & F4); pose proof (files_ok_same _ _ F1 Hf) as Hf1;
    [|by injection E as <- <-].
  destruct (append_each io k w1 _) as [[k2 w2] [[]|e]] eqn:Ea; apply append_each_frame in Ea as [G1 G2];
    pose proof (files_ok_same _ _ G2 Hf1) as Hf2; [|by injection E as <- <-].
  destruct c; cbn [negb] in E.
  2: { injection E as <- <-. split; [done|]. intros _. unfold holds. by rewrite G1, (F3 eq_refl). }
  destruct (check_each_from 0 _ _) as [[]|e] eqn:Ec; [|by injection E as <- <-]. apply check_range_valid in Ec.
  assert (holds w2) as Hw2.
  { unfold holds. rewrite G1 in Ec |- *. split_and!; [by eapply (cl_extend Q HQ)|by apply F4|done]. }
  pose proof (holds_persist io w2 Hw2) as Hp. destruct (persistLocked io w2) as [w3 [[]|e]]; injection E as <- <-; cbn [fst] in Hp;
    (split; [apply Hp|done]).
Qed.

Lemma last_journal_stored i latest lines p :
  last_journal i latest lines = Ok (Some p) → Some p ∈ lines ∨ latest = Some p.
Proof.
  revert i latest. induction lines as [|[q|] lines IH]; intros i latest; cbn [last_journal].
  - intros [= ->]. auto.
  - intros E. apply IH in E as [Hin|[= ->]]; left; [by right|by left].
  - destruct lines; [|done]. intros [= ->]. auto.
Qed.
Lemma load_state_stored io f p : load_state io f = Ok (Some p) → stored f p.
Proof.
  unfold load_state. intros E. apply rbind_reject_Ok in E as [_ E]. apply rbind_Ok in E as (j & Ej & E). apply wrap_err_Ok in Ej.
  destruct j as [q|].
  - injection E as ->. right. unfold readLastJournal in Ej. destruct (fl_journal f) as [l|]; [|done]. exists l. split; [done|].
    destruct (hi_read_journal io); [done|]. by apply last_journal_stored in Ej as [|].
  - left. destruct (fl_snapshot f) as [|e|q]; [by apply rbind_reject_Ok in E as [_ E]|done|by injection E as ->].
Qed.
Lemma load_state_none io f : load_state io f = Ok None → fl_snapshot f = SnapAbsent.
Proof.
  unfold load_state. intros E. apply rbind_reject_Ok in E as [_ E]. apply rbind_Ok in E as (j & Ej & E).
  destruct j as [q|]; [done|]. by destruct (fl_snapshot f).
Qed.
Lemma load_store_sessions p s :
  load_store (TrimSpace path) p = Ok s → pst_Version p = harnessStateVersion →
  hs_sessions s = scope_session <$> pst_Sessions p ∧ store_ok s.
Proof.
  intros E Hv. unfold load_store in E. rewrite Hv in E. cbn [harnessStateVersion] in E. apply rbind_reject_Ok in E as [_ E].
  rewrite Z.ltb_irrefl in E. cbn [rbind] in E. cbn zeta in E. apply rbind_unit_Ok in E as [_ E]. apply rbind_unit_Ok in E as [_ [= <-]].
  split; [done|]. split; [apply Summarize_ok|done].
Qed.

Lemma holds_New io f f' r : files_ok f → New io path f = (f', r) → files_ok f' ∧ (∀ s, r = Ok s → holds {| hw_store := s; hw_files := f' |}).
Proof.
  intros Hf E. unfold New in E. cbn zeta in E.
  assert (Hempty : Q ∅ → holds {| hw_store := empty_store (TrimSpace path); hw_files := f |}).
  { intros Hq. split_and!; [done|split; [apply Summarize_ok|done]|done]. }
  destruct (bool_decide_reflect (TrimSpace path = "")) as [Eb|Eb].
  { injection E as <- <-. split; [done|]. intros s [= <-]. apply Hempty. destruct Hf as [_ [|[Hb _]]]; [done|].
    unfold blank in Hb. by apply bool_decide_eq_false in Hb. }
  destruct (load_state io f) as [[p|]|e] eqn:El; [| |by injection E as <- <-].
  2: { injection E as <- <-. split; [done|]. intros s [= <-]. apply Hempty. apply load_state_none in El.
       destruct Hf as [_ [|[_ [p Hp]]]]; [done|]. congruence. }
  destruct (load_store (TrimSpace path) p) as [s|e] eqn:Es; [|by injection E as <- <-].
  apply load_state_stored in El. destruct Hf as [Hh Hr]. destruct (Hh p El) as [Hv Hp].
  destruct (load_store_sessions _ _ Es Hv) as [E1 E2].
  assert (holds {| hw_store := s; hw_files := f |}) as Hw.
  { split_and!; cbn; [rewrite E1; by apply (cl_scope Q HQ)|done|by split]. }
  destruct (reconcileTranscript io {| hw_store := s; hw_files := f |}) as [w' r'] eqn:Er.
  destruct (holds_reconcile _ _ _ _ Hw Er) as [Hf' Hw']. destruct r' as [[]|e]; injection E as <- <-; (split; [done|]); [|done].
  intros s' [= <-]. specialize (Hw' eq_refl). by destruct w'.
Qed.

(** The principle: a closed property that holds at a world holds ever after. *)
Lemma holds_steps w w' : rtc (step path) w w' → holds w → holds w'.
Proof.
  induction 1 as [|w1 w2 w3 Hstep _ IH]; [done|]. intros Hw. apply IH. destruct Hstep as [op io w Hio Hop|io w f s Hio E|io w f e Hio E].
  - by apply holds_run.
  - apply (holds_New io (hw_files w) f (Ok s)); [apply Hw|done|done].
  - destruct Hw as (Hm & Hsm & Hf). split_and!; [done|done|]. by destruct (holds_New io (hw_files w) f (Err e) Hf E) as [Hf' _].
Qed.
Lemma holds_start : Q ∅ → holds (start path).
Proof.
  intros Hq. split_and!; [done|split; [apply Summarize_ok|done]|]. split; [|by left]. intros p [Hp|(l & Hl & _)]; done.
Qed.
End carry.

(** A property [P] of each session, as a property of the map. *)
Lemma closed_each (P : string → sessionState → Prop) :
  (∀ id s s', P id s → change id s s' → P id s') →
  (∀ stamp s s', st_id stamp ≠ "" → prepare_session stamp s = Ok s' → P (se_ID s') (empty_session s')) →
  (∀ raw id s, P id s → P id (reread_session raw s)) → (∀ id s, P id s → P id (scope_session s)) →
  (∀ id s s', P id s → extends s s' → validateSessionState s' = Ok tt → P id s') →
  closed (map_Forall P).
Proof.
  intros Pch Pnew Pre Psc Pext. constructor.
  - intros m id s s' Hs Hch Hm. apply map_Forall_insert_2; [|done]. eapply Pch; [|exact Hch]. by apply Hm.
  - intros m stamp s s' _ Hid Hp Hm. apply map_Forall_insert_2; [|done]. by eapply Pnew.
  - intros raw m Hm id s. rewrite lookup_fmap. destruct (m !! id) as [s0|] eqn:E; [|done]. intros [= <-]. by apply Pre, Hm.
  - intros m Hm id s. rewrite lookup_fmap. destruct (m !! id) as [s0|] eqn:E; [|done]. intros [= <-]. by apply Psc, Hm.
  - intros m m' Hm Hx Hv id s' Hs'. specialize (Hx id). rewrite Hs' in Hx. destruct (m !! id) as [s|] eqn:E; [|done].
    eapply Pext; [by apply Hm|done|]. by apply (Hv id).
Qed.

Lemma closed_and Q R : closed Q → closed R → closed (λ m, Q m ∧ R m).
Proof. intros [] []. constructor; intros; naive_solver. Qed.

(** ** Sessions stay valid *)

Lemma prepared_session stamp s s' :
  st_id stamp ≠ "" → prepare_session stamp s = Ok s' → header_ok s' ∧ se_ContextVersion s' = 1%Z.
Proof.
  intros Hid E. unfold prepare_session in E. cbn zeta in E. apply rbind_reject_Ok in E as [Ht E]. apply rbind_reject_Ok in E as [_ E].
  apply rbind_reject_Ok in E as [_ E]. apply rbind_reject_Ok in E as [_ [= <-]]. split; [|done].
  assert (∀ x, blank x = false → x ≠ "") as Hb by (by intros x Hx ->). apply orb_false_iff in Ht as [Ht Hw]. unfold header_ok.
  cbn [se_prepared se_ID se_TenantID se_WorkspaceID se_ContextVersion]. rewrite !(bool_decide_eq_false_2 (_ = "")); auto.
  destruct (blank (se_ID s)) eqn:Eb; auto.
Qed.

Lemma closed_sound : closed (map_Forall sound).
Proof.
  apply closed_each.
  - intros id s s' Hs Hch. by apply (change_sound _ _ _ Hch).
  - intros stamp s s' Hid Hp. destruct (prepared_session _ _ _ Hid Hp) as [Hh Hv]. split_and!; [done|done|]. intros _.
    apply valid_iff. split_and!; [done|done|by eexists|done|done].
  - intros raw id s (E1 & E2 & Ev). split_and!; [done|done|]. intros Hf. apply valid_iff. by apply Ev, valid_iff in Hf.
  - intros id s (E1 & E2 & Ev). split_and!; [done|done|]. intros Hf. apply valid_iff. apply Ev, valid_iff in Hf as (Hh & Ht & Hc & Ha & Hm).
    split_and!; try done. apply memories_Forall. apply memories_Forall in Hm. apply Forall_fmap. eapply Forall_impl; [exact Hm|].
    intros m Hmem. cbn. destruct (blank (mi_Scope m)); [|done]. unfold check_memory in *. apply rbind_reject_Ok in Hmem as [Hb Hmem].
    apply rbind_reject_Ok. split; [|exact Hmem]. rewrite !orb_false_iff in *. destruct Hb as [[[Hb1 Hb2] Hb3] Hb4]. by split_and!.
  - intros id s s' (E1 & E2 & Ev) Hx Hv. destruct Hx as [->|(ts & now & ->)]; [by split_and!|]. by split_and!.
Qed.

Lemma reachable_sound path w : reachable path w → holds (map_Forall sound) path w.
Proof. intros Hr. eapply holds_steps; [apply closed_sound|exact Hr|]. apply holds_start, map_Forall_empty. Qed.

(** C30: whatever operations, faults and restarts the store of one process goes
    through, with installed summarizers that rate their summaries within [0,1], every
    session it holds, in memory, in its snapshot or in its journal, passes the checks
    a restart and a recovery make, as long as its size is below a terabyte ([fits]).
    (A summary rated outside [0,1] is stored and fails those checks:
    [overrated_summary_unopenable].) *)
Theorem sessions_always_valid path w :
  reachable path w →
  (∀ id s, session_of w id = Some s → fits s → validateSessionState s = Ok tt)
  ∧ ∀ p id s, stored (hw_files w) p → pst_Sessions p !! id = Some s → fits s → validateSessionState s = Ok tt.
Proof.
  intros Hr. destruct (reachable_sound _ _ Hr) as (Hm & _ & [Hf _]). split.
  - intros id s Hs. by apply (Hm id s Hs).
  - intros p id s Hp Hs. destruct (Hf p Hp) as [_ Hq]. by apply (Hq id s Hs).
Qed.

(** ** What was acknowledged stays *)

(** The session under [id] has at least the history of [base]. *)
Definition keeps (id : string) (base : sessionState) (m : gmap string sessionState) : Prop :=
  map_Forall sound m ∧ ∃ s, m !! id = Some s ∧ grows base s.

Lemma closed_keeps id base : closed (keeps id base).
Proof.
  pose proof closed_sound as [Cch Cnew Cre Csc Cext]. constructor.
  - intros m i s s' Hs Hch [Hm (s0 & Hs0 & Hg)]. split; [by eapply Cch|]. destruct (decide (i = id)) as [->|Hne].
    + rewrite Hs in Hs0. injection Hs0 as <-. exists s'. rewrite lookup_insert_eq. split; [done|].
      etrans; [exact Hg|]. apply (change_sound _ _ _ Hch). by apply Hm.
    + exists s0. by rewrite lookup_insert_ne.
  - intros m stamp s s' Hn Hid Hp [Hm (s0 & Hs0 & Hg)]. split; [by eapply Cnew|]. exists s0. rewrite lookup_insert_ne; [done|congruence].
  - intros raw m [Hm (s0 & Hs0 & Hg)]. split; [by apply Cre|]. exists (reread_session raw s0). by rewrite lookup_fmap, Hs0.
  - intros m [Hm (s0 & Hs0 & Hg)]. split; [by apply Csc|]. exists (scope_session s0). by rewrite lookup_fmap, Hs0.
  - intros m m' [Hm (s0 & Hs0 & Hg)] Hx Hv. split; [by eapply Cext|]. specialize (Hx id). rewrite Hs0 in Hx.
    destruct (m' !! id) as [s'|] eqn:E; [|done]. exists s'. split; [done|]. destruct Hx as [->|(ts & now & ->)]; [done|].
    etrans; [exact Hg|]. split_and!; [by exists ts|done..].
Qed.

Lemma persist_durable io w w' :
  persistLocked io w = (w', Ok tt) → hs_path (hw_store w) ≠ "" → hi_kept io = false →
  fl_snapshot (hw_files w') = Snap (reread raw_indent (next_state (hw_store w))) ∧ fl_journal (hw_files w') = None
  ∧ hw_store w' = hs_with_revision (add64 (hs_revision (hw_store w)) 1) (hw_store w).
Proof.
  intros E Hp Hk. unfold persistLocked in E. cbn zeta in E. rewrite bool_decide_eq_false_2 in E by done.
  destruct (hi_lock io); [done|]. destruct (persistedRevision io (hw_files w)) as [disk|]; [|done].
  destruct (negb _); [done|]. destruct (json_marshal _); [|done].
  destruct (write_state io (hw_files w) (next_state (hw_store w))) as [f [[]|e]] eqn:Ew; [|done]. injection E as <-.
  unfold write_state in Ew. destruct (hi_before io); [done|]. destruct (log_write _ _ _) as [j [[]|]]; [|done].
  destruct (hi_rename io); [done|]. destruct (hi_sync io); [done|]. rewrite Hk in Ew. by injection Ew as <-.
Qed.

(** After a successful save whose journal was removed, a closed property of the
    saved sessions holds of all that is stored. *)
Lemma holds_durable Q path io w id state restore message w' :
  closed Q → store_ok path (hw_store w) → blank path = false → hi_kept io = false →
  save_session io w id state restore message = (w', Ok tt) → Q (<[id := state]> (hs_sessions (hw_store w))) →
  holds Q path w' ∧ session_of w' id = Some state.
Proof.
  intros HQ [Hsm Hp] Hb Hk E Hq. unfold save_session in E.
  destruct (persistLocked io (put_session id state w)) as [w1 [[]|e]] eqn:Ep; [|done]. injection E as <-.
  assert (TrimSpace path ≠ "") as Hne by (by apply bool_decide_eq_false in Hb).
  apply persist_durable in Ep as (E1 & E2 & E3); [|cbn; congruence|done]. split.
  - unfold holds, store_ok. rewrite E3. split; [done|]. split; [done|]. split.
    + intros p [Hs|(l & Hl & _)]; [|congruence]. rewrite E1 in Hs. injection Hs as <-. split; [done|]. by apply (cl_reread Q HQ).
    + right. split; [done|by eexists].
  - unfold session_of. rewrite E3. cbn. by rewrite lookup_insert_eq.
Qed.
Lemma holds_transcripted Q path io k w ts w' r :
  holds Q path w → appendTranscriptBatch io k w ts = (w', r) → holds Q path w' ∧ hw_store w' = hw_store w.
Proof.
  intros Hw E. pose proof (holds_transcript Q path io k w ts Hw) as Ht. rewrite E in Ht. split; [done|]. by apply transcript_frame in E as [].
Qed.

(** C31: once [AppendTurn] has acknowledged a new turn and removed its journal file,
    the session's transcript starts with everything up to that turn in every later
    state of the process, through all later faults, failed operations and restarts.
    One process works on the files, and its summarizers rate within [0,1].  (When the
    removal of the journal fails the turn is acknowledged all the same and can be
    lost in a restart: [kept_journal_loses_turn].) *)
Theorem acknowledged_turns_permanent path w io id s t w1 t' w2 :
  reachable path w → blank path = false → io_ok io → hi_kept io = false →
  session_of w id = Some s → AppendTurn io w id t = (w1, Ok t') → t' ∉ ss_Turns s → rtc (step path) w1 w2 →
  ∃ s2, session_of w2 id = Some s2 ∧ ss_Turns s ++ [t'] `prefix_of` ss_Turns s2.
Proof.
  intros Hr Hb Hio Hk Hs E Hnew Hsteps. pose proof (reachable_sound _ _ Hr) as (Hm & Hst & _).
  unfold AppendTurn in E. rewrite Hs in E. destruct (append_turn _ _ _ s id t) as [[[s' u] added]|e] eqn:Ea; [|done].
  pose proof (append_turn_inv _ _ _ _ _ _ _ _ _ Ea) as [(-> & -> & Hin)|(-> & t0 & a & _ & _ & _ & _ & Hauto)]; [congruence|].
  pose proof (append_turn_sound _ _ _ _ _ _ _ _ _ Hio (proj1 Hst) (Hm id s Hs) Ea) as [Hs' Hg].
  assert (Hlen : ss_Turns s ++ [u] `prefix_of` ss_Turns s').
  { apply auto_sound with (id := id) in Hauto as [_ [Hp _]]; [done|by intros i; apply Hio|apply Hst|].
    destruct (append_turn_inv _ _ _ _ _ _ _ _ _ Ea) as [(Hf & _)|(_ & t1 & a1 & Hr1 & Hc1 & Hi1 & -> & _)]; [done|].
    apply sound_touch, sound_turn; [by apply Hm|]. apply seal_turn_ok; auto. }
  destruct (save_session io w id s' s _) as [wa [[]|e]] eqn:Es; [|done].
  assert (Hk1 : keeps id s' (<[id := s']> (hs_sessions (hw_store w)))).
  { split; [by apply map_Forall_insert_2|]. exists s'. by rewrite lookup_insert_eq. }
  destruct (holds_durable _ path _ _ _ _ _ _ _ (closed_keeps id s') Hst Hb Hk Es Hk1) as [Hh _]. unfold appendTranscript in E.
  destruct (appendTranscriptBatch io 0 wa [u]) as [wb [[]|e]] eqn:Et; [|done]. injection E as <- <-.
  destruct (holds_transcripted _ _ _ _ _ _ _ _ Hh Et) as [Hhb _].
  destruct (holds_steps _ (closed_keeps id s') _ _ _ Hsteps Hhb) as ([_ (s2 & Hs2 & Hg2)] & _).
  exists s2. split; [done|]. etrans; [exact Hlen|]. apply Hg2.
Qed.

(** ** Tool calls are recorded once *)

(** What the functions on the transcript leave alone. *)
Definition aside (s s' : sessionState) : Prop :=
  ss_Memories s' = ss_Memories s ∧ ss_Leases s' = ss_Leases s ∧ ss_Outbox s' = ss_Outbox s.
Lemma save_checkpoint_aside stamp s c s' c' :
  saveCheckpointLocked stamp s c = Ok (s', c') → aside s s' ∧ ss_Turns s' = ss_Turns s.
Proof. intros E. by destruct (save_checkpoint_inv _ _ _ _ _ E) as [[-> _]|[-> _]]. Qed.
Lemma auto_aside fresh sm tk s s' a : autoCompactLocked fresh sm tk s = Ok (s', a) → aside s s' ∧ ss_Turns s' = ss_Turns s.
Proof.
  intros E. unfold autoCompactLocked in E. cbn zeta in E. case_match; [by injection E as <- _|].
  destruct (auto_window _ s) as [selected|]; [|by injection E as <- _]. destruct (summarize_turns _ _ _ _ _ _ _) as [summary record].
  apply rbind_Ok in E as ([s1 c1] & E1 & E). apply rbind_Ok in E as ([s2 a2] & E2 & E).
  apply rbind_Ok in E as ([s3 c3] & E3 & E). injection E as <- _. apply save_checkpoint_aside in E1 as [(? & ? & ?) ?], E3 as [(? & ? & ?) ?].
  destruct (compact_inv _ _ _ _ _ E2) as (_ & -> & _). unfold aside in *. cbn in *. split_and!; congruence.
Qed.
Lemma append_turn_aside fresh sm tk s id t s' t' added :
  append_turn fresh sm tk s id t = Ok (s', t', added) →
  aside s s' ∧ ss_Turns s' = (if added then ss_Turns s ++ [t'] else ss_Turns s).
Proof.
  intros E. destruct (append_turn_inv _ _ _ _ _ _ _ _ _ E) as [(-> & -> & _)|(-> & t0 & a & _ & _ & _ & _ & Ea)]; [done|].
  by apply auto_aside in Ea.
Qed.

(** A turn or checkpoint that a replay of the same submission finds. *)
Definition turn_known (id : string) (t : Turn) (s : sessionState) (t' : Turn) : Prop :=
  find (λ e, tn_IdempotencyKey e ≟ tn_IdempotencyKey t) (ss_Turns s) = Some t'
  ∧ turnDigest t' = turnDigest (tn_with_SessionID id t).
Definition checkpoint_known (c : Checkpoint) (s : sessionState) (c' : Checkpoint) : Prop :=
  find (same_checkpoint c) (ss_Checkpoints s) = Some c'
  ∧ (0 ≤ ck_TurnSequence c ≤ Z.of_nat (length (ss_Turns s)))%Z
  ∧ (ck_EventHash c ≠? "") && negb (hasTurnHash (ss_Turns s) (ck_EventHash c)) = false.

Lemma find_app_Some {A} (P : A → bool) l l' x : find P l = Some x → find P (l ++ l') = Some x.
Proof. induction l as [|y l IH]; [done|]. cbn. by destruct (P y). Qed.
Lemma find_app_None {A} (P : A → bool) l x : find P l = None → P x = true → find P (l ++ [x]) = Some x.
Proof. induction l as [|y l IH]; cbn; [by intros _ ->|]. by destruct (P y). Qed.

Lemma turn_known_grows id t s s' t' : grows s s' → turn_known id t s t' → turn_known id t s' t'.
Proof. intros ([ts E] & _ & _) [Hf Hd]. split; [|done]. rewrite E. by apply find_app_Some. Qed.
Lemma checkpoint_known_grows c s s' c' : grows s s' → checkpoint_known c s c' → checkpoint_known c s' c'.
Proof.
  intros ([ts E] & [cs Ec] & _) (Hf & Hs & Hh). unfold checkpoint_known. rewrite E, Ec, length_app. split_and!; [|lia..|].
  - by apply find_app_Some.
  - apply andb_false_iff in Hh as [Hh|Hh]; apply andb_false_iff; [by left|right]. apply negb_false_iff in Hh. apply negb_false_iff.
    by apply hasTurnHash_app.
Qed.

Definition plain_turn (t : Turn) : Prop :=
  tn_SessionID t = "" ∧ tn_Sequence t = 0%Z ∧ tn_IdempotencyKey t ≠ "" ∧ validRole (tn_Role t) = true
  ∧ blank (tn_Content t) = false.

Lemma append_turn_known fresh sm tk s id t s' t' added :
  plain_turn t → append_turn fresh sm tk s id t = Ok (s', t', added) → turn_known id t s' t'.
Proof.
  intros (P1 & P2 & P3 & P4 & P5) E. pose proof (append_turn_aside _ _ _ _ _ _ _ _ _ E) as [_ Et].
  unfold append_turn in E. cbn zeta in E. apply rbind_reject_Ok in E as [_ E]. rewrite P1 in E. cbn in E.
  apply rbind_reject_Ok in E as [_ E]. rewrite (bool_decide_eq_false_2 (tn_IdempotencyKey t = "")) in E by done. unfold turn_known. rewrite Et.
  destruct (find _ (ss_Turns s)) as [e|] eqn:Ef.
  - apply rbind_reject_Ok in E as [Hd [= <- <- <-]]. apply negb_false_iff, bool_decide_eq_true in Hd. by split.
  - apply rbind_reject_Ok in E as [_ E]. apply rbind_Ok in E as ([s1 a] & _ & [= <- <- <-]). split; [|done].
    apply find_app_None; [done|]. by apply bool_decide_eq_true.
Qed.
Lemma append_turn_replay fresh sm tk s id t t' :
  plain_turn t → turn_known id t s t' → append_turn fresh sm tk s id t = Ok (s, t', false).
Proof.
  intros (P1 & P2 & P3 & P4 & P5) [Hf Hd]. unfold append_turn. cbn zeta. rewrite P4, P5.
  rewrite (bool_decide_eq_false_2 (tn_Role t = "")) by (intros Er; by rewrite Er in P4). cbn [negb orb reject rbind].
  rewrite P1. rewrite (bool_decide_eq_true_2 ("" = "")) by done. cbn [tn_with_SessionID tn_SessionID tn_IdempotencyKey].
  rewrite (bool_decide_eq_true_2 (id = id)) by done. cbn [negb reject rbind].
  rewrite (bool_decide_eq_false_2 (tn_IdempotencyKey t = "")) by done. rewrite Hf, Hd.
  by rewrite (bool_decide_eq_true_2 (_ = _)) by done.
Qed.

(** A checkpoint whose identity the store chooses. *)
Definition plain_checkpoint (c : Checkpoint) : Prop :=
  ck_ID c = "" ∧ ck_SessionID c = "" ∧ ck_PrevHash c = "" ∧ ck_Hash c = "" ∧ ck_CreatedAt c = 0%Z ∧ ck_OutboxIDs c = []
  ∧ ck_LeaseIDs c = [] ∧ (0 < ck_ContextVersion c)%Z.

Lemma save_checkpoint_known stamp s c s' c' :
  plain_checkpoint c → saveCheckpointLocked stamp s c = Ok (s', c') → checkpoint_known c s' c'.
Proof.
  intros (P1 & P2 & P3 & P4 & P5 & P6 & P7 & P8) E. unfold saveCheckpointLocked in E. cbn zeta in E.
  apply rbind_reject_Ok in E as [G1 E]. rewrite (proj2 (Z.eqb_neq _ _)) in E by lia. apply rbind_reject_Ok in E as [_ E].
  apply rbind_reject_Ok in E as [G2 E]. apply rbind_reject_Ok in E as [G3 E].
  apply orb_false_iff in G1 as [G1 _]. apply orb_false_iff in G1 as [_ G1]. apply Z.ltb_ge in G1, G2.
  destruct (find (same_checkpoint c) (ss_Checkpoints s)) as [e|] eqn:Ef.
  - apply rbind_reject_Ok in E as [_ [= <- <-]]. split_and!; done.
  - apply rbind_unit_Ok in E as [_ [= <- <-]]. split_and!; try done. apply find_app_None; [done|].
    unfold same_checkpoint. cbn [seal_checkpoint ck_with_Hash ck_stamped ck_TurnSequence ck_Phase ck_EventHash ck_ToolCallID
      ck_ContextVersion ck_State ck_OutboxIDs ck_LeaseIDs]. rewrite P6, P7, !(bool_decide_eq_true_2 (_ = _)) by done. done.
Qed.
Lemma save_checkpoint_replay stamp s c c' :
  plain_checkpoint c → phase_valid (ck_Phase c) = true → checkpoint_known c s c' → saveCheckpointLocked stamp s c = Ok (s, c').
Proof.
  intros (P1 & P2 & P3 & P4 & P5 & P6 & P7 & P8) Hp (Hf & Hs & Hh). unfold saveCheckpointLocked. cbn zeta.
  rewrite Hp, (proj2 (Z.ltb_ge _ _)), (proj2 (Z.ltb_ge (ck_ContextVersion c) 0)) by lia. cbn [negb orb reject rbind].
  rewrite (proj2 (Z.eqb_neq _ _)), (proj2 (Z.leb_gt _ _)), (proj2 (Z.ltb_ge _ _)) by lia. cbn [negb orb reject rbind].
  rewrite Hh. cbn [reject rbind]. rewrite Hf. unfold forged_checkpoint. by rewrite P1, P2, P3, P4, P5.
Qed.

Definition tool_before (name call content : string) : Turn :=
  tool_turn content name call "before" ("tool:" +:+ call +:+ ":before").
Definition tool_after (name call content : string) : Turn :=
  tool_turn content name call "after" ("tool:" +:+ call +:+ ":after").
Definition started (call : string) (version : Z) (t : Turn) : Checkpoint :=
  phase_checkpoint (tn_Sequence t) CheckpointToolBefore (tn_Hash t) call version "tool started".
Definition finished (call : string) (version : Z) (t : Turn) : Checkpoint :=
  phase_checkpoint (tn_Sequence t) CheckpointToolAfter (tn_Hash t) call version "tool completed".
(** The session has the whole transaction of a tool call. *)
Definition tool_known (id call name before after : string) (version : Z) (s : sessionState) (cps : list Checkpoint) : Prop :=
  ∃ tb ta cb ca, cps = [cb; ca]
    ∧ turn_known id (tool_before name call before) s tb ∧ checkpoint_known (started call version tb) s cb
    ∧ turn_known id (tool_after name call after) s ta ∧ checkpoint_known (finished call version ta) s ca.

Lemma tool_known_grows id call name before after version s s' cps :
  grows s s' → tool_known id call name before after version s cps → tool_known id call name before after version s' cps.
Proof.
  intros Hg (tb & ta & cb & ca & -> & T1 & C1 & T2 & C2). exists tb, ta, cb, ca.
  split_and!; [done|by eapply turn_known_grows|by eapply checkpoint_known_grows|by eapply turn_known_grows|by eapply checkpoint_known_grows].
Qed.

Lemma plain_tool content name call status key : blank content = false → key ≠ "" → plain_turn (tool_turn content name call status key).
Proof. intros Hc Hk. by split_and!. Qed.

Lemma tool_transaction_known fresh sm tk id s call name before after version s' added cps :
  fresh_ok fresh → sm_ok sm → sound id s → blank before = false → blank after = false → (0 < version)%Z →
  tool_transaction fresh sm tk s id call name before after version = Ok (s', added, cps) →
  tool_known id call name before after version s' cps.
Proof.
  intros Hf Hsm Hs Hb Ha Hv E. unfold tool_transaction in E. apply rbind_Ok in E as ([[s1 t1] b1] & E1 & E).
  apply rbind_Ok in E as ([s2 c2] & E2 & E). apply rbind_Ok in E as ([[s3 t3] b3] & E3 & E).
  apply rbind_Ok in E as ([s4 c4] & E4 & [= <- _ <-]). unfold appendTurnLocked in E1, E3.
  apply rbind_reject_Ok in E1 as [_ E1]. apply rbind_reject_Ok in E3 as [_ E3].
  pose proof (append_turn_known _ _ _ _ _ _ _ _ _ (plain_tool before name call "before" ("tool:" +:+ call +:+ ":before") Hb ltac:(done)) E1) as T1.
  pose proof (append_turn_known _ _ _ _ _ _ _ _ _ (plain_tool after name call "after" ("tool:" +:+ call +:+ ":after") Ha ltac:(done)) E3) as T2.
  pose proof (save_checkpoint_known _ _ (started call version t1) _ _ ltac:(by split_and!) E2) as C1.
  pose proof (save_checkpoint_known _ _ (finished call version t3) _ _ ltac:(by split_and!) E4) as C2.
  apply append_turn_sound in E1 as [Hs1 Hg1]; [|done..]. apply (save_checkpoint_sound _ id) in E2 as [Hs2 Hg2]; [|apply Hf|done].
  apply append_turn_sound in E3 as [Hs3 Hg3]; [|by intros i; apply Hf|done|done].
  apply (save_checkpoint_sound _ id) in E4 as [_ Hg4]; [|apply Hf|done].
  assert (grows s2 s4) as G by (by etrans). assert (grows s1 s4) as G1 by (by etrans).
  exists t1, t3, c2, c4. split_and!; [done|by apply (turn_known_grows _ _ s1)|by apply (checkpoint_known_grows _ s2)|by apply (turn_known_grows _ _ s3)|done].
Qed.

Lemma tool_transaction_replay fresh sm tk id s call name before after version cps :
  se_ID (ss_Session s) = id → blank before = false → blank after = false → (0 < version)%Z →
  tool_known id call name before after version s cps →
  tool_transaction fresh sm tk s id call name before after version = Ok (s, [], cps).
Proof.
  intros Hid Hb Ha Hv (tb & ta & cb & ca & -> & T1 & C1 & T2 & C2). unfold tool_transaction, appendTurnLocked.
  rewrite Hid, (bool_decide_eq_true_2 (id = id)) by done. cbn [negb reject rbind].
  rewrite (append_turn_replay _ _ _ _ _ _ tb) by (done || by apply plain_tool). cbn [rbind].
  rewrite (save_checkpoint_replay _ _ (started call version tb) cb) by (done || by split_and!). cbn [rbind].
  rewrite Hid, (bool_decide_eq_true_2 (id = id)) by done. cbn [negb reject rbind].
  rewrite (append_turn_replay _ _ _ _ _ _ ta) by (done || by apply plain_tool). cbn [rbind].
  by rewrite (save_checkpoint_replay _ _ (finished call version ta) ca) by (done || by split_and!).
Qed.

Lemma trimmed_or s d : blank d = false → blank (if TrimSpace s ≟ "" then d else TrimSpace s) = false.
Proof. intros Hd. case_bool_decide; [done|]. by apply TrimSpace_not_blank. Qed.

(** C32: a tool call that was recorded under an explicit context version, its journal
    file having been removed, is found again: in every later state of the store,
    restarts included, recording it once more returns the same two checkpoints and
    changes nothing.  One process works on the files; for a journal that could not be
    removed see [kept_journal_loses_turn]. *)
Theorem tool_call_replays path w io id s call name input output version w1 cps s1 w2 io2 :
  reachable path w → blank path = false → io_ok io → hi_kept io = false → (0 < version)%Z →
  session_of w id = Some s → RecordToolCall io w id call name input output version = (w1, Ok cps) →
  session_of w1 id = Some s1 → ss_Turns s1 ≠ ss_Turns s → rtc (step path) w1 w2 →
  RecordToolCall io2 w2 id call name input output version = (w2, Ok cps).
Proof.
  intros Hr Hb Hio Hk Hv Hs E Hs1 Hne Hsteps. pose proof (reachable_sound _ _ Hr) as (Hm & Hst & _). revert E.
  unfold RecordToolCall. cbn zeta. destruct (TrimSpace call ≟ "") eqn:Ec; [done|].
  set (before := if TrimSpace input ≟ "" then _ else _). set (after := if TrimSpace output ≟ "" then _ else _).
  assert (Hbe : blank before = false) by (by apply trimmed_or). assert (Haf : blank after = false) by (by apply trimmed_or).
  rewrite Hs, !(proj2 (Z.leb_gt version 0)) by lia.
  destruct (tool_transaction _ _ _ s id _ _ _ _ _) as [[[s' added] cps']|e] eqn:Et; [|done].
  pose proof (tool_transaction_sound _ _ _ _ _ _ _ _ _ _ _ _ _ Hio (proj1 Hst) (Hm id s Hs) Et) as [Hs' _].
  pose proof (tool_transaction_known _ _ _ _ _ _ _ _ _ _ _ _ _ Hio (proj1 Hst) (Hm id s Hs) Hbe Haf Hv Et) as Hkn.
  destruct (_ && _); [intros [= <- <-]; congruence|].
  destruct (save_session io w id s' s _) as [wa [[]|e]] eqn:Es; [|done].
  assert (Hk1 : keeps id s' (<[id := s']> (hs_sessions (hw_store w)))).
  { split; [by apply map_Forall_insert_2|]. exists s'. by rewrite lookup_insert_eq. }
  destruct (holds_durable _ path _ _ _ _ _ _ _ (closed_keeps id s') Hst Hb Hk Es Hk1) as [Hh _].
  destruct (appendTranscriptBatch io 0 wa added) as [wb [[]|e]] eqn:Eb; [|done]. intros [= <- <-].
  destruct (holds_transcripted _ _ _ _ _ _ _ _ Hh Eb) as [Hhb _].
  destruct (holds_steps _ (closed_keeps id s') _ _ _ Hsteps Hhb) as ([Hm2 (s2 & Hs2 & Hg2)] & _).
  change (session_of w2 id = Some s2) in Hs2. rewrite Hs2.
  rewrite (tool_transaction_replay _ _ _ _ _ _ _ _ _ _ cps'); [|by apply (Hm2 id)|done|done|done|by eapply tool_known_grows].
  rewrite (bool_decide_eq_true_2 ([] = [])), Nat.eqb_refl by done. done.
Qed.

(** ** Leases and outbox *)

Lemma aside_trans s1 s2 s3 : aside s1 s2 → aside s2 s3 → aside s1 s3.
Proof. intros (? & ? & ?) (? & ? & ?). split_and!; congruence. Qed.
Lemma tool_aside fresh sm tk id s call name before after version s' added cps :
  tool_transaction fresh sm tk s id call name before after version = Ok (s', added, cps) → aside s s'.
Proof.
  intros E. unfold tool_transaction, appendTurnLocked in E. apply rbind_Ok in E as ([[s1 t1] b1] & E1 & E).
  apply rbind_Ok in E as ([s2 c2] & E2 & E). apply rbind_Ok in E as ([[s3 t3] b3] & E3 & E).
  apply rbind_Ok in E as ([s4 c4] & E4 & [= <- _ _]). apply rbind_reject_Ok in E1 as [_ E1]. apply rbind_reject_Ok in E3 as [_ E3].
  apply append_turn_aside in E1 as [E1 _], E3 as [E3 _]. apply save_checkpoint_aside in E2 as [E2 _], E4 as [E4 _].
  by do 3 (eapply aside_trans; [eassumption|]).
Qed.
Lemma compact_session_aside fresh s q s' a : compact_session fresh s q = Ok (s', a) → aside s s'.
Proof.
  intros E. unfold compact_session in E. cbn zeta in E. apply rbind_Ok in E as ([s1 c1] & E1 & E).
  apply rbind_Ok in E as ([s2 a2] & E2 & E). apply rbind_reject_Ok in E as [_ E]. apply rbind_Ok in E as ([s3 c3] & E3 & [= <- _]).
  apply save_checkpoint_aside in E1 as [E1 _], E3 as [E3 _]. destruct (compact_inv _ _ _ _ _ E2) as (_ & -> & _).
  eapply aside_trans; [exact E1|]. eapply aside_trans; [|exact E3]. done.
Qed.

(** A key has one open lease at most. *)
Definition open_keys (ls : list Lease) : list string := ls_Key <$> filter (λ l, ls_State l ≠ "released") ls.
Definition unique_open (s : sessionState) : Prop := NoDup (open_keys (ss_Leases s)).

Lemma open_keys_next ls ls' : Forall2 lease_next ls ls' → sublist (open_keys ls') (open_keys ls).
Proof.
  unfold open_keys. induction 1 as [|l l' ls ls' [Hk Hr] _ IH]; [done|]. rewrite !filter_cons.
  destruct (decide (ls_State l' ≠ "released")) as [Ho'|Ho'], (decide (ls_State l ≠ "released")) as [Ho|Ho]; cbn.
  - rewrite Hk. by apply sublist_skip.
  - destruct Ho. intros E. by apply Ho', Hr.
  - by apply sublist_cons.
  - done.
Qed.
Lemma find_open_None key ls : find (open_lease key) ls = None → key ∉ open_keys ls.
Proof.
  intros Hf Hin. unfold open_keys in Hin. apply list_elem_of_fmap in Hin as (l & -> & Hl). apply list_elem_of_filter in Hl as [Ho Hl].
  apply list_elem_of_In in Hl. pose proof (find_none _ _ Hf l Hl) as Hn. unfold open_lease in Hn.
  rewrite bool_decide_eq_true_2, bool_decide_eq_false_2 in Hn by done. done.
Qed.

Lemma change_unique id s s' : change id s s' → unique_open s → unique_open s'.
Proof.
  unfold unique_open.
  induction 1 as [| | |fresh sm tk s t s' t' added _ _ E|fresh sm tk s call name before after version s' added cps _ _ E
    |stamp s c s' c' _ E|fresh s q s' a _ _ E| | |s l Hn|s l Hf| |]; intros Hu; auto.
  - by apply append_turn_aside in E as [(_ & -> & _) _].
  - by apply tool_aside in E as (_ & -> & _).
  - by apply save_checkpoint_aside in E as [(_ & -> & _) _].
  - by apply compact_session_aside in E as (_ & -> & _).
  - cbn. eapply sublist_NoDup; [exact Hu|by apply open_keys_next].
  - cbn. unfold open_keys. rewrite filter_app, fmap_app. apply NoDup_app. split_and!; [done| |].
    + intros x Hx. rewrite filter_cons. case_decide; [|set_solver]. cbn. intros Hin. apply list_elem_of_singleton in Hin as ->.
      by apply find_open_None in Hf.
    + rewrite filter_cons. case_decide; cbn; [apply NoDup_singleton|constructor].
Qed.

Lemma closed_unique : closed (map_Forall (λ _, unique_open)).
Proof.
  apply closed_each; [intros; by eapply change_unique|intros; constructor|done|done|].
  by intros id s s' Hu [->|(ts & now & ->)] _.
Qed.

(** C33: while a lease of a session is held and has not expired, nobody else acquires
    its key: in every reachable store an attempt by another owner answers
    [ErrLeaseBusy] and changes nothing. *)
Theorem session_lease_exclusive path w io id s l owner ttl now :
  reachable path w → session_of w id = Some s → l ∈ ss_Leases s → ls_State l = "held" → (now < ls_ExpiresAt l)%Z → now ≠ 0%Z →
  owner ≠ ls_Owner l → blank owner = false → blank (ls_Key l) = false → (0 < ttl)%Z →
  AcquireLease io w id (ls_Key l) owner ttl now = (w, Err ErrLeaseBusy).
Proof.
  intros Hr Hs Hl Hh Hlive Hz Ho Hb Hk Ht.
  assert (Hu : unique_open s).
  { destruct (holds_steps _ closed_unique path _ _ Hr (holds_start _ path (map_Forall_empty _))) as [Hm _]. exact (Hm id s Hs). }
  unfold AcquireLease. rewrite Hs, Hb, Hk, (proj2 (Z.leb_gt _ _)) by lia. cbn [orb]. cbn zeta. unfold orNow, IsZero.
  rewrite (proj2 (Z.eqb_neq _ _)) by done. destruct (find (open_lease (ls_Key l)) (ss_Leases s)) as [l'|] eqn:Ef.
  - assert (l' = l) as ->.
    { apply find_some in Ef as [Hin Ef]. apply andb_true_iff in Ef as [E1 E2]. apply bool_decide_eq_true in E1.
      apply negb_true_iff, bool_decide_eq_false in E2. apply list_elem_of_In in Hin.
      eapply (NoDup_fmap_inj ls_Key _ _ _ Hu); [| |done]; apply list_elem_of_filter; [done|split; [by rewrite Hh|done]]. }
    unfold After. rewrite (proj2 (Z.ltb_lt _ _)) by done. by rewrite bool_decide_eq_false_2.
  - apply find_open_None in Ef. destruct Ef. unfold open_keys. apply list_elem_of_fmap. exists l. split; [done|].
    apply list_elem_of_filter. by rewrite Hh.
Qed.

Definition outbox_keys (s : sessionState) : list string := ob_IdempotencyKey <$> ss_Outbox s.
Definition outbox_kept (s s' : sessionState) : Prop :=
  ∀ i e, ss_Outbox s !! i = Some e → ∃ e', ss_Outbox s' !! i = Some e' ∧ outbox_next e e'.
Lemma outbox_same s s' : ss_Outbox s' = ss_Outbox s → outbox_kept s s'.
Proof. intros E i e He. exists e. by rewrite E. Qed.

Lemma change_outbox id s s' :
  change id s s' → outbox_kept s s' ∧ (NoDup (outbox_keys s) → NoDup (outbox_keys s')).
Proof.
  unfold outbox_keys.
  induction 1 as [| s1 s2 s3 _ [K1 N1] _ [K2 N2]| |fresh sm tk s t s' t' added _ _ E
    |fresh sm tk s call name before after version s' added cps _ _ E|stamp s c s' c' _ E|fresh s q s' a _ _ E| | | | |s l Hn|s e Hf].
  - split; [by apply outbox_same|done].
  - split; [|auto]. intros i e He. destruct (K1 i e He) as (e2 & He2 & I1 & Ky1 & P1). destruct (K2 i e2 He2) as (e3 & He3 & I2 & Ky2 & P2).
    exists e3. split; [done|]. split_and!; [congruence..|]. intros Hp. specialize (P1 Hp). subst e2. auto.
  - split; [by apply outbox_same|done].
  - apply append_turn_aside in E as [(_ & _ & E) _]. split; [by apply outbox_same|by rewrite E].
  - apply tool_aside in E as (_ & _ & E). split; [by apply outbox_same|by rewrite E].
  - apply save_checkpoint_aside in E as [(_ & _ & E) _]. split; [by apply outbox_same|by rewrite E].
  - apply compact_session_aside in E as (_ & _ & E). split; [by apply outbox_same|by rewrite E].
  - split; [by apply outbox_same|done].
  - split; [by apply outbox_same|done].
  - split; [by apply outbox_same|done].
  - split; [by apply outbox_same|done].
  - split; [intros i e He; by eapply Forall2_lookup_l in Hn|]. cbn.
    assert (ob_IdempotencyKey <$> l = ob_IdempotencyKey <$> ss_Outbox s) as ->; [|done].
    induction Hn as [|e e' es es' (_ & Hk & _) _ IH]; [done|]. cbn. by rewrite Hk, IH.
  - split; [intros i e' He; exists e'; split; [by apply lookup_app_l_Some|done]|]. cbn. intros Hnd. rewrite fmap_app. apply NoDup_app.
    split_and!; [done| |apply NoDup_singleton]. intros x Hx Hin. apply list_elem_of_singleton in Hin as ->.
    apply list_elem_of_fmap in Hx as (e' & Ek & He'). apply list_elem_of_In in He'. pose proof (find_none _ _ Hf e' He') as Hn.
    unfold with_key in Hn. by apply bool_decide_eq_false in Hn.
Qed.

(** The intent at position [i] of the outbox of [id] is published under [key]. *)
Definition settled (id : string) (i : nat) (key : string) (m : gmap string sessionState) : Prop :=
  ∃ s e, m !! id = Some s ∧ ss_Outbox s !! i = Some e ∧ ob_State e = "published" ∧ ob_IdempotencyKey e = key.

Lemma closed_settled id i key : closed (settled id i key).
Proof.
  constructor.
  - intros m i' s s' Hs Hch (s0 & e & Hs0 & He & Hp & Hk). destruct (decide (i' = id)) as [->|Hne].
    + rewrite Hs in Hs0. injection Hs0 as <-. destruct (proj1 (change_outbox _ _ _ Hch) i e He) as (e' & He' & _ & _ & Hpub).
      rewrite (Hpub Hp) in He'. exists s', e. by rewrite lookup_insert_eq.
    + exists s0, e. by rewrite lookup_insert_ne.
  - intros m stamp s s' Hn Hid Hprep (s0 & e & Hs0 & He & Hp & Hk). exists s0, e. rewrite lookup_insert_ne; [done|congruence].
  - intros raw m (s0 & e & Hs0 & He & Hp & Hk). eexists (reread_session raw s0), _. rewrite lookup_fmap, Hs0. split_and!; [done|..].
    + cbn. rewrite list_lookup_fmap, He. done.
    + done.
    + done.
  - intros m (s0 & e & Hs0 & He & Hp & Hk). exists (scope_session s0), e. by rewrite lookup_fmap, Hs0.
  - intros m m' (s0 & e & Hs0 & He & Hp & Hk) Hx _. specialize (Hx id). rewrite Hs0 in Hx. destruct (m' !! id) as [s'|] eqn:E; [|done].
    exists s', e. split; [done|]. by destruct Hx as [->|(ts & now & ->)].
Qed.
Lemma closed_keys : closed (map_Forall (λ _ s, NoDup (outbox_keys s))).
Proof.
  apply closed_each; [|intros; constructor| |done|].
  - intros id s s' Hn Hch. by apply (change_outbox _ _ _ Hch).
  - intros raw id s Hn. unfold outbox_keys in *. cbn. rewrite <- list_fmap_compose. exact Hn.
  - by intros id s s' Hu [->|(ts & now & ->)] _.
Qed.

Lemma claim_events_items owner until now left es e' :
  e' ∈ (claim_events owner until now left es).2 → ∃ e, e ∈ es ∧ ob_State e = "pending" ∧ ob_IdempotencyKey e' = ob_IdempotencyKey e.
Proof.
  revert left. induction es as [|e es IH]; intros left; [by destruct left; intros Hin; apply elem_of_nil in Hin|]. cbn [claim_events].
  destruct left as [|left]; [intros Hin; by apply elem_of_nil in Hin|]. destruct (claimable now e) eqn:Ec.
  - specialize (IH left). destruct (claim_events owner until now left es) as [es' items]. cbn [snd] in *. rewrite elem_of_cons. intros [->|Hin].
    + exists e. split; [left|]. apply andb_true_iff in Ec as [Ec _]. by apply bool_decide_eq_true in Ec.
    + destruct (IH Hin) as (e0 & ? & ?). exists e0. split; [by right|done].
  - specialize (IH (S left)). destruct (claim_events owner until now (S left) es) as [es' items]. cbn [snd] in *. intros Hin.
    destruct (IH Hin) as (e0 & ? & ?). exists e0. split; [by right|done].
Qed.

Lemma update_first_lookup {A B} (g : A → B) P f (l : list A) i x :
  NoDup (g <$> l) → l !! i = Some x → find P l = Some x → update_first P f l !! i = Some (f x).
Proof.
  revert i. induction l as [|y l IH]; intros i Hnd Hi Hf; [done|]. cbn [find update_first fmap list_fmap] in *.
  apply NoDup_cons in Hnd as [Hy Hnd]. destruct i as [|i]; cbn in Hi |- *.
  - injection Hi as ->. destruct (P x) eqn:Ex; [done|]. apply find_some in Hf as [_ Hf]. congruence.
  - destruct (P y); [|by apply IH]. injection Hf as ->. destruct Hy. apply list_elem_of_fmap. exists x. split; [done|].
    by eapply list_elem_of_lookup_2.
Qed.

(** A settled key of a session whose keys are distinct cannot be claimed. *)
Lemma settled_unclaimable w id i key :
  map_Forall (λ _ s, NoDup (outbox_keys s)) (hs_sessions (hw_store w)) → settled id i key (hs_sessions (hw_store w)) →
  (∀ io payload owner ttl now, (EnqueueAndClaimOutbox io w id key payload owner ttl now).2.2 ≠ Ok true)
  ∧ ∀ io owner limit ttl now w' items,
      ClaimOutbox io w id owner limit ttl now = (w', Ok items) → key ∉ (ob_IdempotencyKey <$> items).
Proof.
  intros Hm (s & e & Hs & He & Hp & Hk). pose proof (Hm id s Hs) as Hnd. unfold outbox_keys in Hnd. cbn beta in Hnd.
  change (session_of w id = Some s) in Hs.
  assert (Huniq : ∀ x, x ∈ ss_Outbox s → ob_IdempotencyKey x = key → x = e).
  { intros x Hx Ex. eapply (NoDup_fmap_inj ob_IdempotencyKey _ _ _ Hnd); [done|by eapply list_elem_of_lookup_2|congruence]. }
  split.
  - intros io payload owner ttl now. unfold EnqueueAndClaimOutbox. rewrite Hs. case_match; [done|]. case_match; [done|].
    destruct (json_marshal payload) as [data|]; [|done]. cbn zeta. destruct (find (with_key key) (ss_Outbox s)) as [x|] eqn:Ex.
    + assert (x = e) as ->.
      { apply find_some in Ex as [Hin Hx]. apply list_elem_of_In in Hin. apply Huniq; [done|]. by apply bool_decide_eq_true in Hx. }
      destruct (negb _); [done|]. by rewrite Hp.
    + exfalso. apply list_elem_of_lookup_2, list_elem_of_In in He. pose proof (find_none _ _ Ex e He) as Hn. unfold with_key in Hn.
      by apply bool_decide_eq_false in Hn.
  - intros io owner limit ttl now w' items Ec Hin. unfold ClaimOutbox in Ec. rewrite Hs in Ec. case_match; [done|]. cbn zeta in Ec.
    set (n := if _ || _ then 10 else _) in Ec. set (v := orNow _ now) in Ec.
    pose proof (claim_events_items owner (v + ttl)%Z v n (ss_Outbox s)) as Hit.
    destruct (claim_events owner _ v n (ss_Outbox s)) as [outbox taken]. cbn [snd] in Hit.
    assert (items = taken) as ->.
    { case_bool_decide as Et; [injection Ec as _ <-; by rewrite Et|]. destruct (save_session _ _ _ _ _ _) as [w4 [[]|]]; [|done].
      by injection Ec as _ <-. }
    apply list_elem_of_fmap in Hin as (x & Ex & Hx). destruct (Hit x Hx) as (y & Hy & Hpend & Eyx).
    rewrite (Huniq y Hy) in Hpend by congruence. congruence.
Qed.

(** C34: an effect is completed once: after its acknowledgement, whose journal file
    was removed, in every later state of the store, restarts included, the intent is
    still published and nobody can claim its key again, by key or in a batch.  One
    process works on the files; for a journal that could not be removed see
    [kept_journal_loses_turn]. *)
Theorem acknowledged_effect_final path w io id s i e owner now w1 w2 :
  reachable path w → blank path = false → io_ok io → hi_kept io = false →
  session_of w id = Some s → ss_Outbox s !! i = Some e → find (event_id (ob_ID e)) (ss_Outbox s) = Some e →
  ob_State e = "processing" → AckOutbox io w id (ob_ID e) owner now = (w1, Ok tt) → rtc (step path) w1 w2 →
  settled id i (ob_IdempotencyKey e) (hs_sessions (hw_store w2))
  ∧ (∀ io2 payload owner2 ttl now2,
       (EnqueueAndClaimOutbox io2 w2 id (ob_IdempotencyKey e) payload owner2 ttl now2).2.2 ≠ Ok true)
  ∧ ∀ io2 owner2 limit ttl now2 w3 items,
       ClaimOutbox io2 w2 id owner2 limit ttl now2 = (w3, Ok items) → ob_IdempotencyKey e ∉ (ob_IdempotencyKey <$> items).
Proof.
  intros Hr Hb Hio Hk Hs Hi Hf Hp E Hsteps.
  pose proof (holds_steps _ closed_keys path _ _ Hr (holds_start _ path (map_Forall_empty _))) as (Hm & Hst & _).
  assert (HQ := closed_and _ _ closed_keys (closed_settled id i (ob_IdempotencyKey e))).
  unfold AckOutbox in E. rewrite Hs, Hf, Hp in E. rewrite bool_decide_eq_false_2, bool_decide_eq_true_2 in E by done.
  cbn [negb orb] in E. destruct (negb _); [done|]. unfold publish_event in E.
  set (u := orNow _ now) in E. set (s' := touch u _) in E.
  assert (Hch : change id s s').
  { apply change_touch, ch_outbox. eapply update_first_Forall2; [done|exact Hf|]. split_and!; [done|done|]. by rewrite Hp. }
  assert (Hpub : ss_Outbox s' !! i = Some (published u e)) by (eapply update_first_lookup; [exact (Hm id s Hs)|done|done]).
  edestruct (holds_durable _ path _ _ _ _ _ _ _ HQ Hst Hb Hk E) as [Hh _].
  { split; [apply map_Forall_insert_2; [|done]; apply (change_outbox id s s' Hch); exact (Hm id s Hs)|].
    exists s', (published u e). by rewrite lookup_insert_eq. }
  destruct (holds_steps _ HQ _ _ _ Hsteps Hh) as ([Hm2 Hset] & _). split; [done|]. by eapply settled_unclaimable.
Qed.

(** ** A process that missed a commit *)

(** The snapshot is not the one this store wrote or loaded. *)
Definition stale (w : World) : Prop :=
  hs_path (hw_store w) ≠ "" ∧ ∃ p, fl_snapshot (hw_files w) = Snap p ∧ pst_Revision p ≠ hs_revision (hw_store w).
Definition same_files (w w' : World) : Prop :=
  hw_files w' = hw_files w ∧ hs_revision (hw_store w') = hs_revision (hw_store w) ∧ hs_path (hw_store w') = hs_path (hw_store w).

Lemma stale_same w w' : same_files w w' → stale w → stale w'.
Proof. intros (E1 & E2 & E3) [Hp (p & Hs & Hr)]. split; [by rewrite E3|]. exists p. by rewrite E1, E2. Qed.
Lemma same_files_trans w1 w2 w3 : same_files w1 w2 → same_files w2 w3 → same_files w1 w3.
Proof. intros (? & ? & ?) (? & ? & ?). split_and!; congruence. Qed.
Lemma stale_persist io w : stale w → ∃ e, persistLocked io w = (w, Err e).
Proof.
  intros [Hp (p & Hs & Hr)]. unfold persistLocked. cbn zeta. rewrite bool_decide_eq_false_2 by done.
  destruct (hi_lock io); [by eexists|]. unfold persistedRevision. rewrite Hs. destruct (hi_read_snapshot io); [by eexists|].
  rewrite bool_decide_eq_false_2 by done. by eexists.
Qed.
Lemma stale_save io w id state restore message :
  stale w → ∃ w' e, save_session io w id state restore message = (w', Err e) ∧ same_files w w'.
Proof.
  intros Hw. destruct (stale_persist io (put_session id state w)) as [e E]; [by apply (stale_same w)|].
  unfold save_session. rewrite E. by eexists _, _.
Qed.

Definition same_data (w w' : World) : Prop :=
  hs_sessions (hw_store w') = hs_sessions (hw_store w) ∧ hs_projectMemories (hw_store w') = hs_projectMemories (hw_store w).
(** An operation that leaves the files alone and reports success only if it
    changed nothing. *)
Definition idle (w w' : World) (r : result unit) : Prop := same_files w w' ∧ (r = Ok tt → same_data w w').

Ltac stale_cases := repeat match goal with
  | |- context [save_session ?io ?w ?id ?st ?rs ?m] =>
      let w' := fresh "w'" in let e := fresh "e" in let E := fresh "E" in let Hs := fresh "Hs" in
      destruct (stale_save io w id st rs m) as (w' & e & E & Hs); [assumption|rewrite E; clear E]
  | |- context [match ?x with _ => _ end] => destruct x
  end; try done.

Lemma stale_memory io w m : stale w → idle w (AddMemory io w m).1 (forget (AddMemory io w m).2).
Proof.
  intros Hw. unfold AddMemory. cbn zeta. destruct (session_of w (mi_SessionID m)) as [s|]; [|done].
  destruct (prepare_memory _ s m) as [m'|e]; [|done]. destruct (_ || _); [done|]. destruct (known_memory _ _ m'); [done|].
  destruct (check_supersedes _ m') as [[]|e]; [|done]. destruct (mi_Scope m' ≟ "project").
  - set (w1 := put_projects _ _ w). assert (stale w1) as Hw1 by (by apply (stale_same w)). stale_cases.
  - stale_cases.
Qed.
Lemma stale_claims ios i w id sources existing r claims (x := reduce_claims ios i w id sources existing r claims) :
  stale w → idle w x.1 (forget x.2.2).
Proof.
  subst x. revert i w existing r. induction claims as [|c claims IH]; intros i w existing r Hw; [done|]. cbn [reduce_claims].
  destruct (older_claims _ _ _) as [older []]; [by apply IH|]. pose proof (stale_memory (ios i) w (claim_item id sources c older) Hw) as [Hm Hd].
  destruct (AddMemory _ _ _) as [w' [saved|e]]; [|done]. cbn [fst snd] in *. specialize (Hd eq_refl) as [D1 D2].
  edestruct (IH (Datatypes.S i) w') as [Hf Hdata]; [by apply (stale_same w)|]. split; [by eapply same_files_trans|].
  intros E. destruct (Hdata E) as [E1 E2]. split; [by rewrite E1|by rewrite E2].
Qed.
Lemma stale_create io w s (x := CreateSession io w s) :
  stale w → same_files w x.1 ∧ same_data w x.1 ∧ ∀ s', x.2 ≠ Ok s'.
Proof.
  subst x. intros Hw. unfold CreateSession. destruct (prepare_session _ s) as [s'|e]; [|done].
  destruct (session_of w (se_ID s')) eqn:Es; [done|].
  destruct (stale_persist io (put_session (se_ID s') (empty_session s') w)) as [e ->]; [by apply (stale_same w)|].
  split_and!; [done| |done]. split; [|done]. cbn. by apply delete_insert_id.
Qed.

(** C35: a process whose revision is not the one in the snapshot writes nothing: no
    operation of it changes a file; one that reports success (a read, a replay or
    an idle pass) has changed no session and no memory, so every change is refused;
    and the process stays in that state until it reopens.  A snapshot that another
    process replaced under the same revision number is not noticed. *)
Theorem stale_store_writes_nothing op io w :
  stale w →
  hw_files (run op io w) = hw_files w ∧ stale (run op io w) ∧ (report op io w = Ok tt → same_data w (run op io w)).
Proof.
  intros Hw. enough (idle w (run op io w) (report op io w)) as [Hs Hd] by (split_and!; [apply Hs|by apply (stale_same w)|done]).
  destruct op; cbn [run report]; try done.
  - unfold Flush. by destruct (stale_persist io w Hw) as [e ->].
  - by destruct (stale_create io w s Hw) as (? & ? & _).
  - unfold EnsureSession. destruct (stale_create io w s Hw) as (Hc & Hd & _). destruct (blank _); [done|].
    destruct (session_of w (se_ID s)); [done|]. destruct (CreateSession io w s) as [w' [s'|e]]; [done|]. cbn [fst] in *.
    destruct (negb _); [done|]. by destruct (session_of w' (se_ID s)).
  - unfold AppendTurn. destruct (session_of w id) as [s|]; [|done]. destruct (append_turn _ _ _ _ _ _) as [[[s' t'] []]|]; stale_cases.
  - unfold RecordToolCall. cbn zeta. destruct (TrimSpace call ≟ ""); [done|]. destruct (session_of w id) as [s|]; [|done].
    set (v := if (version <=? 0)%Z then _ else _). destruct (v <=? 0)%Z; [done|].
    destruct (tool_transaction _ _ _ _ _ _ _ _ _ _) as [[[s' added] cps]|]; [|done]. destruct (_ && _); [done|]. stale_cases.
  - unfold SaveCheckpoint. destruct (session_of w id) as [s|]; [|done]. destruct (saveCheckpointLocked _ s c) as [[]|]; stale_cases.
  - unfold Compact. destruct (session_of w id) as [s|]; [|done]. destruct (compact_session _ s _) as [[]|]; stale_cases.
  - by apply stale_memory.
  - unfold TransitionMemoryWithReview. cbn zeta. destruct (_ || _); [done|]. destruct (session_of w id) as [s|]; [|done].
    destruct (find _ (ss_Memories s)) as [m|].
    + destruct (negb _); [done|]. stale_cases.
    + destruct (find _ (projects_of w _)) as [m|]; [|done]. destruct (negb _); [done|]. set (w1 := put_projects _ _ w).
      assert (stale w1) as Hw1 by (by apply (stale_same w)). stale_cases.
  - unfold ReduceMemories. cbn zeta. destruct (_ || _); [done|]. destruct (session_of w id); [|done].
    destruct (check_each_from _ _ _); [|done]. destruct (parseClaims content); [done|]. by apply stale_claims.
  - unfold AcquireLease. cbn zeta. destruct (session_of w id) as [s|]; [|done]. destruct (_ || _); [done|]. destruct (find _ _); stale_cases.
  - unfold ReleaseLease. cbn zeta. destruct (session_of w id) as [s|]; [|done]. destruct (find _ _); stale_cases.
  - unfold HeartbeatLease. cbn zeta. destruct (session_of w id) as [s|]; [|done]. destruct (_ || _); [done|]. destruct (find _ _); stale_cases.
  - unfold EnqueueOutbox. cbn zeta. destruct (session_of w id) as [s|]; [|done]. destruct (blank key); [done|].
    destruct (json_marshal payload); [|done]. destruct (find _ _); stale_cases.
  - unfold EnqueueAndClaimOutbox. cbn zeta. destruct (session_of w id) as [s|]; [|done]. destruct (blank key); [done|]. destruct (_ || _); [done|].
    destruct (json_marshal payload); [|done]. destruct (find _ _); stale_cases.
  - unfold ClaimOutbox. cbn zeta. destruct (session_of w id) as [s|]; [|done]. destruct (_ || _); [done|].
    destruct (claim_events _ _ _ _ _) as [outbox items]. destruct (bool_decide (items = [])); [done|]. stale_cases.
  - unfold AckOutbox, publish_event. cbn zeta. destruct (session_of w id) as [s|]; [|done]. destruct (find _ _); stale_cases.
  - unfold CompleteOutbox, publish_event. cbn zeta. destruct (session_of w id) as [s|]; [|done]. destruct (find _ _); stale_cases.
  - unfold NackOutbox. cbn zeta. destruct (session_of w id) as [s|]; [|done]. destruct (find _ _); stale_cases.
  - unfold Recover. cbn zeta. destruct (session_of w id) as [s|]; [|done]. destruct (validateSessionState s); [|done].
    destruct (_ || _); [|done]. cbn [negb]. stale_cases.
Qed.

(** ** The compiled context *)

Context `{!JsonMarshal PromptManifest, !JsonMarshal Manifest, !JsonMarshal (string * PromptManifest)}.
Context `{!JsonMarshal HarnessManifest, !JsonMarshal (string * list (string * string * string)),
            !JsonMarshal (string * list Block), !JsonMarshal (list (string * string))}.

Lemma compiled_blocks now compiled w id s maxTokens required m :
  session_of w id = Some s → compileManifest now compiled w id maxTokens required = Ok m →
  ∃ budget r m0, CompileWithTokenizerAndSummarizer compiled id (Z.max 1 (se_ContextVersion (ss_Session s))) budget
      (session_blocks now w s) (Some (hs_tokenizer (hw_store w))) (hs_summarizer (hw_store w)) = (r, Ok m0)
    ∧ m_Blocks m = m_Blocks m0 ∧ m_RequiredBlockIDs m = m_RequiredBlockIDs m0 ∧ m_TokenEstimate m = m_TokenEstimate m0
    ∧ (required = false → (0 < maxTokens)%Z → budget = maxTokens).
Proof.
  intros Hs E. unfold compileManifest in E. rewrite Hs in E. cbn zeta in E.
  set (b1 := if (maxTokens <=? 0)%Z then _ else maxTokens) in E. set (b2 := if (b1 <=? 0)%Z then _ else b1) in E.
  set (b3 := if required then _ else b2) in E. destruct (CompileWithTokenizerAndSummarizer _ _ _ b3 _ _ _) as [r [m0|e]] eqn:Ec; [|done].
  exists b3, r, m0. split; [done|]. cbn [rbind] in E.
  assert (Hb : required = false → (0 < maxTokens)%Z → b3 = maxTokens).
  { intros Hr Hm. unfold b3, b2, b1. by rewrite Hr, !(proj2 (Z.leb_gt maxTokens 0)) by done. }
  destruct (filter _ _) as [|r0 rs]; [by injection E as <-|]. unfold Rehash in E. apply rbind_Ok in E as (prompt & _ & E).
  apply rbind_unit_Ok in E as [_ [= <-]]. done.
Qed.

Lemma mandatory_turn_block now w s t :
  t ∈ ss_Turns s → turn_mandatory (ss_Turns s) t = true → ∃ i, transcript_block (ss_Turns s) t i ∈ session_blocks now w s.
Proof.
  intros Ht Hm. unfold session_blocks. set (fs := _ ++ _ ++ _).
  assert (transcript_block (ss_Turns s) t ∈ fs) as Hin.
  { unfold fs. apply elem_of_app. right. apply elem_of_app. right. apply list_elem_of_fmap_2, list_elem_of_filter. split; [by right|done]. }
  apply list_elem_of_lookup in Hin as [i Hi]. exists i. apply list_elem_of_lookup. exists i. by rewrite list_lookup_imap, Hi.
Qed.

(** The turns a run cannot do without, in the words of the transcript: what the
    system said, the last thing the user asked for, and the halves of a tool call
    one half of which is missing. *)
Definition half_recorded (turns : list Turn) (call status : string) : Prop :=
  ∃ t, t ∈ turns ∧ tn_ToolCallID t = call ∧ tn_ToolStatus t = status.
Definition indispensable (turns : list Turn) (t : Turn) : Prop :=
  tn_Role t = "system"
  ∨ (tn_Role t = "user" ∧ (0 < tn_Sequence t)%Z
     ∧ ∀ t', t' ∈ turns → tn_Role t' = "user" → (tn_Sequence t' ≤ tn_Sequence t)%Z)
  ∨ (tn_ToolCallID t ≠ ""
     ∧ ¬ (half_recorded turns (tn_ToolCallID t) "before" ∧ half_recorded turns (tn_ToolCallID t) "after")).

Lemma latestUser_max turns t :
  t ∈ turns → tn_Role t = "user" → (0 < tn_Sequence t)%Z →
  (∀ t', t' ∈ turns → tn_Role t' = "user" → (tn_Sequence t' ≤ tn_Sequence t)%Z) → latestUser turns = tn_Sequence t.
Proof.
  intros Hin Hrole Hpos Hmax. unfold latestUser.
  set (f := λ (n : Z) (x : Turn), _). assert (Hle : ∀ l n, (∀ t', t' ∈ l → tn_Role t' = "user" → (tn_Sequence t' ≤ tn_Sequence t)%Z) →
    (n ≤ tn_Sequence t)%Z → (n ≤ foldl f n l ≤ tn_Sequence t)%Z).
  { induction l as [|x l IH]; intros n Hl Hn; [cbn; lia|]. cbn [foldl]. unfold f at 2 4.
    destruct ((tn_Role x ≟ RoleUser) && (n <? tn_Sequence x)%Z) eqn:Ex.
    - apply andb_true_iff in Ex as [Er%bool_decide_eq_true Es%Z.ltb_lt].
      destruct (IH (tn_Sequence x)); [set_solver|apply Hl; [left|done]|lia].
    - apply IH; [set_solver|done]. }
  apply list_elem_of_split in Hin as (l1 & l2 & ->). rewrite foldl_app. cbn [foldl].
  set (n := foldl f 0%Z l1). assert ((0 ≤ n ≤ tn_Sequence t)%Z) as Hn by (apply Hle; [intros; apply Hmax; set_solver|lia]).
  assert (f n t = tn_Sequence t) as ->.
  { unfold f. rewrite Hrole, bool_decide_eq_true_2 by done. cbn [andb]. destruct (Z.ltb_spec n (tn_Sequence t)); lia. }
  destruct (Hle l2 (tn_Sequence t)); [intros; apply Hmax; set_solver|lia|lia].
Qed.
Lemma half_recorded_true turns call status :
  existsb (λ t, (tn_ToolCallID t ≟ call) && (tn_ToolStatus t ≟ status)) turns = true ↔ half_recorded turns call status.
Proof.
  rewrite existsb_exists. split; intros (t & Hin & Ht); exists t; rewrite ?andb_true_iff, ?bool_decide_eq_true in *; by rewrite list_elem_of_In in *.
Qed.
Lemma indispensable_mandatory turns t : t ∈ turns → indispensable turns t → turn_mandatory turns t = true.
Proof.
  intros Hin Ht. unfold turn_mandatory, is_objective. rewrite !orb_true_iff. destruct Ht as [Hr|[(Hr & Hp & Hm)|[Hc Hh]]].
  - left. left. by apply bool_decide_eq_true.
  - left. right. rewrite (latestUser_max turns t), Z.eqb_refl, andb_true_r by done. by apply bool_decide_eq_true.
  - right. rewrite andb_true_iff, negb_true_iff, bool_decide_eq_false. split; [done|]. unfold incompleteToolCall. cbn zeta.
    destruct (existsb _ turns) eqn:E1; [|done]. destruct (existsb (λ x, _ && (tn_ToolStatus x ≟ "after")) turns) eqn:E2; [|done].
    destruct Hh. by rewrite <- !half_recorded_true.
Qed.

(** C36: a context compiled from a session holds its system turns, the user turn with
    the highest sequence number and every turn of a tool call one half of which was
    not recorded, whole and required, archived or not; and it stays within the tokens
    asked for when a positive number was asked for. *)
Theorem compiled_context_keeps_objective now compiled w id s maxTokens m t :
  session_of w id = Some s → CompileManifest now compiled w id maxTokens = Ok m →
  t ∈ ss_Turns s → indispensable (ss_Turns s) t →
  (∃ b, b ∈ m_Blocks m ∧ b_ID b ∈ m_RequiredBlockIDs m ∧ b_Mandatory b = true ∧ b_Kind b = "turn" ∧ b_Source b = tn_ID t
     ∧ HasPrefix (b_Content b) (tn_Role t +:+ ": " +:+ tn_Content t) = true)
  ∧ ((0 < maxTokens)%Z → (m_TokenEstimate m ≤ maxTokens)%Z).
Proof.
  intros Hs E Ht Hm%indispensable_mandatory; [|done]. destruct (compiled_blocks _ _ _ _ _ _ _ _ Hs E) as (budget & r & m0 & Ec & Eb & Er & Ee & Hbud).
  unfold CompileWithTokenizerAndSummarizer in Ec. destruct (blank _); [done|].
  split; [|intros Hpos; rewrite Ee, <- (Hbud eq_refl Hpos); by destruct (compile_blocks _ _ _ _ _ _ _ _ _ Ec) as (bs & _ & _ & _ & Hle)].
  destruct (mandatory_turn_block now w s t Ht Hm) as [i Hi]. set (b := transcript_block (ss_Turns s) t i) in *.
  set (b' := b_with_TokenEstimate (tk_Estimate (hs_tokenizer (hw_store w)) (b_Content b)) b).
  destruct (compile_mandatory _ _ _ _ _ _ _ _ _ b' Ec) as [Hin Hreq]; [apply list_elem_of_fmap; by exists b|exact Hm|].
  exists (fillHash b'). rewrite Eb, Er. assert (b_Content (fillHash b') = b_Content b ∧ b_ID (fillHash b') = b_ID b'
    ∧ b_Mandatory (fillHash b') = b_Mandatory b' ∧ b_Kind (fillHash b') = b_Kind b' ∧ b_Source (fillHash b') = b_Source b')
    as (-> & -> & -> & -> & ->) by (unfold fillHash; by case_match).
  split_and!; [done|done|exact Hm|done|done|]. unfold b, transcript_block. cbn [context_block b_Content].
  set (c := tn_Role t +:+ ": " +:+ tn_Content t). assert (∀ x y, HasPrefix (x +:+ y) x = true) as Hpre.
  { intros x y. induction x as [|a x IH]; [by destruct y|]. rewrite append_cons. cbn [HasPrefix]. by rewrite bool_decide_eq_true_2. }
  case_match; [|apply Hpre]. rewrite <- (append_nil_str c) at 1. apply Hpre.
Qed.
End props.

(** ** A store *)

#[local] Existing Instances Samples.toy_sha canonical_range.
#[local] Instance sample_turn_json : JsonMarshal Turn := λ t, Some (tn_ID t +:+ ":" +:+ tn_PrevHash t +:+ tn_Content t).
#[local] Instance sample_checkpoint_json : JsonMarshal Checkpoint := λ c, Some (ck_ID c +:+ ":" +:+ ck_State c).
#[local] Instance sample_state_json : JsonMarshal persistedState := λ p, Some (pretty (pst_Revision p)).
#[local] Instance sample_value_json : JsonMarshal value := λ v, match v with VString s => Some s | _ => None end.
#[local] Instance sample_case : UnicodeCase := {| rune_lower := λ r, r; same_fold := N.eqb |}.
(** Indentation changes the white space of a payload; compaction does not. *)
#[local] Instance sample_raw : RawJson := {| raw_indent := λ s, s +:+ " "; raw_compact := λ s, s |}.

Definition no_fault : Io :=
  {| hi_fresh := λ i, {| st_id := "id" +:+ pretty i; st_now := 10 |}; hi_read_snapshot := None; hi_read_journal := None;
     hi_read_transcript := None; hi_lock := None; hi_before := None; hi_journal := None; hi_rename := None; hi_sync := None;
     hi_kept := false; hi_transcript := λ _, None |}.
Lemma no_fault_ok : io_ok no_fault.
Proof. intros i. by cbn. Qed.

Definition sample_path := "harness.json".
Definition sample_session (budget : Z) : Session :=
  {| se_ID := "s"; se_TenantID := "tenant"; se_WorkspaceID := "ws"; se_ProjectID := ""; se_BudgetTokens := budget;
     se_AutoCompaction := false; se_CompactionThreshold := S754_zero false; se_CompactionRetainTail := 1;
     se_AutoCompactionSet := false; se_ContextVersion := 0; se_CreatedAt := 0; se_UpdatedAt := 0 |}.
Definition said (role content key : string) : Turn :=
  {| tn_ID := ""; tn_SessionID := ""; tn_Sequence := 0; tn_AttemptID := ""; tn_Role := role; tn_Content := content;
     tn_ToolName := ""; tn_ToolCallID := ""; tn_ToolStatus := ""; tn_IdempotencyKey := key; tn_Metadata := ∅;
     tn_PrevHash := ""; tn_Hash := ""; tn_CreatedAt := 0 |}.
Definition runs (ops : list Op) (w : World) : World := foldl (λ w op, run op no_fault w) w ops.
Definition reopened (w : World) : World :=
  match New no_fault sample_path (hw_files w) with
  | (f, Ok s) => {| hw_store := s; hw_files := f |}
  | (f, Err _) => with_files f w
  end.
Definition opened : World := runs [OCreateSession (sample_session 0)] (start sample_path).
Definition the_session (w : World) : sessionState := default (empty_session (sample_session 0)) (session_of w "s").

Lemma runs_steps ops w : Forall op_ok ops → rtc (step sample_path) w (runs ops w).
Proof.
  intros Hok. revert w. induction Hok as [|op ops Hop Hok IH]; intros w; [done|].
  eapply rtc_l; [apply (step_op _ op no_fault); [apply no_fault_ok|done]|apply IH].
Qed.
Lemma reopened_step w : step sample_path w (reopened w).
Proof.
  unfold reopened. destruct (New no_fault sample_path (hw_files w)) as [f [s|e]] eqn:E.
  - by eapply step_open; [apply no_fault_ok|].
  - by eapply step_refused; [apply no_fault_ok|].
Qed.
Lemma the_session_of w : bool_decide (is_Some (session_of w "s")) = true → session_of w "s" = Some (the_session w).
Proof. unfold the_session. rewrite bool_decide_eq_true. by intros [s ->]. Qed.

Lemma answered {A B} (p : A * B) w b : p.1 = w → p.2 = b → p = (w, b).
Proof. by destruct p as [a b']; cbn; intros -> ->. Qed.

(** A user turn; a tool call; a lease and an effect in flight. *)
Definition objective : Turn := said "user" "build it" "k1".
Definition told : World := runs [OAppendTurn "s" objective] opened.
Definition called : World := runs [ORecordToolCall "s" "t1" "grep" "in" "out" 1] told.
Definition after_call : list Op :=
  [OAcquireLease "s" "deploy" "alice" 100 10; OEnqueueAndClaimOutbox "s" "mail" (VString "p") "alice" 100 10].
Definition worked : World := runs after_call called.

Lemma opened_reachable : reachable sample_path opened.
Proof. apply runs_steps. by repeat constructor. Qed.
Lemma told_reachable : reachable sample_path told.
Proof. unfold reachable. etrans; [apply opened_reachable|]. apply runs_steps. by repeat constructor. Qed.
Lemma called_of_told : rtc (step sample_path) told called.
Proof. apply runs_steps. by repeat constructor. Qed.
Lemma after_call_steps : rtc (step sample_path) called (reopened worked).
Proof. eapply rtc_r; [|apply reopened_step]. apply runs_steps. by repeat constructor. Qed.
Lemma called_steps : rtc (step sample_path) told (reopened worked).
Proof. etrans; [apply called_of_told|apply after_call_steps]. Qed.
Lemma worked_reachable : reachable sample_path worked.
Proof.
  unfold reachable. etrans; [apply told_reachable|]. etrans; [apply called_of_told|]. apply runs_steps. by repeat constructor.
Qed.

Lemma sessions_always_valid_witness :
  ss_Turns (the_session (reopened worked)) ≠ [] ∧ validateSessionState (the_session (reopened worked)) = Ok tt.
Proof.
  split; [by vm_compute|].
  apply (sessions_always_valid sample_path (reopened worked)) with (id := "s").
  - eapply rtc_r; [apply worked_reachable|apply reopened_step].
  - apply the_session_of. vm_compute. reflexivity.
  - vm_compute. reflexivity.
Defined.

Lemma acknowledged_turns_permanent_witness :
  (tn_Content <$> ss_Turns (the_session (reopened worked))) = ["build it"; "in"; "out"] ∧
  ∃ s2, session_of (reopened worked) "s" = Some s2 ∧ ss_Turns (the_session told) `prefix_of` ss_Turns s2.
Proof.
  split; [vm_compute; reflexivity|].
  apply (acknowledged_turns_permanent sample_path opened no_fault "s" (the_session opened) objective told
    (default objective (head (ss_Turns (the_session told)))) (reopened worked)).
  - apply opened_reachable.
  - vm_compute. reflexivity.
  - apply no_fault_ok.
  - reflexivity.
  - apply the_session_of. vm_compute. reflexivity.
  - apply answered; [reflexivity|vm_compute; reflexivity].
  - apply not_elem_of_nil.
  - apply called_steps.
Defined.

Definition tool_answer : list Checkpoint := ss_Checkpoints (the_session called).
Lemma tool_call_replays_witness :
  length tool_answer = 2 ∧
  RecordToolCall no_fault (reopened worked) "s" "t1" "grep" "in" "out" 1 = (reopened worked, Ok tool_answer).
Proof.
  split; [vm_compute; reflexivity|].
  apply (tool_call_replays sample_path told no_fault "s" (the_session told) "t1" "grep" "in" "out" 1 called tool_answer
    (the_session called)).
  - apply told_reachable.
  - vm_compute. reflexivity.
  - apply no_fault_ok.
  - reflexivity.
  - lia.
  - apply the_session_of. vm_compute. reflexivity.
  - apply answered; [reflexivity|vm_compute; reflexivity].
  - apply the_session_of. vm_compute. reflexivity.
  - intros E. apply (f_equal length) in E. revert E. vm_compute. discriminate.
  - apply after_call_steps.
Defined.

Definition the_lease : Lease :=
  default {| ls_ID := ""; ls_SessionID := ""; ls_Key := ""; ls_Owner := ""; ls_State := ""; ls_Version := 0;
             ls_ExpiresAt := 0; ls_CreatedAt := 0; ls_UpdatedAt := 0 |} (head (ss_Leases (the_session worked))).
Lemma session_lease_exclusive_witness :
  AcquireLease no_fault worked "s" (ls_Key the_lease) "bob" 50 60 = (worked, Err ErrLeaseBusy).
Proof.
  apply (session_lease_exclusive sample_path worked no_fault "s" (the_session worked) the_lease).
  - apply worked_reachable.
  - apply the_session_of. vm_compute. reflexivity.
  - apply (list_elem_of_lookup_2 _ 0). vm_compute. reflexivity.
  - vm_compute. reflexivity.
  - vm_compute. reflexivity.
  - lia.
  - vm_compute. discriminate.
  - vm_compute. reflexivity.
  - vm_compute. reflexivity.
  - lia.
Defined.

Definition the_effect : OutboxEvent :=
  default (new_event "" "" "" "" "" 0 "" 0 0) (head (ss_Outbox (the_session worked))).
Definition acked : World := runs [OAckOutbox "s" (ob_ID the_effect) "alice" 20] worked.
Lemma acknowledged_effect_final_witness :
  (EnqueueAndClaimOutbox no_fault (reopened acked) "s" "mail" (VString "p ") "bob" 50 60).2.2 = Ok false ∧
  settled "s" 0 "mail" (hs_sessions (hw_store (reopened acked))).
Proof.
  split; [vm_compute; reflexivity|].
  apply (acknowledged_effect_final sample_path worked no_fault "s" (the_session worked) 0 the_effect "alice" 20 acked).
  - apply worked_reachable.
  - vm_compute. reflexivity.
  - apply no_fault_ok.
  - reflexivity.
  - apply the_session_of. vm_compute. reflexivity.
  - vm_compute. reflexivity.
  - vm_compute. reflexivity.
  - vm_compute. reflexivity.
  - apply answered; [reflexivity|vm_compute; reflexivity].
  - apply rtc_once, reopened_step.
Defined.

(** Two processes opened the files; the other one appended a turn. *)
Definition overtaken : World := {| hw_store := hw_store opened; hw_files := hw_files told |}.
Lemma stale_store_writes_nothing_witness :
  hw_files (run (OAppendTurn "s" objective) no_fault overtaken) = hw_files told.
Proof.
  apply (stale_store_writes_nothing (OAppendTurn "s" objective) no_fault overtaken).
  vm_compute. split; [discriminate|]. eexists. split; [reflexivity|discriminate].
Defined.

#[local] Instance other_json (T : Type) : JsonMarshal T | 100 := Samples.toy_json T.
Definition compiled_worked : Manifest :=
  match CompileManifest 20 20 (reopened worked) "s" 100 with Ok m => m | Err _ => Samples.sample_manifest 0 end.
Definition kept_turn : Turn := default objective (head (ss_Turns (the_session (reopened worked)))).
Lemma compiled_context_keeps_objective_witness :
  tn_Content kept_turn = "build it" ∧
  (∃ b, b ∈ m_Blocks compiled_worked ∧ b_ID b ∈ m_RequiredBlockIDs compiled_worked ∧ b_Mandatory b = true ∧ b_Kind b = "turn"
     ∧ b_Source b = tn_ID kept_turn ∧ HasPrefix (b_Content b) (tn_Role kept_turn +:+ ": " +:+ tn_Content kept_turn) = true)
  ∧ ((0 < 100)%Z → (m_TokenEstimate compiled_worked ≤ 100)%Z).
Proof.
  split; [vm_compute; reflexivity|].
  apply (compiled_context_keeps_objective 20 20 (reopened worked) "s" (the_session (reopened worked))).
  - apply the_session_of. vm_compute. reflexivity.
  - vm_compute. reflexivity.
  - apply (list_elem_of_lookup_2 _ 0). vm_compute. reflexivity.
  - right. left. split; [vm_compute; reflexivity|]. split; [vm_compute; reflexivity|]. intros t' Ht' Hr.
    assert (forallb (λ x, (tn_Role x ≠? "user") || (tn_Sequence x <=? tn_Sequence kept_turn)%Z)
              (ss_Turns (the_session (reopened worked))) = true) as Hall by (vm_compute; reflexivity).
    rewrite forallb_forall in Hall. apply list_elem_of_In, Hall in Ht'. rewrite Hr, bool_decide_eq_true_2 in Ht' by done.
    by apply Z.leb_le.
Defined.

(** ** Behaviours the source does not intend

    Concrete runs, each with the fault it needs. *)
Definition cut : error := Errorf "interrupted" [].
Definition faulty (rename sync : option error) (transcript : AppendFault) : Io :=
  {| hi_fresh := hi_fresh no_fault; hi_read_snapshot := None; hi_read_journal := None; hi_read_transcript := None;
     hi_lock := None; hi_before := None; hi_journal := None; hi_rename := rename; hi_sync := sync; hi_kept := false;
     hi_transcript := λ _, transcript |}.
Definition refused {A} (name : string) (r : result A) : bool :=
  match r with Err e => errors_is (Sentinel "harness" name) e | Ok _ => false end.
Definition more : Turn := said "user" "more" "k2".
Definition contents (w : World) : list string := tn_Content <$> ss_Turns (the_session w).

(** A crash between the journal and the rename: the restarted store takes the
    journal's revision, the snapshot keeps the older one, and every write is refused
    as a conflict, after any number of restarts. *)
Definition halfway : World := run (OAppendTurn "s" objective) (faulty (Some cut) None None) opened.
Theorem leftover_journal_blocks_writes :
  contents (reopened halfway) = ["build it"] ∧ refused "ErrConflict" (AppendTurn no_fault (reopened halfway) "s" more).2 = true
  ∧ refused "ErrConflict" (Flush no_fault (reopened halfway)).2 = true
  ∧ refused "ErrConflict" (Flush no_fault (reopened (reopened halfway))).2 = true.
Proof. vm_compute. auto. Qed.

(** A failure after the rename leaves the store one revision behind its own
    snapshot: its later writes are refused until it restarts. *)
Definition unsynced : World := run (OAppendTurn "s" objective) (faulty None (Some cut) None) opened.
Theorem failed_sync_blocks_writes :
  refused "ErrConflict" (AppendTurn no_fault unsynced "s" more).2 = true ∧ contents (reopened unsynced) = ["build it"].
Proof. vm_compute. auto. Qed.

(** A process that opened a leftover journal has the revision the next writer
    commits: its write passes the check and replaces that writer's turn, which stays
    in the transcript only, so that the store no longer opens. *)
Definition first_commit : World := run (OAppendTurn "s" more) no_fault halfway.
Definition second_commit : World :=
  run (OAppendTurn "s" (said "user" "third" "k3")) no_fault {| hw_store := hw_store (reopened halfway); hw_files := hw_files first_commit |}.
Theorem leftover_journal_loses_update :
  contents first_commit = ["more"] ∧ contents second_commit = ["build it"; "third"]
  ∧ refused "ErrCorrupt" (New no_fault sample_path (hw_files second_commit)).2 = true.
Proof. vm_compute. auto. Qed.

(** A torn transcript line is completed by the next append into one that does not
    decode; one more append and the store no longer opens. *)
Definition torn : AppendFault := Some (cut, Some {| pa_whole := 0; pa_tail := Some false |}).
Definition torn_log : World :=
  runs [OAppendTurn "s" more; OAppendTurn "s" (said "user" "third" "k3")] (run (OAppendTurn "s" objective) (faulty None None torn) opened).
Theorem torn_transcript_unreadable :
  contents torn_log = ["build it"; "more"; "third"] ∧ refused "ErrCorrupt" (New no_fault sample_path (hw_files torn_log)).2 = true.
Proof. vm_compute. auto. Qed.

(** [MarshalIndent] rewrites a raw payload, so after a restart the same key with the
    same payload is a conflict. *)
Definition queued : World := runs [OEnqueueOutbox "s" "mail" (VString "p")] opened.
Theorem outbox_retry_conflicts_after_restart :
  (ob_Payload <$> ss_Outbox (the_session queued)) = ["p"]
  ∧ refused "ErrConflict" (EnqueueOutbox no_fault queued "s" "mail" (VString "p")).2 = false
  ∧ refused "ErrConflict" (EnqueueOutbox no_fault (reopened queued) "s" "mail" (VString "p")).2 = true.
Proof. vm_compute. auto. Qed.

(** With a budget of twenty tokens. *)
Definition tight : World := runs [OCreateSession (sample_session 20)] (start sample_path).
Definition long : string :=
  "a requirement that takes far more than the twenty tokens of the budget, so that the guard of the budget acts on it".

(** A checkpoint that opens a compaction, or one with a version ahead of the
    session's, makes the budget guard fail, and with it every later turn. *)
Definition blocked (phase : string) (version : Z) : World :=
  runs [OSaveCheckpoint "s" (phase_checkpoint 0 phase "" "" version ""); OAppendTurn "s" (said "user" long "k1")] tight.
Theorem stray_checkpoint_blocks_turns :
  refused "ErrConflict" (AppendTurn no_fault (blocked CheckpointCompactionBegin 0) "s" more).2 = true
  ∧ refused "ErrConflict" (AppendTurn no_fault (blocked CheckpointTurnStarted 9) "s" more).2 = true.
Proof. vm_compute. auto. Qed.

(** A tool call takes the context version before its turns: when they trigger the
    budget guard, its own checkpoint is behind and the call is refused, whenever
    it is tried again. *)
Theorem compacting_tool_call_refused :
  refused "ErrConflict" (RecordToolCall no_fault tight "s" "t1" "grep" long "out" 0).2 = true.
Proof. vm_compute. reflexivity. Qed.

(** A tool call recorded at the session's version is not found again once a
    compaction has moved that version. *)
Definition recalled_call : World :=
  runs [ORecordToolCall "s" "t1" "grep" "in" "out" 0; OAppendTurn "s" (said "user" long "k1"); OAppendTurn "s" more] tight.
Theorem tool_call_replay_refused :
  contents recalled_call = ["in"; "out"; long; "more"] ∧
  refused "ErrConflict" (RecordToolCall no_fault recalled_call "s" "t1" "grep" "in" "out" 0).2 = true.
Proof. vm_compute. auto. Qed.

(** A summarizer's quality above one is accepted and written, and refused by the
    validation of the next start. *)
Definition overrated : Summarizer := λ _,
  inl {| sr_Content := "short"; sr_RetainedFacts := []; sr_DroppedFacts := []; sr_QualityScore := float64_of_Z 2 |}.
Definition summarized : World :=
  runs [OSetContextSummarizer (Some overrated); OAppendTurn "s" (said "user" long "k1"); OAppendTurn "s" more] tight.
Theorem overrated_summary_unopenable :
  contents summarized = [long; "more"] ∧ refused "ErrCorrupt" (New no_fault sample_path (hw_files summarized)).2 = true.
Proof. vm_compute. auto. Qed.

(** A review of a project's memory that could not be persisted is taken back in its
    status only: reviewer and reason stay. *)
Definition project_session : Session :=
  {| se_ID := "s"; se_TenantID := "tenant"; se_WorkspaceID := "ws"; se_ProjectID := "p"; se_BudgetTokens := 0;
     se_AutoCompaction := false; se_CompactionThreshold := S754_zero false; se_CompactionRetainTail := 1;
     se_AutoCompactionSet := false; se_ContextVersion := 0; se_CreatedAt := 0; se_UpdatedAt := 0 |}.
Definition project_memory (source : string) : MemoryItem :=
  {| mi_ID := "m"; mi_SessionID := "s"; mi_Scope := "project"; mi_ProjectID := "p"; mi_Kind := "fact"; mi_Fingerprint := "";
     mi_Content := "uses go"; mi_SourceIDs := [source]; mi_Confidence := float_one; mi_Importance := float_one;
     mi_Status := "candidate"; mi_QualityScore := float_one; mi_EvidenceHash := ""; mi_Sensitivity := "";
     mi_PollutionLineage := []; mi_ConflictPackage := []; mi_Reviewer := ""; mi_LastReason := ""; mi_Pinned := false;
     mi_ExpiresAt := None; mi_Supersedes := []; mi_CreatedAt := 0 |}.
Definition remembered : World :=
  runs [OCreateSession project_session; OAppendTurn "s" objective; OAddMemory (project_memory "id0")] (start sample_path).
Definition reviewed : World := run (OTransitionMemory "s" "m" "confirmed" "eve" "checked") (faulty (Some cut) None None) remembered.
Definition verdicts (w : World) : list (string * string) := (λ m, (mi_Status m, mi_Reviewer m)) <$> projects_of w "p".
Theorem failed_review_kept :
  verdicts remembered = [("candidate", "")] ∧ verdicts reviewed = [("candidate", "eve")].
Proof. vm_compute. auto. Qed.

(** The journal removed after every write is what keeps acknowledged work: when a
    record of an earlier, failed write is left in it, the next append to it is torn, and
    then a write succeeds whose journal cannot be removed and whose transcript line is
    torn too, a restart prefers the old record to the snapshot of the same revision.
    The acknowledged turn is gone. *)
Definition kept_io (journal : AppendFault) (rename : option error) (kept : bool) (transcript : AppendFault) : Io :=
  {| hi_fresh := hi_fresh no_fault; hi_read_snapshot := None; hi_read_journal := None; hi_read_transcript := None;
     hi_lock := None; hi_before := None; hi_journal := journal; hi_rename := rename; hi_sync := None; hi_kept := kept;
     hi_transcript := λ _, transcript |}.
Definition torn_journal : World :=
  run OFlush (kept_io torn None false None) (run OFlush (kept_io None (Some cut) false None) opened).
Definition kept_turns : World := run (OAppendTurn "s" objective) (kept_io None None true torn) torn_journal.
Theorem kept_journal_loses_turn :
  contents kept_turns = ["build it"] ∧ contents (reopened kept_turns) = [].
Proof. vm_compute. auto. Qed.
