(* ===== verification/Findings.v ===== *)
(** * Findings: behaviours the model exhibits that the sources do not intend

    Each lemma evaluates the model on a concrete input. *)
From stdpp Require Import base strings gmap list pretty.
From Stdlib Require Import ZArith Lia.
From S2P Require Import Prelude GoLib GoValue GoJson ContextModel OrchModel GraphSearch Validate PredicateSpec GraphSpec ProjectionData Projection Repair Transition ContextSpec Samples StartSpec RouteSpec FinishSpec ReducerInv Scheduler Machine ReducerProps.

(** The token budget check adds two [int64]s: telemetry of 2^63-1 tokens wraps
    the sum below zero, so a plan with a budget of 50 tokens accepts it and its
    usage counter becomes negative. *)
Lemma token_budget_wraps :
  let out := finish tight_plan tight_start.1 "a1" "success" "k2" 20 {["tokens" := VInt KInt64 (two63 - 1)]} in
  bg_Tokens (pol_Budget (pl_PolicySnapshot tight_plan)) = 50%Z ∧
  out.2 = Ok (attempt_of out.1 "a1") ∧ (pp_TokenUsage out.1 < 0)%Z.
Proof. vm_compute. split_and!; reflexivity. Qed.

(** A completion whose routing fails is rolled back, but not its usage: the
    tokens of the refused result are charged. *)
Lemma rollback_keeps_usage :
  let out := finish sample_plan thrice "a6" "bug" "finish:a6" 20 {["tokens" := VInt KInt64 5]} in
  out.2 = Err (ESentinel ErrLoopExhausted) ∧ pp_TokenUsage out.1 = (pp_TokenUsage thrice + 5)%Z.
Proof. vm_compute. split_and!; reflexivity. Qed.

(** Repeating a start under its own key is not idempotent at the concurrency
    limit: the budget is checked before the key, and the attempt counts itself. *)
Lemma start_replay_refused_at_limit :
  tight_start.2 = Ok (attempt_of tight_start.1 "a1") ∧
  (start tight_plan tight_start.1 "build" "a1" "k1" 10).2 = Err (ESentinel ErrBudgetExceeded).
Proof. vm_compute. split; reflexivity. Qed.

(** A failed build whose plan has ended. *)
Definition failed_build : PlanProjection := run_one sample_plan ∅ (new_of sample_plan) "build" "a1" "failure".

(** [Retry] of a node id with surrounding space succeeds but leaves the node
    failed and stores a second entry under the untrimmed id, which
    [PlanProjection.Validate] rejects. *)
Lemma retry_untrimmed_id :
  let out := Retry failed_build sample_plan " build" in
  out.2 = Ok tt ∧ np_Status (node_at out.1 "build") = AttemptFailed ∧
  np_Status (node_at out.1 " build") = AttemptReady ∧
  PlanProjection_Validate out.1 = Err (Errorf "invalid node projection %s" [" build"]).
Proof. vm_compute. split_and!; reflexivity. Qed.

(** A repair round whose patch attempt fails is counted and planned again, but
    its target is not reopened: the node is still running when the round is
    reset, and the failed status is written afterwards.  With no failure edge
    the plan ends as failed although a round is left. *)
Lemma failed_patch_does_not_reopen_target :
  let p := run_one repair_plan ∅ repair_planned "build" "a4" "failure" in
  (λ r, (rp_State r, rp_Round r, rp_MaxRounds r)) <$> pp_RepairPlans p !! "plan:repair:a3"
    = Some (RepairPlanned, 2%Z, 2%Z) ∧
  np_Status (node_at p "build") = AttemptFailed ∧ pp_Status p = PlanTerminal ∧ pp_TerminalOutcome p = "failed".
Proof. vm_compute. split_and!; reflexivity. Qed.

(** The same graph with the verification node listed twice. *)
Definition double_node : WorkflowNode := {|
  wn_ID := "fix"; wn_Kind := NodeRepair; wn_AgentRef := None; wn_SquadRef := None;
  wn_InputContract := wn_InputContract repair_node; wn_OutputContract := wn_OutputContract repair_node;
  wn_ContextPolicy := wn_ContextPolicy repair_node; wn_ToolPolicy := wn_ToolPolicy repair_node;
  wn_RetryPolicy := wn_RetryPolicy repair_node; wn_Timeout := 0; wn_Budget := zero_Budget;
  wn_JoinPolicy := JoinUnset; wn_JoinQuorum := 0; wn_JoinFailurePolicy := "";
  wn_GatePolicy := wn_GatePolicy repair_node; wn_MergePolicy := wn_MergePolicy repair_node;
  wn_RepairPolicy := {| rpol_TargetNodeID := ""; rpol_Scope := []; rpol_VerificationNodeIDs := ["qa"; "qa"];
                        rpol_MaxRounds := 2; rpol_Budget := zero_Budget |} |}.
Definition double_graph : WorkflowGraph := {|
  g_ID := "graph"; g_Version := 1; g_EntryNodeIDs := ["build"]; g_ExitNodeIDs := ["approve"];
  g_Nodes := [sample_node "build" NodeAgent; sample_node "qa" NodeAgent; double_node; sample_node "approve" NodeHuman];
  g_Edges := g_Edges repair_graph; g_ValidationDigest := "" |}.
Definition double_plan : RequirementExecutionPlan := sample_plan_of double_graph (budget 0 0).
Definition double_fields : gmap string value :=
  {["target_node_id" := VString "build"; "verification_node_ids" := VStrings ["qa"; "qa"];
    "max_rounds" := VInt KInt 2]}.

(** A repeated verification node passes [ValidateGraph] and the planning of the
    repair, but the resulting projection cannot be persisted. *)
Lemma duplicate_verification_node :
  let p := run_one double_plan double_fields (run_one double_plan ∅ (run_one double_plan ∅ (new_of double_plan)
    "build" "a1" "success") "qa" "a2" "bug") "fix" "a3" "success" in
  ValidateGraph double_graph = Ok tt ∧ na_Status (attempt_of p "a3") = AttemptPassed ∧
  PlanProjection_Validate p =
    Err (Errorf "repair plan %s has duplicate verification node %s" ["plan:repair:a3"; "qa"]).
Proof. vm_compute. split_and!; reflexivity. Qed.

(** build fans out to qa (at most twice) and docs (at most once); qa sends bugs back. *)
Definition fan_edge (id from to : string) (limit : Z) : WorkflowEdge := {|
  we_ID := id; we_From := from; we_To := to; we_On := EdgeSuccess; we_Predicate := zero_Predicate; we_Priority := 0;
  we_MaxTraversals := limit; we_RequiredEvidence := []; we_LoopGroup := "loop"; we_FanOut := true |}.
Definition fan_graph : WorkflowGraph := {|
  g_ID := "graph"; g_Version := 1; g_EntryNodeIDs := ["build"]; g_ExitNodeIDs := ["approve"];
  g_Nodes := [sample_node "build" NodeAgent; sample_node "qa" NodeAgent; sample_node "docs" NodeAgent;
              sample_node "approve" NodeHuman];
  g_Edges := [fan_edge "e1" "build" "qa" 2; fan_edge "e2" "build" "docs" 1; sample_edge "e3" "qa" "build" EdgeBug 9;
              sample_edge "e4" "qa" "approve" EdgeSuccess 0; sample_edge "e5" "docs" "approve" EdgeSuccess 0];
  g_ValidationDigest := "" |}.
Definition fan_plan : RequirementExecutionPlan := sample_plan_of fan_graph (budget 0 0).
(** build passes, qa reports a bug, and build passes again: the second fan-out fails
    at docs, is rolled back, and leaves qa open; then twice more. *)
Definition fan_round (p : PlanProjection) (qa key : string) : PlanProjection :=
  (finish fan_plan (run_one fan_plan ∅ p "qa" qa "bug") "b2" "success" key 20 ∅).1.
Definition fan_start : PlanProjection :=
  (start fan_plan (run_one fan_plan ∅ (run_one fan_plan ∅ (new_of fan_plan) "build" "b1" "success") "qa" "q1" "bug")
     "build" "b2" "start:b2" 10).1.
Definition fan_again : PlanProjection :=
  fan_round (fan_round (finish fan_plan fan_start "b2" "success" "k1" 20 ∅).1 "q2" "k2") "q3" "k3".

(** A fan-out that fails is rolled back in its counters and decisions only: the
    targets it opened before the failure stay open, so qa has run three times and is
    ready for a fourth along an edge with the limit two whose counter says one. *)
Lemma failed_fan_out_reopens :
  ValidateGraph fan_graph = Ok tt ∧
  (finish fan_plan fan_start "b2" "success" "k1" 20 ∅).2 = Err (ESentinel ErrLoopExhausted) ∧
  (na_Status <$> pp_Attempts fan_again !! "q3") = Some AttemptFailed ∧
  np_Status (node_at fan_again "qa") = AttemptReady ∧
  traversals_at fan_again "e1" = 1%Z ∧ times_decided "e1" (pp_Decisions fan_again) = 1%Z.
Proof. vm_compute. split_and!; reflexivity. Qed.
